(* ===== verification/_CoqProject ===== *)
-Q . S2P
Prelude.v
Bytes.v
Text.v
RtpPacket.v
Rtcp.v
Stream.v
Reorder.v
FlacRtp.v
MediaTime.v
Adts.v
Framer.v
AdtsFrame.v
Mpa.v
Mp3Stream.v
HttpFormat.v
HttpClient.v
Aac.v
Backoff.v
Supervisor.v
Latm.v
TsDemux.v
Mp4.v
Fmp4.v
G726.v
G726Itu.v
Pcm.v
Media.v
Pipeline.v
Transport.v
Message.v
Reader.v
Dispatch.v
Negotiate.v
Hash.v
HttpAuth.v
Sdp.v
ControlUrl.v
UrlTarget.v
Request.v
Setup.v
Session.v
SessionUrls.v
Playlist.v
Effect.v
Hls.v
HlsPlay.v
HlsStory.v
Udp.v
UdpMedia.v
HttpOpen.v
