(* ===== verification/Prelude.v ===== *)
(** * A verification of go-audio-stream

    The library opens a live audio source (an RTSP camera, a progressive HTTP stream, an HLS
    playlist, a UDP port), turns what the network sends into frames of audio with presentation times, and
    hands them to a callback; a supervisor reconnects sources that end.  This development
    translates that code from [src/], definition by definition, and proves what it is for.

    ** The parts, and the files that model them

    Shared vocabulary:
    - [Prelude]: outcomes of a Go function ([res]: a value, an error, a panic), machine widths,
      tactics and hints; [Bytes]: slices with Go's bounds checks, big-endian accessors; [Text]:
      what the code uses of [strings] and [strconv]; [Hash]: MD5, SHA-256, hex, base64.

    RTP and RTCP ([rtsp/rtp]):
    - [RtpPacket] (packets), [Rtcp] (compounds, reports, NTP), [Stream] (sequence numbers, loss,
      64-bit timestamps), [Reorder] (the resequencing ring of the UDP paths).

    Codecs ([depacket/*], [packet/*], [internal/adts*], [internal/mp3], [internal/mp4], [internal/mediatime]):
    - [Adts], [Framer] (the interface of a compressed-stream framer, with its laws), [AdtsFrame]
      and [Mp3Stream] (its instances), [Mpa], [Aac], [FlacRtp], [Latm], [G726] (with [G726Itu], the decoder of
      the standard it is compared to), [Pcm], [MediaTime], [Mp4].

    HTTP source ([httpsource]): [HttpFormat] (what the body is), [HttpClient] (the reader loops, against
    the [Framer] interface), [HttpOpen] (Open: requests, credentials, challenges, the bodies it holds; the watchdog).

    HLS source ([hlssource]): [TsDemux] and [Fmp4] (the two demuxers), [Playlist] ([playlist.go]), [Hls]
    ([client.go]: Open, the reader, requests; the demuxers behind an interface with laws), [HlsPlay] (what
    playing keeps), [HlsStory] (which requests and which audio the answers of the servers make); [Effect] is the shape of their operations, with its Hoare rules.

    UDP source ([udpsource]): [Udp] (Open, the receive loop in its two modes, RTCP on either socket, on the
    shape of [Effect]), [UdpMedia] (what it keeps, and that resequencing restores the order).

    RTSP client ([rtsp]), bottom up:
    - [Media] (public data types), [Pipeline] ([pipeline.go]: one track, from a packet to the
      callbacks), [Transport] ([udprecv.go]: the two ways packets reach a track);
    - [Message] ([message.go]: requests, responses, interleaved frames), [Reader] ([reader.go]: the goroutine
      that owns the connection), [Dispatch] (where its units must go, said without it), [Negotiate] ([transport.go], [status.go], [state.go]), [HttpAuth]
      ([internal/httpauth]), [Sdp] ([rtsp/sdp]), [ControlUrl] ([controlurl.go]), [UrlTarget]
      ([internal/urltarget], the target of [config.go]);
    - [Request] ([request.go]: a request beside the running reader), [Setup] ([setup.go], [udp.go]), [Session]
      ([client.go], [describe.go], [play.go], [keepalive.go]: a session from Dial to its end),
      [SessionUrls] (where its requests go).

    Supervision ([supervisor]): [Backoff] (the schedule, on a model of binary64), [Supervisor] (the
    goroutine and its callers as a small-step machine).

    ** How code is read

    A Go struct is a Record, an error value a constructor, a method that changes its receiver a
    function from the state to the new state, what it hands to callbacks a list of events in
    order.  Index and slice expressions check their bounds and give [Panic] as Go does, so "never
    panics" is proved, not assumed.  Integers carry their width where it can matter ([u8] to
    [u64], [i32], [i64] wrap); an [int] is 64 bits wide.  In [Latm], where two slices share
    arrays, the store and its aliasing are explicit.

    Goroutines: [Reader] is one loop over what the reads of a connection return.  A caller's
    operation ([Request] to [Session]) is a computation on the client's state ([op]); wherever it
    waits or gives up a lock, a [turn] runs: what the reader read meanwhile, and a shutdown by
    somebody else.  The turns, the randomness, the ports and the clock are the environment
    ([env]); theorems hold for every environment, so for every interleaving at these points.
    [Supervisor] interleaves single steps.

    Loops that are not structural take fuel computed from the input (the length of the octets
    left, the attempts left); the theorems of each file show that it never runs out: running out
    would be [Panic], and they exclude it.

    ** What is shown

    - refinement: the ring is the unbounded resequencer, [Observe] an observer on unbounded
      integers, the supervisor keeps the contract of its callback under every interleaving;
    - exactness of the media paths: ADTS, MP3, transport stream, fMP4, FLAC, AAC, LATM
      streams that are well formed come out unit by unit, however the octets are cut; G.726 is decoded as a
      second description of the standard says; the HTTP reader loses no frame of its framer; the two
      RTSP transports deliver the same;
    - dispatch: the octets of a connection are cut into units, and every unit reaches its track, its
      caller or an answer, as a description that shares no handler with the reader says;
    - safety on hostile octets: packets, segments, boxes, messages, descriptions, challenges and
      whole connections never panic and keep the invariants of the state; the counters balance;
    - the RTSP session: what is sent is what the other side reads; Setup, Describe and Play keep the
      session's invariants whatever is answered; credentials go out only after a challenge, with
      nonce counts never used twice, and only to the host that was configured; requests are
      bounded, so every call ends;
    - opening an HTTP source: what is sent, with which credentials, and that no response is leaked; its watchdog
      fires on silence only;
    - the HLS session: a playlist that was written is read back; segments are played once and in order, each lost
      one reported once; credentials stay with the configured host; a complete playlist is played to its end; Open
      succeeds exactly when the answers allow it, and what is asked for and delivered follows from them;
    - the UDP source: safe from Open to its end, its sender clock is that of the source it plays, resequenced
      media are those of an ordered network;
    - bounds and liveness of the supervisor's schedule and shutdown.

    ** Assumptions and limits

    [strings.EqualFold] is exact where one argument is ASCII, as it always is, and [strings.Map] on any octets;
    [strings.ToLower] and [strings.ToUpper] change ASCII letters only.  [net/url] is the class
    [NetURL] with the rules [NetURLLaws] for hosts without percent-encoding (its check for control
    characters stops at the fragment), and [textual] is an instance.  [net/http] is what its calls return; whether it
    copies a header onto a redirect is the flag [h_copied] of the environment.  The parser of media
    types ([mime]) is a parameter of [HttpFormat].  Hash functions are executable, nothing is assumed of them.

    Not modelled: sockets, TLS, dialling, deadlines and timers (they appear as what a read, a
    request or a turn returns); logging; the accessors that only read a
    client; the diagnostics command, the test server, linters and documentation packages.

    * Shared vocabulary of the development *)
From Stdlib Require Export ZArith Lia Bool.
From stdpp Require Export base numbers list option.

#[export] Set Default Goal Selector "!".
Global Open Scope Z_scope.

(** ** Outcomes of a Go function

    A Go function that returns [(value, error)] either returns a value, returns
    one of the error values its package declares, or panics at run time (an
    index or slice expression out of range, a division by zero).  [Panic] is an
    outcome of the model so that "never panics" is a theorem and not an
    assumption. *)
Inductive res (E A : Type) : Type :=
  | Ok (a : A)
  | Err (e : E)
  | Panic.
Arguments Ok {E A} a.
Arguments Err {E A} e.
Arguments Panic {E A}.

(** The error type of a function that reports none. *)
Abbreviation no_err := Empty_set.

#[export] Instance res_ret E : MRet (res E) := λ A a, Ok a.
#[export] Instance res_bind E : MBind (res E) := λ A B f m,
  match m with Ok a => f a | Err e => Err e | Panic => Panic end.
#[export] Instance res_fmap E : FMap (res E) := λ A B f m,
  match m with Ok a => Ok (f a) | Err e => Err e | Panic => Panic end.

#[export] Instance res_eq_dec E A `{EqDecision E, EqDecision A} : EqDecision (res E A).
Proof. solve_decision. Defined.

Lemma bind_Ok {E A B} (a : A) (f : A → res E B) : (Ok a ≫= f) = f a.
Proof. done. Qed.
Lemma bind_ret {E A B} (a : A) (f : A → res E B) : (mret a ≫= f) = f a.
Proof. done. Qed.
Lemma bind_Err {E A B} (e : E) (f : A → res E B) : (Err e ≫= f) = Err e.
Proof. done. Qed.

Lemma Ok_inv {E A} (a b : A) : @Ok E A a = Ok b → a = b.
Proof. by intros [= ->]. Qed.

Lemma bind_no_panic {E A B} (m : res E A) (f : A → res E B) :
  m ≠ Panic → (∀ a, m = Ok a → f a ≠ Panic) → (m ≫= f) ≠ Panic.
Proof. destruct m; intros Hm Hf; [by apply Hf | done | done]. Qed.

Lemma bind_ok_inv {E A B} (m : res E A) (f : A → res E B) b :
  (m ≫= f) = Ok b → ∃ a, m = Ok a ∧ f a = Ok b.
Proof. destruct m as [a| |]; cbn; [eauto | done | done]. Qed.

(** A computation that does not panic, and whose value satisfies [P] when it returns
    one. *)
Definition returns {E A} (m : res E A) (P : A → Prop) : Prop :=
  match m with Ok a => P a | Err _ => True | Panic => False end.

Lemma returns_bind {E A B} (m : res E A) (f : A → res E B) (P : A → Prop) (Q : B → Prop) :
  returns m P → (∀ a, P a → returns (f a) Q) → returns (m ≫= f) Q.
Proof. destruct m as [a|e|]; cbn; auto. Qed.
Lemma returns_weaken {E A} (m : res E A) (P Q : A → Prop) :
  returns m P → (∀ a, P a → Q a) → returns m Q.
Proof. destruct m; cbn; auto. Qed.
Lemma returns_no_panic {E A} (m : res E A) P : returns m P → m ≠ Panic.
Proof. by destruct m. Qed.
(** Without errors the computation returns. *)
Lemma returns_total {A} (m : res no_err A) P : returns m P → ∃ a, m = Ok a ∧ P a.
Proof. destruct m as [a|[]|]; cbn; [eauto|done]. Qed.

(** ** Machine integers

    A Go integer is a [Z]; every operation that can leave its width is followed
    by the wrap of that width. *)
Definition u8 (z : Z) : Z := z mod 2 ^ 8.
Definition u16 (z : Z) : Z := z mod 2 ^ 16.
Definition u32 (z : Z) : Z := z mod 2 ^ 32.
Definition u64 (z : Z) : Z := z mod 2 ^ 64.
Definition i16 (z : Z) : Z := (z + 2 ^ 15) mod 2 ^ 16 - 2 ^ 15.
Definition i32 (z : Z) : Z := (z + 2 ^ 31) mod 2 ^ 32 - 2 ^ 31.
Definition i64 (z : Z) : Z := (z + 2 ^ 63) mod 2 ^ 64 - 2 ^ 63.

Definition is_u8 (z : Z) : Prop := 0 ≤ z < 2 ^ 8.
Definition is_u16 (z : Z) : Prop := 0 ≤ z < 2 ^ 16.
Definition is_u32 (z : Z) : Prop := 0 ≤ z < 2 ^ 32.
Definition is_u64 (z : Z) : Prop := 0 ≤ z < 2 ^ 64.

(** A Go byte slice: a list of integers, each in the byte range. *)
Definition bytes_ok (l : list Z) : Prop := Forall is_u8 l.

Create HintDb stream.
#[export] Hint Unfold is_u8 is_u16 is_u32 is_u64 : stream.

Lemma u8_small z : is_u8 z → u8 z = z.
Proof. apply Z.mod_small. Qed.
Lemma u16_small z : is_u16 z → u16 z = z.
Proof. apply Z.mod_small. Qed.
Lemma u32_small z : is_u32 z → u32 z = z.
Proof. apply Z.mod_small. Qed.
Lemma u64_small z : is_u64 z → u64 z = z.
Proof. apply Z.mod_small. Qed.
Lemma u8_range z : is_u8 (u8 z).
Proof. apply Z.mod_pos_bound; lia. Qed.
Lemma u16_range z : is_u16 (u16 z).
Proof. apply Z.mod_pos_bound; lia. Qed.
Lemma u32_range z : is_u32 (u32 z).
Proof. apply Z.mod_pos_bound; lia. Qed.
Lemma u64_range z : is_u64 (u64 z).
Proof. apply Z.mod_pos_bound; lia. Qed.
#[export] Hint Resolve u8_range u16_range u32_range u64_range : stream.

Lemma i16_small z : - 2 ^ 15 ≤ z < 2 ^ 15 → i16 z = z.
Proof. intros. unfold i16. rewrite Z.mod_small by lia. lia. Qed.
Lemma i32_small z : - 2 ^ 31 ≤ z < 2 ^ 31 → i32 z = z.
Proof. intros. unfold i32. rewrite Z.mod_small by lia. lia. Qed.
Lemma i64_small z : - 2 ^ 63 ≤ z < 2 ^ 63 → i64 z = z.
Proof. intros. unfold i64. rewrite Z.mod_small by lia. lia. Qed.
Lemma i16_range z : - 2 ^ 15 ≤ i16 z < 2 ^ 15.
Proof. unfold i16. pose proof (Z.mod_pos_bound (z + 2 ^ 15) (2 ^ 16)). lia. Qed.
Lemma i32_range z : - 2 ^ 31 ≤ i32 z < 2 ^ 31.
Proof. unfold i32. pose proof (Z.mod_pos_bound (z + 2 ^ 31) (2 ^ 32)). lia. Qed.

(** A difference of two residues, reduced: at most one turn of the circle away. *)
Lemma mod_near x m : - m ≤ x < m → x mod m = if x <? 0 then x + m else x.
Proof.
  intros H. destruct (Z.ltb_spec x 0); [|apply Z.mod_small; lia].
  replace x with (x + m + (-1) * m) at 1 by lia. rewrite Z.mod_add by lia. apply Z.mod_small. lia.
Qed.

(** ** Bit fields *)
Lemma lor_shiftl_add n hi lo :
  0 ≤ n → 0 ≤ lo < 2 ^ n → Z.lor (Z.shiftl hi n) lo = hi * 2 ^ n + lo.
Proof.
  intros Hn Hlo. rewrite Z.shiftl_mul_pow2 by lia. symmetry. apply Z.add_nocarry_lor.
  apply Z.bits_inj'. intros i Hi. rewrite Z.land_spec, Z.bits_0.
  destruct (decide (lo = 0)) as [->|]; [by rewrite Z.bits_0, andb_false_r|].
  destruct (Z.ltb_spec i n); [by rewrite Z.mul_pow2_bits_low|].
  rewrite (Z.bits_above_log2 lo), andb_false_r; [done | lia |].
  apply Z.log2_lt_pow2; [lia|]. apply Z.lt_le_trans with (2 ^ n); [lia|].
  apply Z.pow_le_mono_r; lia.
Qed.

Lemma land_ones_mod n z k : 0 ≤ n → k = Z.ones n → Z.land z k = z mod 2 ^ n.
Proof. intros ? ->. by apply Z.land_ones. Qed.

(** ** Automation *)

(** Case analysis on the integer comparisons and boolean tests of the goal. *)
Ltac zcase_step :=
  match goal with
  | |- context [Z.ltb ?a ?b] => destruct (Z.ltb_spec a b)
  | |- context [Z.leb ?a ?b] => destruct (Z.leb_spec a b)
  | |- context [Z.eqb ?a ?b] => destruct (Z.eqb_spec a b)
  | |- context [Z.gtb ?a ?b] => rewrite (Z.gtb_ltb a b)
  | |- context [Z.geb ?a ?b] => rewrite (Z.geb_leb a b)
  end.
Ltac zcase := repeat (zcase_step; cbn [negb andb orb]; try lia; try reflexivity).

(** The same in a hypothesis. *)
Ltac zcase_in H :=
  repeat match type of H with
  | context [Z.ltb ?a ?b] => destruct (Z.ltb_spec a b)
  | context [Z.leb ?a ?b] => destruct (Z.leb_spec a b)
  | context [Z.eqb ?a ?b] => destruct (Z.eqb_spec a b)
  end.

(** Invert the [Ok]/[Err] outcome of a monadic computation one bind at a time. *)
Ltac res_inv H :=
  cbv [mbind res_bind mret res_ret fmap res_fmap] in H;
  repeat match type of H with
  | (match ?m with Ok _ => _ | Err _ => _ | Panic => _ end) = _ =>
      let E := fresh "E" in destruct m eqn:E; try discriminate H
  | (if ?b then _ else _) = _ =>
      let E := fresh "C" in destruct b eqn:E; try discriminate H
  end.

(** Reflect boolean facts in hypotheses into propositions [lia] reads. *)
Ltac breflect :=
  repeat match goal with
  | H : (_ && _)%bool = true |- _ => apply andb_true_iff in H; destruct H
  | H : (_ || _)%bool = false |- _ => apply orb_false_iff in H; destruct H
  | H : (_ && _)%bool = false |- _ => apply andb_false_iff in H
  | H : (_ || _)%bool = true |- _ => apply orb_true_iff in H
  | H : negb _ = true |- _ => apply negb_true_iff in H
  | H : negb _ = false |- _ => apply negb_false_iff in H
  | H : (_ <? _) = true |- _ => apply Z.ltb_lt in H
  | H : (_ <? _) = false |- _ => apply Z.ltb_ge in H
  | H : (_ <=? _) = true |- _ => apply Z.leb_le in H
  | H : (_ <=? _) = false |- _ => apply Z.leb_gt in H
  | H : (_ =? _) = true |- _ => apply Z.eqb_eq in H
  | H : (_ =? _) = false |- _ => apply Z.eqb_neq in H
  end.

(** A decidable fact about every byte, checked by evaluation. *)
Lemma byte_forall (P : Z → bool) :
  forallb P (seqZ 0 256) = true → ∀ b, is_u8 b → P b = true.
Proof.
  intros H b Hb. eapply forallb_forall in H; [exact H|].
  apply list_elem_of_In, elem_of_seqZ. unfold is_u8 in Hb. lia.
Qed.

Lemma range_forall (n : Z) (P : Z → bool) :
  forallb P (seqZ 0 n) = true → ∀ b, 0 ≤ b < n → P b = true.
Proof.
  intros H b Hb. eapply forallb_forall in H; [exact H|].
  apply list_elem_of_In, elem_of_seqZ. lia.
Qed.

(** ** Lists *)
Definition blen {A} (l : list A) : Z := Z.of_nat (length l).

Lemma blen_nil {A} : blen (@nil A) = 0.
Proof. reflexivity. Qed.
Lemma blen_cons {A} (x : A) l : blen (x :: l) = 1 + blen l.
Proof. unfold blen. cbn [length]. lia. Qed.
Lemma blen_app {A} (l k : list A) : blen (l ++ k) = blen l + blen k.
Proof. unfold blen. rewrite length_app. lia. Qed.
Lemma blen_nonneg {A} (l : list A) : 0 ≤ blen l.
Proof. unfold blen. lia. Qed.
Lemma blen_zero {A} (l : list A) : blen l = 0 → l = [].
Proof. destruct l; [done|]. rewrite blen_cons. pose proof (blen_nonneg l). lia. Qed.
Create Rewrite HintDb blen.
#[export] Hint Rewrite @blen_nil @blen_cons @blen_app : blen.

(** Two splits of one list: the shorter prefix is a prefix of the longer. *)
Lemma app_split_le {A} (l1 l2 k1 k2 : list A) :
  l1 ++ l2 = k1 ++ k2 → blen k1 ≤ blen l1 → ∃ r, l1 = k1 ++ r ∧ r ++ l2 = k2.
Proof.
  intros E Hl. destruct (app_eq_app _ _ _ _ E) as [r [[-> ->]|[-> ->]]]; [by exists r|].
  rewrite blen_app in Hl. destruct r as [|x r].
  - exists []. by rewrite !app_nil_r.
  - rewrite blen_cons in Hl. pose proof (blen_nonneg r). lia.
Qed.

Lemma blen_concat_pos {A} (l : list A) : l ≠ [] → 0 < blen l.
Proof. destruct l; [done|]. rewrite blen_cons. pose proof (blen_nonneg l). lia. Qed.

Lemma blen_drop {A} (l : list A) n : 0 ≤ n ≤ blen l → blen (drop (Z.to_nat n) l) = blen l - n.
Proof. unfold blen. rewrite length_drop. lia. Qed.

Lemma blen_take {A} (l : list A) n : 0 ≤ n ≤ blen l → blen (take (Z.to_nat n) l) = n.
Proof. unfold blen. rewrite length_take. lia. Qed.

Lemma drop_blen_app {A} (l k : list A) n : n = blen l → drop (Z.to_nat n) (l ++ k) = k.
Proof. intros ->. unfold blen. by rewrite Nat2Z.id, drop_app_length. Qed.

Lemma take_blen_app {A} (l k : list A) n : n = blen l → take (Z.to_nat n) (l ++ k) = l.
Proof. intros ->. unfold blen. by rewrite Nat2Z.id, take_app_length. Qed.

(** Rewrite [blen] over constructors, note every length is non-negative, [lia]. *)
Ltac blen_pos :=
  repeat match goal with
  | |- context [blen ?l] =>
      lazymatch goal with H : 0 ≤ blen l |- _ => fail | _ => pose proof (blen_nonneg l) end
  | _ : context [blen ?l] |- _ =>
      lazymatch goal with H : 0 ≤ blen l |- _ => fail | _ => pose proof (blen_nonneg l) end
  end.
Ltac blia := autorewrite with blen in *; blen_pos; lia.

(** One bind of a [returns] goal: [t] proves what the first computation returns. *)
Tactic Notation "rbind" tactic3(t) := eapply returns_bind; [t|cbv beta].
