(* ===== verification/Bytes.v ===== *)
(** * Byte slices and fixed-width codecs

    Go's index and slice expressions with their run-time bounds checks, the
    big-endian and little-endian accessors of [encoding/binary], and the
    MSB-first bit view the bit readers are specified against.  A slice
    expression [b[lo:hi]] is checked against the length of [b], which is at
    most its capacity: the model panics wherever Go does. *)
From Stdlib Require Import Ascii String.
From S2P Require Import Prelude.

(** ** Index and slice expressions *)
Definition byte_at {E} (buf : list Z) (i : Z) : res E Z :=
  if i <? 0 then Panic
  else match buf !! Z.to_nat i with Some b => Ok b | None => Panic end.

Definition slice {E} (buf : list Z) (lo hi : Z) : res E (list Z) :=
  if (0 <=? lo) && (lo <=? hi) && (hi <=? blen buf)
  then Ok (take (Z.to_nat (hi - lo)) (drop (Z.to_nat lo) buf))
  else Panic.

(** [b[lo:]] *)
Definition slice_from {E} (buf : list Z) (lo : Z) : res E (list Z) :=
  slice buf lo (blen buf).

(** ** [encoding/binary] *)
Definition be_combine (l : list Z) : Z := fold_left (λ acc b, acc * 256 + b) l 0.

Fixpoint be_split (n : nat) (v : Z) : list Z :=
  match n with
  | O => []
  | S n => v / 2 ^ (8 * Z.of_nat n) mod 256 :: be_split n v
  end.

(** [binary.BigEndian.Uint16/Uint32(buf[off:off+n])] *)
Definition be_at {E} (n : Z) (buf : list Z) (off : Z) : res E Z :=
  s ← slice buf off (off + n); mret (be_combine s).

Definition le_combine (l : list Z) : Z := foldr (λ b acc, b + 256 * acc) 0 l.

(** [binary.LittleEndian.PutUint16] *)
Definition le16 (v : Z) : list Z := [v mod 256; v / 256 mod 256].
(** [binary.BigEndian.PutUint16] *)
Definition be16 (v : Z) : list Z := [v / 256 mod 256; v mod 256].

(** [binary.LittleEndian.PutUint16(dst[off:], v)] *)
Definition put_le16 {E} (dst : list Z) (off v : Z) : res E (list Z) :=
  if (0 <=? off) && (off + 2 <=? blen dst)
  then Ok (take (Z.to_nat off) dst ++ le16 v ++ drop (Z.to_nat (off + 2)) dst) else Panic.

(** The octets of each 16-bit sample exchanged; an odd trailing octet is dropped. *)
Fixpoint swap16 (l : list Z) : list Z :=
  match l with a :: b :: l => b :: a :: swap16 l | _ => [] end.

(** [binary.LittleEndian.Uint16/Uint32(buf[off:off+n])] *)
Definition le_at {E} (n : Z) (buf : list Z) (off : Z) : res E Z :=
  s ← slice buf off (off + n); mret (le_combine s).

(** The octets of an ASCII literal. *)
Definition str (s : string) : list Z := (λ c, Z.of_N (N_of_ascii c)) <$> list_ascii_of_string s.

(** ** Lemmas: indexing *)
Lemma byte_at_inside {E} buf i :
  0 ≤ i < blen buf → ∃ b, @byte_at E buf i = Ok b ∧ buf !! Z.to_nat i = Some b.
Proof.
  intros Hi. unfold byte_at. zcase.
  destruct (lookup_lt_is_Some_2 buf (Z.to_nat i)) as [b Hb].
  { unfold blen in Hi. lia. }
  exists b. by rewrite Hb.
Qed.

Lemma byte_at_ok_inv {E} buf i b :
  @byte_at E buf i = Ok b → 0 ≤ i < blen buf ∧ buf !! Z.to_nat i = Some b.
Proof.
  unfold byte_at. destruct (Z.ltb_spec i 0); [done|].
  destruct (buf !! Z.to_nat i) eqn:Hl; [|done]. intros [= ->].
  split; [|done]. apply lookup_lt_Some in Hl. unfold blen. lia.
Qed.

Lemma byte_at_range {E} buf i b :
  bytes_ok buf → @byte_at E buf i = Ok b → is_u8 b.
Proof.
  intros Hok [_ Hl]%byte_at_ok_inv. eapply Forall_lookup_1; eauto.
Qed.

Lemma byte_at_not_err {E} buf i (e : E) : byte_at buf i ≠ Err e.
Proof. unfold byte_at. zcase; [done|]. by destruct (buf !! _). Qed.

Lemma byte_at_mid {E} pre x post i :
  i = blen pre → @byte_at E (pre ++ x :: post) i = Ok x.
Proof.
  intros ->. unfold byte_at. pose proof (blen_nonneg pre). zcase.
  unfold blen. rewrite Nat2Z.id, lookup_app_r by lia.
  by rewrite Nat.sub_diag.
Qed.

Lemma byte_at_fst {E} x l : @byte_at E (x :: l) 0 = Ok x.
Proof. done. Qed.
Lemma byte_at_snd {E} x y l : @byte_at E (x :: y :: l) 1 = Ok y.
Proof. done. Qed.

Lemma byte_at_cons {E} x l i :
  0 < i → @byte_at E (x :: l) i = byte_at l (i - 1).
Proof.
  intros Hi. unfold byte_at. zcase.
  replace (Z.to_nat i) with (S (Z.to_nat (i - 1))) by lia. done.
Qed.

Lemma byte_at_app_l {E} l k i :
  i < blen l → @byte_at E (l ++ k) i = byte_at l i.
Proof.
  intros Hi. unfold byte_at. zcase. rewrite lookup_app_l; [done|].
  unfold blen in Hi. lia.
Qed.

Lemma byte_at_app_r {E} l k i :
  blen l ≤ i → @byte_at E (l ++ k) i = byte_at k (i - blen l).
Proof.
  intros Hi. unfold byte_at. pose proof (blen_nonneg l). zcase.
  rewrite lookup_app_r by (unfold blen in Hi; lia).
  replace (Z.to_nat (i - blen l)) with (Z.to_nat i - length l)%nat by (unfold blen; lia).
  done.
Qed.

Lemma byte_at_drop {E} l n i :
  0 ≤ i → 0 ≤ n → @byte_at E (drop (Z.to_nat n) l) i = byte_at l (n + i).
Proof.
  intros Hi Hn. unfold byte_at. zcase. rewrite lookup_drop.
  replace (Z.to_nat (n + i)) with (Z.to_nat n + Z.to_nat i)%nat by lia. done.
Qed.

(** ** Lemmas: slicing *)
Lemma slice_ok {E} buf lo hi :
  0 ≤ lo ≤ hi → hi ≤ blen buf →
  @slice E buf lo hi = Ok (take (Z.to_nat (hi - lo)) (drop (Z.to_nat lo) buf)).
Proof. intros. unfold slice. zcase; done. Qed.

Lemma slice_from_ok {E} buf lo :
  0 ≤ lo ≤ blen buf → @slice_from E buf lo = Ok (drop (Z.to_nat lo) buf).
Proof.
  intros. unfold slice_from. rewrite slice_ok by lia.
  rewrite take_ge; [done|]. rewrite length_drop. unfold blen. lia.
Qed.

Lemma slice_ok_inv {E} buf lo hi s :
  @slice E buf lo hi = Ok s →
  0 ≤ lo ≤ hi ∧ hi ≤ blen buf ∧ s = take (Z.to_nat (hi - lo)) (drop (Z.to_nat lo) buf).
Proof.
  unfold slice. zcase; try done; intros [= <-]; repeat split; lia.
Qed.

Lemma slice_split {E} buf lo hi s :
  @slice E buf lo hi = Ok s →
  ∃ pre post, buf = pre ++ s ++ post ∧ blen pre = lo ∧ blen s = hi - lo.
Proof.
  intros (Hlo & Hhi & ->)%slice_ok_inv.
  exists (take (Z.to_nat lo) buf), (drop (Z.to_nat hi) buf). unfold blen in *.
  split_and!.
  - replace (Z.to_nat hi) with (Z.to_nat lo + Z.to_nat (hi - lo))%nat by lia.
    by rewrite <- drop_drop, take_drop, take_drop.
  - rewrite length_take. lia.
  - rewrite length_take, length_drop. lia.
Qed.

Lemma slice_mid {E} pre s post lo hi :
  lo = blen pre → hi = lo + blen s → @slice E (pre ++ s ++ post) lo hi = Ok s.
Proof.
  intros -> ->. pose proof (blen_nonneg pre). pose proof (blen_nonneg s).
  rewrite slice_ok by blia. f_equal. unfold blen.
  rewrite Nat2Z.id, drop_app_length.
  replace (Z.to_nat _) with (length s) by lia. apply take_app_length.
Qed.

Lemma slice_length {E} buf lo hi s : @slice E buf lo hi = Ok s → blen s = hi - lo.
Proof. intros (? & ? & ? & ? & ?)%slice_split. done. Qed.

Lemma slice_bytes_ok {E} buf lo hi s :
  bytes_ok buf → @slice E buf lo hi = Ok s → bytes_ok s.
Proof.
  intros Hok (_ & _ & ->)%slice_ok_inv. by apply Forall_take, Forall_drop.
Qed.

Lemma slice_not_err {E} buf lo hi (e : E) : slice buf lo hi ≠ Err e.
Proof. unfold slice. by destruct (_ && _). Qed.

(** ** Lemmas: codecs *)
Lemma be_combine_snoc l b : be_combine (l ++ [b]) = be_combine l * 256 + b.
Proof. unfold be_combine. by rewrite fold_left_app. Qed.

Lemma be_combine_acc l a :
  fold_left (λ acc b, acc * 256 + b) l a = a * 256 ^ blen l + be_combine l.
Proof.
  revert a. induction l as [|x l IH]; intros a.
  - rewrite blen_nil. change (256 ^ 0) with 1. unfold be_combine. simpl. lia.
  - unfold be_combine. cbn [fold_left]. rewrite !IH, blen_cons, Z.pow_add_r by blia. lia.
Qed.

Lemma be_combine_cons b l : be_combine (b :: l) = b * 256 ^ blen l + be_combine l.
Proof. unfold be_combine at 1. cbn [fold_left]. rewrite be_combine_acc. lia. Qed.

Lemma be_combine_app l k : be_combine (l ++ k) = be_combine l * 256 ^ blen k + be_combine k.
Proof.
  unfold be_combine at 1. rewrite fold_left_app, be_combine_acc. done.
Qed.

Lemma be_combine_range l : bytes_ok l → 0 ≤ be_combine l < 256 ^ blen l.
Proof.
  induction 1 as [|b l Hb Hl IH]; [split; vm_compute; congruence|].
  rewrite be_combine_cons, blen_cons, Z.pow_add_r by blia.
  unfold is_u8 in Hb. change (2 ^ 8) with 256 in Hb. nia.
Qed.

Lemma length_be_split n v : length (be_split n v) = n.
Proof. induction n; simpl; auto. Qed.
Lemma blen_be_split n v : blen (be_split n v) = Z.of_nat n.
Proof. unfold blen. by rewrite length_be_split. Qed.
#[export] Hint Rewrite blen_be_split : blen.

Lemma be_split_bytes_ok n v : bytes_ok (be_split n v).
Proof.
  induction n; simpl; constructor; auto. unfold is_u8. apply Z.mod_pos_bound. lia.
Qed.
#[export] Hint Resolve be_split_bytes_ok : stream.

Lemma pow256 n : 256 ^ Z.of_nat n = 2 ^ (8 * Z.of_nat n).
Proof. rewrite Z.pow_mul_r by lia. done. Qed.

Lemma be_combine_split n v : be_combine (be_split n v) = v mod 256 ^ Z.of_nat n.
Proof.
  induction n as [|n IH].
  - simpl. rewrite Z.mod_1_r. done.
  - cbn [be_split]. rewrite be_combine_cons, blen_be_split, IH.
    rewrite Nat2Z.inj_succ, Z.pow_succ_r, <- pow256 by lia.
    pose proof (Z.pow_pos_nonneg 256 (Z.of_nat n)).
    rewrite (Z.mul_comm 256), Z.rem_mul_r by lia. lia.
Qed.

Lemma be_combine_split_small n v :
  0 ≤ v < 256 ^ Z.of_nat n → be_combine (be_split n v) = v.
Proof. intros. rewrite be_combine_split. by apply Z.mod_small. Qed.

Lemma be_split_shift n v w :
  0 ≤ v < 256 ^ Z.of_nat n → be_split n (w * 256 ^ Z.of_nat n + v) = be_split n v.
Proof.
  intros Hv. assert (∀ m, (m ≤ n)%nat →
    be_split m (w * 256 ^ Z.of_nat n + v) = be_split m v) as H; [|by apply H].
  induction m as [|m IH]; intros Hm; [done|]. cbn [be_split]. f_equal; [|apply IH; lia].
  rewrite <- pow256.
  replace (w * 256 ^ Z.of_nat n) with
    (w * 256 ^ (Z.of_nat n - Z.of_nat m - 1) * 256 * 256 ^ Z.of_nat m).
  - rewrite Z.div_add_l by (pose proof (Z.pow_pos_nonneg 256 (Z.of_nat m)); lia).
    rewrite Z.add_comm, Z.mod_add by lia. done.
  - replace (Z.of_nat n) with (Z.of_nat n - Z.of_nat m - 1 + 1 + Z.of_nat m) at 2 by lia.
    rewrite !Z.pow_add_r by lia. lia.
Qed.

Lemma be_split_combine l : bytes_ok l → be_split (length l) (be_combine l) = l.
Proof.
  induction 1 as [|b l Hb Hl IH]; [done|]. cbn [length be_split].
  pose proof (be_combine_range l Hl) as Hr. rewrite be_combine_cons. f_equal.
  - rewrite <- pow256. fold (blen l).
    rewrite Z.div_add_l, (Z.div_small (be_combine l)) by lia.
    unfold is_u8 in Hb. rewrite Z.mod_small; lia.
  - unfold blen. rewrite be_split_shift; [done|]. exact Hr.
Qed.

Lemma be_at_ok {E} n buf off :
  0 ≤ n → 0 ≤ off → off + n ≤ blen buf →
  @be_at E n buf off = Ok (be_combine (take (Z.to_nat n) (drop (Z.to_nat off) buf))).
Proof.
  intros. unfold be_at. rewrite slice_ok by lia. cbn.
  by replace (off + n - off) with n by lia.
Qed.

Lemma be_at_mid {E} n v pre post off :
  0 ≤ v < 256 ^ Z.of_nat n → off = blen pre →
  @be_at E (Z.of_nat n) (pre ++ be_split n v ++ post) off = Ok v.
Proof.
  intros Hv ->. unfold be_at.
  rewrite (slice_mid pre _ post) by blia. cbn. by rewrite be_combine_split_small.
Qed.

Lemma be_at_app_l {E} n l k off :
  0 ≤ n → 0 ≤ off → off + n ≤ blen l → @be_at E n (l ++ k) off = be_at n l off.
Proof.
  intros. rewrite !be_at_ok by blia. do 2 f_equal.
  unfold blen in *. rewrite drop_app_le, take_app_le; [done|rewrite length_drop; lia|lia].
Qed.

Lemma be_at_range {E} n buf off v :
  bytes_ok buf → 0 ≤ n → @be_at E n buf off = Ok v → 0 ≤ v < 256 ^ n.
Proof.
  intros Hok Hn H. unfold be_at in H. res_inv H. injection H as <-.
  replace n with (blen a); [by eapply be_combine_range, slice_bytes_ok|].
  apply slice_length in E0. lia.
Qed.

Lemma be_at_not_err {E} n buf off (e : E) : be_at n buf off ≠ Err e.
Proof.
  unfold be_at. destruct (slice buf off (off + n)) eqn:H; try done.
  by apply slice_not_err in H.
Qed.

Lemma le16_inj v w : is_u16 v → is_u16 w → le16 v = le16 w → v = w.
Proof.
  unfold is_u16, le16. intros Hv Hw [= H1 H2].
  rewrite (Z.div_mod v 256), (Z.div_mod w 256), H1 by lia.
  rewrite !(Z.mod_small (_ / 256)) in H2 by
    (split; [apply Z.div_pos; lia | apply Z.div_lt_upper_bound; lia]). lia.
Qed.

Lemma le_combine_range l : bytes_ok l → 0 ≤ le_combine l < 256 ^ blen l.
Proof.
  induction 1 as [|b l Hb Hl IH]; [split; vm_compute; congruence|].
  cbn [le_combine foldr]. fold (le_combine l). rewrite blen_cons, Z.pow_add_r by blia.
  unfold is_u8 in Hb. lia.
Qed.

Lemma le_at_ok {E} n buf off :
  0 ≤ n → 0 ≤ off → off + n ≤ blen buf →
  @le_at E n buf off = Ok (le_combine (take (Z.to_nat n) (drop (Z.to_nat off) buf))).
Proof.
  intros. unfold le_at. rewrite slice_ok by lia. cbn.
  by replace (off + n - off) with n by lia.
Qed.

Lemma le_at_ex {E} n buf off :
  bytes_ok buf → 0 ≤ n → 0 ≤ off → off + n ≤ blen buf →
  ∃ v, @le_at E n buf off = Ok v ∧ 0 ≤ v < 256 ^ n.
Proof.
  intros Hok Hn Ho Hl. rewrite le_at_ok by done. eexists. split; [done|].
  replace n with (blen (take (Z.to_nat n) (drop (Z.to_nat off) buf))) at 3.
  - apply le_combine_range. by apply Forall_take, Forall_drop.
  - rewrite blen_take; [done|]. rewrite blen_drop; lia.
Qed.

(** The little-endian encoding of [v] in [n] octets. *)
Fixpoint le_split (n : nat) (v : Z) : list Z :=
  match n with O => [] | S n => v mod 256 :: le_split n (v / 256) end.

Lemma blen_le_split n v : blen (le_split n v) = Z.of_nat n.
Proof. revert v. induction n as [|n IH]; intros v; [done|]. cbn [le_split]. rewrite blen_cons, IH. lia. Qed.
#[export] Hint Rewrite blen_le_split : blen.

Lemma le_split_bytes_ok n v : bytes_ok (le_split n v).
Proof.
  revert v. induction n as [|n IH]; intros v; [constructor|].
  cbn [le_split]. constructor; [|apply IH]. unfold is_u8. pose proof (Z.mod_pos_bound v 256). lia.
Qed.

Lemma le_combine_split n v : 0 ≤ v < 256 ^ Z.of_nat n → le_combine (le_split n v) = v.
Proof.
  revert v. induction n as [|n IH]; intros v Hv.
  - change (256 ^ Z.of_nat 0) with 1 in Hv. cbn. lia.
  - cbn [le_split le_combine foldr]. fold (le_combine (le_split n (v / 256))).
    rewrite IH; [rewrite (Z.div_mod v 256) at 3 by lia; lia|].
    rewrite Nat2Z.inj_succ, Z.pow_succ_r in Hv by lia.
    split; [apply Z.div_pos; lia|apply Z.div_lt_upper_bound; lia].
Qed.

Lemma le_at_mid {E} n v pre post off :
  0 ≤ v < 256 ^ Z.of_nat n → off = blen pre →
  @le_at E (Z.of_nat n) (pre ++ le_split n v ++ post) off = Ok v.
Proof.
  intros Hv ->. unfold le_at.
  rewrite (slice_mid pre _ post) by blia. cbn. by rewrite le_combine_split.
Qed.

(** ** The bit view

    [field l pos n]: the [n] bits of [l] from bit [pos] on, most significant bit
    first, as a number; the reference every bit reader is compared with. *)
Definition field (l : list Z) (pos n : Z) : Z :=
  be_combine l / 2 ^ (8 * blen l - pos - n) mod 2 ^ n.

Lemma pow256_bits n : 0 ≤ n → 256 ^ n = 2 ^ (8 * n).
Proof. intros. rewrite Z.pow_mul_r by lia. done. Qed.

Lemma field_range l pos n : 0 ≤ n → 0 ≤ field l pos n < 2 ^ n.
Proof. intros. apply Z.mod_pos_bound. by apply Z.pow_pos_nonneg; lia. Qed.

(** A field may be read from any byte-aligned window that covers it. *)
Lemma field_window pre s post pos n :
  bytes_ok s → bytes_ok post → 0 ≤ n → 8 * blen pre ≤ pos → pos + n ≤ 8 * (blen pre + blen s) →
  field (pre ++ s ++ post) pos n = field s (pos - 8 * blen pre) n.
Proof.
  intros Hs Hpost Hn Hlo Hhi. unfold field. pose proof (blen_nonneg post). pose proof (blen_nonneg s).
  rewrite !be_combine_app, !blen_app. rewrite !pow256_bits by blia.
  pose proof (be_combine_range _ Hpost) as Rp. rewrite pow256_bits in Rp by lia.
  set (k := 8 * blen s - (pos - 8 * blen pre) - n).
  replace (8 * (blen pre + (blen s + blen post)) - pos - n) with (8 * blen post + k) by lia.
  rewrite Z.pow_add_r by lia.
  pose proof (Z.pow_pos_nonneg 2 (8 * blen post) ltac:(lia) ltac:(lia)).
  pose proof (Z.pow_pos_nonneg 2 k ltac:(lia) ltac:(lia)).
  replace (8 * (blen s + blen post)) with (8 * blen s + 8 * blen post) by lia.
  rewrite (Z.pow_add_r 2 (8 * blen s)) by lia.
  replace (be_combine pre * (2 ^ (8 * blen s) * 2 ^ (8 * blen post)) +
    (be_combine s * 2 ^ (8 * blen post) + be_combine post)) with
    ((be_combine pre * 2 ^ (8 * blen s) + be_combine s) * 2 ^ (8 * blen post) + be_combine post) by lia.
  rewrite <- Z.div_div, Z.div_add_l, (Z.div_small (be_combine post)), Z.add_0_r by lia.
  replace (8 * blen s) with (n + (pos - 8 * blen pre) + k) at 1 by lia.
  rewrite !Z.pow_add_r by lia.
  replace (be_combine pre * (2 ^ n * 2 ^ (pos - 8 * blen pre) * 2 ^ k) + be_combine s) with
    (be_combine pre * 2 ^ (pos - 8 * blen pre) * 2 ^ n * 2 ^ k + be_combine s) by lia.
  rewrite Z.div_add_l, Z.add_comm, Z.mod_add by lia. done.
Qed.

(** A field of an encoded number is read off the number. *)
Lemma field_split n v pos k :
  0 ≤ v < 2 ^ (8 * Z.of_nat n) → field (be_split n v) pos k = v / 2 ^ (8 * Z.of_nat n - pos - k) mod 2 ^ k.
Proof.
  intros Hv. unfold field. rewrite blen_be_split, be_combine_split_small; [done|].
  by rewrite pow256_bits by lia.
Qed.

(** A field is the concatenation of its parts. *)
Lemma field_app l pos a b :
  0 ≤ a → 0 ≤ b → pos + a + b ≤ 8 * blen l →
  field l pos (a + b) = field l pos a * 2 ^ b + field l (pos + a) b.
Proof.
  intros Ha Hb Hl. unfold field. set (v := be_combine l).
  set (k := 8 * blen l - pos - a - b).
  replace (8 * blen l - pos - (a + b)) with k by lia.
  replace (8 * blen l - pos - a) with (k + b) by lia.
  replace (8 * blen l - (pos + a) - b) with k by lia.
  rewrite (Z.pow_add_r 2 k b), (Z.add_comm a b), (Z.pow_add_r 2 b a), <- Z.div_div by
    (try lia; apply Z.pow_pos_nonneg; lia).
  rewrite Z.rem_mul_r by (try apply Z.pow_pos_nonneg; try apply Z.pow_nonzero; lia). lia.
Qed.

Lemma field_app_l l k pos n :
  bytes_ok l → bytes_ok k → 0 ≤ n → 0 ≤ pos → pos + n ≤ 8 * blen l →
  field (l ++ k) pos n = field l pos n.
Proof.
  intros Hl Hk Hn Hp Hle. pose proof (field_window [] l k pos n Hl Hk Hn) as E.
  rewrite (@blen_nil Z) in E. cbn [app] in E. rewrite E by lia. f_equal. lia.
Qed.

(** ** Absence of panics *)
Lemma byte_at_no_panic {E} buf i : 0 ≤ i < blen buf → @byte_at E buf i ≠ Panic.
Proof. intros Hi. by destruct (@byte_at_inside E buf i Hi) as (b & -> & _). Qed.

Lemma slice_no_panic {E} buf lo hi :
  0 ≤ lo ≤ hi → hi ≤ blen buf → @slice E buf lo hi ≠ Panic.
Proof. intros. by rewrite slice_ok. Qed.

Lemma slice_from_no_panic {E} buf lo : 0 ≤ lo ≤ blen buf → @slice_from E buf lo ≠ Panic.
Proof. intros. by rewrite slice_from_ok. Qed.

Lemma be_at_no_panic {E} n buf off :
  0 ≤ n → 0 ≤ off → off + n ≤ blen buf → @be_at E n buf off ≠ Panic.
Proof. intros. by rewrite be_at_ok. Qed.

Lemma slice_from_length {E} buf lo s : @slice_from E buf lo = Ok s → blen s = blen buf - lo.
Proof. apply slice_length. Qed.

(** A run of at most 32 bits, read as Go's bit readers do: the bytes it spans are
    loaded into a 64-bit accumulator, shifted and masked. *)
Definition bits_at {E} (hdr : list Z) (bitPos n : Z) : res E Z :=
  if n =? 0 then mret 0
  else
    let firstByte := bitPos / 8 in
    let lastByte := (bitPos + n - 1) / 8 in
    window ← slice hdr firstByte (lastByte + 1);
    let acc := fold_left (λ acc x, Z.lor (u64 (Z.shiftl acc 8)) x) window 0 in
    let rightPad := (lastByte + 1) * 8 - (bitPos + n) in
    mret (Z.land (Z.shiftr acc rightPad) (2 ^ n - 1)).

Lemma acc_combine l : bytes_ok l → ∀ a, 0 ≤ a → (a + 1) * 256 ^ blen l ≤ 2 ^ 64 →
  fold_left (λ acc x, Z.lor (u64 (Z.shiftl acc 8)) x) l a = a * 256 ^ blen l + be_combine l.
Proof.
  induction 1 as [|b l Hb Hl IH]; intros a Ha Hbound.
  - cbn [fold_left]. rewrite blen_nil. change (256 ^ 0) with 1. change (be_combine []) with 0. lia.
  - cbn [fold_left]. rewrite blen_cons, be_combine_cons, Z.pow_add_r in * by blia.
    change (256 ^ 1) with 256 in *. pose proof (Z.pow_pos_nonneg 256 (blen l) ltac:(lia) (blen_nonneg l)).
    unfold is_u8 in Hb. assert ((a + 1) * 256 ≤ 2 ^ 64) by nia.
    rewrite (u64_small (Z.shiftl a 8)) by (unfold is_u64; rewrite Z.shiftl_mul_pow2; lia).
    rewrite lor_shiftl_add by lia. rewrite IH; nia.
Qed.

Lemma bits_at_field {E} hdr pos n :
  bytes_ok hdr → 0 ≤ pos → 0 ≤ n ≤ 32 → pos + n ≤ 8 * blen hdr →
  @bits_at E hdr pos n = Ok (field hdr pos n).
Proof.
  intros Hok Hp Hn Hl. unfold bits_at. destruct (Z.eqb_spec n 0) as [->|Hn0].
  { unfold field. by rewrite Z.mod_1_r. }
  cbv zeta. set (fb := pos / 8). set (lb := (pos + n - 1) / 8).
  assert (8 * fb ≤ pos < 8 * fb + 8) as Hfb by (unfold fb; Z.div_mod_to_equations; lia).
  assert (8 * lb ≤ pos + n - 1 < 8 * lb + 8) as Hlb by (unfold lb; Z.div_mod_to_equations; lia).
  clearbody fb lb.
  destruct (slice (E:=E) hdr fb (lb + 1)) as [w|e|] eqn:Hs;
    [|by apply slice_not_err in Hs|exfalso; revert Hs; apply slice_no_panic; lia].
  rewrite bind_Ok. destruct (slice_split _ _ _ _ Hs) as (pre & post & -> & Hpre & Hw).
  apply Forall_app in Hok as [_ Hok]. apply Forall_app in Hok as [Hok Hpost].
  rewrite (acc_combine w Hok 0) by (rewrite ?Hw; try lia;
    assert (256 ^ (lb + 1 - fb) ≤ 256 ^ 5) by (apply Z.pow_le_mono_r; lia); lia).
  rewrite Z.mul_0_l, Z.add_0_l. rewrite (land_ones_mod n) by (try lia; rewrite Z.ones_equiv; lia).
  rewrite Z.shiftr_div_pow2 by lia. cbv [mret res_ret]. f_equal.
  rewrite field_window by (done || lia). unfold field. do 3 f_equal. lia.
Qed.

(** One step of a no-panic proof: open a bind, split a test, or discharge an
    access whose bounds [lia] derives from the tests passed so far. *)
Ltac no_panic_step :=
  match goal with
  | |- (_ ≫= _) ≠ Panic => apply bind_no_panic; [|intros]
  | |- mret _ ≠ Panic => done
  | |- Ok _ ≠ Panic => done
  | |- Err _ ≠ Panic => done
  | |- (let '(_, _) := ?x in _) ≠ Panic => destruct x as [? ?]
  | |- (if ?b then _ else _) ≠ Panic => destruct b eqn:?
  | |- byte_at _ _ ≠ Panic => apply byte_at_no_panic
  | |- slice _ _ _ ≠ Panic => apply slice_no_panic
  | |- slice_from _ _ ≠ Panic => apply slice_from_no_panic
  | |- be_at _ _ _ ≠ Panic => apply be_at_no_panic
  end.
Ltac no_panic := repeat no_panic_step; breflect.

(** Read the next big-endian field of a concatenation and step past it. *)
Ltac be_step :=
  match goal with
  | |- (be_at _ (?P ++ be_split ?k ?V ++ ?R) ?O ≫= _) = _ =>
      rewrite (be_at_mid k V P R O)
        by (first [done | eassumption | apply u32_range | autorewrite with blen; lia]);
      rewrite bind_Ok; try rewrite (app_assoc P (be_split k V) R)
  end.

(** Read a byte whose index [lia] shows to be in range. *)
Ltac byte_read :=
  match goal with
  | |- context [@byte_at ?E ?l ?i ≫= _] =>
      destruct (@byte_at_inside E l i ltac:(lia)) as (? & -> & _); rewrite bind_Ok
  end.

(** ** Pieces of a buffer *)

(** [l] is a contiguous piece of [m]. *)
Definition within (l m : list Z) : Prop := ∃ pre post, m = pre ++ l ++ post.

Lemma within_refl l : within l l.
Proof. exists [], []. by rewrite app_nil_r. Qed.
Lemma within_trans l m k : within l m → within m k → within l k.
Proof. intros (p & q & ->) (p' & q' & ->). exists (p' ++ p), (q ++ q'). by rewrite <- !app_assoc. Qed.
Lemma within_bytes l m : within l m → bytes_ok m → bytes_ok l.
Proof. intros (p & q & ->) H. apply Forall_app in H as [_ H]. by apply Forall_app in H as [? _]. Qed.

Lemma slice_returns {E} buf lo hi : 0 ≤ lo ≤ hi → hi ≤ blen buf →
  returns (@slice E buf lo hi) (λ s, within s buf ∧ blen s = hi - lo).
Proof.
  intros Hlo Hhi. destruct (slice (E:=E) buf lo hi) as [s|e|] eqn:Hs; cbn; [|done|].
  - destruct (slice_split _ _ _ _ Hs) as (p & q & -> & _ & Hl). split; [by exists p, q|lia].
  - revert Hs. by apply slice_no_panic.
Qed.
Lemma slice_from_returns {E} buf lo : 0 ≤ lo ≤ blen buf →
  returns (@slice_from E buf lo) (λ s, within s buf ∧ blen s = blen buf - lo).
Proof. intros. by apply slice_returns. Qed.

Lemma byte_at_returns {E} buf i : bytes_ok buf → 0 ≤ i < blen buf → returns (@byte_at E buf i) is_u8.
Proof.
  intros Hb Hi. destruct (@byte_at_inside E buf i Hi) as (b & -> & Hl). cbn.
  exact (Forall_lookup_1 _ _ _ _ Hb Hl).
Qed.

Lemma be_at_returns {E} n buf off : bytes_ok buf → 0 ≤ off → 0 ≤ n → off + n ≤ blen buf →
  returns (@be_at E n buf off) (λ v, 0 ≤ v < 256 ^ n).
Proof.
  intros Hb Ho Hn Hl. unfold be_at. eapply returns_bind; [apply slice_returns; lia|].
  intros s [Hs Hsl]. cbn. pose proof (be_combine_range s (within_bytes _ _ Hs Hb)) as H.
  rewrite Hsl in H. by replace (off + n - off) with n in H by lia.
Qed.

(** ** 16-bit samples *)

(** Signed samples as little-endian octets. *)
Definition pcm (ss : list Z) : list Z := concat ((λ s, le16 (u16 s)) <$> ss).

Lemma length_pcm ss : length (pcm ss) = (2 * length ss)%nat.
Proof. induction ss as [|s ss IH]; [done|]. unfold pcm in *. rewrite fmap_cons. cbn [concat]. rewrite length_app, IH. cbn. lia. Qed.

Lemma put_le16_mid {E} pre x z post v :
  put_le16 (E:=E) (pre ++ x :: z :: post) (blen pre) v = Ok (pre ++ le16 v ++ post).
Proof.
  unfold put_le16. rewrite blen_app, !blen_cons. pose proof (blen_nonneg pre). pose proof (blen_nonneg post). zcase.
  cbn [andb]. f_equal. replace (Z.to_nat (blen pre)) with (length pre) by (unfold blen; lia).
  replace (Z.to_nat (blen pre + 2)) with (length pre + 2)%nat by (unfold blen; lia).
  rewrite take_app_length. by rewrite drop_app_add.
Qed.

(** Induction on a buffer of whole samples. *)
Lemma even_ind (P : list Z → Prop) :
  P [] → (∀ a b l, blen l mod 2 = 0 → P l → P (a :: b :: l)) → ∀ l, blen l mod 2 = 0 → P l.
Proof.
  intros H0 Hs. assert (∀ n l, (length l ≤ n)%nat → blen l mod 2 = 0 → P l) as H; [|intros l; by apply (H (length l))].
  induction n as [|n IH]; intros k Hn Hk; [by destruct k; cbn in Hn; [|lia]|].
  destruct k as [|a [|b k]]; [done|done|]. rewrite !blen_cons in *.
  assert (blen k mod 2 = 0) as Hk2.
  { replace (1 + (1 + blen k)) with (blen k + 1 * 2) in Hk by lia. by rewrite Z.mod_add in Hk by lia. }
  apply Hs; [done|]. apply IH; [cbn in Hn; lia|done].
Qed.

Lemma blen_swap16 l : blen l mod 2 = 0 → blen (swap16 l) = blen l.
Proof. revert l. apply even_ind; [done|]. intros a b l _ IH. cbn [swap16]. by rewrite !blen_cons, IH. Qed.
Lemma swap16_involutive l : blen l mod 2 = 0 → swap16 (swap16 l) = l.
Proof. revert l. apply even_ind; [done|]. intros a b l _ IH. cbn [swap16]. by rewrite IH. Qed.
Lemma swap16_app l k : blen l mod 2 = 0 → swap16 (l ++ k) = swap16 l ++ swap16 k.
Proof. revert l. apply even_ind; [done|]. intros a b l _ IH. cbn [swap16 app]. by rewrite IH. Qed.
