(* ===== verification/Text.v ===== *)
(** * Octet strings: what the code uses of [strings] and [strconv]

    Go strings are octet strings, here lists of octets.  [EqualFold] is that of [strings] where its
    second argument is ASCII, as it is at every call in the code: the two characters outside ASCII that fold to
    an ASCII letter are matched by their UTF-8 encodings.  So are the members outside ASCII of
    [unicode.IsSpace].  [RuneWidth] is the decoder of [unicode/utf8]. *)
From Stdlib Require Import Ascii String.
From S2P Require Import Prelude Bytes.

(** ** Letter case *)
Definition lower (c : Z) : Z := if (65 <=? c) && (c <=? 90) then c + 32 else c.
Definition upper (c : Z) : Z := if (97 <=? c) && (c <=? 122) then c - 32 else c.

(** [unicode.SimpleFold] onto lower-case ASCII: a long s (U+017F) folds to s, the Kelvin sign
    (U+212A) to k, and every other character outside ASCII to none of ASCII. *)
Fixpoint simple_fold (s : list Z) : list Z :=
  match s with
  | [] => []
  | a :: s1 =>
      match s1 with
      | [] => [lower a]
      | b :: s2 =>
          if (a =? 0xC5) && (b =? 0xBF) then 115 :: simple_fold s2
          else match s2 with
               | [] => lower a :: simple_fold s1
               | c :: s3 => if (a =? 0xE2) && (b =? 0x84) && (c =? 0xAA) then 107 :: simple_fold s3 else lower a :: simple_fold s1
               end
      end
  end.
(** [strings.EqualFold], for an ASCII [t]. *)
Definition EqualFold (s t : list Z) : bool := bool_decide (simple_fold s = lower <$> t).

(** ** UTF-8 *)
Definition continuation (c : Z) : bool := (0x80 <=? c) && (c <=? 0xBF).
(** The second octet that may follow the first: no overlong form, no surrogate, nothing past U+10FFFF. *)
Definition second (a b : Z) : bool :=
  ((if a =? 0xE0 then 0xA0 else if a =? 0xF0 then 0x90 else 0x80) <=? b) && (b <=? (if a =? 0xED then 0x9F else if a =? 0xF4 then 0x8F else 0xBF)).
(** [utf8.DecodeRune]: the width of the character at the front; none where the encoding is invalid. *)
Definition RuneWidth (s : list Z) : option nat :=
  match s with
  | [] => None
  | a :: s =>
      if a <? 0x80 then Some 1%nat
      else match s with
      | [] => None
      | b :: s =>
          if (0xC2 <=? a) && (a <=? 0xDF) then if continuation b then Some 2%nat else None
          else match s with
          | [] => None
          | c :: s =>
              if (0xE0 <=? a) && (a <=? 0xEF) then if second a b && continuation c then Some 3%nat else None
              else match s with
              | [] => None
              | d :: _ => if (0xF0 <=? a) && (a <=? 0xF4) && second a b && continuation c && continuation d then Some 4%nat else None
              end
          end
      end
  end.
Definition RuneError : list Z := [0xEF; 0xBF; 0xBD].
(** [strings.Map] with a mapping that drops the ASCII characters [drop_] and keeps every other: what is not
    UTF-8 comes out as U+FFFD, an octet at a time. *)
Fixpoint drop_runes (drop_ : Z → bool) (fuel : nat) (s : list Z) : list Z :=
  match fuel, s with
  | S fuel, c :: t =>
      if drop_ c then drop_runes drop_ fuel t
      else match RuneWidth s with
           | Some w => take w s ++ drop_runes drop_ fuel (drop w s)
           | None => RuneError ++ drop_runes drop_ fuel t
           end
  | _, _ => []
  end.

(** ** Decimal numbers *)

(** [strconv.Atoi]: an optional sign and decimal digits, in the int64 range. *)
Fixpoint digits (acc : Z) (l : list Z) : option Z :=
  match l with
  | [] => Some acc
  | c :: l => if (48 <=? c) && (c <=? 57) then digits (acc * 10 + (c - 48)) l else None
  end.

Definition Atoi (s : list Z) : option Z :=
  let '(neg, ds) := match s with
    | c :: ds => if c =? 45 then (true, ds) else if c =? 43 then (false, ds) else (false, s)
    | [] => (false, s)
    end in
  match ds with
  | [] => None
  | _ =>
      match digits 0 ds with
      | Some n =>
          let v := if (neg : bool) then - n else n in
          if (- 2 ^ 63 <=? v) && (v <? 2 ^ 63) then Some v else None
      | None => None
      end
  end.

(** [strconv.Itoa]; an int64 has at most 19 digits. *)
Fixpoint decimal (fuel : nat) (n : Z) (acc : list Z) : list Z :=
  match fuel with
  | O => acc
  | S fuel => let acc := 48 + n mod 10 :: acc in if n <? 10 then acc else decimal fuel (n / 10) acc
  end.
Definition Itoa (n : Z) : list Z := if n <? 0 then 45 :: decimal 20 (- n) [] else decimal 20 n [].

(** ** Searching and splitting *)
Fixpoint cut_prefix (p s : list Z) : option (list Z) :=
  match p, s with
  | [], _ => Some s
  | a :: p, b :: s => if a =? b then cut_prefix p s else None
  | _ :: _, [] => None
  end.
Definition HasPrefix (s p : list Z) : bool := if cut_prefix p s is Some _ then true else false.
Definition TrimPrefix (s p : list Z) : list Z := default s (cut_prefix p s).
Definition TrimSuffix (s p : list Z) : list Z := reverse (TrimPrefix (reverse s) (reverse p)).

(** [strings.Cut] at one octet. *)
Fixpoint Cut (c : Z) (s : list Z) : option (list Z * list Z) :=
  match s with
  | [] => None
  | x :: s => if x =? c then Some ([], s) else '(a, b) ← Cut c s; Some (x :: a, b)
  end.

Fixpoint SplitN (n : nat) (c : Z) (s : list Z) : list (list Z) :=
  match n with
  | O => []
  | S O => [s]
  | S n => match Cut c s with None => [s] | Some (a, b) => a :: SplitN n c b end
  end.

(** [strings.Split] at one octet: always at least one piece. *)
Fixpoint Split (c : Z) (s : list Z) : list (list Z) :=
  match s with
  | [] => [[]]
  | x :: s =>
      if x =? c then [] :: Split c s
      else match Split c s with [] => [[x]] | p :: ps => (x :: p) :: ps end
  end.

(** [strings.JoinStrings] with one octet. *)
Fixpoint JoinStrings (c : Z) (ps : list (list Z)) : list Z :=
  match ps with
  | [] => []
  | [p] => p
  | p :: ps => p ++ c :: JoinStrings c ps
  end.

(** ** White space *)
Definition spaces : list (list Z) :=
  [[9]; [10]; [11]; [12]; [13]; [32]; [0xc2; 0x85]; [0xc2; 0xa0]; [0xe1; 0x9a; 0x80]] ++
  ((λ c, [0xe2; 0x80; c]) <$> [0x80; 0x81; 0x82; 0x83; 0x84; 0x85; 0x86; 0x87; 0x88; 0x89; 0x8a; 0xa8; 0xa9; 0xaf]) ++
  [[0xe2; 0x81; 0x9f]; [0xe3; 0x80; 0x80]].

Fixpoint strip_any (ps : list (list Z)) (s : list Z) : option (list Z) :=
  match ps with
  | [] => None
  | p :: ps => match cut_prefix p s with Some r => Some r | None => strip_any ps s end
  end.
Fixpoint trim_front (ps : list (list Z)) (fuel : nat) (s : list Z) : list Z :=
  match fuel with
  | O => s
  | S fuel => match strip_any ps s with Some r => trim_front ps fuel r | None => s end
  end.

(** [strings.TrimSpace] *)
Definition TrimSpace (s : list Z) : list Z :=
  let s := trim_front spaces (length s) s in
  reverse (trim_front (reverse <$> spaces) (length s) (reverse s)).

(** ** Lemmas *)
Lemma lower_idemp c : lower (lower c) = lower c.
Proof.
  unfold lower. destruct ((65 <=? c) && (c <=? 90)) eqn:E; [|by rewrite E]. breflect.
  by rewrite (proj2 (Z.leb_gt (c + 32) 90)), andb_false_r by lia.
Qed.

(** What folds to a given string. *)
Lemma simple_fold_inv s x l : simple_fold s = x :: l →
  (∃ c s', s = c :: s' ∧ lower c = x ∧ simple_fold s' = l) ∨ (x = 115 ∧ ∃ s', s = 0xC5 :: 0xBF :: s' ∧ simple_fold s' = l) ∨
  (x = 107 ∧ ∃ s', s = 0xE2 :: 0x84 :: 0xAA :: s' ∧ simple_fold s' = l).
Proof.
  destruct s as [|a [|b [|c s]]]; [done|intros [= <- <-]; left; by eexists _, _|..]; cbn [simple_fold].
  - destruct ((a =? 0xC5) && (b =? 0xBF)) eqn:E; intros [= <- <-].
    + breflect. subst. right. left. split; [done|]. by eexists.
    + left. eexists _, _. split; [done|]. split; [done|]. cbn [simple_fold]. done.
  - destruct ((a =? 0xC5) && (b =? 0xBF)) eqn:E.
    + intros [= <- <-]. breflect. subst. right. left. split; [done|]. by eexists.
    + destruct ((a =? 0xE2) && (b =? 0x84) && (c =? 0xAA)) eqn:E'; intros [= <- <-].
      * breflect. subst. right. right. split; [done|]. by eexists.
      * left. by eexists _, _.
Qed.
Lemma simple_fold_nil s : simple_fold s = [] → s = [].
Proof. destruct s as [|a [|b [|c s]]]; cbn [simple_fold]; [done|done|destruct (_ && _); done|destruct (_ && _); [done|destruct (_ && _); done]]. Qed.
(** An ASCII character keeps its place. *)
Lemma simple_fold_ascii c s : c < 0x80 → simple_fold (c :: s) = lower c :: simple_fold s.
Proof.
  intros Hc. destruct s as [|b [|d s]]; [done|..]; cbn [simple_fold]; rewrite (proj2 (Z.eqb_neq c 0xC5)) by lia; cbn [andb]; [done|].
  by rewrite (proj2 (Z.eqb_neq c 0xE2)) by lia.
Qed.
Lemma simple_fold_in c s : c < 0x80 → lower c = c → c ∈ s → c ∈ simple_fold s.
Proof.
  intros Hc Hl. induction s as [s IH] using (induction_ltof1 _ (@length Z)). unfold ltof in IH. intros Hin.
  destruct (simple_fold s) as [|x l] eqn:E; [apply simple_fold_nil in E as ->; by apply elem_of_nil in Hin|].
  apply simple_fold_inv in E as [(a & s' & -> & <- & E)|[(-> & s' & -> & E)|(-> & s' & -> & E)]]; subst l.
  - apply elem_of_cons in Hin as [<-|Hin]; [rewrite Hl; left|]. right. apply IH; [cbn; lia|done].
  - right. repeat (apply elem_of_cons in Hin as [->|Hin]; [lia|]). apply IH; [cbn; lia|done].
  - right. repeat (apply elem_of_cons in Hin as [->|Hin]; [lia|]). apply IH; [cbn; lia|done].
Qed.
Definition is_digit (c : Z) : Prop := 48 ≤ c ≤ 57.

Lemma digits_app a ds l : Forall is_digit ds → ∃ v, digits a ds = Some v ∧ digits a (ds ++ l) = digits v l.
Proof.
  intros H. revert a. induction H as [|c ds Hc _ IH]; intros a; [by exists a|].
  cbn [app digits]. unfold is_digit in Hc. rewrite (proj2 (Z.leb_le 48 c)), (proj2 (Z.leb_le c 57)) by lia. apply IH.
Qed.

Lemma decimal_digits fuel n acc : 0 ≤ n < 10 ^ Z.of_nat fuel → (0 < fuel)%nat →
  ∃ ds, decimal fuel n acc = ds ++ acc ∧ ds ≠ [] ∧ Forall is_digit ds ∧
    ∀ a l, digits a (ds ++ l) = digits (a * 10 ^ blen ds + n) l.
Proof.
  revert n acc. induction fuel as [|fuel IH]; intros n acc Hn Hf; [lia|]. cbn [decimal].
  assert (Hd : is_digit (48 + n mod 10)) by (unfold is_digit; pose proof (Z.mod_pos_bound n 10); lia).
  destruct (Z.ltb_spec n 10).
  - exists [48 + n mod 10]. split_and!; try done; [by apply Forall_singleton|]. intros a l. cbn [app digits].
    unfold is_digit in Hd. rewrite (proj2 (Z.leb_le 48 _)), (proj2 (Z.leb_le _ 57)) by lia. cbn [andb]. f_equal.
    change (blen [_]) with 1. rewrite Z.mod_small by lia. lia.
  - rewrite Nat2Z.inj_succ, Z.pow_succ_r in Hn by lia.
    destruct fuel as [|fuel]; [change (10 ^ Z.of_nat 0) with 1 in Hn; lia|].
    destruct (IH (n / 10) (48 + n mod 10 :: acc)) as (ds & -> & Hne & Hds & Hv); [|lia|].
    { split; [apply Z.div_pos; lia|apply Z.div_lt_upper_bound; lia]. }
    exists (ds ++ [48 + n mod 10]). split_and!; [by rewrite <- app_assoc|by destruct ds|by apply Forall_app_2; [|apply Forall_singleton]|].
    intros a l. rewrite <- app_assoc, Hv. cbn [app digits]. unfold is_digit in Hd.
    rewrite (proj2 (Z.leb_le 48 _)), (proj2 (Z.leb_le _ 57)) by lia. cbn [andb]. f_equal. rewrite blen_app.
    change (blen [_]) with 1. rewrite Z.pow_add_r by (pose proof (blen_nonneg ds); lia).
    pose proof (Z.div_mod n 10 ltac:(lia)). lia.
Qed.

(** The shape of a printed number. *)
Lemma Itoa_shape n : - 2 ^ 63 ≤ n < 2 ^ 63 → ∃ ds, Itoa n = (if n <? 0 then [45] else []) ++ ds ∧ ds ≠ [] ∧ Forall is_digit ds ∧
  digits 0 ds = Some (Z.abs n).
Proof.
  intros Hn. unfold Itoa. destruct (Z.ltb_spec n 0).
  - destruct (decimal_digits 20 (- n) []) as (ds & -> & Hne & Hds & Hv); [change (10 ^ Z.of_nat 20) with 100000000000000000000; lia|lia|].
    exists ds. rewrite app_nil_r. split_and!; try done. specialize (Hv 0 []). rewrite app_nil_r in Hv. rewrite Hv. cbn. f_equal. lia.
  - destruct (decimal_digits 20 n []) as (ds & -> & Hne & Hds & Hv); [change (10 ^ Z.of_nat 20) with 100000000000000000000; lia|lia|].
    exists ds. rewrite app_nil_r. split_and!; try done. specialize (Hv 0 []). rewrite app_nil_r in Hv. rewrite Hv. cbn. f_equal. lia.
Qed.

Lemma Atoi_Itoa n : - 2 ^ 63 ≤ n < 2 ^ 63 → Atoi (Itoa n) = Some n.
Proof.
  intros Hn. destruct (Itoa_shape n Hn) as (ds & -> & Hne & Hds & Hv). destruct ds as [|c ds]; [done|].
  pose proof (Forall_inv Hds) as Hc. unfold is_digit in Hc.
  assert (Hr : (- 2 ^ 63 <=? n) && (n <? 2 ^ 63) = true) by (apply andb_true_intro; split; [apply Z.leb_le|apply Z.ltb_lt]; lia).
  assert (Hneg : n < 0 → - Z.abs n = n) by lia. assert (Hpos : 0 ≤ n → Z.abs n = n) by lia.
  destruct (Z.ltb_spec n 0).
  - change (Atoi ([45] ++ c :: ds)) with (if digits 0 (c :: ds) is Some n
      then if (- 2 ^ 63 <=? - n) && (- n <? 2 ^ 63) then Some (- n) else None else None).
    rewrite Hv, Hneg, Hr by lia. done.
  - unfold Atoi. cbn [app]. rewrite (proj2 (Z.eqb_neq c 45)), (proj2 (Z.eqb_neq c 43)) by lia.
    rewrite Hv, Hpos, Hr by lia. done.
Qed.

Lemma decimal_length fuel n acc : blen (decimal fuel n acc) ≤ Z.of_nat fuel + blen acc.
Proof.
  revert n acc. induction fuel as [|fuel IH]; intros n acc; [done|]. cbn [decimal]. destruct (_ <? _); [rewrite blen_cons; lia|].
  etrans; [apply IH|]. rewrite blen_cons. lia.
Qed.
Lemma Itoa_length n : blen (Itoa n) ≤ 21.
Proof.
  unfold Itoa. destruct (n <? 0); [rewrite blen_cons; pose proof (decimal_length 20 (- n) [])|pose proof (decimal_length 20 n [])];
    change (blen []) with 0 in *; lia.
Qed.

Lemma cut_prefix_app p s : cut_prefix p (p ++ s) = Some s.
Proof. induction p as [|a p IH]; [done|]. cbn. by rewrite Z.eqb_refl. Qed.

Lemma cut_prefix_Some p s r : cut_prefix p s = Some r → s = p ++ r.
Proof.
  revert s. induction p as [|a p IH]; intros s; cbn; [by intros [= ->]|]. destruct s as [|b s]; [done|].
  destruct (Z.eqb_spec a b) as [->|]; [|done]. by intros ->%IH.
Qed.

Lemma Cut_app c a b : c ∉ a → Cut c (a ++ c :: b) = Some (a, b).
Proof.
  induction a as [|x a IH]; cbn; intros H; [by rewrite Z.eqb_refl|]. apply not_elem_of_cons in H as [H1 H2].
  rewrite (proj2 (Z.eqb_neq x c)) by congruence. by rewrite IH.
Qed.
Lemma Cut_none c s : c ∉ s → Cut c s = None.
Proof.
  induction s as [|x s IH]; cbn; intros H; [done|]. apply not_elem_of_cons in H as [H1 H2].
  rewrite (proj2 (Z.eqb_neq x c)) by congruence. by rewrite IH.
Qed.

Lemma Split_nil c s : c ∉ s → Split c s = [s].
Proof.
  induction s as [|x s IH]; cbn; intros H; [done|]. apply not_elem_of_cons in H as [H1 H2].
  rewrite (proj2 (Z.eqb_neq x c)) by congruence. by rewrite IH.
Qed.
Lemma Split_app c a b : c ∉ a → Split c (a ++ c :: b) = a :: Split c b.
Proof.
  induction a as [|x a IH]; cbn; intros H; [by rewrite Z.eqb_refl|]. apply not_elem_of_cons in H as [H1 H2].
  rewrite (proj2 (Z.eqb_neq x c)) by congruence. by rewrite IH.
Qed.

(** A string whose ends no white space can match is trimmed to itself. *)
Definition ascii_mark (c : Z) : bool := (33 <=? c) && (c <? 128).

Lemma strip_any_mark ps c s : forallb (λ p, if p is x :: _ then negb (ascii_mark x) else false) ps = true →
  ascii_mark c = true → strip_any ps (c :: s) = None.
Proof.
  intros H Hc. induction ps as [|p ps IH]; [done|]. cbn in H. apply andb_prop in H as [Hp H]. destruct p as [|x p]; [done|].
  cbn [strip_any cut_prefix]. destruct (Z.eqb_spec x c) as [->|]; [by rewrite Hc in Hp|]. by apply IH.
Qed.

Lemma trim_mark ps s c : forallb (λ p, if p is x :: _ then negb (ascii_mark x) else false) ps = true →
  head s = Some c → ascii_mark c = true → trim_front ps (length s) s = s.
Proof. intros Hp Hh Hc. destruct s as [|x s]; [done|]. injection Hh as ->. cbn [length trim_front]. by rewrite strip_any_mark. Qed.

Lemma TrimSpace_id s c z : head s = Some c → list.last s = Some z → ascii_mark c = true → ascii_mark z = true → TrimSpace s = s.
Proof.
  intros Hh Hl Hc Hz. unfold TrimSpace. rewrite (trim_mark spaces s c) by done.
  rewrite <- (length_reverse s), (trim_mark (reverse <$> spaces) (reverse s) z); [apply reverse_involutive|done| |done].
  by rewrite head_reverse.
Qed.

(** The same when the front is no white space for another reason. *)
Lemma TrimSpace_front s z : strip_any spaces s = None → list.last s = Some z → ascii_mark z = true → TrimSpace s = s.
Proof.
  intros Hf Hl Hz. assert (E : trim_front spaces (length s) s = s) by (destruct s; [done|]; cbn [length trim_front]; by rewrite Hf).
  unfold TrimSpace. rewrite E. rewrite <- (length_reverse s), (trim_mark (reverse <$> spaces) (reverse s) z); [apply reverse_involutive|done| |done].
  by rewrite head_reverse.
Qed.

Lemma TrimSpace_Itoa n : - 2 ^ 63 ≤ n < 2 ^ 63 → TrimSpace (Itoa n) = Itoa n.
Proof.
  intros Hn. destruct (Itoa_shape n Hn) as (ds & -> & Hne & Hds & _).
  assert (Hm : ∀ c, is_digit c → ascii_mark c = true) by (unfold is_digit, ascii_mark; intros c ?; zcase).
  destruct (exists_last Hne) as (l & z & ->). pose proof Hds as [Hl Hz%Forall_inv]%Forall_app.
  assert (Hz' : list.last ((if n <? 0 then [45] else []) ++ l ++ [z]) = Some z) by (rewrite app_assoc; apply last_snoc).
  destruct (n <? 0); cbn [app] in *; [by apply (TrimSpace_id _ 45 z); auto|].
  destruct l as [|d l]; [by apply (TrimSpace_id _ z z); auto|].
  apply (TrimSpace_id _ d z); auto. apply Hm. by apply Forall_inv in Hl.
Qed.

(** The octets of a printed number. *)
Lemma Itoa_chars n c : - 2 ^ 63 ≤ n < 2 ^ 63 → c ∈ Itoa n → is_digit c ∨ c = 45.
Proof.
  intros Hn. destruct (Itoa_shape n Hn) as (ds & -> & _ & Hds & _). rewrite elem_of_app. intros [H|H].
  - destruct (n <? 0); [right; by apply list_elem_of_singleton in H|by apply elem_of_nil in H].
  - left. eapply Forall_forall; [exact Hds|by apply list_elem_of_In].
Qed.
Lemma Itoa_nat_chars n c : 0 ≤ n < 2 ^ 63 → c ∈ Itoa n → is_digit c.
Proof.
  intros Hn. destruct (Itoa_shape n ltac:(lia)) as (ds & -> & _ & Hds & _). rewrite (proj2 (Z.ltb_ge n 0)) by lia. cbn [app]. intros H.
  eapply Forall_forall; [exact Hds|by apply list_elem_of_In].
Qed.
Lemma Itoa_no n c : 0 ≤ n < 2 ^ 63 → ¬ is_digit c → c ∉ Itoa n.
Proof. intros Hn Hc H. by apply Itoa_nat_chars in H. Qed.
Lemma not_in (c : Z) (l : list Z) : existsb (Z.eqb c) l = false → c ∉ l.
Proof. intros H Hin%list_elem_of_In. rewrite (proj2 (existsb_exists _ _)) in H; [done|]. exists c. by rewrite Z.eqb_refl. Qed.
Lemma TrimSuffix_cr l : TrimSuffix (l ++ [13]) [13] = l.
Proof. unfold TrimSuffix, TrimPrefix. rewrite reverse_app. change (reverse [13]) with [13]. rewrite cut_prefix_app. apply reverse_involutive. Qed.
Lemma TrimSuffix_none l : 13 ∉ l → TrimSuffix l [13] = l.
Proof.
  intros H. unfold TrimSuffix, TrimPrefix. change (reverse [13]) with [13]. destruct (cut_prefix [13] (reverse l)) as [r|] eqn:E.
  - apply cut_prefix_Some in E. destruct H. apply elem_of_reverse. rewrite E. by left.
  - apply reverse_involutive.
Qed.
