(* ===== verification/RtpPacket.v ===== *)
(** * RTP packets: [rtsp/rtp/packet.go] and [rtsp/rtp/marshal.go]

    The fixed-header parser the receive paths run on every datagram and
    interleaved frame, and the send-side marshaller.  [ParsePacket] reads the
    header, the CSRC list, skips a header extension and strips padding;
    [AppendTo]/[AppendPacket] write the extension-less form. *)
From S2P Require Import Prelude Bytes.

Module rtp.

Definition HeaderSize : Z := 12.
Definition MaxCSRC : Z := 15.

Inductive pkt_err :=
  | ErrShortPacket | ErrVersion | ErrTruncatedExtension | ErrBadPadding.
Inductive marshal_err := ErrMarshalExtension | ErrTooManyCSRC.

Record Header := mkHeader {
  Version : Z;
  Padding : bool;
  Extension : bool;
  Marker : bool;
  PayloadType : Z;
  SequenceNumber : Z;
  Timestamp : Z;
  SSRC : Z;
  CSRC : list Z
}.

Record Packet := mkPacket { Hdr : Header; Payload : list Z }.

(** The loop [for i := range cc]: one 32-bit word per CSRC entry. *)
Fixpoint read_csrc (cc : nat) (buf : list Z) (off : Z) : res pkt_err (list Z) :=
  match cc with
  | O => mret []
  | S cc => w ← be_at 4 buf off; ws ← read_csrc cc buf (off + 4); mret (w :: ws)
  end.

Definition csrc_list (buf : list Z) (cc : Z) : res pkt_err (list Z * Z) :=
  if 0 <? cc then
    if blen buf <? HeaderSize + cc * 4 then Err ErrShortPacket
    else ws ← read_csrc (Z.to_nat cc) buf HeaderSize; mret (ws, HeaderSize + cc * 4)
  else mret ([], HeaderSize).

Definition skip_extension (buf : list Z) (x : bool) (off : Z) : res pkt_err Z :=
  if x then
    if blen buf <? off + 4 then Err ErrTruncatedExtension
    else
      words ← be_at 2 buf (off + 2);
      let extLen := 4 + words * 4 in
      if blen buf <? off + extLen then Err ErrTruncatedExtension else mret (off + extLen)
  else mret off.

Definition strip_padding (buf : list Z) (p : bool) (region : list Z) : res pkt_err (list Z) :=
  if p then
    if blen region =? 0 then Err ErrBadPadding
    else
      padLen ← byte_at buf (blen buf - 1);
      if (padLen =? 0) || (blen region <? padLen) then Err ErrBadPadding
      else slice region 0 (blen region - padLen)
  else mret region.

Definition ParsePacket (buf : list Z) : res pkt_err Packet :=
  if blen buf <? HeaderSize then Err ErrShortPacket else
  b0 ← byte_at buf 0;
  let version := Z.shiftr b0 6 in
  if negb (version =? 2) then Err ErrVersion else
  b1 ← byte_at buf 1;
  seq ← be_at 2 buf 2;
  ts ← be_at 4 buf 4;
  ssrc ← be_at 4 buf 8;
  let p := negb (Z.land b0 0x20 =? 0) in
  let x := negb (Z.land b0 0x10 =? 0) in
  '(csrc, off) ← csrc_list buf (Z.land b0 0x0f);
  let h := mkHeader version p x (negb (Z.land b1 0x80 =? 0)) (Z.land b1 0x7f)
             seq ts ssrc csrc in
  off ← skip_extension buf x off;
  region ← slice_from buf off;
  region ← strip_padding buf p region;
  mret (mkPacket h region).

(** [Header.AppendTo]: the extended slice and the error, [dst] unchanged on error. *)
Definition AppendTo (h : Header) (dst : list Z) : list Z * option marshal_err :=
  if Extension h then (dst, Some ErrMarshalExtension) else
  let cc := blen (CSRC h) in
  if MaxCSRC <? cc then (dst, Some ErrTooManyCSRC) else
  let b1 := Z.land (PayloadType h) 0x7f in
  let b1 := if Marker h then Z.lor b1 0x80 else b1 in
  (dst ++ [Z.lor 0x80 (u8 cc); b1] ++ be_split 2 (SequenceNumber h)
       ++ be_split 4 (Timestamp h) ++ be_split 4 (SSRC h)
       ++ concat (be_split 4 <$> CSRC h), None).

Definition AppendPacket (dst : list Z) (h : Header) (payload : list Z)
    : list Z * option marshal_err :=
  match AppendTo h dst with
  | (dst, Some err) => (dst, Some err)
  | (dst, None) => (dst ++ payload, None)
  end.

(** ** Well-formed headers and the header a receiver sees *)
Record header_ok (h : Header) : Prop := {
  hok_pt : 0 ≤ PayloadType h < 128;
  hok_seq : is_u16 (SequenceNumber h);
  hok_ts : is_u32 (Timestamp h);
  hok_ssrc : is_u32 (SSRC h);
  hok_csrc : Forall is_u32 (CSRC h);
  hok_cc : blen (CSRC h) ≤ MaxCSRC
}.

Definition on_wire (h : Header) : Header :=
  mkHeader 2 false false (Marker h) (PayloadType h) (SequenceNumber h)
    (Timestamp h) (SSRC h) (CSRC h).

(** ** The CSRC loop *)
Lemma read_csrc_no_panic cc buf off :
  0 ≤ off → off + 4 * Z.of_nat cc ≤ blen buf → read_csrc cc buf off ≠ Panic.
Proof.
  revert off. induction cc as [|cc IH]; intros off Ho Hb; cbn [read_csrc]; [done|].
  no_panic; try lia. apply IH; lia.
Qed.

Lemma read_csrc_split ws pre post off :
  Forall is_u32 ws → off = blen pre →
  read_csrc (length ws) (pre ++ concat (be_split 4 <$> ws) ++ post) off = Ok ws.
Proof.
  intros Hws. revert pre off. induction Hws as [|w ws Hw Hws IH]; intros pre off ->; [done|].
  cbn [length read_csrc fmap list_fmap concat]. rewrite <- app_assoc.
  rewrite (be_at_mid 4) by (exact Hw || done). rewrite bind_Ok.
  rewrite (app_assoc pre), IH by blia. done.
Qed.

Lemma read_csrc_join cc buf off ws :
  bytes_ok buf → read_csrc cc buf off = Ok ws → 0 ≤ off →
  length ws = cc ∧ Forall is_u32 ws ∧
  concat (be_split 4 <$> ws) = take (4 * cc) (drop (Z.to_nat off) buf) ∧
  off + 4 * Z.of_nat cc ≤ Z.max off (blen buf).
Proof.
  intros Hok. revert off ws. induction cc as [|cc IH]; intros off ws H Ho; cbn [read_csrc] in H.
  - injection H as <-. repeat split; [constructor|lia].
  - apply bind_ok_inv in H as (w & Hw & H). apply bind_ok_inv in H as (ws' & Hws & H).
    injection H as <-. pose proof Hw as Hr. apply be_at_range in Hr; [|done|lia].
    unfold be_at in Hw. apply bind_ok_inv in Hw as (s & Hs & [= <-]).
    pose proof (slice_length _ _ _ _ Hs) as Hsl. pose proof (slice_bytes_ok _ _ _ _ Hok Hs) as Hsb.
    apply slice_ok_inv in Hs as (_ & Hb & ->).
    destruct (IH _ _ Hws ltac:(lia)) as (Hl & HF & Hc & Hbnd).
    cbn [length fmap list_fmap concat]. repeat split.
    + by rewrite Hl.
    + by constructor.
    + replace 4%nat with (length (take (Z.to_nat (off + 4 - off)) (drop (Z.to_nat off) buf)))
        at 1 by (unfold blen in Hsl; lia).
      rewrite be_split_combine by done. rewrite Hc.
      replace (Z.to_nat (off + 4 - off)) with 4%nat by lia.
      replace (Z.to_nat (off + 4)) with (Z.to_nat off + 4)%nat by lia.
      rewrite <- drop_drop.
      replace (4 * S cc)%nat with (4 + 4 * cc)%nat by lia. by rewrite <- take_take_drop.
    + lia.
Qed.

Lemma blen_concat_be n (ws : list Z) :
  blen (concat (be_split n <$> ws)) = Z.of_nat n * blen ws.
Proof.
  induction ws as [|w ws IH]; [unfold blen; simpl; lia|].
  cbn [fmap list_fmap concat]. rewrite blen_app, blen_be_split, blen_cons, IH. lia.
Qed.

(** ** The first two octets *)
Lemma first_octet_bits cc :
  0 ≤ cc ≤ MaxCSRC →
  Z.shiftr (Z.lor 0x80 (u8 cc)) 6 = 2 ∧ Z.land (Z.lor 0x80 (u8 cc)) 0x20 = 0 ∧
  Z.land (Z.lor 0x80 (u8 cc)) 0x10 = 0 ∧ Z.land (Z.lor 0x80 (u8 cc)) 0x0f = cc.
Proof.
  intros Hcc. pose (P := λ cc, (Z.shiftr (Z.lor 0x80 (u8 cc)) 6 =? 2)
    && (Z.land (Z.lor 0x80 (u8 cc)) 0x20 =? 0) && (Z.land (Z.lor 0x80 (u8 cc)) 0x10 =? 0)
    && (Z.land (Z.lor 0x80 (u8 cc)) 0x0f =? cc)).
  assert (P cc = true) as H.
  { apply (range_forall 16); [by vm_compute | unfold MaxCSRC in Hcc; lia]. }
  unfold P in H. breflect. done.
Qed.

Lemma first_octet_join b0 :
  is_u8 b0 → Z.shiftr b0 6 = 2 → Z.land b0 0x20 = 0 → Z.land b0 0x10 = 0 →
  0 ≤ Z.land b0 0x0f ≤ MaxCSRC ∧ Z.lor 0x80 (u8 (Z.land b0 0x0f)) = b0.
Proof.
  intros Hb Hv Hp Hx. pose (P := λ b, negb ((Z.shiftr b 6 =? 2) && (Z.land b 0x20 =? 0)
    && (Z.land b 0x10 =? 0)) || ((0 <=? Z.land b 0x0f) && (Z.land b 0x0f <=? MaxCSRC)
    && (Z.lor 0x80 (u8 (Z.land b 0x0f)) =? b))).
  assert (P b0 = true) as H by (apply byte_forall; [by vm_compute | done]).
  unfold P in H. rewrite Hv, Hp, Hx in H. cbn in H. breflect. lia.
Qed.

Lemma cc_range b0 : is_u8 b0 → 0 ≤ Z.land b0 0x0f ≤ MaxCSRC.
Proof.
  intros Hb. assert ((0 <=? Z.land b0 0x0f) && (Z.land b0 0x0f <=? MaxCSRC) = true) as H.
  { revert b0 Hb. apply (byte_forall (λ b, _)). by vm_compute. }
  breflect. lia.
Qed.

Definition marker_octet (m : bool) (pt : Z) : Z :=
  let b1 := Z.land pt 0x7f in if m then Z.lor b1 0x80 else b1.

Lemma marker_octet_bits m pt :
  0 ≤ pt < 128 →
  negb (Z.land (marker_octet m pt) 0x80 =? 0) = m ∧ Z.land (marker_octet m pt) 0x7f = pt.
Proof.
  intros Hpt. pose (P := λ pt, (Z.land (marker_octet true pt) 0x80 =? 0x80)
    && (Z.land (marker_octet false pt) 0x80 =? 0)
    && (Z.land (marker_octet true pt) 0x7f =? pt) && (Z.land (marker_octet false pt) 0x7f =? pt)).
  assert (P pt = true) as H by (apply (range_forall 128); [by vm_compute | done]).
  unfold P in H. breflect. destruct m; split; try done.
  - by replace (Z.land (marker_octet true pt) 128) with 128.
  - by replace (Z.land (marker_octet false pt) 128) with 0.
Qed.

Lemma marker_octet_join b1 :
  is_u8 b1 → 0 ≤ Z.land b1 0x7f < 128 ∧
  marker_octet (negb (Z.land b1 0x80 =? 0)) (Z.land b1 0x7f) = b1.
Proof.
  intros Hb. pose (P := λ b, (0 <=? Z.land b 0x7f) && (Z.land b 0x7f <? 128)
    && (marker_octet (negb (Z.land b 0x80 =? 0)) (Z.land b 0x7f) =? b)).
  assert (P b1 = true) as H by (apply byte_forall; [by vm_compute | done]).
  unfold P in H. breflect. lia.
Qed.

(** ** Totality *)
Lemma csrc_list_no_panic buf cc : 0 ≤ cc → csrc_list buf cc ≠ Panic.
Proof.
  intros. unfold csrc_list. no_panic; try done.
  apply read_csrc_no_panic; unfold HeaderSize in *; lia.
Qed.

Lemma csrc_list_ok buf cc ws off :
  0 ≤ cc → csrc_list buf cc = Ok (ws, off) → HeaderSize ≤ blen buf →
  off = HeaderSize + cc * 4 ∧ off ≤ blen buf.
Proof.
  intros Hcc H Hl. unfold csrc_list in H. destruct (Z.ltb_spec 0 cc).
  - destruct (Z.ltb_spec (blen buf) (HeaderSize + cc * 4)); [done|].
    apply bind_ok_inv in H as (? & _ & [= <- <-]). lia.
  - injection H as <- <-. lia.
Qed.

Lemma skip_extension_no_panic buf x off :
  bytes_ok buf → 0 ≤ off → skip_extension buf x off ≠ Panic.
Proof. intros. unfold skip_extension. no_panic; lia. Qed.

Lemma skip_extension_ok buf x off off' :
  bytes_ok buf → 0 ≤ off ≤ blen buf → skip_extension buf x off = Ok off' →
  off ≤ off' ≤ blen buf ∧ (x = false → off' = off).
Proof.
  intros Hok Ho H. unfold skip_extension in H. destruct x; [|injection H as <-; lia].
  destruct (Z.ltb_spec (blen buf) (off + 4)); [done|].
  apply bind_ok_inv in H as (w & Hw & H). apply be_at_range in Hw; [|done|lia].
  cbv zeta in H. destruct (Z.ltb_spec (blen buf) (off + (4 + w * 4))); [done|].
  injection H as <-. split; [lia | done].
Qed.

Lemma strip_padding_no_panic buf p region :
  bytes_ok buf → blen region ≤ blen buf → strip_padding buf p region ≠ Panic.
Proof.
  intros Hok Hr. unfold strip_padding. no_panic; try lia; blen_pos; try lia.
  all: match goal with H : byte_at _ _ = Ok _ |- _ => apply byte_at_range in H; [|done] end.
  all: autounfold with stream in *; lia.
Qed.

(** What [strip_padding] leaves: the region less a tail whose last octet counts it. *)
Lemma strip_padding_ok buf p region out :
  bytes_ok buf → strip_padding buf p region = Ok out → (∃ pre, buf = pre ++ region) →
  ∃ pad, region = out ++ pad ∧
    (if p then 1 ≤ blen pad ∧ list.last pad = Some (blen pad) else pad = []).
Proof.
  intros Hok H [pre Hpre]. unfold strip_padding in H. destruct p.
  2: { injection H as <-. exists []. by rewrite app_nil_r. }
  destruct (Z.eqb_spec (blen region) 0); [done|].
  apply bind_ok_inv in H as (padLen & Hp & H).
  pose proof Hp as Hrng. apply byte_at_range in Hrng; [|done]. unfold is_u8 in Hrng.
  destruct (_ || _) eqn:Hc; [done|]. breflect.
  apply slice_ok_inv in H as (_ & _ & ->). rewrite drop_0, Z.sub_0_r.
  exists (drop (Z.to_nat (blen region - padLen)) region). split; [by rewrite take_drop|].
  apply byte_at_ok_inv in Hp as [_ Hp].
  assert (blen (drop (Z.to_nat (blen region - padLen)) region) = padLen) as Hl.
  { unfold blen in *. rewrite length_drop. lia. }
  split; [lia|]. rewrite Hl. rewrite last_lookup, lookup_drop, length_drop.
  subst buf. rewrite lookup_app_r in Hp by (unfold blen in *; rewrite length_app; lia).
  rewrite <- Hp. f_equal. unfold blen in *. rewrite length_app in *. lia.
Qed.

(** ** Structure of an accepted packet *)
Lemma ParsePacket_inv buf p :
  ParsePacket buf = Ok p → bytes_ok buf →
  ∃ b0 b1 off region,
    byte_at (E:=pkt_err) buf 0 = Ok b0 ∧ byte_at (E:=pkt_err) buf 1 = Ok b1 ∧
    Z.shiftr b0 6 = 2 ∧ HeaderSize ≤ blen buf ∧
    be_at (E:=pkt_err) 2 buf 2 = Ok (SequenceNumber (Hdr p)) ∧
    be_at (E:=pkt_err) 4 buf 4 = Ok (Timestamp (Hdr p)) ∧
    be_at (E:=pkt_err) 4 buf 8 = Ok (SSRC (Hdr p)) ∧
    Version (Hdr p) = 2 ∧
    Padding (Hdr p) = negb (Z.land b0 0x20 =? 0) ∧
    Extension (Hdr p) = negb (Z.land b0 0x10 =? 0) ∧
    Marker (Hdr p) = negb (Z.land b1 0x80 =? 0) ∧ PayloadType (Hdr p) = Z.land b1 0x7f ∧
    csrc_list buf (Z.land b0 0x0f) = Ok (CSRC (Hdr p), HeaderSize + Z.land b0 0x0f * 4) ∧
    HeaderSize + Z.land b0 0x0f * 4 ≤ off ≤ blen buf ∧
    (Extension (Hdr p) = false → off = HeaderSize + Z.land b0 0x0f * 4) ∧
    region = drop (Z.to_nat off) buf ∧
    strip_padding buf (Padding (Hdr p)) region = Ok (Payload p).
Proof.
  intros H Hok. unfold ParsePacket in H.
  destruct (Z.ltb_spec (blen buf) HeaderSize); [done|].
  apply bind_ok_inv in H as (b0 & Hb0 & H). cbv zeta in H.
  destruct (Z.eqb_spec (Z.shiftr b0 6) 2) as [Hv|]; [|done]. cbn [negb] in H.
  apply bind_ok_inv in H as (b1 & Hb1 & H).
  apply bind_ok_inv in H as (seq & Hseq & H).
  apply bind_ok_inv in H as (ts & Hts & H).
  apply bind_ok_inv in H as (ssrc & Hssrc & H).
  apply bind_ok_inv in H as ([csrc off] & Hcs & H).
  apply bind_ok_inv in H as (off' & Hoff & H).
  apply bind_ok_inv in H as (region & Hreg & H).
  apply bind_ok_inv in H as (out & Hout & [= <-]).
  pose proof (byte_at_range _ _ _ Hok Hb0) as Hr0. pose proof (cc_range b0 Hr0).
  pose proof Hcs as Hcs'. apply csrc_list_ok in Hcs' as [-> Hle]; [|lia|lia].
  apply skip_extension_ok in Hoff as [? Hx]; [|done|unfold HeaderSize in *; lia].
  rewrite slice_from_ok in Hreg by (unfold HeaderSize in *; lia). injection Hreg as <-.
  exists b0, b1, off', (drop (Z.to_nat off') buf). cbn. split_and!; try done; lia.
Qed.

Lemma csrc_list_join buf cc ws off :
  bytes_ok buf → 0 ≤ cc → csrc_list buf cc = Ok (ws, off) → HeaderSize ≤ blen buf →
  blen ws = cc ∧ Forall is_u32 ws ∧
  concat (be_split 4 <$> ws) = take (Z.to_nat (4 * cc)) (drop 12 buf).
Proof.
  intros Hok Hcc H Hl. unfold csrc_list in H. destruct (Z.ltb_spec 0 cc).
  - destruct (Z.ltb_spec (blen buf) (HeaderSize + cc * 4)); [done|].
    apply bind_ok_inv in H as (ws' & Hw & [= <- <-]).
    apply read_csrc_join in Hw as (Hlen & HF & Hc & _); [|done|unfold HeaderSize; lia].
    rewrite Hc. unfold blen. split_and!; [lia | done |]. do 2 f_equal. lia.
  - injection H as <- <-. assert (cc = 0) as -> by lia. by split_and!.
Qed.

Lemma be_at_join {E} n buf off v :
  bytes_ok buf → @be_at E (Z.of_nat n) buf off = Ok v →
  be_split n v = take n (drop (Z.to_nat off) buf).
Proof.
  intros Hok H. unfold be_at in H. apply bind_ok_inv in H as (s & Hs & [= <-]).
  pose proof (slice_length _ _ _ _ Hs) as Hl. pose proof (slice_bytes_ok _ _ _ _ Hok Hs).
  apply slice_ok_inv in Hs as (_ & _ & ->).
  replace (Z.to_nat (off + Z.of_nat n - off)) with n in * by lia.
  rewrite <- (be_split_combine (take n _)) at 2 by done. unfold blen in Hl. f_equal. lia.
Qed.

Lemma header_bytes buf b0 b1 :
  byte_at (E:=pkt_err) buf 0 = Ok b0 → byte_at (E:=pkt_err) buf 1 = Ok b1 → take 2 buf = [b0; b1].
Proof.
  intros [_ H0]%byte_at_ok_inv [_ H1]%byte_at_ok_inv.
  destruct buf as [|x [|y buf]]; try done. simpl in H0, H1. injection H0 as ->. injection H1 as ->. done.
Qed.

Lemma ParsePacket_no_panic buf : bytes_ok buf → ParsePacket buf ≠ Panic.
Proof.
  intros Hok. unfold ParsePacket. no_panic; unfold HeaderSize in *; try lia.
  all: match goal with H : byte_at _ 0 = _ |- _ =>
         apply byte_at_range, cc_range in H; [|done] end.
  { apply csrc_list_no_panic; lia. }
  all: match goal with H : csrc_list _ _ = _ |- _ =>
         apply csrc_list_ok in H; unfold HeaderSize in *; [|lia|lia] end.
  { apply skip_extension_no_panic; [done|lia]. }
  all: match goal with H : skip_extension _ _ _ = _ |- _ =>
         apply skip_extension_ok in H; [|done|lia] end.
  { lia. }
  match goal with H : slice_from _ _ = _ |- _ => apply slice_from_length in H end.
  apply strip_padding_no_panic; [done|lia].
Qed.

(** ** Properties *)

(** [ParsePacket] is total on untrusted input: no byte sequence makes an
    index or slice expression of the parser panic, whatever CSRC count,
    extension length or padding length it declares. *)
Theorem ParsePacket_total buf : bytes_ok buf → ParsePacket buf ≠ Panic.
Proof. exact (ParsePacket_no_panic buf). Qed.

Lemma ParsePacket_total_witness :
  bytes_ok [0x9f; 0xff] ∧ ParsePacket [0x9f; 0xff] ≠ Panic.
Proof.
  split; [repeat constructor; by vm_compute|].
  apply ParsePacket_total. repeat constructor; by vm_compute.
Defined.

(** The payload an accepted packet delivers is exactly the input between a
    header of at least twelve octets and the declared padding: it is a contiguous
    run of the input, every header field is in its wire range, and when the P bit
    is set the stripped tail is non-empty and its last octet counts it. *)
Theorem ParsePacket_payload buf p :
  bytes_ok buf → ParsePacket buf = Ok p →
  Version (Hdr p) = 2 ∧ header_ok (Hdr p) ∧
  ∃ hdr pad, buf = hdr ++ Payload p ++ pad ∧
    HeaderSize + 4 * blen (CSRC (Hdr p)) ≤ blen hdr ∧
    (Extension (Hdr p) = false → blen hdr = HeaderSize + 4 * blen (CSRC (Hdr p))) ∧
    (if Padding (Hdr p) then 1 ≤ blen pad ∧ list.last pad = Some (blen pad) else pad = []).
Proof.
  intros Hok H. apply ParsePacket_inv in H as
    (b0 & b1 & off & region & Hb0 & Hb1 & _ & Hl & Hsq & Hts & Hss & Hver & _ & _ & _ & Hpt
     & Hcs & Hoff & Hx & -> & Hpad); [|done].
  pose proof (cc_range b0 (byte_at_range _ _ _ Hok Hb0)) as Hcc.
  apply csrc_list_join in Hcs as (Hlen & HF & _); [|done|lia|done].
  split; [done|]. split.
  { split.
    - rewrite Hpt. apply marker_octet_join. by eapply byte_at_range.
    - by eapply be_at_range in Hsq; [|done|lia].
    - by eapply be_at_range in Hts; [|done|lia].
    - by eapply be_at_range in Hss; [|done|lia].
    - done.
    - lia. }
  apply strip_padding_ok in Hpad as (pad & Hreg & Hp); [|done|].
  2: { exists (take (Z.to_nat off) buf). by rewrite take_drop. }
  exists (take (Z.to_nat off) buf), pad. rewrite <- Hreg, take_drop.
  assert (blen (take (Z.to_nat off) buf) = off) as ->.
  { unfold blen, HeaderSize in *. rewrite length_take. lia. }
  split_and!; [done | lia | intros; rewrite Hx by done; lia | done].
Qed.

Lemma ParsePacket_payload_witness :
  let buf := [0xa0; 0x60; 0; 1; 0; 0; 0; 2; 0; 0; 0; 3; 7; 8; 9; 2] in
  ∃ p, ParsePacket buf = Ok p ∧ Payload p = [7; 8] ∧ Version (Hdr p) = 2 ∧ header_ok (Hdr p).
Proof.
  eexists. split; [by vm_compute|]. split; [done|].
  edestruct (ParsePacket_payload [0xa0; 0x60; 0; 1; 0; 0; 0; 2; 0; 0; 0; 3; 7; 8; 9; 2])
    as (Hv & Hh & _); [|by vm_compute|].
  - repeat constructor; by vm_compute.
  - exact (conj Hv Hh).
Defined.

Lemma AppendPacket_bytes dst h payload :
  header_ok h → Extension h = false →
  AppendPacket dst h payload =
    (dst ++ ([Z.lor 0x80 (u8 (blen (CSRC h))); marker_octet (Marker h) (PayloadType h)]
       ++ be_split 2 (SequenceNumber h) ++ be_split 4 (Timestamp h) ++ be_split 4 (SSRC h)
       ++ concat (be_split 4 <$> CSRC h)) ++ payload, None).
Proof.
  intros Hok Hx. unfold AppendPacket, AppendTo. rewrite Hx.
  pose proof (hok_cc _ Hok). zcase. fold (marker_octet (Marker h) (PayloadType h)).
  f_equal. rewrite <- !app_assoc. done.
Qed.

Lemma csrc_list_concat pre ws post cc :
  Forall is_u32 ws → blen pre = HeaderSize → cc = blen ws →
  csrc_list (pre ++ concat (be_split 4 <$> ws) ++ post) cc = Ok (ws, HeaderSize + cc * 4).
Proof.
  intros Hws Hpre ->. unfold csrc_list. rewrite !blen_app, blen_concat_be, Hpre.
  pose proof (blen_nonneg ws). pose proof (blen_nonneg post).
  destruct (Z.ltb_spec 0 (blen ws)).
  - destruct (Z.ltb_spec (HeaderSize + (Z.of_nat 4 * blen ws + blen post))
      (HeaderSize + blen ws * 4)); [lia|].
    replace (Z.to_nat (blen ws)) with (length ws) by (unfold blen; lia).
    rewrite (read_csrc_split ws pre post) by done. done.
  - rewrite (blen_zero ws) by lia. done.
Qed.

(** C29: Marshal then parse is the identity: for every header whose fields fit the
    wire, [AppendPacket] extends [dst] by an encoding that [ParsePacket] accepts,
    returning the same payload and the same header with version 2 and the P and X
    bits clear.  A header with the X bit, or with more than fifteen CSRC entries,
    is refused and [dst] is returned unchanged. *)
Theorem AppendPacket_ParsePacket dst h payload :
  (header_ok h → Extension h = false → ∃ bs, AppendPacket dst h payload = (dst ++ bs, None) ∧
     ParsePacket bs = Ok (mkPacket (on_wire h) payload)) ∧
  (Extension h = true → AppendPacket dst h payload = (dst, Some ErrMarshalExtension)) ∧
  (Extension h = false → MaxCSRC < blen (CSRC h) →
     AppendPacket dst h payload = (dst, Some ErrTooManyCSRC)).
Proof.
  split_and!; [intros Hok Hx | unfold AppendPacket, AppendTo; by intros ->
              | unfold AppendPacket, AppendTo; intros -> ?; by zcase].
  eexists. split; [by apply AppendPacket_bytes|].
  destruct Hok as [Hpt Hseq Hts Hssrc Hcs Hcc].
  pose proof (blen_nonneg (CSRC h)) as Hnn.
  destruct (first_octet_bits (blen (CSRC h))) as (Hv & Hp & Hxb & Hc); [lia|].
  destruct (marker_octet_bits (Marker h) (PayloadType h) Hpt) as [Hm Hpt'].
  set (b0 := Z.lor 0x80 (u8 (blen (CSRC h)))) in *.
  set (b1 := marker_octet (Marker h) (PayloadType h)) in *.
  set (sq := be_split 2 (SequenceNumber h)). set (tt := be_split 4 (Timestamp h)).
  set (ss := be_split 4 (SSRC h)). set (cs := concat (be_split 4 <$> CSRC h)).
  assert (blen cs = 4 * blen (CSRC h)) as Hcl by apply blen_concat_be.
  assert (blen sq = 2 ∧ blen tt = 4 ∧ blen ss = 4) as (Hl1 & Hl2 & Hl3).
  { unfold sq, tt, ss. by rewrite !blen_be_split. }
  unfold ParsePacket.
  destruct (Z.ltb_spec (blen (([b0; b1] ++ sq ++ tt ++ ss ++ cs) ++ payload)) HeaderSize).
  { unfold HeaderSize in *. blia. }
  rewrite <- !app_assoc. cbn [app].
  rewrite byte_at_fst, bind_Ok. cbv zeta. rewrite Hv. cbn [Z.eqb negb Pos.eqb].
  rewrite byte_at_snd, bind_Ok. change (b0 :: b1 :: ?l) with ([b0; b1] ++ l).
  rewrite (be_at_mid 2 (SequenceNumber h) [b0; b1]) by done. rewrite bind_Ok. fold sq.
  rewrite (app_assoc [b0; b1] sq).
  rewrite (be_at_mid 4 (Timestamp h) _ _ 4) by (exact Hts || blia). rewrite bind_Ok. fold tt.
  rewrite (app_assoc _ tt).
  rewrite (be_at_mid 4 (SSRC h) _ _ 8) by (exact Hssrc || blia). rewrite bind_Ok. fold ss.
  rewrite (app_assoc _ ss), Hp, Hxb, Hc, Hm, Hpt'.
  rewrite (csrc_list_concat _ (CSRC h) payload); [|done| unfold HeaderSize; blia |done].
  rewrite bind_Ok. fold cs. cbn [Z.eqb negb skip_extension]. rewrite bind_ret.
  rewrite slice_from_ok by (unfold HeaderSize; blia). rewrite bind_Ok.
  unfold strip_padding. rewrite bind_ret. rewrite (app_assoc _ cs).
  rewrite drop_app_length'; [done|].
  apply Nat2Z.inj. rewrite Z2Nat.id by (unfold HeaderSize; lia).
  change (Z.of_nat (length ?l)) with (blen l). unfold HeaderSize; blia.
Qed.

Definition sample_header : Header := mkHeader 0 true false true 96 65535 4294967295 7 [1; 2].

Lemma AppendPacket_ParsePacket_witness :
  header_ok sample_header ∧
  ∃ bs, AppendPacket [9] sample_header [5; 6] = ([9] ++ bs, None) ∧
        ParsePacket bs = Ok (mkPacket (on_wire sample_header) [5; 6]).
Proof.
  assert (header_ok sample_header) as Hok by (split; cbn; try lia; repeat constructor; by vm_compute).
  split; [done|]. by apply (AppendPacket_ParsePacket [9] sample_header [5; 6]).
Defined.

(** Parse then marshal is the identity on packets without extension and
    padding: re-encoding what [ParsePacket] returned rebuilds the received bytes,
    so the parser loses nothing and the encoding of such a packet is unique. *)
Theorem ParsePacket_AppendPacket buf p :
  bytes_ok buf → ParsePacket buf = Ok p →
  Extension (Hdr p) = false → Padding (Hdr p) = false →
  AppendPacket [] (Hdr p) (Payload p) = (buf, None).
Proof.
  intros Hok H Hx Hp. apply ParsePacket_inv in H as
    (b0 & b1 & off & region & Hb0 & Hb1 & Hv & Hl & Hsq & Hts & Hss & _ & HP & HX & HM & Hpt
     & Hcs & Hoff & Hoff' & -> & Hpad); [|done].
  rewrite Hp in *. rewrite Hx in *. injection Hpad as Hpay. symmetry in HX, HP.
  apply negb_false_iff in HX, HP. breflect. rewrite Hoff' in * by done. clear Hoff' off Hoff.
  pose proof (byte_at_range _ _ _ Hok Hb0) as Hr0. pose proof (byte_at_range _ _ _ Hok Hb1) as Hr1.
  destruct (first_octet_join b0 Hr0 Hv HP HX) as [Hcc Hj0].
  destruct (marker_octet_join b1 Hr1) as [Hptr Hj1].
  apply csrc_list_join in Hcs as (Hlen & HF & Hc); [|done|lia|done].
  rewrite AppendPacket_bytes; [|split|done].
  - rewrite Hlen, Hj0, HM, Hpt, Hj1, <- Hpay, Hc, <- (header_bytes buf b0 b1) by done.
    apply (be_at_join 2) in Hsq; [|done]. apply (be_at_join 4) in Hts; [|done].
    apply (be_at_join 4) in Hss; [|done]. rewrite Hsq, Hts, Hss. cbn [app]. f_equal.
    change (Z.to_nat 2) with 2%nat. change (Z.to_nat 4) with 4%nat. change (Z.to_nat 8) with 8%nat.
    rewrite !app_assoc, take_take_drop. change (2 + 2)%nat with 4%nat.
    rewrite take_take_drop. change (4 + 4)%nat with 8%nat.
    rewrite take_take_drop. change (8 + 4)%nat with 12%nat. rewrite take_take_drop.
    replace (12 + _)%nat with (Z.to_nat (HeaderSize + Z.land b0 15 * 4))
      by (unfold HeaderSize; lia). apply take_drop.
  - rewrite Hpt. done.
  - by eapply be_at_range in Hsq; [|done|lia].
  - by eapply be_at_range in Hts; [|done|lia].
  - by eapply be_at_range in Hss; [|done|lia].
  - done.
  - lia.
Qed.

Lemma ParsePacket_AppendPacket_witness :
  let buf := [0x81; 0xe0; 0; 1; 0; 0; 0; 2; 0; 0; 0; 3; 0; 0; 0; 4; 5; 6] in
  ∃ p, ParsePacket buf = Ok p ∧ AppendPacket [] (Hdr p) (Payload p) = (buf, None).
Proof.
  eexists. split; [by vm_compute|].
  apply (ParsePacket_AppendPacket [0x81; 0xe0; 0; 1; 0; 0; 0; 2; 0; 0; 0; 3; 0; 0; 0; 4; 5; 6]);
    [repeat constructor; by vm_compute | by vm_compute | done | done].
Defined.
End rtp.
