(* ===== verification/Rtcp.v ===== *)
(** * RTCP and NTP timestamps: [rtsp/rtp/rtcp.go], [rtcp_marshal.go], [ntp.go]

    The compound parser that extracts Sender Reports, the Sender Report and
    Receiver Report encoders, the sender-clock construction, and the conversion
    between wall-clock times and 64-bit NTP timestamps.  Exhausting the fuel of
    [compound_loop] is the outcome [Panic], so its totality theorem is also the
    termination of the Go loop. *)
From S2P Require Import Prelude Bytes.

Module rtcp.

Definition PTSenderReport : Z := 200.
Definition PTReceiverReport : Z := 201.
Definition senderInfoSize : Z := 28.
Definition maxReportBlocks : Z := 31.
Definition rrHeaderSize : Z := 8.
Definition reportBlockSize : Z := 24.

Inductive rtcp_err := ErrShortRTCP | ErrRTCPVersion | ErrRTCPLength.

Record SenderReport := mkSR {
  SSRC : Z;
  NTPTimestamp : Z;
  RTPTimestamp : Z;
  PacketCount : Z;
  OctetCount : Z
}.

Record ReportBlock := mkBlock {
  rb_SSRC : Z;
  FractionLost : Z;
  CumulativeLost : Z;
  HighestSequence : Z;
  Jitter : Z;
  LastSR : Z;
  DelaySinceLastSR : Z
}.

Record ReceiverReport := mkRR { ReporterSSRC : Z; Blocks : list ReportBlock }.

(** ** Parsing *)
Definition read_sr (buf : list Z) (off : Z) : res rtcp_err SenderReport :=
  ssrc ← be_at 4 buf (off + 4);
  hi ← be_at 4 buf (off + 8);
  lo ← be_at 4 buf (off + 12);
  rt ← be_at 4 buf (off + 16);
  pc ← be_at 4 buf (off + 20);
  oc ← be_at 4 buf (off + 24);
  mret (mkSR ssrc (Z.lor (u64 (Z.shiftl hi 32)) lo) rt pc oc).

Fixpoint compound_loop (fuel : nat) (buf : list Z) (off : Z) (reports : list SenderReport)
    : res rtcp_err (list SenderReport) :=
  if off <? blen buf then
    match fuel with
    | O => Panic
    | S fuel =>
        if blen buf - off <? 4 then Err ErrShortRTCP else
        b ← byte_at buf off;
        if negb (Z.shiftr b 6 =? 2) then Err ErrRTCPVersion else
        pt ← byte_at buf (off + 1);
        wordLen ← be_at 2 buf (off + 2);
        let pktLen := (wordLen + 1) * 4 in
        if blen buf - off <? pktLen then Err ErrRTCPLength else
        reports ← (if (pt =? PTSenderReport) && (senderInfoSize <=? pktLen)
                   then sr ← read_sr buf off; mret (reports ++ [sr])
                   else mret reports);
        compound_loop fuel buf (off + pktLen) reports
    end
  else mret reports.

Definition ParseCompound (buf : list Z) : res rtcp_err (list SenderReport) :=
  compound_loop (length buf) buf 0 [].

(** ** Marshalling *)
Definition Marshal_SR (sr : SenderReport) : list Z :=
  [128; PTSenderReport] ++ be_split 2 (senderInfoSize / 4 - 1) ++ be_split 4 (SSRC sr)
    ++ be_split 4 (u32 (Z.shiftr (NTPTimestamp sr) 32)) ++ be_split 4 (u32 (NTPTimestamp sr))
    ++ be_split 4 (RTPTimestamp sr) ++ be_split 4 (PacketCount sr) ++ be_split 4 (OctetCount sr).

Definition marshal_block (b : ReportBlock) : list Z :=
  be_split 4 (rb_SSRC b)
    ++ [FractionLost b; u8 (Z.shiftr (CumulativeLost b) 16);
        u8 (Z.shiftr (CumulativeLost b) 8); u8 (CumulativeLost b)]
    ++ be_split 4 (HighestSequence b) ++ be_split 4 (Jitter b) ++ be_split 4 (LastSR b)
    ++ be_split 4 (DelaySinceLastSR b).

Definition Marshal_RR (r : ReceiverReport) : list Z :=
  let n := Z.min (blen (Blocks r)) maxReportBlocks in
  let size := rrHeaderSize + n * reportBlockSize in
  let wordLen := size / 4 - 1 in
  [u8 (Z.lor 128 n); PTReceiverReport] ++ be_split 2 (u16 wordLen) ++ be_split 4 (ReporterSSRC r)
    ++ concat (marshal_block <$> take (Z.to_nat n) (Blocks r)).

(** ** NTP timestamps

    A [time.Time] by what the code reads of it: Unix seconds and nanoseconds. *)
Record Time := mkTime { Unix : Z; Nanosecond : Z }.
#[export] Instance Time_eq_dec : EqDecision Time.
Proof. solve_decision. Defined.

(** The zero [time.Time]: January 1, year 1, 00:00:00 UTC. *)
Definition zero_time : Time := mkTime (-62135596800) 0.

Definition ntpUnixOffset : Z := 2208988800.
Definition Second : Z := 1000000000.

Definition NTPTime (ts : Z) : Time :=
  let sec := i64 (Z.shiftr ts 32) in
  let sec := if sec <? 0x80000000 then sec + 2 ^ 32 else sec in
  let nsec := Z.shiftr (u64 (Z.land ts 0xFFFFFFFF * Second)) 32 in
  mkTime (sec - ntpUnixOffset) nsec.

Definition NTPFromTime (t : Time) : Z :=
  if decide (t = zero_time) then 0
  else
    let sec := Z.land (u64 (Unix t + ntpUnixOffset)) 0xFFFFFFFF in
    let frac := u64 (Z.shiftl (Nanosecond t) 32) / Second in
    let ts := Z.lor (u64 (Z.shiftl sec 32)) frac in
    if negb (ts =? 0) then ts else 1.

Record SenderClock := mkClock {
  RTPTime : Z;
  clk_NTPTime : Time;
  ReceivedAt : Time;
  ClockRate : Z;
  Valid : bool
}.

Definition SenderClockFrom (sr : SenderReport) (receivedAt : Time) (clockRate : Z)
    : option SenderClock :=
  if NTPTimestamp sr =? 0 then None
  else Some (mkClock (RTPTimestamp sr) (NTPTime (NTPTimestamp sr)) receivedAt clockRate true).

(** ** Well-formed reports *)
Record sr_ok (sr : SenderReport) : Prop := {
  sr_ssrc : is_u32 (SSRC sr);
  sr_ntp : is_u64 (NTPTimestamp sr);
  sr_rtp : is_u32 (RTPTimestamp sr);
  sr_pc : is_u32 (PacketCount sr);
  sr_oc : is_u32 (OctetCount sr)
}.

(** A sub-packet a sender of this package can put into a compound packet. *)
Inductive subpacket := SubSR (sr : SenderReport) | SubRR (r : ReceiverReport).

Definition marshal_sub (s : subpacket) : list Z :=
  match s with SubSR sr => Marshal_SR sr | SubRR r => Marshal_RR r end.

Definition sub_ok (s : subpacket) : Prop :=
  match s with SubSR sr => sr_ok sr | SubRR _ => True end.

Definition sub_reports (s : subpacket) : list SenderReport :=
  match s with SubSR sr => [sr] | SubRR _ => [] end.

(** ** The compound loop *)
Lemma read_sr_no_panic buf off :
  0 ≤ off → off + senderInfoSize ≤ blen buf → read_sr buf off ≠ Panic.
Proof. unfold senderInfoSize. intros. unfold read_sr. no_panic; lia. Qed.

Lemma compound_loop_total fuel buf off reports :
  bytes_ok buf → 0 ≤ off → blen buf - off ≤ Z.of_nat fuel →
  compound_loop fuel buf off reports ≠ Panic.
Proof.
  intros Hok. revert off reports. induction fuel as [|fuel IH]; intros off reports Ho Hf;
    cbn [compound_loop].
  { zcase. done. }
  no_panic; try lia; unfold senderInfoSize in *.
  { apply read_sr_no_panic; unfold senderInfoSize; lia. }
  all: match goal with H : be_at _ _ _ = Ok ?w |- _ => apply be_at_range in H; [|done|lia] end.
  apply IH; lia.
Qed.

Lemma lor_shift_split v : is_u64 v →
  Z.lor (u64 (Z.shiftl (u32 (Z.shiftr v 32)) 32)) (u32 v) = v.
Proof.
  unfold is_u64, u64, u32. intros Hv. rewrite Z.shiftr_div_pow2 by lia.
  assert (0 ≤ v / 2 ^ 32 < 2 ^ 32) as Hq.
  { split; [apply Z.div_pos; lia|]. apply Z.div_lt_upper_bound; lia. }
  rewrite (Z.mod_small (v / 2 ^ 32)) by lia. rewrite Z.mod_small by
    (rewrite Z.shiftl_mul_pow2 by lia; lia).
  pose proof (Z.mod_pos_bound v (2 ^ 32)).
  rewrite lor_shiftl_add by lia. rewrite (Z.div_mod v (2 ^ 32)) at 3 by lia. lia.
Qed.

Lemma compound_step fuel pre b0 pt w body rest reports :
  Z.shiftr b0 6 = 2 → is_u16 w → 4 + blen body = (w + 1) * 4 →
  let sub := b0 :: pt :: be_split 2 w ++ body in
  compound_loop (S fuel) (pre ++ sub ++ rest) (blen pre) reports =
  (reports ← (if (pt =? PTSenderReport) && (senderInfoSize <=? (w + 1) * 4)
              then sr ← read_sr (pre ++ sub ++ rest) (blen pre); mret (reports ++ [sr])
              else mret reports);
   compound_loop fuel (pre ++ sub ++ rest) (blen pre + blen sub) reports).
Proof.
  intros Hv Hw Hb sub.
  assert (blen sub = (w + 1) * 4) as Hsub by (unfold sub; blia).
  assert (blen (pre ++ sub ++ rest) = blen pre + blen sub + blen rest) as Hlen by blia.
  assert (0 ≤ blen pre ∧ 0 ≤ blen rest) as [? ?] by (split; apply blen_nonneg).
  unfold is_u16 in Hw.
  assert (@byte_at rtcp_err (pre ++ sub ++ rest) (blen pre) = Ok b0) as Hb0.
  { unfold sub. cbn [app]. by rewrite byte_at_mid. }
  assert (@byte_at rtcp_err (pre ++ sub ++ rest) (blen pre + 1) = Ok pt) as Hpt.
  { unfold sub. cbn [app]. rewrite byte_at_app_r by lia.
    by replace (blen pre + 1 - blen pre) with 1 by lia. }
  assert (@be_at rtcp_err 2 (pre ++ sub ++ rest) (blen pre + 2) = Ok w) as Hbe.
  { unfold sub. cbn [app]. rewrite <- (app_assoc (be_split 2 w)).
    change (b0 :: pt :: ?l) with ([b0; pt] ++ l). rewrite (app_assoc pre). apply (be_at_mid 2); [exact Hw|blia]. }
  cbn [compound_loop]. rewrite Hlen, Hsub.
  destruct (Z.ltb_spec (blen pre) (blen pre + (w + 1) * 4 + blen rest)); [|lia].
  destruct (Z.ltb_spec (blen pre + (w + 1) * 4 + blen rest - blen pre) 4); [lia|].
  rewrite Hb0, bind_Ok, Hv. cbn [Z.eqb negb Pos.eqb]. rewrite Hpt, bind_Ok, Hbe, bind_Ok.
  destruct (Z.ltb_spec (blen pre + (w + 1) * 4 + blen rest - blen pre) ((w + 1) * 4)); [lia|].
  done.
Qed.

Lemma read_sr_Marshal pre sr rest :
  sr_ok sr → read_sr (pre ++ Marshal_SR sr ++ rest) (blen pre) = Ok sr.
Proof.
  intros [H1 H2 H3 H4 H5]. unfold read_sr, Marshal_SR.
  set (h := [128; PTSenderReport] ++ be_split 2 (senderInfoSize / 4 - 1)).
  assert (blen h = 4) as Hh by (unfold h; blia).
  rewrite (app_assoc [128; PTSenderReport] (be_split 2 _)). fold h. rewrite <- !app_assoc.
  rewrite (app_assoc pre h).
  do 6 be_step. rewrite lor_shift_split by done. by destruct sr.
Qed.

Lemma Marshal_SR_length sr : blen (Marshal_SR sr) = senderInfoSize.
Proof. unfold Marshal_SR, senderInfoSize. blia. Qed.

Lemma marshal_block_length b : blen (marshal_block b) = reportBlockSize.
Proof. unfold marshal_block, reportBlockSize. blia. Qed.

Lemma Marshal_blocks_length bs :
  blen (concat (marshal_block <$> bs)) = reportBlockSize * blen bs.
Proof.
  induction bs as [|b bs IH]; [unfold blen; simpl; lia|].
  cbn [fmap list_fmap concat]. rewrite blen_app, marshal_block_length, IH, blen_cons. lia.
Qed.

Lemma rr_count_range r : 0 ≤ Z.min (blen (Blocks r)) maxReportBlocks ≤ 31.
Proof. unfold maxReportBlocks. pose proof (blen_nonneg (Blocks r)). lia. Qed.

Lemma rr_first_octet n : 0 ≤ n ≤ 31 → Z.shiftr (u8 (Z.lor 128 n)) 6 = 2.
Proof.
  intros Hn. apply Z.eqb_eq. revert n Hn.
  assert (∀ n, 0 ≤ n < 32 → (Z.shiftr (u8 (Z.lor 128 n)) 6 =? 2) = true) as H.
  { apply (range_forall 32 (λ n, _)). by vm_compute. }
  intros. apply H. lia.
Qed.

(** The length word the Receiver Report writes, in 32-bit words minus one. *)
Definition rr_words (r : ReceiverReport) : Z :=
  1 + 6 * Z.min (blen (Blocks r)) maxReportBlocks.

Lemma Marshal_RR_shape r :
  ∃ body, Marshal_RR r = u8 (Z.lor 128 (Z.min (blen (Blocks r)) maxReportBlocks))
      :: PTReceiverReport :: be_split 2 (rr_words r) ++ body ∧
    4 + blen body = (rr_words r + 1) * 4 ∧ is_u16 (rr_words r).
Proof.
  pose proof (rr_count_range r) as Hn. unfold Marshal_RR, rr_words.
  set (n := Z.min (blen (Blocks r)) maxReportBlocks) in *.
  assert (u16 ((rrHeaderSize + n * reportBlockSize) / 4 - 1) = 1 + 6 * n) as Hw.
  { unfold rrHeaderSize, reportBlockSize.
    replace (8 + n * 24) with ((2 + 6 * n) * 4) by lia. rewrite Z.div_mul by lia.
    rewrite u16_small; [lia|]. unfold is_u16. lia. }
  rewrite Hw. cbn [app]. eexists. split; [reflexivity|]. split; [|unfold is_u16; lia].
  rewrite blen_app, blen_be_split, Marshal_blocks_length. unfold reportBlockSize.
  unfold blen at 1. rewrite length_take.
  assert (n ≤ Z.of_nat (length (Blocks r))) by (unfold n, blen; lia). lia.
Qed.

Lemma compound_loop_marshal subs fuel pre reports :
  Forall sub_ok subs → blen (concat (marshal_sub <$> subs)) ≤ Z.of_nat fuel →
  compound_loop fuel (pre ++ concat (marshal_sub <$> subs)) (blen pre) reports =
  Ok (reports ++ concat (sub_reports <$> subs)).
Proof.
  intros Hok. revert fuel pre reports. induction Hok as [|s subs Hs Hok IH]; intros fuel pre reports Hf.
  { cbn [fmap list_fmap concat]. rewrite !app_nil_r.
    destruct fuel; cbn [compound_loop]; zcase. }
  cbn [fmap list_fmap concat] in *. set (rest := concat (marshal_sub <$> subs)) in *.
  rewrite blen_app in Hf. rewrite (app_assoc reports).
  destruct s as [sr|r]; cbn [marshal_sub sub_reports] in *.
  - rewrite Marshal_SR_length in Hf. unfold senderInfoSize in Hf. pose proof (blen_nonneg rest).
    destruct fuel as [|fuel]; [lia|].
    pose proof (read_sr_Marshal pre sr rest Hs) as Hrd.
    pose proof (Marshal_SR_length sr) as Hlen.
    set (body := be_split 4 (SSRC sr) ++ be_split 4 (u32 (Z.shiftr (NTPTimestamp sr) 32))
      ++ be_split 4 (u32 (NTPTimestamp sr)) ++ be_split 4 (RTPTimestamp sr)
      ++ be_split 4 (PacketCount sr) ++ be_split 4 (OctetCount sr)).
    change (Marshal_SR sr) with (128 :: PTSenderReport :: be_split 2 6 ++ body) in *.
    rewrite (compound_step fuel pre 128 PTSenderReport 6 body rest) by (done || (unfold body; blia)).
    change (_ && _) with true. cbv iota.
    rewrite Hrd, bind_Ok, bind_ret.
    rewrite app_assoc, <- blen_app. apply IH. lia.
  - destruct (Marshal_RR_shape r) as (body & Heq & Hb & Hw). rewrite Heq in *.
    assert (0 ≤ blen body) by apply blen_nonneg. pose proof (blen_nonneg rest).
    autorewrite with blen in Hf. destruct fuel as [|fuel]; [lia|].
    rewrite compound_step; [|apply rr_first_octet, rr_count_range|done|done].
    change (_ && _) with false. cbv iota. rewrite bind_ret, app_nil_r.
    rewrite app_assoc, <- blen_app. apply IH. lia.
Qed.

(** ** Properties *)

(** [ParseCompound] is total and terminates: on every byte sequence its loop
    ends within [len(buf)] rounds, because each round advances by at least the
    four octets of a header, and no access is out of range. *)
Theorem ParseCompound_total buf : bytes_ok buf → ParseCompound buf ≠ Panic.
Proof. intros. apply compound_loop_total; [done | lia | unfold blen; lia]. Qed.

Lemma ParseCompound_total_witness :
  bytes_ok [0x80; 200; 0xff; 0xff; 1] ∧ ParseCompound [0x80; 200; 0xff; 0xff; 1] ≠ Panic.
Proof.
  split; [repeat constructor; by vm_compute|].
  apply ParseCompound_total. repeat constructor; by vm_compute.
Defined.

(** A compound packet built from this package's own encoders parses back to
    exactly the Sender Reports it contains, in order: Sender Reports survive with
    every field, and Receiver Reports of any number of blocks (clamped to the 31
    the RC field can hold) are skipped by a length word that agrees with the bytes
    written. *)
Theorem ParseCompound_Marshal subs :
  Forall sub_ok subs →
  ParseCompound (concat (marshal_sub <$> subs)) = Ok (concat (sub_reports <$> subs)).
Proof.
  intros Hok. unfold ParseCompound.
  apply (compound_loop_marshal subs _ [] []); [done|]. unfold blen. lia.
Qed.

Definition sample_sr : SenderReport := mkSR 1 (2 ^ 63 + 5) 4294967295 3 4.
Definition sample_rr : ReceiverReport := mkRR 9 [mkBlock 1 2 3 4 5 6 7].

Lemma ParseCompound_Marshal_witness :
  sr_ok sample_sr ∧
  ParseCompound (concat (marshal_sub <$> [SubRR sample_rr; SubSR sample_sr])) = Ok [sample_sr].
Proof.
  assert (sr_ok sample_sr) by (split; by vm_compute). split; [done|].
  apply (ParseCompound_Marshal [SubRR sample_rr; SubSR sample_sr]). by repeat constructor.
Defined.

Lemma ntp_frac_small n : 0 ≤ n < Second → u64 (Z.shiftl n 32) / Second = n * 2 ^ 32 / Second.
Proof.
  unfold Second, u64. intros. rewrite Z.shiftl_mul_pow2 by lia. by rewrite Z.mod_small by lia.
Qed.

(** Scaling nanoseconds to 32-bit fractions and back loses at most one nanosecond. *)
Lemma ntp_frac_back n :
  0 ≤ n < Second →
  let f := n * 2 ^ 32 / Second in
  0 ≤ f < 2 ^ 32 ∧ n - 1 ≤ f * Second / 2 ^ 32 ≤ n.
Proof.
  intros Hn f. unfold f, Second in *. clear f.
  assert (0 ≤ n * 2 ^ 32 / 1000000000 < 2 ^ 32).
  { split; [apply Z.div_pos; lia | apply Z.div_lt_upper_bound; lia]. }
  pose proof (Z.div_mod (n * 2 ^ 32) 1000000000 ltac:(lia)) as E.
  pose proof (Z.mod_pos_bound (n * 2 ^ 32) 1000000000 ltac:(lia)).
  split; [lia|]. split.
  - apply Z.div_le_lower_bound; lia.
  - apply Z.lt_succ_r, Z.div_lt_upper_bound; lia.
Qed.

Lemma NTPTime_fields s f :
  0 ≤ s < 2 ^ 32 → 0 ≤ f < 2 ^ 32 →
  NTPTime (s * 2 ^ 32 + f) =
    mkTime ((if s <? 2 ^ 31 then s + 2 ^ 32 else s) - ntpUnixOffset) (f * Second / 2 ^ 32).
Proof.
  intros Hs Hf. unfold NTPTime.
  rewrite !Z.shiftr_div_pow2 by lia. rewrite Z.div_add_l, (Z.div_small f), Z.add_0_r by lia.
  rewrite i64_small by lia. rewrite (land_ones_mod 32) by (done || lia).
  replace ((s * 2 ^ 32 + f) mod 2 ^ 32) with f
    by (rewrite Z.add_comm, Z.mod_add, Z.mod_small; lia).
  rewrite u64_small; [done|]. unfold is_u64, Second. lia.
Qed.

(** [NTPFromTime] never encodes a real wall-clock time as the all-zero
    timestamp RFC 3550 reserves for "no wall clock", and [NTPTime] recovers it: for
    every time between 1968 and 2104 the seconds come back exactly, across the
    2036 era rollover, and the nanoseconds come back at most one too small. *)
Theorem NTPTime_NTPFromTime t :
  2 ^ 31 ≤ Unix t + ntpUnixOffset < 2 ^ 31 + 2 ^ 32 → 0 ≤ Nanosecond t < Second →
  NTPFromTime t ≠ 0 ∧ is_u64 (NTPFromTime t) ∧
  Unix (NTPTime (NTPFromTime t)) = Unix t ∧
  Nanosecond t - 1 ≤ Nanosecond (NTPTime (NTPFromTime t)) ≤ Nanosecond t.
Proof.
  intros Hu Hn. destruct t as [u n]. cbn [Unix Nanosecond] in *.
  destruct (ntp_frac_back n Hn) as [Hf Hb]. set (f := n * 2 ^ 32 / Second) in *.
  set (s := (u + ntpUnixOffset) mod 2 ^ 32).
  assert (0 ≤ s < 2 ^ 32) as Hs by (apply Z.mod_pos_bound; lia).
  assert (s = if u + ntpUnixOffset <? 2 ^ 32 then u + ntpUnixOffset
              else u + ntpUnixOffset - 2 ^ 32) as Hs'.
  { unfold s. destruct (Z.ltb_spec (u + ntpUnixOffset) (2 ^ 32)); [by apply Z.mod_small; lia|].
    rewrite <- (Z.mod_small (u + ntpUnixOffset - 2 ^ 32) (2 ^ 32)) by lia.
    by rewrite <- (Z.mod_add (u + ntpUnixOffset) (-1) (2 ^ 32)) by lia. }
  assert (NTPFromTime (mkTime u n) = if negb (s * 2 ^ 32 + f =? 0) then s * 2 ^ 32 + f else 1) as ->.
  { unfold NTPFromTime. destruct (decide _) as [[= -> _]|_]; [unfold ntpUnixOffset in Hu; lia|].
    cbn [Unix Nanosecond]. rewrite ntp_frac_small by done. fold f.
    rewrite (land_ones_mod 32) by (done || lia). rewrite (u64_small (u + ntpUnixOffset)) by (unfold is_u64; lia). fold s.
    rewrite u64_small by (unfold is_u64; rewrite Z.shiftl_mul_pow2 by lia; lia).
    by rewrite lor_shiftl_add by lia. }
  destruct (Z.eqb_spec (s * 2 ^ 32 + f) 0) as [Hz|Hnz]; cbn [negb].
  - assert (s = 0 ∧ f = 0) as [Hs0 Hf0] by lia.
    assert (NTPTime 1 = mkTime (2 ^ 32 - ntpUnixOffset) 0) as -> by done. cbn [Unix Nanosecond].
    rewrite Hf0 in Hb. change (0 * Second / 2 ^ 32) with 0 in Hb.
    rewrite Hs0 in Hs'. unfold is_u64. zcase_in Hs'; zcase; lia.
  - rewrite NTPTime_fields by lia. cbn [Unix Nanosecond]. unfold is_u64.
    rewrite Hs'. zcase.
Qed.

Lemma NTPTime_NTPFromTime_witness :
  let t := mkTime (2 ^ 32 - ntpUnixOffset) 123456789 in
  (2 ^ 31 ≤ Unix t + ntpUnixOffset < 2 ^ 31 + 2 ^ 32) ∧ Unix (NTPTime (NTPFromTime t)) = Unix t.
Proof.
  split; [by vm_compute|].
  apply (NTPTime_NTPFromTime (mkTime (2 ^ 32 - ntpUnixOffset) 123456789)); by vm_compute.
Defined.

End rtcp.
