(* ===== verification/Stream.v ===== *)
(** * Reception state: [rtsp/rtp/stream.go]

    [Stream.Observe] folds one parsed header into the per-track state: sequence
    continuity over the 16-bit circle, loss counting, 64-bit timestamp unwrapping
    and SSRC re-baselining.  It is verified against an observer on unbounded
    integers ([ref_step]) and by an accounting identity between the statistics it
    publishes. *)
From S2P Require Import Prelude Bytes RtpPacket.

Module stream.
Import rtp.

Record Stream := mkStream {
  init : bool;
  ssrc : Z;
  lastSeq : Z;
  cycles : Z;
  lastTS : Z;
  ts64 : Z;
  received : Z;
  seqGaps : Z;
  duplicates : Z;
  ssrcResets : Z
}.

Record Update := mkUpdate {
  Gap : Z;
  Timestamp : Z;
  SSRCReset : bool;
  Duplicate : bool
}.

(** The zero value, ready to use. *)
Definition zero : Stream := mkStream false 0 0 0 0 0 0 0 0 0.

Definition extendTS (s : Stream) (ts : Z) : Z :=
  let d := u32 (ts - lastTS s) in
  if d <? 0x80000000 then u64 (ts64 s + d)
  else
    let back := u32 (- d) in
    if ts64 s <? back then 0 else ts64 s - back.

Definition Observe (s : Stream) (h : Header) : Stream * Update :=
  let received' := u64 (received s + 1) in
  if negb (init s) then
    (mkStream true (SSRC h) (SequenceNumber h) (cycles s) (rtp.Timestamp h) (rtp.Timestamp h)
       received' (seqGaps s) (duplicates s) (ssrcResets s),
     mkUpdate 0 (rtp.Timestamp h) false false)
  else if negb (SSRC h =? ssrc s) then
    (mkStream true (SSRC h) (SequenceNumber h) 0 (rtp.Timestamp h) (rtp.Timestamp h)
       received' (seqGaps s) (duplicates s) (u64 (ssrcResets s + 1)),
     mkUpdate 0 (rtp.Timestamp h) true false)
  else
    let d := u16 (SequenceNumber h - lastSeq s) in
    let '(gap, dup, cycles', lastSeq') :=
      if d =? 0 then (0, true, cycles s, lastSeq s)
      else if d <? 0x8000 then
        (d - 1, false,
         if SequenceNumber h <? lastSeq s then u16 (cycles s + 1) else cycles s,
         SequenceNumber h)
      else (0, true, cycles s, lastSeq s) in
    let ts := extendTS s (rtp.Timestamp h) in
    (mkStream true (ssrc s) lastSeq' cycles'
       (if dup : bool then lastTS s else rtp.Timestamp h) (if dup then ts64 s else ts)
       received' (u64 (seqGaps s + gap))
       (if dup then u64 (duplicates s + 1) else duplicates s) (ssrcResets s),
     mkUpdate gap ts false dup).

Record StreamStats := mkStats {
  Received : Z;
  SeqGaps : Z;
  Duplicates : Z;
  SSRCResets : Z;
  ExtendedHighestSeq : Z
}.

Definition Stats (s : Stream) : StreamStats :=
  mkStats (received s) (seqGaps s) (duplicates s) (ssrcResets s)
    (Z.lor (u32 (Z.shiftl (cycles s) 16)) (lastSeq s)).

(** A run of the receive loop: every header of a list, in order. *)
Fixpoint observe_all (s : Stream) (hs : list Header) : Stream * list Update :=
  match hs with
  | [] => (s, [])
  | h :: hs =>
      let '(s, u) := Observe s h in
      let '(s, us) := observe_all s hs in (s, u :: us)
  end.

(** ** The state invariant *)
Record header_wire (h : Header) : Prop := {
  hw_seq : is_u16 (SequenceNumber h);
  hw_ts : is_u32 (rtp.Timestamp h);
  hw_ssrc : is_u32 (SSRC h)
}.

Record ok (s : Stream) : Prop := {
  ok_seq : is_u16 (lastSeq s);
  ok_cycles : is_u16 (cycles s);
  ok_ts : is_u32 (lastTS s);
  ok_ts64 : is_u64 (ts64 s)
}.

Lemma ok_zero : ok zero.
Proof. split; by vm_compute. Qed.

Lemma extendTS_range s ts : ok s → is_u64 (extendTS s ts).
Proof.
  intros [_ _ _ H]. unfold extendTS. destruct (_ <? _); [apply u64_range|].
  pose proof (u32_range (- u32 (ts - lastTS s))) as Hb.
  unfold is_u64, is_u32 in *. destruct (Z.ltb_spec (ts64 s) (u32 (- u32 (ts - lastTS s)))); lia.
Qed.

Lemma Observe_ok s h : header_wire h → ok s → ok (Observe s h).1.
Proof.
  intros [H1 H2 H3] Hok. pose proof Hok as [K1 K2 K3 K4].
  pose proof (extendTS_range s (rtp.Timestamp h) Hok) as Hx.
  assert (is_u64 (rtp.Timestamp h)) by (autounfold with stream in *; lia).
  unfold Observe. destruct (init s); cbn [negb]; [|by split].
  destruct (SSRC h =? ssrc s); cbn [negb]; [|split; cbn; try done; unfold is_u16; lia].
  destruct (u16 (SequenceNumber h - lastSeq s) =? 0); [by split|].
  destruct (u16 (SequenceNumber h - lastSeq s) <? 0x8000); [|by split].
  split; cbn; try done. destruct (_ <? _); [apply u16_range|done].
Qed.

(** ** The observer on unbounded integers *)

(** The reference state: the highest extended sequence number accepted so far and
    its timestamp, neither of which ever wraps. *)
Record Ref := mkRef { rSeq : Z; rTS : Z }.

Definition ref_step (r : Ref) (e t : Z) : Ref * Update :=
  if e <=? rSeq r then (r, mkUpdate 0 t false true)
  else (mkRef e t, mkUpdate (e - rSeq r - 1) t false false).

(** A header carries the low bits of the sender's true counters. *)
Definition carries (h : Header) (e t : Z) : Prop :=
  SequenceNumber h = e mod 2 ^ 16 ∧ rtp.Timestamp h = t mod 2 ^ 32.

(** The true counters stay within half a turn of the last accepted packet. *)
Definition near (r : Ref) (e t : Z) : Prop :=
  - 2 ^ 15 ≤ e - rSeq r < 2 ^ 15 ∧ - 2 ^ 31 ≤ t - rTS r < 2 ^ 31 ∧ 0 ≤ t < 2 ^ 64.

Record refines (id : Z) (s : Stream) (r : Ref) : Prop := {
  rf_init : init s = true;
  rf_ssrc : ssrc s = id;
  rf_seq : lastSeq s = rSeq r mod 2 ^ 16;
  rf_ext : cycles s = rSeq r / 2 ^ 16 mod 2 ^ 16;
  rf_ts : lastTS s = rTS r mod 2 ^ 32;
  rf_ts64 : ts64 s = rTS r
}.

Lemma extendTS_true s r id t :
  refines id s r → 0 ≤ rTS r < 2 ^ 64 →
  - 2 ^ 31 ≤ t - rTS r < 2 ^ 31 → 0 ≤ t < 2 ^ 64 → extendTS s (t mod 2 ^ 32) = t.
Proof.
  intros [_ _ _ _ Hl Ht] Hr Hn Hb. unfold extendTS. rewrite Hl, Ht. unfold u32.
  rewrite <- Zminus_mod.
  rewrite (mod_near (t - rTS r)) by lia. destruct (Z.ltb_spec (t - rTS r) 0).
  - replace (- (t - rTS r + 2 ^ 32)) with (rTS r - t + (-1) * 2 ^ 32) by lia.
    rewrite Z.mod_add, (Z.mod_small (rTS r - t)) by lia. zcase.
  - zcase. rewrite u64_small; [lia|]. unfold is_u64. lia.
Qed.

Lemma seq_delta r e d :
  - 2 ^ 15 ≤ e - rSeq r < 2 ^ 15 → d = u16 (e mod 2 ^ 16 - rSeq r mod 2 ^ 16) →
  (d = 0 ↔ e = rSeq r) ∧ (0 < d < 0x8000 ↔ rSeq r < e) ∧ (rSeq r < e → d = e - rSeq r).
Proof.
  intros Hn ->. unfold u16. rewrite <- Zminus_mod.
  rewrite (mod_near (e - rSeq r)) by lia. zcase.
Qed.

(** The cycle counter moves exactly when the true counter crosses a multiple of 2^16. *)
Lemma cycle_step a e :
  a < e → e - a < 2 ^ 15 →
  e / 2 ^ 16 mod 2 ^ 16 =
  if e mod 2 ^ 16 <? a mod 2 ^ 16 then u16 (a / 2 ^ 16 mod 2 ^ 16 + 1) else a / 2 ^ 16 mod 2 ^ 16.
Proof.
  intros H1 H2. unfold u16. rewrite Zplus_mod_idemp_l.
  pose proof (Z.div_mod a (2 ^ 16) ltac:(lia)). pose proof (Z.div_mod e (2 ^ 16) ltac:(lia)).
  pose proof (Z.mod_pos_bound a (2 ^ 16) ltac:(lia)). pose proof (Z.mod_pos_bound e (2 ^ 16) ltac:(lia)).
  zcase.
  - replace (e / 2 ^ 16) with (a / 2 ^ 16 + 1) by lia. done.
  - by replace (e / 2 ^ 16) with (a / 2 ^ 16) by lia.
Qed.

Lemma Observe_refines id s r h e t :
  refines id s r → 0 ≤ rTS r < 2 ^ 64 → SSRC h = id → carries h e t → near r e t →
  let '(s', u) := Observe s h in
  let '(r', u') := ref_step r e t in
  u = u' ∧ refines id s' r' ∧ 0 ≤ rTS r' < 2 ^ 64.
Proof.
  intros Hrf Hr Hid [Hs Ht] (Hn1 & Hn2 & Hn3). pose proof Hrf as [F1 F2 F3 F4 F5 F6].
  unfold Observe. rewrite F1, F2, Hid, Z.eqb_refl, Hs, Ht, F3. cbn [negb].
  rewrite (extendTS_true s r id) by done.
  destruct (seq_delta r e _ Hn1 eq_refl) as (D0 & D1 & D2).
  set (d := u16 (e mod 2 ^ 16 - rSeq r mod 2 ^ 16)) in *.
  assert (is_u16 d) as Hd by apply u16_range. unfold is_u16 in Hd.
  unfold ref_step. destruct (Z.eqb_spec d 0); [|destruct (Z.ltb_spec d 0x8000)].
  - destruct (Z.leb_spec e (rSeq r)); [|lia]. split_and!; [done|by split|lia|lia].
  - destruct (Z.leb_spec e (rSeq r)); [lia|].
    rewrite D2 by lia. split_and!; [done| |cbn; lia|cbn; lia].
    split; cbn; try done. rewrite F4. symmetry. apply cycle_step; lia.
  - destruct (Z.leb_spec e (rSeq r)); [|lia]. split_and!; [done|by split|lia|lia].
Qed.

(** A trace with its true counters, each near the last accepted packet. *)
Fixpoint ref_all (r : Ref) (trace : list (Z * Z)) : Ref * list Update :=
  match trace with
  | [] => (r, [])
  | (e, t) :: trace =>
      let '(r, u) := ref_step r e t in
      let '(r, us) := ref_all r trace in (r, u :: us)
  end.

Fixpoint near_all (r : Ref) (trace : list (Z * Z)) : Prop :=
  match trace with
  | [] => True
  | (e, t) :: trace => near r e t ∧ near_all (ref_step r e t).1 trace
  end.

Lemma observe_all_refines id s r hs trace :
  refines id s r → 0 ≤ rTS r < 2 ^ 64 →
  Forall2 (λ h et, SSRC h = id ∧ carries h et.1 et.2) hs trace → near_all r trace →
  (observe_all s hs).2 = (ref_all r trace).2 ∧
  refines id (observe_all s hs).1 (ref_all r trace).1.
Proof.
  intros Hrf Hr HF. revert s r Hrf Hr.
  induction HF as [|h [e t] hs trace [Hid Hc] HF IH]; intros s r Hrf Hr Hn; [done|].
  cbn [near_all observe_all ref_all] in *. destruct Hn as [Hn Hns].
  pose proof (Observe_refines id s r h e t Hrf Hr Hid Hc Hn) as Hstep.
  destruct (Observe s h) as [s' u], (ref_step r e t) as [r' u']. cbn [fst] in Hns.
  destruct Hstep as (-> & Hrf' & Hr'). specialize (IH s' r' Hrf' Hr' Hns).
  destruct (observe_all s' hs), (ref_all r' trace). cbn in *. destruct IH as [-> ?]. done.
Qed.

Lemma ExtendedHighestSeq_sum s : ok s → ExtendedHighestSeq (Stats s) = cycles s * 2 ^ 16 + lastSeq s.
Proof.
  intros [H1 H2 _ _]. autounfold with stream in *. cbn.
  rewrite u32_small; [by apply lor_shiftl_add|].
  unfold is_u32. rewrite Z.shiftl_mul_pow2; lia.
Qed.

(** ** Accounting

    What the counters owe each other: modulo 2^32, the extended highest sequence
    number less the accepted packets and the counted losses does not move. *)
Definition slack (s : Stream) : Z :=
  (cycles s * 2 ^ 16 + lastSeq s - received s + duplicates s - seqGaps s) mod 2 ^ 32.

Lemma u64_quot z : ∃ q, u64 z = z + q * 2 ^ 64.
Proof. exists (- (z / 2 ^ 64)). unfold u64. pose proof (Z.div_mod z (2 ^ 64)). lia. Qed.
Lemma u16_quot z : ∃ q, u16 z = z + q * 2 ^ 16.
Proof. exists (- (z / 2 ^ 16)). unfold u16. pose proof (Z.div_mod z (2 ^ 16)). lia. Qed.

Lemma mod_shift a b k m : a = b + k * m → m ≠ 0 → a mod m = b mod m.
Proof. intros -> ?. by apply Z.mod_add. Qed.

Lemma forward_delta l q d :
  is_u16 l → is_u16 q → d = u16 (q - l) → 0 < d →
  q = l + d - (if q <? l then 2 ^ 16 else 0).
Proof.
  unfold is_u16, u16. intros Hl Hq -> _. rewrite mod_near by lia. zcase.
Qed.

Lemma Observe_slack s h :
  ok s → header_wire h → init s = true → SSRC h = ssrc s →
  slack (Observe s h).1 = slack s ∧ init (Observe s h).1 = true ∧ ssrc (Observe s h).1 = ssrc s.
Proof.
  intros [K1 K2 _ _] [W1 _ _] Hi Hs. unfold Observe. rewrite Hi, Hs, Z.eqb_refl. cbn [negb].
  destruct (u64_quot (received s + 1)) as [qr Er].
  destruct (u64_quot (duplicates s + 1)) as [qd Ed].
  destruct (u64_quot (seqGaps s + 0)) as [q0 E0].
  set (d := u16 (SequenceNumber h - lastSeq s)).
  destruct (u64_quot (seqGaps s + (d - 1))) as [qg Eg].
  destruct (u16_quot (cycles s + 1)) as [qc Ec].
  destruct (Z.eqb_spec d 0) as [|Hd]; [|destruct (Z.ltb_spec d 0x8000)];
    cbn [fst init ssrc]; (split; [|done]); unfold slack; cbn [cycles lastSeq received duplicates seqGaps].
  1,3: rewrite Er, Ed, E0; apply (mod_shift _ _ (2 ^ 32 * (qd - qr - q0))); lia.
  assert (0 < d) by (pose proof (u16_range (SequenceNumber h - lastSeq s)) as Hr; unfold is_u16 in Hr;
    fold d in Hr; lia).
  pose proof (forward_delta _ _ d K1 W1 eq_refl ltac:(lia)) as Hq.
  rewrite Er, Eg. destruct (SequenceNumber h <? lastSeq s).
  - rewrite Ec. apply (mod_shift _ _ (qc - 2 ^ 32 * (qr + qg))); lia.
  - apply (mod_shift _ _ (- 2 ^ 32 * (qr + qg))); lia.
Qed.

Lemma observe_all_slack s hs :
  ok s → Forall header_wire hs → init s = true → Forall (λ h, SSRC h = ssrc s) hs →
  slack (observe_all s hs).1 = slack s ∧ ok (observe_all s hs).1.
Proof.
  intros Hok Hw. revert s Hok. induction Hw as [|h hs Hh Hw IH]; intros s Hok Hi Hs; [done|].
  apply Forall_cons_iff in Hs as [Hs1 Hs2].
  destruct (Observe_slack s h Hok Hh Hi Hs1) as (E & Hi' & Hid).
  pose proof (Observe_ok s h Hh Hok) as Hok'. cbn [observe_all].
  destruct (Observe s h) as [s' u]. cbn [fst] in *.
  assert (Forall (λ h, SSRC h = ssrc s') hs) as Hs' by (by rewrite Hid).
  specialize (IH s' Hok' Hi' Hs'). destruct (observe_all s' hs). cbn [fst] in *.
  rewrite <- E. done.
Qed.

Lemma Observe_first h :
  Observe zero h =
  (mkStream true (SSRC h) (SequenceNumber h) 0 (rtp.Timestamp h) (rtp.Timestamp h) 1 0 0 0,
   mkUpdate 0 (rtp.Timestamp h) false false).
Proof. done. Qed.

Lemma observe_all_cons s h hs :
  observe_all s (h :: hs) =
  let '(s, u) := Observe s h in let '(s, us) := observe_all s hs in (s, u :: us).
Proof. done. Qed.

(** ** Properties *)

(** C2: [Observe] implements an observer on unbounded integers.  For every stream
    of one SSRC whose true sequence numbers and timestamps stay within half a turn
    of the last accepted packet, every [Update] it reports is the one computed from
    the true counters: the gap is the exact number of packets missing, a packet
    that does not advance is a duplicate, and the 64-bit timestamp is the sender's
    true timestamp across any number of 32-bit wraps.  The published extended
    highest sequence number is the true one modulo 2^32. *)
Theorem Observe_refines_reference h0 hs trace :
  header_wire h0 →
  Forall2 (λ h et, SSRC h = SSRC h0 ∧ carries h et.1 et.2) hs trace →
  near_all (mkRef (SequenceNumber h0) (rtp.Timestamp h0)) trace →
  let '(s, us) := observe_all zero (h0 :: hs) in
  let '(r, us') := ref_all (mkRef (SequenceNumber h0) (rtp.Timestamp h0)) trace in
  us = mkUpdate 0 (rtp.Timestamp h0) false false :: us' ∧
  ExtendedHighestSeq (Stats s) = rSeq r mod 2 ^ 32.
Proof.
  intros [W1 W2 W3] HF Hn. rewrite observe_all_cons, Observe_first.
  set (s0 := mkStream _ _ _ _ _ _ _ _ _ _). set (r0 := mkRef _ _) in *.
  assert (refines (SSRC h0) s0 r0) as Hrf.
  { unfold is_u16, is_u32 in *. split; cbn; try done.
    - by rewrite Z.mod_small.
    - by rewrite Z.div_small.
    - by rewrite Z.mod_small. }
  destruct (observe_all_refines _ s0 r0 hs trace Hrf) as [Hus [_ _ F3 F4 _ _]]; [|done|done|].
  { unfold is_u32 in W2. cbn. lia. }
  destruct (observe_all s0 hs) as [s us], (ref_all r0 trace) as [r us']. cbn in *. subst us'.
  split; [done|].
  rewrite F3, F4. pose proof (Z.mod_pos_bound (rSeq r) (2 ^ 16) ltac:(lia)).
  pose proof (Z.mod_pos_bound (rSeq r / 2 ^ 16) (2 ^ 16) ltac:(lia)).
  rewrite u32_small by (unfold is_u32; rewrite Z.shiftl_mul_pow2 by lia; lia).
  rewrite lor_shiftl_add by lia. change (2 ^ 32) with (2 ^ 16 * 2 ^ 16).
  rewrite Z.rem_mul_r by lia. lia.
Qed.

Lemma Observe_refines_reference_witness :
  let h n t := mkHeader 2 false false false 96 n t 7 [] in
  let '(s, us) := observe_all zero [h 65534 4294967295; h 1 100; h 0 50; h 2 200] in
  us = [mkUpdate 0 4294967295 false false; mkUpdate 2 (2 ^ 32 + 100) false false;
        mkUpdate 0 (2 ^ 32 + 50) false true; mkUpdate 0 (2 ^ 32 + 200) false false] ∧
  ExtendedHighestSeq (Stats s) = 65538.
Proof.
  apply (Observe_refines_reference (mkHeader 2 false false false 96 65534 4294967295 7 [])
    [mkHeader 2 false false false 96 1 100 7 []; mkHeader 2 false false false 96 0 50 7 [];
     mkHeader 2 false false false 96 2 200 7 []]
    [(65537, 2 ^ 32 + 100); (65536, 2 ^ 32 + 50); (65538, 2 ^ 32 + 200)]).
  - split; by vm_compute.
  - repeat constructor.
  - cbn. unfold near. cbn. lia.
Defined.

(** The published statistics balance on every input: over any run of headers of
    one SSRC, whatever their sequence numbers, the extended highest sequence number
    is, modulo 2^32, the first sequence number plus the packets accepted after it
    (received, less the first, less duplicates) plus the packets counted lost. *)
Theorem Stats_balance h0 hs :
  Forall header_wire (h0 :: hs) → Forall (λ h, SSRC h = SSRC h0) hs →
  let st := Stats (observe_all zero (h0 :: hs)).1 in
  ExtendedHighestSeq st =
    (SequenceNumber h0 + (Received st - 1 - Duplicates st) + SeqGaps st) mod 2 ^ 32.
Proof.
  intros [Hw0 Hw]%Forall_cons_iff Hs. rewrite observe_all_cons, Observe_first. cbv zeta.
  set (s0 := mkStream _ _ _ _ _ _ _ _ _ _). pose proof Hw0 as [W1 W2 W3].
  assert (ok s0) as Hok.
  { unfold is_u16, is_u32 in *. split; cbn; unfold is_u16, is_u32, is_u64; lia. }
  destruct (observe_all_slack s0 hs Hok Hw eq_refl Hs) as [Hsl Hok'].
  destruct (observe_all s0 hs) as [s us]. cbn [fst] in *.
  rewrite (ExtendedHighestSeq_sum s Hok'). cbn [Stats Received Duplicates SeqGaps].
  unfold slack in Hsl. cbn [cycles lastSeq received duplicates seqGaps s0] in Hsl.
  destruct Hok' as [H1 H2 _ _]. unfold is_u16 in *.
  rewrite <- (Z.mod_small (cycles s * 2 ^ 16 + lastSeq s) (2 ^ 32)) by lia.
  set (x := cycles s * 2 ^ 16 + lastSeq s) in *.
  replace x with ((x - received s + duplicates s - seqGaps s) + (received s - duplicates s + seqGaps s)) by lia.
  rewrite <- Zplus_mod_idemp_l, Hsl, Zplus_mod_idemp_l. f_equal. lia.
Qed.

Lemma Stats_balance_witness :
  let h n := mkHeader 2 false false false 96 n 0 7 [] in
  ExtendedHighestSeq (Stats (observe_all zero [h 65530; h 40000; h 40000; h 4]).1) =
    (65530 + (4 - 1 - 2) + 9) mod 2 ^ 32.
Proof.
  apply (Stats_balance (mkHeader 2 false false false 96 65530 0 7 [])
    [mkHeader 2 false false false 96 40000 0 7 []; mkHeader 2 false false false 96 40000 0 7 [];
     mkHeader 2 false false false 96 4 0 7 []]);
    repeat constructor; by vm_compute.
Defined.

End stream.
