(* ===== verification/Reorder.v ===== *)
(** * Resequencing: [rtsp/rtp/reorder.go]

    The ring buffer that puts UDP RTP packets back in sequence order.  The ring of
    128 slots indexed by sequence number modulo 128, the 16-bit release point and
    the counters are modelled as the code keeps them; the reference ([Ref]) is an
    unbounded map from true sequence numbers to packets.  The two loops of [Push]
    carry fuel: the release point moves once per round, so [ahead(seq, nextSeq)]
    rounds bound the first and the 128 slots bound the second, and the refinement
    proof shows the fuel is never what stops them. *)
From S2P Require Import Prelude.
From Stdlib Require Import Sorted.
From stdpp Require Import gmap.
Local Open Scope Z_scope.

Module reorder.

Definition MaxReorderWindow : Z := 128.

Abbreviation payload := (list Z).

(** A slot: [Some (seq, payload)] when present, [None] for the zero slot. *)
Abbreviation slot := (option (Z * payload)).

Record Reorderer := mkReorderer {
  initialized : bool;
  nextSeq : Z;
  slots : list slot;
  buffered : Z;
  late : Z;
  forced : Z
}.

Record Released := mkReleased { Seq : Z; Payload : payload }.

Definition zero : Reorderer :=
  mkReorderer false 0 (replicate (Z.to_nat MaxReorderWindow) None) 0 0 0.

Definition ahead (a b : Z) : Z := i16 (u16 (a - b)).

Definition idx (seq : Z) : nat := Z.to_nat (seq mod MaxReorderWindow).

Definition slot_at (r : Reorderer) (seq : Z) : slot := mjoin (slots r !! idx seq).

(** The body shared by the two release loops: emit the slot at the release point
    when it is present, and advance the release point. *)
Definition release (r : Reorderer) : Reorderer * list Released :=
  match slot_at r (nextSeq r) with
  | Some (s, p) =>
      (mkReorderer (initialized r) (u16 (nextSeq r + 1)) (<[idx (nextSeq r) := None]> (slots r))
         (buffered r - 1) (late r) (forced r), [mkReleased s p])
  | None =>
      (mkReorderer (initialized r) (u16 (nextSeq r + 1)) (slots r)
         (buffered r) (late r) (u64 (forced r + 1)), [])
  end.

(** [for ahead(seq, r.nextSeq) >= MaxReorderWindow { ... }] *)
Fixpoint force_loop (fuel : nat) (seq : Z) (r : Reorderer) : Reorderer * list Released :=
  match fuel with
  | O => (r, [])
  | S fuel =>
      if MaxReorderWindow <=? ahead seq (nextSeq r) then
        let '(r, o1) := release r in
        let '(r, o2) := force_loop fuel seq r in (r, o1 ++ o2)
      else (r, [])
  end.

(** [for { if !present { break }; ... }] *)
Fixpoint run_loop (fuel : nat) (r : Reorderer) : Reorderer * list Released :=
  match fuel with
  | O => (r, [])
  | S fuel =>
      match slot_at r (nextSeq r) with
      | None => (r, [])
      | Some _ =>
          let '(r, o1) := release r in
          let '(r, o2) := run_loop fuel r in (r, o1 ++ o2)
      end
  end.

Definition add_late (r : Reorderer) : Reorderer :=
  mkReorderer (initialized r) (nextSeq r) (slots r) (buffered r) (u64 (late r + 1)) (forced r).

Definition store (r : Reorderer) (seq : Z) (p : payload) : Reorderer :=
  mkReorderer (initialized r) (nextSeq r) (<[idx seq := Some (seq, p)]> (slots r))
    (buffered r + 1) (late r) (forced r).

Definition Push (r : Reorderer) (seq : Z) (p : payload) : Reorderer * list Released :=
  let r := if initialized r then r
           else mkReorderer true seq (slots r) (buffered r) (late r) (forced r) in
  let d := ahead seq (nextSeq r) in
  if d <? 0 then (add_late r, [])
  else
    let '(r, out) := if MaxReorderWindow <=? d then force_loop (Z.to_nat d) seq r else (r, []) in
    match slot_at r seq with
    | Some _ => (add_late r, out)
    | None =>
        let '(r, run) := run_loop (Z.to_nat MaxReorderWindow) (store r seq p) in
        (r, out ++ run)
    end.

(** The loop of [Flush]: [n] rounds left, at sequence number [seq]. *)
Fixpoint flush_loop (n : nat) (seq : Z) (r : Reorderer) : Reorderer * list Released :=
  match n with
  | O => (r, [])
  | S n =>
      if 0 <? buffered r then
        match slot_at r seq with
        | Some (s, p) =>
            let r := mkReorderer (initialized r) (u16 (seq + 1)) (<[idx seq := None]> (slots r))
                       (buffered r - 1) (late r) (forced r) in
            let '(r, out) := flush_loop n (u16 (seq + 1)) r in (r, mkReleased s p :: out)
        | None => flush_loop n (u16 (seq + 1)) r
        end
      else (r, [])
  end.

Definition Flush (r : Reorderer) : Reorderer * list Released :=
  flush_loop (Z.to_nat MaxReorderWindow) (nextSeq r) r.

Definition Reset (r : Reorderer) : Reorderer := zero.

Record ReorderStats := mkStats { Late : Z; Forced : Z; Buffered : Z }.
Definition Stats (r : Reorderer) : ReorderStats := mkStats (late r) (forced r) (buffered r).

(** ** The reference resequencer

    [hist] maps the true sequence number of every accepted packet to its payload;
    [next] is the true release point.  Everything accepted below [next] has been
    released. *)
Record Ref := mkRef { next : Z; hist : gmap Z payload; rlate : Z; rforced : Z }.

(** The accepted packets of [n] consecutive sequence numbers, in order. *)
Fixpoint fetch (h : gmap Z payload) (k : Z) (n : nat) : list (Z * payload) :=
  match n with
  | O => []
  | S n => (match h !! k with Some p => [(k, p)] | None => [] end) ++ fetch h (k + 1) n
  end.

(** How many consecutive sequence numbers from [k] are accepted, at most [n]. *)
Fixpoint run (h : gmap Z payload) (k : Z) (n : nat) : nat :=
  match n with
  | O => O
  | S n => match h !! k with Some _ => S (run h (k + 1) n) | None => O end
  end.

Definition ref_push (a : Ref) (e : Z) (p : payload) : Ref * list (Z * payload) :=
  if e <? next a then (mkRef (next a) (hist a) (u64 (rlate a + 1)) (rforced a), [])
  else
    match hist a !! e with
    | Some _ => (mkRef (next a) (hist a) (u64 (rlate a + 1)) (rforced a), [])
    | None =>
        let lo := Z.max (next a) (e - 127) in
        let miss := (lo - next a) - blen (fetch (hist a) (next a) (Z.to_nat (lo - next a))) in
        let h := <[e := p]> (hist a) in
        let next' := lo + Z.of_nat (run h lo 128) in
        (mkRef next' h (rlate a) (u64 (rforced a + miss)),
         fetch h (next a) (Z.to_nat (next' - next a)))
    end.

Definition wire (kp : Z * payload) : Released := mkReleased (kp.1 mod 2 ^ 16) kp.2.

(** The ring represents the reference: each slot of the window holds what the
    reference accepted under that number, nothing is accepted beyond the window,
    and the counters agree. *)
Record represents (r : Reorderer) (a : Ref) : Prop := {
  rp_init : initialized r = true;
  rp_next : nextSeq r = next a mod 2 ^ 16;
  rp_len : length (slots r) = Z.to_nat MaxReorderWindow;
  rp_slots : ∀ k, next a ≤ k < next a + 128 →
    slot_at r k = (λ p, (k mod 2 ^ 16, p)) <$> hist a !! k;
  rp_window : ∀ k, next a + 128 ≤ k → hist a !! k = None;
  rp_buffered : buffered r = blen (fetch (hist a) (next a) 128);
  rp_late : late r = rlate a;
  rp_forced : forced r = rforced a;
  rp_forced_range : is_u64 (rforced a)
}.

(** ** The index circle *)
Lemma idx_mod k : idx (k mod 2 ^ 16) = idx k.
Proof.
  unfold idx, MaxReorderWindow. f_equal. rewrite (Z.mod_eq k (2 ^ 16)) by lia.
  replace (k - 2 ^ 16 * (k / 2 ^ 16)) with (k + (- 512 * (k / 2 ^ 16)) * 128) by lia.
  by rewrite Z.mod_add.
Qed.

Lemma idx_lt k : (idx k < Z.to_nat MaxReorderWindow)%nat.
Proof. unfold idx, MaxReorderWindow. pose proof (Z.mod_pos_bound k 128). lia. Qed.

Lemma idx_inj j k : Z.abs (j - k) < 128 → idx j = idx k → j = k.
Proof.
  unfold idx, MaxReorderWindow. intros Hd H.
  pose proof (Z.mod_pos_bound j 128). pose proof (Z.mod_pos_bound k 128).
  apply Z2Nat.inj in H; [|lia|lia].
  pose proof (Z.div_mod j 128 ltac:(lia)). pose proof (Z.div_mod k 128 ltac:(lia)). lia.
Qed.

Lemma idx_turn k : idx (k + 128) = idx k.
Proof.
  unfold idx, MaxReorderWindow. f_equal.
  replace (k + 128) with (k + 1 * 128) by lia. by rewrite Z.mod_add.
Qed.

Lemma ahead_near e n : - 2 ^ 15 ≤ e - n < 2 ^ 15 → ahead (e mod 2 ^ 16) (n mod 2 ^ 16) = e - n.
Proof.
  intros H. unfold ahead, u16. rewrite <- Zminus_mod. unfold i16.
  rewrite Zplus_mod_idemp_l, Z.mod_small by lia. lia.
Qed.

Lemma u16_succ n : u16 (n mod 2 ^ 16 + 1) = (n + 1) mod 2 ^ 16.
Proof. unfold u16. by rewrite Zplus_mod_idemp_l. Qed.

Lemma slot_at_mod r k : slot_at r (k mod 2 ^ 16) = slot_at r k.
Proof. unfold slot_at. by rewrite idx_mod. Qed.

(** ** Counting accepted packets *)
Lemma fetch_app h k n m : fetch h k (n + m) = fetch h k n ++ fetch h (k + Z.of_nat n) m.
Proof.
  revert k. induction n as [|n IH]; intros k; cbn [fetch Nat.add app].
  - by rewrite Z.add_0_r.
  - rewrite IH, app_assoc. do 2 f_equal. lia.
Qed.

Lemma fetch_ext h h' k n :
  (∀ j, k ≤ j < k + Z.of_nat n → h !! j = h' !! j) → fetch h k n = fetch h' k n.
Proof.
  revert k. induction n as [|n IH]; intros k H; [done|]. cbn [fetch].
  rewrite (H k) by lia. f_equal. apply IH. intros j Hj. apply H. lia.
Qed.

Lemma fetch_none h k n :
  (∀ j, k ≤ j < k + Z.of_nat n → h !! j = None) → fetch h k n = [].
Proof.
  revert k. induction n as [|n IH]; intros k H; [done|]. cbn [fetch].
  rewrite (H k) by lia. apply IH. intros j Hj. apply H. lia.
Qed.

Lemma fetch_insert_len h e p k n :
  h !! e = None → k ≤ e < k + Z.of_nat n →
  blen (fetch (<[e := p]> h) k n) = blen (fetch h k n) + 1.
Proof.
  intros He Hr.
  replace n with (Z.to_nat (e - k) + (1 + (n - Z.to_nat (e - k) - 1)))%nat by lia.
  rewrite !fetch_app, !blen_app.
  rewrite (fetch_ext (<[e := p]> h) h k) by (intros; apply lookup_insert_ne; lia).
  rewrite (fetch_ext (<[e := p]> h) h (k + _ + _)) by (intros; apply lookup_insert_ne; lia).
  replace (k + Z.of_nat (Z.to_nat (e - k))) with e by lia. cbn [fetch].
  rewrite lookup_insert_eq, He. autorewrite with blen. lia.
Qed.

Lemma fetch_0 h k : fetch h k 0 = [].
Proof. done. Qed.

Lemma fetch_one h k :
  fetch h k 1 = match h !! k with Some p => [(k, p)] | None => [] end.
Proof. cbn [fetch]. apply app_nil_r. Qed.

(** Moving a full window by one: nothing is accepted past its end. *)
Lemma fetch_window h n :
  h !! (n + 128) = None → fetch h n 128 = fetch h n 1 ++ fetch h (n + 1) 128.
Proof.
  intros H. pose proof (fetch_app h n 1 127) as E1. pose proof (fetch_app h (n + 1) 127 1) as E2.
  cbn [Nat.add] in E1, E2. rewrite E1, E2, (fetch_one h (n + 1 + _)).
  replace (n + 1 + Z.of_nat 127) with (n + 128) by lia. rewrite H, app_nil_r. done.
Qed.
#[local] Opaque fetch.

(** ** One release *)
Definition advance (a : Ref) : Ref :=
  mkRef (next a + 1) (hist a) (rlate a)
    (match hist a !! next a with Some _ => rforced a | None => u64 (rforced a + 1) end).

Lemma mjoin_insert_eq (l : list slot) i x : (i < length l)%nat → mjoin (<[i := x]> l !! i) = x.
Proof. intros. by rewrite list_lookup_insert_eq. Qed.

Lemma release_represents r a :
  represents r a →
  represents (release r).1 (advance a) ∧ (release r).2 = wire <$> fetch (hist a) (next a) 1.
Proof.
  intros [H1 H2 H3 H4 H5 H6 H7 H8 H9].
  pose proof (H4 (next a) ltac:(lia)) as Hs. unfold release, advance.
  rewrite H2, slot_at_mod, Hs, u16_succ, idx_mod, fetch_one.
  assert (hist a !! (next a + 128) = None) as Hlast by (apply H5; lia).
  pose proof (idx_lt (next a)) as Hlt. rewrite fetch_window, blen_app, fetch_one in H6 by done.
  destruct (hist a !! next a) as [p|] eqn:Hn; cbn [fmap option_fmap option_map fst snd].
  - split; [|done]. autorewrite with blen in H6.
    split; cbn [initialized nextSeq slots buffered late forced next hist rlate rforced]; try done.
    + by rewrite length_insert.
    + intros k Hk. unfold slot_at. cbn [slots]. destruct (decide (k = next a + 128)) as [->|].
      * rewrite idx_turn, mjoin_insert_eq, Hlast by (rewrite H3; lia). done.
      * rewrite list_lookup_insert_ne by (intros E; apply idx_inj in E; lia). apply H4. lia.
    + intros k Hk. apply H5. lia.
    + lia.
  - split; [|done]. autorewrite with blen in H6.
    split; cbn [initialized nextSeq slots buffered late forced next hist rlate rforced]; try done.
    + intros k Hk. destruct (decide (k = next a + 128)) as [->|]; [|apply H4; lia].
      unfold slot_at in *. cbn [slots]. rewrite idx_turn, Hs. by rewrite Hlast.
    + intros k Hk. apply H5. lia.
    + by rewrite H8.
    + apply u64_range.
Qed.

Lemma initialized_release r : initialized (release r).1 = initialized r.
Proof. unfold release. by destruct (slot_at r (nextSeq r)) as [[]|]. Qed.

(** ** Releasing a whole range *)
Definition skip (a : Ref) (n : nat) : Ref :=
  mkRef (next a + Z.of_nat n) (hist a) (rlate a)
    (u64 (rforced a + (Z.of_nat n - blen (fetch (hist a) (next a) n)))).

Lemma skip_0 a : is_u64 (rforced a) → skip a 0 = a.
Proof.
  intros H. unfold skip. rewrite fetch_0.
  change (Z.of_nat 0 - blen (@nil (Z * payload))) with 0.
  rewrite !Z.add_0_r, u64_small by done. by destruct a.
Qed.

Lemma fetch_S h k n : fetch h k (S n) = fetch h k 1 ++ fetch h (k + 1) n.
Proof. apply (fetch_app h k 1 n). Qed.

Lemma skip_advance a n : is_u64 (rforced a) → skip (advance a) n = skip a (S n).
Proof.
  intros H. unfold skip, advance. cbn [next hist rlate rforced].
  rewrite fetch_S, fetch_one, blen_app. f_equal; [lia|].
  destruct (hist a !! next a); autorewrite with blen.
  - f_equal. lia.
  - unfold u64. rewrite Zplus_mod_idemp_l. f_equal. lia.
Qed.

Lemma force_loop_represents fuel r a e :
  represents r a → e - next a < 2 ^ 15 → - 2 ^ 15 ≤ e - next a → e - next a ≤ Z.of_nat fuel →
  let n := Z.to_nat (e - 127 - next a) in
  represents (force_loop fuel (e mod 2 ^ 16) r).1 (skip a n) ∧
  (force_loop fuel (e mod 2 ^ 16) r).2 = wire <$> fetch (hist a) (next a) n.
Proof.
  revert r a. induction fuel as [|fuel IH]; intros r a Hr H1 H2 Hf n; unfold n; clear n.
  - replace (Z.to_nat _) with 0%nat by lia. rewrite skip_0 by apply Hr.
    rewrite fetch_0. done.
  - cbn [force_loop]. rewrite (rp_next _ _ Hr), ahead_near by lia.
    unfold MaxReorderWindow. destruct (Z.leb_spec 128 (e - next a)).
    + destruct (release_represents r a Hr) as [Hr' Ho]. destruct (release r) as [r' o1].
      cbn [fst snd] in *.
      destruct (IH r' (advance a) Hr') as [Hr'' Ho'']; [cbn; lia|cbn; lia|cbn; lia|].
      destruct (force_loop fuel (e mod 2 ^ 16) r') as [r'' o2]. cbn [fst snd] in *.
      replace (Z.to_nat (e - 127 - next a)) with (S (Z.to_nat (e - 127 - next (advance a))))
        by (cbn; lia).
      rewrite <- skip_advance by apply Hr. split; [done|].
      by rewrite Ho, Ho'', (fetch_S _ _ (Z.to_nat _)), fmap_app.
    + replace (Z.to_nat _) with 0%nat by lia. rewrite skip_0 by apply Hr.
      rewrite fetch_0. done.
Qed.

Lemma run_le h k n : (run h k n ≤ n)%nat.
Proof. revert k. induction n as [|n IH]; intros k; cbn; [lia|]. destruct (h !! k); [|lia].
  specialize (IH (k + 1)). lia. Qed.

Lemma run_present h k n j : k ≤ j < k + Z.of_nat (run h k n) → is_Some (h !! j).
Proof.
  revert k. induction n as [|n IH]; intros k; cbn [run]; [lia|].
  destruct (h !! k) eqn:Hk; [|lia]. intros Hj.
  destruct (decide (j = k)) as [->|]; [by eexists|]. apply (IH (k + 1)). lia.
Qed.

(** The run stops at a number not accepted, when the window's end is not accepted. *)
Lemma run_stop h k n :
  h !! (k + Z.of_nat n) = None → h !! (k + Z.of_nat (run h k n)) = None.
Proof.
  revert k. induction n as [|n IH]; intros k Hn; cbn [run]; [done|].
  destruct (h !! k) eqn:Hk; [|by rewrite Z.add_0_r].
  replace (k + Z.of_nat (S (run h (k + 1) n))) with (k + 1 + Z.of_nat (run h (k + 1) n)) by lia.
  apply IH. rewrite <- Hn. f_equal. lia.
Qed.

Lemma advance_present a : is_Some (hist a !! next a) →
  advance a = mkRef (next a + 1) (hist a) (rlate a) (rforced a).
Proof. unfold advance. by intros [? ->]. Qed.

Lemma run_loop_represents n r a :
  represents r a →
  let m := run (hist a) (next a) n in
  represents (run_loop n r).1 (mkRef (next a + Z.of_nat m) (hist a) (rlate a) (rforced a)) ∧
  (run_loop n r).2 = wire <$> fetch (hist a) (next a) m.
Proof.
  revert r a. induction n as [|n IH]; intros r a Hr m; unfold m; clear m; cbn [run run_loop].
  - rewrite Z.add_0_r, fetch_0. by destruct a.
  - pose proof (rp_slots _ _ Hr (next a) ltac:(lia)) as Hs.
    rewrite (rp_next _ _ Hr), slot_at_mod, Hs.
    destruct (hist a !! next a) as [p|] eqn:Hn; cbn [fmap option_fmap option_map].
    + destruct (release_represents r a Hr) as [Hr' Ho].
      rewrite advance_present in Hr' by (by eexists). destruct (release r) as [r' o1].
      cbn [fst snd] in *. destruct (IH r' _ Hr') as [Hr'' Ho'']. cbn [next hist rlate rforced] in *.
      destruct (run_loop n r') as [r'' o2]. cbn [fst snd] in *. split.
      * replace (next a + Z.of_nat (S (run (hist a) (next a + 1) n)))
          with (next a + 1 + Z.of_nat (run (hist a) (next a + 1) n)) by lia. done.
      * by rewrite Ho, Ho'', (fetch_S _ _ (run _ _ _)), fmap_app.
    + rewrite Z.add_0_r, fetch_0. by destruct a.
Qed.

Lemma store_represents r a e p :
  represents r a → next a ≤ e < next a + 128 → hist a !! e = None →
  represents (store r (e mod 2 ^ 16) p) (mkRef (next a) (<[e := p]> (hist a)) (rlate a) (rforced a)).
Proof.
  intros [H1 H2 H3 H4 H5 H6 H7 H8 H9] Hr He.
  split; cbn [store initialized nextSeq slots buffered late forced next hist rlate rforced]; try done.
  - by rewrite length_insert.
  - intros k Hk. unfold slot_at. cbn [store slots]. rewrite idx_mod.
    destruct (decide (k = e)) as [->|].
    + rewrite mjoin_insert_eq by (rewrite H3; apply idx_lt). by rewrite lookup_insert_eq.
    + rewrite list_lookup_insert_ne by (intros E; apply idx_inj in E; lia).
      rewrite lookup_insert_ne by done. by apply H4.
  - intros k Hk. rewrite lookup_insert_ne by lia. apply H5. lia.
  - rewrite fetch_insert_len by (done || lia). lia.
Qed.

Lemma add_late_represents r a :
  represents r a →
  represents (add_late r) (mkRef (next a) (hist a) (u64 (rlate a + 1)) (rforced a)).
Proof. intros [H1 H2 H3 H4 H5 H6 H7 H8 H9]. split; cbn; try done. by rewrite H7. Qed.


(** ** [Push] refines [ref_push] *)
Lemma slot_present r a e :
  represents r a → next a ≤ e < next a + 128 →
  slot_at r (e mod 2 ^ 16) = (λ p, (e mod 2 ^ 16, p)) <$> hist a !! e.
Proof. intros Hr He. rewrite slot_at_mod. by apply (rp_slots _ _ Hr). Qed.

(** The state of [Push] after its first loop: the packet is inside the window. *)
Lemma forced_represents r a e :
  represents r a → 0 ≤ e - next a < 2 ^ 15 →
  let n := Z.to_nat (e - 127 - next a) in
  let st := if MaxReorderWindow <=? ahead (e mod 2 ^ 16) (next a mod 2 ^ 16)
            then force_loop (Z.to_nat (ahead (e mod 2 ^ 16) (next a mod 2 ^ 16))) (e mod 2 ^ 16) r
            else (r, []) in
  represents st.1 (skip a n) ∧ st.2 = wire <$> fetch (hist a) (next a) n.
Proof.
  intros Hr He. cbv zeta. rewrite ahead_near by lia. unfold MaxReorderWindow.
  destruct (Z.leb_spec 128 (e - next a)).
  - apply force_loop_represents; [done|lia..].
  - replace (Z.to_nat (e - 127 - next a)) with 0%nat by lia. rewrite skip_0 by apply Hr.
    by rewrite fetch_0.
Qed.

Lemma Push_represents r a e p :
  represents r a → - 2 ^ 15 ≤ e - next a < 2 ^ 15 →
  represents (Push r (e mod 2 ^ 16) p).1 (ref_push a e p).1 ∧
  (Push r (e mod 2 ^ 16) p).2 = wire <$> (ref_push a e p).2.
Proof.
  intros Hr He. unfold Push, ref_push. rewrite (rp_init _ _ Hr), (rp_next _ _ Hr).
  assert ((ahead (e mod 2 ^ 16) (next a mod 2 ^ 16) <? 0) = (e - next a <? 0)) as ->
    by (by rewrite ahead_near by lia).
  destruct (Z.ltb_spec (e - next a) 0), (Z.ltb_spec e (next a)); try lia.
  { split; [by apply add_late_represents|done]. }
  pose proof (forced_represents r a e Hr ltac:(lia)) as Hst. cbv zeta in Hst.
  destruct (if MaxReorderWindow <=? _ then _ else _) as [r1 out]. cbn [fst snd] in Hst.
  destruct Hst as [Hr1 ->]. set (n := Z.to_nat (e - 127 - next a)) in *.
  rewrite (slot_present r1 _ e Hr1) by (cbn; lia). cbn [skip hist].
  destruct (hist a !! e) as [q|] eqn:Heq; cbn [fmap option_fmap option_map].
  - assert (n = 0%nat) as Hn.
    { destruct (decide (e < next a + 128)); [lia|].
      rewrite (rp_window _ _ Hr) in Heq by lia. done. }
    rewrite Hn in *. rewrite skip_0 in Hr1 by apply Hr.
    rewrite fetch_0. split; [by apply add_late_represents|done].
  - apply (store_represents r1 _ e p) in Hr1; [|cbn; lia|done]. cbn [skip next hist rlate rforced] in Hr1.
    apply (run_loop_represents 128) in Hr1 as [Hr2 Ho2].
    change (Z.to_nat MaxReorderWindow) with 128%nat.
    destruct (run_loop 128 (store r1 (e mod 2 ^ 16) p)) as [r2 out2].
    cbn [fst snd next hist rlate rforced] in *.
    replace (Z.max (next a) (e - 127)) with (next a + Z.of_nat n) by lia.
    replace (next a + Z.of_nat n - next a) with (Z.of_nat n) by lia. rewrite Nat2Z.id.
    split; [exact Hr2|].
    set (m := run _ _ 128) in *.
    replace (Z.to_nat (next a + Z.of_nat n + Z.of_nat m - next a)) with (n + m)%nat by lia.
    rewrite fetch_app, fmap_app, Ho2. do 2 f_equal.
    apply fetch_ext. intros j Hj. symmetry. apply lookup_insert_ne. lia.
Qed.

(** ** [Flush] *)

(** Where nothing is accepted, the release point can move without a trace. *)
Lemma slide_represents r a s :
  represents r a → next a ≤ s ≤ next a + 128 → (∀ k, next a ≤ k < s → hist a !! k = None) →
  represents (mkReorderer (initialized r) (s mod 2 ^ 16) (slots r) (buffered r) (late r) (forced r))
    (mkRef s (hist a) (rlate a) (rforced a)).
Proof.
  intros [H1 H2 H3 H4 H5 H6 H7 H8 H9] Hs Hn.
  split; cbn [initialized nextSeq slots buffered late forced next hist rlate rforced]; try done.
  - intros k Hk. change (slot_at _ k) with (slot_at r k).
    destruct (decide (k < next a + 128)); [apply H4; lia|].
    replace k with (k - 128 + 128) at 1 by lia. unfold slot_at. rewrite idx_turn.
    change (mjoin _) with (slot_at r (k - 128)). rewrite H4, Hn, H5 by lia. done.
  - intros k Hk. apply H5. lia.
  - rewrite H6. change 128%nat with (Z.to_nat (128)).
    replace (Z.to_nat 128) with (Z.to_nat (s - next a) + Z.to_nat (128 - (s - next a)))%nat at 1 by lia.
    replace (Z.to_nat 128) with (Z.to_nat (128 - (s - next a)) + Z.to_nat (s - next a))%nat by lia.
    rewrite !fetch_app, (fetch_none _ (next a)) by (intros; apply Hn; lia).
    replace (next a + Z.of_nat _) with s by lia.
    rewrite (fetch_none _ (s + _)) by (intros; apply H5; lia). by rewrite app_nil_r.
Qed.

Lemma flush_loop_represents n r a s :
  represents r a → next a ≤ s → s + Z.of_nat n ≤ next a + 128 →
  (∀ k, next a ≤ k < s → hist a !! k = None) → (∀ k, s + Z.of_nat n ≤ k → hist a !! k = None) →
  ∃ s', next a ≤ s' ∧ (∀ k, s' ≤ k → hist a !! k = None) ∧
    represents (flush_loop n (s mod 2 ^ 16) r).1 (mkRef s' (hist a) (rlate a) (rforced a)) ∧
    (flush_loop n (s mod 2 ^ 16) r).2 = wire <$> fetch (hist a) s n.
Proof.
  revert r a s. induction n as [|n IH]; intros r a s Hr H1 H2 H3 H4; cbn [flush_loop].
  - exists (next a). rewrite fetch_0. split_and!; try lia; try done.
    + intros k Hk. destruct (decide (k < s)); [apply H3; lia|apply H4; lia].
    + by destruct a.
  - pose proof (rp_buffered _ _ Hr) as Hb.
    replace 128%nat with (Z.to_nat (s - next a) + (S n + Z.to_nat (next a + 128 - s - Z.of_nat (S n))))%nat in Hb by lia.
    rewrite !fetch_app in Hb. replace (next a + Z.of_nat (Z.to_nat (s - next a))) with s in Hb by lia.
    rewrite (fetch_none _ (next a)), (fetch_none _ (s + _)) in Hb by (intros; first [apply H3; lia | apply H4; lia]).
    rewrite app_nil_r in Hb. cbn [app] in Hb.
    destruct (Z.ltb_spec 0 (buffered r)).
    2: { exists (next a). pose proof (blen_nonneg (fetch (hist a) s (S n))).
         rewrite (blen_zero (fetch (hist a) s (S n))) by lia. split_and!; try lia; try done; [|by destruct a].
         intros k Hk. destruct (decide (k < s)); [apply H3; lia|].
         destruct (decide (s + Z.of_nat (S n) ≤ k)); [by apply H4|].
         destruct (hist a !! k) as [q|] eqn:Hq; [|done]. exfalso.
         replace (S n) with (Z.to_nat (k - s) + (1 + (n - Z.to_nat (k - s))))%nat in Hb by lia.
         rewrite !fetch_app in Hb. replace (s + Z.of_nat (Z.to_nat (k - s))) with k in Hb by lia.
         rewrite fetch_one, Hq, !blen_app, blen_cons in Hb. blen_pos. lia. }
    rewrite slot_at_mod, (rp_slots _ _ Hr), u16_succ by lia. rewrite fetch_S, fetch_one.
    pose proof (slide_represents r a s Hr ltac:(lia) H3) as Hsl.
    destruct (hist a !! s) as [p|] eqn:Hs; cbn [fmap option_fmap option_map].
    + pose proof (rp_slots _ _ Hsl s ltac:(cbn; lia)) as Hsl_s. cbn [hist] in Hsl_s. rewrite Hs in Hsl_s.
      apply release_represents in Hsl as [Hrel _].
      rewrite advance_present in Hrel by (by eexists). unfold release in Hrel.
      cbn [nextSeq next hist rlate rforced slots initialized buffered late forced] in Hrel.
      rewrite slot_at_mod, Hsl_s, u16_succ, idx_mod in Hrel. cbn [fmap option_fmap option_map fst] in Hrel.
      rewrite idx_mod.
      destruct (IH _ _ (s + 1) Hrel) as (s' & B1 & B2 & B3 & B4);
        cbn [next hist rlate rforced] in *; try lia.
      { intros k Hk. apply H4. lia. }
      destruct (flush_loop n _ _) as [r' out]. cbn [fst snd] in *.
      exists s'. split_and!; try lia; try done. by rewrite B4.
    + destruct (IH r a (s + 1) Hr) as (s' & B1 & B2 & B3 & B4); try lia.
      { intros k Hk. destruct (decide (k = s)) as [->|]; [done|]. apply H3. lia. }
      { intros k Hk. apply H4. lia. }
      exists s'. split_and!; try lia; try done.
Qed.

Lemma Flush_represents r a :
  represents r a →
  ∃ s', next a ≤ s' ∧ (∀ k, s' ≤ k → hist a !! k = None) ∧
    represents (Flush r).1 (mkRef s' (hist a) (rlate a) (rforced a)) ∧
    (Flush r).2 = wire <$> fetch (hist a) (next a) 128.
Proof.
  intros Hr. unfold Flush. rewrite (rp_next _ _ Hr).
  destruct (flush_loop_represents 128 r a (next a) Hr) as (s' & B1 & B2 & B3 & B4); try lia.
  - intros k Hk. apply (rp_window _ _ Hr). lia.
  - exists s'. split_and!; try done; lia.
Qed.


(** ** Traces *)
Fixpoint push_all (r : Reorderer) (l : list (Z * payload)) : Reorderer * list Released :=
  match l with
  | [] => (r, [])
  | (s, p) :: l =>
      let '(r, o1) := Push r s p in
      let '(r, o2) := push_all r l in (r, o1 ++ o2)
  end.

Fixpoint ref_push_all (a : Ref) (l : list (Z * payload)) : Ref * list (Z * payload) :=
  match l with
  | [] => (a, [])
  | (e, p) :: l =>
      let '(a, o1) := ref_push a e p in
      let '(a, o2) := ref_push_all a l in (a, o1 ++ o2)
  end.

(** Every true sequence number is within half a turn of the release point. *)
Fixpoint near_all (a : Ref) (l : list (Z * payload)) : Prop :=
  match l with
  | [] => True
  | (e, p) :: l => - 2 ^ 15 ≤ e - next a < 2 ^ 15 ∧ near_all (ref_push a e p).1 l
  end.

Definition wire_trace (l : list (Z * payload)) : list (Z * payload) :=
  (λ '(e, p), (e mod 2 ^ 16, p)) <$> l.

Definition ref_start (e : Z) : Ref := mkRef e ∅ 0 0.

Lemma push_all_represents l r a :
  represents r a → near_all a l →
  represents (push_all r (wire_trace l)).1 (ref_push_all a l).1 ∧
  (push_all r (wire_trace l)).2 = wire <$> (ref_push_all a l).2.
Proof.
  revert r a. induction l as [|[e p] l IH]; intros r a Hr Hn; [done|].
  cbn [near_all] in Hn. destruct Hn as [Hn Hns].
  destruct (Push_represents r a e p Hr Hn) as [Hr' Ho].
  unfold wire_trace. cbn [fmap list_fmap push_all ref_push_all]. fold (wire_trace l).
  destruct (Push r (e mod 2 ^ 16) p) as [r' o1], (ref_push a e p) as [a' o1']. cbn [fst snd] in *.
  destruct (IH r' a' Hr' Hns) as [Hr'' Ho'].
  change (list_fmap _ _ _ l) with (wire_trace l).
  destruct (push_all r' (wire_trace l)), (ref_push_all a' l). cbn [fst snd] in *.
  split; [done|]. by rewrite Ho, Ho', fmap_app.
Qed.

(** The first [Push] of a zero [Reorderer] starts the window at its number. *)
Definition start (e : Z) : Reorderer :=
  mkReorderer true e (replicate (Z.to_nat MaxReorderWindow) None) 0 0 0.

Lemma start_represents e : 0 ≤ e < 2 ^ 16 → represents (start e) (ref_start e).
Proof.
  intros He. split; cbn [start ref_start initialized nextSeq slots buffered late forced next hist rlate rforced]; try done.
  - by rewrite Z.mod_small.
  - intros k _. unfold slot_at. cbn [slots start]. rewrite lookup_replicate_2 by apply idx_lt. done.
Qed.

Lemma push_all_zero e p l :
  0 ≤ e < 2 ^ 16 → push_all zero (wire_trace ((e, p) :: l)) = push_all (start e) (wire_trace ((e, p) :: l)).
Proof.
  intros He. unfold wire_trace. cbn [fmap list_fmap push_all]. by rewrite Z.mod_small by done.
Qed.

(** ** What the reference releases *)
Lemma ref_push_cases a e p :
  let '(a', out) := ref_push a e p in
  next a ≤ next a' ∧ out = fetch (hist a') (next a) (Z.to_nat (next a' - next a)) ∧
  ((a' = mkRef (next a) (hist a) (u64 (rlate a + 1)) (rforced a)) ∨
   (next a ≤ e ∧ hist a !! e = None ∧ hist a' = <[e := p]> (hist a) ∧ rlate a' = rlate a ∧
    e - 127 ≤ next a')).
Proof.
  unfold ref_push. destruct (Z.ltb_spec e (next a)).
  - cbn. rewrite Z.sub_diag, fetch_0. split_and!; [lia|done|by left].
  - destruct (hist a !! e) eqn:He.
    + cbn. rewrite Z.sub_diag, fetch_0. split_and!; [lia|done|by left].
    + cbn [next hist rlate]. split_and!; [lia|done|]. right. split_and!; try done. lia.
Qed.

Definition accepted (e0 : Z) (a : Ref) : list (Z * payload) :=
  fetch (hist a) e0 (Z.to_nat (next a - e0 + 128)).

Record ref_inv (e0 : Z) (pushed : list (Z * payload)) (a : Ref) : Prop := {
  ri_next : e0 ≤ next a;
  ri_window : ∀ k, next a + 128 ≤ k → hist a !! k = None;
  ri_sub : ∀ k p, hist a !! k = Some p → (k, p) ∈ pushed;
  ri_late : rlate a = u64 (blen pushed - blen (accepted e0 a))
}.

Lemma fetch_extend h k n m :
  (n ≤ m)%nat → (∀ j, k + Z.of_nat n ≤ j → h !! j = None) → fetch h k m = fetch h k n.
Proof.
  intros Hm Hn. replace m with (n + (m - n))%nat by lia.
  rewrite fetch_app, (fetch_none _ (k + _)) by (intros; apply Hn; lia). apply app_nil_r.
Qed.

Lemma ref_push_inv e0 pushed a e p :
  ref_inv e0 pushed a → ref_inv e0 (pushed ++ [(e, p)]) (ref_push a e p).1.
Proof.
  intros [H1 H2 H3 H4]. pose proof (ref_push_cases a e p) as Hc.
  destruct (ref_push a e p) as [a' out]. cbn [fst].
  destruct Hc as (Hn & _ & [->|(He & Hnone & Hh & Hl & Hw)]).
  - split; cbn [next hist rlate]; try done.
    + intros k q Hq. apply elem_of_app. left. by apply H3.
    + rewrite H4. unfold u64, accepted. cbn [next hist]. autorewrite with blen.
      rewrite Zplus_mod_idemp_l. f_equal. lia.
  - split.
    + lia.
    + intros k Hk. rewrite Hh, lookup_insert_ne by lia. apply H2. lia.
    + intros k q. rewrite Hh, lookup_insert_Some. intros [[<- <-]|[_ Hq]]; apply elem_of_app.
      * right. by apply list_elem_of_singleton.
      * left. by apply H3.
    + rewrite Hl, H4. f_equal. unfold accepted. rewrite Hh, fetch_insert_len by (done || lia).
      rewrite (fetch_extend _ e0 (Z.to_nat (next a - e0 + 128)) (Z.to_nat (next a' - e0 + 128)))
        by (first [lia | intros; apply H2; lia]). autorewrite with blen. lia.
Qed.

Lemma ref_push_all_inv e0 pushed a l :
  ref_inv e0 pushed a → ref_inv e0 (pushed ++ l) (ref_push_all a l).1.
Proof.
  revert pushed a. induction l as [|[e p] l IH]; intros pushed a Ha; [by rewrite app_nil_r|].
  cbn [ref_push_all]. pose proof (ref_push_inv e0 pushed a e p Ha) as Ha'.
  destruct (ref_push a e p) as [a' o]. specialize (IH _ _ Ha').
  rewrite <- app_assoc in IH. cbn [fst] in IH. by destruct (ref_push_all a' l).
Qed.

(** A push never changes what was accepted below the release point. *)
Lemma ref_push_all_released a l :
  next a ≤ next (ref_push_all a l).1 ∧
  (∀ k, k < next a → hist (ref_push_all a l).1 !! k = hist a !! k) ∧
  (ref_push_all a l).2 =
    fetch (hist (ref_push_all a l).1) (next a) (Z.to_nat (next (ref_push_all a l).1 - next a)).
Proof.
  revert a. induction l as [|[e p] l IH]; intros a.
  - cbn. rewrite Z.sub_diag, fetch_0. split_and!; [lia|done|done].
  - cbn [ref_push_all]. pose proof (ref_push_cases a e p) as Hc.
    destruct (ref_push a e p) as [a' o]. specialize (IH a').
    destruct (ref_push_all a' l) as [a'' o']. cbn [fst snd] in *.
    destruct Hc as (Hn & -> & Hc), IH as (Hn' & Hh' & ->). split_and!; [lia| |].
    + intros k Hk. rewrite Hh' by lia. destruct Hc as [->|(He & _ & -> & _)]; [done|].
      apply lookup_insert_ne. lia.
    + replace (Z.to_nat (next a'' - next a)) with
        (Z.to_nat (next a' - next a) + Z.to_nat (next a'' - next a'))%nat by lia.
      rewrite fetch_app. f_equal.
      * apply fetch_ext. intros j Hj. symmetry. apply Hh'. lia.
      * f_equal. lia.
Qed.

Lemma elem_of_fetch h k n q : q ∈ fetch h k n ↔ h !! q.1 = Some q.2 ∧ k ≤ q.1 < k + Z.of_nat n.
Proof.
  revert k. induction n as [|n IH]; intros k.
  - rewrite fetch_0. rewrite elem_of_nil. lia.
  - rewrite fetch_S, fetch_one, elem_of_app, IH. destruct (h !! k) eqn:Hk.
    + rewrite list_elem_of_singleton. split.
      * intros [-> | [? ?]]; cbn; [split; [done|lia] | split; [done|lia]].
      * intros [Hq Hr]. destruct (decide (q.1 = k)) as [<-|]; [|right; split; [done|lia]].
        left. destruct q. cbn in *. congruence.
    + rewrite elem_of_nil. split; [intros [[]|[? ?]]; split; [done|lia]|].
      intros [Hq Hr]. right. destruct (decide (q.1 = k)) as [E|]; [rewrite E in Hq; congruence|].
      split; [done|lia].
Qed.

Lemma fetch_sorted h k n : StronglySorted Z.lt ((fetch h k n).*1).
Proof.
  revert k. induction n as [|n IH]; intros k; [constructor|].
  rewrite fetch_S, fetch_one. destruct (h !! k); [|apply IH].
  cbn. constructor; [apply IH|]. apply Forall_forall. intros j Hj.
  apply list_elem_of_fmap in Hj as (q & -> & Hq). apply elem_of_fetch in Hq. lia.
Qed.


(** ** Lossless resequencing *)

(** [ps] numbered consecutively from [e0]. *)
Fixpoint numbered (e0 : Z) (ps : list payload) : list (Z * payload) :=
  match ps with [] => [] | p :: ps => (e0, p) :: numbered (e0 + 1) ps end.

(** No packet arrives 128 or more numbers ahead of one that is still to come. *)
Fixpoint no_overtake (l : list (Z * payload)) : Prop :=
  match l with
  | [] => True
  | ep :: l => Forall (λ kp, ep.1 - kp.1 < MaxReorderWindow) l ∧ no_overtake l
  end.

Lemma numbered_keys e0 ps : (numbered e0 ps).*1 = seqZ e0 (blen ps).
Proof.
  revert e0. induction ps as [|p ps IH]; intros e0; [done|].
  cbn. rewrite IH, blen_cons. rewrite (seqZ_cons e0) by (pose proof (blen_nonneg ps); lia).
  f_equal. f_equal; lia.
Qed.

Lemma numbered_range e0 ps e p : (e, p) ∈ numbered e0 ps → e0 ≤ e < e0 + blen ps.
Proof.
  intros H. apply elem_of_seqZ. rewrite <- numbered_keys. apply list_elem_of_fmap.
  by exists (e, p).
Qed.

Lemma numbered_total e0 ps e : e0 ≤ e < e0 + blen ps → ∃ p, (e, p) ∈ numbered e0 ps.
Proof.
  intros H. apply elem_of_seqZ in H. rewrite <- numbered_keys in H.
  apply list_elem_of_fmap in H as ([k p] & -> & H). by exists p.
Qed.

Lemma fetch_numbered h e0 ps :
  (∀ k p, (k, p) ∈ numbered e0 ps → h !! k = Some p) → fetch h e0 (length ps) = numbered e0 ps.
Proof.
  revert e0. induction ps as [|p ps IH]; intros e0 H; cbn [length numbered]; [apply fetch_0|].
  rewrite fetch_S, fetch_one, (H e0 p) by left. cbn [app]. f_equal.
  apply IH. intros k q Hq. apply H. by right.
Qed.

Record lossless (e0 : Z) (pushed : list (Z * payload)) (a : Ref) : Prop := {
  ll_next : e0 ≤ next a;
  ll_window : ∀ k, next a + 128 ≤ k → hist a !! k = None;
  ll_stop : hist a !! next a = None;
  ll_below : ∀ k, e0 ≤ k < next a → is_Some (hist a !! k);
  ll_hist : ∀ k p, hist a !! k = Some p ↔ (k, p) ∈ pushed;
  ll_late : rlate a = 0;
  ll_forced : rforced a = 0
}.

Lemma keys_distinct e0 ps l1 e p l2 :
  l1 ++ (e, p) :: l2 ≡ₚ numbered e0 ps → ∀ q, (e, q) ∉ l1.
Proof.
  intros Hp q Hq. assert (NoDup ((l1 ++ (e, p) :: l2).*1)) as Hnd.
  { rewrite Hp, numbered_keys. apply NoDup_seqZ. }
  rewrite fmap_app in Hnd. apply NoDup_app in Hnd as (_ & Hd & _).
  apply (Hd e); [apply list_elem_of_fmap; by exists (e, q)|by left].
Qed.

Lemma lossless_push e0 ps l1 e p l2 a :
  l1 ++ (e, p) :: l2 ≡ₚ numbered e0 ps →
  Forall (λ kp, e - kp.1 < MaxReorderWindow) l2 → lossless e0 l1 a →
  0 ≤ e - next a < 128 ∧ lossless e0 (l1 ++ [(e, p)]) (ref_push a e p).1.
Proof.
  intros Hp Hno [H1 H2 H3 H4 H5 H6 H7].
  assert ((e, p) ∈ numbered e0 ps) as He.
  { rewrite <- Hp. apply elem_of_app. right. by left. }
  apply numbered_range in He.
  assert (hist a !! e = None) as Hnone.
  { destruct (hist a !! e) as [q|] eqn:Hq; [|done]. apply H5 in Hq.
    by apply (keys_distinct _ _ _ _ _ _ Hp) in Hq. }
  assert (next a ≤ e) as Hle.
  { destruct (Z.leb_spec (next a) e); [done|].
    destruct (H4 e) as [q Hq]; [lia|congruence]. }
  assert (e - next a < 128) as Hwin.
  { destruct (decide (e = next a)); [lia|].
    destruct (numbered_total e0 ps (next a)) as [q Hq]; [lia|].
    rewrite <- Hp in Hq. apply elem_of_app in Hq as [Hq|Hq]; [by apply H5 in Hq; congruence|].
    apply elem_of_cons in Hq as [[= ? ?]|Hq]; [lia|].
    rewrite Forall_forall in Hno. specialize (Hno _ Hq). unfold MaxReorderWindow in Hno. cbn in Hno. lia. }
  split; [lia|]. unfold ref_push. destruct (Z.ltb_spec e (next a)); [lia|]. rewrite Hnone.
  replace (Z.max (next a) (e - 127)) with (next a) by lia. rewrite Z.sub_diag, fetch_0.
  cbn [fst]. set (h := <[e := p]> (hist a)). set (m := run h (next a) 128).
  assert (h !! (next a + Z.of_nat 128) = None) as Hend.
  { unfold h. rewrite lookup_insert_ne by lia. apply H2. lia. }
  split; cbn [next hist rlate rforced].
  - lia.
  - intros k Hk. unfold h. rewrite lookup_insert_ne by lia. apply H2. lia.
  - by apply run_stop.
  - intros k Hk. destruct (Z.ltb_spec k (next a)).
    + unfold h. rewrite lookup_insert_ne by lia. apply H4. lia.
    + eapply (run_present h (next a) 128). fold m. lia.
  - intros k q. unfold h. rewrite lookup_insert_Some, elem_of_app, list_elem_of_singleton.
    split.
    + intros [[<- <-]|[_ Hq]]; [by right|left; by apply H5].
    + intros [Hq|[= -> ->]]; [|by left]. right. split; [|by apply H5].
      intros <-. by apply (keys_distinct _ _ _ _ _ _ Hp) in Hq.
  - done.
  - by rewrite H7.
Qed.

Lemma lossless_all e0 ps l2 l1 a :
  l1 ++ l2 ≡ₚ numbered e0 ps → no_overtake l2 → lossless e0 l1 a →
  near_all a l2 ∧ lossless e0 (l1 ++ l2) (ref_push_all a l2).1.
Proof.
  revert l1 a. induction l2 as [|[e p] l2 IH]; intros l1 a Hp Hno Ha; [by rewrite app_nil_r|].
  cbn [no_overtake near_all ref_push_all] in *. destruct Hno as [Hno Hnos].
  destruct (lossless_push e0 ps l1 e p l2 a Hp Hno Ha) as [Hn Ha'].
  destruct (ref_push a e p) as [a' o]. cbn [fst] in *.
  destruct (IH (l1 ++ [(e, p)]) a') as [Hns Ha'']; [by rewrite <- app_assoc|done|done|].
  rewrite <- app_assoc in Ha''. destruct (ref_push_all a' l2). cbn [fst] in *.
  split; [split; [lia|done]|done].
Qed.

Lemma lossless_end e0 ps l a :
  l ≡ₚ numbered e0 ps → lossless e0 l a →
  next a = e0 + blen ps ∧ fetch (hist a) e0 (length ps) = numbered e0 ps.
Proof.
  intros Hp [H1 H2 H3 H4 H5 H6 H7].
  assert (∀ k p, (k, p) ∈ numbered e0 ps → hist a !! k = Some p) as Hh.
  { intros k p Hk. apply H5. by rewrite Hp. }
  split; [|by apply fetch_numbered].
  assert (¬ next a < e0 + blen ps) as Hge.
  { intros Hlt. destruct (numbered_total e0 ps (next a)) as [p Hk]; [lia|].
    apply Hh in Hk. congruence. }
  assert (¬ e0 + blen ps < next a) as Hle; [|lia].
  intros Hlt. destruct (H4 (e0 + blen ps)) as [p Hk].
  - pose proof (blen_nonneg ps). lia.
  - apply H5 in Hk. rewrite Hp in Hk. apply numbered_range in Hk. lia.
Qed.

(** In-window arrivals come out in order, and nothing is left. *)
Lemma lossless_run e0 p0 ps l :
  0 ≤ e0 < 2 ^ 16 → (e0, p0) :: l ≡ₚ numbered e0 ps → no_overtake ((e0, p0) :: l) →
  let '(r, out) := push_all zero (wire_trace ((e0, p0) :: l)) in
  out = wire <$> numbered e0 ps ∧ Stats r = mkStats 0 0 0.
Proof.
  intros He Hp Hno.
  assert (lossless e0 [] (ref_start e0)) as Hl.
  { split; cbn; try done; try lia. intros k p. by rewrite lookup_empty, elem_of_nil. }
  destruct (lossless_all e0 ps _ [] _ Hp Hno Hl) as [Hn Hl'].
  rewrite push_all_zero by done.
  pose proof (push_all_represents _ _ _ (start_represents e0 He) Hn) as [Hr Ho].
  pose proof (ref_push_all_released (ref_start e0) ((e0, p0) :: l)) as (_ & _ & Hout).
  destruct (push_all (start e0) _) as [r out], (ref_push_all (ref_start e0) _) as [a out'].
  cbn [fst snd app] in *. change (next (ref_start e0)) with e0 in *.
  destruct (lossless_end e0 ps _ a Hp Hl') as [Hnext Hf]. split.
  - rewrite Ho, Hout, Hnext. f_equal. rewrite <- Hf. f_equal. unfold blen. lia.
  - unfold Stats. rewrite (rp_late _ _ Hr), (rp_forced _ _ Hr), (rp_buffered _ _ Hr).
    rewrite (ll_late _ _ _ Hl'), (ll_forced _ _ _ Hl'), fetch_none; [done|].
    intros j Hj. destruct (hist a !! j) as [q|] eqn:Hq; [|done].
    apply (ll_hist _ _ _ Hl') in Hq. rewrite Hp in Hq. apply numbered_range in Hq. lia.
Qed.

(** ** Every packet is accounted for

    On any sequence of pushes, near or not, and for any contents. *)

(** The packets the ring holds. *)
Definition held (r : Reorderer) : list (Z * payload) := omap id (slots r).

Lemma omap_insert_none {A} (l : list (option A)) i x : l !! i = Some (Some x) →
  ∃ a b, omap id l = a ++ x :: b ∧ omap id (<[i := None]> l) = a ++ b.
Proof.
  revert i. induction l as [|y l IH]; intros [|i]; cbn; [done|done| |].
  - intros [= ->]. by exists [], (omap id l).
  - intros H. destruct (IH i H) as (a & b & E1 & E2). destruct y as [y|]; cbn.
    + exists (y :: a), b. cbn. by rewrite <- E1, <- E2.
    + by exists a, b.
Qed.
Lemma omap_insert_some {A} (l : list (option A)) i x : l !! i = Some None →
  ∃ a b, omap id l = a ++ b ∧ omap id (<[i := Some x]> l) = a ++ x :: b.
Proof.
  revert i. induction l as [|y l IH]; intros [|i]; cbn; [done|done| |].
  - intros [= ->]. by exists [], (omap id l).
  - intros H. destruct (IH i H) as (a & b & E1 & E2). destruct y as [y|]; cbn.
    + exists (y :: a), b. cbn. by rewrite <- E1, <- E2.
    + by exists a, b.
Qed.

Record ring_ok (P : payload → Prop) (r : Reorderer) : Prop := {
  rg_len : length (slots r) = Z.to_nat MaxReorderWindow;
  rg_count : buffered r = blen (held r);
  rg_held : Forall (λ q, P q.2) (held r)
}.

Lemma slot_lookup P r k : ring_ok P r → slots r !! idx k = Some (slot_at r k).
Proof.
  intros [Hl _ _]. unfold slot_at. destruct (lookup_lt_is_Some_2 (slots r) (idx k)) as [x E]; [rewrite Hl; apply idx_lt|]. by rewrite E.
Qed.

Section accounted.
Context (P : payload → Prop).

(** What a release step does to the balance. *)
Definition balanced (r r' : Reorderer) (out : list Released) : Prop :=
  ring_ok P r' ∧ buffered r' + blen out = buffered r ∧ late r' = late r ∧ Forall (λ q, P (Payload q)) out.

Lemma balanced_refl r : ring_ok P r → balanced r r [].
Proof. intros H. unfold balanced. autorewrite with blen. split_and!; [done|lia|done|done]. Qed.
Lemma balanced_trans r r1 r2 o1 o2 : balanced r r1 o1 → balanced r1 r2 o2 → balanced r r2 (o1 ++ o2).
Proof.
  intros (_ & H2 & H3 & H4) (K1 & K2 & K3 & K4). unfold balanced. rewrite blen_app.
  split_and!; [done|lia|congruence|by apply Forall_app_2].
Qed.

(** Emptying the slot at [k], whatever happens to the release point. *)
Lemma take_balanced r k s p i n f : ring_ok P r → slot_at r k = Some (s, p) →
  balanced r (mkReorderer i n (<[idx k := None]> (slots r)) (buffered r - 1) (late r) f) [mkReleased s p].
Proof.
  intros Hr Hs. pose proof (slot_lookup P r k Hr) as E. rewrite Hs in E. destruct Hr as [H1 H2 H3].
  destruct (omap_insert_none _ _ _ E) as (a & b & E1 & E2). unfold held in *. rewrite E1 in *. autorewrite with blen in H2.
  apply Forall_app in H3 as [H3 [H4 H5]%Forall_cons_iff]. unfold balanced. autorewrite with blen. split_and!; cbn; [|lia|done|by repeat constructor].
  split; unfold held; cbn; rewrite ?length_insert, ?E2; [done|autorewrite with blen; lia|by apply Forall_app_2].
Qed.

Lemma release_balanced r : ring_ok P r → balanced r (release r).1 (release r).2.
Proof.
  intros Hr. unfold release. destruct (slot_at r (nextSeq r)) as [[s p]|] eqn:E; [by apply take_balanced|].
  unfold balanced. autorewrite with blen. cbn. split_and!; [|lia|done|done]. destruct Hr. by split.
Qed.

Lemma force_loop_balanced fuel seq r : ring_ok P r → balanced r (force_loop fuel seq r).1 (force_loop fuel seq r).2.
Proof.
  revert r. induction fuel as [|fuel IH]; intros r Hr; cbn [force_loop]; [by apply balanced_refl|].
  destruct (_ <=? _); [|by apply balanced_refl].
  pose proof (release_balanced r Hr) as H1. destruct (release r) as [r1 o1]. specialize (IH r1 (proj1 H1)).
  destruct (force_loop fuel seq r1) as [r2 o2]. by eapply balanced_trans.
Qed.

Lemma run_loop_balanced fuel r : ring_ok P r → balanced r (run_loop fuel r).1 (run_loop fuel r).2.
Proof.
  revert r. induction fuel as [|fuel IH]; intros r Hr; cbn [run_loop]; [by apply balanced_refl|].
  destruct (slot_at r (nextSeq r)); [|by apply balanced_refl].
  pose proof (release_balanced r Hr) as H1. destruct (release r) as [r1 o1]. specialize (IH r1 (proj1 H1)).
  destruct (run_loop fuel r1) as [r2 o2]. by eapply balanced_trans.
Qed.

Lemma store_ok r seq p : ring_ok P r → slot_at r seq = None → P p → ring_ok P (store r seq p).
Proof.
  intros Hr Hs Hp. pose proof (slot_lookup P r seq Hr) as E. rewrite Hs in E. destruct Hr as [H1 H2 H3].
  destruct (omap_insert_some _ _ (seq, p) E) as (a & b & E1 & E2). unfold held in *. rewrite E1 in *.
  apply Forall_app in H3 as [H3 H4]. autorewrite with blen in H2.
  split; unfold held; cbn; rewrite ?length_insert, ?E2; [done|autorewrite with blen; lia|]. apply Forall_app_2; [done|by constructor].
Qed.

(** A pushed packet is released, held, or counted late; what was held is still there or released. *)
Lemma Push_balanced r seq p : ring_ok P r → P p →
  let '(r', out) := Push r seq p in
  ring_ok P r' ∧ Forall (λ q, P (Payload q)) out ∧
  ((late r' = late r ∧ buffered r' + blen out = buffered r + 1) ∨
   (late r' = u64 (late r + 1) ∧ buffered r' + blen out = buffered r)).
Proof.
  intros Hr Hp. unfold Push. set (r0 := if initialized r then r else _).
  assert (H0 : ring_ok P r0 ∧ late r0 = late r ∧ buffered r0 = buffered r).
  { unfold r0. destruct (initialized r); [done|]. destruct Hr. split_and!; [by split|done|done]. }
  clearbody r0. destruct H0 as (Hr0 & <- & <-). cbv zeta.
  assert (Hlate : ∀ r, ring_ok P r → ring_ok P (add_late r)) by (intros ? []; by split).
  destruct (_ <? 0); [split_and!; [by apply Hlate|done|right; autorewrite with blen; cbn; split; [done|lia]]|].
  assert (H1 : let '(r1, out) := if MaxReorderWindow <=? ahead seq (nextSeq r0)
    then force_loop (Z.to_nat (ahead seq (nextSeq r0))) seq r0 else (r0, []) in balanced r0 r1 out).
  { destruct (_ <=? _); [|by apply balanced_refl].
    pose proof (force_loop_balanced (Z.to_nat (ahead seq (nextSeq r0))) seq r0 Hr0). by destruct (force_loop _ _ _). }
  destruct (if _ <=? _ then _ else _) as [r1 out]. destruct H1 as (Hr1 & Hb1 & Hl1 & Ho1).
  destruct (slot_at r1 seq) as [q|] eqn:Es.
  - split_and!; [by apply Hlate|done|]. right. cbn. rewrite Hl1. split; [done|lia].
  - pose proof (run_loop_balanced (Z.to_nat MaxReorderWindow) (store r1 seq p) (store_ok r1 seq p Hr1 Es Hp)) as (Hr2 & Hb2 & Hl2 & Ho2).
    destruct (run_loop _ _) as [r2 o2]. cbn in Hr2, Hb2, Hl2, Ho2. split_and!; [done|by apply Forall_app_2|].
    left. rewrite Hl2, blen_app. split; [done|lia].
Qed.

Lemma flush_loop_balanced n : ∀ e0 e r, ring_ok P r → (∀ k, e0 ≤ k < e → slot_at r k = None) → e + Z.of_nat n = e0 + 128 →
  let '(r', out) := flush_loop n (e mod 2 ^ 16) r in balanced r r' out ∧ buffered r' = 0.
Proof.
  induction n as [|n IH]; intros e0 e r Hr Hk He; cbn [flush_loop].
  - split; [by apply balanced_refl|]. rewrite (rg_count _ _ Hr). unfold held.
    assert (Hnone : Forall (λ x, x = None) (slots r)); [|by induction Hnone as [|x l -> _ IH]].
    apply Forall_lookup. intros i x Hi. set (k := e0 + (Z.of_nat i - e0) mod 128).
    assert (Hlt : (i < 128)%nat) by (apply lookup_lt_Some in Hi; rewrite (rg_len _ _ Hr) in Hi; exact Hi).
    assert (Hidx : idx k = i).
    { unfold idx, k, MaxReorderWindow. rewrite Zplus_mod_idemp_r. replace (e0 + (Z.of_nat i - e0)) with (Z.of_nat i) by lia.
      rewrite Z.mod_small by lia. lia. }
    pose proof (slot_lookup P r k Hr) as E. rewrite Hidx, Hi in E. rewrite (Hk k) in E; [by injection E|].
    unfold k. pose proof (Z.mod_pos_bound (Z.of_nat i - e0) 128). lia.
  - destruct (Z.ltb_spec 0 (buffered r)) as [Hb|Hb].
    2: { split; [by apply balanced_refl|]. rewrite (rg_count _ _ Hr) in *. pose proof (blen_nonneg (held r)). lia. }
    rewrite slot_at_mod, u16_succ. destruct (slot_at r e) as [[s p]|] eqn:Es.
    + rewrite idx_mod.
      pose proof (take_balanced r e s p (initialized r) ((e + 1) mod 2 ^ 16) (forced r) Hr Es) as H1. destruct Hr as [Hl _ _].
      set (r1 := mkReorderer _ _ _ _ _ _) in *. specialize (IH e0 (e + 1) r1 (proj1 H1)).
      destruct (flush_loop n ((e + 1) mod 2 ^ 16) r1) as [r2 out].
      destruct IH as [IH1 IH2]; [|lia|split; [exact (balanced_trans _ _ _ [_] _ H1 IH1)|done]].
      intros k Hk'. unfold slot_at, r1. cbn [slots]. destruct (decide (idx k = idx e)) as [->|Hne].
      * by rewrite mjoin_insert_eq by (rewrite Hl; apply idx_lt).
      * rewrite list_lookup_insert_ne by done. apply Hk. destruct (decide (k = e)) as [->|]; [done|lia].
    + apply (IH e0 (e + 1) r Hr); [|lia]. intros k Hk'. destruct (decide (k = e)) as [->|]; [done|]. apply Hk. lia.
Qed.

(** [Flush] hands out all that is held. *)
Lemma Flush_balanced r : ring_ok P r → is_u16 (nextSeq r) →
  let '(r', out) := Flush r in balanced r r' out ∧ buffered r' = 0.
Proof.
  intros Hr Hn. unfold Flush. pose proof (flush_loop_balanced (Z.to_nat MaxReorderWindow) (nextSeq r) (nextSeq r) r Hr) as H.
  rewrite Z.mod_small in H by (unfold is_u16 in Hn; lia). apply H; [intros k ?; lia|done].
Qed.

Lemma zero_ring : ring_ok P zero.
Proof. by split. Qed.
End accounted.

(** The release point stays a 16-bit number. *)
Lemma release_next r : is_u16 (nextSeq (release r).1).
Proof. unfold release. destruct (slot_at r (nextSeq r)) as [[s p]|]; apply u16_range. Qed.

Lemma force_loop_next fuel seq r : is_u16 (nextSeq r) → is_u16 (nextSeq (force_loop fuel seq r).1).
Proof.
  revert r. induction fuel as [|fuel IH]; intros r Hr; cbn [force_loop]; [done|]. destruct (_ <=? _); [|done].
  pose proof (release_next r) as H1. destruct (release r) as [r1 o1]. specialize (IH r1 H1). by destruct (force_loop fuel seq r1).
Qed.
Lemma run_loop_next fuel r : is_u16 (nextSeq r) → is_u16 (nextSeq (run_loop fuel r).1).
Proof.
  revert r. induction fuel as [|fuel IH]; intros r Hr; cbn [run_loop]; [done|]. destruct (slot_at _ _); [|done].
  pose proof (release_next r) as H1. destruct (release r) as [r1 o1]. specialize (IH r1 H1). by destruct (run_loop fuel r1).
Qed.
Lemma Push_next r seq p : is_u16 (nextSeq r) → is_u16 seq → is_u16 (nextSeq (Push r seq p).1).
Proof.
  intros Hr Hs. unfold Push. set (r0 := if initialized r then r else _).
  assert (H0 : is_u16 (nextSeq r0)) by (unfold r0; by destruct (initialized r)). clearbody r0. cbv zeta.
  destruct (_ <? 0); [done|].
  assert (H1 : is_u16 (nextSeq (if MaxReorderWindow <=? ahead seq (nextSeq r0)
    then force_loop (Z.to_nat (ahead seq (nextSeq r0))) seq r0 else (r0, [])).1)).
  { destruct (_ <=? _); [by apply force_loop_next|done]. }
  destruct (if _ <=? _ then _ else _) as [r1 out]. destruct (slot_at r1 seq); [done|].
  pose proof (run_loop_next (Z.to_nat MaxReorderWindow) (store r1 seq p) H1) as H2. by destruct (run_loop _ _).
Qed.

(** ** Properties *)

(** C1: The ring buffer implements the unbounded resequencer.  For every sequence
    of pushes whose true sequence numbers stay within half a turn of the release
    point, [Push] emits exactly the packets the reference releases, in the same
    order, across any number of 16-bit wraps, window overflows and duplicates, and
    the published counters are the reference's. *)
Theorem Push_refines_reference e0 p0 l :
  0 ≤ e0 < 2 ^ 16 → near_all (ref_start e0) ((e0, p0) :: l) →
  let '(r, out) := push_all zero (wire_trace ((e0, p0) :: l)) in
  let '(a, out') := ref_push_all (ref_start e0) ((e0, p0) :: l) in
  out = wire <$> out' ∧
  Stats r = mkStats (rlate a) (rforced a) (blen (fetch (hist a) (next a) 128)).
Proof.
  intros He Hn. rewrite push_all_zero by done.
  pose proof (push_all_represents _ _ _ (start_represents e0 He) Hn) as [Hr Ho].
  destruct (push_all (start e0) _), (ref_push_all (ref_start e0) _). cbn [fst snd] in *.
  split; [done|]. unfold Stats.
  by rewrite (rp_late _ _ Hr), (rp_forced _ _ Hr), (rp_buffered _ _ Hr).
Qed.

Lemma Push_refines_reference_witness :
  let l := [(65535, [1]); (65537, [3]); (65536, [2]); (65536, [9]); (65700, [7])] in
  let '(r, out) := push_all zero (wire_trace l) in
  let '(a, out') := ref_push_all (ref_start 65535) l in
  out = wire <$> out' ∧
  Stats r = mkStats (rlate a) (rforced a) (blen (fetch (hist a) (next a) 128)).
Proof.
  apply (Push_refines_reference 65535 [1] [(65537, [3]); (65536, [2]); (65536, [9]); (65700, [7])]).
  - lia.
  - cbn [near_all]. repeat split; by vm_compute.
Defined.

(** Output is in order, complete and without repeats on every input: after any
    near run of pushes and a final [Flush], what was released is a strictly
    ascending sequence of pushed packets, nothing stays buffered, and every pushed
    packet that was not released was counted late. *)
Theorem Push_Flush_ordered e0 p0 l :
  0 ≤ e0 < 2 ^ 16 → near_all (ref_start e0) ((e0, p0) :: l) →
  let '(r, out1) := push_all zero (wire_trace ((e0, p0) :: l)) in
  let '(r', out2) := Flush r in
  ∃ kps, out1 ++ out2 = wire <$> kps ∧ StronglySorted Z.lt (kps.*1) ∧
    kps ⊆ (e0, p0) :: l ∧ Buffered (Stats r') = 0 ∧
    Late (Stats r') = u64 (blen ((e0, p0) :: l) - blen kps).
Proof.
  intros He Hn. rewrite push_all_zero by done.
  pose proof (push_all_represents _ _ _ (start_represents e0 He) Hn) as [Hr Ho].
  pose proof (ref_push_all_released (ref_start e0) ((e0, p0) :: l)) as (Hle & _ & Hout).
  assert (ref_inv e0 [] (ref_start e0)) as Hi.
  { split; cbn; [lia|done|done|]. unfold accepted. by rewrite fetch_none. }
  apply (ref_push_all_inv e0 [] _ ((e0, p0) :: l)) in Hi.
  destruct (push_all (start e0) _) as [r out1], (ref_push_all (ref_start e0) _) as [a out'].
  cbn [fst snd app] in *. change (next (ref_start e0)) with e0 in *.
  destruct (Flush_represents r a Hr) as (s' & Hs & Hnone & Hr' & Ho').
  destruct (Flush r) as [r' out2]. cbn [fst snd] in *.
  exists (accepted e0 a). split_and!.
  - rewrite Ho, Ho', Hout, <- fmap_app. f_equal. unfold accepted.
    replace (Z.to_nat (next a - e0 + 128)) with (Z.to_nat (next a - e0) + 128)%nat by lia.
    rewrite fetch_app. do 2 f_equal. lia.
  - apply fetch_sorted.
  - intros [k p] [Hk _]%elem_of_fetch. by apply (ri_sub _ _ _ Hi).
  - cbn. rewrite (rp_buffered _ _ Hr'). cbn [next hist]. by rewrite fetch_none by (intros; apply Hnone; lia).
  - cbn. rewrite (rp_late _ _ Hr'). cbn [rlate]. apply (ri_late _ _ _ Hi).
Qed.

Lemma Push_Flush_ordered_witness :
  let l := [(65535, [1]); (65540, [3]); (65536, [2]); (65536, [9])] in
  let '(r, out1) := push_all zero (wire_trace l) in
  let '(r', out2) := Flush r in
  ∃ kps, out1 ++ out2 = wire <$> kps ∧ StronglySorted Z.lt (kps.*1) ∧
    kps ⊆ l ∧ Buffered (Stats r') = 0 ∧ Late (Stats r') = u64 (blen l - blen kps).
Proof.
  apply (Push_Flush_ordered 65535 [1] [(65540, [3]); (65536, [2]); (65536, [9])]).
  - lia.
  - cbn [near_all]. repeat split; by vm_compute.
Defined.

(** Reordering within the window costs nothing: if the packets [ps], numbered
    from [e0], arrive in any order that starts with [e0] and in which no packet
    overtakes another by [MaxReorderWindow] or more, the pushes release all of
    them, in order, with nothing late, nothing forced and nothing left behind. *)
Theorem Push_lossless e0 p0 ps l :
  0 ≤ e0 < 2 ^ 16 → (e0, p0) :: l ≡ₚ numbered e0 ps → no_overtake ((e0, p0) :: l) →
  let '(r, out) := push_all zero (wire_trace ((e0, p0) :: l)) in
  out = wire <$> numbered e0 ps ∧ Stats r = mkStats 0 0 0.
Proof. exact (lossless_run e0 p0 ps l). Qed.

Lemma Push_lossless_witness :
  let '(r, out) := push_all zero (wire_trace [(65535, [1]); (65537, [3]); (65536, [2])]) in
  out = wire <$> numbered 65535 [[1]; [2]; [3]] ∧ Stats r = mkStats 0 0 0.
Proof.
  apply (Push_lossless 65535 [1] [[1]; [2]; [3]] [(65537, [3]); (65536, [2])]).
  - lia.
  - cbn. constructor. apply perm_swap.
  - cbn. unfold MaxReorderWindow. repeat constructor; cbn; lia.
Defined.

End reorder.
