(* ===== verification/FlacRtp.v ===== *)
(** * FLAC over RTP: [packet/flac/flac.go] and [depacket/flac/flac.go]

    The packetizer that cuts a FLAC frame into RTP payloads and the depacketizer
    that reassembles them from the marker bit and the shared timestamp. *)
From S2P Require Import Prelude Bytes.

Module packetflac.

Inductive err := ErrEmptyFrame | ErrInvalidMTU.

Record Fragment := mkFragment { Data : list Z; Marker : bool }.

(** The loop of [Packetize] from offset [off]; one round emits one fragment. *)
Fixpoint packetize_loop (fuel : nat) (frame : list Z) (maxPayload off : Z) (dst : list Fragment)
    : res err (list Fragment) :=
  if off <? blen frame then
    match fuel with
    | O => Panic
    | S fuel =>
        let end_ := off + maxPayload in
        if blen frame <=? end_ then
          last ← slice_from frame off; mret (dst ++ [mkFragment last true])
        else
          s ← slice frame off end_;
          packetize_loop fuel frame maxPayload (off + maxPayload) (dst ++ [mkFragment s false])
    end
  else mret dst.

(** [Packetize]: the extended slice and the error, [dst] unchanged on error. *)
Definition Packetize (dst : list Fragment) (frame : list Z) (maxPayload : Z)
    : res err (list Fragment) * list Fragment :=
  if maxPayload <=? 0 then (Err ErrInvalidMTU, dst)
  else if blen frame =? 0 then (Err ErrEmptyFrame, dst)
  else
    let r := packetize_loop (length frame) frame maxPayload 0 dst in
    (r, match r with Ok l => l | _ => dst end).

(** The fragments of a frame, by recursion on what is left of it. *)
Fixpoint fragments (fuel : nat) (frame : list Z) (n : nat) : list Fragment :=
  match fuel with
  | O => []
  | S fuel =>
      if decide (length frame ≤ n)%nat then [mkFragment frame true]
      else mkFragment (take n frame) false :: fragments fuel (drop n frame) n
  end.

Lemma packetize_loop_fragments fuel pre frame n dst :
  0 < n → frame ≠ [] → (length frame ≤ fuel)%nat →
  packetize_loop fuel (pre ++ frame) n (blen pre) dst =
  Ok (dst ++ fragments fuel frame (Z.to_nat n)).
Proof.
  intros Hn. revert pre frame dst. induction fuel as [|fuel IH]; intros pre frame dst Hne Hf.
  { destruct frame; [done|cbn in Hf; lia]. }
  assert (0 < blen frame) as Hpos by (destruct frame; [done|]; rewrite blen_cons; blen_pos; lia).
  cbn [packetize_loop fragments]. rewrite blen_app. pose proof (blen_nonneg pre).
  destruct (Z.ltb_spec (blen pre) (blen pre + blen frame)); [|lia].
  destruct (Z.leb_spec (blen pre + blen frame) (blen pre + n)).
  - rewrite decide_True by (unfold blen in *; lia).
    rewrite slice_from_ok by (rewrite blen_app; lia). unfold blen.
    by rewrite Nat2Z.id, drop_app_length.
  - rewrite decide_False by (unfold blen in *; lia).
    rewrite <- (take_drop (Z.to_nat n) frame) at 1.
    assert (blen (take (Z.to_nat n) frame) = n) as Ht.
    { unfold blen in *. rewrite length_take. lia. }
    rewrite slice_mid by lia. rewrite bind_Ok.
    rewrite <- (take_drop (Z.to_nat n) frame) at 1. rewrite app_assoc.
    replace (blen pre + n) with (blen (pre ++ take (Z.to_nat n) frame)) by (rewrite blen_app; lia).
    rewrite IH; [by rewrite <- app_assoc| |].
    + intros E. apply (f_equal length) in E. rewrite length_drop in E. unfold blen in *. cbn in E. lia.
    + rewrite length_drop. unfold blen in *. lia.
Qed.

Lemma fragments_shape fuel frame n :
  (0 < n)%nat → frame ≠ [] → (length frame ≤ fuel)%nat →
  concat (Data <$> fragments fuel frame n) = frame ∧
  Forall (λ f, 0 < blen (Data f) ≤ Z.of_nat n) (fragments fuel frame n) ∧
  ∃ fs last, fragments fuel frame n = fs ++ [mkFragment last true] ∧
    Forall (λ f, Marker f = false ∧ length (Data f) = n) fs.
Proof.
  intros Hn. revert frame. induction fuel as [|fuel IH]; intros frame Hne Hf.
  { destruct frame; [done|cbn in Hf; lia]. }
  assert (0 < length frame)%nat by (destruct frame; [done|cbn; lia]).
  cbn [fragments]. case_decide.
  - split_and!; [cbn; apply app_nil_r | constructor; [cbn; unfold blen; lia|constructor] |].
    by exists [], frame.
  - destruct (IH (drop n frame)) as (H1 & H2 & fs & last & H3 & H4).
    + intros E. apply (f_equal length) in E. rewrite length_drop in E. cbn in E. lia.
    + rewrite length_drop. lia.
    + cbn [fmap list_fmap concat]. split_and!.
      * change (list_fmap _ _ Data ?l) with (Data <$> l). rewrite H1. cbn. apply take_drop.
      * constructor; [|done]. cbn. unfold blen. rewrite length_take. lia.
      * rewrite H3. exists (mkFragment (take n frame) false :: fs), last. split; [done|].
        constructor; [|done]. cbn. rewrite length_take. split; [done|lia].
Qed.

Lemma Packetize_fragments dst frame n :
  0 < n → frame ≠ [] →
  (Packetize dst frame n).1 = Ok (dst ++ fragments (length frame) frame (Z.to_nat n)).
Proof.
  intros Hn Hne. unfold Packetize. destruct (Z.leb_spec n 0); [lia|].
  destruct (Z.eqb_spec (blen frame) 0) as [E|]; [by apply blen_zero in E|]. cbn [fst].
  by apply (packetize_loop_fragments _ [] frame n dst).
Qed.

(** [Packetize] partitions the frame: for every non-empty frame and positive
    payload cap it terminates, appends to [dst] fragments whose concatenation is
    the frame, each non-empty and within the cap, every one but the last exactly
    the cap long, with the marker on the last and only there.  A cap that is not
    positive, or an empty frame, is refused with [dst] unchanged. *)
Theorem Packetize_partition dst frame n :
  (n ≤ 0 → Packetize dst frame n = (Err ErrInvalidMTU, dst)) ∧
  (0 < n → frame = [] → Packetize dst frame n = (Err ErrEmptyFrame, dst)) ∧
  (0 < n → frame ≠ [] → ∃ fs last,
     Packetize dst frame n = (Ok (dst ++ fs ++ [last]), dst ++ fs ++ [last]) ∧
     concat (Data <$> (fs ++ [last])) = frame ∧
     Forall (λ f, Marker f = false ∧ blen (Data f) = n) fs ∧
     Marker last = true ∧ 0 < blen (Data last) ≤ n).
Proof.
  split_and!.
  - intros Hn. unfold Packetize. destruct (Z.leb_spec n 0); [done|lia].
  - intros Hn ->. unfold Packetize. destruct (Z.leb_spec n 0); [lia|done].
  - intros Hn Hne.
    destruct (fragments_shape (length frame) frame (Z.to_nat n)) as (H1 & H2 & fs & last & H3 & H4);
      [lia|done|lia|].
    pose proof (Packetize_fragments dst frame n Hn Hne) as Hp. rewrite H3 in *.
    apply Forall_app in H2 as [_ H2]. apply Forall_cons_iff in H2 as [H2 _].
    rewrite Z2Nat.id in H2 by lia.
    exists fs, (mkFragment last true). split_and!; [|done| |done|apply H2|apply H2].
    + destruct (Packetize dst frame n) as [r l] eqn:E. cbn in Hp. subst r. f_equal.
      unfold Packetize in E. destruct (n <=? 0); [done|]. destruct (blen frame =? 0); [done|].
      by injection E as -> <-.
    + eapply Forall_impl; [|exact H4]. intros f [? ?]. split; [done|]. unfold blen. lia.
Qed.

Lemma Packetize_partition_witness :
  Packetize [] [1; 2; 3; 4; 5] 0 = (Err ErrInvalidMTU, []) ∧
  ∃ fs last, Packetize [] [1; 2; 3; 4; 5] 2 = (Ok ([] ++ fs ++ [last]), [] ++ fs ++ [last]) ∧
    concat (Data <$> (fs ++ [last])) = [1; 2; 3; 4; 5].
Proof.
  split; [by apply (Packetize_partition [] [1; 2; 3; 4; 5] 0)|].
  destruct (Packetize_partition [] [1; 2; 3; 4; 5] 2) as (_ & _ & H).
  destruct (H ltac:(lia) ltac:(done)) as (fs & last & H1 & H2 & _). by exists fs, last.
Defined.

End packetflac.

Module depacketflac.

Definition MaxFrameSize : Z := 1048576.

Inductive err := ErrEmptyPayload | ErrFrameOverflow.

Record Depacketizer := mkDepack { frag : list Z; fragActive : bool; fragTime : Z }.

Definition New : Depacketizer := mkDepack [] false 0.

Definition Reset (d : Depacketizer) : Depacketizer := mkDepack [] false (fragTime d).

(** [Depacketize]: [Ok (Some frame)] a completed frame, [Ok None] the (nil, nil) of
    a frame still being reassembled.  The code calls itself once, after [Reset]; [n]
    bounds that recursion. *)
Fixpoint depacketize (n : nat) (d : Depacketizer) (payload : list Z) (marker : bool) (rtpTime : Z)
    : Depacketizer * res err (option (list Z)) :=
  match n with
  | O => (d, Panic)
  | S n =>
      if blen payload =? 0 then
        ((if fragActive d then Reset d else d), Err ErrEmptyPayload)
      else if negb (fragActive d) then
        if marker then (d, Ok (Some payload))
        else if MaxFrameSize <? blen payload then (d, Err ErrFrameOverflow)
        else (mkDepack payload true rtpTime, Ok None)
      else if negb (rtpTime =? fragTime d) then
        depacketize n (Reset d) payload marker rtpTime
      else if MaxFrameSize <? blen (frag d) + blen payload then
        (Reset d, Err ErrFrameOverflow)
      else
        let buf := frag d ++ payload in
        if negb marker then (mkDepack buf true (fragTime d), Ok None)
        else (mkDepack buf false (fragTime d), Ok (Some buf))
  end.

Definition Depacketize := depacketize 2.

(** The receive path of one stream: payloads with their marker and timestamp. *)
Fixpoint feed (d : Depacketizer) (l : list (list Z * bool * Z))
    : Depacketizer * list (res err (option (list Z))) :=
  match l with
  | [] => (d, [])
  | (p, m, t) :: l =>
      let '(d, r) := Depacketize d p m t in
      let '(d, rs) := feed d l in (d, r :: rs)
  end.

Record ok (d : Depacketizer) : Prop := {
  ok_bound : fragActive d = true → 0 < blen (frag d) ≤ MaxFrameSize
}.

Lemma depacketize_two n d payload marker t :
  depacketize (S (S n)) d payload marker t = Depacketize d payload marker t.
Proof.
  unfold Depacketize. cbn [depacketize]. destruct (blen payload =? 0); [done|].
  destruct (fragActive d); cbn [negb]; [|done]. destruct (t =? fragTime d); cbn [negb]; done.
Qed.

(** Not in a frame, or in a frame with another timestamp. *)
Definition fresh_for (d : Depacketizer) (t : Z) : Prop := fragActive d = false ∨ fragTime d ≠ t.

Lemma Depacketize_fresh d payload marker t :
  payload ≠ [] → fresh_for d t →
  (Depacketize d payload marker t).2 =
    (if marker then Ok (Some payload)
     else if MaxFrameSize <? blen payload then Err ErrFrameOverflow else Ok None) ∧
  (if marker || (MaxFrameSize <? blen payload) then fragActive (Depacketize d payload marker t).1 = false
   else (Depacketize d payload marker t).1 = mkDepack payload true t).
Proof.
  intros Hne Hfr. unfold Depacketize. cbn [depacketize].
  destruct (Z.eqb_spec (blen payload) 0) as [E|_]; [by apply blen_zero in E|].
  destruct (fragActive d) eqn:Ha; cbn [negb].
  - destruct Hfr as [|Ht]; [congruence|].
    destruct (Z.eqb_spec t (fragTime d)); [congruence|]. cbn [negb Reset fragActive].
    destruct marker; [done|]. by destruct (MaxFrameSize <? blen payload).
  - destruct marker; [done|]. by destruct (MaxFrameSize <? blen payload).
Qed.

Lemma Depacketize_continue buf payload marker t :
  payload ≠ [] → blen buf + blen payload ≤ MaxFrameSize →
  Depacketize (mkDepack buf true t) payload marker t =
  (mkDepack (buf ++ payload) (negb marker) t,
   Ok (if marker then Some (buf ++ payload) else None)).
Proof.
  intros Hne Hb. unfold Depacketize. cbn [depacketize].
  destruct (Z.eqb_spec (blen payload) 0) as [E|_]; [by apply blen_zero in E|].
  cbn [fragActive negb fragTime frag]. rewrite Z.eqb_refl. cbn [negb].
  destruct (Z.ltb_spec MaxFrameSize (blen buf + blen payload)); [lia|]. by destruct marker.
Qed.

Definition packets (fs : list packetflac.Fragment) (t : Z) : list (list Z * bool * Z) :=
  (λ f, (packetflac.Data f, packetflac.Marker f, t)) <$> fs.

Lemma feed_middle fs buf last t :
  Forall (λ f, packetflac.Marker f = false ∧ packetflac.Data f ≠ []) fs → last ≠ [] →
  blen buf + blen (concat (packetflac.Data <$> fs)) + blen last ≤ MaxFrameSize →
  feed (mkDepack buf true t) (packets (fs ++ [packetflac.mkFragment last true]) t) =
  (mkDepack (buf ++ concat (packetflac.Data <$> fs) ++ last) false t,
   replicate (length fs) (Ok None) ++ [Ok (Some (buf ++ concat (packetflac.Data <$> fs) ++ last))]).
Proof.
  intros Hfs. revert buf. induction Hfs as [|[dt m] fs [Hm Hd] Hfs IH]; intros buf Hl Hb.
  - cbn [app packets fmap list_fmap feed packetflac.Data packetflac.Marker concat] in *.
    rewrite Depacketize_continue; [done|done|]. autorewrite with blen in Hb. lia.
  - cbn in Hm, Hd. subst m. cbn [app packets fmap list_fmap feed packetflac.Data packetflac.Marker concat] in *.
    rewrite blen_app in Hb. pose proof (blen_nonneg (concat (packetflac.Data <$> fs))).
    change (list_fmap _ _ packetflac.Data fs) with (packetflac.Data <$> fs) in *.
    pose proof (blen_nonneg last).
    rewrite Depacketize_continue by (done || lia). cbn [negb].
    change (list_fmap _ _ _ ?l) with (packets l t). rewrite IH; [|done|rewrite blen_app; lia].
    cbn [length replicate app]. by rewrite <- !app_assoc.
Qed.

Lemma feed_frame d fs last t :
  fresh_for d t → Forall (λ f, packetflac.Marker f = false ∧ packetflac.Data f ≠ []) fs → last ≠ [] →
  (fs = [] ∨ blen (concat (packetflac.Data <$> fs)) + blen last ≤ MaxFrameSize) →
  fragActive (feed d (packets (fs ++ [packetflac.mkFragment last true]) t)).1 = false ∧
  (feed d (packets (fs ++ [packetflac.mkFragment last true]) t)).2 =
    replicate (length fs) (Ok None) ++ [Ok (Some (concat (packetflac.Data <$> fs) ++ last))].
Proof.
  intros Hfr Hfs Hl Hb. destruct Hfs as [|[dt m] fs [Hm Hd] Hfs].
  - cbn [app packets fmap list_fmap feed packetflac.Data packetflac.Marker].
    destruct (Depacketize_fresh d last true t Hl Hfr) as [H1 H2].
    destruct (Depacketize d last true t) as [d' r]. cbn in *. by subst r.
  - destruct Hb as [|Hb]; [done|]. cbn in Hm, Hd. subst m.
    cbn [app packets fmap list_fmap feed packetflac.Data packetflac.Marker concat] in *.
    change (list_fmap _ _ packetflac.Data fs) with (packetflac.Data <$> fs) in *.
    rewrite blen_app in Hb. pose proof (blen_nonneg (concat (packetflac.Data <$> fs))).
    pose proof (blen_nonneg last).
    destruct (Depacketize_fresh d dt false t Hd Hfr) as [H1 H2].
    destruct (Z.ltb_spec MaxFrameSize (blen dt)); [lia|]. cbn [orb] in H2.
    destruct (Depacketize d dt false t) as [d' r]. cbn [fst snd] in *. subst r d'.
    fold (packets (fs ++ [packetflac.mkFragment last true]) t).
    rewrite feed_middle; [|done|done|lia]. cbn [fst snd length replicate app fragActive].
    by rewrite <- !app_assoc.
Qed.

(** C33: Reassembly inverts packetization, whatever came before: in any state whose
    partial frame, if there is one, carries another timestamp, feeding the fragments
    [Packetize] made of a frame of at most [MaxFrameSize] octets returns nothing for
    every fragment but the last and exactly the frame for the last.  Lost fragments
    of earlier frames therefore never corrupt or delay a later complete frame. *)
Theorem Depacketize_Packetize d frame n t :
  0 < n → frame ≠ [] → blen frame ≤ MaxFrameSize → fresh_for d t →
  ∃ fs, packetflac.Packetize [] frame n = (Ok fs, fs) ∧
    fragActive (feed d (packets fs t)).1 = false ∧
    (feed d (packets fs t)).2 = replicate (length fs - 1) (Ok None) ++ [Ok (Some frame)].
Proof.
  intros Hn Hne Hmax Hfr.
  pose proof (packetflac.Packetize_fragments [] frame n Hn Hne) as Hp.
  destruct (packetflac.fragments_shape (length frame) frame (Z.to_nat n))
    as (H1 & H2 & fs & last & H3 & H4); [lia|done|lia|].
  rewrite H3 in *. cbn [app] in Hp. rewrite fmap_app, concat_app in H1. cbn in H1. rewrite app_nil_r in H1.
  apply Forall_app in H2 as [_ H2]. apply Forall_cons_iff in H2 as [[H2 _] _].
  exists (fs ++ [packetflac.mkFragment last true]). split.
  - unfold packetflac.Packetize in *. destruct (n <=? 0); [done|]. destruct (blen frame =? 0); [done|].
    cbn [fst] in *. by rewrite Hp.
  - rewrite length_app. cbn [length]. replace (length fs + 1 - 1)%nat with (length fs) by lia.
    rewrite <- H1. apply feed_frame; [done| | |].
    + eapply Forall_impl; [|exact H4]. intros f [Hm Hd]. split; [done|]. intros E. rewrite E in Hd.
      cbn [length] in Hd. lia.
    + intros ->. unfold blen in H2. cbn in H2. lia.
    + right. rewrite <- H1 in Hmax. autorewrite with blen in Hmax. done.
Qed.

Lemma Depacketize_Packetize_witness :
  let d := mkDepack [9; 9] true 1 in
  ∃ fs, packetflac.Packetize [] [1; 2; 3; 4; 5] 2 = (Ok fs, fs) ∧
    fragActive (feed d (packets fs 7)).1 = false ∧
    (feed d (packets fs 7)).2 = replicate (length fs - 1) (Ok None) ++ [Ok (Some [1; 2; 3; 4; 5])].
Proof.
  apply (Depacketize_Packetize (mkDepack [9; 9] true 1) [1; 2; 3; 4; 5] 2 7);
    [lia | done | unfold MaxFrameSize; unfold blen; cbn; lia | by right].
Defined.

(** Reassembly memory stays within [MaxFrameSize] on every input, and the recursive
    call never recurses again. *)
Lemma Depacketize_ok d payload marker t :
  ok d → ok (Depacketize d payload marker t).1 ∧ (Depacketize d payload marker t).2 ≠ Panic.
Proof.
  intros [Hok]. unfold Depacketize. cbn [depacketize]. pose proof (blen_nonneg payload).
  assert (ok (Reset d)) as Hr by (by split).
  destruct (Z.eqb_spec (blen payload) 0).
  { split; [|done]. cbn [fst]. destruct (fragActive d) eqn:E; [done|split; congruence]. }
  destruct (fragActive d) eqn:E; cbn [negb].
  - specialize (Hok eq_refl). destruct (negb (t =? fragTime d)).
    + cbn [Reset fragActive negb]. destruct marker; [by split|].
      destruct (Z.ltb_spec MaxFrameSize (blen payload)); split; try done; split; cbn; lia.
    + destruct (Z.ltb_spec MaxFrameSize (blen (frag d) + blen payload)); [by split|].
      destruct marker; cbn [negb]; (split; [split; cbn [fst fragActive frag]|done]); [done|].
      intros _. rewrite blen_app. lia.
  - destruct marker; [split; [split; cbn [fst]; congruence|done]|].
    destruct (Z.ltb_spec MaxFrameSize (blen payload)); (split; [split; cbn [fst fragActive frag]|done]).
    + congruence.
    + destruct payload; [done|]. rewrite blen_cons in *. blen_pos. lia.
Qed.

End depacketflac.
