(* ===== verification/MediaTime.v ===== *)
(** * Presentation times: [internal/mediatime/mediatime.go]

    The overflow-safe conversion from a sample count to a [time.Duration], the
    int64 nanosecond count every source derives its presentation times from. *)
From S2P Require Import Prelude.

Module mediatime.

Definition Second : Z := 1000000000.
Definition MaxInt64 : Z := 2 ^ 63 - 1.
Definition maxPTSSeconds : Z := MaxInt64 / Second.

(** Every arithmetic step is wrapped at the width Go computes it in: uint64 for
    the division, int64 for the result. *)
Definition PTSFromSamples (samples clockRate : Z) : Z :=
  if clockRate <=? 0 then 0
  else
    let rate := u64 clockRate in
    let sec := samples / rate in
    if maxPTSSeconds <=? sec then i64 (maxPTSSeconds * Second)
    else
      let frac := u64 (samples mod rate * Second) / rate in
      i64 (i64 (i64 sec * Second) + i64 frac).

(** The specification: the exact rational time, rounded down, saturated. *)
Definition exact_pts (samples clockRate : Z) : Z :=
  if maxPTSSeconds <=? samples / clockRate then maxPTSSeconds * Second
  else samples * Second / clockRate.

Lemma split_seconds s r : 0 < r → s * Second / r = s / r * Second + s mod r * Second / r.
Proof.
  intros Hr. rewrite (Z.div_mod s r) at 1 by lia.
  replace ((r * (s / r) + s mod r) * Second) with (s / r * Second * r + s mod r * Second) by lia.
  apply Z.div_add_l. lia.
Qed.

(** A clock rate small enough that the remainder's scaling fits a uint64. *)
Definition rate_fits (r : Z) : Prop := 0 < r ∧ r * Second < 2 ^ 64.

Lemma PTSFromSamples_exact samples rate :
  is_u64 samples → rate_fits rate → PTSFromSamples samples rate = exact_pts samples rate.
Proof.
  unfold is_u64, rate_fits. intros Hs [Hr Hfit]. unfold PTSFromSamples, exact_pts.
  destruct (Z.leb_spec rate 0); [lia|]. unfold Second in *.
  rewrite (u64_small rate) by (unfold is_u64; lia).
  assert (0 ≤ samples / rate) by (apply Z.div_pos; lia).
  assert (maxPTSSeconds = 9223372036) as Hm by done. rewrite Hm.
  destruct (Z.leb_spec 9223372036 (samples / rate)); [by rewrite i64_small by lia|].
  pose proof (Z.mod_pos_bound samples rate Hr) as Hmod.
  assert (samples mod rate * 1000000000 / rate < 1000000000) as Hf.
  { apply Z.div_lt_upper_bound; nia. }
  assert (0 ≤ samples mod rate * 1000000000 / rate) by (apply Z.div_pos; lia).
  rewrite u64_small by (unfold is_u64; nia).
  pose proof (split_seconds samples rate Hr) as Hsp. unfold Second in Hsp. rewrite Hsp.
  rewrite (i64_small (samples / rate)) by lia.
  rewrite (i64_small (samples / rate * 1000000000)) by lia.
  rewrite (i64_small (samples mod rate * 1000000000 / rate)) by lia.
  apply i64_small. lia.
Qed.

(** [PTSFromSamples] is the exact presentation time [floor(samples * 1s / rate)]
    for every 64-bit sample count and every clock rate up to 18.4 GHz, clamped to
    what a [time.Duration] holds: it never wraps negative, it is monotone in the
    sample count, and a rate that is not positive yields 0. *)
Theorem PTSFromSamples_spec samples samples' rate :
  is_u64 samples → is_u64 samples' → rate * Second < 2 ^ 64 →
  (rate ≤ 0 → PTSFromSamples samples rate = 0) ∧
  (0 < rate → PTSFromSamples samples rate = exact_pts samples rate) ∧
  0 ≤ PTSFromSamples samples rate ≤ MaxInt64 ∧
  (samples ≤ samples' → PTSFromSamples samples rate ≤ PTSFromSamples samples' rate).
Proof.
  intros Hs Hs' Hfit. destruct (Z.leb_spec rate 0) as [Hr|Hr].
  { assert (∀ s, PTSFromSamples s rate = 0) as H0.
    { intros s. unfold PTSFromSamples. by destruct (Z.leb_spec rate 0); [|lia]. }
    rewrite !H0. split_and!; try done; lia. }
  assert (rate_fits rate) as Hrf by done. rewrite !PTSFromSamples_exact by done.
  assert (∀ s, is_u64 s → 0 ≤ exact_pts s rate ≤ maxPTSSeconds * Second) as Hrange.
  { unfold is_u64, exact_pts. intros s Hsr. destruct (Z.leb_spec maxPTSSeconds (s / rate)) as [|Hlt].
    - by vm_compute.
    - split; [apply Z.div_pos; unfold Second; lia|].
      rewrite split_seconds by lia. pose proof (Z.mod_pos_bound s rate Hr).
      assert (s mod rate * Second / rate < Second).
      { apply Z.div_lt_upper_bound; unfold Second; nia. }
      unfold Second in *. lia. }
  assert (maxPTSSeconds * Second ≤ MaxInt64) by (by vm_compute).
  pose proof (Hrange samples Hs). pose proof (Hrange samples' Hs').
  split_and!; try lia. intros Hle. unfold exact_pts.
  pose proof (Z.div_le_mono samples samples' rate Hr Hle) as Hd.
  destruct (Z.leb_spec maxPTSSeconds (samples / rate)), (Z.leb_spec maxPTSSeconds (samples' / rate)); try lia.
  - specialize (Hrange samples Hs). unfold exact_pts in Hrange.
    destruct (Z.leb_spec maxPTSSeconds (samples / rate)); lia.
  - apply Z.div_le_mono; [lia|]. unfold Second. lia.
Qed.

Lemma PTSFromSamples_spec_witness :
  PTSFromSamples (2 ^ 64 - 1) 44100 = exact_pts (2 ^ 64 - 1) 44100 ∧
  PTSFromSamples 44101 44100 = exact_pts 44101 44100.
Proof.
  split; apply (PTSFromSamples_spec _ (2 ^ 64 - 1)); by vm_compute.
Defined.

End mediatime.
