(* ===== verification/Adts.v ===== *)
(** * ADTS frame headers: [internal/adts/adts.go]

    The seven-octet fixed header parser and the two-octet AudioSpecificConfig
    synthesized from it. *)
From S2P Require Import Prelude Bytes.

Module adts.

Definition MinHeaderLen : Z := 7.
Definition CRCHeaderLen : Z := 9.
Definition SamplesPerFrame : Z := 1024.

Inductive err := ErrInvalidHeader.

Definition sampleRateHz : list Z :=
  [96000; 88200; 64000; 48000; 44100; 32000; 24000; 22050;
   16000; 12000; 11025; 8000; 7350; 0; 0; 0].

Record Header := mkHeader {
  AudioObjectType : Z;
  SampleRateIndex : Z;
  SampleRate : Z;
  ChannelConfig : Z;
  Channels : Z;
  HeaderLen : Z;
  FrameLen : Z;
  NumRawBlocks : Z;
  MPEG2 : bool
}.

Definition zero_header : Header := mkHeader 0 0 0 0 0 0 0 0 false.

Definition channelCount (cfg : Z) : Z := if cfg =? 7 then 8 else cfg.

Definition Parse (b : list Z) : res err Header :=
  if blen b <? MinHeaderLen then Err ErrInvalidHeader else
  b0 ← byte_at b 0; b1 ← byte_at b 1; b2 ← byte_at b 2; b3 ← byte_at b 3;
  b4 ← byte_at b 4; b5 ← byte_at b 5; b6 ← byte_at b 6;
  if negb (b0 =? 0xFF) || negb (Z.land b1 0xF0 =? 0xF0) then Err ErrInvalidHeader else
  if negb (Z.land b1 0x06 =? 0) then Err ErrInvalidHeader else
  let mpeg2 := negb (Z.land b1 0x08 =? 0) in
  let protectionAbsent := negb (Z.land b1 0x01 =? 0) in
  let profile := Z.land (Z.shiftr b2 6) 0x03 in
  let srIdx := Z.land (Z.shiftr b2 2) 0x0F in
  let chanCfg := Z.lor (Z.shiftl (Z.land b2 0x01) 2) (Z.land (Z.shiftr b3 6) 0x03) in
  rate ← byte_at sampleRateHz srIdx;
  if rate =? 0 then Err ErrInvalidHeader else
  if (chanCfg <? 1) || (7 <? chanCfg) then Err ErrInvalidHeader else
  let frameLen := Z.lor (Z.lor (Z.shiftl (Z.land b3 0x03) 11) (Z.shiftl b4 3)) (Z.shiftr b5 5) in
  let headerLen := if negb protectionAbsent then CRCHeaderLen else MinHeaderLen in
  if frameLen <=? headerLen then Err ErrInvalidHeader else
  mret (mkHeader (profile + 1) srIdx rate chanCfg (channelCount chanCfg) headerLen frameLen
          (Z.land b6 0x03) mpeg2).

Definition AudioSpecificConfig (h : Header) : list Z :=
  let asc := Z.lor (Z.lor (u16 (Z.shiftl (u16 (AudioObjectType h)) 11))
                          (u16 (Z.shiftl (u16 (SampleRateIndex h)) 7)))
                   (u16 (Z.shiftl (u16 (ChannelConfig h)) 3)) in
  [u8 (Z.shiftr asc 8); u8 asc].

(** ** What an accepted header says *)
Record header_ok (h : Header) : Prop := {
  hk_aot : 1 ≤ AudioObjectType h ≤ 4;
  hk_idx : 0 ≤ SampleRateIndex h ≤ 12;
  hk_rate : sampleRateHz !! Z.to_nat (SampleRateIndex h) = Some (SampleRate h);
  hk_rate_pos : 7350 ≤ SampleRate h ≤ 96000;
  hk_cfg : 1 ≤ ChannelConfig h ≤ 7;
  hk_chan : Channels h = if ChannelConfig h =? 7 then 8 else ChannelConfig h;
  hk_hlen : HeaderLen h = MinHeaderLen ∨ HeaderLen h = CRCHeaderLen;
  hk_flen : HeaderLen h < FrameLen h < 2 ^ 13;
  hk_blocks : 0 ≤ NumRawBlocks h ≤ 3
}.

(** The fields of the header the parser reads past: the private bit, the four bits
    original/copy, home, copyright identification and copyright start, and the
    eleven-bit buffer fullness. *)
Record Ignored := mkIgnored { ig_private : bool; ig_copy : Z; ig_fullness : Z }.

Definition ignored_ok (g : Ignored) : Prop :=
  0 ≤ ig_copy g < 2 ^ 4 ∧ 0 ≤ ig_fullness g < 2 ^ 11.

Definition no_ignored : Ignored := mkIgnored false 0 0.

(** The header, all of its fields in seven octets, laid out as ISO 14496-3 does:
    whatever a sender puts in the ignored ones. *)
Definition encode (g : Ignored) (h : Header) : list Z :=
  let pa := if HeaderLen h =? MinHeaderLen then 1 else 0 in
  [0xFF;
   0xF0 + (if MPEG2 h then 8 else 0) + pa;
   (AudioObjectType h - 1) * 64 + SampleRateIndex h * 4 + (if ig_private g then 2 else 0) + ChannelConfig h / 4;
   ChannelConfig h mod 4 * 64 + ig_copy g * 4 + FrameLen h / 2 ^ 11;
   FrameLen h / 2 ^ 3 mod 256;
   FrameLen h mod 8 * 32 + ig_fullness g / 2 ^ 6;
   ig_fullness g mod 2 ^ 6 * 4 + NumRawBlocks h].

Lemma byte_fields b : is_u8 b →
  (0 ≤ Z.land (Z.shiftr b 6) 3 ≤ 3) ∧ (0 ≤ Z.land (Z.shiftr b 2) 15 ≤ 15) ∧
  (0 ≤ Z.land b 1 ≤ 1) ∧ (0 ≤ Z.land b 3 ≤ 3) ∧ (0 ≤ Z.shiftr b 5 < 8).
Proof.
  intros Hb. pose (P := λ b, (0 <=? Z.land (Z.shiftr b 6) 3) && (Z.land (Z.shiftr b 6) 3 <=? 3)
    && (0 <=? Z.land (Z.shiftr b 2) 15) && (Z.land (Z.shiftr b 2) 15 <=? 15)
    && (0 <=? Z.land b 1) && (Z.land b 1 <=? 1) && (0 <=? Z.land b 3) && (Z.land b 3 <=? 3)
    && (0 <=? Z.shiftr b 5) && (Z.shiftr b 5 <? 8)).
  assert (P b = true) as H by (apply byte_forall; [by vm_compute | done]).
  unfold P in H. breflect. lia.
Qed.

Lemma rate_table i r :
  byte_at (E:=err) sampleRateHz i = Ok r → r ≠ 0 → 0 ≤ i ≤ 12 ∧ 7350 ≤ r ≤ 96000.
Proof.
  intros H Hr. destruct (byte_at_ok_inv _ _ _ H) as [Hi Hl].
  change (blen sampleRateHz) with 16 in Hi.
  pose (P := λ i, match sampleRateHz !! Z.to_nat i with
    | Some r => (r =? 0) || ((i <=? 12) && (7350 <=? r) && (r <=? 96000)) | None => false end).
  assert (P i = true) as K by (apply (range_forall 16); [by vm_compute|lia]).
  unfold P in K. rewrite Hl in K. apply orb_true_iff in K as [K|K]; breflect; lia.
Qed.

Lemma frame_len_sum b3 b4 b5 : is_u8 b4 → is_u8 b5 → 0 ≤ b3 ≤ 3 →
  Z.lor (Z.lor (Z.shiftl b3 11) (Z.shiftl b4 3)) (Z.shiftr b5 5) =
  b3 * 2 ^ 11 + b4 * 2 ^ 3 + Z.shiftr b5 5.
Proof.
  intros H4 H5 H3. destruct (byte_fields b5 H5) as (_ & _ & _ & _ & Hb5). unfold is_u8 in *.
  rewrite (lor_shiftl_add 11) by (rewrite ?Z.shiftl_mul_pow2; lia).
  rewrite Z.shiftl_mul_pow2 by lia.
  replace (b3 * 2 ^ 11 + b4 * 2 ^ 3) with (Z.shiftl (b3 * 2 ^ 8 + b4) 3)
    by (rewrite Z.shiftl_mul_pow2; lia).
  rewrite lor_shiftl_add by lia. rewrite Z.shiftl_mul_pow2; lia.
Qed.

Lemma Parse_no_panic b : bytes_ok b → Parse b ≠ Panic.
Proof.
  intros Hok. unfold Parse, MinHeaderLen. no_panic; try lia.
  match goal with H : byte_at b 2 = Ok ?x |- _ =>
    apply byte_at_range, byte_fields in H; [|done] end.
  change (blen sampleRateHz) with 16. lia.
Qed.

Lemma Parse_ok b h : bytes_ok b → Parse b = Ok h →
  header_ok h ∧ MinHeaderLen ≤ blen b ∧
  ∃ b0 b1, byte_at (E:=err) b 0 = Ok b0 ∧ byte_at (E:=err) b 1 = Ok b1 ∧
    b0 = 0xFF ∧ Z.land b1 0xF6 = 0xF0.
Proof.
  intros Hok H. unfold Parse in H.
  destruct (Z.ltb_spec (blen b) MinHeaderLen) as [|Hlen]; [done|].
  apply bind_ok_inv in H as (b0 & B0 & H). apply bind_ok_inv in H as (b1 & B1 & H).
  apply bind_ok_inv in H as (b2 & B2 & H). apply bind_ok_inv in H as (b3 & B3 & H).
  apply bind_ok_inv in H as (b4 & B4 & H). apply bind_ok_inv in H as (b5 & B5 & H).
  apply bind_ok_inv in H as (b6 & B6 & H).
  destruct (_ || _) eqn:Hsync in H; [done|]. breflect.
  destruct (negb (Z.land b1 6 =? 0)) eqn:Hlay; [done|]. breflect.
  cbv zeta in H. apply bind_ok_inv in H as (rate & Hrate & H).
  destruct (Z.eqb_spec rate 0); [done|].
  destruct (_ || _) eqn:Hcfg in H; [done|]. breflect.
  destruct (Z.leb_spec (Z.lor (Z.lor (Z.shiftl (Z.land b3 3) 11) (Z.shiftl b4 3)) (Z.shiftr b5 5))
    (if negb (negb (Z.land b1 1 =? 0)) then CRCHeaderLen else MinHeaderLen)); [done|].
  injection H as <-.
  pose proof (byte_at_range _ _ _ Hok B1) as R1. pose proof (byte_at_range _ _ _ Hok B2) as R2.
  pose proof (byte_at_range _ _ _ Hok B3) as R3. pose proof (byte_at_range _ _ _ Hok B4) as R4.
  pose proof (byte_at_range _ _ _ Hok B5) as R5. pose proof (byte_at_range _ _ _ Hok B6) as R6.
  destruct (byte_fields b2 R2) as (P1 & P2 & _). destruct (byte_fields b3 R3) as (_ & _ & _ & P3 & _).
  destruct (byte_fields b6 R6) as (_ & _ & _ & P6 & _). destruct (byte_fields b5 R5) as (_ & _ & _ & _ & P5).
  destruct (rate_table _ _ Hrate ltac:(done)) as [Q1 Q2].
  apply byte_at_ok_inv in Hrate as [_ Hrate].
  split; [|split; [lia|]].
  - split; cbn [AudioObjectType SampleRateIndex SampleRate ChannelConfig Channels HeaderLen FrameLen NumRawBlocks];
      try lia; try done.
    + destruct (negb (negb _)); [by right|by left].
    + rewrite frame_len_sum in * by (done || lia). unfold is_u8 in R4. lia.
  - exists b0, b1. split_and!; [done..|].
    pose (P := λ b, negb ((Z.land b 0xF0 =? 0xF0) && (Z.land b 6 =? 0)) || (Z.land b 0xF6 =? 0xF0)).
    assert (P b1 = true) as K by (apply byte_forall; [by vm_compute | done]).
    unfold P in K. replace (Z.land b1 0xF0) with 0xF0 in K by done. rewrite Hlay in K. cbn in K. by breflect.
Qed.

(** The parser reads the fixed header only: bytes after it do not matter. *)
Lemma Parse_prefix b rest : MinHeaderLen ≤ blen b → Parse (b ++ rest) = Parse b.
Proof.
  intros Hl. unfold Parse. rewrite blen_app. pose proof (blen_nonneg rest). unfold MinHeaderLen in *.
  destruct (Z.ltb_spec (blen b + blen rest) 7); [lia|]. destruct (Z.ltb_spec (blen b) 7); [lia|].
  rewrite !byte_at_app_l by lia. done.
Qed.

(** ** The encoder is a right inverse *)
Lemma encode_bytes_ok g h : ignored_ok g → header_ok h → bytes_ok (encode g h).
Proof.
  intros [? ?] [? ? _ _ ? _ Hh ? ?]. unfold encode, MinHeaderLen, CRCHeaderLen in *.
  repeat constructor; unfold is_u8; try (destruct Hh as [-> | ->], (MPEG2 h); cbn; lia); try destruct (ig_private g);
    Z.div_mod_to_equations; lia.
Qed.

Lemma encode_b2 aot idx cfg (pv : bool) : 1 ≤ aot ≤ 4 → 0 ≤ idx ≤ 12 → 1 ≤ cfg ≤ 7 →
  let b2 := (aot - 1) * 64 + idx * 4 + (if pv then 2 else 0) + cfg / 4 in
  Z.land (Z.shiftr b2 6) 3 = aot - 1 ∧ Z.land (Z.shiftr b2 2) 15 = idx ∧ Z.land b2 1 = cfg / 4.
Proof.
  intros ??? b2. subst b2.
  rewrite (land_ones_mod 2 _ 3), (land_ones_mod 4 _ 15), (land_ones_mod 1 _ 1),
    !Z.shiftr_div_pow2 by done.
  change (2 ^ 6) with 64. change (2 ^ 2) with 4. change (2 ^ 4) with 16. change (2 ^ 1) with 2.
  destruct pv; Z.div_mod_to_equations; lia.
Qed.

Lemma encode_b3 cfg cp fl : 1 ≤ cfg ≤ 7 → 0 ≤ cp < 2 ^ 4 → 0 ≤ fl < 2 ^ 13 →
  let b3 := cfg mod 4 * 64 + cp * 4 + fl / 2 ^ 11 in
  Z.land (Z.shiftr b3 6) 3 = cfg mod 4 ∧ Z.land b3 3 = fl / 2 ^ 11.
Proof.
  intros ??? b3. subst b3.
  rewrite !(land_ones_mod 2 _ 3), !Z.shiftr_div_pow2 by done.
  change (2 ^ 6) with 64. change (2 ^ 2) with 4. change (2 ^ 11) with 2048.
  Z.div_mod_to_equations. lia.
Qed.

Lemma encode_cfg cfg : 1 ≤ cfg ≤ 7 → Z.lor (Z.shiftl (cfg / 4) 2) (cfg mod 4) = cfg.
Proof.
  intros. rewrite lor_shiftl_add by (try lia; Z.div_mod_to_equations; lia).
  Z.div_mod_to_equations. lia.
Qed.

Lemma encode_flen fl fu : 0 ≤ fl < 2 ^ 13 → 0 ≤ fu < 2 ^ 11 →
  Z.lor (Z.lor (Z.shiftl (fl / 2 ^ 11) 11) (Z.shiftl (fl / 2 ^ 3 mod 256) 3))
    (Z.shiftr (fl mod 8 * 32 + fu / 2 ^ 6) 5) = fl.
Proof.
  intros. rewrite frame_len_sum by (unfold is_u8; Z.div_mod_to_equations; lia).
  rewrite Z.shiftr_div_pow2 by lia. Z.div_mod_to_equations. lia.
Qed.

Lemma bytes7 l a b c d e f g : l = [a; b; c; d; e; f; g] →
  byte_at (E:=err) l 0 = Ok a ∧ byte_at (E:=err) l 1 = Ok b ∧ byte_at (E:=err) l 2 = Ok c ∧
  byte_at (E:=err) l 3 = Ok d ∧ byte_at (E:=err) l 4 = Ok e ∧ byte_at (E:=err) l 5 = Ok f ∧
  byte_at (E:=err) l 6 = Ok g.
Proof. by intros ->. Qed.

Lemma Parse_encode g h : ignored_ok g → header_ok h → Parse (encode g h) = Ok h.
Proof.
  destruct g as [pv cp fu]. intros [Hcp Hfu] [Haot Hidx Hrate Hrp Hcfg Hch Hh Hfl Hnb].
  destruct h as [aot idx rate cfg ch hl fl nb m2]. cbn [AudioObjectType SampleRateIndex
    SampleRate ChannelConfig Channels HeaderLen FrameLen NumRawBlocks MPEG2] in *.
  destruct (encode_b2 aot idx cfg pv Haot Hidx Hcfg) as (E1 & E2 & E3).
  assert (0 ≤ fl < 2 ^ 13) as Hfl' by (unfold MinHeaderLen, CRCHeaderLen in Hh; lia).
  destruct (encode_b3 cfg cp fl Hcfg Hcp Hfl') as (E4 & E5).
  assert (Z.land (fu mod 2 ^ 6 * 4 + nb) 3 = nb) as E6.
  { rewrite (land_ones_mod 2 _ 3) by done. change (2 ^ 2) with 4. Z.div_mod_to_equations. lia. }
  set (b1 := 0xF0 + (if m2 then 8 else 0) + (if hl =? MinHeaderLen then 1 else 0)).
  assert (negb (Z.land b1 0xF0 =? 0xF0) = false ∧ negb (Z.land b1 6 =? 0) = false ∧
    negb (Z.land b1 8 =? 0) = m2 ∧
    (if negb (negb (Z.land b1 1 =? 0)) then CRCHeaderLen else MinHeaderLen) = hl) as (F1 & F2 & F3 & F4).
  { subst b1. by destruct Hh as [-> | ->], m2; vm_compute. }
  unfold Parse, encode. cbn [AudioObjectType SampleRateIndex
    SampleRate ChannelConfig Channels HeaderLen FrameLen NumRawBlocks MPEG2 ig_private ig_copy ig_fullness]. fold b1.
  change (blen _ <? MinHeaderLen) with false. cbv iota.
  match goal with |- context [byte_at ?l 0] =>
    destruct (bytes7 l _ _ _ _ _ _ _ eq_refl) as (-> & -> & -> & -> & -> & -> & ->) end.
  rewrite !bind_Ok.
  change (negb (255 =? 255)) with false. rewrite F1. cbn [orb]. rewrite F2.
  rewrite E2. unfold byte_at at 1. destruct (Z.ltb_spec idx 0); [lia|]. rewrite Hrate, bind_Ok.
  destruct (Z.eqb_spec rate 0); [lia|].
  rewrite E3, E4, encode_cfg by done.
  destruct (Z.ltb_spec cfg 1); [lia|]. destruct (Z.ltb_spec 7 cfg); [lia|]. cbn [orb].
  rewrite E5, encode_flen, F4 by done. destruct (Z.leb_spec fl hl); [lia|].
  rewrite F3, E1, E6. unfold channelCount. rewrite <- Hch. do 2 f_equal. lia.
Qed.

(** The ADTS header parser never panics; a header it accepts starts with the
    syncword and has a valid object type, rate, channel layout and a frame length
    between the header's length and 8191; and it reads back every well-formed
    header from the seven octets ISO 14496-3 lays it out in, whatever the octets say
    in the fields it reads past and whatever follows. *)
Theorem Parse_correct b h rest :
  bytes_ok b →
  Parse b ≠ Panic ∧
  (Parse b = Ok h → header_ok h ∧ MinHeaderLen ≤ blen b) ∧
  (∀ g, ignored_ok g → header_ok h → Parse (encode g h ++ rest) = Ok h).
Proof.
  intros Hok. split_and!; [by apply Parse_no_panic | |].
  - intros Hp. destruct (Parse_ok _ _ Hok Hp) as (? & ? & _). done.
  - intros g Hg Hh. by rewrite Parse_prefix, Parse_encode.
Qed.

Lemma Parse_correct_witness :
  Parse [0xFF; 0xF1; 0x50; 0x80; 0x02; 0x7F; 0xFC; 0x21] ≠ Panic ∧
  Parse (encode (mkIgnored true 9 0x7FF) (mkHeader 2 4 44100 2 2 7 500 0 false) ++ [1; 2; 3]) =
    Ok (mkHeader 2 4 44100 2 2 7 500 0 false).
Proof.
  split.
  - apply (Parse_correct _ zero_header []). repeat constructor; by vm_compute.
  - apply (Parse_correct [] (mkHeader 2 4 44100 2 2 7 500 0 false) [1; 2; 3]); [constructor|by split|].
    split; cbn; try lia; try done; try by left.
Defined.

(** The two octets carry the object type (5 bits), the rate index (4), the channel
    configuration (4) and three zero bits (GASpecificConfig). *)
Lemma AudioSpecificConfig_fields h : header_ok h →
  AudioSpecificConfig h =
    be_split 2 ((((AudioObjectType h * 16) + SampleRateIndex h) * 16 + ChannelConfig h) * 8).
Proof.
  intros [Haot Hidx _ _ Hcfg _ _ _ _]. unfold AudioSpecificConfig.
  rewrite (u16_small (AudioObjectType h)), (u16_small (SampleRateIndex h)),
    (u16_small (ChannelConfig h)) by (unfold is_u16; lia).
  rewrite !u16_small by (unfold is_u16; rewrite Z.shiftl_mul_pow2; lia).
  rewrite (lor_shiftl_add 11) by (rewrite ?Z.shiftl_mul_pow2; lia).
  rewrite Z.shiftl_mul_pow2 by lia.
  replace (AudioObjectType h * 2 ^ 11 + SampleRateIndex h * 2 ^ 7)
    with (Z.shiftl (AudioObjectType h * 2 ^ 4 + SampleRateIndex h) 7)
    by (rewrite Z.shiftl_mul_pow2; lia).
  rewrite lor_shiftl_add by (rewrite ?Z.shiftl_mul_pow2; lia).
  rewrite Z.shiftl_mul_pow2, Z.shiftr_div_pow2 by lia. unfold u8.
  cbn [be_split]. change (8 * Z.of_nat 1) with 8. change (8 * Z.of_nat 0) with 0.
  change (2 ^ 8) with 256. change (2 ^ 0) with 1. rewrite Z.div_1_r. do 2 f_equal; f_equal; lia.
Qed.

End adts.
