(* ===== verification/Framer.v ===== *)
(** * The framer interface: [httpsource/framer.go], [compressedFramer]

    What a compressed-stream framer promises the reader loop that drives it, as a
    typeclass of operations ([Framer]) and a typeclass of laws ([FramerLaws]).
    [adtsframe.Stream] and [mp3Stream] are the two instances; the reader loops of
    the HTTP and HLS sources are verified against this interface only. *)
From S2P Require Import Prelude Bytes.

Module framer.

(** One iteration of a framer's [NextFrame] loop. *)
Inductive step_result (S : Type) :=
  | Continue (s : S)
  | Deliver (data : list Z) (dur : Z) (s : S)
  | Wait (s : S).
Arguments Continue {S} s.
Arguments Deliver {S} data dur s.
Arguments Wait {S} s.

Class Framer (S : Type) := {
  Feed : list Z → S → S;
  next_step : S → res no_err (step_result S);
  next_fuel : S → nat;
  Compact : S → S;
  SetEOF : S → S;
  Finish : S → S;
  GapCount : S → Z;
}.

(** [NextFrame]: the loop over [next_step].  Fuel exhaustion is a [Panic], so a
    theorem that it does not panic is also a proof that it terminates. *)
Fixpoint next_loop {S} `{Framer S} (fuel : nat) (s : S) : res no_err (option (list Z * Z) * S) :=
  match fuel with
  | O => Panic
  | Datatypes.S fuel =>
      r ← next_step s;
      match r with
      | Continue s' => next_loop fuel s'
      | Deliver d dur s' => mret (Some (d, dur), s')
      | Wait s' => mret (None, s')
      end
  end.

Definition NextFrame {S} `{Framer S} (s : S) : res no_err (option (list Z * Z) * S) :=
  next_loop (next_fuel s) s.

(** The loop of [drainCompressed] and of [tsDemux.feed]: every whole frame, in
    order. *)
Fixpoint drain_loop {S} `{Framer S} (fuel : nat) (s : S) : res no_err (list (list Z * Z) * S) :=
  match fuel with
  | O => Panic
  | Datatypes.S fuel =>
      '(o, s') ← NextFrame s;
      match o with
      | None => mret ([], s')
      | Some f => '(fs, s'') ← drain_loop fuel s'; mret (f :: fs, s'')
      end
  end.

Definition drain {S} `{Framer S} (s : S) : res no_err (list (list Z * Z) * S) :=
  drain_loop (next_fuel s) s.

(** A reader loop's calls on its framer: every read is fed and drained, then the
    buffer is compacted; at the end of the stream one more drain, then [Finish]. *)
Fixpoint feed_all {S} `{Framer S} (chunks : list (list Z)) (s : S) : res no_err (list (list Z * Z) * S) :=
  match chunks with
  | [] => mret ([], s)
  | c :: chunks =>
      '(fs, s') ← drain (Feed c s);
      '(gs, s'') ← feed_all chunks (Compact s');
      mret (fs ++ gs, s'')
  end.

Lemma feed_all_app {S} `{Framer S} cs ds (s : S) :
  feed_all (cs ++ ds) s =
  '(fs, s') ← feed_all cs s; '(gs, s'') ← feed_all ds s'; mret (fs ++ gs, s'').
Proof.
  revert s. induction cs as [|c cs IH]; intros s; cbn [app feed_all].
  { rewrite bind_ret. cbv beta iota. by destruct (feed_all ds s) as [[? ?]|e|]. }
  destruct (drain (Feed c s)) as [[fs s1]|e|]; [|done..]. rewrite !bind_Ok. cbv beta iota. rewrite IH.
  destruct (feed_all cs (Compact s1)) as [[gs s2]|e|]; [|done..].
  rewrite !bind_Ok, bind_ret. cbv beta iota.
  destruct (feed_all ds s2) as [[hs s3]|e|]; [|done..]. rewrite !bind_Ok. cbv beta iota.
  by rewrite <- app_assoc.
Qed.

Definition frame_stream {S} `{Framer S} (chunks : list (list Z)) (s : S) : res no_err (list (list Z * Z) * S) :=
  '(fs, s') ← feed_all chunks s;
  '(gs, s'') ← drain (SetEOF s');
  mret (fs ++ gs, Finish (Compact s'')).

(** ** The cut of a byte stream into delivered pieces *)

(** [cut stream outs rest]: [outs] are disjoint consecutive pieces of [stream],
    in order, and [rest] is the suffix not consumed yet; what lies between the
    pieces was discarded. *)
Inductive cut : list Z → list (list Z) → list Z → Prop :=
  | cut_skip pre rest : cut (pre ++ rest) [] rest
  | cut_piece pre d st outs rest : cut st outs rest → cut (pre ++ d ++ st) (d :: outs) rest.

Lemma cut_refl st : cut st [] st.
Proof. apply (cut_skip []). Qed.

Lemma cut_drop pre st outs rest : cut st outs rest → cut (pre ++ st) outs rest.
Proof.
  destruct 1 as [p r|p d st outs rest H]; rewrite app_assoc; by constructor.
Qed.

Lemma cut_extend st outs rest p : cut st outs rest → cut (st ++ p) outs (rest ++ p).
Proof.
  induction 1 as [pre r|pre d st outs rest _ IH]; rewrite <- !app_assoc; by constructor.
Qed.

Lemma cut_trans st o1 r1 o2 r2 : cut st o1 r1 → cut r1 o2 r2 → cut st (o1 ++ o2) r2.
Proof.
  induction 1 as [pre r|pre d st outs rest _ IH]; intros H2; cbn [app].
  - by apply cut_drop.
  - constructor. by apply IH.
Qed.

Lemma cut_length st outs rest :
  cut st outs rest → blen (concat outs) + blen rest ≤ blen st.
Proof. induction 1; cbn [concat]; blia. Qed.

(** A discard counter went from [g] to [g'] while [k] bytes left the backlog: every
    discard event drops at least one byte. *)
Definition counted (k g g' : Z) : Prop := ∃ n, 0 ≤ n ≤ k ∧ g' = u64 (g + n).

Lemma counted_refl k g : is_u64 g → 0 ≤ k → counted k g g.
Proof. exists 0. rewrite Z.add_0_r, u64_small by done. lia. Qed.

Lemma counted_once k g : 0 < k → counted k g (u64 (g + 1)).
Proof. exists 1. lia. Qed.

Lemma u64_add_l a b : u64 (u64 a + b) = u64 (a + b).
Proof. unfold u64. apply Z.add_mod_idemp_l. lia. Qed.

Lemma counted_trans k1 k2 g g' g'' k :
  counted k1 g g' → counted k2 g' g'' → k1 + k2 ≤ k → counted k g g''.
Proof.
  intros (n & Hn & ->) (m & Hm & ->) Hk. exists (n + m). split; [lia|].
  rewrite u64_add_l. f_equal. lia.
Qed.

(** ** The laws *)
Class FramerLaws (S : Type) `{Framer S} := {
  wf : S → Prop;
  backlog : S → list Z;
  buffered : S → Z;                     (** bytes held in memory *)
  max_wait : Z;                         (** a bound on what waiting keeps *)
  wf_next : ∀ s, wf s → ∃ r, next_step s = Ok r ∧
    match r with
    | Continue s' => wf s' ∧ (next_fuel s' < next_fuel s)%nat ∧ cut (backlog s) [] (backlog s')
    | Deliver d dur s' => wf s' ∧ (next_fuel s' < next_fuel s)%nat ∧ 0 < dur ∧ 0 < blen d ∧
        cut (backlog s) [d] (backlog s')
    | Wait s' => wf s' ∧ cut (backlog s) [] (backlog s') ∧ blen (backlog s') ≤ max_wait
    end ∧
    match r with Continue s' | Deliver _ _ s' | Wait s' =>
      counted (blen (backlog s) - blen (backlog s')) (GapCount s) (GapCount s') end;
  wf_feed : ∀ s p, wf s → bytes_ok p → wf (Feed p s) ∧
    backlog (Feed p s) = backlog s ++ p ∧ buffered (Feed p s) = buffered s + blen p ∧
    GapCount (Feed p s) = GapCount s;
  wf_compact : ∀ s, wf s → wf (Compact s) ∧ backlog (Compact s) = backlog s ∧
    buffered (Compact s) = blen (backlog s) ∧ GapCount (Compact s) = GapCount s;
  wf_eof : ∀ s, wf s → wf (SetEOF s) ∧ backlog (SetEOF s) = backlog s ∧
    GapCount (SetEOF s) = GapCount s;
  wf_finish : ∀ s, wf s → wf (Finish s) ∧
    GapCount (Finish s) = u64 (GapCount s + (if blen (backlog s) =? 0 then 0 else 1));
  wf_gap : ∀ s, wf s → is_u64 (GapCount s);
  wf_fuel : ∀ s, (0 < next_fuel s)%nat;
}.

(** ** What the laws give a reader loop *)
Section laws.
Context {S : Type} `{FramerLaws S}.

Lemma next_loop_ok fuel s :
  wf s → (next_fuel s ≤ fuel)%nat → ∃ o s', next_loop fuel s = Ok (o, s') ∧ wf s' ∧
    counted (blen (backlog s) - blen (backlog s')) (GapCount s) (GapCount s') ∧
    match o with
    | None => cut (backlog s) [] (backlog s') ∧ blen (backlog s') ≤ max_wait
    | Some (d, dur) => (next_fuel s' < next_fuel s)%nat ∧ 0 < dur ∧ 0 < blen d ∧
        cut (backlog s) [d] (backlog s')
    end.
Proof.
  revert s. induction fuel as [|fuel IH]; intros s Hwf Hf; [pose proof (wf_fuel s); lia|].
  cbn [next_loop]. destruct (wf_next s Hwf) as ([s'|d dur s'|s'] & -> & Hr & Hg); rewrite bind_Ok.
  - destruct Hr as (Hwf' & Hlt & Hcut).
    destruct (IH s' Hwf' ltac:(lia)) as (o & s'' & -> & Hwf'' & Hg' & Ho).
    exists o, s''. split_and!; [done..|eapply counted_trans; [done|done|lia]|].
    destruct o as [[d dur]|]; destruct_and!; split_and!; try done; try lia;
      by apply (cut_trans _ [] _ _ _ Hcut).
  - exists (Some (d, dur)), s'. destruct_and!. split_and!; done.
  - exists None, s'. destruct_and!. split_and!; done.
Qed.

Lemma NextFrame_ok s :
  wf s → ∃ o s', NextFrame s = Ok (o, s') ∧ wf s' ∧ counted (blen (backlog s) - blen (backlog s')) (GapCount s) (GapCount s') ∧
    match o with
    | None => cut (backlog s) [] (backlog s') ∧ blen (backlog s') ≤ max_wait
    | Some (d, dur) => (next_fuel s' < next_fuel s)%nat ∧ 0 < dur ∧ 0 < blen d ∧
        cut (backlog s) [d] (backlog s')
    end.
Proof. intros Hwf. by apply next_loop_ok. Qed.

(** Draining terminates, delivers pieces of the backlog in order, each with a
    positive duration, and leaves at most [max_wait] bytes. *)
Lemma drain_loop_ok fuel s :
  wf s → (next_fuel s ≤ fuel)%nat → ∃ fs s', drain_loop fuel s = Ok (fs, s') ∧ wf s' ∧
    counted (blen (backlog s) - blen (backlog s')) (GapCount s) (GapCount s') ∧ cut (backlog s) (fs.*1) (backlog s') ∧
    Forall (λ f, 0 < f.2 ∧ 0 < blen f.1) fs ∧ blen (backlog s') ≤ max_wait.
Proof.
  revert s. induction fuel as [|fuel IH]; intros s Hwf Hf; [pose proof (wf_fuel s); lia|].
  cbn [drain_loop]. destruct (NextFrame_ok s Hwf) as ([[d dur]|] & s' & -> & Hwf' & Hg & Ho);
    rewrite bind_Ok; cbv beta iota.
  - destruct Ho as (Hlt & Hdur & Hd & Hcut).
    destruct (IH s' Hwf' ltac:(lia)) as (fs & s'' & -> & Hwf'' & Hg' & Hcut' & Hall & Hb).
    exists ((d, dur) :: fs), s''. split_and!; [done|done|eapply counted_trans; [done|done|lia]| |by constructor|done].
    by apply (cut_trans _ [d] _ _ _ Hcut).
  - destruct Ho as [Hcut Hb]. exists [], s'. by split_and!.
Qed.

Lemma drain_ok s :
  wf s → ∃ fs s', drain s = Ok (fs, s') ∧ wf s' ∧
    counted (blen (backlog s) - blen (backlog s')) (GapCount s) (GapCount s') ∧ cut (backlog s) (fs.*1) (backlog s') ∧
    Forall (λ f, 0 < f.2 ∧ 0 < blen f.1) fs ∧ blen (backlog s') ≤ max_wait.
Proof. intros Hwf. by apply drain_loop_ok. Qed.
End laws.

(** Whatever is fed and in whatever chunks, the loop never panics and always
    terminates; the frames it delivers are disjoint pieces of the stream in order;
    and the bytes in memory stay within [max_wait] plus one chunk. *)
Section laws2.
Context {S : Type} `{FramerLaws S}.

Lemma feed_all_ok chunks s :
  wf s → Forall bytes_ok chunks → ∃ fs s', feed_all chunks s = Ok (fs, s') ∧ wf s' ∧
    cut (backlog s ++ concat chunks) (fs.*1) (backlog s') ∧
    Forall (λ f, 0 < f.2 ∧ 0 < blen f.1) fs ∧
    (buffered s ≤ max_wait → buffered s' ≤ max_wait) ∧
    counted (blen (backlog s ++ concat chunks) - blen (backlog s')) (GapCount s) (GapCount s').
Proof.
  revert s. induction chunks as [|c chunks IH]; intros s Hwf Hok.
  { exists [], s. cbn [concat]. rewrite app_nil_r. split_and!; try done; [apply cut_refl|].
    apply counted_refl; [by apply wf_gap|lia]. }
  apply Forall_cons_iff in Hok as [Hc Hok]. cbn [feed_all].
  destruct (wf_feed s c Hwf Hc) as (Hwf1 & Hb1 & Hbuf1 & Hg1).
  destruct (drain_ok _ Hwf1) as (fs & s1 & -> & Hwf2 & Hg2 & Hcut2 & Hall & Hle).
  rewrite bind_Ok; cbv beta iota.
  destruct (wf_compact s1 Hwf2) as (Hwf3 & Hb3 & Hbuf3 & Hg3).
  destruct (IH _ Hwf3 Hok) as (gs & s2 & -> & Hwf4 & Hcut4 & Hall4 & Hbuf4 & Hg4).
  rewrite bind_Ok; cbv beta iota. exists (fs ++ gs), s2. rewrite Hb1, Hb3, Hg1, Hg3 in *.
  rewrite fmap_app. cbn [concat]. rewrite (app_assoc (backlog s)). split_and!; try done.
  - eapply cut_trans; [by apply cut_extend|done].
  - by apply Forall_app.
  - intros _. apply Hbuf4. lia.
  - eapply counted_trans; [exact Hg2|exact Hg4|]. blia.
Qed.

Lemma frame_stream_ok chunks s :
  wf s → Forall bytes_ok chunks → ∃ fs s', frame_stream chunks s = Ok (fs, s') ∧ wf s' ∧
    (∃ rest, cut (backlog s ++ concat chunks) (fs.*1) rest ∧ blen rest ≤ max_wait) ∧
    Forall (λ f, 0 < f.2 ∧ 0 < blen f.1) fs ∧
    counted (blen (backlog s ++ concat chunks)) (GapCount s) (GapCount s').
Proof.
  intros Hwf Hok. unfold frame_stream.
  destruct (feed_all_ok chunks s Hwf Hok) as (fs & s1 & -> & Hwf1 & Hcut1 & Hall1 & _ & Hg1).
  rewrite bind_Ok; cbv beta iota.
  destruct (wf_eof s1 Hwf1) as (Hwf2 & Hb2 & Hg2).
  destruct (drain_ok _ Hwf2) as (gs & s2 & -> & Hwf3 & Hg3 & Hcut3 & Hall3 & Hle3).
  rewrite bind_Ok; cbv beta iota.
  destruct (wf_compact s2 Hwf3) as (Hwf4 & Hb4 & _ & Hg4).
  destruct (wf_finish _ Hwf4) as (Hwf5 & Hg5). rewrite Hb2, Hg2, Hb4, Hg4 in *.
  eexists _, _. split; [done|]. split_and!; [done| |by apply Forall_app|].
  - exists (backlog s2). split; [|done]. rewrite fmap_app. by eapply cut_trans.
  - pose proof (blen_nonneg (backlog s2)). rewrite Hg5.
    apply (counted_trans (blen (backlog s ++ concat chunks) - blen (backlog s1))
      (blen (backlog s1)) _ (GapCount s1)); [done| |lia].
    apply (counted_trans (blen (backlog s1) - blen (backlog s2)) (blen (backlog s2)) _ (GapCount s2));
      [done| |lia].
    exists (if blen (backlog s2) =? 0 then 0 else 1). split; [|done].
    destruct (Z.eqb_spec (blen (backlog s2)) 0); lia.
Qed.
End laws2.

(** ** A framer run as a step relation

    [run s fs s']: iterating [next_step] from [s] delivers [fs] and then waits in
    [s'].  An instance proves its own functional properties about [run], and
    [drain_run] transfers them to the loops. *)
Inductive run {S} `{Framer S} : S → list (list Z * Z) → S → Prop :=
  | run_wait s s' : next_step s = Ok (Wait s') → run s [] s'
  | run_continue s s' fs s'' : next_step s = Ok (Continue s') → run s' fs s'' → run s fs s''
  | run_deliver s d dur s' fs s'' :
      next_step s = Ok (Deliver d dur s') → run s' fs s'' → run s ((d, dur) :: fs) s''.

Section runs.
Context {S : Type} `{FramerLaws S}.

Lemma run_wf s fs s' : wf s → run s fs s' → wf s'.
Proof.
  intros Hwf. induction 1 as [s s' E|s s1 fs s' E _ IH|s d dur s1 fs s' E _ IH];
    destruct (wf_next s Hwf) as (r & E' & Hr & _); rewrite E in E'; injection E' as <-;
    destruct_and!; auto.
Qed.

(** The first delivery of a run is what [NextFrame] returns. *)
Lemma next_loop_run s fs s' : wf s → run s fs s' → ∀ fuel, (next_fuel s ≤ fuel)%nat →
  match fs with
  | [] => next_loop fuel s = Ok (None, s')
  | f :: fs' => ∃ s1, next_loop fuel s = Ok (Some f, s1) ∧ wf s1 ∧
      (next_fuel s1 < next_fuel s)%nat ∧ run s1 fs' s'
  end.
Proof.
  intros Hwf Hrun. induction Hrun as [s s' E|s s1 fs s' E Hr IH|s d dur s1 fs s' E Hr IH];
    intros [|fuel] Hf; try (pose proof (wf_fuel s); lia); cbn [next_loop]; rewrite E, bind_Ok;
    destruct (wf_next s Hwf) as (r & E' & Hw & _); rewrite E in E'; injection E' as <-.
  - done.
  - destruct Hw as (Hw & Hlt & _). specialize (IH Hw fuel ltac:(lia)).
    destruct fs as [|f fs]; [done|]. destruct IH as (s2 & ? & ? & ? & ?).
    exists s2. split_and!; [done..|lia|done].
  - destruct Hw as (Hw & Hlt & _). exists s1. by split_and!.
Qed.

Lemma drain_loop_run fs : ∀ s s', wf s → run s fs s' → ∀ fuel, (next_fuel s ≤ fuel)%nat →
  drain_loop fuel s = Ok (fs, s').
Proof.
  induction fs as [|f fs IH]; intros s s' Hwf Hrun [|fuel] Hf;
    try (pose proof (wf_fuel s); lia); cbn [drain_loop]; unfold NextFrame;
    pose proof (next_loop_run s _ s' Hwf Hrun (next_fuel s) ltac:(lia)) as Hn; cbn [drain_loop].
  - by rewrite Hn.
  - destruct Hn as (s1 & -> & Hw & Hlt & Hr). rewrite bind_Ok. cbv beta iota.
    rewrite (IH s1 s') by (done || lia). done.
Qed.

Lemma drain_run s fs s' : wf s → run s fs s' → drain s = Ok (fs, s').
Proof. intros. by apply drain_loop_run. Qed.

(** A well-formed framer waits after finitely many steps. *)
Lemma run_total s : wf s → ∃ fs s', run s fs s'.
Proof.
  remember (next_fuel s) as n eqn:Hn. revert s Hn. induction n as [n IH] using lt_wf_ind. intros s -> Hwf.
  destruct (wf_next s Hwf) as ([s1|d dur s1|s1] & E & Hr & _).
  - destruct Hr as (Hw & Hlt & _). destruct (IH _ Hlt s1 eq_refl Hw) as (fs & s' & H'). exists fs, s'. by eapply run_continue.
  - destruct Hr as (Hw & Hlt & _). destruct (IH _ Hlt s1 eq_refl Hw) as (fs & s' & H'). eexists _, s'. by eapply run_deliver.
  - exists [], s1. by apply run_wait.
Qed.
End runs.

End framer.
