(* ===== verification/AdtsFrame.v ===== *)
(** * The ADTS framer: [internal/adtsframe/adtsframe.go]

    The resynchronizing framer shared by the progressive HTTP AAC source and the
    HLS demuxer, as an instance of the framer interface. *)
From S2P Require Import Prelude Bytes MediaTime Adts Framer.
Import framer.

Module adtsframe.

Record Stream := mkStream {
  buf : list Z;
  off : Z;
  synced : bool;
  ended : bool;
  gaps : Z;
  hdr : adts.Header
}.

Definition NewStream : Stream := mkStream [] 0 false false 0 adts.zero_header.

Definition set_off (s : Stream) (o : Z) : Stream :=
  mkStream (buf s) o (synced s) (ended s) (gaps s) (hdr s).
Definition set_synced (s : Stream) (b : bool) : Stream :=
  mkStream (buf s) (off s) b (ended s) (gaps s) (hdr s).
Definition set_hdr (s : Stream) (h : adts.Header) : Stream :=
  mkStream (buf s) (off s) (synced s) (ended s) (gaps s) h.
Definition add_gap (s : Stream) : Stream :=
  mkStream (buf s) (off s) (synced s) (ended s) (u64 (gaps s + 1)) (hdr s).

Definition Feed (p : list Z) (s : Stream) : Stream :=
  mkStream (buf s ++ p) (off s) (synced s) (ended s) (gaps s) (hdr s).

Definition Compact (s : Stream) : Stream :=
  if off s =? 0 then s
  else mkStream (drop (Z.to_nat (off s)) (buf s)) 0 (synced s) (ended s) (gaps s) (hdr s).

Definition SetEOF (s : Stream) : Stream :=
  mkStream (buf s) (off s) (synced s) true (gaps s) (hdr s).

Definition Finish (s : Stream) : Stream :=
  if 0 <? blen (buf s) - off s then add_gap s else s.

Definition GapCount (s : Stream) : Z := gaps s.

Definition discard (n : Z) (s : Stream) : Stream := add_gap (set_off s (off s + n)).

Definition dropUnsynced (remLen : Z) (s : Stream) : Stream :=
  let keep := adts.MinHeaderLen - 1 in
  if remLen <=? keep then s
  else add_gap (set_synced (set_off s (off s + (remLen - keep))) false).

(** [scanADTS]: [i] is the index of the head of [rem] in the scanned buffer. *)
Fixpoint scan_from (i : Z) (rem : list Z) : res no_err (option (Z * adts.Header)) :=
  match rem with
  | [] => mret None
  | b0 :: rest =>
      if blen rem <? adts.MinHeaderLen then mret None
      else
        b1 ← byte_at rest 0;
        if negb (b0 =? 0xFF) || negb (Z.land b1 0xF6 =? 0xF0) then scan_from (i + 1) rest
        else match adts.Parse rem with
        | Ok h => mret (Some (i, h))
        | Err _ => scan_from (i + 1) rest
        | Panic => Panic
        end
  end.

Definition scanADTS (rem : list Z) : res no_err (option (Z * adts.Header)) := scan_from 0 rem.

Definition Consistent (next : list Z) (h : adts.Header) : res no_err bool :=
  match adts.Parse next with
  | Err _ => mret false
  | Panic => Panic
  | Ok n => mret ((adts.AudioObjectType n =? adts.AudioObjectType h) &&
                  (adts.SampleRateIndex n =? adts.SampleRateIndex h) &&
                  (adts.ChannelConfig n =? adts.ChannelConfig h))
  end.

Definition frameDuration (h : adts.Header) : Z :=
  if adts.SampleRate h <=? 0 then 0
  else adts.SamplesPerFrame * mediatime.Second / adts.SampleRate h.

(** The tail of the loop body: cut the frame the header [h] describes. *)
Definition deliver (h : adts.Header) (s : Stream) : res no_err (step_result Stream) :=
  frame ← slice (buf s) (off s) (off s + adts.FrameLen h);
  let s := set_off s (off s + adts.FrameLen h) in
  if 0 <? adts.NumRawBlocks h then mret (Continue (add_gap s))
  else
    data ← slice_from frame (adts.HeaderLen h);
    mret (Deliver data (frameDuration h) (set_hdr s h)).

(** One iteration of the loop of [NextFrame]. *)
Definition next_step (s : Stream) : res no_err (step_result Stream) :=
  rem ← slice_from (buf s) (off s);
  found ← scanADTS rem;
  match found with
  | None => mret (Wait (dropUnsynced (blen rem) s))
  | Some (i, h) =>
      let s := if 0 <? i then set_synced (discard i s) false else s in
      rem ← slice_from (buf s) (off s);
      if blen rem <? adts.FrameLen h then mret (Wait s)
      else
        if adts.FrameLen h + adts.MinHeaderLen <=? blen rem then
          next ← slice_from rem (adts.FrameLen h);
          ok ← Consistent next h;
          if negb ok then mret (Continue (set_synced (discard 1 s) false))
          else deliver h (set_synced s true)
        else if negb (synced s) && negb (ended s) then mret (Wait s)
        else deliver h s
  end.

#[global] Instance adts_framer : Framer Stream := {
  framer.Feed := Feed;
  framer.next_step := next_step;
  framer.next_fuel s := S (Z.to_nat (blen (buf s) - off s));
  framer.Compact := Compact;
  framer.SetEOF := SetEOF;
  framer.Finish := Finish;
  framer.GapCount := GapCount
}.

Definition NextFrame (s : Stream) : res no_err (option (list Z * Z) * Stream) := framer.NextFrame s.

(** ** Invariant and views *)
Definition backlog (s : Stream) : list Z := drop (Z.to_nat (off s)) (buf s).

Record stream_ok (s : Stream) : Prop := {
  so_off : 0 ≤ off s ≤ blen (buf s);
  so_bytes : bytes_ok (buf s);
  so_gaps : is_u64 (gaps s)
}.

Lemma set_synced_ok s b : stream_ok s → stream_ok (set_synced s b).
Proof. intros [???]. by split. Qed.

Lemma blen_backlog s : stream_ok s → blen (backlog s) = blen (buf s) - off s.
Proof. intros [? _ _]. by apply blen_drop. Qed.

Lemma backlog_slice s : stream_ok s → slice_from (E:=no_err) (buf s) (off s) = Ok (backlog s).
Proof. intros [? _ _]. by apply slice_from_ok. Qed.

Lemma backlog_bytes s : stream_ok s → bytes_ok (backlog s).
Proof. intros [_ ? _]. by apply Forall_drop. Qed.

(** Advancing the read cursor drops a prefix of the backlog. *)
Lemma advance_ok s n s' :
  stream_ok s → 0 ≤ n ≤ blen (backlog s) → buf s' = buf s → off s' = off s + n →
  is_u64 (gaps s') →
  stream_ok s' ∧ backlog s' = drop (Z.to_nat n) (backlog s) ∧
  cut (backlog s) [] (backlog s') ∧ blen (backlog s') = blen (backlog s) - n.
Proof.
  intros Hs Hn Hb Ho Hg. rewrite blen_backlog in * by done. destruct Hs as [Hoff Hok _].
  assert (backlog s' = drop (Z.to_nat n) (backlog s)) as Hbk.
  { unfold backlog. rewrite Hb, Ho, drop_drop. f_equal. lia. }
  split_and!; [split; rewrite ?Hb, ?Ho; try done; lia|done| |].
  - rewrite Hbk. rewrite <- (take_drop (Z.to_nat n) (backlog s)) at 1. constructor.
  - rewrite Hbk, blen_drop by (unfold backlog; rewrite blen_drop; lia).
    unfold backlog. rewrite blen_drop; lia.
Qed.

(** ** The scan *)
Lemma scan_from_ok i rem : bytes_ok rem → ∃ o, scan_from i rem = Ok o ∧
  match o with
  | None => True
  | Some (j, h) => ∃ n, 0 ≤ n ≤ blen rem ∧ j = i + n ∧ adts.Parse (drop (Z.to_nat n) rem) = Ok h
  end.
Proof.
  revert i. induction rem as [|b0 rest IH]; intros i Hok; [by eexists|].
  inversion_clear Hok as [|? ? Hb0 Hrest].
  cbn [scan_from]. destruct (Z.ltb_spec (blen (b0 :: rest)) adts.MinHeaderLen) as [|Hl]; [by eexists|].
  rewrite blen_cons in Hl. unfold adts.MinHeaderLen in Hl.
  destruct (byte_at_inside (E:=no_err) rest 0 ltac:(lia)) as (b1 & -> & _). rewrite bind_Ok.
  assert (∃ o, scan_from (i + 1) rest = Ok o ∧
    match o with
    | None => True
    | Some (j, h) => ∃ n, 0 ≤ n ≤ blen (b0 :: rest) ∧ j = i + n ∧
        adts.Parse (drop (Z.to_nat n) (b0 :: rest)) = Ok h
    end) as Hrec.
  { destruct (IH (i + 1) Hrest) as ([[j h]|] & -> & Ho); eexists; (split; [done|]); [|done].
    destruct Ho as (n & Hn & -> & Hp). exists (n + 1). rewrite blen_cons. split_and!; try lia.
    replace (Z.to_nat (n + 1)) with (S (Z.to_nat n)) by lia. done. }
  destruct (_ || _); [done|].
  destruct (adts.Parse (b0 :: rest)) as [h| |] eqn:Hp; [|done|].
  - eexists. split; [done|]. exists 0. rewrite blen_cons. split_and!; try lia. done.
  - exfalso. revert Hp. apply adts.Parse_no_panic. by constructor.
Qed.

Lemma Consistent_total next h : bytes_ok next → ∃ b, Consistent next h = Ok b.
Proof.
  intros Hok. unfold Consistent. destruct (adts.Parse next) eqn:E; [by eexists..|].
  by apply adts.Parse_no_panic in E.
Qed.

Lemma Parse_bounds b h : bytes_ok b → adts.Parse b = Ok h →
  adts.header_ok h ∧ 7 ≤ adts.HeaderLen h ≤ 9 ∧ adts.HeaderLen h < adts.FrameLen h < 8192 ∧
  7 ≤ blen b.
Proof.
  intros Hok Hp. destruct (adts.Parse_ok _ _ Hok Hp) as (Hh & Hl & _).
  unfold adts.MinHeaderLen in Hl. split; [done|]. destruct Hh as [_ _ _ _ _ _ Hl' Hf _].
  unfold adts.MinHeaderLen, adts.CRCHeaderLen in Hl'. lia.
Qed.

Lemma frameDuration_pos h : adts.header_ok h → 0 < frameDuration h.
Proof.
  intros [_ _ _ Hr _ _ _ _ _]. unfold frameDuration. destruct (Z.leb_spec (adts.SampleRate h) 0); [lia|].
  unfold adts.SamplesPerFrame, mediatime.Second.
  apply (Z.lt_le_trans _ 1); [lia|]. apply Z.div_le_lower_bound; lia.
Qed.

(** ** One iteration, from any well-formed state *)
Abbreviation fuel s := (S (Z.to_nat (blen (buf s) - off s))).

(** What one iteration may do: it advances, delivers or waits; it never panics. *)
Definition step_good (s : Stream) (r : step_result Stream) : Prop :=
  match r with
  | Continue s' => stream_ok s' ∧ (fuel s' < fuel s)%nat ∧ cut (backlog s) [] (backlog s')
  | Deliver d dur s' => stream_ok s' ∧ (fuel s' < fuel s)%nat ∧ 0 < dur ∧ 0 < blen d ∧
      cut (backlog s) [d] (backlog s')
  | Wait s' => stream_ok s' ∧ cut (backlog s) [] (backlog s') ∧ blen (backlog s') ≤ 8197
  end ∧
  match r with Continue s' | Deliver _ _ s' | Wait s' =>
    counted (blen (backlog s) - blen (backlog s')) (gaps s) (gaps s') end.

(** Advancing first only makes the step better. *)
Lemma step_good_weaken s s1 r :
  stream_ok s → stream_ok s1 → cut (backlog s) [] (backlog s1) →
  counted (blen (backlog s) - blen (backlog s1)) (gaps s) (gaps s1) →
  step_good s1 r → step_good s r.
Proof.
  intros Hs Hs1 Hcut Hc [Hr Hg].
  assert (fuel s1 ≤ fuel s)%nat as Hf.
  { pose proof (cut_length _ _ _ Hcut). rewrite !blen_backlog in * by done. cbn [concat] in *.
    rewrite blen_nil in *. lia. }
  split; [|destruct r as [s'|d dur s'|s']; (eapply counted_trans; [exact Hc|exact Hg|lia])].
  destruct r as [s'|d dur s'|s']; destruct_and!; split_and!; try done; try lia;
    by apply (cut_trans _ [] _ _ _ Hcut).
Qed.

Lemma deliver_good h s :
  stream_ok s → adts.header_ok h → 7 ≤ adts.HeaderLen h ≤ 9 →
  adts.HeaderLen h < adts.FrameLen h ≤ blen (backlog s) →
  ∃ r, deliver h s = Ok r ∧ step_good s r.
Proof.
  intros Hs Hh H1 H2. unfold deliver. pose proof (blen_backlog s Hs) as Hb.
  destruct (so_off s Hs). destruct (so_gaps s Hs).
  rewrite slice_ok by lia. rewrite bind_Ok. cbv zeta.
  replace (off s + adts.FrameLen h - off s) with (adts.FrameLen h) by lia. fold (backlog s).
  assert (∀ s', buf s' = buf s → off s' = off s + adts.FrameLen h → is_u64 (gaps s') →
    stream_ok s' ∧ backlog s' = drop (Z.to_nat (adts.FrameLen h)) (backlog s) ∧
    cut (backlog s) [] (backlog s') ∧ blen (backlog s') = blen (backlog s) - adts.FrameLen h) as Hadv.
  { intros s' ???. apply advance_ok; try done. lia. }
  destruct (Z.ltb_spec 0 (adts.NumRawBlocks h)).
  - eexists. split; [done|]. set (s' := add_gap _).
    destruct (Hadv s' eq_refl eq_refl (u64_range _)) as (Hok' & _ & Hcut & Hlen).
    split; [split_and!; try done|].
    + rewrite !blen_backlog in Hlen by done. lia.
    + apply counted_once. lia.
  - assert (blen (take (Z.to_nat (adts.FrameLen h)) (backlog s)) = adts.FrameLen h) as Ht.
    { unfold blen in *. rewrite length_take. lia. }
    rewrite slice_from_ok by lia. rewrite bind_Ok. eexists. split; [done|]. set (s' := set_hdr _ h).
    destruct (Hadv s' eq_refl eq_refl ltac:(done)) as (Hok' & Hbk & Hcut & Hlen).
    split; [split_and!; try done|].
    + rewrite !blen_backlog in Hlen by done. lia.
    + by apply frameDuration_pos.
    + rewrite blen_drop; lia.
    + rewrite Hbk. rewrite <- (take_drop (Z.to_nat (adts.FrameLen h)) (backlog s)) at 1.
      rewrite <- (take_drop (Z.to_nat (adts.HeaderLen h)) (take _ (backlog s))) at 1.
      rewrite <- app_assoc. constructor. apply cut_refl.
    + apply counted_refl; [done|lia].
Qed.

(** A discard of [n > 0] bytes that counts one gap. *)
Lemma discard_good s n b :
  stream_ok s → 0 < n ≤ blen (backlog s) →
  let s' := add_gap (set_synced (set_off s (off s + n)) b) in
  stream_ok s' ∧ cut (backlog s) [] (backlog s') ∧ blen (backlog s') = blen (backlog s) - n ∧
  counted (blen (backlog s) - blen (backlog s')) (gaps s) (gaps s').
Proof.
  intros Hs Hn s'. destruct (advance_ok s n s' Hs ltac:(lia) eq_refl eq_refl (u64_range _))
    as (? & _ & ? & Hl).
  split_and!; try done. apply counted_once. lia.
Qed.

Lemma next_step_good s : stream_ok s → ∃ r, next_step s = Ok r ∧ step_good s r.
Proof.
  intros Hs. unfold next_step. rewrite backlog_slice, bind_Ok by done.
  pose proof (backlog_bytes s Hs) as Hbytes. pose proof (so_gaps s Hs) as Hgaps.
  destruct (scan_from_ok 0 (backlog s) Hbytes) as ([[i h]|] & Hscan & Ho);
    unfold scanADTS; rewrite Hscan, bind_Ok; cbv zeta iota.
  2: { eexists. split; [done|]. unfold dropUnsynced, adts.MinHeaderLen.
    destruct (Z.leb_spec (blen (backlog s)) (7 - 1)).
    - split; [split_and!; [done|apply cut_refl|lia]|apply counted_refl; [done|lia]].
    - destruct (discard_good s (blen (backlog s) - (7 - 1)) false Hs ltac:(lia)) as (?&?&Hl&?).
      split; [split_and!; try done; lia|done]. }
  destruct Ho as (n & Hn & -> & Hp). rewrite Z.add_0_l in *.
  set (s1 := if 0 <? n then set_synced (discard n s) false else s).
  assert (stream_ok s1 ∧ cut (backlog s) [] (backlog s1) ∧
    counted (blen (backlog s) - blen (backlog s1)) (gaps s) (gaps s1) ∧
    adts.Parse (backlog s1) = Ok h) as (Hs1 & Hcut1 & Hc1 & Hp1).
  { subst s1. destruct (Z.ltb_spec 0 n).
    - destruct (discard_good s n false Hs ltac:(lia)) as (Hs1 & ? & _ & ?).
      destruct (advance_ok s n (set_synced (discard n s) false) Hs ltac:(lia) eq_refl eq_refl (u64_range _))
        as (? & Hbk & _). split_and!; try done. by rewrite Hbk.
    - replace n with 0 in Hp by lia. split_and!; try done; [apply cut_refl|apply counted_refl; [done|lia]]. }
  enough (∃ r, (rem ← slice_from (buf s1) (off s1);
      if blen rem <? adts.FrameLen h then mret (Wait s1)
      else if adts.FrameLen h + adts.MinHeaderLen <=? blen rem then
        next ← slice_from rem (adts.FrameLen h);
        ok ← Consistent next h;
        if negb ok then mret (Continue (set_synced (discard 1 s1) false))
        else deliver h (set_synced s1 true)
      else if negb (synced s1) && negb (ended s1) then mret (Wait s1) else deliver h s1) = Ok r
      ∧ step_good s1 r) as (r & -> & Hr).
  { exists r. split; [done|]. by apply (step_good_weaken s s1). }
  destruct (Parse_bounds _ _ (backlog_bytes _ Hs1) Hp1) as (Hh & Hb1 & Hb2 & Hb3).
  pose proof (so_gaps s1 Hs1) as Hgaps1.
  assert (∀ s', s' = s1 → blen (backlog s1) ≤ 8197 → step_good s1 (Wait s')) as Hwait.
  { intros s' -> Hle. split; [split_and!; [done|apply cut_refl|lia]|apply counted_refl; [done|lia]]. }
  rewrite backlog_slice, bind_Ok by done. unfold adts.MinHeaderLen.
  destruct (Z.ltb_spec (blen (backlog s1)) (adts.FrameLen h)).
  { eexists. split; [done|]. apply Hwait; [done|lia]. }
  destruct (Z.leb_spec (adts.FrameLen h + 7) (blen (backlog s1))).
  - rewrite slice_from_ok, bind_Ok by lia.
    destruct (Consistent_total (drop (Z.to_nat (adts.FrameLen h)) (backlog s1)) h)
      as ([] & ->); [by apply Forall_drop, backlog_bytes|..]; rewrite bind_Ok; cbn [negb].
    + apply (deliver_good h (set_synced s1 true)); [by destruct Hs1|done|lia|].
      change (backlog (set_synced s1 true)) with (backlog s1). lia.
    + eexists. split; [done|]. destruct (discard_good s1 1 false Hs1 ltac:(lia)) as (Hs2 & ? & Hl & ?).
      split; [split_and!; try done|done].
      change (set_synced (discard 1 s1) false) with
        (add_gap (set_synced (set_off s1 (off s1 + 1)) false)).
      rewrite !blen_backlog in * by done. cbn [buf off add_gap set_synced set_off] in *. lia.
  - destruct (negb (synced s1) && negb (ended s1)).
    + eexists. split; [done|]. apply Hwait; [done|lia].
    + apply deliver_good; try done. lia.
Qed.

#[global] Program Instance adts_framer_laws : FramerLaws Stream := {
  wf := stream_ok;
  framer.backlog := backlog;
  buffered s := blen (buf s);
  max_wait := 8197
}.
Next Obligation. apply next_step_good. Qed.
Next Obligation.
  intros s p Hs Hp. pose proof Hs as [Ho Hb Hg]. split_and!.
  - split; cbn; [blia|by apply Forall_app|done].
  - change (drop (Z.to_nat (off s)) (buf s ++ p) = drop (Z.to_nat (off s)) (buf s) ++ p).
    rewrite drop_app_le; [done|]. unfold blen in Ho. lia.
  - cbn. by rewrite blen_app.
  - done.
Qed.
Next Obligation.
  intros s Hs. pose proof Hs as [Ho Hb Hg]. cbn. unfold Compact.
  destruct (Z.eqb_spec (off s) 0) as [H0|].
  - split_and!; try done. rewrite blen_backlog, H0 by done. lia.
  - split_and!; try done. split; cbn; [|by apply Forall_drop|done]. rewrite blen_drop; lia.
Qed.
Next Obligation. intros s [Ho Hb Hg]. split_and!; [by split|done|done]. Qed.
Next Obligation.
  intros s Hs. pose proof Hs as [Ho Hb Hg]. cbn. rewrite blen_backlog by done. unfold Finish.
  destruct (Z.ltb_spec 0 (blen (buf s) - off s)), (Z.eqb_spec (blen (buf s) - off s) 0); try lia.
  - split; [|done]. split; try done. apply u64_range.
  - split; [done|]. rewrite Z.add_0_r, u64_small; done.
Qed.
Next Obligation. by intros s [_ _ Hg]. Qed.
Next Obligation. intros s. cbn. lia. Qed.

(** ** Framing a well-formed stream *)

(** One frame on the wire: the seven header octets (the fields nobody reads
    included), the optional CRC, the raw access unit (or units: a multi-block frame). *)
Record Unit := mkUnit { u_ign : adts.Ignored; u_hdr : adts.Header; u_crc : list Z; u_data : list Z }.

Definition wire (u : Unit) : list Z := adts.encode (u_ign u) (u_hdr u) ++ u_crc u ++ u_data u.

Record unit_ok (u : Unit) : Prop := {
  uo_ign : adts.ignored_ok (u_ign u);
  uo_hdr : adts.header_ok (u_hdr u);
  uo_crc : adts.HeaderLen (u_hdr u) = 7 + blen (u_crc u);
  uo_len : adts.FrameLen (u_hdr u) = adts.HeaderLen (u_hdr u) + blen (u_data u);
  uo_bytes : bytes_ok (u_crc u) ∧ bytes_ok (u_data u)
}.

Definition same_config (h h' : adts.Header) : Prop :=
  adts.AudioObjectType h = adts.AudioObjectType h' ∧
  adts.SampleRateIndex h = adts.SampleRateIndex h' ∧ adts.ChannelConfig h = adts.ChannelConfig h'.

Definition single (u : Unit) : bool := adts.NumRawBlocks (u_hdr u) <=? 0.
Definition outs (us : list Unit) : list (list Z * Z) :=
  (λ u, (u_data u, frameDuration (u_hdr u))) <$> List.filter single us.
Definition multis (us : list Unit) : Z := blen (List.filter (λ u, negb (single u)) us).

Lemma blen_encode g h : blen (adts.encode g h) = 7.
Proof. done. Qed.

Lemma blen_wire u : unit_ok u → blen (wire u) = adts.FrameLen (u_hdr u).
Proof. intros [_ _ Hc Hl _]. unfold wire. rewrite !blen_app, blen_encode. lia. Qed.

Lemma scan_hit i b1 rest h :
  7 ≤ blen (0xFF :: b1 :: rest) → Z.land b1 0xF6 = 0xF0 →
  adts.Parse (0xFF :: b1 :: rest) = Ok h → scan_from i (0xFF :: b1 :: rest) = Ok (Some (i, h)).
Proof.
  intros Hl Hb Hp. cbn [scan_from]. rewrite Hp.
  destruct (Z.ltb_spec (blen (0xFF :: b1 :: rest)) adts.MinHeaderLen);
    [unfold adts.MinHeaderLen in *; lia|].
  rewrite byte_at_fst, bind_Ok, Hb. done.
Qed.

Lemma scan_head g h rest :
  adts.ignored_ok g → adts.header_ok h → scanADTS (adts.encode g h ++ rest) = Ok (Some (0, h)).
Proof.
  intros Hg Hh. unfold scanADTS.
  assert (adts.Parse (adts.encode g h ++ rest) = Ok h) as Hp
    by (rewrite adts.Parse_prefix by done; by apply adts.Parse_encode).
  destruct (adts.Parse_ok (adts.encode g h) h) as (_ & _ & b0 & b1 & E0 & E1 & -> & Hb1);
    [by apply adts.encode_bytes_ok|by apply adts.Parse_encode|].
  unfold adts.encode in *. cbn [app] in *.
  injection E1 as <-. apply scan_hit; [|done..].
  rewrite !blen_cons. pose proof (blen_nonneg rest). lia.
Qed.

Lemma scan_short rem : blen rem < 7 → scanADTS rem = Ok None.
Proof.
  intros Hl. unfold scanADTS. destruct rem as [|b rest]; [done|]. cbn [scan_from].
  unfold adts.MinHeaderLen. destruct (Z.ltb_spec (blen (b :: rest)) 7); [done|lia].
Qed.

Lemma Consistent_encode g h h' rest :
  adts.ignored_ok g → adts.header_ok h' → same_config h h' →
  Consistent (adts.encode g h' ++ rest) h = Ok true.
Proof.
  intros Hg Hh (H1 & H2 & H3). unfold Consistent.
  rewrite adts.Parse_prefix, adts.Parse_encode by done. rewrite H1, H2, H3, !Z.eqb_refl. done.
Qed.

(** Cutting the frame at the head of the backlog. *)
Lemma deliver_unit s u r :
  stream_ok s → unit_ok u → backlog s = wire u ++ r →
  ∃ s', (deliver (u_hdr u) s = Ok (if single u
      then Deliver (u_data u) (frameDuration (u_hdr u)) s' else Continue s')) ∧
    stream_ok s' ∧ backlog s' = r ∧ ended s' = ended s ∧
    gaps s' = u64 (gaps s + (if single u then 0 else 1)).
Proof.
  intros Hs Hu Hb. pose proof (blen_wire u Hu) as Hw. pose proof Hu as [Hig Hh Hc Hl _].
  pose proof (blen_backlog s Hs) as Hlen. rewrite Hb, blen_app in Hlen.
  pose proof (blen_nonneg r). pose proof (blen_nonneg (wire u)).
  pose proof Hs as [Ho _ Hg]. unfold deliver. rewrite slice_ok, bind_Ok by lia. cbv zeta.
  replace (off s + adts.FrameLen (u_hdr u) - off s) with (blen (wire u)) by lia.
  fold (backlog s). rewrite Hb, take_blen_app by done.
  assert (∀ s', buf s' = buf s → off s' = off s + adts.FrameLen (u_hdr u) → is_u64 (gaps s') →
    stream_ok s' ∧ backlog s' = r) as Hadv.
  { intros s' ???. destruct (advance_ok s (adts.FrameLen (u_hdr u)) s') as (? & -> & _);
      try done; [rewrite Hb, blen_app; lia|]. by rewrite Hb, drop_blen_app. }
  unfold single. destruct (Z.ltb_spec 0 (adts.NumRawBlocks (u_hdr u))),
    (Z.leb_spec (adts.NumRawBlocks (u_hdr u)) 0); try lia.
  - destruct (Hadv (add_gap (set_off s (off s + adts.FrameLen (u_hdr u)))))
      as [? ?]; try done; [apply u64_range|]. by eexists.
  - destruct (Hadv (set_hdr (set_off s (off s + adts.FrameLen (u_hdr u))) (u_hdr u)))
      as [? ?]; try done. pose proof (blen_nonneg (u_data u)). pose proof (blen_nonneg (u_crc u)).
    rewrite slice_from_ok by (rewrite Hw; lia). rewrite bind_Ok. unfold wire.
    rewrite app_assoc, drop_blen_app by (rewrite blen_app, blen_encode; lia).
    eexists. split_and!; try done. cbn. by rewrite Z.add_0_r, u64_small.
Qed.

(** One step when a header sits at the head of the backlog. *)
Lemma next_step_head s h :
  stream_ok s → scanADTS (backlog s) = Ok (Some (0, h)) → 0 ≤ adts.FrameLen h →
  next_step s =
    if blen (backlog s) <? adts.FrameLen h then Ok (Wait s)
    else if adts.FrameLen h + adts.MinHeaderLen <=? blen (backlog s) then
      ok ← Consistent (drop (Z.to_nat (adts.FrameLen h)) (backlog s)) h;
      if negb ok then mret (Continue (set_synced (discard 1 s) false))
      else deliver h (set_synced s true)
    else if negb (synced s) && negb (ended s) then Ok (Wait s) else deliver h s.
Proof.
  intros Hs Hscan Hf. unfold next_step. rewrite backlog_slice, bind_Ok, Hscan, bind_Ok by done.
  cbv zeta iota. change (0 <? 0) with false. cbv iota. rewrite backlog_slice, bind_Ok by done.
  destruct (Z.ltb_spec (blen (backlog s)) (adts.FrameLen h)); [done|].
  destruct (Z.leb_spec (adts.FrameLen h + adts.MinHeaderLen) (blen (backlog s))); [|done].
  rewrite slice_from_ok, bind_Ok by lia. done.
Qed.

(** One step on a well-formed backlog: a whole frame at its head is delivered (or
    dropped and counted, when it is multi-block), or the framer waits, keeping the
    backlog; at the end of the stream it does not wait on a whole frame. *)
Lemma next_step_unit s u us fut :
  stream_ok s → Forall unit_ok (u :: us) → Forall (λ v, same_config (u_hdr u) (u_hdr v)) us →
  backlog s ++ fut = concat (wire <$> u :: us) →
  (next_step s = Ok (Wait s) ∧ (ended s = true → fut ≠ [])) ∨
  ∃ s' r, next_step s = Ok (if single u
      then Deliver (u_data u) (frameDuration (u_hdr u)) s' else Continue s') ∧
    stream_ok s' ∧ backlog s' = r ∧ r ++ fut = concat (wire <$> us) ∧ ended s' = ended s ∧
    gaps s' = u64 (gaps s + (if single u then 0 else 1)).
Proof.
  intros Hs Hus Hcfg Hb. apply Forall_cons_iff in Hus as [Hu Hus]. cbn [fmap list_fmap concat] in Hb.
  pose proof (blen_wire u Hu) as Hw. pose proof Hu as [Hig Hh Hc Hl _].
  pose proof (blen_nonneg (u_crc u)). pose proof (blen_nonneg (u_data u)).
  assert (ended s = true → blen (backlog s) < blen (wire u) → fut ≠ []) as Hend.
  { intros _ Hlt ->. rewrite app_nil_r in Hb. apply (f_equal blen) in Hb.
    rewrite blen_app in Hb. pose proof (blen_nonneg (concat (wire <$> us))). lia. }
  destruct (Z.ltb_spec (blen (backlog s)) 7) as [Hlt|Hge].
  { left. unfold next_step. rewrite backlog_slice, bind_Ok, scan_short, bind_Ok by done. split; [|intros; apply Hend; [done|lia]].
    unfold dropUnsynced. destruct (Z.leb_spec (blen (backlog s)) (adts.MinHeaderLen - 1)); [done|].
    unfold adts.MinHeaderLen in *. lia. }
  assert (∃ x, backlog s = adts.encode (u_ign u) (u_hdr u) ++ x) as [x Hx].
  { unfold wire in Hb. rewrite <- !app_assoc in Hb.
    destruct (app_split_le _ _ _ _ Hb) as (x & ? & _); [by rewrite blen_encode|by exists x]. }
  assert (scanADTS (backlog s) = Ok (Some (0, u_hdr u))) as Hscan by (rewrite Hx; by apply scan_head).
  rewrite (next_step_head s (u_hdr u)) by (done || lia).
  destruct (Z.ltb_spec (blen (backlog s)) (adts.FrameLen (u_hdr u))).
  { left. split; [done|]. intros He. apply Hend; [done|lia]. }
  destruct (app_split_le _ _ _ _ Hb) as (r & Hr & Hfut); [lia|].
  destruct (Z.leb_spec (adts.FrameLen (u_hdr u) + adts.MinHeaderLen) (blen (backlog s))) as [Hlook|].
  - right. destruct (deliver_unit (set_synced s true) u r) as (s2 & Hd2 & Hs2);
      [by apply set_synced_ok|done|done|].
    exists s2, r. destruct_and! Hs2. split_and!; try done.
    assert (drop (Z.to_nat (adts.FrameLen (u_hdr u))) (backlog s) = r) as ->
      by (rewrite Hr; by apply drop_blen_app).
    rewrite Hr, blen_app, Hw in Hlook. unfold adts.MinHeaderLen in Hlook.
    destruct us as [|v us].
    { cbn in Hfut. apply app_nil in Hfut as [-> _]. rewrite blen_nil in Hlook. lia. }
    apply Forall_cons_iff in Hus as [Hv _]. apply Forall_cons_iff in Hcfg as [Hcv _].
    cbn [fmap list_fmap concat] in Hfut. unfold wire in Hfut. rewrite <- !app_assoc in Hfut.
    destruct (app_split_le _ _ _ _ Hfut) as (y & -> & _); [rewrite blen_encode; lia|].
    by rewrite Consistent_encode by (done || apply Hv).
  - destruct (deliver_unit s u r Hs Hu Hr) as (s' & Hd & Hs').
    destruct (negb (synced s) && negb (ended s)) eqn:Hsy.
    + left. split; [done|]. intros He. rewrite He, andb_false_r in Hsy. done.
    + right. destruct_and!. exists s', r. by split_and!.
Qed.

(** The whole run: from a well-formed backlog every frame that can be confirmed is
    delivered, and the backlog is again well-formed. *)
Lemma run_units us : ∀ s fut,
  stream_ok s → Forall unit_ok us → (∀ v w, v ∈ us → w ∈ us → same_config (u_hdr v) (u_hdr w)) →
  backlog s ++ fut = concat (wire <$> us) →
  ∃ us1 us2 s', us = us1 ++ us2 ∧ run s (outs us1) s' ∧ stream_ok s' ∧
    backlog s' ++ fut = concat (wire <$> us2) ∧ ended s' = ended s ∧
    gaps s' = u64 (gaps s + multis us1) ∧ (ended s = true → fut = [] → us2 = []).
Proof.
  induction us as [|u us IH]; intros s fut Hs Hus Hcfg Hb.
  - cbn in Hb. apply app_nil in Hb as [Hb ->]. exists [], [], s. split_and!; try done.
    + apply run_wait. cbn. unfold next_step. rewrite backlog_slice, Hb by done. done.
    + by rewrite Hb.
    + change (multis []) with 0. rewrite Z.add_0_r, u64_small by apply Hs. done.
  - destruct (next_step_unit s u us fut) as [[Hw He]|(s1 & r & Hstep & Hs1 & Hr & Hrf & He1 & Hg1)];
      try done.
    { apply Forall_forall. intros v Hv. apply Hcfg; apply elem_of_cons; [by left|right; by apply list_elem_of_In]. }
    { exists [], (u :: us), s. split_and!; try done.
      - by apply run_wait.
      - change (multis []) with 0. rewrite Z.add_0_r, u64_small by apply Hs. done.
      - intros He' ->. by destruct He. }
    apply Forall_cons_iff in Hus as [Hu Hus].
    destruct (IH s1 fut Hs1 Hus) as (us1 & us2 & s2 & -> & Hrun & Hs2 & Hb2 & He2 & Hg2 & Hend);
      [by intros; apply Hcfg; apply elem_of_cons; right|by rewrite Hr|].
    exists (u :: us1), us2, s2. split_and!; try done; [|by rewrite He2| |by rewrite <- He1].
    + unfold outs. cbn [List.filter]. destruct (single u); [by eapply run_deliver|by eapply run_continue].
    + rewrite Hg2, Hg1, u64_add_l. f_equal. unfold multis. cbn [List.filter].
      destruct (single u); cbn [negb]; rewrite ?blen_cons; lia.
Qed.

Lemma wf_of s : stream_ok s → wf s.
Proof. done. Qed.

Lemma gap_of (s : Stream) : framer.GapCount s = gaps s.
Proof. done. Qed.

Lemma outs_app us vs : outs (us ++ vs) = outs us ++ outs vs.
Proof. unfold outs. by rewrite List.filter_app, fmap_app. Qed.

Lemma multis_app us vs : multis (us ++ vs) = multis us + multis vs.
Proof. unfold multis. by rewrite List.filter_app, blen_app. Qed.

Lemma feed_units chunks : ∀ s us fut,
  stream_ok s → Forall bytes_ok chunks → Forall unit_ok us →
  (∀ v w, v ∈ us → w ∈ us → same_config (u_hdr v) (u_hdr w)) →
  backlog s ++ concat chunks ++ fut = concat (wire <$> us) →
  ∃ us1 us2 s', us = us1 ++ us2 ∧ feed_all chunks s = Ok (outs us1, s') ∧ stream_ok s' ∧
    backlog s' ++ fut = concat (wire <$> us2) ∧ gaps s' = u64 (gaps s + multis us1).
Proof.
  induction chunks as [|c chunks IH]; intros s us fut Hs Hok Hus Hcfg Hb.
  { exists [], us, s. split_and!; try done. change (multis []) with 0.
    rewrite Z.add_0_r, u64_small by apply Hs. done. }
  apply Forall_cons_iff in Hok as [Hc Hok]. cbn [concat] in Hb. rewrite <- app_assoc in Hb.
  destruct (wf_feed s c (wf_of _ Hs) Hc) as (Hs1 & Hb1 & _ & Hg1).
  destruct (run_units us (framer.Feed c s) (concat chunks ++ fut)) as
    (us1 & us2 & s2 & -> & Hrun & Hs2 & Hb2 & _ & Hg2 & _); try done.
  { etransitivity; [|exact Hb]. rewrite (app_assoc (backlog s)). f_equal. exact Hb1. }
  destruct (wf_compact s2 (wf_of _ Hs2)) as (Hs3 & Hb3 & _ & Hg3). apply Forall_app in Hus as [_ Hus2].
  destruct (IH (framer.Compact s2) us2 fut) as (us3 & us4 & s4 & -> & Hf & Hs4 & Hb4 & Hg4); try done.
  { intros. apply Hcfg; apply elem_of_app; by right. }
  { etransitivity; [|exact Hb2]. f_equal. exact Hb3. }
  exists (us1 ++ us3), us4, s4. rewrite <- app_assoc. split_and!; try done.
  - cbn [feed_all]. rewrite (drain_run _ _ _ (wf_of _ Hs1) Hrun), bind_Ok. cbv beta iota.
    rewrite Hf, bind_Ok. cbv beta iota. by rewrite outs_app.
  - rewrite Hg4, (Hg3 : gaps (framer.Compact s2) = gaps s2).
    rewrite Hg2, u64_add_l, multis_app. f_equal. rewrite (Hg1 : gaps (framer.Feed c s) = gaps s). lia.
Qed.

Lemma NewStream_ok : stream_ok NewStream.
Proof. split; [by vm_compute|constructor|by vm_compute]. Qed.

(** The last drain: with the end of the stream in sight, every frame is whole. *)
Lemma finish_units s us :
  stream_ok s → Forall unit_ok us →
  (∀ v w, v ∈ us → w ∈ us → same_config (u_hdr v) (u_hdr w)) →
  backlog s = concat (wire <$> us) →
  ∃ s', framer.drain (framer.SetEOF s) = Ok (outs us, s') ∧ stream_ok s' ∧ backlog s' = [] ∧
    gaps s' = u64 (gaps s + multis us).
Proof.
  intros Hs Hus Hcfg Hb. destruct (wf_eof s (wf_of _ Hs)) as (Hs2 & Hb2 & Hg2).
  destruct (run_units us (framer.SetEOF s) []) as
    (us3 & us4 & s3 & -> & Hrun & Hs3 & Hb3 & He3 & Hg3 & Hend); try done.
  { rewrite app_nil_r, <- Hb. exact Hb2. }
  rewrite (Hend eq_refl eq_refl) in *. cbn [fmap list_fmap concat] in Hb3. rewrite app_nil_r in Hb3.
  exists s3. rewrite app_nil_r. split_and!; try done. by apply drain_run; [apply wf_of|].
Qed.

(** C4: framing a well-formed ADTS stream is exact.  Such a stream is a concatenation
    of frames, with or without a CRC, single- or multi-block, whose headers are valid
    and of one configuration (object type, rate, channel layout), with anything in the
    header fields that are not read (the private, copyright and home bits, the buffer
    fullness).  Whatever the chunks the bytes arrive in, the framer terminates without
    a panic and delivers the access unit of every single-block frame, in order, each
    with its 1024-sample duration and stripped of its header and CRC; nothing else is
    delivered, and the discard counter counts exactly the multi-block frames, so such a
    stream of single-block frames reports no gap. *)
Theorem frame_stream_exact us chunks :
  Forall unit_ok us → (∀ v w, v ∈ us → w ∈ us → same_config (u_hdr v) (u_hdr w)) →
  Forall bytes_ok chunks → concat chunks = concat (wire <$> us) →
  ∃ s', frame_stream chunks NewStream = Ok (outs us, s') ∧ GapCount s' = u64 (multis us).
Proof.
  intros Hus Hcfg Hok Hb. unfold frame_stream.
  destruct (feed_units chunks NewStream us [] NewStream_ok) as
    (us1 & us2 & s1 & -> & -> & Hs1 & Hb1 & Hg1); try done.
  { rewrite app_nil_r. exact Hb. }
  rewrite bind_Ok. cbv beta iota. apply Forall_app in Hus as [_ Hus2]. rewrite app_nil_r in Hb1.
  destruct (finish_units s1 us2) as (s3 & -> & Hs3 & Hb3 & Hg3); try done.
  { intros. apply Hcfg; apply elem_of_app; by right. }
  rewrite bind_Ok. cbv beta iota. rewrite <- outs_app. eexists. split; [done|].
  destruct (wf_compact s3 (wf_of _ Hs3)) as (Hs4 & Hb4 & _ & Hg4). destruct (wf_finish _ Hs4) as [_ Hg5].
  etransitivity; [exact Hg5|]. rewrite Hb4. change (framer.backlog s3) with (backlog s3).
  rewrite Hb3. change (if blen [] =? 0 then 0 else 1) with 0.
  rewrite Hg4, (gap_of s3), Hg3, Hg1, Z.add_0_r, (u64_small (u64 _)), u64_add_l by apply u64_range.
  f_equal. change (gaps NewStream) with 0. rewrite multis_app. lia.
Qed.

Definition example_unit (n : Z) (payload : list Z) : Unit :=
  mkUnit (adts.mkIgnored true 5 0x7FF) (adts.mkHeader 2 4 44100 2 2 7 (7 + blen payload) n false) [] payload.

Lemma frame_stream_exact_witness :
  let us := [example_unit 0 [1; 2; 3]; example_unit 2 [9; 9]; example_unit 0 [255; 241; 7]] in
  ∃ s', frame_stream ((λ b, [b]) <$> concat (wire <$> us)) NewStream =
    Ok ([([1; 2; 3], 23219954); ([255; 241; 7], 23219954)], s') ∧ GapCount s' = u64 1.
Proof.
  intros us. apply (frame_stream_exact us).
  - assert (∀ n p, 0 ≤ n ≤ 3 → 0 < blen p < 2 ^ 12 → bytes_ok p → unit_ok (example_unit n p)) as Hu.
    { intros n p Hn Hl Hp. split; cbn; [done| |done|done|split; [constructor|done]].
      split; cbn; try lia; try done; by left. }
    apply Forall_cons_2; [|apply Forall_cons_2; [|apply Forall_cons_2; [|apply Forall_nil_2]]];
      apply Hu; try done; repeat constructor; by vm_compute.
  - intros v w Hv Hw. repeat (apply elem_of_cons in Hv as [->|Hv]); try (by apply elem_of_nil in Hv);
      repeat (apply elem_of_cons in Hw as [->|Hw]); try (by apply elem_of_nil in Hw); done.
  - repeat constructor; by vm_compute.
  - done.
Defined.

End adtsframe.
