(* ===== verification/Mpa.v ===== *)
(** * MPEG audio: [internal/mp3/mp3.go] and [depacket/mp3/mp3.go]

    The four-octet MPEG-1/2/2.5 header parser with its bitrate and sampling rate
    tables (Module [mpahdr]) and the RFC 2250 depacketizer that cuts RTP payloads
    into whole frames and reassembles fragmented ones (Module [depacketmp3]). *)
From Stdlib Require Import Sorted.
From S2P Require Import Prelude Bytes Framer.

Module mpahdr.

Definition HeaderLen : Z := 4.
Inductive err := ErrInvalidHeader.

Definition version25 : Z := 0.
Definition versionReserved : Z := 1.
Definition version2 : Z := 2.
Definition version1 : Z := 3.
Definition layerReserved : Z := 0.
Definition layerIII : Z := 1.
Definition layerII : Z := 2.
Definition layerI : Z := 3.
Definition channelModeMono : Z := 3.
Definition emphasisReserved : Z := 2.
Definition syncMask : Z := 0xFFE00000.

Definition reserved_row : list Z := [0; 0; 0; 0; 0; 0; 0; 0; 0; 0; 0; 0; 0; 0; 0; 0].
Definition low_rates : list Z := [0; 8; 16; 24; 32; 40; 48; 56; 64; 80; 96; 112; 128; 144; 160; 0].
Definition low_rates_I : list Z := [0; 32; 48; 56; 64; 80; 96; 112; 128; 144; 160; 176; 192; 224; 256; 0].

(** [bitrateKbps], indexed by version, layer and bitrate index. *)
Definition bitrateKbps : list (list (list Z)) :=
  [ [reserved_row; low_rates; low_rates; low_rates_I];
    [reserved_row; reserved_row; reserved_row; reserved_row];
    [reserved_row; low_rates; low_rates; low_rates_I];
    [reserved_row;
     [0; 32; 40; 48; 56; 64; 80; 96; 112; 128; 160; 192; 224; 256; 320; 0];
     [0; 32; 48; 56; 64; 80; 96; 112; 128; 160; 192; 224; 256; 320; 384; 0];
     [0; 32; 64; 96; 128; 160; 192; 224; 256; 288; 320; 352; 384; 416; 448; 0]] ].

Definition sampleRateHz : list (list Z) :=
  [[11025; 12000; 8000; 0]; [0; 0; 0; 0]; [22050; 24000; 16000; 0]; [44100; 48000; 32000; 0]].

(** A fixed-size array index: Go panics outside it. *)
Definition index {E A} (l : list A) (i : Z) : res E A :=
  if i <? 0 then Panic else match l !! Z.to_nat i with Some x => Ok x | None => Panic end.

Record Header := mkHeader {
  Version : Z; Layer : Z; ChannelMode : Z; SampleRate : Z; Bitrate : Z;
  Channels : Z; SamplesPerFrame : Z; FrameLen : Z; Padding : bool
}.

Definition frameLenBytes (version layer bps rate padding : Z) : Z :=
  if layer =? layerI then (12 * bps / rate + padding) * 4
  else if layer =? layerII then 144 * bps / rate + padding
  else if version =? version1 then 144 * bps / rate + padding
  else 72 * bps / rate + padding.

Definition samplesPerFrame (version layer : Z) : Z :=
  if layer =? layerI then 384
  else if layer =? layerII then 1152
  else if version =? version1 then 1152 else 576.

Definition Parse (h : Z) : res err Header :=
  if negb (Z.land h syncMask =? syncMask) then Err ErrInvalidHeader else
  let version := Z.land (Z.shiftr h 19) 3 in
  let layer := Z.land (Z.shiftr h 17) 3 in
  let bitrateIdx := Z.land (Z.shiftr h 12) 15 in
  let srIdx := Z.land (Z.shiftr h 10) 3 in
  let padding := Z.land (Z.shiftr h 9) 1 in
  let channelMode := Z.land (Z.shiftr h 6) 3 in
  let emphasis := Z.land h 3 in
  if (version =? versionReserved) || (layer =? layerReserved) || (emphasis =? emphasisReserved)
  then Err ErrInvalidHeader else
  byVersion ← index bitrateKbps version; byLayer ← index byVersion layer;
  kbps ← index byLayer bitrateIdx;
  if kbps =? 0 then Err ErrInvalidHeader else
  rates ← index sampleRateHz version; rate ← index rates srIdx;
  if rate =? 0 then Err ErrInvalidHeader else
  let bps := kbps * 1000 in
  let frameLen := frameLenBytes version layer bps rate padding in
  if frameLen <? HeaderLen then Err ErrInvalidHeader else
  let channels := if channelMode =? channelModeMono then 1 else 2 in
  mret (mkHeader version layer channelMode rate bps channels (samplesPerFrame version layer)
          frameLen (padding =? 1)).

(** ** What the header says *)

(** The uniform law behind the per-layer slot constants: a frame carries
    [SamplesPerFrame] samples, so at [Bitrate] bit/s it fills this many bytes,
    rounded down to whole slots (4 bytes for Layer I, 1 otherwise), plus the
    padding slot. *)
Definition slot (layer : Z) : Z := if layer =? layerI then 4 else 1.
Definition expected_len (h : Header) : Z :=
  let sl := slot (Layer h) in
  (SamplesPerFrame h / 8 / sl * Bitrate h / SampleRate h + Z.b2z (Padding h)) * sl.

Record header_ok (h : Header) : Prop := {
  ho_len : FrameLen h = expected_len h;
  ho_bounds : 21 ≤ FrameLen h ≤ 2881;
  ho_rate : 8000 ≤ SampleRate h ≤ 48000;
  ho_spf : SamplesPerFrame h ∈ [384; 576; 1152];
  ho_chan : Channels h = 1 ∨ Channels h = 2
}.

(** The table part of [Parse], checked exhaustively. *)
Definition geometry_ok (version layer bi si pad : Z) : bool :=
  match (bv ← index (E:=err) bitrateKbps version; bl ← index bv layer; index bl bi),
        (rs ← index (E:=err) sampleRateHz version; index rs si) with
  | Ok kbps, Ok rate =>
      (layer =? layerReserved) || (kbps =? 0) || (rate =? 0) ||
      (let len := frameLenBytes version layer (kbps * 1000) rate pad in
       let spf := samplesPerFrame version layer in
       (len =? (spf / 8 / slot layer * (kbps * 1000) / rate + pad) * slot layer) &&
       (21 <=? len) && (len <=? 2881) && (8000 <=? rate) && (rate <=? 48000) &&
       bool_decide (spf ∈ [384; 576; 1152]))
  | _, _ => false
  end.

Lemma geometry_all version layer bi si pad :
  0 ≤ version < 4 → 0 ≤ layer < 4 → 0 ≤ bi < 16 → 0 ≤ si < 4 → 0 ≤ pad < 2 →
  geometry_ok version layer bi si pad = true.
Proof.
  intros Hv Hl Hb Hs Hp.
  pose (P := λ v, forallb (λ l, forallb (λ b, forallb (λ s, forallb (λ p,
    geometry_ok v l b s p) (seqZ 0 2)) (seqZ 0 4)) (seqZ 0 16)) (seqZ 0 4)).
  assert (P version = true) as H by (apply (range_forall 4); [by vm_compute|lia]).
  subst P. cbv beta in H.
  assert (∀ (n : Z) (Q : Z → bool) x, forallb Q (seqZ 0 n) = true → 0 ≤ x < n → Q x = true) as Hf
    by (intros; eapply range_forall; done).
  apply (Hf 4 _ layer) in H; [|lia]. apply (Hf 16 _ bi) in H; [|lia].
  apply (Hf 4 _ si) in H; [|lia]. by apply (Hf 2 _ pad) in H; [|lia].
Qed.

Lemma mpa_field_range h n k m : m = 2 ^ k → 0 ≤ k → 0 ≤ Z.land (Z.shiftr h n) (m - 1) < m.
Proof.
  intros -> Hk. replace (2 ^ k - 1) with (Z.ones k) by (rewrite Z.ones_equiv; lia).
  rewrite Z.land_ones by lia. apply Z.mod_pos_bound. lia.
Qed.

Lemma Parse_cases h :
  Parse h = Err ErrInvalidHeader ∨ ∃ hd, Parse h = Ok hd ∧ header_ok hd.
Proof.
  unfold Parse. destruct (negb (Z.land h syncMask =? syncMask)); [by left|]. cbv zeta.
  pose proof (mpa_field_range h 19 2 4 eq_refl ltac:(lia)) as Hv.
  pose proof (mpa_field_range h 17 2 4 eq_refl ltac:(lia)) as Hl.
  pose proof (mpa_field_range h 12 4 16 eq_refl ltac:(lia)) as Hb.
  pose proof (mpa_field_range h 10 2 4 eq_refl ltac:(lia)) as Hs.
  pose proof (mpa_field_range h 9 1 2 eq_refl ltac:(lia)) as Hp. cbn [Z.sub Z.add Z.opp Z.pos_sub Pos.pred_double] in *.
  change (4 - 1) with 3 in *. change (16 - 1) with 15 in *. change (2 - 1) with 1 in *.
  pose proof (geometry_all _ _ _ _ _ Hv Hl Hb Hs Hp) as Hgeo.
  set (version := Z.land (Z.shiftr h 19) 3) in *. set (layer := Z.land (Z.shiftr h 17) 3) in *.
  set (bi := Z.land (Z.shiftr h 12) 15) in *. set (si := Z.land (Z.shiftr h 10) 3) in *.
  set (pad := Z.land (Z.shiftr h 9) 1) in *.
  destruct (_ || _) eqn:Hres; [by left|]. breflect. unfold geometry_ok in Hgeo.
  destruct (index bitrateKbps version) as [bv| |]; [|done..]. rewrite !bind_Ok in *.
  destruct (index bv layer) as [bl| |]; [|done..]. rewrite !bind_Ok in *.
  destruct (index bl bi) as [kbps| |]; [|done..]. rewrite bind_Ok.
  destruct (kbps =? 0) eqn:Hk; [by left|].
  destruct (index sampleRateHz version) as [rs| |]; [|done..]. rewrite !bind_Ok in *.
  destruct (index rs si) as [rate| |]; [|done..]. rewrite bind_Ok.
  destruct (rate =? 0) eqn:Hr; [by left|].
  destruct (Z.ltb_spec (frameLenBytes version layer (kbps * 1000) rate pad) HeaderLen); [by left|].
  right. eexists. split; [done|].
  replace (layer =? layerReserved) with false in Hgeo by (symmetry; apply Z.eqb_neq; done).
  cbn [orb] in Hgeo. breflect.
  match goal with H : bool_decide _ = true |- _ => apply bool_decide_eq_true in H end.
  assert (pad = Z.b2z (pad =? 1)) as Hpad by (destruct (Z.eqb_spec pad 1); cbn; lia).
  split; cbn [FrameLen SampleRate SamplesPerFrame Channels]; try done; try lia.
  - unfold expected_len. cbn [Layer SamplesPerFrame Bitrate SampleRate Padding].
    rewrite <- Hpad. done.
  - destruct (_ =? channelModeMono); auto.
Qed.

(** the MPEG audio header parser is total on 32-bit headers: it never panics,
    and a header it accepts has a supported rate, a positive duration and the
    frame length the bitrate, the samples per frame and the padding slot determine
    (the per-layer slot constants agree with that law on all 2048 geometries),
    between 21 and 2881 bytes. *)
Theorem mpa_Parse_total h : Parse h = Err ErrInvalidHeader ∨ ∃ hd, Parse h = Ok hd ∧ header_ok hd.
Proof. apply Parse_cases. Qed.

Lemma mpa_Parse_ok h hd : Parse h = Ok hd → header_ok hd.
Proof. destruct (Parse_cases h) as [->|(hd' & -> & Hok)]; [done|]. by intros [= <-]. Qed.

End mpahdr.

Module depacketmp3.

Definition headerLen : Z := 4.
Definition defaultClockRate : Z := 90000.
Definition maxRTPOffset : Z := 2 ^ 32 - 1.

Inductive err := ErrShortHeader | ErrInvalidFrame | ErrOrphanFragment | ErrFrameOverflow.

Record Frame := mkFrame { Data : list Z; RTPOffset : Z }.

Record Depacketizer := mkDepacketizer {
  clockRate : Z; frag : list Z; fragActive : bool; fragTime : Z; expectedLen : Z
}.

Definition New (clockRate : Z) : Depacketizer :=
  mkDepacketizer (if clockRate =? 0 then defaultClockRate else clockRate) [] false 0 0.

Definition Reset (d : Depacketizer) : Depacketizer :=
  mkDepacketizer (clockRate d) [] false (fragTime d) 0.

Definition beginFragment (d : Depacketizer) (data : list Z) (rtpTime frameLen : Z) : Depacketizer :=
  mkDepacketizer (clockRate d) data true rtpTime frameLen.

(** A call's effect: the new state, and the frames or the sentinel error. *)
Definition result : Type := Depacketizer * (list Frame + err).

(** The [for] loop of [startBoundary]; a frame is at least one byte, so the length
    of the payload is fuel enough. *)
Fixpoint boundary_loop (fuel : nat) (d : Depacketizer) (data : list Z) (rtpTime off accTicks : Z)
    (frames : list Frame) : res no_err result :=
  match fuel with
  | O => Panic
  | S fuel =>
      rem ← slice_from data off;
      let stop := if off =? 0 then inr ErrInvalidFrame else inl frames in
      if blen rem <? mpahdr.HeaderLen then mret (d, stop)
      else
        word ← be_at 4 rem 0;
        match mpahdr.Parse word with
        | Panic => Panic
        | Err _ => mret (d, stop)
        | Ok h =>
            if blen rem <? mpahdr.FrameLen h then
              if off =? 0 then mret (beginFragment d rem rtpTime (mpahdr.FrameLen h), inl [])
              else mret (d, inl frames)
            else
              whole ← slice rem 0 (mpahdr.FrameLen h);
              let frames := frames ++ [mkFrame whole (u32 (Z.min accTicks maxRTPOffset))] in
              let ticks := u64 (mpahdr.SamplesPerFrame h * clockRate d) / mpahdr.SampleRate h in
              boundary_loop fuel d data rtpTime (off + mpahdr.FrameLen h) (u64 (accTicks + ticks)) frames
        end
  end.

Definition startBoundary (d : Depacketizer) (data : list Z) (rtpTime : Z) : res no_err result :=
  let d := if fragActive d then Reset d else d in
  boundary_loop (S (length data)) d data rtpTime 0 0 [].

Definition continueFragment (d : Depacketizer) (data : list Z) (fragOffset rtpTime : Z) : result :=
  if negb (fragActive d) then (d, inr ErrOrphanFragment)
  else if negb (rtpTime =? fragTime d) || negb (fragOffset =? blen (frag d))
  then (Reset d, inr ErrOrphanFragment)
  else if expectedLen d <? blen (frag d) + blen data then (Reset d, inr ErrFrameOverflow)
  else
    let frag' := frag d ++ data in
    if blen frag' <? expectedLen d
    then (mkDepacketizer (clockRate d) frag' true (fragTime d) (expectedLen d), inl [])
    else (mkDepacketizer (clockRate d) frag' false (fragTime d) (expectedLen d), inl [mkFrame frag' 0]).

Definition Depacketize (d : Depacketizer) (payload : list Z) (rtpTime : Z) : res no_err result :=
  if blen payload <? headerLen then mret (if fragActive d then Reset d else d, inr ErrShortHeader)
  else
    fragOffset ← be_at 2 payload 2;
    data ← slice_from payload headerLen;
    if fragOffset =? 0 then startBoundary d data rtpTime
    else mret (continueFragment d data fragOffset rtpTime).

(** ** What is delivered *)

(** A frame whose own header declares exactly its length. *)
Definition whole_frame (f : list Z) (h : mpahdr.Header) : Prop :=
  ∃ w, be_at (E:=no_err) 4 f 0 = Ok w ∧ mpahdr.Parse w = Ok h ∧ mpahdr.FrameLen h = blen f.

Record depack_ok (d : Depacketizer) : Prop := {
  do_clock : is_u32 (clockRate d);
  do_frag : fragActive d = true → ∃ w h, be_at (E:=no_err) 4 (frag d) 0 = Ok w ∧
    mpahdr.Parse w = Ok h ∧ mpahdr.FrameLen h = expectedLen d ∧ 4 ≤ blen (frag d) < expectedLen d
}.

Lemma mpa_New_ok r : is_u32 r → depack_ok (New r).
Proof. intros Hr. split; cbn; [|done]. destruct (r =? 0); [by vm_compute|done]. Qed.

Lemma mpa_Reset_ok d : depack_ok d → depack_ok (Reset d) ∧ fragActive (Reset d) = false.
Proof. intros [Hc _]. split; [by split|done]. Qed.

(** The offsets of one packet's frames: each frame starts where the durations of
    the frames before it end, in RTP clock ticks, saturated at 32 bits. *)
Definition ticks (clock : Z) (h : mpahdr.Header) : Z :=
  mpahdr.SamplesPerFrame h * clock / mpahdr.SampleRate h.

Fixpoint offsets_from (clock acc : Z) (hs : list mpahdr.Header) : list Z :=
  match hs with
  | [] => []
  | h :: hs => Z.min acc maxRTPOffset :: offsets_from clock (acc + ticks clock h) hs
  end.

Definition delivered (clock acc : Z) (fs : list Frame) : Prop :=
  ∃ hs, Forall2 (λ f h, whole_frame (Data f) h) fs hs ∧ RTPOffset <$> fs = offsets_from clock acc hs.

Lemma delivered_nil clock acc : delivered clock acc [].
Proof. by exists []. Qed.

Lemma ticks_bounds clock h :
  is_u32 clock → mpahdr.header_ok h → 0 ≤ ticks clock h < 2 ^ 30 ∧
  u64 (mpahdr.SamplesPerFrame h * clock) / mpahdr.SampleRate h = ticks clock h.
Proof.
  unfold is_u32. intros Hc [_ _ Hr Hs _].
  assert (mpahdr.SamplesPerFrame h = 384 ∨ mpahdr.SamplesPerFrame h = 576 ∨
    mpahdr.SamplesPerFrame h = 1152) as Hs'.
  { apply elem_of_cons in Hs as [?|Hs]; [auto|]. apply elem_of_cons in Hs as [?|Hs]; [auto|].
    apply list_elem_of_singleton in Hs. auto. }
  unfold ticks. split; [|rewrite u64_small; [done|unfold is_u64; lia]].
  split; [apply Z.div_pos; lia|]. apply Z.div_lt_upper_bound; lia.
Qed.

Lemma boundary_loop_ok d data rtpTime fuel : ∀ off acc frames,
  depack_ok d → fragActive d = false → 0 ≤ off ≤ blen data → blen data ≤ 2 ^ 16 →
  blen data - off < Z.of_nat fuel → 0 ≤ acc ≤ off * 2 ^ 30 →
  ∃ d' r, boundary_loop fuel d data rtpTime off acc frames = Ok (d', r) ∧ depack_ok d' ∧ clockRate d' = clockRate d ∧
    match r with
    | inl fs => (fs = [] ∧ fragActive d' = true) ∨
        ∃ new, fs = frames ++ new ∧ d' = d ∧ delivered (clockRate d) acc new
    | inr e => e = ErrInvalidFrame ∧ d' = d ∧ off = 0
    end.
Proof.
  induction fuel as [|fuel IH]; intros off acc frames Hd Ha Ho Hl Hf Hacc; [lia|].
  cbn [boundary_loop]. rewrite slice_from_ok, bind_Ok by lia. cbv zeta.
  set (rem := drop (Z.to_nat off) data). assert (blen rem = blen data - off) as Hrem by (by apply blen_drop).
  assert (∃ d' r, Ok (E:=no_err) (d, if off =? 0 then inr ErrInvalidFrame else inl frames) = Ok (d', r) ∧
    depack_ok d' ∧ clockRate d' = clockRate d ∧ match r with
    | inl fs => (fs = [] ∧ fragActive d' = true) ∨
        ∃ new, fs = frames ++ new ∧ d' = d ∧ delivered (clockRate d) acc new
    | inr e => e = ErrInvalidFrame ∧ d' = d ∧ off = 0 end) as Hstop.
  { eexists _, _. split; [done|]. split; [done|]. split; [done|]. destruct (Z.eqb_spec off 0); [done|].
    right. exists []. rewrite app_nil_r. split_and!; try done. apply delivered_nil. }
  destruct (Z.ltb_spec (blen rem) mpahdr.HeaderLen) as [|H4]; [done|]. unfold mpahdr.HeaderLen in H4.
  rewrite be_at_ok, bind_Ok by lia. set (w := be_combine _).
  destruct (mpahdr.Parse_cases w) as [->|(h & Hp & Hh)]; [done|]. rewrite Hp.
  pose proof (mpahdr.ho_bounds h Hh) as Hb.
  destruct (Z.ltb_spec (blen rem) (mpahdr.FrameLen h)) as [Hshort|Hfull].
  - destruct (Z.eqb_spec off 0).
    + eexists _, _. split; [done|]. split_and!; [|done|by left]. split; [apply Hd|]. intros _.
      exists w, h. cbn [frag expectedLen beginFragment]. rewrite be_at_ok by lia. split_and!; try done; lia.
    + eexists _, _. split; [done|]. split; [done|]. split; [done|]. right. exists []. rewrite app_nil_r.
      split_and!; try done. apply delivered_nil.
  - rewrite slice_ok, bind_Ok by lia. rewrite Z.sub_0_r, drop_0.
    destruct (ticks_bounds (clockRate d) h (do_clock d Hd) Hh) as [Ht ->].
    destruct (IH (off + mpahdr.FrameLen h) (u64 (acc + ticks (clockRate d) h))
      (frames ++ [mkFrame (take (Z.to_nat (mpahdr.FrameLen h)) rem) (u32 (Z.min acc maxRTPOffset))]))
      as (d' & r & -> & Hd' & Hcl & Hr); try done; try lia.
    { rewrite u64_small by (unfold is_u64; lia). lia. }
    exists d', r. split; [done|]. split; [done|]. split; [done|].
    destruct r as [fs|e]; [|destruct Hr as (_ & _ & ?); lia].
    destruct Hr as [Hr|(new & -> & -> & hs & Hall & Hoff)]; [by left|right].
    eexists. rewrite <- app_assoc. split_and!; [done|done|]. exists (h :: hs). split.
    + constructor; [|done]. exists w. cbn [Data]. split_and!; try done.
      * rewrite be_at_ok by (rewrite ?blen_take; lia). unfold w. do 2 f_equal.
        change (Z.to_nat 0) with 0%nat. rewrite !drop_0, take_take. f_equal. lia.
      * by rewrite blen_take by lia.
    + cbn [app fmap list_fmap RTPOffset offsets_from]. rewrite u64_small in Hoff by (unfold is_u64; lia).
      rewrite u32_small by (unfold is_u32, maxRTPOffset; lia). by rewrite Hoff.
Qed.

Lemma startBoundary_ok d data rtpTime :
  depack_ok d → blen data ≤ 2 ^ 16 →
  ∃ d' r, startBoundary d data rtpTime = Ok (d', r) ∧ depack_ok d' ∧ clockRate d' = clockRate d ∧
    match r with
    | inl fs => (fs = [] ∧ fragActive d' = true) ∨ (delivered (clockRate d) 0 fs ∧ fragActive d' = false)
    | inr _ => fragActive d' = false
    end.
Proof.
  intros Hd Hl. unfold startBoundary. set (d0 := if fragActive d then Reset d else d).
  assert (depack_ok d0 ∧ fragActive d0 = false ∧ clockRate d0 = clockRate d) as (Hd0 & Ha0 & Hc0).
  { subst d0. destruct (fragActive d) eqn:E; [|done]. by destruct (mpa_Reset_ok d Hd). }
  pose proof (blen_nonneg data).
  destruct (boundary_loop_ok d0 data rtpTime (S (length data)) 0 0 []) as (d' & r & E & Hd' & Hcl & Hr);
    try done; try (unfold blen in *; lia).
  exists d', r. split; [done|]. split; [done|].
  rewrite Hcl, Hc0. split; [done|]. destruct r as [fs|e].
  - destruct Hr as [|(new & -> & -> & Hdel)]; [by left|right]. by rewrite <- Hc0.
  - by destruct Hr as (_ & -> & _).
Qed.

Lemma mpa_step d payload rtpTime :
  depack_ok d → bytes_ok payload → blen payload ≤ 2 ^ 16 →
  ∃ d' r, Depacketize d payload rtpTime = Ok (d', r) ∧ depack_ok d' ∧ clockRate d' = clockRate d ∧
    match r with
    | inl fs => (fs = [] ∧ fragActive d' = true) ∨ (delivered (clockRate d) 0 fs ∧ fragActive d' = false)
    | inr _ => fragActive d' = false
    end.
Proof.
  intros Hd Hok Hl. unfold Depacketize.
  assert (∀ e : err, ∃ d' r, Ok (E:=no_err) (if fragActive d then Reset d else d, @inr (list Frame) err e) = Ok (d', r) ∧
    depack_ok d' ∧ clockRate d' = clockRate d ∧ match r with
    | inl fs => (fs = [] ∧ fragActive d' = true) ∨ (delivered (clockRate d) 0 fs ∧ fragActive d' = false)
    | inr _ => fragActive d' = false end) as Herr.
  { intros e. eexists _, _. split; [done|]. destruct (fragActive d) eqn:Ha; [|done].
    by destruct (mpa_Reset_ok d Hd). }
  destruct (Z.ltb_spec (blen payload) headerLen) as [|Hlen]; [apply Herr|]. unfold headerLen in Hlen.
  destruct (be_at (E:=no_err) 2 payload 2) as [off| |] eqn:Hoff; [|done|by apply be_at_no_panic in Hoff; lia].
  rewrite bind_Ok, slice_from_ok, bind_Ok by (unfold headerLen; lia).
  destruct (Z.eqb_spec off 0) as [|H0].
  { apply startBoundary_ok; [done|]. unfold headerLen. rewrite blen_drop; lia. }
  set (data := drop _ payload). pose proof (blen_nonneg data). unfold continueFragment. destruct (fragActive d) eqn:Ha; cbn [negb].
  2: { eexists _, _. split; [done|]. by rewrite Ha. }
  destruct (mpa_Reset_ok d Hd) as [Hr1 Hr2].
  destruct (_ || _); [by eexists _, _|].
  destruct (do_frag d Hd Ha) as (w & h & Hw & Hp & Hfl & Hf).
  destruct (Z.ltb_spec (expectedLen d) (blen (frag d) + blen data)); [by eexists _, _|]. cbv zeta.
  assert (be_at (E:=no_err) 4 (frag d ++ data) 0 = Ok w) as Hw' by (by rewrite be_at_app_l by lia).
  rewrite blen_app. destruct (Z.ltb_spec (blen (frag d) + blen data) (expectedLen d)).
  - eexists _, _. split; [done|]. split_and!; [|done|by left]. split; [apply Hd|]. intros _.
    exists w, h. cbn [frag expectedLen]. rewrite blen_app. split_and!; try done; lia.
  - eexists _, _. split; [done|]. split_and!; [split; [apply Hd|done]|done|]. right. split; [|done].
    exists [h]. split; [|done]. constructor; [|done]. exists w. cbn [Data].
    rewrite blen_app. split_and!; try done. lia.
Qed.

(** The MPEG audio depacketizer never panics, and every frame it hands over is
    whole: its own header declares exactly its length.  The frames of a packet are
    spaced by the durations of the frames before them, the first at offset 0, the
    tick count saturated rather than wrapped; a frame that is reassembled from
    fragments is the only frame of its packet, at offset 0; and after an error no
    partial frame is kept. *)
Theorem mpa_Depacketize_ok d payload rtpTime :
  depack_ok d → bytes_ok payload → blen payload ≤ 2 ^ 16 →
  ∃ d' r, Depacketize d payload rtpTime = Ok (d', r) ∧ depack_ok d' ∧ clockRate d' = clockRate d ∧
    match r with
    | inl fs => (fs = [] ∧ fragActive d' = true) ∨ (delivered (clockRate d) 0 fs ∧ fragActive d' = false)
    | inr _ => fragActive d' = false
    end.
Proof. apply mpa_step. Qed.

(** A 24-byte MPEG-2 Layer III frame (8 kbps at 24 kHz). *)
Definition example_frame : list Z := [0xFF; 0xF3; 0x14; 0x00] ++ repeat 7 20.

Lemma mpa_Depacketize_ok_witness :
  ∃ d' r, Depacketize (New 0) ([0; 0; 0; 0] ++ example_frame ++ example_frame) 5 = Ok (d', r) ∧
    depack_ok d' ∧ clockRate d' = 90000 ∧ match r with
    | inl fs => (fs = [] ∧ fragActive d' = true) ∨ (delivered 90000 0 fs ∧ fragActive d' = false)
    | inr _ => fragActive d' = false end.
Proof.
  apply (mpa_Depacketize_ok (New 0)); [by apply mpa_New_ok| |by vm_compute].
  repeat constructor; by vm_compute.
Defined.

Example aggregated_offsets :
  (λ r, match r.2 with inl fs => RTPOffset <$> fs | inr _ => [] end) <$>
    Depacketize (New 0) ([0; 0; 0; 0] ++ example_frame ++ example_frame) 5 = Ok [0; 2160].
Proof. by vm_compute. Qed.

(** ** Reassembly *)

(** One RFC 2250 payload: two MBZ octets, the fragmentation offset, the bytes. *)
Definition packet (mbz : Z) (off : Z) (data : list Z) : list Z :=
  be_split 2 mbz ++ be_split 2 off ++ data.

(** The packets a frame split into [pieces] is sent in. *)
Fixpoint fragments (mbz off : Z) (pieces : list (list Z)) : list (list Z) :=
  match pieces with
  | [] => []
  | p :: ps => packet mbz off p :: fragments mbz (off + blen p) ps
  end.

(** Feeding packets that share one timestamp, collecting each call's result. *)
Fixpoint depack_all (d : Depacketizer) (pkts : list (list Z)) (t : Z) :
    res no_err (list (list Frame + err) * Depacketizer) :=
  match pkts with
  | [] => mret ([], d)
  | p :: ps =>
      '(d, r) ← Depacketize d p t;
      '(rs, d) ← depack_all d ps t;
      mret (r :: rs, d)
  end.

Lemma Depacketize_packet d mbz off data t :
  0 ≤ off < 2 ^ 16 → Depacketize d (packet mbz off data) t =
    (if off =? 0 then startBoundary d data t else Ok (continueFragment d data off t)).
Proof.
  intros Ho. unfold Depacketize, packet. pose proof (blen_nonneg data).
  rewrite !blen_app, !blen_be_split. unfold headerLen.
  destruct (Z.ltb_spec (Z.of_nat 2 + (Z.of_nat 2 + blen data)) 4); [lia|].
  change 2 with (Z.of_nat 2) at 2. rewrite (be_at_mid 2 off (be_split 2 mbz) data) by done.
  rewrite bind_Ok, slice_from_ok by (rewrite !blen_app, !blen_be_split; lia).
  rewrite bind_Ok, app_assoc, drop_blen_app by (rewrite blen_app, !blen_be_split; lia). done.
Qed.

(** While a frame is in progress its continuation fragments are buffered until the
    last one completes it. *)
Lemma mpa_depack_continue d mbz t h ps : ∀ got,
  0 < blen got → ps ≠ [] → Forall (λ p, p ≠ []) ps →
  fragTime d = t → expectedLen d = blen got + blen (concat ps) → expectedLen d < 2 ^ 16 →
  ∃ d', depack_all (mkDepacketizer h got true t (expectedLen d)) (fragments mbz (blen got) ps) t =
    Ok (replicate (length ps - 1) (inl []) ++ [inl [mkFrame (got ++ concat ps) 0]], d') ∧
    fragActive d' = false.
Proof.
  induction ps as [|p ps IH]; intros got Hgot Hne Hall Ht He Hlt; [done|].
  apply Forall_cons_iff in Hall as [Hp Hall]. cbn [concat] in *. rewrite blen_app in He.
  pose proof (blen_concat_pos p Hp). pose proof (blen_nonneg (concat ps)).
  cbn [fragments depack_all]. rewrite Depacketize_packet by lia.
  destruct (Z.eqb_spec (blen got) 0); [lia|]. rewrite bind_Ok. unfold continueFragment.
  cbn [fragActive fragTime frag expectedLen clockRate negb]. rewrite !Z.eqb_refl. cbn [negb orb].
  destruct (Z.ltb_spec (expectedLen d) (blen got + blen p)); [lia|]. cbv zeta. rewrite blen_app.
  destruct ps as [|q ps].
  - cbn [concat] in *. rewrite blen_nil in *. rewrite app_nil_r.
    destruct (Z.ltb_spec (blen got + blen p) (expectedLen d)); [lia|].
    eexists. split; [done|done].
  - assert (0 < blen (concat (q :: ps))).
    { cbn [concat]. rewrite blen_app. apply Forall_cons_iff in Hall as [Hq _].
      pose proof (blen_concat_pos q Hq). pose proof (blen_nonneg (concat ps)). lia. }
    destruct (Z.ltb_spec (blen got + blen p) (expectedLen d)); [|lia].
    destruct (IH (got ++ p)) as (d' & IHe & Ha); try done; try (rewrite blen_app; lia).
    rewrite blen_app in IHe. rewrite IHe, bind_Ok. cbv beta iota. exists d'. split; [|done].
    rewrite <- app_assoc. cbn [length]. rewrite !Nat.sub_succ, !Nat.sub_0_r. done.
Qed.

(** A frame alone on a boundary packet, cut short: reassembly begins. *)
Lemma startBoundary_begin d f h p t :
  whole_frame f h → (∃ rest, f = p ++ rest ∧ rest ≠ []) → 4 ≤ blen p →
  startBoundary d p t = Ok (mkDepacketizer (clockRate d) p true t (blen f), inl []).
Proof.
  intros (w & Hw & Hp & Hl) (rest & -> & Hne) H4. pose proof (blen_concat_pos rest Hne).
  unfold startBoundary. set (d0 := if fragActive d then Reset d else d). cbn [boundary_loop].
  rewrite slice_from_ok, bind_Ok by lia. cbv zeta. change (Z.to_nat 0) with 0%nat. rewrite drop_0.
  unfold mpahdr.HeaderLen. destruct (Z.ltb_spec (blen p) 4); [lia|].
  rewrite be_at_app_l in Hw by lia. rewrite Hw, bind_Ok, Hp, Hl, blen_app.
  destruct (Z.ltb_spec (blen p) (blen p + blen rest)); [|lia]. change (0 =? 0) with true. cbv iota.
  subst d0. unfold beginFragment. by destruct (fragActive d).
Qed.

(** A fragmented MPEG audio frame survives depacketization: sent in any number
    of non-empty fragments, the first carrying at least its header, each tagged
    with the offset of its first byte, it is delivered exactly once, by the last
    fragment, byte for byte; the calls before it deliver nothing and no call
    fails, whatever partial frame the depacketizer held before. *)
Theorem mpa_fragments_reassemble d f h mbz t p ps :
  whole_frame f h → f = p ++ concat ps → 4 ≤ blen p → ps ≠ [] → Forall (λ q, q ≠ []) ps →
  ∃ d', depack_all d (fragments mbz 0 (p :: ps)) t =
    Ok (replicate (length ps) (inl []) ++ [inl [mkFrame f 0]], d') ∧ fragActive d' = false.
Proof.
  intros Hf Hcat H4 Hne Hall. pose proof Hf as (w & _ & Hp & Hl).
  pose proof (mpahdr.ho_bounds _ (mpahdr.mpa_Parse_ok _ _ Hp)).
  assert (0 < blen (concat ps)) as Hpos.
  { destruct ps as [|q ps]; [done|]. apply Forall_cons_iff in Hall as [Hq _]. cbn [concat].
    rewrite blen_app. pose proof (blen_concat_pos q Hq). pose proof (blen_nonneg (concat ps)). lia. }
  cbn [fragments depack_all]. rewrite Depacketize_packet by lia. change (0 =? 0) with true. cbv iota.
  assert (concat ps ≠ []) as Hne' by (intros E; by rewrite E in Hpos).
  rewrite (startBoundary_begin d f h p t Hf ltac:(by exists (concat ps)) H4), bind_Ok. cbv beta iota. rewrite Z.add_0_l.
  set (d1 := mkDepacketizer (clockRate d) p true t (blen f)).
  destruct (mpa_depack_continue d1 mbz t (clockRate d) ps p) as (d' & E & Ha); try done;
    try (subst d1; cbn [expectedLen]; rewrite ?Hcat, ?blen_app; rewrite ?Hcat, ?blen_app in Hl; lia).
  change (expectedLen d1) with (blen f) in E. fold d1 in E. rewrite E, bind_Ok. cbv beta iota.
  exists d'. split; [|done]. rewrite <- Hcat. destruct ps as [|q ps]; [done|].
  cbn [length]. rewrite Nat.sub_succ, Nat.sub_0_r. done.
Qed.

Lemma mpa_fragments_reassemble_witness :
  ∃ d', depack_all (New 0) (fragments 0 0 [take 10 example_frame; take 3 (drop 10 example_frame);
      drop 13 example_frame]) 77 =
    Ok ([inl []; inl []; inl [mkFrame example_frame 0]], d') ∧ fragActive d' = false.
Proof.
  apply (mpa_fragments_reassemble (New 0) example_frame
    (mpahdr.mkHeader 2 1 0 24000 8000 2 576 24 false)); try done.
  - exists (be_combine (take 4 example_frame)). split_and!; by vm_compute.
  - repeat constructor; done.
Defined.

End depacketmp3.
