(* ===== verification/Mp3Stream.v ===== *)
(** * The MP3 framer: [httpsource/mp3.go]

    The resynchronizing framer of the progressive HTTP MP3 source, with its ID3v2
    tag skip, as a second instance of the framer interface. *)
From S2P Require Import Prelude Bytes MediaTime Framer Mpa.
Import framer.

Module mp3stream.

Definition id3v2HeaderLen : Z := 10.
Definition id3v2FooterFlag : Z := 0x10.

Record mp3Stream := mkStream {
  buf : list Z;
  off : Z;
  id3Skip : Z;
  synced : bool;
  ended : bool;
  gaps : Z
}.

Definition newStream : mp3Stream := mkStream [] 0 0 false false 0.

Definition set_off (s : mp3Stream) (o : Z) : mp3Stream :=
  mkStream (buf s) o (id3Skip s) (synced s) (ended s) (gaps s).
Definition set_skip (s : mp3Stream) (n : Z) : mp3Stream :=
  mkStream (buf s) (off s) n (synced s) (ended s) (gaps s).
Definition set_synced (s : mp3Stream) (b : bool) : mp3Stream :=
  mkStream (buf s) (off s) (id3Skip s) b (ended s) (gaps s).
Definition add_gap (s : mp3Stream) : mp3Stream :=
  mkStream (buf s) (off s) (id3Skip s) (synced s) (ended s) (u64 (gaps s + 1)).

Definition Feed (p : list Z) (s : mp3Stream) : mp3Stream :=
  mkStream (buf s ++ p) (off s) (id3Skip s) (synced s) (ended s) (gaps s).

Definition Compact (s : mp3Stream) : mp3Stream :=
  if off s =? 0 then s
  else mkStream (drop (Z.to_nat (off s)) (buf s)) 0 (id3Skip s) (synced s) (ended s) (gaps s).

Definition SetEOF (s : mp3Stream) : mp3Stream :=
  mkStream (buf s) (off s) (id3Skip s) (synced s) true (gaps s).

Definition Finish (s : mp3Stream) : mp3Stream :=
  if 0 <? blen (buf s) - off s then add_gap s else s.

Definition GapCount (s : mp3Stream) : Z := gaps s.

Definition discard (n : Z) (s : mp3Stream) : mp3Stream := add_gap (set_off s (off s + n)).

Definition dropUnsynced (remLen : Z) (s : mp3Stream) : mp3Stream :=
  let keep := mpahdr.HeaderLen - 1 in
  if remLen <=? keep then s
  else add_gap (set_synced (set_off s (off s + (remLen - keep))) false).

(** Whether a pending tag is fully skipped, and the state after the skip. *)
Definition consumeID3 (s : mp3Stream) : bool * mp3Stream :=
  if id3Skip s =? 0 then (true, s)
  else
    let avail := blen (buf s) - off s in
    let drp := Z.min (id3Skip s) avail in
    let s := set_skip (set_off s (off s + drp)) (id3Skip s - drp) in
    (id3Skip s =? 0, s).

(** [(isID3, needMore)] *)
Definition looksLikeID3 (rem : list Z) : res no_err (bool * bool) :=
  if blen rem <? 3 then mret (false, false)
  else
    b0 ← byte_at rem 0; b1 ← byte_at rem 1; b2 ← byte_at rem 2;
    if negb (b0 =? 73) || negb (b1 =? 68) || negb (b2 =? 51) then mret (false, false)
    else if blen rem <? id3v2HeaderLen then mret (true, true)
    else
      b6 ← byte_at rem 6; b7 ← byte_at rem 7; b8 ← byte_at rem 8; b9 ← byte_at rem 9;
      if negb (Z.land b6 0x80 =? 0) || negb (Z.land b7 0x80 =? 0) ||
         negb (Z.land b8 0x80 =? 0) || negb (Z.land b9 0x80 =? 0)
      then mret (false, false) else mret (true, false).

Definition syncsafe (b : list Z) : res no_err Z :=
  b0 ← byte_at b 0; b1 ← byte_at b 1; b2 ← byte_at b 2; b3 ← byte_at b 3;
  mret (Z.lor (Z.lor (Z.lor (Z.shiftl (Z.land b0 0x7F) 21) (Z.shiftl (Z.land b1 0x7F) 14))
                (Z.shiftl (Z.land b2 0x7F) 7)) (Z.land b3 0x7F)).

Definition id3v2TagLen (head : list Z) : res no_err Z :=
  size ← slice head 6 10;
  n ← syncsafe size;
  flags ← byte_at head 5;
  let skip := id3v2HeaderLen + n in
  mret (if negb (Z.land flags id3v2FooterFlag =? 0) then skip + id3v2HeaderLen else skip).

Definition startID3Skip (rem : list Z) (s : mp3Stream) : res no_err mp3Stream :=
  n ← id3v2TagLen rem; mret (set_skip s n).

Fixpoint scan_from (i : Z) (rem : list Z) : res no_err (option (Z * mpahdr.Header)) :=
  match rem with
  | [] => mret None
  | b0 :: rest =>
      if blen rem <? mpahdr.HeaderLen then mret None
      else
        b1 ← byte_at rest 0;
        if negb (b0 =? 0xFF) || negb (Z.land b1 0xE0 =? 0xE0) then scan_from (i + 1) rest
        else
          w ← be_at 4 rem 0;
          match mpahdr.Parse w with
          | Ok h => mret (Some (i, h))
          | Err _ => scan_from (i + 1) rest
          | Panic => Panic
          end
  end.

Definition scanHeader (rem : list Z) : res no_err (option (Z * mpahdr.Header)) := scan_from 0 rem.

Definition headerConsistent (rem : list Z) (h : mpahdr.Header) : res no_err bool :=
  w ← be_at 4 rem (mpahdr.FrameLen h);
  match mpahdr.Parse w with
  | Err _ => mret false
  | Panic => Panic
  | Ok next => mret ((mpahdr.Version next =? mpahdr.Version h) &&
                     (mpahdr.Layer next =? mpahdr.Layer h) &&
                     (mpahdr.SampleRate next =? mpahdr.SampleRate h))
  end.

Definition mp3FrameDuration (hdr : mpahdr.Header) : Z :=
  if mpahdr.SampleRate hdr <=? 0 then 0
  else mpahdr.SamplesPerFrame hdr * mediatime.Second / mpahdr.SampleRate hdr.

(** The tail of the loop body of [next], with the [NextFrame] adapter's duration. *)
Definition deliver (h : mpahdr.Header) (s : mp3Stream) : res no_err (step_result mp3Stream) :=
  frame ← slice (buf s) (off s) (off s + mpahdr.FrameLen h);
  mret (Deliver frame (mp3FrameDuration h) (set_off s (off s + mpahdr.FrameLen h))).

(** The part of the loop body from the header scan on. *)
Definition scan_step (s : mp3Stream) (rem : list Z) : res no_err (step_result mp3Stream) :=
  found ← scanHeader rem;
  match found with
  | None => mret (Wait (dropUnsynced (blen rem) s))
  | Some (i, h) =>
      let s := if 0 <? i then set_synced (discard i s) false else s in
      rem ← slice_from (buf s) (off s);
      if blen rem <? mpahdr.FrameLen h then mret (Wait s)
      else if mpahdr.FrameLen h + mpahdr.HeaderLen <=? blen rem then
        ok ← headerConsistent rem h;
        if (ok : bool) then deliver h (set_synced s true)
        else if synced s then deliver h (set_synced s false)
        else mret (Continue (discard 1 s))
      else if negb (synced s) && negb (ended s) then mret (Wait s)
      else deliver h s
  end.

(** One iteration of the loop of [next]. *)
Definition next_step (s : mp3Stream) : res no_err (step_result mp3Stream) :=
  let '(ready, s) := consumeID3 s in
  if negb ready then mret (Wait s)
  else
    rem ← slice_from (buf s) (off s);
    '(isID3, needMore) ← looksLikeID3 rem;
    if (isID3 : bool) then
      if (needMore : bool) then mret (Wait s)
      else s ← startID3Skip rem s; mret (Continue s)
    else scan_step s rem.

(** A tag skip is the one iteration that consumes no byte of its own, so the fuel
    counts it separately. *)
Definition fuel (s : mp3Stream) : nat :=
  S (2 * Z.to_nat (blen (buf s) - off s)) + (if id3Skip s =? 0 then 1 else 0).

#[global] Instance mp3_framer : Framer mp3Stream := {
  framer.Feed := Feed;
  framer.next_step := next_step;
  framer.next_fuel := fuel;
  framer.Compact := Compact;
  framer.SetEOF := SetEOF;
  framer.Finish := Finish;
  framer.GapCount := GapCount
}.

Definition NextFrame (s : mp3Stream) : res no_err (option (list Z * Z) * mp3Stream) := framer.NextFrame s.

Definition backlog (s : mp3Stream) : list Z := drop (Z.to_nat (off s)) (buf s).

Record stream_ok (s : mp3Stream) : Prop := {
  so_off : 0 ≤ off s ≤ blen (buf s);
  so_bytes : bytes_ok (buf s);
  so_gaps : is_u64 (gaps s);
  so_skip : 0 ≤ id3Skip s < 2 ^ 29
}.

Lemma mp3_blen_backlog s : stream_ok s → blen (backlog s) = blen (buf s) - off s.
Proof. intros [? _ _ _]. by apply blen_drop. Qed.

Lemma mp3_backlog_slice s : stream_ok s → slice_from (E:=no_err) (buf s) (off s) = Ok (backlog s).
Proof. intros [? _ _ _]. by apply slice_from_ok. Qed.

Lemma mp3_backlog_bytes s : stream_ok s → bytes_ok (backlog s).
Proof. intros [_ ? _ _]. by apply Forall_drop. Qed.

Lemma mp3_set_synced_ok s b : stream_ok s → stream_ok (set_synced s b).
Proof. intros [????]. by split. Qed.

Lemma mp3_advance_ok s n s' :
  stream_ok s → 0 ≤ n ≤ blen (backlog s) → buf s' = buf s → off s' = off s + n →
  is_u64 (gaps s') → 0 ≤ id3Skip s' < 2 ^ 29 →
  stream_ok s' ∧ backlog s' = drop (Z.to_nat n) (backlog s) ∧
  cut (backlog s) [] (backlog s') ∧ blen (backlog s') = blen (backlog s) - n.
Proof.
  intros Hs Hn Hb Ho Hg Hk. rewrite mp3_blen_backlog in * by done. destruct Hs as [Hoff Hok _ _].
  assert (backlog s' = drop (Z.to_nat n) (backlog s)) as Hbk.
  { unfold backlog. rewrite Hb, Ho, drop_drop. f_equal. lia. }
  split_and!; [split; rewrite ?Hb, ?Ho; try done; lia|done| |].
  - rewrite Hbk. rewrite <- (take_drop (Z.to_nat n) (backlog s)) at 1. constructor.
  - rewrite Hbk, blen_drop by (unfold backlog; rewrite blen_drop; lia).
    unfold backlog. rewrite blen_drop; lia.
Qed.

(** ** The pieces of an iteration *)
Lemma consumeID3_ok s ready s' : stream_ok s → consumeID3 s = (ready, s') →
  stream_ok s' ∧ cut (backlog s) [] (backlog s') ∧ gaps s' = gaps s ∧
  (if ready then id3Skip s' = 0 else backlog s' = []) ∧
  blen (backlog s') ≤ blen (backlog s) ∧ (id3Skip s = 0 → s' = s) ∧
  (id3Skip s ≠ 0 → ready = true → blen (backlog s') < blen (backlog s)).
Proof.
  intros Hs. pose proof Hs as [Ho _ Hg Hk]. unfold consumeID3.
  destruct (Z.eqb_spec (id3Skip s) 0) as [H0|H0].
  { intros [= <- <-]. split_and!; try done. apply cut_refl. }
  intros [= <- <-]. cbn [id3Skip set_skip set_off].
  set (n := Z.min (id3Skip s) (blen (buf s) - off s)).
  destruct (mp3_advance_ok s n (set_skip (set_off s (off s + n)) (id3Skip s - n)) Hs)
    as (Hs' & Hbk & Hcut & Hlen); try done; try (rewrite ?mp3_blen_backlog by done; cbn; lia).
  pose proof (mp3_blen_backlog s Hs).
  split_and!; try done; try lia.
  destruct (Z.eqb_spec (id3Skip s - n) 0); [done|]. apply blen_zero. lia.
Qed.

Lemma looksLikeID3_ok rem : ∃ a b, looksLikeID3 rem = Ok (a, b) ∧
  (a = true → b = true → blen rem < 10) ∧ (a = true → b = false → 10 ≤ blen rem).
Proof.
  unfold looksLikeID3, id3v2HeaderLen. destruct (Z.ltb_spec (blen rem) 3); [by eexists _, _|].
  do 3 byte_read.
  destruct (_ || _); [by eexists _, _|].
  destruct (Z.ltb_spec (blen rem) 10); [by eexists _, _|].
  do 4 byte_read.
  destruct (_ || _); eexists _, _; (split; [done|]); by split.
Qed.

Lemma low7 b : is_u8 b → 0 ≤ Z.land b 0x7F < 2 ^ 7.
Proof. intros _. rewrite (land_ones_mod 7) by done. apply Z.mod_pos_bound. lia. Qed.

(** The syncsafe size is the 28-bit number its four 7-bit digits spell. *)
Lemma syncsafe_value a b c d : is_u8 a → is_u8 b → is_u8 c → is_u8 d →
  syncsafe [a; b; c; d] = Ok (((a mod 128 * 128 + b mod 128) * 128 + c mod 128) * 128 + d mod 128).
Proof.
  intros Ha Hb Hc Hd. unfold syncsafe.
  change (byte_at [a; b; c; d] 0) with (@Ok no_err Z a). change (byte_at [a; b; c; d] 1) with (@Ok no_err Z b).
  change (byte_at [a; b; c; d] 2) with (@Ok no_err Z c). change (byte_at [a; b; c; d] 3) with (@Ok no_err Z d).
  rewrite !bind_Ok. cbv [mret res_ret]. f_equal.
  pose proof (low7 a Ha). pose proof (low7 b Hb). pose proof (low7 c Hc). pose proof (low7 d Hd).
  rewrite (lor_shiftl_add 21) by (rewrite ?Z.shiftl_mul_pow2; lia).
  rewrite (Z.shiftl_mul_pow2 _ 14) by lia.
  replace (Z.land a 127 * 2 ^ 21 + Z.land b 127 * 2 ^ 14) with
    (Z.shiftl (Z.land a 127 * 2 ^ 7 + Z.land b 127) 14) by (rewrite Z.shiftl_mul_pow2; lia).
  rewrite (lor_shiftl_add 14) by (rewrite ?Z.shiftl_mul_pow2; lia).
  rewrite (Z.shiftl_mul_pow2 _ 7) by lia.
  replace ((Z.land a 127 * 2 ^ 7 + Z.land b 127) * 2 ^ 14 + Z.land c 127 * 2 ^ 7) with
    (Z.shiftl ((Z.land a 127 * 2 ^ 7 + Z.land b 127) * 2 ^ 7 + Z.land c 127) 7)
    by (rewrite Z.shiftl_mul_pow2; lia).
  rewrite lor_shiftl_add by lia. rewrite !(land_ones_mod 7 _ 127) by done. change (2 ^ 7) with 128. lia.
Qed.

Lemma four_bytes (l : list Z) : blen l = 4 → ∃ a b c d, l = [a; b; c; d].
Proof.
  unfold blen. destruct l as [|a [|b [|c [|d [|e l]]]]]; cbn [length]; try lia. eauto.
Qed.

Lemma id3v2TagLen_ok rem : bytes_ok rem → 10 ≤ blen rem →
  ∃ n, id3v2TagLen rem = Ok n ∧ 10 ≤ n < 2 ^ 29.
Proof.
  intros Hok Hl. unfold id3v2TagLen. rewrite slice_ok, bind_Ok by lia.
  set (size := take _ _).
  assert (bytes_ok size) as Hsz by (by apply Forall_take, Forall_drop).
  destruct (four_bytes size) as (a & b & c & d & ->).
  { subst size. rewrite blen_take; [done|]. rewrite blen_drop; lia. }
  apply Forall_cons_iff in Hsz as [Ha Hsz]. apply Forall_cons_iff in Hsz as [Hb Hsz].
  apply Forall_cons_iff in Hsz as [Hc Hsz]. apply Forall_cons_iff in Hsz as [Hd _].
  rewrite syncsafe_value, bind_Ok by done.
  destruct (byte_at_inside (E:=no_err) rem 5 ltac:(lia)) as (fl & -> & _). rewrite bind_Ok. cbv zeta.
  unfold id3v2HeaderLen. eexists. split; [done|].
  pose proof (Z.mod_pos_bound a 128). pose proof (Z.mod_pos_bound b 128).
  pose proof (Z.mod_pos_bound c 128). pose proof (Z.mod_pos_bound d 128).
  destruct (negb _); lia.
Qed.

Lemma startID3Skip_ok rem s : bytes_ok rem → 10 ≤ blen rem →
  ∃ n, startID3Skip rem s = Ok (set_skip s n) ∧ 10 ≤ n < 2 ^ 29.
Proof.
  intros Hok Hl. destruct (id3v2TagLen_ok rem Hok Hl) as (n & Hn & Hr). exists n.
  unfold startID3Skip. by rewrite Hn.
Qed.

Lemma mp3_scan_from_ok i rem : bytes_ok rem → ∃ o, scan_from i rem = Ok o ∧
  match o with
  | None => True
  | Some (j, h) => ∃ n, 0 ≤ n ≤ blen rem ∧ j = i + n ∧ mpahdr.header_ok h
  end.
Proof.
  revert i. induction rem as [|b0 rest IH]; intros i Hok; [by eexists|].
  inversion_clear Hok as [|? ? Hb0 Hrest].
  cbn [scan_from]. destruct (Z.ltb_spec (blen (b0 :: rest)) mpahdr.HeaderLen) as [|Hl]; [by eexists|].
  unfold mpahdr.HeaderLen in Hl. pose proof Hl as Hl'. rewrite blen_cons in Hl.
  destruct (byte_at_inside (E:=no_err) rest 0 ltac:(lia)) as (b1 & -> & _). rewrite bind_Ok.
  assert (∃ o, scan_from (i + 1) rest = Ok o ∧
    match o with
    | None => True
    | Some (j, h) => ∃ n, 0 ≤ n ≤ blen (b0 :: rest) ∧ j = i + n ∧ mpahdr.header_ok h
    end) as Hrec.
  { destruct (IH (i + 1) Hrest) as ([[j h]|] & -> & Ho); eexists; (split; [done|]); [|done].
    destruct Ho as (n & Hn & -> & Hp). exists (n + 1). rewrite blen_cons. split_and!; [lia..|done]. }
  destruct (_ || _); [done|]. rewrite be_at_ok, bind_Ok by lia.
  destruct (mpahdr.Parse_cases (be_combine (take (Z.to_nat 4) (drop (Z.to_nat 0) (b0 :: rest)))))
    as [->|(h & -> & Hh)]; [done|].
  eexists. split; [done|]. exists 0. rewrite blen_cons. split_and!; [lia..|done].
Qed.

Lemma headerConsistent_total rem h : 0 ≤ mpahdr.FrameLen h → mpahdr.FrameLen h + 4 ≤ blen rem →
  ∃ b, headerConsistent rem h = Ok b.
Proof.
  intros. unfold headerConsistent. rewrite be_at_ok, bind_Ok by lia.
  destruct (mpahdr.Parse_cases (be_combine (take (Z.to_nat 4) (drop (Z.to_nat (mpahdr.FrameLen h)) rem))))
    as [->|(h' & -> & _)]; by eexists.
Qed.

Lemma mp3FrameDuration_pos h : mpahdr.header_ok h → 0 < mp3FrameDuration h.
Proof.
  intros [_ _ Hr Hs _]. unfold mp3FrameDuration. destruct (Z.leb_spec (mpahdr.SampleRate h) 0); [lia|].
  assert (384 ≤ mpahdr.SamplesPerFrame h).
  { repeat (apply elem_of_cons in Hs as [->|Hs]; [lia|]). by apply elem_of_nil in Hs. }
  unfold mediatime.Second. apply (Z.lt_le_trans _ 1); [lia|]. apply Z.div_le_lower_bound; lia.
Qed.

(** ** One iteration, from any well-formed state *)
Definition step_good (s : mp3Stream) (r : step_result mp3Stream) : Prop :=
  match r with
  | Continue s' => stream_ok s' ∧ (fuel s' < fuel s)%nat ∧ cut (backlog s) [] (backlog s')
  | Deliver d dur s' => stream_ok s' ∧ (fuel s' < fuel s)%nat ∧ 0 < dur ∧ 0 < blen d ∧
      cut (backlog s) [d] (backlog s')
  | Wait s' => stream_ok s' ∧ cut (backlog s) [] (backlog s') ∧ blen (backlog s') ≤ 2884
  end ∧
  match r with Continue s' | Deliver _ _ s' | Wait s' =>
    counted (blen (backlog s) - blen (backlog s')) (gaps s) (gaps s') end.

Lemma mp3_step_good_weaken s s1 r :
  stream_ok s → stream_ok s1 → (fuel s1 ≤ fuel s)%nat → cut (backlog s) [] (backlog s1) →
  counted (blen (backlog s) - blen (backlog s1)) (gaps s) (gaps s1) →
  step_good s1 r → step_good s r.
Proof.
  intros Hs Hs1 Hf Hcut Hc [Hr Hg].
  split; [|destruct r as [s'|d dur s'|s']; (eapply counted_trans; [exact Hc|exact Hg|lia])].
  destruct r as [s'|d dur s'|s']; destruct_and!; split_and!; try done; try lia;
    by apply (cut_trans _ [] _ _ _ Hcut).
Qed.

Lemma mp3_deliver_good h s :
  stream_ok s → mpahdr.header_ok h → mpahdr.FrameLen h ≤ blen (backlog s) →
  ∃ r, deliver h s = Ok r ∧ step_good s r.
Proof.
  intros Hs Hh Hl. unfold deliver. pose proof (mp3_blen_backlog s Hs) as Hb.
  pose proof (mpahdr.ho_bounds h Hh) as Hbd. pose proof Hs as [Ho _ Hg Hk].
  rewrite slice_ok, bind_Ok by lia.
  replace (off s + mpahdr.FrameLen h - off s) with (mpahdr.FrameLen h) by lia. fold (backlog s).
  eexists. split; [done|].
  destruct (mp3_advance_ok s (mpahdr.FrameLen h) (set_off s (off s + mpahdr.FrameLen h)) Hs)
    as (Hs' & Hbk & Hcut & Hlen); try done; [lia|].
  split; [split_and!; [done| |by apply mp3FrameDuration_pos|rewrite blen_take; lia|]|].
  - rewrite !mp3_blen_backlog in Hlen by done. unfold fuel. cbn [buf off id3Skip set_off] in *.
    destruct (id3Skip s =? 0); lia.
  - rewrite Hbk. rewrite <- (take_drop (Z.to_nat (mpahdr.FrameLen h)) (backlog s)) at 1.
    apply (cut_piece []). apply cut_refl.
  - apply counted_refl; [done|lia].
Qed.

Lemma mp3_discard_good s n b :
  stream_ok s → 0 < n ≤ blen (backlog s) →
  let s' := add_gap (set_synced (set_off s (off s + n)) b) in
  stream_ok s' ∧ (fuel s' < fuel s)%nat ∧ cut (backlog s) [] (backlog s') ∧
  blen (backlog s') = blen (backlog s) - n ∧
  counted (blen (backlog s) - blen (backlog s')) (gaps s) (gaps s').
Proof.
  intros Hs Hn s'. pose proof Hs as [_ _ _ Hk].
  destruct (mp3_advance_ok s n s' Hs ltac:(lia) eq_refl eq_refl (u64_range _) Hk) as (? & _ & ? & Hl).
  split_and!; try done; [|apply counted_once; lia].
  pose proof (mp3_blen_backlog s Hs). rewrite !mp3_blen_backlog in Hl by done. subst s'. unfold fuel.
  cbn [buf off id3Skip add_gap set_synced set_off] in *. destruct (id3Skip s =? 0); lia.
Qed.

Lemma wait_good s : stream_ok s → blen (backlog s) ≤ 2884 → step_good s (Wait s).
Proof.
  intros Hs Hl. split; [split_and!; [done|apply cut_refl|done]|].
  apply counted_refl; [apply Hs|lia].
Qed.

Lemma scan_step_good s : stream_ok s → ∃ r, scan_step s (backlog s) = Ok r ∧ step_good s r.
Proof.
  intros Hs. unfold scan_step, scanHeader.
  pose proof (mp3_backlog_bytes s Hs) as Hbytes. pose proof (so_gaps s Hs) as Hgaps.
  destruct (mp3_scan_from_ok 0 (backlog s) Hbytes) as ([[i h]|] & -> & Ho); rewrite bind_Ok; cbv zeta iota.
  2: { eexists. split; [done|]. unfold dropUnsynced, mpahdr.HeaderLen.
    destruct (Z.leb_spec (blen (backlog s)) (4 - 1)); [apply wait_good; [done|lia]|].
    destruct (mp3_discard_good s (blen (backlog s) - (4 - 1)) false Hs ltac:(lia)) as (?&?&?&Hl&?).
    split; [split_and!; try done; lia|done]. }
  destruct Ho as (n & Hn & -> & Hh). rewrite Z.add_0_l in *.
  set (s1 := if 0 <? n then set_synced (discard n s) false else s).
  assert (stream_ok s1 ∧ (fuel s1 ≤ fuel s)%nat ∧ cut (backlog s) [] (backlog s1) ∧
    counted (blen (backlog s) - blen (backlog s1)) (gaps s) (gaps s1)) as (Hs1 & Hf1 & Hcut1 & Hc1).
  { subst s1. destruct (Z.ltb_spec 0 n).
    - destruct (mp3_discard_good s n false Hs ltac:(lia)) as (Hs1 & Hf & ? & _ & ?).
      split_and!; try done. apply Nat.lt_le_incl, Hf.
    - split_and!; try done; [apply cut_refl|apply counted_refl; [done|lia]]. }
  rewrite mp3_backlog_slice, bind_Ok by done.
  enough (∃ r, (if blen (backlog s1) <? mpahdr.FrameLen h then mret (Wait s1)
      else if mpahdr.FrameLen h + mpahdr.HeaderLen <=? blen (backlog s1) then
        ok ← headerConsistent (backlog s1) h;
        if (ok : bool) then deliver h (set_synced s1 true)
        else if synced s1 then deliver h (set_synced s1 false) else mret (Continue (discard 1 s1))
      else if negb (synced s1) && negb (ended s1) then mret (Wait s1) else deliver h s1) = Ok r
      ∧ step_good s1 r) as (r & -> & Hr).
  { exists r. split; [done|]. by apply (mp3_step_good_weaken s s1). }
  pose proof (mpahdr.ho_bounds h Hh) as Hbd. unfold mpahdr.HeaderLen.
  destruct (Z.ltb_spec (blen (backlog s1)) (mpahdr.FrameLen h)).
  { eexists. split; [done|]. apply wait_good; [done|lia]. }
  assert (∀ b, ∃ r, deliver h (set_synced s1 b) = Ok r ∧ step_good s1 r) as Hdel.
  { intros b. apply (mp3_deliver_good h (set_synced s1 b)); [by apply mp3_set_synced_ok|done|done]. }
  destruct (Z.leb_spec (mpahdr.FrameLen h + 4) (blen (backlog s1))).
  - destruct (headerConsistent_total (backlog s1) h ltac:(lia) ltac:(lia)) as ([] & ->);
      rewrite bind_Ok; [apply Hdel|]. destruct (synced s1) eqn:Hsy; [apply Hdel|].
    eexists. split; [done|].
    destruct (mp3_discard_good s1 1 (synced s1) Hs1 ltac:(lia)) as (? & ? & ? & ? & ?).
    split; [split_and!; done|done].
  - destruct (negb (synced s1) && negb (ended s1)).
    + eexists. split; [done|]. apply wait_good; [done|lia].
    + by apply mp3_deliver_good.
Qed.

Lemma mp3_next_step_good s : stream_ok s → ∃ r, next_step s = Ok r ∧ step_good s r.
Proof.
  intros Hs. unfold next_step. destruct (consumeID3 s) as [ready s1] eqn:Hc.
  destruct (consumeID3_ok s ready s1 Hs Hc) as (Hs1 & Hcut & Hg & Hready & Hle & Hzero & Hnz).
  assert (counted (blen (backlog s) - blen (backlog s1)) (gaps s) (gaps s1)) as Hcnt.
  { rewrite Hg. apply counted_refl; [apply Hs|lia]. }
  destruct ready; cbn [negb].
  2: { eexists. split; [done|]. split; [split_and!; [done..|rewrite Hready, blen_nil; lia]|done]. }
  assert (fuel s1 ≤ fuel s)%nat as Hf.
  { destruct (Z.eqb_spec (id3Skip s) 0) as [H0|H0].
    - by rewrite (Hzero H0).
    - specialize (Hnz H0 eq_refl). rewrite !mp3_blen_backlog in Hnz by done. unfold fuel. rewrite Hready.
      pose proof (so_off _ Hs1). pose proof (so_off _ Hs). destruct (Z.eqb_spec (id3Skip s) 0); cbn [Z.eqb]; lia. }
  rewrite mp3_backlog_slice, bind_Ok by done.
  destruct (looksLikeID3_ok (backlog s1)) as (isID3 & needMore & -> & Hmore & Henough).
  rewrite bind_Ok. cbv beta iota. destruct isID3; [destruct needMore|].
  - eexists. split; [done|]. apply (mp3_step_good_weaken s s1); try done.
    apply wait_good; [done|]. specialize (Hmore eq_refl eq_refl). lia.
  - destruct (startID3Skip_ok (backlog s1) s1 (mp3_backlog_bytes _ Hs1) (Henough eq_refl eq_refl))
      as (n & -> & Hn). rewrite bind_Ok. eexists. split; [done|].
    apply (mp3_step_good_weaken s s1); try done. pose proof Hs1 as [? ? ? ?].
    assert (stream_ok (set_skip s1 n)) by (split; try done; cbn; lia).
    split; [split_and!; [done| |apply cut_refl]|apply counted_refl; [done|]].
    + unfold fuel. cbn [buf off id3Skip set_skip]. rewrite Hready. destruct (Z.eqb_spec n 0); cbn [Z.eqb]; lia.
    + change (backlog (set_skip s1 n)) with (backlog s1). lia.
  - destruct (scan_step_good s1 Hs1) as (r & -> & Hr). exists r. split; [done|].
    by apply (mp3_step_good_weaken s s1).
Qed.

#[global] Program Instance mp3_framer_laws : FramerLaws mp3Stream := {
  wf := stream_ok;
  framer.backlog := backlog;
  buffered s := blen (buf s);
  max_wait := 2884
}.
Next Obligation. apply mp3_next_step_good. Qed.
Next Obligation.
  intros s p Hs Hp. pose proof Hs as [Ho Hb Hg Hk]. split_and!.
  - split; cbn; [blia|by apply Forall_app|done|done].
  - change (drop (Z.to_nat (off s)) (buf s ++ p) = drop (Z.to_nat (off s)) (buf s) ++ p).
    rewrite drop_app_le; [done|]. unfold blen in Ho. lia.
  - cbn. by rewrite blen_app.
  - done.
Qed.
Next Obligation.
  intros s Hs. pose proof Hs as [Ho Hb Hg Hk]. cbn. unfold Compact.
  destruct (Z.eqb_spec (off s) 0) as [H0|].
  - split_and!; try done. rewrite mp3_blen_backlog, H0 by done. lia.
  - split_and!; try done. split; cbn; [|by apply Forall_drop|done|done]. rewrite blen_drop; lia.
Qed.
Next Obligation. intros s [Ho Hb Hg Hk]. split_and!; [by split|done|done]. Qed.
Next Obligation.
  intros s Hs. pose proof Hs as [Ho Hb Hg Hk]. cbn. rewrite mp3_blen_backlog by done. unfold Finish.
  destruct (Z.ltb_spec 0 (blen (buf s) - off s)), (Z.eqb_spec (blen (buf s) - off s) 0); try lia.
  - split; [|done]. split; try done. apply u64_range.
  - split; [done|]. rewrite Z.add_0_r, u64_small; done.
Qed.
Next Obligation. by intros s [_ _ Hg _]. Qed.
Next Obligation. intros s. cbn. unfold fuel. lia. Qed.

(** ** Framing a well-formed stream *)

(** A coded frame whose header declares exactly its length. *)
Record frame_ok (f : list Z) (h : mpahdr.Header) : Prop := {
  fo_bytes : bytes_ok f;
  fo_word : ∃ w, be_at (E:=no_err) 4 f 0 = Ok w ∧ mpahdr.Parse w = Ok h;
  fo_len : mpahdr.FrameLen h = blen f
}.

Definition same_stream (h h' : mpahdr.Header) : Prop :=
  mpahdr.Version h = mpahdr.Version h' ∧ mpahdr.Layer h = mpahdr.Layer h' ∧
  mpahdr.SampleRate h = mpahdr.SampleRate h'.

(** A frame paired with its parsed header. *)
Abbreviation unit := (list Z * mpahdr.Header)%type.
Definition outs (us : list unit) : list (list Z * Z) := (λ u, (u.1, mp3FrameDuration u.2)) <$> us.
Definition wires (us : list unit) : list Z := concat us.*1.

Record units_ok (us : list unit) : Prop := {
  us_ok : Forall (λ u, frame_ok u.1 u.2) us;
  us_same : ∀ u v, u ∈ us → v ∈ us → same_stream u.2 v.2
}.

Lemma units_ok_cons u us : units_ok (u :: us) →
  frame_ok u.1 u.2 ∧ units_ok us ∧ ∀ v, v ∈ us → same_stream u.2 v.2.
Proof.
  intros [Hok Hs]. apply Forall_cons_iff in Hok as [? ?]. split_and!; [done| |].
  - split; [done|]. intros v w Hv Hw. apply Hs; apply elem_of_cons; by right.
  - intros v Hv. apply Hs; apply elem_of_cons; [by left|by right].
Qed.

(** The sync word fixes the first octet and the top of the second. *)
Lemma sync_bytes a b c d h : bytes_ok [a; b; c; d] →
  mpahdr.Parse (be_combine [a; b; c; d]) = Ok h → a = 0xFF ∧ Z.land b 0xE0 = 0xE0.
Proof.
  intros Hok Hp.
  apply Forall_cons_iff in Hok as [Ha Hok]. apply Forall_cons_iff in Hok as [Hb Hok].
  apply Forall_cons_iff in Hok as [Hc Hok]. apply Forall_cons_iff in Hok as [Hd _].
  unfold is_u8 in *. unfold mpahdr.Parse in Hp.
  destruct (negb _) eqn:Hs in Hp; [done|]. clear Hp. breflect.
  set (w := be_combine [a; b; c; d]) in *.
  assert (w = (a * 2 ^ 8 + b) * 2 ^ 16 + (c * 2 ^ 8 + d)) as Hw by (unfold w, be_combine; cbn [fold_left]; lia).
  assert (Z.shiftr w 16 = a * 2 ^ 8 + b) as H16.
  { rewrite Z.shiftr_div_pow2, Hw, Z.div_add_l by lia. rewrite (Z.div_small (c * 2 ^ 8 + d)); lia. }
  apply (f_equal (λ x, Z.shiftr x 16)) in Hs. rewrite Z.shiftr_land, H16 in Hs.
  change (Z.shiftr mpahdr.syncMask 16) with 0xFFE0 in Hs. split.
  - assert (Z.shiftr (a * 2 ^ 8 + b) 8 = a) as H8.
    { rewrite Z.shiftr_div_pow2, Z.div_add_l, (Z.div_small b) by lia. lia. }
    apply (f_equal (λ x, Z.shiftr x 8)) in Hs. rewrite Z.shiftr_land, H8 in Hs.
    change (Z.shiftr 0xFFE0 8) with 0xFF in Hs. rewrite (land_ones_mod 8) in Hs by done.
    rewrite Z.mod_small in Hs by lia. exact Hs.
  - apply (f_equal (λ x, Z.land x 0xE0)) in Hs. rewrite <- Z.land_assoc in Hs.
    change (Z.land 0xFFE0 0xE0) with (Z.land 0xFF 0xE0) in Hs. rewrite Z.land_assoc in Hs.
    rewrite (land_ones_mod 8 _ 0xFF), Z.add_comm, Z.mod_add, Z.mod_small in Hs by (done || lia).
    exact Hs.
Qed.

Lemma frame_head f h : frame_ok f h → ∃ b c d f',
  f = 0xFF :: b :: c :: d :: f' ∧ Z.land b 0xE0 = 0xE0 ∧
  mpahdr.Parse (be_combine [0xFF; b; c; d]) = Ok h ∧ mpahdr.header_ok h.
Proof.
  intros [Hb (w & Hw & Hp) Hl]. pose proof (mpahdr.mpa_Parse_ok _ _ Hp) as Hh.
  pose proof (mpahdr.ho_bounds h Hh).
  destruct f as [|a [|b [|c [|d f']]]]; try (rewrite ?blen_cons, blen_nil in Hl; lia).
  assert (w = be_combine [a; b; c; d]) as ->.
  { rewrite be_at_ok in Hw by lia. injection Hw as <-. done. }
  assert (bytes_ok [a; b; c; d]) as H4 by exact (Forall_take is_u8 4%nat _ Hb).
  destruct (sync_bytes a b c d h H4 Hp) as [-> Hm]. by exists b, c, d, f'.
Qed.

Lemma mp3_scan_hit i rem b h :
  4 ≤ blen (0xFF :: rem) → byte_at (E:=no_err) rem 0 = Ok b → Z.land b 0xE0 = 0xE0 →
  mpahdr.Parse (be_combine (take 4 (0xFF :: rem))) = Ok h →
  scan_from i (0xFF :: rem) = Ok (Some (i, h)).
Proof.
  intros Hl Hb Hm Hp. cbn [scan_from].
  destruct (Z.ltb_spec (blen (0xFF :: rem)) mpahdr.HeaderLen); [unfold mpahdr.HeaderLen in *; lia|].
  rewrite Hb, bind_Ok, Hm, be_at_ok, bind_Ok by lia.
  change (take (Z.to_nat 4) (drop (Z.to_nat 0) (0xFF :: rem))) with (take 4 (0xFF :: rem)).
  by rewrite Hp.
Qed.

Lemma mp3_scan_head f h rest : frame_ok f h → scanHeader (f ++ rest) = Ok (Some (0, h)).
Proof.
  intros Hf. destruct (frame_head f h Hf) as (b & c & d & f' & -> & Hm & Hp & _).
  apply (mp3_scan_hit 0 _ b); [|done..].
  change (4 ≤ blen (0xFF :: b :: c :: d :: f' ++ rest)). blia.
Qed.

Lemma mp3_scan_short rem : blen rem < 4 → scanHeader rem = Ok None.
Proof.
  intros Hl. unfold scanHeader. destruct rem as [|b rest]; [done|]. cbn [scan_from].
  unfold mpahdr.HeaderLen. destruct (Z.ltb_spec (blen (b :: rest)) 4); [done|lia].
Qed.

Lemma not_ID3 f h rest : frame_ok f h → looksLikeID3 (f ++ rest) = Ok (false, false).
Proof.
  intros Hf. destruct (frame_head f h Hf) as (b & c & d & f' & -> & _).
  unfold looksLikeID3. destruct (Z.ltb_spec (blen ((255 :: b :: c :: d :: f') ++ rest)) 3); [done|].
  cbn [app]. change (byte_at (255 :: b :: c :: d :: f' ++ rest) 0) with (@Ok no_err Z 255).
  change (byte_at (255 :: b :: c :: d :: f' ++ rest) 1) with (@Ok no_err Z b).
  change (byte_at (255 :: b :: c :: d :: f' ++ rest) 2) with (@Ok no_err Z c). done.
Qed.

Lemma headerConsistent_frame r f h h' rest :
  mpahdr.FrameLen h = blen r → frame_ok f h' → same_stream h h' →
  headerConsistent (r ++ f ++ rest) h = Ok true.
Proof.
  intros Hr Hf (E1 & E2 & E3). destruct (frame_head f h' Hf) as (b & c & d & f' & -> & _ & Hp & _).
  pose proof (blen_nonneg r). unfold headerConsistent. rewrite be_at_ok, bind_Ok;
    [|lia|lia|rewrite !blen_app, !blen_cons; pose proof (blen_nonneg f'); pose proof (blen_nonneg rest); lia].
  rewrite drop_blen_app by done. cbn [app].
  change (take (Z.to_nat 4) _) with [0xFF; b; c; d]. rewrite Hp, E1, E2, E3, !Z.eqb_refl. done.
Qed.

(** The stream from here on: the bytes of a pending tag, then whole frames. *)
Definition pending (s : mp3Stream) (fut : list Z) (us : list unit) : Prop :=
  id3Skip s ≤ blen (backlog s ++ fut) ∧
  drop (Z.to_nat (id3Skip s)) (backlog s ++ fut) = wires us.

Lemma consumeID3_pending s fut us ready s' :
  stream_ok s → pending s fut us → consumeID3 s = (ready, s') →
  pending s' fut us ∧ ended s' = ended s ∧ (ready = false → fut ≠ []).
Proof.
  intros Hs [Hle Hd]. pose proof Hs as [Ho _ Hg Hk]. unfold consumeID3.
  destruct (Z.eqb_spec (id3Skip s) 0) as [H0|H0]; [intros [= <- <-]; by repeat split|].
  intros [= <- <-]. cbn [id3Skip set_skip set_off].
  pose proof (mp3_blen_backlog s Hs) as Hb.
  set (n := Z.min (id3Skip s) (blen (buf s) - off s)).
  destruct (mp3_advance_ok s n (set_skip (set_off s (off s + n)) (id3Skip s - n)) Hs)
    as (Hs' & Hbk & Hcut & Hlen); try done; try (cbn; lia).
  rewrite blen_app in Hle. split_and!; [|done|].
  - unfold pending. rewrite blen_app, Hlen. cbn [id3Skip set_skip]. split; [lia|].
    rewrite <- Hd, Hbk. rewrite <- drop_app_le by (unfold blen in *; lia).
    rewrite drop_drop. f_equal. lia.
  - intros Hne%Z.eqb_neq ->. rewrite blen_nil in Hle. lia.
Qed.

(** One iteration past the tag, at a frame boundary. *)
Lemma scan_step_unit s u us fut :
  stream_ok s → units_ok (u :: us) → backlog s ++ fut = wires (u :: us) →
  (scan_step s (backlog s) = Ok (Wait s) ∧ (ended s = true → fut ≠ [])) ∨
  ∃ s', scan_step s (backlog s) = Ok (Deliver u.1 (mp3FrameDuration u.2) s') ∧
    stream_ok s' ∧ id3Skip s' = id3Skip s ∧ backlog s' ++ fut = wires us ∧
    ended s' = ended s ∧ gaps s' = gaps s.
Proof.
  intros Hs Hus Hb. destruct (units_ok_cons _ _ Hus) as (Hu & Hus' & Hsame).
  destruct u as [f h]. cbn [fst snd] in *. change (wires ((f, h) :: us)) with (f ++ wires us) in Hb.
  destruct (frame_head f h Hu) as (_ & _ & _ & _ & _ & _ & _ & Hh).
  pose proof (mpahdr.ho_bounds h Hh) as Hbd. pose proof (fo_len f h Hu) as Hl.
  assert (ended s = true → blen (backlog s) < blen f → fut ≠ []) as Hend.
  { intros _ Hlt ->. rewrite app_nil_r in Hb. apply (f_equal blen) in Hb.
    rewrite blen_app in Hb. pose proof (blen_nonneg (wires us)). lia. }
  unfold scan_step. destruct (Z.ltb_spec (blen (backlog s)) 4) as [Hlt|Hge].
  { left. rewrite mp3_scan_short, bind_Ok by done. split; [|intros; apply Hend; [done|lia]].
    unfold dropUnsynced, mpahdr.HeaderLen. destruct (Z.leb_spec (blen (backlog s)) (4 - 1)); [done|lia]. }
  assert (scanHeader (backlog s) = Ok (Some (0, h))) as Hscan.
  { destruct (frame_head f h Hu) as (b & c & d & f' & -> & Hm & Hp & _).
    destruct (app_split_le _ _ [255; b; c; d] _ Hb) as (r & -> & _); [done|].
    apply (mp3_scan_hit 0 ([b; c; d] ++ r) b); [|done..].
    change (4 ≤ blen (255 :: b :: c :: d :: r)). blia. }
  rewrite Hscan, bind_Ok. cbv zeta iota. change (0 <? 0) with false. cbv iota.
  rewrite mp3_backlog_slice, bind_Ok by done.
  destruct (Z.ltb_spec (blen (backlog s)) (mpahdr.FrameLen h)).
  { left. split; [done|]. intros. apply Hend; [done|lia]. }
  destruct (app_split_le _ _ _ _ Hb) as (r & Hr & Hfut); [lia|].
  assert (∀ b, ∃ s', deliver h (set_synced s b) = Ok (Deliver f (mp3FrameDuration h) s') ∧
    stream_ok s' ∧ id3Skip s' = id3Skip s ∧ backlog s' ++ fut = wires us ∧
    ended s' = ended s ∧ gaps s' = gaps s) as Hdel.
  { intros b. pose proof (mp3_blen_backlog s Hs) as Hlen. pose proof Hs as [Ho _ Hg Hk].
    unfold deliver. cbn [buf off set_synced]. rewrite slice_ok, bind_Ok by lia.
    replace (off s + mpahdr.FrameLen h - off s) with (mpahdr.FrameLen h) by lia. fold (backlog s).
    destruct (mp3_advance_ok s (mpahdr.FrameLen h)
      (set_off (set_synced s b) (off s + mpahdr.FrameLen h)) Hs) as (Hs' & Hbk & _); try done; [lia|].
    eexists. split; [rewrite Hr at 1; rewrite take_blen_app by done; done|].
    rewrite Hbk, Hr, drop_blen_app by done. by split_and!. }
  destruct (Z.leb_spec (mpahdr.FrameLen h + mpahdr.HeaderLen) (blen (backlog s))) as [Hlook|].
  - right. rewrite Hr, blen_app in Hlook. unfold mpahdr.HeaderLen in Hlook.
    destruct us as [|[g hg] us].
    { change (wires []) with (@nil Z) in Hfut. apply app_nil in Hfut as [-> _].
      rewrite blen_nil in Hlook. lia. }
    destruct (units_ok_cons _ _ Hus') as (Hg & _ & _). cbn [fst snd] in Hg.
    pose proof (fo_len g hg Hg) as Hgl.
    destruct (headerConsistent_total (backlog s) h ltac:(lia) ltac:(rewrite Hr, blen_app; lia)) as (ok & Hok).
    assert (ok = true) as ->.
    { destruct (frame_head g hg Hg) as (b & c & d & g' & -> & _).
      change (wires ((255 :: b :: c :: d :: g', hg) :: us)) with ([255; b; c; d] ++ g' ++ wires us) in Hfut.
      destruct (app_split_le _ _ _ _ Hfut) as (y & -> & _); [change (blen [255; b; c; d]) with 4; lia|].
      assert (headerConsistent (f ++ ([255; b; c; d] ++ g') ++ y) h = Ok true) as Hc.
      { apply (headerConsistent_frame f _ h hg); [done|done|]. apply (Hsame (255 :: b :: c :: d :: g', hg)), elem_of_cons. by left. }
      unfold headerConsistent in *. rewrite Hr in Hok.
      assert (∀ z, be_at (E:=no_err) 4 (f ++ [255; b; c; d] ++ z) (mpahdr.FrameLen h) =
        Ok (be_combine [255; b; c; d])) as Hbe.
      { intros z. unfold be_at. by rewrite (slice_mid f [255; b; c; d] z) by done. }
      rewrite <- app_assoc in Hc. rewrite Hbe in Hok, Hc. rewrite Hc in Hok. by injection Hok. }
    rewrite Hok, bind_Ok. apply Hdel.
  - destruct (negb (synced s) && negb (ended s)) eqn:Hsy.
    + left. split; [done|]. intros He. rewrite He, andb_false_r in Hsy. done.
    + right. destruct (Hdel (synced s)) as (s' & Hd & ?). exists s'. split; [|done].
      rewrite <- Hd. by destruct s.
Qed.

Lemma next_step_units s us fut :
  stream_ok s → units_ok us → pending s fut us →
  (∃ s', next_step s = Ok (Wait s') ∧ stream_ok s' ∧ pending s' fut us ∧ ended s' = ended s ∧
    gaps s' = gaps s ∧ (ended s = true → fut = [] → us = [] ∧ backlog s' = [])) ∨
  ∃ u us' s', us = u :: us' ∧ next_step s = Ok (Deliver u.1 (mp3FrameDuration u.2) s') ∧
    stream_ok s' ∧ pending s' fut us' ∧ ended s' = ended s ∧ gaps s' = gaps s.
Proof.
  intros Hs Hus Hp. unfold next_step. destruct (consumeID3 s) as [ready s1] eqn:Hc.
  destruct (consumeID3_ok s ready s1 Hs Hc) as (Hs1 & _ & Hg & Hready & _).
  destruct (consumeID3_pending s fut us ready s1 Hs Hp Hc) as (Hp1 & He1 & Hf1).
  destruct ready; cbn [negb].
  2: { left. exists s1. split_and!; try done. intros _ ->. by destruct (Hf1 eq_refl). }
  destruct Hp1 as [_ Hd1]. rewrite Hready in Hd1. change (Z.to_nat 0) with 0%nat in Hd1. rewrite drop_0 in Hd1.
  rewrite mp3_backlog_slice, bind_Ok by done.
  assert (looksLikeID3 (backlog s1) = Ok (false, false)) as ->.
  { destruct us as [|[f h] us].
    { change (wires []) with (@nil Z) in Hd1. apply app_nil in Hd1 as [-> _]. done. }
    destruct (units_ok_cons _ _ Hus) as (Hu & _ & _). cbn [fst snd] in Hu.
    change (wires ((f, h) :: us)) with (f ++ wires us) in Hd1.
    destruct (frame_head f h Hu) as (b & c & d & f' & -> & _).
    unfold looksLikeID3. destruct (Z.ltb_spec (blen (backlog s1)) 3); [done|].
    destruct (backlog s1) as [|x0 [|x1 [|x2 l]]]; try (rewrite ?blen_cons, blen_nil in *; lia).
    injection Hd1 as -> -> -> _.
    change (byte_at (255 :: b :: c :: l) 0) with (@Ok no_err Z 255).
    change (byte_at (255 :: b :: c :: l) 1) with (@Ok no_err Z b).
    change (byte_at (255 :: b :: c :: l) 2) with (@Ok no_err Z c). done. }
  rewrite bind_Ok. cbv beta iota.
  assert (∀ s', stream_ok s' → id3Skip s' = id3Skip s1 → ∀ vs, backlog s' ++ fut = wires vs → pending s' fut vs) as Hpend.
  { intros s' Hs' Hk vs Hb. unfold pending. rewrite Hk, Hready. split; [apply blen_nonneg|].
    change (Z.to_nat 0) with 0%nat. by rewrite drop_0. }
  destruct us as [|u us].
  - left. change (wires []) with (@nil Z) in Hd1. pose proof Hd1 as Hd2. apply app_nil in Hd2 as [Hd2 _].
    exists s1. unfold scan_step. rewrite mp3_scan_short, bind_Ok by (rewrite Hd2, blen_nil; lia).
    split_and!; try done; [by rewrite Hd2|by apply Hpend].
  - destruct (scan_step_unit s1 u us fut Hs1 Hus Hd1) as [[-> Hend]|(s2 & -> & Hs2 & Hk2 & Hb2 & He2 & Hg2)].
    + left. exists s1. split_and!; try done; [by apply Hpend|]. intros He ->. rewrite <- He1 in He.
      by destruct (Hend He).
    + right. exists u, us, s2. split_and!; try done; [by apply Hpend|by rewrite He2|by rewrite Hg2].
Qed.

Lemma mp3_run_units us : ∀ s fut, stream_ok s → units_ok us → pending s fut us →
  ∃ us1 us2 s', us = us1 ++ us2 ∧ run s (outs us1) s' ∧ stream_ok s' ∧ pending s' fut us2 ∧
    units_ok us2 ∧ ended s' = ended s ∧ gaps s' = gaps s ∧
    (ended s = true → fut = [] → us2 = [] ∧ backlog s' = []).
Proof.
  assert (∀ us s s1 fut, next_step s = Ok (Wait s1) → stream_ok s1 → pending s1 fut us → units_ok us →
    ended s1 = ended s → gaps s1 = gaps s → (ended s = true → fut = [] → us = [] ∧ backlog s1 = []) →
    ∃ us1 us2 s', us = us1 ++ us2 ∧ run s (outs us1) s' ∧ stream_ok s' ∧ pending s' fut us2 ∧
    units_ok us2 ∧ ended s' = ended s ∧ gaps s' = gaps s ∧
    (ended s = true → fut = [] → us2 = [] ∧ backlog s' = [])) as Hwait.
  { intros vs s s1 fut Hstep. intros. exists [], vs, s1. split_and!; try done. by apply run_wait. }
  induction us as [|u us IH]; intros s fut Hs Hus Hp;
    destruct (next_step_units s _ fut Hs Hus Hp) as
      [(s1 & Hstep & Hs1 & Hp1 & He1 & Hg1 & Hend)|(v & vs & s1 & Heq & Hstep & Hs1 & Hp1 & He1 & Hg1)];
    [by eapply Hwait|done|by eapply Hwait|injection Heq as <- <-].
  destruct (units_ok_cons _ _ Hus) as (_ & Hvs & _).
  destruct (IH s1 fut Hs1 Hvs Hp1) as (us1 & us2 & s2 & -> & Hrun & Hs2 & Hp2 & Hu2 & He2 & Hg2 & Hend).
  exists (u :: us1), us2, s2. split_and!; try done; [|by rewrite He2|by rewrite Hg2|by rewrite <- He1].
  by eapply run_deliver.
Qed.

(** ** The leading tag *)

(** An ID3v2 tag: magic, version, flags, the body's length as four 7-bit digits,
    the body, and the footer the flag announces. *)
Definition id3_head (v r : Z) (footer : bool) (n : Z) : list Z :=
  [73; 68; 51; v; r; if footer then id3v2FooterFlag else 0;
   n / 2 ^ 21 mod 128; n / 2 ^ 14 mod 128; n / 2 ^ 7 mod 128; n mod 128].

Definition tag_ok (t : list Z) : Prop :=
  ∃ v r footer body foot, t = id3_head v r footer (blen body) ++ body ++ foot ∧
    is_u8 v ∧ is_u8 r ∧ bytes_ok body ∧ bytes_ok foot ∧ blen body < 2 ^ 28 ∧
    blen foot = if footer then 10 else 0.

Lemma digits_ok n : 0 ≤ n < 2 ^ 28 →
  bytes_ok [n / 2 ^ 21 mod 128; n / 2 ^ 14 mod 128; n / 2 ^ 7 mod 128; n mod 128] ∧
  syncsafe [n / 2 ^ 21 mod 128; n / 2 ^ 14 mod 128; n / 2 ^ 7 mod 128; n mod 128] = Ok n.
Proof.
  intros Hn. assert (∀ x, is_u8 (x mod 128)) as Hd
    by (intros x; unfold is_u8; pose proof (Z.mod_pos_bound x 128); lia).
  split; [by repeat constructor; apply Hd|].
  rewrite syncsafe_value by apply Hd. f_equal.
  change (2 ^ 21) with 2097152. change (2 ^ 14) with 16384. change (2 ^ 7) with 128.
  Z.div_mod_to_equations. lia.
Qed.

Lemma top_bit n : negb (Z.land (n mod 128) 0x80 =? 0) = false.
Proof.
  pose (P := λ x, Z.land x 0x80 =? 0).
  assert (P (n mod 128) = true) as H.
  { apply (range_forall 128); [by vm_compute|]. apply Z.mod_pos_bound. lia. }
  unfold P in H. by rewrite H.
Qed.

Lemma tag_head_reads v r footer n rest :
  0 ≤ n < 2 ^ 28 → let rem := id3_head v r footer n ++ rest in
  looksLikeID3 rem = Ok (true, false) ∧
  id3v2TagLen rem = Ok (10 + n + if footer then 10 else 0).
Proof.
  intros Hn rem. assert (10 ≤ blen rem) as Hl.
  { subst rem. rewrite blen_app. change (blen (id3_head v r footer n)) with 10.
    pose proof (blen_nonneg rest). lia. }
  split.
  - unfold looksLikeID3. destruct (Z.ltb_spec (blen rem) 3); [lia|].
    change (byte_at rem 0) with (@Ok no_err Z 73). change (byte_at rem 1) with (@Ok no_err Z 68).
    change (byte_at rem 2) with (@Ok no_err Z 51). rewrite !bind_Ok.
    cbn [negb orb Z.eqb Pos.eqb]. unfold id3v2HeaderLen. destruct (Z.ltb_spec (blen rem) 10); [lia|].
    change (byte_at rem 6) with (@Ok no_err Z (n / 2 ^ 21 mod 128)).
    change (byte_at rem 7) with (@Ok no_err Z (n / 2 ^ 14 mod 128)).
    change (byte_at rem 8) with (@Ok no_err Z (n / 2 ^ 7 mod 128)).
    change (byte_at rem 9) with (@Ok no_err Z (n mod 128)).
    rewrite !bind_Ok, !top_bit. done.
  - unfold id3v2TagLen. rewrite slice_ok, bind_Ok by lia.
    change (take _ _) with [n / 2 ^ 21 mod 128; n / 2 ^ 14 mod 128; n / 2 ^ 7 mod 128; n mod 128].
    rewrite (proj2 (digits_ok n Hn)), bind_Ok.
    change (byte_at rem 5) with (@Ok no_err Z (if footer then id3v2FooterFlag else 0)).
    rewrite bind_Ok. unfold id3v2HeaderLen. cbv [mret res_ret]. f_equal.
    destruct footer.
    + change (negb (Z.land id3v2FooterFlag id3v2FooterFlag =? 0)) with true. cbv iota. lia.
    + change (negb (Z.land 0 id3v2FooterFlag =? 0)) with false. cbv iota. lia.
Qed.

(** What the framer still has to read: a pending skip then frames, or a whole tag
    then frames. *)
Definition rep (s : mp3Stream) (fut : list Z) (us : list unit) : Prop :=
  pending s fut us ∨ ∃ t, tag_ok t ∧ id3Skip s = 0 ∧ backlog s ++ fut = t ++ wires us.

Lemma next_step_tag s t us fut :
  stream_ok s → tag_ok t → id3Skip s = 0 → backlog s ++ fut = t ++ wires us →
  (next_step s = Ok (Wait s) ∧ fut ≠ []) ∨
  ∃ s', next_step s = Ok (Continue s') ∧ stream_ok s' ∧ pending s' fut us ∧ ended s' = ended s ∧
    gaps s' = gaps s.
Proof.
  intros Hs (v & r & footer & body & foot & -> & Hv & Hr & Hbody & Hfoot & Hlen & Hfl) Hk Hb.
  pose proof (blen_nonneg body). pose proof (blen_nonneg foot).
  unfold next_step, consumeID3. rewrite Hk. cbn [negb Z.eqb]. rewrite mp3_backlog_slice, bind_Ok by done.
  destruct (Z.ltb_spec (blen (backlog s)) 10) as [Hlt|Hge].
  - left. split.
    2: { intros ->. rewrite app_nil_r in Hb. rewrite Hb, !blen_app in Hlt.
      change (blen (id3_head v r footer (blen body))) with 10 in Hlt.
      pose proof (blen_nonneg (wires us)). lia. }
    destruct (Z.ltb_spec (blen (backlog s)) 3) as [Hlt3|Hge3].
    + assert (looksLikeID3 (backlog s) = Ok (false, false)) as ->.
      { unfold looksLikeID3. destruct (Z.ltb_spec (blen (backlog s)) 3); [done|lia]. }
      rewrite bind_Ok. cbv beta iota. unfold scan_step. rewrite mp3_scan_short, bind_Ok by lia.
      unfold dropUnsynced, mpahdr.HeaderLen. destruct (Z.leb_spec (blen (backlog s)) (4 - 1)); [done|lia].
    + assert (looksLikeID3 (backlog s) = Ok (true, true)) as ->; [|done].
      destruct (app_split_le _ _ [73; 68; 51] _ Hb) as (x & Hx & _); [done|]. rewrite Hx in *.
      unfold looksLikeID3. destruct (Z.ltb_spec (blen ([73; 68; 51] ++ x)) 3); [lia|].
      change (byte_at ([73; 68; 51] ++ x) 0) with (@Ok no_err Z 73).
      change (byte_at ([73; 68; 51] ++ x) 1) with (@Ok no_err Z 68).
      change (byte_at ([73; 68; 51] ++ x) 2) with (@Ok no_err Z 51). rewrite !bind_Ok.
      cbn [negb orb Z.eqb Pos.eqb]. unfold id3v2HeaderLen.
      destruct (Z.ltb_spec (blen ([73; 68; 51] ++ x)) 10); [done|lia].
  - right. rewrite <- !app_assoc in Hb.
    destruct (app_split_le _ _ _ _ Hb) as (x & Hx & Hxf); [exact Hge|].
    destruct (tag_head_reads v r footer (blen body) x ltac:(lia)) as [Hlook Htag]. rewrite <- Hx in *.
    rewrite Hlook, bind_Ok. cbv beta iota. unfold startID3Skip. rewrite Htag, !bind_Ok.
    eexists. split; [done|]. pose proof Hs as [? ? ? ?].
    split; [split; try done; cbn; destruct footer; lia|]. split; [|done].
    unfold pending. cbn [id3Skip set_skip].
    change (backlog (set_skip s (10 + blen body + (if footer then 10 else 0)))) with (backlog s).
    rewrite Hb, (app_assoc body), (app_assoc (id3_head _ _ _ _)), <- Hfl.
    assert (blen (id3_head v r footer (blen body) ++ body ++ foot) = 10 + blen body + blen foot) as Hbl.
    { rewrite !blen_app. change (blen (id3_head v r footer (blen body))) with 10. lia. }
    split; [rewrite blen_app, Hbl; pose proof (blen_nonneg (wires us)); lia|].
    by rewrite drop_blen_app by lia.
Qed.

Lemma run_rep us s fut : stream_ok s → units_ok us → rep s fut us →
  ∃ us1 us2 s', us = us1 ++ us2 ∧ run s (outs us1) s' ∧ stream_ok s' ∧ rep s' fut us2 ∧
    units_ok us2 ∧ ended s' = ended s ∧ gaps s' = gaps s ∧
    (ended s = true → fut = [] → us2 = [] ∧ backlog s' = []).
Proof.
  intros Hs Hus [Hp|(t & Ht & Hk & Hb)].
  - destruct (mp3_run_units us s fut Hs Hus Hp) as (us1 & us2 & s' & ? & ? & ? & ? & ? & ? & ? & ?).
    exists us1, us2, s'. split_and!; try done. by left.
  - destruct (next_step_tag s t us fut Hs Ht Hk Hb) as [[Hstep Hf]|(s1 & Hstep & Hs1 & Hp1 & He1 & Hg1)].
    + exists [], us, s. split_and!; try done; [by apply run_wait|]. right. by exists t.
    + destruct (mp3_run_units us s1 fut Hs1 Hus Hp1) as (us1 & us2 & s' & ? & ? & ? & ? & ? & He & Hg & Hend).
      exists us1, us2, s'. split_and!; try done; [by eapply run_continue|by left|by rewrite He|by rewrite Hg|].
      by rewrite <- He1.
Qed.

Lemma mp3_wf_of s : stream_ok s → wf s.
Proof. done. Qed.
Lemma mp3_gap_of (s : mp3Stream) : framer.GapCount s = gaps s.
Proof. done. Qed.
Lemma mp3_outs_app us vs : outs (us ++ vs) = outs us ++ outs vs.
Proof. unfold outs. by rewrite fmap_app. Qed.

(** [rep] only reads the backlog and the pending skip. *)
Lemma rep_backlog s s' fut fut' us :
  id3Skip s' = id3Skip s → backlog s' ++ fut' = backlog s ++ fut → rep s fut us → rep s' fut' us.
Proof. intros Hk Hb. unfold rep, pending. by rewrite Hk, Hb. Qed.

Lemma feed_reps chunks : ∀ s us fut,
  stream_ok s → Forall bytes_ok chunks → units_ok us → rep s (concat chunks ++ fut) us →
  ∃ us1 us2 s', us = us1 ++ us2 ∧ feed_all chunks s = Ok (outs us1, s') ∧ stream_ok s' ∧
    units_ok us2 ∧ rep s' fut us2 ∧ gaps s' = gaps s.
Proof.
  induction chunks as [|c chunks IH]; intros s us fut Hs Hok Hus Hrep; [by exists [], us, s|].
  apply Forall_cons_iff in Hok as [Hc Hok].
  destruct (wf_feed s c (mp3_wf_of s Hs) Hc) as (Hs1 & Hb1 & _ & Hg1).
  destruct (run_rep us (framer.Feed c s) (concat chunks ++ fut)) as
    (us1 & us2 & s2 & -> & Hrun & Hs2 & Hr2 & Hu2 & _ & Hg2 & _); try done.
  { apply (rep_backlog s _ (concat (c :: chunks) ++ fut)); [done| |exact Hrep].
    cbn [concat]. rewrite <- app_assoc, (app_assoc (backlog s)). f_equal. exact Hb1. }
  destruct (wf_compact s2 (mp3_wf_of s2 Hs2)) as (Hs3 & Hb3 & _ & Hg3).
  destruct (IH (framer.Compact s2) us2 fut) as (us3 & us4 & s4 & -> & Hf & Hs4 & Hu4 & Hr4 & Hg4); try done.
  { apply (rep_backlog s2 _ (concat chunks ++ fut)); [|f_equal; exact Hb3|exact Hr2]. cbn. unfold Compact. by destruct (off s2 =? 0). }
  exists (us1 ++ us3), us4, s4. rewrite <- app_assoc. split_and!; try done.
  - cbn [feed_all]. rewrite (drain_run _ _ _ (mp3_wf_of _ Hs1) Hrun), bind_Ok. cbv beta iota.
    rewrite Hf, bind_Ok. cbv beta iota. by rewrite mp3_outs_app.
  - rewrite Hg4, (Hg3 : gaps (framer.Compact s2) = gaps s2), Hg2. done.
Qed.

(** Framing a well-formed MP3 stream is exact.  Whatever the chunks the bytes
    arrive in, a leading ID3v2 tag (header, body and footer, of any declared size)
    is skipped, every coded frame is delivered whole, in order and with its
    duration, nothing else is delivered, no gap is counted, and the framer
    terminates without a panic. *)
Theorem mp3_stream_exact tag us chunks :
  tag = [] ∨ tag_ok tag → Forall (λ u, frame_ok u.1 u.2) us →
  (∀ u v, u ∈ us → v ∈ us → same_stream u.2 v.2) →
  Forall bytes_ok chunks → concat chunks = tag ++ wires us →
  ∃ s', frame_stream chunks newStream = Ok (outs us, s') ∧ GapCount s' = 0.
Proof.
  intros Htag Hfr Hsame Hok Hcat.
  assert (stream_ok newStream) as Hs0
    by (split; [by vm_compute|constructor|by vm_compute|by vm_compute]).
  assert (rep newStream (concat chunks ++ []) us) as Hrep.
  { rewrite app_nil_r, Hcat. destruct Htag as [->|Ht].
    - left. split; [apply blen_nonneg|done].
    - right. by exists tag. }
  destruct (feed_reps chunks newStream us [] Hs0 Hok ltac:(by split) Hrep) as
    (us1 & us2 & s1 & -> & Hfeed & Hs1 & Hu2 & Hr1 & Hg1).
  unfold frame_stream. rewrite Hfeed, bind_Ok. cbv beta iota.
  destruct (wf_eof s1 (mp3_wf_of s1 Hs1)) as (Hs2 & Hb2 & Hg2).
  destruct (run_rep us2 (framer.SetEOF s1) []) as
    (us3 & us4 & s3 & -> & Hrun & Hs3 & _ & _ & _ & Hg3 & Hend); try done.
  destruct (Hend eq_refl eq_refl) as [-> Hb3].
  rewrite (drain_run _ _ _ (mp3_wf_of _ Hs2) Hrun), bind_Ok. cbv beta iota.
  rewrite <- mp3_outs_app, app_nil_r. eexists. split; [done|].
  destruct (wf_compact s3 (mp3_wf_of s3 Hs3)) as (Hs4 & Hb4 & _ & Hg4).
  destruct (wf_finish _ Hs4) as [_ Hg5].
  etransitivity; [exact Hg5|]. rewrite Hb4. change (framer.backlog s3) with (backlog s3). rewrite Hb3.
  change (if blen [] =? 0 then 0 else 1) with 0.
  rewrite Hg4, (mp3_gap_of s3), Hg3, (Hg2 : gaps (framer.SetEOF s1) = gaps s1), Hg1. done.
Qed.

Lemma mp3_stream_exact_witness :
  let f := depacketmp3.example_frame in
  let h := mpahdr.mkHeader 2 1 0 24000 8000 2 576 24 false in
  let tag := id3_head 4 0 false 3 ++ [1; 2; 3] ++ [] in
  ∃ s', frame_stream ((λ b, [b]) <$> (tag ++ f ++ f)) newStream =
    Ok ([(f, 24000000); (f, 24000000)], s') ∧ GapCount s' = 0.
Proof.
  intros f h tag. apply (mp3_stream_exact tag [(f, h); (f, h)]).
  - right. exists 4, 0, false, [1; 2; 3], [].
    split_and!; try done; repeat constructor; by vm_compute.
  - apply Forall_cons_2; [|apply Forall_cons_2; [|apply Forall_nil_2]];
      (split; [repeat constructor; by vm_compute| |by vm_compute];
       exists (be_combine (take 4 f)); split; by vm_compute).
  - intros u v Hu Hv. repeat (apply elem_of_cons in Hu as [->|Hu]); try (by apply elem_of_nil in Hu);
      repeat (apply elem_of_cons in Hv as [->|Hv]); try (by apply elem_of_nil in Hv); done.
  - repeat constructor; by vm_compute.
  - done.
Defined.

End mp3stream.
