(* ===== verification/HttpFormat.v ===== *)
(** * The HTTP source's format resolution: [httpsource/wav.go], [format.go]

    The RIFF/WAVE header parser, the Content-Type dispatch, and the open-phase
    classification of read errors ([classifyHeaderReadErr] of
    [httpsource/client.go]).

    The buffered body reader is its remaining bytes and the error a read past
    them meets: a clean EOF, a transport timeout or another failure. *)
From Stdlib Require Import Ascii String.
From S2P Require Import Prelude Bytes Text Adts Framer AdtsFrame Mp3Stream.
Local Open Scope Z_scope.

Module httpformat.


(** ** Errors *)
Inductive read_error := EOF | UnexpectedEOF | NetTimeout | OtherError.
#[export] Instance read_error_eq_dec : EqDecision read_error.
Proof. solve_decision. Defined.

Inductive err :=
  | ErrMalformedWAV | ErrUnsupportedFormat | ErrFormatUnknown
  | ErrRequestTimeout | ErrConnectionClosed | CtxErr.

(** What the open phase knows when a read fails. *)
Record open_phase := mkOpen { timedOut : bool; ctxCancelled : bool }.

Definition classifyOpenErr (o : open_phase) (e : read_error) : err :=
  if timedOut o then ErrRequestTimeout
  else if ctxCancelled o then CtxErr
  else match e with NetTimeout => ErrRequestTimeout | _ => ErrConnectionClosed end.

Definition classifyHeaderReadErr (o : open_phase) (e : read_error) : option err :=
  match e with
  | EOF | UnexpectedEOF =>
      if negb (timedOut o) && negb (ctxCancelled o) then None else Some (classifyOpenErr o e)
  | _ => Some (classifyOpenErr o e)
  end.

(** [classifyOpenRead]: [classifier] is [None] outside an Open. *)
Definition classifyOpenRead (classifier : option open_phase) (e : option read_error) : option err :=
  match e, classifier with
  | Some e, Some o => classifyHeaderReadErr o e
  | _, _ => None
  end.

(** ** The buffered reader *)
Record reader := mkReader { rest : list Z; fail : read_error }.

Definition ReadFull (n : Z) (br : reader) : (list Z * reader) + read_error :=
  if blen (rest br) <? n
  then inr (match fail br with EOF => if blen (rest br) =? 0 then EOF else UnexpectedEOF | e => e end)
  else inl (take (Z.to_nat n) (rest br), mkReader (drop (Z.to_nat n) (rest br)) (fail br)).

(** [Peek] hands over what there is, and the error when that is short. *)
Definition Peek (n : Z) (br : reader) : list Z * option read_error :=
  (take (Z.to_nat n) (rest br), if blen (rest br) <? n then Some (fail br) else None).

(** [skip]: [Discard] reports an error on a short read, so the [discarded < n]
    test behind it never fires. *)
Definition skip (n : Z) (br : reader) : reader + read_error :=
  if blen (rest br) <? n then inr (fail br)
  else inl (mkReader (drop (Z.to_nat n) (rest br)) (fail br)).

(** ** WAV *)
Definition riffMagic := str "RIFF".
Definition waveMagic := str "WAVE".
Definition fmtChunkID := str "fmt ".
Definition dataChunkID := str "data".
Definition rf64Magic := str "RF64".
Definition bw64Magic := str "BW64".
Definition riffHeaderSize : Z := 12.
Definition chunkHeaderSize : Z := 8.
Definition fmtChunkMinSize : Z := 16.
Definition wavFormatPCM : Z := 1.
Definition wavFormatExtensible : Z := 0xFFFE.
Definition wavBitsPerSample : Z := 16.
Definition fmtExtensibleMinSize : Z := 40.
Definition fmtExtensibleExtSize : Z := fmtExtensibleMinSize - fmtChunkMinSize.
Definition fmtExtensibleCbSize : Z := 22.
Definition wavUnbounded : Z := 0xFFFFFFFF.
Definition wavMaxPreData : Z := 2 ^ 20.
Definition wavMaxSampleRate : Z := 2 ^ 31 - 1.
Definition maxChannels : Z := 8.
Definition pcmSubFormatGUID : list Z :=
  [1; 0; 0; 0; 0; 0; 0x10; 0; 0x80; 0; 0; 0xAA; 0; 0x38; 0x9B; 0x71].

Record wavInfo := mkInfo { rate : Z; channels : Z; dataSize : Z; bounded : bool }.
Definition zero_info : wavInfo := mkInfo 0 0 0 false.

Section parser.
Context (classifier : option open_phase).

Definition malformedWAV {A} (e : read_error) : res err A :=
  match classifyOpenRead classifier (Some e) with
  | Some oe => Err oe
  | None => Err ErrMalformedWAV
  end.

Definition read_full (n : Z) (br : reader) : res err (list Z * reader) :=
  match ReadFull n br with inl r => Ok r | inr e => malformedWAV e end.

Definition chunkPaddedSize (size : Z) : Z := if size mod 2 =? 1 then size + 1 else size.

(** The body of [readFmtChunk] past the 16 base octets: the extension, when the
    format is [WAVE_FORMAT_EXTENSIBLE]; the count of octets read so far. *)
Definition check_fmt (br : reader) (size audioFormat bits : Z) : res err (Z * reader) :=
  if audioFormat =? wavFormatPCM then
    if negb (bits =? wavBitsPerSample) then Err ErrUnsupportedFormat else mret (fmtChunkMinSize, br)
  else if audioFormat =? wavFormatExtensible then
    if size <? fmtExtensibleMinSize then Err ErrMalformedWAV else
    '(ext, br) ← read_full fmtExtensibleExtSize br;
    cbSize ← le_at 2 ext 0;
    if size <? fmtChunkMinSize + 2 + cbSize then Err ErrMalformedWAV else
    validBits ← le_at 2 ext 2;
    subFormat ← slice ext 8 24;
    if cbSize <? fmtExtensibleCbSize then Err ErrUnsupportedFormat
    else if negb (bits =? wavBitsPerSample) then Err ErrUnsupportedFormat
    else if negb (validBits =? wavBitsPerSample) then Err ErrUnsupportedFormat
    else if negb (bool_decide (subFormat = pcmSubFormatGUID)) then Err ErrUnsupportedFormat
    else mret (fmtChunkMinSize + fmtExtensibleExtSize, br)
  else Err ErrUnsupportedFormat.

Definition readFmtChunk (br : reader) (size outerConsumed : Z) (info : wavInfo)
    : res err (Z * wavInfo * reader) :=
  if size <? fmtChunkMinSize then Err ErrMalformedWAV else
  '(body, br) ← read_full fmtChunkMinSize br;
  audioFormat ← le_at 2 body 0;
  nch ← le_at 2 body 2;
  sampleRate ← le_at 4 body 4;
  bits ← le_at 2 body 14;
  '(consumed, br) ← check_fmt br size audioFormat bits;
  if (nch <? 1) || (maxChannels <? nch) then Err ErrUnsupportedFormat else
  if sampleRate <? 1 then Err ErrMalformedWAV else
  if wavMaxSampleRate <? sampleRate then Err ErrMalformedWAV else
  let info := mkInfo sampleRate nch (dataSize info) (bounded info) in
  let extra := chunkPaddedSize size - consumed in
  if 0 <? extra then
    if wavMaxPreData <? outerConsumed + consumed + extra then Err ErrMalformedWAV else
    match skip extra br with
    | inr e => malformedWAV e
    | inl br => mret (consumed + extra, info, br)
    end
  else mret (consumed, info, br).

(** The chunk loop of [parseWAVHeader]; every iteration reads a chunk header, so
    the number of octets left is fuel enough. *)
Fixpoint chunk_loop (fuel : nat) (br : reader) (info : wavInfo) (haveFmt : bool) (consumed : Z)
    : res err (wavInfo * reader) :=
  match fuel with
  | O => Panic
  | S fuel =>
      if wavMaxPreData <? consumed + chunkHeaderSize then Err ErrMalformedWAV else
      '(hdr, br) ← read_full chunkHeaderSize br;
      let consumed := consumed + chunkHeaderSize in
      id ← slice hdr 0 4;
      size ← le_at 4 hdr 4;
      if bool_decide (id = fmtChunkID) then
        '(read, info, br) ← readFmtChunk br size consumed info;
        chunk_loop fuel br info true (consumed + read)
      else if bool_decide (id = dataChunkID) then
        if negb haveFmt then Err ErrMalformedWAV
        else if (size =? 0) || (size =? wavUnbounded)
        then mret (mkInfo (rate info) (channels info) 0 false, br)
        else mret (mkInfo (rate info) (channels info) size true, br)
      else
        let skipLen := chunkPaddedSize size in
        if wavMaxPreData <? consumed + skipLen then Err ErrMalformedWAV else
        match skip skipLen br with
        | inr e => malformedWAV e
        | inl br => chunk_loop fuel br info haveFmt (consumed + skipLen)
        end
  end.

Definition parseWAVHeader (br : reader) : res err (wavInfo * reader) :=
  '(riff, br) ← read_full riffHeaderSize br;
  magic ← slice riff 0 4;
  if bool_decide (magic = riffMagic) then
    form ← slice riff 8 12;
    if negb (bool_decide (form = waveMagic)) then Err ErrMalformedWAV
    else chunk_loop (S (length (rest br))) br zero_info false riffHeaderSize
  else if bool_decide (magic = rf64Magic) || bool_decide (magic = bw64Magic)
  then Err ErrUnsupportedFormat
  else Err ErrMalformedWAV.
End parser.

(** ** Bounds and geometry of an accepted header *)
Section parsed.
Context (classifier : option open_phase).

Lemma malformedWAV_err {A} e : ∃ x, malformedWAV (A:=A) classifier e = Err x.
Proof. unfold malformedWAV. destruct (classifyOpenRead _ _); by eexists. Qed.

(** A read either fails with an error or splits the remaining bytes. *)
Lemma read_full_cases n br : 0 ≤ n → bytes_ok (rest br) →
  (∃ x, read_full classifier n br = Err x) ∨
  ∃ b br', read_full classifier n br = Ok (b, br') ∧ blen b = n ∧ rest br = b ++ rest br' ∧
    fail br' = fail br ∧ bytes_ok b ∧ bytes_ok (rest br').
Proof.
  intros Hn Hok. unfold read_full, ReadFull. destruct (Z.ltb_spec (blen (rest br)) n).
  - left. apply malformedWAV_err.
  - right. eexists _, _. split; [done|]. cbn [rest fail]. rewrite blen_take, take_drop by lia.
    split_and!; try done; [by apply Forall_take|by apply Forall_drop].
Qed.

Lemma skip_cases n br : 0 ≤ n → bytes_ok (rest br) →
  (∃ e, skip n br = inr e) ∨
  ∃ b br', skip n br = inl br' ∧ blen b = n ∧ rest br = b ++ rest br' ∧ fail br' = fail br ∧ bytes_ok (rest br').
Proof.
  intros Hn Hok. unfold skip. destruct (Z.ltb_spec (blen (rest br)) n); [left; by eexists|].
  right. exists (take (Z.to_nat n) (rest br)). eexists. split; [done|]. cbn [rest fail].
  rewrite blen_take, take_drop by lia. split_and!; try done. by apply Forall_drop.
Qed.

(** What a piece of the parser may do with the reader: fail, or consume [n] bytes. *)
Definition consumes (br br' : reader) (n : Z) : Prop :=
  ∃ b, rest br = b ++ rest br' ∧ blen b = n ∧ bytes_ok (rest br').

Lemma consumes_trans br1 br2 br3 n m :
  consumes br1 br2 n → consumes br2 br3 m → consumes br1 br3 (n + m).
Proof.
  intros (b & E1 & H1 & _) (c & E2 & H2 & Hok). exists (b ++ c).
  rewrite E1, E2, <- app_assoc, blen_app. split_and!; try done. lia.
Qed.

Lemma consumes_ok br br' n : consumes br br' n → bytes_ok (rest br').
Proof. by intros (? & ? & ? & ?). Qed.

Lemma consumes_length br br' n : consumes br br' n → blen (rest br') + n = blen (rest br).
Proof. intros (b & -> & <- & _). rewrite blen_app. lia. Qed.

Lemma consumes_refl br : bytes_ok (rest br) → consumes br br 0.
Proof. by exists []. Qed.

Lemma check_fmt_cases br size af bits : bytes_ok (rest br) →
  (∃ x, check_fmt classifier br size af bits = Err x) ∨
  ∃ n br', check_fmt classifier br size af bits = Ok (fmtChunkMinSize + n, br') ∧ consumes br br' n ∧
    0 ≤ n ∧ bits = wavBitsPerSample.
Proof.
  intros Hok. unfold check_fmt.
  destruct (Z.eqb_spec af wavFormatPCM).
  { destruct (Z.eqb_spec bits wavBitsPerSample); [|left; by eexists]. right. exists 0, br.
    split_and!; try done. by apply consumes_refl. }
  destruct (af =? wavFormatExtensible); [|left; by eexists].
  destruct (size <? fmtExtensibleMinSize); [left; by eexists|].
  change fmtExtensibleExtSize with 24.
  destruct (read_full_cases 24 br ltac:(lia) Hok) as [(x & ->)|(ext & br' & -> & Hl & Hr & _ & Hext & Hok')];
    [left; by eexists|].
  rewrite bind_Ok; cbv beta iota.
  destruct (le_at_ex (E:=err) 2 ext 0 Hext ltac:(lia) ltac:(lia) ltac:(lia)) as (cb & -> & _). rewrite bind_Ok.
  destruct (size <? _); [left; by eexists|].
  destruct (le_at_ex (E:=err) 2 ext 2 Hext ltac:(lia) ltac:(lia) ltac:(lia)) as (vb & -> & _). rewrite bind_Ok.
  rewrite slice_ok, bind_Ok by lia. destruct (cb <? _); [left; by eexists|].
  destruct (Z.eqb_spec bits wavBitsPerSample); [|left; by eexists]. cbn [negb].
  destruct (negb (vb =? _)); [left; by eexists|]. destruct (negb (bool_decide _)); [left; by eexists|].
  right. exists 24, br'. split_and!; try done. by exists ext.
Qed.

Definition geometry (info : wavInfo) : Prop :=
  1 ≤ rate info ≤ wavMaxSampleRate ∧ 1 ≤ channels info ≤ maxChannels.

Lemma chunkPaddedSize_ge size : size ≤ chunkPaddedSize size.
Proof. unfold chunkPaddedSize. destruct (_ =? _); lia. Qed.

Lemma readFmtChunk_cases br size outer info : bytes_ok (rest br) →
  (∃ x, readFmtChunk classifier br size outer info = Err x) ∨
  ∃ n info' br', readFmtChunk classifier br size outer info = Ok (n, info', br') ∧
    consumes br br' n ∧ 0 ≤ n ∧ geometry info'.
Proof.
  intros Hok. unfold readFmtChunk. destruct (size <? fmtChunkMinSize); [left; by eexists|].
  change fmtChunkMinSize with 16.
  destruct (read_full_cases 16 br ltac:(lia) Hok) as [(x & ->)|(body & br1 & -> & Hl & Hr & _ & Hb & Hok1)];
    [left; by eexists|].
  assert (consumes br br1 16) as Hc1 by (by exists body).
  rewrite bind_Ok; cbv beta iota.
  destruct (le_at_ex (E:=err) 2 body 0 Hb ltac:(lia) ltac:(lia) ltac:(lia)) as (af & -> & _). rewrite bind_Ok.
  destruct (le_at_ex (E:=err) 2 body 2 Hb ltac:(lia) ltac:(lia) ltac:(lia)) as (nch & -> & _). rewrite bind_Ok.
  destruct (le_at_ex (E:=err) 4 body 4 Hb ltac:(lia) ltac:(lia) ltac:(lia)) as (sr & -> & _). rewrite bind_Ok.
  destruct (le_at_ex (E:=err) 2 body 14 Hb ltac:(lia) ltac:(lia) ltac:(lia)) as (bits & -> & _). rewrite bind_Ok.
  destruct (check_fmt_cases br1 size af bits Hok1) as [(x & ->)|(n & br2 & -> & Hc2 & Hn & _)]; [left; by eexists|].
  rewrite bind_Ok; cbv beta iota. change fmtChunkMinSize with 16.
  destruct (_ || _) eqn:Hch; [left; by eexists|]. breflect.
  destruct (Z.ltb_spec sr 1); [left; by eexists|]. destruct (Z.ltb_spec wavMaxSampleRate sr); [left; by eexists|].
  cbv zeta. assert (geometry (mkInfo sr nch (dataSize info) (bounded info))) as Hg by (split; cbn; lia).
  pose proof (consumes_trans _ _ _ _ _ Hc1 Hc2) as Hc.
  destruct (Z.ltb_spec 0 (chunkPaddedSize size - (16 + n))).
  2: { right. exists (16 + n). eexists _, _. split_and!; [done|done|lia|done]. }
  destruct (_ <? _); [left; by eexists|].
  destruct (skip_cases (chunkPaddedSize size - (16 + n)) br2 ltac:(lia) (consumes_ok _ _ _ Hc))
    as [(e & ->)|(b & br3 & -> & Hbl & Hbr & _ & Hok3)].
  { left. apply malformedWAV_err. }
  right. eexists _, _, br3. split; [done|]. split_and!; [|lia|done].
  eapply consumes_trans; [exact Hc|]. by exists b.
Qed.

Lemma chunk_loop_cases fuel : ∀ br info have consumed,
  bytes_ok (rest br) → blen (rest br) < Z.of_nat fuel → 0 ≤ consumed →
  (have = true → geometry info) →
  (∃ x, chunk_loop classifier fuel br info have consumed = Err x) ∨
  ∃ info' br' n, chunk_loop classifier fuel br info have consumed = Ok (info', br') ∧
    consumes br br' n ∧ consumed + n ≤ wavMaxPreData ∧ geometry info' ∧
    (if bounded info' then 0 < dataSize info' < wavUnbounded else dataSize info' = 0).
Proof.
  induction fuel as [|fuel IH]; intros br info have consumed Hok Hf Hc Hhave;
    [pose proof (blen_nonneg (rest br)); lia|].
  cbn [chunk_loop]. destruct (Z.ltb_spec wavMaxPreData (consumed + chunkHeaderSize)); [left; by eexists|].
  change chunkHeaderSize with 8 in *.
  destruct (read_full_cases 8 br ltac:(lia) Hok) as [(x & ->)|(hdr & br1 & -> & Hl & Hr & _ & Hb & Hok1)];
    [left; by eexists|].
  rewrite bind_Ok; cbv beta iota zeta. rewrite slice_ok, bind_Ok by lia.
  destruct (le_at_ex (E:=err) 4 hdr 4 Hb ltac:(lia) ltac:(lia) ltac:(lia)) as (size & -> & Hsize). rewrite bind_Ok.
  change (256 ^ 4) with (2 ^ 32) in Hsize.
  assert (consumes br br1 8) as Hc1 by (by exists hdr).
  assert (blen (rest br1) + 8 = blen (rest br)) as Hl1 by (rewrite Hr, blen_app; lia).
  destruct (bool_decide (take _ _ = fmtChunkID)).
  - destruct (readFmtChunk_cases br1 size (consumed + 8) info Hok1)
      as [(x & ->)|(n & info' & br2 & -> & Hc2 & Hn & Hg)]; [left; by eexists|].
    rewrite bind_Ok; cbv beta iota. pose proof (consumes_length _ _ _ Hc2).
    destruct (IH br2 info' true (consumed + 8 + n)) as [?|(info2 & br3 & m & -> & Hc3 & Hm & Hg' & Hd)];
      try done; try lia; [by eapply consumes_ok|by left|].
    right. exists info2, br3, (8 + (n + m)). split; [done|]. split_and!; try done; [|lia].
    eapply consumes_trans; [done|by eapply consumes_trans].
  - destruct (bool_decide (take _ _ = dataChunkID)).
    + destruct have; cbn [negb]; [|left; by eexists]. specialize (Hhave eq_refl).
      right. destruct (Z.eqb_spec size 0), (Z.eqb_spec size wavUnbounded); cbn [orb];
        eexists _, br1, 8; (split; [done|]); split_and!; try done; try lia;
        cbn [bounded dataSize]; unfold wavUnbounded in *; lia.
    + pose proof (chunkPaddedSize_ge size).
      destruct (_ <? _); [left; by eexists|].
      destruct (skip_cases (chunkPaddedSize size) br1 ltac:(lia) Hok1) as [(e & ->)|(b & br2 & -> & Hbl & Hbr & _ & Hok2)].
      { left. apply malformedWAV_err. }
      assert (consumes br1 br2 (chunkPaddedSize size)) as Hc2 by (by exists b).
      pose proof (consumes_length _ _ _ Hc2).
      destruct (IH br2 info have (consumed + 8 + chunkPaddedSize size))
        as [?|(info2 & br3 & m & -> & Hc3 & Hm & Hg' & Hd)]; try done; try lia; [by left|].
      right. exists info2, br3, (8 + (chunkPaddedSize size + m)). split; [done|]. split_and!; try done; [|lia].
      eapply consumes_trans; [done|by eapply consumes_trans].
Qed.

Lemma parse_cases br :
  bytes_ok (rest br) →
  (∃ x, parseWAVHeader classifier br = Err x) ∨
  ∃ info br' n, parseWAVHeader classifier br = Ok (info, br') ∧ consumes br br' n ∧
    n ≤ wavMaxPreData ∧ geometry info ∧
    (if bounded info then 0 < dataSize info < wavUnbounded else dataSize info = 0).
Proof.
  intros Hok. unfold parseWAVHeader. change riffHeaderSize with 12.
  destruct (read_full_cases 12 br ltac:(lia) Hok) as [(x & ->)|(riff & br1 & -> & Hl & Hr & _ & Hb & Hok1)];
    [left; by eexists|].
  rewrite bind_Ok; cbv beta iota. rewrite (slice_ok riff 0 4), bind_Ok by lia.
  rewrite (slice_ok riff 8 12), bind_Ok by lia.
  match goal with |- context [bool_decide (?x = riffMagic)] => destruct (bool_decide (x = riffMagic)) end;
    [|destruct (_ || _); left; by eexists].
  destruct (negb _); [left; by eexists|].
  destruct (chunk_loop_cases (S (length (rest br1))) br1 zero_info false 12)
    as [?|(info & br2 & n & -> & Hc & Hn & Hg & Hd)]; try done; [unfold blen; lia|by left|].
  right. exists info, br2, (12 + n). split; [done|]. split_and!; try done.
  eapply consumes_trans; [|done]. by exists riff.
Qed.

(** The WAV header parser is total and bounded: on any bytes it either fails
    with an error of the taxonomy or stops at the first PCM byte, having consumed
    at most 1 MiB of header; an accepted header has a rate in [1, 2^31-1], one to
    eight channels, and a data size that is positive exactly when it is bounded.
    It never panics and its chunk loop always terminates. *)
Theorem parseWAVHeader_total br :
  bytes_ok (rest br) →
  (∃ x, parseWAVHeader classifier br = Err x) ∨
  ∃ info br' n, parseWAVHeader classifier br = Ok (info, br') ∧ consumes br br' n ∧
    n ≤ wavMaxPreData ∧ geometry info ∧
    (if bounded info then 0 < dataSize info < wavUnbounded else dataSize info = 0).
Proof.
  apply parse_cases.
Qed.
End parsed.

(** A minimal 44-byte header. *)
Definition example_wav : list Z :=
  str "RIFF" ++ le_split 4 40 ++ str "WAVE" ++ str "fmt " ++ le_split 4 16 ++
  le_split 2 1 ++ le_split 2 2 ++ le_split 4 48000 ++ le_split 4 192000 ++ le_split 2 4 ++ le_split 2 16 ++
  str "data" ++ le_split 4 4 ++ [1; 2; 3; 4].

Lemma parseWAVHeader_total_witness :
  (∃ x, parseWAVHeader None (mkReader example_wav EOF) = Err x) ∨
  ∃ info br' n, parseWAVHeader None (mkReader example_wav EOF) = Ok (info, br') ∧
    consumes (mkReader example_wav EOF) br' n ∧ n ≤ wavMaxPreData ∧ geometry info ∧
    (if bounded info then 0 < dataSize info < wavUnbounded else dataSize info = 0).
Proof. apply (parseWAVHeader_total None). repeat constructor; by vm_compute. Defined.

Example example_wav_parsed :
  parseWAVHeader None (mkReader example_wav EOF) = Ok (mkInfo 48000 2 4 true, mkReader [1; 2; 3; 4] EOF).
Proof. by vm_compute. Qed.

(** ** Content-Type dispatch *)

Inductive Endianness := EndianUnspecified | EndianLittle | EndianBig.
Record PCMFormat := mkPCMFormat { SampleRate : Z; Channels : Z; Endian : Endianness }.
Definition readBufSize : Z := 4096.

Inductive Codec := CodecMP3 | CodecAAC (AudioSpecificConfig : list Z).

(** The reader's immutable format fields, as [resolveFormat] leaves them. *)
Record format := mkFormat {
  f_rate : Z; f_channels : Z; f_frameBytes : Z; f_swap : bool;
  f_bounded : bool; f_remaining : Z; f_codec : option Codec
}.

Definition compressed (c : Codec) : format := mkFormat 0 0 0 false false 0 (Some c).

Definition validateRawShape (rate channels : Z) : res err unit :=
  if (rate <? 1) || (2 ^ 32 - 1 <? rate) then Err ErrFormatUnknown
  else if (channels <? 1) || (maxChannels <? channels) then Err ErrFormatUnknown
  else mret tt.

Definition resolveBigEndian (e : Endianness) : bool :=
  match e with EndianBig => true | _ => false end.

Definition paramInt (params : list (string * string)) (key : string) (fallback : Z) : Z :=
  match List.find (λ kv, String.eqb kv.1 key) params with
  | Some (_, v) =>
      match Atoi (str v) with
      | Some n => if 0 <? n then n else fallback
      | None => fallback
      end
  | None => fallback
  end.

Definition isRIFFWAVE (head : list Z) : res err bool :=
  a ← slice head 0 4; b ← slice head 8 12;
  mret (bool_decide (a = riffMagic) && bool_decide (b = waveMagic)).

Definition is64BitRIFFWAVE (head : list Z) : res err bool :=
  a ← slice head 0 4; b ← slice head 8 12;
  mret ((bool_decide (a = rf64Magic) || bool_decide (a = bw64Magic)) && bool_decide (b = waveMagic)).

(** ** The ADTS probe: [httpsource/aac.go] *)
Definition adtsProbeLen : Z := 2048.
Definition maxID3v2SkipBytes : Z := 16 * 2 ^ 20.

(** A framer-level computation reports no error of its own. *)
Definition lift {A} (m : res no_err A) : res err A :=
  match m with Ok a => Ok a | Err e => match e with end | Panic => Panic end.

Section setup.
Context (classifier : option open_phase) (cfg : PCMFormat).

Definition setupWAV (br : reader) : res err (format * reader) :=
  '(info, br) ← parseWAVHeader classifier br;
  mret (mkFormat (rate info) (channels info) (2 * channels info) false
          (bounded info) (dataSize info) None, br).

Definition setupRaw (rate channels : Z) (br : reader) : res err (format * reader) :=
  _ ← validateRawShape rate channels;
  mret (mkFormat rate channels (2 * channels) (resolveBigEndian (Endian cfg)) false 0 None, br).

Definition setupL16 (params : list (string * string)) (br : reader) : res err (format * reader) :=
  let rate := paramInt params "rate" (SampleRate cfg) in
  let channels := paramInt params "channels" (Channels cfg) in
  setupRaw rate (if channels <=? 0 then 1 else channels) br.

Definition setupSniff (br : reader) : res err (format * reader) :=
  let '(head, perr) := Peek 12 br in
  match classifyOpenRead classifier perr with
  | Some oe => Err oe
  | None =>
      match perr with
      | Some _ => setupRaw (SampleRate cfg) (Channels cfg) br
      | None =>
          wav ← isRIFFWAVE head;
          if (wav : bool) then setupWAV br
          else
            big ← is64BitRIFFWAVE head;
            if (big : bool) then Err ErrUnsupportedFormat
            else setupRaw (SampleRate cfg) (Channels cfg) br
      end
  end.

(** [skipLeadingID3]: a tag is at least ten octets, so the body's length is fuel
    enough. *)
Fixpoint skipLeadingID3 (fuel : nat) (br : reader) : res err reader :=
  match fuel with
  | O => Panic
  | S fuel =>
      let '(head, perr) := Peek mp3stream.id3v2HeaderLen br in
      '(isID3, needMore) ← lift (mp3stream.looksLikeID3 head);
      if negb isID3 || needMore then
        match classifyOpenRead classifier perr with Some oe => Err oe | None => mret br end
      else
        tagLen ← lift (mp3stream.id3v2TagLen head);
        if maxID3v2SkipBytes <? tagLen then Err ErrFormatUnknown
        else match skip tagLen br with
        | inr e =>
            match classifyOpenRead classifier (Some e) with
            | Some oe => Err oe
            | None => Err ErrFormatUnknown
            end
        | inl br => skipLeadingID3 fuel br
        end
  end.

(** The scan of [probeADTS] over the peeked prefix [head]; [suf] is [head[i:]]. *)
Fixpoint probe_scan (head suf : list Z) (i : Z) : res err (option adts.Header) :=
  match suf with
  | [] => mret None
  | b0 :: rest =>
      if blen head <? i + adts.MinHeaderLen then mret None
      else
        b1 ← byte_at rest 0;
        if negb (b0 =? 0xFF) || negb (Z.land b1 0xF6 =? 0xF0) then probe_scan head rest (i + 1)
        else match adts.Parse suf with
        | Panic => Panic
        | Err _ => probe_scan head rest (i + 1)
        | Ok h =>
            let fin := i + adts.FrameLen h in
            if fin + adts.MinHeaderLen <=? blen head then
              next ← slice_from head fin;
              ok ← lift (adtsframe.Consistent next h);
              if (ok : bool) then mret (Some h) else probe_scan head rest (i + 1)
            else if i =? 0 then mret (Some h)
            else probe_scan head rest (i + 1)
        end
  end.

Definition probeADTS (br : reader) : res err (adts.Header * reader) :=
  br ← skipLeadingID3 (S (length (rest br))) br;
  let n := if readBufSize <? adtsProbeLen then readBufSize else adtsProbeLen in
  let '(head, perr) := Peek n br in
  found ← probe_scan head head 0;
  match found with
  | Some h => mret (h, br)
  | None =>
      match classifyOpenRead classifier perr with
      | Some oe => Err oe
      | None => Err ErrFormatUnknown
      end
  end.

Definition setupAAC (br : reader) : res err (format * reader) :=
  '(h, br) ← probeADTS br;
  mret (compressed (CodecAAC (adts.AudioSpecificConfig h)), br).

Definition setupMP3 (br : reader) : res err (format * reader) := mret (compressed CodecMP3, br).

(** [resolveFormat]; [ParseMediaType] is [mime.ParseMediaType], the empty string
    standing for an absent or unparseable header as it does in the code. *)
Definition resolveFormat (ParseMediaType : string → string * list (string * string))
    (contentType : string) (br : reader) : res err (format * reader) :=
  let '(mediaType, params) := ParseMediaType contentType in
  if existsb (String.eqb mediaType) ["audio/wav"; "audio/x-wav"; "audio/wave"; "audio/vnd.wave"]%string
  then setupWAV br
  else if String.eqb mediaType "audio/l16" then setupL16 params br
  else if existsb (String.eqb mediaType) ["audio/mpeg"; "audio/mp3"]%string then setupMP3 br
  else if existsb (String.eqb mediaType) ["audio/aac"; "audio/aacp"]%string then setupAAC br
  else if existsb (String.eqb mediaType) ["application/octet-stream"; "audio/pcm"; ""]%string
  then setupSniff br
  else Err ErrUnsupportedFormat.
End setup.

(** ** What an opened source looks like *)
Definition format_ok (f : format) : Prop :=
  match f_codec f with
  | None => 1 ≤ f_channels f ≤ maxChannels ∧ 1 ≤ f_rate f < 2 ^ 32 ∧
      f_frameBytes f = 2 * f_channels f ∧ (f_bounded f = true → 0 < f_remaining f < 2 ^ 32)
  | Some CodecMP3 => True
  | Some (CodecAAC asc) => ∃ h, adts.header_ok h ∧ asc = adts.AudioSpecificConfig h
  end.

(** The reader moved forward. *)
Definition advanced (br br' : reader) : Prop := ∃ n, 0 ≤ n ∧ consumes br br' n.

Definition opens (br : reader) (r : res err (format * reader)) : Prop :=
  match r with
  | Panic => False
  | Err _ => True
  | Ok (f, br') => format_ok f ∧ advanced br br'
  end.

Section opened.
Context (classifier : option open_phase) (cfg : PCMFormat).

Lemma advanced_refl br : bytes_ok (rest br) → advanced br br.
Proof. exists 0. split; [lia|]. by apply consumes_refl. Qed.

Lemma setupWAV_opens br : bytes_ok (rest br) → opens br (setupWAV classifier br).
Proof.
  intros Hok. unfold setupWAV.
  destruct (parseWAVHeader classifier br) as [[info br']|x|] eqn:E; [|done|].
  - destruct (parse_cases classifier br Hok) as [(x & E')|(info' & br2 & n & E' & Hc & _ & [Hr Hch] & Hd)];
      rewrite E in E'; [done|]. injection E' as <- <-. cbn. split.
    + unfold format_ok, wavMaxSampleRate in *. cbn. split_and!; try lia.
      intros Hb. rewrite Hb in Hd. unfold wavUnbounded in Hd. lia.
    + exists n. split; [|done]. destruct Hc as (b & _ & <- & _). apply blen_nonneg.
  - destruct (parse_cases classifier br Hok) as [(x & E')|(? & ? & ? & E' & _)]; by rewrite E in E'.
Qed.

Lemma setupRaw_opens rate channels br : bytes_ok (rest br) → opens br (setupRaw cfg rate channels br).
Proof.
  intros Hok. unfold setupRaw, validateRawShape.
  destruct (_ || _) eqn:Hr; [done|]. destruct ((channels <? 1) || _) eqn:Hc; [done|]. breflect.
  cbn. split; [|by apply advanced_refl]. unfold format_ok. cbn. split_and!; try lia; done.
Qed.

Lemma setupSniff_opens br : bytes_ok (rest br) → opens br (setupSniff classifier cfg br).
Proof.
  intros Hok. unfold setupSniff, Peek. destruct (classifyOpenRead _ _); [done|].
  destruct (Z.ltb_spec (blen (rest br)) 12); [by apply setupRaw_opens|].
  assert (blen (take (Z.to_nat 12) (rest br)) = 12) as Hl by (apply blen_take; lia).
  unfold isRIFFWAVE, is64BitRIFFWAVE. rewrite !slice_ok, !bind_Ok by lia.
  cbv [mret res_ret]. rewrite bind_Ok. destruct (_ && _); [by apply setupWAV_opens|].
  rewrite bind_Ok. destruct (_ && _); [done|by apply setupRaw_opens].
Qed.

Lemma skipLeadingID3_ok fuel br : bytes_ok (rest br) → blen (rest br) < Z.of_nat fuel →
  match skipLeadingID3 classifier fuel br with
  | Panic => False | Err _ => True | Ok br' => advanced br br'
  end.
Proof.
  revert br. induction fuel as [|fuel IH]; intros br Hok Hf; [pose proof (blen_nonneg (rest br)); lia|].
  cbn [skipLeadingID3]. unfold Peek. cbv zeta iota.
  set (head := take _ (rest br)).
  destruct (mp3stream.looksLikeID3_ok head) as (a & b & -> & Hmore & Hten). cbn [lift]. rewrite bind_Ok.
  cbv beta iota. destruct a, b; cbn [negb orb];
    try (destruct (classifyOpenRead _ _); [done|by apply advanced_refl]).
  specialize (Hten eq_refl eq_refl).
  destruct (mp3stream.id3v2TagLen_ok head) as (n & -> & Hn); [by apply Forall_take|done|].
  cbn [lift]. rewrite bind_Ok. destruct (_ <? _); [done|].
  destruct (skip_cases n br ltac:(lia) Hok) as [(e & ->)|(p & br' & -> & Hp & Hr & _ & Hok')].
  { by destruct (classifyOpenRead _ _). }
  pose proof (blen_nonneg (rest br')). rewrite Hr, blen_app in Hf.
  specialize (IH br' Hok' ltac:(lia)). destruct (skipLeadingID3 _ _ _) as [br2| |]; [|done..].
  destruct IH as (m & Hm & Hc). exists (n + m). split; [lia|]. eapply consumes_trans; [|done]. by exists p.
Qed.

Lemma probe_scan_ok head suf i : bytes_ok head → bytes_ok suf → 0 ≤ i → blen suf = blen head - i →
  match probe_scan head suf i with
  | Panic => False | Err _ => False
  | Ok None => True | Ok (Some h) => adts.header_ok h
  end.
Proof.
  intros Hh. revert i. induction suf as [|b0 rest IH]; intros i Hok Hi Hl; [done|].
  pose proof Hok as Hok'. apply Forall_cons_iff in Hok as [Hb0 Hok]. cbn [probe_scan].
  rewrite blen_cons in Hl. specialize (IH (i + 1) Hok ltac:(lia) ltac:(lia)).
  destruct (Z.ltb_spec (blen head) (i + adts.MinHeaderLen)) as [|Hlen]; [done|].
  unfold adts.MinHeaderLen in Hlen.
  destruct (byte_at_inside (E:=err) rest 0 ltac:(lia)) as (b1 & -> & _). rewrite bind_Ok.
  destruct (_ || _); [done|]. destruct (adts.Parse (b0 :: rest)) as [h| |] eqn:Hp; [|done|].
  2: { by apply adts.Parse_no_panic in Hp. }
  destruct (adtsframe.Parse_bounds _ _ Hok' Hp) as (Hhok & Hhl & Hfl & _).
  destruct (Z.leb_spec (i + adts.FrameLen h + adts.MinHeaderLen) (blen head)) as [Hin|].
  - unfold adts.MinHeaderLen in Hin. rewrite slice_from_ok, bind_Ok by lia.
    destruct (adtsframe.Consistent_total (drop (Z.to_nat (i + adts.FrameLen h)) head) h) as ([] & ->);
      [by apply Forall_drop|done|done].
  - by destruct (i =? 0).
Qed.

Lemma setupAAC_opens br : bytes_ok (rest br) → opens br (setupAAC classifier br).
Proof.
  intros Hok. unfold setupAAC, probeADTS, Peek. cbv zeta iota.
  pose proof (skipLeadingID3_ok (S (length (rest br))) br Hok ltac:(unfold blen; lia)) as Hs.
  destruct (skipLeadingID3 _ _ br) as [br1| |]; [|done..]. rewrite bind_Ok.
  destruct Hs as (n & Hn & Hc). pose proof (consumes_ok _ _ _ Hc) as Hok1.
  set (head := take _ (rest br1)). assert (bytes_ok head) as Hhd by (by apply Forall_take).
  pose proof (probe_scan_ok head head 0 Hhd Hhd ltac:(lia) ltac:(lia)) as Hp.
  destruct (probe_scan head head 0) as [[h|]| |]; try done; rewrite bind_Ok.
  - cbn. split; [by exists h|by exists n].
  - by destruct (classifyOpenRead _ _).
Qed.

(** Resolving the format never panics, and a source that opens is usable: a
    PCM source has one to eight channels, a rate that fits 32 bits, frames of two
    bytes per channel and a data budget that is positive when it is bounded; an
    AAC source's AudioSpecificConfig is the one of a valid ADTS header; and the
    body was only read forward, so no audio byte is delivered twice or out of
    order.  It holds for any Content-Type, however the media type parses. *)
Theorem resolveFormat_opens ParseMediaType contentType br :
  bytes_ok (rest br) → opens br (resolveFormat classifier cfg ParseMediaType contentType br).
Proof.
  intros Hok. unfold resolveFormat. destruct (ParseMediaType contentType) as [mediaType params].
  assert (∀ f, format_ok f → opens br (mret (f, br))) as Hret
    by (intros f Hf; split; [done|by apply advanced_refl]).
  destruct (existsb _ _); [by apply setupWAV_opens|].
  destruct (String.eqb _ _); [by apply setupRaw_opens|].
  destruct (existsb _ _); [by apply Hret|].
  destruct (existsb _ _); [by apply setupAAC_opens|].
  destruct (existsb _ _); [by apply setupSniff_opens|done].
Qed.
End opened.

Lemma resolveFormat_opens_witness :
  opens (mkReader example_wav EOF)
    (resolveFormat None (mkPCMFormat 0 0 EndianUnspecified) (λ ct, (ct, [])) "audio/wav"
       (mkReader example_wav EOF)) ∧
  resolveFormat None (mkPCMFormat 0 0 EndianUnspecified) (λ ct, (ct, [])) "audio/l16"
    (mkReader [1; 2] EOF) = Err ErrFormatUnknown.
Proof.
  split; [|by vm_compute].
  apply (resolveFormat_opens None _ (λ ct, (ct, []))). repeat constructor; by vm_compute.
Defined.

Example adts_probe :
  fst <$> resolveFormat None (mkPCMFormat 0 0 EndianUnspecified) (λ ct, (ct, [])) "audio/aac"
    (mkReader (adts.encode adts.no_ignored (adts.mkHeader 2 4 44100 2 2 7 10 0 false) ++ [1; 2; 3]) EOF) =
  Ok (compressed (CodecAAC [0x12; 0x10])).
Proof. by vm_compute. Qed.

End httpformat.
