(* ===== verification/HttpClient.v ===== *)
(** * The HTTP source's reader: [httpsource/client.go], [httpsource/framer.go]

    The reader goroutine after a successful Open: the PCM path that cuts the body
    into whole sample-frames, and the compressed path that drives a framer through
    the framer interface.  The environment is a schedule of events: a read of at
    most so many bytes, or a shutdown initiated by Close, Wait or the watchdog. *)
From S2P Require Import Prelude Bytes MediaTime Framer Mpa Mp3Stream HttpFormat.
Import framer.

Module httpclient.

Inductive cause := ErrStreamEnded | ErrConnectionClosed | ErrClosed | ErrReadTimeout | CtxErr.
#[export] Instance cause_eq_dec : EqDecision cause.
Proof. solve_decision. Defined.

(** One [OnFrame] call; the fields the source fixes (track 0, no RTP time, no
    sequence gap) are left out. *)
Record Frame := mkFrame { Data : list Z; PTS : Z }.

(** What outlives a read: the counters, the callback's log and the recorded
    terminal cause. *)
Record shared := mkShared {
  packets : Z; payload : Z; malformed : Z; log : list Frame; termErr : option cause
}.
Definition shared0 : shared := mkShared 0 0 0 [] None.

(** The first cause wins. *)
Definition initiateShutdown (c : cause) (s : shared) : shared :=
  match termErr s with
  | Some _ => s
  | None => mkShared (packets s) (payload s) (malformed s) (log s) (Some c)
  end.

Definition emitFrame (onFrame : bool) (data : list Z) (pts : Z) (s : shared) : shared :=
  mkShared (u64 (packets s + 1)) (u64 (payload s + blen data)) (malformed s)
    (if onFrame then log s ++ [mkFrame data pts] else log s) (termErr s).

Definition add_malformed (n : Z) (s : shared) : shared :=
  mkShared (packets s) (payload s) (u64 (malformed s + n)) (log s) (termErr s).
Definition set_malformed (n : Z) (s : shared) : shared :=
  mkShared (packets s) (payload s) n (log s) (termErr s).

Definition dropPartial (fill : Z) (s : shared) : shared :=
  if 0 <? fill then add_malformed 1 s else s.

(** A read past the end of the body: the recorded cause once a shutdown is in
    progress, otherwise by the error's kind. *)
Definition classifyReadErr (e : httpformat.read_error) (s : shared) : cause :=
  match termErr s with
  | Some te => te
  | None => match e with httpformat.EOF => ErrStreamEnded | _ => ErrConnectionClosed end
  end.

(** ** The PCM path *)
Record config := mkConfig {
  rate : Z; frameBytes : Z; swap : bool; bounded : bool; onFrame : bool
}.

(** [rbuf] is the accumulated sub-frame remainder [rbuf[:fill]]. *)
Record pcm := mkPCM { rbuf : list Z; remaining : Z; samples : Z; sh : shared }.

Definition byteSwap (l : list Z) : list Z := swap16 l.

Definition deliverFrame (cfg : config) (data : list Z) (c : pcm) : pcm :=
  if negb (onFrame cfg)
  then mkPCM (rbuf c) (remaining c) (samples c) (emitFrame (onFrame cfg) data 0 (sh c))
  else
    let out := if swap cfg then byteSwap data else data in
    mkPCM (rbuf c) (remaining c) (u64 (samples c + blen data / frameBytes cfg))
      (emitFrame (onFrame cfg) out (mediatime.PTSFromSamples (samples c) (rate cfg)) (sh c)).

Definition absorb (cfg : config) (chunk : list Z) (c : pcm) : pcm :=
  let remaining' := if bounded cfg then remaining c - blen chunk else remaining c in
  let acc := rbuf c ++ chunk in
  let deliver := blen acc - blen acc mod frameBytes cfg in
  let c := mkPCM (rbuf c) remaining' (samples c) (sh c) in
  let c := if 0 <? deliver then deliverFrame cfg (take (Z.to_nat deliver) acc) c else c in
  mkPCM (drop (Z.to_nat deliver) acc) (remaining c) (samples c) (sh c).

(** What the loop meets at one iteration: a shutdown initiated before its [closing]
    check; a read of at most [n] bytes; or a read that fails before the end of the
    body.  [intr] is a shutdown that lands while the read is parked. *)
Inductive event :=
  | Shutdown (c : cause)
  | ReadUpTo (n : Z) (intr : option cause)
  | ReadFail (intr : option cause).

(** The body still unread, and how reading past it fails. *)
Record body := mkBody { unread : list Z; fin : httpformat.read_error }.

Definition stop (c : cause) (p : pcm) : pcm :=
  mkPCM (rbuf p) (remaining p) (samples p) (initiateShutdown c (sh p)).
Definition drop_partial (p : pcm) : pcm :=
  mkPCM (rbuf p) (remaining p) (samples p) (dropPartial (blen (rbuf p)) (sh p)).

Definition read_limit (cfg : config) (p : pcm) : Z :=
  let limit := httpformat.readBufSize - blen (rbuf p) in
  if bounded cfg && (remaining p <? limit) then remaining p else limit.

Definition interrupt (intr : option cause) (p : pcm) : pcm :=
  match intr with Some c => stop c p | None => p end.

(** The error branch of [readLoop]. *)
Definition read_error (e : httpformat.read_error) (p : pcm) : pcm :=
  let c := classifyReadErr e (sh p) in
  stop c (if bool_decide (c = ErrStreamEnded) then drop_partial p else p).

(** One iteration of [readLoop]. *)
Definition read_step (cfg : config) (e : event) (st : pcm * body) : pcm * body :=
  let '(p, b) := st in
  match termErr (sh p), e with
  | Some _, _ => (p, b)
  | None, Shutdown c => (stop c p, b)
  | None, ReadUpTo n intr =>
      if bounded cfg && (remaining p =? 0) then (stop ErrStreamEnded (drop_partial p), b)
      else
        let chunk := take (Z.to_nat (Z.min n (read_limit cfg p))) (unread b) in
        let p := interrupt intr p in
        if 0 <? blen chunk then (absorb cfg chunk p, mkBody (drop (length chunk) (unread b)) (fin b))
        else match unread b with [] => (read_error (fin b) p, b) | _ => (p, b) end
  | None, ReadFail intr =>
      if bounded cfg && (remaining p =? 0) then (stop ErrStreamEnded (drop_partial p), b)
      else (read_error httpformat.OtherError (interrupt intr p), b)
  end.

Definition readLoop (cfg : config) (evs : list event) (st : pcm * body) : pcm * body :=
  fold_left (λ st e, read_step cfg e st) evs st.

(** ** The compressed path *)
Section compressed.
Context {S : Type} `{Framer S}.

Record comp := mkComp { framer : S; mediaPTS : Z; csh : shared }.

Definition deliverCompressed (on : bool) (c : comp) (f : list Z * Z) : comp :=
  let '(data, dur) := f in
  mkComp (framer c) (if 0 <? dur then i64 (mediaPTS c + dur) else mediaPTS c)
    (emitFrame on data (mediaPTS c) (csh c)).

(** [drainCompressed]: the framer's loop is [drain]; the deliveries follow in the
    order it yields them. *)
Definition drainCompressed (on : bool) (c : comp) : res no_err comp :=
  '(fs, f) ← drain (framer c);
  let c := fold_left (deliverCompressed on) fs (mkComp f (mediaPTS c) (csh c)) in
  let f := Compact (framer c) in
  mret (mkComp f (mediaPTS c) (set_malformed (GapCount f) (csh c))).

Definition feedCompressed (on : bool) (chunk : list Z) (c : comp) : res no_err comp :=
  drainCompressed on (mkComp (Feed chunk (framer c)) (mediaPTS c) (csh c)).

(** The end of the stream, or the loss of the connection. *)
Definition endCompressed (on : bool) (e : httpformat.read_error) (c : comp) : res no_err comp :=
  let cause := classifyReadErr e (csh c) in
  c ← (if bool_decide (cause = ErrStreamEnded) then
    c ← drainCompressed on (mkComp (SetEOF (framer c)) (mediaPTS c) (csh c));
    let f := Finish (framer c) in
    mret (mkComp f (mediaPTS c) (set_malformed (GapCount f) (csh c)))
  else mret c);
  mret (mkComp (framer c) (mediaPTS c) (initiateShutdown cause (csh c))).

(** [readCompressed] over the chunks the body arrives in, then its end. *)
Fixpoint readCompressed (on : bool) (chunks : list (list Z)) (e : httpformat.read_error) (c : comp)
    : res no_err comp :=
  match termErr (csh c) with
  | Some _ => mret c
  | None =>
      match chunks with
      | [] => endCompressed on e c
      | chunk :: chunks => c ← feedCompressed on chunk c; readCompressed on chunks e c
      end
  end.
End compressed.
Arguments mkComp {S} framer mediaPTS csh.
Arguments comp : clear implicits.

(** ** The PCM path delivers the body *)
Section pcm_spec.
Context (cfg : config) (budget : Z).
Hypothesis frame_width : 0 < frameBytes cfg.
Hypothesis width_even : frameBytes cfg mod 2 = 0.
Hypothesis width_small : frameBytes cfg < httpformat.readBufSize.

(** The [OnFrame] calls for the raw pieces [ds], [done] bytes into the stream. *)
Fixpoint frames_of (done : Z) (ds : list (list Z)) : list Frame :=
  match ds with
  | [] => []
  | d :: ds =>
      mkFrame (if swap cfg then byteSwap d else d)
        (mediatime.PTSFromSamples (u64 (done / frameBytes cfg)) (rate cfg))
      :: frames_of (done + blen d) ds
  end.

Lemma frames_of_snoc done ds d :
  frames_of done (ds ++ [d]) = frames_of done ds ++ frames_of (done + blen (concat ds)) [d].
Proof.
  revert done. induction ds as [|x ds IH]; intros done; cbn [app frames_of concat].
  - by rewrite blen_nil, Z.add_0_r.
  - by rewrite IH, blen_app, Z.add_assoc.
Qed.

Definition whole (d : list Z) : Prop := 0 < blen d ∧ blen d mod frameBytes cfg = 0.

(** The reader's state after [got] bytes of the body, cut into the pieces [ds] it
    delivered and the remainder it carries. *)
Record read_ok (got : list Z) (ds : list (list Z)) (p : pcm) : Prop := {
  ro_cut : got = concat ds ++ rbuf p;
  ro_whole : Forall whole ds;
  ro_carry : blen (rbuf p) < frameBytes cfg;
  ro_log : onFrame cfg = true → log (sh p) = frames_of 0 ds ∧
    samples p = u64 (blen (concat ds) / frameBytes cfg);
  ro_packets : packets (sh p) = u64 (blen ds);
  ro_payload : payload (sh p) = u64 (blen (concat ds));
  ro_budget : bounded cfg = true → remaining p = budget - blen got ∧ 0 ≤ remaining p
}.

Lemma whole_even d : whole d → blen d mod 2 = 0.
Proof.
  intros [_ Hd]. apply Z.mod_divide; [lia|]. apply (Z.divide_trans _ (frameBytes cfg)); by apply Z.mod_divide; [lia|].
Qed.

Lemma whole_concat ds : Forall whole ds → blen (concat ds) mod frameBytes cfg = 0.
Proof.
  induction 1 as [|d ds [_ Hd] _ IH]; [by apply Z.mod_0_l; lia|].
  cbn [concat]. rewrite blen_app, Z.add_mod, Hd, IH by lia. by apply Z.mod_0_l; lia.
Qed.

Lemma u64_add_r a b : u64 (a + u64 b) = u64 (a + b).
Proof. unfold u64. apply Z.add_mod_idemp_r. lia. Qed.

(** The accumulated bytes, split at the last whole frame. *)
Lemma split_whole (acc : list Z) :
  let n := blen acc - blen acc mod frameBytes cfg in
  0 ≤ n ≤ blen acc ∧ n mod frameBytes cfg = 0 ∧
  blen (take (Z.to_nat n) acc) = n ∧ blen (drop (Z.to_nat n) acc) = blen acc mod frameBytes cfg.
Proof.
  intros n. pose proof (blen_nonneg acc). pose proof (Z.mod_pos_bound (blen acc) (frameBytes cfg) frame_width).
  pose proof (Z.mod_le (blen acc) (frameBytes cfg) ltac:(lia) ltac:(lia)).
  subst n. split_and!; try lia.
  - rewrite Zminus_mod_idemp_r, Z.sub_diag. apply Z.mod_0_l. lia.
  - by apply blen_take; lia.
  - rewrite blen_drop by lia. lia.
Qed.

Lemma absorb_ok got ds p chunk :
  read_ok got ds p → (bounded cfg = true → blen chunk ≤ remaining p) →
  ∃ ds', read_ok (got ++ chunk) ds' (absorb cfg chunk p) ∧
    termErr (sh (absorb cfg chunk p)) = termErr (sh p) ∧
    malformed (sh (absorb cfg chunk p)) = malformed (sh p).
Proof.
  intros [Hcut Hw Hc Hlog Hpk Hpl Hbud] Hlim. unfold absorb. cbv zeta.
  destruct (split_whole (rbuf p ++ chunk)) as (Hn & Hmod & Htake & Hdrop).
  set (n := blen (rbuf p ++ chunk) - _) in *. set (d := take (Z.to_nat n) (rbuf p ++ chunk)) in *.
  set (r := drop (Z.to_nat n) (rbuf p ++ chunk)) in *.
  assert (rbuf p ++ chunk = d ++ r) as Hdr by (symmetry; apply take_drop).
  pose proof (Z.mod_pos_bound (blen (rbuf p ++ chunk)) (frameBytes cfg) frame_width).
  assert (bounded cfg = true → remaining p - blen chunk = budget - blen (got ++ chunk) ∧ 0 ≤ remaining p - blen chunk)
    as Hbud'.
  { intros Hb. specialize (Hlim Hb). destruct (Hbud Hb). rewrite blen_app. lia. }
  destruct (Z.ltb_spec 0 n) as [Hpos|Hzero].
  - exists (ds ++ [d]). split; [|unfold deliverFrame; by destruct (negb (onFrame cfg))].
    assert (concat (ds ++ [d]) = concat ds ++ d) as Hcc by (rewrite concat_app; cbn; by rewrite app_nil_r).
    pose proof (whole_concat ds Hw) as Hwc.
    assert (u64 (u64 (blen (concat ds) / frameBytes cfg) + blen d / frameBytes cfg) =
      u64 (blen (concat ds ++ d) / frameBytes cfg)) as Hsamp.
    { unfold u64. rewrite Z.add_mod_idemp_l by lia. f_equal. rewrite blen_app.
      rewrite (Z.div_mod (blen (concat ds)) (frameBytes cfg)) at 2 by lia. rewrite Hwc, Z.add_0_r.
      rewrite (Z.mul_comm (frameBytes cfg)), Z.div_add_l by lia. done. }
    split; rewrite ?Hcc.
    + cbn [rbuf]. rewrite <- app_assoc, <- Hdr, Hcut, app_assoc. done.
    + apply Forall_app. split; [done|]. constructor; [|done]. split; [by rewrite Htake|by rewrite Htake].
    + cbn [rbuf]. rewrite Hdrop. lia.
    + intros Hon. destruct (Hlog Hon) as [Hl Hs]. unfold deliverFrame. rewrite Hon. cbn [negb sh emitFrame log samples].
      rewrite Hl, Hs, frames_of_snoc, Hsamp. cbn [frames_of]. by rewrite Z.add_0_l.
    + unfold deliverFrame. rewrite blen_app. change (blen [d]) with 1.
      destruct (negb (onFrame cfg)); cbn [sh emitFrame packets]; rewrite Hpk; apply u64_add_l.
    + unfold deliverFrame. rewrite blen_app.
      destruct (negb (onFrame cfg)) eqn:Hon; cbn [sh emitFrame payload]; rewrite Hpl, u64_add_l; [done|].
      destruct (swap cfg); [|done]. unfold byteSwap; rewrite blen_swap16; [done|]. apply whole_even.
      split; [by rewrite Htake|by rewrite Htake].
    + intros Hb. unfold deliverFrame. rewrite Hb. destruct (negb (onFrame cfg)); by apply Hbud'.
  - exists ds. split; [|done]. assert (n = 0) as Hn0 by lia.
    assert (d = []) as Hd0 by (apply blen_zero; lia). rewrite Hd0 in Hdr. cbn [app] in Hdr.
    split; cbn [rbuf sh samples remaining]; try done.
    + by rewrite <- Hdr, Hcut, app_assoc.
    + rewrite Hdrop. lia.
    + intros Hb. rewrite Hb. by apply Hbud'.
Qed.

(** Changing only the terminal cause and the malformed counter keeps it. *)
Lemma read_ok_sh got ds p p' :
  read_ok got ds p → rbuf p' = rbuf p → remaining p' = remaining p → samples p' = samples p →
  log (sh p') = log (sh p) → packets (sh p') = packets (sh p) → payload (sh p') = payload (sh p) →
  read_ok got ds p'.
Proof. intros [? ? ? ? ? ? ?] Hr Hm Hs Hl Hk Hy. split; rewrite ?Hr, ?Hm, ?Hs, ?Hl, ?Hk, ?Hy; done. Qed.

Lemma initiateShutdown_fields c s :
  log (initiateShutdown c s) = log s ∧ packets (initiateShutdown c s) = packets s ∧
  payload (initiateShutdown c s) = payload s ∧ malformed (initiateShutdown c s) = malformed s.
Proof. unfold initiateShutdown. by destruct (termErr s). Qed.

Lemma stop_ok got ds c p : read_ok got ds p → read_ok got ds (stop c p).
Proof.
  intros H. destruct (initiateShutdown_fields c (sh p)) as (? & ? & ? & _).
  by apply (read_ok_sh got ds p).
Qed.

Lemma drop_partial_ok got ds p : read_ok got ds p → read_ok got ds (drop_partial p).
Proof.
  intros H. apply (read_ok_sh got ds p); try done; unfold drop_partial, dropPartial; cbn [sh];
    by destruct (0 <? blen (rbuf p)).
Qed.

(** An event the environment may produce: it never initiates an orderly end. *)
Definition event_ok (e : event) : Prop :=
  match e with
  | Shutdown c => c ≠ ErrStreamEnded
  | ReadUpTo _ intr | ReadFail intr => intr ≠ Some ErrStreamEnded
  end.

(** Why the loop stopped, and what it counted. *)
Definition ended_ok (got : list Z) (p : pcm) (b : body) : Prop :=
  match termErr (sh p) with
  | Some ErrStreamEnded =>
      ((bounded cfg = true ∧ blen got = budget) ∨ (fin b = httpformat.EOF ∧ unread b = [])) ∧
      malformed (sh p) = (if 0 <? blen (rbuf p) then 1 else 0)
  | _ => malformed (sh p) = 0
  end.

Definition loop_ok (whole_body : list Z) (st : pcm * body) : Prop :=
  ∃ got ds, got ++ unread st.2 = whole_body ∧ read_ok got ds st.1 ∧ ended_ok got st.1 st.2.

Lemma stop_fresh c p : termErr (sh p) = None → termErr (sh (stop c p)) = Some c ∧
  malformed (sh (stop c p)) = malformed (sh p) ∧ rbuf (stop c p) = rbuf p.
Proof. intros H. unfold stop, initiateShutdown. cbn [sh rbuf]. by rewrite H. Qed.

Lemma drop_partial_fields p : malformed (sh p) = 0 →
  termErr (sh (drop_partial p)) = termErr (sh p) ∧ rbuf (drop_partial p) = rbuf p ∧
  malformed (sh (drop_partial p)) = if 0 <? blen (rbuf p) then 1 else 0.
Proof.
  intros H. unfold drop_partial, dropPartial, add_malformed. cbn [sh rbuf].
  destruct (0 <? blen (rbuf p)); [|done]. cbn [malformed]. by rewrite H.
Qed.

(** The orderly end: the tail that is less than a frame is counted. *)
Lemma end_ok got ds p b :
  read_ok got ds p → termErr (sh p) = None → malformed (sh p) = 0 →
  ((bounded cfg = true ∧ blen got = budget) ∨ (fin b = httpformat.EOF ∧ unread b = [])) →
  read_ok got ds (stop ErrStreamEnded (drop_partial p)) ∧ ended_ok got (stop ErrStreamEnded (drop_partial p)) b.
Proof.
  intros Hr Ht Hm Hwhy. split; [by apply stop_ok, drop_partial_ok|].
  destruct (drop_partial_fields p Hm) as (Ht' & Hb' & Hm').
  destruct (stop_fresh ErrStreamEnded (drop_partial p)) as (Ht2 & Hm2 & Hb2); [by rewrite Ht'|].
  unfold ended_ok. rewrite Ht2, Hm2, Hb2, Hb', Hm'. done.
Qed.

Lemma interrupt_ok got ds intr p :
  read_ok got ds p → termErr (sh p) = None → malformed (sh p) = 0 → intr ≠ Some ErrStreamEnded →
  read_ok got ds (interrupt intr p) ∧ termErr (sh (interrupt intr p)) = intr ∧
  malformed (sh (interrupt intr p)) = 0 ∧ rbuf (interrupt intr p) = rbuf p ∧
  remaining (interrupt intr p) = remaining p.
Proof.
  intros Hr Ht Hm Hi. destruct intr as [c|]; cbn [interrupt]; [|done].
  destruct (stop_fresh c p Ht) as (? & Hm' & ?). rewrite Hm'. split_and!; try done. by apply stop_ok.
Qed.

Lemma read_error_ok got ds e p b :
  read_ok got ds p → malformed (sh p) = 0 → termErr (sh p) ≠ Some ErrStreamEnded →
  (e = httpformat.EOF → fin b = httpformat.EOF ∧ unread b = []) →
  read_ok got ds (read_error e p) ∧ ended_ok got (read_error e p) b.
Proof.
  intros Hr Hm Ht He. unfold read_error, classifyReadErr.
  destruct (termErr (sh p)) as [te|] eqn:Hte.
  - rewrite bool_decide_false by congruence. split; [by apply stop_ok|].
    unfold ended_ok, stop, initiateShutdown. cbn [sh]. rewrite Hte, Hte. by destruct te.
  - destruct e; try (rewrite bool_decide_false by done; split; [by apply stop_ok|];
      destruct (stop_fresh ErrConnectionClosed p Hte) as (Ht2 & Hm2 & _);
      unfold ended_ok; by rewrite Ht2, Hm2).
    rewrite bool_decide_true by done. apply end_ok; try done. right. by apply He.
Qed.

Lemma read_step_ok whole_body e st :
  event_ok e → loop_ok whole_body st → loop_ok whole_body (read_step cfg e st).
Proof.
  intros Hev (got & ds & Hsplit & Hr & Hend). destruct st as [p b]. cbn [fst snd] in *.
  unfold read_step. destruct (termErr (sh p)) as [te|] eqn:Hte; [by exists got, ds|].
  assert (malformed (sh p) = 0) as Hm by (unfold ended_ok in Hend; by rewrite Hte in Hend).
  assert (∀ got' ds' p' b', got' ++ unread b' = whole_body → read_ok got' ds' p' → ended_ok got' p' b' →
    loop_ok whole_body (p', b')) as Hmk by (intros got' ds' p' b' ???; by exists got', ds').
  assert (bounded cfg = true → remaining p = 0 → loop_ok whole_body (stop ErrStreamEnded (drop_partial p), b)) as Hbud.
  { intros Hb H0. destruct (end_ok got ds p b Hr Hte Hm) as [? ?]; [|by apply (Hmk got ds)].
    left. destruct (ro_budget _ _ _ Hr Hb). split; [done|lia]. }
  destruct e as [c|n intr|intr]; cbn [event_ok] in Hev.
  - destruct (stop_fresh c p Hte) as (Ht2 & Hm2 & _). apply (Hmk got ds); [done|by apply stop_ok|].
    unfold ended_ok. rewrite Ht2, Hm2. by destruct c.
  - destruct (bounded cfg && (remaining p =? 0)) eqn:Hz; [breflect; by apply Hbud|]. cbv zeta.
    set (chunk := take _ (unread b)).
    destruct (interrupt_ok got ds intr p Hr Hte Hm Hev) as (Hr1 & Ht1 & Hm1 & Hb1 & Hrem1).
    destruct (Z.ltb_spec 0 (blen chunk)) as [Hpos|Hzero].
    + destruct (absorb_ok got ds (interrupt intr p) chunk Hr1) as (ds' & Hr2 & Ht2 & Hm2).
      { intros Hb. rewrite Hrem1. destruct (ro_budget _ _ _ Hr Hb). unfold chunk, blen.
        rewrite length_take. unfold read_limit. rewrite Hb. cbn [andb].
        destruct (Z.ltb_spec (remaining p) (httpformat.readBufSize - blen (rbuf p))); lia. }
      apply (Hmk (got ++ chunk) ds'); [|done|].
      * cbn [unread]. rewrite <- app_assoc. rewrite <- Hsplit. f_equal. unfold chunk.
        set (k := Z.to_nat _).
        assert (drop (length (take k (unread b))) (unread b) = drop k (unread b)) as ->; [|apply take_drop].
        rewrite length_take. destruct (decide (k ≤ length (unread b))%nat).
        -- by rewrite Nat.min_l by done.
        -- by rewrite Nat.min_r, !drop_ge by lia.
      * unfold ended_ok. rewrite Ht2, Hm2, Ht1, Hm1. destruct intr as [[]|]; done.
    + destruct (unread b) as [|x u] eqn:Hu.
      * destruct (read_error_ok got ds (fin b) (interrupt intr p) b Hr1 Hm1) as [? ?];
          [by rewrite Ht1|by rewrite Hu|]. apply (Hmk got ds); [by rewrite Hu|done|done].
      * apply (Hmk got ds); [by rewrite Hu|done|]. unfold ended_ok. rewrite Ht1, Hm1. destruct intr as [[]|]; done.
  - destruct (bounded cfg && (remaining p =? 0)) eqn:Hz; [breflect; by apply Hbud|].
    destruct (interrupt_ok got ds intr p Hr Hte Hm Hev) as (Hr1 & Ht1 & Hm1 & Hb1 & Hrem1).
    destruct (read_error_ok got ds httpformat.OtherError (interrupt intr p) b Hr1 Hm1) as [? ?];
      [by rewrite Ht1|done|]. by apply (Hmk got ds).
Qed.

Definition initial : pcm := mkPCM [] budget 0 shared0.

Lemma initial_ok whole_body e : 0 ≤ budget → loop_ok whole_body (initial, mkBody whole_body e).
Proof.
  intros Hb. exists [], []. split_and!; [done| |done].
  split; cbn [initial rbuf sh shared0 log samples packets payload remaining concat frames_of]; try done.
  intros _. cbn [fst]. change (blen (@nil Z)) with 0. cbn [remaining initial]. lia.
Qed.

(** The PCM reader delivers the body, whole frames only.  Whatever sizes the
    reads return and whenever a shutdown lands, the pieces handed to [OnFrame] are
    consecutive, non-empty, frame-aligned pieces of the body read so far (byte
    pairs swapped for a big-endian source), each stamped with the presentation
    time of its first sample; all that is withheld is a tail shorter than one
    frame; the counters agree with the pieces; and the loop reports an orderly end
    only after the whole body or the declared data budget was read, counting the
    withheld tail, while any other cause counts nothing. *)
Theorem readLoop_delivers whole_body e evs p b :
  0 ≤ budget → Forall event_ok evs →
  readLoop cfg evs (initial, mkBody whole_body e) = (p, b) →
  ∃ got ds, got ++ unread b = whole_body ∧ read_ok got ds p ∧ ended_ok got p b.
Proof.
  intros Hb Hev Hrun. assert (loop_ok whole_body (p, b)) as (got & ds & ?); [|by exists got, ds].
  rewrite <- Hrun. clear Hrun. pose proof (initial_ok whole_body e Hb) as Hinit.
  unfold readLoop. revert Hinit. generalize (initial, mkBody whole_body e).
  induction Hev as [|ev evs Hev _ IH]; intros st Hst; [done|]. cbn [fold_left].
  apply IH. by apply read_step_ok.
Qed.
End pcm_spec.

Lemma readLoop_delivers_witness :
  let cfg := mkConfig 48000 4 true true true in
  let st := readLoop cfg [ReadUpTo 3 None; ReadUpTo 100 None; ReadUpTo 1 None]
    (initial 10, mkBody [1; 2; 3; 4; 5; 6; 7; 8; 9; 10; 11; 12] httpformat.EOF) in
  log (sh (fst st)) = [mkFrame [2; 1; 4; 3; 6; 5; 8; 7] 0] ∧
  ∃ got ds, got ++ unread (snd st) = [1; 2; 3; 4; 5; 6; 7; 8; 9; 10; 11; 12] ∧
    read_ok cfg 10 got ds (fst st) ∧ ended_ok cfg 10 got (fst st) (snd st).
Proof.
  intros cfg st. split; [by vm_compute|].
  apply (readLoop_delivers cfg 10 ltac:(done) ltac:(done) _ httpformat.EOF
    [ReadUpTo 3 None; ReadUpTo 100 None; ReadUpTo 1 None]); [done|repeat constructor; done|].
  apply surjective_pairing.
Defined.
(** ** The compressed path, over any framer that obeys the interface's laws *)
Section compressed_spec.
Context {S : Type} `{FramerLaws S}.

(** The calls for the frames [fs], the first at [pts]: each starts where the
    durations before it end. *)
Fixpoint timed (pts : Z) (fs : list (list Z * Z)) : list Frame :=
  match fs with
  | [] => []
  | (d, dur) :: fs => mkFrame d pts :: timed (i64 (pts + dur)) fs
  end.
Definition clock (pts : Z) (fs : list (list Z * Z)) : Z :=
  fold_left (λ p f, i64 (p + f.2)) fs pts.

Lemma timed_app pts fs gs : timed pts (fs ++ gs) = timed pts fs ++ timed (clock pts fs) gs.
Proof.
  revert pts. induction fs as [|[d dur] fs IH]; intros pts; [done|]. cbn [app timed]. by rewrite IH.
Qed.

(** The reader's state after delivering [fs]. *)
Record comp_ok (fs : list (list Z * Z)) (c : comp S) : Prop := {
  co_wf : wf (framer c);
  co_log : log (csh c) = timed 0 fs;
  co_pts : mediaPTS c = clock 0 fs;
  co_packets : packets (csh c) = u64 (blen fs);
  co_payload : payload (csh c) = u64 (blen (concat fs.*1));
  co_pos : Forall (λ f, 0 < f.2 ∧ 0 < blen f.1) fs
}.

Lemma deliver_all fs gs c :
  comp_ok fs c → Forall (λ f, 0 < f.2 ∧ 0 < blen f.1) gs →
  let c' := fold_left (deliverCompressed true) gs c in
  comp_ok (fs ++ gs) c' ∧ framer c' = framer c ∧ termErr (csh c') = termErr (csh c).
Proof.
  revert fs c. induction gs as [|[d dur] gs IH]; intros fs c Hc Hg; [by rewrite app_nil_r|].
  apply Forall_cons_iff in Hg as [[Hdur Hd] Hg]. cbn [fold_left fst snd] in *.
  destruct (IH (fs ++ [(d, dur)]) (deliverCompressed true c (d, dur))) as (Hc' & Hf & Ht); [|done|].
  { destruct Hc as [Hwf Hl Hp Hk Hy Hpos]. cbn [deliverCompressed]. destruct (Z.ltb_spec 0 dur); [|lia].
    split; cbn [framer csh mediaPTS emitFrame log packets payload].
    - done.
    - rewrite timed_app, Hl, Hp. done.
    - rewrite Hp. unfold clock. by rewrite fold_left_app.
    - rewrite Hk, blen_app, u64_add_l. done.
    - rewrite Hy, fmap_app, concat_app, blen_app, u64_add_l. cbn. by rewrite app_nil_r.
    - apply Forall_app. by repeat constructor. }
  rewrite <- app_assoc in Hc'. split_and!; [exact Hc'|by rewrite Hf|by rewrite Ht].
Qed.

Lemma comp_ok_framer fs c c' : comp_ok fs c → wf (framer c') → mediaPTS c' = mediaPTS c →
  log (csh c') = log (csh c) → packets (csh c') = packets (csh c) → payload (csh c') = payload (csh c) →
  comp_ok fs c'.
Proof. intros [? ? ? ? ? ?] Hw Hm Hl Hk Hy. split; rewrite ?Hm, ?Hl, ?Hk, ?Hy; done. Qed.

(** What a framer yields to a reader, call by call: every chunk is fed, [NextFrame] is called
    until it has no whole frame left ([run], iterating one step of its loop), and the buffer is compacted;
    an end of file lets it yield what no later header can confirm, and then it is finished. *)
Inductive yields (e : httpformat.read_error) : S → list (list Z) → list (list Z * Z) → S → Prop :=
  | yields_feed s chunk chunks fs s1 gs s2 : run (Feed chunk s) fs s1 → yields e (Compact s1) chunks gs s2 →
      yields e s (chunk :: chunks) (fs ++ gs) s2
  | yields_eof s fs s1 : e = httpformat.EOF → run (SetEOF s) fs s1 → yields e s [] fs (Finish (Compact s1))
  | yields_lost s : e ≠ httpformat.EOF → yields e s [] [] s.

Lemma yields_total e chunks : ∀ s, wf s → Forall bytes_ok chunks → ∃ fs s', yields e s chunks fs s'.
Proof.
  induction chunks as [|chunk chunks IH]; intros s Hwf Hok.
  - assert (e = httpformat.EOF ∨ e ≠ httpformat.EOF) as [He|He] by (destruct e; (by left) || by right).
    + destruct (wf_eof s Hwf) as (Hwf1 & _). destruct (run_total _ Hwf1) as (fs & s1 & Hr). eexists _, _. by eapply yields_eof.
    + eexists _, _. by apply yields_lost.
  - apply Forall_cons_iff in Hok as [Hc Hok]. destruct (wf_feed s chunk Hwf Hc) as (Hwf1 & _).
    destruct (run_total _ Hwf1) as (fs & s1 & Hr). destruct (wf_compact s1 (run_wf _ _ _ Hwf1 Hr)) as (Hwf2 & _).
    destruct (IH _ Hwf2 Hok) as (gs & s2 & Hy). eexists _, _. by eapply yields_feed.
Qed.

Lemma drainCompressed_ok fs c gs s' : comp_ok fs c → run (framer c) gs s' →
  ∃ c', drainCompressed true c = Ok c' ∧ comp_ok (fs ++ gs) c' ∧ termErr (csh c') = termErr (csh c) ∧
    framer c' = Compact s' ∧ cut (backlog (framer c)) (gs.*1) (backlog (framer c')) ∧
    blen (backlog (framer c')) ≤ max_wait ∧ malformed (csh c') = GapCount (framer c').
Proof.
  intros Hc Hrun. unfold drainCompressed.
  destruct (drain_ok (framer c) (co_wf _ _ Hc)) as (gs' & f & E & Hwf & _ & Hcut & Hall & Hle).
  rewrite (drain_run _ _ _ (co_wf _ _ Hc) Hrun) in E |- *. injection E as <- <-.
  rewrite bind_Ok. cbv beta iota zeta.
  destruct (deliver_all fs gs (mkComp s' (mediaPTS c) (csh c))) as (Hc' & Hf & Ht);
    [by apply (comp_ok_framer fs c)|done|].
  set (c1 := fold_left _ _ _) in *. rewrite Hf. cbn [framer].
  destruct (wf_compact s' Hwf) as (Hwf2 & Hb2 & Hbuf2 & Hg2).
  eexists. split; [done|]. cbn [framer csh set_malformed malformed termErr].
  rewrite Hb2. split_and!; try done.
  by apply (comp_ok_framer (fs ++ gs) c1).
Qed.

(** What a reader has done once its framer has yielded [gs] and is left as [s]. *)
Record reads (e : httpformat.read_error) (chunks : list (list Z)) (c : comp S) (fs gs : list (list Z * Z)) (s : S) (c' : comp S) : Prop := {
  rd_ok : comp_ok (fs ++ gs) c';
  rd_framer : framer c' = s;
  rd_cut : ∃ rest, cut (backlog (framer c) ++ concat chunks) (gs.*1) rest ∧ blen rest ≤ Z.max max_wait (blen (backlog (framer c)));
  rd_malformed : malformed (csh c) = GapCount (framer c) ∨ chunks ≠ [] ∨ e = httpformat.EOF → malformed (csh c') = GapCount s;
  rd_cause : termErr (csh c') = Some (match e with httpformat.EOF => ErrStreamEnded | _ => ErrConnectionClosed end)
}.

Lemma endCompressed_ok e c fs gs s : comp_ok fs c → termErr (csh c) = None → yields e (framer c) [] gs s →
  ∃ c', endCompressed true e c = Ok c' ∧ reads e [] c fs gs s c'.
Proof.
  intros Hc Hte Hy. unfold endCompressed, classifyReadErr. rewrite Hte.
  inversion Hy as [|? ? s1 -> Hrun|? He]; subst.
  - rewrite bool_decide_true by done. destruct (wf_eof (framer c) (co_wf _ _ Hc)) as (Hwf1 & Hb1 & _).
    destruct (drainCompressed_ok fs (mkComp (SetEOF (framer c)) (mediaPTS c) (csh c)) gs s1)
      as (c1 & -> & Hc1 & Ht1 & Hf1 & Hcut1 & Hle1 & Hm1); [by apply (comp_ok_framer fs c)|done|].
    rewrite bind_Ok. cbv zeta. rewrite bind_ret. cbn [framer csh mediaPTS] in *.
    destruct (wf_finish (framer c1) (co_wf _ _ Hc1)) as (Hwf2 & _).
    set (s2 := set_malformed (GapCount (Finish (framer c1))) (csh c1)).
    destruct (initiateShutdown_fields ErrStreamEnded s2) as (Hl & Hk & Hpl & Hm).
    eexists. split; [done|]. split; cbn [framer csh].
    + by apply (comp_ok_framer (fs ++ gs) c1).
    + rewrite <- Hf1. done.
    + exists (backlog (framer c1)). cbn [concat]. rewrite app_nil_r, <- Hb1. split; [done|lia].
    + intros _. rewrite Hm, <- Hf1. done.
    + unfold initiateShutdown. subst s2. cbn [termErr set_malformed]. by rewrite Ht1, Hte.
  - assert (Hce : (match e with httpformat.EOF => ErrStreamEnded | _ => ErrConnectionClosed end) = ErrConnectionClosed) by (by destruct e).
    rewrite Hce, bool_decide_false, bind_ret by done. destruct (initiateShutdown_fields ErrConnectionClosed (csh c)) as (Hl & Hk & Hpl & Hm).
    eexists. split; [done|]. split; cbn [framer csh].
    + rewrite app_nil_r. apply (comp_ok_framer fs c); try done. apply Hc.
    + done.
    + exists (backlog (framer c)). cbn [concat]. rewrite app_nil_r. split; [apply cut_refl|lia].
    + rewrite Hm. intros [?|[?|?]]; done.
    + unfold initiateShutdown. by rewrite Hte, Hce.
Qed.

Lemma readCompressed_ok e chunks : ∀ c fs gs s, Forall bytes_ok chunks → comp_ok fs c → termErr (csh c) = None →
  yields e (framer c) chunks gs s → ∃ c', readCompressed true chunks e c = Ok c' ∧ reads e chunks c fs gs s c'.
Proof.
  induction chunks as [|chunk chunks IH]; intros c fs gs s Hok Hc Hte Hy; cbn [readCompressed]; rewrite Hte; [by apply endCompressed_ok|].
  inversion Hy as [? ? ? gs1 s1 gs2 ? Hrun Hy2| |]; subst. apply Forall_cons_iff in Hok as [Hch Hok]. unfold feedCompressed.
  destruct (wf_feed (framer c) chunk (co_wf _ _ Hc) Hch) as (Hwf1 & Hb1 & _).
  destruct (drainCompressed_ok fs (mkComp (Feed chunk (framer c)) (mediaPTS c) (csh c)) gs1 s1)
    as (c1 & -> & Hc1 & Ht1 & Hf1 & Hcut1 & Hle1 & Hm1); [by apply (comp_ok_framer fs c)|done|].
  rewrite bind_Ok. cbn [framer csh] in *. rewrite <- Hf1 in Hy2.
  destruct (IH c1 (fs ++ gs1) gs2 s Hok Hc1) as (c2 & E & [R1 R2 (rest & R3 & R4) R5 R6]); [by rewrite Ht1|done|].
  exists c2. split; [done|]. split; [by rewrite app_assoc|done| | |done].
  - exists rest. rewrite fmap_app. cbn [concat]. rewrite app_assoc, <- Hb1. split; [|lia]. eapply cut_trans; [by apply cut_extend|done].
  - intros _. apply R5. by left.
Qed.

(** C32: the compressed reader delivers what its framer yields, over any framer that obeys the
    interface (the MP3 and the ADTS framers do; what those two yield is [mp3_stream_exact] and
    [frame_stream_exact]).  Whatever bytes arrive in whatever chunks, the calls of the framer's interface yield
    some sequence of frames with their durations, and the reader, which never panics and always
    terminates, makes exactly those calls: [OnFrame] gets exactly those frames, in that order,
    none lost or repeated, the first at 0 and each next one at the sum of the durations before it;
    they are disjoint consecutive pieces of the body; the packet and payload counters are
    their number and length, the malformed counter is the framer's discard count; and an end of file ends
    the source with [ErrStreamEnded], a failed read with [ErrConnectionClosed]. *)
Theorem readCompressed_delivers f chunks e :
  wf f → Forall bytes_ok chunks →
  (∃ fs s, yields e f chunks fs s) ∧
  ∀ fs s, yields e f chunks fs s →
  ∃ c, readCompressed true chunks e (mkComp f 0 shared0) = Ok c ∧ framer c = s ∧
    log (csh c) = timed 0 fs ∧ packets (csh c) = u64 (blen fs) ∧ payload (csh c) = u64 (blen (concat fs.*1)) ∧
    (∃ rest, cut (backlog f ++ concat chunks) (fs.*1) rest ∧ blen rest ≤ Z.max max_wait (blen (backlog f))) ∧
    (chunks ≠ [] ∨ e = httpformat.EOF → malformed (csh c) = GapCount s) ∧
    termErr (csh c) = Some (match e with httpformat.EOF => ErrStreamEnded | _ => ErrConnectionClosed end).
Proof.
  intros Hwf Hok. split; [by apply yields_total|]. intros fs s Hy.
  destruct (readCompressed_ok e chunks (mkComp f 0 shared0) [] fs s Hok) as (c & E & [[] Hf Hcut Hm Hce]); [by split|done|done|].
  exists c. split_and!; try done. intros Hor. apply Hm. by right.
Qed.
End compressed_spec.

(** A body of an ID3 tag, noise and two MPEG frames, in two chunks. *)
Definition mp3_body : list Z := mp3stream.id3_head 4 0 false 3 ++ [1; 2; 3] ++ depacketmp3.example_frame ++ depacketmp3.example_frame.
Lemma readCompressed_delivers_witness :
  ∃ c, readCompressed true [take 20 mp3_body; drop 20 mp3_body] httpformat.EOF (mkComp mp3stream.newStream 0 shared0) = Ok c ∧
    (∃ fs, log (csh c) = timed 0 fs ∧ packets (csh c) = u64 (blen fs)) ∧ termErr (csh c) = Some ErrStreamEnded.
Proof.
  destruct (readCompressed_delivers mp3stream.newStream [take 20 mp3_body; drop 20 mp3_body] httpformat.EOF) as [(fs & s & Hy) H].
  - split; [by vm_compute|constructor|by vm_compute|by vm_compute].
  - repeat constructor; by vm_compute.
  - destruct (H fs s Hy) as (c & E & _ & Hl & Hp & _ & _ & _ & Ht). exists c. split; [exact E|]. split; [|exact Ht]. exists fs. split; [exact Hl|exact Hp].
Defined.
Example mp3_body_log : match readCompressed true [take 20 mp3_body; drop 20 mp3_body] httpformat.EOF (mkComp mp3stream.newStream 0 shared0) with
  | Ok c => Data <$> log (csh c) = [depacketmp3.example_frame; depacketmp3.example_frame]
  | _ => False
  end.
Proof. vm_compute. reflexivity. Qed.

End httpclient.
