(* ===== verification/Aac.v ===== *)
(** * The RFC 3640 depacketizer: [depacket/aac/aac.go], [depacketize.go]

    The AU-header bit reader and parser, multi-AU packets and the reassembly of an
    access unit fragmented across packets. *)
From S2P Require Import Prelude Bytes Framer.

Module depacketaac.

Definition MaxAUsPerPacket : Z := 512.
Definition MaxFragmentSize : Z := 64 * 1024.

Inductive err :=
  | ErrConfigInvalid | ErrTruncatedHeader | ErrAUSizeOverflow | ErrFragmentOverflow
  | ErrInterleavingUnsupported.

Record Config := mkConfig {
  SizeLength : Z; IndexLength : Z; IndexDeltaLength : Z; SamplesPerFrame : Z
}.
Record AU := mkAU { Data : list Z; RTPOffset : Z }.
Record auHeader := mkHeader { size : Z; index : Z }.

Record Depacketizer := mkDepacketizer {
  cfg : Config; frag : list Z; fragActive : bool; fragTotalSize : Z
}.

Definition New (c : Config) : Depacketizer + err :=
  if (SizeLength c <? 1) || (31 <? SizeLength c) then inr ErrConfigInvalid
  else if (IndexLength c <? 0) || (32 <? IndexLength c) then inr ErrConfigInvalid
  else if (IndexDeltaLength c <? 0) || (32 <? IndexDeltaLength c) then inr ErrConfigInvalid
  else if (SamplesPerFrame c <? 1) || (8192 <? SamplesPerFrame c) then inr ErrConfigInvalid
  else if 64 <? SizeLength c + IndexLength c then inr ErrConfigInvalid
  else if 64 <? SizeLength c + IndexDeltaLength c then inr ErrConfigInvalid
  else inl (mkDepacketizer c [] false 0).

Definition Reset (d : Depacketizer) : Depacketizer := mkDepacketizer (cfg d) [] false 0.

(** ** The AU-header section *)

Definition readBits (hdr : list Z) (bitPos n : Z) : res err Z := bits_at hdr bitPos n.

(** The header loop; [headers] are those parsed so far. *)
Fixpoint headers_loop (fuel : nat) (c : Config) (hdr : list Z) (l consumed : Z)
    (headers : list auHeader) : res err (list auHeader) :=
  match fuel with
  | O => Panic
  | S fuel =>
      if l <=? consumed then (if negb (consumed =? l) then Err ErrTruncatedHeader else mret headers)
      else if MaxAUsPerPacket <=? blen headers then Err ErrTruncatedHeader
      else
        let idxBits := if blen headers =? 0 then IndexLength c else IndexDeltaLength c in
        let headerBits := SizeLength c + idxBits in
        if l <? consumed + headerBits then Err ErrTruncatedHeader
        else
          sz ← readBits hdr consumed (SizeLength c);
          ix ← readBits hdr (consumed + SizeLength c) idxBits;
          if negb (ix =? 0) then Err ErrInterleavingUnsupported
          else headers_loop fuel c hdr l (consumed + headerBits) (headers ++ [mkHeader sz ix])
  end.

Definition parseAUHeaders (c : Config) (payload : list Z) : res err (list auHeader * Z) :=
  if blen payload <? 2 then Err ErrTruncatedHeader else
  l ← be_at 2 payload 0;
  if l =? 0 then Err ErrTruncatedHeader else
  let headerBytes := (l + 7) / 8 in
  let dataStart := 2 + headerBytes in
  if blen payload <? dataStart then Err ErrTruncatedHeader else
  hdr ← slice payload 2 dataStart;
  headers ← headers_loop 514 c hdr l 0 [];
  mret (headers, dataStart).

(** ** Depacketize *)
Definition result : Type := Depacketizer * (list AU + err).

(** A continuation of the access unit being reassembled. *)
Definition continue_fragment (d : Depacketizer) (headers : list auHeader) (data : list Z)
    (marker : bool) : result :=
  match headers with
  | [h] =>
      if negb (size h =? fragTotalSize d) then (Reset d, inr ErrAUSizeOverflow)
      else if (fragTotalSize d <? blen (frag d) + blen data) ||
              (MaxFragmentSize <? blen (frag d) + blen data) then (Reset d, inr ErrFragmentOverflow)
      else
        let frag' := frag d ++ data in
        if marker && (blen frag' <? fragTotalSize d) then (Reset d, inr ErrAUSizeOverflow)
        else if marker then (mkDepacketizer (cfg d) frag' false 0, inl [mkAU frag' 0])
        else if blen frag' =? fragTotalSize d then (Reset d, inr ErrAUSizeOverflow)
        else (mkDepacketizer (cfg d) frag' true (fragTotalSize d), inl [])
  | _ => (Reset d, inr ErrTruncatedHeader)
  end.

(** The loop over the headers of a complete packet. *)
Fixpoint cut_units (spf : Z) (payload : list Z) (offset i : Z) (headers : list auHeader)
    (aus : list AU) : res err (list AU + err) :=
  match headers with
  | [] => mret (inl aus)
  | h :: headers =>
      if blen payload - offset <? size h then mret (inr ErrAUSizeOverflow)
      else
        data ← slice payload offset (offset + size h);
        cut_units spf payload (offset + size h) (i + 1) headers (aus ++ [mkAU data (u32 (u32 i * u32 spf))])
  end.

Definition Depacketize (d : Depacketizer) (payload : list Z) (marker : bool) : res err result :=
  match parseAUHeaders (cfg d) payload with
  | Panic => Panic
  | Err e => mret (if fragActive d then Reset d else d, inr e)
  | Ok (headers, dataStart) =>
      data ← slice_from payload dataStart;
      if fragActive d then mret (continue_fragment d headers data marker)
      else
        match headers with
        | [h] =>
            if blen data <? size h then
              if marker then mret (d, inr ErrAUSizeOverflow)
              else if MaxFragmentSize <? size h then mret (d, inr ErrFragmentOverflow)
              else mret (mkDepacketizer (cfg d) data true (size h), inl [])
            else r ← cut_units (SamplesPerFrame (cfg d)) payload dataStart 0 headers []; mret (d, r)
        | _ => r ← cut_units (SamplesPerFrame (cfg d)) payload dataStart 0 headers []; mret (d, r)
        end
  end.

Lemma readBits_field hdr pos n :
  bytes_ok hdr → 0 ≤ pos → 0 ≤ n ≤ 32 → pos + n ≤ 8 * blen hdr →
  readBits hdr pos n = Ok (field hdr pos n).
Proof. apply bits_at_field. Qed.

(** ** Safety *)
Record config_ok (c : Config) : Prop := {
  ck_size : 1 ≤ SizeLength c ≤ 31;
  ck_index : 0 ≤ IndexLength c ≤ 32;
  ck_delta : 0 ≤ IndexDeltaLength c ≤ 32;
  ck_spf : 1 ≤ SamplesPerFrame c ≤ 8192
}.

Record depack_ok (d : Depacketizer) : Prop := {
  do_cfg : config_ok (cfg d);
  do_frag : fragActive d = true → blen (frag d) < fragTotalSize d ≤ MaxFragmentSize
}.

Lemma New_ok c d : New c = inl d → depack_ok d ∧ fragActive d = false ∧ cfg d = c.
Proof.
  unfold New. destruct (_ || _) eqn:H1; [discriminate|]. destruct ((IndexLength c <? 0) || _) eqn:H2; [discriminate|].
  destruct ((IndexDeltaLength c <? 0) || _) eqn:H3; [discriminate|].
  destruct ((SamplesPerFrame c <? 1) || _) eqn:H4; [discriminate|].
  destruct (64 <? _); [discriminate|]. destruct (64 <? _); [discriminate|]. intros [= <-]. breflect.
  split; [|done]. split; [split; cbn [cfg]; lia|done].
Qed.

Lemma Reset_ok d : depack_ok d → depack_ok (Reset d).
Proof. intros [Hc _]. by split. Qed.

Definition headers_ok (hs : list auHeader) : Prop :=
  blen hs ≤ MaxAUsPerPacket ∧ Forall (λ h, 0 ≤ size h < 2 ^ 31) hs.

Lemma headers_loop_ok c hdr l fuel : config_ok c → bytes_ok hdr → l ≤ 8 * blen hdr →
  ∀ consumed hs, 0 ≤ consumed ≤ l → headers_ok hs → MaxAUsPerPacket - blen hs < Z.of_nat fuel - 1 →
  (∃ e, headers_loop fuel c hdr l consumed hs = Err e) ∨
  ∃ hs', headers_loop fuel c hdr l consumed hs = Ok hs' ∧ headers_ok hs' ∧ (consumed < l ∨ hs ≠ [] → hs' ≠ []).
Proof.
  intros Hc Hok Hl. unfold MaxAUsPerPacket.
  induction fuel as [|fuel IH]; intros consumed hs Hcon [Hlen Hall] Hf; unfold MaxAUsPerPacket in *; [lia|].
  cbn [headers_loop]. destruct (Z.leb_spec l consumed).
  { destruct (negb _); [left; by eexists|]. right. eexists. split; [done|]. split; [done|]. intros [?|?]; [lia|done]. }
  unfold MaxAUsPerPacket. destruct (Z.leb_spec 512 (blen hs)); [left; by eexists|]. cbv zeta.
  destruct Hc as [Hc1 Hc2 Hc3 Hc4].
  set (ib := if blen hs =? 0 then IndexLength c else IndexDeltaLength c).
  assert (0 ≤ ib ≤ 32) as Hib by (unfold ib; destruct (_ =? _); lia). clearbody ib.
  destruct (Z.ltb_spec l (consumed + (SizeLength c + ib))); [left; by eexists|].
  rewrite (readBits_field hdr consumed (SizeLength c)), bind_Ok by (done || lia).
  rewrite (readBits_field hdr (consumed + SizeLength c) ib), bind_Ok by (done || lia).
  destruct (negb _); [left; by eexists|].
  pose proof (field_range hdr consumed (SizeLength c) ltac:(lia)).
  assert (2 ^ SizeLength c ≤ 2 ^ 31) by (apply Z.pow_le_mono_r; lia).
  set (h := mkHeader _ _). destruct (IH (consumed + (SizeLength c + ib)) (hs ++ [h])) as [?|(hs' & -> & Hhs & Hne)].
  - lia.
  - split; [rewrite blen_app; change (blen [h]) with 1; unfold MaxAUsPerPacket; lia|].
    apply Forall_app. split; [done|]. constructor; [|done]. cbn. lia.
  - rewrite blen_app. change (blen [h]) with 1. lia.
  - by left.
  - right. exists hs'. split_and!; try done. intros _. apply Hne. right. by destruct hs.
Qed.

Lemma parseAUHeaders_ok c payload : config_ok c → bytes_ok payload →
  (∃ e, parseAUHeaders c payload = Err e) ∨
  ∃ hs start, parseAUHeaders c payload = Ok (hs, start) ∧ headers_ok hs ∧ hs ≠ [] ∧
    2 < start ≤ blen payload.
Proof.
  intros Hc Hok. unfold parseAUHeaders. destruct (Z.ltb_spec (blen payload) 2); [left; by eexists|].
  destruct (be_at (E:=err) 2 payload 0) as [l| |] eqn:Hl; [|by apply be_at_not_err in Hl|by apply be_at_no_panic in Hl; lia].
  rewrite bind_Ok. apply be_at_range in Hl; [|done|lia]. destruct (Z.eqb_spec l 0); [left; by eexists|]. cbv zeta.
  assert (l ≤ 8 * ((l + 7) / 8) < l + 8) as Hd by (Z.div_mod_to_equations; lia).
  set (hb := (l + 7) / 8) in *. clearbody hb.
  destruct (Z.ltb_spec (blen payload) (2 + hb)); [left; by eexists|].
  destruct (slice (E:=err) payload 2 (2 + hb)) as [hdr| |] eqn:Hs;
    [|by apply slice_not_err in Hs|by apply slice_no_panic in Hs; lia].
  rewrite bind_Ok. pose proof (slice_bytes_ok _ _ _ _ Hok Hs) as Hhok. apply slice_length in Hs.
  destruct (headers_loop_ok c hdr l 514 Hc Hhok ltac:(lia) 0 []) as [(e & ->)|(hs & -> & Hhs & Hne)].
  - lia.
  - split; [by vm_compute|done].
  - by vm_compute.
  - left. by eexists.
  - right. exists hs, (2 + hb). split; [done|]. split_and!; [done|apply Hne; left; lia|lia|lia].
Qed.

(** What a call may hand over: whole units, the [i]-th at [i] frames. *)
Definition spaced (spf : Z) (aus : list AU) : Prop :=
  ∀ i au, aus !! i = Some au → RTPOffset au = Z.of_nat i * spf.

Lemma cut_units_ok spf payload hs : 1 ≤ spf ≤ 8192 → ∀ offset i aus,
  0 ≤ offset ≤ blen payload → Forall (λ h, 0 ≤ size h < 2 ^ 31) hs → i = blen aus →
  blen aus + blen hs ≤ MaxAUsPerPacket → spaced spf aus →
  cut_units spf payload offset i hs aus = Ok (inr ErrAUSizeOverflow) ∨
  ∃ new, cut_units spf payload offset i hs aus = Ok (inl (aus ++ new)) ∧ blen new = blen hs ∧
    spaced spf (aus ++ new) ∧
    ∃ rest, drop (Z.to_nat offset) payload = concat (Data <$> new) ++ rest.
Proof.
  unfold MaxAUsPerPacket. intros Hspf.
  induction hs as [|h hs IH]; intros offset i aus Ho Hall -> Hb Hsp; cbn [cut_units].
  { right. exists []. rewrite app_nil_r. split_and!; try done. by eexists. }
  apply Forall_cons_iff in Hall as [Hh Hall]. rewrite blen_cons in Hb.
  pose proof (blen_nonneg aus). pose proof (blen_nonneg hs).
  destruct (Z.ltb_spec (blen payload - offset) (size h)); [by left|].
  rewrite slice_ok, bind_Ok by lia. replace (offset + size h - offset) with (size h) by lia.
  set (data := take _ _). rewrite (u32_small (blen aus)), (u32_small spf) by (unfold is_u32; lia).
  rewrite u32_small by (unfold is_u32; nia).
  destruct (IH (offset + size h) (blen aus + 1) (aus ++ [mkAU data (blen aus * spf)]))
    as [->|(new & -> & Hn & Hs & rest & Hr)]; try done; try lia.
  - by rewrite blen_app.
  - rewrite blen_app. change (blen [mkAU data (blen aus * spf)]) with 1. lia.
  - intros k au Hk. destruct (decide (k < length aus)%nat).
    + rewrite lookup_app_l in Hk by done. by apply Hsp.
    + rewrite lookup_app_r in Hk by lia. destruct (k - length aus)%nat eqn:E; [|done].
      injection Hk as <-. cbn [RTPOffset]. unfold blen. do 2 f_equal. lia.
  - by left.
  - right. exists (mkAU data (blen aus * spf) :: new). rewrite <- app_assoc in *. cbn [app] in *.
    split_and!; try done; [rewrite !blen_cons; lia|]. exists rest.
    rewrite fmap_cons. cbn [concat Data]. rewrite <- app_assoc, <- Hr. unfold data.
    rewrite <- (take_drop (Z.to_nat (size h)) (drop (Z.to_nat offset) payload)) at 1. f_equal.
    rewrite drop_drop. f_equal. lia.
Qed.

Lemma aac_step d payload marker :
  depack_ok d → bytes_ok payload →
  ∃ d' r, Depacketize d payload marker = Ok (d', r) ∧ depack_ok d' ∧ cfg d' = cfg d ∧
    match r with
    | inl aus => (aus = [] ∧ fragActive d' = true) ∨
        (fragActive d' = false ∧ spaced (SamplesPerFrame (cfg d)) aus ∧
         (fragActive d = false → ∃ start rest, drop start payload = concat (Data <$> aus) ++ rest))
    | inr _ => fragActive d' = false
    end.
Proof.
  intros Hd Hok. pose proof Hd as [Hc Hf]. unfold Depacketize.
  destruct (parseAUHeaders_ok (cfg d) payload Hc Hok) as [(e & ->)|(hs & start & -> & [Hlen Hall] & Hne & Hst)].
  { eexists _, _. split; [done|]. destruct (fragActive d) eqn:Ha; [|done]. by split_and!. }
  rewrite slice_from_ok, bind_Ok by lia. set (data := drop _ payload).
  assert (∃ d' r, (r ← cut_units (SamplesPerFrame (cfg d)) payload start 0 hs []; mret (d, r)) = Ok (d', r) ∧
    d' = d ∧ match r with
    | inl aus => spaced (SamplesPerFrame (cfg d)) aus ∧
        ∃ start rest, drop start payload = concat (Data <$> aus) ++ rest
    | inr _ => True end) as (d1 & r1 & Hcut & -> & Hr1).
  { destruct Hc as [_ _ _ Hspf].
    destruct (cut_units_ok (SamplesPerFrame (cfg d)) payload hs Hspf start 0 [])
      as [->|(new & -> & _ & Hs & rest & Hr)]; try done; try lia.
    - by eexists _, _.
    - eexists _, _. split; [done|]. split; [done|]. split; [done|]. by eexists _, rest. }
  destruct (fragActive d) eqn:Ha.
  - specialize (Hf eq_refl). unfold continue_fragment.
    assert (depack_ok (Reset d) ∧ cfg (Reset d) = cfg d ∧ fragActive (Reset d) = false) as Hreset
      by (split; [by apply Reset_ok|done]).
    assert (∀ e : err, ∃ d' r, Ok (E:=err) (Reset d, @inr (list AU) err e) = Ok (d', r) ∧ depack_ok d' ∧ cfg d' = cfg d ∧
      match r with
      | inl aus => (aus = [] ∧ fragActive d' = true) ∨
          (fragActive d' = false ∧ spaced (SamplesPerFrame (cfg d)) aus ∧
           (true = false → ∃ start rest, drop start payload = concat (Data <$> aus) ++ rest))
      | inr _ => fragActive d' = false end) as Herr by (intros e; destruct_and! Hreset; by eexists _, _).
    destruct hs as [|h [|? ?]]; [apply Herr| |apply Herr].
    destruct (negb _); [apply Herr|]. destruct (_ || _) eqn:Hov; [apply Herr|]. breflect. cbv zeta.
    rewrite !blen_app. destruct (marker && _) eqn:Hm; [apply Herr|]. destruct marker.
    + eexists _, _. split; [done|]. split_and!; [by split|done|]. right. split_and!; [done| |done].
      intros [|i] au Hi; [|done]. injection Hi as <-. done.
    + destruct (Z.eqb_spec (blen (frag d) + blen data) (fragTotalSize d)); [apply Herr|].
      eexists _, _. split; [done|]. split_and!; [|done|by left]. split; [done|].
      intros _. cbn [frag fragTotalSize]. rewrite blen_app. lia.
  - assert (∃ d' r, (r ← cut_units (SamplesPerFrame (cfg d)) payload start 0 hs []; mret (d, r)) = Ok (d', r) ∧
      depack_ok d' ∧ cfg d' = cfg d ∧ match r with
      | inl aus => (aus = [] ∧ fragActive d' = true) ∨
          (fragActive d' = false ∧ spaced (SamplesPerFrame (cfg d)) aus ∧
           (false = false → ∃ start rest, drop start payload = concat (Data <$> aus) ++ rest))
      | inr _ => fragActive d' = false end) as Hdone.
    { exists d, r1. split_and!; try done. destruct r1 as [aus|]; [|done]. right. by destruct Hr1. }
    destruct hs as [|h [|? ?]]; [done| |done].
    destruct (Z.ltb_spec (blen data) (size h)); [|done].
    destruct marker; [by eexists _, _|]. destruct (Z.ltb_spec MaxFragmentSize (size h)); [by eexists _, _|].
    eexists _, _. split; [done|]. split_and!; [|done|by left]. split; [done|]. intros _. done.
Qed.

(** The RFC 3640 depacketizer never panics on any payload; the bytes it buffers
    for a fragmented unit stay below the declared size, at most 64 KiB; the units
    of a packet are consecutive pieces of it, the i-th offset by i frames; and
    after an error no partial unit is kept, so the next packet starts clean. *)
Theorem aac_Depacketize_ok d payload marker :
  depack_ok d → bytes_ok payload →
  ∃ d' r, Depacketize d payload marker = Ok (d', r) ∧ depack_ok d' ∧ cfg d' = cfg d ∧
    match r with
    | inl aus => (aus = [] ∧ fragActive d' = true) ∨
        (fragActive d' = false ∧ spaced (SamplesPerFrame (cfg d)) aus ∧
         (fragActive d = false → ∃ start rest, drop start payload = concat (Data <$> aus) ++ rest))
    | inr _ => fragActive d' = false
    end.
Proof. apply aac_step. Qed.

Definition hbr : Config := mkConfig 13 3 3 1024.
Definition dhbr : Depacketizer := mkDepacketizer hbr [] false 0.

Lemma dhbr_ok : depack_ok dhbr.
Proof. split; [split; cbn; lia|done]. Qed.

Lemma aac_Depacketize_ok_witness :
  ∃ d' r, Depacketize dhbr [0; 16; 0; 32; 1; 2; 3; 4] true = Ok (d', r) ∧ depack_ok d' ∧ cfg d' = hbr ∧
    match r with
    | inl aus => (aus = [] ∧ fragActive d' = true) ∨
        (fragActive d' = false ∧ spaced 1024 aus ∧
         (false = false → ∃ start rest, drop start [0; 16; 0; 32; 1; 2; 3; 4] = concat (Data <$> aus) ++ rest))
    | inr _ => fragActive d' = false
    end.
Proof.
  apply (aac_Depacketize_ok dhbr); [apply dhbr_ok|]. repeat constructor; by vm_compute.
Defined.

(** ** Round trip: the RFC 3640 packetization *)
Definition idx_bits (c : Config) (first : bool) : Z :=
  if first then IndexLength c else IndexDeltaLength c.

(** The AU-header section as one number: sizes followed by zero indices. *)
Fixpoint hdr_bits (c : Config) (first : bool) (sizes : list Z) : Z :=
  match sizes with
  | [] => 0
  | _ :: ss => SizeLength c + idx_bits c first + hdr_bits c false ss
  end.
Fixpoint hdr_value (c : Config) (first : bool) (sizes : list Z) : Z :=
  match sizes with
  | [] => 0
  | s :: ss => s * 2 ^ (idx_bits c first + hdr_bits c false ss) + hdr_value c false ss
  end.

Definition packet (c : Config) (sizes : list Z) (data : list Z) : list Z :=
  let L := hdr_bits c true sizes in
  let nb := Z.to_nat ((L + 7) / 8) in
  be_split 2 L ++ be_split nb (hdr_value c true sizes * 2 ^ (8 * Z.of_nat nb - L)) ++ data.

Definition sizes_ok (c : Config) (sizes : list Z) : Prop :=
  sizes ≠ [] ∧ blen sizes ≤ MaxAUsPerPacket ∧ hdr_bits c true sizes < 2 ^ 16 ∧
  Forall (λ s, 0 ≤ s < 2 ^ SizeLength c) sizes.

Lemma hdr_bits_nonneg c first sizes : config_ok c → 0 ≤ hdr_bits c first sizes.
Proof.
  intros [? ? ? ?]. revert first. induction sizes as [|s ss IH]; intros first; cbn [hdr_bits]; [lia|].
  specialize (IH false). unfold idx_bits. destruct first; lia.
Qed.

Lemma hdr_value_range c sizes : config_ok c → Forall (λ s, 0 ≤ s < 2 ^ SizeLength c) sizes →
  ∀ first, 0 ≤ hdr_value c first sizes < 2 ^ hdr_bits c first sizes.
Proof.
  intros Hc. induction 1 as [|s ss Hs _ IH]; intros first; [cbn; lia|].
  cbn [hdr_value hdr_bits]. specialize (IH false). pose proof (hdr_bits_nonneg c false ss Hc).
  destruct Hc as [? ? ? ?]. assert (0 ≤ idx_bits c first) by (unfold idx_bits; destruct first; lia).
  rewrite <- Z.add_assoc, (Z.pow_add_r 2 (SizeLength c)) by lia.
  assert (2 ^ hdr_bits c false ss ≤ 2 ^ (idx_bits c first + hdr_bits c false ss))
    by (apply Z.pow_le_mono_r; lia). nia.
Qed.

(** Reading a field of a number whose remaining [R] bits start with it. *)
Lemma field_value nb A R n x C :
  0 ≤ n ≤ R → 0 ≤ x < 2 ^ n → 0 ≤ C < 2 ^ (R - n) → 0 ≤ A →
  A * 2 ^ R + x * 2 ^ (R - n) + C < 2 ^ (8 * Z.of_nat nb) →
  field (be_split nb (A * 2 ^ R + x * 2 ^ (R - n) + C)) (8 * Z.of_nat nb - R) n = x.
Proof.
  intros Hn Hx HC HA Hb. pose proof (Z.pow_pos_nonneg 2 R ltac:(lia) ltac:(lia)).
  pose proof (Z.pow_pos_nonneg 2 (R - n) ltac:(lia) ltac:(lia)).
  rewrite field_split by nia.
  replace (8 * Z.of_nat nb - (8 * Z.of_nat nb - R) - n) with (R - n) by lia.
  replace R with (n + (R - n)) at 1 by lia. rewrite Z.pow_add_r by lia.
  replace (A * (2 ^ n * 2 ^ (R - n)) + x * 2 ^ (R - n)) with ((x + A * 2 ^ n) * 2 ^ (R - n)) by lia.
  rewrite Z.div_add_l, (Z.div_small C), Z.add_0_r, Z.mod_add by lia. by apply Z.mod_small.
Qed.

(** The header loop reads back the sizes. *)
Lemma headers_loop_packet c nb L sizes : config_ok c → ∀ fuel first A hs pad,
  Forall (λ s, 0 ≤ s < 2 ^ SizeLength c) sizes → 0 ≤ A → 0 ≤ pad → L + pad = 8 * Z.of_nat nb →
  hdr_bits c first sizes ≤ L → (first = (blen hs =? 0)) → blen hs + blen sizes ≤ MaxAUsPerPacket →
  MaxAUsPerPacket - blen hs < Z.of_nat fuel - 1 →
  A * 2 ^ (hdr_bits c first sizes + pad) + hdr_value c first sizes * 2 ^ pad < 2 ^ (8 * Z.of_nat nb) →
  headers_loop fuel c (be_split nb (A * 2 ^ (hdr_bits c first sizes + pad) + hdr_value c first sizes * 2 ^ pad))
    L (L - hdr_bits c first sizes) hs = Ok (hs ++ ((λ s, mkHeader s 0) <$> sizes)).
Proof.
  intros Hc. unfold MaxAUsPerPacket.
  induction sizes as [|s ss IH]; intros fuel first A hs pad Hall HA Hpad HL Hle Hfirst Hcnt Hfuel Hbound;
    (destruct fuel as [|fuel];
      [match type of Hcnt with _ + blen ?x ≤ _ => pose proof (blen_nonneg x) end; lia|]); cbn [headers_loop].
  { cbn [hdr_bits]. rewrite Z.sub_0_r, Z.leb_refl, Z.eqb_refl. cbn [negb]. by rewrite app_nil_r. }
  apply Forall_cons_iff in Hall as [Hs Hall]. rewrite blen_cons in Hcnt.
  pose proof (blen_nonneg ss). pose proof (hdr_bits_nonneg c false ss Hc) as Hb.
  pose proof (hdr_value_range c ss Hc Hall false) as Hv.
  pose proof Hc as [Hc1 Hc2 Hc3 Hc4].
  assert (0 ≤ idx_bits c first ≤ 32) as Hi by (unfold idx_bits; destruct first; lia).
  cbn [hdr_bits hdr_value] in *. set (ib := idx_bits c first) in *. set (B := hdr_bits c false ss) in *.
  set (V := hdr_value c false ss) in *. set (SL := SizeLength c) in *.
  destruct (Z.leb_spec L (L - (SL + ib + B))); [lia|]. unfold MaxAUsPerPacket.
  destruct (Z.leb_spec 512 (blen hs)); [lia|]. cbv zeta.
  replace (if blen hs =? 0 then IndexLength c else IndexDeltaLength c) with ib
    by (unfold ib, idx_bits; by rewrite Hfirst).
  clearbody ib. destruct (Z.ltb_spec L (L - (SL + ib + B) + (SL + ib))); [lia|].
  pose proof (Z.pow_pos_nonneg 2 pad ltac:(lia) ltac:(lia)).
  set (hdr := be_split nb _).
  assert (bytes_ok hdr) by apply be_split_bytes_ok.
  assert (blen hdr = Z.of_nat nb) as Hbl by apply blen_be_split.
  assert (2 ^ B ≤ 2 ^ (ib + B)) by (apply Z.pow_le_mono_r; lia).
  assert (V * 2 ^ pad < 2 ^ (B + pad)) by (rewrite Z.pow_add_r by lia; nia).
  assert (2 ^ (B + pad) ≤ 2 ^ (ib + B + pad)) by (apply Z.pow_le_mono_r; lia).
  assert ((s * 2 ^ (ib + B) + V) * 2 ^ pad = s * 2 ^ (ib + B + pad) + V * 2 ^ pad) as Hsplit
    by (rewrite (Z.pow_add_r 2 (ib + B)) by lia; lia).
  rewrite Hsplit, Z.add_assoc in Hbound.
  assert (field hdr (L - (SL + ib + B)) SL = s) as Hf1.
  { unfold hdr. rewrite Hsplit, Z.add_assoc.
    replace (L - (SL + ib + B)) with (8 * Z.of_nat nb - (SL + ib + B + pad)) by lia.
    replace (ib + B + pad) with (SL + ib + B + pad - SL) by lia.
    apply field_value; try lia; replace (SL + ib + B + pad - SL) with (ib + B + pad) by lia; lia. }
  assert (A * 2 ^ (SL + ib + B + pad) + s * 2 ^ (ib + B + pad) =
    (A * 2 ^ SL + s) * 2 ^ (ib + B + pad)) as Hcomb.
  { replace (SL + ib + B + pad) with (SL + (ib + B + pad)) by lia. rewrite (Z.pow_add_r 2 SL) by lia. lia. }
  assert (0 ≤ A * 2 ^ SL + s) by (pose proof (Z.pow_pos_nonneg 2 SL ltac:(lia) ltac:(lia)); nia).
  assert (field hdr (L - (SL + ib + B) + SL) ib = 0) as Hf2.
  { unfold hdr. rewrite Hsplit, Z.add_assoc, Hcomb.
    replace (L - (SL + ib + B) + SL) with (8 * Z.of_nat nb - (ib + B + pad)) by lia.
    replace ((A * 2 ^ SL + s) * 2 ^ (ib + B + pad) + V * 2 ^ pad) with
      ((A * 2 ^ SL + s) * 2 ^ (ib + B + pad) + 0 * 2 ^ (ib + B + pad - ib) + V * 2 ^ pad) by lia.
    apply field_value; try lia.
    replace (ib + B + pad - ib) with (B + pad) by lia. nia. }
  rewrite (readBits_field hdr (L - (SL + ib + B)) SL), bind_Ok, Hf1 by (done || lia).
  rewrite (readBits_field hdr (L - (SL + ib + B) + SL) ib), bind_Ok, Hf2 by (done || lia).
  change (negb (0 =? 0)) with false. cbv iota.
  replace (L - (SL + ib + B) + (SL + ib)) with (L - B) by lia.
  assert (hdr = be_split nb ((A * 2 ^ (SL + ib) + s * 2 ^ ib) * 2 ^ (B + pad) + V * 2 ^ pad)) as ->.
  { unfold hdr. rewrite Hsplit, Z.add_assoc. do 2 f_equal.
    replace (SL + ib + B + pad) with (SL + ib + (B + pad)) by lia.
    replace (ib + B + pad) with (ib + (B + pad)) by lia. rewrite !(Z.pow_add_r 2 _ (B + pad)) by lia. lia. }
  rewrite (IH fuel false); try done; try lia.
  - by rewrite <- app_assoc.
  - rewrite blen_app. change (blen [mkHeader s 0]) with 1. symmetry. apply Z.eqb_neq.
    pose proof (blen_nonneg hs). lia.
  - rewrite blen_app. change (blen [mkHeader s 0]) with 1. lia.
  - rewrite blen_app. change (blen [mkHeader s 0]) with 1. lia.
  - fold B V. eapply Z.le_lt_trans; [|exact Hbound]. apply Z.eq_le_incl. f_equal.
    replace (SL + ib + B + pad) with (SL + ib + (B + pad)) by lia.
    replace (ib + B + pad) with (ib + (B + pad)) by lia. rewrite !(Z.pow_add_r 2 _ (B + pad)) by lia. lia.
Qed.

Lemma parseAUHeaders_packet c sizes data : config_ok c → sizes_ok c sizes →
  parseAUHeaders c (packet c sizes data) =
    Ok ((λ s, mkHeader s 0) <$> sizes, 2 + (hdr_bits c true sizes + 7) / 8).
Proof.
  intros Hc (Hne & Hlen & HL & Hall). pose proof (hdr_bits_nonneg c true sizes Hc) as H0.
  pose proof (hdr_value_range c sizes Hc Hall true) as Hv.
  assert (hdr_bits c true sizes ≠ 0) as Hnz.
  { destruct sizes as [|x xs]; [done|]. cbn [hdr_bits]. pose proof (hdr_bits_nonneg c false xs Hc).
    destruct Hc. unfold idx_bits. lia. }
  unfold parseAUHeaders, packet. cbv zeta.
  set (L := hdr_bits c true sizes) in *. set (V := hdr_value c true sizes) in *.
  assert (L ≤ 8 * ((L + 7) / 8) < L + 8) as Hd by (Z.div_mod_to_equations; lia).
  set (hb := (L + 7) / 8) in *. assert (Z.of_nat (Z.to_nat hb) = hb) as Hhb by lia.
  set (hdr := be_split (Z.to_nat hb) _). assert (blen hdr = hb) as Hbl by (unfold hdr; rewrite blen_be_split; lia).
  pose proof (blen_nonneg data). rewrite !blen_app, blen_be_split, Hbl.
  destruct (Z.ltb_spec (Z.of_nat 2 + (hb + blen data)) 2); [lia|].
  change 2 with (Z.of_nat 2) at 2. rewrite (be_at_mid 2 L [] (hdr ++ data)) by (done || (change (256 ^ Z.of_nat 2) with (2 ^ 16); lia)).
  rewrite bind_Ok. destruct (Z.eqb_spec L 0); [lia|]. fold hb.
  destruct (Z.ltb_spec (Z.of_nat 2 + (hb + blen data)) (2 + hb)); [lia|].
  rewrite (slice_mid (be_split 2 L) hdr data), bind_Ok by (rewrite ?blen_be_split, ?Hbl; lia).
  pose proof (headers_loop_packet c (Z.to_nat hb) L sizes Hc 514 true 0 [] (8 * hb - L) Hall) as Hloop.
  fold L V in Hloop. rewrite !Z.mul_0_l, !Z.add_0_l, Z.sub_diag, Hhb in Hloop.
  unfold hdr. rewrite Hhb. rewrite Hloop; [done|lia|lia|lia|lia|done|done|by vm_compute|].
  replace (8 * hb) with (L + (8 * hb - L)) at 2 by lia. rewrite Z.pow_add_r by lia.
  pose proof (Z.pow_pos_nonneg 2 (8 * hb - L) ltac:(lia) ltac:(lia)). nia.
Qed.

(** The units a packet carries, each with its offset. *)
Fixpoint timed_units (spf i : Z) (units : list (list Z)) : list AU :=
  match units with
  | [] => []
  | u :: us => mkAU u (i * spf) :: timed_units spf (i + 1) us
  end.

Lemma cut_units_exact spf units : 1 ≤ spf ≤ 8192 → ∀ pre trailing i aus,
  0 ≤ i → i + blen units ≤ MaxAUsPerPacket →
  cut_units spf (pre ++ concat units ++ trailing) (blen pre) i ((λ s, mkHeader s 0) <$> (blen <$> units)) aus =
    Ok (inl (aus ++ timed_units spf i units)).
Proof.
  unfold MaxAUsPerPacket. intros Hspf.
  induction units as [|u us IH]; intros pre trailing i aus Hi Hn; cbn [fmap list_fmap cut_units timed_units].
  { by rewrite app_nil_r. }
  rewrite blen_cons in Hn. pose proof (blen_nonneg us). pose proof (blen_nonneg u).
  pose proof (blen_nonneg pre). pose proof (blen_nonneg trailing). pose proof (blen_nonneg (concat us)).
  cbn [size concat]. rewrite <- app_assoc.
  destruct (Z.ltb_spec (blen (pre ++ u ++ concat us ++ trailing) - blen pre) (blen u)) as [Hlt|_];
    [rewrite !blen_app in Hlt; lia|].
  rewrite (slice_mid pre u), bind_Ok by done.
  rewrite (u32_small i), (u32_small spf) by (unfold is_u32; lia). rewrite u32_small by (unfold is_u32; nia).
  rewrite app_assoc, <- blen_app. rewrite IH by lia. by rewrite <- app_assoc.
Qed.

Lemma blen_packet_head c sizes : config_ok c →
  blen (be_split 2 (hdr_bits c true sizes) ++
    be_split (Z.to_nat ((hdr_bits c true sizes + 7) / 8))
      (hdr_value c true sizes * 2 ^ (8 * Z.of_nat (Z.to_nat ((hdr_bits c true sizes + 7) / 8)) - hdr_bits c true sizes))) =
  2 + (hdr_bits c true sizes + 7) / 8.
Proof.
  intros Hc. pose proof (hdr_bits_nonneg c true sizes Hc). rewrite blen_app, !blen_be_split.
  assert (0 ≤ (hdr_bits c true sizes + 7) / 8) by (apply Z.div_pos; lia). lia.
Qed.

Lemma packet_split c sizes data : config_ok c → ∃ head, packet c sizes data = head ++ data ∧
  blen head = 2 + (hdr_bits c true sizes + 7) / 8.
Proof.
  intros Hc. eexists. split; [unfold packet; cbv zeta; by rewrite app_assoc|]. by apply blen_packet_head.
Qed.

(** C34: the RFC 3640 round trip for whole units.  A packet that carries 1 to 512 access
    units ([MaxAUsPerPacket]) behind their AU-headers, each unit's size within the
    size field and the headers together below [2^16] bits, followed by padding, is
    depacketized, by a depacketizer that is not in the middle of a fragmented unit, into
    exactly those units, in order, the i-th offset by i frames, for every field width
    New accepts, and leaves it as it was. *)
Theorem aac_units_roundtrip d units trailing marker :
  depack_ok d → fragActive d = false → sizes_ok (cfg d) (blen <$> units) →
  Depacketize d (packet (cfg d) (blen <$> units) (concat units ++ trailing)) marker =
    Ok (d, inl (timed_units (SamplesPerFrame (cfg d)) 0 units)).
Proof.
  intros [Hc _] Ha Hs. pose proof Hs as (Hne & Hlen & _). pose proof Hc as [_ _ _ Hspf].
  unfold Depacketize. rewrite parseAUHeaders_packet by done.
  destruct (packet_split (cfg d) (blen <$> units) (concat units ++ trailing) Hc) as (head & -> & Hhead).
  rewrite <- Hhead. pose proof (blen_nonneg head). pose proof (blen_nonneg (concat units ++ trailing)).
  rewrite slice_from_ok, bind_Ok by (rewrite blen_app; lia). rewrite drop_blen_app by done. rewrite Ha.
  assert (blen units ≤ MaxAUsPerPacket) as Hn by (unfold blen in *; by rewrite length_fmap in Hlen).
  rewrite cut_units_exact by (done || lia). cbn [app].
  destruct units as [|u [|u2 us]]; [done| |done]. cbn [fmap list_fmap concat size].
  destruct (Z.ltb_spec (blen ((u ++ []) ++ trailing)) (blen u)) as [Hlt|]; [|done].
  rewrite !blen_app in Hlt. pose proof (blen_nonneg trailing). pose proof (blen_nonneg (@nil Z)). lia.
Qed.

Lemma aac_units_roundtrip_witness :
  Depacketize dhbr (packet hbr [3; 0; 2] ([1; 2; 3; 4; 5] ++ [99])) true =
    Ok (dhbr, inl [mkAU [1; 2; 3] 0; mkAU [] 1024; mkAU [4; 5] 2048]).
Proof.
  apply (aac_units_roundtrip dhbr [[1; 2; 3]; []; [4; 5]] [99] true); [apply dhbr_ok|done|].
  split_and!; [done|by vm_compute|by vm_compute|repeat constructor; by vm_compute].
Defined.

(** ** Fragmented units *)

(** The packets of a fragmented unit: each declares the whole unit's size, and only
    the last carries the marker. *)
Fixpoint fragment_packets (c : Config) (total : Z) (pieces : list (list Z)) : list (list Z * bool) :=
  match pieces with
  | [] => []
  | [p] => [(packet c [total] p, true)]
  | p :: ps => (packet c [total] p, false) :: fragment_packets c total ps
  end.

Fixpoint depack_all (d : Depacketizer) (pkts : list (list Z * bool)) : res err (list (list AU + err) * Depacketizer) :=
  match pkts with
  | [] => mret ([], d)
  | (p, m) :: ps =>
      '(d, r) ← Depacketize d p m;
      '(rs, d) ← depack_all d ps;
      mret (r :: rs, d)
  end.

Lemma Depacketize_single d total data marker :
  depack_ok d → sizes_ok (cfg d) [total] →
  Depacketize d (packet (cfg d) [total] data) marker =
    if fragActive d then Ok (continue_fragment d [mkHeader total 0] data marker)
    else if blen data <? total then
      if marker then Ok (d, inr ErrAUSizeOverflow)
      else if MaxFragmentSize <? total then Ok (d, inr ErrFragmentOverflow)
      else Ok (mkDepacketizer (cfg d) data true total, inl [])
    else Ok (d, inl [mkAU (take (Z.to_nat total) data) 0]).
Proof.
  intros [Hc _] Hs. pose proof Hs as (_ & _ & _ & Hall). apply Forall_cons_iff in Hall as [Ht _].
  unfold Depacketize. rewrite parseAUHeaders_packet by done.
  destruct (packet_split (cfg d) [total] data Hc) as (head & -> & Hhead). rewrite <- Hhead.
  pose proof (blen_nonneg head). pose proof (blen_nonneg data).
  rewrite slice_from_ok, bind_Ok by (rewrite blen_app; lia). rewrite drop_blen_app by done.
  destruct (fragActive d); [done|]. cbn [fmap list_fmap size].
  destruct (Z.ltb_spec (blen data) total); [by destruct marker; [|destruct (MaxFragmentSize <? total)]|].
  cbn [cut_units size]. rewrite blen_app.
  destruct (Z.ltb_spec (blen head + blen data - blen head) total); [lia|].
  rewrite slice_ok, !bind_Ok by (rewrite ?blen_app; lia). rewrite drop_blen_app by done.
  replace (blen head + total - blen head) with total by lia. done.
Qed.

Lemma depack_continue c total ps : config_ok c → sizes_ok c [total] → total ≤ MaxFragmentSize → ∀ got,
  ps ≠ [] → Forall (λ p, p ≠ []) ps → total = blen got + blen (concat ps) →
  ∃ d', depack_all (mkDepacketizer c got true total) (fragment_packets c total ps) =
    Ok (replicate (length ps - 1) (inl []) ++ [inl [mkAU (got ++ concat ps) 0]], d') ∧ fragActive d' = false.
Proof.
  intros Hc Hs Hmax. induction ps as [|p ps IH]; intros got Hne Hall Htot; [done|].
  apply Forall_cons_iff in Hall as [Hp Hall]. cbn [concat] in *. rewrite blen_app in Htot.
  pose proof (blen_concat_pos p Hp). pose proof (blen_nonneg (concat ps)).
  set (d := mkDepacketizer c got true total).
  assert (depack_ok d) as Hd by (split; [done|intros _; cbn; lia]).
  assert (∀ m, Depacketize d (packet c [total] p) m = Ok (continue_fragment d [mkHeader total 0] p m)) as Hstep.
  { intros m. exact (Depacketize_single d total p m Hd Hs). }
  destruct ps as [|q ps].
  - cbn [fragment_packets depack_all]. rewrite Hstep, bind_Ok. unfold continue_fragment, d.
    cbn [size fragTotalSize frag cfg]. rewrite Z.eqb_refl. cbn [negb concat] in *. rewrite blen_nil in Htot.
    destruct (Z.ltb_spec total (blen got + blen p)); [lia|].
    destruct (Z.ltb_spec MaxFragmentSize (blen got + blen p)); [lia|]. cbn [orb]. cbv zeta.
    rewrite blen_app. destruct (Z.ltb_spec (blen got + blen p) total); [lia|]. cbn [andb].
    rewrite app_nil_r. by eexists.
  - assert (0 < blen (concat (q :: ps))).
    { cbn [concat]. rewrite blen_app. apply Forall_cons_iff in Hall as [Hq _].
      pose proof (blen_concat_pos q Hq). pose proof (blen_nonneg (concat ps)). lia. }
    change (fragment_packets c total (p :: q :: ps)) with
      ((packet c [total] p, false) :: fragment_packets c total (q :: ps)).
    cbn [depack_all]. rewrite Hstep, bind_Ok. unfold continue_fragment, d.
    cbn [size fragTotalSize frag cfg]. rewrite Z.eqb_refl. cbn [negb].
    destruct (Z.ltb_spec total (blen got + blen p)); [lia|].
    destruct (Z.ltb_spec MaxFragmentSize (blen got + blen p)); [lia|]. cbn [orb andb]. cbv zeta.
    rewrite blen_app. destruct (Z.eqb_spec (blen got + blen p) total); [lia|].
    destruct (IH (got ++ p)) as (d' & IHe & Ha); try done; [rewrite blen_app; lia|].
    rewrite IHe, bind_Ok. cbv beta iota. exists d'. split; [|done].
    rewrite <- app_assoc. cbn [length]. rewrite !Nat.sub_succ, !Nat.sub_0_r. done.
Qed.

(** A fragmented access unit survives: sent in two or more non-empty fragments
    that each declare its size, the last marked, it is delivered exactly once, by
    the last packet, byte for byte and at offset 0; no call fails. *)
Theorem aac_fragments_reassemble d unit p ps :
  depack_ok d → fragActive d = false → sizes_ok (cfg d) [blen unit] → blen unit ≤ MaxFragmentSize →
  unit = p ++ concat ps → ps ≠ [] → Forall (λ q, q ≠ []) ps →
  ∃ d', depack_all d (fragment_packets (cfg d) (blen unit) (p :: ps)) =
    Ok (replicate (length ps) (inl []) ++ [inl [mkAU unit 0]], d') ∧ fragActive d' = false.
Proof.
  intros Hd Ha Hs Hmax Hcat Hne Hall.
  assert (0 < blen (concat ps)) as Hpos.
  { destruct ps as [|q ps]; [done|]. apply Forall_cons_iff in Hall as [Hq _]. cbn [concat].
    rewrite blen_app. pose proof (blen_concat_pos q Hq). pose proof (blen_nonneg (concat ps)). lia. }
  assert (blen unit = blen p + blen (concat ps)) as Hl by (by rewrite Hcat, blen_app).
  destruct (depack_continue (cfg d) (blen unit) ps (do_cfg d Hd) Hs Hmax p Hne Hall Hl) as (d' & E & Hd').
  exists d'. split; [|done]. destruct ps as [|q ps]; [done|].
  change (fragment_packets (cfg d) (blen unit) (p :: q :: ps)) with
    ((packet (cfg d) [blen unit] p, false) :: fragment_packets (cfg d) (blen unit) (q :: ps)).
  cbn [depack_all]. rewrite (Depacketize_single d (blen unit) p false Hd Hs), Ha.
  destruct (Z.ltb_spec (blen p) (blen unit)); [|lia].
  destruct (Z.ltb_spec MaxFragmentSize (blen unit)); [lia|].
  rewrite bind_Ok. cbv beta iota. rewrite E, bind_Ok. cbv beta iota. rewrite <- Hcat.
  cbn [length]. rewrite Nat.sub_succ, Nat.sub_0_r. done.
Qed.

Lemma aac_fragments_reassemble_witness :
  ∃ d', depack_all dhbr (fragment_packets hbr 5 [[1; 2]; [3]; [4; 5]]) =
    Ok ([inl []; inl []; inl [mkAU [1; 2; 3; 4; 5] 0]], d') ∧ fragActive d' = false.
Proof.
  apply (aac_fragments_reassemble dhbr [1; 2; 3; 4; 5] [1; 2] [[3]; [4; 5]]); try done.
  - split_and!; [done|by vm_compute|by vm_compute|repeat constructor; by vm_compute].
  - repeat constructor; done.
Defined.

End depacketaac.
