(* ===== verification/Backoff.v ===== *)
(** * Reconnect schedule: [supervisor/backoff.go]

    The schedule is computed in [float64], so the file opens with the part of
    IEEE 754 binary64 the source uses: integers and dyadic fractions rounded to
    53 significant bits, half to even, with the subnormal floor and the overflow
    to infinity written out.  On top of it, [withDefaults] and [delay], with the
    bound the source promises (the jittered delay stays in [0, Max]) and the
    exact default schedule. *)
From S2P Require Import Prelude.

Module float64.

(** [Fin m e] is the number [m * 2^e].  The sign of a zero is not kept: the
    source neither divides nor prints a float, so nothing observes it. *)
Inductive float := NaN | Inf (neg : bool) | Fin (m e : Z).

(** Round [m * 2^e] to the nearest binary64 value, ties to even. *)
Definition round_shift (a e : Z) : Z := Z.max 0 (Z.max (Z.log2 a + 1 - 53) (- 1074 - e)).
Definition round_mantissa (a k : Z) : Z :=
  let q := a / 2 ^ k in
  let r := a mod 2 ^ k in
  if (2 ^ k <? 2 * r) || ((2 * r =? 2 ^ k) && Z.odd q) then q + 1 else q.
Definition rnd (m e : Z) : float :=
  let k := round_shift (Z.abs m) e in
  let q := round_mantissa (Z.abs m) k in
  if (0 <? q) && (1024 <=? Z.log2 q + (e + k)) then Inf (m <? 0)
  else Fin (Z.sgn m * q) (e + k).

Definition of_int (z : Z) : float := rnd z 0.

(** Both mantissas on the smaller of the two exponents. *)
Definition align (m1 e1 m2 e2 : Z) : Z * Z * Z :=
  let e := Z.min e1 e2 in (m1 * 2 ^ (e1 - e), m2 * 2 ^ (e2 - e), e).

Definition mul (x y : float) : float :=
  match x, y with
  | NaN, _ | _, NaN => NaN
  | Fin m1 e1, Fin m2 e2 => rnd (m1 * m2) (e1 + e2)
  | Inf s, Fin m _ | Fin m _, Inf s => if m =? 0 then NaN else Inf (xorb s (m <? 0))
  | Inf s, Inf t => Inf (xorb s t)
  end.

Definition add (x y : float) : float :=
  match x, y with
  | NaN, _ | _, NaN => NaN
  | Fin m1 e1, Fin m2 e2 => let '(a, b, e) := align m1 e1 m2 e2 in rnd (a + b) e
  | Inf s, Fin _ _ | Fin _ _, Inf s => Inf s
  | Inf s, Inf t => if Bool.eqb s t then Inf s else NaN
  end.

Definition opp (x : float) : float :=
  match x with NaN => NaN | Inf s => Inf (negb s) | Fin m e => Fin (- m) e end.

Definition sub (x y : float) : float := add x (opp y).

(** [x < y]; every comparison with a NaN is false. *)
Definition ltb (x y : float) : bool :=
  match x, y with
  | NaN, _ | _, NaN => false
  | Fin m1 e1, Fin m2 e2 => let '(a, b, _) := align m1 e1 m2 e2 in a <? b
  | Inf s, Fin _ _ => s
  | Fin _ _, Inf s => negb s
  | Inf s, Inf t => s && negb t
  end.
Definition leb (x y : float) : bool :=
  match x, y with
  | NaN, _ | _, NaN => false
  | Fin m1 e1, Fin m2 e2 => let '(a, b, _) := align m1 e1 m2 e2 in a <=? b
  | Inf s, Fin _ _ => s
  | Fin _ _, Inf s => negb s
  | Inf s, Inf t => s || negb t
  end.

(** Conversion to [int64]: truncation toward zero.  Go leaves the result of a
    conversion that does not fit to the implementation, hence [None]. *)
Definition trunc (m e : Z) : Z := if 0 <=? e then m * 2 ^ e else Z.quot m (2 ^ (- e)).
Definition to_int64 (x : float) : option Z :=
  match x with
  | Fin m e =>
      let z := trunc m e in
      if (- 2 ^ 63 <=? z) && (z <? 2 ^ 63) then Some z else None
  | _ => None
  end.

(** ** What the schedule needs of the arithmetic *)
Lemma of_int_exact z : Z.abs z < 2 ^ 53 → of_int z = Fin z 0.
Proof.
  intros Hz. unfold of_int, rnd.
  assert (Hk : round_shift (Z.abs z) 0 = 0).
  { unfold round_shift. destruct (decide (z = 0)) as [->|]; [done|].
    assert (Z.log2 (Z.abs z) < 53) by (apply Z.log2_lt_pow2; lia). lia. }
  rewrite Hk. unfold round_mantissa.
  rewrite Z.pow_0_r, Z.div_1_r, Z.mod_1_r. change (1 <? 2 * 0) with false. change (2 * 0 =? 1) with false. cbn [orb andb].
  destruct (_ && _) eqn:E; breflect; [|f_equal; lia].
  assert (Z.log2 (Z.abs z) < 53) by (apply Z.log2_lt_pow2; lia). lia.
Qed.

(** Rounding at most doubles a non-zero mantissa and keeps zero. *)
Lemma round_mantissa_bound a k : 0 ≤ a → 0 ≤ k → 0 ≤ round_mantissa a k * 2 ^ k ≤ 2 * a.
Proof.
  intros Ha Hk. unfold round_mantissa.
  assert (Hp : 0 < 2 ^ k) by (apply Z.pow_pos_nonneg; lia).
  pose proof (Z.div_mod a (2 ^ k) ltac:(lia)) as E.
  pose proof (Z.mod_pos_bound a (2 ^ k) Hp) as B.
  pose proof (Z.div_pos a (2 ^ k) Ha Hp).
  destruct (_ || _) eqn:C; breflect; [|nia].
  assert (2 ^ k ≤ 2 * (a mod 2 ^ k)); [|nia].
  destruct C as [C|C]; breflect; lia.
Qed.

(** Magnitude: [|m| * 2^e < 2^B]. *)
Definition below (B m e : Z) : Prop := m = 0 ∨ Z.log2 (Z.abs m) + e < B.

Lemma below_mul B1 B2 m1 e1 m2 e2 :
  below B1 m1 e1 → below B2 m2 e2 → below (B1 + B2) (m1 * m2) (e1 + e2).
Proof.
  intros [->|H1]; [left; lia|]. intros [->|H2]; [left; lia|]. right.
  rewrite Z.abs_mul. pose proof (Z.log2_mul_above (Z.abs m1) (Z.abs m2)). lia.
Qed.

Lemma below_scale B m e f : f ≤ e → below B m e → below B (m * 2 ^ (e - f)) f.
Proof.
  intros Hf [->|H]; [by left|]. destruct (decide (m = 0)) as [->|Hm]; [by left|]. right.
  rewrite Z.abs_mul, (Z.abs_eq (2 ^ _)) by (apply Z.pow_nonneg; lia).
  rewrite Z.log2_mul_pow2 by lia. lia.
Qed.

Lemma below_add B m1 m2 e : below B m1 e → below B m2 e → below (B + 1) (m1 + m2) e.
Proof.
  destruct (decide (m1 + m2 = 0)) as [H0|H0]; [by left|]. intros H1 H2. right.
  assert (Z.log2 (Z.abs (m1 + m2)) ≤ Z.log2 (2 * Z.max (Z.abs m1) (Z.abs m2)))
    by (apply Z.log2_le_mono; lia).
  rewrite Z.log2_double in H by lia.
  destruct (Z.max_spec (Z.abs m1) (Z.abs m2)) as [[? E]|[? E]]; rewrite E in H;
    destruct H1 as [->|H1], H2 as [->|H2]; lia.
Qed.

(** A result below [2^1023] in magnitude does not overflow, and stays within a
    factor of two of the exact value, with its sign. *)
Lemma rnd_below B m e :
  below B m e → B ≤ 1023 →
  ∃ m' e', rnd m e = Fin m' e' ∧ below (B + 1) m' e' ∧ (0 ≤ m → 0 ≤ m').
Proof.
  intros Hm HB. unfold rnd. set (k := round_shift (Z.abs m) e).
  assert (0 ≤ k) by (unfold k, round_shift; lia).
  pose proof (round_mantissa_bound (Z.abs m) k ltac:(lia) ltac:(lia)) as Hq.
  set (q := round_mantissa (Z.abs m) k) in *.
  assert (Hp : 0 < 2 ^ k) by (apply Z.pow_pos_nonneg; lia).
  assert (Hq0 : 0 ≤ q) by nia.
  assert (Hlog : 0 < q → Z.log2 q + k + e < B + 1 ∧ m ≠ 0).
  { intros Hpos. assert (m ≠ 0) by (intros ->; lia).
    destruct Hm as [->|Hm]; [done|].
    assert (Hl : Z.log2 (q * 2 ^ k) ≤ Z.log2 (2 * Z.abs m)) by (apply Z.log2_le_mono; lia).
    rewrite Z.log2_mul_pow2, Z.log2_double in Hl by lia. lia. }
  destruct (_ && _) eqn:C; breflect; [exfalso; lia|].
  eexists _, _. split; [done|]. split; [|nia].
  destruct (decide (q = 0)) as [->|]; [left; lia|].
  destruct Hlog as [Hlog Hm0]; [lia|]. right.
  replace (Z.abs (Z.sgn m * q)) with q by nia. lia.
Qed.

Lemma add_below B m1 e1 m2 e2 :
  below B m1 e1 → below B m2 e2 → B ≤ 1022 →
  ∃ m e, add (Fin m1 e1) (Fin m2 e2) = Fin m e ∧ below (B + 2) m e.
Proof.
  intros H1 H2 HB. unfold add, align.
  destruct (rnd_below (B + 1) (m1 * 2 ^ (e1 - Z.min e1 e2) + m2 * 2 ^ (e2 - Z.min e1 e2))
    (Z.min e1 e2)) as (m & e & E & Hb & _).
  - apply below_add; apply below_scale; (done || lia).
  - lia.
  - exists m, e. replace (B + 2) with (B + 1 + 1) by lia. done.
Qed.

Lemma mul_below B1 B2 m1 e1 m2 e2 :
  below B1 m1 e1 → below B2 m2 e2 → B1 + B2 ≤ 1023 →
  ∃ m e, mul (Fin m1 e1) (Fin m2 e2) = Fin m e ∧ below (B1 + B2 + 1) m e.
Proof.
  intros H1 H2 HB. destruct (rnd_below _ _ _ (below_mul _ _ _ _ _ _ H1 H2) HB) as (m & e & E & Hb & _).
  by exists m, e.
Qed.

(** A float at most an integer [M], and how it truncates. *)
Lemma ltb_int_false M m e :
  ltb (Fin M 0) (Fin m e) = false → 0 ≤ m →
  if 0 <=? e then m * 2 ^ e ≤ M else m ≤ M * 2 ^ (- e).
Proof.
  unfold ltb, align. intros H Hm. breflect. destruct (Z.leb_spec 0 e).
  - rewrite Z.min_l, !Z.sub_0_r in H by lia. lia.
  - rewrite Z.min_r, Z.sub_diag in H by lia. replace (0 - e) with (- e) in H by lia. lia.
Qed.

Lemma ltb_int_below M m e :
  ltb (Fin M 0) (Fin m e) = false → 0 ≤ m → M ≤ 2 ^ 53 → below 54 m e.
Proof.
  intros H Hm HM. apply ltb_int_false in H; [|done].
  destruct (decide (m = 0)) as [->|]; [by left|]. right. rewrite Z.abs_eq by lia.
  destruct (Z.leb_spec 0 e).
  - rewrite Z.add_comm, <- (Z.log2_mul_pow2 m e) by lia. apply Z.log2_lt_pow2; lia.
  - assert (Hl : Z.log2 m ≤ Z.log2 (2 ^ 53 * 2 ^ (- e))).
    { apply Z.log2_le_mono. assert (0 < 2 ^ (- e)) by (apply Z.pow_pos_nonneg; lia). nia. }
    rewrite Z.log2_mul_pow2 in Hl by lia. rewrite Z.log2_pow2 in Hl by lia. lia.
Qed.

Lemma ltb_int_trunc M m e :
  ltb (Fin M 0) (Fin m e) = false → 0 ≤ m → 0 ≤ trunc m e ≤ M.
Proof.
  intros H Hm. apply ltb_int_false in H; [|done]. unfold trunc. destruct (Z.leb_spec 0 e).
  - split; [|done]. apply Z.mul_nonneg_nonneg; [done|]. apply Z.pow_nonneg. lia.
  - assert (0 < 2 ^ (- e)) by (apply Z.pow_pos_nonneg; lia).
    rewrite Z.quot_div_nonneg by lia. split; [by apply Z.div_pos|].
    apply Z.div_le_upper_bound; lia.
Qed.

Lemma ltb_zero_false m e : ltb (Fin m e) (Fin 0 0) = false → 0 ≤ m.
Proof.
  unfold ltb, align. intros H. breflect. rewrite Z.mul_0_l in H.
  assert (0 < 2 ^ (e - Z.min e 0)) by (apply Z.pow_pos_nonneg; lia). nia.
Qed.

(** Where the exact values are known, so is the rounded one. *)
Example of_int_fine : of_int (2 ^ 53 + 1) = Fin (2 ^ 52) 1 ∧ of_int (2 ^ 53 + 3) = Fin (2 ^ 52 + 2) 1.
Proof. done. Qed.
End float64.

Module backoff.
Import float64.

Definition DefaultBase : Z := 500 * 1000000.
Definition DefaultMax : Z := 30 * 1000000000.
Definition DefaultFactor : float := Fin 1 1.
(** [0.2] and [0.999]: the nearest binary64 values. *)
Definition DefaultJitter : float := Fin 3602879701896397 (-54).
Definition maxJitter : float := Fin 8998192055486251 (-53).

Record BackoffConfig := mkBackoff { Base : Z; Max : Z; Factor : float; Jitter : float }.

Definition zeroF : float := Fin 0 0.
Definition oneF : float := Fin 1 0.
Definition twoF : float := Fin 1 1.

Definition withDefaults (b : BackoffConfig) : BackoffConfig :=
  mkBackoff
    (if Base b <=? 0 then DefaultBase else Base b)
    (if Max b <=? 0 then DefaultMax else Max b)
    (if leb (Factor b) oneF then DefaultFactor else Factor b)
    (if leb (Jitter b) zeroF then DefaultJitter
     else if leb oneF (Jitter b) then maxJitter
     else Jitter b).

(** The growth loop: [n] more multiplications, stopping at the ceiling. *)
Fixpoint grow (n : nat) (factor maxF d : float) : float :=
  match n with
  | O => d
  | S n' =>
      let d' := mul d factor in
      if leb maxF d' then maxF else grow n' factor maxF d'
  end.

(** [None]: the final conversion to a [Duration] is left to the implementation. *)
Definition delay (b : BackoffConfig) (attempt : Z) (r : float) : option Z :=
  let attempt := if attempt <? 1 then 1 else attempt in
  let maxF := of_int (Max b) in
  let d := grow (Z.to_nat (attempt - 1)) (Factor b) maxF (of_int (Base b)) in
  let d := if ltb maxF d then maxF else d in
  let d := if ltb zeroF (Jitter b)
           then add d (mul (mul d (Jitter b)) (sub (mul twoF r) oneF)) else d in
  let d := if ltb maxF d then maxF else d in
  let d := if ltb d zeroF then zeroF else d in
  to_int64 d.

(** ** The growth loop never leaves the non-negative finite floats *)
Lemma rnd_nonneg m e : 0 ≤ m → rnd m e = Inf false ∨ ∃ m' e', rnd m e = Fin m' e' ∧ 0 ≤ m'.
Proof.
  intros Hm. unfold rnd. destruct (_ && _).
  - left. by destruct (Z.ltb_spec m 0); [lia|].
  - right. eexists _, _. split; [done|].
    pose proof (round_mantissa_bound (Z.abs m) (round_shift (Z.abs m) e) ltac:(lia)
      ltac:(unfold round_shift; lia)).
    assert (0 < 2 ^ round_shift (Z.abs m) e)
      by (apply Z.pow_pos_nonneg; unfold round_shift; lia). nia.
Qed.

Lemma grow_nonneg mf ef M n m e :
  0 ≤ mf → 0 ≤ M → 0 ≤ m →
  ∃ m' e', grow n (Fin mf ef) (Fin M 0) (Fin m e) = Fin m' e' ∧ 0 ≤ m'.
Proof.
  intros Hf HM. revert m e. induction n as [|n IH]; intros m e Hm; [by exists m, e|].
  cbn [grow mul]. destruct (rnd_nonneg (m * mf) (e + ef) ltac:(nia)) as [->|(m' & e' & -> & Hm')].
  - cbn [leb]. by exists M, 0.
  - destruct (leb _ _); [by exists M, 0 | by apply IH].
Qed.

(** A positive integer is a positive float; an infinite factor reaches the ceiling at once. *)
Lemma of_int_pos z : 0 < z < 2 ^ 63 → ∃ m e, of_int z = Fin m e ∧ 0 < m.
Proof.
  intros Hz. destruct (rnd_below 63 z 0) as (m & e & E & _ & Hm).
  { right. rewrite Z.abs_eq by lia. assert (Z.log2 z < 63) by (apply Z.log2_lt_pow2; lia). lia. }
  { lia. }
  exists m, e. split; [done|]. unfold of_int, rnd in E. destruct (_ && _); [done|]. injection E as E _.
  rewrite <- E, Z.sgn_pos, Z.mul_1_l, Z.abs_eq by lia. unfold round_mantissa.
  assert (0 < z / 2 ^ round_shift z 0); [|destruct (_ || _); lia].
  pose proof (Z.log2_spec z ltac:(lia)) as [Hl _]. pose proof (Z.log2_nonneg z).
  apply Z.div_str_pos. split; [apply Z.pow_pos_nonneg; unfold round_shift; lia|].
  etransitivity; [|exact Hl]. apply Z.pow_le_mono_r; unfold round_shift; lia.
Qed.

Lemma grow_inf M n m e : 0 < m →
  grow n (Inf false) (Fin M 0) (Fin m e) = match n with O => Fin m e | S _ => Fin M 0 end.
Proof.
  intros Hm. destruct n as [|n]; [done|]. cbn [grow mul].
  destruct (Z.eqb_spec m 0); [lia|]. destruct (Z.ltb_spec m 0); [lia|]. done.
Qed.

(** A growth factor that [withDefaults] lets through: above 1, or infinite. *)
Definition growing (f : float) : Prop := f = Inf false ∨ ∃ m e, f = Fin m e ∧ 0 ≤ m.
Lemma grow_growing f M n z : growing f → 0 ≤ M → 0 < z < 2 ^ 63 →
  ∃ m e, grow n f (Fin M 0) (of_int z) = Fin m e ∧ 0 ≤ m.
Proof.
  intros Hf HM Hz. destruct (of_int_pos z Hz) as (m & e & -> & Hm). destruct Hf as [->|(mf & ef & -> & Hf)].
  - rewrite grow_inf by done. destruct n; [exists m, e|exists M, 0]; split; [done|lia|done|lia].
  - by apply grow_nonneg; [| |lia].
Qed.

Lemma below_one m e : ltb (Fin m e) oneF = true → 0 ≤ m → below 0 m e.
Proof.
  unfold ltb, align, oneF. intros H Hm. breflect. rewrite Z.mul_1_l in H.
  destruct (decide (m = 0)) as [->|]; [by left|]. right. rewrite Z.abs_eq by lia.
  destruct (Z.min_spec e 0) as [[? E]|[? E]]; rewrite E in H.
  - rewrite Z.sub_diag, Z.pow_0_r, Z.mul_1_r in H. replace (0 - e) with (- e) in H by lia.
    apply Z.log2_lt_pow2 in H; lia.
  - rewrite !Z.sub_0_r, Z.pow_0_r in H. assert (0 < 2 ^ e) by (apply Z.pow_pos_nonneg; lia). nia.
Qed.

(** The clamp to the ceiling, then the jitter: every intermediate is finite. *)
Lemma jitter_finite m e j ej mr er :
  below 54 m e → below 0 j ej → below 0 mr er →
  ∃ m' e', add (Fin m e) (mul (mul (Fin m e) (Fin j ej)) (sub (mul twoF (Fin mr er)) oneF))
           = Fin m' e'.
Proof.
  intros Hd Hj Hr.
  destruct (mul_below 2 0 1 1 mr er) as (a & ea & Ea & Ha); [by right; vm_compute|done|lia|].
  destruct (add_below 3 a ea (-1) 0) as (b & eb & Eb & Hb);
    [done | by right; vm_compute | lia |].
  destruct (mul_below 54 0 m e j ej) as (c & ec & Ec & Hc); [done|done|lia|].
  destruct (mul_below 55 5 c ec b eb) as (d & ed & Ed & Hd'); [done|done|lia|].
  destruct (add_below 61 m e d ed) as (f & ef & Ef & _).
  - destruct Hd as [->|Hd]; [by left | right; lia].
  - done.
  - lia.
  - exists f, ef. unfold twoF. rewrite Ea. unfold sub, oneF. cbn [opp].
    change (- (1)) with (-1). rewrite Eb, Ec, Ed. done.
Qed.

(** What [withDefaults] leaves of a configuration without a NaN. *)
Lemma withDefaults_factor b : Factor b ≠ NaN → growing (Factor (withDefaults b)).
Proof.
  intros HN. unfold withDefaults. cbn [Factor]. destruct (leb (Factor b) oneF) eqn:C; [by right; exists 1, 1|].
  destruct (Factor b) as [|[]|m e] eqn:E; [done|done|by left|]. right. exists m, e. split; [done|].
  unfold leb, align, oneF in C. breflect.
  assert (0 < 2 ^ (e - Z.min e 0)) by (apply Z.pow_pos_nonneg; lia).
  assert (0 < 2 ^ (0 - Z.min e 0)) by (apply Z.pow_pos_nonneg; lia). nia.
Qed.

Lemma withDefaults_jitter b :
  Jitter b ≠ NaN → ∃ j ej, Jitter (withDefaults b) = Fin j ej ∧ below 0 j ej.
Proof.
  intros HN. unfold withDefaults. cbn [Jitter]. destruct (leb (Jitter b) zeroF) eqn:C0.
  { eexists _, _. split; [done|]. right. vm_compute. done. }
  destruct (leb oneF (Jitter b)) eqn:C1.
  { eexists _, _. split; [done|]. right. vm_compute. done. }
  destruct (Jitter b) as [|[]|j ej]; [congruence|discriminate|discriminate|]. exists j, ej. split; [done|].
  apply below_one.
  - unfold leb, ltb, align, oneF in *. rewrite Z.min_comm in C1. breflect. apply Z.ltb_lt. lia.
  - unfold leb, align, zeroF in C0. breflect. rewrite Z.mul_0_l in C0.
    assert (0 < 2 ^ (ej - Z.min ej 0)) by (apply Z.pow_pos_nonneg; lia). nia.
Qed.

(** Clamp to the ceiling: at most [M], still non-negative when it was. *)
Lemma clamp_max M m e :
  0 ≤ M →
  ∃ m' e', (if ltb (Fin M 0) (Fin m e) then Fin M 0 else Fin m e) = Fin m' e'
    ∧ ltb (Fin M 0) (Fin m' e') = false ∧ (0 ≤ m → 0 ≤ m').
Proof.
  intros HM. destruct (ltb (Fin M 0) (Fin m e)) eqn:C; eexists _, _; (split; [done|]); [|done].
  split; [|done]. cbn. lia.
Qed.

(** Clamp at zero from below. *)
Lemma clamp_zero M m e :
  0 ≤ M → ltb (Fin M 0) (Fin m e) = false →
  ∃ m' e', (if ltb (Fin m e) zeroF then zeroF else Fin m e) = Fin m' e'
    ∧ ltb (Fin M 0) (Fin m' e') = false ∧ 0 ≤ m'.
Proof.
  intros HM H. destruct (ltb (Fin m e) zeroF) eqn:C; eexists _, _; (split; [done|]).
  - split; [|done]. cbn. lia.
  - split; [done|]. by apply ltb_zero_false in C.
Qed.

Lemma to_int64_range M m e :
  ltb (Fin M 0) (Fin m e) = false → 0 ≤ m → M < 2 ^ 63 →
  ∃ z, to_int64 (Fin m e) = Some z ∧ 0 ≤ z ≤ M.
Proof.
  intros H Hm HM. pose proof (ltb_int_trunc _ _ _ H Hm). exists (trunc m e). unfold to_int64.
  destruct (Z.leb_spec (- 2 ^ 63) (trunc m e)); [|lia].
  by destruct (Z.ltb_spec (trunc m e) (2 ^ 63)); [|lia].
Qed.

(** C37: The promise of the schedule.  For every configuration without a NaN (infinite
    factors and jitters included; the defaults fill what is unset), every attempt
    number and every draw [0 <= r < 1], the delay is a well-defined duration between 0
    and the configured ceiling, whatever the float roundings in between: no overflow to
    infinity, no NaN, no negative wait.  The ceiling is below [2^53] ns (104 days),
    where [float64(Max)] is exact. *)
Theorem delay_bounds (b : BackoffConfig) (attempt : Z) (mr er : Z)
    (HB : Base b < 2 ^ 63) (HM : Max b < 2 ^ 53)
    (HF : Factor b ≠ NaN) (HJ : Jitter b ≠ NaN)
    (Hr0 : 0 ≤ mr) (Hr1 : ltb (Fin mr er) oneF = true) :
  ∃ d, delay (withDefaults b) attempt (Fin mr er) = Some d ∧ 0 ≤ d ≤ Max (withDefaults b).
Proof.
  pose proof (withDefaults_factor b HF) as Hf.
  destruct (withDefaults_jitter b HJ) as (j & ej & EJ & Hj).
  pose proof (below_one _ _ Hr1 Hr0) as Hr.
  assert (HM' : 0 < Max (withDefaults b) < 2 ^ 53)
    by (cbn; unfold DefaultMax; destruct (Z.leb_spec (Max b) 0); lia).
  assert (HB' : 0 < Base (withDefaults b) < 2 ^ 63)
    by (cbn; unfold DefaultBase; destruct (Z.leb_spec (Base b) 0); lia).
  unfold delay. rewrite EJ, (of_int_exact (Max _)) by lia.
  set (M := Max (withDefaults b)) in *. set (n := Z.to_nat _).
  destruct (grow_growing _ M n _ Hf ltac:(lia) HB') as (g & eg & -> & Hg).
  destruct (clamp_max M g eg ltac:(lia)) as (c & ec & -> & Hc & Hc0).
  destruct (jitter_finite c ec j ej mr er) as (v & ev & Ev);
    [apply (ltb_int_below M); [done | by apply Hc0 | lia] | done | done |].
  rewrite Ev.
  assert (∃ w ew, (if ltb zeroF (Fin j ej) then Fin v ev else Fin c ec) = Fin w ew)
    as (w & ew & ->) by (destruct (ltb zeroF (Fin j ej)); eexists _, _; reflexivity).
  destruct (clamp_max M w ew ltac:(lia)) as (x & ex & -> & Hx & _).
  destruct (clamp_zero M x ex ltac:(lia) Hx) as (y & ey & -> & Hy & Hy0).
  apply to_int64_range; (done || lia).
Qed.

Lemma delay_bounds_witness :
  ∃ d, delay (withDefaults (mkBackoff 0 60000000000 (Inf false) (Inf false))) 4 (Fin 7 (-3)) = Some d
    ∧ 0 ≤ d ≤ 60000000000.
Proof.
  apply (delay_bounds (mkBackoff 0 60000000000 (Inf false) (Inf false)) 4 7 (-3));
    [cbn; lia | cbn; lia | discriminate | discriminate | lia | vm_compute; reflexivity].
Defined.

Definition zero_config : BackoffConfig := mkBackoff 0 0 zeroF zeroF.
Definition halfF : float := Fin 1 (-1).

(** The default schedule, exactly: with the jitter draw at its midpoint the
    delay before attempt [n] is 500 ms doubled [n - 1] times and capped at 30 s,
    for every attempt number, however large. *)
Theorem default_schedule (attempt : Z) :
  delay (withDefaults zero_config) attempt halfF
  = Some (if attempt <? 1 then DefaultBase
          else if 7 <=? attempt then DefaultMax else DefaultBase * 2 ^ (attempt - 1)).
Proof.
  destruct (Z.ltb_spec attempt 1) as [H1|H1].
  { unfold delay. apply Z.ltb_lt in H1. rewrite H1. by vm_compute. }
  destruct (Z.leb_spec 7 attempt).
  - assert (∃ n, Z.to_nat (attempt - 1) = (6 + n)%nat) as [n Hn]
      by (exists (Z.to_nat (attempt - 7)); lia).
    unfold delay. apply Z.ltb_ge in H1. rewrite H1, Hn. by vm_compute.
  - assert (attempt = 1 ∨ attempt = 2 ∨ attempt = 3 ∨ attempt = 4 ∨ attempt = 5 ∨ attempt = 6)
      as [->|[->|[->|[->|[->| ->]]]]] by lia; by vm_compute.
Qed.

(** Above [2^53] the conversion of [Max] rounds, and the ceiling is not hard: the
    delay can exceed it; at the largest [Max] the conversion back does not fit. *)
Lemma delay_above_Max :
  delay (withDefaults (mkBackoff (2 ^ 60) (2 ^ 53 + 3) zeroF zeroF)) 1 halfF = Some (2 ^ 53 + 4)
  ∧ delay (withDefaults (mkBackoff (2 ^ 63 - 1) (2 ^ 63 - 1) zeroF zeroF)) 1 halfF = None.
Proof. by vm_compute. Qed.
End backoff.
