(* ===== verification/Supervisor.v ===== *)
(** * Reconnecting source: [supervisor/supervisor.go]

    The supervisor is one goroutine ([run]) that connects, delivers and
    reconnects, and any number of callers that may shut it down at any moment
    ([Close], or a [Wait] whose context ends).  It is modelled as a small-step
    machine: the program counter is the point of [run] between two accesses to
    shared state or two calls into code the supervisor does not own (the
    factory, the live source, the clock, the retry policy), so that every
    interleaving of the shutdown with the loop is a sequence of events.  The
    user's code answers through the events, in any way it likes, a panic
    included. *)
From S2P Require Import Prelude Backoff.
From stdpp Require Import gmap strings.
Local Open Scope Z_scope.

Module supervisor.
Import backoff.

(** ** Errors, [errors.go] *)
Inductive error :=
  | ErrClosed | ErrReadTimeout | ErrRedirect
  | RedirectError (Location : string)
  | Canceled | DeadlineExceeded
  | errNilSource
  | recoveredPanic (v : Z)
  | other (id : Z)
  | wrapped (text : string) (cause : error).
#[export] Instance error_eq_dec : EqDecision error.
Proof. solve_decision. Defined.

(** [errors.Is] along the chain of wrapped causes; [RedirectError] answers for
    the sentinel through its own [Is] method. *)
Definition RedirectError_Is (e target : error) : bool :=
  match e with RedirectError _ => bool_decide (target = ErrRedirect) | _ => false end.
Fixpoint errors_Is (e target : error) : bool :=
  bool_decide (e = target) || RedirectError_Is e target
  || match e with wrapped _ e' => errors_Is e' target | _ => false end.

Definition DefaultRetryable (err : option error) : bool :=
  match err with
  | None => true
  | Some e =>
      negb (errors_Is e Canceled || errors_Is e DeadlineExceeded
            || errors_Is e ErrClosed || errors_Is e ErrRedirect)
  end.

(** ** Snapshots, [stats.go] and [source.go] *)
Record SenderClock := mkClock {
  RTPTime : Z; NTPTime : Z; ReceivedAt : Z; ClockRate : Z; Valid : bool }.
Record TrackStats := mkTrack {
  Packets : Z; PayloadBytes : Z; WireBytes : Z; SeqGaps : Z; Duplicates : Z;
  Malformed : Z; SSRCResets : Z; SourceFiltered : Z; LastFrameAt : Z;
  Clock : SenderClock }.
Record Stats := mkStats { Tracks : gmap Z TrackStats; CapturedAt : Z }.
Record SourceInfo := mkInfo { URL : string; Server : string }.
Definition zeroStats : Stats := mkStats ∅ 0.
Definition zeroInfo : SourceInfo := mkInfo EmptyString EmptyString.

(** A live source is known to the supervisor by its identity only. *)
Abbreviation source := nat.

(** ** Phases and transitions *)
Inductive State :=
  StateConnecting | StateConnected | StateReconnecting | StateClosed | StateFailed.
#[export] Instance State_eq_dec : EqDecision State.
Proof. solve_decision. Defined.

Record StateChange := mkChange {
  state_of : State; Attempt : Z; Err : option error; Backoff : Z }.

Record Config := mkConfig { BackoffC : BackoffConfig; Retryable : option (option error → bool) }.
Definition retryable (c : Config) : option error → bool :=
  default DefaultRetryable (Retryable c).

(** ** The machine

    Where [run] stands.  [Emitting sc k]: the phase is recorded and [OnState] is
    about to be told; [k] is what follows. *)
Inductive pc :=
  | Top (attempt : Z)
  | Connecting (attempt : Z)
  | InFactory (attempt : Z)
  | Ended (attempt : Z) (err : option error)
  | Judging (attempt : Z) (err : option error)
  | BackingOff (attempt : Z) (cause : option error)
  | Sleeping (attempt : Z)
  | Publishing (src : source)
  | EnteringConnected (src : source)
  | InWait (src : source)
  | Capturing (src : source) (werr : option error)
  | ClosingSource (src : source) (werr : option error)
  | Clearing (werr : option error)
  | Emitting (sc : StateChange) (k : pc)
  | Finishing (state : State) (cause : option error)
  | FinishingClosed
  | Recovering (v : Z)
  | RecoverClosing (cur : source) (v : Z)
  | RecoverCancelling (v : Z)
  | Returning
  | Exiting
  | Exited
  | Crashed.

(** [closeOnce]: not taken; taken by a caller with this cause; the cause is in
    [termErr]; the run context is cancelled. *)
Inductive once := Untaken | Taken (cause : error) | Recorded (cause : error) | Fired (cause : error).

Record Supervisor := mkSup {
  termErr : option error;
  current : option source;
  lastStats : Stats;
  lastInfo : SourceInfo;
  state : State;
  closeOnce : once;
  ctxDone : bool;             (* the run context is cancelled *)
  done : bool;                (* the done channel is closed *)
  at_ : pc;
  emitted : list StateChange; (* what OnState was told, in order *)
  closes : list source        (* the Close calls made on sources, in order *)
}.

Definition New : Supervisor :=
  mkSup None None zeroStats zeroInfo StateConnecting Untaken false false (Top 0) [] [].

(** What happens next: the loop's own step, an answer of the code it called, or
    a step of a caller of [initiateShutdown]. *)
Inductive event :=
  | Tick
  | FactoryReturns (src : option source) (err : option error)
  | WaitReturns (err : option error)
  | Snapshot (st : Stats) (info : SourceInfo)
  | CloseReturns
  | Draw (r : float64.float) (d : Z)
  | SleepReturns (interrupted : bool)
  | Panics (v : Z)
  | Shutdown (cause : error)
  | ShutdownRecords
  | ShutdownCancels.

Definition go (k : pc) (s : Supervisor) : Supervisor :=
  mkSup (termErr s) (current s) (lastStats s) (lastInfo s) (state s) (closeOnce s)
    (ctxDone s) (done s) k (emitted s) (closes s).
Definition runCancel (s : Supervisor) : Supervisor :=
  mkSup (termErr s) (current s) (lastStats s) (lastInfo s) (state s) (closeOnce s)
    true (done s) (at_ s) (emitted s) (closes s).
Definition setCurrent (cur : option source) (s : Supervisor) : Supervisor :=
  mkSup (termErr s) cur (lastStats s) (lastInfo s) (state s) (closeOnce s)
    (ctxDone s) (done s) (at_ s) (emitted s) (closes s).
Definition captureFinal (st : Stats) (info : SourceInfo) (s : Supervisor) : Supervisor :=
  mkSup (termErr s) (current s) st info (state s) (closeOnce s)
    (ctxDone s) (done s) (at_ s) (emitted s) (closes s).
Definition closeSource (src : source) (s : Supervisor) : Supervisor :=
  mkSup (termErr s) (current s) (lastStats s) (lastInfo s) (state s) (closeOnce s)
    (ctxDone s) (done s) (at_ s) (emitted s) (closes s ++ [src]).
Definition setOnce (o : once) (s : Supervisor) : Supervisor :=
  mkSup (termErr s) (current s) (lastStats s) (lastInfo s) (state s) o
    (ctxDone s) (done s) (at_ s) (emitted s) (closes s).
Definition setTerm (e : option error) (s : Supervisor) : Supervisor :=
  mkSup e (current s) (lastStats s) (lastInfo s) (state s) (closeOnce s)
    (ctxDone s) (done s) (at_ s) (emitted s) (closes s).
Definition closeDone (s : Supervisor) : Supervisor :=
  mkSup (termErr s) (current s) (lastStats s) (lastInfo s) (state s) (closeOnce s)
    (ctxDone s) true (at_ s) (emitted s) (closes s).

(** Record the phase; the emission is the next step. *)
Definition setState (sc : StateChange) (k : pc) (s : Supervisor) : Supervisor :=
  mkSup (termErr s) (current s) (lastStats s) (lastInfo s) (state_of sc) (closeOnce s)
    (ctxDone s) (done s) (Emitting sc k) (emitted s) (closes s).
Definition emit (sc : StateChange) (s : Supervisor) : Supervisor :=
  mkSup (termErr s) (current s) (lastStats s) (lastInfo s) (state s) (closeOnce s)
    (ctxDone s) (done s) (at_ s) (emitted s ++ [sc]) (closes s).

Definition finish (st : State) (cause : option error) (s : Supervisor) : Supervisor :=
  match termErr s with
  | None => setState (mkChange st 0 cause 0) Returning (setTerm cause s)
  | Some e => setState (mkChange StateClosed 0 (Some e) 0) Returning s
  end.
Definition finishClosed (s : Supervisor) : Supervisor :=
  let e := default Canceled (termErr s) in
  setState (mkChange StateClosed 0 (Some e) 0) Returning (setTerm (Some e) s).

(** [initiateShutdown], in the three steps other goroutines can observe. *)
Definition initiateShutdown (ev : event) (s : Supervisor) : option Supervisor :=
  match ev, closeOnce s with
  | Shutdown cause, Untaken => Some (setOnce (Taken cause) s)
  | ShutdownRecords, Taken cause =>
      Some (setOnce (Recorded cause)
              (match termErr s with None => setTerm (Some cause) s | Some _ => s end))
  | ShutdownCancels, Recorded cause => Some (setOnce (Fired cause) (runCancel s))
  | Shutdown _, _ => Some s
  | _, _ => None
  end.

(** [loop], [backoffSleep], [recoverRun] and the deferred calls of [run]. *)
Definition run (c : Config) (ev : event) (s : Supervisor) : option Supervisor :=
  match at_ s, ev with
  | Top a, Tick => Some (go (if ctxDone s then FinishingClosed else Connecting a) s)
  | Connecting a, Tick =>
      Some (setState (mkChange StateConnecting a None 0) (InFactory a) s)
  | InFactory a, FactoryReturns src err =>
      match err, src with
      | Some e, _ => Some (go (Ended a (Some e)) s)
      | None, None => Some (go (Ended a (Some errNilSource)) s)
      | None, Some src => Some (go (Publishing src) s)
      end
  | Ended a err, Tick =>
      Some (go (if ctxDone s then FinishingClosed else Judging a err) s)
  | Judging a err, Tick =>
      Some (go (if retryable c err then BackingOff (a + 1) err else Finishing StateFailed err) s)
  | BackingOff a cause, Draw r d =>
      if match delay (withDefaults (BackoffC c)) a r with Some d' => d =? d' | None => true end
      then Some (setState (mkChange StateReconnecting a cause d) (Sleeping a) s)
      else None
  | Sleeping a, SleepReturns false => Some (go (Top a) s)
  | Sleeping a, SleepReturns true => if ctxDone s then Some (go FinishingClosed s) else None
  | Publishing src, Tick => Some (go (EnteringConnected src) (setCurrent (Some src) s))
  | EnteringConnected src, Tick =>
      Some (setState (mkChange StateConnected 0 None 0) (InWait src) s)
  | InWait src, WaitReturns err => Some (go (Capturing src err) s)
  | Capturing src werr, Snapshot st info =>
      Some (go (ClosingSource src werr) (captureFinal st info s))
  | ClosingSource src werr, CloseReturns => Some (go (Clearing werr) (closeSource src s))
  | ClosingSource src _, Panics v => Some (go (Recovering v) (closeSource src s))
  | Clearing werr, Tick => Some (go (Ended 0 werr) (setCurrent None s))
  | Emitting sc k, Tick => Some (go k (emit sc s))
  | Finishing st cause, Tick => Some (finish st cause s)
  | FinishingClosed, Tick => Some (finishClosed s)
  | (InFactory _ | Judging _ _ | InWait _ | Capturing _ _), Panics v => Some (go (Recovering v) s)
  | Recovering v, Tick =>
      Some (go (match current s with Some cur => RecoverClosing cur v | None => RecoverCancelling v end)
              (setCurrent None s))
  | RecoverClosing cur v, CloseReturns => Some (go (RecoverCancelling v) (closeSource cur s))
  | RecoverClosing cur _, Panics _ => Some (go Crashed (closeSource cur s))
  | RecoverCancelling v, Tick =>
      Some (go (Finishing StateFailed (Some (recoveredPanic v))) (runCancel s))
  | Returning, Tick => Some (go Exiting (runCancel s))
  | Exiting, Tick => Some (go Exited (closeDone s))
  | _, _ => None
  end.

Definition is_shutdown (ev : event) : bool :=
  match ev with Shutdown _ | ShutdownRecords | ShutdownCancels => true | _ => false end.

Definition step (c : Config) (s : Supervisor) (ev : event) : option Supervisor :=
  if is_shutdown ev then initiateShutdown ev s else run c ev s.

Fixpoint exec (c : Config) (s : Supervisor) (evs : list event) : option Supervisor :=
  match evs with
  | [] => Some s
  | ev :: evs' => s' ← step c s ev; exec c s' evs'
  end.

Inductive reachable (c : Config) : Supervisor → Prop :=
  | reach_new : reachable c New
  | reach_step s ev s' : reachable c s → step c s ev = Some s' → reachable c s'.

(** The accessors; [live] is what the live source would answer. *)
Definition StatsOf (s : Supervisor) (live : source → Stats) : Stats :=
  match current s with Some cur => live cur | None => lastStats s end.
Definition InfoOf (s : Supervisor) (live : source → SourceInfo) : SourceInfo :=
  match current s with Some cur => live cur | None => lastInfo s end.

(** [Wait] returns once [done] is closed, with the recorded cause. *)
Definition Wait (s : Supervisor) : option (option error) :=
  if done s then Some (termErr s) else None.

Lemma exec_reachable c evs s s' :
  reachable c s → exec c s evs = Some s' → reachable c s'.
Proof.
  revert s. induction evs as [|ev evs IH]; cbn [exec]; intros s Hr E.
  - by injection E as <-.
  - destruct (step c s ev) as [s1|] eqn:Es; [|done]. eapply IH; [|exact E]. by eapply reach_step.
Qed.

(** A caller of [initiateShutdown] touches the cause, the once and the context,
    and nothing else. *)
Lemma initiateShutdown_frame ev s s' :
  initiateShutdown ev s = Some s' →
  at_ s' = at_ s ∧ emitted s' = emitted s ∧ state s' = state s ∧ current s' = current s
  ∧ closes s' = closes s ∧ done s' = done s.
Proof.
  unfold initiateShutdown. intros E.
  destruct ev, (closeOnce s); try discriminate; injection E as <-; try done; by destruct (termErr s).
Qed.

(** ** The contract of [OnState]

    What a consumer may rely on, as a small automaton over the transitions alone:
    [Idle a] (about to connect for the [a]-th retry), [Conn a] (connecting),
    [Live], [Over]. *)
Inductive phase := Idle (a : Z) | Conn (a : Z) | Live | Over.

(** The phases a session can fail in, with the failures counted so far. *)
Definition session (p : phase) (a : Z) (err : option error) : Prop :=
  (p = Conn a ∧ err ≠ None) ∨ (p = Live ∧ a = 0).
Definition active (p : phase) : Prop := (∃ a, p = Conn a) ∨ p = Live.
Definition fatal (c : Config) (p : phase) (err : option error) : Prop :=
  (∃ a, session p a err ∧ retryable c err = false)
  ∨ (active p ∧ ∃ v, err = Some (recoveredPanic v)).

Inductive allowed (c : Config) : phase → StateChange → phase → Prop :=
  | allow_connecting a :
      allowed c (Idle a) (mkChange StateConnecting a None 0) (Conn a)
  | allow_connected a :
      allowed c (Conn a) (mkChange StateConnected 0 None 0) Live
  | allow_reconnecting p a err r d :
      session p a err → retryable c err = true →
      (∀ d', delay (withDefaults (BackoffC c)) (a + 1) r = Some d' → d = d') →
      allowed c p (mkChange StateReconnecting (a + 1) err d) (Idle (a + 1))
  | allow_closed p e :
      p ≠ Over → allowed c p (mkChange StateClosed 0 (Some e) 0) Over
  | allow_failed p err :
      fatal c p err → allowed c p (mkChange StateFailed 0 err 0) Over.

Inductive accepts (c : Config) : list StateChange → phase → Prop :=
  | accepts_nil : accepts c [] (Idle 0)
  | accepts_snoc l p sc p' :
      accepts c l p → allowed c p sc p' → accepts c (l ++ [sc]) p'.

(** The phase the transitions told so far have reached, from where [run] stands. *)
Fixpoint at_phase (c : Config) (k : pc) (p : phase) : Prop :=
  match k with
  | Top a | Connecting a | Sleeping a => p = Idle a
  | InFactory a => p = Conn a
  | Ended a err | Judging a err => session p a err
  | BackingOff a cause => session p (a - 1) cause ∧ retryable c cause = true
  | Publishing _ | EnteringConnected _ => ∃ a, p = Conn a
  | InWait _ | Capturing _ _ | ClosingSource _ _ | Clearing _ => p = Live
  | Emitting sc k' => ∃ p', allowed c p sc p' ∧ at_phase c k' p'
  | Finishing st cause => st = StateFailed ∧ fatal c p cause
  | FinishingClosed => p ≠ Over
  | Recovering _ | RecoverClosing _ _ | RecoverCancelling _ | Crashed => active p
  | Returning | Exiting | Exited => p = Over
  end.

Definition latest (l : list StateChange) : State :=
  match last l with Some sc => state_of sc | None => StateConnecting end.

(** What is about to be told, and where [run] goes after it. *)
Fixpoint pending (k : pc) : list StateChange :=
  match k with Emitting sc k' => sc :: pending k' | _ => [] end.
Fixpoint dest (k : pc) : pc := match k with Emitting _ k' => dest k' | _ => k end.

(** The recorded phase is that of the last transition told, counting the one
    about to be told. *)
Definition state_agrees (s : Supervisor) : Prop :=
  state s = latest (emitted s ++ pending (at_ s)).

Definition contract_inv (c : Config) (s : Supervisor) : Prop :=
  (∃ p, accepts c (emitted s) p ∧ at_phase c (at_ s) p)
  ∧ state_agrees s ∧ (done s = true → at_ s = Exited).

Lemma latest_snoc l sc : latest (l ++ [sc]) = state_of sc.
Proof. unfold latest. by rewrite last_snoc. Qed.

Lemma session_active p a err : session p a err → active p.
Proof. intros [[-> _]|[-> _]]; [left; eauto | by right]. Qed.
Lemma session_not_over p a err : session p a err → p ≠ Over.
Proof. by intros [[-> _]|[-> _]]. Qed.
Lemma fatal_not_over c p err : fatal c p err → p ≠ Over.
Proof. intros [(a & Hs & _)|[[[a ->]| ->] _]]; [by eapply session_not_over | done | done]. Qed.
#[local] Hint Resolve session_active session_not_over fatal_not_over : stream.

Lemma finish_phase c st cause s p :
  st = StateFailed → fatal c p cause →
  at_phase c (at_ (finish st cause s)) p.
Proof.
  intros -> Hf. unfold finish. destruct (termErr s) as [e|]; cbn; exists Over.
  - split; [|done]. apply allow_closed. by eapply fatal_not_over.
  - split; [by apply allow_failed | done].
Qed.

(** Every step of [run], as one case analysis. *)
Ltac run_cases s ev E Ea :=
  unfold run in E; destruct (at_ s) eqn:Ea; destruct ev; try discriminate E.

(** In every step but an emission the log and its phase stay. *)
Lemma run_phase c s ev s' p :
  run c ev s = Some s' → accepts c (emitted s) p → at_phase c (at_ s) p →
  ∃ p', accepts c (emitted s') p' ∧ at_phase c (at_ s') p'.
Proof.
  intros E Hacc Hp. run_cases s ev E Ea; cbn [at_phase] in Hp;
    try (injection E as <-; exists p; split; [exact Hacc|]; cbn; by eauto with stream).
  - injection E as <-. exists p. split; [done|]. subst p. by destruct (ctxDone s).
  - injection E as <-. exists p. split; [done|]. subst p. eexists. split; [constructor | done].
  - exists p. subst p. destruct err, src; injection E as <-; (split; [done|]); cbn;
      try (by left); by eexists.
  - injection E as <-. exists p. split; [done|]. subst p. left. by eexists.
  - injection E as <-. exists p. split; [done|]. destruct (ctxDone s); cbn; eauto with stream.
  - injection E as <-. exists p. split; [done|].
    destruct (retryable c err) eqn:Er; cbn.
    + by rewrite Z.add_simpl_r.
    + split; [done|]. left. by eexists.
  - destruct (match delay _ _ _ with Some _ => _ | None => _ end) eqn:Ed; [|discriminate].
    injection E as <-. exists p. split; [done|]. destruct Hp as [Hs Hr].
    exists (Idle attempt). split; [|done].
    replace attempt with (attempt - 1 + 1) by lia.
    apply allow_reconnecting with r; [done | done |].
    replace (attempt - 1 + 1) with attempt by lia. intros d' E. rewrite E in Ed. by breflect.
  - destruct interrupted; [destruct (ctxDone s); [|discriminate]|]; injection E as <-;
      exists p; (split; [done|]); by subst p.
  - injection E as <-. exists p. split; [done|]. destruct Hp as [a ->].
    eexists. split; [constructor | done].
  - injection E as <-. exists p. split; [done|]. by right.
  - injection E as <-. exists p. split; [done|]. by right.
  - injection E as <-. exists p. split; [done|]. by right.
  - injection E as <-. exists p. split; [done|]. by right.
  - injection E as <-. destruct Hp as (p' & Ha & Hk). exists p'.
    split; [by eapply accepts_snoc | done].
  - injection E as <-. exists p. split; [|destruct Hp; by apply finish_phase].
    unfold finish. by destruct (termErr s).
  - injection E as <-. exists p. split; [done|]. exists Over. split; [by constructor | done].
  - injection E as <-. exists p. split; [done|]. by destruct (current s).
  - injection E as <-. exists p. split; [done|]. split; [done|]. right. eauto.
Qed.

Lemma finish_state st cause s :
  state_agrees (finish st cause s) ∧ done (finish st cause s) = done s.
Proof.
  unfold finish, state_agrees. destruct (termErr s); cbn; by rewrite latest_snoc.
Qed.

Lemma run_state c s ev s' :
  run c ev s = Some s' → state_agrees s → state_agrees s'.
Proof.
  intros E Hst. unfold state_agrees in *. run_cases s ev E Ea; cbn [pending] in Hst;
    rewrite ?app_nil_r in Hst;
    try (injection E as <-; cbn; by rewrite ?app_nil_r, ?latest_snoc).
  - injection E as <-. cbn. by destruct (ctxDone s); rewrite app_nil_r.
  - destruct err, src; injection E as <-; cbn; by rewrite app_nil_r.
  - injection E as <-. cbn. by destruct (ctxDone s); rewrite app_nil_r.
  - injection E as <-. cbn. by destruct (retryable c err); rewrite app_nil_r.
  - destruct (match delay _ _ _ with Some _ => _ | None => _ end); [|discriminate].
    injection E as <-. cbn. by rewrite latest_snoc.
  - destruct interrupted; [destruct (ctxDone s); [|discriminate]|]; injection E as <-; cbn;
      by rewrite app_nil_r.
  - injection E as <-. cbn. by rewrite <- app_assoc.
  - injection E as <-. apply finish_state.
  - injection E as <-. cbn. by destruct (current s); rewrite app_nil_r.
Qed.

Lemma run_done c s ev s' :
  run c ev s = Some s' → (done s = true → at_ s = Exited) → done s' = true → at_ s' = Exited.
Proof.
  intros E Hd. assert (done s' = done s ∨ at_ s' = Exited) as [E'|]; [|rewrite E'|done].
  - clear Hd. run_cases s ev E Ea; try (injection E as <-; by (left + right)).
    + destruct err, src; injection E as <-; by left.
    + destruct (match delay _ _ _ with Some _ => _ | None => _ end); [|discriminate].
      injection E as <-. by left.
    + destruct interrupted; [destruct (ctxDone s); [|discriminate]|]; injection E as <-; by left.
    + injection E as <-. left. apply finish_state.
  - intros Hx. specialize (Hd Hx). unfold run in E. rewrite Hd in E. by destruct ev.
Qed.

Lemma contract_reachable c s : reachable c s → contract_inv c s.
Proof.
  induction 1 as [|s ev s' _ (Hlog & Hst & Hd) E].
  - split; [|done]. exists (Idle 0). split; [constructor | done].
  - unfold step in E. destruct (is_shutdown ev).
    + apply initiateShutdown_frame in E as (Ea & Ee & Es & _ & _ & Ed).
      unfold contract_inv, state_agrees. rewrite Ea, Ee, Es, Ed. done.
    + destruct Hlog as (p & Hacc & Hp). split; [|split].
      * by eapply run_phase.
      * by eapply run_state.
      * by eapply run_done.
Qed.

Definition terminal (sc : StateChange) : Prop :=
  state_of sc = StateClosed ∨ state_of sc = StateFailed.

Lemma allowed_terminal c p sc p' :
  allowed c p sc p' → p ≠ Over ∧ (p' = Over ↔ terminal sc).
Proof.
  unfold terminal. destruct 1; cbn; (split; [eauto with stream; done|]); intuition discriminate.
Qed.

(** An accepted log ends with its one terminal transition, or has none yet. *)
Lemma accepts_not_over c l p : accepts c l p → p ≠ Over → Forall (λ x, ¬ terminal x) l.
Proof.
  induction 1 as [|l p sc p' _ IH Ha]; intros Hp; [constructor|].
  apply allowed_terminal in Ha as [Hp0 Ht]. apply Forall_app_2; [by apply IH|].
  apply Forall_cons_2; [|constructor]. by rewrite <- Ht.
Qed.
Lemma accepts_over c l :
  accepts c l Over → ∃ pre sc, l = pre ++ [sc] ∧ terminal sc ∧ Forall (λ x, ¬ terminal x) pre.
Proof.
  inversion 1 as [|l' p sc p' Hl Ha]; subst. exists l', sc.
  apply allowed_terminal in Ha as [Hp Ht]. split; [done|]. split; [by apply Ht|].
  by eapply accepts_not_over.
Qed.

(** C3: The supervisor keeps the contract of [OnState] under every interleaving of
    its loop with shutdowns and every behaviour of the factory, the sources and
    the policy.  The transitions told so far are always a run of the contract
    automaton: connecting for attempt [a] leads to connected (which resets the
    counter) or, after a retryable cause, to reconnecting with attempt [a + 1]
    and the scheduled delay, then connecting again with that number; a terminal
    transition comes last, exactly once, and has been told when [done] closes;
    and [State] is the phase last recorded. *)
Theorem OnState_contract (c : Config) (s : Supervisor) (H : reachable c s) :
  (∃ p, accepts c (emitted s) p
    ∧ (if done s then
         p = Over ∧ ∃ pre sc, emitted s = pre ++ [sc] ∧ terminal sc ∧ Forall (λ x, ¬ terminal x) pre
       else True))
  ∧ state s = latest (emitted s ++ pending (at_ s)).
Proof.
  destruct (contract_reachable c s H) as ((p & Hacc & Hp) & Hst & Hd). split; [|done].
  exists p. split; [done|]. destruct (done s); [|done].
  rewrite (Hd eq_refl) in Hp. cbn in Hp. subst p. split; [done|]. by eapply accepts_over.
Qed.

(** A session that reconnects once and is then closed from outside. *)
Definition demo_config : Config := mkConfig zero_config None.
Definition demo : list event :=
  [Tick; Tick; Tick; FactoryReturns None (Some (other 7)); Tick; Tick;
   Draw halfF 500000000; Tick; SleepReturns false; Tick; Tick; Tick;
   FactoryReturns (Some 1%nat) None; Tick; Tick; Tick; Shutdown ErrClosed; ShutdownRecords;
   ShutdownCancels; WaitReturns (Some Canceled); Snapshot zeroStats zeroInfo; CloseReturns;
   Tick; Tick; Tick; Tick; Tick; Tick].
Definition demo_log : list StateChange :=
  [mkChange StateConnecting 0 None 0;
   mkChange StateReconnecting 1 (Some (other 7)) 500000000;
   mkChange StateConnecting 1 None 0; mkChange StateConnected 0 None 0;
   mkChange StateClosed 0 (Some ErrClosed) 0].
Definition demo_end : Supervisor :=
  mkSup (Some ErrClosed) None zeroStats zeroInfo StateClosed (Fired ErrClosed) true true
    Exited demo_log [1%nat].
Example demo_run : exec demo_config New demo = Some demo_end.
Proof. by vm_compute. Qed.

Lemma OnState_contract_witness :
  emitted demo_end = demo_log
  ∧ (∃ p, accepts demo_config (emitted demo_end) p
      ∧ (p = Over ∧ ∃ pre sc, emitted demo_end = pre ++ [sc] ∧ terminal sc
           ∧ Forall (λ x, ¬ terminal x) pre))
  ∧ StateClosed = latest (emitted demo_end ++ []).
Proof.
  split; [reflexivity|].
  exact (OnState_contract demo_config demo_end
    (exec_reachable _ _ _ _ (reach_new _) demo_run)).
Defined.

(** ** Who ended it, and why *)
Definition finished (k : pc) : bool :=
  match dest k with Returning | Exiting | Exited => true | _ => false end.

(** A terminal transition and the cause [Wait] reports agree. *)
Definition outcome (s : Supervisor) (sc : StateChange) : Prop :=
  (state_of sc = StateClosed ∧ ∃ e, Err sc = Some e ∧ termErr s = Some e
     ∧ (closeOnce s = Recorded e ∨ closeOnce s = Fired e))
  ∨ (state_of sc = StateFailed ∧ ∀ e, Err sc = Some e → termErr s = Some e).

(** Until the loop finishes, only a shutdown has recorded a cause, and only a
    fired shutdown has cancelled the context. *)
Definition cause_inv (s : Supervisor) : Prop :=
  if finished (at_ s) then
    ∃ sc, last (emitted s ++ pending (at_ s)) = Some sc ∧ outcome s sc
  else
    (match closeOnce s with
     | Untaken | Taken _ => termErr s = None
     | Recorded e | Fired e => termErr s = Some e
     end)
    ∧ (match dest (at_ s) with
       | Finishing _ _ => True
       | FinishingClosed => ∃ e, closeOnce s = Fired e
       | _ => ctxDone s = true → ∃ e, closeOnce s = Fired e
       end).

Lemma shutdown_cause ev s s' :
  initiateShutdown ev s = Some s' → cause_inv s → cause_inv s'.
Proof.
  intros E. unfold cause_inv, outcome.
  pose proof (initiateShutdown_frame _ _ _ E) as (-> & -> & _).
  unfold initiateShutdown in E. destruct (finished (at_ s)).
  - intros (sc & Hl & Ho). exists sc. split; [done|].
    destruct ev, (closeOnce s) eqn:Eo; try discriminate; injection E as <-; cbn; rewrite ?Eo;
      (destruct Ho as [(Hs & e & He & Ht & [?|?])|[Hs Hf]];
       [simplify_eq; try (left; split; [done|]; exists e; by auto)..|]);
      right; (split; [done|]); intros e He; specialize (Hf e He); by rewrite ?Hf.
  - intros [Ht Hd].
    destruct ev, (closeOnce s) eqn:Eo; try discriminate; injection E as <-; cbn in *;
      rewrite ?Ht; cbn; rewrite ?Eo; (split; [done|]);
      destruct (dest (at_ s)); try done; try (intros Hc; destruct (Hd Hc); done); try (destruct Hd; done); eauto.
Qed.

(** Both ways to finish leave the transition and the cause in agreement. *)
Lemma finish_cause cause s :
  match closeOnce s with
  | Untaken | Taken _ => termErr s = None
  | Recorded e | Fired e => termErr s = Some e
  end → cause_inv (finish StateFailed cause s).
Proof.
  intros Ht. unfold cause_inv, finish, outcome.
  destruct (termErr s) as [e|] eqn:Et; cbn.
  - rewrite last_snoc. eexists. split; [done|]. left. split; [done|]. exists e.
    rewrite Et. split; [done|]. split; [done|].
    destruct (closeOnce s); simplify_eq; auto.
  - rewrite last_snoc. eexists. split; [done|]. by right.
Qed.

Lemma finishClosed_cause s e :
  closeOnce s = Fired e → termErr s = Some e → cause_inv (finishClosed s).
Proof.
  intros Eo Et. unfold cause_inv, finishClosed, outcome. rewrite Et. cbn. rewrite last_snoc.
  eexists. split; [done|]. left. split; [done|]. exists e. auto.
Qed.

Lemma run_cause c s ev s' p :
  run c ev s = Some s' → at_phase c (at_ s) p → cause_inv s → cause_inv s'.
Proof.
  intros E Hp Hi. unfold cause_inv, finished in Hi. run_cases s ev E Ea; cbn [pending dest] in Hi;
    try (injection E as <-; unfold cause_inv, finished, outcome; cbn;
         rewrite ?app_nil_r in *; tauto).
  - injection E as <-. destruct (ctxDone s) eqn:Ec; unfold cause_inv; cbn; rewrite ?Ec; intuition.
  - destruct err, src; injection E as <-; unfold cause_inv; cbn; intuition.
  - injection E as <-. destruct (ctxDone s) eqn:Ec; unfold cause_inv; cbn; rewrite ?Ec; intuition.
  - injection E as <-. unfold cause_inv. destruct (retryable c err); cbn; intuition.
  - destruct (match delay _ _ _ with Some _ => _ | None => _ end); [|discriminate].
    injection E as <-. unfold cause_inv; cbn; intuition.
  - destruct interrupted; [destruct (ctxDone s) eqn:Ec; [|discriminate]|]; injection E as <-;
      unfold cause_inv; cbn; rewrite ?Ec; intuition.
  - injection E as <-. unfold cause_inv, finished, outcome. cbn.
    rewrite <- app_assoc. exact Hi.
  - injection E as <-. cbn in Hp. destruct Hp as [-> _]. apply finish_cause. tauto.
  - injection E as <-. destruct Hi as [Ht [e Ho]]. rewrite Ho in Ht. by eapply finishClosed_cause.
  - injection E as <-. unfold cause_inv. destruct (current s); cbn; intuition.
Qed.

Lemma cause_reachable c s : reachable c s → cause_inv s ∧ contract_inv c s.
Proof.
  induction 1 as [|s ev s' Hr [IH ((p & _ & Hp) & _)] E].
  - split; [split; [done|by intros [=]] | by apply contract_reachable, reach_new].
  - split; [|apply contract_reachable; by eapply reach_step].
    unfold step in E. destruct (is_shutdown ev).
    + by eapply shutdown_cause.
    + by eapply run_cause.
Qed.

(** The cause is single and consistent.  When [done] is closed, the last
    transition told and what [Wait] returns agree: [StateClosed] is told exactly
    for a shutdown some caller initiated, with that caller's cause, which is what
    every [Wait] returns; [StateFailed] carries the error that [Wait] returns.  In
    particular [finishClosed] never needs its defensive default. *)
Theorem Wait_cause (c : Config) (s : Supervisor) (H : reachable c s) (Hd : done s = true) :
  ∃ pre sc, emitted s = pre ++ [sc] ∧ state s = state_of sc ∧
    ((state_of sc = StateClosed ∧ ∃ e, Err sc = Some e ∧ Wait s = Some (Some e)
        ∧ (closeOnce s = Recorded e ∨ closeOnce s = Fired e))
     ∨ (state_of sc = StateFailed ∧ ∀ e, Err sc = Some e → Wait s = Some (Some e))).
Proof.
  destruct (cause_reachable c s H) as [Hc (_ & Hst & Hx)]. specialize (Hx Hd).
  unfold cause_inv, state_agrees in *. rewrite Hx in Hc, Hst. cbn in Hc, Hst.
  rewrite app_nil_r in Hc, Hst. destruct Hc as (sc & Hl & Ho).
  apply last_Some in Hl as [pre E]. exists pre, sc. rewrite E, latest_snoc in Hst.
  split; [done|]. split; [done|]. unfold Wait. rewrite Hd.
  destruct Ho as [(Hs & e & He & Ht & Hon)|[Hs Hf]]; [left|right]; (split; [done|]).
  - exists e. by rewrite Ht.
  - intros e He. by rewrite (Hf e He).
Qed.

Lemma Wait_cause_witness :
  ∃ pre sc, demo_log = pre ++ [sc] ∧ StateClosed = state_of sc ∧
    ((state_of sc = StateClosed ∧ ∃ e, Err sc = Some e ∧ Some (Some ErrClosed) = Some (Some e)
        ∧ (Fired ErrClosed = Recorded e ∨ Fired ErrClosed = Fired e))
     ∨ (state_of sc = StateFailed ∧ ∀ e, Err sc = Some e → Some (Some ErrClosed) = Some (Some e))).
Proof.
  exact (Wait_cause demo_config demo_end
    (exec_reachable _ _ _ _ (reach_new _) demo_run) eq_refl).
Defined.

(** A policy that does not retry a clean end makes the terminal cause nil, and
    then [Close] after the end still records its own: [Wait] returns nil first
    and [ErrClosed] later. *)
Definition nil_is_final : Config :=
  mkConfig zero_config (Some (λ err, match err with None => false | Some _ => true end)).
Definition clean_end : list event :=
  [Tick; Tick; Tick; FactoryReturns (Some 1%nat) None; Tick; Tick; Tick;
   WaitReturns None; Snapshot zeroStats zeroInfo; CloseReturns; Tick; Tick; Tick; Tick; Tick;
   Tick; Tick].
Lemma nil_cause_overwritten :
  (s ← exec nil_is_final New clean_end; Wait s) = Some None
  ∧ (s ← exec nil_is_final New (clean_end ++ [Shutdown ErrClosed; ShutdownRecords]); Wait s)
    = Some (Some ErrClosed).
Proof. by vm_compute. Qed.

(** ** A shutdown ends it

    How many more steps [run] can take once its context is cancelled. *)
Fixpoint rank (k : pc) : nat :=
  match k with
  | Exited | Crashed => 0
  | Exiting => 1
  | Returning => 2
  | Emitting _ k' => S (rank k')
  | Finishing _ _ | FinishingClosed => 4
  | RecoverCancelling _ => 5
  | RecoverClosing _ _ => 6
  | Recovering _ => 7
  | Top _ => 8
  | Sleeping _ => 9
  | BackingOff _ _ => 11
  | Judging _ _ => 12
  | Ended _ _ => 13
  | Clearing _ => 14
  | ClosingSource _ _ => 15
  | Capturing _ _ => 16
  | InWait _ => 17
  | EnteringConnected _ => 19
  | Publishing _ => 20
  | InFactory _ => 21
  | Connecting _ => 23
  end.

Lemma finish_rank st cause s :
  rank (at_ (finish st cause s)) = 3%nat ∧ ctxDone (finish st cause s) = ctxDone s.
Proof. unfold finish. by destruct (termErr s). Qed.

Lemma run_rank c s ev s' :
  run c ev s = Some s' → ctxDone s = true →
  (rank (at_ s') < rank (at_ s))%nat ∧ ctxDone s' = true.
Proof.
  intros E Hc. run_cases s ev E Ea; cbn [rank];
    repeat first [ rewrite Hc in E | case_match; try discriminate E ];
    try (injection E as <-; cbn; split; [lia | done]).
  injection E as <-. pose proof (finish_rank state0 cause s) as [-> ->]. split; [lia | done].
Qed.

Lemma run_rank_max c s ev s' :
  run c ev s = Some s' → (rank (at_ s) ≤ 23)%nat → (rank (at_ s') ≤ 23)%nat.
Proof.
  intros E Hm. run_cases s ev E Ea; cbn [rank] in Hm;
    repeat (case_match; try discriminate E);
    try (injection E as <-; cbn; lia).
  injection E as <-. pose proof (finish_rank state0 cause s) as [-> _]. lia.
Qed.

Lemma reachable_rank c s : reachable c s → (rank (at_ s) ≤ 23)%nat.
Proof.
  induction 1 as [|s ev s' _ IH E]; [cbn; lia|].
  unfold step in E. destruct (is_shutdown ev).
  - by apply initiateShutdown_frame in E as (-> & _).
  - by eapply run_rank_max.
Qed.

Lemma shutdown_ctx ev s s' : initiateShutdown ev s = Some s' → ctxDone s = true → ctxDone s' = true.
Proof.
  unfold initiateShutdown. intros E Hc.
  destruct ev, (closeOnce s); try discriminate; injection E as <-; cbn; try done; by destruct (termErr s).
Qed.

(** The loop is never stuck: some answer of the code it waits for moves it. *)
Lemma run_progress c s :
  at_ s ≠ Exited → at_ s ≠ Crashed → ∃ ev s', is_shutdown ev = false ∧ step c s ev = Some s'.
Proof.
  intros H1 H2. unfold step, run. destruct (at_ s) eqn:Ea; try done;
    try (by exists Tick; eexists).
  - by exists (FactoryReturns None (Some errNilSource)); eexists.
  - destruct (delay (withDefaults (BackoffC c)) attempt halfF) as [d|] eqn:Ed.
    + exists (Draw halfF d). eexists. split; [done|]. cbn [is_shutdown].
      by rewrite Ed, Z.eqb_refl.
    + exists (Draw halfF 0). eexists. split; [done|]. cbn [is_shutdown]. by rewrite Ed.
  - by exists (SleepReturns false); eexists.
  - by exists (WaitReturns None); eexists.
  - by exists (Snapshot zeroStats zeroInfo); eexists.
  - by exists CloseReturns; eexists.
  - by exists CloseReturns; eexists.
Qed.

Definition run_steps (evs : list event) : nat := length (filter (λ ev, is_shutdown ev = false) evs).

Lemma exec_rank c evs s s' :
  exec c s evs = Some s' → ctxDone s = true →
  (run_steps evs + rank (at_ s') ≤ rank (at_ s))%nat ∧ ctxDone s' = true.
Proof.
  unfold run_steps. revert s. induction evs as [|ev evs IH]; cbn [exec]; intros s E Hc.
  - injection E as <-. cbn. split; [lia | done].
  - destruct (step c s ev) as [s1|] eqn:Es; [|done]. cbn in E. rewrite filter_cons.
    unfold step in Es. destruct (decide (is_shutdown ev = false)) as [Ev|Ev];
      [rewrite Ev in Es | apply not_false_is_true in Ev; rewrite Ev in Es].
    + apply run_rank in Es as [Hr Hc1]; [|done]. destruct (IH s1 E Hc1). cbn [length]. split; [lia | done].
    + destruct (IH s1 E) as [IHr ?]; [by eapply shutdown_ctx|].
      apply initiateShutdown_frame in Es as (Ea & _). rewrite Ea in IHr. done.
Qed.

(** C36: A shutdown ends the supervisor.  From any reachable state whose run
    context is cancelled, in the middle of a handshake, a session or a backoff,
    and whatever the factory, the source and later callers do, the loop takes at
    most 23 more steps of its own, and it is never stuck before it has closed
    [done] (or crashed on a source whose [Close] panics inside the recovery). *)
Theorem shutdown_terminates (c : Config) (s : Supervisor)
    (H : reachable c s) (Hc : ctxDone s = true) :
  (∀ evs s', exec c s evs = Some s' → (run_steps evs ≤ 23)%nat)
  ∧ (∀ evs s', exec c s evs = Some s' → at_ s' ≠ Exited → at_ s' ≠ Crashed →
       ∃ ev s'', is_shutdown ev = false ∧ step c s' ev = Some s'').
Proof.
  split; intros evs s' E.
  - pose proof (reachable_rank c s H). apply exec_rank in E as [E _]; [|done]. lia.
  - apply run_progress.
Qed.

(** Closed while connected: [Wait] of the source has not returned yet. *)
Definition closing_mid_session : Supervisor :=
  mkSup (Some ErrClosed) (Some 1%nat) zeroStats zeroInfo StateConnected (Fired ErrClosed) true false
    (InWait 1%nat) (take 4 demo_log) [].
Example closing_mid_session_run :
  exec demo_config New (take 19 demo) = Some closing_mid_session.
Proof. by vm_compute. Qed.

Lemma shutdown_terminates_witness :
  (∀ evs s', exec demo_config closing_mid_session evs = Some s' → (run_steps evs ≤ 23)%nat)
  ∧ (∀ evs s', exec demo_config closing_mid_session evs = Some s' →
       at_ s' ≠ Exited → at_ s' ≠ Crashed →
       ∃ ev s'', is_shutdown ev = false ∧ step demo_config s' ev = Some s'').
Proof.
  exact (shutdown_terminates demo_config closing_mid_session
    (exec_reachable _ _ _ _ (reach_new _) closing_mid_session_run) eq_refl).
Defined.

(** ** No source is leaked *)

(** The source [run] holds and has not closed yet. *)
Fixpoint held (cur : option source) (k : pc) : option source :=
  match k with
  | Publishing src | EnteringConnected src | InWait src | Capturing src _
  | ClosingSource src _ | RecoverClosing src _ => Some src
  | Recovering _ => cur
  | Emitting _ k' => held cur k'
  | _ => None
  end.

(** While [run] holds a published source, [current] is that source; otherwise, but
    for the moment before it is retracted, there is none. *)
Fixpoint current_agrees (cur : option source) (k : pc) : Prop :=
  match k with
  | EnteringConnected src | InWait src | Capturing src _ | ClosingSource src _ => cur = Some src
  | Recovering _ | Clearing _ => True
  | Emitting _ k' => current_agrees cur k'
  | _ => cur = None
  end.

Lemma run_current c s ev s' :
  run c ev s = Some s' → current_agrees (current s) (at_ s) → current_agrees (current s') (at_ s').
Proof.
  intros E Hi. run_cases s ev E Ea; cbn [current_agrees] in Hi;
    repeat (case_match; try discriminate E);
    try (injection E as <-; cbn; done).
  injection E as <-. unfold finish. by destruct (termErr s).
Qed.

Definition accounted (s : Supervisor) (src : source) : Prop :=
  held (current s) (at_ s) = Some src ∨ src ∈ closes s.

Lemma run_accounted c s ev s' src :
  run c ev s = Some s' → current_agrees (current s) (at_ s) →
  accounted s src → accounted s' src.
Proof.
  unfold accounted. intros E Hi Ha. run_cases s ev E Ea; cbn [current_agrees held] in Hi, Ha;
    repeat (case_match; try discriminate E);
    try (injection E as <-; cbn; rewrite ?elem_of_app, ?list_elem_of_singleton;
         intuition congruence).
  injection E as <-. unfold finish. by destruct (termErr s).
Qed.

Lemma exec_accounted c evs s s' src :
  exec c s evs = Some s' → current_agrees (current s) (at_ s) →
  accounted s src ∨ FactoryReturns (Some src) None ∈ evs → accounted s' src.
Proof.
  revert s. induction evs as [|ev evs IH]; cbn [exec]; intros s E Hi Ha.
  - injection E as <-. destruct Ha as [Ha|Ha]; [done | by apply not_elem_of_nil in Ha].
  - destruct (step c s ev) as [s1|] eqn:Es; [|done]. unfold step in Es.
    apply (IH s1 E); destruct (is_shutdown ev) eqn:Ev.
    + by apply initiateShutdown_frame in Es as (-> & _ & _ & -> & _).
    + by eapply run_current.
    + rewrite elem_of_cons in Ha. unfold accounted in *.
      apply initiateShutdown_frame in Es as (-> & _ & _ & -> & -> & _).
      destruct Ha as [Ha|[<-|Ha]]; [by left | done | by right].
    + rewrite elem_of_cons in Ha. destruct Ha as [Ha|[<-|Ha]]; [|left|by right].
      * left. by eapply run_accounted.
      * unfold run in Es. left. destruct (at_ s); try discriminate Es. by injection Es as <-.
Qed.

(** No source is leaked.  When the supervisor has ended, in whichever way (a
    shutdown, a fatal error, a panic of the source or of the policy, even one
    that escapes the recovery), [Close] was called on every source the factory
    ever delivered, and no source is current. *)
Theorem sources_closed (c : Config) (evs : list event) (s : Supervisor)
    (E : exec c New evs = Some s) (Hend : at_ s = Exited ∨ at_ s = Crashed) :
  (∀ src, FactoryReturns (Some src) None ∈ evs → src ∈ closes s) ∧ current s = None.
Proof.
  split.
  - intros src Hin. destruct (exec_accounted c evs New s src E eq_refl (or_intror Hin)) as [Hh|]; [|done].
    by destruct Hend as [Ha|Ha]; rewrite Ha in Hh.
  - assert (Hi : current_agrees (current s) (at_ s)).
    { clear Hend. revert E. generalize (eq_refl : current_agrees (current New) (at_ New)).
      generalize New. induction evs as [|ev evs IH]; cbn [exec]; intros s0 Hi E.
      - by injection E as <-.
      - destruct (step c s0 ev) as [s1|] eqn:Es; [|done]. apply (IH s1); [|done].
        unfold step in Es. destruct (is_shutdown ev).
        + by apply initiateShutdown_frame in Es as (-> & _ & _ & -> & _).
        + by eapply run_current. }
    by destruct Hend as [Ha|Ha]; rewrite Ha in Hi.
Qed.

Lemma sources_closed_witness :
  (∀ src, FactoryReturns (Some src) None ∈ demo → src ∈ [1%nat]) ∧ None = @None source.
Proof. exact (sources_closed demo_config demo demo_end demo_run (or_introl eq_refl)). Defined.
End supervisor.
