(* ===== verification/Latm.v ===== *)
(** * The MP4A-LATM depacketizer: [depacket/latm/latm.go], [streammuxconfig.go],
    [depacketize.go]

    A bit reader over the payload, the StreamMuxConfig and AudioSpecificConfig
    parsers, and the two payload forms: out-of-band (byte-aligned) and in-band
    (shifted by the configuration bits).  The retained AudioSpecificConfig lives
    in one of two buffers that are swapped at each configuration, so the buffers
    are modelled as a store and the slices as addresses into it. *)
From S2P Require Import Prelude Bytes.

Module latm.

Definition MaxSubFrames : Z := 64.
Definition MaxMuxSlotBytes : Z := 64 * 1024.
Definition MaxStreamMuxConfigBytes : Z := 512.
Definition MaxMuxElements : Z := 64.

Inductive err :=
  | ErrConfigInvalid | ErrUnsupportedMux | ErrUnsupportedASC | ErrNoConfig | ErrTruncated
  | ErrPayloadOverflow.

(** ** Bits *)
Record bitReader := mkReader { buf : list Z; pos : Z }.

(** [read]: every caller turns [!ok] into [ErrTruncated]. *)
Definition read (n : Z) (r : bitReader) : res err (Z * bitReader) :=
  if n =? 0 then mret (0, r)
  else if blen (buf r) * 8 <? pos r + n then Err ErrTruncated
  else
    v ← bits_at (buf r) (pos r) n;
    mret (v, mkReader (buf r) (pos r + n)).

Definition byteAlign (r : bitReader) : bitReader :=
  let rem := pos r mod 8 in
  if rem =? 0 then r else mkReader (buf r) (pos r + (8 - rem)).

(** One destination byte of [blitBits]; [shift] is not 0. *)
Definition blit_byte (b : list Z) (sb shift j : Z) : res err Z :=
  x ← byte_at b (sb + j);
  lo ← (if sb + j + 1 <? blen b then y ← byte_at b (sb + j + 1); mret (Z.shiftr y (8 - shift))
        else mret 0);
  mret (Z.lor (u8 (Z.shiftl x shift)) lo).

Fixpoint blit_loop (n : nat) (b : list Z) (sb shift j : Z) : res err (list Z) :=
  match n with
  | O => mret []
  | S n => x ← blit_byte b sb shift j; l ← blit_loop n b sb shift (j + 1); mret (x :: l)
  end.

(** The mask of the last byte: [&^ byte(0xFF >> rem)]. *)
Definition mask_last (rem : Z) (l : list Z) : list Z :=
  match l !! (length l - 1)%nat with
  | Some x => take (length l - 1) l ++ [Z.ldiff x (Z.shiftr 0xFF rem)]
  | None => l
  end.

(** [blitBits]: the [size] bytes it writes into [dst]. *)
Definition blitBits (size : Z) (b : list Z) (start n : Z) : res err (list Z) :=
  if n =? 0 then mret (replicate (Z.to_nat size) 0)
  else
    let sb := start / 8 in
    let shift := start mod 8 in
    out ← (if shift =? 0 then slice b sb (sb + size)
           else blit_loop (Z.to_nat size) b sb shift 0);
    let rem := Z.land n 7 in
    mret (if rem =? 0 then out else mask_last rem out).

(** ** Byte buffers

    A slice is the prefix of length [len] of the array at [addr]; the array's
    length is its capacity.  [None] is the nil slice. *)
Record ref := mkRef { addr : nat; len : Z }.
Abbreviation store := (list (list Z)).

Definition array (m : store) (s : option ref) : list Z :=
  match s with Some s => default [] (m !! addr s) | None => [] end.
Definition contents (m : store) (s : option ref) : list Z :=
  match s with Some s' => take (Z.to_nat (len s')) (array m s) | None => [] end.
Definition cap (m : store) (s : option ref) : Z := blen (array m s).

Definition extractBitsInto (m : store) (dst : option ref) (b : list Z) (start n : Z)
    : res err (store * option ref) :=
  let size := (n + 7) / 8 in
  out ← blitBits size b start n;
  match dst with
  | Some d =>
      if cap m dst <? size then mret (m ++ [out], Some (mkRef (length m) size))
      else mret (<[addr d := out ++ drop (Z.to_nat size) (array m dst)]> m, Some (mkRef (addr d) size))
  | None => mret (m ++ [out], Some (mkRef (length m) size))
  end.

(** ** StreamMuxConfig *)
Record streamMuxConfig := mkSMC { numSubFrames : Z; frameLengthType : Z }.

(** The fields before the AudioSpecificConfig. *)
Definition parse_head (r : bitReader) : res err (Z * bitReader) :=
  '(audioMuxVersion, r) ← read 1 r;
  if negb (audioMuxVersion =? 0) then Err ErrUnsupportedMux else
  '(allStreamsSameTimeFraming, r) ← read 1 r;
  if negb (allStreamsSameTimeFraming =? 1) then Err ErrUnsupportedMux else
  '(nsub, r) ← read 6 r;
  if MaxSubFrames <? nsub + 1 then Err ErrUnsupportedMux else
  '(numProgram, r) ← read 4 r;
  if negb (numProgram =? 0) then Err ErrUnsupportedMux else
  '(numLayer, r) ← read 3 r;
  if negb (numLayer =? 0) then Err ErrUnsupportedMux else
  mret (nsub, r).

Definition ga_object (aot : Z) : bool :=
  (aot =? 1) || (aot =? 2) || (aot =? 3) || (aot =? 4) || (aot =? 6) || (aot =? 7).

(** The fields of [parseASC]: the frame length and the reader after them. *)
Definition asc_fields (r : bitReader) : res err (Z * bitReader) :=
  '(aot, r) ← read 5 r;
  '(aot, r) ← (if aot =? 31 then '(esc, r) ← read 6 r; mret (32 + esc, r) else mret (aot, r));
  if negb (ga_object aot) then Err ErrUnsupportedASC else
  '(sfi, r) ← read 4 r;
  r ← (if sfi =? 15 then '(_, r) ← read 24 r; mret r else mret r);
  '(channelConfiguration, r) ← read 4 r;
  if channelConfiguration =? 0 then Err ErrUnsupportedASC else
  '(frameLengthFlag, r) ← read 1 r;
  '(dependsOnCoreCoder, r) ← read 1 r;
  r ← (if dependsOnCoreCoder =? 1 then '(_, r) ← read 14 r; mret r else mret r);
  '(extensionFlag, r) ← read 1 r;
  if extensionFlag =? 1 then Err ErrUnsupportedASC else
  mret (if frameLengthFlag =? 1 then 960 else 1024, r).

Definition parseASC (m : store) (r : bitReader) (ascDst : option ref)
    : res err (store * option ref * Z * bitReader) :=
  '(frameLength, r') ← asc_fields r;
  '(m, asc) ← extractBitsInto m ascDst (buf r) (pos r) (pos r' - pos r);
  mret (m, asc, frameLength, r').

(** The escape loop of [otherDataPresent]. *)
Fixpoint other_data (fuel : nat) (r : bitReader) : res err bitReader :=
  match fuel with
  | O => Panic
  | S fuel =>
      '(esc, r) ← read 1 r;
      '(_, r) ← read 8 r;
      if esc =? 0 then mret r else other_data fuel r
  end.

(** The fields after it. *)
Definition parse_tail (r : bitReader) : res err (Z * bitReader) :=
  '(flt, r) ← read 3 r;
  if negb (flt =? 0) then Err ErrUnsupportedMux else
  '(_, r) ← read 8 r;
  '(otherDataPresent, r) ← read 1 r;
  r ← (if otherDataPresent =? 1 then other_data (S (8 * length (buf r))) r else mret r);
  '(crcCheckPresent, r) ← read 1 r;
  r ← (if crcCheckPresent =? 1 then '(_, r) ← read 8 r; mret r else mret r);
  mret (flt, r).

(** [parseStreamMuxConfigBits]: the store is returned on failure too, since a
    configuration that is refused after its AudioSpecificConfig has already
    overwritten the scratch buffer. *)
Definition parseStreamMuxConfigBits (m : store) (r : bitReader) (ascDst : option ref)
    : store * res err (streamMuxConfig * option ref * Z * bitReader) :=
  match (nr ← parse_head r; let '(nsub, r) := nr : Z * bitReader in
         p ← parseASC m r ascDst; mret (nsub, p)) with
  | Err e => (m, Err e)
  | Panic => (m, Panic)
  | Ok (nsub, (m, asc, frameLength, r)) =>
      (m, '(flt, r) ← parse_tail r; mret (mkSMC nsub flt, asc, frameLength, r))
  end.

Definition parseStreamMuxConfig (m : store) (b : list Z)
    : store * res err (streamMuxConfig * option ref * Z * bitReader) :=
  let b := if MaxStreamMuxConfigBytes <? blen b
           then take (Z.to_nat MaxStreamMuxConfigBytes) b else b in
  parseStreamMuxConfigBits m (mkReader b 0) None.

(** ** The depacketizer *)
Record Config := mkConfig {
  MuxConfigPresent : bool; StreamMuxConfig : list Z; SamplesPerFrame : Z
}.
Record AU := mkAU { Data : list Z; RTPOffset : Z }.
Record Depacketizer := mkDepack {
  cfg : Config; smc : streamMuxConfig; haveSMC : bool; asc : option ref; frameLength : Z;
  ascBuf : option ref; mem : store
}.

Definition install (d : Depacketizer) (smc' : streamMuxConfig) (asc' : option ref) (fl : Z)
    (ascBuf' : option ref) (m : store) : Depacketizer :=
  mkDepack (cfg d) smc' true asc' fl ascBuf' m.
Definition with_mem (d : Depacketizer) (m : store) : Depacketizer :=
  mkDepack (cfg d) (smc d) (haveSMC d) (asc d) (frameLength d) (ascBuf d) m.

Definition applySeed (d : Depacketizer) : res err Depacketizer :=
  if blen (StreamMuxConfig (cfg d)) =? 0 then mret d
  else
    match parseStreamMuxConfig (mem d) (StreamMuxConfig (cfg d)) with
    | (m, Ok (s, a, fl, _)) => mret (install d s a fl (ascBuf d) m)
    | (m, Err _) => mret (with_mem d m)
    | (_, Panic) => Panic
    end.

Definition New (c : Config) : res err Depacketizer :=
  if (SamplesPerFrame c <? 0) || (8192 <? SamplesPerFrame c) then Err ErrConfigInvalid
  else
    let d := mkDepack c (mkSMC 0 0) false None 0 None [] in
    if MuxConfigPresent c then applySeed d
    else if blen (StreamMuxConfig c) =? 0 then Err ErrConfigInvalid
    else
      match parseStreamMuxConfig [] (StreamMuxConfig c) with
      | (m, Ok (s, a, fl, _)) => mret (install d s a fl None m)
      | (_, Err e) => Err e
      | (_, Panic) => Panic
      end.

Definition AudioSpecificConfig (d : Depacketizer) : option (list Z) :=
  if haveSMC d then Some (contents (mem d) (asc d)) else None.

Definition Reset (d : Depacketizer) : res err Depacketizer :=
  if negb (MuxConfigPresent (cfg d)) then mret d
  else
    let scratch := if cap (mem d) (ascBuf d) <? cap (mem d) (asc d) then asc d else ascBuf d in
    applySeed (mkDepack (cfg d) (mkSMC 0 0) false None 0 scratch (mem d)).

(** ** Payloads *)

(** The byte sum of a MuxSlotLengthBytes. *)
Fixpoint slot_length (fuel : nat) (payload : list Z) (offset length : Z) : res err (Z * Z) :=
  match fuel with
  | O => Panic
  | S fuel =>
      if blen payload <=? offset then Err ErrTruncated else
      b ← byte_at payload offset;
      let length := length + b in
      if MaxMuxSlotBytes <? length then Err ErrPayloadOverflow
      else if negb (b =? 0xFF) then mret (length, offset + 1)
      else slot_length fuel payload (offset + 1) length
  end.

Definition readMuxSlot (payload : list Z) (offset : Z) : res err (list Z * Z) :=
  '(length, offset) ← slot_length (S (List.length payload)) payload offset 0;
  if blen payload <? offset + length then Err ErrPayloadOverflow
  else data ← slice payload offset (offset + length); mret (data, offset + length).

Definition subFrameLayout (d : Depacketizer) : res err Z :=
  if MaxSubFrames <? numSubFrames (smc d) + 1 then Err ErrUnsupportedMux
  else
    let ticks := u32 (SamplesPerFrame (cfg d)) in
    mret (if ticks =? 0 then frameLength d else ticks).

(** The subframes of one element, from index [i] on; [n] of them are left. *)
Fixpoint element (n : nat) (payload : list Z) (offset base ticks i : Z)
    : res err (list AU * Z) :=
  match n with
  | O => mret ([], offset)
  | S n =>
      '(data, next) ← readMuxSlot payload offset;
      '(aus, offset) ← element n payload next base ticks (i + 1);
      mret (mkAU data (u32 (base + u32 (i * ticks))) :: aus, offset)
  end.

Definition allZero (b : list Z) : bool := forallb (λ x, x =? 0) b.

(** The outer loop, from element number [elem] on; [aus] are those delivered. *)
Fixpoint elements (fuel : nat) (nsub : Z) (payload : list Z) (offset base ticks elem : Z)
    (aus : list AU) : res err (list AU + err) :=
  match fuel with
  | O => Panic
  | S fuel =>
      if MaxMuxElements <=? elem then mret (inl aus)
      else
        match element (Z.to_nat (nsub + 1)) payload offset base ticks 0 with
        | Panic => Panic
        | Err e => mret (if elem =? 0 then inr e else inl aus)
        | Ok (new, offset) =>
            let aus := aus ++ new in
            let base := u32 (base + u32 ((nsub + 1) * ticks)) in
            if blen payload <=? offset then mret (inl aus)
            else
              rest ← slice_from payload offset;
              if allZero rest then mret (inl aus)
              else elements fuel nsub payload offset base ticks (elem + 1) aus
        end
  end.

Definition depacketizeOutOfBand (d : Depacketizer) (payload : list Z) : res err (list AU + err) :=
  if negb (haveSMC d) then mret (inr ErrNoConfig)
  else
    match subFrameLayout d with
    | Panic => Panic
    | Err e => mret (inr e)
    | Ok ticks => elements 66 (numSubFrames (smc d)) payload 0 0 ticks 0 []
    end.

(** The byte sum, in the bit stream. *)
Fixpoint slot_length_bits (fuel : nat) (r : bitReader) (length : Z) : res err (Z * bitReader) :=
  match fuel with
  | O => Panic
  | S fuel =>
      '(b, r) ← read 8 r;
      let length := length + b in
      if MaxMuxSlotBytes <? length then Err ErrPayloadOverflow
      else if negb (b =? 0xFF) then mret (length, r)
      else slot_length_bits fuel r length
  end.

(** The subframes of one in-band element; [appendBits] returns the new region. *)
Fixpoint element_bits (n : nat) (r : bitReader) (base ticks i : Z) : res err (list AU * bitReader) :=
  match n with
  | O => mret ([], r)
  | S n =>
      '(length, r) ← slot_length_bits (S (List.length (buf r))) r 0;
      if blen (buf r) * 8 <? pos r + length * 8 then Err ErrPayloadOverflow
      else
        data ← blitBits ((length * 8 + 7) / 8) (buf r) (pos r) (length * 8);
        '(aus, r) ← element_bits n (mkReader (buf r) (pos r + length * 8)) base ticks (i + 1);
        mret (mkAU data (u32 (base + u32 (i * ticks))) :: aus, r)
  end.

(** What [depacketizeInBandElement] does before the subframes: the configuration
    it retains, and the reader after it. *)
Definition mux_config (d : Depacketizer) (r : bitReader) : Depacketizer * res err bitReader :=
  match read 1 r with
  | Err e => (d, Err e)
  | Panic => (d, Panic)
  | Ok (useSameStreamMux, r) =>
      if useSameStreamMux =? 0 then
        match parseStreamMuxConfigBits (mem d) r (ascBuf d) with
        | (m, Err e) => (with_mem d m, Err e)
        | (m, Panic) => (with_mem d m, Panic)
        | (m, Ok (s, a, fl, r)) => (install d s a fl (asc d) m, Ok r)
        end
      else if negb (haveSMC d) then (d, Err ErrNoConfig)
      else (d, Ok r)
  end.

Definition depacketizeInBandElement (d : Depacketizer) (r : bitReader) (base : Z)
    : Depacketizer * res err (list AU * bitReader * Z) :=
  match mux_config d r with
  | (d, Err e) => (d, Err e)
  | (d, Panic) => (d, Panic)
  | (d, Ok r) =>
      (d, ticks ← subFrameLayout d;
          '(aus, r) ← element_bits (Z.to_nat (numSubFrames (smc d) + 1)) r base ticks 0;
          mret (aus, byteAlign r, u32 ((numSubFrames (smc d) + 1) * ticks)))
  end.

Fixpoint elements_bits (fuel : nat) (d : Depacketizer) (r : bitReader) (base elem : Z)
    (aus : list AU) : res err (Depacketizer * (list AU + err)) :=
  match fuel with
  | O => Panic
  | S fuel =>
      if MaxMuxElements <=? elem then mret (d, inl aus)
      else
        match depacketizeInBandElement d r base with
        | (_, Panic) => Panic
        | (d, Err e) => mret (d, if elem =? 0 then inr e else inl aus)
        | (d, Ok (new, r, span)) =>
            let aus := aus ++ new in
            let base := u32 (base + span) in
            if blen (buf r) * 8 <=? pos r then mret (d, inl aus)
            else
              rest ← slice_from (buf r) (pos r / 8);
              if allZero rest then mret (d, inl aus)
              else elements_bits fuel d r base (elem + 1) aus
        end
  end.

Definition Depacketize (d : Depacketizer) (payload : list Z) : res err (Depacketizer * (list AU + err)) :=
  if MuxConfigPresent (cfg d) then elements_bits 66 d (mkReader payload 0) 0 0 []
  else aus ← depacketizeOutOfBand d payload; mret (d, aus).

#[local] Arguments read : simpl never.
#[local] Arguments blitBits : simpl never.

(** ** The reader reads fields *)
Record reader_ok (r : bitReader) : Prop := {
  ro_bytes : bytes_ok (buf r);
  ro_pos : 0 ≤ pos r ≤ 8 * blen (buf r)
}.

Lemma read_spec n r :
  reader_ok r → 0 ≤ n ≤ 32 →
  read n r = if 8 * blen (buf r) <? pos r + n then Err ErrTruncated
             else Ok (field (buf r) (pos r) n, mkReader (buf r) (pos r + n)).
Proof.
  intros [Hb Hp] Hn. unfold read. rewrite (Z.mul_comm (blen (buf r)) 8).
  destruct (Z.eqb_spec n 0) as [->|].
  - destruct (Z.ltb_spec (8 * blen (buf r)) (pos r + 0)); [lia|].
    unfold field. rewrite Z.mod_1_r, Z.add_0_r. by destruct r.
  - destruct (Z.ltb_spec (8 * blen (buf r)) (pos r + n)); [done|].
    by rewrite bits_at_field by (done || lia).
Qed.

(** [m] reads on from [r]: it does not panic, and a value leaves the reader on the
    same buffer, further on, with [Q]. *)
Definition reads {A} (r : bitReader) (Q : A → bitReader → Prop) (m : res err (A * bitReader)) : Prop :=
  match m with
  | Ok (a, r') => buf r' = buf r ∧ pos r ≤ pos r' ∧ reader_ok r' ∧ Q a r'
  | Err _ => True
  | Panic => False
  end.
Definition any {A} (_ : A) (_ : bitReader) : Prop := True.

Lemma reads_read n r :
  reader_ok r → 0 ≤ n ≤ 32 → reads r (λ v r', 0 ≤ v < 2 ^ n ∧ pos r' = pos r + n) (read n r).
Proof.
  intros Hr Hn. rewrite read_spec by done. destruct (Z.ltb_spec (8 * blen (buf r)) (pos r + n)); [done|].
  destruct Hr as [Hb Hp]. cbn. split_and!; try done; try lia; try (apply field_range; lia).
  split; cbn; [done|lia].
Qed.

Lemma reads_bind {A B} r (Q : A → bitReader → Prop) (R : B → bitReader → Prop) m f :
  reads r Q m →
  (∀ a r', buf r' = buf r → pos r ≤ pos r' → reader_ok r' → Q a r' → reads r' R (f (a, r'))) →
  reads r R (m ≫= f).
Proof.
  intros Hm Hf. destruct m as [[a r']|e|]; cbn in *; [|done|done].
  destruct Hm as (Hb & Hp & Hr & Hq). specialize (Hf a r' Hb Hp Hr Hq).
  destruct (f (a, r')) as [[b r'']|e|]; cbn in *; try done.
  destruct Hf as (Hb' & Hp' & Hr' & HR). split_and!; try done; [congruence|lia].
Qed.

Lemma reads_weaken {A} r (Q R : A → bitReader → Prop) m :
  reads r Q m → (∀ a r', buf r' = buf r → pos r ≤ pos r' → Q a r' → R a r') → reads r R m.
Proof.
  intros Hm HQ. destruct m as [[a r']|e|]; cbn in *; [|done|done].
  destruct Hm as (? & ? & ? & ?). split_and!; eauto.
Qed.

Lemma reads_ret {A} r (Q : A → bitReader → Prop) a :
  reader_ok r → Q a r → reads r Q (mret (a, r)).
Proof. cbn. intros Hr HQ. split_and!; (done || lia). Qed.

(** The parsers bind readers without a value: pair them with [tt]. *)
Definition reads' (r : bitReader) (m : res err bitReader) : Prop :=
  match m with
  | Ok r' => buf r' = buf r ∧ pos r ≤ pos r' ∧ reader_ok r'
  | Err _ => True
  | Panic => False
  end.
Lemma reads'_bind {B} r (R : B → bitReader → Prop) m f :
  reads' r m →
  (∀ r', buf r' = buf r → pos r ≤ pos r' → reader_ok r' → reads r' R (f r')) →
  reads r R (m ≫= f).
Proof.
  intros Hm Hf. destruct m as [r'|e|]; cbn in *; [|done|done].
  destruct Hm as (Hb & Hp & Hr). specialize (Hf r' Hb Hp Hr).
  destruct (f r') as [[b r'']|e|]; cbn in *; try done.
  destruct Hf as (Hb' & Hp' & Hr' & HR). split_and!; try done; [congruence|lia].
Qed.
Lemma reads'_skip r n : reader_ok r → 0 ≤ n ≤ 32 → reads' r ('(_, r) ← read n r; mret r).
Proof.
  intros Hr Hn. pose proof (reads_read n r Hr Hn) as H.
  destruct (read n r) as [[a r']|e|]; cbn in *; [|done|done].
  destruct H as (? & ? & ? & _). done.
Qed.
Lemma reads'_ret r : reader_ok r → reads' r (mret r).
Proof. cbn. intros. split_and!; (done || lia). Qed.

Ltac reads_step :=
  match goal with
  | |- reads _ _ (read _ _ ≫= _) => eapply reads_bind; [apply reads_read; (done || lia)|intros ? ? ? ? ? [? ?]]
  | |- reads _ _ (if ?b then _ else _) => destruct b eqn:?; [done|]
  | |- reads _ _ ((if ?b then ('(_, r) ← read _ ?x; mret r) else mret ?x) ≫= _) =>
      eapply reads'_bind; [destruct b; [apply reads'_skip; (done || lia)|by apply reads'_ret]|intros ? ? ? ?]
  end.

Lemma parse_head_reads r :
  reader_ok r → reads r (λ nsub _, 0 ≤ nsub < 64) (parse_head r).
Proof.
  intros Hr. unfold parse_head. repeat reads_step. apply reads_ret; [done|]. lia.
Qed.

Lemma asc_fields_reads r :
  reader_ok r → reads r (λ fl r', (fl = 1024 ∨ fl = 960) ∧ pos r < pos r') (asc_fields r).
Proof.
  intros Hr. unfold asc_fields. reads_step.
  eapply reads_bind with (Q := any).
  { destruct (a =? 31); [|by apply reads_ret].
    reads_step. by apply reads_ret. }
  intros aot r1 Hb1 Hp1 Hr1 _. repeat reads_step.
  apply reads_ret; [done|]. cbv beta. split; [|lia]. destruct (a2 =? 1); [by right | by left].
Qed.

Lemma other_data_reads fuel : ∀ r,
  reader_ok r → 8 * blen (buf r) - pos r < Z.of_nat fuel → reads' r (other_data fuel r).
Proof.
  induction fuel as [|fuel IH]; intros r Hr Hf; [destruct Hr; lia|].
  cbn [other_data].
  pose proof (reads_read 1 r Hr ltac:(lia)) as H1.
  destruct (read 1 r) as [[esc r1]|e|]; cbn in H1 |- *; [|done|done].
  destruct H1 as (Hb1 & Hp1 & Hr1 & _ & E1).
  pose proof (reads_read 8 r1 Hr1 ltac:(lia)) as H2.
  destruct (read 8 r1) as [[v r2]|e|]; cbn in H2 |- *; [|done|done].
  destruct H2 as (Hb2 & Hp2 & Hr2 & _ & E2).
  destruct (esc =? 0); [cbn; split_and!; (congruence || lia || done)|].
  specialize (IH r2 Hr2). rewrite Hb2, Hb1 in IH. specialize (IH ltac:(lia)).
  destruct (other_data fuel r2) as [r3|e|]; cbn in IH |- *; [|done|done].
  destruct IH as (? & ? & ?). split_and!; (congruence || lia || done).
Qed.

Lemma parse_tail_reads r : reader_ok r → reads r (λ flt _, flt = 0) (parse_tail r).
Proof.
  intros Hr. unfold parse_tail. repeat reads_step. breflect.
  eapply reads'_bind.
  { destruct (_ =? 1); [|by apply reads'_ret].
    apply other_data_reads; [done|]. destruct H11. unfold blen in *. lia. }
  intros. repeat reads_step. by apply reads_ret.
Qed.

(** ** The bit copy *)
Lemma blit_byte_spec b sb shift j :
  bytes_ok b → 0 < shift < 8 → 0 ≤ sb → 0 ≤ j → sb + j < blen b →
  blit_byte b sb shift j = Ok (field (b ++ [0]) (8 * (sb + j) + shift) 8).
Proof.
  intros Hb Hs Hsb Hj Hl. unfold blit_byte.
  destruct (@byte_at_inside err b (sb + j) ltac:(lia)) as (x & E & Hx). rewrite E, bind_Ok.
  assert (Hx8 : is_u8 x) by (by eapply Forall_lookup_1).
  assert (Hsplit : ∃ pre y post, b ++ [0] = pre ++ [x; y] ++ post ∧ blen pre = sb + j ∧ is_u8 y
    ∧ bytes_ok post
    ∧ (if sb + j + 1 <? blen b then y ← byte_at b (sb + j + 1); mret (Z.shiftr y (8 - shift))
       else mret 0) = @Ok err Z (Z.shiftr y (8 - shift))).
  { destruct (Z.ltb_spec (sb + j + 1) (blen b)).
    - destruct (@byte_at_inside err b (sb + j + 1) ltac:(lia)) as (y & E1 & Hy).
      exists (take (Z.to_nat (sb + j)) b), y, (drop (Z.to_nat (sb + j + 2)) b ++ [0]).
      split_and!.
      + rewrite <- (take_drop (Z.to_nat (sb + j)) b) at 1. rewrite <- app_assoc. f_equal.
        rewrite (drop_S b x) by done.
        replace (S (Z.to_nat (sb + j))) with (Z.to_nat (sb + j + 1)) by lia.
        rewrite (drop_S b y) by done.
        replace (S (Z.to_nat (sb + j + 1))) with (Z.to_nat (sb + j + 2)) by lia. done.
      + apply blen_take. lia.
      + by eapply Forall_lookup_1.
      + apply Forall_app_2; [by apply Forall_drop|]. by repeat constructor.
      + by rewrite E1.
    - exists (take (Z.to_nat (sb + j)) b), 0, [].
      split_and!; [| apply blen_take; lia | done | constructor | by rewrite Z.shiftr_0_l].
      rewrite <- (take_drop (Z.to_nat (sb + j)) b) at 1. rewrite <- app_assoc. f_equal.
      rewrite (drop_S b x) by done. rewrite drop_ge; [done|]. unfold blen in *. lia. }
  destruct Hsplit as (pre & y & post & -> & Hpre & Hy & Hpost & ->). rewrite bind_Ok.
  unfold mret, res_ret. f_equal.
  rewrite field_window; [|apply Forall_cons_2; [done|apply Forall_cons_2; [done|constructor]]|done|lia|lia|].
  2:{ rewrite Hpre. change (blen [x; y]) with 2. lia. }
  replace (8 * (sb + j) + shift - 8 * blen pre) with shift by lia.
  unfold field. change (blen [x; y]) with 2. replace (8 * 2 - shift - 8) with (8 - shift) by lia.
  replace (be_combine [x; y]) with (x * 2 ^ 8 + y) by (cbn; lia).
  pose proof (Z.pow_pos_nonneg 2 shift ltac:(lia) ltac:(lia)).
  pose proof (Z.pow_pos_nonneg 2 (8 - shift) ltac:(lia) ltac:(lia)).
  assert (E8 : 2 ^ 8 = 2 ^ shift * 2 ^ (8 - shift)) by (rewrite <- Z.pow_add_r by lia; f_equal; lia).
  rewrite E8 at 1. rewrite Z.mul_assoc, Z.div_add_l by lia.
  rewrite Z.shiftr_div_pow2, Z.shiftl_mul_pow2 by lia. unfold u8.
  assert (Hq : 0 ≤ y / 2 ^ (8 - shift) < 2 ^ shift).
  { split; [apply Z.div_pos; unfold is_u8 in Hy; lia|]. apply Z.div_lt_upper_bound; unfold is_u8 in Hy; lia. }
  rewrite E8, Z.mul_comm, Z.mul_mod_distr_l by lia.
  rewrite (Z.mul_comm (2 ^ shift) (x mod _)), <- Z.shiftl_mul_pow2, lor_shiftl_add by lia.
  rewrite Z.rem_mul_r by lia.
  rewrite (Z.add_comm (2 ^ shift * x)), (Z.mul_comm (2 ^ shift) x), Z.mod_add, Z.div_add by lia.
  rewrite (Z.mod_small (y / _)), (Z.div_small (y / _)), Z.add_0_l by lia. lia.
Qed.

(** [n] octets of [b] from bit [p] on. *)
Fixpoint octets (n : nat) (b : list Z) (p : Z) : list Z :=
  match n with O => [] | S n => field b p 8 :: octets n b (p + 8) end.

Lemma length_octets n b p : length (octets n b p) = n.
Proof. revert p. induction n as [|n IH]; intros p; cbn; [done|by rewrite IH]. Qed.
Lemma blen_octets n b p : blen (octets n b p) = Z.of_nat n.
Proof. unfold blen. by rewrite length_octets. Qed.
Lemma octets_bytes_ok n b p : bytes_ok (octets n b p).
Proof. revert p. induction n as [|n IH]; intros p; cbn; constructor; [by apply field_range|apply IH]. Qed.

Lemma be_combine_octets n b p :
  p + 8 * Z.of_nat n ≤ 8 * blen b → be_combine (octets n b p) = field b p (8 * Z.of_nat n).
Proof.
  revert p. induction n as [|n IH]; intros p Hp.
  - cbn. unfold field. by rewrite Z.mod_1_r.
  - cbn [octets]. rewrite be_combine_cons, blen_octets, IH by lia.
    rewrite pow256_bits by lia.
    replace (8 * Z.of_nat (S n)) with (8 + 8 * Z.of_nat n) by lia.
    rewrite field_app by lia. done.
Qed.

Lemma bytes_eq l k : bytes_ok l → bytes_ok k → length l = length k → be_combine l = be_combine k → l = k.
Proof.
  intros Hl Hk Hlen E. rewrite <- (be_split_combine l), <- (be_split_combine k) by done. congruence.
Qed.

Lemma octets_aligned (n : nat) b sb :
  bytes_ok b → 0 ≤ sb → sb + Z.of_nat n ≤ blen b →
  @slice err b sb (sb + Z.of_nat n) = Ok (octets n b (8 * sb)).
Proof.
  intros Hb Hsb Hl. destruct (slice b sb (sb + Z.of_nat n)) as [w|e|] eqn:E;
    [|by apply slice_not_err in E|by apply slice_no_panic in E; lia].
  f_equal. pose proof (slice_bytes_ok _ _ _ _ Hb E) as Hw.
  destruct (slice_split _ _ _ _ E) as (pre & post & Eb & Hpre & Hlen).
  apply bytes_eq; [done | apply octets_bytes_ok | |].
  - rewrite length_octets. unfold blen in Hlen. lia.
  - rewrite be_combine_octets by lia. subst b.
    apply Forall_app in Hb as [_ Hb]. apply Forall_app in Hb as [_ Hpost].
    rewrite field_window by (done || lia). rewrite Hpre, Z.sub_diag.
    unfold field. rewrite Hlen. replace (8 * _ - 0 - _) with 0 by lia.
    rewrite Z.div_1_r, Z.mod_small; [done|].
    pose proof (be_combine_range _ Hw) as R. rewrite pow256_bits, Hlen in R by lia.
    replace (sb + Z.of_nat n - sb) with (Z.of_nat n) in R by lia. done.
Qed.

Lemma octets_app_l n b k p :
  bytes_ok b → bytes_ok k → 0 ≤ p → p + 8 * Z.of_nat n ≤ 8 * blen b →
  octets n (b ++ k) p = octets n b p.
Proof.
  intros Hb Hk. revert p. induction n as [|n IH]; intros p Hp Hl; [done|].
  cbn [octets]. rewrite field_app_l, IH by (done || lia). done.
Qed.

Lemma blit_loop_spec n b sb shift : ∀ j,
  bytes_ok b → 0 < shift < 8 → 0 ≤ sb → 0 ≤ j → sb + j + Z.of_nat n ≤ blen b →
  blit_loop n b sb shift j = Ok (octets n (b ++ [0]) (8 * (sb + j) + shift)).
Proof.
  induction n as [|n IH]; intros j Hb Hs Hsb Hj Hl; [done|].
  cbn [blit_loop octets]. rewrite blit_byte_spec, bind_Ok by (done || lia).
  rewrite IH, bind_Ok by (done || lia). do 3 f_equal. lia.
Qed.

(** The unmasked copy is the octets of the source, read past its end as zero. *)
Lemma blit_copy b start (k : nat) :
  bytes_ok b → 0 ≤ start → start + 8 * Z.of_nat k < 8 * blen b + 8 →
  (if start mod 8 =? 0 then slice b (start / 8) (start / 8 + Z.of_nat k)
   else blit_loop k b (start / 8) (start mod 8) 0) = Ok (octets k (b ++ [0]) start).
Proof.
  intros Hb Hs Hl. pose proof (Z.div_mod start 8 ltac:(lia)) as E.
  pose proof (Z.mod_pos_bound start 8 ltac:(lia)).
  assert (Hz : bytes_ok [0]) by (by repeat constructor).
  destruct (Z.eqb_spec (start mod 8) 0) as [E0|E0].
  - rewrite octets_aligned by (done || lia). f_equal.
    replace (8 * (start / 8)) with start by lia.
    rewrite octets_app_l by (done || lia). done.
  - rewrite blit_loop_spec by (done || lia). do 2 f_equal. lia.
Qed.

(** A copy of whole octets. *)
Lemma blitBits_octets b start (k : nat) :
  bytes_ok b → 0 ≤ start → start + 8 * Z.of_nat k ≤ 8 * blen b →
  blitBits (Z.of_nat k) b start (8 * Z.of_nat k) = Ok (octets k b start).
Proof.
  intros Hb Hs Hl. unfold blitBits. destruct (Z.eqb_spec (8 * Z.of_nat k) 0) as [E|E].
  { assert (k = 0%nat) as -> by lia. done. }
  rewrite Nat2Z.id, blit_copy, bind_Ok by (done || lia).
  assert (Z.land (8 * Z.of_nat k) 7 = 0) as ->.
  { change 7 with (Z.ones 3). rewrite Z.land_ones by lia. change (2 ^ 3) with 8.
    rewrite Z.mul_comm. apply Z.mod_mul. lia. }
  change (0 =? 0) with true. cbv [mret res_ret].
  rewrite octets_app_l; [done | done | by repeat constructor | lia | lia].
Qed.

Lemma ldiff_mask x rem : is_u8 x → 0 < rem < 8 →
  Z.ldiff x (Z.shiftr 0xFF rem) = x / 2 ^ (8 - rem) * 2 ^ (8 - rem).
Proof.
  intros Hx Hr. apply Z.eqb_eq.
  pose proof (byte_forall (λ x, forallb (λ rem, (rem =? 0) ||
    (Z.ldiff x (Z.shiftr 0xFF rem) =? x / 2 ^ (8 - rem) * 2 ^ (8 - rem))) (seqZ 0 8))
    ltac:(vm_compute; reflexivity) x Hx) as H.
  pose proof (range_forall 8 _ H rem ltac:(lia)) as H'. clear H. rename H' into H.
  cbv beta in H. apply orb_true_iff in H as [H|H]; [breflect; lia | done].
Qed.

(** The general copy: the [n] bits, left-justified in whole octets. *)
Lemma blitBits_spec b start n :
  bytes_ok b → 0 ≤ start → 0 < n → start + n ≤ 8 * blen b →
  ∃ out, blitBits ((n + 7) / 8) b start n = Ok out ∧ blen out = (n + 7) / 8 ∧ bytes_ok out
    ∧ be_combine out = field b start n * 2 ^ (8 * blen out - n).
Proof.
  intros Hb Hs Hn Hl. set (size := (n + 7) / 8).
  assert (Hsz : 8 * size - 8 < n ≤ 8 * size) by (unfold size; Z.div_mod_to_equations; lia).
  assert (Hz : bytes_ok [0]) by (by repeat constructor).
  unfold blitBits. destruct (Z.eqb_spec n 0); [lia|].
  pose proof (blit_copy b start (Z.to_nat size) Hb Hs ltac:(lia)) as Hc.
  rewrite Z2Nat.id in Hc by lia. rewrite Hc, bind_Ok.
  set (o := octets (Z.to_nat size) (b ++ [0]) start).
  assert (Ho : be_combine o = field (b ++ [0]) start (8 * size)).
  { unfold o. rewrite be_combine_octets by (rewrite blen_app; change (blen [0]) with 1; lia).
    by rewrite Z2Nat.id by lia. }
  assert (Hlen : blen o = size) by (unfold o; rewrite blen_octets; lia).
  assert (Hok : bytes_ok o) by apply octets_bytes_ok.
  assert (Hrem : Z.land n 7 = n - 8 * (n / 8)).
  { change 7 with (Z.ones 3). rewrite Z.land_ones by lia. change (2 ^ 3) with 8.
    pose proof (Z.div_mod n 8). lia. }
  assert (Hsplit : be_combine o =
    field b start n * 2 ^ (8 * size - n) + field (b ++ [0]) (start + n) (8 * size - n)).
  { rewrite Ho. replace (8 * size) with (n + (8 * size - n)) at 1 by lia.
    rewrite field_app by (rewrite ?blen_app; change (blen [0]) with 1; lia).
    rewrite field_app_l by (done || lia). done. }
  pose proof (field_range (b ++ [0]) (start + n) (8 * size - n) ltac:(lia)) as Hlow.
  destruct (Z.eqb_spec (Z.land n 7) 0) as [E|E].
  - exists o. split; [done|]. split; [done|]. split; [done|]. rewrite Hlen, Hsplit.
    replace (8 * size - n) with 0 in * by (unfold size in *; Z.div_mod_to_equations; lia). lia.
  - destruct (o !! (length o - 1)%nat) as [x|] eqn:Ex.
    2:{ apply lookup_ge_None in Ex. unfold blen in Hlen. lia. }
    unfold mask_last. rewrite Ex.
    assert (Eo : o = take (length o - 1) o ++ [x]).
    { rewrite <- (take_drop (length o - 1) o) at 1. f_equal. rewrite (drop_S o x) by done.
      rewrite drop_ge; [done|]. unfold blen in Hlen. lia. }
    assert (Hinit : bytes_ok (take (length o - 1) o)) by (by apply Forall_take).
    generalize dependent (take (length o - 1) o). intros init Eo Hinit.
    assert (Hx : is_u8 x) by (exact (Forall_lookup_1 _ _ _ _ Hok Ex)).
    set (rem := Z.land n 7) in *. clearbody rem.
    assert (Hr : 0 < rem < 8 ∧ 8 * size - n = 8 - rem)
      by (unfold size in *; Z.div_mod_to_equations; lia).
    destruct Hr as [Hr Hpad]. rewrite Hpad in *.
    eexists. split; [done|].
    assert (Hl' : blen (init ++ [Z.ldiff x (Z.shiftr 255 rem)]) = size)
      by (rewrite blen_app; rewrite Eo, blen_app in Hlen; exact Hlen).
    split; [done|]. rewrite Hl', Hpad, ldiff_mask by done.
    pose proof (Z.pow_pos_nonneg 2 (8 - rem) ltac:(lia) ltac:(lia)) as Hp.
    pose proof (Z.div_mod x (2 ^ (8 - rem)) ltac:(lia)) as Dx.
    pose proof (Z.mod_pos_bound x (2 ^ (8 - rem)) Hp) as Mx.
    split.
    + apply Forall_app_2; [done|]. apply Forall_cons_2; [|constructor]. unfold is_u8 in *.
      split; [apply Z.mul_nonneg_nonneg; [apply Z.div_pos; lia|lia]|lia].
    + rewrite be_combine_snoc. rewrite Eo, be_combine_snoc in Hsplit.
      assert (E256 : 256 = 2 ^ rem * 2 ^ (8 - rem))
        by (rewrite <- Z.pow_add_r by lia; replace (rem + (8 - rem)) with 8 by lia; reflexivity).
      rewrite E256 in Hsplit |- *. generalize dependent (2 ^ (8 - rem)). intros P **.
      generalize dependent (2 ^ rem). intros Q **.
      destruct (Z.div_mod_unique P (be_combine init * Q + x / P) (field b start n) (x mod P)
        (field (b ++ [0]) (start + n) (8 - rem))) as [<- _]; [lia | lia | lia | lia].
Qed.

(** ** Slots *)
Lemma slot_length_spec fuel payload : ∀ off l,
  bytes_ok payload → 0 ≤ off ≤ blen payload → 0 ≤ l → blen payload - off < Z.of_nat fuel →
  match slot_length fuel payload off l with
  | Ok (l', off') => off < off' ≤ blen payload ∧ l ≤ l' ≤ MaxMuxSlotBytes
  | Err _ => True
  | Panic => False
  end.
Proof.
  induction fuel as [|fuel IH]; intros off l Hb Ho Hl Hf.
  - lia.
  - cbn [slot_length]. destruct (Z.leb_spec (blen payload) off); [done|].
    destruct (@byte_at_inside err payload off ltac:(lia)) as (b & -> & Hbl). rewrite bind_Ok. cbv zeta.
    assert (Hb8 : is_u8 b) by (exact (Forall_lookup_1 _ _ _ _ Hb Hbl)). unfold is_u8 in Hb8.
    destruct (Z.ltb_spec MaxMuxSlotBytes (l + b)); [done|].
    destruct (Z.eqb_spec b 0xFF); cbn [negb]; [|cbn; lia].
    specialize (IH (off + 1) (l + b) Hb ltac:(lia) ltac:(lia) ltac:(lia)).
    destruct (slot_length fuel payload (off + 1) (l + b)) as [[l' off']|e'|]; [lia|done|done].
Qed.

(** More fuel changes nothing. *)
Lemma slot_length_mono fuel payload : ∀ k off l,
  slot_length fuel payload off l ≠ Panic →
  slot_length (fuel + k) payload off l = slot_length fuel payload off l.
Proof.
  induction fuel as [|fuel IH]; intros k off l H; [done|].
  cbn [slot_length Nat.add] in *. destruct (blen payload <=? off); [done|].
  destruct (byte_at payload off) as [b|e|]; cbn in *; [|done|done].
  destruct (MaxMuxSlotBytes <? l + b); [done|]. destruct (negb (b =? 255)); [done|].
  by apply IH.
Qed.

Lemma readMuxSlot_spec payload off :
  bytes_ok payload → 0 ≤ off ≤ blen payload →
  match readMuxSlot payload off with
  | Ok (data, next) => off < next ≤ blen payload ∧ blen data ≤ MaxMuxSlotBytes
      ∧ ∃ pre post, payload = pre ++ data ++ post ∧ next = blen pre + blen data
  | Err _ => True
  | Panic => False
  end.
Proof.
  intros Hb Ho. unfold readMuxSlot.
  pose proof (slot_length_spec (S (length payload)) payload off 0 Hb Ho ltac:(lia)
    ltac:(unfold blen in *; lia)) as H.
  destruct (slot_length _ _ _ _) as [[l off']|e|]; cbn; [|done|done].
  destruct (Z.ltb_spec (blen payload) (off' + l)); [done|].
  rewrite slice_ok, bind_Ok by lia. cbn.
  replace (off' + l - off') with l by lia.
  assert (Hd : blen (take (Z.to_nat l) (drop (Z.to_nat off') payload)) = l)
    by (rewrite blen_take; [done|rewrite blen_drop by lia; lia]).
  rewrite Hd. split_and!; [lia|lia|lia|].
  exists (take (Z.to_nat off') payload), (drop (Z.to_nat l) (drop (Z.to_nat off') payload)).
  rewrite take_drop, take_drop. split; [done|]. rewrite blen_take; lia.
Qed.

Lemma element_spec n payload base ticks : ∀ off i,
  bytes_ok payload → 0 ≤ off ≤ blen payload →
  match element n payload off base ticks i with
  | Ok (aus, off') => off ≤ off' ≤ blen payload ∧ length aus = n
      ∧ Forall (λ a, blen (Data a) ≤ MaxMuxSlotBytes) aus
  | Err _ => True
  | Panic => False
  end.
Proof.
  induction n as [|n IH]; intros off i Hb Ho; cbn [element].
  - cbn. split_and!; (lia || constructor).
  - pose proof (readMuxSlot_spec payload off Hb Ho) as H.
    destruct (readMuxSlot payload off) as [[data next]|e|]; cbn; [|done|done].
    destruct H as (Hn & Hd & _). specialize (IH next (i + 1) Hb ltac:(lia)).
    destruct (element n payload next base ticks (i + 1)) as [[aus off']|e|]; cbn; [|done|done].
    destruct IH as (? & Hl & Ha). split_and!; [lia|lia|by rewrite Hl|by constructor].
Qed.

(** ** The in-band form is the out-of-band form, shifted *)

(** The whole octets of [b] from bit [p] on. *)
Definition tail_octets (b : list Z) (p : Z) : list Z := octets (Z.to_nat ((8 * blen b - p) / 8)) b p.

Lemma blen_tail b p : p ≤ 8 * blen b → blen (tail_octets b p) = (8 * blen b - p) / 8.
Proof.
  intros. unfold tail_octets. rewrite blen_octets, Z2Nat.id; [done|]. apply Z.div_pos; lia.
Qed.

Lemma octets_split n k b p : octets (n + k) b p = octets n b p ++ octets k b (p + 8 * Z.of_nat n).
Proof.
  revert p. induction n as [|n IH]; intros p; cbn [octets Nat.add app].
  - f_equal. lia.
  - rewrite IH. do 2 f_equal. f_equal. lia.
Qed.

Lemma tail_slice b p off k :
  bytes_ok b → p ≤ 8 * blen b → 0 ≤ off → off + Z.of_nat k ≤ blen (tail_octets b p) →
  @slice err (tail_octets b p) off (off + Z.of_nat k) = Ok (octets k b (p + 8 * off)).
Proof.
  intros Hb Hp Ho Hk. pose proof (blen_tail b p Hp) as Hl. unfold tail_octets in *.
  set (n := Z.to_nat ((8 * blen b - p) / 8)) in *. rewrite blen_octets in Hk.
  assert (n = (Z.to_nat off + (k + (n - Z.to_nat off - k)))%nat) as -> by lia.
  rewrite !octets_split. rewrite Z2Nat.id by lia.
  apply slice_mid; rewrite blen_octets; lia.
Qed.

Lemma tail_byte b p off :
  bytes_ok b → p ≤ 8 * blen b → 0 ≤ off < blen (tail_octets b p) →
  @byte_at err (tail_octets b p) off = Ok (field b (p + 8 * off) 8).
Proof.
  intros Hb Hp Ho. pose proof (tail_slice b p off 1 Hb Hp ltac:(lia) ltac:(lia)) as E.
  destruct (@byte_at_inside err _ off Ho) as (x & -> & Hx).
  apply slice_ok_inv in E as (_ & _ & E). cbn [octets] in E.
  rewrite (drop_S _ x) in E by done. replace (Z.to_nat (off + Z.of_nat 1 - off)) with 1%nat in E by lia.
  cbn in E. by injection E as ->.
Qed.

(** The same outcome, with an octet offset read as a bit position. *)
Definition shift_to {A} (b : list Z) (p : Z) (m : res err (A * Z)) : res err (A * bitReader) :=
  '(a, off) ← m; mret (a, mkReader b (p + 8 * off)).

Lemma slot_length_shift fuel b p : ∀ off l,
  bytes_ok b → 0 ≤ p ≤ 8 * blen b → 0 ≤ off →
  p + 8 * off ≤ 8 * blen b →
  slot_length_bits fuel (mkReader b (p + 8 * off)) l
  = shift_to b p (slot_length fuel (tail_octets b p) off l).
Proof.
  induction fuel as [|fuel IH]; intros off l Hb Hp Ho Hle; [done|].
  cbn [slot_length_bits slot_length].
  rewrite read_spec; [|split; cbn; (done || lia)|lia]. cbn [buf pos].
  pose proof (blen_tail b p ltac:(lia)) as Hl.
  destruct (Z.leb_spec (blen (tail_octets b p)) off) as [H|H].
  - destruct (Z.ltb_spec (8 * blen b) (p + 8 * off + 8)); [done|].
    Z.div_mod_to_equations. lia.
  - destruct (Z.ltb_spec (8 * blen b) (p + 8 * off + 8)); [Z.div_mod_to_equations; lia|].
    rewrite tail_byte, !bind_Ok by (done || lia). cbv zeta.
    destruct (MaxMuxSlotBytes <? _); [done|]. destruct (negb _).
    + cbv [shift_to mret res_ret mbind res_bind]. do 2 f_equal. f_equal. lia.
    + rewrite <- IH by (done || lia). f_equal. f_equal. lia.
Qed.

Lemma element_shift n b p base ticks : ∀ off i,
  bytes_ok b → 0 ≤ p ≤ 8 * blen b → 0 ≤ off → p + 8 * off ≤ 8 * blen b →
  element_bits n (mkReader b (p + 8 * off)) base ticks i
  = shift_to b p (element n (tail_octets b p) off base ticks i).
Proof.
  induction n as [|n IH]; intros off i Hb Hp Ho Hle; [done|].
  pose proof (blen_tail b p ltac:(lia)) as Hl.
  assert (Htok : bytes_ok (tail_octets b p)) by apply octets_bytes_ok.
  assert (Hin : off ≤ blen (tail_octets b p)) by (rewrite Hl; Z.div_mod_to_equations; lia).
  cbn [element_bits element buf]. rewrite slot_length_shift by (done || lia).
  unfold readMuxSlot.
  pose proof (slot_length_spec (S (length (tail_octets b p))) (tail_octets b p) off 0 Htok ltac:(lia)
    ltac:(lia) ltac:(unfold blen in *; lia)) as Hs.
  assert (Ef : slot_length (S (length b)) (tail_octets b p) off 0
    = slot_length (S (length (tail_octets b p))) (tail_octets b p) off 0).
  { replace (S (length b)) with
      (S (length (tail_octets b p)) + (length b - length (tail_octets b p)))%nat.
    - apply slot_length_mono. intros E. by rewrite E in Hs.
    - unfold blen in *. Z.div_mod_to_equations. lia. }
  rewrite Ef. destruct (slot_length (S (length (tail_octets b p))) (tail_octets b p) off 0)
    as [[l off']|e|]; [|done|done].
  cbv [shift_to]. rewrite !bind_Ok, bind_ret. cbn [buf pos].
  destruct (Z.ltb_spec (blen (tail_octets b p)) (off' + l)).
  - destruct (Z.ltb_spec (blen b * 8) (p + 8 * off' + l * 8)); [done|].
    Z.div_mod_to_equations. lia.
  - destruct (Z.ltb_spec (blen b * 8) (p + 8 * off' + l * 8)); [Z.div_mod_to_equations; lia|].
    pose proof (blitBits_octets b (p + 8 * off') (Z.to_nat l) Hb ltac:(lia) ltac:(lia)) as Hblit.
    pose proof (tail_slice b p off' (Z.to_nat l) Hb ltac:(lia) ltac:(lia) ltac:(lia)) as Hslice.
    rewrite Z2Nat.id in Hblit, Hslice by lia. rewrite (Z.mul_comm 8 l) in Hblit.
    replace ((l * 8 + 7) / 8) with l by (Z.div_mod_to_equations; lia).
    rewrite Hblit, Hslice, !bind_Ok, bind_ret.
    replace (p + 8 * off' + l * 8) with (p + 8 * (off' + l)) by lia.
    rewrite IH by (done || lia). unfold shift_to.
    destruct (element n (tail_octets b p) (off' + l) base ticks (i + 1)) as [[aus o]|e|]; done.
Qed.

(** ** Encoding a payload *)
Definition length_code (n : Z) : list Z := replicate (Z.to_nat (n / 255)) 0xFF ++ [n mod 255].
Definition slot (data : list Z) : list Z := length_code (blen data) ++ data.
Definition slots (ds : list (list Z)) : list Z := concat (slot <$> ds).

(** The access units of [ds], the first being number [k] of the payload. *)
Definition units (ticks k : Z) (ds : list (list Z)) : list AU :=
  imap (λ j d, mkAU d (u32 ((k + Z.of_nat j) * ticks))) ds.

Lemma units_cons ticks k d ds :
  units ticks k (d :: ds) = mkAU d (u32 (k * ticks)) :: units ticks (k + 1) ds.
Proof.
  unfold units. cbn [imap]. f_equal; [f_equal; f_equal; lia|].
  apply imap_ext. intros j x _. unfold compose. do 2 f_equal. lia.
Qed.
Lemma units_app ticks ds : ∀ k es,
  units ticks k (ds ++ es) = units ticks k ds ++ units ticks (k + blen ds) es.
Proof.
  induction ds as [|d ds IH]; intros k es; cbn [app].
  - rewrite (@blen_nil (list Z)), Z.add_0_r. done.
  - rewrite !units_cons, IH, blen_cons. cbn [app]. do 3 f_equal. lia.
Qed.

Lemma blen_length_code n : 0 ≤ n → blen (length_code n) = n / 255 + 1.
Proof.
  intros. unfold length_code. rewrite blen_app. unfold blen. rewrite length_replicate.
  assert (0 ≤ n / 255) by (apply Z.div_pos; lia). cbn [length]. lia.
Qed.

Lemma slot_length_encode (k : nat) r : ∀ fuel pre post l,
  0 ≤ r < 255 → 0 ≤ l → l + 255 * Z.of_nat k + r ≤ MaxMuxSlotBytes → (k < fuel)%nat →
  slot_length fuel (pre ++ (replicate k 0xFF ++ [r]) ++ post) (blen pre) l
  = Ok (l + 255 * Z.of_nat k + r, blen pre + Z.of_nat k + 1).
Proof.
  induction k as [|k IH]; intros fuel pre post l Hr Hl Hmax Hf; (destruct fuel as [|fuel]; [lia|]);
    cbn [slot_length replicate app].
  - destruct (Z.leb_spec (blen (pre ++ r :: post)) (blen pre)); [blia|].
    rewrite byte_at_mid, bind_Ok by done. cbv zeta.
    destruct (Z.ltb_spec MaxMuxSlotBytes (l + r)); [lia|].
    destruct (Z.eqb_spec r 255); [lia|]. cbn [negb]. cbv [mret res_ret]. do 2 f_equal; lia.
  - destruct (Z.leb_spec (blen (pre ++ 255 :: (replicate k 255 ++ [r]) ++ post)) (blen pre)); [blia|].
    rewrite byte_at_mid, bind_Ok by done. cbv zeta.
    destruct (Z.ltb_spec MaxMuxSlotBytes (l + 255)); [lia|]. change (255 =? 255) with true. cbn [negb].
    specialize (IH fuel (pre ++ [255]) post (l + 255) Hr ltac:(lia) ltac:(lia) ltac:(lia)).
    rewrite <- app_assoc in IH. cbn [app] in IH.
    replace (blen (pre ++ [255])) with (blen pre + 1) in IH by (by rewrite blen_app).
    rewrite IH. f_equal. f_equal; lia.
Qed.

Lemma readMuxSlot_encode pre data post :
  blen data ≤ MaxMuxSlotBytes →
  readMuxSlot (pre ++ slot data ++ post) (blen pre) = Ok (data, blen pre + blen (slot data)).
Proof.
  intros Hd. unfold readMuxSlot, slot. pose proof (blen_nonneg data) as Hn.
  pose proof (Z.div_mod (blen data) 255 ltac:(lia)) as E.
  pose proof (Z.mod_pos_bound (blen data) 255 ltac:(lia)).
  assert (0 ≤ blen data / 255) by (apply Z.div_pos; lia).
  rewrite <- (app_assoc _ data post).
  pose proof (slot_length_encode (Z.to_nat (blen data / 255)) (blen data mod 255)
    (S (length (pre ++ length_code (blen data) ++ data ++ post))) pre (data ++ post) 0) as Hs.
  fold (length_code (blen data)) in Hs. rewrite Hs, bind_Ok; clear Hs; try lia.
  2:{ rewrite !length_app. unfold length_code. rewrite length_app, length_replicate. lia. }
  rewrite Z2Nat.id by lia. replace (0 + _ + _) with (blen data) by lia.
  pose proof (blen_length_code (blen data) Hn) as Hc.
  destruct (Z.ltb_spec (blen (pre ++ length_code (blen data) ++ data ++ post))
    (blen pre + blen data / 255 + 1 + blen data)); [blia|].
  rewrite (app_assoc pre (length_code _)), slice_mid, bind_Ok by blia.
  cbv [mret res_ret]. do 2 f_equal. rewrite blen_app. lia.
Qed.

Lemma slots_cons d ds : slots (d :: ds) = slot d ++ slots ds.
Proof. done. Qed.

Lemma element_encode ticks e ds : ∀ pre post base i k,
  Forall (λ d, blen d ≤ MaxMuxSlotBytes) ds →
  base = u32 (e * ticks) → k = e + i →
  element (length ds) (pre ++ slots ds ++ post) (blen pre) base ticks i
  = Ok (units ticks k ds, blen pre + blen (slots ds)).
Proof.
  induction ds as [|d ds IH]; intros pre post base i k Hds Hbase Hk; cbn [element length].
  - unfold slots. cbn. rewrite (@blen_nil Z), Z.add_0_r. done.
  - apply Forall_cons_iff in Hds as [Hd Hds].
    rewrite slots_cons, <- app_assoc, readMuxSlot_encode, bind_Ok by done.
    specialize (IH (pre ++ slot d) post base (i + 1) (k + 1) Hds Hbase ltac:(lia)).
    rewrite <- app_assoc, blen_app in IH. rewrite IH, bind_Ok, units_cons, blen_app.
    assert (Eo : u32 (base + u32 (i * ticks)) = u32 (k * ticks)).
    { subst. unfold u32. rewrite Z.mul_add_distr_r, <- Z.add_mod by lia. done. }
    by rewrite Eo, Z.add_assoc.
Qed.

Lemma slots_ne_zero ds : Exists (λ d, d ≠ []) ds → allZero (slots ds) = false.
Proof.
  induction 1 as [d ds Hd|d ds _ IH]; rewrite slots_cons; unfold allZero in *; rewrite forallb_app.
  - apply andb_false_iff. left. unfold slot. rewrite forallb_app. apply andb_false_iff. left.
    unfold length_code. rewrite forallb_app.
    assert (0 < blen d) by (by apply blen_concat_pos).
    pose proof (Z.div_mod (blen d) 255 ltac:(lia)). pose proof (Z.mod_pos_bound (blen d) 255 ltac:(lia)).
    destruct (decide (blen d mod 255 = 0)) as [E|E].
    + destruct (Z.to_nat (blen d / 255)) as [|m] eqn:Em; [|done].
      assert (0 ≤ blen d / 255) by (apply Z.div_pos; lia). lia.
    + apply andb_false_iff. right. cbn. destruct (Z.eqb_spec (blen d mod 255) 0); done.
  - by rewrite IH, andb_false_r.
Qed.

Lemma allZero_replicate n : allZero (replicate n 0) = true.
Proof. induction n as [|n IH]; cbn; [done|exact IH]. Qed.

(** A payload: elements of the same number of slots, each but the first with some
    audio, then zero padding. *)
Definition elements_encode (es : list (list (list Z))) (pad : nat) : list Z :=
  concat (slots <$> es) ++ replicate pad 0.

Lemma elements_roundtrip nsub ticks pad : ∀ es fuel pre e aus,
  0 ≤ nsub → es ≠ [] →
  Forall (λ ds, blen ds = nsub + 1 ∧ Forall (λ d, blen d ≤ MaxMuxSlotBytes) ds) es →
  Forall (Exists (λ d, d ≠ [])) (tail es) →
  0 ≤ e → e + blen es ≤ MaxMuxElements → (length es < fuel)%nat →
  elements fuel nsub (pre ++ elements_encode es pad) (blen pre) (u32 (e * (nsub + 1) * ticks)) ticks e aus
  = Ok (inl (aus ++ units ticks (e * (nsub + 1)) (concat es))).
Proof.
  induction es as [|ds es IH]; intros fuel pre e aus Hn Hne Hes Htl He Hmax Hf; [done|].
  destruct fuel as [|fuel]; [cbn in Hf; lia|]. cbn [elements].
  rewrite blen_cons in Hmax. pose proof (blen_nonneg es).
  destruct (Z.leb_spec MaxMuxElements e); [lia|].
  apply Forall_cons_iff in Hes as [[Hlen Hds] Hes]. cbn [tail] in Htl.
  replace (Z.to_nat (nsub + 1)) with (length ds) by (unfold blen in Hlen; lia).
  unfold elements_encode. cbn [fmap list_fmap concat]. rewrite <- app_assoc.
  rewrite (element_encode ticks (e * (nsub + 1)) ds pre _ _ 0 (e * (nsub + 1))) by (done || lia).
  cbv zeta. set (rest := concat (slots <$> es) ++ replicate pad 0).
  assert (Hu : units ticks (e * (nsub + 1)) (ds ++ concat es) =
    units ticks (e * (nsub + 1)) ds ++ units ticks ((e + 1) * (nsub + 1)) (concat es)).
  { rewrite units_app, Hlen. do 2 f_equal. lia. }
  rewrite Hu, (app_assoc aus).
  rewrite (app_assoc pre (slots ds) rest), <- (blen_app pre (slots ds)).
  destruct es as [|ds' es].
  - cbn [concat]. rewrite app_nil_r. unfold rest. cbn [fmap list_fmap concat app].
    destruct (blen _ <=? _); [done|]. rewrite slice_from_ok by blia.
    rewrite bind_Ok, drop_blen_app, allZero_replicate by done. done.
  - apply Forall_cons_iff in Htl as [Hne' Htl].
    destruct (Z.leb_spec (blen ((pre ++ slots ds) ++ rest)) (blen (pre ++ slots ds))) as [Hz|_].
    { exfalso. rewrite blen_app in Hz. assert (blen rest = 0) as Hr by blia.
      apply blen_zero in Hr. pose proof (slots_ne_zero ds' Hne') as Hnz.
      unfold rest in Hr. cbn [fmap list_fmap concat] in Hr. apply app_eq_nil in Hr as [Hr _].
      apply app_eq_nil in Hr as [Hr _]. by rewrite Hr in Hnz. }
    rewrite slice_from_ok by blia. rewrite bind_Ok, drop_blen_app by done.
    assert (Hz : allZero rest = false).
    { unfold rest. cbn [fmap list_fmap concat]. unfold allZero. rewrite !forallb_app.
      pose proof (slots_ne_zero ds' Hne') as Hnz. unfold allZero in Hnz. by rewrite Hnz. }
    rewrite Hz. specialize (IH fuel (pre ++ slots ds) (e + 1) (aus ++ units ticks (e * (nsub + 1)) ds)
      Hn ltac:(done) Hes Htl ltac:(lia) ltac:(lia) ltac:(cbn in *; lia)).
    unfold elements_encode in IH. fold rest in IH. rewrite <- IH. f_equal. unfold u32.
    rewrite <- Z.add_mod by lia. f_equal. lia.
Qed.

(** ** The StreamMuxConfig, as ISO/IEC 14496-3 lays it out

    A bit layout is a list of (width, value) pairs. *)
Fixpoint carries (b : list Z) (p : Z) (fs : list (Z * Z)) : Prop :=
  match fs with [] => True | (n, v) :: fs => field b p n = v ∧ carries b (p + n) fs end.
Fixpoint width (fs : list (Z * Z)) : Z :=
  match fs with [] => 0 | (n, _) :: fs => n + width fs end.

Record MuxSpec := mkSpec {
  ms_sub : Z; ms_aot : Z; ms_sfi : Z; ms_rate : Z; ms_chan : Z; ms_960 : bool;
  ms_core : option Z; ms_fullness : Z; ms_other : list Z; ms_crc : option Z
}.
Definition asc_layout (c : MuxSpec) : list (Z * Z) :=
  [(5, ms_aot c); (4, ms_sfi c)] ++ (if ms_sfi c =? 15 then [(24, ms_rate c)] else [])
  ++ [(4, ms_chan c); (1, Z.b2z (ms_960 c))]
  ++ match ms_core c with Some delay => [(1, 1); (14, delay)] | None => [(1, 0)] end ++ [(1, 0)].
Fixpoint escapes (l : list Z) : list (Z * Z) :=
  match l with
  | [] => []
  | [x] => [(1, 0); (8, x)]
  | x :: l => (1, 1) :: (8, x) :: escapes l
  end.
Definition tail_layout (c : MuxSpec) : list (Z * Z) :=
  [(3, 0); (8, ms_fullness c)]
  ++ match ms_other c with [] => [(1, 0)] | l => (1, 1) :: escapes l end
  ++ match ms_crc c with Some crc => [(1, 1); (8, crc)] | None => [(1, 0)] end.
Definition smc_layout (c : MuxSpec) : list (Z * Z) :=
  [(1, 0); (1, 1); (6, ms_sub c); (4, 0); (3, 0)] ++ asc_layout c ++ tail_layout c.

(** The values this package supports. *)
Definition supported (c : MuxSpec) : Prop :=
  0 ≤ ms_sub c < 64 ∧ ga_object (ms_aot c) = true ∧ ms_chan c ≠ 0.

Lemma carries_app b p fs gs :
  carries b p (fs ++ gs) ↔ carries b p fs ∧ carries b (p + width fs) gs.
Proof.
  revert p. induction fs as [|[n v] fs IH]; intros p; cbn [carries width app].
  - rewrite Z.add_0_r. tauto.
  - rewrite IH, Z.add_assoc. tauto.
Qed.
Lemma width_app fs gs : width (fs ++ gs) = width fs + width gs.
Proof. induction fs as [|[n v] fs IH]; cbn [width app]; [done|]. rewrite IH. lia. Qed.

Lemma read_carry b p n v :
  bytes_ok b → 0 ≤ p → 0 ≤ n ≤ 32 → p + n ≤ 8 * blen b → field b p n = v →
  read n (mkReader b p) = Ok (v, mkReader b (p + n)).
Proof.
  intros Hb Hp Hn Hl <-. rewrite read_spec; [|split; cbn; (done || lia)|lia]. cbn [buf pos].
  destruct (Z.ltb_spec (8 * blen b) (p + n)); [lia|done].
Qed.

(** Follow one declared field of a layout. *)
Ltac carry :=
  match goal with
  | H : carries ?b ?p ((?n, ?v) :: _) |- context [read ?n (mkReader ?b ?p)] =>
      destruct H as [? H]; rewrite (read_carry b p n v) by (done || lia); rewrite ?bind_Ok
  | |- context [mret _ ≫= _] => rewrite bind_ret
  | |- context [1 =? 1] => change (1 =? 1) with true; cbv iota
  | |- context [0 =? 1] => change (0 =? 1) with false; cbv iota
  | |- context [0 =? 0] => change (0 =? 0) with true; cbn [negb]; cbv iota
  end.

Lemma escapes_width l : l ≠ [] → 0 ≤ width (escapes l).
Proof.
  induction l as [|x l IH]; [done|]. intros _. destruct l as [|y l]; [cbn; lia|].
  cbn [escapes width]. specialize (IH ltac:(done)). cbn [escapes width] in IH. lia.
Qed.

Lemma asc_fields_exact b p c :
  bytes_ok b → 0 ≤ p → p + width (asc_layout c) ≤ 8 * blen b →
  carries b p (asc_layout c) → supported c →
  asc_fields (mkReader b p)
  = Ok (if ms_960 c then 960 else 1024, mkReader b (p + width (asc_layout c))).
Proof.
  intros Hb Hp Hl Hc (Hsub & Hga & Hch). unfold asc_fields. revert Hl Hc.
  assert (Haot : (ms_aot c =? 31) = false).
  { destruct (Z.eqb_spec (ms_aot c) 31) as [E|]; [|done]. by rewrite E in Hga. }
  assert (Hch' : (ms_chan c =? 0) = false) by (by apply Z.eqb_neq).
  unfold asc_layout. destruct (ms_sfi c =? 15) eqn:Esfi, (ms_core c) as [delay|];
    cbn [app width]; intros Hl Hc;
    repeat (carry; rewrite ?Haot, ?Hga, ?Hch', ?Esfi; cbn [negb]; try carry);
    (cbv [mret res_ret]; f_equal; f_equal; [by destruct (ms_960 c) | f_equal; lia]).
Qed.

Lemma escapes_length l : l ≠ [] → width (escapes l) = 9 * blen l.
Proof.
  induction l as [|x l IH]; [done|]. intros _. destruct l as [|y l]; [done|].
  rewrite blen_cons.
  assert (He : escapes (x :: y :: l) = (1, 1) :: (8, x) :: escapes (y :: l)) by done.
  rewrite He. cbn [width]. rewrite IH by done. lia.
Qed.

Lemma other_data_exact b l : ∀ p fuel,
  bytes_ok b → 0 ≤ p → l ≠ [] → p + width (escapes l) ≤ 8 * blen b →
  carries b p (escapes l) → (length l ≤ fuel)%nat →
  other_data fuel (mkReader b p) = Ok (mkReader b (p + width (escapes l))).
Proof.
  induction l as [|x l IH]; intros p fuel Hb Hp Hne Hl Hc Hf; [done|].
  destruct fuel as [|fuel]; [cbn in Hf; lia|]. cbn [other_data].
  destruct l as [|y l].
  - cbn [escapes width] in *. repeat carry. cbn. do 2 f_equal. lia.
  - assert (He : escapes (x :: y :: l) = (1, 1) :: (8, x) :: escapes (y :: l)) by done.
    rewrite He in *. cbn [width] in *.
    pose proof (escapes_length (y :: l) ltac:(done)). pose proof (blen_nonneg (y :: l)).
    repeat carry. change (1 =? 0) with false.
    rewrite IH by (done || lia || (cbn in *; lia)). do 2 f_equal. lia.
Qed.

Lemma parse_tail_exact b p c :
  bytes_ok b → 0 ≤ p → p + width (tail_layout c) ≤ 8 * blen b →
  carries b p (tail_layout c) →
  parse_tail (mkReader b p) = Ok (0, mkReader b (p + width (tail_layout c))).
Proof.
  intros Hb Hp Hl Hc. unfold parse_tail. revert Hl Hc. unfold tail_layout.
  destruct (ms_other c) as [|o l] eqn:Eo; [destruct (ms_crc c) as [crc|]; cbn [app width]; intros Hl Hc;
    repeat (carry; cbn [negb]; try carry); cbn; do 3 f_equal; lia|].
  rewrite !width_app, !carries_app. cbn [width]. intros Hl [Hc1 [Hc2 Hc3]].
  pose proof (escapes_length (o :: l) ltac:(done)) as Hw. pose proof (blen_nonneg (o :: l)).
  assert (Hw3 : 2 ≤ width (match ms_crc c with Some crc => [(1, 1); (8, crc)] | None => [(1, 0)] end) + 1)
    by (destruct (ms_crc c); cbn; lia).
  repeat carry. change (0 =? 0) with true. cbn [negb].
  replace (p + (3 + (8 + 0))) with (p + 3 + 8) in Hc2, Hc3 by lia.
  repeat carry. cbn [buf].
  rewrite (other_data_exact b (o :: l)), bind_Ok; [ | done | lia | done | lia | done |].
  2:{ unfold blen in *. lia. }
  replace (p + 3 + 8 + (1 + width (escapes (o :: l)))) with
    (p + 3 + 8 + 1 + width (escapes (o :: l))) in Hc3 by lia.
  destruct (ms_crc c) as [crc|]; cbn [width] in *; repeat carry; cbv [mret res_ret]; do 3 f_equal; lia.
Qed.

Lemma parse_head_exact b p nsub :
  bytes_ok b → 0 ≤ p → 0 ≤ nsub < 64 → p + 15 ≤ 8 * blen b →
  carries b p [(1, 0); (1, 1); (6, nsub); (4, 0); (3, 0)] →
  parse_head (mkReader b p) = Ok (nsub, mkReader b (p + 15)).
Proof.
  intros Hb Hp Hn Hl Hc. unfold parse_head. repeat carry.
  destruct (Z.ltb_spec MaxSubFrames (nsub + 1)); [unfold MaxSubFrames in *; lia|].
  repeat carry. cbv [mret res_ret]. do 3 f_equal. lia.
Qed.

(** A field of a left-justified copy is the field of the source. *)
Lemma field_justified b out start n q k :
  blen out * 8 - 8 < n ≤ 8 * blen out → 0 ≤ q → 0 ≤ k → q + k ≤ n → start + n ≤ 8 * blen b →
  be_combine out = field b start n * 2 ^ (8 * blen out - n) →
  field out q k = field b (start + q) k.
Proof.
  intros Hn Hq Hk Hqk Hl E. unfold field at 1. rewrite E.
  replace n with (q + k + (n - q - k)) at 1 by lia.
  rewrite field_app by lia. replace (8 * blen out - q - k) with (n - q - k + (8 * blen out - n)) by lia.
  pose proof (field_range b (start + (q + k)) (n - q - k) ltac:(lia)) as R.
  pose proof (Z.pow_pos_nonneg 2 (8 * blen out - n) ltac:(lia) ltac:(lia)).
  pose proof (Z.pow_pos_nonneg 2 (n - q - k) ltac:(lia) ltac:(lia)).
  rewrite Z.pow_add_r, Z.div_mul_cancel_r by lia.
  rewrite Z.div_add_l, (Z.div_small _ (2 ^ (n - q - k))), Z.add_0_r by lia.
  rewrite field_app by lia.
  rewrite Z.add_comm, Z.mod_add by (pose proof (Z.pow_pos_nonneg 2 k); lia).
  apply Z.mod_small. by apply field_range.
Qed.

Lemma carries_justified b out start n fs :
  blen out * 8 - 8 < n ≤ 8 * blen out → start + n ≤ 8 * blen b →
  be_combine out = field b start n * 2 ^ (8 * blen out - n) →
  ∀ q, 0 ≤ q → Forall (λ f, 0 ≤ f.1) fs → q + width fs ≤ n →
  carries b (start + q) fs → carries out q fs.
Proof.
  intros Hn Hl E. induction fs as [|[k v] fs IH]; intros q Hq Hpos Hw Hc; [done|].
  apply Forall_cons_iff in Hpos as [Hk Hpos]. cbn [fst] in Hk. cbn [width carries] in *.
  assert (0 ≤ width fs).
  { clear -Hpos. induction Hpos as [|[j w] fs Hj _ IH]; cbn in *; lia. }
  destruct Hc as [Hv Hc]. split.
  - rewrite <- Hv. by apply (field_justified b out start n); lia.
  - apply IH; [lia | done | lia |]. by rewrite Z.add_assoc.
Qed.

(** ** The buffer store *)
Lemma extract_spec m dst b start n :
  bytes_ok b → 0 ≤ start → 0 < n → start + n ≤ 8 * blen b →
  ∃ m' s out, extractBitsInto m dst b start n = Ok (m', Some s)
    ∧ contents m' (Some s) = out ∧ bytes_ok out ∧ blen out = (n + 7) / 8
    ∧ be_combine out = field b start n * 2 ^ (8 * blen out - n)
    ∧ (addr s < length m')%nat
    ∧ (∀ s0, (addr s0 < length m)%nat → (∀ d, dst = Some d → addr s0 ≠ addr d) →
         contents m' (Some s0) = contents m (Some s0) ∧ addr s0 ≠ addr s ∧ (addr s0 < length m')%nat)
    ∧ (length m ≤ length m')%nat.
Proof.
  intros Hb Hs Hn Hl. unfold extractBitsInto.
  destruct (blitBits_spec b start n Hb Hs Hn Hl) as (out & -> & Hlen & Hok & Hv). rewrite bind_Ok.
  assert (Hsz : 0 < (n + 7) / 8) by (Z.div_mod_to_equations; lia).
  set (size := (n + 7) / 8) in *.
  assert (Hnew : ∃ m' s, mret (m ++ [out], Some (mkRef (length m) size)) = @Ok err _ (m', Some s)
    ∧ contents m' (Some s) = out ∧ (addr s < length m')%nat
    ∧ (∀ s0, (addr s0 < length m)%nat →
         contents m' (Some s0) = contents m (Some s0) ∧ addr s0 ≠ addr s ∧ (addr s0 < length m')%nat)
    ∧ (length m ≤ length m')%nat).
  { eexists _, _. split; [done|]. rewrite length_app. cbn [length addr].
    split_and!; [|lia| |lia].
    - unfold contents, array. cbn [addr len]. rewrite lookup_app_r, Nat.sub_diag by lia. cbn.
      rewrite <- Hlen. unfold blen. rewrite Nat2Z.id. apply firstn_all.
    - intros s0 H0. split_and!; [|lia|lia]. unfold contents, array. by rewrite lookup_app_l. }
  destruct dst as [d|]; [destruct (Z.ltb_spec (cap m (Some d)) size)|].
  - destruct Hnew as (m' & s & -> & ? & ? & Hk & ?). exists m', s, out. split_and!; eauto.
  - unfold cap, array in H. destruct (m !! addr d) as [a|] eqn:Ha; cbn in H; [|change (blen []) with 0 in H; lia].
    eexists _, (mkRef (addr d) size), out. split; [done|].
    assert (Hd : (addr d < length m)%nat) by (by eapply lookup_lt_Some).
    rewrite length_insert. cbn [addr]. split_and!; try done.
    + unfold contents, array. cbn [addr len]. rewrite list_lookup_insert_eq by done. cbn.
      rewrite <- Hlen. unfold blen. rewrite Nat2Z.id. apply take_app_length.
    + intros s0 H0 Hne. specialize (Hne d eq_refl). split_and!; [|done|done].
      unfold contents, array. by rewrite list_lookup_insert_ne by done.
  - destruct Hnew as (m' & s & -> & ? & ? & Hk & ?). exists m', s, out. split_and!; eauto.
Qed.

(** ** The configuration step *)
Definition kept (m m' : store) (dst : option ref) : Prop :=
  (length m ≤ length m')%nat ∧
  ∀ s0, (addr s0 < length m)%nat → (∀ d, dst = Some d → addr s0 ≠ addr d) →
    contents m' (Some s0) = contents m (Some s0) ∧ (addr s0 < length m')%nat.

Lemma kept_refl m dst : kept m m dst.
Proof. split; [done|]. by intros. Qed.

Lemma parse_smc_spec m r dst :
  reader_ok r →
  let '(m', out) := parseStreamMuxConfigBits m r dst in
  kept m m' dst ∧
  match out with
  | Ok (smc, asc, fl, r') =>
      (∃ s, asc = Some s ∧ (addr s < length m')%nat
        ∧ ∀ s0, (addr s0 < length m)%nat → (∀ d, dst = Some d → addr s0 ≠ addr d) → addr s0 ≠ addr s)
      ∧ 0 ≤ numSubFrames smc < 64 ∧ (fl = 1024 ∨ fl = 960)
      ∧ reader_ok r' ∧ buf r' = buf r ∧ pos r < pos r'
  | Err _ => True
  | Panic => False
  end.
Proof.
  intros Hr. unfold parseStreamMuxConfigBits, parseASC.
  pose proof (parse_head_reads r Hr) as H1. destruct (parse_head r) as [[nsub r1]|e|]; cbn in H1;
    [|split; [apply kept_refl|done]|done].
  destruct H1 as (Hb1 & Hp1 & Hr1 & Hn). rewrite bind_Ok. cbv zeta.
  pose proof (asc_fields_reads r1 Hr1) as H2. destruct (asc_fields r1) as [[fl r2]|e|]; cbn in H2;
    [|split; [apply kept_refl|done]|done].
  destruct H2 as (Hb2 & Hp2 & Hr2 & Hfl & Hlt). rewrite bind_Ok.
  destruct (extract_spec m dst (buf r1) (pos r1) (pos r2 - pos r1)) as
    (m' & s & out & -> & _ & _ & _ & _ & Hs & Hkept & Hle).
  { apply Hr1. } { destruct Hr1; lia. } { lia. } { destruct Hr2 as [_ Hp]. rewrite Hb2 in Hp. lia. }
  rewrite bind_Ok, !bind_ret. cbn -[parse_tail kept].
  pose proof (parse_tail_reads r2 Hr2) as H3.
  assert (Hk : kept m m' dst).
  { split; [done|]. intros s0 H0 Hne. destruct (Hkept s0 H0 Hne) as (? & _ & ?). done. }
  destruct (parse_tail r2) as [[flt r3]|e|]; cbn in H3; [|by split; [|exact I]|done].
  destruct H3 as (Hb3 & Hp3 & Hr3 & ->). split; [done|]. rewrite bind_Ok. cbn -[kept]. split_and!; try done; try lia; [|congruence].
  exists s. split_and!; [done|done|]. intros s0 H0 Hne. by destruct (Hkept s0 H0 Hne) as (_ & ? & _).
Qed.

Record dp_ok (d : Depacketizer) : Prop := {
  dk_spf : 0 ≤ SamplesPerFrame (cfg d) ≤ 8192;
  dk_seed : bytes_ok (StreamMuxConfig (cfg d));
  dk_sub : 0 ≤ numSubFrames (smc d) < 64;
  dk_asc : ∀ s, asc d = Some s → (addr s < length (mem d))%nat;
  dk_buf : ∀ s, ascBuf d = Some s → (addr s < length (mem d))%nat;
  dk_sep : ∀ s t, asc d = Some s → ascBuf d = Some t → addr s ≠ addr t
}.

(** A failed parse into the scratch buffer leaves the retained bytes alone. *)
Lemma with_mem_ok d m' :
  dp_ok d → kept (mem d) m' (ascBuf d) →
  dp_ok (with_mem d m') ∧ AudioSpecificConfig (with_mem d m') = AudioSpecificConfig d.
Proof.
  intros Hd [Hle Hk]. destruct Hd. split.
  - split; cbn; try done; intros s Hs; [specialize (dk_asc0 s Hs)|specialize (dk_buf0 s Hs)]; lia.
  - unfold AudioSpecificConfig. cbn. destruct (haveSMC d); [|done]. destruct (asc d) as [s|]; [|done].
    f_equal. apply Hk; [by apply dk_asc0|]. intros t Ht. by apply dk_sep0.
Qed.

Lemma mux_config_ok d r :
  dp_ok d → reader_ok r →
  let '(d', out) := mux_config d r in
  dp_ok d' ∧ cfg d' = cfg d ∧
  match out with
  | Ok r' => reader_ok r' ∧ buf r' = buf r ∧ pos r < pos r' ∧ haveSMC d' = true
  | Err _ => AudioSpecificConfig d' = AudioSpecificConfig d ∧ smc d' = smc d
      ∧ frameLength d' = frameLength d
  | Panic => False
  end.
Proof.
  intros Hd Hr. unfold mux_config. pose proof (reads_read 1 r Hr ltac:(lia)) as H1.
  destruct (read 1 r) as [[u r1]|e|]; cbn in H1; [|done|done].
  destruct H1 as (Hb1 & Hp1 & Hr1 & _ & E1). destruct (u =? 0).
  - pose proof (parse_smc_spec (mem d) r1 (ascBuf d) Hr1) as H2.
    destruct (parseStreamMuxConfigBits (mem d) r1 (ascBuf d)) as [m' [[[[smc' a] fl] r2]|e|]];
      destruct H2 as [Hk H2]; [|by destruct (with_mem_ok d m' Hd Hk)|done].
    destruct H2 as ((s & -> & Hs & Hne) & Hn & Hfl & Hr2 & Hb2 & Hp2). destruct Hd.
    split; [split; cbn; try done|split; [done|]].
    + intros t [= <-]. done.
    + intros t Ht. specialize (dk_asc0 t Ht). destruct Hk. lia.
    + intros t t' [= <-] Ht'. symmetry. apply not_eq_sym, not_eq_sym.
      intros E. eapply (Hne t'); [by apply dk_asc0 | intros t'' Ht''; by apply dk_sep0 | done].
    + cbn. split_and!; (done || congruence || lia).
  - destruct (haveSMC d) eqn:Eh; cbn [negb]; [|done]. split_and!; (done || lia).
Qed.

Lemma subFrameLayout_ok d : dp_ok d → ∃ ticks, subFrameLayout d = Ok ticks.
Proof.
  intros Hd. unfold subFrameLayout, MaxSubFrames. destruct Hd.
  destruct (Z.ltb_spec 64 (numSubFrames (smc d) + 1)); [lia|]. by eexists.
Qed.

Lemma inband_element_ok d r base :
  dp_ok d → reader_ok r →
  let '(d', out) := depacketizeInBandElement d r base in
  dp_ok d' ∧
  match out with
  | Ok (aus, r', span) => reader_ok r' ∧ buf r' = buf r ∧ (length aus ≤ 64)%nat
      ∧ Forall (λ a, blen (Data a) ≤ MaxMuxSlotBytes) aus
  | Err _ => True
  | Panic => False
  end.
Proof.
  intros Hd Hr. unfold depacketizeInBandElement. pose proof (mux_config_ok d r Hd Hr) as H.
  destruct (mux_config d r) as [d' [r1|e|]]; destruct H as (Hd' & _ & H); [|done|done].
  split; [done|]. destruct H as (Hr1 & Hb1 & Hp1 & _).
  destruct (subFrameLayout_ok d' Hd') as [ticks ->]. rewrite bind_Ok.
  destruct Hr1 as [Hb Hp]. destruct r1 as [b p]. cbn [buf pos] in *.
  pose proof (element_shift (Z.to_nat (numSubFrames (smc d') + 1)) b p base ticks 0 0 Hb Hp
    ltac:(lia) ltac:(lia)) as E.
  rewrite Z.mul_0_r, Z.add_0_r in E. rewrite E. unfold shift_to.
  pose proof (element_spec (Z.to_nat (numSubFrames (smc d') + 1)) (tail_octets b p) base ticks 0 0
    (octets_bytes_ok _ _ _) ltac:(pose proof (blen_nonneg (tail_octets b p)); lia)) as H.
  destruct (element _ _ _ _ _ _) as [[aus off]|e|]; [|done|done].
  rewrite blen_tail in H by lia. destruct H as (Ho & Hlen & Ha).
  rewrite bind_Ok, bind_ret. cbn.
  assert (Hoff : p + 8 * off ≤ 8 * blen b) by (Z.div_mod_to_equations; lia).
  destruct Hd'. split_and!; [| | lia | done].
  - unfold byteAlign. cbn [pos buf]. destruct (Z.eqb_spec ((p + 8 * off) mod 8) 0); [by split; cbn; [|lia]|].
    split; cbn [buf pos]; [done|]. Z.div_mod_to_equations. lia.
  - unfold byteAlign. cbn [pos buf]. by destruct (_ =? 0).
Qed.

Definition units_ok (n : Z) (out : list AU + err) : Prop :=
  match out with
  | inl aus => blen aus ≤ n ∧ Forall (λ a, blen (Data a) ≤ MaxMuxSlotBytes) aus
  | inr _ => True
  end.

Lemma units_ok_app aus new e :
  blen aus ≤ 64 * e → (length new ≤ 64)%nat →
  Forall (λ a, blen (Data a) ≤ MaxMuxSlotBytes) aus → Forall (λ a, blen (Data a) ≤ MaxMuxSlotBytes) new →
  blen (aus ++ new) ≤ 64 * (e + 1) ∧ Forall (λ a, blen (Data a) ≤ MaxMuxSlotBytes) (aus ++ new).
Proof.
  intros. split; [rewrite blen_app; unfold blen in *; lia | by apply Forall_app_2].
Qed.

Lemma elements_bits_ok fuel : ∀ d r base e aus,
  dp_ok d → reader_ok r → 0 ≤ e → MaxMuxElements - e < Z.of_nat fuel → e ≤ MaxMuxElements →
  blen aus ≤ 64 * e → Forall (λ a, blen (Data a) ≤ MaxMuxSlotBytes) aus →
  ∃ d' out, elements_bits fuel d r base e aus = Ok (d', out) ∧ dp_ok d' ∧ units_ok 4096 out.
Proof.
  unfold MaxMuxElements. induction fuel as [|fuel IH]; intros d r base e aus Hd Hr He Hf Hmax Hl Ha; [lia|].
  cbn [elements_bits]. unfold MaxMuxElements. destruct (Z.leb_spec 64 e).
  { exists d, (inl aus). split; [done|]. split; [done|]. split; [lia | done]. }
  pose proof (inband_element_ok d r base Hd Hr) as H1.
  destruct (depacketizeInBandElement d r base) as [d' [[[new r'] span]|e'|]]; destruct H1 as [Hd' H1]; [| |done].
  - destruct H1 as (Hr' & Hb & Hn & Hnew). cbv zeta.
    destruct (units_ok_app aus new e Hl Hn Ha Hnew) as [Hl' Ha'].
    destruct (Z.leb_spec (blen (buf r') * 8) (pos r')).
    { exists d', (inl (aus ++ new)). split; [done|]. split; [done|]. split; [lia | done]. }
    destruct Hr' as [Hrb Hrp]. rewrite slice_from_ok, bind_Ok by (Z.div_mod_to_equations; lia).
    destruct (allZero _).
    { exists d', (inl (aus ++ new)). split; [done|]. split; [done|]. split; [lia | done]. }
    apply IH; (done || lia).
  - exists d', (if e =? 0 then inr e' else inl aus). split; [done|]. split; [done|].
    destruct (e =? 0); [done|]. split; [lia | done].
Qed.

Lemma elements_ok fuel nsub payload ticks : ∀ off base e aus,
  bytes_ok payload → 0 ≤ nsub < 64 → 0 ≤ off ≤ blen payload → 0 ≤ e →
  MaxMuxElements - e < Z.of_nat fuel → e ≤ MaxMuxElements →
  blen aus ≤ 64 * e → Forall (λ a, blen (Data a) ≤ MaxMuxSlotBytes) aus →
  ∃ out, elements fuel nsub payload off base ticks e aus = Ok out ∧ units_ok 4096 out.
Proof.
  unfold MaxMuxElements.
  induction fuel as [|fuel IH]; intros off base e aus Hb Hn Ho He Hf Hmax Hl Ha; [lia|].
  cbn [elements]. unfold MaxMuxElements. destruct (Z.leb_spec 64 e).
  { eexists. split; [done|]. split; [lia | done]. }
  pose proof (element_spec (Z.to_nat (nsub + 1)) payload base ticks off 0 Hb Ho) as H1.
  destruct (element _ _ _ _ _ _) as [[new off']|e'|]; [| |done].
  - destruct H1 as (Ho' & Hnl & Hnew). cbv zeta.
    destruct (units_ok_app aus new e Hl ltac:(lia) Ha Hnew) as [Hl' Ha'].
    destruct (Z.leb_spec (blen payload) off').
    { eexists. split; [done|]. split; [lia | done]. }
    rewrite slice_from_ok, bind_Ok by lia. destruct (allZero _).
    { eexists. split; [done|]. split; [lia | done]. }
    apply IH; (done || lia).
  - eexists. split; [done|]. destruct (e =? 0); [done|]. split; [lia | done].
Qed.

Lemma seed_bytes b : bytes_ok b →
  reader_ok (mkReader (if MaxStreamMuxConfigBytes <? blen b
                       then take (Z.to_nat MaxStreamMuxConfigBytes) b else b) 0).
Proof.
  intros Hb. split; cbn [buf pos]; [|split; [lia|apply Z.mul_nonneg_nonneg; [lia|apply blen_nonneg]]].
  destruct (_ <? _); [by apply Forall_take | done].
Qed.

Lemma applySeed_ok d :
  dp_ok d → asc d = None → ∃ d', applySeed d = Ok d' ∧ dp_ok d' ∧ cfg d' = cfg d.
Proof.
  intros Hd Hasc. unfold applySeed. destruct (blen _ =? 0); [by exists d|].
  unfold parseStreamMuxConfig.
  pose proof (parse_smc_spec (mem d) _ None (seed_bytes _ (dk_seed d Hd))) as H.
  destruct (parseStreamMuxConfigBits (mem d) _ None) as [m' [[[[s a] fl] r2]|e|]]; destruct H as [Hk H]; [| |done].
  - destruct H as ((t & -> & Ht & Hne) & Hn & _). eexists. split; [done|]. split; [|done].
    destruct Hd, Hk as [Hle Hk]. split; cbn; try done.
    + by intros ? [= <-].
    + intros u Hu. specialize (dk_buf0 u Hu). lia.
    + intros u v [= <-] Hv E. eapply (Hne v); [by apply dk_buf0 | done | done].
  - eexists. split; [done|]. split; [|done].
    destruct Hd, Hk as [Hle Hk]. split; cbn; try done; intros u Hu; [congruence|].
    specialize (dk_buf0 u Hu). lia.
Qed.

Lemma latm_New_returns c : bytes_ok (StreamMuxConfig c) → returns (New c) (λ d, dp_ok d ∧ cfg d = c).
Proof.
  intros Hb. unfold New. destruct (_ || _) eqn:Hs; [done|]. breflect.
  assert (Hd0 : dp_ok (mkDepack c (mkSMC 0 0) false None 0 None [])) by (split; cbn; (done || lia)).
  destruct (MuxConfigPresent c).
  - by destruct (applySeed_ok _ Hd0 eq_refl) as (d' & -> & ? & Hc).
  - destruct (blen _ =? 0); [done|]. unfold parseStreamMuxConfig.
    pose proof (parse_smc_spec [] _ None (seed_bytes _ Hb)) as Hsp.
    destruct (parseStreamMuxConfigBits [] _ None) as [m' [[[[s a] fl] r2]|e|]]; destruct Hsp as [Hk Hsp]; [|done|done].
    destruct Hsp as ((t & -> & Ht & Hne) & Hn & _). split; [|done].
    split; cbn; try done; try lia; by intros ? [= <-].
Qed.

Lemma latm_New_ok c d : bytes_ok (StreamMuxConfig c) → New c = Ok d → dp_ok d ∧ cfg d = c.
Proof. intros Hb E. pose proof (latm_New_returns c Hb) as H. by rewrite E in H. Qed.

Lemma latm_Reset_ok d : dp_ok d → ∃ d', Reset d = Ok d' ∧ dp_ok d' ∧ cfg d' = cfg d.
Proof.
  intros Hd. unfold Reset. destruct (negb _); [by exists d|]. apply (applySeed_ok (mkDepack _ _ _ _ _ _ _)); [|done].
  destruct Hd. split; cbn; try done; try lia.
  intros s. destruct (_ <? _); [apply dk_asc0 | apply dk_buf0].
Qed.

Lemma latm_step (c : Config) (d : Depacketizer) (payload : list Z)
    (Hc : bytes_ok (StreamMuxConfig c)) (Hd : New c = Ok d ∨ dp_ok d) (Hp : bytes_ok payload) :
  (∃ d' out, Depacketize d payload = Ok (d', out) ∧ dp_ok d' ∧ units_ok 4096 out)
  ∧ (∃ d', Reset d = Ok d' ∧ dp_ok d')
  ∧ (∀ p e d', 0 ≤ p ≤ 8 * blen payload → mux_config d (mkReader payload p) = (d', Err e) →
       dp_ok d' ∧ AudioSpecificConfig d' = AudioSpecificConfig d
       ∧ smc d' = smc d ∧ frameLength d' = frameLength d).
Proof.
  assert (Hok : dp_ok d) by (destruct Hd as [E|]; [by apply (latm_New_ok c) | done]). clear Hd.
  split; [|split].
  - unfold Depacketize. destruct (MuxConfigPresent (cfg d)).
    + apply elements_bits_ok; try done; try (cbn; lia). split; cbn; [done|].
      pose proof (blen_nonneg payload). lia.
    + unfold depacketizeOutOfBand. destruct (haveSMC d); cbn [negb]; [|by exists d, (inr ErrNoConfig)].
      destruct (subFrameLayout_ok d Hok) as [ticks ->].
      destruct (elements_ok 66 (numSubFrames (smc d)) payload ticks 0 0 0 []) as (out & -> & Ho);
        try done; try (cbn; lia); [apply Hok | pose proof (blen_nonneg payload); lia | ].
      rewrite bind_Ok. by exists d, out.
  - destruct (latm_Reset_ok d Hok) as (d' & ? & ? & _). by exists d'.
  - intros p e d' Hpos E. pose proof (mux_config_ok d (mkReader payload p) Hok) as H.
    rewrite E in H. destruct H as (? & _ & ? & ? & ?); [by split | done].
Qed.

(** The LATM depacketizer is total and bounded on untrusted payloads.  From
    [New] on, across any payloads and resets, no payload of either form panics
    (no slice, bit read or shift is out of range, every loop ends); it yields at
    most 64 elements of 64 access units of at most 64 KiB, or an error; and a
    payload whose StreamMuxConfig is refused, even after its AudioSpecificConfig
    was copied into the scratch buffer, leaves the retained AudioSpecificConfig,
    mux parameters and frame length as they were. *)
Theorem latm_Depacketize_ok (c : Config) (d : Depacketizer) (payload : list Z)
    (Hc : bytes_ok (StreamMuxConfig c)) (Hd : New c = Ok d ∨ dp_ok d) (Hp : bytes_ok payload) :
  (∃ d' out, Depacketize d payload = Ok (d', out) ∧ dp_ok d' ∧ units_ok 4096 out)
  ∧ (∃ d', Reset d = Ok d' ∧ dp_ok d')
  ∧ (∀ p e d', 0 ≤ p ≤ 8 * blen payload → mux_config d (mkReader payload p) = (d', Err e) →
       dp_ok d' ∧ AudioSpecificConfig d' = AudioSpecificConfig d
       ∧ smc d' = smc d ∧ frameLength d' = frameLength d).
Proof. by apply (latm_step c). Qed.

(** The single-subframe AAC-LC stereo 44.1 kHz configuration and one element. *)
Definition oob_config : Config := mkConfig false [0x40; 0x00; 0x24; 0x20; 0x3F; 0xC0] 0.
Definition oob_depack : Depacketizer :=
  mkDepack oob_config (mkSMC 0 0) true (Some (mkRef 0 2)) 1024 None [[0x12; 0x10]].
Example oob_new : New oob_config = Ok oob_depack.
Proof. by vm_compute. Qed.
Example oob_asc : AudioSpecificConfig oob_depack = Some [0x12; 0x10].
Proof. by vm_compute. Qed.
Example oob_one :
  Depacketize oob_depack [0x03; 0xAA; 0xBB; 0xCC]
  = Ok (oob_depack, inl [mkAU [0xAA; 0xBB; 0xCC] 0]).
Proof. by vm_compute. Qed.

Lemma latm_Depacketize_ok_witness :
  (∃ d' out, Depacketize oob_depack [0x03; 0xAA; 0xBB; 0xCC] = Ok (d', out) ∧ dp_ok d' ∧ units_ok 4096 out)
  ∧ (∃ d', Reset oob_depack = Ok d' ∧ dp_ok d')
  ∧ (∀ p e d', 0 ≤ p ≤ 8 * blen [0x03; 0xAA; 0xBB; 0xCC] →
       mux_config oob_depack (mkReader [0x03; 0xAA; 0xBB; 0xCC] p) = (d', Err e) →
       dp_ok d' ∧ AudioSpecificConfig d' = AudioSpecificConfig oob_depack
       ∧ smc d' = smc oob_depack ∧ frameLength d' = frameLength oob_depack).
Proof.
  apply (latm_Depacketize_ok oob_config oob_depack [0x03; 0xAA; 0xBB; 0xCC]).
  - repeat constructor; by vm_compute.
  - left. vm_compute. reflexivity.
  - repeat constructor; by vm_compute.
Defined.

(** The out-of-band round trip.  A payload of up to 64 elements, each with the
    configured number of access units (any contents up to 64 KiB, empty ones
    included), followed by any zero padding, is depacketized into exactly those
    access units, in order, the [k]-th offset by [k] frames across the element
    boundaries; the elements after the first are told from padding by carrying
    some audio. *)
Theorem latm_payload_roundtrip (d : Depacketizer) (ticks : Z) (es : list (list (list Z))) (pad : nat)
    (Hd : dp_ok d) (Hoob : MuxConfigPresent (cfg d) = false) (Hsmc : haveSMC d = true)
    (Ht : subFrameLayout d = Ok ticks) (Hne : es ≠ []) (Hmax : blen es ≤ MaxMuxElements)
    (Hes : Forall (λ ds, blen ds = numSubFrames (smc d) + 1
                         ∧ Forall (λ u, blen u ≤ MaxMuxSlotBytes) ds) es)
    (Htl : Forall (Exists (λ u, u ≠ [])) (tail es)) :
  Depacketize d (elements_encode es pad) = Ok (d, inl (units ticks 0 (concat es))).
Proof.
  unfold Depacketize, depacketizeOutOfBand. rewrite Hoob, Hsmc, Ht. cbn [negb].
  pose proof (elements_roundtrip (numSubFrames (smc d)) ticks pad es 66 [] 0 []) as E.
  cbn [app] in E. rewrite (@blen_nil Z), !Z.mul_0_l in E. change (u32 0) with 0 in E.
  rewrite E; [done | apply Hd | done | done | done | lia | lia |].
  unfold blen, MaxMuxElements in Hmax. lia.
Qed.

Definition two_elements : list (list (list Z)) := [[[0x11; 0x22]]; [[0x66; 0x77; 0x78]]].
Lemma latm_payload_roundtrip_witness :
  elements_encode two_elements 3 = [2; 0x11; 0x22; 3; 0x66; 0x77; 0x78; 0; 0; 0]
  ∧ Depacketize oob_depack (elements_encode two_elements 3)
    = Ok (oob_depack, inl (units 1024 0 (concat two_elements))).
Proof.
  split; [reflexivity|].
  apply (latm_payload_roundtrip oob_depack 1024 two_elements 3); try reflexivity; try discriminate.
  - split; cbn; try lia; try discriminate; [repeat constructor; by vm_compute | intros s [= <-]; cbn; lia].
  - repeat (apply Forall_cons_2); [| |apply Forall_nil_2];
      (split; [reflexivity|]; apply Forall_cons_2; [by vm_compute | apply Forall_nil_2]).
  - apply Forall_cons_2; [|apply Forall_nil_2]. apply Exists_cons_hd. discriminate.
Defined.

(** The configuration step on a well-formed StreamMuxConfig. *)
Lemma asc_width c : 16 ≤ width (asc_layout c) ≤ 54.
Proof. unfold asc_layout. destruct (_ =? 15), (ms_core c); cbn; lia. Qed.
Lemma asc_layout_pos c : Forall (λ f, 0 ≤ f.1) (asc_layout c).
Proof.
  unfold asc_layout.
  destruct (_ =? 15), (ms_core c); cbn; repeat (apply Forall_cons_2; [cbn; lia|]); constructor.
Qed.
Lemma tail_width c : 0 ≤ width (tail_layout c).
Proof.
  unfold tail_layout. rewrite !width_app. cbn [width].
  assert (0 ≤ width (match ms_crc c with Some crc => [(1, 1); (8, crc)] | None => [(1, 0)] end))
    by (destruct (ms_crc c); cbn; lia).
  destruct (ms_other c) as [|o l]; cbn [width]; [lia|].
  rewrite escapes_length by done. pose proof (blen_nonneg (o :: l)). lia.
Qed.

Lemma parse_smc_exact m b p c dst :
  bytes_ok b → 0 ≤ p → p + width (smc_layout c) ≤ 8 * blen b → carries b p (smc_layout c) → supported c →
  ∃ m' s, parseStreamMuxConfigBits m (mkReader b p) dst
    = (m', Ok (mkSMC (ms_sub c) 0, Some s, if ms_960 c then 960 else 1024,
               mkReader b (p + width (smc_layout c))))
    ∧ blen (contents m' (Some s)) = (width (asc_layout c) + 7) / 8
    ∧ carries (contents m' (Some s)) 0 (asc_layout c).
Proof.
  intros Hb Hp Hl Hc Hsup. unfold smc_layout in *. rewrite !width_app in *.
  rewrite !carries_app in Hc. destruct Hc as (Hhead & Hasc & Htail). cbn [width] in *.
  pose proof (asc_width c) as Wa. pose proof (tail_width c) as Wt.
  replace (p + (1 + (1 + (6 + (4 + (3 + 0)))))) with (p + 15) in * by lia.
  unfold parseStreamMuxConfigBits, parseASC.
  rewrite (parse_head_exact b p (ms_sub c)), bind_Ok by (done || lia || apply Hsup).
  rewrite (asc_fields_exact b (p + 15) c), bind_Ok by (done || lia). cbn [buf pos].
  replace (p + 15 + width (asc_layout c) - (p + 15)) with (width (asc_layout c)) by lia.
  destruct (extract_spec m dst b (p + 15) (width (asc_layout c))) as
    (m' & s & out & -> & Hout & Hok & Hlen & Hv & _); [done | lia | lia | lia |].
  rewrite bind_Ok, !bind_ret.
  exists m', s. rewrite Hout. split; [|split].
  - cbv [mret res_ret]. cbv iota beta.
    rewrite (parse_tail_exact b (p + 15 + width (asc_layout c)) c), bind_Ok by (done || lia).
    do 4 f_equal. lia.
  - done.
  - apply (carries_justified b out (p + 15) (width (asc_layout c))).
    + rewrite Hlen. Z.div_mod_to_equations. lia.
    + lia.
    + done.
    + lia.
    + apply asc_layout_pos.
    + lia.
    + by rewrite Z.add_0_r.
Qed.

(** The common case of the outer loop: the first element ends the payload. *)
Lemma elements_bits_one fuel d d' r base new r' span :
  depacketizeInBandElement d r base = (d', Ok (new, r', span)) → blen (buf r') * 8 ≤ pos r' →
  elements_bits (S fuel) d r base 0 [] = Ok (d', inl new).
Proof.
  intros E Hend. cbn [elements_bits]. change (MaxMuxElements <=? 0) with false. cbv iota.
  rewrite E. by rewrite (proj2 (Z.leb_le _ _) Hend).
Qed.

Lemma byteAlign_end b e :
  8 * blen b - 8 < e ≤ 8 * blen b →
  blen (buf (byteAlign (mkReader b e))) * 8 ≤ pos (byteAlign (mkReader b e)).
Proof.
  intros He. unfold byteAlign. cbn [pos buf].
  destruct (Z.eqb_spec (e mod 8) 0); cbn [pos buf]; Z.div_mod_to_equations; lia.
Qed.

(** C35: the in-band form is exact.  A payload that carries a supported
    StreamMuxConfig bit for bit (any escape bytes of other data, an optional CRC,
    an explicit sampling rate and a core-coder delay included), and then, at
    whatever bit offset that leaves, the length-prefixed access units of one
    element, is depacketized into exactly those access units; the number of
    subframes and the frame length are the configured ones, and the
    AudioSpecificConfig handed on is the embedded one, bit for bit, left-justified. *)
Theorem latm_inband_exact (d : Depacketizer) (b : list Z) (c : MuxSpec) (ds : list (list Z))
    (Hd : dp_ok d) (Hin : MuxConfigPresent (cfg d) = true) (Hb : bytes_ok b)
    (Hsup : supported c) (Hc : carries b 0 ((1, 0) :: smc_layout c))
    (Hn : blen ds = ms_sub c + 1) (Hds : Forall (λ u, blen u ≤ MaxMuxSlotBytes) ds)
    (Hend : 8 * blen b - 8 < 1 + width (smc_layout c) + 8 * blen (slots ds) ≤ 8 * blen b)
    (Hau : octets (length (slots ds)) b (1 + width (smc_layout c)) = slots ds) :
  let fl := if ms_960 c then 960 else 1024 in
  let ticks := if SamplesPerFrame (cfg d) =? 0 then fl else SamplesPerFrame (cfg d) in
  ∃ d' a, Depacketize d b = Ok (d', inl (units ticks 0 ds))
    ∧ numSubFrames (smc d') = ms_sub c ∧ frameLength d' = fl
    ∧ AudioSpecificConfig d' = Some a ∧ blen a = (width (asc_layout c) + 7) / 8
    ∧ carries a 0 (asc_layout c).
Proof.
  cbv zeta. destruct Hc as [H0 Hc]. pose proof (blen_nonneg (slots ds)) as Hsl.
  assert (Hw : 0 ≤ width (smc_layout c)).
  { unfold smc_layout. rewrite !width_app. pose proof (asc_width c). pose proof (tail_width c). cbn [width]. lia. }
  destruct (parse_smc_exact (mem d) b 1 c (ascBuf d) Hb ltac:(lia) ltac:(lia) Hc Hsup)
    as (m' & s & Hparse & Hlen & Hcar).
  set (fl := if ms_960 c then 960 else 1024) in *. set (q := 1 + width (smc_layout c)) in *.
  set (d' := install d (mkSMC (ms_sub c) 0) (Some s) fl (asc d) m').
  exists d', (contents m' (Some s)). split; [|split_and!; done].
  assert (Hmux : mux_config d (mkReader b 0) = (d', Ok (mkReader b q))).
  { unfold mux_config. rewrite (read_carry b 0 1 0) by (done || lia). change (0 =? 0) with true. cbv iota.
    change (0 + 1) with 1. by rewrite Hparse. }
  assert (Hlay : subFrameLayout d'
    = Ok (if SamplesPerFrame (cfg d) =? 0 then fl else SamplesPerFrame (cfg d))).
  { unfold subFrameLayout, MaxSubFrames. cbn. destruct Hsup as (Hsub & _).
    destruct (Z.ltb_spec 64 (ms_sub c + 1)); [lia|]. destruct Hd.
    rewrite u32_small by (unfold is_u32; lia). done. }
  set (ticks := if SamplesPerFrame (cfg d) =? 0 then fl else _) in *.
  assert (Htail : tail_octets b q = slots ds).
  { unfold tail_octets. rewrite <- Hau. f_equal. unfold blen in *. Z.div_mod_to_equations. lia. }
  pose proof (element_shift (length ds) b q 0 ticks 0 0 Hb ltac:(lia) ltac:(lia) ltac:(lia)) as E.
  pose proof (element_encode ticks 0 ds [] [] 0 0 0 Hds eq_refl eq_refl) as Ee. cbn [app] in Ee.
  rewrite app_nil_r, (@blen_nil Z), Z.add_0_l in Ee.
  rewrite Z.mul_0_r, Z.add_0_r, Htail, Ee in E. unfold shift_to in E. rewrite bind_Ok in E.
  unfold Depacketize. rewrite Hin.
  apply (elements_bits_one 65 d d' (mkReader b 0) 0 _ (byteAlign (mkReader b (q + 8 * blen (slots ds))))
    (u32 ((ms_sub c + 1) * ticks))); [|by apply byteAlign_end].
  unfold depacketizeInBandElement. rewrite Hmux, Hlay, bind_Ok. cbn [smc d' install numSubFrames].
  replace (Z.to_nat (ms_sub c + 1)) with (length ds) by (unfold blen in Hn; lia).
  by rewrite E, bind_ret.
Qed.

(** An explicit rate, a core-coder delay, two escape bytes and a CRC. *)
Definition inband_spec : MuxSpec := mkSpec 1 2 15 44100 2 false (Some 0x123) 0xFF [5; 6] (Some 9).
Definition inband_depack : Depacketizer :=
  mkDepack (mkConfig true [] 0) (mkSMC 0 0) false None 0 None [].
Definition inband_payload : list Z := [32; 128; 23; 128; 86; 34; 18; 9; 24; 127; 224; 160; 104; 72; 16; 137; 16; 9; 152].
Definition inband_units : list (list Z) := [[0x11; 0x22]; [0x33]].
Lemma latm_inband_exact_witness :
  ∃ d' a, Depacketize inband_depack inband_payload = Ok (d', inl (units 1024 0 inband_units))
    ∧ numSubFrames (smc d') = 1 ∧ frameLength d' = 1024
    ∧ AudioSpecificConfig d' = Some a ∧ blen a = (width (asc_layout inband_spec) + 7) / 8
    ∧ carries a 0 (asc_layout inband_spec).
Proof.
  apply (latm_inband_exact inband_depack inband_payload inband_spec inband_units).
  - split; cbn; try lia; try discriminate; constructor.

  - reflexivity.
  - repeat constructor; by vm_compute.
  - split; [cbn; lia | split; [reflexivity | discriminate]].
  - vm_compute. repeat split.
  - reflexivity.
  - apply Forall_cons_2; [by vm_compute|]. apply Forall_cons_2; [by vm_compute | apply Forall_nil_2].
  - by vm_compute.
  - by vm_compute.
Defined.
End latm.
