(* ===== verification/TsDemux.v ===== *)
(** * The MPEG transport stream demuxer: [hlssource/tsdemux.go]

    Packet alignment, PSI section reassembly, PAT and PMT, the continuity counter,
    PES headers, and the ADTS framer they feed.  [onAU] is modelled by the list of
    the access units handed to it, in order. *)
From S2P Require Import Prelude Bytes Adts Framer AdtsFrame.

Module tsdemux.

Definition tsPacketLen : Z := 188.
Definition tsSync : Z := 0x47.
Definition nullPID : Z := 0x1FFF.
Definition patPID : Z := 0.
Definition streamTypeAAC : Z := 0x0F.
Definition streamTypeMP3a : Z := 0x03.
Definition streamTypeMP3b : Z := 0x04.
Definition streamTypeLATM : Z := 0x11.

Inductive err := ErrMalformedSegment | ErrUnsupportedCodec | ErrUnsupportedPlaylist.

(** An access unit and its duration. *)
Abbreviation AU := (list Z * Z)%type.

Record tsDemux := mkDemux {
  pmtPID : Z; havePMT : bool; audioPID : Z; haveAudio : bool;
  patSec : list Z; pmtSec : list Z;
  pesHdrSkip : Z; pesDropping : bool;
  framer : adtsframe.Stream; asc : option (list Z); accumGaps : Z;
  audioCC : Z; haveCC : bool
}.

Definition newTSDemux : tsDemux :=
  mkDemux 0 false 0 false [] [] 0 false adtsframe.NewStream None 0 0 false.

Definition set_pmt (pid : Z) (d : tsDemux) : tsDemux :=
  mkDemux pid true (audioPID d) (haveAudio d) (patSec d) (pmtSec d) (pesHdrSkip d) (pesDropping d)
    (framer d) (asc d) (accumGaps d) (audioCC d) (haveCC d).
Definition set_audio (pid : Z) (d : tsDemux) : tsDemux :=
  mkDemux (pmtPID d) (havePMT d) pid true (patSec d) (pmtSec d) (pesHdrSkip d) (pesDropping d)
    (framer d) (asc d) (accumGaps d) (audioCC d) (haveCC d).
Definition set_secs (pat pmt : list Z) (d : tsDemux) : tsDemux :=
  mkDemux (pmtPID d) (havePMT d) (audioPID d) (haveAudio d) pat pmt (pesHdrSkip d) (pesDropping d)
    (framer d) (asc d) (accumGaps d) (audioCC d) (haveCC d).
Definition set_pes (skip : Z) (dropping : bool) (d : tsDemux) : tsDemux :=
  mkDemux (pmtPID d) (havePMT d) (audioPID d) (haveAudio d) (patSec d) (pmtSec d) skip dropping
    (framer d) (asc d) (accumGaps d) (audioCC d) (haveCC d).
Definition set_framer (f : adtsframe.Stream) (a : option (list Z)) (d : tsDemux) : tsDemux :=
  mkDemux (pmtPID d) (havePMT d) (audioPID d) (haveAudio d) (patSec d) (pmtSec d)
    (pesHdrSkip d) (pesDropping d) f a (accumGaps d) (audioCC d) (haveCC d).
Definition set_gaps (g : Z) (d : tsDemux) : tsDemux :=
  mkDemux (pmtPID d) (havePMT d) (audioPID d) (haveAudio d) (patSec d) (pmtSec d)
    (pesHdrSkip d) (pesDropping d) (framer d) (asc d) g (audioCC d) (haveCC d).
Definition set_cc (cc : Z) (have : bool) (d : tsDemux) : tsDemux :=
  mkDemux (pmtPID d) (havePMT d) (audioPID d) (haveAudio d) (patSec d) (pmtSec d)
    (pesHdrSkip d) (pesDropping d) (framer d) (asc d) (accumGaps d) cc have.

(** ** The framer *)

(** The loop over [NextFrame]: the first frame ever resolves the
    AudioSpecificConfig. *)
Fixpoint drain_au (fuel : nat) (f : adtsframe.Stream) (a : option (list Z))
    : res no_err (list AU * adtsframe.Stream * option (list Z)) :=
  match fuel with
  | O => Panic
  | S fuel =>
      '(o, f) ← adtsframe.NextFrame f;
      match o with
      | None => mret ([], f, a)
      | Some au =>
          let a := match a with
                   | None => Some (adts.AudioSpecificConfig (adtsframe.hdr f))
                   | Some _ => a
                   end in
          '(aus, f, a) ← drain_au fuel f a; mret (au :: aus, f, a)
      end
  end.

Definition drain_framer (f : adtsframe.Stream) (a : option (list Z)) :=
  drain_au (framer.next_fuel f) f a.

Definition feed (es : list Z) (d : tsDemux) : res no_err (tsDemux * list AU) :=
  if blen es =? 0 then mret (d, [])
  else
    '(aus, f, a) ← drain_framer (adtsframe.Feed es (framer d)) (asc d);
    mret (set_framer (adtsframe.Compact f) a d, aus).

(** [end]. *)
Definition end_ (d : tsDemux) : res no_err (tsDemux * list AU) :=
  '(aus, f, a) ← drain_framer (adtsframe.SetEOF (framer d)) (asc d);
  mret (set_framer (adtsframe.Finish f) a d, aus).

Definition resetContinuity (d : tsDemux) : res no_err (tsDemux * list AU) :=
  '(d, aus) ← end_ d;
  let d := set_gaps (u64 (accumGaps d + adtsframe.GapCount (framer d))) d in
  mret (set_pes 0 false (set_framer adtsframe.NewStream (asc d) d), aus).

Definition resetDomain (d : tsDemux) : res no_err (tsDemux * list AU) :=
  '(d, aus) ← resetContinuity d;
  mret (mkDemux (pmtPID d) false (audioPID d) false [] [] (pesHdrSkip d) (pesDropping d)
          (framer d) (asc d) (accumGaps d) (audioCC d) false, aus).

Definition audioSpecificConfig (d : tsDemux) : option (list Z) := asc d.
Definition gapCount (d : tsDemux) : Z := u64 (accumGaps d + adtsframe.GapCount (framer d)).

(** ** Packets *)

(** [tsResync]: [i] is the offset of the head of the suffix [b]. *)
Fixpoint resync_from (i : Z) (b : list Z) : res no_err (option Z) :=
  match b with
  | [] => mret None
  | x :: rest =>
      if negb (x =? tsSync) then resync_from (i + 1) rest
      else if blen b <=? tsPacketLen then mret (Some i)
      else
        y ← byte_at b tsPacketLen;
        if y =? tsSync then mret (Some i) else resync_from (i + 1) rest
  end.
Definition tsResync (b : list Z) : res no_err (option Z) := resync_from 0 b.

Definition tsPayload (pkt : list Z) : res no_err (option (list Z)) :=
  b3 ← byte_at pkt 3;
  let afc := Z.land (Z.shiftr b3 4) 0x03 in
  if afc =? 1 then p ← slice_from pkt 4; mret (Some p)
  else if afc =? 3 then
    afLen ← byte_at pkt 4;
    let start := 5 + afLen in
    if tsPacketLen <=? start then mret None
    else p ← slice_from pkt start; mret (Some p)
  else mret None.

Definition tsDiscIndicator (pkt : list Z) : res no_err bool :=
  b3 ← byte_at pkt 3;
  let afc := Z.land (Z.shiftr b3 4) 0x03 in
  if negb (afc =? 2) && negb (afc =? 3) then mret false
  else
    afLen ← byte_at pkt 4;
    if afLen =? 0 then mret false
    else b5 ← byte_at pkt 5; mret (negb (Z.land b5 0x80 =? 0)).

(** [psiSection]: the buffer after the call, and the section when it is complete. *)
Definition psiSection (buf payload : list Z) (pusi : bool) : res no_err (list Z * option (list Z)) :=
  start ← (if pusi then
             if blen payload <? 1 then mret (inl buf)
             else
               ptr ← byte_at payload 0;
               if blen payload <? 1 + ptr then mret (inl buf)
               else p ← slice_from payload (1 + ptr); mret (inr p)
           else if blen buf =? 0 then mret (inl buf)
           else mret (inr (buf ++ payload)));
  match start with
  | inl buf => mret (buf, None)
  | inr sec =>
      if blen sec <? 3 then mret (sec, None)
      else
        b1 ← byte_at sec 1;
        b2 ← byte_at sec 2;
        let total := 3 + Z.lor (Z.shiftl (Z.land b1 0x0F) 8) b2 in
        if blen sec <? total then mret (sec, None)
        else s ← slice sec 0 total; mret ([], Some s)
  end.

Definition psiBody (sec : list Z) (tableID : Z) : res no_err (option (list Z)) :=
  if blen sec <? 12 then mret None
  else
    b0 ← byte_at sec 0;
    if negb (b0 =? tableID) then mret None
    else
      b1 ← byte_at sec 1;
      b2 ← byte_at sec 2;
      let end_ := 3 + Z.lor (Z.shiftl (Z.land b1 0x0F) 8) b2 in
      if (blen sec <? end_) || (end_ <? 3 + 5 + 4) then mret None
      else s ← slice sec 8 (end_ - 4); mret (Some s).

Definition pid_at {E} (b : list Z) (i : Z) : res E Z :=
  hi ← byte_at b i; lo ← byte_at b (i + 1);
  mret (Z.lor (Z.shiftl (Z.land hi 0x1F) 8) lo).

(** The program loop of [parsePAT], from offset [i] on. *)
Fixpoint pat_loop (fuel : nat) (body : list Z) (i : Z) (d : tsDemux) : res no_err tsDemux :=
  match fuel with
  | O => Panic
  | S fuel =>
      if blen body <? i + 4 then mret d
      else
        p0 ← byte_at body i;
        p1 ← byte_at body (i + 1);
        let prog := Z.lor (Z.shiftl p0 8) p1 in
        pid ← pid_at body (i + 2);
        if negb (prog =? 0) then mret (set_pmt pid d)
        else pat_loop fuel body (i + 4) d
  end.
Definition parsePAT (sec : list Z) (d : tsDemux) : res no_err tsDemux :=
  b ← psiBody sec 0x00;
  match b with
  | None => mret d
  | Some body => pat_loop (S (length body)) body 0 d
  end.

(** The elementary-stream loop of [parsePMT]. *)
Fixpoint pmt_loop (fuel : nat) (body : list Z) (i : Z) (sawOtherAudio : bool) (d : tsDemux)
    : res no_err (tsDemux * option err) :=
  match fuel with
  | O => Panic
  | S fuel =>
      if blen body <? i + 5 then
        mret (d, if negb (haveAudio d) && sawOtherAudio then Some ErrUnsupportedCodec else None)
      else
        streamType ← byte_at body i;
        pid ← pid_at body (i + 1);
        b3 ← byte_at body (i + 3);
        b4 ← byte_at body (i + 4);
        let esil := Z.lor (Z.shiftl (Z.land b3 0x0F) 8) b4 in
        if streamType =? streamTypeAAC then mret (set_audio pid d, None)
        else
          let other := (streamType =? streamTypeMP3a) || (streamType =? streamTypeMP3b)
                       || (streamType =? streamTypeLATM) in
          pmt_loop fuel body (i + (5 + esil)) (sawOtherAudio || other) d
  end.
Definition parsePMT (sec : list Z) (d : tsDemux) : res no_err (tsDemux * option err) :=
  b ← psiBody sec 0x02;
  match b with
  | None => mret (d, None)
  | Some body =>
      if blen body <? 4 then mret (d, None)
      else
        b2 ← byte_at body 2;
        b3 ← byte_at body 3;
        let pil := Z.lor (Z.shiftl (Z.land b2 0x0F) 8) b3 in
        pmt_loop (S (length body)) body (4 + pil) false d
  end.

Definition handlePES (payload : list Z) (pusi : bool) (d : tsDemux) : res no_err (tsDemux * list AU) :=
  if pusi then
    let d := set_pes 0 false d in
    if blen payload <? 9 then mret (set_pes 0 true d, [])
    else
      b0 ← byte_at payload 0;
      b1 ← byte_at payload 1;
      b2 ← byte_at payload 2;
      if negb (b0 =? 0) || negb (b1 =? 0) || negb (b2 =? 1) then mret (set_pes 0 true d, [])
      else
        b8 ← byte_at payload 8;
        let esStart := 9 + b8 in
        if esStart <=? blen payload then es ← slice_from payload esStart; feed es d
        else mret (set_pes (esStart - blen payload) false d, [])
  else if pesDropping d then mret (d, [])
  else if 0 <? pesHdrSkip d then
    let skip := Z.min (pesHdrSkip d) (blen payload) in
    payload ← slice_from payload skip;
    feed payload (set_pes (pesHdrSkip d - skip) false d)
  else feed payload d.

(** The audio case of [handlePacket]: the continuity counter, then the PES. *)
Definition handleAudio (payload : list Z) (pusi : bool) (cc : Z) (d : tsDemux)
    : res no_err (tsDemux * list AU) :=
  if haveCC d && (cc =? audioCC d) then mret (d, [])
  else
    '(d, aus) ← (if negb (haveCC d) || (cc =? Z.land (audioCC d + 1) 0x0F) then mret (d, [])
                 else
                   '(d, aus) ← resetContinuity d;
                   mret (set_gaps (u64 (accumGaps d + 1)) d, aus));
    '(d, aus') ← handlePES payload pusi (set_cc cc true d);
    mret (d, aus ++ aus').

(** Routing by PID, once the payload is located. *)
Definition route (pid : Z) (payload : list Z) (pusi : bool) (cc : Z) (d : tsDemux)
    : res no_err (tsDemux * list AU * option err) :=
  if pid =? patPID then
    '(buf, sec) ← psiSection (patSec d) payload pusi;
    let d := set_secs buf (pmtSec d) d in
    match sec with
    | Some sec => d ← parsePAT sec d; mret (d, [], None)
    | None => mret (d, [], None)
    end
  else if havePMT d && (pid =? pmtPID d) then
    '(buf, sec) ← psiSection (pmtSec d) payload pusi;
    let d := set_secs (patSec d) buf d in
    match sec with
    | Some sec => '(d, e) ← parsePMT sec d; mret (d, [], e)
    | None => mret (d, [], None)
    end
  else if haveAudio d && (pid =? audioPID d) then
    '(d, aus) ← handleAudio payload pusi cc d; mret (d, aus, None)
  else mret (d, [], None).

Definition handlePacket (pkt : list Z) (d : tsDemux) : res no_err (tsDemux * list AU * option err) :=
  b1 ← byte_at pkt 1;
  if negb (Z.land b1 0x80 =? 0) then mret (d, [], None)
  else
    b3 ← byte_at pkt 3;
    if negb (Z.land b3 0xC0 =? 0) then mret (d, [], Some ErrUnsupportedPlaylist)
    else
      let pusi := negb (Z.land b1 0x40 =? 0) in
      pid ← pid_at pkt 1;
      if pid =? nullPID then mret (d, [], None)
      else
        '(d, aus) ← (if haveAudio d && (pid =? audioPID d) then
                       disc ← tsDiscIndicator pkt;
                       if (disc : bool) then
                         '(d, aus) ← resetContinuity d; mret (set_cc (audioCC d) false d, aus)
                       else mret (d, [])
                     else mret (d, []));
        p ← tsPayload pkt;
        match p with
        | None => mret (d, aus, None)
        | Some payload =>
            '(d, aus', e) ← route pid payload pusi (Z.land b3 0x0F) d;
            mret (d, aus ++ aus', e)
        end.

(** The packet loop of [demux]. *)
Fixpoint demux_loop (fuel : nat) (seg : list Z) (off : Z) (d : tsDemux)
    : res no_err (tsDemux * list AU * option err) :=
  match fuel with
  | O => Panic
  | S fuel =>
      if blen seg <? off + tsPacketLen then mret (d, [], None)
      else
        pkt ← slice seg off (off + tsPacketLen);
        b0 ← byte_at pkt 0;
        if negb (b0 =? tsSync) then
          rest ← slice_from seg off;
          r ← tsResync rest;
          match r with
          | Some r => demux_loop fuel seg (off + r) d
          | None => mret (d, [], None)
          end
        else
          '(d, aus, e) ← handlePacket pkt d;
          match e with
          | Some _ => mret (d, aus, e)
          | None =>
              '(d, aus', e) ← demux_loop fuel seg (off + tsPacketLen) d;
              mret (d, aus ++ aus', e)
          end
  end.

Definition demux (seg : list Z) (discontinuity : bool) (d : tsDemux)
    : res no_err (tsDemux * list AU * option err) :=
  '(d, aus) ← (if discontinuity then resetDomain d else mret (d, []));
  let d := set_cc (audioCC d) false d in
  start ← tsResync seg;
  match start with
  | None => mret (d, aus, Some ErrMalformedSegment)
  | Some start =>
      '(d, aus', e) ← demux_loop (S (length seg)) seg start d;
      mret (d, aus ++ aus', e)
  end.

(** ** Invariant *)
Definition au_ok (f : AU) : Prop := 0 < f.2 ∧ 0 < blen f.1.

(** The longest incomplete section: three octets of prefix and a 12-bit length. *)
Definition maxSection : Z := 3 + 4095.

Record demux_ok (d : tsDemux) : Prop := {
  do_framer : adtsframe.stream_ok (framer d);
  do_pat : bytes_ok (patSec d) ∧ blen (patSec d) ≤ maxSection;
  do_pmt : bytes_ok (pmtSec d) ∧ blen (pmtSec d) ≤ maxSection;
  do_skip : 0 ≤ pesHdrSkip d
}.

(** What an operation that delivers access units guarantees. *)
Definition good (d : tsDemux) (m : res no_err (tsDemux * list AU)) : Prop :=
  ∃ d' aus, m = Ok (d', aus) ∧ demux_ok d' ∧ Forall au_ok aus
    ∧ (aus ≠ [] → asc d' ≠ None) ∧ (asc d ≠ None → asc d' ≠ None).
Definition good_e (d : tsDemux) (m : res no_err (tsDemux * list AU * option err)) : Prop :=
  ∃ d' aus e, m = Ok (d', aus, e) ∧ demux_ok d' ∧ Forall au_ok aus
    ∧ (aus ≠ [] → asc d' ≠ None) ∧ (asc d ≠ None → asc d' ≠ None).

(** The demuxer's drain is the framer's, with the configuration on the side. *)
Lemma drain_au_drain fuel : ∀ f a fs f',
  framer.drain_loop fuel f = Ok (fs, f') →
  ∃ a', drain_au fuel f a = Ok (fs, f', a') ∧ (a ≠ None → a' = a) ∧ (fs ≠ [] → a' ≠ None).
Proof.
  induction fuel as [|fuel IH]; intros f a fs f'; cbn [framer.drain_loop drain_au]; [done|].
  unfold adtsframe.NextFrame. destruct (framer.NextFrame f) as [[[au|] f1]|e|]; [| |done|done];
    rewrite !bind_Ok; cbv beta iota.
  - destruct (framer.drain_loop fuel f1) as [[fs' f2]|e|] eqn:E'; [|done|done].
    rewrite bind_Ok. intros [= <- <-].
    set (a1 := match a with None => _ | Some _ => a end).
    destruct (IH f1 a1 fs' f2 E') as (a' & -> & Hk & _). rewrite bind_Ok.
    assert (a1 ≠ None) by (unfold a1; by destruct a).
    exists a'. split; [done|]. rewrite (Hk H). split; [|done]. unfold a1. by destruct a.
  - intros [= <- <-]. exists a. done.
Qed.

Lemma drain_framer_ok f a :
  adtsframe.stream_ok f →
  ∃ fs f' a', framer.drain f = Ok (fs, f') ∧ drain_framer f a = Ok (fs, f', a')
    ∧ adtsframe.stream_ok f' ∧ Forall au_ok fs ∧ (a ≠ None → a' = a) ∧ (fs ≠ [] → a' ≠ None).
Proof.
  intros Hf. destruct (framer.drain_ok f (adtsframe.wf_of f Hf)) as (fs & f' & E & Hf' & _ & _ & Hau & _).
  destruct (drain_au_drain _ f a fs f' E) as (a' & E' & Hk & Hn).
  exists fs, f', a'. split_and!; done.
Qed.

Lemma asc_kept a a' : (a ≠ None → a' = a) → a ≠ None → a' ≠ @None (list Z).
Proof. intros H Ha. by rewrite (H Ha). Qed.

Lemma good_refl d : demux_ok d → good d (mret (d, [])).
Proof. intros Hd. exists d, []. split_and!; try done; constructor. Qed.

Lemma feed_good es d : demux_ok d → bytes_ok es → good d (feed es d).
Proof.
  intros Hd Hes. unfold feed. destruct (blen es =? 0); [by apply good_refl|].
  destruct (framer.wf_feed (framer d) es (adtsframe.wf_of _ (do_framer d Hd)) Hes) as [Hf _].
  destruct (drain_framer_ok (adtsframe.Feed es (framer d)) (asc d) Hf)
    as (fs & f' & a' & _ & -> & Hf' & Hau & Hk & Hn).
  rewrite bind_Ok. cbv beta iota.
  destruct (framer.wf_compact f' (adtsframe.wf_of _ Hf')) as [Hf'' _].
  eexists _, _. split; [done|]. destruct Hd. split_and!; try done. exact (asc_kept _ _ Hk).
Qed.

Lemma end_good d : demux_ok d → good d (end_ d).
Proof.
  intros Hd. unfold end_.
  destruct (framer.wf_eof (framer d) (adtsframe.wf_of _ (do_framer d Hd))) as [Hf _].
  destruct (drain_framer_ok (adtsframe.SetEOF (framer d)) (asc d) Hf)
    as (fs & f' & a' & _ & -> & Hf' & Hau & Hk & Hn).
  rewrite bind_Ok. cbv beta iota.
  destruct (framer.wf_finish f' (adtsframe.wf_of _ Hf')) as [Hf'' _].
  eexists _, _. split; [done|]. destruct Hd. split_and!; try done. exact (asc_kept _ _ Hk).
Qed.

Lemma resetContinuity_good d : demux_ok d → good d (resetContinuity d).
Proof.
  intros Hd. unfold resetContinuity. destruct (end_good d Hd) as (d' & aus & -> & Hd' & Hau & Hn & Hk).
  rewrite bind_Ok. eexists _, _. split; [done|]. destruct Hd'. split_and!; try done.
  split; cbn; try done. apply adtsframe.NewStream_ok.
Qed.

Lemma resetDomain_good d : demux_ok d → good d (resetDomain d).
Proof.
  intros Hd. unfold resetDomain.
  destruct (resetContinuity_good d Hd) as (d' & aus & -> & Hd' & Hau & Hn & Hk).
  rewrite bind_Ok. eexists _, _. split; [done|]. destruct Hd'. split_and!; try done.
  split; cbn; try done; (split; [constructor|by vm_compute]).
Qed.

Lemma set_pes_ok skip dropping d : demux_ok d → 0 ≤ skip → demux_ok (set_pes skip dropping d).
Proof. intros [] ?. by split. Qed.
Lemma set_cc_ok cc have d : demux_ok d → demux_ok (set_cc cc have d).
Proof. intros []. by split. Qed.

(** Sequencing two operations that deliver. *)
Lemma good_seq d m (f : tsDemux → res no_err (tsDemux * list AU)) :
  good d m → (∀ d', demux_ok d' → good d' (f d')) →
  good d ('(d, aus) ← m; '(d, aus') ← f d; mret (d, aus ++ aus')).
Proof.
  intros (d' & aus & -> & Hd' & Hau & Hn & Hk) Hf. rewrite bind_Ok.
  destruct (Hf d' Hd') as (d'' & aus' & -> & Hd'' & Hau' & Hn' & Hk'). rewrite bind_Ok.
  eexists _, _. split; [done|]. split_and!; [done | by apply Forall_app_2 | | auto].
  intros Hne. destruct aus as [|x aus]; [by apply Hn'|]. apply Hk', Hn. done.
Qed.

Lemma handlePES_good payload pusi d : demux_ok d → bytes_ok payload → good d (handlePES payload pusi d).
Proof.
  intros Hd Hp. unfold handlePES. destruct pusi.
  - assert (Hd0 : demux_ok (set_pes 0 false d)) by (by apply set_pes_ok).
    assert (Hdrop : good d (mret (set_pes 0 true (set_pes 0 false d), []))).
    { eexists _, _. split; [done|]. split_and!; try done. by apply set_pes_ok. }
    destruct (Z.ltb_spec (blen payload) 9); [done|].
    do 3 byte_read. destruct (_ || negb (_ =? 1)); [done|].
    destruct (@byte_at_inside no_err payload 8 ltac:(lia)) as (b8 & -> & Hb8). rewrite bind_Ok.
    assert (H8 : is_u8 b8) by (exact (Forall_lookup_1 _ _ _ _ Hp Hb8)). unfold is_u8 in H8.
    destruct (Z.leb_spec (9 + b8) (blen payload)).
    + rewrite slice_from_ok, bind_Ok by lia.
      apply (feed_good _ _ Hd0). by apply Forall_drop.
    + eexists _, _. split; [done|]. split_and!; try done. apply set_pes_ok; [done|lia].
  - destruct (pesDropping d); [by apply good_refl|]. destruct (Z.ltb_spec 0 (pesHdrSkip d)).
    + rewrite slice_from_ok, bind_Ok by (pose proof (blen_nonneg payload); lia).
      assert (Hd1 : demux_ok (set_pes (pesHdrSkip d - Z.min (pesHdrSkip d) (blen payload)) false d))
        by (apply set_pes_ok; [done|lia]).
      apply (feed_good _ _ Hd1). by apply Forall_drop.
    + by apply feed_good.
Qed.

Lemma handleAudio_good payload pusi cc d :
  demux_ok d → bytes_ok payload → good d (handleAudio payload pusi cc d).
Proof.
  intros Hd Hp. unfold handleAudio. destruct (_ && _); [by apply good_refl|].
  apply (good_seq d _ (λ d, handlePES payload pusi (set_cc cc true d))).
  - destruct (_ || _); [by apply good_refl|].
    destruct (resetContinuity_good d Hd) as (d' & aus & -> & Hd' & Hau & Hn & Hk). rewrite bind_Ok.
    eexists _, _. split; [done|]. destruct Hd'. by split_and!.
  - intros d' Hd'. apply (handlePES_good _ _ (set_cc cc true d')); [by apply set_cc_ok | done].
Qed.

Lemma byte_u8 {E} l i : bytes_ok l → 0 ≤ i < blen l → ∃ b, @byte_at E l i = Ok b ∧ is_u8 b.
Proof.
  intros Hl Hi. destruct (@byte_at_inside E l i Hi) as (b & E1 & E2).
  exists b. split; [done|]. exact (Forall_lookup_1 _ _ _ _ Hl E2).
Qed.

(** A 12-bit length. *)
Lemma len12_range b1 b2 : is_u8 b2 → 0 ≤ Z.lor (Z.shiftl (Z.land b1 0x0F) 8) b2 ≤ 4095.
Proof.
  unfold is_u8. intros H2. rewrite (land_ones_mod 4) by done.
  rewrite lor_shiftl_add by lia. pose proof (Z.mod_pos_bound b1 (2 ^ 4) ltac:(lia)). lia.
Qed.

Definition section_ok (s : list Z) : Prop := bytes_ok s ∧ blen s ≤ maxSection.

Lemma psiSection_ok buf payload pusi :
  section_ok buf → bytes_ok payload →
  ∃ buf' sec, psiSection buf payload pusi = Ok (buf', sec) ∧ section_ok buf' ∧
    match sec with Some s => section_ok s ∧ 3 ≤ blen s ∧ buf' = [] | None => True end.
Proof.
  intros [Hb Hl] Hp. unfold psiSection.
  assert (Hfin : ∀ sec, bytes_ok sec → ∃ buf' s,
    (if blen sec <? 3 then mret (sec, None) else
       b1 ← byte_at sec 1; b2 ← byte_at sec 2;
       if blen sec <? 3 + Z.lor (Z.shiftl (Z.land b1 0x0F) 8) b2 then mret (sec, None)
       else s ← slice sec 0 (3 + Z.lor (Z.shiftl (Z.land b1 0x0F) 8) b2); mret ([], Some s))
    = @Ok no_err _ (buf', s) ∧ section_ok buf' ∧
    match s with Some s => section_ok s ∧ 3 ≤ blen s ∧ buf' = [] | None => True end).
  { intros sec Hs. destruct (Z.ltb_spec (blen sec) 3).
    { eexists _, _. split; [done|]. split; [|done]. split; [done|]. unfold maxSection. lia. }
    destruct (@byte_u8 no_err sec 1 Hs ltac:(lia)) as (b1 & -> & _). rewrite bind_Ok.
    destruct (@byte_u8 no_err sec 2 Hs ltac:(lia)) as (b2 & -> & H2). rewrite bind_Ok.
    pose proof (len12_range b1 b2 H2). set (t := Z.lor _ _) in *. clearbody t.
    destruct (Z.ltb_spec (blen sec) (3 + t)).
    { eexists _, _. split; [done|]. split; [|done]. split; [done|]. unfold maxSection. lia. }
    destruct (slice (E:=no_err) sec 0 (3 + t)) as [s|e|] eqn:Es;
      [|by apply slice_not_err in Es|by exfalso; revert Es; apply slice_no_panic; lia].
    rewrite bind_Ok. eexists _, _. split; [done|].
    pose proof (slice_length _ _ _ _ Es). pose proof (slice_bytes_ok _ _ _ _ Hs Es).
    split; [by split; [constructor|]|]. split; [|split; [lia|done]]. split; [done|].
    unfold maxSection. lia. }
  destruct pusi.
  - destruct (Z.ltb_spec (blen payload) 1); [eexists _, None; by split_and!|].
    destruct (@byte_u8 no_err payload 0 Hp ltac:(lia)) as (ptr & -> & Hptr). rewrite bind_Ok.
    unfold is_u8 in Hptr. destruct (Z.ltb_spec (blen payload) (1 + ptr)); [eexists _, None; by split_and!|].
    rewrite slice_from_ok, bind_Ok, bind_ret by lia. apply Hfin. by apply Forall_drop.
  - destruct (blen buf =? 0); [eexists _, None; by split_and!|].
    rewrite bind_ret. apply Hfin. by apply Forall_app_2.
Qed.

Lemma psiBody_ok sec t :
  bytes_ok sec → ∃ o, psiBody sec t = Ok o ∧ ∀ body, o = Some body → bytes_ok body.
Proof.
  intros Hs. unfold psiBody. destruct (Z.ltb_spec (blen sec) 12); [by eexists|].
  destruct (@byte_u8 no_err sec 0 Hs ltac:(lia)) as (b0 & -> & _). rewrite bind_Ok.
  destruct (negb _); [by eexists|].
  destruct (@byte_u8 no_err sec 1 Hs ltac:(lia)) as (b1 & -> & _). rewrite bind_Ok.
  destruct (@byte_u8 no_err sec 2 Hs ltac:(lia)) as (b2 & -> & H2). rewrite bind_Ok.
  pose proof (len12_range b1 b2 H2). set (t' := Z.lor _ _) in *. clearbody t'.
  destruct (_ || _) eqn:Ht; [by eexists|]. apply orb_false_iff in Ht as [Hlo Hhi].
  apply Z.ltb_ge in Hlo, Hhi. destruct (slice (E:=no_err) sec 8 (3 + t' - 4)) as [s|e|] eqn:Es;
    [|by apply slice_not_err in Es|by exfalso; revert Es; apply slice_no_panic; lia].
  rewrite bind_Ok. eexists. split; [done|]. intros ? [= <-]. by eapply slice_bytes_ok.
Qed.

(** What the PSI parsers may touch: the learned PIDs. *)
Definition same_audio (d d' : tsDemux) : Prop :=
  framer d' = framer d ∧ asc d' = asc d ∧ patSec d' = patSec d ∧ pmtSec d' = pmtSec d
  ∧ pesHdrSkip d' = pesHdrSkip d.

Lemma same_audio_ok d d' : same_audio d d' → demux_ok d → demux_ok d'.
Proof. intros (Hf & _ & Hp & Hm & Hs) []. split; by rewrite ?Hf, ?Hp, ?Hm, ?Hs. Qed.

Lemma pid_at_ok {E} b i : bytes_ok b → 0 ≤ i → i + 1 < blen b → ∃ p, @pid_at E b i = Ok p.
Proof.
  intros Hb Hi Hl. unfold pid_at. destruct (@byte_u8 E b i Hb ltac:(lia)) as (hi & -> & _).
  rewrite bind_Ok. destruct (@byte_u8 E b (i + 1) Hb ltac:(lia)) as (lo & -> & _).
  rewrite bind_Ok. by eexists.
Qed.

Lemma pat_loop_ok body d : bytes_ok body → ∀ fuel i, 0 ≤ i → Z.max 0 (blen body - i) < Z.of_nat fuel →
  ∃ d', pat_loop fuel body i d = Ok d' ∧ same_audio d d'.
Proof.
  intros Hb. induction fuel as [|fuel IH]; intros i Hi Hf; cbn [pat_loop].
  { lia. }
  destruct (Z.ltb_spec (blen body) (i + 4)); [by exists d|].
  destruct (@byte_u8 no_err body i Hb ltac:(lia)) as (p0 & -> & _). rewrite bind_Ok.
  destruct (@byte_u8 no_err body (i + 1) Hb ltac:(lia)) as (p1 & -> & _). rewrite bind_Ok.
  destruct (@pid_at_ok no_err body (i + 2) Hb ltac:(lia) ltac:(lia)) as (p & ->). rewrite bind_Ok.
  destruct (negb _); [by eexists|]. apply IH; lia.
Qed.

Lemma pmt_loop_ok body d : bytes_ok body → ∀ fuel i o, 0 ≤ i → Z.max 0 (blen body - i) < Z.of_nat fuel →
  ∃ d' e, pmt_loop fuel body i o d = Ok (d', e) ∧ same_audio d d'.
Proof.
  intros Hb. induction fuel as [|fuel IH]; intros i o Hi Hf; cbn [pmt_loop].
  { lia. }
  destruct (Z.ltb_spec (blen body) (i + 5)); [by eexists _, _|].
  destruct (@byte_u8 no_err body i Hb ltac:(lia)) as (st & -> & _). rewrite bind_Ok.
  destruct (@pid_at_ok no_err body (i + 1) Hb ltac:(lia) ltac:(lia)) as (p & ->). rewrite bind_Ok.
  destruct (@byte_u8 no_err body (i + 3) Hb ltac:(lia)) as (b3 & -> & _). rewrite bind_Ok.
  destruct (@byte_u8 no_err body (i + 4) Hb ltac:(lia)) as (b4 & -> & H4). rewrite bind_Ok.
  pose proof (len12_range b3 b4 H4).
  destruct (st =? streamTypeAAC); [by eexists _, _|]. apply IH; lia.
Qed.

Lemma parsePAT_ok sec d : bytes_ok sec → ∃ d', parsePAT sec d = Ok d' ∧ same_audio d d'.
Proof.
  intros Hs. unfold parsePAT. destruct (psiBody_ok sec 0 Hs) as ([body|] & -> & Hb); rewrite bind_Ok.
  - apply pat_loop_ok; [by apply Hb|lia|unfold blen; lia].
  - by exists d.
Qed.

Lemma parsePMT_ok sec d : bytes_ok sec → ∃ d' e, parsePMT sec d = Ok (d', e) ∧ same_audio d d'.
Proof.
  intros Hs. unfold parsePMT. destruct (psiBody_ok sec 2 Hs) as ([body|] & -> & Hb); rewrite bind_Ok;
    [|by exists d, None]. specialize (Hb body eq_refl).
  destruct (Z.ltb_spec (blen body) 4); [by exists d, None|].
  destruct (@byte_u8 no_err body 2 Hb ltac:(lia)) as (b2 & -> & _). rewrite bind_Ok.
  destruct (@byte_u8 no_err body 3 Hb ltac:(lia)) as (b3 & -> & H3). rewrite bind_Ok.
  pose proof (len12_range b2 b3 H3). apply pmt_loop_ok; [done|lia|unfold blen in *; lia].
Qed.

Lemma set_secs_ok pat pmt d : demux_ok d → section_ok pat → section_ok pmt → demux_ok (set_secs pat pmt d).
Proof. intros [] ??. by split. Qed.

(** A PSI packet delivers nothing and leaves the audio path alone. *)
Lemma good_psi d d' e : demux_ok d → demux_ok d' → same_audio d d' → good_e d (mret (d', [], e)).
Proof.
  intros Hd Hd' (_ & Ha & _). eexists _, _, _. split; [done|]. split_and!; try done.
  by rewrite Ha.
Qed.

Lemma good_lift d d0 m aus0 : good_e d0 m → Forall au_ok aus0 → (aus0 ≠ [] → asc d0 ≠ None) →
  (asc d ≠ None → asc d0 ≠ None) →
  good_e d ('(d, aus', e) ← m; mret (d, aus0 ++ aus', e)).
Proof.
  intros (d' & aus & e & -> & Hd' & Hau & Hn & Hk) H0 Hn0 Hk0. rewrite bind_Ok. cbv beta iota.
  eexists _, _, _. split; [done|]. split_and!; [done | by apply Forall_app_2 | | auto].
  intros Hne. destruct aus0 as [|x aus0]; [by apply Hn|]. apply Hk, Hn0. done.
Qed.

Lemma route_good pid payload pusi cc d :
  demux_ok d → bytes_ok payload → good_e d (route pid payload pusi cc d).
Proof.
  intros Hd Hp. unfold route. destruct (pid =? patPID).
  { destruct (psiSection_ok (patSec d) payload pusi (do_pat d Hd) Hp) as (buf & sec & -> & Hbuf & Hsec).
    rewrite bind_Ok. cbv zeta beta iota.
    assert (Hd1 : demux_ok (set_secs buf (pmtSec d) d)) by (apply set_secs_ok; [done..|apply Hd]).
    destruct sec as [sec|].
    - destruct Hsec as [[Hs _] _].
      destruct (parsePAT_ok sec (set_secs buf (pmtSec d) d) Hs) as (d' & -> & Hsame). rewrite bind_Ok.
      assert (asc d' = asc d) by apply Hsame.
      eexists _, _, _. split; [done|]. split_and!; try done; [by eapply same_audio_ok|congruence].
    - by eexists _, _, _. }
  destruct (_ && (pid =? pmtPID d)).
  { destruct (psiSection_ok (pmtSec d) payload pusi (do_pmt d Hd) Hp) as (buf & sec & -> & Hbuf & Hsec).
    rewrite bind_Ok. cbv zeta beta iota.
    assert (Hd1 : demux_ok (set_secs (patSec d) buf d)) by (apply set_secs_ok; [done|apply Hd|done]).
    destruct sec as [sec|].
    - destruct Hsec as [[Hs _] _].
      destruct (parsePMT_ok sec (set_secs (patSec d) buf d) Hs) as (d' & e & -> & Hsame). rewrite bind_Ok.
      assert (asc d' = asc d) by apply Hsame.
      eexists _, _, _. split; [done|]. split_and!; try done; [by eapply same_audio_ok|congruence].
    - by eexists _, _, _. }
  destruct (_ && (pid =? audioPID d)).
  { destruct (handleAudio_good payload pusi cc d Hd Hp) as (d' & aus & -> & Hd' & Hau & Hn & Hk).
    rewrite bind_Ok. by eexists _, _, _. }
  by eexists _, _, _.
Qed.

Lemma tsDiscIndicator_ok pkt : bytes_ok pkt → blen pkt = tsPacketLen → ∃ b, tsDiscIndicator pkt = Ok b.
Proof.
  intros Hp Hl. unfold tsPacketLen in Hl. unfold tsDiscIndicator.
  destruct (@byte_u8 no_err pkt 3 Hp ltac:(lia)) as (b3 & -> & _). rewrite bind_Ok.
  destruct (_ && _); [by eexists|].
  destruct (@byte_u8 no_err pkt 4 Hp ltac:(lia)) as (b4 & -> & _). rewrite bind_Ok.
  destruct (b4 =? 0); [by eexists|].
  destruct (@byte_u8 no_err pkt 5 Hp ltac:(lia)) as (b5 & -> & _). rewrite bind_Ok. by eexists.
Qed.

Lemma tsPayload_ok pkt : bytes_ok pkt → blen pkt = tsPacketLen →
  ∃ o, tsPayload pkt = Ok o ∧ ∀ p, o = Some p → bytes_ok p.
Proof.
  intros Hp Hl. unfold tsPayload. pose proof Hl as Hl'. unfold tsPacketLen in Hl'.
  destruct (@byte_u8 no_err pkt 3 Hp ltac:(lia)) as (b3 & -> & _). rewrite bind_Ok.
  destruct (_ =? 1).
  { rewrite slice_from_ok, bind_Ok by lia. eexists. split; [done|]. intros ? [= <-]. by apply Forall_drop. }
  destruct (_ =? 3); [|by eexists].
  destruct (@byte_u8 no_err pkt 4 Hp ltac:(lia)) as (b4 & -> & H4). rewrite bind_Ok. unfold is_u8 in H4.
  destruct (Z.leb_spec tsPacketLen (5 + b4)); [by eexists|].
  rewrite slice_from_ok, bind_Ok by lia. eexists. split; [done|]. intros ? [= <-]. by apply Forall_drop.
Qed.

Lemma handlePacket_good pkt d :
  demux_ok d → bytes_ok pkt → blen pkt = tsPacketLen → good_e d (handlePacket pkt d).
Proof.
  intros Hd Hp Hl. pose proof Hl as Hl'. unfold tsPacketLen in Hl'. unfold handlePacket.
  assert (Hskip : ∀ e, good_e d (mret (d, [], e))) by (intros; by eexists _, _, _).
  destruct (@byte_u8 no_err pkt 1 Hp ltac:(lia)) as (b1 & -> & _). rewrite bind_Ok.
  destruct (negb _); [done|].
  destruct (@byte_u8 no_err pkt 3 Hp ltac:(lia)) as (b3 & -> & _). rewrite bind_Ok.
  destruct (negb _); [done|].
  destruct (@pid_at_ok no_err pkt 1 Hp ltac:(lia) ltac:(lia)) as (pid & ->). rewrite bind_Ok.
  destruct (pid =? nullPID); [done|].
  assert (Hdisc : good d (if haveAudio d && (pid =? audioPID d) then
     disc ← tsDiscIndicator pkt;
     if (disc : bool) then '(d, aus) ← resetContinuity d; mret (set_cc (audioCC d) false d, aus)
     else mret (d, []) else mret (d, []))).
  { destruct (_ && _); [|by apply good_refl].
    destruct (tsDiscIndicator_ok pkt Hp Hl) as ([|] & ->); rewrite bind_Ok; [|by apply good_refl].
    destruct (resetContinuity_good d Hd) as (d' & aus & -> & Hd' & Hau & Hn & Hk). rewrite bind_Ok.
    eexists _, _. split; [done|]. split_and!; try done. by apply set_cc_ok. }
  destruct Hdisc as (d1 & aus1 & -> & Hd1 & Hau1 & Hn1 & Hk1). rewrite bind_Ok. cbv beta iota.
  destruct (tsPayload_ok pkt Hp Hl) as ([p|] & -> & Hpay); rewrite bind_Ok; [|by eexists _, _, _].
  apply (good_lift d d1); try done. apply route_good; [done|by apply Hpay].
Qed.

Lemma resync_from_ok b : bytes_ok b → ∀ i, ∃ o, resync_from i b = Ok o ∧
  match o with
  | Some j => i ≤ j < i + blen b ∧ b !! Z.to_nat (j - i) = Some tsSync
  | None => True
  end.
Proof.
  induction 1 as [|x rest Hx Hr IH]; intros i; cbn [resync_from]; [by eexists|].
  assert (Hnext : ∃ o, resync_from (i + 1) rest = Ok o ∧ match o with
    | Some j => i ≤ j < i + blen (x :: rest) ∧ (x :: rest) !! Z.to_nat (j - i) = Some tsSync
    | None => True end).
  { destruct (IH (i + 1)) as ([j|] & -> & Hj); eexists; (split; [done|]); [|done].
    destruct Hj as [Hj Hl]. rewrite blen_cons. split; [lia|].
    replace (Z.to_nat (j - i)) with (S (Z.to_nat (j - (i + 1)))) by lia. done. }
  destruct (Z.eqb_spec x tsSync) as [->|]; cbn [negb]; [|done].
  assert (Hhere : ∃ o, @mret (res no_err) _ _ (Some i) = Ok o ∧ match o with
    | Some j => i ≤ j < i + blen (tsSync :: rest) ∧ (tsSync :: rest) !! Z.to_nat (j - i) = Some tsSync
    | None => True end).
  { eexists. split; [done|]. rewrite blen_cons, Z.sub_diag. pose proof (blen_nonneg rest). split; [lia|done]. }
  destruct (Z.leb_spec (blen (tsSync :: rest)) tsPacketLen); [done|].
  destruct (@byte_u8 no_err (tsSync :: rest) tsPacketLen) as (y & -> & _);
    [by constructor|unfold tsPacketLen in *; lia|]. rewrite bind_Ok. by destruct (y =? tsSync).
Qed.

Lemma good_e_refl d e : demux_ok d → good_e d (mret (d, [], e)).
Proof. intros Hd. by eexists _, _, _. Qed.

(** Every round consumes at least an octet: after a lost sync byte the packet does
    not start with one, so the resynchronised offset lies beyond it. *)
Lemma demux_loop_good seg : bytes_ok seg → ∀ fuel off d,
  demux_ok d → 0 ≤ off → Z.max 0 (blen seg - off) < Z.of_nat fuel →
  good_e d (demux_loop fuel seg off d).
Proof.
  intros Hseg. induction fuel as [|fuel IH]; intros off d Hd Hoff Hf; cbn [demux_loop]; [lia|].
  destruct (Z.ltb_spec (blen seg) (off + tsPacketLen)); [by apply good_e_refl|].
  assert (Hlen : tsPacketLen = 188) by done.
  destruct (slice (E:=no_err) seg off (off + tsPacketLen)) as [pkt|e|] eqn:Hpkt;
    [|by apply slice_not_err in Hpkt|exfalso; revert Hpkt; apply slice_no_panic; lia].
  rewrite bind_Ok. pose proof (slice_length _ _ _ _ Hpkt) as Hpl.
  pose proof (slice_bytes_ok _ _ _ _ Hseg Hpkt) as Hpb.
  destruct (@byte_at_inside no_err pkt 0 ltac:(lia)) as (b0 & -> & Hb0). rewrite bind_Ok.
  destruct (Z.eqb_spec b0 tsSync) as [->|Hne]; cbn [negb].
  - destruct (handlePacket_good pkt d Hd Hpb ltac:(lia)) as (d1 & aus & e & -> & Hd1 & Hau & Hn & Hk).
    rewrite bind_Ok. cbv beta iota. destruct e as [e|]; [by eexists _, _, _|].
    apply (good_lift d d1); try done. apply IH; [done|lia|lia].
  - rewrite slice_from_ok, bind_Ok by lia. unfold tsResync.
    destruct (resync_from_ok (drop (Z.to_nat off) seg)) with (i := 0) as ([r|] & -> & Hr);
      [by apply Forall_drop| |]; rewrite bind_Ok; [|by apply good_e_refl].
    destruct Hr as [Hr Hl]. rewrite Z.sub_0_r in Hl. apply IH; [done|lia|].
    assert (r ≠ 0); [|lia]. intros ->.
    apply slice_ok_inv in Hpkt as (_ & _ & ->). rewrite lookup_take_lt in Hb0 by lia.
    rewrite lookup_drop in Hl. rewrite lookup_drop in Hb0.
    change (Z.to_nat 0) with O in Hl, Hb0. rewrite Hl in Hb0. congruence.
Qed.

Lemma ts_demux_returns seg discontinuity d :
  demux_ok d → bytes_ok seg →
  ∃ d' aus e, demux seg discontinuity d = Ok (d', aus, e) ∧ demux_ok d' ∧ Forall au_ok aus
    ∧ (aus ≠ [] → audioSpecificConfig d' ≠ None)
    ∧ (audioSpecificConfig d ≠ None → audioSpecificConfig d' ≠ None).
Proof.
  intros Hd Hseg. unfold demux.
  assert (Hreset : good d (if discontinuity then resetDomain d else mret (d, []))).
  { destruct discontinuity; [by apply resetDomain_good|by apply good_refl]. }
  destruct Hreset as (d1 & aus1 & -> & Hd1 & Hau1 & Hn1 & Hk1). rewrite bind_Ok. cbv beta iota zeta.
  pose proof (set_cc_ok (audioCC d1) false d1 Hd1) as Hd2.
  destruct (resync_from_ok seg Hseg 0) as ([start|] & Hr & Hs); unfold tsResync; rewrite Hr, bind_Ok;
    [|by eexists _, _, _].
  apply (good_lift d (set_cc (audioCC d1) false d1)); try done.
  apply demux_loop_good; [done..|lia|unfold blen; lia].
Qed.

(** Whatever octets a segment holds, [demux] returns: every offset stays inside
    the segment and the packet loop ends, also when the sync byte is lost.  The
    section buffers never exceed the 4098 octets of the longest section, every
    access unit delivered is non-empty and has a positive duration, and once one
    has been delivered the AudioSpecificConfig is known. *)
Theorem demux_safe seg discontinuity d :
  demux_ok d → bytes_ok seg →
  ∃ d' aus e, demux seg discontinuity d = Ok (d', aus, e) ∧ demux_ok d' ∧ Forall au_ok aus
    ∧ (aus ≠ [] → audioSpecificConfig d' ≠ None)
    ∧ (audioSpecificConfig d ≠ None → audioSpecificConfig d' ≠ None).
Proof. apply ts_demux_returns. Qed.

Lemma newTSDemux_ok : demux_ok newTSDemux.
Proof. split; cbn; try done; [apply adtsframe.NewStream_ok|split; [constructor|by vm_compute]..]. Qed.

(** ** A multiplexed stream *)

(** A transport packet with a payload, after an adaptation field or not. *)
Definition packet (pusi : bool) (pid cc : Z) (af : option (list Z)) (payload : list Z) : list Z :=
  let b1 := (if pusi then 64 else 0) + pid / 256 in
  match af with
  | None => [tsSync; b1; pid mod 256; 16 + cc] ++ payload
  | Some a => [tsSync; b1; pid mod 256; 48 + cc; blen a] ++ a ++ payload
  end.

(** The adaptation field does not announce a discontinuity. *)
Definition af_ok (af : option (list Z)) : Prop :=
  match af with Some (flags :: _) => Z.land flags 0x80 = 0 | _ => True end.

Record packet_ok (pid cc : Z) (af : option (list Z)) (payload : list Z) : Prop := {
  pk_pid : 0 ≤ pid < nullPID;
  pk_cc : 0 ≤ cc < 16;
  pk_af : af_ok af;
  pk_payload : 0 < blen payload;
  pk_len : blen (packet false pid cc af payload) = tsPacketLen
}.

Lemma b1_bits (pusi : bool) hi : 0 ≤ hi < 32 →
  let b1 := (if pusi then 64 else 0) + hi in
  Z.land b1 0x80 = 0 ∧ negb (Z.land b1 0x40 =? 0) = pusi ∧ Z.land b1 0x1F = hi.
Proof.
  intros Hhi b1. pose proof (range_forall 32 (λ hi, let b1 := (if pusi then 64 else 0) + hi in
    (Z.land b1 0x80 =? 0) && Bool.eqb (negb (Z.land b1 0x40 =? 0)) pusi && (Z.land b1 0x1F =? hi))) as H.
  specialize (H ltac:(by destruct pusi) hi Hhi). cbv beta zeta in H. fold b1 in H.
  apply andb_true_iff in H as [H H3]. apply andb_true_iff in H as [H1 H2].
  apply Z.eqb_eq in H1, H3. apply Bool.eqb_prop in H2. done.
Qed.

Lemma b3_bits afc cc : afc = 1 ∨ afc = 3 → 0 ≤ cc < 16 →
  let b3 := afc * 16 + cc in
  Z.land b3 0xC0 = 0 ∧ Z.land (Z.shiftr b3 4) 0x03 = afc ∧ Z.land b3 0x0F = cc.
Proof.
  intros Ha Hc b3. pose proof (range_forall 16 (λ cc, let b3 := afc * 16 + cc in
    (Z.land b3 0xC0 =? 0) && (Z.land (Z.shiftr b3 4) 0x03 =? afc) && (Z.land b3 0x0F =? cc))) as H.
  specialize (H ltac:(by destruct Ha as [-> | ->]) cc Hc). cbv beta zeta in H. fold b3 in H.
  apply andb_true_iff in H as [H H3]. apply andb_true_iff in H as [H1 H2].
  apply Z.eqb_eq in H1, H2, H3. done.
Qed.

Lemma pid_at_mid {E} pre c hi lo post i : i = blen pre → Z.land c 0x1F = hi → 0 ≤ lo < 256 →
  @pid_at E (pre ++ c :: lo :: post) i = Ok (hi * 256 + lo).
Proof.
  intros -> Hc Hlo. unfold pid_at. rewrite (byte_at_mid pre c (lo :: post) (blen pre)), bind_Ok by done.
  rewrite (app_assoc pre [c] (lo :: post) : pre ++ c :: lo :: post = (pre ++ [c]) ++ lo :: post).
  rewrite (byte_at_mid (pre ++ [c]) lo post (blen pre + 1)), bind_Ok by blia. by rewrite Hc, lor_shiftl_add by lia.
Qed.

Lemma pid_split pid : pid / 256 * 256 + pid mod 256 = pid.
Proof. pose proof (Z.div_mod pid 256). lia. Qed.

(** A packet without errors, scrambling or discontinuity is routed with its payload. *)
Lemma handlePacket_packet pusi pid cc af payload d :
  packet_ok pid cc af payload →
  handlePacket (packet pusi pid cc af payload) d = route pid payload pusi cc d.
Proof.
  intros [Hpid Hcc Haf Hpay Hlen]. unfold nullPID in Hpid.
  destruct (b1_bits pusi (pid / 256)) as (H80 & H40 & H1F); [Z.div_mod_to_equations; lia|].
  assert (Hlo : 0 ≤ pid mod 256 < 256) by (apply Z.mod_pos_bound; lia).
  assert (Hend : ∀ m : res no_err (tsDemux * list AU * option err),
    ('(d, aus', e) ← m; mret (d, [] ++ aus', e)) = m) by (by intros [[[? ?] ?]| |]).
  unfold handlePacket, packet in *. destruct af as [a|].
  - destruct (b3_bits 3 cc) as (HC0 & Hafc & H0F); [by right|done|]. change (3 * 16) with 48 in *.
    set (pkt := [_; _; _; _; _] ++ a ++ payload).
    assert (E1 : @byte_at no_err pkt 1 = Ok ((if pusi then 64 else 0) + pid / 256)) by done.
    assert (E3 : @byte_at no_err pkt 3 = Ok (48 + cc)) by done.
    assert (E4 : @byte_at no_err pkt 4 = Ok (blen a)) by done.
    assert (Ep : @pid_at no_err pkt 1 = Ok pid).
    { rewrite <- (pid_split pid). exact (pid_at_mid [tsSync] _ _ _ _ 1 eq_refl H1F Hlo). }
    rewrite E1, bind_Ok, H80, E3, bind_Ok, HC0, Ep, bind_Ok. cbn [negb Z.eqb Pos.eqb].
    destruct (Z.eqb_spec pid nullPID); [unfold nullPID in *; lia|].
    assert (Hd : tsDiscIndicator pkt = Ok false).
    { unfold tsDiscIndicator. rewrite E3, bind_Ok, Hafc, E4, bind_Ok. cbn [negb Z.eqb Pos.eqb andb].
      destruct a as [|flags a]; [done|]. cbn in Haf.
      destruct (Z.eqb_spec (blen (flags :: a)) 0); [blia|].
      change (@byte_at no_err pkt 5) with (@Ok no_err _ flags). by rewrite bind_Ok, Haf. }
    rewrite Hd. assert (Hp : tsPayload pkt = Ok (Some payload)).
    { unfold tsPayload. rewrite E3, bind_Ok, Hafc, E4, bind_Ok. cbn [Z.eqb Pos.eqb].
      autorewrite with blen in Hlen. unfold tsPacketLen in *.
      destruct (Z.leb_spec 188 (5 + blen a)); [lia|].
      unfold pkt. rewrite slice_from_ok by blia. rewrite bind_Ok, app_assoc, drop_blen_app by blia. done. }
    rewrite H40, H0F. destruct (_ && _); rewrite ?bind_Ok, ?bind_ret; cbv beta iota;
      rewrite Hp, bind_Ok; apply Hend.
  - destruct (b3_bits 1 cc) as (HC0 & Hafc & H0F); [by left|done|]. change (1 * 16) with 16 in *.
    set (pkt := [_; _; _; _] ++ payload).
    assert (E1 : @byte_at no_err pkt 1 = Ok ((if pusi then 64 else 0) + pid / 256)) by done.
    assert (E3 : @byte_at no_err pkt 3 = Ok (16 + cc)) by done.
    assert (Ep : @pid_at no_err pkt 1 = Ok pid).
    { rewrite <- (pid_split pid). exact (pid_at_mid [tsSync] _ _ _ _ 1 eq_refl H1F Hlo). }
    rewrite E1, bind_Ok, H80, E3, bind_Ok, HC0, Ep, bind_Ok. cbn [negb Z.eqb Pos.eqb].
    destruct (Z.eqb_spec pid nullPID); [unfold nullPID in *; lia|].
    assert (Hd : tsDiscIndicator pkt = Ok false) by (unfold tsDiscIndicator; by rewrite E3, bind_Ok, Hafc).
    rewrite Hd. assert (Hp : tsPayload pkt = Ok (Some payload)).
    { unfold tsPayload. rewrite E3, bind_Ok, Hafc. cbn [Z.eqb Pos.eqb]. unfold pkt.
      rewrite slice_from_ok by blia. rewrite bind_Ok, drop_blen_app by done. done. }
    rewrite H40, H0F. destruct (_ && _); rewrite ?bind_Ok, ?bind_ret; cbv beta iota;
      rewrite Hp, bind_Ok; apply Hend.
Qed.

(** A 12-bit length under four reserved bits. *)
Definition len12 (r len : Z) : list Z := [r * 16 + len / 256; len mod 256].

Lemma len12_read r len : 0 ≤ r < 16 → 0 ≤ len < 4096 →
  Z.lor (Z.shiftl (Z.land (r * 16 + len / 256) 0x0F) 8) (len mod 256) = len.
Proof.
  intros Hr Hl. assert (0 ≤ len mod 256 < 256) by (apply Z.mod_pos_bound; lia).
  rewrite (land_ones_mod 4), lor_shiftl_add by (done || lia).
  replace ((r * 16 + len / 256) mod 2 ^ 4) with (len / 256); [apply pid_split|].
  change (2 ^ 4) with 16. rewrite Z.add_comm, Z_mod_plus_full. symmetry. apply Z.mod_small.
  Z.div_mod_to_equations; lia.
Qed.

(** A section of table [t]: its five header octets, its body and its CRC. *)
Record section_parts := mkSection { sc_head : list Z; sc_crc : list Z }.
Definition section (t : Z) (c : section_parts) (body : list Z) : list Z :=
  t :: len12 11 (5 + blen body + 4) ++ sc_head c ++ body ++ sc_crc c.
Definition parts_ok (c : section_parts) (body : list Z) : Prop :=
  blen (sc_head c) = 5 ∧ blen (sc_crc c) = 4 ∧ blen body ≤ 4000.

(** The payload of a packet with a whole section: the pointer field skips [ptr]. *)
Definition psi_payload (ptr sec stuffing : list Z) : list Z := blen ptr :: ptr ++ sec ++ stuffing.

Lemma blen_section t c body : parts_ok c body → blen (section t c body) = 12 + blen body.
Proof. intros (Hh & Hc & _). unfold section, len12. autorewrite with blen. lia. Qed.

Lemma section_len t c body : parts_ok c body → ∃ b1 b2,
  @byte_at no_err (section t c body) 1 = Ok b1 ∧ @byte_at no_err (section t c body) 2 = Ok b2 ∧
  Z.lor (Z.shiftl (Z.land b1 0x0F) 8) b2 = 5 + blen body + 4.
Proof.
  intros (_ & _ & Hb). pose proof (blen_nonneg body). eexists _, _. split; [done|]. split; [done|].
  apply (len12_read 11); lia.
Qed.

Lemma psiSection_whole buf ptr t c body stuffing :
  parts_ok c body →
  psiSection buf (psi_payload ptr (section t c body) stuffing) true = Ok ([], Some (section t c body)).
Proof.
  intros Hc. pose proof (blen_section t c body Hc) as Hl. pose proof (blen_nonneg body).
  unfold psiSection, psi_payload. destruct (Z.ltb_spec (blen (blen ptr :: ptr ++ section t c body ++ stuffing)) 1);
    [blia|]. rewrite byte_at_fst, bind_Ok.
  destruct (Z.ltb_spec (blen (blen ptr :: ptr ++ section t c body ++ stuffing)) (1 + blen ptr)); [blia|].
  rewrite slice_from_ok by blia.
  change (blen ptr :: ptr ++ section t c body ++ stuffing)
    with ((blen ptr :: ptr) ++ section t c body ++ stuffing). rewrite drop_blen_app by blia.
  rewrite bind_Ok, bind_ret. destruct (Z.ltb_spec (blen (section t c body ++ stuffing)) 3); [blia|].
  destruct (section_len t c body Hc) as (b1 & b2 & E1 & E2 & E).
  rewrite !byte_at_app_l, E1, bind_Ok, E2, bind_Ok, E by lia.
  destruct (Z.ltb_spec (blen (section t c body ++ stuffing)) (3 + (5 + blen body + 4))); [blia|].
  rewrite (slice_mid [] (section t c body) stuffing) by blia. by rewrite bind_Ok.
Qed.

Lemma psiBody_section t c body : parts_ok c body → psiBody (section t c body) t = Ok (Some body).
Proof.
  intros Hc. pose proof (blen_section t c body Hc) as Hl. pose proof (blen_nonneg body).
  unfold psiBody. rewrite Hl. destruct (Z.ltb_spec (12 + blen body) 12); [lia|].
  destruct (section_len t c body Hc) as (b1 & b2 & E1 & E2 & E).
  change (@byte_at no_err (section t c body) 0) with (@Ok no_err _ t).
  rewrite bind_Ok, Z.eqb_refl. cbn [negb]. rewrite E1, bind_Ok, E2, bind_Ok, E.
  destruct (Z.ltb_spec (12 + blen body) (3 + (5 + blen body + 4))); [lia|].
  destruct (Z.ltb_spec (3 + (5 + blen body + 4)) (3 + 5 + 4)); [lia|]. cbn [orb].
  destruct Hc as (Hh & Hcr & _). unfold section.
  change (t :: len12 11 (5 + blen body + 4) ++ sc_head c ++ body ++ sc_crc c)
    with ((t :: len12 11 (5 + blen body + 4)) ++ sc_head c ++ body ++ sc_crc c).
  rewrite app_assoc, slice_mid by (unfold len12; blia). by rewrite bind_Ok.
Qed.

(** A program association: network entries first, then the program's map PID. *)
Definition pat_entry (prog pid : Z) : list Z :=
  [prog / 256; prog mod 256; 224 + pid / 256; pid mod 256].
Definition pat_body (nets : list Z) (prog pid : Z) (rest : list Z) : list Z :=
  concat (pat_entry 0 <$> nets) ++ pat_entry prog pid ++ rest.

Lemma hi5 c hi : c = 224 → 0 ≤ hi < 32 → Z.land (c + hi) 0x1F = hi.
Proof.
  intros -> Hhi. pose proof (range_forall 32 (λ hi, Z.land (224 + hi) 0x1F =? hi) eq_refl hi Hhi) as H.
  by apply Z.eqb_eq in H.
Qed.

Lemma pid_hi pid : 0 ≤ pid < 8192 → 0 ≤ pid / 256 < 32 ∧ 0 ≤ pid mod 256 < 256.
Proof. intros H. Z.div_mod_to_equations; lia. Qed.

Lemma pat_step fuel pre prog p tl d : 0 ≤ prog < 65536 → 0 ≤ p < 8192 →
  pat_loop (S fuel) (pre ++ pat_entry prog p ++ tl) (blen pre) d =
  if prog =? 0 then pat_loop fuel (pre ++ pat_entry prog p ++ tl) (blen pre + 4) d
  else Ok (set_pmt p d).
Proof.
  intros Hprog Hp. destruct (pid_hi p Hp) as [Hhi Hlo]. cbn [pat_loop].
  set (l := pre ++ pat_entry prog p ++ tl).
  assert (Hl : l = (pre ++ [prog / 256; prog mod 256]) ++ 224 + p / 256 :: p mod 256 :: tl)
    by (unfold l; by rewrite <- app_assoc).
  destruct (Z.ltb_spec (blen l) (blen pre + 4)); [unfold l, pat_entry in *; blia|].
  assert (E0 : @byte_at no_err l (blen pre) = Ok (prog / 256)) by (by apply byte_at_mid).
  assert (E1 : @byte_at no_err l (blen pre + 1) = Ok (prog mod 256)).
  { unfold l. by rewrite byte_at_app_r, Z.add_simpl_l by lia. }
  assert (E2 : @pid_at no_err l (blen pre + 2) = Ok p).
  { rewrite <- (pid_split p). rewrite Hl. apply pid_at_mid; [blia|by apply hi5|done]. }
  rewrite E0, bind_Ok, E1, bind_Ok, E2, bind_Ok.
  rewrite lor_shiftl_add by (try apply Z.mod_pos_bound; lia).
  change (2 ^ 8) with 256. rewrite pid_split. by destruct (prog =? 0).
Qed.

Lemma pat_loop_body nets prog pid rest d :
  Forall (λ p, 0 ≤ p < 8192) (pid :: nets) → 0 < prog < 65536 →
  ∀ fuel pre, (length nets < fuel)%nat →
  pat_loop fuel (pre ++ pat_body nets prog pid rest) (blen pre) d = Ok (set_pmt pid d).
Proof.
  intros [Hpid Hn]%Forall_cons_iff Hp. induction Hn as [|p nets Hp0 Hn IH]; intros [|fuel] pre Hf;
    try (cbn in Hf; lia); unfold pat_body; cbn [fmap list_fmap concat app].
  - rewrite pat_step by lia. by destruct (Z.eqb_spec prog 0); [lia|].
  - rewrite <- app_assoc, pat_step by lia. cbn [Z.eqb].
    specialize (IH fuel (pre ++ pat_entry 0 p) ltac:(cbn in Hf; lia)).
    rewrite <- app_assoc in IH. rewrite <- IH. f_equal. unfold pat_entry. blia.
Qed.

Lemma parsePAT_body nets prog pid rest c d :
  Forall (λ p, 0 ≤ p < 8192) (pid :: nets) → 0 < prog < 65536 → parts_ok c (pat_body nets prog pid rest) →
  parsePAT (section 0 c (pat_body nets prog pid rest)) d = Ok (set_pmt pid d).
Proof.
  intros Hn Hp Hc. unfold parsePAT. rewrite psiBody_section, bind_Ok by done.
  apply (pat_loop_body nets prog pid rest d Hn Hp _ []).
  unfold pat_body. rewrite length_app. enough (length nets ≤ length (concat (pat_entry 0 <$> nets)))%nat by lia.
  clear. induction nets; cbn in *; lia.
Qed.

(** A program map: the descriptors of the program, the streams before the AAC one,
    and the AAC stream. *)
Definition es_entry (t pid : Z) (desc : list Z) : list Z :=
  [t; 224 + pid / 256; pid mod 256] ++ len12 15 (blen desc) ++ desc.
Definition pmt_body (pcr desc : list Z) (others : list (Z * Z * list Z)) (pid : Z) (adesc rest : list Z)
    : list Z :=
  pcr ++ len12 15 (blen desc) ++ desc ++ concat ((λ '(t, p, d), es_entry t p d) <$> others)
  ++ es_entry streamTypeAAC pid adesc ++ rest.
Definition es_ok (e : Z * Z * list Z) : Prop :=
  let '(t, p, d) := e in t ≠ streamTypeAAC ∧ 0 ≤ p < 8192 ∧ blen d < 4096.

Lemma pmt_step fuel pre t p desc tl o d : 0 ≤ p < 8192 → blen desc < 4096 →
  pmt_loop (S fuel) (pre ++ es_entry t p desc ++ tl) (blen pre) o d =
  if t =? streamTypeAAC then Ok (set_audio p d, None)
  else pmt_loop fuel (pre ++ es_entry t p desc ++ tl) (blen pre + (5 + blen desc))
         (o || ((t =? streamTypeMP3a) || (t =? streamTypeMP3b) || (t =? streamTypeLATM))) d.
Proof.
  intros Hp Hd. destruct (pid_hi p Hp) as [Hhi Hlo]. cbn [pmt_loop]. pose proof (blen_nonneg desc).
  set (l := pre ++ es_entry t p desc ++ tl).
  assert (Hl : l = (pre ++ [t]) ++ 224 + p / 256 :: p mod 256 :: len12 15 (blen desc) ++ desc ++ tl)
    by (unfold l; by rewrite <- app_assoc).
  destruct (Z.ltb_spec (blen l) (blen pre + 5)); [unfold l, es_entry, len12 in *; blia|].
  assert (E0 : @byte_at no_err l (blen pre) = Ok t) by (by apply byte_at_mid).
  assert (E2 : @pid_at no_err l (blen pre + 1) = Ok p).
  { rewrite <- (pid_split p). rewrite Hl. apply pid_at_mid; [blia|by apply hi5|done]. }
  assert (E3 : @byte_at no_err l (blen pre + 3) = Ok (15 * 16 + blen desc / 256)).
  { unfold l. by rewrite byte_at_app_r, Z.add_simpl_l by lia. }
  assert (E4 : @byte_at no_err l (blen pre + 4) = Ok (blen desc mod 256)).
  { unfold l. by rewrite byte_at_app_r, Z.add_simpl_l by lia. }
  rewrite E0, bind_Ok, E2, bind_Ok, E3, bind_Ok, E4, bind_Ok, len12_read by lia.
  by destruct (t =? streamTypeAAC).
Qed.

Lemma blen_es_entry t p desc : blen (es_entry t p desc) = 5 + blen desc.
Proof. unfold es_entry, len12. blia. Qed.

Lemma pmt_loop_body others pid adesc rest d :
  Forall es_ok others → 0 ≤ pid < 8192 → blen adesc < 4096 →
  ∀ fuel pre o, (length others < fuel)%nat →
  pmt_loop fuel (pre ++ concat ((λ '(t, p, d), es_entry t p d) <$> others)
    ++ es_entry streamTypeAAC pid adesc ++ rest) (blen pre) o d = Ok (set_audio pid d, None).
Proof.
  intros Ho Hp Hd. induction Ho as [|[[t p] ds] others (Ht & Hp0 & Hds) Ho IH]; intros [|fuel] pre o Hf;
    try (cbn in Hf; lia); cbn [fmap list_fmap concat app].
  - by rewrite pmt_step, Z.eqb_refl by lia.
  - rewrite <- app_assoc, pmt_step by lia. apply Z.eqb_neq in Ht as ->.
    specialize (IH fuel (pre ++ es_entry t p ds)). rewrite <- app_assoc in IH.
    rewrite <- IH with (o := o || ((t =? streamTypeMP3a) || (t =? streamTypeMP3b) || (t =? streamTypeLATM)))
      by (cbn in Hf; lia). f_equal. rewrite blen_app, blen_es_entry. lia.
Qed.

Lemma parsePMT_body pcr desc others pid adesc rest c d :
  blen pcr = 2 → blen desc < 4096 → Forall es_ok others → 0 ≤ pid < 8192 → blen adesc < 4096 →
  parts_ok c (pmt_body pcr desc others pid adesc rest) →
  parsePMT (section 2 c (pmt_body pcr desc others pid adesc rest)) d = Ok (set_audio pid d, None).
Proof.
  intros Hpcr Hd Ho Hp Had Hc. unfold parsePMT. rewrite psiBody_section, bind_Ok by done.
  set (body := pmt_body _ _ _ _ _ _). pose proof (blen_nonneg desc).
  assert (Hl : 4 ≤ blen body) by (unfold body, pmt_body, len12; blia).
  destruct (Z.ltb_spec (blen body) 4); [lia|].
  assert (E2 : @byte_at no_err body 2 = Ok (15 * 16 + blen desc / 256)).
  { apply byte_at_mid. lia. }
  assert (E3 : @byte_at no_err body 3 = Ok (blen desc mod 256)).
  { unfold body, pmt_body. by rewrite byte_at_app_r, Hpcr by lia. }
  rewrite E2, bind_Ok, E3, bind_Ok, len12_read by lia.
  assert (Hb : body = (pcr ++ len12 15 (blen desc) ++ desc) ++
    concat ((λ '(t, p, d), es_entry t p d) <$> others) ++ es_entry streamTypeAAC pid adesc ++ rest)
    by (unfold body, pmt_body; by rewrite <- !app_assoc).
  assert (Hf : (length others < S (length body))%nat).
  { rewrite Hb, !length_app. enough (length others ≤ length (concat ((λ '(t, p, d), es_entry t p d) <$> others)))%nat
      by lia. clear. induction others as [|[[t p] ds] os IH]; cbn in *; [lia|]. rewrite length_app. lia. }
  rewrite <- (pmt_loop_body others pid adesc rest d Ho Hp Had (S (length body))
    (pcr ++ len12 15 (blen desc) ++ desc) false Hf), <- Hb. f_equal. unfold len12. blia.
Qed.

(** An audio packet, and a packet of any kind. *)
Record apkt := mkApkt { a_pusi : bool; a_af : option (list Z); a_payload : list Z; a_repeat : bool }.
Record psi_wrap := mkWrap { w_cc : Z; w_af : option (list Z); w_ptr : list Z; w_stuffing : list Z; w_parts : section_parts }.

Section mux.
Context (P A : Z).

Inductive item :=
  | IAudio (a : apkt)
  | IPat (w : psi_wrap) (nets : list Z) (prog : Z) (rest : list Z)
  | IPmt (w : psi_wrap) (pcr desc : list Z) (others : list (Z * Z * list Z)) (adesc rest : list Z)
  | IOther (pkt : list Z).

Definition psi_packet (t pid : Z) (w : psi_wrap) (body : list Z) : list Z :=
  packet true pid (w_cc w) (w_af w) (psi_payload (w_ptr w) (section t (w_parts w) body) (w_stuffing w)).
Definition audio_packet (c : Z) (a : apkt) : list Z := packet (a_pusi a) A c (a_af a) (a_payload a).

(** The packets, the audio ones numbered modulo 16; one may be sent twice. *)
Fixpoint encode (c : Z) (items : list item) : list (list Z) :=
  match items with
  | [] => []
  | IAudio a :: items =>
      audio_packet c a :: (if a_repeat a then [audio_packet c a] else []) ++ encode ((c + 1) mod 16) items
  | IPat w nets prog rest :: items => psi_packet 0 0 w (pat_body nets prog P rest) :: encode c items
  | IPmt w pcr desc others adesc rest :: items =>
      psi_packet 2 P w (pmt_body pcr desc others A adesc rest) :: encode c items
  | IOther pkt :: items => pkt :: encode c items
  end.

(** The audio packets that arrive once the tables are known. *)
Fixpoint audible (hp ha : bool) (items : list item) : list apkt :=
  match items with
  | [] => []
  | IAudio a :: items => (if ha then [a] else []) ++ audible hp ha items
  | IPat _ _ _ _ :: items => audible true ha items
  | IPmt _ _ _ _ _ _ :: items => audible hp (hp || ha) items
  | IOther _ :: items => audible hp ha items
  end.

(** Which tables are known after the items. *)
Fixpoint tables (hp ha : bool) (items : list item) : bool * bool :=
  match items with
  | [] => (hp, ha)
  | IPat _ _ _ _ :: items => tables true ha items
  | IPmt _ _ _ _ _ _ :: items => tables hp (hp || ha) items
  | _ :: items => tables hp ha items
  end.

Definition psi_packet_ok (pid : Z) (w : psi_wrap) (t : Z) (body : list Z) : Prop :=
  packet_ok pid (w_cc w) (w_af w) (psi_payload (w_ptr w) (section t (w_parts w) body) (w_stuffing w))
  ∧ parts_ok (w_parts w) body.

(** Another stream's packet, null packets included. *)
Definition other_ok (pkt : list Z) : Prop :=
  ∃ b1 b2 b3 rest, pkt = tsSync :: b1 :: b2 :: b3 :: rest ∧ bytes_ok pkt ∧ blen pkt = tsPacketLen ∧
    Z.land b3 0xC0 = 0 ∧
    let pid := Z.lor (Z.shiftl (Z.land b1 0x1F) 8) b2 in pid ≠ patPID ∧ pid ≠ P ∧ pid ≠ A.

Definition item_ok (i : item) : Prop :=
  match i with
  | IAudio a => bytes_ok (a_payload a) ∧ ∀ c, 0 ≤ c < 16 → packet_ok A c (a_af a) (a_payload a)
  | IPat w nets prog rest =>
      psi_packet_ok 0 w 0 (pat_body nets prog P rest) ∧ Forall (λ p, 0 ≤ p < 8192) nets ∧ 0 < prog < 65536
  | IPmt w pcr desc others adesc rest =>
      psi_packet_ok P w 2 (pmt_body pcr desc others A adesc rest) ∧ blen pcr = 2 ∧ blen desc < 4096
      ∧ Forall es_ok others ∧ blen adesc < 4096
  | IOther pkt => other_ok pkt
  end.

(** The PIDs differ from each other, from the PAT's and from the null PID. *)
Definition pids_ok : Prop := 0 < P < nullPID ∧ 0 < A < nullPID ∧ P ≠ A.

(** What the demuxer has learned, between packets. *)
Record tuned (hp ha : bool) (d : tsDemux) : Prop := {
  tn_pmt : havePMT d = hp; tn_audio : haveAudio d = ha;
  tn_pmtPID : hp = true → pmtPID d = P; tn_audioPID : ha = true → audioPID d = A;
  tn_sec : patSec d = [] ∧ pmtSec d = [];
  tn_cc : ha = false → haveCC d = false
}.

Lemma other_ignored hp ha d pkt : tuned hp ha d → other_ok pkt → handlePacket pkt d = Ok (d, [], None).
Proof.
  intros [Hp Ha HpP HaA _ _] (b1 & b2 & b3 & rest & -> & Hb & Hl & Hscr & Hpid). cbv zeta in Hpid.
  set (pkt := tsSync :: b1 :: b2 :: b3 :: rest) in *. unfold handlePacket.
  change (@byte_at no_err pkt 1) with (@Ok no_err _ b1). rewrite bind_Ok. destruct (negb _); [done|].
  change (@byte_at no_err pkt 3) with (@Ok no_err _ b3). rewrite bind_Ok, Hscr. cbn [negb Z.eqb].
  change (@pid_at no_err pkt 1) with (@Ok no_err _ (Z.lor (Z.shiftl (Z.land b1 0x1F) 8) b2)).
  rewrite bind_Ok. set (pid := Z.lor _ _) in *. clearbody pid. destruct Hpid as (H0 & H1 & H2).
  destruct (pid =? nullPID); [done|].
  assert (Hna : haveAudio d && (pid =? audioPID d) = false).
  { rewrite Ha. destruct ha; [|done]. rewrite (HaA eq_refl). by apply Z.eqb_neq. }
  assert (Hnp : havePMT d && (pid =? pmtPID d) = false).
  { rewrite Hp. destruct hp; [|done]. rewrite (HpP eq_refl). by apply Z.eqb_neq. }
  rewrite Hna, bind_ret. cbv beta iota.
  destruct (tsPayload_ok pkt Hb Hl) as ([p|] & -> & _); rewrite bind_Ok; [|done].
  unfold route. apply Z.eqb_neq in H0 as ->. by rewrite Hnp, Hna.
Qed.

Lemma set_secs_same d : patSec d = [] → pmtSec d = [] → set_secs [] [] d = d.
Proof. destruct d. cbn. by intros -> ->. Qed.

Lemma pat_packet hp ha d w nets prog rest :
  pids_ok → tuned hp ha d → item_ok (IPat w nets prog rest) →
  handlePacket (psi_packet 0 0 w (pat_body nets prog P rest)) d = Ok (set_pmt P d, [], None).
Proof.
  intros [HP _] [_ _ _ _ [H1 H2] _] ([Hpk Hparts] & Hn & Hprog). unfold psi_packet.
  rewrite handlePacket_packet by done. unfold route. change (0 =? patPID) with true. cbv iota.
  rewrite psiSection_whole, bind_Ok by done. cbv zeta beta iota. rewrite H2, set_secs_same by done.
  rewrite parsePAT_body, bind_Ok; try done. constructor; [unfold nullPID in *; lia|done].
Qed.

Lemma pmt_packet hp ha d w pcr desc others adesc rest :
  pids_ok → tuned hp ha d → item_ok (IPmt w pcr desc others adesc rest) →
  handlePacket (psi_packet 2 P w (pmt_body pcr desc others A adesc rest)) d =
  Ok (if hp then set_audio A d else d, [], None).
Proof.
  intros (HP & HA & Hne) [Hp Ha HpP HaA [H1 H2] _] ([Hpk Hparts] & Hpcr & Hd & Ho & Had). unfold psi_packet.
  rewrite handlePacket_packet by done. unfold route.
  destruct (Z.eqb_spec P patPID); [unfold patPID in *; lia|]. rewrite Hp. destruct hp; cbn [andb].
  - rewrite (HpP eq_refl), Z.eqb_refl. rewrite psiSection_whole, bind_Ok by done. cbv zeta beta iota.
    rewrite H1, set_secs_same by done.
    rewrite parsePMT_body by (done || unfold nullPID in *; lia). by rewrite bind_Ok.
  - assert (haveAudio d && (P =? audioPID d) = false) as ->; [|done].
    rewrite Ha. destruct ha; [|done]. rewrite (HaA eq_refl). by apply Z.eqb_neq.
Qed.

Lemma audio_routed hp d payload pusi cc :
  pids_ok → tuned hp true d →
  route A payload pusi cc d = '(d, aus) ← handleAudio payload pusi cc d; mret (d, aus, None).
Proof.
  intros (_ & HA & Hne) [Hp Ha HpP HaA _ _]. unfold route.
  destruct (Z.eqb_spec A patPID); [unfold patPID in *; lia|].
  assert (havePMT d && (A =? pmtPID d) = false) as ->.
  { rewrite Hp. destruct hp; [|done]. rewrite (HpP eq_refl). apply Z.eqb_neq. congruence. }
  by rewrite Ha, (HaA eq_refl), Z.eqb_refl.
Qed.

Lemma audio_unheard hp d c a :
  pids_ok → tuned hp false d → packet_ok A c (a_af a) (a_payload a) →
  handlePacket (audio_packet c a) d = Ok (d, [], None).
Proof.
  intros (_ & HA & Hne) [Hp Ha HpP HaA _ _] Hpk. unfold audio_packet. rewrite handlePacket_packet by done.
  unfold route. destruct (Z.eqb_spec A patPID); [unfold patPID in *; lia|].
  assert (havePMT d && (A =? pmtPID d) = false) as ->.
  { rewrite Hp. destruct hp; [|done]. rewrite (HpP eq_refl). apply Z.eqb_neq. congruence. }
  by rewrite Ha.
Qed.

(** The counter expected next. *)
Definition cc_next (c : Z) (d : tsDemux) : Prop := haveCC d = true → c = Z.land (audioCC d + 1) 0x0F ∧ 0 ≤ audioCC d < 16.

Lemma cc_step c : Z.land (c + 1) 0x0F = (c + 1) mod 16.
Proof. by apply (land_ones_mod 4). Qed.

Lemma audio_accepted hp d c a :
  pids_ok → tuned hp true d → packet_ok A c (a_af a) (a_payload a) → cc_next c d →
  handlePacket (audio_packet c a) d =
  '(d, aus) ← handlePES (a_payload a) (a_pusi a) (set_cc c true d); mret (d, aus, None).
Proof.
  intros HP Ht Hpk Hcc. unfold audio_packet. rewrite handlePacket_packet, (audio_routed hp) by done.
  unfold handleAudio. destruct (haveCC d) eqn:Hh; cbn [andb negb orb].
  - destruct (Hcc Hh) as [Hc Hr].
    destruct (Z.eqb_spec c (audioCC d)); [exfalso; rewrite cc_step in Hc; Z.div_mod_to_equations; lia|].
    rewrite <- Hc, Z.eqb_refl, bind_ret. cbv beta iota.
    by destruct (handlePES _ _ _) as [[? ?]|e|].
  - rewrite bind_ret. cbv beta iota. by destruct (handlePES _ _ _) as [[? ?]|e|].
Qed.

Lemma audio_repeated hp d c a :
  pids_ok → tuned hp true d → packet_ok A c (a_af a) (a_payload a) → haveCC d = true → audioCC d = c →
  handlePacket (audio_packet c a) d = Ok (d, [], None).
Proof.
  intros HP Ht Hpk Hh Hc. unfold audio_packet. rewrite handlePacket_packet, (audio_routed hp) by done.
  unfold handleAudio. by rewrite Hh, Hc, Z.eqb_refl.
Qed.

(** Feeding [es]: the framer sees it as at most one read. *)
Lemma feed_chunks es d :
  demux_ok d → bytes_ok es → ∃ f a aus chunks,
    feed es d = Ok (set_framer f a d, aus) ∧ concat chunks = es ∧ Forall bytes_ok chunks ∧
    adtsframe.stream_ok f ∧
    ∀ more, framer.feed_all (chunks ++ more) (framer d) =
      '(gs, s) ← framer.feed_all more f; mret (aus ++ gs, s).
Proof.
  intros Hd Hes. unfold feed. destruct (Z.eqb_spec (blen es) 0) as [H0|H0].
  { exists (framer d), (asc d), [], []. apply blen_zero in H0 as ->. split_and!; try done; [by destruct d|apply Hd|].
    intros more. cbn [app]. by destruct (framer.feed_all more (framer d)) as [[? ?]|e|]. }
  destruct (framer.wf_feed (framer d) es (adtsframe.wf_of _ (do_framer d Hd)) Hes) as [Hf _].
  destruct (drain_framer_ok (adtsframe.Feed es (framer d)) (asc d) Hf)
    as (fs & f' & a' & Hdr & -> & Hf' & _). rewrite bind_Ok. cbv beta iota.
  destruct (framer.wf_compact f' (adtsframe.wf_of _ Hf')) as [Hf'' _].
  exists (adtsframe.Compact f'), a', fs, [es]. split_and!; try done; [apply app_nil_r|by constructor|].
  intros more. cbn [app framer.feed_all].
  change (framer.Feed es (framer d)) with (adtsframe.Feed es (framer d)). by rewrite Hdr, bind_Ok.
Qed.

Fixpoint run_packets (pkts : list (list Z)) (d : tsDemux) : res no_err (tsDemux * list AU * option err) :=
  match pkts with
  | [] => mret (d, [], None)
  | pkt :: pkts =>
      '(d, aus, e) ← handlePacket pkt d;
      match e with
      | Some _ => mret (d, aus, e)
      | None => '(d, aus', e) ← run_packets pkts d; mret (d, aus ++ aus', e)
      end
  end.

Lemma run_packets_silent pkt pkts d d' :
  handlePacket pkt d = Ok (d', [], None) → run_packets (pkt :: pkts) d = run_packets pkts d'.
Proof.
  intros E. cbn [run_packets]. rewrite E, bind_Ok. cbv beta iota.
  by destruct (run_packets pkts d') as [[[? ?] ?]|e|].
Qed.

(** A PES packet, spread over transport packets: its header, and the elementary
    stream behind it. *)
Record PES := mkPES { pes_id : list Z; pes_ext : list Z; pes_es : list Z; pes_pkts : list apkt }.
Definition pes_header (p : PES) : list Z := [0; 0; 1] ++ pes_id p ++ [blen (pes_ext p)] ++ pes_ext p.
Record pes_ok (p : PES) : Prop := {
  po_id : blen (pes_id p) = 5;
  po_ext : blen (pes_ext p) < 256;
  po_es : bytes_ok (pes_es p);
  po_pkts : ∃ a rest, pes_pkts p = a :: rest ∧ a_pusi a = true ∧ 9 ≤ blen (a_payload a)
              ∧ Forall (λ a, a_pusi a = false) rest;
  po_split : concat (a_payload <$> pes_pkts p) = pes_header p ++ pes_es p
}.

Lemma app_split_at {X} (l1 l2 k1 k2 : list X) : l1 ++ l2 = k1 ++ k2 →
  if blen k1 <=? blen l1 then ∃ m, l1 = k1 ++ m ∧ k2 = m ++ l2 else ∃ m, k1 = l1 ++ m ∧ l2 = m ++ k2.
Proof.
  intros H. destruct (Z.leb_spec (blen k1) (blen l1)).
  - destruct (app_split_le _ _ _ _ H) as (m & ? & ?); [done|]. by exists m.
  - symmetry in H. destruct (app_split_le _ _ _ _ H) as (m & ? & ?); [lia|]. by exists m.
Qed.

(** Between packets: [junk] is what the current PES header still lacks. *)
Record pes_state (junk : list Z) (d : tsDemux) : Prop := {
  ps_ok : demux_ok d; ps_drop : pesDropping d = false; ps_skip : pesHdrSkip d = blen junk
}.

(** A continuation packet. *)
Lemma continue_pes d junk er payload more :
  pes_state junk d → bytes_ok er → bytes_ok payload → payload ++ more = junk ++ er →
  ∃ f a aus chunks junk' er',
    handlePES payload false d = Ok (set_framer f a (set_pes (blen junk') false d), aus) ∧
    more = junk' ++ er' ∧ er = concat chunks ++ er' ∧ Forall bytes_ok chunks ∧ adtsframe.stream_ok f ∧
    ∀ rest, framer.feed_all (chunks ++ rest) (framer d) =
      '(gs, s) ← framer.feed_all rest f; mret (aus ++ gs, s).
Proof.
  intros [Hd Hdr Hsk] Her Hp Hsplit. unfold handlePES. rewrite Hdr, Hsk.
  pose proof (app_split_at _ _ _ _ Hsplit) as Hs. pose proof (blen_nonneg junk). pose proof (blen_nonneg payload).
  destruct (Z.ltb_spec 0 (blen junk)).
  - destruct (Z.leb_spec (blen junk) (blen payload)) as [Hle|Hlt]; destruct Hs as (m & -> & ->).
    + rewrite Z.min_l, slice_from_ok, drop_blen_app, bind_Ok, Z.sub_diag by lia.
      apply Forall_app in Hp as [_ Hm].
      destruct (feed_chunks m (set_pes 0 false d)) as (f & a & aus & chunks & -> & Hc & Hcb & Hf & Hmore);
        [by apply set_pes_ok|done|].
      exists f, a, aus, chunks, [], more. rewrite Hc. by split_and!.
    + assert (Hall : drop (Z.to_nat (blen payload)) payload = [])
        by (pose proof (drop_blen_app payload [] _ eq_refl) as E; by rewrite app_nil_r in E).
      rewrite Z.min_r, slice_from_ok, Hall, bind_Ok by blia.
      exists (framer d), (asc d), [], [], m, er. split_and!; try done; [|apply Hd|].
      * unfold feed. change (blen [] =? 0) with true. cbv iota. rewrite blen_app.
        replace (blen payload + blen m - blen payload) with (blen m) by lia. by destruct d.
      * intros rest. cbn [app]. by destruct (framer.feed_all rest (framer d)) as [[? ?]|e|].
  - assert (Hj : junk = []) by (apply blen_zero; lia). subst junk. cbn [app] in Hsplit. subst er.
    destruct (feed_chunks payload d) as (f & a & aus & chunks & -> & Hc & Hcb & Hf & Hmore); [done..|].
    exists f, a, aus, chunks, [], more. rewrite Hc. split_and!; try done.
    destruct d. cbn in *. by subst.
Qed.

(** The first packet of a PES. *)
Lemma start_pes d p payload more :
  demux_ok d → pes_ok p → bytes_ok payload → 9 ≤ blen payload → payload ++ more = pes_header p ++ pes_es p →
  ∃ f a aus chunks junk' er',
    handlePES payload true d = Ok (set_framer f a (set_pes (blen junk') false d), aus) ∧
    more = junk' ++ er' ∧ pes_es p = concat chunks ++ er' ∧ Forall bytes_ok chunks ∧ adtsframe.stream_ok f ∧
    ∀ rest, framer.feed_all (chunks ++ rest) (framer d) =
      '(gs, s) ← framer.feed_all rest f; mret (aus ++ gs, s).
Proof.
  intros Hd [Hid Hext Hes _ _] Hp H9 Hsplit.
  assert (Hl : blen (pes_header p) = 9 + blen (pes_ext p)) by (unfold pes_header; blia).
  assert (Hread : ∀ i, 0 ≤ i < 9 → @byte_at no_err payload i =
    byte_at ([0; 0; 1] ++ pes_id p ++ [blen (pes_ext p)]) i).
  { intros i Hi. rewrite <- (byte_at_app_l payload more i), Hsplit by lia. unfold pes_header.
    replace (([0; 0; 1] ++ pes_id p ++ [blen (pes_ext p)] ++ pes_ext p) ++ pes_es p)
      with (([0; 0; 1] ++ pes_id p ++ [blen (pes_ext p)]) ++ pes_ext p ++ pes_es p)
      by (by rewrite <- !app_assoc).
    apply byte_at_app_l. blia. }
  unfold handlePES. cbv zeta. destruct (Z.ltb_spec (blen payload) 9); [lia|].
  rewrite !Hread by lia. change (@byte_at no_err ([0; 0; 1] ++ pes_id p ++ [blen (pes_ext p)]) 0) with (@Ok no_err _ 0).
  rewrite bind_Ok.
  change (@byte_at no_err ([0; 0; 1] ++ pes_id p ++ [blen (pes_ext p)]) 1) with (@Ok no_err _ 0). rewrite bind_Ok.
  change (@byte_at no_err ([0; 0; 1] ++ pes_id p ++ [blen (pes_ext p)]) 2) with (@Ok no_err _ 1). rewrite bind_Ok.
  cbn [negb orb Z.eqb Pos.eqb].
  rewrite app_assoc, (byte_at_mid ([0; 0; 1] ++ pes_id p) _ [] 8), bind_Ok by blia.
  pose proof (app_split_at _ _ _ _ Hsplit) as Hs. rewrite Hl in Hs.
  destruct (Z.leb_spec (9 + blen (pes_ext p)) (blen payload)) as [Hle|Hlt]; destruct Hs as (m & Hm1 & Hm2).
  - rewrite slice_from_ok, Hm1, drop_blen_app, bind_Ok by (rewrite ?Hl; try lia; blia).
    rewrite Hm1 in Hp. apply Forall_app in Hp as [_ Hm].
    destruct (feed_chunks m (set_pes 0 false d)) as (f & a & aus & chunks & -> & Hc & Hcb & Hf & Hmore);
      [by apply set_pes_ok|done|].
    exists f, a, aus, chunks, [], more. rewrite Hc. by split_and!.
  - exists (framer d), (asc d), [], [], m, (pes_es p). split_and!; try done; [|apply Hd|].
    + replace (9 + blen (pes_ext p) - blen payload) with (blen m) by (rewrite Hm1 in Hl; blia). by destruct d.
    + intros rest. cbn [app]. by destruct (framer.feed_all rest (framer d)) as [[? ?]|e|].
Qed.

(** What is left to arrive: [cur], the continuation packets of the current PES, which
    bring [junk ++ er]; then the PES packets [pss]. *)
Record remains (junk er : list Z) (cur : list apkt) (pss : list PES) : Prop := {
  rm_er : bytes_ok er;
  rm_cur : concat (a_payload <$> cur) = junk ++ er;
  rm_cont : Forall (λ a, a_pusi a = false) cur;
  rm_pss : Forall pes_ok pss
}.

Lemma audio_item d a l junk er cur pss :
  pes_state junk d → remains junk er cur pss → bytes_ok (a_payload a) →
  a :: l = cur ++ concat (pes_pkts <$> pss) →
  ∃ f c aus chunks junk' er' cur' pss',
    handlePES (a_payload a) (a_pusi a) d = Ok (set_framer f c (set_pes (blen junk') false d), aus) ∧
    remains junk' er' cur' pss' ∧ l = cur' ++ concat (pes_pkts <$> pss') ∧
    er ++ concat (pes_es <$> pss) = concat chunks ++ er' ++ concat (pes_es <$> pss') ∧
    Forall bytes_ok chunks ∧ adtsframe.stream_ok f ∧
    ∀ rest, framer.feed_all (chunks ++ rest) (framer d) =
      '(gs, s) ← framer.feed_all rest f; mret (aus ++ gs, s).
Proof.
  intros Hst [Her Hcur Hcont Hpss] Hp Hl. destruct cur as [|a0 cur].
  - cbn [app] in Hl. destruct pss as [|p pss]; [done|].
    apply Forall_cons_iff in Hpss as [Hpk Hpss]. pose proof Hpk as [Hid Hext Hes Hpkts Hsp].
    destruct Hpkts as (a0 & rest & E & Hpu & H9 & Hrest). cbn [fmap list_fmap concat] in Hl, Hcur.
    rewrite E in Hl. injection Hl as -> ->. symmetry in Hcur. apply app_eq_nil in Hcur as [-> ->].
    rewrite E in Hsp. cbn [fmap list_fmap concat] in Hsp. rewrite Hpu.
    destruct (start_pes d p (a_payload a0) _ (ps_ok _ _ Hst) Hpk Hp H9 Hsp)
      as (f & c & aus & chunks & junk' & er' & -> & Hmore & Her' & Hcb & Hf & Hfeed).
    exists f, c, aus, chunks, junk', er', rest, pss. split_and!; try done.
    + split; try done. rewrite Her' in Hes. by apply Forall_app in Hes as [_ ?].
    + cbn [fmap list_fmap concat app]. by rewrite Her', <- app_assoc.
  - injection Hl as -> ->. apply Forall_cons_iff in Hcont as [Hpu Hcont]. rewrite Hpu.
    cbn [fmap list_fmap concat] in Hcur.
    destruct (continue_pes d junk er (a_payload a0) _ Hst Her Hp Hcur)
      as (f & c & aus & chunks & junk' & er' & -> & Hmore & Her' & Hcb & Hf & Hfeed).
    exists f, c, aus, chunks, junk', er', cur, pss. split_and!; try done.
    + split; try done. rewrite Her' in Her. by apply Forall_app in Her as [_ ?].
    + by rewrite Her', <- app_assoc.
Qed.

Lemma run_items (HP : pids_ok) items : ∀ c hp ha d junk er cur pss,
  Forall item_ok items → 0 ≤ c < 16 → tuned hp ha d → cc_next c d → pes_state junk d →
  remains junk er cur pss → audible hp ha items = cur ++ concat (pes_pkts <$> pss) →
  ∃ chunks d' aus, run_packets (encode c items) d = Ok (d', aus, None) ∧
    concat chunks = er ++ concat (pes_es <$> pss) ∧ Forall bytes_ok chunks ∧
    framer.feed_all chunks (framer d) = Ok (aus, framer d') ∧
    tuned (tables hp ha items).1 (tables hp ha items).2 d' ∧ pes_state [] d' ∧ accumGaps d' = accumGaps d.
Proof.
  induction items as [|i items IH]; intros c hp ha d junk er cur pss Hok Hc Ht Hcc Hst Hrm Haud.
  { symmetry in Haud. apply app_eq_nil in Haud as [-> Hn]. destruct Hrm as [_ Hcur _ Hpss].
    destruct Hpss as [|p pss [_ _ _ (a0 & r & E & _) _] _]; [|cbn in Hn; by rewrite E in Hn].
    symmetry in Hcur. apply app_eq_nil in Hcur as [-> ->]. exists [], d, []. by split_and!. }
  apply Forall_cons_iff in Hok as [Hi Hok]. destruct i as [a|w nets prog rest|w pcr desc others adesc rest|pkt];
    cbn [encode audible tables] in *.
  - destruct Hi as [Hpay Hpk]. pose proof (Hpk c Hc) as Hpkc.
    assert (Hc' : 0 ≤ (c + 1) mod 16 < 16) by (apply Z.mod_pos_bound; lia). destruct ha.
    + assert (Hst' : pes_state junk (set_cc c true d)) by (destruct Hst; split; [by apply set_cc_ok|done..]).
      destruct (audio_item (set_cc c true d) a _ _ _ _ _ Hst' Hrm Hpay Haud)
        as (f & ac & aus & chunks & junk' & er' & cur' & pss' & Epes & Hrm' & Haud' & Hes & Hcb & Hf & Hfeed).
      set (d1 := set_framer f ac (set_pes (blen junk') false (set_cc c true d))) in *.
      assert (Ht1 : tuned hp true d1) by (destruct Ht; by split).
      assert (Hst1 : pes_state junk' d1).
      { destruct Hst as [[] _ _]. split; [|done..]. split; try done. apply blen_nonneg. }
      assert (Hcc1 : cc_next ((c + 1) mod 16) d1) by (intros _; by rewrite <- cc_step).
      destruct (IH _ _ _ d1 junk' er' cur' pss' Hok Hc' Ht1 Hcc1 Hst1 Hrm' Haud')
        as (chunks' & d' & aus' & Erun & Hch & Hcb' & Hfa & Ht' & Hstn & Hg).
      exists (chunks ++ chunks'), d', (aus ++ aus'). split_and!; try done.
      * cbn [run_packets]. rewrite (audio_accepted hp), Epes, bind_Ok by done. cbv beta iota.
        rewrite bind_ret. cbv beta iota. fold d1.
        assert (run_packets ((if a_repeat a then [audio_packet c a] else []) ++ encode ((c + 1) mod 16) items) d1
          = Ok (d', aus', None)) as ->; [|done].
        destruct (a_repeat a); [|done]. cbn [app].
        rewrite (run_packets_silent _ _ d1 d1); [done|]. by apply (audio_repeated hp).
      * by rewrite concat_app, Hch, Hes.
      * by apply Forall_app_2.
      * rewrite (Hfeed chunks' : framer.feed_all _ (framer d) = _). cbn [framer set_framer] in Hfa.
        change (framer d1) with f in Hfa. by rewrite Hfa.
    + cbn [app] in Haud.
      assert (Hrep : run_packets (audio_packet c a :: (if a_repeat a then [audio_packet c a] else [])
        ++ encode ((c + 1) mod 16) items) d = run_packets (encode ((c + 1) mod 16) items) d).
      { rewrite (run_packets_silent _ _ d d) by (by apply (audio_unheard hp)).
        destruct (a_repeat a); [|done]. cbn [app]. apply run_packets_silent. by apply (audio_unheard hp). }
      rewrite Hrep. apply (IH _ hp false d junk er cur pss); try done.
      intros Hh. by rewrite (tn_cc _ _ _ Ht eq_refl) in Hh.
  - rewrite (run_packets_silent _ _ d (set_pmt P d)) by (by apply (pat_packet hp ha)).
    apply (IH c true ha (set_pmt P d) junk er cur pss); try done.
    + destruct Ht. by split.
    + destruct Hst as [[] ? ?]. by split.
  - rewrite (run_packets_silent _ _ d (if hp then set_audio A d else d)) by (by apply (pmt_packet hp ha)).
    destruct hp; [|by eapply IH].
    apply (IH c true true (set_audio A d) junk er cur pss); try done.
    + destruct Ht. by split.
    + destruct Hst as [[] ? ?]. by split.
  - rewrite (run_packets_silent _ _ d d) by (by apply (other_ignored hp ha)). by eapply IH.
Qed.

(** ** Segments *)
Definition aligned (pkt : list Z) : Prop := blen pkt = tsPacketLen ∧ pkt !! 0%nat = Some tsSync.

Lemma packet_aligned pusi pid cc af payload : packet_ok pid cc af payload → aligned (packet pusi pid cc af payload).
Proof.
  intros [_ _ _ _ Hl]. unfold packet in *. by destruct af; split; cbn [app lookup] in *.
Qed.

Lemma encode_aligned items : Forall item_ok items → ∀ c, 0 ≤ c < 16 → Forall aligned (encode c items).
Proof.
  induction 1 as [|i items Hi Hok IH]; intros c Hc; [constructor|].
  destruct i as [a|w nets prog rest|w pcr desc others adesc rest|pkt]; cbn [encode].
  - destruct Hi as [_ Hpk]. assert (aligned (audio_packet c a)) by (by apply packet_aligned, Hpk).
    apply Forall_cons_2; [done|]. apply Forall_app_2.
    + destruct (a_repeat a); [|constructor]. apply Forall_cons_2; [done|constructor].
    + apply IH, Z.mod_pos_bound. lia.
  - apply Forall_cons_2; [|by apply IH]. apply packet_aligned, Hi.
  - apply Forall_cons_2; [|by apply IH]. apply packet_aligned, Hi.
  - apply Forall_cons_2; [|by apply IH]. by destruct Hi as (b1 & b2 & b3 & r & -> & _ & Hl & _).
Qed.

Lemma demux_loop_packets pkts : ∀ fuel pre d, Forall aligned pkts → (length pkts < fuel)%nat →
  demux_loop fuel (pre ++ concat pkts) (blen pre) d = run_packets pkts d.
Proof.
  induction pkts as [|pkt pkts IH]; intros [|fuel] pre d Hal Hf; try (cbn in Hf; lia); cbn [demux_loop run_packets].
  - cbn [concat]. rewrite app_nil_r. by destruct (Z.ltb_spec (blen pre) (blen pre + tsPacketLen)); [|unfold tsPacketLen in *; lia].
  - apply Forall_cons_iff in Hal as [[Hl Hh] Hal]. cbn [concat].
    destruct (Z.ltb_spec (blen (pre ++ pkt ++ concat pkts)) (blen pre + tsPacketLen)); [blia|].
    rewrite slice_mid, bind_Ok by lia.
    assert (@byte_at no_err pkt 0 = Ok tsSync) as ->.
    { destruct pkt as [|x pkt]; [done|]. by injection Hh as ->. }
    rewrite bind_Ok. cbn [negb]. rewrite Z.eqb_refl. cbn [negb].
    destruct (handlePacket pkt d) as [[[d1 aus] [e|]]|e|]; [done| |done..].
    rewrite !bind_Ok. cbv beta iota. rewrite app_assoc.
    replace (blen pre + tsPacketLen) with (blen (pre ++ pkt)) by blia.
    rewrite IH by (done || (cbn in Hf; lia)). done.
Qed.

Lemma tsResync_aligned pkts : pkts ≠ [] → Forall aligned pkts → tsResync (concat pkts) = Ok (Some 0).
Proof.
  destruct pkts as [|pkt pkts]; [done|]. intros _ [[Hl Hh] Hal]%Forall_cons_iff.
  unfold tsResync. cbn [concat]. destruct pkt as [|x pkt]; [done|]. injection Hh as ->. cbn [app resync_from].
  rewrite Z.eqb_refl. cbn [negb]. change (tsSync :: pkt ++ concat pkts) with ((tsSync :: pkt) ++ concat pkts).
  rewrite blen_app, Hl. destruct Hal as [|pkt' pkts [Hl' Hh'] Hal]; [done|].
  destruct (Z.leb_spec (tsPacketLen + blen (concat (pkt' :: pkts))) tsPacketLen); [done|].
  rewrite byte_at_app_r, Hl, Z.sub_diag by lia. destruct pkt' as [|y pkt']; [done|]. injection Hh' as ->.
  cbn [concat app]. by rewrite byte_at_fst, bind_Ok, Z.eqb_refl.
Qed.

(** A segment: the counter it starts at, its packets, and the PES packets they carry
    once the tables are known. *)
Record segment := mkSeg { sg_cc : Z; sg_items : list item; sg_pes : list PES }.
Definition sg_bytes (g : segment) : list Z := concat (encode (sg_cc g) (sg_items g)).

Fixpoint segs_ok (hp ha : bool) (gs : list segment) : Prop :=
  match gs with
  | [] => True
  | g :: gs =>
      sg_items g ≠ [] ∧ 0 ≤ sg_cc g < 16 ∧ Forall item_ok (sg_items g) ∧ Forall pes_ok (sg_pes g) ∧
      audible hp ha (sg_items g) = concat (pes_pkts <$> sg_pes g) ∧
      segs_ok (tables hp ha (sg_items g)).1 (tables hp ha (sg_items g)).2 gs
  end.

(** The elementary stream the segments carry. *)
Definition segs_es (gs : list segment) : list Z := concat ((λ g, concat (pes_es <$> sg_pes g)) <$> gs).

Lemma demux_segment (HP : pids_ok) g gs hp ha d :
  segs_ok hp ha (g :: gs) → tuned hp ha d → pes_state [] d →
  ∃ chunks d' aus, demux (sg_bytes g) false d = Ok (d', aus, None) ∧
    concat chunks = concat (pes_es <$> sg_pes g) ∧ Forall bytes_ok chunks ∧
    framer.feed_all chunks (framer d) = Ok (aus, framer d') ∧
    tuned (tables hp ha (sg_items g)).1 (tables hp ha (sg_items g)).2 d' ∧ pes_state [] d' ∧
    accumGaps d' = accumGaps d.
Proof.
  intros (Hne & Hc & Hok & Hpes & Haud & _) Ht Hst. set (d0 := set_cc (audioCC d) false d).
  assert (Ht0 : tuned hp ha d0) by (destruct Ht; by split).
  assert (Hst0 : pes_state [] d0) by (destruct Hst as [[] ? ?]; by split).
  assert (Hcc0 : cc_next (sg_cc g) d0) by (intros Hh; discriminate Hh).
  assert (Hrm : remains [] [] [] (sg_pes g)) by (split; [constructor|done|constructor|done]).
  destruct (run_items HP (sg_items g) (sg_cc g) hp ha d0 [] [] [] (sg_pes g) Hok Hc Ht0 Hcc0 Hst0 Hrm Haud)
    as (chunks & d' & aus & Erun & Hch & Hcb & Hfa & Ht' & Hst' & Hg).
  exists chunks, d', aus. split_and!; try done.
  pose proof (encode_aligned _ Hok _ Hc) as Hal.
  unfold demux. rewrite bind_ret. cbv beta iota zeta. unfold sg_bytes.
  rewrite tsResync_aligned, bind_Ok; [|by destruct (sg_items g) as [|[]]|done].
  rewrite (demux_loop_packets _ _ [] _ Hal).
  - fold d0. by rewrite Erun, bind_Ok.
  - clear -Hal. induction Hal as [|pkt pkts [Hl _] Hal IH]; [cbn; lia|]. cbn [concat length] in *.
    rewrite length_app. unfold blen, tsPacketLen in Hl. lia.
Qed.

Fixpoint demux_segments (segs : list (list Z)) (d : tsDemux) : res no_err (tsDemux * list AU * option err) :=
  match segs with
  | [] => mret (d, [], None)
  | seg :: segs =>
      '(d, aus, e) ← demux seg false d;
      match e with
      | Some _ => mret (d, aus, e)
      | None => '(d, aus', e) ← demux_segments segs d; mret (d, aus ++ aus', e)
      end
  end.

Lemma demux_segments_feed (HP : pids_ok) gs : ∀ hp ha d,
  segs_ok hp ha gs → tuned hp ha d → pes_state [] d →
  ∃ chunks d' aus, demux_segments (sg_bytes <$> gs) d = Ok (d', aus, None) ∧
    concat chunks = segs_es gs ∧ Forall bytes_ok chunks ∧
    framer.feed_all chunks (framer d) = Ok (aus, framer d') ∧ pes_state [] d' ∧ accumGaps d' = accumGaps d.
Proof.
  induction gs as [|g gs IH]; intros hp ha d Hok Ht Hst.
  { exists [], d, []. by split_and!. }
  destruct (demux_segment HP g gs hp ha d Hok Ht Hst)
    as (ch1 & d1 & aus1 & E1 & Hch1 & Hcb1 & Hfa1 & Ht1 & Hst1 & Hg1).
  destruct (IH _ _ d1 (proj2 (proj2 (proj2 (proj2 (proj2 Hok))))) Ht1 Hst1)
    as (ch2 & d2 & aus2 & E2 & Hch2 & Hcb2 & Hfa2 & Hst2 & Hg2).
  exists (ch1 ++ ch2), d2, (aus1 ++ aus2). split_and!; try done.
  - cbn [fmap list_fmap demux_segments]. rewrite E1, bind_Ok. cbv beta iota. fold (sg_bytes <$> gs).
    by rewrite E2, bind_Ok.
  - by rewrite concat_app, Hch1, Hch2.
  - by apply Forall_app_2.
  - rewrite framer.feed_all_app, Hfa1, bind_Ok. cbv beta iota. by rewrite Hfa2.
  - congruence.
Qed.
End mux.

(** C5: demultiplexing a well-formed stream is exact.  The ADTS frames of one
    configuration (their ignored header fields arbitrary) travel in PES packets whose
    nine fixed header octets are whole in their first transport packet; the transport
    packets carry no error, scrambling or discontinuity indicator but otherwise any
    adaptation field or none; the audio packets of each segment are numbered modulo 16,
    any of them sent twice; and packets of other streams, null packets, and tables,
    each PAT or PMT section whole in one packet and naming the same two PIDs, come
    between them, repeated as often as the sender likes; and the whole is cut into
    segments of whole transport packets, each holding whole PES packets.  Then the demuxer learns
    the program from the PAT and the PMT (audio before them is not heard) and delivers
    exactly the access units of the single-block frames, in order, each with its
    duration, whichever PES packets and segments split the frames and whichever
    transport packets split the PES packets; the gap count is the number of multi-block
    frames. *)
Theorem ts_demux_exact P A gs us :
  pids_ok P A → segs_ok P A false false gs →
  Forall adtsframe.unit_ok us →
  (∀ v w, v ∈ us → w ∈ us → adtsframe.same_config (adtsframe.u_hdr v) (adtsframe.u_hdr w)) →
  segs_es gs = concat (adtsframe.wire <$> us) →
  ∃ d d' aus aus', demux_segments (sg_bytes P A <$> gs) newTSDemux = Ok (d, aus, None) ∧
    end_ d = Ok (d', aus') ∧ aus ++ aus' = adtsframe.outs us ∧ gapCount d' = u64 (adtsframe.multis us).
Proof.
  intros HP Hgs Hus Hcfg Hes.
  destruct (demux_segments_feed P A HP gs false false newTSDemux Hgs)
    as (chunks & d & aus & -> & Hch & Hcb & Hfa & Hst & Hg); [by split|split; [apply newTSDemux_ok|done..]|].
  rewrite Hes in Hch.
  destruct (adtsframe.feed_units chunks adtsframe.NewStream us [] adtsframe.NewStream_ok) as
    (us1 & us2 & s1 & -> & Hfa' & Hs1 & Hb1 & Hg1); try done.
  { rewrite app_nil_r. exact Hch. }
  rewrite (Hfa' : framer.feed_all chunks (framer newTSDemux) = _) in Hfa. injection Hfa as <- Hd.
  apply Forall_app in Hus as [_ Hus2]. rewrite app_nil_r in Hb1.
  destruct (adtsframe.finish_units s1 us2) as (s3 & Hdr & Hs3 & Hb3 & Hg3); try done.
  { intros. apply Hcfg; apply elem_of_app; by right. }
  destruct (drain_au_drain _ _ (asc d) _ _ Hdr) as (a' & Hdrain & _).
  eexists d, _, _, _. split; [done|]. unfold end_. rewrite <- Hd. unfold drain_framer.
  change (adtsframe.SetEOF s1) with (framer.SetEOF s1). rewrite Hdrain, bind_Ok. split; [done|].
  split; [by rewrite adtsframe.outs_app|].
  destruct (framer.wf_finish s3 (adtsframe.wf_of _ Hs3)) as [_ Hg5].
  unfold gapCount. cbn [framer set_framer accumGaps]. rewrite Hg. change (accumGaps newTSDemux) with 0.
  rewrite Z.add_0_l. change (adtsframe.GapCount (adtsframe.Finish s3)) with (framer.GapCount (framer.Finish s3)).
  rewrite Hg5. change (framer.backlog s3) with (adtsframe.backlog s3).
  rewrite Hb3. change (if blen [] =? 0 then 0 else 1) with 0.
  rewrite (adtsframe.gap_of s3), Hg3, Hg1, Z.add_0_r, (u64_small (u64 (u64 _))), (u64_small (u64 _)) by apply u64_range.
  rewrite framer.u64_add_l. f_equal. change (adtsframe.gaps adtsframe.NewStream) with 0.
  rewrite adtsframe.multis_app. lia.
Qed.

(** ** Examples *)

(** A payload stuffed to a whole packet by its adaptation field. *)
Definition stuffing_af (payload : list Z) : option (list Z) :=
  Some (0 :: repeat 255 (Z.to_nat (182 - blen payload))).

Lemma stuffed_ok pid cc payload :
  0 ≤ pid < nullPID → 0 ≤ cc < 16 → 0 < blen payload ≤ 182 → packet_ok pid cc (stuffing_af payload) payload.
Proof.
  intros Hp Hc Hl. split; try done; [lia|]. unfold packet, stuffing_af.
  unfold blen in *. cbn [app length]. rewrite length_app. cbn [length]. rewrite repeat_length. unfold tsPacketLen. lia.
Qed.

Definition example_parts : section_parts := mkSection [0; 1; 193; 0; 0] [1; 2; 3; 4].
Definition example_pat : item :=
  let body := pat_body [16] 1 256 [] in
  IPat (mkWrap 0 (stuffing_af (psi_payload [] (section 0 example_parts body) [255])) [] [255] example_parts) [16] 1 [].
Definition example_pmt : item :=
  let body := pmt_body [225; 0] [9; 9] [(0x1B, 258, [7])] 257 [] [] in
  IPmt (mkWrap 0 (stuffing_af (psi_payload [5] (section 2 example_parts body) [])) [5] [] example_parts)
    [225; 0] [9; 9] [(0x1B, 258, [7])] [] [].
Definition example_audio (pusi again : bool) (payload : list Z) : apkt :=
  mkApkt pusi (stuffing_af payload) payload again.
Definition example_null : list Z := [0x47; 0x1F; 0xFF; 0x10] ++ repeat 255 184.
Definition example_units : list adtsframe.Unit :=
  [adtsframe.example_unit 0 [1; 2; 3]; adtsframe.example_unit 0 [71; 71]; adtsframe.example_unit 1 [255; 241]].
Definition example_pes (es : list Z) (n : nat) : PES :=
  let all := [0; 0; 1; 0xC0; 0; 0; 0x80; 0; 1; 0xFF] ++ es in
  mkPES [0xC0; 0; 0; 0x80; 0] [0xFF] es
    [example_audio true false (take n all); example_audio false true (drop n all)].
Definition example_segments : list segment :=
  let es := concat (adtsframe.wire <$> example_units) in
  let p := example_pes (take 13 es) 9 in
  let q := example_pes (drop 13 es) 12 in
  let audio := (λ p, IAudio <$> pes_pkts p) in
  [mkSeg 15 ([IAudio (example_audio false false [1]); example_pat; IOther example_null; example_pmt]
       ++ audio p) [p];
   mkSeg 3 (take 1 (audio q) ++ [example_pat; example_pmt] ++ drop 1 (audio q)) [q]].

Lemma example_audio_ok pusi again payload :
  bytes_ok payload → 0 < blen payload ≤ 182 → item_ok 256 257 (IAudio (example_audio pusi again payload)).
Proof. intros Hb Hl. split; [done|]. intros c Hc. by apply stuffed_ok. Qed.

Lemma example_pat_ok : item_ok 256 257 example_pat.
Proof.
  split; [split; [|split_and!; by vm_compute]|].
  2: { split; [repeat constructor; lia|lia]. }
  apply stuffed_ok; [by vm_compute..|split; by vm_compute].
Qed.

Lemma example_pmt_ok : item_ok 256 257 example_pmt.
Proof.
  split; [split; [|split_and!; by vm_compute]|].
  - apply stuffed_ok; [by vm_compute..|split; by vm_compute].
  - split_and!; try by vm_compute. apply Forall_cons_2; [|constructor]. by split_and!.
Qed.

Lemma example_null_ok : item_ok 256 257 (IOther example_null).
Proof.
  exists 0x1F, 0xFF, 0x10, (repeat 255 184). split; [done|]. split; [repeat constructor; by vm_compute|].
  split_and!; by vm_compute.
Qed.

Lemma example_pes_ok es n : bytes_ok es → (9 ≤ n ≤ 10 + length es)%nat → pes_ok (example_pes es n).
Proof.
  intros Hes Hn. split; try done.
  - eexists _, _. split; [done|]. split; [done|]. split; [|by repeat constructor].
    unfold blen. cbn [a_payload example_audio]. rewrite length_take. cbn [app length]. lia.
  - cbn [pes_pkts example_pes fmap list_fmap concat a_payload example_audio]. rewrite app_nil_r.
    by rewrite take_drop.
Qed.

Lemma example_segments_ok : segs_ok 256 257 false false example_segments.
Proof.
  assert (Hb : bytes_ok (concat (adtsframe.wire <$> example_units))) by (repeat constructor; by vm_compute).
  assert (Ha : ∀ pusi again payload, forallb (λ x, (0 <=? x) && (x <? 256)) payload = true →
    (0 <? blen payload) && (blen payload <=? 182) = true →
    item_ok 256 257 (IAudio (example_audio pusi again payload))).
  { intros pusi again payload Hf Hl. apply andb_true_iff in Hl as [H1 H2].
    apply example_audio_ok; [|lia]. apply Forall_forall. intros x Hx. rewrite forallb_forall in Hf.
    specialize (Hf x Hx). apply andb_true_iff in Hf as [? ?]. unfold is_u8. lia. }
  split_and!; try done.
  - repeat (apply Forall_cons_2; [first [exact example_pat_ok | exact example_pmt_ok | exact example_null_ok
      | apply Ha; by vm_compute]|]). constructor.
  - apply Forall_cons_2; [|constructor]. apply example_pes_ok; [by apply Forall_take|].
    split; apply Nat.leb_le; by vm_compute.
  - split_and!; try done.
    + repeat (apply Forall_cons_2; [first [exact example_pat_ok | exact example_pmt_ok | exact example_null_ok
        | apply Ha; by vm_compute]|]). constructor.
    + apply Forall_cons_2; [|constructor]. apply example_pes_ok; [by apply Forall_drop|].
    split; apply Nat.leb_le; by vm_compute.
Qed.

Lemma ts_demux_exact_witness :
  ∃ d d' aus aus', demux_segments (sg_bytes 256 257 <$> example_segments) newTSDemux = Ok (d, aus, None) ∧
    end_ d = Ok (d', aus') ∧ aus ++ aus' = [([1; 2; 3], 23219954); ([71; 71], 23219954)] ∧
    gapCount d' = u64 1.
Proof.
  apply (ts_demux_exact 256 257 example_segments example_units).
  - split_and!; by vm_compute.
  - exact example_segments_ok.
  - assert (∀ n p, 0 ≤ n ≤ 3 → 0 < blen p < 2 ^ 12 → bytes_ok p →
      adtsframe.unit_ok (adtsframe.example_unit n p)) as Hu.
    { intros n p Hn Hl Hp. split; cbn; [done| |done|done|split; [constructor|done]].
      split; cbn; try lia; try done; by left. }
    repeat (apply Forall_cons_2; [apply Hu; try done; repeat constructor; by vm_compute|]). constructor.
  - intros v w Hv Hw. repeat (apply elem_of_cons in Hv as [->|Hv]); try (by apply elem_of_nil in Hv);
      repeat (apply elem_of_cons in Hw as [->|Hw]); try (by apply elem_of_nil in Hw); done.
  - by vm_compute.
Defined.

Lemma demux_safe_witness :
  ∃ d' aus e, demux [0; 0x47; 0x40; 0xFF] true newTSDemux = Ok (d', aus, e) ∧ demux_ok d' ∧ Forall au_ok aus
    ∧ (aus ≠ [] → audioSpecificConfig d' ≠ None)
    ∧ (audioSpecificConfig newTSDemux ≠ None → audioSpecificConfig d' ≠ None).
Proof.
  apply (demux_safe [0; 0x47; 0x40; 0xFF] true newTSDemux); [apply newTSDemux_ok|].
  repeat constructor; by vm_compute.
Defined.
End tsdemux.
