(* ===== verification/Mp4.v ===== *)
(** * ISO BMFF boxes: [internal/mp4/mp4.go]

    The bounds-checked box walk, the initialization segment (moov, trak, the esds
    descriptors) and the media fragment (moof, traf, trun), with the samples handed
    to the caller's [onSample].  Go's [int] is 64 bits wide; every quantity here
    stays far below that width.  A wrapped error is its sentinel. *)
From Stdlib Require Import Ascii String.
From S2P Require Import Prelude Bytes.
From stdpp Require Import gmap.
Local Open Scope Z_scope.

Module mp4.

Inductive err := ErrNoAudioTrack | ErrNoASC | ErrUnsupportedSampleEntry | ErrMalformedBox | ErrShortMdat.

Record AudioInit := mkInit {
  ASC : list Z; Timescale : Z; TrackID : Z; DefaultSize : Z; DefaultDur : Z
}.
Record Sample := mkSample { Data : list Z; Dur : Z }.

(** ** The box walk *)
Record boxSpan := mkSpan { typ : list Z; start : Z; bodyOff : Z; bodyEnd : Z }.

(** What the callback returns: nil, [errStopBox], or another error. *)
Inductive signal (E : Type) := Continue | Stop | Fail (e : E).
Arguments Continue {E}.
Arguments Stop {E}.
Arguments Fail {E}.

Definition MaxInt32 : Z := 2 ^ 31 - 1.

Section walk.
Context {E S : Type}.

(** The header of the box at [off]: its length and the length of its header. *)
Definition box_header (malformed : E) (data : list Z) (off : Z) : res E (list Z * Z * Z) :=
  size ← be_at 4 data off;
  typ ← slice data (off + 4) (off + 8);
  if size =? 0 then mret (typ, 8, blen data - off)
  else if size =? 1 then
    if blen data <? off + 16 then Err malformed
    else
      large ← be_at 8 data (off + 8);
      if (large <? 16) || (blen data - off <? large) then Err malformed
      else mret (typ, 16, large)
  else if (size <? 8) || (blen data - off <? size) then Err malformed
  else mret (typ, 8, size).

(** [eachBox], with the variables its callback captures as a state. *)
Fixpoint each_from (malformed : E) (fuel : nat) (data : list Z) (off : Z)
    (fn : boxSpan → S → res no_err (S * signal E)) (s : S) : res no_err (S * option E) :=
  match fuel with
  | O => Panic
  | Datatypes.S fuel =>
      if blen data <? off + 8 then mret (s, None)
      else
        match box_header malformed data off with
        | Err e => mret (s, Some e)
        | Panic => Panic
        | Ok (typ, headerLen, boxLen) =>
            '(s, g) ← fn (mkSpan typ off (off + headerLen) (off + boxLen)) s;
            match g with
            | Continue => each_from malformed fuel data (off + boxLen) fn s
            | Stop => mret (s, None)
            | Fail e => mret (s, Some e)
            end
        end
  end.
Definition eachBoxE (malformed : E) (data : list Z) fn (s : S) :=
  each_from malformed (Datatypes.S (length data)) data 0 fn s.
End walk.

(** The callbacks of the parsers report their own errors through the state or as the
    package's errors. *)
Definition eachBox {S} (data : list Z) (fn : boxSpan → S → res no_err (S * signal err)) (s : S)
    : res no_err (S * option err) := eachBoxE ErrMalformedBox data fn s.

(** A parser step: run [m], and go on unless it returned an error. *)
Definition try {A B} (m : res no_err (A * option err)) (f : A → res err B) : res err B :=
  match m with
  | Ok (a, None) => f a
  | Ok (_, Some e) => Err e
  | Err e => match e with end
  | Panic => Panic
  end.

Definition body_of {E} (data : list Z) (b : boxSpan) : res E (list Z) := slice data (bodyOff b) (bodyEnd b).
Definition is_typ (t : string) (b : boxSpan) : bool := bool_decide (typ b = str t).

(** [firstChild]: the payload, if there is such a box. *)
Definition firstChild (data : list Z) (t : string) : res err (option (list Z)) :=
  try (eachBox data (λ b found,
         if is_typ t b then body ← body_of data b; mret (Some body, Stop)
         else mret (found, Continue)) None)
    (λ found, mret found).

(** ** The initialization segment *)

(** [parseTKHD] and [parseMDHD] have one layout. *)
Definition versioned32 (body : list Z) : res err (option Z) :=
  if blen body <? 4 then mret None
  else
    b0 ← byte_at body 0;
    let off := if b0 =? 1 then 4 + 8 + 8 else 4 + 4 + 4 in
    if blen body <? off + 4 then mret None
    else v ← be_at 4 body off; mret (Some v).
Definition parseTKHD := versioned32.
Definition parseMDHD := versioned32.

Definition parseHDLR (body : list Z) : res err (list Z) :=
  if blen body <? 12 then mret [] else slice body 8 12.

Definition tagESDescriptor : Z := 0x03.
Definition tagDecoderConfig : Z := 0x04.
Definition tagDecoderSpecific : Z := 0x05.
Definition objectTypeAAC : Z := 0x40.
Definition decoderConfigFixed : Z := 13.
Definition esDescriptorMinFixed : Z := 3.

(** The expandable length of a descriptor: [n] more octets may be read. *)
Fixpoint read_size (n : nat) (b : list Z) (i size : Z) : res err (Z * Z) :=
  match n with
  | O => mret (i, size)
  | S n =>
      if blen b <=? i then Err ErrMalformedBox
      else
        c ← byte_at b i;
        let size := Z.lor (Z.shiftl size 7) (Z.land c 0x7F) in
        if Z.land c 0x80 =? 0 then mret (i + 1, size) else read_size n b (i + 1) size
  end.

Definition readDescriptor (b : list Z) : res err (Z * list Z * list Z) :=
  if blen b <? 2 then Err ErrMalformedBox
  else
    tag ← byte_at b 0;
    '(i, size) ← read_size 4 b 1 0;
    if (size <? 0) || (blen b <? i + size) then Err ErrMalformedBox
    else
      content ← slice b i (i + size);
      rest ← slice_from b (i + size);
      mret (tag, content, rest).

(** A descriptor that must carry [want]: anything else is [ErrNoASC]. *)
Definition descriptor (want : Z) (b : list Z) : res err (list Z) :=
  match readDescriptor b with
  | Ok (tag, content, _) => if tag =? want then Ok content else Err ErrNoASC
  | Err _ => Err ErrNoASC
  | Panic => Panic
  end.

Definition has (flags bit : Z) : bool := negb (Z.land flags bit =? 0).

Definition parseESDS (esds : list Z) : res err (list Z) :=
  if blen esds <? 4 then Err ErrMalformedBox
  else
    b ← slice_from esds 4;
    es ← descriptor tagESDescriptor b;
    if blen es <? esDescriptorMinFixed then Err ErrNoASC
    else
      flags ← byte_at es 2;
      let off := esDescriptorMinFixed in
      let off := if has flags 0x80 then off + 2 else off in
      off ← (if has flags 0x40 then
               if blen es <=? off then Err ErrNoASC
               else n ← byte_at es off; mret (off + (1 + n))
             else mret off);
      let off := if has flags 0x20 then off + 2 else off in
      if blen es <? off then Err ErrNoASC
      else
        b ← slice_from es off;
        dcd ← descriptor tagDecoderConfig b;
        if blen dcd <? decoderConfigFixed then Err ErrNoASC
        else
          oti ← byte_at dcd 0;
          if negb (oti =? objectTypeAAC) then Err ErrUnsupportedSampleEntry
          else
            b ← slice_from dcd decoderConfigFixed;
            dsi ← descriptor tagDecoderSpecific b;
            if blen dsi =? 0 then Err ErrNoASC else mret dsi.

Definition audioSampleEntryLen : Z := 28.

Definition parseMP4A (body : list Z) : res err (list Z) :=
  if blen body <? audioSampleEntryLen then Err ErrMalformedBox
  else
    b ← slice_from body audioSampleEntryLen;
    esds ← firstChild b "esds";
    match esds with None => Err ErrNoASC | Some esds => parseESDS esds end.

Definition encrypted_types : list string := ["enca"; "encv"; "encs"; "drms"; "drmi"]%string.

(** The callback of [parseSTSDForASC]: its captured variables. *)
Record stsd_state := mkStsd {
  sd_asc : option (list Z); sd_err : option err; sd_encrypted : bool; sd_first : list Z
}.

(** A parser called from a callback: its error goes to a captured variable. *)
Definition catch {A} (m : res err A) : res no_err (A + err) :=
  match m with Ok a => Ok (inl a) | Err e => Ok (inr e) | Panic => Panic end.

Definition stsd_entry (entries : list Z) (b : boxSpan) (s : stsd_state) : res no_err (stsd_state * signal err) :=
  let s := if blen (sd_first s) =? 0 then mkStsd (sd_asc s) (sd_err s) (sd_encrypted s) (typ b) else s in
  if is_typ "mp4a" b then
    body ← body_of entries b;
    r ← catch (parseMP4A body);
    match r with
    | inr e => mret (mkStsd (sd_asc s) (Some e) (sd_encrypted s) (sd_first s), Stop)
    | inl a => mret (mkStsd (Some a) (sd_err s) (sd_encrypted s) (sd_first s), Stop)
    end
  else if existsb (λ t, is_typ t b) encrypted_types then
    mret (mkStsd (sd_asc s) (sd_err s) true (sd_first s), Continue)
  else mret (s, Continue).

Definition parseSTSDForASC (stsd : option (list Z)) : res err (list Z) :=
  match stsd with
  | None => Err ErrNoASC
  | Some stsd =>
      if blen stsd <? 8 then Err ErrMalformedBox
      else
        entries ← slice_from stsd 8;
        try (eachBox entries (stsd_entry entries) (mkStsd None None false []))
          (λ s,
            match sd_err s, sd_asc s with
            | Some e, _ => Err e
            | None, Some asc => mret asc
            | None, None =>
                if sd_encrypted s then Err ErrUnsupportedSampleEntry
                else if negb (blen (sd_first s) =? 0) then Err ErrUnsupportedSampleEntry
                else Err ErrNoASC
            end)
  end.

(** [parseMdia]: the handler, the timescale and the stsd payload. *)
Definition parseMdia (mdia : list Z) : res err (list Z * Z * option (list Z)) :=
  mdhd ← firstChild mdia "mdhd";
  timescale ← (match mdhd with
               | Some b => v ← parseMDHD b; mret (default 0 v)
               | None => mret 0
               end);
  hdlr ← firstChild mdia "hdlr";
  handler ← (match hdlr with Some b => parseHDLR b | None => mret [] end);
  minf ← firstChild mdia "minf";
  match minf with
  | None => mret (handler, timescale, None)
  | Some minf =>
      stbl ← firstChild minf "stbl";
      match stbl with
      | None => mret (handler, timescale, None)
      | Some stbl => stsd ← firstChild stbl "stsd"; mret (handler, timescale, stsd)
      end
  end.

(** The callback of [parseTrak]: the track_ID and the mdia payload.  The two table
    parsers it calls report nothing. *)
Definition trak_box (trak : list Z) (b : boxSpan) (s : option Z * option (list Z))
    : res no_err ((option Z * option (list Z)) * signal err) :=
  let '(trackID, mdia) := s in
  if is_typ "tkhd" b then
    body ← body_of trak b;
    r ← catch (parseTKHD body);
    match r with
    | inl (Some id) => mret ((Some id, mdia), Continue)
    | _ => mret (s, Continue)
    end
  else if is_typ "mdia" b then
    body ← body_of trak b; mret ((trackID, Some body), Continue)
  else mret (s, Continue).

(** [parseTrak]: [None] for a track that is not audio. *)
Definition parseTrak (trak : list Z) : res err (option AudioInit) :=
  try (eachBox trak (trak_box trak) (None, None))
    (λ '(trackID, mdia),
      match mdia with
      | None => mret None
      | Some mdia =>
          '(handler, timescale, stsd) ← parseMdia mdia;
          if negb (bool_decide (handler = str "soun")) then mret None
          else
            match trackID with
            | None => Err ErrMalformedBox
            | Some trackID =>
                asc ← parseSTSDForASC stsd;
                mret (Some (mkInit asc timescale trackID 0 0))
            end
      end).

(** [parseTrex]: the defaults by track_ID, duration and size. *)
Definition trex_box (mvex : list Z) (b : boxSpan) (out : gmap Z (Z * Z))
    : res no_err (gmap Z (Z * Z) * signal err) :=
  if negb (is_typ "trex" b) then mret (out, Continue)
  else
    body ← body_of mvex b;
    if blen body <? 20 then mret (out, Continue)
    else
      id ← be_at 4 body 4;
      dur ← be_at 4 body 12;
      size ← be_at 4 body 16;
      mret (<[id := (dur, size)]> out, Continue).

Definition parseTrex (moov : list Z) : res err (gmap Z (Z * Z)) :=
  mvex ← firstChild moov "mvex";
  match mvex with
  | None => mret ∅
  | Some mvex => try (eachBox mvex (trex_box mvex) ∅) (λ out, mret out)
  end.

Definition moov_box (moov : list Z) (b : boxSpan) (s : option AudioInit * option err)
    : res no_err ((option AudioInit * option err) * signal err) :=
  if negb (is_typ "trak" b) then mret (s, Continue)
  else
    body ← body_of moov b;
    r ← catch (parseTrak body);
    match r with
    | inr e => mret ((s.1, Some e), Stop)
    | inl (Some info) => mret ((Some info, s.2), Stop)
    | inl None => mret (s, Continue)
    end.

Definition ParseInit (data : list Z) : res err AudioInit :=
  moov ← firstChild data "moov";
  match moov with
  | None => Err ErrMalformedBox
  | Some moov =>
      trex ← parseTrex moov;
      try (eachBox moov (moov_box moov) (None, None))
        (λ '(found, trakErr),
          match trakErr, found with
          | Some e, _ => Err e
          | None, None => Err ErrNoAudioTrack
          | None, Some ai =>
              if (Timescale ai =? 0) || (MaxInt32 <? Timescale ai) then Err ErrMalformedBox
              else
                match trex !! TrackID ai with
                | Some (dur, size) => mret (mkInit (ASC ai) (Timescale ai) (TrackID ai) size dur)
                | None => mret ai
                end
          end)
  end.

(** ** The media fragment *)
Definition tfhdBaseDataOffset : Z := 0x000001.
Definition tfhdSampleDescIndex : Z := 0x000002.
Definition tfhdDefaultDuration : Z := 0x000008.
Definition tfhdDefaultSize : Z := 0x000010.
Definition trunDataOffset : Z := 0x000001.
Definition trunFirstSampleFlags : Z := 0x000004.
Definition trunSampleDuration : Z := 0x000100.
Definition trunSampleSize : Z := 0x000200.
Definition trunSampleFlags : Z := 0x000400.
Definition trunSampleCTO : Z := 0x000800.

(** The 24 flag bits of a FullBox. *)
Definition box_flags {E} (b : list Z) : res E Z :=
  b1 ← byte_at b 1; b2 ← byte_at b 2; b3 ← byte_at b 3;
  mret (Z.lor (Z.lor (Z.shiftl b1 16) (Z.shiftl b2 8)) b3).

Definition tfhdTrackID (tfhd : list Z) : res err (option Z) :=
  if blen tfhd <? 8 then mret None else v ← be_at 4 tfhd 4; mret (Some v).

(** [findAudioTraf]: the payload, or the error of a tfhd lookup. *)
Definition traf_box (moof : list Z) (trackID : Z) (b : boxSpan) (s : option (list Z) * option err)
    : res no_err ((option (list Z) * option err) * signal err) :=
  if negb (is_typ "traf" b) then mret (s, Continue)
  else
    body ← body_of moof b;
    r ← catch (firstChild body "tfhd");
    match r with
    | inr e => mret ((s.1, Some e), Stop)
    | inl None => mret (s, Continue)
    | inl (Some tfhd) =>
        r ← catch (tfhdTrackID tfhd);
        match r with
        | inl (Some id) => if id =? trackID then mret ((Some body, s.2), Stop) else mret (s, Continue)
        | _ => mret (s, Continue)
        end
    end.
Definition findAudioTraf (moof : list Z) (trackID : Z) : res err (option (list Z)) :=
  try (eachBox moof (traf_box moof trackID) (None, None))
    (λ '(traf, inner), match inner with Some e => Err e | None => mret traf end).

(** A field of [n] octets that is present when [bit] is set: the offset behind it. *)
Definition opt_field (flags bit n : Z) (b : list Z) (off : Z) : res err (option Z * Z) :=
  if has flags bit then
    if blen b <? off + n then Err ErrMalformedBox
    else v ← be_at n b off; mret (Some v, off + n)
  else mret (None, off).

(** [parseTFHD]: base, default duration and size, and whether the base is explicit. *)
Definition parseTFHD (tfhd : list Z) (moofStart : Z) : res err (Z * Z * Z * bool) :=
  if blen tfhd <? 8 then Err ErrMalformedBox
  else
    flags ← box_flags tfhd;
    let off := 8 in
    '(base, off) ← opt_field flags tfhdBaseDataOffset 8 tfhd off;
    base ← (match base with
            | Some v => if MaxInt32 <? v then Err ErrMalformedBox else mret (Some v)
            | None => mret None
            end);
    '(_, off) ← opt_field flags tfhdSampleDescIndex 4 tfhd off;
    '(defDur, off) ← opt_field flags tfhdDefaultDuration 4 tfhd off;
    '(defSize, off) ← opt_field flags tfhdDefaultSize 4 tfhd off;
    mret (default moofStart base, default 0 defDur, default 0 defSize, bool_decide (is_Some base)).

Section fragment.
(** The caller's [onSample]: its own state, and its error. *)
Context {W E : Type} (onSample : W → Sample → W * option E).

Inductive ferr := Own (e : err) | Caller (e : E).

(** A computation that delivers: the caller's state and the sample budget are kept
    whatever its result. *)
Definition io (A : Type) : Type := W * Z → res no_err ((W * Z) * (A + ferr)).
Definition io_ret {A} (a : A) : io A := λ s, Ok (s, inl a).
Definition io_fail {A} (e : err) : io A := λ s, Ok (s, inr (Own e)).
Definition io_bind {A B} (m : io A) (f : A → io B) : io B := λ s,
  '(s, r) ← m s; match r with inl a => f a s | inr e => mret (s, inr e) end.
(** A parser without deliveries. *)
Definition pure {A} (m : res err A) : io A := λ s,
  match m with Ok a => Ok (s, inl a) | Err e => Ok (s, inr (Own e)) | Panic => Panic end.

(** [guarded]: at most as many samples as the fragment has octets. *)
Definition guarded (x : Sample) : io () := λ '(w, budget),
  if budget <=? 0 then Ok ((w, budget), inr (Own ErrMalformedBox))
  else
    let '(w, e) := onSample w x in
    Ok ((w, budget - 1), match e with Some e => inr (Caller e) | None => inl () end).

(** A field of a sample record: read, or the default. *)
Definition rec_field (flags bit : Z) (trun : list Z) (off dflt : Z) : res err (Z * Z) :=
  if has flags bit then v ← be_at 4 trun off; mret (v, off + 4) else mret (dflt, off).
Definition skip_field (flags bit off : Z) : Z := if has flags bit then off + 4 else off.

(** The sample loop of [parseTrun]: the data pointer and whether it came up short. *)
Fixpoint samples_loop (n : nat) (flags defDur defSize : Z) (trun frag : list Z) (off dataPtr : Z)
    : io (Z * bool) :=
  match n with
  | O => io_ret (dataPtr, false)
  | S n =>
      io_bind (pure (rec_field flags trunSampleDuration trun off defDur)) (λ '(dur, off),
      io_bind (pure (rec_field flags trunSampleSize trun off defSize)) (λ '(size, off),
      let off := skip_field flags trunSampleFlags off in
      let off := skip_field flags trunSampleCTO off in
      if (size =? 0) || (dataPtr <? 0) then io_ret (dataPtr, true)
      else
        let end_ := dataPtr + size in
        if (end_ <? dataPtr) || (blen frag <? end_) then io_ret (dataPtr, true)
        else
          io_bind (pure (slice frag dataPtr end_)) (λ data,
          io_bind (guarded (mkSample data dur)) (λ _,
          samples_loop n flags defDur defSize trun frag off end_))))
  end.

Definition recordSize (flags : Z) : Z :=
  skip_field flags trunSampleCTO (skip_field flags trunSampleFlags
    (skip_field flags trunSampleSize (skip_field flags trunSampleDuration 0))).

(** The header of a trun: flags, sample count, offset of the records, data pointer. *)
Definition trun_header (trun : list Z) (base running : Z) (located : bool) (fragLen : Z)
    : res err (Z * Z * Z * Z) :=
  if blen trun <? 8 then Err ErrMalformedBox
  else
    flags ← box_flags trun;
    sampleCount ← be_at 4 trun 4;
    '(dataPtr, off) ←
      (if has flags trunDataOffset then
         if blen trun <? 8 + 4 then Err ErrMalformedBox
         else v ← be_at 4 trun 8; mret (base + i32 v, 8 + 4)
       else if negb located then Err ErrMalformedBox
       else mret (running, 8));
    off ← (if has flags trunFirstSampleFlags then
             if blen trun <? off + 4 then Err ErrMalformedBox else mret (off + 4)
           else mret off);
    let perSample := recordSize flags in
    let remaining := blen trun - off in
    if 0 <? perSample then
      if remaining / perSample <? sampleCount then Err ErrMalformedBox
      else mret (flags, sampleCount, off, dataPtr)
    else if fragLen <? sampleCount then Err ErrMalformedBox
    else mret (flags, sampleCount, off, dataPtr).

(** [parseTrun]: next, hadOffset, wasShort. *)
Definition parseTrun (trun : list Z) (base running : Z) (located : bool) (defDur defSize : Z)
    (frag : list Z) : io (Z * bool * bool) :=
  io_bind (pure (trun_header trun base running located (blen frag))) (λ '(flags, sampleCount, off, dataPtr),
  io_bind (samples_loop (Z.to_nat sampleCount) flags defDur defSize trun frag off dataPtr) (λ '(next, short),
  io_ret (next, has flags trunDataOffset, short))).

(** The captured variables of [parseTraf]. *)
Record traf_state := mkTraf { tf_ptr : Z; tf_located : bool; tf_short : bool; tf_err : option ferr }.

Definition trun_box (traf frag : list Z) (base defDur defSize : Z) (b : boxSpan)
    (s : (W * Z) * traf_state) : res no_err (((W * Z) * traf_state) * signal ferr) :=
  let '(w, t) := s in
  if negb (is_typ "trun" b) then mret (s, Continue)
  else
    body ← body_of traf b;
    '(w, r) ← parseTrun body base (tf_ptr t) (tf_located t) defDur defSize frag w;
    match r with
    | inr e => mret ((w, mkTraf (tf_ptr t) (tf_located t) (tf_short t) (Some e)), Stop)
    | inl (next, hadOffset, wasShort) =>
        let located := if (hadOffset : bool) then true else tf_located t in
        if (wasShort : bool) then mret ((w, mkTraf next located true (tf_err t)), Stop)
        else mret ((w, mkTraf next located (tf_short t) (tf_err t)), Continue)
    end.

Definition parseTraf (traf : list Z) (moofStart : Z) (frag : list Z) (init : AudioInit) : io () :=
  io_bind (pure (firstChild traf "tfhd")) (λ tfhd,
  match tfhd with
  | None => io_fail ErrMalformedBox
  | Some tfhd =>
      io_bind (pure (parseTFHD tfhd moofStart)) (λ '(base, defDur, defSize, baseExplicit),
      let defDur := if defDur =? 0 then DefaultDur init else defDur in
      let defSize := if defSize =? 0 then DefaultSize init else defSize in
      λ w,
      '((w, t), e) ← eachBoxE (Own ErrMalformedBox) traf (trun_box traf frag base defDur defSize)
                       (w, mkTraf base baseExplicit false None);
      mret (w,
        match e, tf_err t with
        | Some e, _ => inr e
        | None, Some e => inr e
        | None, None => if tf_short t then inr (Own ErrShortMdat) else inl ()
        end))
  end).

(** The moof: its offset in the fragment and its payload. *)
Definition moof_box (frag : list Z) (b : boxSpan) (s : option (Z * list Z))
    : res no_err (option (Z * list Z) * signal err) :=
  if is_typ "moof" b then body ← body_of frag b; mret (Some (start b, body), Stop)
  else mret (s, Continue).

(** [ParseFragment]: the caller's state after the deliveries, and the error. *)
Definition ParseFragment (init : AudioInit) (frag : list Z) (w : W) : res no_err (W * option ferr) :=
  '((w, _), r) ←
    io_bind (pure (try (eachBox frag (moof_box frag) None) (λ moof, mret moof))) (λ moof,
    match moof with
    | None => io_fail ErrMalformedBox
    | Some (moofStart, moof) =>
        io_bind (pure (findAudioTraf moof (TrackID init))) (λ traf,
        match traf with
        | None => io_fail ErrMalformedBox
        | Some traf => parseTraf traf moofStart frag init
        end)
    end) (w, blen frag);
  mret (w, match r with inl () => None | inr e => Some e end).
End fragment.

(** ** Totality *)

(** A box lies inside the data walked. *)
Definition span_ok (data : list Z) (b : boxSpan) : Prop :=
  0 ≤ start b ∧ start b + 8 ≤ bodyOff b ≤ bodyEnd b ∧ bodyEnd b ≤ blen data.

Lemma box_header_ok {E} (malformed : E) data off :
  0 ≤ off → off + 8 ≤ blen data →
  returns (box_header malformed data off) (λ '(t, h, l), 8 ≤ h ≤ l ∧ off + l ≤ blen data).
Proof.
  intros Ho Hl. unfold box_header.
  destruct (be_at 4 data off) as [size|e|] eqn:Hs; [|done|revert Hs; apply be_at_no_panic; lia].
  rewrite bind_Ok. rbind (apply slice_returns; lia). intros t _.
  destruct (size =? 0); [cbn; lia|]. destruct (size =? 1).
  - destruct (Z.ltb_spec (blen data) (off + 16)); [done|].
    destruct (be_at 8 data (off + 8)) as [large|e|] eqn:Hb; [|done|revert Hb; apply be_at_no_panic; lia].
    rewrite bind_Ok. destruct (_ || _) eqn:Hc; [done|]. apply orb_false_iff in Hc as [H1 H2]. cbn. lia.
  - destruct (_ || _) eqn:Hc; [done|]. apply orb_false_iff in Hc as [H1 H2]. cbn. lia.
Qed.

(** The rule of the box walk: [I] holds of the captured variables before every call of
    the callback, [F] when the walk ends without an error, [Q] when it ends with one. *)
Section walk_rule.
Context {E S : Type} (malformed : E) (data : list Z) (I F : S → Prop) (Q : S → E → Prop).
Context (fn : boxSpan → S → res no_err (S * signal E)).
Hypothesis Hfn : ∀ b s, span_ok data b → I s →
  returns (fn b s) (λ '(s', g), match g with Continue => I s' | Stop => F s' | Fail e => Q s' e end).
Hypothesis Hend : ∀ s, I s → F s.
Hypothesis Hbad : ∀ s, I s → Q s malformed.

Lemma box_header_err off e : box_header malformed data off = Err e → e = malformed.
Proof.
  unfold box_header. destruct (be_at 4 data off) as [size|e'|] eqn:Hs4; [|by apply be_at_not_err in Hs4|done].
  rewrite bind_Ok.
  destruct (slice data (off + 4) (off + 8)) as [t|e'|] eqn:Ht; [|by apply slice_not_err in Ht|done].
  rewrite bind_Ok. destruct (size =? 0); [done|]. destruct (size =? 1).
  - destruct (blen data <? off + 16); [by intros [= <-]|].
    destruct (be_at 8 data (off + 8)) as [large|e'|] eqn:H8; [|by apply be_at_not_err in H8|done].
    rewrite bind_Ok. destruct (_ || _); [by intros [= <-]|done].
  - destruct (_ || _); [by intros [= <-]|done].
Qed.

Lemma each_from_rule fuel : ∀ off s, 0 ≤ off → Z.max 0 (blen data - off) < Z.of_nat fuel → I s →
  returns (each_from malformed fuel data off fn s)
    (λ '(s', e), match e with Some e => Q s' e | None => F s' end).
Proof.
  induction fuel as [|fuel IH]; intros off s Ho Hf Hs; [lia|]. cbn [each_from].
  destruct (Z.ltb_spec (blen data) (off + 8)); [by apply Hend|].
  pose proof (box_header_ok malformed data off Ho ltac:(lia)) as Hh.
  destruct (box_header malformed data off) as [[[t h] l]|e|] eqn:Eh; cbn in Hh; [| |done].
  - rbind (apply Hfn; [unfold span_ok; cbn; lia|done]). intros [s' g] Hs'.
    destruct g; [apply IH; [lia|lia|done]|done..].
  - rewrite (box_header_err _ _ Eh). by apply Hbad.
Qed.

Lemma eachBoxE_rule s : I s →
  returns (eachBoxE malformed data fn s) (λ '(s', e), match e with Some e => Q s' e | None => F s' end).
Proof. intros Hs. apply each_from_rule; [lia|unfold blen; lia|done]. Qed.
End walk_rule.

Lemma eachBox_rule {S B} data (I : S → Prop) fn s (f : S → res err B) (P : B → Prop) :
  (∀ b s, span_ok data b → I s → returns (fn b s) (λ '(s', _), I s')) →
  I s → (∀ s, I s → returns (f s) P) → returns (try (eachBox data fn s) f) P.
Proof.
  intros Hfn Hs Hf. unfold eachBox.
  assert (H : returns (eachBoxE ErrMalformedBox data fn s)
    (λ '(s', e), match e with Some e => True | None => I s' end)).
  { apply (eachBoxE_rule _ _ I I (λ _ _, True)); [|done..]. intros b s0 Hb Hs0.
    eapply returns_weaken; [by apply Hfn|]. intros [s' g] ?. by destruct g. }
  destruct (eachBoxE _ _ _ _) as [[s' [e|]]|[]|]; cbn in *; [done| |done]. by apply Hf.
Qed.

Lemma body_returns {E} data b : span_ok data b → returns (@body_of E data b) (λ s, within s data).
Proof. intros (? & ? & ?). eapply returns_weaken; [apply slice_returns; lia|]. by intros s [? _]. Qed.

Lemma catch_returns {A} (m : res err A) P :
  returns m P → returns (catch m) (λ r, match r with inl a => P a | inr _ => True end).
Proof. by destruct m. Qed.

Definition opt_within (data : list Z) (o : option (list Z)) : Prop :=
  match o with Some b => within b data | None => True end.

Lemma firstChild_returns data t : returns (firstChild data t) (opt_within data).
Proof.
  apply (eachBox_rule data (opt_within data)); [|done|done].
  intros b s Hb Hs. destruct (is_typ t b); [|done].
  rbind (by apply body_returns). by intros body Hbody.
Qed.

Lemma versioned32_returns body : bytes_ok body →
  returns (versioned32 body) (λ o, match o with Some v => is_u32 v | None => True end).
Proof.
  intros Hb. unfold versioned32. destruct (Z.ltb_spec (blen body) 4); [done|].
  rbind (apply byte_at_returns; [done|lia]). intros b0 _. cbv zeta.
  set (off := if b0 =? 1 then _ else _). assert (0 ≤ off) by (unfold off; by destruct (b0 =? 1)). clearbody off.
  destruct (Z.ltb_spec (blen body) (off + 4)); [done|].
  rbind (apply be_at_returns; [done|lia..]). intros v Hv. exact Hv.
Qed.

Lemma read_size_returns b n : bytes_ok b → ∀ i size, 0 ≤ i → 0 ≤ size →
  returns (read_size n b i size) (λ '(j, sz), i ≤ j ∧ 0 ≤ sz).
Proof.
  intros Hb. induction n as [|n IH]; intros i size Hi Hs; cbn [read_size]; [cbn; lia|].
  destruct (Z.leb_spec (blen b) i); [done|].
  rbind (apply byte_at_returns; [done|lia]). intros c Hc. cbv zeta.
  assert (0 ≤ Z.lor (Z.shiftl size 7) (Z.land c 0x7F)).
  { apply Z.lor_nonneg. split; [by apply Z.shiftl_nonneg|]. apply Z.land_nonneg. by right. }
  destruct (_ =? 0); [cbn; lia|]. eapply returns_weaken; [apply IH; lia|]. intros [j sz]. lia.
Qed.

Lemma descriptor_returns want b : bytes_ok b → returns (descriptor want b) (λ c, within c b).
Proof.
  intros Hb. unfold descriptor.
  assert (H : returns (readDescriptor b) (λ '(_, c, _), within c b)).
  { unfold readDescriptor. destruct (Z.ltb_spec (blen b) 2); [done|].
    rbind (apply byte_at_returns; [done|lia]). intros tag _.
    rbind (apply read_size_returns; [done|lia..]). intros [i size] [Hi Hs].
    destruct (_ || _) eqn:Hc; [done|]. apply orb_false_iff in Hc as [_ H2]. apply Z.ltb_ge in H2.
    rbind (apply slice_returns; lia). intros c [Hcw _].
    rbind (apply slice_from_returns; lia). by intros. }
  destruct (readDescriptor b) as [[[tag c] r]|e|]; cbn in *; [|done|done]. by destruct (tag =? want).
Qed.

Definition asc_ok (data asc : list Z) : Prop := within asc data ∧ asc ≠ [].

Lemma parseESDS_returns esds : bytes_ok esds → returns (parseESDS esds) (asc_ok esds).
Proof.
  intros Hb. unfold parseESDS. destruct (Z.ltb_spec (blen esds) 4); [done|].
  rbind (apply slice_from_returns; lia). intros b [Hw1 _].
  rbind (apply descriptor_returns; by eapply within_bytes). intros es Hw2.
  assert (Hes : bytes_ok es) by (eapply within_bytes; [|exact Hb]; by eapply within_trans).
  unfold esDescriptorMinFixed. destruct (Z.ltb_spec (blen es) 3); [done|].
  rbind (apply byte_at_returns; [done|lia]). intros flags _. cbv zeta.
  set (off1 := if has flags 0x80 then 3 + 2 else 3). assert (3 ≤ off1 ≤ 5) by (unfold off1; destruct (has _ _); lia).
  clearbody off1. eapply returns_bind with (P := λ off, 3 ≤ off).
  { destruct (has flags 0x40); [|cbn; lia]. destruct (Z.leb_spec (blen es) off1); [done|].
    rbind (apply byte_at_returns; [done|lia]). unfold is_u8. intros n Hn. cbn. lia. }
  intros off2 Ho2. set (off3 := if has flags 0x20 then off2 + 2 else off2).
  assert (3 ≤ off3) by (unfold off3; destruct (has _ _); lia). clearbody off3.
  destruct (Z.ltb_spec (blen es) off3); [done|].
  rbind (apply slice_from_returns; lia). intros b2 [Hw3 _].
  rbind (apply descriptor_returns; by eapply within_bytes). intros dcd Hw4.
  assert (Hd : bytes_ok dcd) by (eapply within_bytes; [|exact Hes]; by eapply within_trans).
  unfold decoderConfigFixed. destruct (Z.ltb_spec (blen dcd) 13); [done|].
  rbind (apply byte_at_returns; [done|lia]). intros oti _. destruct (negb _); [done|].
  rbind (apply slice_from_returns; lia). intros b3 [Hw5 _].
  rbind (apply descriptor_returns; by eapply within_bytes). intros dsi Hw6.
  destruct (Z.eqb_spec (blen dsi) 0) as [|Hn]; [done|]. cbn. split; [|by intros ->].
  repeat (eapply within_trans; [eassumption|]). apply within_refl.
Qed.

Lemma parseMP4A_returns body : bytes_ok body → returns (parseMP4A body) (asc_ok body).
Proof.
  intros Hb. unfold parseMP4A, audioSampleEntryLen. destruct (Z.ltb_spec (blen body) 28); [done|].
  rbind (apply slice_from_returns; lia). intros b [Hw _].
  rbind (apply firstChild_returns). intros [esds|] He; [|done]. cbn in He.
  assert (Hwe : within esds body) by (by eapply within_trans).
  eapply returns_weaken; [apply parseESDS_returns; by eapply within_bytes|].
  intros asc [? ?]. split; [by eapply within_trans|done].
Qed.

Lemma parseSTSD_returns stsd : match stsd with Some s => bytes_ok s | None => True end →
  returns (parseSTSDForASC stsd) (λ asc, match stsd with Some s => asc_ok s asc | None => False end).
Proof.
  destruct stsd as [stsd|]; [|done]. intros Hb. unfold parseSTSDForASC.
  destruct (Z.ltb_spec (blen stsd) 8); [done|].
  rbind (apply slice_from_returns; lia). intros entries [Hw _].
  assert (He : bytes_ok entries) by (by eapply within_bytes).
  apply (eachBox_rule entries (λ s, ∀ a, sd_asc s = Some a → asc_ok entries a)); [|done|].
  - intros b s Hbo Hs. unfold stsd_entry. set (s1 := if blen (sd_first s) =? 0 then _ else s).
    assert (Hs1 : sd_asc s1 = sd_asc s) by (unfold s1; by destruct (_ =? 0)). rewrite <- Hs1 in Hs. clearbody s1.
    destruct (is_typ "mp4a" b); [|by destruct (existsb _ _)].
    rbind (by apply body_returns). intros body Hbody.
    rbind (apply catch_returns, parseMP4A_returns; by eapply within_bytes).
    intros [a|e] Ha; cbn; [|done]. intros a' [= <-]. destruct Ha. split; [by eapply within_trans|done].
  - intros s Hs. destruct (sd_err s); [done|]. destruct (sd_asc s) as [a|].
    + cbn. destruct (Hs a eq_refl). split; [by eapply within_trans|done].
    + destruct (sd_encrypted s); [done|]. by destruct (negb _).
Qed.

Lemma parseHDLR_returns body : returns (parseHDLR body) (λ _, True).
Proof.
  unfold parseHDLR. destruct (Z.ltb_spec (blen body) 12); [done|].
  eapply returns_weaken; [apply slice_returns; lia|done].
Qed.

Lemma parseMdia_returns mdia : bytes_ok mdia →
  returns (parseMdia mdia) (λ '(_, ts, stsd), is_u32 ts ∧ opt_within mdia stsd).
Proof.
  intros Hb. unfold parseMdia. rbind (apply firstChild_returns). intros mdhd Hm.
  eapply returns_bind with (P := is_u32).
  { destruct mdhd as [b|]; [|by vm_compute]. rbind (apply versioned32_returns; by eapply within_bytes).
    intros [v|] Hv; [exact Hv|by vm_compute]. }
  intros ts Hts. rbind (apply firstChild_returns). intros hdlr _.
  eapply returns_bind with (P := λ _, True); [destruct hdlr; [apply parseHDLR_returns|done]|]. intros handler _.
  rbind (apply firstChild_returns). intros [minf|] Hmi; [|done].
  rbind (apply firstChild_returns). intros [stbl|] Hst; [|done].
  rbind (apply firstChild_returns). intros stsd Hsd. cbn. split; [done|].
  destruct stsd; cbn in *; [|done]. eapply within_trans; [done|]. by eapply within_trans.
Qed.

(** What a parser makes of an audio track. *)
Record init_ok (data : list Z) (ai : AudioInit) : Prop := {
  io_asc : asc_ok data (ASC ai);
  io_ts : is_u32 (Timescale ai); io_id : is_u32 (TrackID ai);
  io_size : is_u32 (DefaultSize ai); io_dur : is_u32 (DefaultDur ai)
}.

Lemma init_ok_within data data' ai : init_ok data ai → within data data' → init_ok data' ai.
Proof. intros [[Hw Hn] ? ? ? ?] Hd. split; try done. split; [by eapply within_trans|done]. Qed.

Lemma parseTrak_returns trak : bytes_ok trak →
  returns (parseTrak trak) (λ o, match o with Some ai => init_ok trak ai | None => True end).
Proof.
  intros Hb. unfold parseTrak.
  apply (eachBox_rule trak (λ '(id, mdia), match id with Some v => is_u32 v | None => True end ∧ opt_within trak mdia));
    [|done|].
  - intros b [id mdia] Hbo [Hid Hm]. unfold trak_box. destruct (is_typ "tkhd" b).
    { rbind (by apply body_returns). intros body Hbody.
      rbind (apply catch_returns, versioned32_returns; by eapply within_bytes).
      by intros [[v|]|e] Hv. }
    destruct (is_typ "mdia" b); [|done]. rbind (by apply body_returns). by intros body Hbody.
  - intros [id [mdia|]] [Hid Hm]; [|done]. cbn in Hm.
    rbind (apply parseMdia_returns; by eapply within_bytes). intros [[handler ts] stsd] [Hts Hsd].
    destruct (negb _); [done|]. destruct id as [id|]; [|done].
    eapply returns_bind.
    { apply parseSTSD_returns. destruct stsd; [|done]. eapply within_bytes; [by eapply within_trans|done]. }
    intros asc Ha. destruct stsd as [stsd|]; [|done]. cbn. destruct Ha as [Ha Hn].
    split; try done; [|by vm_compute..]. split; [|done]. eapply within_trans; [done|]. by eapply within_trans.
Qed.

Definition trex_ok (m : gmap Z (Z * Z)) : Prop := map_Forall (λ _ d, is_u32 d.1 ∧ is_u32 d.2) m.

Lemma parseTrex_returns moov : bytes_ok moov → returns (parseTrex moov) trex_ok.
Proof.
  intros Hb. unfold parseTrex. rbind (apply firstChild_returns).
  intros [mvex|] Hm; [|apply map_Forall_empty]. cbn in Hm.
  apply (eachBox_rule mvex trex_ok); [|apply map_Forall_empty|done].
  intros b out Hbo Hout. unfold trex_box. destruct (negb _); [done|].
  rbind (by apply body_returns). intros body Hbody.
  assert (bytes_ok body) by (eapply within_bytes; [by eapply within_trans|done]).
  destruct (Z.ltb_spec (blen body) 20); [done|].
  rbind (apply be_at_returns; [done|lia..]). intros id _.
  rbind (apply be_at_returns; [done|lia..]). intros dur Hdur.
  rbind (apply be_at_returns; [done|lia..]). intros size Hsize.
  apply map_Forall_insert_2; [|done]. by split.
Qed.

(** The initialization segment, on untrusted bytes. *)
Lemma ParseInit_returns data : bytes_ok data →
  returns (ParseInit data) (λ ai, init_ok data ai ∧ 0 < Timescale ai ≤ MaxInt32).
Proof.
  intros Hb. unfold ParseInit. rbind (apply firstChild_returns).
  intros [moov|] Hm; [|done]. cbn in Hm. assert (Hbm : bytes_ok moov) by (by eapply within_bytes).
  rbind (by apply parseTrex_returns). intros trex Htrex.
  apply (eachBox_rule moov (λ '(found, _), match found with Some ai => init_ok moov ai | None => True end)); [|done|].
  - intros b [found e] Hbo Hf. unfold moov_box. destruct (negb _); [done|].
    rbind (by apply body_returns). intros body Hbody.
    rbind (apply catch_returns, parseTrak_returns; by eapply within_bytes).
    intros [[ai|]|e'] Hai; [|done..]. by eapply init_ok_within.
  - intros [[ai|] [e|]] Hai; try done. destruct (_ || _) eqn:Hts; [done|].
    apply orb_false_iff in Hts as [H0 H1]. apply Z.eqb_neq in H0. apply Z.ltb_ge in H1.
    pose proof (init_ok_within _ _ _ Hai Hm) as Hai'. destruct Hai' as [Ha Hts Hid Hsz Hdu].
    assert (0 < Timescale ai ≤ MaxInt32) by (unfold is_u32 in Hts; lia).
    destruct (trex !! TrackID ai) as [[dur size]|] eqn:Ht; [|done].
    destruct (map_Forall_lookup_1 _ _ _ _ Htrex Ht) as [? ?]. by split.
Qed.

Lemma box_flags_returns {E} b : bytes_ok b → 4 ≤ blen b → returns (@box_flags E b) (λ _, True).
Proof.
  intros Hb Hl. unfold box_flags. do 3 (rbind (apply byte_at_returns; [done|lia]); intros ? _). done.
Qed.

Lemma tfhdTrackID_returns tfhd : bytes_ok tfhd → returns (tfhdTrackID tfhd) (λ _, True).
Proof.
  intros Hb. unfold tfhdTrackID. destruct (Z.ltb_spec (blen tfhd) 8); [done|].
  rbind (apply be_at_returns; [done|lia..]). by intros v _.
Qed.

Lemma findAudioTraf_returns moof id : bytes_ok moof → returns (findAudioTraf moof id) (opt_within moof).
Proof.
  intros Hb. unfold findAudioTraf.
  apply (eachBox_rule moof (λ '(traf, _), opt_within moof traf)); [|done|].
  - intros b [traf e] Hbo Ht. unfold traf_box. destruct (negb _); [done|].
    rbind (by apply body_returns). intros body Hbody.
    rbind (apply catch_returns, firstChild_returns). intros [[tfhd|]|e'] Hc; [|done..]. cbn in Hc.
    rbind (apply catch_returns, tfhdTrackID_returns; eapply within_bytes; [by eapply within_trans|done]).
    intros [[v|]|e'] _; [|done..]. by destruct (v =? id).
  - intros [traf [e|]] Ht; [done|]. exact Ht.
Qed.

Lemma opt_field_returns flags bit n b off : bytes_ok b → 0 ≤ off ≤ blen b → 0 ≤ n →
  returns (opt_field flags bit n b off) (λ '(o, off'), off ≤ off' ≤ blen b ∧
    match o with Some v => 0 ≤ v < 256 ^ n | None => True end).
Proof.
  intros Hb Ho Hn. unfold opt_field. destruct (has flags bit); [|cbn; lia].
  destruct (Z.ltb_spec (blen b) (off + n)); [done|].
  rbind (apply be_at_returns; [done|lia..]). intros v Hv. cbn. split; [lia|done].
Qed.

Lemma parseTFHD_returns tfhd moofStart : bytes_ok tfhd → 0 ≤ moofStart →
  returns (parseTFHD tfhd moofStart) (λ '(base, dur, size, _), 0 ≤ base ∧ is_u32 dur ∧ is_u32 size).
Proof.
  intros Hb Hm. unfold parseTFHD. destruct (Z.ltb_spec (blen tfhd) 8); [done|].
  rbind (apply box_flags_returns; [done|lia]). intros flags _.
  rbind (apply opt_field_returns; [done|lia..]). intros [base off] [Ho Hbase].
  eapply (returns_bind _ _ (λ o, match o with Some v => 0 ≤ v | None => True end)).
  { destruct base as [v|]; [|done]. destruct (MaxInt32 <? v); [done|]. cbn. lia. }
  intros base' Hbase'. rbind (apply opt_field_returns; [done|lia..]). intros [o1 off1] [Ho1 _].
  rbind (apply opt_field_returns; [done|lia..]). intros [o2 off2] [Ho2 H2].
  rbind (apply opt_field_returns; [done|lia..]). intros [o3 off3] [Ho3 H3]. cbn.
  split_and!; [by destruct base'|destruct o2; [exact H2|by vm_compute]|destruct o3; [exact H3|by vm_compute]].
Qed.

(** ** The fragment, on untrusted bytes *)
Definition sample_ok (frag : list Z) (x : Sample) : Prop :=
  within (Data x) frag ∧ Data x ≠ [] ∧ is_u32 (Dur x).

Section fragment_rule.
(** [live] holds of the caller's state and the budget while samples are delivered,
    [ended] once the fragment is done; [guarded] keeps them. *)
Context {W E : Type} (onSample : W → Sample → W * option E) (frag : list Z).
Context (live : W * Z → Prop) (ended : W * Z → option (@ferr E) → Prop).
Hypothesis Hlive : ∀ s e, live s → match e with Some (Caller _) => False | _ => True end → ended s e.

Definition delivers {A} (m : @io W E A) (P : A → Prop) : Prop := ∀ s, live s →
  returns (m s) (λ '(s', r), match r with inl a => live s' ∧ P a | inr e => ended s' (Some e) end).

Lemma delivers_ret {A} (a : A) P : P a → delivers (io_ret a) P.
Proof. intros Ha s Hs. by split. Qed.
Lemma delivers_fail {A} e (P : A → Prop) : delivers (io_fail e) P.
Proof. intros s Hs. by apply Hlive. Qed.
Lemma delivers_bind {A B} (m : @io W E A) (f : A → io B) P Q :
  delivers m P → (∀ a, P a → delivers (f a) Q) → delivers (io_bind m f) Q.
Proof.
  intros Hm Hf s Hs. unfold io_bind. rbind (by apply Hm). intros [s' [a|e]] H; [|done].
  destruct H. by apply Hf.
Qed.
Lemma delivers_pure {A} (m : res err A) P : returns m P → delivers (pure m) P.
Proof. intros Hm s Hs. destruct m as [a|e|]; cbn in *; [done| |done]. by apply Hlive. Qed.

Hypothesis Hguarded : ∀ x, sample_ok frag x → delivers (guarded onSample x) (λ _, True).

Lemma rec_field_returns flags bit trun off dflt : bytes_ok trun → 0 ≤ off → is_u32 dflt →
  skip_field flags bit off ≤ blen trun →
  returns (rec_field flags bit trun off dflt) (λ '(v, off'), is_u32 v ∧ off' = skip_field flags bit off).
Proof.
  intros Hb Ho Hd Hl. unfold rec_field, skip_field in *. destruct (has flags bit); [|done].
  rbind (apply be_at_returns; [done|lia..]). intros v Hv. by split.
Qed.

Lemma skip_field_add flags bit off k : skip_field flags bit (off + k) = skip_field flags bit off + k.
Proof. unfold skip_field. destruct (has flags bit); lia. Qed.
Lemma recordSize_at flags off :
  skip_field flags trunSampleCTO (skip_field flags trunSampleFlags
    (skip_field flags trunSampleSize (skip_field flags trunSampleDuration off))) = off + recordSize flags.
Proof.
  unfold recordSize. rewrite <- (Z.add_0_l off) at 1. rewrite !skip_field_add. lia.
Qed.
Lemma skip_field_ge flags bit off : off ≤ skip_field flags bit off.
Proof. unfold skip_field. destruct (has flags bit); lia. Qed.

Lemma samples_loop_delivers n flags defDur defSize trun : bytes_ok trun → is_u32 defDur → is_u32 defSize →
  ∀ off dataPtr, 0 ≤ off → off + Z.of_nat n * recordSize flags ≤ blen trun →
  delivers (samples_loop onSample n flags defDur defSize trun frag off dataPtr) (λ _, True).
Proof.
  intros Hb Hd Hs. induction n as [|n IH]; intros off dataPtr Ho Hl; cbn [samples_loop].
  { by apply delivers_ret. }
  pose proof (recordSize_at flags off) as Hr.
  pose proof (skip_field_ge flags trunSampleDuration off) as H1.
  set (off1 := skip_field flags trunSampleDuration off) in *.
  pose proof (skip_field_ge flags trunSampleSize off1) as H2. set (off2 := skip_field flags trunSampleSize off1) in *.
  pose proof (skip_field_ge flags trunSampleFlags off2) as H3. set (off3 := skip_field flags trunSampleFlags off2) in *.
  pose proof (skip_field_ge flags trunSampleCTO off3) as H4.
  assert (0 ≤ recordSize flags) by lia.
  eapply delivers_bind; [apply delivers_pure, rec_field_returns; [done..|fold off1; nia]|].
  intros [dur o1] [Hdur ->]. fold off1.
  eapply delivers_bind; [apply delivers_pure, rec_field_returns; [done|lia|done|fold off2; nia]|].
  intros [size o2] [Hsize ->]. fold off2 off3. cbv zeta.
  destruct (Z.eqb_spec size 0); cbn [orb]; [by apply delivers_ret|].
  destruct (Z.ltb_spec dataPtr 0); [by apply delivers_ret|].
  destruct (_ || _) eqn:Hc; [by apply delivers_ret|]. apply orb_false_iff in Hc as [_ Hc]. apply Z.ltb_ge in Hc.
  unfold is_u32 in Hsize.
  eapply delivers_bind; [apply delivers_pure, slice_returns; lia|]. intros data [Hw Hlen].
  eapply delivers_bind.
  { apply Hguarded. split_and!; [done| |done]. cbn. intros ->. unfold blen in Hlen. cbn in Hlen. lia. }
  intros _ _. rewrite Hr. apply IH; nia.
Qed.

Lemma trun_header_returns trun base running located :
  bytes_ok trun → returns (trun_header trun base running located (blen frag))
    (λ '(flags, count, off, _), 0 ≤ off ∧ 0 ≤ count ∧ off + count * recordSize flags ≤ blen trun).
Proof.
  intros Hb. unfold trun_header. destruct (Z.ltb_spec (blen trun) 8); [done|].
  rbind (apply box_flags_returns; [done|lia]). intros flags _.
  rbind (apply be_at_returns; [done|lia..]). intros count Hcount.
  eapply (returns_bind _ _ (λ '(_, off), 8 ≤ off ≤ blen trun)).
  { destruct (has flags trunDataOffset).
    - destruct (Z.ltb_spec (blen trun) (8 + 4)); [done|].
      rbind (apply be_at_returns; [done|lia..]). intros v _. cbn. lia.
    - destruct (negb located); [done|]. cbn. lia. }
  intros [dataPtr off] Hoff.
  eapply (returns_bind _ _ (λ off, 8 ≤ off ≤ blen trun)).
  { destruct (has flags trunFirstSampleFlags); [|cbn; lia].
    destruct (Z.ltb_spec (blen trun) (off + 4)); [done|]. cbn. lia. }
  intros off' Hoff'. cbv zeta.
  assert (0 ≤ recordSize flags).
  { unfold recordSize. repeat (etransitivity; [|apply skip_field_ge]). done. }
  destruct (Z.ltb_spec 0 (recordSize flags)) as [Hp|Hp].
  - destruct (Z.ltb_spec ((blen trun - off') / recordSize flags) count) as [|Hc]; [done|]. cbn.
    pose proof (Z.mul_div_le (blen trun - off') (recordSize flags) Hp). split_and!; nia.
  - destruct (Z.ltb_spec (blen frag) count); [done|]. cbn. split_and!; [lia..|nia].
Qed.

Lemma parseTrun_delivers trun base running located defDur defSize :
  bytes_ok trun → is_u32 defDur → is_u32 defSize →
  delivers (parseTrun onSample trun base running located defDur defSize frag) (λ _, True).
Proof.
  intros Hb Hd Hs. unfold parseTrun.
  eapply delivers_bind; [by apply delivers_pure, trun_header_returns|].
  intros [[[flags count] off] dataPtr] (Ho & Hc & Hl).
  eapply delivers_bind; [apply samples_loop_delivers; try done; by rewrite Z2Nat.id|].
  intros [next short] _. by apply delivers_ret.
Qed.

Lemma parseTraf_delivers traf moofStart init :
  bytes_ok traf → 0 ≤ moofStart → is_u32 (DefaultDur init) → is_u32 (DefaultSize init) →
  delivers (parseTraf onSample traf moofStart frag init) (λ _, True).
Proof.
  intros Hb Hm Hdd Hds. unfold parseTraf.
  eapply delivers_bind; [apply delivers_pure, firstChild_returns|]. intros [tfhd|] Ht; [|apply delivers_fail].
  cbn in Ht. eapply delivers_bind; [apply delivers_pure, parseTFHD_returns; [by eapply within_bytes|done]|].
  intros [[[base dur] size] explicit] (Hbase & Hdur & Hsize). cbv zeta.
  set (dur' := if dur =? 0 then _ else dur). set (size' := if size =? 0 then _ else size).
  assert (is_u32 dur') by (unfold dur'; by destruct (dur =? 0)).
  assert (is_u32 size') by (unfold size'; by destruct (size =? 0)). clearbody dur' size'.
  intros w Hw.
  eapply (returns_bind _ _ (λ '((w, t), e), match e with
    | Some e => ended w (Some e)
    | None => match tf_err t with Some e => ended w (Some e) | None => live w end end)).
  { eapply returns_weaken; [apply (eachBoxE_rule _ _ (λ '(w, t), live w ∧ tf_err t = None)
      (λ '(w, t), match tf_err t with Some e => ended w (Some e) | None => live w end)
      (λ '(w, _) e, ended w (Some e))); [| | |done]|by intros [[w0 t] [e|]]].
    - intros b [w0 t] Hbo [Hw0 Ht0]. unfold trun_box. destruct (negb _); [done|].
      rbind (by apply body_returns). intros body Hbody.
      rbind (apply parseTrun_delivers; [by eapply within_bytes|done..]).
      intros [w1 [[[next had] short]|e]] Hr; [|done]. destruct Hr as [Hw1 _].
      destruct short; cbn; [by rewrite Ht0|done].
    - intros [w0 t] [Hw0 Ht0]. by rewrite Ht0.
    - intros [w0 t] [Hw0 Ht0]. by apply Hlive. }
  intros [[w1 t] [e|]] H1; [done|]. destruct (tf_err t); [done|].
  destruct (tf_short t); [by apply Hlive|done].
Qed.

Lemma moof_returns : returns (try (eachBox frag (moof_box frag) None) (λ moof, mret moof))
  (λ o, match o with Some (p, moof) => 0 ≤ p ∧ within moof frag | None => True end).
Proof.
  apply (eachBox_rule frag (λ o, match o with Some (p, moof) => 0 ≤ p ∧ within moof frag | None => True end));
    [|done|done].
  intros b s Hbo Hs. unfold moof_box. destruct (is_typ "moof" b); [|done].
  rbind (by apply body_returns). intros body Hbody. split; [apply Hbo|done].
Qed.

Lemma ParseFragment_rule init w : bytes_ok frag → is_u32 (DefaultDur init) → is_u32 (DefaultSize init) →
  live (w, blen frag) →
  ∃ w' e, ParseFragment onSample init frag w = Ok (w', e) ∧ ∃ k, ended (w', k) e.
Proof.
  intros Hb Hdd Hds Hstart.
  enough (H : returns (ParseFragment onSample init frag w) (λ '(out, e), ∃ k, ended (out, k) e)).
  { destruct (returns_total _ _ H) as ([out e] & E' & He). by exists out, e. }
  unfold ParseFragment.
  eapply (returns_bind _ _ (λ '(s, r), match r with inl _ => live s | inr e => ended s (Some e) end)).
  { eapply returns_weaken; [eapply (delivers_bind _ _ _ (λ _, True)); [apply delivers_pure, moof_returns| |exact Hstart]|].
    - intros [[p moof]|] Hmoof; [|apply delivers_fail]. destruct Hmoof as [Hp Hmoof].
      eapply delivers_bind; [apply delivers_pure, findAudioTraf_returns; by eapply within_bytes|].
      intros [traf|] Ht; [|apply delivers_fail].
      apply parseTraf_delivers; try done. eapply within_bytes; [by eapply within_trans|done].
    - intros [s [a|e]]; [by intros [? _]|done]. }
  intros [[out k] [[]|e]] H; exists k; [by apply Hlive|done].
Qed.
End fragment_rule.

Section fragment_ok.
(** Any caller: what it answers is a function of what it was given. *)
Context {E : Type} (stop : list Sample → option E) (frag : list Z).

Definition collect (out : list Sample) (x : Sample) : list Sample * option E :=
  (out ++ [x], stop (out ++ [x])).

(** Nothing has stopped the delivery yet. *)
Definition live (s : list Sample * Z) : Prop :=
  Forall (sample_ok frag) s.1 ∧ 0 ≤ s.2 ∧ blen s.1 + s.2 = blen frag
  ∧ ∀ n, (0 < n ≤ length s.1)%nat → stop (take n s.1) = None.
(** How a delivery ends. *)
Definition ended (s : list Sample * Z) (e : option (@ferr E)) : Prop :=
  Forall (sample_ok frag) s.1 ∧ blen s.1 ≤ blen frag
  ∧ (∀ n, (0 < n < length s.1)%nat → stop (take n s.1) = None)
  ∧ match e with Some (Caller c) => stop s.1 = Some c | _ => s.1 = [] ∨ stop s.1 = None end.

Lemma live_ended s e : live s → match e with Some (Caller _) => False | _ => True end → ended s e.
Proof.
  destruct s as [out budget]. intros (Hok & Hb & Hl & Hst) He. split_and!; cbn in *; [done|lia| |].
  - intros n Hn. apply Hst. lia.
  - assert (out = [] ∨ stop out = None); [|by destruct e as [[e|c]|]].
    destruct out as [|x out]; [by left|right]. rewrite <- (firstn_all (x :: out)). apply Hst. cbn. lia.
Qed.

Lemma delivers_guarded x : sample_ok frag x → delivers live ended (guarded collect x) (λ _, True).
Proof.
  intros Hx [out budget] Hs. unfold guarded. destruct (Z.leb_spec budget 0).
  { by apply (live_ended (out, budget)). }
  destruct Hs as (Hok & Hb & Hl & Hst). cbn [fst snd] in *. unfold collect.
  assert (Hok' : Forall (sample_ok frag) (out ++ [x])).
  { apply Forall_app_2; [done|]. by apply Forall_cons_2. }
  assert (Hpre : ∀ n, (0 < n < length (out ++ [x]))%nat → stop (take n (out ++ [x])) = None).
  { intros n Hn. rewrite length_app in Hn. cbn in Hn. rewrite take_app_le by lia. apply Hst. lia. }
  assert (Hlen : blen (out ++ [x]) = blen out + 1) by blia.
  destruct (stop (out ++ [x])) as [c|] eqn:Hc; cbn [returns].
  - split_and!; cbn [fst snd]; [done|lia|done|done].
  - split; [|done]. split_and!; cbn [fst snd]; [done|lia|lia|].
    intros n Hn. destruct (decide (n = length (out ++ [x]))) as [->|]; [by rewrite firstn_all|].
    apply Hpre. lia.
Qed.

(** Whatever the fragment holds: the samples delivered are non-empty pieces of it, no
    more than it has octets, and the caller's error stops the delivery at once. *)
Lemma ParseFragment_delivers init : bytes_ok frag → is_u32 (DefaultDur init) → is_u32 (DefaultSize init) →
  ∃ out e, ParseFragment collect init frag [] = Ok (out, e) ∧ ∃ k, ended (out, k) e.
Proof.
  intros Hb Hdd Hds.
  apply (ParseFragment_rule collect frag live ended live_ended delivers_guarded init [] Hb Hdd Hds).
  split_and!; cbn [fst snd]; [done|apply blen_nonneg|by rewrite blen_nil|]. cbn. intros n Hn. lia.
Qed.
End fragment_ok.

(** ** Well-formed files *)

(** A box, with a 32-bit or a 64-bit size. *)
Record box := mkBox { b_large : bool; b_typ : list Z; b_body : list Z }.
Definition enc (b : box) : list Z :=
  if b_large b then be_split 4 1 ++ b_typ b ++ be_split 8 (16 + blen (b_body b)) ++ b_body b
  else be_split 4 (8 + blen (b_body b)) ++ b_typ b ++ b_body b.
Definition encs (bs : list box) : list Z := concat (enc <$> bs).
Definition box_ok (b : box) : Prop := blen (b_typ b) = 4 ∧ blen (b_body b) < 2 ^ 31.

Definition head_len (b : box) : Z := if b_large b then 16 else 8.
Definition span_at (off : Z) (b : box) : boxSpan :=
  mkSpan (b_typ b) off (off + head_len b) (off + head_len b + blen (b_body b)).

Lemma blen_enc b : blen (b_typ b) = 4 → blen (enc b) = head_len b + blen (b_body b).
Proof. intros Ht. unfold enc, head_len. destruct (b_large b); rewrite !blen_app, !blen_be_split; lia. Qed.

Lemma box_header_enc {E} (malformed : E) pre b post : box_ok b →
  box_header malformed (pre ++ enc b ++ post) (blen pre) =
  Ok (b_typ b, head_len b, head_len b + blen (b_body b)).
Proof.
  intros [Ht Hb]. pose proof (blen_nonneg (b_body b)). pose proof (blen_nonneg post).
  pose proof (blen_enc b Ht) as Hl. unfold box_header, enc, head_len in *. destruct (b_large b).
  - rewrite <- !app_assoc. rewrite (be_at_mid 4 1 pre) by done. rewrite bind_Ok.
    rewrite (app_assoc pre (be_split 4 1)), slice_mid by (autorewrite with blen; rewrite ?blen_be_split; lia).
    rewrite bind_Ok. cbn [Z.eqb Pos.eqb].
    set (n := 16 + blen (b_body b)) in *.
    destruct (Z.ltb_spec (blen ((pre ++ be_split 4 1) ++ b_typ b ++ be_split 8 n ++ b_body b ++ post)) (blen pre + 16)).
    { autorewrite with blen in *. rewrite ?blen_be_split in *. lia. }
    rewrite (app_assoc (pre ++ be_split 4 1)).
    rewrite (be_at_mid 8 n) by (rewrite ?blen_app, ?blen_be_split; unfold n; lia). rewrite bind_Ok.
    destruct (_ || _) eqn:Hc; [|done]. exfalso. apply orb_true_iff in Hc as [Hc|Hc]; apply Z.ltb_lt in Hc;
      autorewrite with blen in *; rewrite ?blen_be_split in *; lia.
  - rewrite <- !app_assoc. set (n := 8 + blen (b_body b)) in *.
    rewrite (be_at_mid 4 n pre) by (unfold n; lia). rewrite bind_Ok.
    rewrite (app_assoc pre (be_split 4 n)), slice_mid by (autorewrite with blen; rewrite ?blen_be_split; lia).
    rewrite bind_Ok. destruct (Z.eqb_spec n 0); [unfold n in *; lia|]. destruct (Z.eqb_spec n 1); [unfold n in *; lia|].
    destruct (_ || _) eqn:Hc; [|done]. exfalso. apply orb_true_iff in Hc as [Hc|Hc]; apply Z.ltb_lt in Hc;
      autorewrite with blen in *; rewrite ?blen_be_split in *; unfold n in *; lia.
Qed.

Lemma body_enc {E} pre b post : blen (b_typ b) = 4 →
  @body_of E (pre ++ enc b ++ post) (span_at (blen pre) b) = Ok (b_body b).
Proof.
  intros Ht. unfold body_of, span_at, head_len, enc. cbn [bodyOff bodyEnd]. destruct (b_large b).
  - rewrite <- !app_assoc, (app_assoc (be_split 4 1)), (app_assoc (be_split 4 1 ++ b_typ b)), (app_assoc pre).
    apply slice_mid; rewrite ?blen_app, ?blen_be_split; lia.
  - rewrite <- !app_assoc, (app_assoc (be_split 4 _)), (app_assoc pre).
    apply slice_mid; rewrite ?blen_app, ?blen_be_split; lia.
Qed.

(** The walk, on the boxes themselves. *)
Section visit.
Context {E S : Type}.
Fixpoint visit (g : Z → box → S → res no_err (S * signal E)) (off : Z) (bs : list box) (s : S)
    : res no_err (S * option E) :=
  match bs with
  | [] => mret (s, None)
  | b :: bs =>
      '(s, v) ← g off b s;
      match v with
      | Continue => visit g (off + blen (enc b)) bs s
      | Stop => mret (s, None)
      | Fail e => mret (s, Some e)
      end
  end.

Lemma each_from_boxes (malformed : E) fn g data bs : ∀ fuel pre s,
  Forall box_ok bs → (length bs < fuel)%nat → data = pre ++ encs bs →
  (∀ pre b post s, data = pre ++ enc b ++ post → blen (b_typ b) = 4 →
    fn (span_at (blen pre) b) s = g (blen pre) b s) →
  each_from malformed fuel data (blen pre) fn s = visit g (blen pre) bs s.
Proof.
  induction bs as [|b bs IH]; intros [|fuel] pre s Hok Hf Hd Hg; try (cbn in Hf; lia); cbn [each_from visit].
  - assert (blen data = blen pre) as -> by (rewrite Hd; unfold encs; cbn; by rewrite app_nil_r).
    by destruct (Z.ltb_spec (blen pre) (blen pre + 8)); [|lia].
  - apply Forall_cons_iff in Hok as [Hb Hok]. unfold encs in Hd. cbn [fmap list_fmap concat] in Hd.
    fold (encs bs) in Hd. pose proof (blen_enc b (proj1 Hb)) as Hl.
    assert (8 ≤ head_len b) by (unfold head_len; destruct (b_large b); lia).
    pose proof (blen_nonneg (b_body b)). pose proof (blen_nonneg (encs bs)).
    destruct (Z.ltb_spec (blen data) (blen pre + 8)); [rewrite Hd in *; autorewrite with blen in *; lia|].
    rewrite Hd at 1. rewrite box_header_enc by done.
    change (mkSpan _ _ _ _) with (mkSpan (b_typ b) (blen pre) (blen pre + head_len b)
      (blen pre + (head_len b + blen (b_body b)))). rewrite Z.add_assoc.
    rewrite (Hg pre b (encs bs) s Hd (proj1 Hb) : fn (mkSpan _ _ _ _) s = _).
    destruct (g (blen pre) b s) as [[s' v]|e|]; [|done..]. rewrite !bind_Ok. destruct v; [|done..].
    rewrite Hl, Z.add_assoc.
    replace (blen pre + head_len b + blen (b_body b)) with (blen (pre ++ enc b)) by blia.
    apply IH; [done|cbn in Hf; lia| |done]. by rewrite Hd, <- app_assoc.
Qed.

Lemma length_encs bs : Forall box_ok bs → (length bs ≤ length (encs bs))%nat.
Proof.
  induction 1 as [|b bs Hb Hok IH]; [done|]. unfold encs in *. cbn [fmap list_fmap concat length].
  rewrite length_app. pose proof (blen_enc b (proj1 Hb)) as Hl. unfold head_len, blen in Hl.
  destruct (b_large b); lia.
Qed.

Lemma eachBoxE_boxes (malformed : E) fn g bs s :
  Forall box_ok bs →
  (∀ pre b post s, encs bs = pre ++ enc b ++ post → blen (b_typ b) = 4 →
    fn (span_at (blen pre) b) s = g (blen pre) b s) →
  eachBoxE malformed (encs bs) fn s = visit g 0 bs s.
Proof.
  intros Hok Hg. apply (each_from_boxes malformed fn g (encs bs) bs _ [] s Hok); [|done|done].
  pose proof (length_encs bs Hok). lia.
Qed.
End visit.

Definition typ_is (t : string) (b : box) : bool := bool_decide (b_typ b = str t).

Lemma is_typ_at t off b : is_typ t (span_at off b) = typ_is t b.
Proof. done. Qed.

(** The payload of the first box of a type. *)
Fixpoint find_box (t : string) (bs : list box) : option (list Z) :=
  match bs with [] => None | b :: bs => if typ_is t b then Some (b_body b) else find_box t bs end.

Lemma firstChild_boxes t bs : Forall box_ok bs → firstChild (encs bs) t = Ok (find_box t bs).
Proof.
  intros Hok. unfold firstChild, eachBox.
  rewrite (eachBoxE_boxes _ _ (λ _ b found, if typ_is t b then mret (Some (b_body b), Stop)
    else mret (found, Continue))); [|done|].
  - assert (H : ∀ off, visit (λ _ b found, if typ_is t b then mret (Some (b_body b), Stop)
      else mret (found, Continue)) off bs None = @Ok no_err _ (find_box t bs, @None err)); [|by rewrite H].
    clear Hok. induction bs as [|b bs IH]; intros off; [done|]. cbn [visit find_box].
    destruct (typ_is t b); [done|]. rewrite bind_ret. apply IH.
  - intros pre b post s -> Ht. rewrite is_typ_at. destruct (typ_is t b); [|done].
    by rewrite body_enc.
Qed.

(** ** Descriptors *)

(** An expandable length on [k] octets. *)
Fixpoint size_enc (k : nat) (n : Z) : list Z :=
  match k with
  | O => []
  | S O => [n mod 128]
  | S k => 128 + n / 128 ^ Z.of_nat k :: size_enc k (n mod 128 ^ Z.of_nat k)
  end.
Definition desc_enc (tag : Z) (k : nat) (content : list Z) : list Z :=
  tag :: size_enc k (blen content) ++ content.

Lemma cont_bits d : 0 ≤ d < 128 → Z.land (128 + d) 0x7F = d ∧ Z.land (128 + d) 0x80 = 128 ∧ Z.land d 0x80 = 0
  ∧ Z.land d 0x7F = d.
Proof.
  intros Hd. pose proof (range_forall 128 (λ d, (Z.land (128 + d) 0x7F =? d) && (Z.land (128 + d) 0x80 =? 128)
    && (Z.land d 0x80 =? 0) && (Z.land d 0x7F =? d)) eq_refl d Hd) as H. cbv beta in H.
  apply andb_true_iff in H as [H H4]. apply andb_true_iff in H as [H H3]. apply andb_true_iff in H as [H1 H2].
  apply Z.eqb_eq in H1, H2, H3, H4. done.
Qed.

Lemma blen_size_enc k n : blen (size_enc k n) = Z.of_nat k.
Proof.
  revert n. induction k as [|k IH]; intros n; [done|]. destruct k as [|k]; [done|].
  change (size_enc (S (S k)) n) with (128 + n / 128 ^ Z.of_nat (S k) :: size_enc (S k) (n mod 128 ^ Z.of_nat (S k))).
  rewrite blen_cons, IH. lia.
Qed.

Lemma read_size_enc k : (0 < k)%nat → ∀ fuel pre n acc post,
  (k ≤ fuel)%nat → 0 ≤ n < 128 ^ Z.of_nat k → 0 ≤ acc →
  read_size fuel (pre ++ size_enc k n ++ post) (blen pre) acc =
  Ok (blen pre + Z.of_nat k, acc * 128 ^ Z.of_nat k + n).
Proof.
  induction k as [|k IH]; [lia|]. intros _ [|fuel] pre n acc post Hf Hn Hacc; [lia|]. cbn [read_size].
  assert (Hlor : ∀ d, 0 ≤ d < 128 → Z.lor (Z.shiftl acc 7) d = acc * 128 + d)
    by (intros d Hd; by rewrite lor_shiftl_add by lia).
  pose proof (blen_size_enc (S k) n) as Hsz.
  destruct (Z.leb_spec (blen (pre ++ size_enc (S k) n ++ post)) (blen pre)).
  { rewrite !blen_app, Hsz in *. pose proof (blen_nonneg post). lia. }
  destruct k as [|k].
  - change (128 ^ Z.of_nat 1) with 128 in *. cbn [size_enc app]. rewrite Z.mod_small by lia.
    rewrite byte_at_mid, bind_Ok by done. destruct (cont_bits n ltac:(lia)) as (_ & _ & H80 & H7F).
    rewrite H80, H7F, Hlor by lia. done.
  - set (m := Z.of_nat (S k)) in *.
    change (size_enc (S (S k)) n) with (128 + n / 128 ^ m :: size_enc (S k) (n mod 128 ^ m)).
    assert (Hpow : 128 ^ Z.of_nat (S (S k)) = 128 * 128 ^ m).
    { unfold m. rewrite <- Z.pow_succ_r by lia. f_equal. lia. }
    assert (0 < 128 ^ m) by (apply Z.pow_pos_nonneg; lia). rewrite Hpow in *.
    assert (Hd : 0 ≤ n / 128 ^ m < 128).
    { split; [apply Z.div_pos; lia|]. apply Z.div_lt_upper_bound; lia. }
    assert (Hr : 0 ≤ n mod 128 ^ m < 128 ^ m) by (apply Z.mod_pos_bound; lia).
    cbn [app]. rewrite (byte_at_mid pre), bind_Ok by done. destruct (cont_bits _ Hd) as (H7F & H80 & _ & _).
    rewrite H80, H7F, Hlor by done. cbn [Z.eqb]. cbv zeta.
    replace (pre ++ 128 + n / 128 ^ m :: size_enc (S k) (n mod 128 ^ m) ++ post)
      with ((pre ++ [128 + n / 128 ^ m]) ++ size_enc (S k) (n mod 128 ^ m) ++ post) by (by rewrite <- app_assoc).
    replace (blen pre + 1) with (blen (pre ++ [128 + n / 128 ^ m])) by blia.
    rewrite IH by lia. rewrite blen_app, blen_cons, blen_nil.
    pose proof (Z.div_mod n (128 ^ m) ltac:(lia)). f_equal. f_equal; [unfold m; lia|]. fold m. lia.
Qed.

Lemma descriptor_enc want k content rest : (1 ≤ k ≤ 4)%nat → blen content < 128 ^ Z.of_nat k →
  descriptor want (desc_enc want k content ++ rest) = Ok content.
Proof.
  intros Hk Hl. pose proof (blen_nonneg content). pose proof (blen_nonneg rest).
  pose proof (blen_size_enc k (blen content)) as Hsz. unfold descriptor, readDescriptor, desc_enc.
  set (b := (want :: size_enc k (blen content) ++ content) ++ rest).
  assert (Hb : blen b = 1 + Z.of_nat k + blen content + blen rest)
    by (unfold b; rewrite blen_app, blen_cons, blen_app, Hsz; lia).
  destruct (Z.ltb_spec (blen b) 2); [lia|].
  change (byte_at b 0) with (@Ok err _ want). rewrite bind_Ok.
  assert (Hrd : read_size 4 b 1 0 = Ok (1 + Z.of_nat k, blen content)).
  { unfold b. replace ((want :: size_enc k (blen content) ++ content) ++ rest)
      with ([want] ++ size_enc k (blen content) ++ content ++ rest) by (cbn; by rewrite <- app_assoc).
    change 1 with (blen [want]) at 1. rewrite read_size_enc by lia. by rewrite Z.mul_0_l. }
  rewrite Hrd, bind_Ok. destruct (Z.ltb_spec (blen content) 0); [lia|].
  destruct (Z.ltb_spec (blen b) (1 + Z.of_nat k + blen content)); [lia|]. cbn [orb].
  assert (Hs : slice b (1 + Z.of_nat k) (1 + Z.of_nat k + blen content) = @Ok err _ content).
  { unfold b. change (want :: size_enc k (blen content) ++ content)
      with ((want :: size_enc k (blen content)) ++ content). rewrite <- app_assoc.
    apply slice_mid; rewrite ?blen_cons, ?Hsz; lia. }
  rewrite Hs, bind_Ok, slice_from_ok, bind_Ok by lia.
  cbv [mret res_ret]. cbv iota beta. by rewrite Z.eqb_refl.
Qed.

(** An ES descriptor: its optional fields, then the decoder configuration of an AAC
    stream with its AudioSpecificConfig. *)
Record es_parts := mkEs {
  e_full : list Z; e_id : list Z; e_dep : option (list Z); e_url : option (list Z); e_ocr : option (list Z);
  e_dcd : list Z; e_k : nat * nat * nat; e_rest : list Z * list Z * list Z
}.
Definition es_flags (p : es_parts) : Z :=
  (if e_dep p is Some _ then 0x80 else 0) + (if e_url p is Some _ then 0x40 else 0) + (if e_ocr p is Some _ then 0x20 else 0).
Definition esds_body (p : es_parts) (asc : list Z) : list Z :=
  let '(k1, k2, k3) := e_k p in
  let '(r1, r2, r3) := e_rest p in
  let dcd := [objectTypeAAC] ++ e_dcd p ++ desc_enc tagDecoderSpecific k3 asc ++ r3 in
  let es := e_id p ++ [es_flags p] ++ default [] (e_dep p)
    ++ match e_url p with Some u => blen u :: u | None => [] end
    ++ default [] (e_ocr p) ++ desc_enc tagDecoderConfig k2 dcd ++ r2 in
  e_full p ++ desc_enc tagESDescriptor k1 es ++ r1.
Definition es_parts_ok (p : es_parts) (asc : list Z) : Prop :=
  let '(k1, k2, k3) := e_k p in
  let '(r1, r2, r3) := e_rest p in
  blen (e_full p) = 4 ∧ blen (e_id p) = 2
  ∧ match e_dep p with Some d => blen d = 2 | None => True end
  ∧ match e_ocr p with Some d => blen d = 2 | None => True end
  ∧ blen (e_dcd p) = 12 ∧ (1 ≤ k1 ≤ 4)%nat ∧ (1 ≤ k2 ≤ 4)%nat ∧ (1 ≤ k3 ≤ 4)%nat
  ∧ blen (esds_body p asc) < 128 ∧ asc ≠ [].

Lemma pow128 k : (1 ≤ k)%nat → 128 ≤ 128 ^ Z.of_nat k.
Proof. intros Hk. change 128 with (128 ^ 1) at 1. apply Z.pow_le_mono_r; lia. Qed.

Lemma parseESDS_body p asc : es_parts_ok p asc → parseESDS (esds_body p asc) = Ok asc.
Proof.
  unfold es_parts_ok. destruct (e_k p) as [[k1 k2] k3] eqn:Ek, (e_rest p) as [[r1 r2] r3] eqn:Er.
  intros (Hfull & Hid & Hdep & Hocr & Hdcd & Hk1 & Hk2 & Hk3 & Hlen & Hasc).
  pose proof (pow128 k1 ltac:(lia)). pose proof (pow128 k2 ltac:(lia)). pose proof (pow128 k3 ltac:(lia)).
  unfold esds_body in *. rewrite Ek, Er in *. cbv zeta in *.
  set (dcd := [objectTypeAAC] ++ e_dcd p ++ desc_enc tagDecoderSpecific k3 asc ++ r3) in *.
  set (url := match e_url p with Some u => blen u :: u | None => [] end) in *.
  set (es := e_id p ++ [es_flags p] ++ default [] (e_dep p) ++ url ++ default [] (e_ocr p)
    ++ desc_enc tagDecoderConfig k2 dcd ++ r2) in *.
  assert (Hl3 : blen (desc_enc tagESDescriptor k1 es) = 1 + Z.of_nat k1 + blen es)
    by (unfold desc_enc; rewrite blen_cons, blen_app, blen_size_enc; lia).
  assert (Hl2 : blen (desc_enc tagDecoderConfig k2 dcd) = 1 + Z.of_nat k2 + blen dcd)
    by (unfold desc_enc; rewrite blen_cons, blen_app, blen_size_enc; lia).
  assert (Hl1 : blen (desc_enc tagDecoderSpecific k3 asc) = 1 + Z.of_nat k3 + blen asc)
    by (unfold desc_enc; rewrite blen_cons, blen_app, blen_size_enc; lia).
  pose proof (blen_nonneg r1). pose proof (blen_nonneg r2). pose proof (blen_nonneg r3).
  pose proof (blen_nonneg (default [] (e_dep p))). pose proof (blen_nonneg (default [] (e_ocr p))).
  pose proof (blen_nonneg url). pose proof (blen_nonneg asc).
  assert (Hes : blen es = 3 + blen (default [] (e_dep p)) + blen url + blen (default [] (e_ocr p))
    + (1 + Z.of_nat k2 + blen dcd) + blen r2) by (unfold es; autorewrite with blen; lia).
  assert (Hdl : blen dcd = 13 + (1 + Z.of_nat k3 + blen asc) + blen r3) by (unfold dcd; autorewrite with blen; lia).
  rewrite !blen_app in Hlen. unfold parseESDS.
  destruct (Z.ltb_spec (blen (e_full p ++ desc_enc tagESDescriptor k1 es ++ r1)) 4); [blia|].
  rewrite slice_from_ok, drop_blen_app, bind_Ok by blia. rewrite descriptor_enc, bind_Ok by lia.
  unfold esDescriptorMinFixed. destruct (Z.ltb_spec (blen es) 3); [lia|].
  assert (Hf : byte_at es 2 = @Ok err _ (es_flags p)) by (apply byte_at_mid; lia).
  rewrite Hf, bind_Ok. cbv zeta.
  assert (Hbits : has (es_flags p) 0x80 = (if e_dep p is Some _ then true else false) ∧
    has (es_flags p) 0x40 = (if e_url p is Some _ then true else false) ∧
    has (es_flags p) 0x20 = (if e_ocr p is Some _ then true else false))
    by (unfold es_flags; by destruct (e_dep p), (e_url p), (e_ocr p)).
  destruct Hbits as (-> & -> & ->).
  set (o1 := if (if e_dep p is Some _ then true else false) then 3 + 2 else 3).
  assert (Ho1 : o1 = 3 + blen (default [] (e_dep p))) by (unfold o1; destruct (e_dep p); cbn [default]; rewrite ?blen_nil; cbn in *; lia).
  set (m := if (if e_url p is Some _ then true else false) then _ else _).
  assert (Hm : m = Ok (o1 + blen url)).
  { unfold m, url. clear m. destruct (e_url p) as [u|] eqn:Eu; [|cbn; by rewrite Z.add_0_r].
    rewrite blen_cons in *. fold url. pose proof (blen_nonneg u).
    assert (Hu : blen url = 1 + blen u) by (unfold url; blia).
    destruct (Z.leb_spec (blen es) o1); [lia|].
    assert (Hb : byte_at es o1 = @Ok err _ (blen u)).
    { unfold es, url. rewrite (app_assoc (e_id p)), (app_assoc (e_id p ++ [es_flags p])).
      apply byte_at_mid. blia. }
    by rewrite Hb, bind_Ok. }
  rewrite Hm, bind_Ok. set (o3 := if (if e_ocr p is Some _ then true else false) then _ else _).
  assert (Ho3 : o3 = 3 + blen (default [] (e_dep p)) + blen url + blen (default [] (e_ocr p)))
    by (unfold o3; destruct (e_ocr p); cbn [default]; rewrite ?blen_nil; cbn in *; lia).
  destruct (Z.ltb_spec (blen es) o3); [lia|].
  assert (Hdrop : drop (Z.to_nat o3) es = desc_enc tagDecoderConfig k2 dcd ++ r2).
  { unfold es. rewrite !app_assoc, <- app_assoc. apply drop_blen_app. autorewrite with blen. lia. }
  rewrite slice_from_ok, Hdrop, bind_Ok by lia. rewrite descriptor_enc, bind_Ok by lia.
  unfold decoderConfigFixed. destruct (Z.ltb_spec (blen dcd) 13); [lia|].
  change (byte_at dcd 0) with (@Ok err _ objectTypeAAC). rewrite bind_Ok, Z.eqb_refl. cbn [negb].
  assert (Hdrop2 : drop (Z.to_nat 13) dcd = desc_enc tagDecoderSpecific k3 asc ++ r3).
  { unfold dcd. rewrite app_assoc. apply drop_blen_app. blia. }
  rewrite slice_from_ok, Hdrop2, bind_Ok by lia. rewrite descriptor_enc, bind_Ok by lia.
  destruct (Z.eqb_spec (blen asc) 0) as [Hz|]; [|done]. by apply blen_zero in Hz.
Qed.

(** One box of a [visit]: the callback is unfolded, not the rest of the walk. *)
Ltac visit_step v :=
  cbn [visit]; let k := fresh "k" in set (k := visit v); unfold v; subst k.

(** ** The layout of an initialization segment *)
Definition ver32_is (body : list Z) (v : Z) : Prop :=
  ∃ b0 f times rest, body = b0 :: f ++ times ++ be_split 4 v ++ rest ∧ blen f = 3
    ∧ blen times = (if b0 =? 1 then 16 else 8) ∧ is_u32 v.
Definition hdlr_is (body t : list Z) : Prop :=
  ∃ pre rest, body = pre ++ t ++ rest ∧ blen pre = 8 ∧ blen t = 4.

Lemma versioned32_is body v : ver32_is body v → versioned32 body = Ok (Some v).
Proof.
  intros (b0 & f & times & rest & -> & Hf & Ht & Hv). unfold versioned32. pose proof (blen_nonneg rest).
  set (b := b0 :: f ++ times ++ be_split 4 v ++ rest).
  assert (Hb : blen b = 8 + blen times + blen rest).
  { unfold b. rewrite blen_cons, !blen_app, blen_be_split. lia. }
  assert (8 ≤ blen times) by (rewrite Ht; by destruct (b0 =? 1)).
  destruct (Z.ltb_spec (blen b) 4); [lia|]. change (byte_at b 0) with (@Ok err _ b0). rewrite bind_Ok. cbv zeta.
  assert (Ho : (if b0 =? 1 then 4 + 8 + 8 else 4 + 4 + 4) = 4 + blen times) by (rewrite Ht; by destruct (b0 =? 1)).
  rewrite Ho. destruct (Z.ltb_spec (blen b) (4 + blen times + 4)); [lia|].
  assert (Hr : be_at 4 b (4 + blen times) = @Ok err _ v); [|by rewrite Hr].
  unfold b. change (b0 :: f ++ times ++ be_split 4 v ++ rest) with ((b0 :: f) ++ times ++ be_split 4 v ++ rest).
  rewrite app_assoc. apply (be_at_mid 4); [exact Hv|rewrite blen_app, blen_cons; lia].
Qed.

Lemma parseHDLR_is body t : hdlr_is body t → parseHDLR body = Ok t.
Proof.
  intros (pre & rest & -> & Hp & Ht). unfold parseHDLR. pose proof (blen_nonneg rest).
  destruct (Z.ltb_spec (blen (pre ++ t ++ rest)) 12); [blia|]. apply slice_mid; lia.
Qed.

Record mdia_is (mdia : list Z) (handler : list Z) (ts : Z) (stsd : list Z) : Prop := {
  mi_boxes : ∃ md mi st mdhd hdlr, mdia = encs md ∧ Forall box_ok md
    ∧ find_box "mdhd" md = Some mdhd ∧ ver32_is mdhd ts
    ∧ find_box "hdlr" md = Some hdlr ∧ hdlr_is hdlr handler
    ∧ find_box "minf" md = Some (encs mi) ∧ Forall box_ok mi
    ∧ find_box "stbl" mi = Some (encs st) ∧ Forall box_ok st
    ∧ find_box "stsd" st = Some stsd
}.

Lemma parseMdia_is mdia handler ts stsd :
  mdia_is mdia handler ts stsd → parseMdia mdia = Ok (handler, ts, Some stsd).
Proof.
  intros [(md & mi & st & mdhd & hdlr & -> & Hmd & E1 & H1 & E2 & H2 & E3 & Hmi & E4 & Hst & E5)].
  unfold parseMdia. rewrite !firstChild_boxes by done.
  rewrite E1, bind_Ok. unfold parseMDHD. rewrite (versioned32_is _ _ H1), bind_Ok, bind_ret. cbn [default].
  rewrite E2, bind_Ok, (parseHDLR_is _ _ H2), bind_Ok, E3, bind_Ok.
  rewrite firstChild_boxes, E4, bind_Ok, firstChild_boxes, E5 by done. done.
Qed.

(** A stsd whose first mp4a entry carries [asc]. *)
Definition stsd_is (stsd asc : list Z) : Prop :=
  ∃ pre before large hdr children after p, stsd = pre ++ encs (before ++ mkBox large (str "mp4a") (hdr ++ encs children) :: after)
    ∧ blen pre = 8 ∧ blen hdr = audioSampleEntryLen
    ∧ Forall box_ok (before ++ mkBox large (str "mp4a") (hdr ++ encs children) :: after) ∧ Forall box_ok children
    ∧ Forall (λ b, typ_is "mp4a" b = false) before
    ∧ find_box "esds" children = Some (esds_body p asc) ∧ es_parts_ok p asc.

Lemma parseMP4A_is hdr children p asc : blen hdr = audioSampleEntryLen → Forall box_ok children →
  find_box "esds" children = Some (esds_body p asc) → es_parts_ok p asc →
  parseMP4A (hdr ++ encs children) = Ok asc.
Proof.
  intros Hh Hok Hf Hp. unfold parseMP4A. pose proof (blen_nonneg (encs children)).
  destruct (Z.ltb_spec (blen (hdr ++ encs children)) audioSampleEntryLen); [blia|].
  rewrite slice_from_ok, drop_blen_app, bind_Ok by (try done; unfold audioSampleEntryLen in *; blia).
  rewrite firstChild_boxes, Hf, bind_Ok by done. by apply parseESDS_body.
Qed.

Definition stsd_visit (_ : Z) (b : box) (s : stsd_state) : res no_err (stsd_state * signal err) :=
  let s := if blen (sd_first s) =? 0 then mkStsd (sd_asc s) (sd_err s) (sd_encrypted s) (b_typ b) else s in
  if typ_is "mp4a" b then
    r ← catch (parseMP4A (b_body b));
    match r with
    | inr e => mret (mkStsd (sd_asc s) (Some e) (sd_encrypted s) (sd_first s), Stop)
    | inl a => mret (mkStsd (Some a) (sd_err s) (sd_encrypted s) (sd_first s), Stop)
    end
  else if existsb (λ t, typ_is t b) encrypted_types then
    mret (mkStsd (sd_asc s) (sd_err s) true (sd_first s), Continue)
  else mret (s, Continue).

Lemma visit_stsd before b after asc : parseMP4A (b_body b) = Ok asc → typ_is "mp4a" b = true →
  Forall (λ b, typ_is "mp4a" b = false) before → ∀ off s, sd_err s = None → ∃ s',
  visit stsd_visit off (before ++ b :: after) s = Ok (s', None) ∧ sd_err s' = None ∧ sd_asc s' = Some asc.
Proof.
  intros Hb Ht Hbf. induction Hbf as [|x before Hx Hbf IH]; intros off s Hs; cbn [app].
  - visit_step stsd_visit. rewrite Ht, Hb. set (s1 := if blen (sd_first s) =? 0 then _ else s).
    assert (sd_err s1 = None) by (unfold s1; by destruct (_ =? 0)). cbn. eexists. by split_and!.
  - visit_step stsd_visit. rewrite Hx. set (s1 := if blen (sd_first s) =? 0 then _ else s).
    assert (sd_err s1 = None) by (unfold s1; by destruct (_ =? 0)).
    destruct (existsb _ _); rewrite bind_ret; by apply IH.
Qed.

Lemma parseSTSD_is stsd asc : stsd_is stsd asc → parseSTSDForASC (Some stsd) = Ok asc.
Proof.
  intros (pre & before & large & hdr & children & after & p & -> & Hpre & Hh & Hok & Hch & Hbf & Hf & Hp).
  set (b := mkBox large (str "mp4a") (hdr ++ encs children)) in *. unfold parseSTSDForASC.
  pose proof (blen_nonneg (encs (before ++ b :: after))).
  destruct (Z.ltb_spec (blen (pre ++ encs (before ++ b :: after))) 8); [blia|].
  rewrite slice_from_ok, drop_blen_app, bind_Ok by (try done; blia). unfold eachBox.
  rewrite (eachBoxE_boxes _ _ stsd_visit); [|done|].
  - destruct (visit_stsd before b after asc) with (off := 0) (s := mkStsd None None false [])
      as (s' & -> & He & Ha); try done; [by apply (parseMP4A_is _ _ p)|]. cbn. by rewrite He, Ha.
  - intros pre' b' post s E Ht. unfold stsd_entry, stsd_visit.
    change (is_typ "mp4a" (span_at (blen pre') b')) with (typ_is "mp4a" b').
    change (existsb (λ t, is_typ t (span_at (blen pre') b')) encrypted_types)
      with (existsb (λ t, typ_is t b') encrypted_types).
    change (typ (span_at (blen pre') b')) with (b_typ b').
    destruct (typ_is "mp4a" b'); [|done]. by rewrite E, body_enc, bind_Ok.
Qed.

Definition trak_visit (_ : Z) (b : box) (s : option Z * option (list Z))
    : res no_err ((option Z * option (list Z)) * signal err) :=
  if typ_is "tkhd" b then
    r ← catch (parseTKHD (b_body b));
    match r with inl (Some id) => mret ((Some id, s.2), Continue) | _ => mret (s, Continue) end
  else if typ_is "mdia" b then mret ((s.1, Some (b_body b)), Continue)
  else mret (s, Continue).

(** A track: one tkhd and one mdia, in any order among other boxes. *)
Record trak_is (trak : list Z) (id : Z) (handler : list Z) (ts : Z) (stsd : list Z) : Prop := {
  tr_boxes : ∃ tk th m, trak = encs tk ∧ Forall box_ok tk
    ∧ List.filter (typ_is "tkhd") tk = [th] ∧ ver32_is (b_body th) id
    ∧ List.filter (typ_is "mdia") tk = [m] ∧ mdia_is (b_body m) handler ts stsd
}.

Lemma visit_trak th id m tk : ver32_is (b_body th) id → ∀ off s,
  (List.filter (typ_is "tkhd") tk = [th] ∨ List.filter (typ_is "tkhd") tk = [] ∧ s.1 = Some id) →
  (List.filter (typ_is "mdia") tk = [m] ∨ List.filter (typ_is "mdia") tk = [] ∧ s.2 = Some (b_body m)) →
  visit trak_visit off tk s = Ok ((Some id, Some (b_body m)), None).
Proof.
  intros Hth. induction tk as [|b tk IH]; intros off [i d] Hi Hd.
  { destruct Hi as [Hi|[_ Hi]]; [done|]. destruct Hd as [Hd|[_ Hd]]; [done|]. cbn in *. by subst. }
  visit_step trak_visit. cbn [List.filter] in *.
  destruct (typ_is "tkhd" b) eqn:Et.
  - destruct Hi as [[= -> Hi]|[Hi _]]; [|done]. rewrite (versioned32_is _ _ Hth : parseTKHD (b_body th) = _). cbn [catch].
    rewrite bind_Ok, bind_ret. apply IH; [by right|].
    assert (typ_is "mdia" th = false) as Hm; [|by rewrite Hm in Hd].
    unfold typ_is in *. apply bool_decide_eq_true in Et. rewrite Et. done.
  - destruct (typ_is "mdia" b) eqn:Em; rewrite bind_ret; apply IH; try done.
    destruct Hd as [[= -> Hd]|[Hd _]]; [|done]. by right.
Qed.

Lemma parseTrak_is trak id handler ts stsd : trak_is trak id handler ts stsd →
  parseTrak trak = if bool_decide (handler = str "soun")
                   then asc ← parseSTSDForASC (Some stsd); mret (Some (mkInit asc ts id 0 0))
                   else Ok None.
Proof.
  intros [(tk & th & m & -> & Hok & Hth & Hid & Hm & Hmd)]. unfold parseTrak, eachBox.
  rewrite (eachBoxE_boxes _ _ trak_visit); [|done|].
  - rewrite (visit_trak th id m tk Hid) by (by left). cbn [try]. rewrite (parseMdia_is _ _ _ _ Hmd), bind_Ok.
    by destruct (bool_decide _).
  - intros pre b post [i d] E Ht. unfold trak_box, trak_visit. cbv beta iota.
    change (is_typ "tkhd" (span_at (blen pre) b)) with (typ_is "tkhd" b).
    change (is_typ "mdia" (span_at (blen pre) b)) with (typ_is "mdia" b).
    rewrite E, body_enc by done. by destruct (typ_is "tkhd" b), (typ_is "mdia" b).
Qed.

(** A trex box, and the defaults a mvex gives a track. *)
Definition trex_is (b : box) (id dur size : Z) : Prop :=
  typ_is "trex" b = true ∧ ∃ p q rest, b_body b = p ++ be_split 4 id ++ q ++ be_split 4 dur ++ be_split 4 size ++ rest
    ∧ blen p = 4 ∧ blen q = 4 ∧ is_u32 id ∧ is_u32 dur ∧ is_u32 size.
Definition defaults_are (mv : list box) (id dur size : Z) : Prop :=
  match find_box "mvex" mv with
  | None => dur = 0 ∧ size = 0
  | Some mvex => ∃ before t after, mvex = encs (before ++ t :: after) ∧ Forall box_ok (before ++ t :: after)
      ∧ trex_is t id dur size
      ∧ Forall (λ b, typ_is "trex" b = false ∨ ∃ i d s, trex_is b i d s) before
      ∧ Forall (λ b, typ_is "trex" b = false ∨ ∃ i d s, trex_is b i d s ∧ i ≠ id) after
  end.

Definition trex_visit (_ : Z) (b : box) (out : gmap Z (Z * Z)) : res no_err (gmap Z (Z * Z) * signal err) :=
  if negb (typ_is "trex" b) then mret (out, Continue)
  else if blen (b_body b) <? 20 then mret (out, Continue)
  else
    id ← be_at 4 (b_body b) 4; dur ← be_at 4 (b_body b) 12; size ← be_at 4 (b_body b) 16;
    mret (<[id := (dur, size)]> out, Continue).

Lemma trex_visit_is off b id dur size out : trex_is b id dur size →
  trex_visit off b out = Ok (<[id := (dur, size)]> out, Continue).
Proof.
  intros (Ht & p & q & rest & E & Hp & Hq & Hid & Hd & Hs). unfold trex_visit. rewrite Ht, E. cbn [negb].
  pose proof (blen_nonneg rest).
  destruct (Z.ltb_spec (blen (p ++ be_split 4 id ++ q ++ be_split 4 dur ++ be_split 4 size ++ rest)) 20).
  { rewrite !blen_app, !blen_be_split in *. lia. }
  rewrite (be_at_mid 4 id p _ 4), bind_Ok by first [exact Hid | lia].
  rewrite (app_assoc p), (app_assoc (p ++ be_split 4 id)).
  rewrite (be_at_mid 4 dur _ _ 12), bind_Ok by first [exact Hd | rewrite !blen_app, blen_be_split; lia].
  rewrite (app_assoc ((p ++ be_split 4 id) ++ q)).
  rewrite (be_at_mid 4 size _ _ 16), bind_Ok by first [exact Hs | rewrite !blen_app, !blen_be_split; lia]. done.
Qed.

Lemma visit_trex_all bs : Forall (λ b, typ_is "trex" b = false ∨ ∃ i d s, trex_is b i d s) bs →
  ∀ rest off out, ∃ off' out', visit trex_visit off (bs ++ rest) out = visit trex_visit off' rest out'.
Proof.
  induction 1 as [|b bs Hb Hbs IH]; intros rest off out; [by exists off, out|]. cbn [app].
  destruct Hb as [Ht|(i & d & s & Ht)].
  - visit_step trex_visit. rewrite Ht. cbn [negb]. rewrite bind_ret. apply IH.
  - cbn [visit]. rewrite (trex_visit_is off b i d s out Ht), bind_Ok. apply IH.
Qed.

Lemma visit_trex_after bs id v : Forall (λ b, typ_is "trex" b = false ∨ ∃ i d s, trex_is b i d s ∧ i ≠ id) bs →
  ∀ off out, out !! id = Some v → ∃ out', visit trex_visit off bs out = Ok (out', None) ∧ out' !! id = Some v.
Proof.
  induction 1 as [|b bs Hb Hbs IH]; intros off out Hout; [by exists out|].
  destruct Hb as [Ht|(i & d & s & Ht & Hne)].
  - visit_step trex_visit. rewrite Ht. cbn [negb]. rewrite bind_ret. by apply IH.
  - cbn [visit]. rewrite (trex_visit_is off b i d s out Ht), bind_Ok. apply IH. by rewrite lookup_insert_ne.
Qed.

Lemma parseTrex_is mv id dur size : Forall box_ok mv → defaults_are mv id dur size →
  ∃ m, parseTrex (encs mv) = Ok m ∧ default (0, 0) (m !! id) = (dur, size).
Proof.
  intros Hok Hd. unfold parseTrex. rewrite firstChild_boxes, bind_Ok by done. unfold defaults_are in Hd.
  destruct (find_box "mvex" mv) as [mvex|]; [|destruct Hd as [-> ->]; by exists ∅].
  destruct Hd as (before & t & after & -> & Hb & Ht & Hbf & Haf). unfold eachBox.
  rewrite (eachBoxE_boxes _ _ trex_visit); [|done|].
  - destruct (visit_trex_all before Hbf (t :: after) 0 ∅) as (off' & out' & ->). cbn [visit].
    rewrite (trex_visit_is off' t id dur size out' Ht), bind_Ok.
    destruct (visit_trex_after after id (dur, size) Haf (off' + blen (enc t)) (<[id := (dur, size)]> out'))
      as (out & -> & Hl); [by rewrite lookup_insert_eq|]. exists out. by rewrite Hl.
  - intros pre b post s E Hty. unfold trex_box, trex_visit.
    change (is_typ "trex" (span_at (blen pre) b)) with (typ_is "trex" b).
    destruct (typ_is "trex" b); [|done]. cbn [negb]. by rewrite E, body_enc, bind_Ok.
Qed.

(** An initialization segment: [ai] is its first audio track. *)
Record describes (data : list Z) (ai : AudioInit) : Prop := {
  ds_boxes : ∃ top mv others t rest stsd, data = encs top ∧ Forall box_ok top
    ∧ find_box "moov" top = Some (encs mv) ∧ Forall box_ok mv
    ∧ List.filter (typ_is "trak") mv = others ++ t :: rest
    ∧ Forall (λ b, ∃ id h ts sd, trak_is (b_body b) id h ts sd ∧ h ≠ str "soun") others
    ∧ trak_is (b_body t) (TrackID ai) (str "soun") (Timescale ai) stsd ∧ stsd_is stsd (ASC ai)
    ∧ defaults_are mv (TrackID ai) (DefaultDur ai) (DefaultSize ai);
  ds_ts : 0 < Timescale ai ≤ MaxInt32
}.

Definition moov_visit (_ : Z) (b : box) (s : option AudioInit * option err)
    : res no_err ((option AudioInit * option err) * signal err) :=
  if negb (typ_is "trak" b) then mret (s, Continue)
  else
    r ← catch (parseTrak (b_body b));
    match r with
    | inr e => mret ((s.1, Some e), Stop)
    | inl (Some info) => mret ((Some info, s.2), Stop)
    | inl None => mret (s, Continue)
    end.

Lemma visit_moov others t rest info mv :
  parseTrak (b_body t) = Ok (Some info) → Forall (λ b, parseTrak (b_body b) = Ok None) others →
  List.filter (typ_is "trak") mv = others ++ t :: rest →
  ∀ off, visit moov_visit off mv (None, None) = Ok ((Some info, None), None).
Proof.
  intros Ht Ho. revert others Ho. induction mv as [|b mv IH]; intros others Ho Hf off; [by destruct others|].
  cbn [List.filter] in *. visit_step moov_visit. destruct (typ_is "trak" b); cbn [negb].
  - destruct Ho as [|x others Hx Ho]; cbn [app] in Hf; injection Hf as -> Hf.
    + rewrite Ht. done.
    + rewrite Hx. cbn [catch]. rewrite bind_Ok, bind_ret. by apply (IH others).
  - rewrite bind_ret. by apply (IH others).
Qed.

Lemma ParseInit_describes data ai : describes data ai → ParseInit data = Ok ai.
Proof.
  intros [(top & mv & others & t & rest & stsd & -> & Htop & Hmoov & Hmv & Hf & Ho & Ht & Hs & Hd) Hts].
  unfold ParseInit. rewrite firstChild_boxes, Hmoov, bind_Ok by done.
  destruct (parseTrex_is mv _ _ _ Hmv Hd) as (m & -> & Hm). rewrite bind_Ok. unfold eachBox.
  rewrite (eachBoxE_boxes _ _ moov_visit); [|done|].
  - assert (Htk : parseTrak (b_body t) = Ok (Some (mkInit (ASC ai) (Timescale ai) (TrackID ai) 0 0))).
    { rewrite (parseTrak_is _ _ _ _ _ Ht), bool_decide_true by done. by rewrite (parseSTSD_is _ _ Hs). }
    rewrite (visit_moov others t rest _ mv Htk); [| |done].
    + cbn [try Timescale TrackID ASC]. destruct (Z.eqb_spec (Timescale ai) 0); [lia|].
      destruct (Z.ltb_spec MaxInt32 (Timescale ai)); [lia|]. cbn [orb].
      destruct (m !! TrackID ai) as [[dur size]|]; cbn in Hm; injection Hm as Hd1 Hd2; destruct ai; cbn in *; by subst.
    + eapply Forall_impl; [exact Ho|]. intros b (id & h & ts & sd & Hb & Hne).
      rewrite (parseTrak_is _ _ _ _ _ Hb). by rewrite bool_decide_false.
  - intros pre b post s E Hty. unfold moov_box, moov_visit.
    change (is_typ "trak" (span_at (blen pre) b)) with (typ_is "trak" b).
    destruct (typ_is "trak" b); [|done]. cbn [negb]. by rewrite E, body_enc, bind_Ok.
Qed.

(** ** The layout of a fragment *)

(** The flags of a FullBox, after its version octet. *)
Definition full_box (ver flags : Z) : list Z := ver :: be_split 3 flags.

Lemma box_flags_full {E} ver flags rest : 0 ≤ flags < 2 ^ 24 →
  @box_flags E (full_box ver flags ++ rest) = Ok flags.
Proof.
  intros Hf. unfold box_flags, full_box. cbn [be_split app].
  set (b1 := flags / 2 ^ (8 * Z.of_nat 2) mod 256). set (b2 := flags / 2 ^ (8 * Z.of_nat 1) mod 256).
  set (b3 := flags / 2 ^ (8 * Z.of_nat 0) mod 256).
  change (byte_at (ver :: b1 :: b2 :: b3 :: rest) 1) with (@Ok E _ b1).
  change (byte_at (ver :: b1 :: b2 :: b3 :: rest) 2) with (@Ok E _ b2).
  change (byte_at (ver :: b1 :: b2 :: b3 :: rest) 3) with (@Ok E _ b3). rewrite !bind_Ok.
  assert (0 ≤ b2 < 256) by (apply Z.mod_pos_bound; lia). assert (0 ≤ b3 < 256) by (apply Z.mod_pos_bound; lia).
  rewrite <- Z.lor_assoc, (lor_shiftl_add 8 b2 b3) by lia.
  rewrite lor_shiftl_add by lia. cbv [mret res_ret]. f_equal. unfold b1, b2, b3.
  change (2 ^ (8 * Z.of_nat 2)) with 65536. change (2 ^ (8 * Z.of_nat 1)) with 256.
  change (2 ^ (8 * Z.of_nat 0)) with 1. Z.div_mod_to_equations. lia.
Qed.

(** A tfhd: its track, and the base and defaults it gives. *)
Record tfhd_parts := mkTfhd {
  th_ver : Z; th_flags : Z; th_id : Z; th_base : Z; th_sdi : list Z; th_dur : Z; th_size : Z; th_rest : list Z
}.
Definition present (flags bit : Z) (field : list Z) : list Z := if has flags bit then field else [].
Definition tfhd_body (p : tfhd_parts) : list Z :=
  full_box (th_ver p) (th_flags p) ++ be_split 4 (th_id p)
  ++ present (th_flags p) tfhdBaseDataOffset (be_split 8 (th_base p))
  ++ present (th_flags p) tfhdSampleDescIndex (th_sdi p)
  ++ present (th_flags p) tfhdDefaultDuration (be_split 4 (th_dur p))
  ++ present (th_flags p) tfhdDefaultSize (be_split 4 (th_size p)) ++ th_rest p.
Definition tfhd_ok (p : tfhd_parts) : Prop :=
  0 ≤ th_flags p < 2 ^ 24 ∧ is_u32 (th_id p) ∧ 0 ≤ th_base p ≤ MaxInt32 ∧ blen (th_sdi p) = 4
  ∧ is_u32 (th_dur p) ∧ is_u32 (th_size p).

Lemma opt_field_present flags bit (n : nat) field v pre post (off : Z) :
  off = blen pre → blen field = Z.of_nat n → (has flags bit = true → be_combine field = v) →
  opt_field flags bit (Z.of_nat n) (pre ++ present flags bit field ++ post) off =
  Ok (if has flags bit then Some v else None, off + blen (present flags bit field)).
Proof.
  intros -> Hf Hv. unfold opt_field, present. pose proof (blen_nonneg post).
  destruct (has flags bit) eqn:Hb; [|cbn; by rewrite Z.add_0_r].
  destruct (Z.ltb_spec (blen (pre ++ field ++ post)) (blen pre + Z.of_nat n)); [blia|].
  unfold be_at. rewrite slice_mid, bind_Ok by lia. rewrite Hv by done. rewrite bind_ret, Hf. done.
Qed.

Lemma present_be flags bit n v : blen (present flags bit (be_split n v)) = if has flags bit then Z.of_nat n else 0.
Proof. unfold present. destruct (has flags bit); [by rewrite blen_be_split|done]. Qed.

Lemma combine_be n v : 0 ≤ v < 256 ^ Z.of_nat n → be_combine (be_split n v) = v.
Proof. intros Hv. rewrite be_combine_split. by apply Z.mod_small. Qed.

Lemma blen_full ver flags : blen (full_box ver flags) = 4.
Proof. unfold full_box. by rewrite blen_cons, blen_be_split. Qed.

Lemma parseTFHD_body p moofStart : tfhd_ok p →
  parseTFHD (tfhd_body p) moofStart =
  Ok (if has (th_flags p) tfhdBaseDataOffset then th_base p else moofStart,
      if has (th_flags p) tfhdDefaultDuration then th_dur p else 0,
      if has (th_flags p) tfhdDefaultSize then th_size p else 0,
      has (th_flags p) tfhdBaseDataOffset).
Proof.
  intros (Hfl & Hid & Hbase & Hsdi & Hdur & Hsize). unfold parseTFHD, tfhd_body.
  set (f1 := present (th_flags p) tfhdBaseDataOffset _). set (f2 := present (th_flags p) tfhdSampleDescIndex _).
  set (f3 := present (th_flags p) tfhdDefaultDuration _). set (f4 := present (th_flags p) tfhdDefaultSize _).
  set (h := full_box (th_ver p) (th_flags p)). set (i := be_split 4 (th_id p)).
  assert (Hh : blen (h ++ i) = 8) by (unfold h, i; by rewrite blen_app, blen_full, blen_be_split).
  set (b := h ++ i ++ f1 ++ f2 ++ f3 ++ f4 ++ th_rest p).
  assert (Hb1 : b = (h ++ i) ++ f1 ++ f2 ++ f3 ++ f4 ++ th_rest p) by (unfold b; by rewrite <- !app_assoc).
  assert (Hb2 : b = ((h ++ i) ++ f1) ++ f2 ++ f3 ++ f4 ++ th_rest p) by (unfold b; by rewrite <- !app_assoc).
  assert (Hb3 : b = (((h ++ i) ++ f1) ++ f2) ++ f3 ++ f4 ++ th_rest p) by (unfold b; by rewrite <- !app_assoc).
  assert (Hb4 : b = ((((h ++ i) ++ f1) ++ f2) ++ f3) ++ f4 ++ th_rest p) by (unfold b; by rewrite <- !app_assoc).
  assert (Hl : 8 ≤ blen b).
  { rewrite Hb1, blen_app, Hh. pose proof (blen_nonneg (f1 ++ f2 ++ f3 ++ f4 ++ th_rest p)). lia. }
  destruct (Z.ltb_spec (blen b) 8); [lia|].
  assert (Hf : box_flags b = @Ok err _ (th_flags p)) by (by apply box_flags_full). rewrite Hf, bind_Ok. cbv zeta.
  assert (E1 : opt_field (th_flags p) tfhdBaseDataOffset 8 b 8 =
    Ok (if has (th_flags p) tfhdBaseDataOffset then Some (th_base p) else None, 8 + blen f1)).
  { rewrite Hb1. apply (opt_field_present _ _ 8); [lia|by rewrite blen_be_split|].
    intros _. apply combine_be. unfold MaxInt32 in *. lia. }
  assert (E2 : opt_field (th_flags p) tfhdSampleDescIndex 4 b (8 + blen f1) =
    Ok (if has (th_flags p) tfhdSampleDescIndex then Some (be_combine (th_sdi p)) else None, 8 + blen f1 + blen f2)).
  { rewrite Hb2. apply (opt_field_present _ _ 4); [blia|done|done]. }
  assert (E3 : opt_field (th_flags p) tfhdDefaultDuration 4 b (8 + blen f1 + blen f2) =
    Ok (if has (th_flags p) tfhdDefaultDuration then Some (th_dur p) else None, 8 + blen f1 + blen f2 + blen f3)).
  { rewrite Hb3. apply (opt_field_present _ _ 4); [blia|by rewrite blen_be_split|]. intros _. by apply combine_be. }
  assert (E4 : opt_field (th_flags p) tfhdDefaultSize 4 b (8 + blen f1 + blen f2 + blen f3) =
    Ok (if has (th_flags p) tfhdDefaultSize then Some (th_size p) else None,
      8 + blen f1 + blen f2 + blen f3 + blen f4)).
  { rewrite Hb4. apply (opt_field_present _ _ 4); [blia|by rewrite blen_be_split|]. intros _. by apply combine_be. }
  rewrite E1, bind_Ok. cbv beta iota.
  assert (Hm : (match (if has (th_flags p) tfhdBaseDataOffset then Some (th_base p) else None) with
    | Some v => if MaxInt32 <? v then Err ErrMalformedBox else mret (Some v) | None => mret None end)
    = Ok (if has (th_flags p) tfhdBaseDataOffset then Some (th_base p) else None)).
  { destruct (has (th_flags p) tfhdBaseDataOffset); [|done]. by destruct (Z.ltb_spec MaxInt32 (th_base p)); [lia|]. }
  rewrite Hm, bind_Ok, E2, bind_Ok. cbv beta iota. rewrite E3, bind_Ok. cbv beta iota. rewrite E4, bind_Ok.
  by destruct (has (th_flags p) tfhdBaseDataOffset), (has (th_flags p) tfhdDefaultDuration),
    (has (th_flags p) tfhdDefaultSize).
Qed.

Lemma tfhdTrackID_body p : tfhd_ok p → tfhdTrackID (tfhd_body p) = Ok (Some (th_id p)).
Proof.
  intros (_ & Hid & _). unfold tfhdTrackID, tfhd_body.
  match goal with |- context [full_box _ _ ++ be_split 4 _ ++ ?R] => set (r := R) end.
  pose proof (blen_nonneg r). pose proof (blen_full (th_ver p) (th_flags p)).
  destruct (Z.ltb_spec (blen (full_box (th_ver p) (th_flags p) ++ be_split 4 (th_id p) ++ r)) 8).
  { rewrite !blen_app, blen_be_split in *. lia. }
  rewrite (be_at_mid 4 (th_id p)), bind_Ok by first [exact Hid | lia]. done.
Qed.

(** A trun: its sample records, and where its data starts. *)
Record rec := mkRec { rc_dur : Z; rc_flags : list Z; rc_cto : list Z; rc_data : list Z }.
Definition rec_enc (flags : Z) (r : rec) : list Z :=
  present flags trunSampleDuration (be_split 4 (rc_dur r)) ++ present flags trunSampleSize (be_split 4 (blen (rc_data r)))
  ++ present flags trunSampleFlags (rc_flags r) ++ present flags trunSampleCTO (rc_cto r).
Record trun_parts := mkTrun {
  tn_ver : Z; tn_flags : Z; tn_offset : Z; tn_first : list Z; tn_recs : list rec; tn_rest : list Z
}.
Definition trun_body (p : trun_parts) : list Z :=
  full_box (tn_ver p) (tn_flags p) ++ be_split 4 (blen (tn_recs p))
  ++ present (tn_flags p) trunDataOffset (be_split 4 (u32 (tn_offset p)))
  ++ present (tn_flags p) trunFirstSampleFlags (tn_first p)
  ++ concat (rec_enc (tn_flags p) <$> tn_recs p) ++ tn_rest p.
Definition rec_ok (flags defSize : Z) (r : rec) : Prop :=
  is_u32 (rc_dur r) ∧ blen (rc_flags r) = 4 ∧ blen (rc_cto r) = 4 ∧ 0 < blen (rc_data r) < 2 ^ 32
  ∧ (has flags trunSampleSize = false → blen (rc_data r) = defSize).
Definition trun_ok (defSize : Z) (p : trun_parts) : Prop :=
  0 ≤ tn_flags p < 2 ^ 24 ∧ - 2 ^ 31 ≤ tn_offset p < 2 ^ 31 ∧ blen (tn_first p) = 4 ∧ blen (tn_recs p) < 2 ^ 32
  ∧ Forall (rec_ok (tn_flags p) defSize) (tn_recs p).

Definition datas (p : trun_parts) : list Z := concat (rc_data <$> tn_recs p).
Definition samples_of (flags defDur : Z) (rs : list rec) : list Sample :=
  (λ r, mkSample (rc_data r) (if has flags trunSampleDuration then rc_dur r else defDur)) <$> rs.

(** The sample data of the truns of a traf: each at its own offset from [base], or
    behind the previous one. *)
Fixpoint placed (frag : list Z) (base ptr : Z) (located : bool) (ps : list trun_parts) : Prop :=
  match ps with
  | [] => True
  | p :: ps =>
      let at_ := if has (tn_flags p) trunDataOffset then base + tn_offset p else ptr in
      has (tn_flags p) trunDataOffset || located = true
      ∧ (∃ pre post, frag = pre ++ datas p ++ post ∧ blen pre = at_)
      ∧ placed frag base (at_ + blen (datas p)) true ps
  end.

Lemma blen_present flags bit field : blen field = 4 → blen (present flags bit field) = skip_field flags bit 0.
Proof. intros Hf. unfold present, skip_field. destruct (has flags bit); [lia|done]. Qed.

Lemma skip_at flags bit field off : blen field = 4 →
  skip_field flags bit off = off + blen (present flags bit field).
Proof. intros Hf. rewrite blen_present by done. unfold skip_field. destruct (has flags bit); lia. Qed.

Lemma rec_field_present flags bit v dflt pre post off : off = blen pre → is_u32 v →
  rec_field flags bit (pre ++ present flags bit (be_split 4 v) ++ post) off dflt =
  Ok (if has flags bit then v else dflt, off + blen (present flags bit (be_split 4 v))).
Proof.
  intros -> Hv. unfold rec_field, present. destruct (has flags bit); [|cbn; by rewrite Z.add_0_r].
  rewrite (be_at_mid 4 v pre), bind_Ok by first [exact Hv | done]. by rewrite blen_be_split.
Qed.

Lemma blen_rec_enc flags ds r : rec_ok flags ds r → blen (rec_enc flags r) = recordSize flags.
Proof.
  intros (Hd & Hf & Hc & Hdt & _). unfold rec_enc, recordSize.
  rewrite !blen_app, !present_be. rewrite (skip_at flags trunSampleCTO (rc_cto r)) by done.
  rewrite (skip_at flags trunSampleFlags (rc_flags r)) by done.
  rewrite (skip_at flags trunSampleSize (be_split 4 (blen (rc_data r)))) by (by rewrite blen_be_split).
  rewrite (skip_at flags trunSampleDuration (be_split 4 (rc_dur r))) by (by rewrite blen_be_split).
  rewrite !present_be. lia.
Qed.

Lemma blen_recs flags ds rs : Forall (rec_ok flags ds) rs →
  blen (concat (rec_enc flags <$> rs)) = blen rs * recordSize flags.
Proof.
  induction 1 as [|r rs Hr Hrs IH]; [done|]. rewrite fmap_cons. cbn [concat].
  rewrite blen_app, blen_cons, (blen_rec_enc _ _ _ Hr), IH. lia.
Qed.

Lemma blen_datas flags ds rs : Forall (rec_ok flags ds) rs → blen rs ≤ blen (concat (rc_data <$> rs)).
Proof.
  induction 1 as [|r rs Hr Hrs IH]; [done|]. rewrite fmap_cons. cbn [concat].
  destruct Hr as (_ & _ & _ & Hd & _). rewrite blen_app, blen_cons. lia.
Qed.

Section exact.
(** A caller that accepts every sample. *)
Context {W E : Type} (onSample : W → Sample → W * option E).
Hypothesis quiet : ∀ w x, (onSample w x).2 = None.
Definition accept (w : W) (x : Sample) : W := (onSample w x).1.
Context (frag : list Z).

Lemma io_bind_pure {A B} (m : res err A) (f : A → @io W E B) a s :
  m = Ok a → io_bind (pure m) f s = f a s.
Proof. by intros ->. Qed.
Lemma io_bind_ok {A B} (m : @io W E A) (f : A → @io W E B) a s s' :
  m s = Ok (s', inl a) → io_bind m f s = f a s'.
Proof. intros H. unfold io_bind. by rewrite H. Qed.

Lemma guarded_quiet w budget x : 0 < budget →
  guarded onSample x (w, budget) = Ok ((accept w x, budget - 1), inl ()).
Proof.
  intros Hb. unfold guarded. destruct (Z.leb_spec budget 0); [lia|].
  unfold accept. pose proof (quiet w x) as Hq. destruct (onSample w x) as [w' e]. cbn in *. by subst.
Qed.

Lemma samples_loop_exact flags defDur defSize rs : Forall (rec_ok flags defSize) rs →
  ∀ pre post fpre fpost w budget,
  frag = fpre ++ concat (rc_data <$> rs) ++ fpost → blen rs ≤ budget →
  samples_loop onSample (length rs) flags defDur defSize (pre ++ concat (rec_enc flags <$> rs) ++ post) frag
    (blen pre) (blen fpre) (w, budget) =
  Ok ((foldl accept w (samples_of flags defDur rs), budget - blen rs),
      inl (blen fpre + blen (concat (rc_data <$> rs)), false)).
Proof.
  induction 1 as [|r rs Hr Hrs IH]; intros pre post fpre fpost w budget Hfrag Hb.
  { cbn. by rewrite !Z.add_0_r, Z.sub_0_r. }
  pose proof Hr as (Hd & Hf & Hc & Hdt & Hsz).
  cbn [length samples_loop]. rewrite !fmap_cons in *. cbn [concat] in *.
  set (f1 := present flags trunSampleDuration (be_split 4 (rc_dur r))).
  set (f2 := present flags trunSampleSize (be_split 4 (blen (rc_data r)))).
  set (f3 := present flags trunSampleFlags (rc_flags r)). set (f4 := present flags trunSampleCTO (rc_cto r)).
  set (tl := concat (rec_enc flags <$> rs) ++ post).
  assert (Ht : pre ++ (rec_enc flags r ++ concat (rec_enc flags <$> rs)) ++ post =
    pre ++ f1 ++ f2 ++ f3 ++ f4 ++ tl) by (unfold rec_enc, tl; by rewrite <- !app_assoc).
  assert (Ht' : pre ++ f1 ++ f2 ++ f3 ++ f4 ++ tl = (pre ++ rec_enc flags r) ++ concat (rec_enc flags <$> rs) ++ post)
    by (rewrite <- Ht; by rewrite <- !app_assoc).
  rewrite Ht. set (trun := pre ++ f1 ++ f2 ++ f3 ++ f4 ++ tl) in *.
  assert (E1 : rec_field flags trunSampleDuration trun (blen pre) defDur =
    Ok (if has flags trunSampleDuration then rc_dur r else defDur, blen pre + blen f1))
    by (by apply rec_field_present).
  assert (E2 : rec_field flags trunSampleSize trun (blen pre + blen f1) defSize =
    Ok (blen (rc_data r), blen pre + blen f1 + blen f2)).
  { unfold trun. rewrite app_assoc.
    assert (H : (if has flags trunSampleSize then blen (rc_data r) else defSize) = blen (rc_data r)).
    { destruct (has flags trunSampleSize); [done|]. by rewrite Hsz. }
    rewrite <- H at 1. apply rec_field_present; [by rewrite blen_app|]. unfold is_u32. lia. }
  rewrite (io_bind_pure _ _ _ _ E1). cbv beta iota. rewrite (io_bind_pure _ _ _ _ E2). cbv beta iota zeta.
  rewrite (skip_at flags trunSampleFlags (rc_flags r)), (skip_at flags trunSampleCTO (rc_cto r)) by done.
  fold f3 f4. pose proof (blen_nonneg fpre).
  destruct (Z.eqb_spec (blen (rc_data r)) 0); [lia|]. destruct (Z.ltb_spec (blen fpre) 0); [lia|]. cbn [orb].
  destruct (Z.ltb_spec (blen fpre + blen (rc_data r)) (blen fpre)); [lia|].
  assert (Hfl : blen frag = blen fpre + blen (rc_data r) + blen (concat (rc_data <$> rs)) + blen fpost)
    by (rewrite Hfrag; blia).
  pose proof (blen_nonneg (concat (rc_data <$> rs))). pose proof (blen_nonneg fpost).
  destruct (Z.ltb_spec (blen frag) (blen fpre + blen (rc_data r))); [lia|]. cbn [orb].
  assert (Es : slice frag (blen fpre) (blen fpre + blen (rc_data r)) = @Ok err _ (rc_data r)).
  { rewrite Hfrag, <- app_assoc. by apply slice_mid. }
  rewrite (io_bind_pure _ _ _ _ Es). rewrite blen_cons in Hb. pose proof (blen_nonneg rs).
  set (x := mkSample (rc_data r) _). rewrite (io_bind_ok _ _ _ _ _ (guarded_quiet w budget x ltac:(lia))).
  rewrite Ht'.
  replace (blen pre + blen f1 + blen f2 + blen f3 + blen f4) with (blen (pre ++ rec_enc flags r))
    by (unfold rec_enc; fold f1 f2 f3 f4; blia).
  replace (blen fpre + blen (rc_data r)) with (blen (fpre ++ rc_data r)) by blia.
  rewrite (IH _ _ _ fpost) by (lia || by rewrite Hfrag, <- !app_assoc).
  rewrite !blen_app, blen_cons, Z.add_assoc.
  by replace (budget - 1 - blen rs) with (budget - (1 + blen rs)) by lia.
Qed.

Lemma u32_i32 z : - 2 ^ 31 ≤ z < 2 ^ 31 → i32 (u32 z) = z.
Proof. intros Hz. unfold i32, u32. rewrite Zplus_mod_idemp_l. by apply i32_small. Qed.

Lemma trun_header_body p base running located defSize :
  trun_ok defSize p → has (tn_flags p) trunDataOffset || located = true → blen (tn_recs p) ≤ blen frag →
  ∃ hdr, trun_body p = hdr ++ concat (rec_enc (tn_flags p) <$> tn_recs p) ++ tn_rest p ∧
  trun_header (trun_body p) base running located (blen frag) =
  Ok (tn_flags p, blen (tn_recs p), blen hdr,
      if has (tn_flags p) trunDataOffset then base + tn_offset p else running).
Proof.
  intros (Hfl & Hoff & Hfirst & Hn & Hrecs) Hloc Hcount.
  set (h := full_box (tn_ver p) (tn_flags p)). set (i := be_split 4 (blen (tn_recs p))).
  set (f1 := present (tn_flags p) trunDataOffset (be_split 4 (u32 (tn_offset p)))).
  set (f2 := present (tn_flags p) trunFirstSampleFlags (tn_first p)).
  set (R := concat (rec_enc (tn_flags p) <$> tn_recs p)).
  assert (Hh : blen (h ++ i) = 8) by (unfold h, i; by rewrite blen_app, blen_full, blen_be_split).
  exists (h ++ i ++ f1 ++ f2). split.
  { unfold trun_body. fold h i f1 f2 R. by rewrite <- !app_assoc. }
  unfold trun_body. fold h i f1 f2 R. set (b := h ++ i ++ f1 ++ f2 ++ R ++ tn_rest p).
  assert (Hb1 : b = (h ++ i) ++ f1 ++ f2 ++ R ++ tn_rest p) by (unfold b; by rewrite <- !app_assoc).
  pose proof (blen_nonneg (tn_rest p)). pose proof (blen_nonneg (tn_recs p)). pose proof (blen_nonneg R).
  pose proof (blen_nonneg f1). pose proof (blen_nonneg f2).
  assert (Hl : blen b = 8 + blen f1 + blen f2 + blen R + blen (tn_rest p)).
  { rewrite Hb1, blen_app, Hh, !blen_app. lia. }
  assert (HR : blen R = blen (tn_recs p) * recordSize (tn_flags p)) by (by apply (blen_recs _ defSize)).
  unfold trun_header. destruct (Z.ltb_spec (blen b) 8); [lia|].
  assert (Hf : box_flags b = @Ok err _ (tn_flags p)) by (by apply box_flags_full). rewrite Hf, bind_Ok.
  assert (Hc : be_at 4 b 4 = @Ok err _ (blen (tn_recs p))).
  { apply (be_at_mid 4 (blen (tn_recs p)) h); [change (256 ^ Z.of_nat 4) with (2 ^ 32); lia|by unfold h; rewrite blen_full]. }
  rewrite Hc, bind_Ok.
  assert (Hp : (if has (tn_flags p) trunDataOffset
     then if blen b <? 8 + 4 then Err ErrMalformedBox else v ← be_at 4 b 8; mret (base + i32 v, 8 + 4)
     else if negb located then Err ErrMalformedBox else mret (running, 8)) =
    Ok (if has (tn_flags p) trunDataOffset then base + tn_offset p else running, 8 + blen f1)).
  { unfold f1 in *. rewrite present_be in *. destruct (has (tn_flags p) trunDataOffset) eqn:Ho.
    - destruct (Z.ltb_spec (blen b) (8 + 4)); [lia|]. unfold present in Hb1. rewrite Ho in Hb1.
      rewrite Hb1, (be_at_mid 4 (u32 (tn_offset p))), bind_Ok by first [apply u32_range | lia].
      by rewrite u32_i32.
    - cbn [orb] in Hloc. by rewrite Hloc. }
  rewrite Hp, bind_Ok. cbv beta iota.
  assert (Hq : (if has (tn_flags p) trunFirstSampleFlags
     then if blen b <? 8 + blen f1 + 4 then Err ErrMalformedBox else mret (8 + blen f1 + 4)
     else mret (8 + blen f1)) = @Ok err _ (blen (h ++ i ++ f1 ++ f2))).
  { rewrite (app_assoc h), blen_app, Hh, blen_app. unfold f2 in *. rewrite blen_present in * by done.
    unfold skip_field in *. destruct (has (tn_flags p) trunFirstSampleFlags).
    - destruct (Z.ltb_spec (blen b) (8 + blen f1 + 4)); [lia|]. cbv [mret res_ret]. f_equal. lia.
    - cbv [mret res_ret]. f_equal. lia. }
  rewrite Hq, bind_Ok. cbv zeta. rewrite (app_assoc h), blen_app, Hh, blen_app, Hl, HR.
  replace (8 + blen f1 + blen f2 + blen (tn_recs p) * recordSize (tn_flags p) + blen (tn_rest p) - (8 + (blen f1 + blen f2)))
    with (blen (tn_rest p) + blen (tn_recs p) * recordSize (tn_flags p)) by lia.
  destruct (Z.ltb_spec 0 (recordSize (tn_flags p))).
  - rewrite Z.div_add by lia. pose proof (Z.div_pos (blen (tn_rest p)) (recordSize (tn_flags p)) ltac:(lia) ltac:(lia)).
    destruct (Z.ltb_spec (blen (tn_rest p) / recordSize (tn_flags p) + blen (tn_recs p)) (blen (tn_recs p))); [lia|done].
  - destruct (Z.ltb_spec (blen frag) (blen (tn_recs p))); [lia|done].
Qed.

Lemma parseTrun_exact p base running located defDur defSize w budget pre post :
  trun_ok defSize p → has (tn_flags p) trunDataOffset || located = true →
  frag = pre ++ datas p ++ post →
  blen pre = (if has (tn_flags p) trunDataOffset then base + tn_offset p else running) →
  blen (tn_recs p) ≤ budget →
  parseTrun onSample (trun_body p) base running located defDur defSize frag (w, budget) =
  Ok ((foldl accept w (samples_of (tn_flags p) defDur (tn_recs p)), budget - blen (tn_recs p)),
      inl (blen pre + blen (datas p), has (tn_flags p) trunDataOffset, false)).
Proof.
  intros Hok Hloc Hfrag Hpre Hb. pose proof Hok as (_ & _ & _ & _ & Hrecs).
  assert (Hcount : blen (tn_recs p) ≤ blen frag).
  { pose proof (blen_datas _ _ _ Hrecs). pose proof (blen_nonneg pre). pose proof (blen_nonneg post).
    rewrite Hfrag. unfold datas. blia. }
  destruct (trun_header_body p base running located defSize Hok Hloc Hcount) as (hdr & Eb & Eh).
  unfold parseTrun. rewrite (io_bind_pure _ _ _ _ Eh). cbv beta iota. rewrite <- Hpre, Eb.
  replace (Z.to_nat (blen (tn_recs p))) with (length (tn_recs p)) by (unfold blen; lia).
  rewrite (io_bind_ok _ _ _ _ _ (samples_loop_exact _ defDur defSize _ Hrecs hdr (tn_rest p) pre post w budget Hfrag Hb)).
  done.
Qed.

Definition trun_visit (base defDur defSize : Z) (_ : Z) (b : box) (s : (W * Z) * traf_state)
    : res no_err (((W * Z) * traf_state) * signal (@ferr E)) :=
  let '(w, t) := s in
  if negb (typ_is "trun" b) then mret (s, Continue)
  else
    '(w, r) ← parseTrun onSample (b_body b) base (tf_ptr t) (tf_located t) defDur defSize frag w;
    match r with
    | inr e => mret ((w, mkTraf (tf_ptr t) (tf_located t) (tf_short t) (Some e)), Stop)
    | inl (next, hadOffset, wasShort) =>
        let located := if (hadOffset : bool) then true else tf_located t in
        if (wasShort : bool) then mret ((w, mkTraf next located true (tf_err t)), Stop)
        else mret ((w, mkTraf next located (tf_short t) (tf_err t)), Continue)
    end.

Definition all_samples (defDur : Z) (ps : list trun_parts) : list Sample :=
  concat ((λ p, samples_of (tn_flags p) defDur (tn_recs p)) <$> ps).

Lemma visit_truns base defDur defSize bs : ∀ ps off w budget ptr located,
  b_body <$> List.filter (typ_is "trun") bs = trun_body <$> ps → Forall (trun_ok defSize) ps →
  placed frag base ptr located ps → blen (all_samples defDur ps) ≤ budget →
  ∃ ptr' located' budget', visit (trun_visit base defDur defSize) off bs ((w, budget), mkTraf ptr located false None) =
    Ok (((foldl accept w (all_samples defDur ps), budget'), mkTraf ptr' located' false None), None).
Proof.
  induction bs as [|b bs IH]; intros ps off w budget ptr located Hf Hok Hpl Hb.
  { symmetry in Hf. apply fmap_nil_inv in Hf as ->. by eexists _, _, _. }
  cbn [List.filter] in Hf. cbn [visit]. set (k := visit _). unfold trun_visit. subst k.
  destruct (typ_is "trun" b); cbn [negb]; [|rewrite bind_ret; by apply IH].
  destruct ps as [|p ps]; [done|]. rewrite !fmap_cons in Hf. injection Hf as Hbody Hf.
  apply Forall_cons_iff in Hok as [Hp Hok]. cbn [placed] in Hpl. cbv zeta in Hpl.
  destruct Hpl as (Hloc & (pre & post & Hfrag & Hpre) & Hpl).
  unfold all_samples in *. rewrite fmap_cons in *. cbn [concat] in *. rewrite blen_app in Hb.
  assert (Hn : blen (samples_of (tn_flags p) defDur (tn_recs p)) = blen (tn_recs p))
    by (unfold samples_of, blen; by rewrite length_fmap).
  pose proof (blen_nonneg (concat ((λ p, samples_of (tn_flags p) defDur (tn_recs p)) <$> ps))).
  rewrite Hbody. cbn [tf_ptr tf_located tf_short tf_err].
  rewrite (parseTrun_exact p base ptr located defDur defSize w budget pre post) by (done || lia).
  rewrite bind_Ok. cbv beta iota zeta. rewrite bind_ret. cbv beta iota.
  destruct (IH ps (off + blen (enc b)) (foldl accept w (samples_of (tn_flags p) defDur (tn_recs p)))
    (budget - blen (tn_recs p)) (blen pre + blen (datas p))
    (if has (tn_flags p) trunDataOffset then true else located)) as (ptr' & located' & budget' & Ev); [done|done| |lia|].
  - rewrite Hpre. assert (Hl : (if has (tn_flags p) trunDataOffset then true else located) = true)
      by (destruct (has (tn_flags p) trunDataOffset); [done|exact Hloc]). by rewrite Hl.
  - exists ptr', located', budget'. by rewrite Ev, foldl_app.
Qed.

(** The audio traf. *)
Record traf_is (traf : list Z) (moofStart : Z) (ai : AudioInit) (samples : list Sample) : Prop := {
  tf_boxes : ∃ tb p ps, traf = encs tb ∧ Forall box_ok tb ∧ find_box "tfhd" tb = Some (tfhd_body p) ∧ tfhd_ok p
    ∧ b_body <$> List.filter (typ_is "trun") tb = trun_body <$> ps
    ∧ let base := if has (th_flags p) tfhdBaseDataOffset then th_base p else moofStart in
      let dur := if has (th_flags p) tfhdDefaultDuration then th_dur p else 0 in
      let size := if has (th_flags p) tfhdDefaultSize then th_size p else 0 in
      let defDur := if dur =? 0 then DefaultDur ai else dur in
      let defSize := if size =? 0 then DefaultSize ai else size in
      Forall (trun_ok defSize) ps ∧ placed frag base base (has (th_flags p) tfhdBaseDataOffset) ps
      ∧ samples = all_samples defDur ps
}.

Lemma parseTraf_exact traf moofStart ai samples w budget :
  traf_is traf moofStart ai samples → blen samples ≤ budget →
  ∃ budget', parseTraf onSample traf moofStart frag ai (w, budget) = Ok ((foldl accept w samples, budget'), inl ()).
Proof.
  intros [(tb & p & ps & -> & Htb & Hfind & Hp & Hf & Hrest)] Hb. cbv zeta in Hrest.
  destruct Hrest as (Hok & Hpl & ->). unfold parseTraf.
  rewrite (io_bind_pure _ _ (Some (tfhd_body p))) by (rewrite firstChild_boxes by done; by rewrite Hfind).
  cbv beta iota. rewrite (io_bind_pure _ _ _ _ (parseTFHD_body p moofStart Hp)). cbv beta iota zeta.
  set (base := if has (th_flags p) tfhdBaseDataOffset then th_base p else moofStart) in *.
  set (dur := if has (th_flags p) tfhdDefaultDuration then th_dur p else 0) in *.
  set (size := if has (th_flags p) tfhdDefaultSize then th_size p else 0) in *.
  set (defDur := if dur =? 0 then DefaultDur ai else dur) in *.
  set (defSize := if size =? 0 then DefaultSize ai else size) in *.
  rewrite (eachBoxE_boxes _ _ (trun_visit base defDur defSize)); [|done|].
  - destruct (visit_truns base defDur defSize tb ps 0 w budget base _ Hf Hok Hpl Hb) as (ptr' & located' & budget' & ->).
    exists budget'. done.
  - intros pre b post [w0 t] Ed Hty. unfold trun_box, trun_visit.
    change (is_typ "trun" (span_at (blen pre) b)) with (typ_is "trun" b).
    destruct (typ_is "trun" b); [|done]. cbn [negb]. by rewrite Ed, body_enc, bind_Ok.
Qed.

Definition traf_visit (trackID : Z) (_ : Z) (b : box) (s : option (list Z) * option err)
    : res no_err ((option (list Z) * option err) * signal err) :=
  if negb (typ_is "traf" b) then mret (s, Continue)
  else
    r ← catch (firstChild (b_body b) "tfhd");
    match r with
    | inr e => mret ((s.1, Some e), Stop)
    | inl None => mret (s, Continue)
    | inl (Some tfhd) =>
        r ← catch (tfhdTrackID tfhd);
        match r with
        | inl (Some id) => if id =? trackID then mret ((Some (b_body b), s.2), Stop) else mret (s, Continue)
        | _ => mret (s, Continue)
        end
    end.

(** A traf of track [id]. *)
Definition traf_of (id : Z) (traf : list Z) : Prop :=
  ∃ tb p, traf = encs tb ∧ Forall box_ok tb ∧ find_box "tfhd" tb = Some (tfhd_body p) ∧ tfhd_ok p ∧ th_id p = id.

Lemma traf_visit_of off b id trackID s : typ_is "traf" b = true → traf_of id (b_body b) →
  traf_visit trackID off b s =
  Ok (if id =? trackID then ((Some (b_body b), s.2), Stop) else (s, Continue)).
Proof.
  intros Ht (tb & p & Eb & Hok & Hf & Hp & Hid). unfold traf_visit. rewrite Ht. cbn [negb].
  rewrite Eb at 1. rewrite firstChild_boxes, Hf by done. cbn [catch]. rewrite bind_Ok, (tfhdTrackID_body p Hp).
  cbn [catch]. rewrite bind_Ok, Hid. by destruct (id =? trackID).
Qed.

Lemma findAudioTraf_exact mf others t rest trackID : Forall box_ok mf →
  List.filter (typ_is "traf") mf = others ++ t :: rest →
  Forall (λ b, ∃ id, traf_of id (b_body b) ∧ id ≠ trackID) others → traf_of trackID (b_body t) →
  findAudioTraf (encs mf) trackID = Ok (Some (b_body t)).
Proof.
  intros Hok Hf Ho Ht. unfold findAudioTraf, eachBox.
  rewrite (eachBoxE_boxes _ _ (traf_visit trackID)); [|done|].
  - assert (H : ∀ off, visit (traf_visit trackID) off mf (None, None) = Ok ((Some (b_body t), None), None)); [|by rewrite H].
    clear Hok. revert others Hf Ho. induction mf as [|b mf IH]; intros others Hf Ho off; [by destruct others|].
    cbn [List.filter] in Hf. cbn [visit]. destruct (typ_is "traf" b) eqn:Et.
    + destruct Ho as [|x others (id & Hx & Hne) Ho]; cbn [app] in Hf; injection Hf as -> Hf.
      * rewrite (traf_visit_of off t trackID trackID _ Et Ht), Z.eqb_refl. done.
      * rewrite (traf_visit_of off x id trackID _ Et Hx). apply Z.eqb_neq in Hne as ->. rewrite bind_Ok.
        by apply (IH others).
    + assert (traf_visit trackID off b (None, None) = Ok ((None, None), Continue)) as ->.
      { unfold traf_visit. by rewrite Et. }
      rewrite bind_Ok. by apply (IH others).
  - intros pre b post s Ed Hty. unfold traf_box, traf_visit.
    change (is_typ "traf" (span_at (blen pre) b)) with (typ_is "traf" b).
    destruct (typ_is "traf" b); [|done]. cbn [negb]. by rewrite Ed, body_enc, bind_Ok.
Qed.

(** A fragment whose audio samples are [samples]. *)
Record fragment_is (ai : AudioInit) (samples : list Sample) : Prop := {
  fr_boxes : ∃ before large mf after others t rest,
    frag = encs (before ++ mkBox large (str "moof") (encs mf) :: after)
    ∧ Forall box_ok (before ++ mkBox large (str "moof") (encs mf) :: after)
    ∧ Forall (λ b, typ_is "moof" b = false) before ∧ Forall box_ok mf
    ∧ List.filter (typ_is "traf") mf = others ++ t :: rest
    ∧ Forall (λ b, ∃ id, traf_of id (b_body b) ∧ id ≠ TrackID ai) others
    ∧ traf_of (TrackID ai) (b_body t)
    ∧ traf_is (b_body t) (blen (encs before)) ai samples;
  fr_count : blen samples ≤ blen frag
}.

Lemma find_moof before large mf after :
  Forall box_ok (before ++ mkBox large (str "moof") mf :: after) →
  Forall (λ b, typ_is "moof" b = false) before →
  frag = encs (before ++ mkBox large (str "moof") mf :: after) →
  try (eachBox frag (moof_box frag) None) (λ moof, mret moof) = Ok (Some (blen (encs before), mf)).
Proof.
  intros Hok Hbf Hfrag. unfold eachBox. rewrite Hfrag at 1.
  rewrite (eachBoxE_boxes _ _ (λ off b s, if typ_is "moof" b then mret (Some (off, b_body b), Stop)
    else mret (s, Continue))); [|done|].
  - assert (H : ∀ off, visit (λ off b s, if typ_is "moof" b then mret (Some (off, b_body b), Stop)
      else mret (s, Continue)) off (before ++ mkBox large (str "moof") mf :: after) None =
      @Ok no_err _ (Some (off + blen (encs before), mf), @None err)); [|by rewrite H].
    clear Hok Hfrag. induction Hbf as [|b before Hb Hbf IH]; intros off; cbn [app visit].
    + cbn. by rewrite Z.add_0_r.
    + rewrite Hb, bind_ret, IH. do 4 f_equal. unfold encs. rewrite fmap_cons. cbn [concat]. blia.
  - intros pre b post s Ed Hty. unfold moof_box.
    change (is_typ "moof" (span_at (blen pre) b)) with (typ_is "moof" b).
    destruct (typ_is "moof" b); [|done]. by rewrite Hfrag, Ed, body_enc, bind_Ok.
Qed.

Lemma ParseFragment_exact ai samples w :
  fragment_is ai samples → ParseFragment onSample ai frag w = Ok (foldl accept w samples, None).
Proof.
  intros [(before & large & mf & after & others & t & rest & Hfrag & Hok & Hbf & Hmf & Hf & Ho & Ht & Htraf) Hcount].
  unfold ParseFragment. rewrite (io_bind_pure _ _ _ _ (find_moof _ _ _ _ Hok Hbf Hfrag)). cbv beta iota.
  rewrite (io_bind_pure _ _ _ _ (findAudioTraf_exact mf others t rest _ Hmf Hf Ho Ht)). cbv beta iota.
  destruct (parseTraf_exact _ _ _ _ w (blen frag) Htraf Hcount) as (budget' & ->). done.
Qed.
End exact.

End mp4.
