(* ===== verification/Fmp4.v ===== *)
(** * The fMP4 demuxer: [hlssource/fmp4demux.go]

    The initialization segment is parsed when the demuxer is made, each fragment into
    access units with their presentation durations.  [onAU] is modelled by the list of
    the access units handed to it, in order. *)
From Stdlib Require Import Ascii String.
From S2P Require Import Prelude Bytes MediaTime TsDemux Mp4.
From stdpp Require Import gmap.
Local Open Scope Z_scope.

Module fmp4.
Import mp4.

Record fmp4Demux := mkDemux { init : AudioInit; gaps : Z }.

Definition mapMP4Err (e : err) : tsdemux.err :=
  match e with
  | ErrUnsupportedSampleEntry => tsdemux.ErrUnsupportedCodec
  | _ => tsdemux.ErrMalformedSegment
  end.

Definition newFMP4Demux (initSeg : list Z) : res tsdemux.err fmp4Demux :=
  match ParseInit initSeg with
  | Ok ai => Ok (mkDemux ai 0)
  | Err e => Err (mapMP4Err e)
  | Panic => Panic
  end.

(** The callback of [demux]: it never returns an error. *)
Definition onSample (timescale : Z) (aus : list tsdemux.AU) (s : Sample) : list tsdemux.AU * option no_err :=
  (aus ++ [(Data s, mediatime.PTSFromSamples (Dur s) timescale)], None).

Definition demux (seg : list Z) (d : fmp4Demux)
    : res no_err (fmp4Demux * list tsdemux.AU * option tsdemux.err) :=
  '(aus, e) ← ParseFragment (onSample (Timescale (init d))) (init d) seg [];
  match e with
  | None => mret (d, aus, None)
  | Some (Own ErrShortMdat) => mret (mkDemux (init d) (u64 (gaps d + 1)), aus, None)
  | Some (Own e) => mret (d, aus, Some (mapMP4Err e))
  | Some (Caller e) => match (e : no_err) with end
  end.

Definition end_ (d : fmp4Demux) : fmp4Demux * list tsdemux.AU := (d, []).
Definition audioSpecificConfig (d : fmp4Demux) : list Z := ASC (init d).
Definition gapCount (d : fmp4Demux) : Z := gaps d.

(** The fragments of a session, until one of them fails. *)
Fixpoint demux_all (segs : list (list Z)) (d : fmp4Demux)
    : res no_err (fmp4Demux * list tsdemux.AU * option tsdemux.err) :=
  match segs with
  | [] => mret (d, [], None)
  | seg :: segs =>
      '(d, aus, e) ← demux seg d;
      match e with
      | Some _ => mret (d, aus, e)
      | None => '(d, aus', e) ← demux_all segs d; mret (d, aus ++ aus', e)
      end
  end.

(** ** Untrusted input *)
Record demux_ok (d : fmp4Demux) : Prop := {
  do_asc : ASC (init d) ≠ [];
  do_ts : 0 < Timescale (init d) ≤ MaxInt32;
  do_dur : is_u32 (DefaultDur (init d)); do_size : is_u32 (DefaultSize (init d))
}.

(** A delivered unit: a non-empty piece of the fragment, with the exact duration of a
    32-bit tick count. *)
Definition au_of (seg : list Z) (ts : Z) (au : tsdemux.AU) : Prop :=
  within au.1 seg ∧ au.1 ≠ [] ∧ ∃ ticks, is_u32 ticks ∧ au.2 = ticks * mediatime.Second / ts.

Lemma rate_ok ts : 0 < ts ≤ MaxInt32 → mediatime.rate_fits ts.
Proof. unfold mediatime.rate_fits, MaxInt32, mediatime.Second. lia. Qed.

Lemma ticks_exact ticks ts : is_u32 ticks → 0 < ts ≤ MaxInt32 →
  mediatime.PTSFromSamples ticks ts = ticks * mediatime.Second / ts.
Proof.
  intros Ht Hts. unfold is_u32 in Ht.
  rewrite mediatime.PTSFromSamples_exact; [|unfold is_u64; lia|by apply rate_ok].
  unfold mediatime.exact_pts. assert (ticks / ts ≤ ticks) by (apply Z.div_le_upper_bound; nia).
  destruct (Z.leb_spec mediatime.maxPTSSeconds (ticks / ts)); [|done].
  assert (mediatime.maxPTSSeconds = 9223372036) by done. lia.
Qed.

Section demux_rule.
Context (seg : list Z) (ts : Z).
Hypothesis Hts : 0 < ts ≤ MaxInt32.

Definition live (s : list tsdemux.AU * Z) : Prop :=
  Forall (au_of seg ts) s.1 ∧ 0 ≤ s.2 ∧ blen s.1 + s.2 = blen seg.
Definition ended (s : list tsdemux.AU * Z) (_ : option (@ferr no_err)) : Prop :=
  Forall (au_of seg ts) s.1 ∧ blen s.1 ≤ blen seg.

Lemma au_live_ended s e : live s → match e with Some (Caller _) => False | _ => True end → ended s e.
Proof. intros (H1 & H2 & H3) _. split; [done|lia]. Qed.

Lemma au_delivers_guarded x : sample_ok seg x →
  delivers live ended (guarded (onSample ts) x) (λ _, True).
Proof.
  intros (Hw & Hn & Hd) [out budget] (Hok & Hb & Hl). cbn [fst snd] in *. unfold guarded.
  destruct (Z.leb_spec budget 0); [by apply (au_live_ended (out, budget))|].
  unfold onSample. cbn [returns]. split; [|done]. split_and!; cbn [fst snd]; [|lia|blia].
  apply Forall_app_2; [done|]. apply Forall_cons_2; [|constructor].
  split_and!; [done|done|]. exists (Dur x). split; [done|]. by apply ticks_exact.
Qed.
End demux_rule.

Lemma fragment_returns seg d : demux_ok d → bytes_ok seg → ∃ d' aus e, demux seg d = Ok (d', aus, e) ∧ init d' = init d ∧
  (0 ≤ gapCount d < 2 ^ 64 - 1 → gapCount d ≤ gapCount d' ≤ gapCount d + 1) ∧ Forall (au_of seg (Timescale (init d))) aus ∧ blen aus ≤ blen seg.
Proof.
  intros [Hne Hts Hdu Hsz] Hs. unfold demux.
  destruct (ParseFragment_rule (onSample (Timescale (init d))) seg (live seg (Timescale (init d))) (ended seg (Timescale (init d)))
    (au_live_ended seg _) (au_delivers_guarded seg _ Hts) (init d) [] Hs Hdu Hsz) as (aus & e & -> & k & Hok & Hl).
  { split_and!; cbn [fst snd]; [constructor|apply blen_nonneg|by rewrite blen_nil]. }
  rewrite bind_Ok. cbv beta iota. unfold gapCount. destruct e as [[[]|[]]|]; eexists _, _, _; (split; [done|]);
    split_and!; try done; cbn [gaps]; try lia. intros Hg. rewrite u64_small by (unfold is_u64; lia). lia.
Qed.
Lemma newFMP4Demux_returns initSeg : bytes_ok initSeg →
  match newFMP4Demux initSeg with
  | Ok d => demux_ok d ∧ gapCount d = 0
  | Err e => e = tsdemux.ErrUnsupportedCodec ∨ e = tsdemux.ErrMalformedSegment
  | Panic => False
  end.
Proof.
  intros Hi. unfold newFMP4Demux. pose proof (ParseInit_returns initSeg Hi) as H.
  destruct (ParseInit initSeg) as [ai|e|]; cbn in H; [| |done].
  2: { destruct e; by (left + right). }
  destruct H as [[[Ha Hne] Hts0 Hid Hsz Hdu] Hts]. split; [by split|done].
Qed.

(** The fMP4 path is safe on untrusted bytes.  [newFMP4Demux] never panics, and a
    demuxer it returns has a non-empty AudioSpecificConfig and a positive timescale;
    then, whatever a fragment holds, [demux] returns: the units delivered, at most one
    per octet, are non-empty pieces of the fragment, each with the exact duration of
    its 32-bit tick count, and the demuxer changes in its gap count only. *)
Theorem fmp4_safe initSeg seg :
  bytes_ok initSeg → bytes_ok seg →
  match newFMP4Demux initSeg with
  | Ok d => demux_ok d ∧ gapCount d = 0
      ∧ ∃ d' aus e, demux seg d = Ok (d', aus, e)
          ∧ init d' = init d ∧ gapCount d ≤ gapCount d' ≤ gapCount d + 1
          ∧ Forall (au_of seg (Timescale (init d))) aus ∧ blen aus ≤ blen seg
  | Err e => e = tsdemux.ErrUnsupportedCodec ∨ e = tsdemux.ErrMalformedSegment
  | Panic => False
  end.
Proof.
  intros Hi Hs. pose proof (newFMP4Demux_returns initSeg Hi) as H. destruct (newFMP4Demux initSeg) as [d|e|]; [|done|done].
  destruct H as [Hd Hg]. split; [done|]. split; [done|]. destruct (fragment_returns seg d Hd Hs) as (d' & aus & e & E & H1 & H2 & H3).
  exists d', aus, e. rewrite Hg in H2. split; [done|]. split; [done|]. split; [rewrite Hg; apply H2; lia|done].
Qed.

Lemma foldl_onSample ts samples : ∀ aus,
  foldl (accept (onSample ts)) aus samples =
  aus ++ ((λ s, (Data s, mediatime.PTSFromSamples (Dur s) ts)) <$> samples).
Proof.
  induction samples as [|s samples IH]; intros aus; cbn; [by rewrite app_nil_r|].
  rewrite IH. unfold accept. cbn. by rewrite <- app_assoc.
Qed.

(** C6: the fMP4 path is exact.  From an initialization segment that describes an AAC
    track (boxes in any order and with 32-bit or 64-bit sizes, other tracks first,
    either version of the tkhd and mdhd, any optional field of the esds, a mvex or
    not) and fragments whose traf for that track carries samples (any combination of
    the optional tfhd and trun fields, several truns, other tracks' trafs first), the
    demuxer delivers exactly those samples, in order, each with the duration its ticks
    have at the track's timescale, and counts no gap. *)
Theorem fmp4_exact initSeg ai frags :
  describes initSeg ai → Forall (λ f, fragment_is f.1 ai f.2 ∧ Forall (λ s, is_u32 (Dur s)) f.2) frags →
  ∃ d, newFMP4Demux initSeg = Ok d ∧ audioSpecificConfig d = ASC ai ∧
    demux_all frags.*1 d =
      Ok (d, (λ s, (Data s, Dur s * mediatime.Second / Timescale ai)) <$> concat frags.*2, None) ∧
    gapCount d = 0.
Proof.
  intros Hi Hf. unfold newFMP4Demux. rewrite (ParseInit_describes _ _ Hi).
  eexists. split; [done|]. split; [done|]. split; [|done].
  induction Hf as [|[seg samples] frags [Hfr Hd] Hfs IH]; [done|]. cbn [fst snd] in *.
  rewrite !fmap_cons. cbn [demux_all concat fst snd].
  unfold demux. cbn [init]. rewrite (ParseFragment_exact (onSample (Timescale ai)) (λ _ _, eq_refl) seg ai samples [] Hfr).
  rewrite bind_Ok. cbv beta iota. rewrite bind_ret. cbv beta iota. rewrite IH, bind_Ok. cbv beta iota.
  rewrite foldl_onSample, fmap_app. cbn [app]. do 4 f_equal.
  apply list_fmap_ext. intros i s Hs. f_equal. apply ticks_exact; [|apply Hi].
  exact (Forall_lookup_1 _ _ _ _ Hd Hs).
Qed.

(** ** Examples *)
Definition B (t : string) (body : list Z) : box := mkBox false (str t) body.

Definition example_es : es_parts :=
  mkEs [0; 0; 0; 0] [0; 1] (Some [0; 2]) (Some [65]) None (repeat 0 12) (1%nat, 4%nat, 2%nat) ([6; 1; 2], [], []).
Definition example_asc : list Z := [18; 16].
Definition example_stsd : list Z :=
  repeat 0 8 ++ encs ([B "free" [1]] ++ mkBox true (str "mp4a") (repeat 0 28 ++ encs [B "esds" (esds_body example_es example_asc)]) :: []).
Definition example_mdia (handler : string) (ts : Z) (stsd : list Z) : list box :=
  [B "hdlr" (repeat 0 8 ++ str handler ++ [0]); B "minf" (encs [B "smhd" []; B "stbl" (encs [B "stsd" stsd])]);
   B "mdhd" (1 :: [0; 0; 0] ++ repeat 0 16 ++ be_split 4 ts ++ [])].
Definition example_trak (handler : string) (id ts : Z) (stsd : list Z) : list box :=
  [B "mdia" (encs (example_mdia handler ts stsd)); B "tkhd" (0 :: [0; 0; 0] ++ repeat 0 8 ++ be_split 4 id ++ [7])].
Definition example_trex (id dur size : Z) : box :=
  B "trex" (repeat 0 4 ++ be_split 4 id ++ repeat 0 4 ++ be_split 4 dur ++ be_split 4 size ++ []).
Definition example_moov : list box :=
  [B "trak" (encs (example_trak "vide" 1 90000 []));
   B "mvex" (encs [example_trex 1 3000 0; example_trex 2 1024 3]);
   B "trak" (encs (example_trak "soun" 2 44100 example_stsd))].
Definition example_init : list Z := encs [B "ftyp" (str "iso5"); mkBox true (str "moov") (encs example_moov)].
Definition example_ai : AudioInit := mkInit example_asc 44100 2 3 1024.

Definition example_trun1 (offset : Z) : trun_parts :=
  mkTrun 0 0x305 offset [0; 0; 0; 0]
    [mkRec 1024 [0; 0; 0; 0] [0; 0; 0; 0] [10; 11]; mkRec 512 [0; 0; 0; 0] [0; 0; 0; 0] [12; 13; 14; 15]] [].
Definition example_trun2 : trun_parts :=
  mkTrun 1 0x800 0 [0; 0; 0; 0] [mkRec 0 [0; 0; 0; 0] [0; 0; 0; 1] [16; 17; 18]] [].
Definition example_tfhd (id : Z) : tfhd_parts := mkTfhd 0 0x020002 id 0 [0; 0; 0; 1] 0 0 [].
Definition example_moof (offset : Z) : list box :=
  [B "mfhd" []; B "traf" (encs [B "tfhd" (tfhd_body (example_tfhd 1))]);
   B "traf" (encs [B "tfhd" (tfhd_body (example_tfhd 2)); B "trun" (trun_body (example_trun1 offset)); B "tfdt" [0];
                   B "trun" (trun_body example_trun2)])].
Definition example_before : list box := [B "styp" [1; 2; 3]].
Definition example_mdat : box := B "mdat" [10; 11; 12; 13; 14; 15; 16; 17; 18].
Definition example_offset : Z := blen (enc (mkBox true (str "moof") (encs (example_moof 0)))) + 8.
Definition example_frag : list Z :=
  encs (example_before ++ mkBox true (str "moof") (encs (example_moof example_offset)) :: [example_mdat]).
Definition example_samples : list Sample := [mkSample [10; 11] 1024; mkSample [12; 13; 14; 15] 512; mkSample [16; 17; 18] 1024].

Lemma str_typ t : String.length t = 4%nat → blen (str t) = 4.
Proof.
  intros H. unfold str, blen. rewrite length_fmap.
  assert (length (list_ascii_of_string t) = String.length t) as ->; [|by rewrite H].
  clear H. induction t; cbn; [done|lia].
Qed.

Ltac boxes_ok := repeat (apply Forall_cons_2; [split; by vm_compute|]); apply Forall_nil_2.

Lemma example_mdia_is (handler : string) ts stsd :
  String.length handler = 4%nat → is_u32 ts → Forall box_ok (example_mdia handler ts stsd) →
  Forall box_ok [B "smhd" []; B "stbl" (encs [B "stsd" stsd])] → Forall box_ok [B "stsd" stsd] →
  mdia_is (encs (example_mdia handler ts stsd)) (str handler) ts stsd.
Proof.
  intros Hh Hts H1 H2 H3. split.
  exists (example_mdia handler ts stsd), [B "smhd" []; B "stbl" (encs [B "stsd" stsd])], [B "stsd" stsd].
  eexists _, _. split_and!; try done.
  - exists 1, [0; 0; 0], (repeat 0 16), []. by split_and!.
  - exists (repeat 0 8), [0]. split_and!; [done|done|by apply str_typ].
Qed.

Lemma example_trak_is (handler : string) id ts stsd :
  String.length handler = 4%nat → is_u32 ts → is_u32 id → Forall box_ok (example_trak handler id ts stsd) →
  Forall box_ok (example_mdia handler ts stsd) →
  Forall box_ok [B "smhd" []; B "stbl" (encs [B "stsd" stsd])] → Forall box_ok [B "stsd" stsd] →
  trak_is (encs (example_trak handler id ts stsd)) id (str handler) ts stsd.
Proof.
  intros Hh Hts Hid H1 H2 H3 H4. split. eexists (example_trak handler id ts stsd), _, _. split; [done|].
  split; [done|]. split; [done|]. split; [|split; [done|by apply example_mdia_is]].
  exists 0, [0; 0; 0], (repeat 0 8), [7]. by split_and!.
Qed.

Lemma example_describes : describes example_init example_ai.
Proof.
  split; [|by vm_compute]. eexists _, example_moov, [_], _, [], example_stsd.
  split; [done|]. split; [boxes_ok|]. split; [done|]. split; [boxes_ok|]. split; [done|]. split.
  { apply Forall_cons_2; [|constructor]. exists 1, (str "vide"), 90000, []. split; [|by vm_compute].
    apply example_trak_is; [done|by vm_compute|by vm_compute|boxes_ok..]. }
  split; [apply example_trak_is; [done|by vm_compute|by vm_compute|boxes_ok..]|]. split.
  - exists (repeat 0 8), [B "free" [1]], true, (repeat 0 28), [B "esds" (esds_body example_es example_asc)], [], example_es.
    split; [done|]. split; [done|]. split; [done|]. split; [boxes_ok|]. split; [boxes_ok|].
    split; [by repeat constructor|]. split; [done|].
    unfold es_parts_ok. cbn [example_es e_k e_rest]. split_and!; first [done | lia].
  - exists [example_trex 1 3000 0], (example_trex 2 1024 3), []. split; [done|]. split; [boxes_ok|]. split.
    { split; [done|]. exists (repeat 0 4), (repeat 0 4), []. split_and!; by vm_compute. }
    split; [|constructor]. apply Forall_cons_2; [|constructor]. right. exists 1, 3000, 0.
    split; [done|]. exists (repeat 0 4), (repeat 0 4), []. split_and!; by vm_compute.
Qed.

Lemma example_rec_ok flags ds r :
  is_u32 (rc_dur r) → blen (rc_flags r) = 4 → blen (rc_cto r) = 4 → 0 < blen (rc_data r) < 2 ^ 32 →
  has flags trunSampleSize = true ∨ blen (rc_data r) = ds → rec_ok flags ds r.
Proof. intros ???? H. split_and!; try done; try lia. intros Hf. destruct H as [H|H]; [by rewrite H in Hf|done]. Qed.

Lemma example_trun1_ok offset : 0 ≤ offset < 1000 → trun_ok 3 (example_trun1 offset).
Proof.
  intros Ho. unfold trun_ok. cbn [example_trun1 tn_flags tn_offset tn_first tn_recs].
  split; [lia|]. split; [lia|]. split; [done|]. split; [done|].
  repeat (apply Forall_cons_2; [apply example_rec_ok; [by vm_compute|done|done|done|by left]|]). apply Forall_nil_2.
Qed.
Lemma example_trun2_ok : trun_ok 3 example_trun2.
Proof.
  unfold trun_ok. cbn [example_trun2 tn_flags tn_offset tn_first tn_recs].
  split; [lia|]. split; [lia|]. split; [done|]. split; [done|].
  apply Forall_cons_2; [apply example_rec_ok; [by vm_compute|done|done|done|by right]|]. apply Forall_nil_2.
Qed.
Lemma example_offset_range : 0 ≤ example_offset < 1000.
Proof. by vm_compute. Qed.

Lemma example_fragment : fragment_is example_frag example_ai example_samples.
Proof.
  split; [|by vm_compute].
  eexists example_before, true, (example_moof example_offset), [example_mdat], [_], _, []. split; [done|].
  split; [boxes_ok|]. split; [by repeat constructor|]. split; [boxes_ok|]. split; [done|].
  assert (Hth : ∀ id, is_u32 id → tfhd_ok (example_tfhd id)) by (intros id Hid; by split_and!).
  split.
  { apply Forall_cons_2; [|constructor]. exists 1. split; [|done]. eexists _, _. split; [done|].
    split; [boxes_ok|]. split; [done|]. split; [by apply Hth|done]. }
  split.
  { eexists _, _. split; [done|]. split; [boxes_ok|]. split; [done|]. split; [by apply Hth|done]. }
  split. eexists _, (example_tfhd 2), [example_trun1 example_offset; example_trun2]. split; [done|].
  split; [boxes_ok|]. split; [done|]. split; [by apply Hth|]. split; [done|].
  cbv zeta. split; [|split].
  - apply Forall_cons_2; [apply example_trun1_ok, example_offset_range|apply Forall_cons_2; [exact example_trun2_ok|constructor]].
  - cbn [placed]. cbv zeta. split; [done|]. split.
    { exists (take (Z.to_nat (blen (encs example_before) + example_offset)) example_frag), [16; 17; 18].
      split; by vm_compute. }
    split; [done|]. split; [|done].
    exists (take (Z.to_nat (blen (encs example_before) + example_offset + 6)) example_frag), [].
    split; by vm_compute.
  - by vm_compute.
Qed.

Lemma fmp4_exact_witness :
  ∃ d, newFMP4Demux example_init = Ok d ∧ audioSpecificConfig d = [18; 16] ∧
    demux_all [example_frag; example_frag] d = Ok (d,
      [([10; 11], 23219954); ([12; 13; 14; 15], 11609977); ([16; 17; 18], 23219954);
       ([10; 11], 23219954); ([12; 13; 14; 15], 11609977); ([16; 17; 18], 23219954)], None) ∧
    gapCount d = 0.
Proof.
  apply (fmp4_exact example_init example_ai [(example_frag, example_samples); (example_frag, example_samples)]).
  - exact example_describes.
  - repeat (apply Forall_cons_2; [split; [exact example_fragment|]|]); try apply Forall_nil_2;
      repeat (apply Forall_cons_2; [by vm_compute|]); apply Forall_nil_2.
Defined.

Lemma fmp4_safe_witness :
  match newFMP4Demux example_init with
  | Ok d => demux_ok d ∧ gapCount d = 0
      ∧ ∃ d' aus e, demux [0; 0; 0; 7; 109] d = Ok (d', aus, e)
          ∧ init d' = init d ∧ gapCount d ≤ gapCount d' ≤ gapCount d + 1
          ∧ Forall (au_of [0; 0; 0; 7; 109] (Timescale (init d))) aus ∧ blen aus ≤ blen [0; 0; 0; 7; 109]
  | Err e => e = tsdemux.ErrUnsupportedCodec ∨ e = tsdemux.ErrMalformedSegment
  | Panic => False
  end.
Proof.
  apply (fmp4_safe example_init [0; 0; 0; 7; 109]).
  - apply Forall_forall. intros x Hx.
    assert (H : forallb (λ x, (0 <=? x) && (x <? 256)) example_init = true) by (by vm_compute).
    rewrite forallb_forall in H. specialize (H x (proj1 (list_elem_of_In _ _) Hx)). apply andb_true_iff in H as [? ?]. unfold is_u8. lia.
  - repeat constructor; by vm_compute.
Defined.

End fmp4.
