(* ===== verification/G726.v ===== *)
(** * The G.726 ADPCM decoder: [depacket/g726/g726.go]

    The four ITU-T rates, both codeword packings, and the adaptive predictor.  Every
    int32 operation goes through a wrap [w]: [i32] is the program, the identity is the
    arithmetic the standard is written in, and the two agree on every reachable state. *)
From S2P Require Import Prelude Bytes.

Module g726.

Inductive err := ErrShortBuffer | ErrUnknownBitRate | ErrUnknownPacking | ErrIncompletePayload.

Record float11 := mkFloat { sign : Z; exp : Z; mant : Z }.

Definition int16Min : Z := -32768.

Record rateTable := mkRate { bits : Z; iquant : list Z; tw : list Z; tf : list Z }.

Definition rate16 : rateTable :=
  mkRate 2 [116; 365; 365; 116] [-22; 439; 439; -22] [0; 7; 7; 0].
Definition rate24 : rateTable :=
  mkRate 3 [int16Min; 135; 273; 373; 373; 273; 135; int16Min]
    [-4; 30; 137; 582; 582; 137; 30; -4] [0; 1; 2; 7; 7; 2; 1; 0].
Definition rate32 : rateTable :=
  mkRate 4 [int16Min; 4; 135; 213; 273; 323; 373; 425; 425; 373; 323; 273; 213; 135; 4; int16Min]
    [-12; 18; 41; 64; 112; 198; 355; 1122; 1122; 355; 198; 112; 64; 41; 18; -12]
    [0; 0; 0; 1; 1; 1; 3; 7; 7; 3; 1; 1; 1; 0; 0; 0].
Definition rate40 : rateTable :=
  mkRate 5
    [int16Min; -66; 28; 104; 169; 224; 274; 318; 358; 395; 429; 459; 488; 514; 539; 566;
     566; 539; 514; 488; 459; 429; 395; 358; 318; 274; 224; 169; 104; 28; -66; int16Min]
    [14; 14; 24; 39; 40; 41; 58; 100; 141; 179; 219; 280; 358; 440; 529; 696;
     696; 529; 440; 358; 280; 219; 179; 141; 100; 58; 41; 40; 39; 24; 14; 14]
    [0; 0; 0; 0; 0; 1; 1; 1; 1; 1; 2; 3; 4; 5; 6; 6;
     6; 6; 5; 4; 3; 2; 1; 1; 1; 1; 1; 0; 0; 0; 0; 0].

(** [rateTables], on the enumeration of [G726BitRate] (16, 24, 32, 40 kbit/s). *)
Definition rateTables (br : Z) : option rateTable :=
  if br =? 0 then Some rate16 else if br =? 1 then Some rate24
  else if br =? 2 then Some rate32 else if br =? 3 then Some rate40 else None.

Record Decoder := mkDecoder {
  rt : rateTable; msbFirst : bool;
  sr : list float11; dq : list float11; a : list Z; b : list Z; pk : list Z;
  ap : Z; yu : Z; yl : Z; dms : Z; dml : Z; td : Z; se : Z; sez : Z; y : Z
}.

Definition zero_float : float11 := mkFloat 0 0 32.

Definition Reset (d : Decoder) : Decoder :=
  mkDecoder (rt d) (msbFirst d) (repeat zero_float 2) (repeat zero_float 6) [0; 0] (repeat 0 6) [1; 1]
    0 544 34816 0 0 0 0 0 544.

(** [audiostream.G726PackingRFC3551] is 0, [audiostream.G726PackingAAL2] is 1. *)
Definition New (br packing : Z) : res err Decoder :=
  match rateTables br with
  | None => Err ErrUnknownBitRate
  | Some rt =>
      if (packing =? 0) || (packing =? 1) then
        Ok (Reset (mkDecoder rt (packing =? 1) [] [] [] [] [] 0 0 0 0 0 0 0 0 0))
      else Err ErrUnknownPacking
  end.

(** ** Arithmetic *)
Section arith.
Context (w : Z → Z).

Definition add (x z : Z) : Z := w (x + z).
Definition sub (x z : Z) : Z := w (x - z).
Definition mul (x z : Z) : Z := w (x * z).
Definition neg (x : Z) : Z := w (- x).
(** The shift counts are converted to [uint]. *)
Definition shl (x n : Z) : Z := w (Z.shiftl x (u64 n)).
Definition shr (x n : Z) : Z := Z.shiftr x (u64 n).

Definition sgn (v : Z) : Z := if v <? 0 then -1 else 1.
Definition clip (v lo hi : Z) : Z := if v <? lo then lo else if hi <? v then hi else v.
Definition clipIntp2 (v p : Z) : Z := clip v (neg (shl 1 p)) (sub (shl 1 p) 1).
Definition abs32 (v : Z) : Z := if v <? 0 then neg v else v.
(** [bits.Len32] of a 32-bit word. *)
Definition len32 (v : Z) : Z := if v =? 0 then 0 else Z.log2 v + 1.
Definition log2Of (v : Z) : Z := sub (len32 (u32 v)) 1.

Definition i2f (i : Z) : float11 :=
  let s := if i <? 0 then 1 else 0 in
  let i := if i <? 0 then neg i else i in
  if i =? 0 then mkFloat s 0 32
  else
    let e := add (log2Of i) 1 in
    mkFloat s e (shr (shl i 6) e).

Definition mult (f1 f2 : float11) : Z :=
  let e := add (exp f1) (exp f2) in
  let res := Z.shiftr (add (mul (mant f1) (mant f2)) 0x30) 4 in
  let res := if 19 <? e then shl res (sub e 19) else shr res (sub 19 e) in
  let res := if negb (Z.lxor (sign f1) (sign f2) =? 0) then neg res else res in
  i16 res.

Definition table {E} (t : list Z) (code : Z) : res E Z :=
  if code <? 0 then Panic else match t !! Z.to_nat code with Some v => Ok v | None => Panic end.

Definition inverseQuant (d : Decoder) (i : Z) : res no_err Z :=
  q ← table (iquant (rt d)) i;
  let dql := add q (Z.shiftr (y d) 2) in
  mret (if dql <? 0 then 0
        else
          let dex := Z.land (Z.shiftr dql 7) 0xF in
          let dqt := add 128 (Z.land dql 0x7F) in
          Z.shiftr (shl dqt dex) 7).

(** The transition detector. *)
Definition transition (d : Decoder) (dq : Z) : Z :=
  let ylint := Z.shiftr (yl d) 15 in
  let ylfrac := Z.land (Z.shiftr (yl d) 10) 0x1F in
  let thr2 := shl (add 0x20 ylfrac) ylint in
  let thr2 := if 9 <? ylint then 0x1F * 2 ^ 10 else thr2 in
  if (td d =? 1) && (Z.shiftr (mul 3 thr2) 2 <? dq) then 1 else 0.

(** The adaptation of the predictor coefficients: [a0], [a1] and [b]. *)
Definition adapt (d : Decoder) (tr pk0 dq0 : Z) : Z * Z * list Z :=
  let a0 := nth 0 (a d) 0 in let a1 := nth 1 (a d) 0 in
  let p0 := nth 0 (pk d) 0 in let p1 := nth 1 (pk d) 0 in
  if negb (tr =? 0) then (0, 0, repeat 0 6)
  else
    let fa1 := clipIntp2 (Z.shiftr (mul (mul (neg a0) p0) pk0) 5) 8 in
    let a1 := add a1 (sub (add (mul (mul 128 pk0) p1) fa1) (Z.shiftr a1 7)) in
    let a1 := clip a1 (-12288) 12288 in
    let a0 := add a0 (sub (mul (mul 192 pk0) p0) (Z.shiftr a0 8)) in
    let lim := sub 15360 a1 in
    let a0 := clip a0 (neg lim) lim in
    (a0, a1,
     zip_with (λ bi dqi, add bi (sub (mul (mul 128 dq0) (sgn (neg (sign dqi)))) (Z.shiftr bi 8))) (b d) (dq d)).

(** The speed control: [dms], [dml] and [ap]. *)
Definition speedControl (d : Decoder) (tr td' fc : Z) : Z * Z * Z :=
  let dms' := add (dms d) (add (shl fc 4) (Z.shiftr (neg (dms d)) 5)) in
  let dml' := add (dml d) (add (shl fc 4) (Z.shiftr (neg (dml d)) 7)) in
  (dms', dml',
   if negb (tr =? 0) then 256
   else
     let ap := add (ap d) (Z.shiftr (neg (ap d)) 4) in
     if (y d <=? 1535) || negb (td' =? 0) || (Z.shiftr dml' 3 <=? abs32 (sub (shl dms' 2) dml'))
     then add ap 0x20 else ap).

(** The quantizer scale factors and the one for the next sample: [yu], [yl] and [y]. *)
Definition scaleFactors (d : Decoder) (ap' wc : Z) : Z * Z * Z :=
  let yu' := clip (add (add (y d) wc) (Z.shiftr (neg (y d)) 5)) 544 5120 in
  let yl' := add (yl d) (add yu' (Z.shiftr (neg (yl d)) 6)) in
  let al := if 256 <=? ap' then 64 else Z.shiftr ap' 2 in
  (yu', yl', Z.shiftr (add yl' (mul (sub yu' (Z.shiftr yl' 6)) al)) 6).

(** The sum of the predictor's products. *)
Definition products (acc : Z) (cs : list Z) (hs : list float11) : Z :=
  fold_left (λ acc p, add acc (mult (i2f (Z.shiftr p.1 2)) p.2)) (zip cs hs) acc.

(** The predictor estimate for the next sample: [sez] and [se]. *)
Definition estimate (a b : list Z) (sr dq : list float11) : Z * Z :=
  let se := products 0 b dq in
  (Z.shiftr se 1, Z.shiftr (products se a sr) 1).

Definition decodeSample (code : Z) (d : Decoder) : res no_err (Z * Decoder) :=
  let sgn_ := Z.shiftr code (bits (rt d) - 1) in
  q ← inverseQuant d code;
  let tr := transition d q in
  let q := if negb (sgn_ =? 0) then neg q else q in
  let reSignal := i16 (add (se d) q) in
  let pk0 := if negb (add (sez d) q =? 0) then sgn (add (sez d) q) else 0 in
  let dq0 := if negb (q =? 0) then sgn q else 0 in
  let '(a0, a1, b') := adapt d tr pk0 dq0 in
  let pk' := [if negb (pk0 =? 0) then pk0 else 1; nth 0 (pk d) 0] in
  let sr' := i2f reSignal :: take 1 (sr d) in
  let f := i2f q in
  let dq' := mkFloat sgn_ (exp f) (mant f) :: take 5 (dq d) in
  let td' := if a1 <? -11776 then 1 else 0 in
  fc ← table (tf (rt d)) code;
  let '(dms', dml', ap') := speedControl d tr td' fc in
  wc ← table (tw (rt d)) code;
  let '(yu', yl', y') := scaleFactors d ap' wc in
  let '(sez', se') := estimate [a0; a1] b' sr' dq' in
  mret (i16 (clip (mul reSignal 4) (-0xFFFF) 0xFFFF),
        mkDecoder (rt d) (msbFirst d) sr' dq' [a0; a1] b' pk' ap' yu' yl' dms' dml' td' se' sez' y').
End arith.

(** ** The payload *)

(** [readCodewordLSB]: bits [i .. width-1] still to read. *)
Fixpoint read_lsb (n : nat) (payload : list Z) (pos i v : Z) : res no_err Z :=
  match n with
  | O => mret v
  | S n =>
      let g := pos + i in
      o ← byte_at payload (Z.shiftr g 3);
      let bit := Z.land (Z.shiftr o (Z.land g 7)) 1 in
      read_lsb n payload pos (i + 1) (Z.lor v (i32 (Z.shiftl bit i)))
  end.
Definition readCodewordLSB (payload : list Z) (pos width : Z) : res no_err Z :=
  read_lsb (Z.to_nat width) payload pos 0 0.

Fixpoint read_msb (n : nat) (payload : list Z) (pos i v : Z) : res no_err Z :=
  match n with
  | O => mret v
  | S n =>
      let g := pos + i in
      o ← byte_at payload (Z.shiftr g 3);
      let bit := Z.land (Z.shiftr o (7 - Z.land g 7)) 1 in
      read_msb n payload pos (i + 1) (Z.lor (i32 (Z.shiftl v 1)) bit)
  end.
Definition readCodewordMSB (payload : list Z) (pos width : Z) : res no_err Z :=
  read_msb (Z.to_nat width) payload pos 0 0.

(** The sample loop of [Decode], [n] samples from [k] on. *)
Fixpoint decode_loop (n : nat) (payload : list Z) (k pos : Z) (dst : list Z) (d : Decoder)
    : res no_err (list Z * Decoder) :=
  match n with
  | O => mret (dst, d)
  | S n =>
      code ← (if msbFirst d then readCodewordMSB payload pos (bits (rt d))
              else readCodewordLSB payload pos (bits (rt d)));
      '(s, d) ← decodeSample i32 code d;
      dst ← put_le16 dst (2 * k) (u16 s);
      decode_loop n payload (k + 1) (pos + bits (rt d)) dst d
  end.

Definition wholeCodewords (payload : list Z) (d : Decoder) : bool := (blen payload * 8) mod bits (rt d) =? 0.
Definition OutputLen (payload : list Z) (d : Decoder) : Z := 2 * (blen payload * 8 / bits (rt d)).

(** [Decode]: the octets written, the buffer, the decoder and the error. *)
Definition Decode (dst payload : list Z) (d : Decoder) : res no_err (Z * list Z * Decoder * option err) :=
  if blen payload =? 0 then mret (0, dst, d, None)
  else if negb (wholeCodewords payload d) then mret (0, dst, d, Some ErrIncompletePayload)
  else
    let nsamp := blen payload * 8 / bits (rt d) in
    let need := 2 * nsamp in
    if blen dst <? need then mret (0, dst, d, Some ErrShortBuffer)
    else '(dst, d) ← decode_loop (Z.to_nat nsamp) payload 0 0 dst d; mret (need, dst, d, None).

(** [DecodeAlloc]: the fresh buffer, or the error with no buffer. *)
Definition DecodeAlloc (payload : list Z) (d : Decoder) : res no_err ((list Z + err) * Decoder) :=
  if negb (wholeCodewords payload d) then mret (inr ErrIncompletePayload, d)
  else
    '(_, dst, d, e) ← Decode (repeat 0 (Z.to_nat (OutputLen payload d))) payload d;
    mret (match e with Some e => inr e | None => inl dst end, d).

(** ** The reachable states *)
Definition is_rate (r : rateTable) : Prop := r = rate16 ∨ r = rate24 ∨ r = rate32 ∨ r = rate40.
Definition is_code (r : rateTable) (code : Z) : Prop := 0 ≤ code < 2 ^ bits r.

Definition float_ok (f : float11) : Prop :=
  (sign f = 0 ∨ sign f = 1) ∧ 0 ≤ exp f ≤ 16 ∧ 0 ≤ mant f ≤ 63.

Record dec_ok (d : Decoder) : Prop := {
  ok_rt : is_rate (rt d);
  ok_sr : length (sr d) = 2%nat ∧ Forall float_ok (sr d);
  ok_dq : length (dq d) = 6%nat ∧ Forall float_ok (dq d);
  ok_a : ∃ a0 a1, a d = [a0; a1] ∧ - 27648 ≤ a0 ≤ 27648 ∧ - 12288 ≤ a1 ≤ 12288;
  ok_b : length (b d) = 6%nat ∧ Forall (λ x, - 32768 ≤ x ≤ 32768) (b d);
  ok_pk : ∃ p0 p1, pk d = [p0; p1] ∧ (p0 = 1 ∨ p0 = -1) ∧ (p1 = 1 ∨ p1 = -1);
  ok_ap : 0 ≤ ap d ≤ 512;
  ok_yu : 544 ≤ yu d ≤ 5120;
  ok_yl : 34816 ≤ yl d ≤ 327680;
  ok_dms : 0 ≤ dms d ≤ 3584;
  ok_dml : 0 ≤ dml d ≤ 14336;
  ok_td : td d = 0 ∨ td d = 1;
  ok_se : - 131072 ≤ se d ≤ 131072;
  ok_sez : - 131072 ≤ sez d ≤ 131072;
  ok_y : 544 ≤ y d ≤ 5120
}.

Lemma Reset_wf d : is_rate (rt d) → dec_ok (Reset d).
Proof.
  intros Hr. split; cbn; try lia; try done.
  - split; [done|]. repeat constructor; cbn; lia.
  - split; [done|]. repeat constructor; cbn; lia.
  - exists 0, 0. split; [done|lia].
  - split; [done|]. repeat constructor; lia.
  - exists 1, 1. split; [done|lia].
Qed.

Lemma New_wf br packing d : New br packing = Ok d → dec_ok d.
Proof.
  unfold New, rateTables. assert (H : ∀ r, is_rate r → (if (packing =? 0) || (packing =? 1) then
    Ok (Reset (mkDecoder r (packing =? 1) [] [] [] [] [] 0 0 0 0 0 0 0 0 0)) else Err ErrUnknownPacking) = Ok d → dec_ok d).
  { intros r Hr. destruct (_ || _); [|done]. intros [= <-]. by apply Reset_wf. }
  unfold is_rate in H. destruct (br =? 0); [apply H; tauto|]. destruct (br =? 1); [apply H; tauto|].
  destruct (br =? 2); [apply H; tauto|]. destruct (br =? 3); [apply H; tauto|done].
Qed.

(** The quantizer tables. *)
Lemma table_ok (P : Z → bool) {E} t n code : length t = Z.to_nat n → forallb P t = true → 0 ≤ code < n →
  ∃ v, @table E t code = Ok v ∧ P v = true.
Proof.
  intros Hl Hp Hc. unfold table. destruct (Z.ltb_spec code 0); [lia|].
  destruct (lookup_lt_is_Some_2 t (Z.to_nat code)) as [v Hv]; [lia|]. rewrite Hv. exists v. split; [done|].
  rewrite forallb_forall in Hp. apply Hp. apply list_elem_of_In. by eapply list_elem_of_lookup_2.
Qed.

Lemma rate_tables {E} r code : is_rate r → is_code r code →
  (∃ v, @table E (iquant r) code = Ok v ∧ -32768 ≤ v ≤ 566) ∧
  (∃ v, @table E (tw r) code = Ok v ∧ -22 ≤ v ≤ 1122) ∧
  (∃ v, @table E (tf r) code = Ok v ∧ 0 ≤ v ≤ 7) ∧
  (Z.shiftr code (bits r - 1) = 0 ∨ Z.shiftr code (bits r - 1) = 1) ∧ 2 ≤ bits r ≤ 5.
Proof.
  intros Hr Hc. unfold is_code in Hc.
  assert (Hi : ∃ v, @table E (iquant r) code = Ok v ∧ (-32768 <=? v) && (v <=? 566) = true).
  { destruct Hr as [->|[->|[->| ->]]];
      (eapply (table_ok (λ v, (-32768 <=? v) && (v <=? 566)) _ (2 ^ bits _)); [| |exact Hc]; by vm_compute). }
  assert (Hw : ∃ v, @table E (tw r) code = Ok v ∧ (-22 <=? v) && (v <=? 1122) = true).
  { destruct Hr as [->|[->|[->| ->]]];
      (eapply (table_ok (λ v, (-22 <=? v) && (v <=? 1122)) _ (2 ^ bits _)); [| |exact Hc]; by vm_compute). }
  assert (Hf : ∃ v, @table E (tf r) code = Ok v ∧ (0 <=? v) && (v <=? 7) = true).
  { destruct Hr as [->|[->|[->| ->]]];
      (eapply (table_ok (λ v, (0 <=? v) && (v <=? 7)) _ (2 ^ bits _)); [| |exact Hc]; by vm_compute). }
  destruct Hi as (vi & Hi & Hi'), Hw as (vw & Hw & Hw'), Hf as (vf & Hf & Hf').
  apply andb_true_iff in Hi' as [? ?], Hw' as [? ?], Hf' as [? ?].
  assert (Hb : 2 ≤ bits r ≤ 5) by (destruct Hr as [->|[->|[->| ->]]]; cbn; lia).
  split_and!; [exists vi; split; [done|lia]|exists vw; split; [done|lia]|exists vf; split; [done|lia]| |lia|lia].
  rewrite Z.shiftr_div_pow2 by lia.
  assert (0 ≤ code / 2 ^ (bits r - 1)) by (apply Z.div_pos; lia).
  assert (code / 2 ^ (bits r - 1) < 2); [|lia]. apply Z.div_lt_upper_bound; [lia|].
  replace (2 ^ (bits r - 1) * 2) with (2 ^ bits r); [lia|].
  rewrite Z.mul_comm, <- Z.pow_succ_r by lia. f_equal. lia.
Qed.

Lemma rate_bits d : dec_ok d → 2 ≤ bits (rt d) ≤ 5.
Proof. intros Hd. destruct (ok_rt d Hd) as [->|[->|[->| ->]]]; cbn; lia. Qed.

(** A wrap that keeps what fits 32 bits: the program's, and the identity. *)
Class Fits (w : Z → Z) := fits x : - 2 ^ 31 ≤ x < 2 ^ 31 → w x = x.
#[export] Instance fits_i32 : Fits i32 := i32_small.
#[export] Instance fits_id : Fits id := λ x _, eq_refl.

Ltac zdiv := rewrite ?Z.shiftr_div_pow2 in * by lia; Z.div_mod_to_equations; lia.

Section sound.
Context (w : Z → Z) `{!Fits w}.
Let W := fits (w := w).

Lemma i2f_ok i : - 32768 ≤ i ≤ 65535 → i2f w i = i2f id i ∧ float_ok (i2f id i) ∧
  (-8192 ≤ i ≤ 8192 → exp (i2f id i) ≤ 14).
Proof.
  intros Hi. unfold i2f. set (s := if i <? 0 then 1 else 0).
  assert (Hs : s = 0 ∨ s = 1) by (unfold s; destruct (i <? 0); lia).
  unfold neg. rewrite W by lia. change (id (- i)) with (- i).
  set (m := if i <? 0 then - i else i).
  assert (Hm : 0 ≤ m ≤ 65535) by (unfold m; destruct (Z.ltb_spec i 0); lia).
  assert (Hm8 : -8192 ≤ i ≤ 8192 → m ≤ 8192) by (unfold m; destruct (Z.ltb_spec i 0); lia). clearbody m s.
  destruct (Z.eqb_spec m 0); [split; [done|]; split; [split_and!; cbn; lia|cbn; lia]|].
  assert (Hlog : Z.log2 m < 16) by (apply Z.log2_lt_pow2; lia). pose proof (Z.log2_nonneg m).
  assert (HL : ∀ f, Fits f → log2Of f m = Z.log2 m).
  { intros f Hf. unfold log2Of, sub, len32. rewrite u32_small by (unfold is_u32; lia).
    destruct (Z.eqb_spec m 0); [lia|]. rewrite fits by lia. lia. }
  rewrite !HL by apply _. unfold add, shl, shr. rewrite (u64_small 6) by done.
  rewrite Z.shiftl_mul_pow2 by lia. change (2 ^ 6) with 64. rewrite !W by lia.
  unfold id. split; [done|]. rewrite u64_small by (unfold is_u64; lia).
  pose proof (Z.log2_spec m ltac:(lia)) as [Hlo Hhi]. rewrite Z.add_1_r.
  rewrite Z.shiftr_div_pow2 by lia.
  split; [|intros H8; cbn; assert (Z.log2 m < 14); [|lia]].
  - split_and!; cbn; [done|lia|lia| |].
    + apply Z.div_pos; [lia|apply Z.pow_pos_nonneg; lia].
    + assert (m * 64 / 2 ^ Z.succ (Z.log2 m) < 64); [|lia].
      apply Z.div_lt_upper_bound; [apply Z.pow_pos_nonneg; lia|nia].
  - destruct (Z.eq_dec m 8192) as [->|]; [by vm_compute|]. 
    assert (Z.log2 m < 13) by (apply Z.log2_lt_pow2; specialize (Hm8 H8); lia). lia.
Qed.

Lemma mult_ok f1 f2 : float_ok f1 → float_ok f2 → exp f1 ≤ 14 →
  mult w f1 f2 = mult id f1 f2 ∧ -32768 ≤ mult id f1 f2 ≤ 32767.
Proof.
  intros (Hs1 & He1 & Hm1) (Hs2 & He2 & Hm2) H14. unfold mult, add, mul, neg, sub.
  assert (0 ≤ mant f1 * mant f2 ≤ 3969) by nia.
  rewrite (W (mant f1 * mant f2)), (W (mant f1 * mant f2 + 0x30)), (W (exp f1 + exp f2)) by lia. unfold id.
  set (r := Z.shiftr (mant f1 * mant f2 + 0x30) 4).
  assert (Hr : 0 ≤ r ≤ 251) by (unfold r; zdiv).
  set (e := exp f1 + exp f2). assert (He : 0 ≤ e ≤ 30) by (unfold e; lia). clearbody r e.
  unfold shl, shr. rewrite (W (e - 19)), (W (19 - e)) by lia. destruct (Z.ltb_spec 19 e).
  - rewrite !(u64_small (e - 19)) by (unfold is_u64; lia). rewrite Z.shiftl_mul_pow2 by lia.
    assert (2 ^ (e - 19) ≤ 2 ^ 11) by (apply Z.pow_le_mono_r; lia).
    assert (0 < 2 ^ (e - 19)) by (apply Z.pow_pos_nonneg; lia).
    assert (0 ≤ r * 2 ^ (e - 19) ≤ 251 * 2 ^ 11) by nia.
    rewrite (W (r * 2 ^ (e - 19))), (W (- (r * 2 ^ (e - 19)))) by lia.
    split; [done|]. pose proof (i16_range (if negb (Z.lxor (sign f1) (sign f2) =? 0) then - (r * 2 ^ (e - 19))
      else r * 2 ^ (e - 19))). lia.
  - rewrite !(u64_small (19 - e)) by (unfold is_u64; lia).
    set (q := Z.shiftr r (19 - e)). assert (0 ≤ q ≤ 251).
    { unfold q. rewrite Z.shiftr_div_pow2 by lia. assert (0 < 2 ^ (19 - e)) by (apply Z.pow_pos_nonneg; lia).
      split; [apply Z.div_pos; lia|]. apply Z.div_le_upper_bound; nia. }
    rewrite W by lia. split; [done|]. pose proof (i16_range (if negb (Z.lxor (sign f1) (sign f2) =? 0) then - q else q)). lia.
Qed.

Lemma inverseQuant_ok d code : dec_ok d → is_code (rt d) code →
  ∃ q, inverseQuant w d code = Ok q ∧ inverseQuant id d code = Ok q ∧ 0 ≤ q ≤ 32640.
Proof.
  intros Hd Hc. destruct (rate_tables (E:=no_err) (rt d) code (ok_rt d Hd) Hc) as [(v & Hv & Hvr) _].
  pose proof (ok_y d Hd) as Hy. unfold inverseQuant. rewrite Hv, !bind_Ok. unfold add.
  assert (136 ≤ Z.shiftr (y d) 2 ≤ 1280) by zdiv. rewrite W by lia. unfold id.
  set (dql := v + Z.shiftr (y d) 2) in *. assert (Hdql : dql ≤ 1846) by lia. clearbody dql.
  destruct (Z.ltb_spec dql 0); [exists 0; by split_and!|].
  rewrite (land_ones_mod 4 (Z.shiftr dql 7)), (land_ones_mod 7 dql) by done.
  pose proof (Z.mod_pos_bound dql (2 ^ 7) ltac:(lia)). pose proof (Z.mod_pos_bound (Z.shiftr dql 7) (2 ^ 4) ltac:(lia)).
  assert (Hdex : 0 ≤ Z.shiftr dql 7 mod 2 ^ 4 ≤ 14).
  { split; [lia|]. assert (0 ≤ Z.shiftr dql 7 ≤ 14) by zdiv. rewrite Z.mod_small by lia. lia. }
  set (dex := Z.shiftr dql 7 mod 2 ^ 4) in *. rewrite W by lia. set (dqt := 128 + dql mod 2 ^ 7) in *.
  assert (Hdqt : 128 ≤ dqt ≤ 255) by lia. clearbody dex dqt. unfold shl.
  rewrite !(u64_small dex) by (unfold is_u64; lia). rewrite Z.shiftl_mul_pow2 by lia.
  assert (2 ^ dex ≤ 2 ^ 14) by (apply Z.pow_le_mono_r; lia). assert (0 < 2 ^ dex) by (apply Z.pow_pos_nonneg; lia).
  assert (0 ≤ dqt * 2 ^ dex ≤ 255 * 2 ^ 14) by nia. rewrite W by lia.
  eexists. split; [done|]. split; [done|]. set (p := dqt * 2 ^ dex) in *. clearbody p. zdiv.
Qed.

Lemma transition_ok d q : dec_ok d → transition w d q = transition id d q ∧ (transition id d q = 0 ∨ transition id d q = 1).
Proof.
  intros Hd. pose proof (ok_yl d Hd) as Hyl. unfold transition, shl, add, mul.
  assert (Hi : 1 ≤ Z.shiftr (yl d) 15 ≤ 10) by zdiv. set (ylint := Z.shiftr (yl d) 15) in *.
  rewrite (land_ones_mod 5) by done. pose proof (Z.mod_pos_bound (Z.shiftr (yl d) 10) (2 ^ 5) ltac:(lia)) as Hf.
  set (ylfrac := Z.shiftr (yl d) 10 mod 2 ^ 5) in *. clearbody ylint ylfrac.
  rewrite (u64_small ylint) by (unfold is_u64; lia). rewrite (W (0x20 + ylfrac)) by lia. unfold id.
  rewrite Z.shiftl_mul_pow2 by lia.
  assert (2 ^ ylint ≤ 2 ^ 10) by (apply Z.pow_le_mono_r; lia). assert (0 < 2 ^ ylint) by (apply Z.pow_pos_nonneg; lia).
  assert (0 ≤ (0x20 + ylfrac) * 2 ^ ylint ≤ 63 * 2 ^ 10) by nia. rewrite (W ((0x20 + ylfrac) * 2 ^ ylint)) by lia.
  set (thr2 := if 9 <? ylint then _ else _). assert (0 ≤ thr2 ≤ 63 * 2 ^ 10) by (unfold thr2; destruct (9 <? ylint); lia).
  rewrite W by lia. split; [done|]. destruct (_ && _); lia.
Qed.

(** Remove the innermost wraps whose argument the context bounds. *)
Ltac unwrap :=
  repeat match goal with
  | |- context [w ?x] =>
      lazymatch x with
      | context [w _] => fail
      | _ => rewrite (W x) by first [lia | nia]
      end
  end.

Definition unit_step (x : Z) : Prop := x = -1 ∨ x = 0 ∨ x = 1.

Lemma clip_range v lo hi : lo ≤ hi → lo ≤ clip v lo hi ≤ hi.
Proof. intros H. unfold clip. destruct (Z.ltb_spec v lo); [lia|]. destruct (Z.ltb_spec hi v); lia. Qed.

Lemma clipIntp2_ok v : clipIntp2 w v 8 = clipIntp2 id v 8 ∧ -256 ≤ clipIntp2 id v 8 ≤ 255.
Proof.
  unfold clipIntp2, neg, sub, shl. rewrite (u64_small 8) by done. change (Z.shiftl 1 8) with 256.
  unwrap. unfold id. split; [done|]. by apply clip_range.
Qed.

Lemma adapt_b dq0 bs fs : unit_step dq0 → Forall (λ x, - 32768 ≤ x ≤ 32768) bs →
  let step := λ (v : Z → Z) bi dqi, add v bi (sub v (mul v (mul v 128 dq0) (sgn (neg v (sign dqi)))) (Z.shiftr bi 8)) in
  Forall float_ok fs →
  zip_with (step w) bs fs = zip_with (step id) bs fs ∧
  Forall (λ x, - 32768 ≤ x ≤ 32768) (zip_with (step id) bs fs).
Proof.
  intros Hu Hb step Hf. revert fs Hf. induction Hb as [|bi bs Hbi Hb IH]; intros fs Hf; [split; [done|constructor]|].
  destruct Hf as [|f fs Hf Hfs]; [split; [done|constructor]|]. cbn [zip_with]. destruct (IH fs Hfs) as [-> Hr].
  assert (Hstep : step w bi f = step id bi f ∧ - 32768 ≤ step id bi f ≤ 32768).
  { unfold step, add, sub, mul, neg. destruct Hf as (Hs & _). assert (Hu' : dq0 = -1 ∨ dq0 = 0 ∨ dq0 = 1) by done.
    unwrap. set (sg := sgn (- sign f)). assert (Hsg : sg = 1 ∨ sg = -1) by (unfold sg, sgn; destruct (_ <? 0); lia).
    change (id (id (id 128 * dq0) * sgn (id (- sign f)))) with (128 * dq0 * sg). unfold id. fold sg.
    assert (Hp : 128 * dq0 * sg = -128 ∨ 128 * dq0 * sg = 0 ∨ 128 * dq0 * sg = 128) by (destruct Hu' as [->|[->| ->]], Hsg as [->| ->]; lia).
    set (p := 128 * dq0 * sg) in *. clearbody p. rewrite Z.shiftr_div_pow2 by lia. change (2 ^ 8) with 256.
    assert (-128 ≤ bi / 256 ≤ 128) by (Z.div_mod_to_equations; lia). unwrap. split; [done|].
    Z.div_mod_to_equations; lia. }
  destruct Hstep as [-> Hstep]. split; [done|]. by apply Forall_cons_2.
Qed.

Lemma adapt_ok d tr pk0 dq0 : dec_ok d → unit_step pk0 → unit_step dq0 →
  adapt w d tr pk0 dq0 = adapt id d tr pk0 dq0 ∧ ∃ a0 a1 b', adapt id d tr pk0 dq0 = (a0, a1, b')
    ∧ -27648 ≤ a0 ≤ 27648 ∧ -12288 ≤ a1 ≤ 12288 ∧ length b' = 6%nat ∧ Forall (λ x, - 32768 ≤ x ≤ 32768) b'.
Proof.
  intros Hd Hp Hq. destruct (ok_a d Hd) as (a0 & a1 & Ha & Ha0 & Ha1).
  destruct (ok_pk d Hd) as (p0 & p1 & Hpk & Hp0 & Hp1). destruct (ok_b d Hd) as [Hlb Hb].
  destruct (ok_dq d Hd) as [Hlq Hfq]. destruct (adapt_b dq0 (b d) (dq d) Hq Hb Hfq) as [Ezip Hzip].
  unfold adapt. rewrite Ha, Hpk. cbn [nth]. rewrite Ezip. destruct (negb (tr =? 0)).
  { split; [done|]. exists 0, 0, (repeat 0 6). split_and!; try done; try lia. repeat constructor; lia. }
  assert (Hpp : p0 * pk0 = -1 ∨ p0 * pk0 = 0 ∨ p0 * pk0 = 1) by (destruct Hp as [->|[->| ->]], Hp0 as [->| ->]; lia).
  assert (Hpq : pk0 * p1 = -1 ∨ pk0 * p1 = 0 ∨ pk0 * p1 = 1) by (destruct Hp as [->|[->| ->]], Hp1 as [->| ->]; lia).
  assert (Hpr : pk0 * p0 = p0 * pk0) by lia.
  unfold add, sub, mul, neg.
  assert (Hw1 : w (w (w (- a0) * p0) * pk0) = - a0 * p0 * pk0).
  { rewrite (W (- a0)) by lia. rewrite (W (- a0 * p0)) by (destruct Hp0 as [->| ->]; lia).
    apply W. replace (- a0 * p0 * pk0) with (- a0 * (p0 * pk0)) by lia. destruct Hpp as [->|[->| ->]]; lia. }
  rewrite Hw1. change (id (id (id (- a0) * p0) * pk0)) with (- a0 * p0 * pk0).
  destruct (clipIntp2_ok (Z.shiftr (- a0 * p0 * pk0) 5)) as [-> Hfa]. set (fa1 := clipIntp2 id _ 8) in *. clearbody fa1.
  assert (Hw2 : w (w (128 * pk0) * p1) = 128 * pk0 * p1).
  { rewrite (W (128 * pk0)) by (destruct Hp as [->|[->| ->]]; lia). apply W.
    rewrite <- Z.mul_assoc. destruct Hpq as [->|[->| ->]]; lia. }
  assert (Hr2 : -128 ≤ 128 * pk0 * p1 ≤ 128) by (rewrite <- Z.mul_assoc; destruct Hpq as [->|[->| ->]]; lia).
  assert (Hw3 : w (w (192 * pk0) * p0) = 192 * pk0 * p0).
  { rewrite (W (192 * pk0)) by (destruct Hp as [->|[->| ->]]; lia). apply W.
    rewrite <- Z.mul_assoc, Hpr. destruct Hpp as [->|[->| ->]]; lia. }
  assert (Hr3 : -192 ≤ 192 * pk0 * p0 ≤ 192) by (rewrite <- Z.mul_assoc, Hpr; destruct Hpp as [->|[->| ->]]; lia).
  rewrite Hw2, Hw3. change (id (id (128 * pk0) * p1)) with (128 * pk0 * p1).
  change (id (id (192 * pk0) * p0)) with (192 * pk0 * p0).
  set (u := 128 * pk0 * p1) in *. set (v := 192 * pk0 * p0) in *. clearbody u v.
  assert (-96 ≤ Z.shiftr a1 7 ≤ 96) by zdiv. assert (-108 ≤ Z.shiftr a0 8 ≤ 108) by zdiv.
  set (s1 := Z.shiftr a1 7) in *. set (s0 := Z.shiftr a0 8) in *. clearbody s1 s0. unwrap. unfold id.
  pose proof (clip_range (a1 + (u + fa1 - s1)) (-12288) 12288 ltac:(lia)) as Hc1.
  set (a1' := clip (a1 + (u + fa1 - s1)) (-12288) 12288) in *. clearbody a1'. unwrap.
  split; [done|]. eexists _, _, _. split; [done|].
  pose proof (clip_range (a0 + (v - s0)) (- (15360 - a1')) (15360 - a1') ltac:(lia)).
  split_and!; try lia; [|exact Hzip]. rewrite length_zip_with. rewrite Hlb, Hlq. done.
Qed.

Lemma products_ok cs hs : Forall (λ x, - 32768 ≤ x ≤ 32768) cs → Forall float_ok hs →
  ∀ acc n, - n ≤ acc ≤ n → n + 32768 * Z.of_nat (length cs) < 2 ^ 31 →
  products w acc cs hs = products id acc cs hs ∧
  - (n + 32768 * Z.of_nat (length cs)) ≤ products id acc cs hs ≤ n + 32768 * Z.of_nat (length cs).
Proof.
  intros Hc. revert hs. induction Hc as [|c cs Hc Hcs IH]; intros hs Hh acc n Hacc Hn.
  { unfold products. cbn. split; [done|lia]. }
  destruct Hh as [|h hs Hh Hhs]; [unfold products; cbn; split; [done|lia]|].
  unfold products in *. cbn [zip zip_with fold_left fst snd length] in *.
  assert (Hs : -8192 ≤ Z.shiftr c 2 ≤ 8192) by zdiv.
  destruct (i2f_ok (Z.shiftr c 2)) as (-> & Hf & H14); [lia|].
  destruct (mult_ok _ h Hf Hh (H14 Hs)) as [-> Hm]. set (m := mult id _ h) in *. clearbody m.
  assert (Hw : add w acc m = acc + m) by (unfold add; by unwrap). rewrite Hw.
  change (add id acc m) with (acc + m).
  destruct (IH hs Hhs (acc + m) (n + 32768)) as [-> Hr]; [lia|lia|]. split; [done|]. lia.
Qed.

Lemma sgn_unit (c : bool) v : unit_step (if c then sgn v else 0).
Proof. unfold sgn, unit_step. destruct c; [|lia]. destruct (v <? 0); lia. Qed.

(** The speed control and the scale factors. *)
Lemma decay_ok x g n k : 0 ≤ n ≤ 8 → 0 ≤ x ≤ 2 ^ n * k → 0 ≤ g ≤ k → 2 ^ n * k < 2 ^ 29 →
  add w x (add w g (Z.shiftr (neg w x) n)) = x + (g + Z.shiftr (- x) n) ∧
  0 ≤ x + (g + Z.shiftr (- x) n) ≤ 2 ^ n * k.
Proof.
  intros Hn Hx Hg Hk. unfold add, neg. assert (0 < 2 ^ n) by (apply Z.pow_pos_nonneg; lia).
  rewrite (W (- x)) by lia. rewrite Z.shiftr_div_pow2 by lia.
  set (m := 2 ^ n) in *. clearbody m. assert (Hq : - x ≤ m * (- x / m) + (m - 1) ∧ m * (- x / m) ≤ - x).
  { pose proof (Z.mul_div_le (- x) m ltac:(lia)). pose proof (Z.mod_pos_bound (- x) m ltac:(lia)).
    pose proof (Z.div_mod (- x) m ltac:(lia)). lia. }
  assert (- x ≤ - x / m) by (apply Z.div_le_lower_bound; nia).
  assert (- x / m ≤ 0) by (apply Z.div_le_upper_bound; nia).
  assert (k < 2 ^ 29) by nia. set (q := - x / m) in *. clearbody q. rewrite (W (g + q)) by lia. rewrite (W (x + (g + q))) by lia.
  split; [done|]. nia.
Qed.

Lemma speedControl_ok d tr td' fc : dec_ok d → 0 ≤ fc ≤ 7 →
  speedControl w d tr td' fc = speedControl id d tr td' fc ∧
  ∃ m l p, speedControl id d tr td' fc = (m, l, p) ∧ 0 ≤ m ≤ 3584 ∧ 0 ≤ l ≤ 14336 ∧ 0 ≤ p ≤ 512.
Proof.
  intros Hd Hfc. pose proof (ok_dms d Hd) as Hm. pose proof (ok_dml d Hd) as Hl. pose proof (ok_ap d Hd) as Hp.
  unfold speedControl. unfold shl. rewrite !(u64_small 4), !(u64_small 2) by done.
  rewrite (Z.shiftl_mul_pow2 fc) by lia. change (2 ^ 4) with 16. rewrite (W (fc * 16)) by lia.
  change (id (fc * 16)) with (fc * 16).
  destruct (decay_ok (dms d) (fc * 16) 5 112) as [-> Hm']; [lia..|].
  destruct (decay_ok (dml d) (fc * 16) 7 112) as [-> Hl']; [lia..|].
  change (add id (dms d) (add id (fc * 16) (Z.shiftr (neg id (dms d)) 5))) with (dms d + (fc * 16 + Z.shiftr (- dms d) 5)).
  change (add id (dml d) (add id (fc * 16) (Z.shiftr (neg id (dml d)) 7))) with (dml d + (fc * 16 + Z.shiftr (- dml d) 7)).
  set (m := dms d + _) in *. set (l := dml d + _) in *. clearbody m l.
  rewrite (Z.shiftl_mul_pow2 m) by lia. unfold sub, abs32, neg. change (2 ^ 2) with 4.
  rewrite (W (m * 4)) by lia. rewrite (W (m * 4 - l)), (W (- (m * 4 - l))), (W (- ap d)) by lia. unfold add.
  assert (-32 ≤ Z.shiftr (- ap d) 4 ≤ 0 ∧ 0 ≤ ap d + Z.shiftr (- ap d) 4 ≤ 480) as [? ?] by zdiv.
  rewrite (W (ap d + Z.shiftr (- ap d) 4)) by lia. rewrite (W (ap d + Z.shiftr (- ap d) 4 + 0x20)) by lia.
  unfold id. split; [done|]. do 3 eexists. split; [done|]. split_and!; try lia; destruct (negb _); try lia; case_match; lia.
Qed.

Lemma scaleFactors_ok d ap' wc : dec_ok d → 0 ≤ ap' ≤ 512 → -22 ≤ wc ≤ 1122 →
  scaleFactors w d ap' wc = scaleFactors id d ap' wc ∧
  ∃ u l v, scaleFactors id d ap' wc = (u, l, v) ∧ 544 ≤ u ≤ 5120 ∧ 34816 ≤ l ≤ 327680 ∧ 544 ≤ v ≤ 5120.
Proof.
  intros Hd Hap Hwc. pose proof (ok_y d Hd) as Hy. pose proof (ok_yl d Hd) as Hl.
  unfold scaleFactors. assert (Hs : -160 ≤ Z.shiftr (- y d) 5 ≤ 0) by zdiv.
  assert (Hc : add w (add w (y d) wc) (Z.shiftr (neg w (y d)) 5) = y d + wc + Z.shiftr (- y d) 5).
  { unfold add, neg. by unwrap. }
  rewrite Hc. change (add id (add id (y d) wc) (Z.shiftr (neg id (y d)) 5)) with (y d + wc + Z.shiftr (- y d) 5).
  pose proof (clip_range (y d + wc + Z.shiftr (- y d) 5) 544 5120 ltac:(lia)) as Hu.
  set (u := clip _ _ _) in *. clearbody u.
  destruct (decay_ok (yl d) u 6 5120) as [-> Hl']; [lia..|].
  change (add id (yl d) (add id u (Z.shiftr (neg id (yl d)) 6))) with (yl d + (u + Z.shiftr (- yl d) 6)).
  assert (Hlo : 34816 ≤ yl d + (u + Z.shiftr (- yl d) 6)) by zdiv.
  set (l := yl d + _) in *. clearbody l.
  set (al := if 256 <=? ap' then 64 else Z.shiftr ap' 2).
  assert (Hal : 0 ≤ al ≤ 64) by (unfold al; destruct (Z.leb_spec 256 ap'); [lia|zdiv]). clearbody al.
  assert (Hq : 544 ≤ Z.shiftr l 6 ≤ 5120 ∧ 64 * Z.shiftr l 6 ≤ l ≤ 64 * Z.shiftr l 6 + 63) by zdiv.
  set (q := Z.shiftr l 6) in *. clearbody q. unfold add, mul, sub.
  rewrite (W (u - q)) by lia. rewrite (W ((u - q) * al)) by nia. rewrite (W (l + (u - q) * al)) by nia.
  unfold id. split; [done|]. do 3 eexists. split; [done|]. split_and!; try lia.
  - assert (544 * 64 ≤ l + (u - q) * al) by nia. set (z := l + _) in *. clearbody z. zdiv.
  - assert (l + (u - q) * al ≤ 5120 * 64 + 63) by nia. set (z := l + _) in *. clearbody z. zdiv.
Qed.

Lemma estimate_ok av bv sv qv : length av = 2%nat → Forall (λ x, - 32768 ≤ x ≤ 32768) av → length bv = 6%nat →
  Forall (λ x, - 32768 ≤ x ≤ 32768) bv → Forall float_ok sv → Forall float_ok qv →
  estimate w av bv sv qv = estimate id av bv sv qv ∧
  ∃ z s, estimate id av bv sv qv = (z, s) ∧ - 131072 ≤ z ≤ 131072 ∧ - 131072 ≤ s ≤ 131072.
Proof.
  intros Hla Ha Hlb Hb Hs Hq. unfold estimate.
  destruct (products_ok bv qv Hb Hq 0 0) as [-> Hr1]; [lia|rewrite Hlb; lia|]. rewrite Hlb in Hr1.
  destruct (products_ok av sv Ha Hs (products id 0 bv qv) 196608) as [-> Hr2]; [lia|rewrite Hla; lia|]. rewrite Hla in Hr2.
  split; [done|]. do 2 eexists. split; [done|]. set (x := products id 0 _ _) in *. set (z := products id x _ _) in *.
  clearbody x z. split; zdiv.
Qed.

Lemma decodeSample_ok code d : dec_ok d → is_code (rt d) code →
  ∃ s d', decodeSample w code d = Ok (s, d') ∧ decodeSample id code d = Ok (s, d') ∧ dec_ok d'
    ∧ -32768 ≤ s ≤ 32767 ∧ rt d' = rt d ∧ msbFirst d' = msbFirst d.
Proof.
  intros Hd Hc.
  destruct (rate_tables (E:=no_err) (rt d) code (ok_rt d Hd) Hc) as (_ & (vw & Hvw & Hwr) & (vf & Hvf & Hfr) & Hsg & Hbits).
  destruct (inverseQuant_ok d code Hd Hc) as (q0 & Eq1 & Eq2 & Hq0).
  destruct (transition_ok d q0 Hd) as [Etr Htr].
  pose proof (ok_se d Hd) as Hse. pose proof (ok_sez d Hd) as Hsez. pose proof (ok_y d Hd) as Hy.
  pose proof (ok_yl d Hd) as Hyl. pose proof (ok_ap d Hd) as Hap.
  unfold decodeSample. rewrite Eq1, Eq2, !bind_Ok, Etr.
  set (tr := transition id d q0) in *. clearbody tr. set (sg := Z.shiftr code (bits (rt d) - 1)) in *. clearbody sg.
  assert (Eneg : neg w q0 = - q0 ∧ neg id q0 = - q0) by (unfold neg; split; [unwrap|]; done).
  destruct Eneg as [-> ->]. set (q := if negb (sg =? 0) then - q0 else q0).
  assert (Hq : - 32640 ≤ q ≤ 32640) by (unfold q; destruct (negb _); lia). clearbody q.
  assert (Ea : add w (se d) q = se d + q ∧ add w (sez d) q = sez d + q) by (unfold add; split; unwrap; done).
  destruct Ea as [-> ->]. change (add id (se d) q) with (se d + q). change (add id (sez d) q) with (sez d + q).
  pose proof (i16_range (se d + q)) as Hre. set (re := i16 (se d + q)) in *. clearbody re.
  set (pk0 := if negb (sez d + q =? 0) then sgn (sez d + q) else 0).
  assert (Hpk0 : unit_step pk0) by apply sgn_unit.
  set (dq0 := if negb (q =? 0) then sgn q else 0).
  assert (Hdq0 : unit_step dq0) by apply sgn_unit.
  destruct (adapt_ok d tr pk0 dq0 Hd Hpk0 Hdq0) as [-> (a0 & a1 & b' & -> & Ha0 & Ha1 & Hlb & Hb)].
  rewrite Hvf, !bind_Ok. match goal with |- context [speedControl _ _ _ ?t _] => set (td' := t) end.
  assert (Htd : td' = 0 ∨ td' = 1) by (unfold td'; destruct (a1 <? _); lia). clearbody td'.
  destruct (speedControl_ok d tr td' vf Hd Hfr) as [-> (m & l & p & -> & Hm & Hl & Hp)]. rewrite Hvw, !bind_Ok.
  destruct (scaleFactors_ok d p vw Hd Hp Hwr) as [-> (u & l' & v & -> & Hu & Hl' & Hv)].
  destruct (i2f_ok re) as (-> & Hfre & _); [lia|]. destruct (i2f_ok q) as (-> & Hfq & _); [lia|].
  destruct (ok_sr d Hd) as [Hlsr Hsr]. destruct (ok_dq d Hd) as [Hldq Hdq].
  set (sr' := i2f id re :: take 1 (sr d)).
  assert (Hsr' : length sr' = 2%nat ∧ Forall float_ok sr').
  { unfold sr'. split; [cbn; rewrite length_take; lia|]. apply Forall_cons_2; [done|]. by apply Forall_take. }
  set (dq' := mkFloat sg (exp (i2f id q)) (mant (i2f id q)) :: take 5 (dq d)).
  assert (Hdq' : length dq' = 6%nat ∧ Forall float_ok dq').
  { unfold dq'. split; [cbn; rewrite length_take; lia|]. apply Forall_cons_2; [|by apply Forall_take].
    destruct Hfq as (_ & ? & ?). split_and!; cbn; lia. }
  clearbody sr' dq'. destruct Hsr' as [? Hsr'], Hdq' as [? Hdq'].
  destruct (estimate_ok [a0; a1] b' sr' dq') as [-> (z & s' & -> & Hz & Hs')]; try done.
  { apply Forall_cons_2; [lia|]. apply Forall_cons_2; [lia|constructor]. }
  assert (Eo : mul w re 4 = re * 4) by (unfold mul; by unwrap). rewrite Eo. change (mul id re 4) with (re * 4).
  eexists _, _. split; [reflexivity|]. split; [reflexivity|].
  pose proof (i16_range (clip (re * 4) (-0xFFFF) 0xFFFF)). split_and!; try lia; try done.
  destruct (ok_pk d Hd) as (p0 & p1 & Epk & Hp0 & _). rewrite Epk. cbn [nth].
  split; cbn; try done; try (apply (ok_rt d Hd)).
  - exists a0, a1. done.
  - eexists _, _. split; [done|]. split; [|done]. destruct Hpk0 as [->|[->| ->]]; cbn; lia.
Qed.

End sound.

(** ** The codewords of a payload *)

(** The bit transmitted at position [g]: octet bit 0 first, or octet bit 7 first. *)
Definition wire_bit (msb : bool) (payload : list Z) (g : Z) : bool :=
  Z.testbit (nth (Z.to_nat (g / 8)) payload 0) (if msb then 7 - g mod 8 else g mod 8).

(** [c] is the codeword transmitted from [pos] on, its bits in transmission order. *)
Definition carries_at (msb : bool) (width : Z) (payload : list Z) (pos c : Z) : Prop :=
  0 ≤ c < 2 ^ width ∧
  ∀ i, 0 ≤ i < width → wire_bit msb payload (pos + i) = Z.testbit c (if msb then width - 1 - i else i).

Fixpoint carries_from (msb : bool) (width : Z) (payload : list Z) (pos : Z) (cs : list Z) : Prop :=
  match cs with
  | [] => True
  | c :: cs => carries_at msb width payload pos c ∧ carries_from msb width payload (pos + width) cs
  end.

(** The payload is the codewords [cs] and nothing else. *)
Definition carries (msb : bool) (width : Z) (payload cs : list Z) : Prop :=
  blen payload * 8 = width * blen cs ∧ carries_from msb width payload 0 cs.

Definition readCodeword (msb : bool) (payload : list Z) (pos width : Z) : res no_err Z :=
  if msb then readCodewordMSB payload pos width else readCodewordLSB payload pos width.

Lemma wire_octet payload g : bytes_ok payload → 0 ≤ g < 8 * blen payload →
  ∃ o, byte_at (E:=no_err) payload (Z.shiftr g 3) = Ok o ∧
    Z.land (Z.shiftr o (Z.land g 7)) 1 = Z.b2z (wire_bit false payload g) ∧
    Z.land (Z.shiftr o (7 - Z.land g 7)) 1 = Z.b2z (wire_bit true payload g).
Proof.
  intros Hb Hg. rewrite (land_ones_mod 3 g) by done. rewrite Z.shiftr_div_pow2 by lia. change (2 ^ 3) with 8.
  assert (Hi : 0 ≤ g / 8 < blen payload) by (Z.div_mod_to_equations; lia).
  destruct (@byte_at_inside no_err payload (g / 8) Hi) as (o & Ho & Hl). exists o. split; [done|].
  pose proof (Z.mod_pos_bound g 8 ltac:(lia)).
  unfold wire_bit. rewrite (nth_lookup_Some _ _ _ _ Hl).
  rewrite !(land_ones_mod 1) by done. change (2 ^ 1) with 2.
  rewrite <- !Z.bit0_mod, !Z.shiftr_spec by lia. by rewrite !Z.add_0_l.
Qed.

(** A value below [2 ^ i] with bit [i] set from [t]. *)
Lemma lor_high v i t : 0 ≤ i → 0 ≤ v < 2 ^ i →
  Z.lor v (Z.shiftl (Z.b2z t) i) = v + Z.b2z t * 2 ^ i ∧ 0 ≤ v + Z.b2z t * 2 ^ i < 2 ^ (i + 1).
Proof.
  intros Hi Hv. rewrite Z.shiftl_mul_pow2 by lia. split.
  - rewrite <- Z.add_lor_land. enough (Z.land v (Z.b2z t * 2 ^ i) = 0) by lia.
    apply Z.bits_inj'. intros k Hk. rewrite Z.land_spec, Z.bits_0.
    destruct (Z.lt_ge_cases k i); [rewrite Z.mul_pow2_bits_low by lia; by rewrite andb_false_r|].
    rewrite <- (Z.mod_small v (2 ^ i)) by lia. by rewrite Z.mod_pow2_bits_high by lia.
  - rewrite Z.pow_add_r by lia. destruct t; cbn [Z.b2z]; lia.
Qed.

Lemma read_lsb_ok payload pos n : bytes_ok payload → 0 ≤ pos → ∀ i v, 0 ≤ i → i + Z.of_nat n ≤ 5 →
  pos + i + Z.of_nat n ≤ 8 * blen payload → 0 ≤ v < 2 ^ i →
  (∀ j, 0 ≤ j < i → wire_bit false payload (pos + j) = Z.testbit v j) →
  ∃ c, read_lsb n payload pos i v = Ok c ∧ 0 ≤ c < 2 ^ (i + Z.of_nat n) ∧
    ∀ j, 0 ≤ j < i + Z.of_nat n → wire_bit false payload (pos + j) = Z.testbit c j.
Proof.
  intros Hb Hpos. induction n as [|n IH]; intros i v Hi H5 Hl Hv Hbits.
  { exists v. rewrite Z.add_0_r. done. }
  cbn [read_lsb]. destruct (wire_octet payload (pos + i) Hb ltac:(lia)) as (o & -> & Ho & _).
  rewrite bind_Ok, Ho.
  set (t := wire_bit false payload (pos + i)) in *.
  destruct (lor_high v i t Hi Hv) as [El Hr].
  assert (2 ^ (i + 1) ≤ 2 ^ 5) by (apply Z.pow_le_mono_r; lia).
  assert (Hsh : i32 (Z.shiftl (Z.b2z t) i) = Z.shiftl (Z.b2z t) i).
  { apply i32_small. rewrite Z.shiftl_mul_pow2 by lia. destruct t; cbn [Z.b2z] in *; lia. }
  rewrite Hsh. destruct (IH (i + 1) (Z.lor v (Z.shiftl (Z.b2z t) i))) as (c & Hc & Hcr & Hcb); [lia|lia|lia|by rewrite El| |].
  - intros j Hj. rewrite Z.lor_spec. destruct (Z.eq_dec j i) as [->|].
    + rewrite Z.shiftl_spec, Z.sub_diag, Z.b2z_bit0 by lia. fold t.
      rewrite <- (Z.mod_small v (2 ^ i)) by lia. by rewrite Z.mod_pow2_bits_high by lia.
    + rewrite (Z.shiftl_spec_low _ i j) by lia. rewrite orb_false_r. apply Hbits. lia.
  - exists c. replace (i + Z.of_nat (S n)) with (i + 1 + Z.of_nat n) by lia. done.
Qed.

Lemma read_msb_ok payload pos n : bytes_ok payload → 0 ≤ pos → ∀ i v, 0 ≤ i → i + Z.of_nat n ≤ 5 →
  pos + i + Z.of_nat n ≤ 8 * blen payload → 0 ≤ v < 2 ^ i →
  (∀ j, 0 ≤ j < i → wire_bit true payload (pos + j) = Z.testbit v (i - 1 - j)) →
  ∃ c, read_msb n payload pos i v = Ok c ∧ 0 ≤ c < 2 ^ (i + Z.of_nat n) ∧
    ∀ j, 0 ≤ j < i + Z.of_nat n → wire_bit true payload (pos + j) = Z.testbit c (i + Z.of_nat n - 1 - j).
Proof.
  intros Hb Hpos. induction n as [|n IH]; intros i v Hi H5 Hl Hv Hbits.
  { exists v. rewrite Z.add_0_r. done. }
  cbn [read_msb]. destruct (wire_octet payload (pos + i) Hb ltac:(lia)) as (o & -> & _ & Ho).
  rewrite bind_Ok, Ho.
  set (t := wire_bit true payload (pos + i)) in *.
  assert (Hp : 2 ^ (i + 1) = 2 * 2 ^ i) by (rewrite Z.pow_add_r by lia; lia).
  assert (2 ^ (i + 1) ≤ 2 ^ 5) by (apply Z.pow_le_mono_r; lia).
  assert (Hsh : i32 (Z.shiftl v 1) = 2 * v) by (rewrite Z.shiftl_mul_pow2 by lia; rewrite i32_small by lia; lia).
  assert (Hv' : Z.lor (i32 (Z.shiftl v 1)) (Z.b2z t) = 2 * v + Z.b2z t).
  { rewrite Hsh, <- Z.add_lor_land. enough (Z.land (2 * v) (Z.b2z t) = 0) by lia.
    destruct t; cbn [Z.b2z]; [|apply Z.land_0_r]. rewrite (land_ones_mod 1) by done.
    change (2 ^ 1) with 2. rewrite Z.mul_comm. by apply Z.mod_mul. }
  rewrite Hv'. destruct (IH (i + 1) (2 * v + Z.b2z t)) as (c & Hc & Hcr & Hcb); [lia|lia|lia|destruct t; cbn [Z.b2z]; lia| |].
  - intros j Hj. destruct (Z.eq_dec j i) as [->|].
    + replace (i + 1 - 1 - i) with 0 by lia. rewrite Z.testbit_0_r. done.
    + replace (i + 1 - 1 - j) with (Z.succ (i - 1 - j)) by lia. rewrite Z.testbit_succ_r by lia. apply Hbits. lia.
  - exists c. replace (i + Z.of_nat (S n)) with (i + 1 + Z.of_nat n) by lia. done.
Qed.

Lemma readCodeword_ok msb payload pos width : bytes_ok payload → 0 ≤ pos → 0 ≤ width ≤ 5 → pos + width ≤ 8 * blen payload →
  ∃ c, readCodeword msb payload pos width = Ok c ∧ carries_at msb width payload pos c.
Proof.
  intros Hb Hp Hw Hl. unfold readCodeword, readCodewordMSB, readCodewordLSB, carries_at. destruct msb.
  - destruct (read_msb_ok payload pos (Z.to_nat width) Hb Hp 0 0) as (c & Hc & Hr & Hbits); try lia.
    exists c. rewrite Z2Nat.id, Z.add_0_l in * by lia. done.
  - destruct (read_lsb_ok payload pos (Z.to_nat width) Hb Hp 0 0) as (c & Hc & Hr & Hbits); try lia.
    exists c. rewrite Z2Nat.id, Z.add_0_l in * by lia. done.
Qed.

(** The bits determine the codeword. *)
Lemma carries_at_inj msb width payload pos c c' : 0 ≤ width →
  carries_at msb width payload pos c → carries_at msb width payload pos c' → c = c'.
Proof.
  intros Hw [Hr H] [Hr' H']. apply Z.bits_inj'. intros k Hk.
  destruct (Z.lt_ge_cases k width).
  - destruct msb.
    + specialize (H (width - 1 - k) ltac:(lia)). specialize (H' (width - 1 - k) ltac:(lia)).
      replace (width - 1 - (width - 1 - k)) with k in * by lia. congruence.
    + specialize (H k ltac:(lia)). specialize (H' k ltac:(lia)). congruence.
  - rewrite <- (Z.mod_small c (2 ^ width)), <- (Z.mod_small c' (2 ^ width)) by lia. by rewrite !Z.mod_pow2_bits_high by lia.
Qed.

Lemma carries_from_total msb width payload n pos : bytes_ok payload → 0 ≤ width ≤ 5 → 0 ≤ pos →
  pos + width * Z.of_nat n ≤ 8 * blen payload → ∃ cs, length cs = n ∧ carries_from msb width payload pos cs.
Proof.
  intros Hb Hw. revert pos. induction n as [|n IH]; intros pos Hp Hl; [by exists []|].
  destruct (readCodeword_ok msb payload pos width Hb Hp Hw) as (c & _ & Hc); [nia|].
  destruct (IH (pos + width)) as (cs & Hlc & Hcs); [lia|nia|]. exists (c :: cs). cbn. by rewrite Hlc.
Qed.


(** ** The decoded stream *)

(** The program's samples of a codeword sequence, with no wrap; [G726Itu] compares them with the
    standard's. *)
Fixpoint samples (cs : list Z) (d : Decoder) : res no_err (list Z * Decoder) :=
  match cs with
  | [] => mret ([], d)
  | c :: cs => '(s, d) ← decodeSample id c d; '(ss, d) ← samples cs d; mret (s :: ss, d)
  end.

Definition is_s16 (s : Z) : Prop := -32768 ≤ s ≤ 32767.

Definition same_config (d d' : Decoder) : Prop := rt d' = rt d ∧ msbFirst d' = msbFirst d.

Lemma samples_ok cs d : dec_ok d → Forall (is_code (rt d)) cs →
  ∃ ss d', samples cs d = Ok (ss, d') ∧ length ss = length cs ∧ Forall is_s16 ss ∧ dec_ok d' ∧ same_config d d'.
Proof.
  revert d. induction cs as [|c cs IH]; intros d Hd Hcs; [by exists [], d|].
  apply Forall_cons_iff in Hcs as [Hc Hcs]. cbn [samples].
  destruct (decodeSample_ok id c d Hd Hc) as (s & d1 & E1 & _ & Hd1 & Hs & Hrt & Hm). rewrite E1, bind_Ok.
  destruct (IH d1 Hd1) as (ss & d2 & E2 & Hl & Hss & Hd2 & Hrt2 & Hm2); [by rewrite Hrt|]. rewrite E2, bind_Ok.
  exists (s :: ss), d2. split_and!; [done|cbn; by rewrite Hl|by apply Forall_cons_2|done|]. split; congruence.
Qed.

Lemma samples_app cs cs' d ss d1 : samples cs d = Ok (ss, d1) →
  samples (cs ++ cs') d = ('(ss', d2) ← samples cs' d1; mret (ss ++ ss', d2)).
Proof.
  revert d ss. induction cs as [|c cs IH]; intros d ss; cbn [samples app].
  { intros [= <- <-]. by destruct (samples cs' d) as [[? ?]| |]. }
  destruct (decodeSample id c d) as [[s d']|e|]; [|done|done]. rewrite !bind_Ok.
  destruct (samples cs d') as [[ss0 d0]|e|] eqn:E; [|done|done]. rewrite bind_Ok. intros [= <- <-].
  rewrite (IH d' ss0 E). destruct (samples cs' d0) as [[ss1 d2]|e|]; done.
Qed.

Lemma decode_loop_ok payload cs : bytes_ok payload → ∀ k pos pre mid post d, dec_ok d → 0 ≤ pos →
  carries_from (msbFirst d) (bits (rt d)) payload pos cs →
  pos + bits (rt d) * blen cs ≤ 8 * blen payload →
  blen pre = 2 * k → length mid = (2 * length cs)%nat →
  ∃ ss d', samples cs d = Ok (ss, d') ∧ dec_ok d' ∧ same_config d d' ∧ Forall is_s16 ss ∧ length ss = length cs ∧
    decode_loop (length cs) payload k pos (pre ++ mid ++ post) d = Ok (pre ++ pcm ss ++ post, d').
Proof.
  intros Hb. induction cs as [|c cs IH]; intros k pos pre mid post d Hd Hpos Hcs Hl Hk Hm.
  { exists [], d. destruct mid; [|done]. done. }
  destruct Hcs as [Hc Hcs]. rewrite blen_cons in Hl.
  pose proof (rate_bits d Hd) as Hbits.
  pose proof (blen_nonneg cs).
  destruct (readCodeword_ok (msbFirst d) payload pos (bits (rt d)) Hb Hpos) as (c' & Hrd & Hc'); [lia|nia|].
  assert (c' = c) as -> by (eapply carries_at_inj; [|exact Hc'|exact Hc]; lia). clear Hc'.
  destruct (decodeSample_ok i32 c d Hd) as (s & d1 & E1 & E2 & Hd1 & Hs & Hrt & Hmsb); [by destruct Hc|].
  destruct mid as [|x [|z mid]]; [cbn in Hm; lia|cbn in Hm; lia|].
  destruct (IH (k + 1) (pos + bits (rt d)) (pre ++ le16 (u16 s)) mid post d1) as (ss & d2 & E3 & Hd2 & [Hrt2 Hm2] & Hss & Hls & E4);
    [done|lia|by rewrite Hrt, Hmsb|rewrite Hrt; lia|rewrite blen_app; change (blen (le16 (u16 s))) with 2; lia|cbn in Hm; lia|].
  exists (s :: ss), d2. split; [cbn [samples]; by rewrite E2, bind_Ok, E3, bind_Ok|]. split; [done|].
  split; [split; congruence|]. split; [by apply Forall_cons_2|]. split; [cbn; by rewrite Hls|].
  cbn [decode_loop length]. unfold readCodeword in Hrd. rewrite Hrd, bind_Ok, E1, bind_Ok.
  replace (2 * k) with (blen pre) by lia. cbn [app]. rewrite put_le16_mid, bind_Ok.
  rewrite <- app_assoc in E4. rewrite Hrt, E4. unfold pcm. rewrite fmap_cons. cbn [concat]. by rewrite <- !app_assoc.
Qed.

Lemma carries_len d payload cs : dec_ok d → carries (msbFirst d) (bits (rt d)) payload cs →
  wholeCodewords payload d = true ∧ OutputLen payload d = 2 * blen cs ∧ 2 ≤ bits (rt d) ≤ 5.
Proof.
  intros Hd [Hl _].
  pose proof (rate_bits d Hd) as Hbits.
  unfold wholeCodewords, OutputLen. rewrite Hl, Z.mul_comm. rewrite Z.mod_mul, Z.div_mul by lia. split_and!; try done; lia.
Qed.

(** Every payload of whole codewords carries a codeword sequence. *)
Lemma carries_total d payload : dec_ok d → bytes_ok payload → wholeCodewords payload d = true →
  ∃ cs, carries (msbFirst d) (bits (rt d)) payload cs.
Proof.
  intros Hd Hb Hw. unfold wholeCodewords in Hw. apply Z.eqb_eq in Hw.
  pose proof (rate_bits d Hd) as Hbits.
  pose proof (Z.div_mod (blen payload * 8) (bits (rt d)) ltac:(lia)) as Hdm. pose proof (blen_nonneg payload).
  assert (0 ≤ blen payload * 8 / bits (rt d)) by (apply Z.div_pos; lia).
  destruct (carries_from_total (msbFirst d) (bits (rt d)) payload (Z.to_nat (blen payload * 8 / bits (rt d))) 0) as (cs & Hl & Hcs);
    [done|lia|lia|lia|].
  exists cs. split; [|done]. unfold blen at 2. lia.
Qed.

Lemma Decode_carried d payload cs dst : dec_ok d → bytes_ok payload → carries (msbFirst d) (bits (rt d)) payload cs →
  2 * blen cs ≤ blen dst →
  ∃ ss d', samples cs d = Ok (ss, d') ∧ Forall is_s16 ss ∧ blen ss = blen cs ∧ dec_ok d' ∧ same_config d d' ∧
    Decode dst payload d = Ok (OutputLen payload d, pcm ss ++ drop (Z.to_nat (OutputLen payload d)) dst, d', None).
Proof.
  intros Hd Hb Hc Hdst. destruct (carries_len d payload cs Hd Hc) as (Hw & Ho & Hbits). destruct Hc as [Hl Hcs].
  unfold Decode. destruct (Z.eqb_spec (blen payload) 0) as [H0|H0].
  { assert (cs = []) as -> by (apply blen_zero; pose proof (blen_nonneg cs); nia).
    exists [], d. rewrite Ho. cbn. by rewrite drop_0. }
  rewrite Hw. cbn [negb]. cbv zeta. fold (OutputLen payload d). rewrite Ho.
  rewrite (proj2 (Z.ltb_ge _ _)) by lia.
  assert (Hn : Z.to_nat (blen payload * 8 / bits (rt d)) = length cs).
  { unfold OutputLen in Ho. unfold blen in *. lia. }
  rewrite Hn. destruct (decode_loop_ok payload cs Hb 0 0 [] (take (2 * length cs) dst) (drop (2 * length cs) dst) d)
    as (ss & d' & E & Hd' & Hsame & Hss & Hls & El); [done|lia|done|unfold blen in *; lia|done|rewrite length_take; unfold blen in *; lia|].
  cbn [app] in El. rewrite take_drop in El. exists ss, d'. split_and!; try done; [unfold blen; by rewrite Hls|].
  rewrite El, bind_Ok. replace (Z.to_nat (2 * blen cs)) with (2 * length cs)%nat by (unfold blen; lia). done.
Qed.


Lemma DecodeAlloc_carried d payload cs : dec_ok d → bytes_ok payload → carries (msbFirst d) (bits (rt d)) payload cs →
  ∃ ss d', samples cs d = Ok (ss, d') ∧ Forall is_s16 ss ∧ blen ss = blen cs ∧ dec_ok d' ∧ same_config d d' ∧
    DecodeAlloc payload d = Ok (inl (pcm ss), d').
Proof.
  intros Hd Hb Hc. destruct (carries_len d payload cs Hd Hc) as (Hw & Ho & _). pose proof (blen_nonneg cs).
  destruct (Decode_carried d payload cs (repeat 0 (Z.to_nat (OutputLen payload d))) Hd Hb Hc) as (ss & d' & E & Hs & Hl & Hd' & Hsame & Hdec).
  { unfold blen at 2. rewrite repeat_length. lia. }
  exists ss, d'. split_and!; try done. unfold DecodeAlloc. rewrite Hw. cbn [negb].
  rewrite Hdec, bind_Ok. rewrite drop_ge by (rewrite repeat_length; lia). by rewrite app_nil_r.
Qed.

Lemma carries_from_app msb width payload pos cs cs' :
  carries_from msb width payload pos (cs ++ cs') ↔
  carries_from msb width payload pos cs ∧ carries_from msb width payload (pos + width * blen cs) cs'.
Proof.
  revert pos. induction cs as [|c cs IH]; intros pos; cbn [carries_from app].
  { rewrite blen_nil, Z.mul_0_r, Z.add_0_r. tauto. }
  rewrite IH, blen_cons. replace (pos + width + width * blen cs) with (pos + width * (1 + blen cs)) by lia. tauto.
Qed.

Lemma carries_from_ext msb width payload payload' pos pos' cs :
  (∀ g, 0 ≤ g < width * blen cs → wire_bit msb payload (pos + g) = wire_bit msb payload' (pos' + g)) → 0 ≤ width →
  carries_from msb width payload pos cs → carries_from msb width payload' pos' cs.
Proof.
  revert pos pos'. induction cs as [|c cs IH]; intros pos pos' Hg Hw; [done|]. cbn [carries_from]. rewrite blen_cons in Hg.
  pose proof (blen_nonneg cs). intros [[Hr Hc] Hcs]. split.
  - split; [done|]. intros i Hi. rewrite <- Hg by nia. by apply Hc.
  - eapply IH; [|done|exact Hcs]. intros g Hgr. rewrite <- !Z.add_assoc. apply Hg. lia.
Qed.

(** Payloads of whole codewords concatenate with their codewords. *)
Lemma carries_concat msb width p1 p2 cs1 cs2 : 0 ≤ width → carries msb width p1 cs1 → carries msb width p2 cs2 →
  carries msb width (p1 ++ p2) (cs1 ++ cs2).
Proof.
  intros Hw [Hl1 H1] [Hl2 H2]. split; [rewrite !blen_app; lia|]. apply carries_from_app. pose proof (blen_nonneg p1). split.
  - eapply carries_from_ext; [|done|exact H1]. intros g Hg. unfold wire_bit.
    rewrite app_nth1; [done|]. unfold blen in *. Z.div_mod_to_equations; lia.
  - eapply carries_from_ext; [|done|exact H2]. intros g Hg. unfold wire_bit. rewrite <- Hl1.
    replace (0 + blen p1 * 8 + g) with (0 + g + blen p1 * 8) by lia. rewrite Z.div_add, Z.mod_add by lia.
    rewrite app_nth2 by (unfold blen in *; Z.div_mod_to_equations; lia). do 2 f_equal.
    unfold blen. assert (0 ≤ (0 + g) / 8) by (apply Z.div_pos; lia). lia.
Qed.

Lemma Decode_cases d payload dst : dec_ok d → bytes_ok payload →
  ∃ n dst' d' e, Decode dst payload d = Ok (n, dst', d', e) ∧ blen dst' = blen dst ∧ dec_ok d' ∧
    e = (if negb ((blen payload * 8) mod bits (rt d) =? 0) then Some ErrIncompletePayload
         else if blen dst <? OutputLen payload d then Some ErrShortBuffer else None) ∧
    (if e is Some _ then n = 0 ∧ dst' = dst ∧ d' = d else n = OutputLen payload d) ∧
    ∃ r d2, DecodeAlloc payload d = Ok (r, d2) ∧ dec_ok d2 ∧
      (if (blen payload * 8) mod bits (rt d) =? 0 then ∃ out, r = inl out ∧ blen out = OutputLen payload d
       else r = inr ErrIncompletePayload ∧ d2 = d).
Proof.
  intros Hd Hb. destruct (wholeCodewords payload d) eqn:Hw.
  - destruct (carries_total d payload Hd Hb Hw) as (cs & Hc). destruct (carries_len d payload cs Hd Hc) as (_ & Ho & Hbits).
    destruct (DecodeAlloc_carried d payload cs Hd Hb Hc) as (ss & d' & _ & _ & Hls & Hd' & _ & Ea). pose proof (blen_nonneg cs).
    assert (Halloc : ∃ r d2, DecodeAlloc payload d = Ok (r, d2) ∧ dec_ok d2 ∧
      (if (blen payload * 8) mod bits (rt d) =? 0 then ∃ out, r = inl out ∧ blen out = OutputLen payload d
       else r = inr ErrIncompletePayload ∧ d2 = d)).
    { exists (inl (pcm ss)), d'. split_and!; [done..|]. unfold wholeCodewords in Hw. rewrite Hw.
      eexists. split; [done|]. unfold blen at 1. rewrite length_pcm. unfold blen in *. lia. }
    pose proof Hw as Hw'. unfold wholeCodewords in Hw'. rewrite Hw' in *. cbn [negb].
    destruct (Z.ltb_spec (blen dst) (OutputLen payload d)) as [Hs|Hs].
    + exists 0, dst, d, (Some ErrShortBuffer). split_and!; try done.
      unfold Decode. rewrite Hw. destruct (Z.eqb_spec (blen payload) 0) as [H0|_].
      { unfold OutputLen in Hs. rewrite H0, Z.div_0_l in Hs by lia. pose proof (blen_nonneg dst). lia. }
      cbv zeta. cbn [negb]. fold (OutputLen payload d). by rewrite (proj2 (Z.ltb_lt _ _) Hs).
    + destruct (Decode_carried d payload cs dst Hd Hb Hc) as (ss2 & d2 & _ & _ & Hl2 & Hd2 & _ & Ed); [lia|].
      do 4 eexists. split; [exact Ed|]. split_and!; try done. rewrite blen_app, blen_drop by lia.
      unfold blen at 1. rewrite length_pcm. unfold blen in *. lia.
  - assert (Hw' := Hw). unfold wholeCodewords in Hw'. rewrite Hw'. cbn [negb].
    exists 0, dst, d, (Some ErrIncompletePayload). split_and!; try done.
    + unfold Decode. rewrite Hw. destruct (Z.eqb_spec (blen payload) 0) as [H0|_]; [|done].
      rewrite H0 in Hw'. discriminate Hw'.
    + exists (inr ErrIncompletePayload), d. split_and!; try done. unfold DecodeAlloc. by rewrite Hw.
Qed.

(** [Decode] is total on every payload: an incomplete payload and a short buffer write
    nothing and leave the decoder as it was, everything else writes [OutputLen] octets, and the
    decoder stays well formed; [DecodeAlloc] never runs out of buffer, so its only error is the
    incomplete payload. *)
Theorem Decode_total d payload dst : dec_ok d → bytes_ok payload →
  ∃ n dst' d' e, Decode dst payload d = Ok (n, dst', d', e) ∧ blen dst' = blen dst ∧ dec_ok d' ∧
    e = (if negb ((blen payload * 8) mod bits (rt d) =? 0) then Some ErrIncompletePayload
         else if blen dst <? OutputLen payload d then Some ErrShortBuffer else None) ∧
    (if e is Some _ then n = 0 ∧ dst' = dst ∧ d' = d else n = OutputLen payload d) ∧
    ∃ r d2, DecodeAlloc payload d = Ok (r, d2) ∧ dec_ok d2 ∧
      (if (blen payload * 8) mod bits (rt d) =? 0 then ∃ out, r = inl out ∧ blen out = OutputLen payload d
       else r = inr ErrIncompletePayload ∧ d2 = d).
Proof. apply Decode_cases. Qed.

(** Decoding continues one logical stream: a run of whole codewords split over two
    packets decodes, packet by packet, to the samples and the state of the unsplit run. *)
Theorem DecodeAlloc_split d p1 p2 : dec_ok d → bytes_ok p1 → bytes_ok p2 →
  wholeCodewords p1 d = true → wholeCodewords p2 d = true →
  ∃ out1 d1 out2 d2, DecodeAlloc p1 d = Ok (inl out1, d1) ∧ DecodeAlloc p2 d1 = Ok (inl out2, d2) ∧
    DecodeAlloc (p1 ++ p2) d = Ok (inl (out1 ++ out2), d2).
Proof.
  intros Hd Hb1 Hb2 Hw1 Hw2. destruct (carries_total d p1 Hd Hb1 Hw1) as (cs1 & Hc1).
  destruct (carries_total d p2 Hd Hb2 Hw2) as (cs2 & Hc2). destruct (carries_len d p1 cs1 Hd Hc1) as (_ & _ & Hbits).
  destruct (DecodeAlloc_carried d p1 cs1 Hd Hb1 Hc1) as (ss1 & d1 & E1 & _ & _ & Hd1 & [Hrt Hm] & A1).
  destruct (DecodeAlloc_carried d1 p2 cs2 Hd1 Hb2) as (ss2 & d2 & E2 & _ & _ & _ & _ & A2); [by rewrite Hrt, Hm|].
  destruct (DecodeAlloc_carried d (p1 ++ p2) (cs1 ++ cs2) Hd) as (ss & d' & E & _ & _ & _ & _ & A).
  { by apply Forall_app. }
  { apply carries_concat; [lia|done|done]. }
  rewrite (samples_app _ _ _ _ _ E1), E2, bind_Ok in E. injection E as <- <-.
  do 4 eexists. split; [exact A1|]. split; [exact A2|]. rewrite A. unfold pcm. by rewrite fmap_app, concat_app.
Qed.

(** ** Concrete decoders *)
Definition demo (msb : bool) : Decoder := Reset (mkDecoder rate32 msb [] [] [] [] [] 0 0 0 0 0 0 0 0 0).

Lemma demo_ok msb : dec_ok (demo msb).
Proof. apply Reset_wf. right; right; by left. Qed.

Example New_demo : New 2 1 = Ok (demo true).
Proof. reflexivity. Qed.

Lemma demo_carries : carries true 4 [0x21; 0x73] [2; 1; 7; 3].
Proof.
  split; [done|]. cbn [carries_from]. unfold carries_at. split_and!; try done; intros i Hi;
    (assert (i = 0 ∨ i = 1 ∨ i = 2 ∨ i = 3) as [->|[->|[->| ->]]] by lia); by vm_compute.
Qed.

Lemma Decode_total_witness : bytes_ok [1; 2; 3] ∧ ∃ n dst' d' e, Decode [0; 0] [1; 2; 3] (demo false) = Ok (n, dst', d', e).
Proof.
  assert (Hb : bytes_ok [1; 2; 3]) by (repeat constructor; by vm_compute). split; [exact Hb|].
  destruct (Decode_total (demo false) [1; 2; 3] [0; 0] (demo_ok false) Hb) as (n & dst' & d' & e & H & _).
  exists n, dst', d', e. exact H.
Defined.

Lemma DecodeAlloc_split_witness :
  ∃ out1 d1 out2 d2, DecodeAlloc [0x21] (demo false) = Ok (inl out1, d1) ∧ DecodeAlloc [0x73; 9] d1 = Ok (inl out2, d2) ∧
    DecodeAlloc [0x21; 0x73; 9] (demo false) = Ok (inl (out1 ++ out2), d2).
Proof.
  apply (DecodeAlloc_split (demo false) [0x21] [0x73; 9]);
    [apply demo_ok|repeat constructor; by vm_compute|repeat constructor; by vm_compute|reflexivity|reflexivity].
Defined.

End g726.
