(* ===== verification/G726Itu.v ===== *)
(** * G.726 as the standard writes it: [depacket/g726/g726.go] against ITU-T G.726 section 4.2

    A second description of the decoder, written from the blocks of the standard and not from
    the program: the quantizer tables by magnitude, signal histories kept as signed numbers
    (not in the internal floating-point form), scale factor and predictor outputs computed from
    the state at the start of a sample (not carried over from the one before), shifts as
    divisions rounded down.  The program is where it departs from the standard in three places, which
    are marked: the leak of the zero coefficients, the rounding of [MIX], and the range of the
    predictor's sums. *)
From S2P Require Import Prelude Bytes G726.
Import g726.

Module itu.

(** ** The quantizer tables, by the magnitude of the codeword *)
Definition DQLN (n : Z) : list Z :=
  if n =? 2 then [116; 365]
  else if n =? 3 then [-2048; 135; 273; 373]
  else if n =? 4 then [-2048; 4; 135; 213; 273; 323; 373; 425]
  else [-2048; -66; 28; 104; 169; 224; 274; 318; 358; 395; 429; 459; 488; 514; 539; 566].
Definition WI (n : Z) : list Z :=
  if n =? 2 then [-22; 439]
  else if n =? 3 then [-4; 30; 137; 582]
  else if n =? 4 then [-12; 18; 41; 64; 112; 198; 355; 1122]
  else [14; 14; 24; 39; 40; 41; 58; 100; 141; 179; 219; 280; 358; 440; 529; 696].
Definition FI (n : Z) : list Z :=
  if n =? 2 then [0; 7]
  else if n =? 3 then [0; 1; 2; 7]
  else if n =? 4 then [0; 0; 0; 1; 1; 1; 3; 7]
  else [0; 0; 0; 0; 0; 1; 1; 1; 1; 1; 2; 3; 4; 5; 6; 6].

(** A codeword of [n] bits: a sign, and a magnitude in ones' complement. *)
Definition negative (n c : Z) : bool := 2 ^ (n - 1) <=? c.
Definition magnitude (n c : Z) : Z := if negative n c then 2 ^ n - 1 - c else c.
Definition entry (t : list Z) (n c : Z) : Z := nth (Z.to_nat (magnitude n c)) t 0.

(** ** Numbers *)
Definition TC16 (x : Z) : Z := (x + 2 ^ 15) mod 2 ^ 16 - 2 ^ 15.
Definition limit (lo hi x : Z) : Z := Z.max lo (Z.min hi x).

(** [FLOATA], [FLOATB]: the number of significant bits of a magnitude, and its leading six. *)
Definition EXP (m : Z) : Z := if m =? 0 then 0 else 1 + Z.log2 m.
Definition MANT (m : Z) : Z := if m =? 0 then 32 else m * 64 / 2 ^ EXP m.
(** [FMULT]: a coefficient times a signal of sign [neg] and magnitude [m]. *)
Definition FMULT (An : Z) (neg : bool) (m : Z) : Z :=
  let an := An / 4 in
  let p := (MANT (Z.abs an) * MANT m + 48) / 16 * 2 ^ (EXP (Z.abs an) + EXP m) / 2 ^ 19 in
  TC16 (if xorb (an <? 0) neg then - p else p).

(** A first-order filter: [x] approaches [target] by the [2 ^ k]th part of their distance. *)
Definition approach (k target x : Z) : Z := x + (target - x) / 2 ^ k.

(** ** The state: what the delay elements of section 4.2 hold *)
Record State := mkState {
  A1 : Z; A2 : Z; B : list Z;
  DQ : list (bool * Z);
  SR1 : Z; SR2 : Z; PK1 : Z; PK2 : Z;
  AP : Z; DMS : Z; DML : Z; YU : Z; YL : Z; TD : bool
}.
Definition initial : State := mkState 0 0 (repeat 0 6) (repeat (false, 0) 6) 0 0 1 1 0 0 0 544 34816 false.

Section blocks.
Context (s : State).

(** [LIMA] and [MIX].  The standard rounds the weighted difference towards zero on its own. *)
Definition Y : Z := (YL s + (YU s - YL s / 64) * Z.min 64 (AP s / 4)) / 64.
(** [ACCUM].  The standard reduces both sums to 16 bits. *)
Definition zeros : Z := foldr Z.add 0 (zip_with (λ b q, FMULT b q.1 q.2) (B s) (DQ s)).
Definition poles : Z := FMULT (A1 s) (SR1 s <? 0) (Z.abs (SR1 s)) + FMULT (A2 s) (SR2 s <? 0) (Z.abs (SR2 s)).
Definition SEZ : Z := zeros / 2.
Definition SE : Z := (zeros + poles) / 2.

(** [ADDA] and [ANTILOG]. *)
Definition ANTILOG (dqln : Z) : Z :=
  let dql := dqln + Y / 4 in if dql <? 0 then 0 else (128 + dql mod 128) * 2 ^ (dql / 128) / 128.
(** [TRANS]. *)
Definition threshold : Z :=
  let thr2 := if 9 <? YL s / 2 ^ 15 then 31 * 2 ^ 10 else (32 + YL s / 2 ^ 10 mod 32) * 2 ^ (YL s / 2 ^ 15) in
  (thr2 + thr2 / 2) / 2.

(** One sample: the 16-bit output and the state after it. *)
Definition sample (n c : Z) : Z * State :=
  let neg := negative n c in
  let dqmag := ANTILOG (entry (DQLN n) n c) in
  let dq := if neg then - dqmag else dqmag in
  let SR := TC16 (SE + dq) in
  let TR := TD s && (threshold <? dqmag) in
  let PK0 := Z.sgn (SEZ + dq) in
  let fa := limit (-256) 255 (- A1 s * PK1 s * PK0 / 32) in
  let a2 := limit (-12288) 12288 (A2 s + 128 * PK0 * PK2 s + fa - A2 s / 128) in
  let a1 := limit (a2 - 15360) (15360 - a2) (A1 s + 192 * PK0 * PK1 s - A1 s / 256) in
  (* The leak is 2^-8 at every rate; the standard has 2^-9 at 40 kbit/s. *)
  let b := zip_with (λ x (q : bool * Z), x + 128 * Z.sgn dq * (if q.1 then -1 else 1) - x / 256) (B s) (DQ s) in
  let a2 := if TR then 0 else a2 in
  let TDP := a2 <? -11776 in
  let dms := approach 5 (512 * entry (FI n) n c) (DMS s) in
  let dml := approach 7 (2048 * entry (FI n) n c) (DML s) in
  let AX := (Y <? 1536) || TDP || (dml / 8 <=? Z.abs (4 * dms - dml)) in
  let yu := limit 544 5120 (approach 5 (32 * entry (WI n) n c) Y) in
  (TC16 (limit (-65535) 65535 (4 * SR)),
   mkState (if TR then 0 else a1) a2 (if TR then repeat 0 6 else b)
     ((neg, dqmag) :: take 5 (DQ s)) SR (SR1 s) (if PK0 =? -1 then -1 else 1) (PK1 s)
     (if TR then 256 else approach 4 (if AX then 512 else 0) (AP s))
     dms dml yu (approach 6 (64 * yu) (YL s)) TDP).
End blocks.

(** The samples of a codeword sequence, from a state. *)
Fixpoint run (n : Z) (cs : list Z) (s : State) : list Z * State :=
  match cs with
  | [] => ([], s)
  | c :: cs => let '(x, s) := sample s n c in let '(xs, s) := run n cs s in (x :: xs, s)
  end.

(** ** The program's state for a state of the standard *)
Definition rate (n : Z) : rateTable := if n =? 2 then rate16 else if n =? 3 then rate24 else if n =? 4 then rate32 else rate40.
Definition floats (neg : bool) (m : Z) : float11 := mkFloat (Z.b2z neg) (EXP m) (MANT m).
Definition signed (x : Z) : float11 := floats (x <? 0) (Z.abs x).
Definition program (n : Z) (msb : bool) (s : State) : Decoder :=
  mkDecoder (rate n) msb [signed (SR1 s); signed (SR2 s)] ((λ q, floats q.1 q.2) <$> DQ s) [A1 s; A2 s] (B s)
    [PK1 s; PK2 s] (AP s) (YU s) (YL s) (DMS s) (DML s) (Z.b2z (TD s)) (SE s) (SEZ s) (Y s).

Lemma program_initial n msb d : rt d = rate n → msbFirst d = msb → Reset d = program n msb initial.
Proof. intros Hr Hm. unfold Reset, program. rewrite Hr, Hm. reflexivity. Qed.

(** ** Numbers *)
Lemma shr_div x k : 0 ≤ k → Z.shiftr x k = x / 2 ^ k.
Proof. apply Z.shiftr_div_pow2. Qed.

Lemma floats_i2f x : - 65535 ≤ x ≤ 65535 → i2f id x = signed x.
Proof.
  intros Hx. unfold i2f, signed, floats, EXP, MANT. destruct (Z.eqb_spec (Z.abs x) 0) as [H0|H0].
  { assert (x = 0) as -> by lia. reflexivity. }
  assert (E : (if x <? 0 then neg id x else x) = Z.abs x) by (unfold neg, id; destruct (Z.ltb_spec x 0); lia).
  rewrite E, (proj2 (Z.eqb_neq _ _) H0). unfold log2Of, len32, sub, add, shl, shr, id. set (m := Z.abs x) in *.
  assert (Hm : 0 < m ≤ 65535) by lia. rewrite (u32_small m) by (unfold is_u32; lia). rewrite (proj2 (Z.eqb_neq _ _) H0).
  pose proof (Z.log2_nonneg m). assert (Z.log2 m < 16) by (apply Z.log2_lt_pow2; lia).
  replace (Z.log2 m + 1 - 1 + 1) with (1 + Z.log2 m) by lia. rewrite !u64_small by (unfold is_u64; lia).
  rewrite Z.shiftl_mul_pow2, shr_div by lia. unfold EXP. rewrite (proj2 (Z.eqb_neq _ _) H0). by destruct (x <? 0).
Qed.

Lemma i16_TC16 x : i16 x = TC16 x.
Proof. reflexivity. Qed.
Lemma clip_limit x lo hi : lo ≤ hi → clip x lo hi = limit lo hi x.
Proof. unfold clip, limit. destruct (Z.ltb_spec x lo), (Z.ltb_spec hi x); lia. Qed.

Lemma floats_ok neg m : 0 ≤ m ≤ 65535 → float_ok (floats neg m).
Proof.
  intros Hm. destruct (i2f_ok id m ltac:(lia)) as (_ & Hf & _). rewrite floats_i2f in Hf by lia. unfold signed in Hf.
  rewrite Z.abs_eq in Hf by lia. destruct Hf as (_ & He & Hn). split; [|done]. destruct neg; [by right|by left].
Qed.

Lemma FMULT_mult an neg m : - 32768 ≤ an ≤ 32768 → 0 ≤ m ≤ 65535 → mult id (i2f id (Z.shiftr an 2)) (floats neg m) = FMULT an neg m.
Proof.
  intros Ha Hm. rewrite shr_div by lia. change (2 ^ 2) with 4. assert (Hc : -8192 ≤ an / 4 ≤ 8192) by (Z.div_mod_to_equations; lia).
  unfold FMULT. set (c := an / 4) in *. clearbody c. rewrite floats_i2f by lia. unfold signed.
  destruct (floats_ok (c <? 0) (Z.abs c) ltac:(lia)) as (_ & He1 & Hm1). destruct (floats_ok neg m Hm) as (_ & He2 & Hm2).
  cbn in He1, Hm1, He2, Hm2. unfold mult. cbn [exp mant sign floats]. set (e1 := EXP (Z.abs c)) in *. set (e2 := EXP m) in *.
  set (p1 := MANT (Z.abs c)) in *. set (p2 := MANT m) in *. clearbody e1 e2 p1 p2. unfold add, mul, sub, g726.neg, id.
  rewrite shr_div by lia. change (2 ^ 4) with 16. set (r := (p1 * p2 + 48) / 16).
  assert (Hs : (if 19 <? e1 + e2 then shl id r (e1 + e2 - 19) else shr r (19 - (e1 + e2))) = r * 2 ^ (e1 + e2) / 2 ^ 19).
  { unfold shl, shr, id. destruct (Z.ltb_spec 19 (e1 + e2)).
    - rewrite u64_small by (unfold is_u64; lia). rewrite Z.shiftl_mul_pow2 by lia.
      replace (2 ^ (e1 + e2)) with (2 ^ (e1 + e2 - 19) * 2 ^ 19) by (rewrite <- Z.pow_add_r by lia; f_equal; lia).
      by rewrite Z.mul_assoc, Z.div_mul.
    - rewrite u64_small by (unfold is_u64; lia). rewrite shr_div by lia.
      replace (2 ^ 19) with (2 ^ (19 - (e1 + e2)) * 2 ^ (e1 + e2)) by (rewrite <- Z.pow_add_r by lia; f_equal; lia).
      by rewrite Z.div_mul_cancel_r by (apply Z.pow_nonzero; lia). }
  unfold id in Hs. rewrite Hs. rewrite i16_TC16. f_equal. by destruct (c <? 0), neg.
Qed.

Definition history_ok (q : bool * Z) : Prop := 0 ≤ q.2 ≤ 65535.
Abbreviation small := (λ x, - 32768 ≤ x ≤ 32768).

Lemma products_sum cs qs : Forall small cs → Forall history_ok qs → ∀ acc,
  products id acc cs ((λ q, floats q.1 q.2) <$> qs) = acc + foldr Z.add 0 (zip_with (λ b q, FMULT b q.1 q.2) cs qs).
Proof.
  intros Hc. revert qs. induction Hc as [|c cs Hc Hcs IH]; intros qs Hq acc; [cbn; lia|].
  destruct Hq as [|q qs Hq Hqs]; [cbn; lia|]. cbn [fmap list_fmap zip_with foldr].
  change (products id acc (c :: cs) (floats q.1 q.2 :: ((λ q, floats q.1 q.2) <$> qs))) with
    (products id (acc + mult id (i2f id (Z.shiftr c 2)) (floats q.1 q.2)) cs ((λ q, floats q.1 q.2) <$> qs)).
  rewrite IH, FMULT_mult by done. lia.
Qed.

(** ** The state *)
Record state_ok (s : State) : Prop := {
  so_a : - 27648 ≤ A1 s ≤ 27648 ∧ - 12288 ≤ A2 s ≤ 12288;
  so_b : length (B s) = 6%nat ∧ Forall small (B s);
  so_dq : length (DQ s) = 6%nat ∧ Forall history_ok (DQ s);
  so_sr : - 32768 ≤ SR1 s ≤ 32767 ∧ - 32768 ≤ SR2 s ≤ 32767
}.

Lemma estimate_SE s : state_ok s →
  estimate id [A1 s; A2 s] (B s) [signed (SR1 s); signed (SR2 s)] ((λ q, floats q.1 q.2) <$> DQ s) = (SEZ s, SE s).
Proof.
  intros [[Ha1 Ha2] [_ Hb] [_ Hq] [H1 H2]]. unfold estimate. rewrite products_sum by done.
  change [signed (SR1 s); signed (SR2 s)] with ((λ q : bool * Z, floats q.1 q.2) <$> [(SR1 s <? 0, Z.abs (SR1 s)); (SR2 s <? 0, Z.abs (SR2 s))]).
  rewrite products_sum by (repeat constructor; cbn; lia). rewrite !shr_div by lia.
  unfold SEZ, SE, zeros, poles. cbn [zip_with foldr fst snd]. f_equal. f_equal. lia.
Qed.

(** ** One sample *)

Lemma table_entries n c : 2 ≤ n ≤ 5 → 0 ≤ c < 2 ^ n →
  bits (rate n) = n ∧ (∃ q, table (E:=no_err) (iquant (rate n)) c = Ok q ∧ (q = entry (DQLN n) n c ∨ q ≤ -2048 ∧ entry (DQLN n) n c ≤ -2048) ∧ entry (DQLN n) n c ≤ 566 ∧ q ≤ 566) ∧
  table (E:=no_err) (tw (rate n)) c = Ok (entry (WI n) n c) ∧ table (E:=no_err) (tf (rate n)) c = Ok (entry (FI n) n c) ∧
  Z.shiftr c (n - 1) = Z.b2z (negative n c).
Proof.
  intros Hn Hc.
  assert (H : forallb (λ n, forallb (λ c,
    (bits (rate n) =? n) &&
    (match table (E:=no_err) (iquant (rate n)) c with Ok q => ((q =? entry (DQLN n) n c) || (q <=? -2048) && (entry (DQLN n) n c <=? -2048)) && (entry (DQLN n) n c <=? 566) && (q <=? 566) | _ => false end) &&
    (match table (E:=no_err) (tw (rate n)) c with Ok q => q =? entry (WI n) n c | _ => false end) &&
    (match table (E:=no_err) (tf (rate n)) c with Ok q => q =? entry (FI n) n c | _ => false end) &&
    (Z.shiftr c (n - 1) =? Z.b2z (negative n c))) (seqZ 0 (2 ^ n))) (seqZ 2 4) = true) by (vm_compute; reflexivity).
  rewrite forallb_forall in H. specialize (H n ltac:(apply list_elem_of_In, elem_of_seqZ; lia)).
  rewrite forallb_forall in H. specialize (H c ltac:(apply list_elem_of_In, elem_of_seqZ; lia)).
  destruct (table (iquant (rate n)) c) as [q| |]; [|by rewrite ?andb_false_r in H..].
  destruct (table (tw (rate n)) c) as [x| |]; [|by rewrite ?andb_false_r in H..].
  destruct (table (tf (rate n)) c) as [f| |]; [|by rewrite ?andb_false_r in H..].
  split_and!; [lia|exists q; split; [done|]; lia|f_equal; lia|f_equal; lia|lia].
Qed.

Lemma inverseQuant_ANTILOG n msb s c : 2 ≤ n ≤ 5 → 0 ≤ c < 2 ^ n → 544 ≤ Y s ≤ 5120 →
  inverseQuant id (program n msb s) c = Ok (ANTILOG s (entry (DQLN n) n c)).
Proof.
  intros Hn Hc Hy. destruct (table_entries n c Hn Hc) as (_ & (q & Hq & Hqe & Hle & Hql) & _).
  unfold inverseQuant, ANTILOG. cbn [rt program]. rewrite Hq, bind_Ok. cbn [y program]. unfold add, id. rewrite shr_div by lia.
  change (2 ^ 2) with 4. assert (0 ≤ Y s / 4 ≤ 1280) by (Z.div_mod_to_equations; lia). set (y4 := Y s / 4) in *. clearbody y4.
  set (e := entry _ _ _) in *. clearbody e. destruct Hqe as [->|[H1 H2]]; [|by rewrite !(proj2 (Z.ltb_lt _ 0)) by lia].
  destruct (Z.ltb_spec (e + y4) 0); [done|]. set (dql := e + y4) in *. f_equal.
  rewrite (land_ones_mod 4 (Z.shiftr dql 7)), (land_ones_mod 7 dql) by done. rewrite !shr_div by lia. change (2 ^ 7) with 128. change (2 ^ 4) with 16.
  rewrite (Z.mod_small (dql / 128)) by (Z.div_mod_to_equations; lia). unfold shl. assert (0 ≤ dql / 128) by (Z.div_mod_to_equations; lia).
  rewrite u64_small by (unfold is_u64; Z.div_mod_to_equations; lia). rewrite Z.shiftl_mul_pow2 by done. done.
Qed.

Lemma transition_TRANS n msb s q : 34816 ≤ YL s ≤ 327680 → transition id (program n msb s) q = Z.b2z (TD s && (threshold s <? q)).
Proof.
  intros Hyl. unfold transition, threshold. cbn [yl td program]. rewrite !shr_div by lia. rewrite (land_ones_mod 5) by done.
  change (2 ^ 5) with 32. change (0x1F * 2 ^ 10) with (31 * 2 ^ 10). unfold shl, add, mul, id.
  rewrite u64_small by (unfold is_u64; Z.div_mod_to_equations; lia).
  rewrite Z.shiftl_mul_pow2 by (Z.div_mod_to_equations; lia). set (t := if 9 <? _ then _ else _). clearbody t.
  assert (E : 3 * t / 2 ^ 2 = (t + t / 2) / 2) by (change (2 ^ 2) with 4; Z.div_mod_to_equations; lia). rewrite E.
  by destruct (TD s), (_ <? q).
Qed.

(** The predictor's coefficients, the speed control and the scale factors. *)
Lemma adapt_UPA n msb s (tr : bool) pk0 dq0 : length (B s) = length (DQ s) → Forall (λ x, x = -1 ∨ x = 0 ∨ x = 1) [PK1 s; PK2 s; pk0] →
  - 12288 ≤ A2 s ≤ 12288 →
  adapt id (program n msb s) (Z.b2z tr) pk0 dq0 =
  let fa := limit (-256) 255 (- A1 s * PK1 s * pk0 / 32) in
  let a2 := limit (-12288) 12288 (A2 s + 128 * pk0 * PK2 s + fa - A2 s / 128) in
  let a1 := limit (a2 - 15360) (15360 - a2) (A1 s + 192 * pk0 * PK1 s - A1 s / 256) in
  (if tr then 0 else a1, if tr then 0 else a2,
   if tr then repeat 0 6 else zip_with (λ x (q : bool * Z), x + 128 * dq0 * (if q.1 then -1 else 1) - x / 256) (B s) (DQ s)).
Proof.
  intros Hl Hp Ha2. unfold adapt. cbn [a b pk dq program nth]. destruct tr; [done|]. cbn [Z.b2z negb Z.eqb]. cbv zeta.
  unfold clipIntp2, add, sub, mul, g726.neg, shl, id. rewrite !u64_small by (unfold is_u64; lia). rewrite !shr_div by lia.
  rewrite (Z.shiftl_mul_pow2 1 8) by lia. change (- (1 * 2 ^ 8)) with (-256). change (1 * 2 ^ 8 - 1) with 255. change (2 ^ 5) with 32. change (2 ^ 7) with 128. change (2 ^ 8) with 256.
  rewrite (clip_limit _ (-256) 255), (clip_limit _ (-12288) 12288) by lia. set (fa := limit (-256) 255 _).
  replace (A2 s + (128 * pk0 * PK2 s + fa - A2 s / 128)) with (A2 s + 128 * pk0 * PK2 s + fa - A2 s / 128) by lia.
  set (a2 := limit (-12288) 12288 _). assert (Hr : -12288 ≤ a2 ≤ 12288) by (unfold a2, limit; lia). rewrite clip_limit by lia.
  replace (- (15360 - a2)) with (a2 - 15360) by lia.
  replace (A1 s + (192 * pk0 * PK1 s - A1 s / 256)) with (A1 s + 192 * pk0 * PK1 s - A1 s / 256) by lia. f_equal.
  clear - Hl. revert Hl. generalize (DQ s). induction (B s) as [|x bs IH]; intros [|q qs] Hl; try done. cbn [fmap list_fmap zip_with].
  f_equal; [|apply IH; cbn in Hl; lia]. rewrite shr_div by lia. change (2 ^ 8) with 256. destruct q as [[] m]; cbn [sign floats fst Z.b2z].
  - replace (sgn (- (1))) with (-1) by done. lia.
  - replace (sgn (- (0))) with 1 by done. cbn [fst]. lia.
Qed.

Lemma approach_shift k m t x : 0 ≤ k → t = 2 ^ k * m → x + (m + Z.shiftr (- x) k) = approach k t x.
Proof.
  intros Hk ->. unfold approach. rewrite shr_div by done. replace (2 ^ k * m - x) with (- x + m * 2 ^ k) by lia.
  rewrite Z.div_add by (apply Z.pow_nonzero; lia). lia.
Qed.

Lemma speed_FILT n msb s (tr td' : bool) f : 
  speedControl id (program n msb s) (Z.b2z tr) (Z.b2z td') f =
  let dms := approach 5 (512 * f) (DMS s) in
  let dml := approach 7 (2048 * f) (DML s) in
  let AX := (Y s <? 1536) || td' || (dml / 8 <=? Z.abs (4 * dms - dml)) in
  (dms, dml, if tr then 256 else approach 4 (if AX then 512 else 0) (AP s)).
Proof.
  unfold speedControl. cbn [dms dml ap y program]. unfold add, sub, abs32, g726.neg, shl, id. rewrite !u64_small by (unfold is_u64; lia).
  rewrite !Z.shiftl_mul_pow2 by lia. rewrite (approach_shift 5 _ (512 * f)), (approach_shift 7 _ (2048 * f)) by lia.
  cbv zeta. set (m := approach 5 _ _). set (l := approach 7 _ _). rewrite (shr_div l 3) by lia. f_equal.
  destruct tr; [done|]. cbn [Z.b2z negb Z.eqb].
  assert (E : ((Y s <=? 1535) || negb (Z.b2z td' =? 0) || (l / 2 ^ 3 <=? (if m * 2 ^ 2 - l <? 0 then - (m * 2 ^ 2 - l) else m * 2 ^ 2 - l))) =
    ((Y s <? 1536) || td' || (l / 8 <=? Z.abs (4 * m - l)))).
  { change (2 ^ 3) with 8. f_equal; [f_equal; [lia|by destruct td']|]. f_equal. destruct (Z.ltb_spec (m * 2 ^ 2 - l) 0); lia. }
  rewrite E. generalize ((Y s <? 1536) || td' || (l / 8 <=? Z.abs (4 * m - l))). intros [].
  - rewrite <- (approach_shift 4 32 512) by lia. generalize (Z.shiftr (- AP s) 4). lia.
  - rewrite <- (approach_shift 4 0 0) by lia. generalize (Z.shiftr (- AP s) 4). lia.
Qed.

Lemma scale_LIMB n msb s ap' w : 
  scaleFactors id (program n msb s) ap' w =
  let yu := limit 544 5120 (approach 5 (32 * w) (Y s)) in
  let yl := approach 6 (64 * yu) (YL s) in
  (yu, yl, (yl + (yu - yl / 64) * Z.min 64 (ap' / 4)) / 64).
Proof.
  unfold scaleFactors. cbn [y yl program]. unfold add, sub, mul, g726.neg, id. rewrite clip_limit by lia.
  replace (Y s + w + Z.shiftr (- Y s) 5) with (Y s + (w + Z.shiftr (- Y s) 5)) by lia. rewrite (approach_shift 5 _ (32 * w)) by lia.
  cbv zeta. set (yu := limit _ _ _). rewrite (approach_shift 6 yu (64 * yu)) by lia. set (l := approach 6 _ _). rewrite !shr_div by lia.
  change (2 ^ 6) with 64. change (2 ^ 2) with 4. f_equal. do 3 f_equal. destruct (Z.leb_spec 256 ap'); Z.div_mod_to_equations; lia.
Qed.

Record good (n : Z) (msb : bool) (s : State) : Prop := {
  g_dec : dec_ok (program n msb s);
  g_dq : length (DQ s) = 6%nat ∧ Forall history_ok (DQ s);
  g_sr : - 32768 ≤ SR1 s ≤ 32767 ∧ - 32768 ≤ SR2 s ≤ 32767
}.

Lemma good_state n msb s : good n msb s → state_ok s ∧ Forall (λ x, x = -1 ∨ x = 0 ∨ x = 1) [PK1 s; PK2 s] ∧
  34816 ≤ YL s ≤ 327680 ∧ 544 ≤ Y s ≤ 5120.
Proof.
  intros [Hd Hq Hs]. destruct (ok_a _ Hd) as (a0 & a1 & Ea & H0 & H1). injection Ea as <- <-. destruct (ok_pk _ Hd) as (p0 & p1 & Ep & P0 & P1).
  injection Ep as <- <-. split; [split; [done|exact (ok_b _ Hd)|done|done]|]. split; [|exact (conj (ok_yl _ Hd) (ok_y _ Hd))].
  constructor; [lia|]. constructor; [lia|constructor].
Qed.

Lemma good_initial n msb : 2 ≤ n ≤ 5 → good n msb initial.
Proof.
  intros Hn. assert (Hr : is_rate (rate n)) by (unfold rate, is_rate; repeat case_match; auto).
  split; [|split; [done|repeat constructor; cbn; lia]|cbn; lia].
  rewrite <- (program_initial n msb (mkDecoder (rate n) msb [] [] [] [] [] 0 0 0 0 0 0 0 0 0)) by done. by apply Reset_wf.
Qed.

Lemma sgn_Zsgn x : (if negb (x =? 0) then sgn x else 0) = Z.sgn x.
Proof. unfold sgn. destruct (Z.eqb_spec x 0) as [->|]; [done|]. cbn [negb]. destruct (Z.ltb_spec x 0); lia. Qed.

(** The program's step is the standard's. *)
Lemma sample_step n msb s c : 2 ≤ n ≤ 5 → 0 ≤ c < 2 ^ n → good n msb s →
  decodeSample id c (program n msb s) = Ok ((sample s n c).1, program n msb (sample s n c).2) ∧ good n msb (sample s n c).2.
Proof.
  intros Hn Hc Hg. destruct (good_state n msb s Hg) as ([Ha Hb Hq Hs] & Hpk & Hyl & Hy). destruct (table_entries n c Hn Hc) as (Hbits & _ & Hw & Hf & Hneg).
  assert (Hcode : is_code (rt (program n msb s)) c) by (unfold is_code; cbn [rt program]; by rewrite Hbits).
  destruct (decodeSample_ok id c _ (g_dec _ _ _ Hg) Hcode) as (x & d' & E & _ & Hd' & _).
  destruct (inverseQuant_ok id _ c (g_dec _ _ _ Hg) Hcode) as (q & Hiq & _ & Hqr). rewrite inverseQuant_ANTILOG in Hiq by done.
  injection Hiq as Hiq. assert (Hm : 0 ≤ ANTILOG s (entry (DQLN n) n c) ≤ 32640) by lia.
  enough (H : decodeSample id c (program n msb s) = Ok ((sample s n c).1, program n msb (sample s n c).2) ∧
    history_ok (negative n c, ANTILOG s (entry (DQLN n) n c)) ∧ - 32768 ≤ SR1 (sample s n c).2 ≤ 32767).
  { destruct H as (H & H1 & H2). split; [done|]. rewrite H in E. injection E as _ <-. split; [done| |split; [done|apply Hs]].
    destruct Hq as [Hql Hqf]. split; [cbn; rewrite length_take; lia|]. cbn. constructor; [done|by apply Forall_take]. }
  split; [|split; [unfold history_ok; cbn [snd]; lia|]].
  2: { unfold sample. cbn [snd SR1]. rewrite <- i16_TC16. pose proof (i16_range (SE s + (if negative n c then - ANTILOG s (entry (DQLN n) n c) else ANTILOG s (entry (DQLN n) n c)))). lia. }
  unfold decodeSample in *. cbn [rt program] in *. rewrite Hbits, Hneg, Hw, Hf, inverseQuant_ANTILOG, !bind_Ok in * by done.
  rewrite transition_TRANS in * by done. set (dm := ANTILOG s _) in *.
  assert (Hdq : (if negb (Z.b2z (negative n c) =? 0) then g726.neg id dm else dm) = if negative n c then - dm else dm) by (by destruct (negative n c)).
  rewrite Hdq in *. set (dqv := if negative n c then - dm else dm) in *. clear Hdq.
  change (add id (sez (program n msb s)) dqv) with (SEZ s + dqv) in *. change (add id (se (program n msb s)) dqv) with (SE s + dqv) in *.
  rewrite !sgn_Zsgn, i16_TC16 in E |- *. rewrite adapt_UPA in E |- * by
    first [lia | by rewrite (proj1 Hb), (proj1 Hq) | apply (Forall_app_2 _ [_; _] [_]); [done|constructor; [lia|constructor]]].
  assert (Habs : Z.abs dqv = dm) by (unfold dqv; destruct (negative n c); lia).
  assert (Hhist : mkFloat (Z.b2z (negative n c)) (exp (i2f id dqv)) (mant (i2f id dqv)) = floats (negative n c) dm).
  { rewrite floats_i2f by lia. unfold signed. by rewrite Habs. }
  rewrite Hhist, floats_i2f in E |- * by (pose proof (i16_range (SE s + dqv)); rewrite <- i16_TC16; lia). cbv beta match zeta in E |- *.
  rewrite !bind_Ok in E |- *.
  assert (Htd : ∀ z, (if z <? -11776 then 1 else 0) = Z.b2z (z <? -11776)) by done. rewrite Htd in E |- *. clear Htd.
  rewrite speed_FILT in E |- *. cbv beta match zeta in E |- *. rewrite bind_Ok, scale_LIMB in E |- *. cbv beta match zeta in E |- *.
  set (s' := (sample s n c).2). assert (Hok : state_ok s').
  { destruct (estimate id _ _ _ _) as [z e] in E. apply Ok_inv in E. injection E as _ <-. destruct (ok_a _ Hd') as (a0 & a1 & Ea & H0 & H1). injection Ea as <- <-.
    split; [split; [exact H0|exact H1]|exact (ok_b _ Hd')| |].
    - destruct Hq as [Hql Hqf]. split; [cbn; rewrite length_take; lia|]. cbn. constructor; [unfold history_ok; cbn; lia|by apply Forall_take].
    - split; [|exact (proj1 Hs)]. pose proof (i16_range (SE s + dqv)) as Hr. change (- 2 ^ 15 ≤ SR1 s' < 2 ^ 15) in Hr. lia. }
  pose proof (estimate_SE s' Hok) as Hest. change (dq (program n msb s)) with ((λ q : bool * Z, floats q.1 q.2) <$> DQ s). rewrite <- fmap_take.
  match goal with |- (let '(_, _) := ?e in _) = _ => change e with (estimate id [A1 s'; A2 s'] (B s') [signed (SR1 s'); signed (SR2 s')] ((λ q : bool * Z, floats q.1 q.2) <$> DQ s')) end.
  rewrite Hest. cbv beta match zeta. unfold mret, res_ret. f_equal. f_equal.
  - rewrite i16_TC16, clip_limit by lia. unfold sample. cbn [fst]. unfold mul, id. f_equal. f_equal. apply Z.mul_comm.
  - assert (Hk : (if negb (Z.sgn (SEZ s + dqv) =? 0) then Z.sgn (SEZ s + dqv) else 1) = if Z.sgn (SEZ s + dqv) =? -1 then -1 else 1) by (by destruct (SEZ s + dqv)).
    rewrite Hk. reflexivity.
Qed.

Lemma run_app n cs cs' s : run n (cs ++ cs') s =
  ((run n cs s).1 ++ (run n cs' (run n cs s).2).1, (run n cs' (run n cs s).2).2).
Proof.
  revert s. induction cs as [|c cs IH]; intros s; cbn [run app fst snd]; [by destruct (run n cs' s)|].
  destruct (sample s n c) as [x s1]. rewrite IH. by destruct (run n cs s1).
Qed.
Lemma run_length n cs s : length (run n cs s).1 = length cs.
Proof.
  revert s. induction cs as [|c cs IH]; intros s; [done|]. cbn [run length]. destruct (sample s n c) as [x s1]. specialize (IH s1).
  destruct (run n cs s1). cbn in *. by rewrite IH.
Qed.

Lemma samples_run n msb cs : 2 ≤ n ≤ 5 → ∀ s, good n msb s → Forall (λ c, 0 ≤ c < 2 ^ n) cs →
  samples cs (program n msb s) = Ok ((run n cs s).1, program n msb (run n cs s).2) ∧ good n msb (run n cs s).2.
Proof.
  intros Hn. induction cs as [|c cs IH]; intros s Hg Hc; [done|]. apply Forall_cons_iff in Hc as [Hc Hcs].
  destruct (sample_step n msb s c Hn Hc Hg) as [E Hg']. cbn [samples run]. rewrite E, bind_Ok. destruct (sample s n c) as [x s1]. cbn [fst snd] in *.
  destruct (IH s1 Hg' Hcs) as [E2 Hg2]. rewrite E2, bind_Ok. by destruct (run n cs s1).
Qed.

(** ** The life of a decoder *)

(** [decoded br packing cs d]: a decoder that [New] made has decoded the codewords [cs] since it was made
    or last reset, whatever calls it refused in between. *)
Inductive decoded (br packing : Z) : list Z → Decoder → Prop :=
| decoded_new d : New br packing = Ok d → decoded br packing [] d
| decoded_packet cs d dst payload cs' k dst' d' : decoded br packing cs d → bytes_ok payload →
    carries (packing =? 1) (br + 2) payload cs' → Decode dst payload d = Ok (k, dst', d', None) →
    decoded br packing (cs ++ cs') d'
| decoded_refused cs d dst payload k dst' d' e : decoded br packing cs d → bytes_ok payload →
    Decode dst payload d = Ok (k, dst', d', Some e) → decoded br packing cs d'
| decoded_reset cs d : decoded br packing cs d → decoded br packing [] (Reset d).

Lemma New_program br packing d : New br packing = Ok d → 2 ≤ br + 2 ≤ 5 ∧ d = program (br + 2) (packing =? 1) initial.
Proof.
  unfold New, rateTables. intros H. assert (Hb : br = 0 ∨ br = 1 ∨ br = 2 ∨ br = 3) by (repeat case_match; try done; lia).
  split; [lia|]. destruct Hb as [->|[->|[->| ->]]]; cbn [Z.eqb Pos.eqb] in H; destruct (_ || _) in H; try done; injection H as <-; reflexivity.
Qed.

Lemma rate_rt n : 2 ≤ n ≤ 5 → bits (rate n) = n.
Proof. intros Hn. by destruct (table_entries n 0 Hn ltac:(split; [lia|apply Z.pow_pos_nonneg; lia])). Qed.

Lemma carries_codes msb n payload pos cs : carries_from msb n payload pos cs → Forall (λ c, 0 ≤ c < 2 ^ n) cs.
Proof. revert pos. induction cs as [|c cs IH]; intros pos; [constructor|]. intros [[Hc _] Hcs]. constructor; [done|by eapply IH]. Qed.

Lemma Decode_run n msb s dst payload cs : 2 ≤ n ≤ 5 → good n msb s → bytes_ok payload → carries msb n payload cs → 2 * blen cs ≤ blen dst →
  Decode dst payload (program n msb s) = Ok (2 * blen cs, pcm (run n cs s).1 ++ drop (2 * length cs) dst, program n msb (run n cs s).2, None).
Proof.
  intros Hn Hg Hb Hc Hd. assert (Hc' : carries (msbFirst (program n msb s)) (bits (rt (program n msb s))) payload cs) by (cbn; by rewrite rate_rt).
  destruct (Decode_carried _ payload cs dst (g_dec _ _ _ Hg) Hb Hc' Hd) as (ss & d' & E & _ & _ & _ & _ & ED).
  destruct (carries_len _ payload cs (g_dec _ _ _ Hg) Hc') as (_ & Ho & _).
  destruct (samples_run n msb cs Hn s Hg) as [E2 _]; [destruct Hc as [_ Hc]; by eapply carries_codes|].
  rewrite E2 in E. injection E as <- <-. rewrite ED, Ho. by replace (Z.to_nat (2 * blen cs)) with (2 * length cs)%nat by (unfold blen; lia).
Qed.

Lemma decoded_program br packing cs d : decoded br packing cs d → 2 ≤ br + 2 ≤ 5 ∧ d = program (br + 2) (packing =? 1) (run (br + 2) cs initial).2 ∧
  good (br + 2) (packing =? 1) (run (br + 2) cs initial).2.
Proof.
  induction 1 as [d H|cs d dst payload cs' k dst' d' _ (Hn & -> & Hg) Hb Hc HD|cs d dst payload k dst' d' e _ (Hn & -> & Hg) Hb HD|cs d _ (Hn & -> & Hg)].
  - destruct (New_program br packing d H) as [Hn ->]. split; [done|]. split; [done|by apply good_initial].
  - split; [done|]. rewrite run_app. cbn [snd]. destruct (samples_run (br + 2) (packing =? 1) cs' Hn _ Hg) as [_ Hg'].
    { destruct Hc as [_ Hc]. by eapply carries_codes. }
    split; [|done]. set (s := (run (br + 2) cs initial).2) in *.
    destruct (Z.le_gt_cases (2 * blen cs') (blen dst)) as [Hl|Hl].
    { rewrite (Decode_run _ _ _ _ _ cs' Hn Hg Hb Hc Hl) in HD. by injection HD as _ _ <-. }
    exfalso. assert (Hc' : carries (msbFirst (program (br + 2) (packing =? 1) s)) (bits (rt (program (br + 2) (packing =? 1) s))) payload cs')
      by (cbn; by rewrite rate_rt).
    destruct (carries_len _ payload cs' (g_dec _ _ _ Hg) Hc') as (Hw & Ho & _).
    destruct (Decode_cases _ payload dst (g_dec _ _ _ Hg) Hb) as (k2 & b2 & d2 & e2 & E & _ & _ & He & _).
    unfold wholeCodewords in Hw. rewrite Hw in He. cbn [negb] in He. rewrite Ho, (proj2 (Z.ltb_lt _ _)) in He by lia. rewrite HD in E. congruence.
  - split; [done|]. destruct (Decode_cases _ payload dst (g_dec _ _ _ Hg) Hb) as (k2 & b2 & d2 & e2 & E & _ & _ & _ & He & _).
    rewrite HD in E. injection E as <- <- <- <-. cbn in He. destruct He as (_ & _ & ->). done.
  - split; [done|]. split; [|by apply good_initial]. by apply program_initial.
Qed.

(** ** Properties *)

(** C28: what a decoder writes is what the standard's recurrence says.  Take a decoder that [New]
    made and that has since decoded any packets, in either packing, with refused calls and resets in
    between.  The next packet, of whole codewords in that packing, is decoded to exactly the
    little-endian samples that the recurrence of ITU-T G.726 section 4.2, run from its initial state over
    every codeword since the last reset, gives for the codewords of this packet; nothing after them in
    the buffer changes, and the decoder goes on from there.  The recurrence is written from the
    standard's blocks and tables (up to the three marked departures), not from the program:
    so tables, thresholds, the values carried over between samples and the internal floating-point
    form are right, and no int32 operation wraps. *)
Theorem Decode_stream br packing cs d payload cs' dst : decoded br packing cs d → bytes_ok payload →
  carries (packing =? 1) (br + 2) payload cs' → 2 * blen cs' ≤ blen dst →
  ∃ d', Decode dst payload d =
      Ok (2 * blen cs', pcm (drop (length cs) (run (br + 2) (cs ++ cs') initial).1) ++ drop (2 * length cs') dst, d', None) ∧
    decoded br packing (cs ++ cs') d'.
Proof.
  intros Hd Hb Hc Hl. destruct (decoded_program _ _ _ _ Hd) as (Hn & -> & Hg).
  pose proof (Decode_run _ _ _ dst payload cs' Hn Hg Hb Hc Hl) as E. eexists. split; [|by eapply decoded_packet].
  rewrite E, run_app. cbn [fst]. by rewrite drop_app_length' by (by rewrite run_length).
Qed.

Lemma Decode_stream_witness : ∃ d', Decode (repeat 7 9) [0x21; 0x73] (demo true) =
  Ok (8, pcm (run 4 [2; 1; 7; 3] initial).1 ++ [7], d', None).
Proof.
  destruct (Decode_stream 2 1 [] (demo true) [0x21; 0x73] [2; 1; 7; 3] (repeat 7 9)) as (d' & E & _);
    [apply decoded_new; reflexivity|repeat constructor; by vm_compute|exact demo_carries|by vm_compute|].
  exists d'. exact E.
Defined.

(** Overload: twelve codewords of the largest step, and the output has changed sign; the code
    limits to 17 bits before it converts to 16. *)
Example overload_wraps : (run 4 (repeat 7 12) initial).1 = [88; 104; 128; 192; 260; 416; 640; 1128; 2244; 5008; 14620; -18256].
Proof. vm_compute. reflexivity. Qed.

End itu.
