(* ===== verification/Pcm.v ===== *)
(** * The stateless PCM and Opus payloads: [depacket/g711/g711.go], [packet/l16/l16.go],
    [depacket/opus/opus.go] and [packet/opus/opus.go]

    G.711 expansion is checked against the formulas of the Recommendation and against a
    reference encoder; the L16 packetizer is checked as a partition that the byte swap of the
    receiving side undoes. *)
From S2P Require Import Prelude Bytes.

Module g711.

Inductive err := ErrShortBuffer | ErrUnknownLaw.

(** [audiostream.Law]; the type is a byte, so other values are possible. *)
Definition MuLaw : Z := 0.
Definition ALaw : Z := 1.

Definition muLawExpand (b : Z) : Z :=
  let bias := 0x84 in
  let u := u8 (Z.lnot b) in
  let sign := Z.land u 0x80 in
  let exponent := Z.land (Z.shiftr u 4) 0x07 in
  let mantissa := Z.land u 0x0F in
  let t := i64 (Z.shiftl (Z.shiftl mantissa 3 + bias) exponent) in
  if negb (sign =? 0) then i16 (bias - t) else i16 (t - bias).

Definition aLawExpand (b : Z) : Z :=
  let a := Z.lxor b 0x55 in
  let seg := Z.land (Z.shiftr a 4) 0x07 in
  let t := Z.shiftl (Z.land a 0x0F) 4 in
  let t := if seg =? 0 then t + 8 else if seg =? 1 then t + 0x108 else i64 (Z.shiftl (t + 0x108) (seg - 1)) in
  if negb (Z.land a 0x80 =? 0) then i16 t else i16 (- t).

(** The tables [init] builds. *)
Definition muLawTable : list Z := muLawExpand <$> seqZ 0 256.
Definition aLawTable : list Z := aLawExpand <$> seqZ 0 256.

Fixpoint expand_loop (table dst payload : list Z) (i : Z) : res no_err (list Z) :=
  match payload with
  | [] => mret dst
  | b :: payload =>
      s ← byte_at table b;
      dst ← put_le16 dst (2 * i) (u16 s);
      expand_loop table dst payload (i + 1)
  end.

(** [Depacketize]: the count, the buffer and the error. *)
Definition Depacketize (dst payload : list Z) (law : Z) : res no_err (Z * list Z * option err) :=
  if blen payload =? 0 then mret (0, dst, None)
  else
    let need := 2 * blen payload in
    if blen dst <? need then mret (0, dst, Some ErrShortBuffer)
    else if law =? MuLaw then dst ← expand_loop muLawTable dst payload 0; mret (need, dst, None)
    else if law =? ALaw then dst ← expand_loop aLawTable dst payload 0; mret (need, dst, None)
    else mret (0, dst, Some ErrUnknownLaw).

Definition DepacketizeAlloc (payload : list Z) (law : Z) : res no_err (list Z + err) :=
  '(_, dst, e) ← Depacketize (repeat 0 (Z.to_nat (2 * blen payload))) payload law;
  mret (match e with Some e => inr e | None => inl dst end).

(** ** The Recommendation

    A code is a sign, a segment [e] and a step [m]; the output is scaled to 16 bits. *)
Definition mu_value (e m : Z) : Z := 4 * ((2 * m + 33) * 2 ^ e - 33).
Definition a_value (e m : Z) : Z := 8 * (if e =? 0 then 2 * m + 1 else (2 * m + 33) * 2 ^ (e - 1)).

(** The encoder: the segment of a magnitude, then the step in it. *)
Definition mu_encode (s : Z) : Z :=
  let mag := Z.min (Z.abs s) 32635 + 132 in
  let e := Z.log2 mag - 7 in
  255 - ((if s <? 0 then 128 else 0) + 16 * e + (mag / 2 ^ (e + 3)) mod 16).
Definition a_encode (s : Z) : Z :=
  let mag := Z.min (Z.abs s) 32767 in
  let e := if mag <? 256 then 0 else Z.log2 mag - 7 in
  Z.lxor 0x55 ((if s <? 0 then 0 else 128) + 16 * e + (if e =? 0 then mag / 16 else (mag / 2 ^ (e + 3)) mod 16)).

(** The octet of sign [neg], segment [e] and step [m]. *)
Definition mu_code (neg : bool) (e m : Z) : Z := 255 - ((if neg then 128 else 0) + 16 * e + m).
Definition a_code (neg : bool) (e m : Z) : Z := Z.lxor 0x55 ((if neg then 0 else 128) + 16 * e + m).

Definition all_codes (P : bool → Z → Z → bool) : bool :=
  forallb (λ e, forallb (λ m, P false e m && P true e m) (seqZ 0 16)) (seqZ 0 8).

Lemma all_codes_spec P neg e m : all_codes P = true → 0 ≤ e < 8 → 0 ≤ m < 16 → P neg e m = true.
Proof.
  intros H He Hm. unfold all_codes in H. rewrite forallb_forall in H.
  specialize (H e). rewrite <- list_elem_of_In, elem_of_seqZ in H. specialize (H ltac:(lia)).
  rewrite forallb_forall in H. specialize (H m). rewrite <- list_elem_of_In, elem_of_seqZ in H.
  specialize (H ltac:(lia)). apply andb_true_iff in H as [H1 H2]. by destruct neg.
Qed.

Definition signed (neg : bool) (v : Z) : Z := if neg then - v else v.

(** One check of all 256 codes per law: the value is the Recommendation's, it fits, and
    encoding the value gives the code back. *)
Lemma mu_law_codes neg e m : 0 ≤ e < 8 → 0 ≤ m < 16 →
  muLawExpand (mu_code neg e m) = signed neg (mu_value e m) ∧
  mu_encode (signed neg (mu_value e m)) = mu_code (neg && negb (mu_value e m =? 0)) e m ∧
  0 ≤ mu_value e m ≤ 32124 ∧ is_u8 (mu_code neg e m).
Proof.
  intros He Hm.
  pose proof (all_codes_spec (λ neg e m, (muLawExpand (mu_code neg e m) =? signed neg (mu_value e m)) &&
    (mu_encode (signed neg (mu_value e m)) =? mu_code (neg && negb (mu_value e m =? 0)) e m) &&
    ((0 <=? mu_value e m) && (mu_value e m <=? 32124)) && ((0 <=? mu_code neg e m) && (mu_code neg e m <? 256)))
    neg e m ltac:(vm_compute; reflexivity) He Hm) as H.
  cbv beta in H. rewrite !andb_true_iff, !Z.eqb_eq, !Z.leb_le, Z.ltb_lt in H. unfold is_u8. tauto.
Qed.

Lemma a_law_codes neg e m : 0 ≤ e < 8 → 0 ≤ m < 16 →
  aLawExpand (a_code neg e m) = signed neg (a_value e m) ∧
  a_encode (signed neg (a_value e m)) = a_code neg e m ∧
  8 ≤ a_value e m ≤ 32256 ∧ is_u8 (a_code neg e m).
Proof.
  intros He Hm.
  pose proof (all_codes_spec (λ neg e m, (aLawExpand (a_code neg e m) =? signed neg (a_value e m)) &&
    (a_encode (signed neg (a_value e m)) =? a_code neg e m) &&
    ((8 <=? a_value e m) && (a_value e m <=? 32256)) && ((0 <=? a_code neg e m) && (a_code neg e m <? 256)))
    neg e m ltac:(vm_compute; reflexivity) He Hm) as H.
  cbv beta in H. rewrite !andb_true_iff, !Z.eqb_eq, !Z.leb_le, Z.ltb_lt in H. unfold is_u8. tauto.
Qed.

(** The expansion a law names, if it names one. *)
Definition expander (law : Z) : option (Z → Z) :=
  if law =? MuLaw then Some muLawExpand else if law =? ALaw then Some aLawExpand else None.

Lemma table_entry f b : is_u8 b → byte_at (E:=no_err) (f <$> seqZ 0 256) b = Ok (f b).
Proof.
  intros Hb. unfold is_u8 in Hb. destruct (@byte_at_inside no_err (f <$> seqZ 0 256) b) as (x & -> & Hx).
  { unfold blen. rewrite length_fmap, length_seqZ. lia. }
  apply list_lookup_fmap_Some in Hx as (y & -> & Hy). apply lookup_seqZ in Hy as [-> _]. do 2 f_equal. lia.
Qed.

Lemma expand_loop_ok f payload : bytes_ok payload → ∀ pre mid post i, blen pre = 2 * i →
  length mid = (2 * length payload)%nat →
  expand_loop (f <$> seqZ 0 256) (pre ++ mid ++ post) payload i = Ok (pre ++ pcm (f <$> payload) ++ post).
Proof.
  induction 1 as [|b payload Hb _ IH]; intros pre mid post i Hi Hm; [by destruct mid|].
  destruct mid as [|x [|z mid]]; [cbn in Hm; lia|cbn in Hm; lia|]. cbn [expand_loop].
  rewrite table_entry by done. rewrite bind_Ok. rewrite <- Hi. cbn [app]. rewrite put_le16_mid, bind_Ok.
  specialize (IH (pre ++ le16 (u16 (f b))) mid post (i + 1)). rewrite <- app_assoc in IH. rewrite IH.
  - rewrite fmap_cons. unfold pcm. rewrite fmap_cons. cbn [concat]. by rewrite <- !app_assoc.
  - rewrite blen_app. change (blen (le16 (u16 (f b)))) with 2. lia.
  - cbn in Hm. lia.
Qed.

(** What [Depacketize] does, case by case. *)
Lemma Depacketize_cases dst payload law : bytes_ok payload →
  Depacketize dst payload law =
    (if blen payload =? 0 then Ok (0, dst, None)
     else if blen dst <? 2 * blen payload then Ok (0, dst, Some ErrShortBuffer)
     else match expander law with
          | None => Ok (0, dst, Some ErrUnknownLaw)
          | Some f => Ok (2 * blen payload, pcm (f <$> payload) ++ drop (Z.to_nat (2 * blen payload)) dst, None)
          end).
Proof.
  intros Hb. unfold Depacketize, expander. destruct (blen payload =? 0); [done|].
  destruct (Z.ltb_spec (blen dst) (2 * blen payload)) as [|Hd]; [done|].
  assert (H : ∀ f, expand_loop (f <$> seqZ 0 256) dst payload 0
    = Ok (pcm (f <$> payload) ++ drop (Z.to_nat (2 * blen payload)) dst)).
  { intros f. replace (Z.to_nat (2 * blen payload)) with (2 * length payload)%nat by (unfold blen; lia).
    rewrite <- (take_drop (2 * length payload) dst) at 1.
    apply (expand_loop_ok f payload Hb [] _ _ 0); [done|]. rewrite length_take. unfold blen in Hd. lia. }
  destruct (law =? MuLaw); [unfold muLawTable; by rewrite H, bind_Ok|].
  destruct (law =? ALaw); [unfold aLawTable; by rewrite H, bind_Ok|done].
Qed.

(** G.711 expansion is the Recommendation's. A payload of companded codes is expanded into
    the little-endian 16-bit samples of its codes, written over the head of the buffer and
    nothing after it; each mu-law and A-law code stands for the value the Recommendation gives
    its sign, segment and step, and the reference encoder maps that value back to the code, except
    that the two mu-law zeros are one; a short buffer and an unknown law write nothing. *)
Theorem g711_exact dst payload law neg e m : bytes_ok payload → 0 ≤ e < 8 → 0 ≤ m < 16 →
  (∀ f, expander law = Some f → 2 * blen payload ≤ blen dst →
     Depacketize dst payload law =
       Ok (2 * blen payload, pcm (f <$> payload) ++ drop (Z.to_nat (2 * blen payload)) dst, None)) ∧
  (∀ f, expander law = Some f → DepacketizeAlloc payload law = Ok (inl (pcm (f <$> payload)))) ∧
  (0 < blen payload → blen dst < 2 * blen payload ∨ expander law = None →
     ∃ er, Depacketize dst payload law = Ok (0, dst, Some er)) ∧
  muLawExpand (mu_code neg e m) = signed neg (mu_value e m) ∧
  aLawExpand (a_code neg e m) = signed neg (a_value e m) ∧
  a_encode (aLawExpand (a_code neg e m)) = a_code neg e m ∧
  mu_encode (muLawExpand (mu_code neg e m)) = mu_code (neg && negb (mu_value e m =? 0)) e m.
Proof.
  intros Hb He Hm. destruct (mu_law_codes neg e m He Hm) as (Hmu & Hmr & _). destruct (a_law_codes neg e m He Hm) as (Ha & Har & _).
  rewrite Hmu, Ha. split_and!; try done.
  - intros f Hf Hd. rewrite Depacketize_cases by done. destruct (Z.eqb_spec (blen payload) 0) as [H0|_].
    + rewrite (blen_zero _ H0). done.
    + rewrite (proj2 (Z.ltb_ge _ _)) by lia. by rewrite Hf.
  - intros f Hf. unfold DepacketizeAlloc. rewrite Depacketize_cases by done. destruct (Z.eqb_spec (blen payload) 0) as [H0|_].
    + rewrite (blen_zero _ H0). done.
    + pose proof (blen_nonneg payload).
      assert (Hl : blen (repeat 0 (Z.to_nat (2 * blen payload))) = 2 * blen payload) by (unfold blen at 1; rewrite repeat_length; lia).
      rewrite Hl, Z.ltb_irrefl, Hf, bind_Ok. rewrite drop_ge by (rewrite repeat_length; lia). by rewrite app_nil_r.
  - intros Hp Hor. rewrite Depacketize_cases by done. destruct (Z.eqb_spec (blen payload) 0); [lia|].
    destruct (Z.ltb_spec (blen dst) (2 * blen payload)); [by eexists|]. destruct Hor as [|Hn]; [lia|].
    rewrite Hn. by eexists.
Qed.

Lemma g711_exact_witness :
  bytes_ok [0xD5; 0x2A] ∧ DepacketizeAlloc [0xD5; 0x2A] ALaw = Ok (inl (pcm (aLawExpand <$> [0xD5; 0x2A]))).
Proof.
  assert (Hb : bytes_ok [0xD5; 0x2A]) by (repeat constructor; by vm_compute). split; [exact Hb|].
  destruct (g711_exact [] [0xD5; 0x2A] ALaw false 0 0 Hb) as (_ & H & _); [lia|lia|]. apply H. reflexivity.
Defined.

End g711.

Module packetl16.

Inductive err := ErrPartialFrame | ErrBadChannels.

Record Packetizer := mkPacketizer { Channels : Z; MaxBytes : Z }.

(** The callback [fn] with the state it closes over; its error stops the iteration. *)
Section split.
Context {S E : Type} (fn : list Z → S → S * option E).

(** The chunk loop; a chunk is at least one octet, so the length is fuel enough. *)
Fixpoint split_loop (fuel : nat) (frameBytes maxPayload : Z) (pcm : list Z) (off frames : Z) (s : S)
    : res no_err (Z * option (err + E) * S) :=
  match fuel with
  | O => Panic
  | Datatypes.S fuel =>
      if off <? blen pcm then
        let end_ := Z.min (i64 (off + maxPayload)) (blen pcm) in
        chunk ← slice pcm off end_;
        let '(s, e) := fn (swap16 chunk) s in
        match e with
        | Some e => mret (frames, Some (inr e), s)
        | None => split_loop fuel frameBytes maxPayload pcm end_ (frames + Z.quot (blen chunk) frameBytes) s
        end
      else mret (frames, None, s)
  end.

(** [Split]: the frames consumed, the error and the callback's state. *)
Definition Split (p : Packetizer) (pcm : list Z) (s : S) : res no_err (Z * option (err + E) * S) :=
  if Channels p <? 1 then mret (0, Some (inl ErrBadChannels), s)
  else
    let frameBytes := i64 (2 * Channels p) in
    if negb (Z.rem (blen pcm) frameBytes =? 0) then mret (0, Some (inl ErrPartialFrame), s)
    else
      let maxPayload := Z.max (i64 (MaxBytes p - Z.rem (MaxBytes p) frameBytes)) frameBytes in
      split_loop (Datatypes.S (length pcm)) frameBytes maxPayload pcm 0 0 s.

(** ** The specification: the callback driven over the pieces of the input *)
Fixpoint chunks (fuel n : nat) (l : list Z) : list (list Z) :=
  match fuel, l with
  | Datatypes.S fuel, _ :: _ => take n l :: chunks fuel n (drop n l)
  | _, _ => []
  end.

Fixpoint drive (frameBytes frames : Z) (ps : list (list Z)) (s : S) : Z * option (err + E) * S :=
  match ps with
  | [] => (frames, None, s)
  | p :: ps =>
      let '(s, e) := fn p s in
      match e with
      | Some e => (frames, Some (inr e), s)
      | None => drive frameBytes (frames + blen p / frameBytes) ps s
      end
  end.

Lemma chunks_shape fuel n l : (0 < n)%nat → (length l ≤ fuel)%nat →
  concat (chunks fuel n l) = l ∧ Forall (λ c, 0 < blen c ≤ Z.of_nat n) (chunks fuel n l) ∧
  (∀ c cs d ds, chunks fuel n l = cs ++ c :: d :: ds → length c = n).
Proof.
  intros Hn. revert l. induction fuel as [|fuel IH]; intros l Hl.
  { destruct l; [|cbn in Hl; lia]. split_and!; [done|constructor|]. intros c [|? ?] d ds; discriminate. }
  destruct l as [|x l]; [split_and!; [done|constructor|intros c [|? ?] d ds; discriminate]|].
  cbn [chunks]. destruct (IH (drop n (x :: l))) as (Hc & Hb & Hlen); [rewrite length_drop; cbn in *; lia|].
  split_and!.
  - cbn [concat]. by rewrite Hc, take_drop.
  - apply Forall_cons_2; [|done]. unfold blen. rewrite length_take. cbn [length]. lia.
  - intros c [|c0 cs] d ds E1.
    + cbn [app] in E1. injection E1 as <- E1. rewrite length_take.
      assert (length (drop n (x :: l)) ≠ 0%nat); [|rewrite length_drop in *; cbn [length] in *; lia].
      intros H0. apply nil_length_inv in H0. rewrite H0 in E1. by destruct fuel.
    + injection E1 as _ E1. by apply Hlen in E1.
Qed.

Lemma whole_chunks k n l fuel : 0 < k → (0 < n)%nat → Z.of_nat n mod k = 0 → blen l mod k = 0 →
  Forall (λ c, blen c mod k = 0) (chunks fuel n l).
Proof.
  intros Hk Hn Hnk. revert l. induction fuel as [|fuel IH]; intros l Hl; [by destruct l; constructor|].
  destruct l as [|x l]; [constructor|]. cbn [chunks]. set (xl := x :: l) in *. apply Forall_cons_2.
  - unfold blen in *. rewrite length_take. destruct (Nat.le_gt_cases n (length xl)); [by rewrite Nat.min_l by lia|by rewrite Nat.min_r by lia].
  - apply IH. unfold blen in *. rewrite length_drop. destruct (Nat.le_gt_cases n (length xl)).
    + rewrite Nat2Z.inj_sub by lia. rewrite Zminus_mod, Hl, Hnk. by apply Z.mod_0_l; lia.
    + replace (length xl - n)%nat with 0%nat by lia. by apply Z.mod_0_l; lia.
Qed.

Lemma split_loop_drive fb mp : 0 < fb → 0 < mp < 2 ^ 63 → mp mod 2 = 0 → ∀ fuel pre rest frames s,
  blen pre + blen rest < 2 ^ 62 → (pre = [] ∨ rest = [] ∨ mp ≤ blen pre) → blen rest mod 2 = 0 → (length rest < fuel)%nat →
  split_loop fuel fb mp (pre ++ rest) (blen pre) frames s
    = Ok (drive fb frames (swap16 <$> chunks fuel (Z.to_nat mp) rest) s).
Proof.
  intros Hfb Hmp Hmp2. induction fuel as [|fuel IH]; intros pre rest frames s Hl Hpre Hr Hf; [lia|].
  cbn [split_loop]. rewrite blen_app. pose proof (blen_nonneg pre) as Hp0. pose proof (blen_nonneg rest) as Hr0.
  destruct (Z.ltb_spec (blen pre) (blen pre + blen rest)).
  2: { assert (rest = []) as -> by (apply blen_zero; lia). done. }
  destruct rest as [|x rest]; [rewrite blen_nil in *; lia|]. cbn [chunks]. set (xr := x :: rest) in *.
  rewrite i64_small by (destruct Hpre as [->|[?|?]]; [rewrite blen_nil in *; lia|done|lia]).
  assert (Hc : blen (take (Z.to_nat mp) xr) = Z.min mp (blen xr)) by (unfold blen; rewrite length_take; lia).
  rewrite <- (take_drop (Z.to_nat mp) xr) at 1.
  rewrite (slice_mid pre (take (Z.to_nat mp) xr) (drop (Z.to_nat mp) xr)) by lia. rewrite bind_Ok, fmap_cons. cbn [drive].
  assert (He : blen (take (Z.to_nat mp) xr) mod 2 = 0).
  { rewrite Hc. destruct (Z.min_spec mp (blen xr)) as [[_ ->]|[_ ->]]; done. }
  destruct (fn (swap16 (take (Z.to_nat mp) xr)) s) as [s' [e|]]; [done|].
  rewrite blen_swap16 by done. rewrite Z.quot_div_nonneg by (lia || apply blen_nonneg).
  replace (Z.min (blen pre + mp) (blen pre + blen xr)) with (blen (pre ++ take (Z.to_nat mp) xr)) by (rewrite blen_app; lia).
  specialize (IH (pre ++ take (Z.to_nat mp) xr) (drop (Z.to_nat mp) xr)
    (frames + blen (take (Z.to_nat mp) xr) / fb) s').
  rewrite <- app_assoc, take_drop in IH.
  assert (Hd : blen (drop (Z.to_nat mp) xr) = blen xr - Z.min mp (blen xr)) by (unfold blen; rewrite length_drop; lia).
  rewrite blen_app, Hc in *. apply IH.
  - rewrite Hd. lia.
  - right. destruct (Z.le_gt_cases (blen xr) mp); [left; apply blen_zero; lia|right; lia].
  - rewrite Hd, Zminus_mod, Hr. destruct (Z.min_spec mp (blen xr)) as [[_ ->]|[_ ->]]; [by rewrite Hmp2|by rewrite Hr].
  - rewrite length_drop. subst xr. cbn [length] in *. lia.
Qed.

Lemma swap_twice (l : list (list Z)) : Forall (λ c, blen c mod 2 = 0) l → swap16 <$> (swap16 <$> l) = l.
Proof. induction 1 as [|c l Hc _ IH]; [done|]. rewrite !fmap_cons, IH. by rewrite swap16_involutive. Qed.

(** The payload cap rounded down to whole frames, at least one frame. *)
Definition cap (p : Packetizer) : Z := Z.max (MaxBytes p - Z.rem (MaxBytes p) (2 * Channels p)) (2 * Channels p).

Lemma cap_range p : 1 ≤ Channels p < 2 ^ 61 → - 2 ^ 63 ≤ MaxBytes p < 2 ^ 63 →
  0 < cap p < 2 ^ 63 ∧ cap p mod (2 * Channels p) = 0 ∧ cap p ≤ Z.max (MaxBytes p) (2 * Channels p) ∧
  i64 (MaxBytes p - Z.rem (MaxBytes p) (2 * Channels p)) = MaxBytes p - Z.rem (MaxBytes p) (2 * Channels p).
Proof.
  intros Hc Hm. unfold cap. set (fb := 2 * Channels p) in *. assert (0 < fb < 2 ^ 62) by (unfold fb; lia). clearbody fb.
  pose proof (Z.quot_rem' (MaxBytes p) fb) as Hq. set (m := MaxBytes p) in *. clearbody m.
  assert (Hr : (0 ≤ m → 0 ≤ Z.rem m fb < fb ∧ Z.rem m fb ≤ m) ∧ (m ≤ 0 → - fb < Z.rem m fb ≤ 0 ∧ m ≤ Z.rem m fb)).
  { split; intros Hs.
    - pose proof (Z.rem_bound_pos m fb ltac:(lia) ltac:(lia)). pose proof (Z.rem_le m fb ltac:(lia) ltac:(lia)). lia.
    - pose proof (Z.rem_bound_pos (- m) fb ltac:(lia) ltac:(lia)). pose proof (Z.rem_le (- m) fb ltac:(lia) ltac:(lia)).
      rewrite Z.rem_opp_l in * by lia. lia. }
  set (r := Z.rem m fb) in *. assert (Hmod : (m - r) mod fb = 0).
  { replace (m - r) with (Z.quot m fb * fb) by lia. apply Z.mod_mul. lia. }
  clearbody r. split_and!; try lia.
  - destruct (Z.max_spec (m - r) fb) as [[_ ->]|[_ ->]]; [by apply Z.mod_same; lia|done].
  - apply i64_small. lia.
Qed.

Lemma mod_even x k : 0 < k → x mod (2 * k) = 0 → x mod 2 = 0.
Proof.
  intros Hk Hx. apply Z.mod_divide; [lia|]. apply Z.mod_divide in Hx; [|lia].
  apply (Z.divide_trans _ (2 * k)); [by exists k; lia|done].
Qed.

(** The L16 packetizer refines its specification: whatever the callback does, [Split]
    calls it on the byte-swapped consecutive pieces of the input, in order, until it fails or the
    input ends, and returns the frames consumed and the callback's error; the pieces are non-empty,
    whole frames, at most [MaxBytes] (one frame where that is less), every one but the last exactly
    the cap, for every 64-bit [MaxBytes]; and swapping the payloads back, as the receiving side
    does, rebuilds the input.  A partial frame or a channel count below one calls nothing. *)
Theorem Split_refines p pcm s :
  - 2 ^ 63 ≤ MaxBytes p < 2 ^ 63 → Channels p < 2 ^ 61 → blen pcm < 2 ^ 62 →
  (Channels p < 1 → Split p pcm s = Ok (0, Some (inl ErrBadChannels), s)) ∧
  (1 ≤ Channels p → blen pcm mod (2 * Channels p) ≠ 0 → Split p pcm s = Ok (0, Some (inl ErrPartialFrame), s)) ∧
  (1 ≤ Channels p → blen pcm mod (2 * Channels p) = 0 → ∃ ps,
     Split p pcm s = Ok (drive (2 * Channels p) 0 ps s) ∧ concat (swap16 <$> ps) = pcm ∧
     Forall (λ c, 0 < blen c ≤ Z.max (MaxBytes p) (2 * Channels p) ∧ blen c mod (2 * Channels p) = 0) ps ∧
     (∀ c cs d ds, ps = cs ++ c :: d :: ds → blen c = cap p)).
Proof.
  intros Hm Hc Hl. unfold Split. split_and!.
  - intros H. by rewrite (proj2 (Z.ltb_lt _ _)) by lia.
  - intros H Hne. rewrite (proj2 (Z.ltb_ge _ _)) by lia. rewrite i64_small by lia.
    rewrite Z.rem_mod_nonneg by (try apply blen_nonneg; lia). cbv zeta. by rewrite (proj2 (Z.eqb_neq _ _) Hne).
  - intros H H0. rewrite (proj2 (Z.ltb_ge _ _)) by lia. rewrite i64_small by lia.
    rewrite Z.rem_mod_nonneg by (try apply blen_nonneg; lia). rewrite H0. cbn [negb Z.eqb].
    destruct (cap_range p) as (Hcap & Hcm & Hle & ->); [lia|lia|]. cbv zeta. fold (cap p).
    set (n := Z.to_nat (cap p)). assert (Hn : (0 < n)%nat) by lia. assert (HnZ : Z.of_nat n = cap p) by lia.
    destruct (chunks_shape (Datatypes.S (length pcm)) n pcm Hn) as (Hcat & Hall & Hlast); [lia|].
    pose proof (whole_chunks (2 * Channels p) n pcm (Datatypes.S (length pcm)) ltac:(lia) Hn ltac:(by rewrite HnZ) H0) as Hwhole.
    assert (Hev : Forall (λ c, blen c mod 2 = 0) (chunks (Datatypes.S (length pcm)) n pcm)).
    { eapply Forall_impl; [|exact Hwhole]. intros c. apply mod_even. lia. }
    exists (swap16 <$> chunks (Datatypes.S (length pcm)) n pcm). split_and!.
    + apply (split_loop_drive (2 * Channels p) (cap p) ltac:(lia) Hcap (mod_even _ (Channels p) ltac:(lia) Hcm) _ [] pcm 0 s);
        [rewrite blen_nil; lia|by left|by apply (mod_even _ (Channels p)); lia|lia].
    + by rewrite swap_twice.
    + rewrite Forall_fmap. rewrite Forall_forall in *. intros c Hin. cbn. rewrite blen_swap16 by by apply Hev.
      split; [|by apply Hwhole]. specialize (Hall c Hin). cbn in Hall. lia.
    + intros c cs d ds E1. apply fmap_app_inv in E1 as (xs & ys & -> & E1 & E2).
      destruct ys as [|y [|z ys]]; [done|done|]. injection E1 as -> -> ->. rewrite blen_swap16.
      * unfold blen. rewrite (Hlast y xs z ys E2). lia.
      * rewrite E2 in Hev. apply Forall_app in Hev as [_ Hev]. by apply Forall_cons_iff in Hev as [? _].
Qed.
End split.

(** Stereo in payloads of at most 10 octets: two frames, then the third. *)
Definition collect (p : list Z) (s : list (list Z)) : list (list Z) * option Empty_set := (s ++ [p], None).

Example split_stereo :
  Split collect (mkPacketizer 2 10) [1; 2; 3; 4; 5; 6; 7; 8; 9; 10; 11; 12] []
  = Ok (3, None, [[2; 1; 4; 3; 6; 5; 8; 7]; [10; 9; 12; 11]]).
Proof. reflexivity. Qed.

Lemma Split_refines_witness :
  blen [1; 2; 3; 4; 5; 6; 7; 8] mod (2 * Channels (mkPacketizer 2 5)) = 0 ∧
  ∃ ps, Split collect (mkPacketizer 2 5) [1; 2; 3; 4; 5; 6; 7; 8] [] = Ok (drive collect 4 0 ps []) ∧
    concat (swap16 <$> ps) = [1; 2; 3; 4; 5; 6; 7; 8].
Proof.
  split; [reflexivity|].
  destruct (Split_refines collect (mkPacketizer 2 5) [1; 2; 3; 4; 5; 6; 7; 8] []) as (_ & _ & H);
    [cbn; lia|cbn; lia|reflexivity|].
  destruct (H ltac:(cbn; lia) ltac:(reflexivity)) as (ps & H1 & H2 & _). exists ps. split; [exact H1|exact H2].
Defined.

End packetl16.

(** RFC 7587: the payload is the Opus packet. *)
Module packetopus.

Inductive err := ErrEmptyPacket | ErrOversizePacket.

Definition maxPacketBytes : Z := 1275 * 48 + 2 + 2 * 47.

Definition Packetize (pkt : list Z) : list Z + err :=
  if blen pkt =? 0 then inr ErrEmptyPacket
  else if maxPacketBytes <? blen pkt then inr ErrOversizePacket
  else inl pkt.

End packetopus.

Module depacketopus.

Inductive err := ErrEmptyPayload.

Definition Depacketize (payload : list Z) : list Z + err :=
  if blen payload =? 0 then inr ErrEmptyPayload else inl payload.

Lemma Depacketize_Packetize_opus pkt p :
  packetopus.Packetize pkt = inl p → p = pkt ∧ Depacketize p = inl pkt.
Proof.
  unfold packetopus.Packetize, Depacketize. destruct (blen pkt =? 0) eqn:E; [done|].
  destruct (_ <? _); [done|]. intros [= <-]. by rewrite E.
Qed.

End depacketopus.
