(* ===== verification/Media.v ===== *)
(** * The public data types: [media.go], [codec.go], [frame.go] and [stats.go]

    Enumerations are the bytes Go keeps them in, so that a value outside the constants is
    possible. *)
From S2P Require Import Prelude Rtcp.

Module audiostream.

Definition MediaUnknown : Z := 0.
Definition MediaAudio : Z := 1.
Definition MediaVideo : Z := 2.
Definition MediaOther : Z := 3.

Definition G726PackingRFC3551 : Z := 0.
Definition G726PackingAAL2 : Z := 1.

Inductive Codec :=
  | CodecAAC (AudioSpecificConfig : list Z)
  | CodecOpus
  | CodecMP3
  | CodecG711 (Law : Z)
  | CodecG726 (BitRate Packing ClockRate Channels : Z)
  | CodecL16 (ClockRate Channels : Z)
  | CodecUnknown (RTPMap : list Z)
  | CodecMP4ALATM (StreamMuxConfig : list Z) (MuxConfigPresent : bool) (AudioSpecificConfig : list Z)
  | CodecFLAC (StreamInfo : list Z).

Record CodecUpdate := mkUpdate { cu_TrackID : Z; cu_Codec : Codec }.

Record Frame := mkFrame {
  TrackID : Z; Data : list Z; RTPTime : Z; PTS : Z; ReceivedAt : rtcp.Time; SeqGap : Z
}.

(** [time.Time.Add] and [time.Time.UnixNano]. *)
Definition time_Add (t : rtcp.Time) (d : Z) : rtcp.Time :=
  let n := rtcp.Nanosecond t + d in
  rtcp.mkTime (rtcp.Unix t + n / rtcp.Second) (n mod rtcp.Second).
Definition UnixNano (t : rtcp.Time) : Z := i64 (rtcp.Unix t * rtcp.Second + rtcp.Nanosecond t).

(** [SenderClock.WallClock] *)
Definition WallClock (sc : rtcp.SenderClock) (rtpTime : Z) : rtcp.Time :=
  if negb (rtcp.Valid sc) || (rtcp.ClockRate sc <=? 0) then rtcp.zero_time
  else
    let delta := i32 (u32 (rtpTime - rtcp.RTPTime sc)) in
    time_Add (rtcp.clk_NTPTime sc) (Z.quot (i64 (delta * rtcp.Second)) (rtcp.ClockRate sc)).

(** The wall-clock time of a sample less than half a turn of the timestamp away from the
    report is the report's time moved by the exact tick distance, rounded towards it. *)
Lemma WallClock_near sc t k :
  rtcp.Valid sc = true → 0 < rtcp.ClockRate sc → - 2 ^ 31 ≤ k < 2 ^ 31 → t = u32 (rtcp.RTPTime sc + k) →
  WallClock sc t = time_Add (rtcp.clk_NTPTime sc) (Z.quot (k * rtcp.Second) (rtcp.ClockRate sc)).
Proof.
  intros Hv Hr Hk ->. unfold WallClock. rewrite Hv. cbn [negb orb]. rewrite (proj2 (Z.leb_gt _ _)) by lia.
  assert (Hd : i32 (u32 (u32 (rtcp.RTPTime sc + k) - rtcp.RTPTime sc)) = k).
  { assert (Hu : u32 (u32 (rtcp.RTPTime sc + k) - rtcp.RTPTime sc) = u32 k).
    { unfold u32. rewrite Zminus_mod_idemp_l. f_equal. lia. }
    rewrite Hu. unfold i32, u32. rewrite Zplus_mod_idemp_l. rewrite Z.mod_small by lia. lia. }
  rewrite Hd. unfold rtcp.Second. rewrite i64_small by lia. done.
Qed.

End audiostream.
