(* ===== verification/Pipeline.v ===== *)
(** * The RTSP track pipeline: [rtsp/pipeline.go] and the packet path of [rtsp/reader.go]

    One [track] is what [newTrack] builds for a described stream; [process] folds one parsed
    RTP packet into it and calls the consumer.  The calls are an event list; [callbacks] says
    which of [Config.OnFrame] and [Config.OnCodecUpdate] are set.  The receive counters and the
    RTCP snapshot, which Go keeps in atomics, are plain fields: each has one writer here. *)
From Stdlib Require Import Ascii String.
From S2P Require Import Prelude Bytes Text RtpPacket Rtcp Stream MediaTime FlacRtp Aac Mpa Latm G726 Pcm Media.
Local Open Scope Z_scope.

(** The outcome of a function whose error channel nothing uses. *)
Definition unfail {E A} (m : res E A) : res no_err A :=
  match m with Ok a => Ok a | Err _ | Panic => Panic end.

Lemma unfail_Ok {E A} (m : res E A) a : m = Ok a → unfail m = Ok a.
Proof. by intros ->. Qed.

Module pipeline.
Import audiostream.

Definition aacHbrMode : list Z := str "AAC-hbr".
Definition aacSamplesPerFrame : Z := 1024.

Inductive codecKind :=
  | deliverRaw | deliverAAC | deliverOpus | deliverG711 | deliverL16 | deliverLATM | deliverG726
  | deliverFLAC | deliverMP3.

(** ** Descriptors *)

(** The fields of [sdp.AACParams] that are read here. *)
Record AACParams := mkAACParams { Mode : list Z; SizeLength : Z; IndexLength : Z; IndexDeltaLength : Z }.

Record describedTrack := mkDescribed {
  d_control : list Z; d_codec : Codec; d_payloadType : Z; d_clockRate : Z; d_media : Z;
  d_aac : option AACParams; latmDepack : option latm.Depacketizer; latmResolved : bool
}.

Record SetupOptions := mkOptions { Discard : bool; G726Packing : Z }.

Definition payloadTypeUnknown : Z := -1.

(** [G726PackingOverride.resolve] *)
Definition resolve (o fromSDP : Z) : Z * bool :=
  if o =? 0 then (fromSDP, true)
  else if o =? 1 then (G726PackingRFC3551, true)
  else if o =? 2 then (G726PackingAAL2, true)
  else (fromSDP, false).

(** ** The track *)

(** What [newTrack] fixes. *)
Record setup := mkSetup {
  id : Z; kind : codecKind; clockRate : Z; law : Z; discard : bool; rtcpChannel : Z; control : list Z;
  sdpPayloadType : Z; l16FrameSize : Z
}.

(** The depacketizers, at most one of them present, the last AudioSpecificConfig reported,
    and the backing array of the PCM scratch buffer. *)
Record codecs := mkCodecs {
  aac_ : option depacketaac.Depacketizer; flac_ : option depacketflac.Depacketizer;
  mp3_ : option depacketmp3.Depacketizer; latm_ : option latm.Depacketizer;
  g726_ : option g726.Decoder; latmASC : option (list Z); pcmBuf : list Z
}.

(** The payload type the track settles on. *)
Record wirept := mkPT { wirePayloadType : Z; wirePTSet : bool; ptCandidate : Z; ptRun : Z }.

Record baseline := mkBaseline { baseTS : Z; baseSet : bool; baselineFixed : bool; seed : Z; hasSeed : bool }.

Record counters := mkCounters {
  packets : Z; payloadBytes : Z; wireBytes : Z; seqGaps : Z; duplicates : Z; reorderDrops : Z;
  malformed : Z; ssrcResets : Z; sourceFiltered : Z; lastFrameUnixNano : Z
}.

(** What the keepalive timer reads. *)
Record snapshot := mkSnapshot {
  rrHighestSeq : Z; rrCumulativeLost : Z; senderSSRC : Z; lastSR : Z; lastSRUnixNano : Z;
  srClock : option rtcp.SenderClock
}.

Record track := mkTrack {
  su : setup; strm : stream.Stream; cod : codecs; pendingGap : Z; wpt : wirept; bas : baseline;
  cnt : counters; snap : snapshot
}.

Definition with_cod (c : codecs) (t : track) : track :=
  mkTrack (su t) (strm t) c (pendingGap t) (wpt t) (bas t) (cnt t) (snap t).
Definition with_pending (g : Z) (t : track) : track :=
  mkTrack (su t) (strm t) (cod t) g (wpt t) (bas t) (cnt t) (snap t).
Definition with_cnt (c : counters) (t : track) : track :=
  mkTrack (su t) (strm t) (cod t) (pendingGap t) (wpt t) (bas t) c (snap t).
Definition with_snap (s : snapshot) (t : track) : track :=
  mkTrack (su t) (strm t) (cod t) (pendingGap t) (wpt t) (bas t) (cnt t) s.
Definition with_bas (b : baseline) (t : track) : track :=
  mkTrack (su t) (strm t) (cod t) (pendingGap t) (wpt t) b (cnt t) (snap t).
Definition with_wpt (p : wirept) (t : track) : track :=
  mkTrack (su t) (strm t) (cod t) (pendingGap t) p (bas t) (cnt t) (snap t).
Definition with_strm (s : stream.Stream) (t : track) : track :=
  mkTrack (su t) s (cod t) (pendingGap t) (wpt t) (bas t) (cnt t) (snap t).

Definition with_aac d c := mkCodecs (Some d) (flac_ c) (mp3_ c) (latm_ c) (g726_ c) (latmASC c) (pcmBuf c).
Definition with_flac d c := mkCodecs (aac_ c) (Some d) (mp3_ c) (latm_ c) (g726_ c) (latmASC c) (pcmBuf c).
Definition with_mp3 d c := mkCodecs (aac_ c) (flac_ c) (Some d) (latm_ c) (g726_ c) (latmASC c) (pcmBuf c).
Definition with_latm d asc c := mkCodecs (aac_ c) (flac_ c) (mp3_ c) (Some d) (g726_ c) asc (pcmBuf c).
Definition with_g726 d c := mkCodecs (aac_ c) (flac_ c) (mp3_ c) (latm_ c) (Some d) (latmASC c) (pcmBuf c).
Definition with_pcm b c := mkCodecs (aac_ c) (flac_ c) (mp3_ c) (latm_ c) (g726_ c) (latmASC c) b.

(** [tr.malformed.Add(1)], [tr.seqGaps.Add(n)] and so on. *)
Definition add_malformed (c : counters) : counters :=
  mkCounters (packets c) (payloadBytes c) (wireBytes c) (seqGaps c) (duplicates c) (reorderDrops c)
    (u64 (malformed c + 1)) (ssrcResets c) (sourceFiltered c) (lastFrameUnixNano c).
Definition add_seqGaps (n : Z) (c : counters) : counters :=
  mkCounters (packets c) (payloadBytes c) (wireBytes c) (u64 (seqGaps c + n)) (duplicates c) (reorderDrops c)
    (malformed c) (ssrcResets c) (sourceFiltered c) (lastFrameUnixNano c).
Definition add_ssrcResets (c : counters) : counters :=
  mkCounters (packets c) (payloadBytes c) (wireBytes c) (seqGaps c) (duplicates c) (reorderDrops c)
    (malformed c) (u64 (ssrcResets c + 1)) (sourceFiltered c) (lastFrameUnixNano c).
Definition add_packet (bytes : Z) (c : counters) : counters :=
  mkCounters (u64 (packets c + 1)) (u64 (payloadBytes c + bytes)) (wireBytes c) (seqGaps c) (duplicates c)
    (reorderDrops c) (malformed c) (ssrcResets c) (sourceFiltered c) (lastFrameUnixNano c).
Definition add_wire (now n : Z) (c : counters) : counters :=
  mkCounters (packets c) (payloadBytes c) (u64 (wireBytes c + n)) (seqGaps c) (duplicates c) (reorderDrops c)
    (malformed c) (ssrcResets c) (sourceFiltered c) now.
Definition add_drops (n : Z) (c : counters) : counters :=
  mkCounters (packets c) (payloadBytes c) (wireBytes c) (seqGaps c) (duplicates c) (u64 (reorderDrops c + n))
    (malformed c) (ssrcResets c) (sourceFiltered c) (lastFrameUnixNano c).
Definition add_filtered (c : counters) : counters :=
  mkCounters (packets c) (payloadBytes c) (wireBytes c) (seqGaps c) (duplicates c) (reorderDrops c)
    (malformed c) (ssrcResets c) (u64 (sourceFiltered c + 1)) (lastFrameUnixNano c).
Definition set_duplicates (n : Z) (c : counters) : counters :=
  mkCounters (packets c) (payloadBytes c) (wireBytes c) (seqGaps c) n (reorderDrops c)
    (malformed c) (ssrcResets c) (sourceFiltered c) (lastFrameUnixNano c).

Definition bad (t : track) : track := with_cnt (add_malformed (cnt t)) t.

(** ** Construction *)
Definition clockRateTicks (rate : Z) : Z :=
  if (rate <=? 0) || (2 ^ 32 - 1 <? rate) then 0 else rate.

Definition no_codecs : codecs := mkCodecs None None None None None None [].

(** The kind, the companding law, the L16 frame size and the codec state of [newTrack]. *)
Record choice := mkChoice { c_kind : codecKind; c_law : Z; c_l16 : Z; c_cod : codecs }.
Definition raw : choice := mkChoice deliverRaw 0 0 no_codecs.

Definition configFromAAC (p : AACParams) : depacketaac.Config :=
  depacketaac.mkConfig (SizeLength p) (IndexLength p) (IndexDeltaLength p) aacSamplesPerFrame.

Definition configureAAC (params : option AACParams) : choice :=
  match params with
  | None => raw
  | Some p =>
      if negb (EqualFold (Mode p) aacHbrMode) then raw
      else match depacketaac.New (configFromAAC p) with
           | inr _ => raw
           | inl dp => mkChoice deliverAAC 0 0 (with_aac dp no_codecs)
           end
  end.

Definition configureG726 (bitRate sdpPacking override : Z) : choice :=
  let '(packing, _) := resolve override sdpPacking in
  match g726.New bitRate packing with
  | Ok dec => mkChoice deliverG726 0 0 (with_g726 dec no_codecs)
  | _ => raw
  end.

Definition configureLATM (streamMuxConfig : list Z) (present : bool) (resolved : option latm.Depacketizer)
    (alreadyResolved : bool) : res no_err choice :=
  let adopt (dp : option latm.Depacketizer) : choice :=
    match dp with
    | None => raw
    | Some dp => mkChoice deliverLATM 0 0 (with_latm dp (latm.AudioSpecificConfig dp) no_codecs)
    end in
  if alreadyResolved then mret (adopt resolved)
  else match latm.New (latm.mkConfig present streamMuxConfig 0) with
       | Panic => Panic
       | Err _ => mret raw
       | Ok dp => mret (adopt (Some dp))
       end.

Definition choose (desc : describedTrack) (opts : SetupOptions) : res no_err choice :=
  if negb (d_media desc =? MediaAudio) then mret raw
  else
    match d_codec desc with
    | CodecAAC _ => mret (configureAAC (d_aac desc))
    | CodecMP4ALATM smc present _ => configureLATM smc present (latmDepack desc) (latmResolved desc)
    | CodecOpus => mret (mkChoice deliverOpus 0 0 no_codecs)
    | CodecG711 l => mret (mkChoice deliverG711 l 0 no_codecs)
    | CodecL16 _ channels => mret (mkChoice deliverL16 0 (i64 (2 * channels)) no_codecs)
    | CodecG726 rate packing _ _ => mret (configureG726 rate packing (G726Packing opts))
    | CodecFLAC _ => mret (mkChoice deliverFLAC 0 0 (with_flac depacketflac.New no_codecs))
    | CodecMP3 => mret (mkChoice deliverMP3 0 0 (with_mp3 (depacketmp3.New (u32 (clockRateTicks (d_clockRate desc)))) no_codecs))
    | CodecUnknown _ => mret raw
    end.

Definition newTrack (id : Z) (desc : describedTrack) (opts : SetupOptions) (rtcpCh : Z) : res no_err track :=
  c ← choose desc opts;
  mret (mkTrack
    (mkSetup id (c_kind c) (clockRateTicks (d_clockRate desc)) (c_law c) (Discard opts) rtcpCh (d_control desc)
       (d_payloadType desc) (c_l16 c))
    stream.zero (c_cod c) 0 (mkPT 0 false 0 0) (mkBaseline 0 false false 0 false)
    (mkCounters 0 0 0 0 0 0 0 0 0 0) (mkSnapshot 0 0 0 0 0 None)).

(** ** Payload types *)
Definition ptAdoptThreshold : Z := 5.

Definition acceptPayloadType (sdp pt : Z) (p : wirept) : bool * wirept :=
  if sdp =? payloadTypeUnknown then
    let p := if wirePTSet p then p else mkPT pt true (ptCandidate p) (ptRun p) in
    (pt =? wirePayloadType p, p)
  else if pt =? sdp then (true, mkPT pt true (ptCandidate p) 0)
  else if wirePTSet p then (pt =? wirePayloadType p, p)
  else
    let p :=
      if (0 <? ptRun p) && (pt =? ptCandidate p) then mkPT (wirePayloadType p) (wirePTSet p) (ptCandidate p) (ptRun p + 1)
      else mkPT (wirePayloadType p) (wirePTSet p) pt 1 in
    if ptRun p <? ptAdoptThreshold then (false, p)
    else (true, mkPT pt true (ptCandidate p) (ptRun p)).

(** ** Delivery *)
Record callbacks := mkCallbacks { onFrame : bool; onCodecUpdate : bool }.
Inductive event := OnFrame (f : Frame) | OnCodecUpdate (u : CodecUpdate).

Definition maxPTSSeconds : Z := mediatime.MaxInt64 / rtcp.Second.

Definition ptsOf (t : track) (ts : Z) : Z :=
  let rate := clockRate (su t) in
  if (rate =? 0) || (ts <? baseTS (bas t)) then 0
  else
    let delta := u64 (ts - baseTS (bas t)) in
    let sec := delta / rate in
    if maxPTSSeconds <=? sec then i64 (maxPTSSeconds * rtcp.Second)
    else
      let frac := u64 (delta mod rate * rtcp.Second) / rate in
      i64 (i64 (i64 sec * rtcp.Second) + i64 frac).

Definition frame (t : track) (pkt : rtp.Packet) (now : rtcp.Time) (data : list Z) (ts gap : Z) : event :=
  OnFrame (mkFrame (id (su t)) data (rtp.Timestamp (rtp.Hdr pkt)) (ptsOf t ts) now gap).

(** [tr.pendingGap += up.Gap] *)
Definition fold_gap (up : stream.Update) (t : track) : track :=
  with_pending (i64 (pendingGap t + stream.Gap up)) t.

Definition deliverOne (cb : callbacks) (data : list Z) (pkt : rtp.Packet) (up : stream.Update) (now : rtcp.Time)
    (t : track) : track * list event :=
  let gap := pendingGap t in
  let t := with_pending 0 t in
  (t, if onFrame cb then [frame t pkt now data (stream.Timestamp up) gap] else []).

(** The loop over the access units or frames [(data, RTPOffset)] a packet completes. *)
Fixpoint units_loop (cb : callbacks) (pkt : rtp.Packet) (up : stream.Update) (now : rtcp.Time) (i : Z)
    (us : list (list Z * Z)) (t : track) : track * list event :=
  match us with
  | [] => (t, [])
  | (data, off) :: us =>
      let '(gap, t) := if i =? 0 then (pendingGap t, with_pending 0 t) else (0, t) in
      let here := if onFrame cb then [frame t pkt now data (u64 (stream.Timestamp up + off)) gap] else [] in
      let '(t, evs) := units_loop cb pkt up now (i + 1) us t in (t, here ++ evs)
  end.

Abbreviation delivery := (res no_err (track * list event)).

Section deliver.
Context (cb : callbacks) (pkt : rtp.Packet) (up : stream.Update) (now : rtcp.Time).
Let payload := rtp.Payload pkt.
Let marker := rtp.Marker (rtp.Hdr pkt).
Let time := rtp.Timestamp (rtp.Hdr pkt).

Definition deliver_aac (t : track) : delivery :=
  let t := fold_gap up t in
  match aac_ (cod t) with
  | None => Panic
  | Some d =>
      '(d, r) ← unfail (depacketaac.Depacketize d payload marker);
      let t := with_cod (with_aac d (cod t)) t in
      mret (match r with
            | inr _ => (bad t, [])
            | inl aus => units_loop cb pkt up now 0 ((λ u, (depacketaac.Data u, depacketaac.RTPOffset u)) <$> aus) t
            end)
  end.

Definition deliver_latm (t : track) : delivery :=
  let t := fold_gap up t in
  match latm_ (cod t) with
  | None => Panic
  | Some d =>
      '(d, r) ← unfail (latm.Depacketize d payload);
      let t := with_cod (with_latm d (latmASC (cod t)) (cod t)) t in
      match r with
      | inr _ => mret (bad t, [])
      | inl aus =>
          let '(t, updates) :=
            match latm.AudioSpecificConfig d with
            | Some asc =>
                if bool_decide (asc = default [] (latmASC (cod t))) then (t, [])
                else (with_cod (with_latm d (Some asc) (cod t)) t,
                      if onCodecUpdate cb then [OnCodecUpdate (mkUpdate (id (su t)) (CodecMP4ALATM [] true asc))] else [])
            | None => (t, [])
            end in
          let '(t, evs) := units_loop cb pkt up now 0 ((λ u, (latm.Data u, latm.RTPOffset u)) <$> aus) t in
          mret (t, updates ++ evs)
      end
  end.

Definition deliver_opus (t : track) : delivery :=
  let t := fold_gap up t in
  match depacketopus.Depacketize payload with
  | inr _ => mret (bad t, [])
  | inl data => mret (deliverOne cb data pkt up now t)
  end.

(** [scratch]: the backing array after making room for [n] octets; the slice is its head. *)
Definition scratch (buf : list Z) (n : Z) : list Z :=
  if blen buf <? n then repeat 0 (Z.to_nat (n + n / 4)) else buf.

(** Run [dec] on the scratch slice of [n] octets; the count, and the new backing array. *)
Definition with_scratch {A} (n : Z) (t : track) (dec : list Z → res no_err (Z * list Z * A))
    : res no_err (list Z * A * track) :=
  let buf := scratch (pcmBuf (cod t)) n in
  '(m, dst, a) ← dec (take (Z.to_nat n) buf);
  out ← slice dst 0 m;
  mret (out, a, with_cod (with_pcm (dst ++ drop (Z.to_nat n) buf) (cod t)) t).

Definition deliver_g711 (t : track) : delivery :=
  if negb (onFrame cb) then mret (t, [])
  else
    let t := fold_gap up t in
    '(out, e, t) ← with_scratch (2 * blen payload) t (λ dst, g711.Depacketize dst payload (law (su t)));
    mret (match e with Some _ => (bad t, []) | None => deliverOne cb out pkt up now t end).

(** The byte swap of [deliverL16] over the slice [dst]. *)
Definition swap_into (dst src : list Z) : list Z := swap16 src ++ drop (length (swap16 src)) dst.

Definition deliver_l16 (t : track) : delivery :=
  let n := blen payload in
  let frame := Z.max (l16FrameSize (su t)) 2 in
  if (n =? 0) || negb (Z.rem n frame =? 0) then
    let t := bad t in mret (if onFrame cb then fold_gap up t else t, [])
  else if negb (onFrame cb) then mret (t, [])
  else
    let t := fold_gap up t in
    '(out, _, t) ← with_scratch n t (λ dst, mret (n, swap_into dst payload, tt));
    mret (deliverOne cb out pkt up now t).

Definition deliver_g726 (t : track) : delivery :=
  if negb (onFrame cb) then mret (t, [])
  else
    let t := fold_gap up t in
    match g726_ (cod t) with
    | None => Panic
    | Some d =>
        '(out, (d, e), t) ← with_scratch (g726.OutputLen payload d) t (λ dst,
          '(n, dst, d, e) ← g726.Decode dst payload d; mret (n, dst, (d, e)));
        let t := with_cod (with_g726 d (cod t)) t in
        mret (match e with Some _ => (bad t, []) | None => deliverOne cb out pkt up now t end)
    end.

Definition deliver_flac (t : track) : delivery :=
  let t := fold_gap up t in
  match flac_ (cod t) with
  | None => Panic
  | Some d =>
      let '(d, r) := depacketflac.Depacketize d payload marker time in
      let t := with_cod (with_flac d (cod t)) t in
      match r with
      | Panic => Panic
      | Err _ => mret (bad t, [])
      | Ok None => mret (t, [])
      | Ok (Some f) => mret (deliverOne cb f pkt up now t)
      end
  end.

Definition deliver_mp3 (t : track) : delivery :=
  let t := fold_gap up t in
  match mp3_ (cod t) with
  | None => Panic
  | Some d =>
      '(d, r) ← depacketmp3.Depacketize d payload time;
      let t := with_cod (with_mp3 d (cod t)) t in
      mret (match r with
            | inr _ => (bad t, [])
            | inl fs => units_loop cb pkt up now 0 ((λ f, (depacketmp3.Data f, depacketmp3.RTPOffset f)) <$> fs) t
            end)
  end.

Definition deliver_raw (t : track) : delivery :=
  mret (deliverOne cb payload pkt up now (fold_gap up t)).

End deliver.

(** The generic dispatch has no [OnCodecUpdate] to pass on. *)
Definition deliver (cb : callbacks) (pkt : rtp.Packet) (up : stream.Update) (now : rtcp.Time) (t : track) : delivery :=
  match kind (su t) with
  | deliverAAC => deliver_aac cb pkt up now t
  | deliverOpus => deliver_opus cb pkt up now t
  | deliverG711 => deliver_g711 cb pkt up now t
  | deliverL16 => deliver_l16 cb pkt up now t
  | deliverG726 => deliver_g726 cb pkt up now t
  | deliverFLAC => deliver_flac cb pkt up now t
  | deliverMP3 => deliver_mp3 cb pkt up now t
  | deliverLATM => deliver_latm (mkCallbacks (onFrame cb) false) pkt up now t
  | deliverRaw => deliver_raw cb pkt up now t
  end.

(** ** One packet *)
Definition resetDepacketizer (onSSRCChange : bool) (t : track) : res no_err track :=
  let t := if onSSRCChange then with_pending 0 t else t in
  let c := cod t in
  let c := match aac_ c with Some d => with_aac (depacketaac.Reset d) c | None => c end in
  let c := match flac_ c with Some d => with_flac (depacketflac.Reset d) c | None => c end in
  let c := match mp3_ c with Some d => with_mp3 (depacketmp3.Reset d) c | None => c end in
  let c := match g726_ c with Some d => if onSSRCChange then with_g726 (g726.Reset d) c else c | None => c end in
  match latm_ c with
  | Some d =>
      if onSSRCChange then
        d ← unfail (latm.Reset d);
        mret (with_cod (with_latm d (latm.AudioSpecificConfig d) c) t)
      else mret (with_cod c t)
  | None => mret (with_cod c t)
  end.

Definition maxCumulativeLost : Z := 0x7FFFFF.
Definition cumulativeLost (seqGaps : Z) : Z := if maxCumulativeLost <? seqGaps then maxCumulativeLost else u32 seqGaps.

Definition publishRRSnapshot (t : track) : track :=
  let st := stream.Stats (strm t) in
  let s := snap t in
  with_cnt (set_duplicates (stream.Duplicates st) (cnt t))
    (with_snap (mkSnapshot (stream.ExtendedHighestSeq st) (cumulativeLost (stream.SeqGaps st)) (senderSSRC s) (lastSR s)
       (lastSRUnixNano s) (srClock s)) t).

(** [seededOrigin] of [rtsp/play.go] *)
Definition seededOrigin (b : baseline) (firstTS : Z) : Z :=
  if negb (baselineFixed b) && hasSeed b && (seed b <=? firstTS) then seed b else firstTS.

Definition with_sender (ssrc : Z) (s : snapshot) : snapshot :=
  mkSnapshot (rrHighestSeq s) (rrCumulativeLost s) ssrc (lastSR s) (lastSRUnixNano s) (srClock s).
Definition with_clock (c : option rtcp.SenderClock) (s : snapshot) : snapshot :=
  mkSnapshot (rrHighestSeq s) (rrCumulativeLost s) (senderSSRC s) (lastSR s) (lastSRUnixNano s) c.

(** A new source: its timestamps have another origin, and no reassembly survives. *)
Definition on_ssrc_change (up : stream.Update) (t : track) : res no_err track :=
  if stream.SSRCReset up then
    let t := with_cnt (add_ssrcResets (cnt t)) t in
    let b := bas t in
    let t := with_bas (mkBaseline (baseTS b) false (baselineFixed b) (seed b) (hasSeed b)) t in
    t ← resetDepacketizer true t;
    mret (with_snap (with_clock None (snap t)) t)
  else mret t.

Definition establish_baseline (ssrc : Z) (up : stream.Update) (t : track) : track :=
  if negb (baseSet (bas t)) then
    let b := bas t in
    with_bas (mkBaseline (seededOrigin b (stream.Timestamp up)) true true (seed b) (hasSeed b))
      (with_snap (with_sender ssrc (snap t)) t)
  else t.

Definition on_gap (up : stream.Update) (t : track) : res no_err track :=
  if 0 <? stream.Gap up then
    resetDepacketizer false (with_cnt (add_seqGaps (u64 (stream.Gap up)) (cnt t)) t)
  else mret t.

(** [process]: the track, the callbacks made and whether the packet was accepted. *)
Definition process (cb : callbacks) (pkt : rtp.Packet) (now : rtcp.Time) (t : track) : res no_err (track * list event * bool) :=
  let h := rtp.Hdr pkt in
  let '(ok, p) := acceptPayloadType (sdpPayloadType (su t)) (rtp.PayloadType h) (wpt t) in
  let t := with_wpt p t in
  if negb ok then mret (bad t, [], false)
  else
    let '(s, up) := stream.Observe (strm t) h in
    t ← on_ssrc_change up (with_strm s t);
    t ← on_gap up (establish_baseline (rtp.SSRC h) up t);
    '(t, evs) ← match kind (su t) with
                | deliverLATM => deliver_latm cb pkt up now t
                | _ => deliver cb pkt up now t
                end;
    mret (publishRRSnapshot (with_cnt (add_packet (blen (rtp.Payload pkt)) (cnt t)) t), evs, true).

(** ** RTCP *)

(** [handleRTCP]: the track and whether the compound carried a Sender Report. *)
Definition handleRTCP (payload : list Z) (now : rtcp.Time) (t : track) : res no_err (track * bool) :=
  match rtcp.ParseCompound payload with
  | Panic => Panic
  | Err _ | Ok [] => mret (t, false)
  | Ok ((first :: rest) as reports) =>
      let want := senderSSRC (snap t) in
      let sr := if negb (want =? 0) then find (λ r, rtcp.SSRC r =? want) reports else Some first in
      match sr with
      | None => mret (t, true)
      | Some sr =>
          let s := snap t in
          let clk := if baseSet (bas t)
                     then rtcp.SenderClockFrom sr now (clockRate (su t)) else srClock s in
          mret (with_snap (mkSnapshot (rrHighestSeq s) (rrCumulativeLost s) (rtcp.SSRC sr)
                  (u32 (Z.shiftr (rtcp.NTPTimestamp sr) 16)) (UnixNano now) clk) t, true)
      end
  end.

(** ** Receiver reports: [rtsp/keepalive.go] *)
Definition maxDLSRSeconds : Z := 2 ^ 16.

Definition dlsrUnits (elapsed : Z) : Z :=
  if elapsed <=? 0 then 0
  else if maxDLSRSeconds * rtcp.Second <=? elapsed then 2 ^ 32 - 1
  else
    let sec := elapsed / rtcp.Second in
    let frac := elapsed mod rtcp.Second in
    u32 (u64 (u64 (Z.shiftl sec 16) + u64 (Z.shiftl frac 16) / rtcp.Second)).

(** [now.Sub(time.Unix(0, nanos))], saturated at the range of a [time.Duration]. *)
Definition since (now : rtcp.Time) (nanos : Z) : Z :=
  Z.max (- 2 ^ 63) (Z.min (2 ^ 63 - 1) (rtcp.Unix now * rtcp.Second + rtcp.Nanosecond now - nanos)).

Definition buildReceiverReport (reporterSSRC : Z) (now : rtcp.Time) (t : track) : rtcp.ReceiverReport :=
  let s := snap t in
  let dlsr := if negb (lastSRUnixNano s =? 0) then dlsrUnits (since now (lastSRUnixNano s)) else 0 in
  rtcp.mkRR reporterSSRC
    [rtcp.mkBlock (senderSSRC s) 0 (rrCumulativeLost s) (rrHighestSeq s) 0 (lastSR s) dlsr].

(** ** The track invariant *)
Record codecs_ok (k : codecKind) (c : codecs) : Prop := {
  co_aac : ∀ d, aac_ c = Some d → depacketaac.depack_ok d;
  co_flac : ∀ d, flac_ c = Some d → depacketflac.ok d;
  co_mp3 : ∀ d, mp3_ c = Some d → depacketmp3.depack_ok d;
  co_latm : ∀ d, latm_ c = Some d → latm.dp_ok d;
  co_g726 : ∀ d, g726_ c = Some d → g726.dec_ok d;
  co_present : match k with
    | deliverAAC => is_Some (aac_ c)
    | deliverFLAC => is_Some (flac_ c)
    | deliverMP3 => is_Some (mp3_ c)
    | deliverLATM => is_Some (latm_ c)
    | deliverG726 => is_Some (g726_ c)
    | _ => True
    end
}.

Record track_ok (t : track) : Prop := {
  tk_stream : stream.ok (strm t);
  tk_codecs : codecs_ok (kind (su t)) (cod t);
  tk_rate : 0 ≤ clockRate (su t) < 2 ^ 32;
  tk_base : is_u64 (baseTS (bas t));
  tk_seed : is_u64 (seed (bas t));
  tk_gaps : is_u64 (seqGaps (cnt t))
}.

Record packet_ok (p : rtp.Packet) : Prop := {
  pk_wire : stream.header_wire (rtp.Hdr p);
  pk_bytes : bytes_ok (rtp.Payload p);
  pk_size : blen (rtp.Payload p) ≤ 2 ^ 16
}.

(** The frames among the callbacks, and the losses they report. *)
Definition frames (evs : list event) : list Frame := omap (λ e, match e with OnFrame f => Some f | _ => None end) evs.
Definition reported (evs : list event) : Z := foldr (λ f s, SeqGap f + s) 0 (frames evs).

Lemma frames_app a b : frames (a ++ b) = frames a ++ frames b.
Proof. apply omap_app. Qed.
Lemma reported_app a b : reported (a ++ b) = reported a + reported b.
Proof. unfold reported. rewrite frames_app. induction (frames a) as [|f l IH]; [done|]. cbn [app foldr]. lia. Qed.

(** The presentation time of a timestamp: exact, from the baseline on. *)
Definition pts_spec (t : track) (ts : Z) : Z :=
  if (clockRate (su t) =? 0) || (ts <? baseTS (bas t)) then 0
  else mediatime.exact_pts (ts - baseTS (bas t)) (clockRate (su t)).

Lemma ptsOf_exact t ts : track_ok t → is_u64 ts → ptsOf t ts = pts_spec t ts.
Proof.
  intros Ht Hts. pose proof (tk_rate t Ht) as Hr. pose proof (tk_base t Ht) as Hb. unfold ptsOf, pts_spec.
  destruct (_ || _) eqn:E; [done|]. breflect. unfold is_u64 in *.
  rewrite u64_small by (unfold is_u64; lia).
  rewrite <- mediatime.PTSFromSamples_exact; [|unfold is_u64; lia|unfold mediatime.rate_fits, mediatime.Second; lia].
  unfold mediatime.PTSFromSamples. destruct (Z.leb_spec (clockRate (su t)) 0); [lia|].
  rewrite (u64_small (clockRate (su t))) by (unfold is_u64; lia). done.
Qed.

Lemma pts_range t ts : track_ok t → is_u64 ts → 0 ≤ pts_spec t ts < 2 ^ 63.
Proof.
  intros Ht Hts. pose proof (tk_rate t Ht) as Hr. unfold pts_spec, mediatime.exact_pts. destruct (_ || _) eqn:E; [lia|]. breflect.
  assert (Hm : mediatime.maxPTSSeconds = 9223372036) by done. unfold mediatime.Second in *. rewrite Hm.
  set (r := clockRate (su t)) in *. set (x := ts - baseTS (bas t)). assert (0 ≤ x) by (unfold x; lia).
  destruct (Z.leb_spec 9223372036 (x / r)) as [|Hlt]; [lia|]. split; [apply Z.div_pos; lia|].
  apply Z.div_lt_upper_bound; [lia|]. pose proof (Z.mul_succ_div_gt x r ltac:(lia)).
  assert (x < r * 9223372036) by nia. lia.
Qed.

(** ** Delivery *)

(** What one delivery changes and what it hands over. *)
Record delivered_ok (cb : callbacks) (pkt : rtp.Packet) (now : rtcp.Time) (t t' : track) (evs : list event) : Prop := {
  de_su : su t' = su t;
  de_strm : strm t' = strm t;
  de_wpt : wpt t' = wpt t;
  de_bas : bas t' = bas t;
  de_snap : snap t' = snap t;
  de_gaps : seqGaps (cnt t') = seqGaps (cnt t);
  de_resets : ssrcResets (cnt t') = ssrcResets (cnt t);
  de_packets : packets (cnt t') = packets (cnt t);
  de_cod : codecs_ok (kind (su t)) (cod t');
  de_frames : Forall (λ f, TrackID f = id (su t) ∧ RTPTime f = rtp.Timestamp (rtp.Hdr pkt) ∧ ReceivedAt f = now ∧
    ∃ ts, is_u64 ts ∧ PTS f = ptsOf t ts) (frames evs);
  de_silent : onFrame cb = false → frames evs = []
}.

(** The losses reported by the frames, and those still pending, are the ones there were. *)
Definition balanced (t : track) (gap : Z) (t' : track) (evs : list event) : Prop :=
  0 ≤ pendingGap t → 0 ≤ gap → pendingGap t + gap < 2 ^ 63 → reported evs + pendingGap t' = pendingGap t + gap ∧ 0 ≤ pendingGap t' ∧ 0 ≤ reported evs.

Definition delivers (cb : callbacks) (pkt : rtp.Packet) (up : stream.Update) (now : rtcp.Time) (t : track) (m : delivery) : Prop :=
  ∃ t' evs, m = Ok (t', evs) ∧ delivered_ok cb pkt now t t' evs ∧ (onFrame cb = true → balanced t (stream.Gap up) t' evs) ∧
    (malformed (cnt t') = malformed (cnt t) ∨ malformed (cnt t') = u64 (malformed (cnt t) + 1)).

Lemma with_cod_delivered cb pkt now t c :
  codecs_ok (kind (su t)) c → delivered_ok cb pkt now t (with_cod c t) [].
Proof. by split. Qed.

(** A step that hands nothing over, then a delivery. *)
Lemma delivered_trans cb pkt now t t1 t2 evs :
  delivered_ok cb pkt now t t1 [] → delivered_ok cb pkt now t1 t2 evs → delivered_ok cb pkt now t t2 evs.
Proof.
  intros [H1 H2 H3 H4 H5 H6 H7 Hq H8 H9 H10] [K1 K2 K3 K4 K5 K6 K7 Kq K8 K9 K10].
  split; try congruence; [|exact K10].
  eapply Forall_impl; [|exact K9]. intros f (E1 & E2 & E3 & ts & E4 & E5). split_and!; try congruence.
  exists ts. split; [done|]. rewrite E5. unfold ptsOf. by rewrite H1, H4.
Qed.

Lemma bad_delivered cb pkt now t : codecs_ok (kind (su t)) (cod t) → delivered_ok cb pkt now t (bad t) [].
Proof. by split. Qed.
Lemma pending_delivered cb pkt now g t : codecs_ok (kind (su t)) (cod t) → delivered_ok cb pkt now t (with_pending g t) [].
Proof. by split. Qed.

Lemma deliverOne_delivered cb data pkt up now t : codecs_ok (kind (su t)) (cod t) → is_u64 (stream.Timestamp up) →
  let '(t', evs) := deliverOne cb data pkt up now t in
  delivered_ok cb pkt now t t' evs ∧ pendingGap t' = 0 ∧ (onFrame cb = true → reported evs = pendingGap t) ∧ cnt t' = cnt t.
Proof.
  intros Hc Hts. unfold deliverOne. destruct (onFrame cb) eqn:Ho.
  - split; [|split; [done|split; [intros _; cbn; lia|done]]]. split; try done; [|congruence].
    apply Forall_cons_2; [|constructor]. split_and!; try done. by exists (stream.Timestamp up).
  - split; [by split|done].
Qed.

Lemma units_loop_delivered cb pkt up now us : is_u64 (stream.Timestamp up) → ∀ i t, 0 ≤ i → codecs_ok (kind (su t)) (cod t) →
  let '(t', evs) := units_loop cb pkt up now i us t in
  delivered_ok cb pkt now t t' evs ∧
  (if (i =? 0) && negb (bool_decide (us = [])) then pendingGap t' = 0 ∧ (onFrame cb = true → reported evs = pendingGap t)
   else pendingGap t' = pendingGap t ∧ reported evs = 0).
Proof.
  intros Hts. induction us as [|[data off] us IH]; intros i t Hi Hc; cbn [units_loop].
  { rewrite andb_false_r. split; [by split|done]. }
  set (here := λ (t : track) (gap : Z), if onFrame cb then [frame t pkt now data (u64 (stream.Timestamp up + off)) gap] else []).
  assert (Hone : ∀ t1 gap, su t1 = su t → strm t1 = strm t → wpt t1 = wpt t → bas t1 = bas t → snap t1 = snap t → cnt t1 = cnt t →
    cod t1 = cod t → let '(t', evs) := units_loop cb pkt up now (i + 1) us t1 in
    delivered_ok cb pkt now t t' (here t1 gap ++ evs) ∧ pendingGap t' = pendingGap t1 ∧
    reported (here t1 gap ++ evs) = if onFrame cb then gap else 0).
  { intros t1 gap E1 E2 E3 E4 E5 E6 E7. specialize (IH (i + 1) t1 ltac:(lia) ltac:(by rewrite E1, E7)).
    destruct (units_loop cb pkt up now (i + 1) us t1) as [t' evs]. rewrite (proj2 (Z.eqb_neq _ _)) in IH by lia. cbn [andb] in IH.
    destruct IH as ([H1 H2 H3 H4 H5 H6 H7 Hq H8 H9 H10] & Hp & Hr).
    assert (Hh : frames (here t1 gap ++ evs) = frames (here t1 gap) ++ frames evs) by apply frames_app.
    split_and!; [|done|rewrite reported_app, Hr; unfold here; destruct (onFrame cb); cbn; lia].
    split; try congruence.
    - rewrite Hh. apply Forall_app_2.
      + unfold here. destruct (onFrame cb); [|constructor]. apply Forall_cons_2; [|constructor]. cbn. rewrite E1. split_and!; try done.
        exists (u64 (stream.Timestamp up + off)). split; [apply u64_range|]. unfold ptsOf. by rewrite E1, E4.
      + eapply Forall_impl; [|exact H9]. intros f (F1 & F2 & F3 & ts & F4 & F5). split_and!; try congruence.
        exists ts. split; [done|]. rewrite F5. unfold ptsOf. by rewrite E1, E4.
    - intros Ho. rewrite Hh, H10 by done. unfold here. by rewrite Ho. }
  destruct (Z.eqb_spec i 0) as [->|Hne]; cbn [andb negb bool_decide].
  - specialize (Hone (with_pending 0 t) (pendingGap t) eq_refl eq_refl eq_refl eq_refl eq_refl eq_refl eq_refl).
    unfold here in *. destruct (units_loop cb pkt up now (0 + 1) us (with_pending 0 t)) as [t' evs].
    destruct Hone as (Hd & Hp & Hr). split; [done|]. cbn. split; [done|]. intros Ho. by rewrite Hr, Ho.
  - specialize (Hone t 0 eq_refl eq_refl eq_refl eq_refl eq_refl eq_refl eq_refl). unfold here in *.
    destruct (units_loop cb pkt up now (i + 1) us t) as [t' evs]. destruct Hone as (Hd & Hp & Hr). split_and!; [done|done|].
    rewrite Hr. by destruct (onFrame cb).
Qed.

Lemma units_loop_cnt cb pkt up now us i t : cnt (units_loop cb pkt up now i us t).1 = cnt t.
Proof.
  revert i t. induction us as [|[data off] us IH]; intros i t; [done|]. cbn [units_loop].
  destruct (i =? 0); [specialize (IH (i + 1) (with_pending 0 t))|specialize (IH (i + 1) t)];
    destruct (units_loop cb pkt up now (i + 1) us _); exact IH.
Qed.

(** [t1] is [t] with the gap of this packet folded in and perhaps its codec state moved. *)
Section folded.
Context (cb : callbacks) (pkt : rtp.Packet) (up : stream.Update) (now : rtcp.Time) (t : track).
Context (Hts : is_u64 (stream.Timestamp up)).

Definition folded (t1 : track) : Prop :=
  delivered_ok cb pkt now t t1 [] ∧ pendingGap t1 = i64 (pendingGap t + stream.Gap up) ∧ malformed (cnt t1) = malformed (cnt t).

Lemma fold_folded : codecs_ok (kind (su t)) (cod t) → folded (fold_gap up t).
Proof. intros Hc. split; [|done]. by split. Qed.
Lemma folded_cod t1 c : folded t1 → codecs_ok (kind (su t)) c → folded (with_cod c t1).
Proof.
  intros [H Hp] Hc. split; [|done]. eapply delivered_trans; [exact H|]. apply with_cod_delivered. by rewrite (de_su _ _ _ _ _ _ H).
Qed.
Lemma folded_codecs t1 : folded t1 → codecs_ok (kind (su t1)) (cod t1).
Proof. intros [H _]. rewrite (de_su _ _ _ _ _ _ H). apply (de_cod _ _ _ _ _ _ H). Qed.

(** A packet that completes nothing keeps the gap pending. *)
Lemma folded_none t1 : folded t1 → delivers cb pkt up now t (mret (t1, [])).
Proof.
  intros (H & Hp & Hm). exists t1, []. split; [done|]. split; [done|]. split; [|by left]. intros _ H0 Hg Hs. rewrite Hp, i64_small by lia.
  cbn. lia.
Qed.
Lemma folded_bad t1 : folded t1 → delivers cb pkt up now t (mret (bad t1, [])).
Proof.
  intros Hf. destruct (folded_none t1 Hf) as (t' & evs & [= <- <-] & _ & Hb & _). pose proof Hf as (H & Hp & Hm).
  exists (bad t1), []. split; [done|]. split; [|split; [exact Hb|right; cbn; by rewrite Hm]].
  eapply delivered_trans; [exact H|]. apply bad_delivered. by apply folded_codecs.
Qed.
Lemma folded_one t1 data : folded t1 → delivers cb pkt up now t (mret (deliverOne cb data pkt up now t1)).
Proof.
  intros H. pose proof (deliverOne_delivered cb data pkt up now t1 (folded_codecs t1 H) Hts) as Hd.
  destruct (deliverOne cb data pkt up now t1) as [t' evs]. destruct Hd as (Hd & Hp & Hr & Hc), H as (H & Hp1 & Hm).
  exists t', evs. split; [done|]. split; [by eapply delivered_trans|]. split; [|left; by rewrite Hc]. intros Ho H0 Hg Hs.
  rewrite Hr, Hp, Hp1, i64_small by (done || lia). lia.
Qed.
Lemma folded_units t1 us : folded t1 → delivers cb pkt up now t (mret (units_loop cb pkt up now 0 us t1)).
Proof.
  intros H. pose proof (units_loop_delivered cb pkt up now us Hts 0 t1 ltac:(lia) (folded_codecs t1 H)) as Hd.
  pose proof (units_loop_cnt cb pkt up now us 0 t1) as Hc.
  destruct (units_loop cb pkt up now 0 us t1) as [t' evs]. destruct Hd as (Hd & Hr), H as (H & Hp1 & Hm).
  exists t', evs. split; [done|]. split; [by eapply delivered_trans|]. split; [|left; cbn in Hc; by rewrite Hc].
  intros Ho H0 Hg Hs. cbn [andb Z.eqb] in Hr.
  destruct (bool_decide (us = [])); cbn [negb] in Hr; destruct Hr as [Hp Hr]; [|specialize (Hr Ho)];
    rewrite Hr, Hp, Hp1, i64_small by lia; lia.
Qed.
End folded.

(** Moving one depacketizer. *)
Lemma with_aac_ok k c d : codecs_ok k c → depacketaac.depack_ok d → codecs_ok k (with_aac d c).
Proof. intros [] Hd. split; cbn; try done; [by intros ? [= <-]|by destruct k]. Qed.
Lemma with_flac_ok k c d : codecs_ok k c → depacketflac.ok d → codecs_ok k (with_flac d c).
Proof. intros [] Hd. split; cbn; try done; [by intros ? [= <-]|by destruct k]. Qed.
Lemma with_mp3_ok k c d : codecs_ok k c → depacketmp3.depack_ok d → codecs_ok k (with_mp3 d c).
Proof. intros [] Hd. split; cbn; try done; [by intros ? [= <-]|by destruct k]. Qed.
Lemma with_latm_ok k c d asc : codecs_ok k c → latm.dp_ok d → codecs_ok k (with_latm d asc c).
Proof. intros [] Hd. split; cbn; try done; [by intros ? [= <-]|by destruct k]. Qed.
Lemma with_g726_ok k c d : codecs_ok k c → g726.dec_ok d → codecs_ok k (with_g726 d c).
Proof. intros [] Hd. split; cbn; try done; [by intros ? [= <-]|by destruct k]. Qed.
Lemma with_pcm_ok k c b : codecs_ok k c → codecs_ok k (with_pcm b c).
Proof. intros []. by split. Qed.

Section deliver_ok.
Context (cb : callbacks) (pkt : rtp.Packet) (up : stream.Update) (now : rtcp.Time) (t : track).
Context (Ht : track_ok t) (Hpk : packet_ok pkt) (Hts : is_u64 (stream.Timestamp up)).
Let Hc : codecs_ok (kind (su t)) (cod t) := tk_codecs t Ht.

Lemma deliver_aac_ok : kind (su t) = deliverAAC → delivers cb pkt up now t (deliver_aac cb pkt up now t).
Proof.
  intros Hk. pose proof (co_present _ _ Hc) as Hp. rewrite Hk in Hp. destruct Hp as [d Hd]. unfold deliver_aac.
  change (aac_ (cod (fold_gap up t))) with (aac_ (cod t)). cbv zeta. rewrite Hd.
  destruct (depacketaac.aac_step d (rtp.Payload pkt) (rtp.Marker (rtp.Hdr pkt)) (co_aac _ _ Hc d Hd) (pk_bytes _ Hpk))
    as (d' & r & E & Hd' & _). rewrite (unfail_Ok _ _ E), bind_Ok.
  assert (Hf : folded cb pkt up now t (with_cod (with_aac d' (cod t)) (fold_gap up t))).
  { apply folded_cod; [by apply fold_folded|]. by apply with_aac_ok. }
  destruct r as [aus|e]; [by apply folded_units|by apply folded_bad].
Qed.

Lemma deliver_mp3_ok : kind (su t) = deliverMP3 → delivers cb pkt up now t (deliver_mp3 cb pkt up now t).
Proof.
  intros Hk. pose proof (co_present _ _ Hc) as Hp. rewrite Hk in Hp. destruct Hp as [d Hd]. unfold deliver_mp3.
  change (mp3_ (cod (fold_gap up t))) with (mp3_ (cod t)). cbv zeta. rewrite Hd.
  destruct (depacketmp3.mpa_step d (rtp.Payload pkt) (rtp.Timestamp (rtp.Hdr pkt)) (co_mp3 _ _ Hc d Hd) (pk_bytes _ Hpk) (pk_size _ Hpk))
    as (d' & r & -> & Hd' & _). rewrite bind_Ok.
  assert (Hf : folded cb pkt up now t (with_cod (with_mp3 d' (cod t)) (fold_gap up t))).
  { apply folded_cod; [by apply fold_folded|]. by apply with_mp3_ok. }
  destruct r as [aus|e]; [by apply folded_units|by apply folded_bad].
Qed.

Lemma deliver_flac_ok : kind (su t) = deliverFLAC → delivers cb pkt up now t (deliver_flac cb pkt up now t).
Proof.
  intros Hk. pose proof (co_present _ _ Hc) as Hp. rewrite Hk in Hp. destruct Hp as [d Hd]. unfold deliver_flac.
  change (flac_ (cod (fold_gap up t))) with (flac_ (cod t)). cbv zeta. rewrite Hd.
  pose proof (depacketflac.Depacketize_ok d (rtp.Payload pkt) (rtp.Marker (rtp.Hdr pkt)) (rtp.Timestamp (rtp.Hdr pkt))
    (co_flac _ _ Hc d Hd)) as Hok.
  destruct (depacketflac.Depacketize d _ _ _) as [d' r]. cbn [fst snd] in Hok. destruct Hok as [Hd' Hr].
  assert (Hf : folded cb pkt up now t (with_cod (with_flac d' (cod t)) (fold_gap up t))).
  { apply folded_cod; [by apply fold_folded|]. by apply with_flac_ok. }
  destruct r as [[f|]|e|]; [by apply folded_one|by apply folded_none|by apply folded_bad|done].
Qed.

Lemma deliver_latm_ok : kind (su t) = deliverLATM → delivers cb pkt up now t (deliver_latm cb pkt up now t).
Proof.
  intros Hk. pose proof (co_present _ _ Hc) as Hp. rewrite Hk in Hp. destruct Hp as [d Hd]. unfold deliver_latm.
  change (latm_ (cod (fold_gap up t))) with (latm_ (cod t)). cbv zeta. rewrite Hd.
  destruct (latm.latm_step (latm.cfg d) d (rtp.Payload pkt)) as ((d' & r & E & Hd' & _) & _);
    [apply (latm.dk_seed _ (co_latm _ _ Hc d Hd))|right; by apply (co_latm _ _ Hc)|apply (pk_bytes _ Hpk)|].
  rewrite (unfail_Ok _ _ E), bind_Ok.
  set (t1 := with_cod (with_latm d' _ _) _).
  assert (Hf : ∀ asc, folded cb pkt up now t (with_cod (with_latm d' asc (cod t)) (fold_gap up t))).
  { intros asc. apply folded_cod; [by apply fold_folded|]. by apply with_latm_ok. }
  destruct r as [aus|e]; [|apply folded_bad; apply Hf].
  set (us := _ <$> aus). clearbody us.
  assert (Hgo : ∀ t2 ups, folded cb pkt up now t t2 → frames ups = [] →
    delivers cb pkt up now t ('(t, evs) ← mret (units_loop cb pkt up now 0 us t2); mret (t, ups ++ evs))).
  { intros t2 ups H2 Hu. destruct (folded_units cb pkt up now t Hts t2 us H2) as (t3 & evs & E3 & Hd3 & Hb3 & Hm3).
    injection E3 as E3. rewrite E3. cbn. exists t3, (ups ++ evs). split; [done|].
    assert (Hfr : frames (ups ++ evs) = frames evs) by (by rewrite frames_app, Hu). split.
    - destruct Hd3. split; try done; by rewrite Hfr.
    - split; [|exact Hm3]. intros Ho. specialize (Hb3 Ho). unfold balanced, reported in *. by rewrite Hfr. }
  destruct (latm.AudioSpecificConfig d') as [asc|].
  - destruct (bool_decide _).
    + specialize (Hgo t1 [] (Hf _) eq_refl). by destruct (units_loop cb pkt up now 0 us t1).
    + set (t2 := with_cod (with_latm d' (Some asc) _) _).
      set (ups := if onCodecUpdate cb then _ else _).
      assert (Hu : frames ups = []) by (unfold ups; by destruct (onCodecUpdate cb)).
      specialize (Hgo t2 ups (Hf _) Hu). by destruct (units_loop cb pkt up now 0 us t2).
  - specialize (Hgo t1 [] (Hf _) eq_refl). by destruct (units_loop cb pkt up now 0 us t1).
Qed.

Lemma deliver_opus_ok : delivers cb pkt up now t (deliver_opus cb pkt up now t).
Proof.
  unfold deliver_opus. cbv zeta. destruct (depacketopus.Depacketize _) as [data|];
    [apply folded_one|apply folded_bad]; try done; by apply fold_folded.
Qed.

Lemma deliver_raw_ok : delivers cb pkt up now t (deliver_raw cb pkt up now t).
Proof. apply folded_one; [done|]. by apply fold_folded. Qed.

(** A callback that is not set. *)
Lemma deliver_silent : onFrame cb = false → delivers cb pkt up now t (mret (t, [])).
Proof. intros Ho. exists t, []. split; [done|]. split; [by split|]. split; [congruence|by left]. Qed.

(** Decoding into the scratch buffer. *)
Lemma with_scratch_ok {A} n t1 (dec : list Z → res no_err (Z * list Z * A)) (Q : list Z → A → Prop) :
  0 ≤ n → (∀ buf, blen buf = n → ∃ m dst a, dec buf = Ok (m, dst, a) ∧ 0 ≤ m ≤ blen dst ∧ Q (take (Z.to_nat m) dst) a) →
  ∃ out a buf, with_scratch n t1 dec = Ok (out, a, with_cod (with_pcm buf (cod t1)) t1) ∧ Q out a.
Proof.
  intros Hn Hdec. unfold with_scratch. set (b := scratch (pcmBuf (cod t1)) n).
  assert (Hb : n ≤ blen b).
  { unfold b, scratch. destruct (Z.ltb_spec (blen (pcmBuf (cod t1))) n); [|done]. unfold blen. rewrite repeat_length.
    assert (0 ≤ n / 4) by (apply Z.div_pos; lia). lia. }
  destruct (Hdec (take (Z.to_nat n) b)) as (m & dst & a & E & Hm & HQ); [by apply blen_take; lia|].
  cbv zeta. rewrite E, bind_Ok. rewrite slice_ok, bind_Ok by lia. rewrite drop_0, Z.sub_0_r. by eexists _, _, _.
Qed.

Lemma deliver_g711_ok : delivers cb pkt up now t (deliver_g711 cb pkt up now t).
Proof.
  unfold deliver_g711. destruct (onFrame cb) eqn:Ho; [|by apply deliver_silent]. cbn [negb]. cbv zeta.
  pose proof (blen_nonneg (rtp.Payload pkt)).
  destruct (with_scratch_ok (2 * blen (rtp.Payload pkt)) (fold_gap up t)
    (λ dst, g711.Depacketize dst (rtp.Payload pkt) (law (su (fold_gap up t)))) (λ _ _, True)) as (out & e & buf & E & _); [lia| |].
  { intros b Hb. rewrite g711.Depacketize_cases by apply (pk_bytes _ Hpk).
    destruct (blen (rtp.Payload pkt) =? 0); [do 3 eexists; split; [done|]; lia|].
    destruct (blen b <? _); [do 3 eexists; split; [done|]; lia|].
    destruct (g711.expander _) as [f|]; [|do 3 eexists; split; [done|]; lia].
    do 3 eexists. split; [done|]. split; [|done]. rewrite blen_app. unfold blen. rewrite length_pcm, length_fmap. lia. }
  rewrite E, bind_Ok.
  assert (Hf : folded cb pkt up now t (with_cod (with_pcm buf (cod (fold_gap up t))) (fold_gap up t))).
  { apply folded_cod; [by apply fold_folded|]. by apply with_pcm_ok. }
  destruct e; [by apply folded_bad|by apply folded_one].
Qed.

Lemma deliver_l16_ok : delivers cb pkt up now t (deliver_l16 cb pkt up now t).
Proof.
  unfold deliver_l16. cbv zeta. pose proof (blen_nonneg (rtp.Payload pkt)).
  destruct (_ || _).
  { destruct (onFrame cb) eqn:Ho.
    - exact (folded_bad cb pkt up now t (fold_gap up t) (fold_folded cb pkt up now t Hc)).
    - exists (bad t), []. split; [done|]. split; [by apply bad_delivered|]. split; [congruence|by right]. }
  destruct (onFrame cb) eqn:Ho; [|by apply deliver_silent]. cbn [negb].
  destruct (with_scratch_ok (blen (rtp.Payload pkt)) (fold_gap up t)
    (λ dst, mret (blen (rtp.Payload pkt), swap_into dst (rtp.Payload pkt), tt)) (λ _ _, True)) as (out & e & buf & E & _); [lia| |].
  { intros b Hb. do 3 eexists. split; [done|]. split; [|done]. unfold swap_into.
    rewrite blen_app. unfold blen in *. rewrite length_drop. lia. }
  rewrite E, bind_Ok. apply folded_one; [done|]. apply folded_cod; [by apply fold_folded|]. by apply with_pcm_ok.
Qed.

Lemma deliver_g726_ok : kind (su t) = deliverG726 → delivers cb pkt up now t (deliver_g726 cb pkt up now t).
Proof.
  intros Hk. pose proof (co_present _ _ Hc) as Hp. rewrite Hk in Hp. destruct Hp as [d Hd].
  unfold deliver_g726. destruct (onFrame cb) eqn:Ho; [|by apply deliver_silent]. cbn [negb]. cbv zeta.
  change (g726_ (cod (fold_gap up t))) with (g726_ (cod t)). rewrite Hd.
  pose proof (co_g726 _ _ Hc d Hd) as Hdo. pose proof (g726.rate_bits d Hdo) as Hbits.
  pose proof (blen_nonneg (rtp.Payload pkt)).
  destruct (with_scratch_ok (g726.OutputLen (rtp.Payload pkt) d) (fold_gap up t)
    (λ dst, '(n, dst, d, e) ← g726.Decode dst (rtp.Payload pkt) d; mret (n, dst, (d, e))) (λ _ a, g726.dec_ok a.1))
    as (out & [d' e] & buf & E & Hd').
  { unfold g726.OutputLen. assert (0 ≤ blen (rtp.Payload pkt) * 8 / g726.bits (g726.rt d)) by (apply Z.div_pos; lia). lia. }
  { intros b Hb. destruct (g726.Decode_cases d (rtp.Payload pkt) b Hdo (pk_bytes _ Hpk)) as (n & dst' & d' & e & E & Hl & Hd' & _ & Hn & _).
    rewrite E, bind_Ok. do 3 eexists. split; [done|]. split; [|done]. rewrite Hl.
    pose proof (blen_nonneg b). destruct e; [destruct Hn as [-> _]; lia|rewrite Hn, <- Hb; lia]. }
  rewrite E, bind_Ok.
  assert (Hf : folded cb pkt up now t (with_cod (with_g726 d' (with_pcm buf (cod t))) (with_cod (with_pcm buf (cod t)) (fold_gap up t)))).
  { apply folded_cod; [apply folded_cod; [by apply fold_folded|by apply with_pcm_ok]|]. apply with_g726_ok; [by apply with_pcm_ok|done]. }
  destruct e; [by apply folded_bad|by apply folded_one].
Qed.

Lemma deliver_any : delivers cb pkt up now t
  (match kind (su t) with deliverLATM => deliver_latm cb pkt up now t | _ => deliver cb pkt up now t end).
Proof.
  unfold deliver. case_eq (kind (su t)); intros Hk;
    auto using deliver_aac_ok, deliver_opus_ok, deliver_g711_ok, deliver_l16_ok, deliver_latm_ok, deliver_g726_ok,
      deliver_flac_ok, deliver_mp3_ok, deliver_raw_ok.
Qed.
End deliver_ok.

(** ** One packet *)
Lemma resetDepacketizer_ok b t : codecs_ok (kind (su t)) (cod t) →
  ∃ c, resetDepacketizer b t = Ok (with_cod c (if b then with_pending 0 t else t)) ∧ codecs_ok (kind (su t)) c.
Proof.
  intros Hc. unfold resetDepacketizer. set (t1 := if b then with_pending 0 t else t).
  assert (Ht1 : cod t1 = cod t) by (unfold t1; by destruct b). cbv zeta. rewrite Ht1.
  set (c1 := match aac_ (cod t) with Some d => _ | None => _ end).
  assert (H1 : codecs_ok (kind (su t)) c1).
  { unfold c1. destruct (aac_ (cod t)) as [d|] eqn:E; [|done]. apply with_aac_ok; [done|].
    by apply depacketaac.Reset_ok, (co_aac _ _ Hc). }
  clearbody c1. set (c2 := match flac_ c1 with Some d => _ | None => _ end).
  assert (H2 : codecs_ok (kind (su t)) c2).
  { unfold c2. destruct (flac_ c1) as [d|] eqn:E; [|done]. by apply with_flac_ok. }
  clearbody c2. set (c3 := match mp3_ c2 with Some d => _ | None => _ end).
  assert (H3 : codecs_ok (kind (su t)) c3).
  { unfold c3. destruct (mp3_ c2) as [d|] eqn:E; [|done]. apply with_mp3_ok; [done|].
    by apply depacketmp3.mpa_Reset_ok, (co_mp3 _ _ H2). }
  clearbody c3. set (c4 := match g726_ c3 with Some d => _ | None => _ end).
  assert (H4 : codecs_ok (kind (su t)) c4).
  { unfold c4. destruct (g726_ c3) as [d|] eqn:E; [|done]. destruct b; [|done]. apply with_g726_ok; [done|].
    apply g726.Reset_wf, (g726.ok_rt _ (co_g726 _ _ H3 _ E)). }
  clearbody c4. destruct (latm_ c4) as [d|] eqn:E; [|by exists c4]. destruct b; [|by exists c4].
  destruct (latm.latm_Reset_ok d (co_latm _ _ H4 d E)) as (d' & Er & Hd' & _). rewrite (unfail_Ok _ _ Er), bind_Ok.
  eexists. split; [done|]. by apply with_latm_ok.
Qed.

(** What folding one packet in guarantees. *)
Record processed (cb : callbacks) (pkt : rtp.Packet) (now : rtcp.Time) (t t' : track) (evs : list event) (acc : bool) : Prop := {
  pr_ok : track_ok t';
  pr_su : su t' = su t;
  pr_pt : (acc, wpt t') = acceptPayloadType (sdpPayloadType (su t)) (rtp.PayloadType (rtp.Hdr pkt)) (wpt t);
  pr_strm : strm t' = if acc then (stream.Observe (strm t) (rtp.Hdr pkt)).1 else strm t;
  pr_rejected : acc = false → evs = [] ∧ t' = bad (with_wpt (wpt t') t);
  pr_frames : Forall (λ f, TrackID f = id (su t) ∧ RTPTime f = rtp.Timestamp (rtp.Hdr pkt) ∧ ReceivedAt f = now ∧
    ∃ ts, is_u64 ts ∧ PTS f = pts_spec t' ts) (frames evs);
  pr_silent : onFrame cb = false → frames evs = [];
  pr_counts : acc = true → packets (cnt t') = u64 (packets (cnt t) + 1) ∧
    (malformed (cnt t') = malformed (cnt t) ∨ malformed (cnt t') = u64 (malformed (cnt t) + 1));
  pr_gaps : acc = true → let up := (stream.Observe (strm t) (rtp.Hdr pkt)).2 in
    seqGaps (cnt t') = u64 (seqGaps (cnt t) + stream.Gap up) ∧
    ssrcResets (cnt t') = (if stream.SSRCReset up then u64 (ssrcResets (cnt t) + 1) else ssrcResets (cnt t)) ∧
    (onFrame cb = true → let p := if stream.SSRCReset up then 0 else pendingGap t in
       0 ≤ p → p + stream.Gap up < 2 ^ 63 →
       reported evs + pendingGap t' = p + stream.Gap up ∧ 0 ≤ pendingGap t' ∧ 0 ≤ reported evs);
  pr_base : acc = true → let reset := stream.SSRCReset (stream.Observe (strm t) (rtp.Hdr pkt)).2 in
    baseSet (bas t') = true ∧ srClock (snap t') = (if reset then None else srClock (snap t)) ∧
    (if negb reset && baseSet (bas t) then baseTS (bas t') = baseTS (bas t) ∧ senderSSRC (snap t') = senderSSRC (snap t)
     else senderSSRC (snap t') = rtp.SSRC (rtp.Hdr pkt))
}.

Lemma Observe_update s h : stream.ok s → stream.header_wire h →
  is_u64 (stream.Timestamp (stream.Observe s h).2) ∧ 0 ≤ stream.Gap (stream.Observe s h).2 < 2 ^ 15 ∧
  (stream.SSRCReset (stream.Observe s h).2 = true → stream.Gap (stream.Observe s h).2 = 0).
Proof.
  intros Hs [H1 H2 H3]. assert (is_u64 (rtp.Timestamp h)) by (unfold is_u64, is_u32 in *; lia).
  pose proof (stream.extendTS_range s (rtp.Timestamp h) Hs). unfold stream.Observe.
  destruct (stream.init s); cbn [negb]; [|by split_and!].
  destruct (rtp.SSRC h =? stream.ssrc s); cbn [negb]; [|by split_and!]. cbv zeta.
  pose proof (u16_range (rtp.SequenceNumber h - stream.lastSeq s)). unfold is_u16 in *.
  set (d := u16 _) in *. clearbody d. destruct (Z.eqb_spec d 0); [by split_and!|].
  destruct (Z.ltb_spec d 0x8000); cbn; split_and!; try done; lia.
Qed.

Lemma on_ssrc_change_ok up t : track_ok t → ∃ t', on_ssrc_change up t = Ok t' ∧ track_ok t' ∧ su t' = su t ∧
  strm t' = strm t ∧ wpt t' = wpt t ∧ seqGaps (cnt t') = seqGaps (cnt t) ∧
  pendingGap t' = (if stream.SSRCReset up then 0 else pendingGap t) ∧
  packets (cnt t') = packets (cnt t) ∧ malformed (cnt t') = malformed (cnt t) ∧
  ssrcResets (cnt t') = (if stream.SSRCReset up then u64 (ssrcResets (cnt t) + 1) else ssrcResets (cnt t)) ∧
  (if stream.SSRCReset up then baseSet (bas t') = false ∧ srClock (snap t') = None else t' = t).
Proof.
  intros Ht. unfold on_ssrc_change. destruct (stream.SSRCReset up); [|by exists t].
  destruct (resetDepacketizer_ok true (with_bas (mkBaseline (baseTS (bas t)) false (baselineFixed (bas t)) (seed (bas t)) (hasSeed (bas t)))
    (with_cnt (add_ssrcResets (cnt t)) t)) (tk_codecs t Ht)) as (c & E & Hc).
  cbv zeta. cbn [bas with_cnt]. rewrite E, bind_Ok. eexists. split; [done|]. destruct Ht. split; [|done]. by split.
Qed.

Lemma establish_baseline_ok ssrc up t : track_ok t → is_u64 (stream.Timestamp up) →
  let t' := establish_baseline ssrc up t in
  track_ok t' ∧ su t' = su t ∧ strm t' = strm t ∧ wpt t' = wpt t ∧ cnt t' = cnt t ∧ pendingGap t' = pendingGap t ∧
  baseSet (bas t') = true ∧ srClock (snap t') = srClock (snap t) ∧
  (if baseSet (bas t) then t' = t else senderSSRC (snap t') = ssrc).
Proof.
  intros Ht Hts. unfold establish_baseline. destruct (baseSet (bas t)) eqn:E; cbn [negb]; [by split_and!|].
  split_and!; try done. destruct Ht. split; try done. cbn. unfold seededOrigin. by destruct (_ && _).
Qed.

Lemma on_gap_ok up t : track_ok t → 0 ≤ stream.Gap up < 2 ^ 15 → ∃ t', on_gap up t = Ok t' ∧ track_ok t' ∧ su t' = su t ∧
  strm t' = strm t ∧ wpt t' = wpt t ∧ bas t' = bas t ∧ snap t' = snap t ∧ pendingGap t' = pendingGap t ∧
  packets (cnt t') = packets (cnt t) ∧ malformed (cnt t') = malformed (cnt t) ∧
  ssrcResets (cnt t') = ssrcResets (cnt t) ∧ seqGaps (cnt t') = u64 (seqGaps (cnt t) + stream.Gap up).
Proof.
  intros Ht Hg. unfold on_gap. destruct (Z.ltb_spec 0 (stream.Gap up)).
  - destruct (resetDepacketizer_ok false (with_cnt (add_seqGaps (u64 (stream.Gap up)) (cnt t)) t) (tk_codecs t Ht)) as (c & E & Hc).
    rewrite E. eexists. split; [done|]. destruct Ht. split_and!; try done.
    + split; try done. cbn. apply u64_range.
    + cbn. by rewrite (u64_small (stream.Gap up)) by (unfold is_u64; lia).
  - exists t. split_and!; try done. replace (stream.Gap up) with 0 by lia. rewrite Z.add_0_r, u64_small; [done|apply (tk_gaps t Ht)].
Qed.

Lemma process_processed cb pkt now t : track_ok t → packet_ok pkt →
  ∃ t' evs acc, process cb pkt now t = Ok (t', evs, acc) ∧ processed cb pkt now t t' evs acc.
Proof.
  intros Ht Hpk. pose proof (Observe_update (strm t) (rtp.Hdr pkt) (tk_stream t Ht) (pk_wire _ Hpk)) as (Hts & Hgap & Hgr).
  pose proof (stream.Observe_ok (strm t) (rtp.Hdr pkt) (pk_wire _ Hpk) (tk_stream t Ht)) as Hso.
  unfold process. cbv zeta. destruct (acceptPayloadType _ _ _) as [ok p] eqn:Ept. destruct ok; cbn [negb].
  2: { eexists _, _, _. split; [done|]. destruct Ht. by split. }
  change (strm (with_wpt p t)) with (strm t). destruct (stream.Observe (strm t) (rtp.Hdr pkt)) as [s up] eqn:Eo.
  cbn [fst snd] in Hso, Hts, Hgap, Hgr.
  assert (Ht1 : track_ok (with_strm s (with_wpt p t))) by (destruct Ht; by split).
  destruct (on_ssrc_change_ok up _ Ht1) as (t2 & -> & Ht2 & S2 & R2 & W2 & G2 & P2 & A2 & M2 & N2 & B2). rewrite bind_Ok.
  destruct (establish_baseline_ok (rtp.SSRC (rtp.Hdr pkt)) up t2 Ht2 Hts) as (Ht3 & S3 & R3 & W3 & C3 & P3 & B3 & K3 & I3).
  set (t3 := establish_baseline _ up t2) in *.
  destruct (on_gap_ok up t3 Ht3 Hgap) as (t4 & -> & Ht4 & S4 & R4 & W4 & B4 & Q4 & P4 & A4 & M4 & N4 & G4). rewrite bind_Ok.
  destruct (deliver_any cb pkt up now t4 Ht4 Hpk Hts) as (t5 & evs & -> & Hd & Hbal & Hmal). rewrite bind_Ok.
  pose proof (de_su _ _ _ _ _ _ Hd) as S5. pose proof (de_strm _ _ _ _ _ _ Hd) as R5. pose proof (de_wpt _ _ _ _ _ _ Hd) as W5.
  pose proof (de_bas _ _ _ _ _ _ Hd) as B5. pose proof (de_snap _ _ _ _ _ _ Hd) as Q5.
  eexists _, _, _. split; [done|].
  assert (Hsu : su t4 = su t) by (by rewrite S4, S3, S2).
  split; cbn; rewrite ?Eo; cbn [fst snd].
  - split; cbn.
    + by rewrite R5, R4, R3, R2.
    + rewrite S5. apply (de_cod _ _ _ _ _ _ Hd).
    + rewrite S5. apply Ht4.
    + rewrite B5. apply Ht4.
    + rewrite B5. apply Ht4.
    + rewrite (de_gaps _ _ _ _ _ _ Hd). apply Ht4.
  - by rewrite S5.
  - rewrite Ept. f_equal. by rewrite W5, W4, W3, W2.
  - by rewrite R5, R4, R3, R2.
  - done.
  - eapply Forall_impl; [|exact (de_frames _ _ _ _ _ _ Hd)]. intros f (F1 & F2 & F3 & ts & F4 & F5).
    rewrite <- Hsu. split_and!; try done. exists ts. split; [done|]. rewrite F5, ptsOf_exact by done.
    unfold pts_spec. cbn. by rewrite S5, B5.
  - exact (de_silent _ _ _ _ _ _ Hd).
  - intros _. rewrite (de_packets _ _ _ _ _ _ Hd), A4, C3, A2. split; [done|]. by rewrite M4, C3, M2 in Hmal.
  - intros _. rewrite (de_gaps _ _ _ _ _ _ Hd), (de_resets _ _ _ _ _ _ Hd), G4, N4, C3, G2, N2. split_and!; [done|done|].
    intros Ho. specialize (Hbal Ho). unfold balanced in Hbal. rewrite P4, P3, P2 in Hbal.
    intros Hz1 Hz2. apply Hbal; [exact Hz1|lia|exact Hz2].
  - intros _. rewrite B5, B4, Q5, Q4, K3. split; [done|]. destruct (stream.SSRCReset up); cbn [negb andb].
    + destruct B2 as [B2 ->]. rewrite B2 in I3. done.
    + subst t2. split; [done|]. cbn in I3. destruct (baseSet (bas t)); [by rewrite I3|done].
Qed.

(** ** The payload type *)

(** The state after the types [h], the newest first. *)
Definition pt_after (sdp : Z) (h : list Z) : wirept :=
  foldr (λ pt p, (acceptPayloadType sdp pt p).2) (mkPT 0 false 0 0) h.

Definition five_run (h : list Z) (x : Z) : Prop := ∃ b a, h = b ++ replicate 5 x ++ a.

(** The first run of five equal types in [h], as [h] grew, was of [x]. *)
Definition adopts (h : list Z) (x : Z) : Prop :=
  ∃ b a, h = b ++ replicate 5 x ++ a ∧ ∀ y, ¬ five_run (replicate 4 x ++ a) y.

Lemma five_run_cons x h y : five_run (x :: h) y → five_run h y ∨ (x = y ∧ ∃ a, h = replicate 4 y ++ a).
Proof.
  intros ([|z b] & a & E).
  - right. injection E as -> ->. split; [done|by exists a].
  - left. injection E as -> ->. by exists b, a.
Qed.

Lemma run_longer x r h : (r < 4)%nat → (∀ a : list Z, h = replicate r x ++ a → head a ≠ Some x) → ∀ a, h ≠ replicate 4 x ++ a.
Proof.
  intros Hr Hh a ->. destruct (Hh (replicate (4 - r) x ++ a)).
  - rewrite app_assoc, <- replicate_add. by replace (r + (4 - r))%nat with 4%nat by lia.
  - by destruct (4 - r)%nat eqn:E; [lia|].
Qed.

(** The state while the declared type has not been seen. *)
Inductive pt_inv (h : list Z) (p : wirept) : Prop :=
  | PTRun r : wirePTSet p = false → ptRun p = Z.of_nat r → (r < 5)%nat → (h = [] → r = 0%nat) → (h ≠ [] → (0 < r)%nat) →
      (∃ a : list Z, h = replicate r (ptCandidate p) ++ a ∧ head a ≠ Some (ptCandidate p)) → (∀ y, ¬ five_run h y) → pt_inv h p
  | PTSettled : wirePTSet p = true → adopts h (wirePayloadType p) → pt_inv h p.

Lemma adopts_cons x h y : adopts h y → adopts (x :: h) y.
Proof. intros (b & a & -> & H). by exists (x :: b), a. Qed.

Lemma adopts_five h y : adopts h y → five_run h y.
Proof. intros (b & a & -> & _). by exists b, a. Qed.

Lemma suffix_cases {A} (b b' l l' : list A) : b ++ l = b' ++ l' → (length l ≤ length l')%nat → ∃ k, l' = k ++ l.
Proof.
  intros E Hl. assert (Hlen : (length b + length l = length b' + length l')%nat) by (rewrite <- !length_app; by rewrite E).
  exists (drop (length b') b). apply (f_equal (drop (length b'))) in E.
  rewrite drop_app_length in E. rewrite <- E. rewrite drop_app_le by lia. done.
Qed.

Lemma adopts_unique h x y : adopts h x → adopts h y → x = y.
Proof.
  assert (∀ h x y, adopts h x → adopts h y →
    (∃ b a b' a', h = b ++ replicate 5 x ++ a ∧ h = b' ++ replicate 5 y ++ a' ∧ (∀ z, ¬ five_run (replicate 4 y ++ a') z) ∧
      (length a ≤ length a')%nat) → x = y) as H.
  { clear. intros h x y _ _ (b & a & b' & a' & E & E' & Hn & Hl). rewrite E in E'.
    destruct (suffix_cases _ _ _ _ E') as (k & Ek); [rewrite !length_app, !length_replicate; lia|].
    destruct k as [|z k]; [by injection Ek|]. destruct (Hn x). exists k, a. by injection Ek. }
  intros Hx Hy. pose proof Hx as (b & a & E & Hn). pose proof Hy as (b' & a' & E' & Hn').
  destruct (Nat.le_ge_cases (length a) (length a')); [apply (H h x y Hx Hy)|symmetry; apply (H h y x Hy Hx)]; naive_solver.
Qed.

Lemma adopts_new h pt : (∀ y, ¬ five_run h y) → (adopts (pt :: h) pt ↔ ∃ a, h = replicate 4 pt ++ a).
Proof.
  intros Hn. split.
  - intros Ha%adopts_five. apply five_run_cons in Ha as [Ha|[_ Ha]]; [by apply Hn in Ha|done].
  - intros (a & ->). by exists [], a.
Qed.

Lemma pt_inv_step sdp h p pt : sdp ≠ payloadTypeUnknown → pt ≠ sdp → pt_inv h p →
  pt_inv (pt :: h) (acceptPayloadType sdp pt p).2 ∧
  ((acceptPayloadType sdp pt p).1 = true ↔ adopts (pt :: h) pt).
Proof.
  intros Hs Hpt Hinv. unfold acceptPayloadType. rewrite (proj2 (Z.eqb_neq _ _) Hs), (proj2 (Z.eqb_neq _ _) Hpt).
  destruct Hinv as [r Hset Hr Hr5 Hnil Hcons (a & Eh & Ha) Hno|Hset Had].
  2: { rewrite Hset. cbn [fst snd]. split; [apply PTSettled; [done|by apply adopts_cons]|]. split.
    - intros ->%Z.eqb_eq. by apply adopts_cons.
    - intros H. apply Z.eqb_eq. eapply adopts_unique; [exact H|by apply adopts_cons]. }
  rewrite Hset. cbv zeta. rewrite (adopts_new _ _ Hno).
  assert (Hno' : ¬ (∃ a, h = replicate 4 pt ++ a) → ∀ y, ¬ five_run (pt :: h) y).
  { intros Hn y [Hy|[-> Hy]]%five_run_cons; [by apply Hno in Hy|done]. }
  destruct (_ && _) eqn:Hc; breflect.
  - assert (pt = ptCandidate p) as -> by lia. cbn [ptRun]. unfold ptAdoptThreshold.
    destruct (Z.ltb_spec (ptRun p + 1) 5); cbn [fst snd].
    + assert (Hlong : ¬ ∃ a, h = replicate 4 (ptCandidate p) ++ a).
      { intros (a' & E'). revert E'. apply (run_longer _ r); [lia|]. intros a2 E2. rewrite Eh in E2. by apply app_inv_head in E2 as <-. }
      split; [|split; [done|by intros ?%Hlong]]. apply (PTRun _ _ (S r)); cbn; try done; try lia.
      * exists a. by rewrite Eh.
      * by apply Hno'.
    + assert (r = 4%nat) as -> by lia. split; [|split; [by exists a|done]]. apply PTSettled; [done|].
      apply (adopts_new _ _ Hno). by exists a.
  - assert (Hhead : head h ≠ Some pt).
    { destruct (decide (h = [])) as [->|Hne]; [done|]. specialize (Hcons Hne). rewrite Eh.
      destruct r as [|r]; [lia|]. cbn. intros [= <-]. lia. }
    cbn [ptRun]. unfold ptAdoptThreshold. cbn [Z.ltb Z.compare Pos.compare Pos.compare_cont fst snd].
    assert (Hlong : ¬ ∃ a, h = replicate 4 pt ++ a) by (by intros (a' & ->)).
    split; [|split; [done|by intros ?%Hlong]]. apply (PTRun _ _ 1); cbn; try done; try lia.
    + by exists h.
    + by apply Hno'.
Qed.

Lemma pt_after_inv sdp h : sdp ≠ payloadTypeUnknown →
  if decide (sdp ∈ h) then wirePTSet (pt_after sdp h) = true ∧ wirePayloadType (pt_after sdp h) = sdp
  else pt_inv h (pt_after sdp h).
Proof.
  intros Hs. induction h as [|x h IH].
  { rewrite decide_False by apply not_elem_of_nil. apply (PTRun _ _ 0); try done; [lia|by exists []|].
    intros y (b & a & E). by destruct b. }
  cbn [pt_after foldr]. fold (pt_after sdp h). destruct (decide (x = sdp)) as [->|Hx].
  { rewrite decide_True by by left. unfold acceptPayloadType. rewrite (proj2 (Z.eqb_neq _ _) Hs), Z.eqb_refl. done. }
  destruct (decide (sdp ∈ h)) as [Hin|Hin].
  - rewrite decide_True by by right. destruct IH as [H1 H2]. unfold acceptPayloadType.
    rewrite (proj2 (Z.eqb_neq _ _) Hs), (proj2 (Z.eqb_neq _ _) Hx), H1. done.
  - rewrite decide_False by (intros [?|?]%elem_of_cons; congruence). by apply pt_inv_step.
Qed.

Lemma pt_after_unknown h :
  if decide (h = []) then wirePTSet (pt_after payloadTypeUnknown h) = false
  else wirePTSet (pt_after payloadTypeUnknown h) = true ∧ list.last h = Some (wirePayloadType (pt_after payloadTypeUnknown h)).
Proof.
  induction h as [|x h IH]; [done|]. rewrite decide_False by done. cbn [pt_after foldr]. fold (pt_after payloadTypeUnknown h).
  unfold acceptPayloadType. rewrite Z.eqb_refl. cbv zeta. cbn [snd]. destruct (decide (h = [])) as [->|Hne].
  - by rewrite IH.
  - destruct IH as [H1 H2]. rewrite H1. split; [done|]. destruct h; [done|]. exact H2.
Qed.

(** Which payload types a track accepts, in terms of the types it has seen ([h], the
    newest first). A track with a declared type accepts that type, and, as long as the
    declared type has never been seen, the type of the first run of five equal packets, from the
    fifth packet of that run on; a track without a declared type accepts the first type it sees.
    Everything else is refused: a stray never captures the track, and the declared type, once
    seen, is the only one. *)
Theorem acceptPayloadType_settles sdp h pt :
  (sdp ≠ payloadTypeUnknown →
    ((acceptPayloadType sdp pt (pt_after sdp h)).1 = true ↔ pt = sdp ∨ ((sdp ∉ h) ∧ adopts (pt :: h) pt))) ∧
  ((acceptPayloadType payloadTypeUnknown pt (pt_after payloadTypeUnknown h)).1 = true ↔ list.last (pt :: h) = Some pt).
Proof.
  split.
  - intros Hs. pose proof (pt_after_inv sdp h Hs) as Hi. destruct (decide (pt = sdp)) as [->|Hx].
    { unfold acceptPayloadType. rewrite (proj2 (Z.eqb_neq _ _) Hs), Z.eqb_refl. cbn. tauto. }
    destruct (decide (sdp ∈ h)) as [Hin|Hin].
    + destruct Hi as [H1 H2]. unfold acceptPayloadType.
      rewrite (proj2 (Z.eqb_neq _ _) Hs), (proj2 (Z.eqb_neq _ _) Hx), H1, H2. cbn [fst].
      rewrite (proj2 (Z.eqb_neq _ _) Hx). split; [done|]. intros [?|[? _]]; done.
    + destruct (pt_inv_step sdp h _ pt Hs Hx Hi) as [_ ->]. tauto.
  - pose proof (pt_after_unknown h) as Hi. unfold acceptPayloadType. rewrite Z.eqb_refl. cbv zeta. cbn [fst].
    destruct (decide (h = [])) as [->|Hne].
    + rewrite Hi. cbn. by rewrite Z.eqb_refl.
    + destruct Hi as [H1 H2]. rewrite H1. destruct h as [|y h]; [done|]. change (list.last (pt :: y :: h)) with (list.last (y :: h)).
      rewrite H2. rewrite Z.eqb_eq. naive_solver.
Qed.

Lemma acceptPayloadType_settles_witness :
  96 ≠ payloadTypeUnknown ∧
  ((acceptPayloadType 96 0 (pt_after 96 [0; 0; 0; 0; 101])).1 = true ↔ 0 = 96 ∨ ((96 ∉ [0; 0; 0; 0; 101]) ∧ adopts [0; 0; 0; 0; 0; 101] 0)).
Proof.
  assert (H : 96 ≠ payloadTypeUnknown) by discriminate. split; [exact H|].
  exact (proj1 (acceptPayloadType_settles 96 [0; 0; 0; 0; 101] 0) H).
Defined.

(** ** A run of packets *)
Fixpoint process_all (cb : callbacks) (pkts : list (rtp.Packet * rtcp.Time)) (t : track) : res no_err (track * list event) :=
  match pkts with
  | [] => mret (t, [])
  | (pkt, now) :: pkts =>
      '(t, evs, _) ← process cb pkt now t;
      '(t, evs') ← process_all cb pkts t;
      mret (t, evs ++ evs')
  end.

(** What [newTrack] assumes of the descriptor: bytes are bytes, and a depacketizer handed
    over by Describe is one that [latm.New] built. *)
Record described_ok (d : describedTrack) : Prop := {
  dd_smc : ∀ smc present asc, d_codec d = CodecMP4ALATM smc present asc → bytes_ok smc;
  dd_latm : ∀ dp, latmDepack d = Some dp → latm.dp_ok dp
}.

Lemma raw_ok : codecs_ok deliverRaw no_codecs.
Proof. by split. Qed.
Lemma no_codecs_ok k : match k with deliverAAC | deliverFLAC | deliverMP3 | deliverLATM | deliverG726 => False | _ => True end →
  codecs_ok k no_codecs.
Proof. intros H. split; try done. by destruct k. Qed.

Lemma choose_ok desc opts : described_ok desc → ∃ c, choose desc opts = Ok c ∧ codecs_ok (c_kind c) (c_cod c).
Proof.
  intros [Hsmc Hdp]. unfold choose. destruct (negb _); [exists raw; split; [done|apply raw_ok]|].
  assert (Hone : ∀ k c, codecs_ok k c → ∃ ch, mret (M:=res no_err) (mkChoice k 0 0 c) = Ok ch ∧ codecs_ok (c_kind ch) (c_cod ch)).
  { intros k c Hc. by exists (mkChoice k 0 0 c). }
  assert (Hraw : ∃ ch, mret (M:=res no_err) raw = Ok ch ∧ codecs_ok (c_kind ch) (c_cod ch)) by (exists raw; split; [done|apply raw_ok]).
  destruct (d_codec desc) as [asc| | |l|rate packing cr ch|cr ch|m|smc present asc|si] eqn:Ec.
  - unfold configureAAC. destruct (d_aac desc) as [p|]; [|done]. destruct (negb _); [done|].
    destruct (depacketaac.New (configFromAAC p)) as [dp|] eqn:En; [|done]. apply Hone.
    apply depacketaac.New_ok in En as (Hd & _). split; cbn; try done. by intros ? [= <-].
  - apply Hone. by apply no_codecs_ok.
  - apply Hone. split; try done; cbn. intros ? [= <-]. apply depacketmp3.mpa_New_ok, u32_range.
  - eexists. split; [done|]. by apply no_codecs_ok.
  - unfold configureG726. destruct (resolve _ _) as [pk ok]. destruct (g726.New rate pk) as [dec| |] eqn:En; [|done|done].
    apply Hone. split; try done; cbn. intros ? [= <-]. by apply (g726.New_wf rate pk).
  - eexists. split; [done|]. by apply no_codecs_ok.
  - done.
  - unfold configureLATM. cbv zeta. assert (Hl : ∀ dp, latm.dp_ok dp → codecs_ok deliverLATM (with_latm dp (latm.AudioSpecificConfig dp) no_codecs)).
    { intros dp Hd. split; try done; cbn. by intros ? [= <-]. }
    destruct (latmResolved desc).
    + destruct (latmDepack desc) as [dp|] eqn:Ed; [|done]. apply Hone. by apply Hl, Hdp.
    + pose proof (latm.latm_New_returns (latm.mkConfig present smc 0) (Hsmc _ _ _ eq_refl)) as Hn.
      destruct (latm.New _) as [dp|e|]; [|done|done]. destruct Hn as [Hn _]. apply Hone. by apply Hl.
  - apply Hone. split; try done; cbn. by intros ? [= <-].
Qed.

Lemma newTrack_ok id desc opts ch : described_ok desc → ∃ t, newTrack id desc opts ch = Ok t ∧ track_ok t ∧
  pipeline.id (su t) = id ∧ discard (su t) = Discard opts ∧ pendingGap t = 0 ∧ cnt t = mkCounters 0 0 0 0 0 0 0 0 0 0 ∧
  snap t = mkSnapshot 0 0 0 0 0 None ∧ baseSet (bas t) = false.
Proof.
  intros Hd. destruct (choose_ok desc opts Hd) as (c & Ec & Hc). unfold newTrack. rewrite Ec, bind_Ok.
  eexists. split; [done|]. split_and!; try done. split; cbn; try done.
  unfold clockRateTicks. destruct (_ || _) eqn:E; [lia|]. breflect. lia.
Qed.

Lemma process_all_ok cb pkts t : track_ok t → Forall (λ p, packet_ok p.1) pkts →
  ∃ t' evs, process_all cb pkts t = Ok (t', evs) ∧ track_ok t' ∧ su t' = su t ∧
    Forall (λ f, TrackID f = id (su t) ∧ 0 ≤ PTS f < 2 ^ 63 ∧
      ∃ p now, (p, now) ∈ pkts ∧ RTPTime f = rtp.Timestamp (rtp.Hdr p) ∧ ReceivedAt f = now) (frames evs).
Proof.
  intros Ht Hp. revert t Ht. induction Hp as [|[pkt now] pkts Hpk Hp IH]; intros t Ht.
  { by exists t, []. }
  cbn [process_all]. destruct (process_processed cb pkt now t Ht Hpk) as (t1 & evs & acc & -> & Hpr). rewrite bind_Ok.
  destruct (IH t1 (pr_ok _ _ _ _ _ _ _ Hpr)) as (t2 & evs' & -> & Ht2 & Hs & Hf). rewrite bind_Ok.
  eexists _, _. split; [done|]. rewrite (pr_su _ _ _ _ _ _ _ Hpr) in *. split_and!; try done. rewrite frames_app. apply Forall_app_2.
  - eapply Forall_impl; [|exact (pr_frames _ _ _ _ _ _ _ Hpr)]. intros f (F1 & F2 & F3 & ts & F4 & F5). split; [done|].
    split; [rewrite F5; by apply pts_range; [apply (pr_ok _ _ _ _ _ _ _ Hpr)|]|]. exists pkt, now. split; [by left|done].
  - eapply Forall_impl; [|exact Hf]. intros f (F1 & F2 & p & nw & F3 & F4). split_and!; try done; try lia.
    exists p, nw. split; [by right|done].
Qed.

(** A track of each kind of trouble: an Opus stream with a lost packet, a stray payload type, an
    empty payload and a change of source. *)
Definition sample_desc : describedTrack := mkDescribed [] CodecOpus 111 48000 MediaAudio None None true.
Definition sample_packet (pt seq ts ssrc : Z) (data : list Z) : rtp.Packet :=
  rtp.mkPacket (rtp.mkHeader 2 false false true pt seq ts ssrc []) data.
Definition sample_now : rtcp.Time := rtcp.mkTime 1700000000 0.
Definition sample_packets : list (rtp.Packet * rtcp.Time) :=
  (λ p, (p, sample_now)) <$>
  [sample_packet 111 7 960 9 [1]; sample_packet 0 8 1920 9 [2]; sample_packet 111 10 2880 9 [];
   sample_packet 111 11 3840 9 [3]; sample_packet 111 4 77 12 [4]].

Lemma sample_desc_ok : described_ok sample_desc.
Proof. by split. Qed.
Lemma sample_packets_ok : Forall (λ p, packet_ok p.1) sample_packets.
Proof. repeat (constructor; [split; [split; by vm_compute|repeat constructor; by vm_compute|by vm_compute]|]). constructor. Qed.

Example sample_run :
  (t ← newTrack 3 sample_desc (mkOptions false 0) 1;
   '(t, evs) ← process_all (mkCallbacks true false) sample_packets t; mret (evs, malformed (cnt t)))
  = Ok (OnFrame <$> [mkFrame 3 [1] 960 0 sample_now 0; mkFrame 3 [3] 3840 60000000 sample_now 2;
                     mkFrame 3 [4] 77 0 sample_now 0], 2).
Proof. vm_compute. reflexivity. Qed.

(** The track pipeline is safe on untrusted packets. [newTrack] builds a track from any
    descriptor, and whatever RTP packets it is then fed, in any order and of any payload, every
    packet is folded in without a panic by the codec the track was built for; the codec states,
    the reception state and the baseline stay well formed; and every frame handed over carries the
    track's number, the timestamp and arrival time of one of the packets, and a presentation time
    that is a valid duration. *)
Theorem pipeline_safe id desc opts ch cb pkts : described_ok desc → Forall (λ p, packet_ok p.1) pkts →
  ∃ t, newTrack id desc opts ch = Ok t ∧ ∃ t' evs, process_all cb pkts t = Ok (t', evs) ∧ track_ok t' ∧ su t' = su t ∧
    Forall (λ f, TrackID f = id ∧ 0 ≤ PTS f < 2 ^ 63 ∧
      ∃ p now, (p, now) ∈ pkts ∧ RTPTime f = rtp.Timestamp (rtp.Hdr p) ∧ ReceivedAt f = now) (frames evs).
Proof.
  intros Hd Hp. destruct (newTrack_ok id desc opts ch Hd) as (t & E & Ht & Hid & _). exists t. split; [done|].
  destruct (process_all_ok cb pkts t Ht Hp) as (t' & evs & Ep & Ht' & Hs & Hf). rewrite Hid in Hf.
  by exists t', evs.
Qed.

Lemma pipeline_safe_witness : described_ok sample_desc ∧ Forall (λ p, packet_ok p.1) sample_packets ∧
  ∃ t, newTrack 3 sample_desc (mkOptions false 0) 1 = Ok t ∧ ∃ t' evs,
    process_all (mkCallbacks true false) sample_packets t = Ok (t', evs) ∧ track_ok t'.
Proof.
  split; [exact sample_desc_ok|]. split; [exact sample_packets_ok|].
  destruct (pipeline_safe 3 sample_desc (mkOptions false 0) 1 (mkCallbacks true false) sample_packets
    sample_desc_ok sample_packets_ok) as (t & E & t' & evs & Ep & Ht & _).
  exists t. split; [exact E|]. exists t', evs. split; [exact Ep|exact Ht].
Defined.

(** What the frames reported so far ([r]) account for. *)
Record accounted (r : Z) (n : Z) (t : track) : Prop := {
  ac_gaps : 0 ≤ seqGaps (cnt t) ≤ 2 ^ 15 * n;
  ac_pending : 0 ≤ pendingGap t;
  ac_reported : 0 ≤ r;
  ac_resets : 0 ≤ ssrcResets (cnt t) ≤ n;
  ac_sum : r + pendingGap t ≤ seqGaps (cnt t);
  ac_exact : ssrcResets (cnt t) = 0 → r + pendingGap t = seqGaps (cnt t)
}.

Lemma process_all_accounted cb pkts : onFrame cb = true → ∀ t r n, track_ok t → Forall (λ p, packet_ok p.1) pkts →
  accounted r n t → 0 ≤ n → n + blen pkts ≤ 2 ^ 40 →
  ∃ t' evs, process_all cb pkts t = Ok (t', evs) ∧ accounted (r + reported evs) (n + blen pkts) t'.
Proof.
  intros Ho. induction pkts as [|[pkt now] pkts IH]; intros t r n Ht Hp Ha Hn0 Hn.
  { exists t, []. split; [done|]. cbn. by rewrite !Z.add_0_r. }
  apply Forall_cons_iff in Hp as [Hpk Hp]. rewrite blen_cons in *. pose proof (blen_nonneg pkts). cbn [process_all].
  destruct (process_processed cb pkt now t Ht Hpk) as (t1 & evs & acc & -> & Hpr). rewrite bind_Ok.
  assert (H1 : accounted (r + reported evs) (n + 1) t1).
  { pose proof (Observe_update (strm t) (rtp.Hdr pkt) (tk_stream t Ht) (pk_wire _ Hpk)) as (_ & Hg & Hr). destruct Ha.
    destruct acc.
    - destruct (pr_gaps _ _ _ _ _ _ _ Hpr eq_refl) as (G1 & G2 & G3). specialize (G3 Ho). cbv zeta in G3.
      destruct (stream.SSRCReset _); rewrite u64_small in * by (unfold is_u64; lia);
        destruct G3 as (G3 & G4 & G5); try lia; split; lia.
    - destruct (pr_rejected _ _ _ _ _ _ _ Hpr eq_refl) as [-> ->]. cbn. split; cbn; lia. }
  destruct (IH t1 _ (n + 1) (pr_ok _ _ _ _ _ _ _ Hpr) Hp H1) as (t2 & evs' & -> & H2); [lia|lia|]. rewrite bind_Ok.
  eexists _, _. split; [done|]. rewrite reported_app. by rewrite <- !Z.add_assoc in *.
Qed.

(** C27: no loss is reported twice, and none is forgotten. Over any run of up to [2^40] packets
    on a new track with a frame callback, whatever the codec, whatever packets are refused, malformed or complete
    nothing, the losses the frames report and those still pending add up to the sequence gaps
    counted, as long as the source did not change; after a change of source, whose pending losses
    are dropped, they never exceed it. *)
Theorem gaps_reported_once id desc opts ch cb pkts : described_ok desc → onFrame cb = true →
  Forall (λ p, packet_ok p.1) pkts → blen pkts ≤ 2 ^ 40 →
  ∃ t t' evs, newTrack id desc opts ch = Ok t ∧ process_all cb pkts t = Ok (t', evs) ∧
    reported evs + pendingGap t' ≤ seqGaps (cnt t') ∧
    (ssrcResets (cnt t') = 0 → reported evs + pendingGap t' = seqGaps (cnt t')).
Proof.
  intros Hd Ho Hp Hl. destruct (newTrack_ok id desc opts ch Hd) as (t & E & Ht & _ & _ & Hpg & Hc & _).
  assert (Ha : accounted 0 0 t) by (split; rewrite ?Hpg, ?Hc; cbn; lia).
  destruct (process_all_accounted cb pkts Ho t 0 0 Ht Hp Ha) as (t' & evs & Ep & [_ _ _ _ Hs He]); [lia|lia|].
  exists t, t', evs. rewrite Z.add_0_l in Hs, He. by split_and!.
Qed.

Lemma gaps_reported_once_witness : described_ok sample_desc ∧ Forall (λ p, packet_ok p.1) sample_packets ∧
  blen sample_packets ≤ 2 ^ 40 ∧
  ∃ t t' evs, newTrack 3 sample_desc (mkOptions false 0) 1 = Ok t ∧
    process_all (mkCallbacks true false) sample_packets t = Ok (t', evs) ∧
    reported evs + pendingGap t' ≤ seqGaps (cnt t').
Proof.
  split; [exact sample_desc_ok|]. split; [exact sample_packets_ok|]. split; [by vm_compute|].
  destruct (gaps_reported_once 3 sample_desc (mkOptions false 0) 1 (mkCallbacks true false) sample_packets
    sample_desc_ok eq_refl sample_packets_ok ltac:(by vm_compute)) as (t & t' & evs & E & Ep & Hr & _).
  exists t, t', evs. split; [exact E|]. split; [exact Ep|exact Hr].
Defined.

(** ** Sender Reports *)

(** The sender the snapshot names is the source of the media, once there is one. *)
Record clock_ok (past : list (list Z * rtcp.Time)) (t : track) : Prop := {
  cl_sender : baseSet (bas t) = true → stream.init (strm t) = true ∧
    (stream.ssrc (strm t) ≠ 0 → senderSSRC (snap t) = stream.ssrc (strm t));
  cl_none : baseSet (bas t) = false → srClock (snap t) = None ∧ stream.init (strm t) = false;
  cl_source : ∀ clk, srClock (snap t) = Some clk → stream.ssrc (strm t) ≠ 0 →
    ∃ payload now reports sr, (payload, now) ∈ past ∧ rtcp.ParseCompound payload = Ok reports ∧ sr ∈ reports ∧
      rtcp.SSRC sr = stream.ssrc (strm t) ∧ rtcp.SenderClockFrom sr now (clockRate (su t)) = Some clk
}.

Lemma find_first (want : Z) reports sr : find (λ r, rtcp.SSRC r =? want) reports = Some sr →
  sr ∈ reports ∧ rtcp.SSRC sr = want.
Proof. intros [H ?%Z.eqb_eq]%find_some. split; [by apply list_elem_of_In|done]. Qed.

Lemma handleRTCP_ok payload now t : track_ok t → bytes_ok payload →
  ∃ s ok, handleRTCP payload now t = Ok (with_snap s t, ok) ∧
    (s = snap t ∨ ∃ reports sr, rtcp.ParseCompound payload = Ok reports ∧ sr ∈ reports ∧
      (senderSSRC (snap t) ≠ 0 → rtcp.SSRC sr = senderSSRC (snap t)) ∧ senderSSRC s = rtcp.SSRC sr ∧
      srClock s = (if baseSet (bas t) then rtcp.SenderClockFrom sr now (clockRate (su t)) else srClock (snap t))).
Proof.
  intros Ht Hb. assert (Hsame : t = with_snap (snap t) t) by by destruct t. unfold handleRTCP.
  assert (Hp : rtcp.ParseCompound payload ≠ Panic).
  { apply rtcp.compound_loop_total; [done|lia|unfold blen; lia]. }
  destruct (rtcp.ParseCompound payload) as [[|first rest]|e|] eqn:E; [|clear Hp| |done];
    [exists (snap t), false; split; [by rewrite <- Hsame|by left]| |exists (snap t), false; split; [by rewrite <- Hsame|by left]].
  cbv zeta. destruct (Z.eqb_spec (senderSSRC (snap t)) 0) as [H0|H0]; cbn [negb].
  - eexists _, _. split; [done|]. right. exists (first :: rest), first. split_and!; try done. by left.
  - destruct (find _ _) as [sr|] eqn:Ef.
    + apply find_first in Ef as [Hin Hs]. eexists _, _. split; [done|]. right. exists (first :: rest), sr. split_and!; try done.
    + exists (snap t), true. split; [by rewrite <- Hsame|by left].
Qed.

Lemma handleRTCP_clock payload now t past : track_ok t → bytes_ok payload → clock_ok past t →
  ∃ t' ok, handleRTCP payload now t = Ok (t', ok) ∧ track_ok t' ∧ clock_ok ((payload, now) :: past) t'.
Proof.
  intros Ht Hb [Hs Hn Hc]. destruct (handleRTCP_ok payload now t Ht Hb) as (s & ok & -> & Hcase).
  exists (with_snap s t), ok. split; [done|]. split; [destruct Ht; by split|].
  assert (Hc' : ∀ clk, srClock (snap t) = Some clk → stream.ssrc (strm t) ≠ 0 →
    ∃ p n reports sr, (p, n) ∈ (payload, now) :: past ∧ rtcp.ParseCompound p = Ok reports ∧ sr ∈ reports ∧
      rtcp.SSRC sr = stream.ssrc (strm t) ∧ rtcp.SenderClockFrom sr n (clockRate (su t)) = Some clk).
  { intros clk E H0. destruct (Hc clk E H0) as (p & n & reports & sr & Hin & Hrest). exists p, n, reports, sr. split; [by right|done]. }
  destruct Hcase as [->|(reports & sr & E & Hin & Hsr & Hs' & Hclk)]; [by split|].
  destruct (baseSet (bas t)) eqn:Eb.
  - destruct (Hs eq_refl) as [Hi Hq]. split; cbn; rewrite ?Eb; try done.
    + intros _. split; [done|]. intros H0. rewrite Hs', Hsr by (rewrite Hq; done). by apply Hq.
    + intros clk Ek H0. rewrite Hclk in Ek. exists payload, now, reports, sr. split; [by left|]. split_and!; try done.
      rewrite Hsr by (rewrite Hq; done). by apply Hq.
  - destruct (Hn eq_refl) as [Hn1 Hn2]. split; cbn; rewrite ?Eb; try done.
    + intros _. by rewrite Hclk.
    + intros clk Ek. rewrite Hclk in Ek. congruence.
Qed.

Lemma Observe_ssrc s h : stream.ssrc (stream.Observe s h).1 = rtp.SSRC h ∧ stream.init (stream.Observe s h).1 = true ∧
  (stream.init s = true → stream.SSRCReset (stream.Observe s h).2 = false → stream.ssrc s = rtp.SSRC h).
Proof.
  unfold stream.Observe. destruct (stream.init s); cbn [negb]; [|by split_and!].
  destruct (Z.eqb_spec (rtp.SSRC h) (stream.ssrc s)); cbn [negb]; [|by split_and!]. cbv zeta.
  destruct (_ =? 0); [by split_and!|]. destruct (_ <? _); by split_and!.
Qed.

Lemma process_clock cb pkt now t past t' evs acc : processed cb pkt now t t' evs acc → clock_ok past t → clock_ok past t'.
Proof.
  intros Hpr [Hs Hn Hc]. pose proof (Observe_ssrc (strm t) (rtp.Hdr pkt)) as (O1 & O2 & O3). destruct acc.
  - pose proof (pr_strm _ _ _ _ _ _ _ Hpr) as Es. destruct (pr_base _ _ _ _ _ _ _ Hpr eq_refl) as (B1 & B2 & B3). cbv zeta in *.
    destruct (stream.SSRCReset (stream.Observe (strm t) (rtp.Hdr pkt)).2) eqn:Er; cbn [negb andb] in *.
    + by split; rewrite ?Es, ?B1, ?B2, ?O1, ?O2.
    + destruct (baseSet (bas t)) eqn:Eb.
      * destruct (Hs eq_refl) as [Hi Hq]. specialize (O3 Hi eq_refl). destruct B3 as [_ B3].
        split; rewrite ?Es, ?B1, ?B2, ?O1, ?O2; try done.
        -- intros _. split; [done|]. intros H0. rewrite B3. rewrite <- O3 in *. by apply Hq.
        -- intros clk Ek H0. rewrite (pr_su _ _ _ _ _ _ _ Hpr). rewrite <- O3 in *. by apply Hc.
      * destruct (Hn eq_refl) as [Hn1 Hn2]. split; rewrite ?Es, ?B1, ?B2, ?O1, ?O2; try done.
        intros clk Ek. congruence.
  - destruct (pr_rejected _ _ _ _ _ _ _ Hpr eq_refl) as [_ E].
    assert (bas t' = bas t ∧ snap t' = snap t ∧ strm t' = strm t ∧ su t' = su t) as (E1 & E2 & E3 & E4) by (by rewrite E).
    split; by rewrite ?E1, ?E2, ?E3, ?E4.
Qed.

(** The two receivers of a track, in any order. *)
Inductive input := RTP (pkt : rtp.Packet) | RTCP (payload : list Z).

Definition input_ok (i : input) : Prop :=
  match i with RTP pkt => packet_ok pkt | RTCP payload => bytes_ok payload end.

Fixpoint receive_all (cb : callbacks) (ins : list (input * rtcp.Time)) (t : track) : res no_err track :=
  match ins with
  | [] => mret t
  | (RTP pkt, now) :: ins => '(t, _, _) ← process cb pkt now t; receive_all cb ins t
  | (RTCP payload, now) :: ins => '(t, _) ← handleRTCP payload now t; receive_all cb ins t
  end.

Definition reports_of (ins : list (input * rtcp.Time)) : list (list Z * rtcp.Time) :=
  omap (λ i, match i with (RTCP payload, now) => Some (payload, now) | _ => None end) ins.

Lemma clock_ok_weaken past past' t : (∀ x, x ∈ past → x ∈ past') → clock_ok past t → clock_ok past' t.
Proof.
  intros Hin [Hs Hn Hc]. split; try done. intros clk E H0. destruct (Hc clk E H0) as (p & n & rs & sr & Hp & Hrest).
  exists p, n, rs, sr. split; [by apply Hin|done].
Qed.

Lemma receive_all_clock cb ins : Forall (λ i, input_ok i.1) ins → ∀ past t, track_ok t → clock_ok past t →
  ∃ t', receive_all cb ins t = Ok t' ∧ track_ok t' ∧ su t' = su t ∧ clock_ok (reports_of ins ++ past) t'.
Proof.
  induction 1 as [|[[pkt|payload] now] ins Hi _ IH]; intros past t Ht Hcl; [by exists t| |]; cbn [receive_all fst] in *.
  - destruct (process_processed cb pkt now t Ht Hi) as (t1 & evs & acc & -> & Hpr). rewrite bind_Ok.
    destruct (IH past t1 (pr_ok _ _ _ _ _ _ _ Hpr) (process_clock _ _ _ _ _ _ _ _ Hpr Hcl)) as (t2 & -> & Ht2 & Hs & Hc2).
    exists t2. rewrite (pr_su _ _ _ _ _ _ _ Hpr) in Hs. by split_and!.
  - destruct (handleRTCP_ok payload now t Ht Hi) as (s & ok & E & _).
    destruct (handleRTCP_clock payload now t past Ht Hi Hcl) as (t1 & ok1 & E1 & Ht1 & Hc1). rewrite E1, bind_Ok.
    rewrite E in E1. injection E1 as <- <-.
    destruct (IH _ _ Ht1 Hc1) as (t2 & -> & Ht2 & Hs & Hc2). exists t2. split_and!; try done.
    eapply clock_ok_weaken; [|exact Hc2]. intros x Hx. cbn.
    apply elem_of_app in Hx as [Hx|Hx]; [right; by apply elem_of_app; left|].
    apply elem_of_cons in Hx as [->|Hx]; [by left|]. right. by apply elem_of_app; right.
Qed.

(** The published wall clock belongs to the media. However RTP packets and RTCP compounds
    (of any octets) of a track interleave, none of them panics, and a sender clock, once published,
    comes from a Sender Report received under the SSRC the media is received under, scaled by the
    track's clock rate, a mixer's other reports notwithstanding; a change of source withdraws it.
    The SSRC 0 is excepted: the code uses it for an unknown sender. *)
Theorem clock_of_media id desc opts ch cb ins : described_ok desc → Forall (λ i, input_ok i.1) ins →
  ∃ t t', newTrack id desc opts ch = Ok t ∧ receive_all cb ins t = Ok t' ∧ track_ok t' ∧
    (∀ clk, srClock (snap t') = Some clk → stream.ssrc (strm t') ≠ 0 →
       ∃ payload now reports sr, (RTCP payload, now) ∈ ins ∧ rtcp.ParseCompound payload = Ok reports ∧ sr ∈ reports ∧
         rtcp.SSRC sr = stream.ssrc (strm t') ∧ rtcp.SenderClockFrom sr now (clockRate (su t)) = Some clk).
Proof.
  intros Hd Hi. destruct (newTrack_ok id desc opts ch Hd) as (t & E & Ht & _ & _ & _ & _ & Hsn & Hb).
  assert (Hcl : clock_ok [] t).
  { split; try (intros; congruence); [|rewrite Hsn; done]. intros _. rewrite Hsn. split; [done|].
    unfold newTrack in E. destruct (choose desc opts); [|done|done]. by injection E as <-. }
  destruct (receive_all_clock cb ins Hi [] t Ht Hcl) as (t' & Er & Ht' & Hs & [_ _ Hc]).
  exists t, t'. split_and!; try done. intros clk Ek H0. destruct (Hc clk Ek H0) as (p & n & rs & sr & Hin & H1).
  rewrite Hs in H1. exists p, n, rs, sr. split; [|done]. rewrite app_nil_r in Hin. unfold reports_of in Hin.
  apply list_elem_of_omap in Hin as ([[pkt|p'] n'] & Hin & Ei); [done|]. by injection Ei as -> ->.
Qed.
(** Media from the source 9, whose Sender Report follows. *)
Definition sample_report : list Z :=
  [0x80; 200; 0; 6; 0; 0; 0; 9; 0xe9; 0; 0; 0; 0; 0; 0; 0; 0; 0; 0x0f; 0; 0; 0; 0; 1; 0; 0; 0; 1].
Definition sample_inputs : list (input * rtcp.Time) :=
  [(RTP (sample_packet 111 7 960 9 [1]), sample_now); (RTCP sample_report, sample_now)].

Lemma clock_of_media_witness : described_ok sample_desc ∧ Forall (λ i, input_ok i.1) sample_inputs ∧
  ∃ t t', newTrack 3 sample_desc (mkOptions false 0) 1 = Ok t ∧
    receive_all (mkCallbacks true false) sample_inputs t = Ok t' ∧ track_ok t'.
Proof.
  assert (Hi : Forall (λ i, input_ok i.1) sample_inputs).
  { apply Forall_cons_2; [split; [split; by vm_compute|repeat constructor; by vm_compute|by vm_compute]|].
    apply Forall_cons_2; [repeat constructor; by vm_compute|constructor]. }
  split; [exact sample_desc_ok|]. split; [exact Hi|].
  destruct (clock_of_media 3 sample_desc (mkOptions false 0) 1 (mkCallbacks true false) sample_inputs
    sample_desc_ok Hi) as (t & t' & E & Er & Ht & _).
  exists t, t'. split; [exact E|]. split; [exact Er|exact Ht].
Defined.

Example sample_clock :
  (t ← newTrack 3 sample_desc (mkOptions false 0) 1; t ← receive_all (mkCallbacks true false) sample_inputs t;
   mret (rtcp.RTPTime <$> srClock (snap t))) = Ok (Some 3840).
Proof. vm_compute. reflexivity. Qed.
End pipeline.
