(* ===== verification/Transport.v ===== *)
(** * Receiving media: [rtsp/udprecv.go] and the TCP frames of [rtsp/reader.go]

    What the two transports do to a track before and around [process]: the UDP receive loops
    with their resequencing, and the interleaved frames of the control connection.  One round of
    a loop is one function; the socket reads are the datagrams a run is given. *)
From S2P Require Import Prelude Bytes RtpPacket Rtcp Stream Reorder MediaTime FlacRtp Aac Mpa Latm G726 Pcm Media Pipeline.
Local Open Scope Z_scope.

Module transport.
Import audiostream pipeline.

(** ** The transport's counters

    [process] neither reads nor writes the four counters the transports keep, nor the clock:
    it only passes the arrival time on to the frames. *)
Record stamps := mkStamps { s_wire : Z; s_drops : Z; s_filtered : Z; s_at : Z }.

Definition stamp_cnt (o : stamps) (c : counters) : counters :=
  mkCounters (packets c) (payloadBytes c) (s_wire o) (seqGaps c) (duplicates c) (s_drops o)
    (malformed c) (ssrcResets c) (s_filtered o) (s_at o).
Definition stamp (o : stamps) (t : track) : track := with_cnt (stamp_cnt o (cnt t)) t.

Definition arrive (now : rtcp.Time) (e : event) : event :=
  match e with
  | OnFrame f => OnFrame (mkFrame (TrackID f) (Data f) (RTPTime f) (PTS f) now (SeqGap f))
  | OnCodecUpdate u => OnCodecUpdate u
  end.

Definition stamp_out (o : stamps) (now : rtcp.Time) (m : delivery) : delivery :=
  match m with Ok (t, evs) => Ok (stamp o t, arrive now <$> evs) | Err e => Err e | Panic => Panic end.

Section stamped.
Context (cb : callbacks) (pkt : rtp.Packet) (up : stream.Update) (now now0 : rtcp.Time) (o : stamps).

Lemma deliverOne_stamp data t :
  deliverOne cb data pkt up now (stamp o t) =
    let '(t', evs) := deliverOne cb data pkt up now0 t in (stamp o t', arrive now <$> evs).
Proof. unfold deliverOne. by destruct (onFrame cb). Qed.

Lemma units_loop_stamp us i t :
  units_loop cb pkt up now i us (stamp o t) =
    let '(t', evs) := units_loop cb pkt up now0 i us t in (stamp o t', arrive now <$> evs).
Proof.
  revert i t. induction us as [|[data off] us IH]; intros i t; [done|]. cbn [units_loop].
  destruct (i =? 0).
  - change (with_pending 0 (stamp o t)) with (stamp o (with_pending 0 t)). rewrite IH.
    destruct (units_loop cb pkt up now0 (i + 1) us (with_pending 0 t)) as [t' evs]. rewrite fmap_app. by destruct (onFrame cb).
  - rewrite IH. destruct (units_loop cb pkt up now0 (i + 1) us t) as [t' evs]. rewrite fmap_app. by destruct (onFrame cb).
Qed.

(** The ways a delivery ends. *)
Lemma one_stamp data t : mret (M:=res no_err) (deliverOne cb data pkt up now (stamp o t)) = stamp_out o now (mret (deliverOne cb data pkt up now0 t)).
Proof. rewrite deliverOne_stamp. by destruct (deliverOne _ _ _ _ _ t). Qed.
Lemma units_stamp us t : mret (M:=res no_err) (units_loop cb pkt up now 0 us (stamp o t)) = stamp_out o now (mret (units_loop cb pkt up now0 0 us t)).
Proof. rewrite units_loop_stamp. by destruct (units_loop _ _ _ _ _ _ t). Qed.

Lemma deliver_aac_stamp t : deliver_aac cb pkt up now (stamp o t) = stamp_out o now (deliver_aac cb pkt up now0 t).
Proof.
  unfold deliver_aac. cbv zeta. change (aac_ (cod (fold_gap up (stamp o t)))) with (aac_ (cod (fold_gap up t))).
  destruct (aac_ _) as [d|]; [|done]. destruct (unfail _) as [[d' r]|e|]; [|done|done]. rewrite !bind_Ok.
  destruct r as [aus|e]; [apply (units_stamp _ (with_cod (with_aac d' (cod t)) (fold_gap up t)))|done].
Qed.

Lemma deliver_latm_stamp t : deliver_latm cb pkt up now (stamp o t) = stamp_out o now (deliver_latm cb pkt up now0 t).
Proof.
  unfold deliver_latm. cbv zeta. change (latm_ (cod (fold_gap up (stamp o t)))) with (latm_ (cod (fold_gap up t))).
  destruct (latm_ _) as [d|]; [|done]. destruct (unfail _) as [[d' r]|e|]; [|done|done]. rewrite !bind_Ok.
  destruct r as [aus|e]; [|done]. set (t1 := with_cod (with_latm d' (latmASC (cod t)) (cod t)) (fold_gap up t)).
  change (with_cod (with_latm d' (latmASC (cod (fold_gap up (stamp o t)))) (cod (fold_gap up (stamp o t)))) (fold_gap up (stamp o t)))
    with (stamp o t1).
  change (with_cod (with_latm d' (latmASC (cod (fold_gap up t))) (cod (fold_gap up t))) (fold_gap up t)) with t1.
  assert (Hu : ∀ t2 evs0, (arrive now <$> evs0 = evs0) →
    (let '(t, evs) := units_loop cb pkt up now 0 ((λ u, (latm.Data u, latm.RTPOffset u)) <$> aus) (stamp o t2) in
      mret (M:=res no_err) (t, evs0 ++ evs)) =
    stamp_out o now (let '(t, evs) := units_loop cb pkt up now0 0 ((λ u, (latm.Data u, latm.RTPOffset u)) <$> aus) t2 in mret (t, evs0 ++ evs))).
  { intros t2 evs0 H0. rewrite units_loop_stamp. destruct (units_loop _ _ _ now0 _ _ t2) as [t3 evs].
    cbn. by rewrite fmap_app, H0. }
  destruct (latm.AudioSpecificConfig d') as [asc|]; [|by apply (Hu t1 [])].
  change (latmASC (cod (stamp o t1))) with (latmASC (cod t1)). destruct (bool_decide _); [by apply (Hu t1 [])|].
  apply (Hu (with_cod (with_latm d' (Some asc) (cod t1)) t1)). by destruct (onCodecUpdate cb).
Qed.

Lemma deliver_opus_stamp t : deliver_opus cb pkt up now (stamp o t) = stamp_out o now (deliver_opus cb pkt up now0 t).
Proof.
  unfold deliver_opus. destruct (depacketopus.Depacketize _) as [data|e]; [apply (one_stamp data (fold_gap up t))|done].
Qed.

Lemma with_scratch_stamp {A} n t (dec : list Z → res no_err (Z * list Z * A)) (k k0 : list Z * A * track → delivery) :
  (∀ out a t, k (out, a, stamp o t) = stamp_out o now (k0 (out, a, t))) →
  (x ← with_scratch n (stamp o t) dec; k x) = stamp_out o now (x ← with_scratch n t dec; k0 x).
Proof.
  intros Hk. unfold with_scratch. cbv zeta. change (cod (stamp o t)) with (cod t).
  destruct (dec _) as [[[m dst] a]|e|]; [|done|done]. rewrite !bind_Ok. destruct (slice dst 0 m) as [out|e|]; [|done|done].
  rewrite !bind_Ok, !bind_ret. apply (Hk out a (with_cod (with_pcm _ (cod t)) t)).
Qed.

Lemma deliver_g711_stamp t : deliver_g711 cb pkt up now (stamp o t) = stamp_out o now (deliver_g711 cb pkt up now0 t).
Proof.
  unfold deliver_g711. destruct (negb _); [done|]. apply (with_scratch_stamp _ (fold_gap up t)). intros out [e|] t1; [done|apply one_stamp].
Qed.

Lemma deliver_l16_stamp t : deliver_l16 cb pkt up now (stamp o t) = stamp_out o now (deliver_l16 cb pkt up now0 t).
Proof.
  unfold deliver_l16. cbv zeta. change (su (stamp o t)) with (su t). destruct (_ || _); [by destruct (onFrame cb)|].
  destruct (negb _); [done|]. apply (with_scratch_stamp _ (fold_gap up t)). intros out [] t1. apply one_stamp.
Qed.

Lemma deliver_g726_stamp t : deliver_g726 cb pkt up now (stamp o t) = stamp_out o now (deliver_g726 cb pkt up now0 t).
Proof.
  unfold deliver_g726. destruct (negb _); [done|]. cbv zeta. change (g726_ (cod (fold_gap up (stamp o t)))) with (g726_ (cod (fold_gap up t))).
  destruct (g726_ _) as [d|]; [|done]. apply (with_scratch_stamp _ (fold_gap up t)). intros out [d' [e|]] t1; [done|].
  apply (one_stamp out (with_cod (with_g726 d' (cod t1)) t1)).
Qed.

Lemma deliver_flac_stamp t : deliver_flac cb pkt up now (stamp o t) = stamp_out o now (deliver_flac cb pkt up now0 t).
Proof.
  unfold deliver_flac. cbv zeta. change (flac_ (cod (fold_gap up (stamp o t)))) with (flac_ (cod (fold_gap up t))).
  destruct (flac_ _) as [d|]; [|done]. destruct (depacketflac.Depacketize _ _ _ _) as [d' [[f|]|e|]]; try done.
  apply (one_stamp f (with_cod (with_flac d' (cod t)) (fold_gap up t))).
Qed.

Lemma deliver_mp3_stamp t : deliver_mp3 cb pkt up now (stamp o t) = stamp_out o now (deliver_mp3 cb pkt up now0 t).
Proof.
  unfold deliver_mp3. cbv zeta. change (mp3_ (cod (fold_gap up (stamp o t)))) with (mp3_ (cod (fold_gap up t))).
  destruct (mp3_ _) as [d|]; [|done]. destruct (depacketmp3.Depacketize _ _ _) as [[d' r]|e|]; [|done|done]. rewrite !bind_Ok.
  destruct r as [fs|e]; [apply (units_stamp _ (with_cod (with_mp3 d' (cod t)) (fold_gap up t)))|done].
Qed.
End stamped.

Lemma deliver_stamp cb pkt up now now0 o t :
  (match kind (su t) with deliverLATM => deliver_latm cb pkt up now (stamp o t) | _ => deliver cb pkt up now (stamp o t) end) =
  stamp_out o now (match kind (su t) with deliverLATM => deliver_latm cb pkt up now0 t | _ => deliver cb pkt up now0 t end).
Proof.
  unfold deliver. change (su (stamp o t)) with (su t).
  destruct (kind (su t)); auto using deliver_aac_stamp, deliver_opus_stamp, deliver_g711_stamp, deliver_l16_stamp, deliver_latm_stamp,
    deliver_g726_stamp, deliver_flac_stamp, deliver_mp3_stamp.
  apply (one_stamp cb pkt up now now0 o _ (fold_gap up t)).
Qed.

Lemma resetDepacketizer_stamp b o t : resetDepacketizer b (stamp o t) = (t ← resetDepacketizer b t; mret (stamp o t)).
Proof.
  unfold resetDepacketizer. cbv zeta. change (stamp o t) with (with_cnt (stamp_cnt o (cnt t)) t). destruct b.
  - change (cod (with_pending 0 (with_cnt (stamp_cnt o (cnt t)) t))) with (cod t). change (cod (with_pending 0 t)) with (cod t).
    destruct (latm_ _) as [d|]; [|done]. by destruct (unfail (latm.Reset d)).
  - change (cod (with_cnt (stamp_cnt o (cnt t)) t)) with (cod t). by destruct (latm_ _).
Qed.

(** One packet, whatever the transport: the same track but for the stamps, the same frames but
    for their arrival time. *)
Lemma process_stamp cb pkt now now0 o t :
  process cb pkt now (stamp o t) =
    match process cb pkt now0 t with
    | Ok (t, evs, acc) => Ok (stamp o t, arrive now <$> evs, acc)
    | Err e => Err e | Panic => Panic
    end.
Proof.
  unfold process. cbv zeta. change (wpt (stamp o t)) with (wpt t). change (su (stamp o t)) with (su t).
  destruct (acceptPayloadType _ _ _) as [ok p]. destruct ok; cbn [negb]; [|done].
  change (strm (with_wpt p (stamp o t))) with (strm (with_wpt p t)). destruct (stream.Observe _ _) as [s up].
  change (with_strm s (with_wpt p (stamp o t))) with (stamp o (with_strm s (with_wpt p t))).
  set (t1 := with_strm s (with_wpt p t)).
  assert (E1 : on_ssrc_change up (stamp o t1) = (t ← on_ssrc_change up t1; mret (stamp o t))).
  { unfold on_ssrc_change. destruct (stream.SSRCReset up); [|done]. cbv zeta.
    change (with_bas (mkBaseline (baseTS (bas (with_cnt (add_ssrcResets (cnt (stamp o t1))) (stamp o t1)))) false
      (baselineFixed (bas (with_cnt (add_ssrcResets (cnt (stamp o t1))) (stamp o t1))))
      (seed (bas (with_cnt (add_ssrcResets (cnt (stamp o t1))) (stamp o t1))))
      (hasSeed (bas (with_cnt (add_ssrcResets (cnt (stamp o t1))) (stamp o t1)))))
      (with_cnt (add_ssrcResets (cnt (stamp o t1))) (stamp o t1)))
      with (stamp o (with_bas (mkBaseline (baseTS (bas t1)) false (baselineFixed (bas t1)) (seed (bas t1)) (hasSeed (bas t1)))
        (with_cnt (add_ssrcResets (cnt t1)) t1))).
    rewrite resetDepacketizer_stamp. by destruct (resetDepacketizer _ _). }
  rewrite E1. destruct (on_ssrc_change up t1) as [t2|e|]; [|done|done]. rewrite !bind_Ok, !bind_ret.
  assert (E2 : establish_baseline (rtp.SSRC (rtp.Hdr pkt)) up (stamp o t2) = stamp o (establish_baseline (rtp.SSRC (rtp.Hdr pkt)) up t2)).
  { unfold establish_baseline. change (bas (stamp o t2)) with (bas t2). by destruct (negb _). }
  rewrite E2. set (t3 := establish_baseline _ up t2).
  assert (E3 : on_gap up (stamp o t3) = (t ← on_gap up t3; mret (stamp o t))).
  { unfold on_gap. destruct (0 <? _); [|done].
    apply (resetDepacketizer_stamp false o (with_cnt (add_seqGaps (u64 (stream.Gap up)) (cnt t3)) t3)). }
  rewrite E3. destruct (on_gap up t3) as [t4|e|]; [|done|done]. rewrite !bind_Ok, !bind_ret.
  change (su (stamp o t4)) with (su t4). rewrite (deliver_stamp cb pkt up now now0 o t4).
  destruct (match kind (su t4) with deliverLATM => _ | _ => _ end) as [[t5 evs]|e|]; [|done|done]. done.
Qed.

(** ** Source addresses: [net.IP.Equal] *)
Definition v4InV6Prefix : list Z := repeat 0 10 ++ [0xff; 0xff].
Definition IP_Equal (ip x : list Z) : bool :=
  if blen ip =? blen x then bool_decide (ip = x)
  else if (blen ip =? 4) && (blen x =? 16) then bool_decide (x = v4InV6Prefix ++ ip)
  else if (blen ip =? 16) && (blen x =? 4) then bool_decide (ip = v4InV6Prefix ++ x)
  else false.

Definition fromPeer (addr : option (list Z)) (peerIP : list Z) : bool :=
  match addr with Some ip => IP_Equal ip peerIP | None => false end.

(** ** The UDP receive loops *)

(** The variables of [runRTPReceiver]'s loop. *)
Record receiver := mkReceiver { ring : reorder.Reorderer; lastSSRC : Z; haveSSRC : bool }.
Definition new_receiver : receiver := mkReceiver reorder.zero 0 false.

Fixpoint drainReleased (cb : callbacks) (released : list reorder.Released) (now : rtcp.Time) (t : track)
    : res no_err (track * list event) :=
  match released with
  | [] => mret (t, [])
  | rel :: released =>
      match rtp.ParsePacket (reorder.Payload rel) with
      | Panic => Panic
      | Err _ => drainReleased cb released now (bad t)
      | Ok pkt =>
          '(t, evs, _) ← process cb pkt now t;
          '(t, evs') ← drainReleased cb released now t;
          mret (t, evs ++ evs')
      end
  end.

(** Before a packet of another source: what the old one left is drained, the ring starts over. *)
Definition on_source (cb : callbacks) (ssrc : Z) (now : rtcp.Time) (rx : receiver) (t : track)
    : res no_err (reorder.Reorderer * track * list event) :=
  if haveSSRC rx && negb (ssrc =? lastSSRC rx) then
    let '(ring, released) := reorder.Flush (ring rx) in
    '(t, evs) ← drainReleased cb released now t;
    mret (reorder.Reset ring, t, evs)
  else mret (ring rx, t, []).

(** A parsed datagram. *)
Definition accept_datagram (cb : callbacks) (pkt : rtp.Packet) (datagram : list Z) (now : rtcp.Time) (rx : receiver) (t : track)
    : res no_err (receiver * track * list event) :=
  let ssrc := rtp.SSRC (rtp.Hdr pkt) in
  '(ring, t, evs) ← on_source cb ssrc now rx t;
  let lateBefore := reorder.Late (reorder.Stats ring) in
  let '(ring, released) := reorder.Push ring (rtp.SequenceNumber (rtp.Hdr pkt)) datagram in
  let lateAfter := reorder.Late (reorder.Stats ring) in
  let t := if lateBefore <? lateAfter then with_cnt (add_drops (u64 (lateAfter - lateBefore)) (cnt t)) t else t in
  '(t, evs') ← drainReleased cb released now t;
  mret (mkReceiver ring ssrc true, t, evs ++ evs').

(** One datagram of [runRTPReceiver]. *)
Definition rtp_datagram (cb : callbacks) (peerIP : list Z) (addr : option (list Z)) (datagram : list Z) (now : rtcp.Time)
    (rx : receiver) (t : track) : res no_err (receiver * track * list event) :=
  if negb (fromPeer addr peerIP) then mret (rx, with_cnt (add_filtered (cnt t)) t, [])
  else
    let t := with_cnt (add_wire (UnixNano now) (blen datagram) (cnt t)) t in
    match rtp.ParsePacket datagram with
    | Panic => Panic
    | Err _ => mret (rx, bad t, [])
    | Ok pkt => accept_datagram cb pkt datagram now rx t
    end.

(** One datagram of [runRTCPReceiver]. *)
Definition rtcp_datagram (peerIP : list Z) (addr : option (list Z)) (datagram : list Z) (now : rtcp.Time) (t : track)
    : res no_err track :=
  if negb (fromPeer addr peerIP) then mret (with_cnt (add_filtered (cnt t)) t)
  else '(t, _) ← handleRTCP datagram now t; mret t.

(** The shape a discarded packet is counted by: a whole RTP header of version 2. *)
Definition shape_ok (payload : list Z) : bool :=
  (rtp.HeaderSize <=? blen payload) && match payload with b :: _ => Z.shiftr b 6 =? 2 | [] => false end.

Definition add_shape (c : counters) : counters :=
  mkCounters (u64 (packets c + 1)) (payloadBytes c) (wireBytes c) (seqGaps c) (duplicates c) (reorderDrops c)
    (malformed c) (ssrcResets c) (sourceFiltered c) (lastFrameUnixNano c).

(** One datagram of [runDiscardReceiver]. *)
Definition discard_datagram (isRTCP : bool) (peerIP : list Z) (addr : option (list Z)) (datagram : list Z) (now : rtcp.Time)
    (t : track) : track :=
  if negb (fromPeer addr peerIP) then with_cnt (add_filtered (cnt t)) t
  else if isRTCP then t
  else
    let t := with_cnt (add_wire (UnixNano now) (blen datagram) (cnt t)) t in
    if shape_ok datagram then with_cnt (add_shape (cnt t)) t else t.

(** ** The frames of the control connection *)
Definition interleavedHeaderLen : Z := 4.

(** An interleaved frame on a track's RTP channel: [handleInterleaved] past the routing. *)
Definition rtp_frame (cb : callbacks) (payload : list Z) (now : rtcp.Time) (t : track) : res no_err (track * list event * bool) :=
  let t := with_cnt (add_wire (UnixNano now) (u64 (interleavedHeaderLen + blen payload)) (cnt t)) t in
  if discard (su t) then
    if shape_ok payload then mret (with_cnt (add_shape (cnt t)) t, [], true) else mret (t, [], false)
  else
    match rtp.ParsePacket payload with
    | Panic => Panic
    | Err _ => mret (bad t, [], false)
    | Ok pkt => process cb pkt now t
    end.

(** ... and on its RTCP channel. *)
Definition rtcp_frame (payload : list Z) (now : rtcp.Time) (t : track) : res no_err (track * bool) :=
  if discard (su t) then mret (t, shape_ok payload) else handleRTCP payload now t.

(** ** Parsing *)
Lemma ParsePacket_packet_ok data pkt : bytes_ok data → blen data ≤ 2 ^ 16 → rtp.ParsePacket data = Ok pkt → packet_ok pkt.
Proof.
  intros Hb Hl H. destruct (rtp.ParsePacket_payload data pkt Hb H) as (_ & [H1 H2 H3 H4 H5 H6] & hdr & pad & -> & _ & _ & _).
  split; [by split| |].
  - by apply Forall_app in Hb as [_ [Hb _]%Forall_app].
  - rewrite !blen_app in Hl. pose proof (blen_nonneg hdr). pose proof (blen_nonneg pad). lia.
Qed.

(** A whole RTP packet as an octet string. *)
Definition datagram_ok (data : list Z) : Prop := bytes_ok data ∧ blen data ≤ 2 ^ 16.
Definition parses (data : list Z) : Prop := datagram_ok data ∧ ∃ pkt, rtp.ParsePacket data = Ok pkt.

(** ** Draining *)
Lemma drain_app cb a b now t :
  drainReleased cb (a ++ b) now t =
    ('(t, evs) ← drainReleased cb a now t; '(t, evs') ← drainReleased cb b now t; mret (t, evs ++ evs')).
Proof.
  revert t. induction a as [|rel a IH]; intros t; cbn [app drainReleased].
  { rewrite bind_ret. by destruct (drainReleased cb b now t) as [[t' evs]|e|]. }
  destruct (rtp.ParsePacket _) as [pkt|e|]; [|apply IH|done].
  destruct (process cb pkt now t) as [[[t1 evs] acc]|e|]; [|done|done]. rewrite !bind_Ok, IH.
  destruct (drainReleased cb a now t1) as [[t2 evs2]|e|]; [|done|done]. rewrite !bind_Ok, !bind_ret.
  destruct (drainReleased cb b now t2) as [[t3 evs3]|e|]; [|done|done]. cbn. by rewrite app_assoc.
Qed.

Lemma drain_stamp cb released now now0 o t :
  drainReleased cb released now (stamp o t) = stamp_out o now (drainReleased cb released now0 t).
Proof.
  revert t. induction released as [|rel released IH]; intros t; [done|]. cbn [drainReleased].
  destruct (rtp.ParsePacket _) as [pkt|e|]; [|apply (IH (bad t))|done]. rewrite (process_stamp cb pkt now now0).
  destruct (process cb pkt now0 t) as [[[t1 evs] acc]|e|]; [|done|done]. rewrite !bind_Ok, IH.
  destruct (drainReleased cb released now0 t1) as [[t2 evs2]|e|]; [|done|done]. cbn. by rewrite fmap_app.
Qed.

(** ** The two transports agree *)
Fixpoint run_udp (cb : callbacks) (peerIP : list Z) (ds : list (option (list Z) * list Z * rtcp.Time)) (rx : receiver) (t : track)
    : res no_err (receiver * track * list event) :=
  match ds with
  | [] => mret (rx, t, [])
  | (addr, data, now) :: ds =>
      '(rx, t, evs) ← rtp_datagram cb peerIP addr data now rx t;
      '(rx, t, evs') ← run_udp cb peerIP ds rx t;
      mret (rx, t, evs ++ evs')
  end.

Fixpoint run_tcp (cb : callbacks) (fs : list (list Z * rtcp.Time)) (t : track) : res no_err (track * list event) :=
  match fs with
  | [] => mret (t, [])
  | (payload, now) :: fs =>
      '(t, evs, _) ← rtp_frame cb payload now t;
      '(t, evs') ← run_tcp cb fs t;
      mret (t, evs ++ evs')
  end.

(** A track without the transport's counters, and frames without their arrival time. *)
Definition media (t : track) : track := stamp (mkStamps 0 0 0 0) t.
Definition undated (evs : list event) : list event := arrive rtcp.zero_time <$> evs.

Definition stamps_of (t : track) : stamps :=
  mkStamps (wireBytes (cnt t)) (reorderDrops (cnt t)) (sourceFiltered (cnt t)) (lastFrameUnixNano (cnt t)).
Lemma stamp_self t : stamp (stamps_of t) t = t.
Proof. by destruct t as [? ? ? ? ? ? [] ?]. Qed.
Lemma undated_app a b : undated (a ++ b) = undated a ++ undated b.
Proof. apply fmap_app. Qed.
Lemma undated_arrive now evs : undated (arrive now <$> evs) = undated evs.
Proof. unfold undated. rewrite <- list_fmap_compose. apply list_fmap_ext. by intros ? [] ?. Qed.

(** Draining octet strings, at no particular time, is what both transports do to the media. *)
Definition folds (cb : callbacks) (payloads : list (list Z)) (t : track) : res no_err (track * list event) :=
  drainReleased cb (reorder.mkReleased 0 <$> payloads) rtcp.zero_time t.

Lemma folds_released cb released t : drainReleased cb released rtcp.zero_time t = folds cb (reorder.Payload <$> released) t.
Proof.
  unfold folds. revert t. induction released as [|rel released IH]; intros t; [done|]. cbn [drainReleased fmap list_fmap reorder.Payload].
  destruct (rtp.ParsePacket _) as [pkt|e|]; [|apply IH|done].
  destruct (process _ _ _ _) as [[[t1 evs] acc]|e|]; [|done|done]. by rewrite !bind_Ok, IH.
Qed.

Lemma folds_app cb a b t :
  folds cb (a ++ b) t = ('(t, evs) ← folds cb a t; '(t, evs') ← folds cb b t; mret (t, evs ++ evs')).
Proof. unfold folds. rewrite fmap_app. apply drain_app. Qed.

Lemma bad_ok t : track_ok t → track_ok (bad t).
Proof. intros []. by split. Qed.
Lemma stamp_ok o t : track_ok t → track_ok (stamp o t).
Proof. intros []. by split. Qed.

Lemma folds_ok cb ps t : track_ok t → Forall datagram_ok ps → ∃ t' evs, folds cb ps t = Ok (t', evs) ∧ track_ok t' ∧ su t' = su t.
Proof.
  revert t. induction ps as [|p ps IH]; intros t Ht Hp; [by exists t, []|]. apply Forall_cons_iff in Hp as [[Hb Hl] Hp].
  unfold folds in *. cbn [drainReleased fmap list_fmap reorder.Payload].
  destruct (rtp.ParsePacket p) as [pkt|e|] eqn:E.
  - destruct (process_processed cb pkt rtcp.zero_time t Ht (ParsePacket_packet_ok p pkt Hb Hl E)) as (t1 & evs & acc & -> & Hpr).
    destruct (IH t1 (pr_ok _ _ _ _ _ _ _ Hpr) Hp) as (t2 & evs2 & E2 & H2 & H3). rewrite bind_Ok.
    change (list_fmap _ _ (reorder.mkReleased 0) ps) with (reorder.mkReleased 0 <$> ps). rewrite E2, bind_Ok.
    eexists _, _. split; [done|]. by rewrite H3, (pr_su _ _ _ _ _ _ _ Hpr).
  - exact (IH (bad t) (bad_ok t Ht) Hp).
  - destruct (rtp.ParsePacket_no_panic p Hb E).
Qed.

(** A run took [t] to [t'] with the callbacks [evs]: the media went through [payloads]. *)
Definition follows (cb : callbacks) (payloads : list (list Z)) (t t' : track) (evs : list event) : Prop :=
  folds cb payloads (media t) = Ok (media t', undated evs).

Lemma follows_refl cb t : follows cb [] t t [].
Proof. done. Qed.
Lemma follows_trans cb a b t t1 t2 e1 e2 : follows cb a t t1 e1 → follows cb b t1 t2 e2 → follows cb (a ++ b) t t2 (e1 ++ e2).
Proof. unfold follows. intros Ea Eb. by rewrite folds_app, Ea, bind_Ok, Eb, bind_Ok, undated_app. Qed.
Lemma follows_stamp cb o ps t t' evs : follows cb ps (stamp o t) t' evs ↔ follows cb ps t t' evs.
Proof. done. Qed.

Lemma drain_follows cb released now t : track_ok t → Forall datagram_ok (reorder.Payload <$> released) →
  ∃ t' evs, drainReleased cb released now t = Ok (t', evs) ∧ follows cb (reorder.Payload <$> released) t t' evs ∧ track_ok t' ∧ su t' = su t.
Proof.
  intros Ht Hp. destruct (folds_ok cb _ t Ht Hp) as (t1 & evs & E & Ht1 & Hs). rewrite <- folds_released in E.
  pose proof (drain_stamp cb released now rtcp.zero_time (stamps_of t) t) as E1. rewrite stamp_self, E in E1.
  eexists _, _. split; [exact E1|]. split; [|split; [by apply stamp_ok|done]]. unfold follows. rewrite <- folds_released.
  unfold media at 1. rewrite (drain_stamp cb released rtcp.zero_time rtcp.zero_time), E. cbn. by rewrite undated_arrive.
Qed.

Lemma frame_follows cb payload now t : track_ok t → discard (su t) = false → datagram_ok payload →
  ∃ t' evs acc, rtp_frame cb payload now t = Ok (t', evs, acc) ∧ follows cb [payload] t t' evs ∧ track_ok t' ∧ su t' = su t.
Proof.
  intros Ht Hd Hp. unfold rtp_frame. cbv zeta. set (t0 := with_cnt _ t). assert (H0 : track_ok t0) by (destruct Ht; by split).
  change (su t0) with (su t). rewrite Hd.
  destruct (drain_follows cb [reorder.mkReleased 0 payload] now t0 H0) as (t1 & evs & E & Hf & Ht1 & Hs); [by constructor|].
  cbn [drainReleased reorder.Payload] in E. destruct (rtp.ParsePacket payload) as [pkt|e|]; [| |done].
  - destruct (process cb pkt now t0) as [[[t2 e2] acc]|e|]; [|done|done]. cbn in E. injection E as <- <-.
    rewrite app_nil_r in Hf. by exists t2, e2, acc.
  - injection E as <- <-. by exists (bad t0), [], false.
Qed.

Lemma run_tcp_follows cb fs t : track_ok t → discard (su t) = false → Forall datagram_ok fs.*1 →
  ∃ t' evs, run_tcp cb fs t = Ok (t', evs) ∧ follows cb fs.*1 t t' evs.
Proof.
  revert t. induction fs as [|[p now] fs IH]; intros t Ht Hd Hp; [by exists t, []|].
  apply Forall_cons_iff in Hp as [Hp Hps]. cbn [run_tcp].
  destruct (frame_follows cb p now t Ht Hd Hp) as (t1 & e1 & acc & -> & F1 & Ht1 & Hs). rewrite bind_Ok.
  destruct (IH t1 Ht1) as (t2 & e2 & -> & F2); [by rewrite Hs|done|]. rewrite bind_Ok.
  eexists _, _. split; [done|]. exact (follows_trans cb [p] _ _ _ _ _ _ F1 F2).
Qed.

(** The datagrams of one source, as they are pushed. *)
Definition pushed (ds : list (option (list Z) * list Z * rtcp.Time)) (kps : list (Z * list Z)) (ssrc : Z) : Prop :=
  Forall2 (λ d kp, d.1.2 = kp.2 ∧ datagram_ok kp.2 ∧
    ∃ pkt, rtp.ParsePacket kp.2 = Ok pkt ∧ rtp.SSRC (rtp.Hdr pkt) = ssrc ∧ rtp.SequenceNumber (rtp.Hdr pkt) = kp.1) ds kps.

Lemma run_udp_follows cb peer ds kps ssrc rx t : pushed ds kps ssrc → Forall (λ d, fromPeer d.1.1 peer = true) ds →
  track_ok t → reorder.ring_ok datagram_ok (ring rx) → (haveSSRC rx = true → lastSSRC rx = ssrc) →
  let '(r, out) := reorder.push_all (ring rx) kps in
  ∃ rx' t' evs, run_udp cb peer ds rx t = Ok (rx', t', evs) ∧ ring rx' = r ∧ follows cb (reorder.Payload <$> out) t t' evs.
Proof.
  intros Hps. revert rx t. induction Hps as [|[[addr data] now] [k p] ds kps (Hd & Hp & pkt & Epk & Es & Eq) _ IH];
    intros rx t Hpeer Ht Hr Hss; [by exists rx, t, []|].
  cbn [fst snd] in *. subst p k. apply Forall_cons_iff in Hpeer as [Hpe Hpeer]. cbn [reorder.push_all run_udp] in *.
  unfold rtp_datagram. cbn [fst snd] in Hpe. rewrite Hpe, Epk. cbn [negb]. cbv zeta. unfold accept_datagram, on_source. rewrite Es.
  assert (Hnew : haveSSRC rx && negb (ssrc =? lastSSRC rx) = false).
  { destruct (haveSSRC rx); [|done]. rewrite Hss by done. by rewrite Z.eqb_refl. }
  rewrite Hnew, bind_ret. cbv zeta. set (t0 := with_cnt (add_wire _ _ _) t).
  pose proof (reorder.Push_balanced datagram_ok (ring rx) (rtp.SequenceNumber (rtp.Hdr pkt)) data Hr Hp) as Hpush.
  destruct (reorder.Push _ _ _) as [r1 o1]. destruct Hpush as (Hr1 & Ho1 & _).
  set (t1 := if _ <? _ then _ else t0).
  assert (Ht1 : track_ok t1 ∧ media t1 = media t) by (unfold t1; destruct (_ <? _); split; try done; destruct Ht; by split).
  destruct Ht1 as [Ht1 Hm1].
  destruct (drain_follows cb o1 now t1 Ht1) as (t2 & e2 & -> & F2 & Ht2 & _); [by apply Forall_fmap|]. rewrite bind_Ok, bind_ret.
  specialize (IH (mkReceiver r1 ssrc true) t2 Hpeer Ht2 Hr1 (λ _, eq_refl)). cbn [ring] in IH.
  destruct (reorder.push_all r1 kps) as [r2 o2]. destruct IH as (rx' & t3 & e3 & -> & Er & F3). rewrite bind_Ok.
  eexists _, _, _. split; [done|]. split; [done|]. rewrite fmap_app. apply (follows_trans cb _ _ t t2 t3); [|done].
  unfold follows in *. by rewrite Hm1 in F2.
Qed.

(** C18: the two transports deliver the same media. A source's RTP packets, consecutive in sequence
    number (across any wrap), reach the client over UDP in any order in which none overtakes
    another by 128 or more, after the first; whatever the track's codec and the arrival times,
    the UDP receive loop hands the callbacks exactly the frames, with the same presentation times
    and losses, that the interleaved frames of a TCP connection would, leaves the track in the
    same state but for the transport's own counters, and keeps no packet behind. *)
Theorem udp_delivers_as_tcp cb peer ssrc e0 p0 ps l ds fs t :
  track_ok t → discard (su t) = false → 0 ≤ e0 < 2 ^ 16 →
  (e0, p0) :: l ≡ₚ reorder.numbered e0 ps → reorder.no_overtake ((e0, p0) :: l) →
  Forall (λ kp, datagram_ok kp.2 ∧ ∃ pkt, rtp.ParsePacket kp.2 = Ok pkt ∧ rtp.SSRC (rtp.Hdr pkt) = ssrc ∧
    rtp.SequenceNumber (rtp.Hdr pkt) = kp.1 mod 2 ^ 16) (reorder.numbered e0 ps) →
  (λ d, d.1.2) <$> ds = ((e0, p0) :: l).*2 → Forall (λ d, fromPeer d.1.1 peer = true) ds → fs.*1 = ps →
  ∃ rx tu eu tt et, run_udp cb peer ds new_receiver t = Ok (rx, tu, eu) ∧ run_tcp cb fs t = Ok (tt, et) ∧
    undated eu = undated et ∧ media tu = media tt ∧ reorder.Stats (ring rx) = reorder.mkStats 0 0 0.
Proof.
  intros Ht Hd He Hperm Hno Hok Hds Hpeer Hfs.
  pose proof (reorder.lossless_run e0 p0 ps l He Hperm Hno) as Hrun.
  assert (Hpushed : pushed ds (reorder.wire_trace ((e0, p0) :: l)) ssrc).
  { rewrite <- Hperm in Hok. revert Hds Hok. generalize ((e0, p0) :: l). clear. intros l. revert ds.
    induction l as [|[k p] l IH]; intros [|[[addr data] now] ds] Hds Hok; try done; [constructor|].
    injection Hds as -> Hds. apply Forall_cons_iff in Hok as [[Hp Hpk] Hok]. constructor; [done|]. by apply IH. }
  pose proof (run_udp_follows cb peer ds _ ssrc new_receiver t Hpushed Hpeer Ht (reorder.zero_ring _) ltac:(done)) as Hu.
  cbn [ring new_receiver] in Hu. destruct (reorder.push_all reorder.zero _) as [r out]. destruct Hrun as [-> Hst].
  destruct Hu as (rx & tu & eu & Eu & <- & Fu).
  assert (Hpl : reorder.Payload <$> (reorder.wire <$> reorder.numbered e0 ps) = ps).
  { rewrite <- list_fmap_compose. generalize e0. clear. induction ps as [|p ps IH]; intros e; [done|]. cbn. f_equal. apply IH. }
  rewrite Hpl in Fu. destruct (run_tcp_follows cb fs t Ht Hd) as (tt & et & Et & Ft).
  { rewrite Hfs. assert (Hn : (reorder.numbered e0 ps).*2 = ps); [|rewrite <- Hn; apply Forall_fmap; eapply Forall_impl; [|exact Hok]; by intros ? []].
    generalize e0. clear. induction ps as [|p ps IH]; intros e; [done|]. cbn. f_equal. apply IH. }
  rewrite Hfs in Ft. exists rx, tu, eu, tt, et. unfold follows in *. rewrite Fu in Ft.
  split_and!; [done|done|congruence|congruence|done].
Qed.

(** Three packets across the wrap of the sequence number, the last two exchanged. *)
Definition sample_datagram (seq data : Z) : list Z :=
  [0x80; 111; seq / 256; seq mod 256; 0; 0; 3; data; 0; 0; 0; 9; data].
Definition sample_track : track :=
  mkTrack (mkSetup 3 deliverOpus 48000 0 false 1 [] 111 0) stream.zero no_codecs 0 (mkPT 0 false 0 0)
    (mkBaseline 0 false false 0 false) (mkCounters 0 0 0 0 0 0 0 0 0 0) (mkSnapshot 0 0 0 0 0 None).
Definition sample_peer : list Z := [192; 0; 2; 1].
Definition sample_arrivals : list (option (list Z) * list Z * rtcp.Time) :=
  (λ p, (Some (v4InV6Prefix ++ sample_peer), p, sample_now)) <$>
  [sample_datagram 65535 1; sample_datagram 1 3; sample_datagram 0 2].
Definition sample_stream : list (list Z) := [sample_datagram 65535 1; sample_datagram 0 2; sample_datagram 1 3].

Lemma sample_track_new : newTrack 3 sample_desc (mkOptions false 0) 1 = Ok sample_track.
Proof. done. Qed.
Lemma sample_stream_ok : Forall datagram_ok sample_stream.
Proof. repeat (constructor; [split; [repeat constructor; by vm_compute|by vm_compute]|]). constructor. Qed.

Lemma udp_delivers_as_tcp_witness : track_ok sample_track ∧ Forall (λ d, fromPeer d.1.1 sample_peer = true) sample_arrivals ∧
  ∃ rx tu eu tt et, run_udp (mkCallbacks true false) sample_peer sample_arrivals new_receiver sample_track = Ok (rx, tu, eu) ∧
    run_tcp (mkCallbacks true false) ((λ p, (p, rtcp.zero_time)) <$> sample_stream) sample_track = Ok (tt, et) ∧ undated eu = undated et.
Proof.
  assert (Ht : track_ok sample_track).
  { destruct (newTrack_ok 3 sample_desc (mkOptions false 0) 1 sample_desc_ok) as (t & E & Ht & _).
    rewrite sample_track_new in E. injection E as <-. exact Ht. }
  assert (Hpeer : Forall (λ d, fromPeer d.1.1 sample_peer = true) sample_arrivals) by (repeat constructor).
  split; [exact Ht|]. split; [exact Hpeer|].
  destruct (udp_delivers_as_tcp (mkCallbacks true false) sample_peer 9 65535 (sample_datagram 65535 1) sample_stream
    [(65537, sample_datagram 1 3); (65536, sample_datagram 0 2)] sample_arrivals ((λ p, (p, rtcp.zero_time)) <$> sample_stream) sample_track)
    as (rx & tu & eu & tt & et & Eu & Et & Hev & _).
  - exact Ht.
  - reflexivity.
  - lia.
  - cbn. constructor. apply perm_swap.
  - cbn. unfold reorder.MaxReorderWindow. repeat constructor; cbn; lia.
  - pose proof sample_stream_ok as Hs. unfold sample_stream in *. cbn [reorder.numbered].
    apply Forall_cons_iff in Hs as [H1 [H2 [H3 _]%Forall_cons_iff]%Forall_cons_iff].
    repeat (constructor; [split; [assumption|eexists; split_and!; reflexivity]|]). constructor.
  - reflexivity.
  - exact Hpeer.
  - reflexivity.
  - exists rx, tu, eu, tt, et. split; [exact Eu|]. split; [exact Et|exact Hev].
Defined.

(** ** Every datagram is accounted for *)
Lemma process_stamps cb pkt now t t' evs acc : process cb pkt now t = Ok (t', evs, acc) → stamps_of t' = stamps_of t.
Proof.
  intros E. pose proof (process_stamp cb pkt now now (stamps_of t) t) as H. rewrite stamp_self, E in H. by injection H as -> _.
Qed.

Lemma drain_counts cb released now t : track_ok t → Forall (λ q, parses (reorder.Payload q)) released →
  0 ≤ packets (cnt t) → 0 ≤ malformed (cnt t) → packets (cnt t) + blen released < 2 ^ 64 → malformed (cnt t) + blen released < 2 ^ 64 →
  ∃ t' evs k, drainReleased cb released now t = Ok (t', evs) ∧ track_ok t' ∧ 0 ≤ k ≤ blen released ∧
    packets (cnt t') = packets (cnt t) + (blen released - k) ∧
    malformed (cnt t) + k ≤ malformed (cnt t') ≤ malformed (cnt t) + blen released ∧ stamps_of t' = stamps_of t.
Proof.
  intros Ht Hp. revert t Ht. induction Hp as [|[q p] released [[Hb Hl] [pkt Epk]] _ IH]; intros t Ht Hp0 Hm0 Hpb Hmb.
  { exists t, [], 0. split_and!; try done; autorewrite with blen; lia. }
  autorewrite with blen in *. pose proof (blen_nonneg released). cbn [drainReleased reorder.Payload] in *. rewrite Epk.
  destruct (process_processed cb pkt now t Ht (ParsePacket_packet_ok p pkt Hb Hl Epk)) as (t1 & evs & acc & E & Hpr).
  rewrite E, bind_Ok. apply process_stamps in E.
  assert (Hc : (if acc then packets (cnt t1) = packets (cnt t) + 1 ∧ malformed (cnt t) ≤ malformed (cnt t1) ≤ malformed (cnt t) + 1
                else packets (cnt t1) = packets (cnt t) ∧ malformed (cnt t1) = malformed (cnt t) + 1)).
  { destruct acc.
    - destruct (pr_counts _ _ _ _ _ _ _ Hpr eq_refl) as [-> Hm]. rewrite !u64_small in * by (unfold is_u64; lia). lia.
    - destruct (pr_rejected _ _ _ _ _ _ _ Hpr eq_refl) as [_ ->]. cbn. rewrite u64_small by (unfold is_u64; lia). lia. }
  destruct (IH t1 (pr_ok _ _ _ _ _ _ _ Hpr)) as (t2 & e2 & k & -> & H2 & Hk & Hpk & Hm & Hs); [destruct acc; lia..|].
  rewrite bind_Ok. exists t2, (evs ++ e2), (if acc then k else k + 1). split_and!; try done; try congruence; destruct acc; lia.
Qed.

(** After [n] datagrams, [wire] octets of them from the peer. *)
Record udp_accounted (n wire : Z) (rx : receiver) (t : track) (refused : Z) : Prop := {
  ua_track : track_ok t;
  ua_ring : reorder.ring_ok parses (ring rx);
  ua_next : is_u16 (reorder.nextSeq (ring rx));
  ua_late : 0 ≤ reorder.late (ring rx) ≤ n;
  ua_packets : 0 ≤ packets (cnt t);
  ua_refused : 0 ≤ refused;
  ua_drops : 0 ≤ reorderDrops (cnt t);
  ua_filtered : 0 ≤ sourceFiltered (cnt t);
  ua_sum : packets (cnt t) + refused + reorderDrops (cnt t) + sourceFiltered (cnt t) + reorder.buffered (ring rx) = n;
  ua_malformed : refused ≤ malformed (cnt t) ≤ refused + packets (cnt t);
  ua_wire : wireBytes (cnt t) = wire
}.

Lemma buffered_nonneg P r : reorder.ring_ok P r → 0 ≤ reorder.buffered r.
Proof. intros []. rewrite rg_count. apply blen_nonneg. Qed.

Lemma on_source_accounted cb ssrc now n wire rx t refused : udp_accounted n wire rx t refused → n ≤ 2 ^ 40 →
  ∃ ring t' evs refused', on_source cb ssrc now rx t = Ok (ring, t', evs) ∧ udp_accounted n wire (mkReceiver ring 0 false) t' refused'.
Proof.
  intros [A1 A2 A3 A4 A5 A6 A7 A8 A9 A10 A11] Hn. pose proof (buffered_nonneg _ _ A2). unfold on_source.
  destruct (_ && _); [|exists (ring rx), t, [], refused; by split].
  pose proof (reorder.Flush_balanced parses (ring rx) A2 A3) as Hf. destruct (reorder.Flush (ring rx)) as [r out].
  destruct Hf as ((F1 & F2 & F3 & F4) & F5). rewrite F5 in F2. pose proof (blen_nonneg out).
  destruct (drain_counts cb out now t A1 F4) as (t1 & evs & k & -> & B1 & B2 & B3 & B4 & B5); [lia..|].
  rewrite bind_Ok. exists (reorder.Reset r), t1, evs, (refused + k). split; [done|].
  injection B5 as W1 W2 W3 W4. split; cbn; rewrite ?W1, ?W2, ?W3; try done; try lia; apply reorder.zero_ring.
Qed.

Lemma rtp_datagram_accounted cb peer addr data now n wire rx t refused :
  udp_accounted n wire rx t refused → datagram_ok data → n < 2 ^ 40 → 0 ≤ wire ≤ 2 ^ 60 →
  ∃ rx' t' evs refused', rtp_datagram cb peer addr data now rx t = Ok (rx', t', evs) ∧
    udp_accounted (n + 1) (wire + (if fromPeer addr peer then blen data else 0)) rx' t' refused'.
Proof.
  intros [A1 A2 A3 A4 A5 A6 A7 A8 A9 A10 A11] [Hb Hl] Hn Hw. pose proof (buffered_nonneg _ _ A2). unfold rtp_datagram.
  destruct (fromPeer addr peer); cbn [negb].
  2: { eexists _, _, _, refused. split; [done|]. split; cbn; rewrite ?u64_small by (unfold is_u64; lia); try done; try lia. destruct A1. by split. }
  cbv zeta. set (t0 := with_cnt _ t). pose proof (blen_nonneg data).
  assert (Ha : udp_accounted n (wire + blen data) rx t0 refused).
  { split; cbn; rewrite ?u64_small by (unfold is_u64; lia); try done; [destruct A1; by split|lia]. }
  destruct (rtp.ParsePacket data) as [pkt|e|] eqn:Epk; [| |destruct (rtp.ParsePacket_no_panic data Hb Epk)].
  2: { clear - Ha Hn. destruct Ha as [A1 A2 A3 A4 A5 A6 A7 A8 A9 A10 A11]. pose proof (buffered_nonneg _ _ A2).
       exists rx, (bad t0), [], (refused + 1). split; [done|]. clearbody t0.
       split; cbn; rewrite ?(u64_small (malformed _ + 1)) by (unfold is_u64; lia); try done; try lia. by apply bad_ok. }
  pose proof (rtp.ParsePacket_payload data pkt Hb Epk) as (_ & Hh & _). clearbody t0. unfold accept_datagram. cbv zeta.
  destruct (on_source_accounted cb (rtp.SSRC (rtp.Hdr pkt)) now n (wire + blen data) rx t0 refused Ha) as (r & t1 & evs & ref1 & -> & Ha1); [lia|].
  rewrite bind_Ok. clear - Ha1 Hn Hb Hl Epk Hh. destruct Ha1 as [A1 A2 A3 A4 A5 A6 A7 A8 A9 A10 A11]. cbn [ring] in *.
  pose proof (buffered_nonneg _ _ A2).
  pose proof (reorder.Push_balanced parses r (rtp.SequenceNumber (rtp.Hdr pkt)) data A2) as Hpush.
  pose proof (reorder.Push_next r (rtp.SequenceNumber (rtp.Hdr pkt)) data A3 (rtp.hok_seq _ Hh)) as Hnext.
  destruct (reorder.Push _ _ _) as [r1 out]. destruct Hpush as (B1 & B2 & B3); [split; [done|by exists pkt]|].
  pose proof (buffered_nonneg _ _ B1). pose proof (blen_nonneg out). cbn [fst] in Hnext.
  set (t2 := if _ <? _ then _ else t1).
  assert (H2 : track_ok t2 ∧ packets (cnt t2) = packets (cnt t1) ∧ malformed (cnt t2) = malformed (cnt t1) ∧
    sourceFiltered (cnt t2) = sourceFiltered (cnt t1) ∧ wireBytes (cnt t2) = wireBytes (cnt t1) ∧
    reorderDrops (cnt t2) + reorder.buffered r1 + blen out = reorderDrops (cnt t1) + reorder.buffered r + 1 ∧
    0 ≤ reorder.late r1 ≤ n + 1 ∧ 0 ≤ reorderDrops (cnt t2)).
  { unfold t2, reorder.Stats. cbn [reorder.Late]. destruct B3 as [[E1 E2]|[E1 E2]]; rewrite E1.
    - rewrite (proj2 (Z.ltb_ge _ _)) by lia. split_and!; try done; lia.
    - rewrite (u64_small (reorder.late r + 1)) by (unfold is_u64; lia). rewrite (proj2 (Z.ltb_lt _ _)) by lia.
      cbn. rewrite !u64_small by (rewrite ?u64_small; unfold is_u64; lia). split_and!; try done; try lia. destruct A1; by split. }
  clearbody t2. destruct H2 as (C1 & C2 & C3 & C4 & C5 & C6 & C7 & C8).
  destruct (drain_counts cb out now t2 C1 B2) as (t3 & e3 & k & -> & D1 & D2 & D3 & D4 & D5); [lia..|]. rewrite bind_Ok.
  exists (mkReceiver r1 (rtp.SSRC (rtp.Hdr pkt)) true), t3, (evs ++ e3), (ref1 + k). split; [done|].
  injection D5 as W1 W2 W3 W4. split; cbn [ring]; rewrite ?W1, ?W2, ?W3; try done; lia.
Qed.

(** The octets of the datagrams that come from the peer. *)
Definition octets_from (peer : list Z) (ds : list (option (list Z) * list Z * rtcp.Time)) : Z :=
  foldr (λ d n, (if fromPeer d.1.1 peer then blen d.1.2 else 0) + n) 0 ds.

Lemma run_udp_accounted cb peer ds n wire rx t refused :
  udp_accounted n wire rx t refused → Forall (λ d, datagram_ok d.1.2) ds → 0 ≤ n → n + blen ds ≤ 2 ^ 40 → 0 ≤ wire ≤ 2 ^ 16 * n →
  ∃ rx' t' evs refused', run_udp cb peer ds rx t = Ok (rx', t', evs) ∧
    udp_accounted (n + blen ds) (wire + octets_from peer ds) rx' t' refused'.
Proof.
  intros Ha Hds. revert n wire rx t refused Ha. induction Hds as [|[[addr data] now] ds Hd _ IH]; intros n wire rx t refused Ha Hn Hle Hw.
  { exists rx, t, [], refused. split; [done|]. cbn. by rewrite !Z.add_0_r. }
  rewrite blen_cons in *. pose proof (blen_nonneg ds). cbn [run_udp fst snd] in *.
  destruct (rtp_datagram_accounted cb peer addr data now n wire rx t refused Ha Hd) as (rx1 & t1 & e1 & ref1 & -> & H1); [lia|lia|].
  rewrite bind_Ok. destruct Hd as [Hb Hl]. pose proof (blen_nonneg data).
  destruct (IH (n + 1) _ rx1 t1 ref1 H1) as (rx2 & t2 & e2 & ref2 & -> & H2); [lia|lia|destruct (fromPeer _ _); lia|].
  rewrite bind_Ok. eexists _, _, _, ref2. split; [done|]. cbn [octets_from foldr fst snd]. by rewrite !Z.add_assoc in *.
Qed.

(** C19: no datagram is lost track of. Whatever datagrams reach the RTP socket of a new track, up to
    [2^40] of them, from any sender, of any octets, of any sources and in any order, the receive
    loop never panics and every one is in exactly one account: delivered to the pipeline
    ([packets]), refused (not RTP, or of a foreign payload type, which [malformed] counts, along
    with packets whose payload the codec rejects), dropped as late or duplicate by the
    resequencer ([reorderDrops]), foreign ([sourceFiltered]), or still held in the ring; the wire
    octets are those of the peer's datagrams, and the track stays well formed. *)
Theorem udp_accounts_for_all id desc opts ch cb peer ds :
  described_ok desc → Forall (λ d, datagram_ok d.1.2) ds → blen ds ≤ 2 ^ 40 →
  ∃ t rx t' evs refused, newTrack id desc opts ch = Ok t ∧ run_udp cb peer ds new_receiver t = Ok (rx, t', evs) ∧ track_ok t' ∧
    packets (cnt t') + refused + reorderDrops (cnt t') + sourceFiltered (cnt t') + reorder.Buffered (reorder.Stats (ring rx)) = blen ds ∧
    0 ≤ refused ≤ malformed (cnt t') ∧ malformed (cnt t') ≤ refused + packets (cnt t') ∧
    wireBytes (cnt t') = octets_from peer ds.
Proof.
  intros Hd Hds Hl. destruct (newTrack_ok id desc opts ch Hd) as (t & E & Ht & _ & _ & _ & Hc & _).
  assert (Ha : udp_accounted 0 0 new_receiver t 0).
  { by split; rewrite ?Hc. }
  destruct (run_udp_accounted cb peer ds 0 0 new_receiver t 0 Ha Hds) as (rx & t' & evs & refused & Er & [B1 B2 B3 B4 B5 B6 B7 B8 B9 B10 B11]);
    [lia|lia|lia|].
  exists t, rx, t', evs, refused. cbn. split_and!; try done; lia.
Qed.
(** A wrong sender, a short datagram, a repeated packet and a packet that overtakes a lost one. *)
Definition sample_noise : list (option (list Z) * list Z * rtcp.Time) :=
  (λ p, (p.1, p.2, sample_now)) <$>
  [(Some sample_peer, sample_datagram 7 1); (None, sample_datagram 8 2); (Some [192; 0; 2; 9], sample_datagram 8 2);
   (Some sample_peer, [0x80; 111]); (Some sample_peer, sample_datagram 7 1); (Some sample_peer, sample_datagram 9 3)].

Lemma udp_accounts_for_all_witness : described_ok sample_desc ∧ Forall (λ d, datagram_ok d.1.2) sample_noise ∧ blen sample_noise ≤ 2 ^ 40 ∧
  ∃ t rx t' evs, newTrack 3 sample_desc (mkOptions false 0) 1 = Ok t ∧
    run_udp (mkCallbacks true false) sample_peer sample_noise new_receiver t = Ok (rx, t', evs) ∧ track_ok t'.
Proof.
  assert (Hds : Forall (λ d, datagram_ok d.1.2) sample_noise).
  { repeat (constructor; [split; [repeat constructor; by vm_compute|by vm_compute]|]). constructor. }
  split; [exact sample_desc_ok|]. split; [exact Hds|]. split; [by vm_compute|].
  destruct (udp_accounts_for_all 3 sample_desc (mkOptions false 0) 1 (mkCallbacks true false) sample_peer sample_noise
    sample_desc_ok Hds ltac:(by vm_compute)) as (t & rx & t' & evs & refused & E & Er & Ht & _).
  exists t, rx, t', evs. split; [exact E|]. split; [exact Er|exact Ht].
Defined.

Example sample_noise_counts :
  ('(rx, t, evs) ← run_udp (mkCallbacks true false) sample_peer sample_noise new_receiver sample_track;
   mret (packets (cnt t), malformed (cnt t), reorderDrops (cnt t), sourceFiltered (cnt t), reorder.buffered (ring rx), blen evs))
  = Ok (1, 1, 1, 2, 1, 1).
Proof. vm_compute. reflexivity. Qed.
End transport.
