(* ===== verification/Message.v ===== *)
(** * RTSP messages and interleaved frames: [rtsp/message.go]

    The parsers and serializers of the text protocol, and the framing of binary data on the same
    connection.  A header is a finite map from canonical names to their values in arrival order. *)
From Stdlib Require Import Ascii String.
From S2P Require Import Prelude Bytes Text.
From stdpp Require Import gmap sorting.
Local Open Scope Z_scope.

Module message.

Definition MaxHeaderBytes : Z := 64 * 1024.
Definition MaxHeaderLines : Z := 255.
Definition MaxHeaderNameLen : Z := 512.
Definition MaxHeaderValueLen : Z := 2048.
Definition MaxMethodLen : Z := 64.
Definition MaxVersionLen : Z := 64.
Definition MaxRequestURILen : Z := 2048.
Definition MaxReasonLen : Z := 512.
Definition MaxBodySize : Z := 128 * 1024.
Definition MaxInterleavedFrame : Z := 65535.
Definition interleavedHeaderLen : Z := 4.

Inductive err :=
  | ErrIncomplete | ErrHeadersTooLarge | ErrTooManyHeaders | ErrHeaderNameTooLong | ErrHeaderValueTooLong
  | ErrBodyTooLarge | ErrMalformedStatusLine | ErrMalformedRequestLine | ErrMalformedHeader | ErrBadContentLength
  | ErrNotInterleaved | ErrInterleavedTooLarge | ErrInvalidRequest | ErrInvalidResponse.
#[export] Instance err_dec : EqDecision err.
Proof. solve_decision. Defined.

(** ** Header fields *)
Definition canonicalHeaderOverrides : list (list Z * list Z) :=
  [(str "cseq", str "CSeq"); (str "content-length", str "Content-Length"); (str "content-type", str "Content-Type");
   (str "content-base", str "Content-Base"); (str "content-location", str "Content-Location");
   (str "www-authenticate", str "WWW-Authenticate"); (str "authorization", str "Authorization");
   (str "session", str "Session"); (str "transport", str "Transport"); (str "public", str "Public");
   (str "rtp-info", str "RTP-Info"); (str "location", str "Location"); (str "range", str "Range");
   (str "user-agent", str "User-Agent"); (str "server", str "Server"); (str "date", str "Date")].

Definition capitalize (tok : list Z) : list Z := match tok with [] => [] | c :: tok => upper c :: tok end.

Definition canonicalHeaderName (name : list Z) : list Z :=
  let l := lower <$> name in
  match List.find (λ kv, bool_decide (kv.1 = l)) canonicalHeaderOverrides with
  | Some kv => kv.2
  | None => JoinStrings 45 (capitalize <$> Split 45 l)
  end.

Definition nCSeq : list Z := str "CSeq".
Definition nContentLength : list Z := str "Content-Length".

Abbreviation Header := (gmap (list Z) (list (list Z))).

Definition Values (h : Header) (name : list Z) : list (list Z) := default [] (h !! canonicalHeaderName name).
Definition Get (h : Header) (name : list Z) : list Z := match Values h name with v :: _ => v | [] => [] end.
Definition Set_ (h : Header) (name v : list Z) : Header := <[canonicalHeaderName name := [v]]> h.
Definition Add (h : Header) (name v : list Z) : Header :=
  let c := canonicalHeaderName name in <[c := default [] (h !! c) ++ [v]]> h.
Definition Del (h : Header) (name : list Z) : Header := delete (canonicalHeaderName name) h.

Record Request := mkRequest {
  rq_Method : list Z; rq_URL : list Z; rq_CSeq : Z; rq_Header : Header; rq_Body : list Z
}.
Record Response := mkResponse {
  rs_StatusCode : Z; rs_Reason : list Z; rs_CSeq : Z; rs_Header : Header; rs_Body : list Z
}.

(** ** Serializing *)
Definition hasCRLF (s : list Z) : bool := existsb (λ c, (c =? 13) || (c =? 10)) s.
Definition hasForbiddenURIByte (s : list Z) : bool := existsb (λ c, (c <=? 0x20) || (c =? 0x7f)) s.
Definition headerHasCRLF (h : Header) : bool :=
  existsb (λ kv, hasCRLF kv.1 || existsb hasCRLF kv.2) (map_to_list h).

Definition CRLF : list Z := [13; 10].
Definition field_line (name v : list Z) : list Z := name ++ str ": " ++ v ++ CRLF.

Definition writeControlHeaders (cseq bodyLen : Z) : list Z :=
  field_line nCSeq (Itoa cseq) ++ (if 0 <? bodyLen then field_line nContentLength (Itoa bodyLen) else []).

(** The order of Go strings. *)
Fixpoint str_le (a b : list Z) : bool :=
  match a, b with
  | [], _ => true
  | _ :: _, [] => false
  | x :: a, y :: b => if x <? y then true else if y <? x then false else str_le a b
  end.
Definition by_name (a b : list Z) : Prop := str_le (canonicalHeaderName a) (canonicalHeaderName b) = true.
#[export] Instance by_name_dec : RelDecision by_name.
Proof. intros a b. unfold by_name. apply _. Defined.

Definition computed (k : list Z) : Prop := canonicalHeaderName k = nCSeq ∨ canonicalHeaderName k = nContentLength.

Definition writeSortedHeaders (h : Header) : list Z :=
  let keys := merge_sort by_name (filter (λ k, ¬ computed k) (map_to_list h).*1) in
  concat ((λ k, concat (field_line (canonicalHeaderName k) <$> default [] (h !! k))) <$> keys).

Definition MarshalRequest (req : option Request) : res err (list Z) :=
  match req with
  | None => Err ErrInvalidRequest
  | Some req =>
      if bool_decide (rq_Method req = []) || bool_decide (rq_URL req = []) then Err ErrInvalidRequest
      else if (MaxMethodLen <? blen (rq_Method req)) || (MaxRequestURILen <? blen (rq_URL req)) then Err ErrInvalidRequest
      else if MaxBodySize <? blen (rq_Body req) then Err ErrInvalidRequest
      else if hasCRLF (rq_Method req) || hasForbiddenURIByte (rq_URL req) || headerHasCRLF (rq_Header req)
      then Err ErrInvalidRequest
      else mret (rq_Method req ++ [32] ++ rq_URL req ++ str " RTSP/1.0" ++ CRLF ++
        writeControlHeaders (rq_CSeq req) (blen (rq_Body req)) ++ writeSortedHeaders (rq_Header req) ++ CRLF ++ rq_Body req)
  end.

Definition MarshalResponse (resp : option Response) : res err (list Z) :=
  match resp with
  | None => Err ErrInvalidResponse
  | Some resp =>
      if (rs_StatusCode resp <? 100) || (999 <? rs_StatusCode resp) then Err ErrInvalidResponse
      else if (MaxReasonLen <? blen (rs_Reason resp)) || (MaxBodySize <? blen (rs_Body resp)) then Err ErrInvalidResponse
      else if hasCRLF (rs_Reason resp) || headerHasCRLF (rs_Header resp) then Err ErrInvalidResponse
      else mret (str "RTSP/1.0 " ++ Itoa (rs_StatusCode resp) ++ [32] ++ rs_Reason resp ++ CRLF ++
        writeControlHeaders (rs_CSeq resp) (blen (rs_Body resp)) ++ writeSortedHeaders (rs_Header resp) ++ CRLF ++ rs_Body resp)
  end.

(** ** Parsing *)

(** The blank line that ends at octet [i], a line feed: where the head ends. *)
Definition blank_at (buf : list Z) (i : Z) : res err (option Z) :=
  bare ← (if 1 <=? i then p ← byte_at buf (i - 1); mret (p =? 10) else mret false);
  if (bare : bool) then mret (Some (i - 1))
  else if 3 <=? i then
    p ← byte_at buf (i - 1);
    if negb (p =? 13) then mret None
    else
      q ← byte_at buf (i - 2);
      if negb (q =? 10) then mret None
      else r ← byte_at buf (i - 3); mret (if r =? 13 then Some (i - 3) else None)
  else mret None.

(** [for i := range limit], from octet [i]. *)
Fixpoint find_loop (n : nat) (buf : list Z) (i : Z) : res err (option (Z * Z)) :=
  match n with
  | O => mret None
  | S n =>
      b ← byte_at buf i;
      if negb (b =? 10) then find_loop n buf (i + 1)
      else
        e ← blank_at buf i;
        match e with
        | Some headEnd => mret (Some (headEnd, i + 1))
        | None => find_loop n buf (i + 1)
        end
  end.

Definition findHead (buf : list Z) : res err (Z * Z) :=
  let limit := Z.min (blen buf) MaxHeaderBytes in
  r ← find_loop (Z.to_nat limit) buf 0;
  match r with
  | Some p => mret p
  | None => if MaxHeaderBytes <=? blen buf then Err ErrHeadersTooLarge else Err ErrIncomplete
  end.

Definition splitHeadLines (head : list Z) : list (list Z) := (λ l, TrimSuffix l [13]) <$> Split 10 head.

Definition parseStatusLine (line : list Z) : res err (Z * list Z) :=
  match SplitN 3 32 line with
  | version :: code :: rest =>
      if negb (HasPrefix version (str "RTSP/")) || (MaxVersionLen <? blen version) then Err ErrMalformedStatusLine
      else if negb (blen code =? 3) then Err ErrMalformedStatusLine
      else match Atoi code with
           | None => Err ErrMalformedStatusLine
           | Some n =>
               if (n <? 100) || (999 <? n) then Err ErrMalformedStatusLine
               else
                 let reason := match rest with r :: _ => r | [] => [] end in
                 if MaxReasonLen <? blen reason then Err ErrMalformedStatusLine else mret (n, reason)
           end
  | _ => Err ErrMalformedStatusLine
  end.

Definition parseRequestLine (line : list Z) : res err (list Z * list Z) :=
  match SplitN 3 32 line with
  | [method; url; version] =>
      if bool_decide (method = []) || (MaxMethodLen <? blen method) then Err ErrMalformedRequestLine
      else if bool_decide (url = []) || (MaxRequestURILen <? blen url) then Err ErrMalformedRequestLine
      else if negb (HasPrefix version (str "RTSP/")) || (MaxVersionLen <? blen version) then Err ErrMalformedRequestLine
      else mret (method, url)
  | _ => Err ErrMalformedRequestLine
  end.

Definition isTokenChar (b : Z) : bool :=
  existsb (Z.eqb b) (str "!#$%&'*+-.^_`|~") ||
  ((48 <=? b) && (b <=? 57)) || ((65 <=? b) && (b <=? 90)) || ((97 <=? b) && (b <=? 122)).

Definition isValidHeaderName (name : list Z) : bool :=
  negb (bool_decide (name = [])) && forallb isTokenChar name.

Fixpoint parseHeaderLines (lines : list (list Z)) (h : Header) : res err Header :=
  match lines with
  | [] => mret h
  | line :: lines =>
      match line with
      | [] => Err ErrMalformedHeader
      | c :: _ =>
          if (c =? 32) || (c =? 9) then Err ErrMalformedHeader
          else match Cut 58 line with
               | None => Err ErrMalformedHeader
               | Some (name, after) =>
                   if negb (isValidHeaderName name) then Err ErrMalformedHeader
                   else
                     let value := TrimPrefix after [32] in
                     if MaxHeaderNameLen <? blen name then Err ErrHeaderNameTooLong
                     else if MaxHeaderValueLen <? blen value then Err ErrHeaderValueTooLong
                     else parseHeaderLines lines (Add h name value)
               end
      end
  end.

Definition parseHead (buf : list Z) : res err (list Z * Header * Z) :=
  '(headEnd, bodyStart) ← findHead buf;
  head ← slice buf 0 headEnd;
  match splitHeadLines head with
  | [] => Panic
  | (first :: rest) as lines =>
      if MaxHeaderLines <? blen lines - 1 then Err ErrTooManyHeaders
      else h ← parseHeaderLines rest ∅; mret (first, h, bodyStart)
  end.

Definition parseCSeq (h : Header) : Z := default 0 (Atoi (TrimSpace (Get h nCSeq))).

Definition extractBody (buf : list Z) (h : Header) (bodyStart : Z) : res err (list Z * Z) :=
  match Values h nContentLength with
  | [] => mret ([], bodyStart)
  | clStr :: others =>
      if existsb (λ o, negb (bool_decide (TrimSpace o = TrimSpace clStr))) others then Err ErrBadContentLength
      else match Atoi (TrimSpace clStr) with
           | None => Err ErrBadContentLength
           | Some cl =>
               if cl <? 0 then Err ErrBadContentLength
               else if MaxBodySize <? cl then Err ErrBodyTooLarge
               else
                 let end_ := bodyStart + cl in
                 if blen buf <? end_ then Err ErrIncomplete
                 else if cl =? 0 then mret ([], bodyStart)
                 else body ← slice buf bodyStart end_; mret (body, end_)
           end
  end.

Definition ParseResponse (buf : list Z) : res err (Response * Z) :=
  '(firstLine, header, bodyStart) ← parseHead buf;
  '(code, reason) ← parseStatusLine firstLine;
  '(body, n) ← extractBody buf header bodyStart;
  mret (mkResponse code reason (parseCSeq header) header body, n).

Definition ParseRequest (buf : list Z) : res err (Request * Z) :=
  '(firstLine, header, bodyStart) ← parseHead buf;
  '(method, url) ← parseRequestLine firstLine;
  '(body, n) ← extractBody buf header bodyStart;
  mret (mkRequest method url (parseCSeq header) header body, n).

(** ** The stream *)
Inductive FrameKind := FrameNeedMore | FrameInterleaved | FrameResponse | FrameRequest | FrameUnknown.

Definition method_prefixes : list (list Z) :=
  [str "OP"; str "GE"; str "TE"; str "AN"; str "SE"; str "RE"; str "PL"; str "PA"; str "DE"].

Definition ClassifyStream (buf : list Z) : FrameKind :=
  match buf with
  | [] => FrameNeedMore
  | c :: rest =>
      if c =? 36 then FrameInterleaved
      else match rest with
           | [] => FrameNeedMore
           | d :: _ =>
               if bool_decide ([c; d] = str "RT") then FrameResponse
               else if bool_decide ([c; d] ∈ method_prefixes) then FrameRequest
               else FrameUnknown
           end
  end.

Record InterleavedFrame := mkInterleaved { Channel : Z; Payload : list Z }.

Definition ParseInterleaved (buf : list Z) : res err (InterleavedFrame * Z) :=
  match buf with
  | [] => Err ErrNotInterleaved
  | c :: _ =>
      if negb (c =? 36) then Err ErrNotInterleaved
      else if blen buf <? interleavedHeaderLen then Err ErrIncomplete
      else
        channel ← byte_at buf 1;
        length ← be_at 2 buf 2;
        let end_ := interleavedHeaderLen + length in
        if blen buf <? end_ then Err ErrIncomplete
        else payload ← slice buf interleavedHeaderLen end_; mret (mkInterleaved channel payload, end_)
  end.

Definition MarshalInterleaved (channel : Z) (payload : list Z) : res err (list Z) :=
  if (channel <? 0) || (255 <? channel) || (MaxInterleavedFrame <? blen payload) then Err ErrInterleavedTooLarge
  else mret ([36; u8 channel] ++ be16 (u16 (blen payload)) ++ payload).

Definition sample_request : Request :=
  mkRequest (str "SETUP") (str "rtsp://h/a") 3 (Set_ (Set_ ∅ (str "transport") (str "RTP/AVP/TCP")) (str "x-id") (str " 7")) [1; 13; 10; 13; 10].
Example sample_request_parses :
  (b ← MarshalRequest (Some sample_request); '(r, n) ← ParseRequest (b ++ [36; 0]); mret (rq_Method r, rq_CSeq r, Get (rq_Header r) (str "X-ID"), rq_Body r, blen b - n))
  = Ok (str "SETUP", 3, str " 7", [1; 13; 10; 13; 10], 0).
Proof. vm_compute. reflexivity. Qed.

(** ** The end of the head *)

(** [blank_at] on an index known to be inside. *)
Definition blank (buf : list Z) (i : Z) : option Z :=
  let at_ k := buf !! Z.to_nat (i - k) in
  if negb (bool_decide (at_ 0 = Some 10)) then None
  else if (1 <=? i) && bool_decide (at_ 1 = Some 10) then Some (i - 1)
  else if (3 <=? i) && bool_decide (at_ 1 = Some 13) && bool_decide (at_ 2 = Some 10) && bool_decide (at_ 3 = Some 13)
  then Some (i - 3) else None.

Fixpoint search (n : nat) (buf : list Z) (i : Z) : option (Z * Z) :=
  match n with
  | O => None
  | S n => match blank buf i with Some e => Some (e, i + 1) | None => search n buf (i + 1) end
  end.

Lemma bool_decide_Some (a b : Z) : bool_decide (Some a = Some b) = (a =? b).
Proof. destruct (Z.eqb_spec a b) as [->|H]; [by apply bool_decide_eq_true|apply bool_decide_eq_false; congruence]. Qed.

Lemma find_loop_search n buf i : 0 ≤ i → i + Z.of_nat n ≤ blen buf → find_loop n buf i = Ok (search n buf i).
Proof.
  revert i. induction n as [|n IH]; intros i Hi Hn; [done|]. cbn [find_loop search].
  destruct (byte_at_inside (E:=err) buf i) as (b & B0 & L0); [lia|]. rewrite B0, bind_Ok. unfold blank. rewrite Z.sub_0_r, L0, bool_decide_Some.
  destruct (b =? 10); cbn [negb]; [|apply IH; lia].
  assert (Hb : blank_at buf i = Ok (if (1 <=? i) && bool_decide (buf !! Z.to_nat (i - 1) = Some 10) then Some (i - 1)
    else if (3 <=? i) && bool_decide (buf !! Z.to_nat (i - 1) = Some 13) && bool_decide (buf !! Z.to_nat (i - 2) = Some 10)
      && bool_decide (buf !! Z.to_nat (i - 3) = Some 13) then Some (i - 3) else None)).
  { unfold blank_at. destruct (Z.leb_spec 1 i); cbn [andb].
    - destruct (byte_at_inside (E:=err) buf (i - 1)) as (p & B1 & L1); [lia|]. rewrite B1, L1. cbn [mbind res_bind mret res_ret]. rewrite !bool_decide_Some.
      destruct (p =? 10); [done|]. destruct (Z.leb_spec 3 i); cbn [andb]; [|done].
      destruct (p =? 13); cbn [negb andb]; [|done].
      destruct (byte_at_inside (E:=err) buf (i - 2)) as (q & B2 & L2); [lia|]. rewrite B2, L2. cbn [mbind res_bind]. rewrite bool_decide_Some.
      destruct (q =? 10); cbn [negb andb]; [|done].
      destruct (byte_at_inside (E:=err) buf (i - 3)) as (r & B3 & L3); [lia|]. rewrite B3, L3. cbn [mbind res_bind]. rewrite bool_decide_Some. by destruct (r =? 13).
    - cbn [mbind res_bind mret res_ret]. rewrite (proj2 (Z.leb_gt 3 i)) by lia. done. }
  rewrite Hb, bind_Ok. destruct (if (1 <=? i) && _ then _ else _); [done|]. apply IH; lia.
Qed.

Lemma blank_app buf more i : 0 ≤ i < blen buf → blank (buf ++ more) i = blank buf i.
Proof.
  intros Hi. unfold blank. assert (H : ∀ k, 0 ≤ k → (buf ++ more) !! Z.to_nat (i - k) = buf !! Z.to_nat (i - k)).
  { intros k Hk. apply lookup_app_l. unfold blen in Hi. lia. }
  by rewrite !H by lia.
Qed.

Lemma search_app n buf more i : 0 ≤ i → i + Z.of_nat n ≤ blen buf → search n (buf ++ more) i = search n buf i.
Proof.
  revert i. induction n as [|n IH]; intros i Hi Hn; [done|]. cbn [search]. rewrite blank_app by lia.
  destruct (blank buf i); [done|]. apply IH; lia.
Qed.

Lemma search_more n m buf i :
  search (n + m) buf i = match search n buf i with Some r => Some r | None => search m buf (i + Z.of_nat n) end.
Proof.
  revert i. induction n as [|n IH]; intros i; [by rewrite Z.add_0_r|]. cbn [Nat.add search].
  destruct (blank buf i); [done|]. rewrite IH. destruct (search n buf (i + 1)); [done|]. f_equal. lia.
Qed.

Lemma search_range n buf i e s : 0 ≤ i → search n buf i = Some (e, s) → 0 ≤ e < s ∧ i < s ≤ i + Z.of_nat n.
Proof.
  revert i. induction n as [|n IH]; intros i Hi; [done|]. cbn [search]. destruct (blank buf i) as [e'|] eqn:E.
  - intros [= -> <-]. unfold blank in E. destruct (negb _); [done|]. destruct ((1 <=? i) && _) eqn:E1; [breflect; injection E; lia|].
    destruct ((3 <=? i) && _ && _ && _) eqn:E3; [|done]. breflect. injection E. lia.
  - intros H. apply IH in H; lia.
Qed.

Definition limit (buf : list Z) : nat := Z.to_nat (Z.min (blen buf) MaxHeaderBytes).

Lemma findHead_eq buf : findHead buf =
  match search (limit buf) buf 0 with
  | Some p => Ok p
  | None => if MaxHeaderBytes <=? blen buf then Err ErrHeadersTooLarge else Err ErrIncomplete
  end.
Proof.
  unfold findHead, limit. pose proof (blen_nonneg buf). rewrite find_loop_search, bind_Ok; [by destruct (search _ _ _)|lia|].
  rewrite Z2Nat.id; [lia|]. unfold MaxHeaderBytes. lia.
Qed.

(** Finding the end of the head is settled by the octets seen: more of them change nothing. *)
Lemma findHead_settled buf more :
  match findHead buf with
  | Panic => False
  | Err ErrIncomplete => blen buf < MaxHeaderBytes
  | Err e => findHead (buf ++ more) = Err e
  | Ok (e, s) => findHead (buf ++ more) = Ok (e, s) ∧ 0 ≤ e < s ∧ s ≤ blen buf ∧ s ≤ MaxHeaderBytes
  end.
Proof.
  rewrite !findHead_eq. pose proof (blen_nonneg buf) as H0. pose proof (blen_nonneg more).
  assert (Hl : Z.of_nat (limit buf) = Z.min (blen buf) MaxHeaderBytes) by (unfold limit, MaxHeaderBytes; lia).
  assert (Hm : limit (buf ++ more) = (limit buf + (limit (buf ++ more) - limit buf))%nat).
  { unfold limit. rewrite blen_app. unfold MaxHeaderBytes. lia. }
  rewrite Hm, search_more, search_app by lia. destruct (search (limit buf) buf 0) as [[e s]|] eqn:E.
  - apply search_range in E; [|lia]. split_and!; try done; lia.
  - destruct (Z.leb_spec MaxHeaderBytes (blen buf)); [|done].
    replace (limit (buf ++ more) - limit buf)%nat with 0%nat; cbn [search].
    + rewrite (proj2 (Z.leb_le _ (blen (buf ++ more)))) by (rewrite blen_app; lia). done.
    + unfold limit. rewrite blen_app. unfold MaxHeaderBytes in *. lia.
Qed.

(** ** Parsers of a stream

    What the reader relies on, once it has an octet: a parser never panics, takes at least one octet when it takes any,
    gives the same answer whatever follows once it has one, and asks for more only while the unit
    could still be one of at most [maxUnit] octets. *)
Definition maxUnit : Z := MaxHeaderBytes + MaxBodySize.

Definition answer {A} (P : list Z → res err (A * Z)) (buf more : list Z) : Prop :=
  match P buf with
  | Panic => False
  | Err ErrIncomplete => blen buf < maxUnit
  | Err e => P (buf ++ more) = Err e
  | Ok (a, n) => P (buf ++ more) = Ok (a, n) ∧ 0 < n ≤ blen buf
  end.

Class WireParser {A} (P : list Z → res err (A * Z)) := { wire_answer : ∀ buf more, buf ≠ [] → bytes_ok buf → answer P buf more }.

(** A failure that more octets do not mend. *)
Definition final {A} (m : res err A) : Prop :=
  match m with Panic => False | Err ErrIncomplete => False | _ => True end.

Lemma parseHeaderLines_final lines h : final (parseHeaderLines lines h).
Proof.
  revert h. induction lines as [|line lines IH]; intros h; [done|]. cbn [parseHeaderLines]. destruct line as [|c line]; [done|].
  destruct (_ || _); [done|]. destruct (Cut 58 _) as [[name after]|]; [|done]. destruct (negb _); [done|]. cbv zeta.
  destruct (_ <? _); [done|]. destruct (_ <? _); [done|]. apply IH.
Qed.

Lemma parseStatusLine_final line : final (parseStatusLine line).
Proof.
  unfold parseStatusLine. destruct (SplitN 3 32 line) as [|v [|c r]]; try done. destruct (_ || _); [done|].
  destruct (negb _); [done|]. destruct (Atoi c); [|done]. destruct (_ || _); [done|]. cbv zeta. by destruct (_ <? _).
Qed.

Lemma parseRequestLine_final line : final (parseRequestLine line).
Proof.
  unfold parseRequestLine. destruct (SplitN 3 32 line) as [|m [|u [|v [|]]]]; try done.
  destruct (_ || _); [done|]. destruct (_ || _); [done|]. by destruct (_ || _).
Qed.

Lemma Split_nonempty c s : Split c s ≠ [].
Proof. destruct s as [|x s]; [done|]. cbn. destruct (x =? c); [done|]. by destruct (Split c s). Qed.

(** The head, once its end is found. *)
Lemma parseHead_settled buf more :
  match parseHead buf with
  | Panic => False
  | Err ErrIncomplete => blen buf < MaxHeaderBytes
  | Err e => parseHead (buf ++ more) = Err e
  | Ok (l, h, s) => parseHead (buf ++ more) = Ok (l, h, s) ∧ 0 < s ≤ blen buf ∧ s ≤ MaxHeaderBytes
  end.
Proof.
  unfold parseHead. pose proof (findHead_settled buf more) as H. destruct (findHead buf) as [[e s]|er|]; [|by destruct er; first [exact H | rewrite H]|done].
  destruct H as (-> & He & Hs & Hm). rewrite !bind_Ok. pose proof (blen_nonneg more).
  rewrite !slice_ok by (rewrite ?blen_app; lia). rewrite !bind_Ok. rewrite drop_0, drop_0, Z.sub_0_r, take_app_le by (unfold blen in Hs; lia).
  pose proof (Split_nonempty 10 (take (Z.to_nat e) buf)) as Hne. unfold splitHeadLines.
  destruct (Split 10 (take (Z.to_nat e) buf)) as [|l ls]; [done|]. cbn [fmap list_fmap].
  destruct (_ <? _); [done|]. pose proof (parseHeaderLines_final (list_fmap _ _ (λ l0, TrimSuffix l0 [13]) ls) ∅) as Hf.
  destruct (parseHeaderLines _ ∅) as [h|er|]; [|by destruct er|done]. cbn. split_and!; [done|lia|lia|lia].
Qed.

Lemma extractBody_settled buf more h s : 0 ≤ s ≤ blen buf →
  match extractBody buf h s with
  | Panic => False
  | Err ErrIncomplete => blen buf < s + MaxBodySize
  | Err e => extractBody (buf ++ more) h s = Err e
  | Ok (b, n) => extractBody (buf ++ more) h s = Ok (b, n) ∧ s ≤ n ≤ blen buf
  end.
Proof.
  intros Hs. unfold extractBody. pose proof (blen_nonneg more). destruct (Values h nContentLength) as [|v vs]; [split; [done|lia]|].
  destruct (existsb _ _); [done|]. destruct (Atoi _) as [cl|]; [|done]. destruct (Z.ltb_spec cl 0); [done|].
  destruct (Z.ltb_spec MaxBodySize cl); [done|]. cbv zeta. destruct (Z.ltb_spec (blen buf) (s + cl)); [lia|].
  rewrite blen_app, (proj2 (Z.ltb_ge _ _)) by lia. destruct (cl =? 0); [split; [done|lia]|].
  rewrite !slice_ok by (rewrite ?blen_app; lia). rewrite !bind_Ok, !bind_ret || idtac. cbn.
  rewrite drop_app_le by (unfold blen in *; lia). rewrite take_app_le; [split; [done|lia]|]. rewrite length_drop. unfold blen in *. lia.
Qed.

(** A message parser: the head, then a check of its first line, then the body. *)
Lemma message_answer {A B} (first : list Z → res err B) (mk : B → Header → list Z → A) buf more :
  (∀ l, final (first l)) →
  answer (λ buf, '(l, h, s) ← parseHead buf; b ← first l; '(body, n) ← extractBody buf h s; mret (mk b h body, n)) buf more.
Proof.
  intros Hfirst. unfold answer. pose proof (parseHead_settled buf more) as H.
  destruct (parseHead buf) as [[[l h] s]|er|]; [|by destruct er; cbn [mbind res_bind]; first [unfold maxUnit, MaxBodySize; lia | rewrite H]|done].
  destruct H as (-> & Hs & Hm). rewrite !bind_Ok. specialize (Hfirst l). destruct (first l) as [b|er|]; [|by destruct er|done]. rewrite !bind_Ok.
  pose proof (extractBody_settled buf more h s ltac:(lia)) as H. destruct (extractBody buf h s) as [[body n]|er|]; [| |done].
  - destruct H as [-> Hn]. cbn. split; [done|lia].
  - by destruct er; cbn [mbind res_bind]; first [unfold maxUnit; lia | rewrite H].
Qed.

Lemma answer_ext {A} (P Q : list Z → res err (A * Z)) buf more : (∀ b, P b = Q b) → answer Q buf more → answer P buf more.
Proof. intros H. unfold answer. by rewrite !H. Qed.

#[export] Instance ParseResponse_wire : WireParser ParseResponse.
Proof.
  split. intros buf more _ _. eapply answer_ext; [|exact (message_answer parseStatusLine
    (λ b h body, mkResponse b.1 b.2 (parseCSeq h) h body) buf more parseStatusLine_final)].
  intros b. unfold ParseResponse. destruct (parseHead b) as [[[l h] s]|e|]; [|done|done]. rewrite !bind_Ok.
  by destruct (parseStatusLine l) as [[code reason]|e|].
Qed.

#[export] Instance ParseRequest_wire : WireParser ParseRequest.
Proof.
  split. intros buf more _ _. eapply answer_ext; [|exact (message_answer parseRequestLine
    (λ b h body, mkRequest b.1 b.2 (parseCSeq h) h body) buf more parseRequestLine_final)].
  intros b. unfold ParseRequest. destruct (parseHead b) as [[[l h] s]|e|]; [|done|done]. rewrite !bind_Ok.
  by destruct (parseRequestLine l) as [[method url]|e|].
Qed.

#[export] Instance ParseInterleaved_wire : WireParser ParseInterleaved.
Proof.
  split. intros buf more Hne Hb. unfold answer, ParseInterleaved. destruct buf as [|c buf]; [done|]. cbn [app].
  change (c :: buf ++ more) with ((c :: buf) ++ more). pose proof (blen_nonneg more). destruct (c =? 36); cbn [negb]; [|done].
  destruct (Z.ltb_spec (blen (c :: buf)) interleavedHeaderLen) as [|Hl].
  { unfold interleavedHeaderLen, maxUnit, MaxHeaderBytes, MaxBodySize in *. lia. }
  unfold interleavedHeaderLen in *. rewrite (proj2 (Z.ltb_ge (blen ((c :: buf) ++ more)) 4)) by (rewrite blen_app; lia).
  rewrite (byte_at_app_l (c :: buf) more 1), be_at_app_l by lia.
  destruct (byte_at_inside (E:=err) (c :: buf) 1) as (ch & -> & _); [lia|]. rewrite !bind_Ok.
  destruct (be_at 2 (c :: buf) 2) as [w|e|] eqn:Ew;
    [|by apply be_at_not_err in Ew|by apply be_at_no_panic in Ew; [|lia..]].
  apply be_at_range in Ew; [|done|lia]. rewrite !bind_Ok. cbv zeta.
  destruct (Z.ltb_spec (blen (c :: buf)) (4 + w)); [unfold maxUnit, MaxHeaderBytes, MaxBodySize; lia|].
  rewrite (proj2 (Z.ltb_ge (blen ((c :: buf) ++ more)) _)) by (rewrite blen_app; lia).
  rewrite !slice_ok by (rewrite ?blen_app; lia). rewrite !bind_Ok. cbn [mret res_ret].
  rewrite drop_app_le by (unfold blen in *; lia). rewrite take_app_le; [split; [done|lia]|]. rewrite length_drop. unfold blen in *. lia.
Qed.

(** ** Lines *)
Definition text (ls : list (list Z)) : list Z := concat ((λ l, l ++ CRLF) <$> ls).
Definition clean (l : list Z) : Prop := (13 ∉ l) ∧ (10 ∉ l).

Lemma lookup_at (q s : list Z) k : 0 ≤ k → (q ++ s) !! Z.to_nat (blen q + k) = s !! Z.to_nat k.
Proof. intros Hk. rewrite lookup_app_r by (unfold blen; lia). f_equal. unfold blen. lia. Qed.

Lemma lookup_at_Some (q s : list Z) k c j : j = blen q + k → 0 ≤ k → s !! Z.to_nat k = Some c → (q ++ s) !! Z.to_nat j = Some c.
Proof. intros -> Hk Hs. by rewrite lookup_at. Qed.

Lemma blank_other q c post : c ≠ 10 → blank (q ++ c :: post) (blen q) = None.
Proof.
  intros Hc. unfold blank. rewrite (lookup_at_Some q _ 0 c) by (done || lia). rewrite bool_decide_Some.
  by rewrite (proj2 (Z.eqb_neq c 10)).
Qed.
Lemma blank_line q x post : x ≠ 10 → blank (q ++ [x; 13; 10] ++ post) (blen q + 2) = None.
Proof.
  intros Hx. unfold blank. rewrite (lookup_at_Some q _ 2 10), (lookup_at_Some q _ 1 13), (lookup_at_Some q _ 0 x) by (done || lia).
  rewrite !bool_decide_Some, (proj2 (Z.eqb_neq x 10)) by done. by rewrite !andb_false_r.
Qed.
Lemma blank_end q post : blank (q ++ [13; 10; 13; 10] ++ post) (blen q + 3) = Some (blen q).
Proof.
  unfold blank. pose proof (blen_nonneg q).
  rewrite (lookup_at_Some q _ 3 10), (lookup_at_Some q _ 2 13), (lookup_at_Some q _ 1 10), (lookup_at_Some q _ 0 13) by (done || lia).
  rewrite !bool_decide_Some, andb_false_r, (proj2 (Z.leb_le 3 _)) by lia. cbn. f_equal. lia.
Qed.

Lemma search_skip l q post n : 10 ∉ l → search (length l + n) (q ++ l ++ post) (blen q) = search n (q ++ l ++ post) (blen q + blen l).
Proof.
  revert q. induction l as [|c l IH]; intros q Hl; [by rewrite Z.add_0_r|]. apply not_elem_of_cons in Hl as [Hc Hl].
  cbn [length Nat.add search app]. rewrite blank_other by done. specialize (IH (q ++ [c]) Hl).
  rewrite <- app_assoc, blen_app in IH. cbn [app] in IH. change (blen [c]) with 1 in IH. cbn [app]. rewrite IH, blen_cons. f_equal. lia.
Qed.

Lemma search_line l q post n : l ≠ [] → clean l →
  search (length l + 2 + n) (q ++ (l ++ CRLF) ++ post) (blen q) = search n (q ++ (l ++ CRLF) ++ post) (blen (q ++ l ++ CRLF)).
Proof.
  intros Hne [_ Hl]. rewrite <- (app_assoc l), <- Nat.add_assoc, search_skip by done. cbn [Nat.add search CRLF app].
  destruct (exists_last Hne) as (l' & x & ->). assert (Hx : x ≠ 10) by (intros ->; apply Hl, elem_of_app; right; by left).
  replace (q ++ (l' ++ [x]) ++ 13 :: 10 :: post) with ((q ++ l' ++ [x]) ++ 13 :: 10 :: post) by (by rewrite <- !app_assoc).
  rewrite <- blen_app, blank_other by done.
  replace ((q ++ l' ++ [x]) ++ 13 :: 10 :: post) with ((q ++ l') ++ [x; 13; 10] ++ post) by (by rewrite <- !app_assoc).
  replace (blen (q ++ l' ++ [x]) + 1) with (blen (q ++ l') + 2) by (rewrite !blen_app; change (blen [x]) with 1; lia).
  rewrite blank_line by done. f_equal. rewrite !blen_app. change (blen [x]) with 1. change (blen CRLF) with 2. change (blen [13; 10]) with 2. lia.
Qed.

Lemma search_text ls q post n : Forall (λ l, l ≠ [] ∧ clean l) ls →
  search (length (text ls) + n) (q ++ text ls ++ post) (blen q) = search n (q ++ text ls ++ post) (blen (q ++ text ls)).
Proof.
  intros H. revert q. induction H as [|l ls [Hne Hl] _ IH]; intros q; [by rewrite app_nil_r|].
  change (text (l :: ls)) with ((l ++ CRLF) ++ text ls). rewrite !length_app. change (length CRLF) with 2%nat.
  rewrite <- (app_assoc (l ++ CRLF)), <- (Nat.add_assoc (length l + 2)), search_line by done. specialize (IH (q ++ l ++ CRLF)).
  rewrite <- !(app_assoc q (l ++ CRLF)) in IH. exact IH.
Qed.

Lemma text_snoc ls l : text (ls ++ [l]) = text ls ++ l ++ CRLF.
Proof. unfold text. rewrite fmap_app, concat_app. cbn. by rewrite app_nil_r. Qed.

(** The head of a message made of such lines ends where it should. *)
Lemma findHead_text ls body : ls ≠ [] → Forall (λ l, l ≠ [] ∧ clean l) ls → blen (text ls) + 2 ≤ MaxHeaderBytes →
  findHead (text ls ++ CRLF ++ body) = Ok (blen (text ls) - 2, blen (text ls) + 2).
Proof.
  intros Hne Hls Hlen. pose proof (blen_nonneg body) as Hb0. rewrite findHead_eq.
  assert (Hlim : ∃ m, limit (text ls ++ CRLF ++ body) = (length (text ls) + (2 + m))%nat).
  { exists (limit (text ls ++ CRLF ++ body) - length (text ls) - 2)%nat. unfold limit. rewrite !blen_app. change (blen CRLF) with 2.
    unfold blen in *. lia. }
  destruct Hlim as [m ->]. pose proof (search_text ls [] (CRLF ++ body) (2 + m) Hls) as E. cbn [app] in E. change (blen []) with 0 in E.
  rewrite E. clear E. destruct (exists_last Hne) as (ls' & l & ->). rewrite text_snoc in *. set (t := text ls') in *. clearbody t. cbn [Nat.add search].
  assert (Ht : blen (t ++ l ++ CRLF) = blen (t ++ l) + 2) by (rewrite !blen_app; change (blen CRLF) with 2; lia).
  change (CRLF ++ body) with (13 :: 10 :: body). rewrite blank_other by done.
  replace ((t ++ l ++ CRLF) ++ 13 :: 10 :: body) with ((t ++ l) ++ [13; 10; 13; 10] ++ body) by (by rewrite <- !app_assoc).
  rewrite Ht. replace (blen (t ++ l) + 2 + 1) with (blen (t ++ l) + 3) by lia. rewrite blank_end. do 2 f_equal; lia.
Qed.


Lemma splitHeadLines_text ls : ls ≠ [] → Forall clean ls → splitHeadLines (take (Z.to_nat (blen (text ls) - 2)) (text ls)) = ls.
Proof.
  intros Hne Hls. induction Hls as [|l ls [H13 H10] Hls IH]; [done|]. change (text (l :: ls)) with ((l ++ CRLF) ++ text ls).
  destruct ls as [|l2 ls].
  - change (text []) with (@nil Z). rewrite app_nil_r, blen_app. change (blen CRLF) with 2.
    rewrite take_blen_app by lia. unfold splitHeadLines. rewrite Split_nil by done. cbn [fmap list_fmap]. by rewrite TrimSuffix_none.
  - assert (H2 : 2 ≤ blen (text (l2 :: ls))).
    { change (text (l2 :: ls)) with ((l2 ++ CRLF) ++ text ls). rewrite !blen_app. change (blen CRLF) with 2.
      pose proof (blen_nonneg l2). pose proof (blen_nonneg (text ls)). lia. }
    rewrite blen_app. replace (Z.to_nat (blen (l ++ CRLF) + blen (text (l2 :: ls)) - 2))
      with (length (l ++ CRLF) + Z.to_nat (blen (text (l2 :: ls)) - 2))%nat by (unfold blen in *; lia).
    rewrite take_app_add. set (r := take _ _) in *.
    replace ((l ++ CRLF) ++ r) with ((l ++ [13]) ++ 10 :: r) by (by rewrite <- !app_assoc).
    unfold splitHeadLines. rewrite Split_app.
    + cbn [fmap list_fmap]. rewrite TrimSuffix_cr. f_equal. by apply IH.
    + rewrite not_elem_of_app. split; [done|]. intros [=]%list_elem_of_singleton.
Qed.

(** ** Header fields on the wire *)
Definition field_text (f : list Z * list Z) : list Z := f.1 ++ str ": " ++ f.2.

Record name_ok (k : list Z) : Prop := {
  nm_token : isValidHeaderName k = true;
  nm_len : blen k ≤ MaxHeaderNameLen;
  nm_canonical : canonicalHeaderName k = k
}.
Record value_ok (v : list Z) : Prop := { vl_line : hasCRLF v = false; vl_len : blen v ≤ MaxHeaderValueLen }.
Definition field_ok (f : list Z * list Z) : Prop := name_ok f.1 ∧ value_ok f.2.

Lemma hasCRLF_clean s : hasCRLF s = false → clean s.
Proof.
  unfold hasCRLF. induction s as [|c s IH]; cbn; [split; apply not_elem_of_nil|]. intros [H1 H2]%orb_false_elim. breflect.
  destruct (IH H2). split; apply not_elem_of_cons; split; (done || congruence).
Qed.

Lemma token_not x k : isTokenChar x = false → isValidHeaderName k = true → x ∉ k.
Proof.
  intros Hx [_ Hk]%andb_prop Hin. rewrite forallb_forall in Hk. specialize (Hk x). rewrite Hk in Hx; [done|by apply list_elem_of_In].
Qed.

Lemma clean_app a b : clean a → clean b → clean (a ++ b).
Proof. intros [] []. split; by apply not_elem_of_app. Qed.

Lemma field_clean f : field_ok f → field_text f ≠ [] ∧ clean (field_text f).
Proof.
  intros [[Ht _ _] [Hv _]]. unfold field_text. split; [by destruct f.1|]. apply clean_app; [|apply clean_app; [|by apply hasCRLF_clean]].
  - split; by apply token_not.
  - split; apply not_elem_of_cons; (split; [done|]); apply not_elem_of_cons; split; try done; apply not_elem_of_nil.
Qed.

Definition add_field (h : Header) (f : list Z * list Z) : Header := Add h f.1 f.2.

Lemma parseHeaderLines_fields fs h : Forall field_ok fs → parseHeaderLines (field_text <$> fs) h = Ok (foldl add_field h fs).
Proof.
  intros H. revert h. induction H as [|[k v] fs [[Ht Hl Hc] [Hv Hvl]] _ IH]; intros h; [done|]. cbn [fst snd] in *.
  cbn [fmap list_fmap foldl]. unfold field_text at 1. cbn [fst snd]. pose proof Ht as Ht'. unfold isValidHeaderName in Ht'.
  destruct k as [|c k]; [done|]. cbn [app parseHeaderLines].
  assert (H32 : 32 ≠ c) by (intros <-; by apply (token_not 32 (32 :: k) eq_refl Ht); left).
  assert (H9 : 9 ≠ c) by (intros <-; by apply (token_not 9 (9 :: k) eq_refl Ht); left).
  rewrite (proj2 (Z.eqb_neq c 32)), (proj2 (Z.eqb_neq c 9)) by congruence. cbn [orb].
  change (c :: k ++ str ": " ++ v) with ((c :: k) ++ 58 :: [32] ++ v). rewrite Cut_app by (by apply token_not). rewrite Ht. cbn [negb]. cbv zeta.
  unfold TrimPrefix. rewrite cut_prefix_app. cbn [default]. rewrite !(proj2 (Z.ltb_ge _ _)) by done. apply IH.
Qed.

Definition vals (k : list Z) (fs : list (list Z * list Z)) : list (list Z) := snd <$> filter (λ f, f.1 = k) fs.

Lemma fold_fields fs h k : Forall field_ok fs →
  foldl add_field h fs !! k = match vals k fs with [] => h !! k | vs => Some (default [] (h !! k) ++ vs) end.
Proof.
  intros H. revert h. induction H as [|[n v] fs [[_ _ Hc] _] _ IH]; intros h; [done|]. cbn [fst snd foldl] in *. rewrite IH.
  unfold add_field, Add. cbn [fst snd]. rewrite Hc. unfold vals. rewrite filter_cons. cbn [fst]. destruct (decide (n = k)) as [->|Hne].
  - rewrite lookup_insert_eq. cbn [fmap list_fmap snd default]. unfold vals. destruct (snd <$> filter _ fs) as [|v' vs]; [done|]. simpl. by rewrite <- app_assoc.
  - by rewrite lookup_insert_ne.
Qed.

Definition keys_of (h : Header) : list (list Z) := merge_sort by_name (filter (λ k, ¬ computed k) (map_to_list h).*1).
Definition fields_of (h : Header) : list (list Z * list Z) := concat ((λ k, (λ v, (k, v)) <$> default [] (h !! k)) <$> keys_of h).

Definition header_ok (h : Header) : Prop := map_Forall (λ k vs, name_ok k ∧ vs ≠ [] ∧ Forall value_ok vs) h.

Lemma keys_elem h k : k ∈ keys_of h ↔ is_Some (h !! k) ∧ ¬ computed k.
Proof.
  unfold keys_of. rewrite (merge_sort_Permutation by_name), list_elem_of_filter, list_elem_of_fmap. split.
  - intros [Hc ([k' vs] & -> & Hin)]. split; [|done]. exists vs. by apply elem_of_map_to_list.
  - intros [[vs Hv] Hc]. split; [done|]. exists (k, vs). split; [done|]. by apply elem_of_map_to_list.
Qed.
Lemma keys_nodup h : NoDup (keys_of h).
Proof. unfold keys_of. rewrite (merge_sort_Permutation by_name). apply NoDup_filter, NoDup_fst_map_to_list. Qed.

Lemma vals_map k k' (vs : list (list Z)) : vals k ((λ v, (k', v)) <$> vs) = if decide (k' = k) then vs else [].
Proof.
  unfold vals. induction vs as [|v vs IH]; [by destruct (decide _)|]. cbn [fmap list_fmap]. rewrite filter_cons. cbn [fst].
  destruct (decide (k' = k)); [|done]. cbn [fmap list_fmap snd]. f_equal. exact IH.
Qed.

Lemma vals_app k a b : vals k (a ++ b) = vals k a ++ vals k b.
Proof. unfold vals. by rewrite filter_app, fmap_app. Qed.

Lemma vals_fields h k : vals k (fields_of h) = if decide (computed k) then [] else default [] (h !! k).
Proof.
  unfold fields_of. assert (H : ∀ ks, NoDup ks →
    vals k (concat ((λ k, (λ v, (k, v)) <$> default [] (h !! k)) <$> ks)) = if decide (k ∈ ks) then default [] (h !! k) else []).
  { induction 1 as [|k' ks Hk _ IH]; [by rewrite decide_False by apply not_elem_of_nil|]. cbn [fmap list_fmap concat]. rewrite vals_app, vals_map.
    unfold fmap in IH. unfold fmap. rewrite IH. destruct (decide (k' = k)) as [->|Hne].
    - rewrite (decide_False _ _) by done. rewrite (decide_True _ _) by (by left). apply app_nil_r.
    - destruct (decide (k ∈ ks)); [rewrite (decide_True _ _) by (by right)|rewrite (decide_False _ _)]; try done.
      rewrite elem_of_cons. by intros [->|]. }
  rewrite H by apply keys_nodup. destruct (decide (computed k)) as [Hc|Hc].
  - rewrite decide_False; [done|]. rewrite keys_elem. tauto.
  - destruct (decide (k ∈ keys_of h)) as [|Hk]; [done|]. rewrite keys_elem in Hk. destruct (h !! k) eqn:E; [|done].
    destruct Hk. split; [by eexists|done].
Qed.

Lemma fields_ok h : header_ok h → Forall field_ok (fields_of h).
Proof.
  intros Hh. unfold fields_of. apply Forall_concat, Forall_fmap, Forall_forall. intros k [[vs E] _]%keys_elem. cbn. rewrite E. cbn [default].
  destruct (Hh k vs E) as (Hk & _ & Hv). apply Forall_fmap. eapply Forall_impl; [exact Hv|]. by split.
Qed.

Lemma writeSortedHeaders_text h : header_ok h → writeSortedHeaders h = text (field_text <$> fields_of h).
Proof.
  intros Hh. unfold writeSortedHeaders, text, fields_of. fold (keys_of h). cbv zeta.
  assert (H : ∀ ks, (∀ k, k ∈ ks → k ∈ keys_of h) →
    concat ((λ k, concat (field_line (canonicalHeaderName k) <$> default [] (h !! k))) <$> ks) =
    concat ((λ l, l ++ CRLF) <$> (field_text <$> concat ((λ k, (λ v, (k, v)) <$> default [] (h !! k)) <$> ks)))); [|by apply H].
  induction ks as [|k ks IH]; intros Hks; [done|]. rewrite !fmap_cons. cbn [concat]. rewrite !fmap_app, concat_app, IH; [|intros k' ?; apply Hks; by right].
  f_equal. assert (Hk : canonicalHeaderName k = k).
  { assert (Hin : k ∈ keys_of h) by (apply Hks; by left). apply keys_elem in Hin as [[vs E] _]. apply (nm_canonical _ (proj1 (Hh k vs E))). }
  rewrite Hk, <- !list_fmap_compose. f_equal. apply list_fmap_ext. intros i v _. unfold field_line, field_text. cbn. by rewrite <- !app_assoc.
Qed.

(** ** Round trips *)

(** The header a receiver stores: the computed fields, and the others as they were. *)
Definition received (h : Header) (cseq bodyLen : Z) : Header :=
  let base := filter (λ kv, ¬ computed kv.1) h in
  <[nCSeq := [Itoa cseq]]> (if 0 <? bodyLen then <[nContentLength := [Itoa bodyLen]]> base else base).

Definition all_fields (h : Header) (cseq bodyLen : Z) : list (list Z * list Z) :=
  (nCSeq, Itoa cseq) :: (if 0 <? bodyLen then [(nContentLength, Itoa bodyLen)] else []) ++ fields_of h.

Definition int64 (n : Z) : Prop := - 2 ^ 63 ≤ n < 2 ^ 63.

Lemma Itoa_value n : int64 n → value_ok (Itoa n).
Proof.
  intros Hn. split.
  - destruct (Itoa_shape n Hn) as (ds & -> & _ & Hds & _). unfold hasCRLF. rewrite existsb_app. apply orb_false_intro; [by destruct (n <? 0)|].
    induction Hds as [|c ds Hc _ IH]; [done|]. cbn. rewrite IH. unfold is_digit in Hc. zcase.
  - pose proof (Itoa_length n). unfold MaxHeaderValueLen. lia.
Qed.

Lemma all_fields_ok h cseq n : header_ok h → int64 cseq → int64 n → Forall field_ok (all_fields h cseq n).
Proof.
  intros Hh Hc Hn. unfold all_fields. constructor.
  - split; [by split; vm_compute|by apply Itoa_value].
  - apply Forall_app_2; [|by apply fields_ok]. destruct (0 <? n); [|done]. apply Forall_singleton. split; [by split; vm_compute|by apply Itoa_value].
Qed.

Lemma received_fields h cseq n : header_ok h → int64 cseq → int64 n → foldl add_field ∅ (all_fields h cseq n) = received h cseq n.
Proof.
  intros Hh Hc Hn. apply map_eq. intros k. rewrite fold_fields by by apply all_fields_ok. rewrite lookup_empty. cbn [default app].
  unfold all_fields. change (?a :: ?l) with ([a] ++ l). rewrite !vals_app, vals_fields. unfold received.
  assert (Hbase : ∀ k, filter (λ kv, ¬ computed kv.1) h !! k = if decide (computed k) then None else h !! k).
  { intros k'. rewrite map_lookup_filter. destruct (h !! k') as [vs|]; cbn; [|by destruct (decide _)].
    destruct (decide (computed k')); [by rewrite option_guard_False by (intros []; done)|by rewrite option_guard_True]. }
  assert (Hother : ∀ k, ¬ computed k → h !! k = match default [] (h !! k) with [] => None | vs => Some vs end).
  { intros k' _. destruct (h !! k') as [vs|] eqn:E; [|done]. destruct (Hh k' vs E) as (_ & Hne & _). by destruct vs. }
  destruct (decide (nCSeq = k)) as [<-|Hk1].
  - rewrite lookup_insert_eq, decide_True by (by left). unfold vals at 1. cbn. by destruct (0 <? n).
  - rewrite lookup_insert_ne by done. assert (E1 : vals k [(nCSeq, Itoa cseq)] = []) by (unfold vals; cbn; by rewrite decide_False).
    rewrite E1. cbn [app]. destruct (0 <? n).
    + destruct (decide (nContentLength = k)) as [<-|Hk2].
      * rewrite lookup_insert_eq, decide_True by (by right). done.
      * rewrite lookup_insert_ne by done. assert (E2 : vals k [(nContentLength, Itoa n)] = []) by (unfold vals; cbn; by rewrite decide_False).
        rewrite E2, Hbase. cbn [app]. destruct (decide (computed k)); [done|]. by rewrite <- Hother.
    + change (vals k []) with (@nil (list Z)). rewrite Hbase. cbn [app]. destruct (decide (computed k)); [done|]. by rewrite <- Hother.
Qed.

Lemma control_text cseq n : writeControlHeaders cseq n =
  text (field_text <$> (nCSeq, Itoa cseq) :: (if 0 <? n then [(nContentLength, Itoa n)] else [])).
Proof.
  unfold writeControlHeaders, field_line, text, field_text. destruct (0 <? n); cbn [fmap list_fmap concat fst snd];
    by rewrite ?app_nil_r, <- !app_assoc.
Qed.

Lemma text_app a b : text (a ++ b) = text a ++ text b.
Proof. unfold text. by rewrite fmap_app, concat_app. Qed.

Definition head_lines (first : list Z) (h : Header) (cseq bodyLen : Z) : list (list Z) :=
  first :: (field_text <$> all_fields h cseq bodyLen).

(** What the serializers write after the first line. *)
Lemma message_text first h cseq body : header_ok h →
  first ++ CRLF ++ writeControlHeaders cseq (blen body) ++ writeSortedHeaders h ++ CRLF ++ body =
  text (head_lines first h cseq (blen body)) ++ CRLF ++ body.
Proof.
  intros Hh. rewrite control_text, writeSortedHeaders_text by done. unfold head_lines, all_fields.
  change (?f :: ?a :: ?l ++ ?r) with ([f] ++ (a :: l) ++ r). change (?a :: ?l ++ ?r) with ((a :: l) ++ r).
  rewrite fmap_app. change (first :: ?l) with ([first] ++ l). rewrite !text_app.
  change (text [first]) with ((first ++ CRLF) ++ []). by rewrite app_nil_r, <- !app_assoc.
Qed.

(** A header, a sequence number and a body whose head is within the limits of the parsers. *)
Record message_ok (first : list Z) (h : Header) (cseq : Z) (body : list Z) : Prop := {
  ms_first : first ≠ [] ∧ clean first;
  ms_header : header_ok h;
  ms_cseq : int64 cseq;
  ms_body : blen body ≤ MaxBodySize;
  ms_lines : blen (all_fields h cseq (blen body)) ≤ MaxHeaderLines;
  ms_head : blen (text (head_lines first h cseq (blen body))) + 2 ≤ MaxHeaderBytes
}.

Lemma body_int64 (body : list Z) : blen body ≤ MaxBodySize → int64 (blen body).
Proof. unfold int64, MaxBodySize. pose proof (blen_nonneg body). lia. Qed.

Lemma parseHead_text first h cseq body rest : message_ok first h cseq body →
  parseHead (text (head_lines first h cseq (blen body)) ++ CRLF ++ body ++ rest) =
    Ok (first, received h cseq (blen body), blen (text (head_lines first h cseq (blen body))) + 2).
Proof.
  intros [[Hne Hcl] Hh Hc Hb Hl Hhd]. pose proof (body_int64 body Hb) as Hb'. pose proof (all_fields_ok h cseq _ Hh Hc Hb') as Hf.
  set (ls := head_lines first h cseq (blen body)) in *.
  assert (Hls : Forall (λ l, l ≠ [] ∧ clean l) ls).
  { constructor; [done|]. apply Forall_fmap. eapply Forall_impl; [exact Hf|]. intros f. apply field_clean. }
  assert (H2 : 2 ≤ blen (text ls)).
  { unfold ls, head_lines, text. cbn [fmap list_fmap concat]. rewrite !blen_app. change (blen CRLF) with 2.
    match goal with |- context [blen (concat ?l)] => pose proof (blen_nonneg (concat l)) end. pose proof (blen_nonneg first). lia. }
  pose proof (blen_nonneg (CRLF ++ body ++ rest)).
  unfold parseHead. rewrite findHead_text by done. rewrite bind_Ok, slice_ok by (rewrite ?blen_app in *; lia). rewrite bind_Ok, drop_0, Z.sub_0_r.
  rewrite take_app_le by (unfold blen in *; lia). rewrite splitHeadLines_text; [|done|eapply Forall_impl; [exact Hls|]; by intros l []].
  unfold ls, head_lines at 1. rewrite (proj2 (Z.ltb_ge MaxHeaderLines _)).
  - by rewrite parseHeaderLines_fields, bind_Ok, received_fields.
  - rewrite blen_cons. unfold blen in *. rewrite length_fmap. lia.
Qed.

Lemma received_cseq h cseq n : int64 cseq → parseCSeq (received h cseq n) = cseq.
Proof.
  intros Hc. unfold parseCSeq, Get, Values, received. change (canonicalHeaderName nCSeq) with nCSeq. rewrite lookup_insert_eq. cbn [from_option id].
  by rewrite TrimSpace_Itoa, Atoi_Itoa.
Qed.

Lemma received_length h cseq n : Values (received h cseq n) nContentLength = if 0 <? n then [Itoa n] else [].
Proof.
  unfold Values, received. change (canonicalHeaderName nContentLength) with nContentLength. rewrite lookup_insert_ne by done.
  destruct (0 <? n); [by rewrite lookup_insert_eq|]. rewrite map_lookup_filter. destruct (h !! nContentLength); cbn; [|done].
  by rewrite option_guard_False by (intros H; apply H; by right).
Qed.

Lemma extractBody_text t h cseq body rest : blen body ≤ MaxBodySize →
  extractBody (t ++ body ++ rest) (received h cseq (blen body)) (blen t) = Ok (body, blen t + blen body).
Proof.
  intros Hb. unfold extractBody. rewrite received_length. pose proof (blen_nonneg body). destruct (Z.ltb_spec 0 (blen body)).
  - cbn [existsb]. pose proof (body_int64 body Hb). rewrite TrimSpace_Itoa, Atoi_Itoa by done. rewrite (proj2 (Z.ltb_ge _ 0)), (proj2 (Z.ltb_ge _ _)) by lia.
    cbv zeta. pose proof (blen_nonneg rest). pose proof (blen_nonneg t). rewrite !blen_app, (proj2 (Z.ltb_ge _ _)) by lia. rewrite (proj2 (Z.eqb_neq _ 0)) by lia.
    rewrite slice_ok by (rewrite ?blen_app; lia). rewrite bind_Ok, drop_blen_app by done. by rewrite take_blen_app by lia.
  - assert (body = []) as -> by (apply blen_zero; lia). by rewrite Z.add_0_r.
Qed.

Definition request_line (req : Request) : list Z := rq_Method req ++ [32] ++ rq_URL req ++ str " RTSP/1.0".
Definition status_line (resp : Response) : list Z := str "RTSP/1.0 " ++ Itoa (rs_StatusCode resp) ++ [32] ++ rs_Reason resp.

Definition request_ok (req : Request) : Prop :=
  message_ok (request_line req) (rq_Header req) (rq_CSeq req) (rq_Body req) ∧ 32 ∉ rq_Method req.
Definition response_ok (resp : Response) : Prop :=
  message_ok (status_line resp) (rs_Header resp) (rs_CSeq resp) (rs_Body resp).

Definition request_received (req : Request) : Request :=
  mkRequest (rq_Method req) (rq_URL req) (rq_CSeq req) (received (rq_Header req) (rq_CSeq req) (blen (rq_Body req))) (rq_Body req).
Definition response_received (resp : Response) : Response :=
  mkResponse (rs_StatusCode resp) (rs_Reason resp) (rs_CSeq resp) (received (rs_Header resp) (rs_CSeq resp) (blen (rs_Body resp))) (rs_Body resp).

Lemma url_no_space u : hasForbiddenURIByte u = false → 32 ∉ u.
Proof.
  unfold hasForbiddenURIByte. induction u as [|c u IH]; [intros _; apply not_elem_of_nil|]. cbn. intros [H Hu]%orb_false_elim. breflect.
  apply not_elem_of_cons. split; [lia|auto].
Qed.

Lemma code_text n : 100 ≤ n ≤ 999 → blen (Itoa n) = 3 ∧ 32 ∉ Itoa n.
Proof.
  intros Hn. pose proof (range_forall 900 (λ k, (blen (Itoa (100 + k)) =? 3) && negb (existsb (Z.eqb 32) (Itoa (100 + k)))) ltac:(vm_compute; reflexivity)
    (n - 100) ltac:(lia)) as H. cbv beta in H. replace (100 + (n - 100)) with n in H by lia. apply andb_prop in H as [H1 H2]. breflect. split; [done|].
  intros Hin%list_elem_of_In. rewrite (proj2 (existsb_exists _ _)) in H2; [done|]. by exists 32.
Qed.

Lemma MarshalRequest_Ok req b : MarshalRequest (Some req) = Ok b →
  rq_Method req ≠ [] ∧ rq_URL req ≠ [] ∧ blen (rq_Method req) ≤ MaxMethodLen ∧ blen (rq_URL req) ≤ MaxRequestURILen ∧
  hasForbiddenURIByte (rq_URL req) = false ∧
  b = request_line req ++ CRLF ++ writeControlHeaders (rq_CSeq req) (blen (rq_Body req)) ++ writeSortedHeaders (rq_Header req) ++ CRLF ++ rq_Body req.
Proof.
  unfold MarshalRequest, request_line. destruct (_ || bool_decide (rq_URL req = [])) eqn:E1; [done|]. destruct (_ || (MaxRequestURILen <? _)) eqn:E2; [done|].
  destruct (MaxBodySize <? _); [done|]. destruct (hasCRLF _ || _ || _) eqn:E3; [done|]. intros <-%Ok_inv.
  apply orb_false_elim in E1 as [M1%bool_decide_eq_false U1%bool_decide_eq_false]. breflect. split_and!; try done. by rewrite <- !app_assoc.
Qed.

(** When a request without a body can be written. *)
Definition uri_ok (url : list Z) : Prop := url ≠ [] ∧ blen url ≤ MaxRequestURILen ∧ hasForbiddenURIByte url = false.
Definition verb_ok (method : list Z) : Prop := method ≠ [] ∧ blen method ≤ MaxMethodLen ∧ hasCRLF method = false.
Lemma MarshalRequest_writable req : verb_ok (rq_Method req) → uri_ok (rq_URL req) → rq_Body req = [] → headerHasCRLF (rq_Header req) = false →
  ∃ raw, MarshalRequest (Some req) = Ok raw.
Proof.
  intros (M1 & M2 & M3) (U1 & U2 & U3) Hb Hh. unfold MarshalRequest. rewrite !bool_decide_false by done. cbn [orb]. rewrite Hb, M3, U3, Hh.
  rewrite (proj2 (Z.ltb_ge _ _) M2), (proj2 (Z.ltb_ge _ _) U2). cbn [orb]. change (MaxBodySize <? blen []) with false. by eexists.
Qed.
Lemma MarshalRequest_uri req raw : MarshalRequest (Some req) = Ok raw → uri_ok (rq_URL req).
Proof. intros (_ & H1 & _ & H2 & H3 & _)%MarshalRequest_Ok. done. Qed.
Lemma headerHasCRLF_false h : headerHasCRLF h = false ↔ ∀ k vs, h !! k = Some vs → hasCRLF k = false ∧ existsb hasCRLF vs = false.
Proof.
  unfold headerHasCRLF. split.
  - intros H k vs Hk. apply orb_false_elim. destruct (_ || _) eqn:E; [|done]. rewrite <- H. symmetry. apply existsb_exists. exists (k, vs). split; [|done].
    by apply list_elem_of_In, elem_of_map_to_list.
  - intros H. destruct (existsb _ _) eqn:E; [|done]. apply existsb_exists in E as ([k vs] & Hin%list_elem_of_In%elem_of_map_to_list & E).
    destruct (H k vs Hin) as [H1 H2]. cbn [fst snd] in E. by rewrite H1, H2 in E.
Qed.
Lemma headerHasCRLF_Set h name v : headerHasCRLF h = false → hasCRLF (canonicalHeaderName name) = false → hasCRLF v = false → headerHasCRLF (Set_ h name v) = false.
Proof.
  rewrite !headerHasCRLF_false. intros Hh Hn Hv k vs. unfold Set_. intros [[<- <-]|[_ Hk]]%lookup_insert_Some; [|by apply Hh]. split; [done|]. cbn. by rewrite Hv.
Qed.
Lemma headerHasCRLF_Del h name : headerHasCRLF h = false → headerHasCRLF (Del h name) = false.
Proof. rewrite !headerHasCRLF_false. intros Hh k vs. unfold Del. intros [_ Hk]%lookup_delete_Some. by apply Hh. Qed.

Lemma MarshalResponse_Ok resp b : MarshalResponse (Some resp) = Ok b →
  100 ≤ rs_StatusCode resp ≤ 999 ∧ blen (rs_Reason resp) ≤ MaxReasonLen ∧
  b = status_line resp ++ CRLF ++ writeControlHeaders (rs_CSeq resp) (blen (rs_Body resp)) ++ writeSortedHeaders (rs_Header resp) ++ CRLF ++ rs_Body resp.
Proof.
  unfold MarshalResponse, status_line. destruct (_ || (999 <? _)) eqn:E1; [done|]. destruct (_ || (MaxBodySize <? _)) eqn:E2; [done|].
  destruct (hasCRLF _ || _) eqn:E3; [done|]. intros <-%Ok_inv. breflect. split_and!; try done. by rewrite <- !app_assoc.
Qed.

Lemma SplitN_3 a b c : 32 ∉ a → 32 ∉ b → SplitN 3 32 (a ++ 32 :: b ++ 32 :: c) = [a; b; c].
Proof. intros Ha Hb. cbn [SplitN]. by rewrite !Cut_app. Qed.

Lemma ParseRequest_text req b rest : request_ok req → MarshalRequest (Some req) = Ok b →
  ParseRequest (b ++ rest) = Ok (request_received req, blen b).
Proof.
  intros [Hok Hm] (Hme & Hue & Hml & Hul & Hus & ->)%MarshalRequest_Ok. rewrite message_text by apply Hok.
  unfold ParseRequest. rewrite <- !app_assoc, parseHead_text, bind_Ok by done.
  assert (El : parseRequestLine (request_line req) = Ok (rq_Method req, rq_URL req)).
  { unfold parseRequestLine, request_line. change ([32] ++ rq_URL req ++ str " RTSP/1.0") with (32 :: rq_URL req ++ 32 :: str "RTSP/1.0").
    rewrite SplitN_3 by (done || by apply url_no_space). rewrite !bool_decide_false by done. cbn [orb].
    rewrite (proj2 (Z.ltb_ge MaxMethodLen _)), (proj2 (Z.ltb_ge MaxRequestURILen _)) by done. done. }
  rewrite El, bind_Ok. set (t := text _). replace (t ++ CRLF ++ rq_Body req ++ rest) with ((t ++ CRLF) ++ rq_Body req ++ rest) by by rewrite <- app_assoc.
  replace (blen t + 2) with (blen (t ++ CRLF)) by (rewrite blen_app; done). rewrite extractBody_text by apply Hok. rewrite bind_Ok.
  rewrite received_cseq by apply Hok. unfold request_received. do 2 f_equal. rewrite !blen_app. lia.
Qed.

Lemma ParseResponse_text resp b rest : response_ok resp → MarshalResponse (Some resp) = Ok b →
  ParseResponse (b ++ rest) = Ok (response_received resp, blen b) ∧ ClassifyStream (b ++ rest) = FrameResponse.
Proof.
  intros Hok (Hc & Hr & ->)%MarshalResponse_Ok. split; [|done]. rewrite message_text by apply Hok.
  unfold ParseResponse. rewrite <- !app_assoc, parseHead_text, bind_Ok by done.
  assert (El : parseStatusLine (status_line resp) = Ok (rs_StatusCode resp, rs_Reason resp)).
  { destruct (code_text _ Hc) as [H3 H32]. unfold parseStatusLine, status_line.
    change (str "RTSP/1.0 " ++ Itoa (rs_StatusCode resp) ++ [32] ++ rs_Reason resp)
      with (str "RTSP/1.0" ++ 32 :: Itoa (rs_StatusCode resp) ++ 32 :: rs_Reason resp).
    rewrite SplitN_3; [|by apply (bool_decide_unpack (32 ∉ str "RTSP/1.0")); vm_compute|done]. rewrite H3.
    rewrite Atoi_Itoa by lia. cbn [Z.eqb negb HasPrefix]. rewrite (proj2 (Z.ltb_ge _ 100)), (proj2 (Z.ltb_ge 999 _)) by lia. cbn [orb].
    rewrite (proj2 (Z.ltb_ge MaxReasonLen _)) by done. done. }
  rewrite El, bind_Ok. set (t := text _). replace (t ++ CRLF ++ rs_Body resp ++ rest) with ((t ++ CRLF) ++ rs_Body resp ++ rest) by by rewrite <- app_assoc.
  replace (blen t + 2) with (blen (t ++ CRLF)) by (rewrite blen_app; done). rewrite extractBody_text by apply Hok. rewrite bind_Ok.
  rewrite received_cseq by apply Hok. unfold response_received. do 2 f_equal. rewrite !blen_app. lia.
Qed.

Lemma ParseInterleaved_text ch payload b rest : MarshalInterleaved ch payload = Ok b →
  ParseInterleaved (b ++ rest) = Ok (mkInterleaved ch payload, blen b) ∧ ClassifyStream (b ++ rest) = FrameInterleaved.
Proof.
  unfold MarshalInterleaved. destruct (_ || (MaxInterleavedFrame <? _)) eqn:E; [done|]. intros <-%Ok_inv. split; [|done]. breflect.
  pose proof (blen_nonneg payload). pose proof (blen_nonneg rest). unfold MaxInterleavedFrame in *.
  rewrite u16_small, u8_small by (unfold is_u16, is_u8; lia). set (w := blen payload) in *.
  assert (El : blen ([36; ch] ++ be16 w ++ payload) = 4 + w) by (rewrite !blen_app; change (blen [36; ch]) with 2; change (blen (be16 w)) with 2; lia).
  unfold ParseInterleaved. rewrite El, <- !app_assoc. set (tail := payload ++ rest).
  assert (Et : blen ([36; ch] ++ be16 w ++ tail) = 4 + w + blen rest)
    by (unfold tail; rewrite !blen_app; change (blen [36; ch]) with 2; change (blen (be16 w)) with 2; lia).
  cbn [app Z.eqb negb]. change (36 :: ch :: be16 w ++ tail) with ([36; ch] ++ be16 w ++ tail). unfold interleavedHeaderLen.
  rewrite Et, (proj2 (Z.ltb_ge _ 4)) by lia.
  change (byte_at (E:=err) ([36; ch] ++ be16 w ++ tail) 1) with (Ok (E:=err) ch).
  rewrite bind_Ok. assert (Eb : @be_at err 2 ([36; ch] ++ be16 w ++ tail) 2 = Ok w).
  { rewrite be_at_ok by (pose proof (blen_nonneg rest); rewrite ?Et; lia). f_equal.
    unfold be16. rewrite (Z.mod_small (w / 256)) by (split; [apply Z.div_pos; lia|apply Z.div_lt_upper_bound; lia]).
    change (take _ _) with [w / 256; w mod 256]. cbn. pose proof (Z.div_mod w 256 ltac:(lia)). lia. }
  rewrite Eb, bind_Ok. cbv zeta. rewrite (proj2 (Z.ltb_ge _ (4 + w))) by lia. rewrite slice_ok by (rewrite ?Et; lia).
  rewrite bind_Ok. cbn [mret res_ret]. do 3 f_equal.
  change (drop (Z.to_nat 4) ([36; ch] ++ be16 w ++ tail)) with tail. unfold tail. apply take_blen_app. lia.
Qed.

(** C23: what this side writes, the other side reads.  A request whose head keeps within the parsers'
    limits (a method without spaces, at most 255 fields of token names spelled canonically and of
    one-line values, any body of at most 128 KiB) is parsed back from the octets [MarshalRequest]
    writes, whatever follows them on the connection: the same method, URL, sequence number and
    body, each header field with its values in order, and the parser takes exactly the octets of
    the message.  The same holds of a response, which the classifier also recognizes, and of an
    interleaved frame of any channel and payload [MarshalInterleaved] accepts. *)
Theorem messages_roundtrip :
  (∀ req b rest, request_ok req → MarshalRequest (Some req) = Ok b → ParseRequest (b ++ rest) = Ok (request_received req, blen b)) ∧
  (∀ resp b rest, response_ok resp → MarshalResponse (Some resp) = Ok b →
    ParseResponse (b ++ rest) = Ok (response_received resp, blen b) ∧ ClassifyStream (b ++ rest) = FrameResponse) ∧
  (∀ ch payload b rest, MarshalInterleaved ch payload = Ok b →
    ParseInterleaved (b ++ rest) = Ok (mkInterleaved ch payload, blen b) ∧ ClassifyStream (b ++ rest) = FrameInterleaved).
Proof. split_and!; intros; [by apply ParseRequest_text|by apply ParseResponse_text|by apply ParseInterleaved_text]. Qed.

Definition sample_response : Response :=
  mkResponse 401 (str "Unauthorized") 7 (Add (Add ∅ (str "www-authenticate") (str "Digest")) (str "WWW-Authenticate") (str "Basic")) [].

Lemma sample_request_ok : request_ok sample_request.
Proof.
  split; [|by apply (bool_decide_unpack (32 ∉ str "SETUP")); vm_compute]. split.
  - split; [done|]. split; refine (bool_decide_unpack _ _); vm_compute; exact I.
  - intros k vs. intros Hin%elem_of_map_to_list. set (l := map_to_list _) in Hin. vm_compute in l. subst l.
    repeat (apply elem_of_cons in Hin as [[= -> ->]|Hin];
      [split_and!; [by split; vm_compute|done|by apply Forall_singleton; split; vm_compute]|]). by apply elem_of_nil in Hin.
  - by split; vm_compute.
  - by vm_compute.
  - by vm_compute.
  - by vm_compute.
Qed.
Lemma sample_response_ok : response_ok sample_response.
Proof.
  split.
  - split; [done|]. split; refine (bool_decide_unpack _ _); vm_compute; exact I.
  - intros k vs. intros Hin%elem_of_map_to_list. set (l := map_to_list _) in Hin. vm_compute in l. subst l.
    repeat (apply elem_of_cons in Hin as [[= -> ->]|Hin];
      [split_and!; [by split; vm_compute|done|by repeat apply Forall_cons_2; (apply Forall_nil_2 || split; vm_compute)]|]). by apply elem_of_nil in Hin.
  - by split; vm_compute.
  - by vm_compute.
  - by vm_compute.
  - by vm_compute.
Qed.

Definition written (m : res err (list Z)) : list Z := match m with Ok b => b | _ => [] end.
Definition sample_request_text : list Z := Eval vm_compute in written (MarshalRequest (Some sample_request)).
Definition sample_response_text : list Z := Eval vm_compute in written (MarshalResponse (Some sample_response)).

Lemma messages_roundtrip_witness :
  ParseRequest (sample_request_text ++ [36]) = Ok (request_received sample_request, blen sample_request_text) ∧
  ParseResponse (sample_response_text ++ [36]) = Ok (response_received sample_response, blen sample_response_text) ∧
  ParseInterleaved ([36; 1; 0; 2; 9; 8] ++ [7]) = Ok (mkInterleaved 1 [9; 8], 6).
Proof.
  assert (Eq : MarshalRequest (Some sample_request) = Ok sample_request_text) by (vm_compute; reflexivity).
  assert (Er : MarshalResponse (Some sample_response) = Ok sample_response_text) by (vm_compute; reflexivity).
  split; [exact (proj1 messages_roundtrip _ _ [36] sample_request_ok Eq)|].
  split; [exact (proj1 (proj1 (proj2 messages_roundtrip) _ _ [36] sample_response_ok Er))|].
  exact (proj1 (proj2 (proj2 messages_roundtrip) 1 [9; 8] _ [7] eq_refl)).
Defined.

(** No octets can break the parsers of the connection, and how the octets were cut into reads
    does not matter to them.  On any octets that start a unit, each of [ParseRequest],
    [ParseResponse] and [ParseInterleaved] does one of three things and never panics: it returns a unit of at least one octet and at most
    the octets there are, and returns the very same unit when more octets follow; it reports an
    error that more octets do not change; or it asks for more, and then fewer than 64 KiB + 128 KiB octets
    are there: the cap of the reader's buffer is never what stops a unit. *)
Theorem parsers_settled buf more : buf ≠ [] → bytes_ok buf →
  answer ParseRequest buf more ∧ answer ParseResponse buf more ∧ answer ParseInterleaved buf more.
Proof. intros Hne Hb. split; [|split]; by apply wire_answer. Qed.

Lemma parsers_settled_witness : str "PLAY x RTSP/1.0" ≠ [] ∧ bytes_ok (str "PLAY x RTSP/1.0") ∧
  answer ParseRequest (str "PLAY x RTSP/1.0") [10; 10] ∧ answer ParseResponse (str "PLAY x RTSP/1.0") [10; 10].
Proof.
  assert (Hb : bytes_ok (str "PLAY x RTSP/1.0")) by (repeat constructor; by vm_compute).
  split; [discriminate|]. split; [exact Hb|].
  destruct (parsers_settled (str "PLAY x RTSP/1.0") [10; 10] ltac:(discriminate) Hb) as (H1 & H2 & _). split; [exact H1|exact H2].
Defined.
End message.
