(* ===== verification/Reader.v ===== *)
(** * The reader of an RTSP connection: [rtsp/reader.go]

    One goroutine owns the socket: it accumulates octets, frames them into units, routes
    interleaved frames to their tracks and messages to their callers, resynchronizes after
    octets that start no unit, and ends the session on the first terminal cause.

    Tracks are pointers in Go; here they are indexes into [tracks], which only grows.  The
    outside world is a parameter: what [time.Now] returns at each call and whether each write to
    the socket succeeds.  What the reader does to it is a list of [effect]s. *)
From Stdlib Require Import Ascii String.
From S2P Require Import Prelude Bytes Text RtpPacket Rtcp Media Pipeline Transport Message.
From stdpp Require Import gmap.
Local Open Scope Z_scope.

Module reader.
Import audiostream pipeline transport message.

Definition readChunk : Z := 4096.
Definition maxReadBuffer : Z := MaxHeaderBytes + MaxBodySize.
Definition maxResyncBytes : Z := 4096.
Definition methodTeardown : list Z := str "TEARDOWN".
Definition StatusOK : Z := 200.

(** Why the session ended. *)
Inductive cause :=
  | ErrServerTeardown | ErrConnectionClosed | ErrReadTimeout | ErrClosed
  | FramingError (e : err) | ResyncExceeded | ErrBufferFull
  | ErrRequestTimeout | ContextDone | RequestInvalid (e : err).  (** a caller's *)

(** ** The routing table *)
Record channelBinding := mkBinding { b_track : nat; b_isRTCP : bool }.
Abbreviation channelTable := (gmap Z channelBinding).

Definition lookup_channel (t : option channelTable) (channel : Z) : option channelBinding :=
  match t with None => None | Some bindings => bindings !! channel end.

Definition newChannelTable (old : option channelTable) (tr : nat) (rtpCh rtcpCh : Z) : channelTable :=
  let bindings := match old with None => ∅ | Some b => b end in
  let bindings := <[rtpCh := mkBinding tr false]> bindings in
  <[rtcpCh := mkBinding tr true]> bindings.

(** ** The state

    [session] is what the units change, [client] adds the accumulation buffer. *)
Record session := mkSession {
  channels : option channelTable; tracks : list track; lastFrameAt : Z;
  pending : gset Z;           (** the sequence numbers callers wait on *)
  closing : option cause;     (** set once, by the first terminal trigger *)
  playing : bool;
  resync : Z;
  ticks : nat; sent : nat     (** calls of [time.Now] and writes so far *)
}.
Record client := mkClient { rbuf : list Z; start : Z; sess : session }.

Inductive effect :=
  | Callback (tr : nat) (ev : event)   (** [OnFrame] or [OnCodecUpdate], for a track *)
  | Resolve (resp : Response)          (** a response handed to the caller waiting for it *)
  | Write (raw : list Z).

Record world := mkWorld { clock : nat → rtcp.Time; written_ok : nat → bool; callbacks_of : callbacks }.

(** ** Field updates *)
Definition set_tracks (ts : list track) (s : session) : session :=
  mkSession (channels s) ts (lastFrameAt s) (pending s) (closing s) (playing s) (resync s) (ticks s) (sent s).
Definition set_frame_at (z : Z) (s : session) : session :=
  mkSession (channels s) (tracks s) z (pending s) (closing s) (playing s) (resync s) (S (ticks s)) (sent s).
Definition set_pending (p : gset Z) (s : session) : session :=
  mkSession (channels s) (tracks s) (lastFrameAt s) p (closing s) (playing s) (resync s) (ticks s) (sent s).
Definition set_closing (c : cause) (s : session) : session :=
  mkSession (channels s) (tracks s) (lastFrameAt s) (pending s) (Some c) (playing s) (resync s) (ticks s) (sent s).
Definition set_resync (z : Z) (s : session) : session :=
  mkSession (channels s) (tracks s) (lastFrameAt s) (pending s) (closing s) (playing s) z (ticks s) (sent s).
Definition set_sent (s : session) : session :=
  mkSession (channels s) (tracks s) (lastFrameAt s) (pending s) (closing s) (playing s) (resync s) (ticks s) (S (sent s)).
Definition with_sess (s : session) (c : client) : client := mkClient (rbuf c) (start c) s.

(** [initiateShutdown]: the first cause wins. *)
Definition initiateShutdown (why : cause) (s : session) : session :=
  match closing s with None => set_closing why s | Some _ => s end.

(** ** Handling a unit *)
Definition lift {E A} (m : res no_err A) : res E A :=
  match m with Ok a => Ok a | Err e => match e with end | Panic => Panic end.

Definition calls (tr : nat) (evs : list event) : list effect := Callback tr <$> evs.

Definition handleInterleaved (w : world) (f : InterleavedFrame) (s : session) : res err (session * list effect * bool) :=
  let now := clock w (ticks s) in
  let s := set_frame_at (UnixNano now) s in
  match lookup_channel (channels s) (Channel f) with
  | None => mret (s, [], false)
  | Some bind =>
      match tracks s !! b_track bind with
      | None => Panic
      | Some tr =>
          if b_isRTCP bind then
            '(tr, usable) ← lift (rtcp_frame (Payload f) now tr);
            mret (set_tracks (<[b_track bind := tr]> (tracks s)) s, [], usable)
          else
            '(tr, evs, usable) ← lift (rtp_frame (callbacks_of w) (Payload f) now tr);
            mret (set_tracks (<[b_track bind := tr]> (tracks s)) s, calls (b_track bind) evs, usable)
      end
  end.

Definition dispatchResponse (resp : Response) (s : session) : session * list effect :=
  if decide (rs_CSeq resp ∈ pending s)
  then (set_pending (pending s ∖ {[rs_CSeq resp]}) s, [Resolve resp])
  else (s, []).

(** The answer to a server's request. *)
Definition ok_answer (cseq : Z) : res err (list Z) := MarshalResponse (Some (mkResponse StatusOK (str "OK") cseq ∅ [])).

Definition handleServerRequest (w : world) (req : Request) (s : session) : session * list effect :=
  if EqualFold (rq_Method req) methodTeardown then (initiateShutdown ErrServerTeardown s, [])
  else
    match ok_answer (rq_CSeq req) with
    | Ok raw =>
        if written_ok w (sent s) then (set_sent s, [Write raw])
        else (initiateShutdown ErrConnectionClosed (set_sent s), [Write raw])
    | _ => (s, [])
    end.

(** ** The steps: parse a unit, handle it; how many octets it took, and whether it was usable *)
Definition stepInterleaved (w : world) (buf : list Z) (s : session) : res err (session * list effect * Z * bool) :=
  '(f, n) ← ParseInterleaved buf;
  '(s, out, usable) ← handleInterleaved w f s;
  mret (s, out, n, usable).

Definition stepResponse (buf : list Z) (s : session) : res err (session * list effect * Z * bool) :=
  '(resp, n) ← ParseResponse buf;
  let '(s, out) := dispatchResponse resp s in
  mret (s, out, n, true).

Definition stepRequest (w : world) (buf : list Z) (s : session) : res err (session * list effect * Z * bool) :=
  '(req, n) ← ParseRequest buf;
  let '(s, out) := handleServerRequest w req s in
  mret (s, out, n, true).

(** ** Framing *)
Inductive resyncVerdict := resyncAccept | resyncFill | resyncDiscard.
#[export] Instance resyncVerdict_dec : EqDecision resyncVerdict.
Proof. solve_decision. Defined.

Definition gateResyncFrame (buf : list Z) (s : session) : resyncVerdict :=
  match buf with
  | _ :: ch :: _ => match lookup_channel (channels s) ch with Some _ => resyncAccept | None => resyncDiscard end
  | _ => resyncFill
  end.

(** What a round of the loop does next: another one, a read ([fillMore]), or end. *)
Inductive next := Again | Fill | Exit.

Definition resyncOne (c : client) : client * next :=
  let s := set_resync (resync (sess c) + 1) (sess c) in
  if maxResyncBytes <? resync s then (mkClient (rbuf c) (start c) (initiateShutdown ResyncExceeded s), Exit)
  else (mkClient (rbuf c) (start c + 1) s, Again).

Definition stepFunc : Type := list Z → session → res err (session * list effect * Z * bool).

Definition consume (step : stepFunc) (validated : bool) (c : client) : res no_err (client * list effect * next) :=
  buf ← slice_from (rbuf c) (start c);
  let resyncing := 0 <? resync (sess c) in
  let gate := if resyncing && negb validated then Some (gateResyncFrame buf (sess c)) else None in
  match gate with
  | Some resyncFill => mret (c, [], Fill)
  | Some resyncDiscard => let '(c, k) := resyncOne c in mret (c, [], k)
  | _ =>
      match step buf (sess c) with
      | Panic => Panic
      | Err ErrIncomplete => mret (c, [], Fill)
      | Err e =>
          if resyncing then let '(c, k) := resyncOne c in mret (c, [], k)
          else mret (with_sess (initiateShutdown (FramingError e) (sess c)) c, [], Exit)
      | Ok (s, out, n, usable) =>
          let s := if negb (match gate with Some _ => true | None => false end) || usable then set_resync 0 s else s in
          mret (mkClient (rbuf c) (start c + n) s, out, Again)
      end
  end.

(** One round of [readLoop]'s loop, up to the reads it asks for. *)
Definition readRound (w : world) (c : client) : res no_err (client * list effect * next) :=
  match closing (sess c) with
  | Some _ => mret (c, [], Exit)
  | None =>
      buf ← slice_from (rbuf c) (start c);
      match ClassifyStream buf with
      | FrameNeedMore => mret (c, [], Fill)
      | FrameInterleaved => consume (stepInterleaved w) false c
      | FrameResponse => consume stepResponse true c
      | FrameRequest => consume (stepRequest w) true c
      | FrameUnknown => let '(c, k) := resyncOne c in mret (c, [], k)
      end
  end.

(** The rounds between two reads. *)
Fixpoint readLoop (w : world) (fuel : nat) (c : client) : res no_err (client * list effect * next) :=
  match fuel with
  | O => mret (c, [], Again)
  | S fuel =>
      '(c, out, k) ← readRound w c;
      match k with
      | Again => '(c, out', k) ← readLoop w fuel c; mret (c, out ++ out', k)
      | _ => mret (c, out, k)
      end
  end.

(** ** Reading: [conn.Read] returns some octets, and an error or none *)
Record read := mkRead { rd_data : list Z; rd_err : option bool (** a time-out? *) }.

Inductive fill_err := BufferFull | ReadErr (timeout : bool).

Definition fill (r : read) (c : client) : res no_err (client * option fill_err) :=
  c ← (if 0 <? start c then rest ← slice_from (rbuf c) (start c); mret (mkClient rest 0 (sess c)) else mret c);
  if maxReadBuffer <=? blen (rbuf c) then mret (c, Some BufferFull)
  else match rd_data r with
       | [] => mret (c, ReadErr <$> rd_err r)
       | data => mret (mkClient (rbuf c ++ data) (start c) (sess c), None)
       end.

Definition classifyReadErr (timeout : bool) (s : session) : cause :=
  match closing s with
  | Some why => why
  | None => if playing s && timeout then ErrReadTimeout else ErrConnectionClosed
  end.

Definition fillMore (r : read) (c : client) : res no_err (client * next) :=
  '(c, e) ← fill r c;
  match e with
  | None => mret (c, Again)
  | Some BufferFull => mret (with_sess (initiateShutdown ErrBufferFull (sess c)) c, Exit)
  | Some (ReadErr timeout) => mret (with_sess (initiateShutdown (classifyReadErr timeout (sess c)) (sess c)) c, Exit)
  end.

(** Enough rounds for the octets at hand. *)
Definition rounds (c : client) : nat := S (S (length (rbuf c) - Z.to_nat (start c))).

(** The whole loop, over what its reads return; [Fill] at the end is a reader blocked in a read. *)
Fixpoint run (w : world) (rs : list read) (c : client) : res no_err (client * list effect * next) :=
  '(c, out, k) ← readLoop w (rounds c) c;
  match k, rs with
  | Fill, r :: rs =>
      '(c, k) ← fillMore r c;
      match k with
      | Exit => mret (c, out, Exit)
      | _ => '(c, out', k) ← run w rs c; mret (c, out ++ out', k)
      end
  | _, _ => mret (c, out, k)
  end.

(** ** Well-formed sessions *)
Record session_ok (s : session) : Prop := {
  so_tracks : Forall track_ok (tracks s);
  so_bound : ∀ t ch b, channels s = Some t → t !! ch = Some b → (b_track b < length (tracks s))%nat;
  so_resync : 0 ≤ resync s ∧ (closing s = None → resync s ≤ maxResyncBytes)
}.

Lemma rtp_frame_ok cb payload now t : track_ok t → datagram_ok payload →
  ∃ t' evs u, rtp_frame cb payload now t = Ok (t', evs, u) ∧ track_ok t' ∧ su t' = su t.
Proof.
  intros Ht Hp. destruct (discard (su t)) eqn:Hd.
  - unfold rtp_frame. cbv zeta. set (t0 := with_cnt _ t). assert (H0 : track_ok t0) by (destruct Ht; by split).
    change (discard (su t0)) with (discard (su t)). rewrite Hd. destruct (shape_ok payload); eexists _, _, _; (split; [done|]); [|done].
    split; [destruct H0; by split|done].
  - destruct (frame_follows cb payload now t Ht Hd Hp) as (t' & evs & u & E & _ & Ht' & Hs). by exists t', evs, u.
Qed.

Lemma rtcp_frame_ok payload now t : track_ok t → datagram_ok payload →
  ∃ t' u, rtcp_frame payload now t = Ok (t', u) ∧ track_ok t' ∧ su t' = su t.
Proof.
  intros Ht [Hb _]. unfold rtcp_frame. destruct (discard _); [by exists t, (shape_ok payload)|].
  destruct (handleRTCP_ok payload now t Ht Hb) as (sn & u & E & _). eexists _, u. split; [exact E|]. split; [destruct Ht; by split|done].
Qed.

(** What the reader leaves alone: what the tracks were set up with, the routing table, whether
    the session plays, and the first terminal cause; it only answers callers who wait. *)
Record framed (s s' : session) : Prop := {
  fr_setup : su <$> tracks s' = su <$> tracks s;
  fr_channels : channels s' = channels s;
  fr_playing : playing s' = playing s;
  fr_pending : pending s' ⊆ pending s;
  fr_cause : closing s ≠ None → closing s' = closing s
}.
#[export] Instance framed_preorder : PreOrder framed.
Proof.
  split; [intros s; by split|]. intros s1 s2 s3 [A1 A2 A3 A4 A5] [B1 B2 B3 B4 B5]. split; [congruence|congruence|congruence|set_solver|].
  intros H. rewrite B5; [by apply A5|by rewrite A5].
Qed.

(** What a unit may change of the session: never the resync budget. *)
Definition handled (s s' : session) : Prop := session_ok s' ∧ resync s' = resync s ∧ framed s s'.

Lemma handled_refl s : session_ok s → handled s s.
Proof. intros H. split; [done|]. split; [done|reflexivity]. Qed.

Lemma shutdown_ok why s : session_ok s → session_ok (initiateShutdown why s).
Proof. intros [H1 H2 [H3 H4]]. unfold initiateShutdown. destruct (closing s) eqn:E; split; cbn; try done. by rewrite E. Qed.
Lemma shutdown_closed why s : closing (initiateShutdown why s) ≠ None.
Proof. unfold initiateShutdown. destruct (closing s) eqn:E; cbn; congruence. Qed.
Lemma shutdown_framed why s : framed s (initiateShutdown why s).
Proof. unfold initiateShutdown. destruct (closing s) eqn:E; by split. Qed.
Lemma shutdown_handled why s : session_ok s → handled s (initiateShutdown why s).
Proof. intros H. split; [by apply shutdown_ok|]. split; [unfold initiateShutdown; by destruct (closing s)|apply shutdown_framed]. Qed.

Lemma handleInterleaved_ok w f s : session_ok s → datagram_ok (Payload f) →
  ∃ s' out u, handleInterleaved w f s = Ok (s', out, u) ∧ handled s s'.
Proof.
  intros [Ht Hb Hr] Hp. unfold handleInterleaved. cbv zeta. set (s0 := set_frame_at _ s).
  assert (H0 : handled s s0) by (split; [by split|split; [done|by split]]). change (channels s0) with (channels s). change (tracks s0) with (tracks s).
  unfold lookup_channel. destruct (channels s) as [t|] eqn:Ec; [|by exists s0, [], false].
  destruct (t !! Channel f) as [b|] eqn:Eb; [|by exists s0, [], false].
  destruct (lookup_lt_is_Some_2 (tracks s) (b_track b) (Hb t _ b eq_refl Eb)) as [tr Etr]. rewrite Etr.
  pose proof (Forall_lookup_1 _ _ _ _ Ht Etr) as Htr.
  assert (Hset : ∀ tr', track_ok tr' ∧ su tr' = su tr → handled s (set_tracks (<[b_track b := tr']> (tracks s)) s0)).
  { intros tr' [H' Hs']. split; [split; cbn; [by apply Forall_insert| |done]|split; [done|split; try done; cbn]].
    - intros t' ch b' E1 E2. rewrite length_insert. apply (Hb t' ch b'); congruence.
    - rewrite list_fmap_insert, Hs'. apply list_insert_id. by rewrite list_lookup_fmap, Etr. }
  destruct (b_isRTCP b).
  - destruct (rtcp_frame_ok (Payload f) (clock w (ticks s)) tr Htr Hp) as (tr' & u & -> & H'). cbn [lift]. rewrite bind_Ok.
    eexists _, _, _. split; [done|]. by apply Hset.
  - destruct (rtp_frame_ok (callbacks_of w) (Payload f) (clock w (ticks s)) tr Htr Hp) as (tr' & evs & u & -> & H'). cbn [lift]. rewrite bind_Ok.
    eexists _, _, _. split; [done|]. by apply Hset.
Qed.

Lemma dispatchResponse_ok resp s : session_ok s → handled s (dispatchResponse resp s).1.
Proof.
  intros []. unfold dispatchResponse. destruct (decide _); (split; [by split|split; [done|]]); [|done]. split; try done. cbn. by apply subseteq_difference_l.
Qed.

Lemma handleServerRequest_ok w req s : session_ok s → handled s (handleServerRequest w req s).1.
Proof.
  intros Hs. assert (H1 : session_ok (set_sent s)) by (destruct Hs; by split). unfold handleServerRequest.
  destruct (EqualFold _ _); [|destruct (ok_answer _); [destruct (written_ok _ _)|..]]; cbn [fst]; try (by apply handled_refl).
  - by apply shutdown_handled.
  - split; [done|]. split; [done|by split].
  - destruct (shutdown_handled ErrConnectionClosed (set_sent s) H1) as (A & B & C). split; [done|]. split; [done|].
    etrans; [|exact C]. by split.
Qed.

(** ** Steps on a stream

    What the loop relies on: a step does not panic, its answer does not depend on the octets
    behind its unit, and it asks for more only within the cap of the buffer. *)
Definition step_answer (step : stepFunc) (buf more : list Z) (s : session) : Prop :=
  match step buf s with
  | Panic => False
  | Err ErrIncomplete => blen buf < maxUnit
  | Err e => step (buf ++ more) s = Err e
  | Ok (s', out, n, u) => step (buf ++ more) s = Ok (s', out, n, u) ∧ 0 < n ≤ blen buf ∧ handled s s'
  end.
Class StreamStep (step : stepFunc) :=
  { step_settled : ∀ buf more s, buf ≠ [] → bytes_ok buf → session_ok s → step_answer step buf more s }.

(** A parser of the wire and a total handler make a step. *)
Lemma parsed_step {A} (P : list Z → res err (A * Z)) `{!WireParser P} (h : A → session → res err (session * list effect * bool)) buf more s :
  (∀ a n, P buf = Ok (a, n) → ∃ s' out u, h a s = Ok (s', out, u) ∧ handled s s') → buf ≠ [] → bytes_ok buf →
  step_answer (λ buf s, '(a, n) ← P buf; '(s, out, u) ← h a s; mret (s, out, n, u)) buf more s.
Proof.
  intros Hh Hne Hb. pose proof (wire_answer buf more Hne Hb) as Ha. unfold answer in Ha. unfold step_answer.
  destruct (P buf) as [[a n]|e|]; [|by destruct e; cbn [mbind res_bind]; first [exact Ha|rewrite Ha]|done]. destruct Ha as [Ea Hn].
  destruct (Hh a n eq_refl) as (s' & out & u & E & Hs). rewrite Ea, !bind_Ok, E, !bind_Ok. done.
Qed.

Lemma step_answer_ext (f g : stepFunc) buf more s : (∀ b, f b s = g b s) → step_answer g buf more s → step_answer f buf more s.
Proof. intros H. unfold step_answer. by rewrite !H. Qed.

Lemma ParseInterleaved_payload buf f n : bytes_ok buf → ParseInterleaved buf = Ok (f, n) → datagram_ok (Payload f).
Proof.
  intros Hb. unfold ParseInterleaved. destruct buf as [|c buf]; [done|]. destruct (negb _); [done|].
  destruct (Z.ltb_spec (blen (c :: buf)) interleavedHeaderLen) as [|Hl]; [done|]. unfold message.interleavedHeaderLen in *.
  destruct (byte_at (c :: buf) 1) as [ch|e|]; [|done..]. rewrite bind_Ok. destruct (be_at 2 (c :: buf) 2) as [wd|e|] eqn:Ew; [|done..].
  apply be_at_range in Ew; [|done|lia]. rewrite bind_Ok. cbv zeta. destruct (Z.ltb_spec (blen (c :: buf)) (4 + wd)); [done|].
  rewrite slice_ok by lia. rewrite bind_Ok. intros Ef%Ok_inv. apply (f_equal fst) in Ef. cbn [fst] in Ef. subst f. cbn [Payload]. split; [apply Forall_take, Forall_drop, Hb|].
  unfold blen. rewrite length_take. lia.
Qed.

#[export] Instance stepInterleaved_stream w : StreamStep (stepInterleaved w).
Proof.
  split. intros buf more s Hne Hb Hs. apply (parsed_step ParseInterleaved (handleInterleaved w)); [|done..].
  intros f n E. apply handleInterleaved_ok; [done|]. by eapply ParseInterleaved_payload.
Qed.
#[export] Instance stepResponse_stream : StreamStep stepResponse.
Proof.
  split. intros buf more s Hne Hb Hs. eapply step_answer_ext; [|apply (parsed_step ParseResponse
    (λ r s, mret (let '(s, out) := dispatchResponse r s in (s, out, true)))); [|done..]].
  - intros b. unfold stepResponse. destruct (ParseResponse b) as [[r n]|e|]; [|done..]. rewrite !bind_Ok. by destruct (dispatchResponse r s).
  - intros r n _. pose proof (dispatchResponse_ok r s Hs). destruct (dispatchResponse r s) as [s' out]. by exists s', out, true.
Qed.
#[export] Instance stepRequest_stream w : StreamStep (stepRequest w).
Proof.
  split. intros buf more s Hne Hb Hs. eapply step_answer_ext; [|apply (parsed_step ParseRequest
    (λ r s, mret (let '(s, out) := handleServerRequest w r s in (s, out, true)))); [|done..]].
  - intros b. unfold stepRequest. destruct (ParseRequest b) as [[r n]|e|]; [|done..]. rewrite !bind_Ok. by destruct (handleServerRequest w r s).
  - intros r n _. pose proof (handleServerRequest_ok w r s Hs). destruct (handleServerRequest w r s) as [s' out]. by exists s', out, true.
Qed.

(** ** The buffer *)
Definition unread (c : client) : list Z := drop (Z.to_nat (start c)) (rbuf c).

Record client_ok (c : client) : Prop := {
  cl_sess : session_ok (sess c);
  cl_start : 0 ≤ start c ≤ blen (rbuf c);
  cl_bytes : bytes_ok (rbuf c)
}.

Lemma unread_slice c : client_ok c → slice_from (E:=no_err) (rbuf c) (start c) = Ok (unread c).
Proof.
  intros [_ Hs _]. unfold slice_from. rewrite slice_ok by lia. unfold unread. do 2 f_equal. apply take_ge.
  rewrite length_drop. unfold blen in *. lia.
Qed.

Lemma unread_length c : client_ok c → blen (unread c) = blen (rbuf c) - start c.
Proof. intros [_ Hs _]. by apply blen_drop. Qed.
Lemma unread_bytes c : client_ok c → bytes_ok (unread c).
Proof. intros [_ _ Hb]. apply Forall_drop, Hb. Qed.

(** The client after [n] octets of the buffer. *)
Definition advance (c : client) (n : Z) (s : session) : client := mkClient (rbuf c) (start c + n) s.

Lemma unread_advance c n s : client_ok c → 0 ≤ n ≤ blen (unread c) → unread (advance c n s) = drop (Z.to_nat n) (unread c).
Proof.
  intros Hc Hn. pose proof (unread_length c Hc). destruct Hc as [_ Hs _]. unfold unread, advance in *. cbn [rbuf start].
  rewrite drop_drop. f_equal. lia.
Qed.
Lemma advanced_ok c n s : client_ok c → 0 ≤ n ≤ blen (unread c) → session_ok s → client_ok (advance c n s).
Proof. intros Hc Hn Hs. pose proof (unread_length c Hc). destruct Hc as [_ Hst Hb]. split; cbn; [done|lia|done]. Qed.

(** [c2] is at the same point of the stream as [c] and has [m] more octets of it. *)
Definition ahead (m : list Z) (c c2 : client) : Prop := client_ok c2 ∧ unread c2 = unread c ++ m ∧ sess c2 = sess c.

Lemma ahead_advance m c c2 n s : client_ok c → ahead m c c2 → 0 ≤ n ≤ blen (unread c) → session_ok s →
  ahead m (advance c n s) (advance c2 n s).
Proof.
  intros Hc (H2 & Hu & Hs) Hn Hss. assert (Hn2 : 0 ≤ n ≤ blen (unread c2)) by (rewrite Hu, blen_app; pose proof (blen_nonneg m); lia).
  split; [by apply advanced_ok|]. split; [|done]. rewrite !unread_advance, Hu by done. apply drop_app_le. unfold blen in *. lia.
Qed.
Lemma ahead_sess m c c2 s : ahead m c c2 → session_ok s → ahead m (with_sess s c) (with_sess s c2).
Proof. intros ([] & Hu & Hs) Hss. split; [by split|done]. Qed.

(** ** A round

    A round that needs no read is the same round when more octets are there; one that does has
    less than the largest unit at hand and changes nothing. *)
Definition settled_round (F : client → res no_err (client * list effect * next)) (c : client) : Prop :=
  ∃ c' out k, F c = Ok (c', out, k) ∧
    match k with
    | Fill => c' = c ∧ out = [] ∧ blen (unread c) < maxUnit
    | Again => (∃ n, c' = advance c n (sess c') ∧ 0 < n ≤ blen (unread c)) ∧ session_ok (sess c') ∧
        ∀ m c2, ahead m c c2 → ∃ c2', F c2 = Ok (c2', out, Again) ∧ ahead m c' c2'
    | Exit => c' = with_sess (sess c') c ∧ session_ok (sess c') ∧ closing (sess c') ≠ None ∧
        ∀ m c2, ahead m c c2 → ∃ c2', F c2 = Ok (c2', out, Exit) ∧ ahead m c' c2'
    end.

Lemma resync_ok z s : session_ok s → 0 ≤ z ≤ maxResyncBytes → session_ok (set_resync z s).
Proof. intros [H1 H2 _] Hz. split; cbn; [done|done|]. split; [lia|intros _; lia]. Qed.
Lemma resync_over z s : session_ok s → 0 ≤ z → session_ok (initiateShutdown ResyncExceeded (set_resync z s)).
Proof.
  intros [H1 H2 _] Hz. unfold initiateShutdown. cbn [closing set_resync]. destruct (closing s) eqn:E; (split; cbn; [done|done|]); (split; [lia|]); congruence.
Qed.

Lemma resyncOne_settled c : client_ok c → unread c ≠ [] → settled_round (λ c, let '(c, k) := resyncOne c in mret (c, [], k)) c.
Proof.
  intros Hc Hne. assert (Hn : 0 < 1 ≤ blen (unread c)) by (pose proof (blen_concat_pos _ Hne); lia).
  pose proof (so_resync _ (cl_sess _ Hc)) as [Hr0 _].
  unfold settled_round, resyncOne. cbv zeta. cbn [resync set_resync]. destruct (Z.ltb_spec maxResyncBytes (resync (sess c) + 1)).
  - pose proof (resync_over _ _ (cl_sess _ Hc) (Z.add_nonneg_nonneg _ 1 Hr0 ltac:(lia))) as Hs.
    eexists _, _, _. split; [done|]. split; [done|]. split; [exact Hs|]. split; [apply shutdown_closed|].
    intros m c2 Ha. pose proof Ha as (_ & _ & Es). rewrite Es, (proj2 (Z.ltb_lt _ _)) by done. eexists. split; [done|]. by apply (ahead_sess m c c2).
  - eexists _, _, _. split; [done|]. cbn [sess]. assert (Hs : session_ok (set_resync (resync (sess c) + 1) (sess c))) by (apply resync_ok; [apply Hc|lia]). split; [by exists 1|]. split; [exact Hs|].
    intros m c2 Ha. pose proof Ha as (_ & _ & Es). rewrite Es, (proj2 (Z.ltb_ge _ _)) by done. eexists. split; [done|].
    apply (ahead_advance m c c2); try done; lia.
Qed.

Lemma gate_more buf more s : gateResyncFrame buf s ≠ resyncFill → gateResyncFrame (buf ++ more) s = gateResyncFrame buf s.
Proof. by destruct buf as [|? [|? ?]]. Qed.
Lemma gate_short buf s : gateResyncFrame buf s = resyncFill → blen buf < 2.
Proof. unfold gateResyncFrame. destruct buf as [|a [|b l]]; [done|done|]. by destruct (lookup_channel _ _). Qed.

(** [consume] once the buffer is sliced. *)
Definition consume_at (step : stepFunc) (validated : bool) (buf : list Z) (c : client) : res no_err (client * list effect * next) :=
  let resyncing := 0 <? resync (sess c) in
  let gate := if resyncing && negb validated then Some (gateResyncFrame buf (sess c)) else None in
  match gate with
  | Some resyncFill => mret (c, [], Fill)
  | Some resyncDiscard => let '(c, k) := resyncOne c in mret (c, [], k)
  | _ =>
      match step buf (sess c) with
      | Panic => Panic
      | Err ErrIncomplete => mret (c, [], Fill)
      | Err e =>
          if resyncing then let '(c, k) := resyncOne c in mret (c, [], k)
          else mret (with_sess (initiateShutdown (FramingError e) (sess c)) c, [], Exit)
      | Ok (s, out, n, usable) =>
          let s := if negb (match gate with Some _ => true | None => false end) || usable then set_resync 0 s else s in
          mret (advance c n s, out, Again)
      end
  end.

Lemma consume_eq step v c : client_ok c → consume step v c = consume_at step v (unread c) c.
Proof. intros Hc. unfold consume. by rewrite unread_slice. Qed.

Lemma settled_round_ext F G c : (∀ m c2, ahead m c c2 → F c2 = G c2) → F c = G c → settled_round G c → settled_round F c.
Proof.
  intros Hm H0 (c' & out & k & E & Hk). exists c', out, k. split; [by rewrite H0|]. destruct k; [|done|].
  - destruct Hk as (Hn & Hs & Ha). split; [done|]. split; [done|]. intros m c2 H. destruct (Ha m c2 H) as (c2' & E2 & H2).
    exists c2'. by rewrite (Hm m c2 H).
  - destruct Hk as (Hn & Hs & Hc & Ha). split_and!; try done. intros m c2 H. destruct (Ha m c2 H) as (c2' & E2 & H2).
    exists c2'. by rewrite (Hm m c2 H).
Qed.

Lemma ahead_refl c : client_ok c → ahead [] c c.
Proof. split; [done|]. by rewrite app_nil_r. Qed.

Lemma fill_settled c : blen (unread c) < maxUnit → settled_round (λ c, mret (c, [], Fill)) c.
Proof. intros Hl. by exists c, [], Fill. Qed.

Lemma stop_settled why c : client_ok c → settled_round (λ c, mret (with_sess (initiateShutdown why (sess c)) c, [], Exit)) c.
Proof.
  intros Hc. pose proof (shutdown_ok why _ (cl_sess _ Hc)) as Hs. eexists _, _, _. split; [done|]. split; [done|]. split; [exact Hs|].
  split; [apply shutdown_closed|]. intros m c2 Ha. eexists. split; [done|]. destruct (Ha) as (_ & _ & ->). by apply (ahead_sess m c c2).
Qed.

Lemma took_settled (F : client → res no_err (client * list effect * next)) s' out n c :
  client_ok c → 0 < n ≤ blen (unread c) → session_ok s' → (∀ m c2, ahead m c c2 → F c2 = Ok (advance c2 n s', out, Again)) →
  settled_round F c.
Proof.
  intros Hc Hn Hs HF. eexists _, _, _. split; [exact (HF [] c (ahead_refl c Hc))|]. split; [by exists n|]. split; [done|].
  intros m c2 Ha. eexists. split; [exact (HF m c2 Ha)|]. apply ahead_advance; try done. lia.
Qed.

Lemma consume_settled step v c `{!StreamStep step} : client_ok c → unread c ≠ [] → settled_round (consume step v) c.
Proof.
  intros Hc Hne. apply (settled_round_ext _ (λ c, consume_at step v (unread c) c)); [intros m c2 [H2 _]; by apply consume_eq|by apply consume_eq|].
  set (gate := if (0 <? resync (sess c)) && negb v then Some (gateResyncFrame (unread c) (sess c)) else None).
  pose proof (λ more, step_settled (unread c) more (sess c) Hne (unread_bytes c Hc) (cl_sess _ Hc)) as Hstep.
  destruct (decide (gate = Some resyncFill)) as [Hg|Hg].
  { assert (Hl : blen (unread c) < maxUnit).
    { unfold gate in Hg. destruct (_ && _); [|done]. injection Hg as Hg%gate_short. unfold maxUnit, MaxHeaderBytes, MaxBodySize. lia. }
    exists c, [], Fill. split; [|done]. unfold consume_at. fold gate. by rewrite Hg. }
  assert (Hgate : ∀ m c2, ahead m c c2 →
    (if (0 <? resync (sess c2)) && negb v then Some (gateResyncFrame (unread c2) (sess c2)) else None) = gate).
  { intros m c2 (_ & -> & ->). unfold gate in *. destruct (_ && _); [|done]. f_equal. apply gate_more. congruence. }
  destruct (decide (gate = Some resyncDiscard)) as [Hd|Hd].
  { eapply settled_round_ext; [..|exact (resyncOne_settled c Hc Hne)].
    - intros m c2 Ha. unfold consume_at. cbv zeta. by rewrite (Hgate m c2 Ha), Hd.
    - unfold consume_at. cbv zeta. fold gate. by rewrite Hd. }
  assert (Hopen : ∀ m c2, ahead m c c2 → consume_at step v (unread c2) c2 =
    match step (unread c ++ m) (sess c) with
    | Panic => Panic
    | Err ErrIncomplete => mret (c2, [], Fill)
    | Err e => if 0 <? resync (sess c) then let '(c, k) := resyncOne c2 in mret (c, [], k)
               else mret (with_sess (initiateShutdown (FramingError e) (sess c2)) c2, [], Exit)
    | Ok (s, out, n, usable) =>
        mret (advance c2 n (if negb (match gate with Some _ => true | None => false end) || usable then set_resync 0 s else s), out, Again)
    end).
  { intros m c2 Ha. unfold consume_at. cbv zeta. rewrite (Hgate m c2 Ha). destruct Ha as (_ & -> & ->).
    destruct gate as [[]|]; done. }
  assert (H0 : step (unread c ++ []) (sess c) = step (unread c) (sess c)) by by rewrite app_nil_r.
  unfold step_answer in Hstep. destruct (step (unread c) (sess c)) as [[[[s' out] n] u]|e|] eqn:Es; [| |by destruct (Hstep [])].
  - destruct (Hstep []) as (_ & Hn & Hh & Hr & _). eapply (took_settled _ (if negb (match gate with Some _ => true | None => false end) || u then set_resync 0 s' else s') out n); [done|done| |].
    + destruct (_ || u); [|done]. apply resync_ok; [done|]. unfold maxResyncBytes. lia.
    + intros m c2 Ha. rewrite (Hopen m c2 Ha). destruct (Hstep m) as (-> & _). done.
  - destruct (decide (e = ErrIncomplete)) as [->|Hne2].
    + exists c, [], Fill. split; [|split_and!; [done|done|exact (Hstep [])]]. rewrite (Hopen [] c (ahead_refl c Hc)), H0. done.
    + assert (Hm : ∀ m, step (unread c ++ m) (sess c) = Err e) by (intros m; specialize (Hstep m); destruct e; done).
      destruct (0 <? resync (sess c)) eqn:Er.
      * eapply settled_round_ext; [..|exact (resyncOne_settled c Hc Hne)].
        -- intros m c2 Ha. rewrite (Hopen m c2 Ha), Hm. by destruct e.
        -- rewrite (Hopen [] c (ahead_refl c Hc)), Hm. by destruct e.
      * eapply settled_round_ext; [..|exact (stop_settled (FramingError e) c Hc)].
        -- intros m c2 Ha. rewrite (Hopen m c2 Ha), Hm. by destruct e.
        -- rewrite (Hopen [] c (ahead_refl c Hc)), Hm. by destruct e.
Qed.

Lemma Classify_more buf more : ClassifyStream buf ≠ FrameNeedMore → ClassifyStream (buf ++ more) = ClassifyStream buf.
Proof. destruct buf as [|a [|b l]]; [done| |done]. cbn. by destruct (a =? 36). Qed.
Lemma Classify_short buf : ClassifyStream buf = FrameNeedMore → blen buf < 2.
Proof.
  destruct buf as [|a [|b l]]; [done|done|]. unfold ClassifyStream. destruct (a =? 36); [done|]. destruct (bool_decide _); [done|].
  by destruct (bool_decide _).
Qed.

Lemma readRound_settled w c : client_ok c → closing (sess c) = None → settled_round (readRound w) c.
Proof.
  intros Hc Ho. assert (Hround : ∀ m c2, ahead m c c2 → readRound w c2 =
    match ClassifyStream (unread c ++ m) with
    | FrameNeedMore => mret (c2, [], Fill)
    | FrameInterleaved => consume (stepInterleaved w) false c2
    | FrameResponse => consume stepResponse true c2
    | FrameRequest => consume (stepRequest w) true c2
    | FrameUnknown => let '(c, k) := resyncOne c2 in mret (c, [], k)
    end).
  { intros m c2 (H2 & Hu & Hs). unfold readRound. rewrite Hs, Ho, unread_slice, bind_Ok, Hu by done. done. }
  destruct (decide (unread c = [])) as [He|Hne].
  { exists c, [], Fill. rewrite (Hround [] c (ahead_refl c Hc)), He. done. }
  destruct (ClassifyStream (unread c)) eqn:E.
  { exists c, [], Fill. rewrite (Hround [] c (ahead_refl c Hc)), app_nil_r, E. split; [done|]. apply Classify_short in E.
    unfold maxUnit, MaxHeaderBytes, MaxBodySize. split_and!; try done. lia. }
  all: assert (Hm : ∀ m, ClassifyStream (unread c ++ m) = ClassifyStream (unread c)) by (intros m; apply Classify_more; congruence).
  all: eapply settled_round_ext; [intros m c2 Ha; rewrite (Hround m c2 Ha), Hm, E; reflexivity|
    rewrite (Hround [] c (ahead_refl c Hc)), Hm, E; reflexivity|].
  1-3: apply consume_settled; [apply _|done|done].
  by apply resyncOne_settled.
Qed.

(** ** The loop as a relation: rounds that need no read, and where they stop *)
Inductive rounds_to (w : world) : client → list effect → client → Prop :=
  | rounds_done c : rounds_to w c [] c
  | rounds_more c c1 c2 out out' :
      readRound w c = Ok (c1, out, Again) → rounds_to w c1 out' c2 → rounds_to w c (out ++ out') c2.

Definition stops (w : world) (c : client) (out : list effect) (c' : client) (k : next) : Prop :=
  ∃ c1 out1 out2, rounds_to w c out1 c1 ∧ readRound w c1 = Ok (c', out2, k) ∧ k ≠ Again ∧ out = out1 ++ out2.

Lemma rounds_trans w c out c1 out' c2 : rounds_to w c out c1 → rounds_to w c1 out' c2 → rounds_to w c (out ++ out') c2.
Proof. induction 1 as [|c c1 c3 o1 o2 E _ IH]; intros H; [done|]. rewrite <- app_assoc. econstructor; [exact E|]. by apply IH. Qed.

Lemma rounds_stops w c out c1 out' c2 k : rounds_to w c out c1 → stops w c1 out' c2 k → stops w c (out ++ out') c2 k.
Proof.
  intros Hr (c3 & o1 & o2 & Hr2 & E & Hk & ->). exists c3, (out ++ o1), o2. split; [by eapply rounds_trans|]. by rewrite <- app_assoc.
Qed.

(** It is a function. *)
Lemma stops_unique w c o1 c1 k1 o2 c2 k2 : stops w c o1 c1 k1 → stops w c o2 c2 k2 → (o1, c1, k1) = (o2, c2, k2).
Proof.
  intros (d1 & a1 & b1 & R1 & E1 & K1 & ->) (d2 & a2 & b2 & R2 & E2 & K2 & ->). revert a2 R2.
  induction R1 as [c|c c3 d1 a1 a1' E R IH]; intros a2 R2; inversion R2; subst.
  - rewrite E1 in E2. by injection E2 as -> -> ->.
  - rewrite E1 in H. by injection H.
  - rewrite E in E2. by injection E2.
  - rewrite E in H. injection H as <- <-. specialize (IH E1 _ H0). injection IH as E3 -> ->. by rewrite <- !app_assoc, E3.
Qed.

Lemma closed_exit w c : closing (sess c) ≠ None → readRound w c = Ok (c, [], Exit).
Proof. unfold readRound. by destruct (closing (sess c)). Qed.

(** From any client the rounds come to a stop, within [rounds]. *)
Lemma readLoop_stops w c n : client_ok c → (length (unread c) < n)%nat → ∃ c' out k, readLoop w n c = Ok (c', out, k) ∧ stops w c out c' k ∧
  client_ok c' ∧ match k with Exit => closing (sess c') ≠ None | Fill => closing (sess c') = None ∧ blen (unread c') < maxUnit | Again => False end.
Proof.
  revert c. induction n as [|n IH]; intros c Hc Hn; [lia|]. cbn [readLoop].
  destruct (closing (sess c)) as [why|] eqn:Ho.
  { assert (E : closing (sess c) ≠ None) by congruence. rewrite (closed_exit w c E), bind_Ok. exists c, [], Exit.
    split; [done|]. split; [|by split]. exists c, [], []. split; [constructor|]. by rewrite closed_exit. }
  destruct (readRound_settled w c Hc Ho) as (c' & out & k & E & Hk). rewrite E, bind_Ok. destruct k.
  - destruct Hk as ((m & Ec' & Hm) & Hs & _). rewrite Ec' in *. assert (Hc' : client_ok (advance c m (sess c'))).
    { apply advanced_ok; [done|lia|done]. }
    destruct (IH _ Hc') as (c2 & o2 & k2 & -> & H2 & H3 & H4).
    { rewrite unread_advance by (done || lia). rewrite length_drop. unfold blen in Hm. lia. }
    rewrite bind_Ok. exists c2, (out ++ o2), k2. split; [done|]. split; [|by split]. eapply rounds_stops; [|exact H2].
    rewrite <- (app_nil_r out). econstructor; [exact E|constructor].
  - destruct Hk as (-> & -> & Hl). exists c, [], Fill. split; [done|]. split; [|by split_and!]. exists c, [], []. split; [constructor|]. by split_and!.
  - destruct Hk as (Ec' & Hs & Hcl & _). exists c', out, Exit. split; [done|]. split.
    + exists c, [], out. split; [constructor|]. by split_and!.
    + split; [|done]. rewrite Ec'. destruct Hc. by split.
Qed.

(** The rounds of a client are those of one that has more of the stream. *)
Lemma rounds_ahead w c out c' m c2 : rounds_to w c out c' → client_ok c → ahead m c c2 →
  client_ok c' ∧ ∃ c2', rounds_to w c2 out c2' ∧ ahead m c' c2'.
Proof.
  intros Hr. revert c2. induction Hr as [c|c c1 c' o1 o2 E _ IH]; intros c2 Hc Ha; [split; [done|]; exists c2; split; [constructor|done]|].
  destruct (closing (sess c)) eqn:Ho; [rewrite closed_exit in E by congruence; discriminate E|].
  destruct (readRound_settled w c Hc Ho) as (c0 & out & k & E' & Hk). rewrite E in E'. injection E' as <- <- <-.
  destruct Hk as ((n & Ec1 & Hn) & Hs & Hmore). destruct (Hmore m c2 Ha) as (c2' & E2 & Ha2).
  assert (Hc1 : client_ok c1) by (rewrite Ec1; apply advanced_ok; (done || lia)).
  destruct (IH c2' Hc1 Ha2) as (Hc' & c3 & R3 & Ha3). split; [done|]. exists c3. split; [by econstructor|done].
Qed.

Lemma exit_ahead w c out c' m c2 : stops w c out c' Exit → client_ok c → ahead m c c2 → ∃ c2', stops w c2 out c2' Exit ∧ sess c2' = sess c'.
Proof.
  intros (c1 & o1 & o2 & R & E & Hk & ->) Hc Ha. destruct (rounds_ahead w c o1 c1 m c2 R Hc Ha) as (Hc1 & c3 & R3 & Ha3).
  assert (H : ∃ c4, readRound w c3 = Ok (c4, o2, Exit) ∧ sess c4 = sess c').
  { destruct (closing (sess c1)) eqn:Ho.
    - rewrite closed_exit in E by congruence. injection E as <- <-. exists c3. destruct Ha3 as (_ & _ & Es). split; [|done].
      apply closed_exit. rewrite Es. congruence.
    - destruct (readRound_settled w c1 Hc1 Ho) as (c0 & out & k & E' & Hk'). rewrite E in E'. injection E' as <- <- <-.
      destruct Hk' as (_ & _ & _ & Hmore). destruct (Hmore m c3 Ha3) as (c4 & E4 & _ & _ & Es). by exists c4. }
  destruct H as (c4 & E4 & Es). exists c4. split; [|done]. by exists c3, o1, o2.
Qed.

Lemma fill_ahead w c out c' m c2 : stops w c out c' Fill → client_ok c → ahead m c c2 → ∃ c2', rounds_to w c2 out c2' ∧ ahead m c' c2'.
Proof.
  intros (c1 & o1 & o2 & R & E & Hk & ->) Hc Ha. destruct (rounds_ahead w c o1 c1 m c2 R Hc Ha) as (Hc1 & c3 & R3 & Ha3).
  destruct (closing (sess c1)) eqn:Ho; [rewrite closed_exit in E by congruence; discriminate E|].
  destruct (readRound_settled w c1 Hc1 Ho) as (c0 & out & k & E' & Hk'). rewrite E in E'. injection E' as <- <- <-.
  destruct Hk' as (-> & -> & _). exists c3. by rewrite app_nil_r.
Qed.

(** ** Reads *)

(** What [conn.Read] into [rscratch] may return. *)
Definition read_ok (r : read) : Prop := bytes_ok (rd_data r) ∧ blen (rd_data r) ≤ readChunk.
(** ... without an error that ends the session. *)
Definition read_on (r : read) : Prop := read_ok r ∧ (rd_data r = [] → rd_err r = None).

(** Compaction keeps the unread octets, and the cap is never met. *)
Lemma fill_ok r c : client_ok c → read_ok r → blen (unread c) < maxUnit →
  ∃ c', fill r c = Ok (c', match rd_data r with [] => ReadErr <$> rd_err r | _ => None end) ∧
    client_ok c' ∧ unread c' = unread c ++ rd_data r ∧ sess c' = sess c ∧ start c' = 0 ∧ blen (rbuf c') < maxReadBuffer + readChunk.
Proof.
  intros Hc [Hb Hl] Hu. unfold fill. set (c1 := mkClient (unread c) 0 (sess c)).
  assert (E1 : (if 0 <? start c then rest ← slice_from (rbuf c) (start c); mret (mkClient rest 0 (sess c)) else mret c) = Ok (E:=no_err) c1).
  { destruct (Z.ltb_spec 0 (start c)); [by rewrite unread_slice|]. destruct Hc as [_ Hs _]. unfold c1, unread. destruct c as [rb st ss]. cbn in *.
    assert (st = 0) as -> by lia. by rewrite drop_0. }
  rewrite E1, bind_Ok. assert (H1 : client_ok c1) by (destruct Hc as [Hs _ Hbb]; split; cbn; [done|pose proof (blen_nonneg (unread c)); lia|by apply Forall_drop]).
  cbn [rbuf c1]. rewrite (proj2 (Z.leb_gt _ _)) by exact Hu.
  assert (Hok : client_ok (mkClient (unread c ++ rd_data r) 0 (sess c))).
  { destruct H1 as [Hs _ Hbb]. split; cbn; [done|pose proof (blen_nonneg (unread c ++ rd_data r)); lia|by apply Forall_app_2]. }
  assert (Hlen : blen (unread c ++ rd_data r) < maxReadBuffer + readChunk) by (rewrite blen_app; unfold maxUnit, maxReadBuffer in *; lia).
  destruct (rd_data r) as [|x l] eqn:Er.
  - exists c1. rewrite app_nil_r in *. by split_and!.
  - eexists. split; [done|]. split; [exact Hok|]. by split_and!.
Qed.

Lemma fillMore_on r c : client_ok c → read_on r → blen (unread c) < maxUnit →
  ∃ c', fillMore r c = Ok (c', Again) ∧ client_ok c' ∧ unread c' = unread c ++ rd_data r ∧ sess c' = sess c.
Proof.
  intros Hc [Hr He] Hu. destruct (fill_ok r c Hc Hr Hu) as (c' & E & Hc' & Hu' & Hs & _). unfold fillMore. rewrite E, bind_Ok.
  exists c'. split; [|done]. destruct (rd_data r); [|done]. by rewrite He by done.
Qed.

Definition octets (rs : list read) : list Z := concat (rd_data <$> rs).

Lemma rounds_enough c : client_ok c → (length (unread c) < rounds c)%nat.
Proof. intros _. unfold unread, rounds. rewrite length_drop. lia. Qed.

Lemma run_unfold w rs c : run w rs c =
  ('(c, out, k) ← readLoop w (rounds c) c;
   match k, rs with
   | Fill, r :: rs =>
       '(c, k) ← fillMore r c;
       match k with
       | Exit => mret (c, out, Exit)
       | _ => '(c, out', k) ← run w rs c; mret (c, out ++ out', k)
       end
   | _, _ => mret (c, out, k)
   end).
Proof. by destruct rs. Qed.

Lemma fill_same w c c2 : client_ok c → ahead [] c c2 → closing (sess c) = None → readRound w c = Ok (c, [], Fill) → readRound w c2 = Ok (c2, [], Fill).
Proof.
  intros Hc (H2 & Hu & Hs) Ho E. rewrite app_nil_r in Hu.
  assert (Hback : ahead [] c2 c) by (split; [done|]; by rewrite app_nil_r, Hu, Hs).
  destruct (readRound_settled w c2 H2) as (c3 & out & k & E2 & Hk); [by rewrite Hs|]. destruct k.
  - destruct Hk as (_ & _ & Hk). destruct (Hk [] c Hback) as (c4 & E4 & _). congruence.
  - by destruct Hk as (-> & -> & _).
  - destruct Hk as (_ & _ & _ & Hk). destruct (Hk [] c Hback) as (c4 & E4 & _). congruence.
Qed.

Lemma stops_fill w c out c' : client_ok c → stops w c out c' Fill → rounds_to w c out c' ∧ closing (sess c') = None ∧ readRound w c' = Ok (c', [], Fill).
Proof.
  intros Hc (c1 & o1 & o2 & R & E & Hk & ->). destruct (rounds_ahead w c o1 c1 [] c R Hc (ahead_refl c Hc)) as (Hc1 & _).
  destruct (closing (sess c1)) eqn:Ho; [rewrite closed_exit in E by congruence; discriminate E|].
  destruct (readRound_settled w c1 Hc1 Ho) as (c0 & out & k & E' & Hk'). pose proof E as E1. rewrite E' in E1. injection E1 as -> -> ->.
  destruct Hk' as (-> & -> & _). by rewrite app_nil_r.
Qed.

(** The run over the reads is the one over all their octets at once. *)
Lemma run_whole w rs c : client_ok c → Forall read_on rs → ∃ c' out k, run w rs c = Ok (c', out, k) ∧ client_ok c' ∧
  ∀ c2, ahead (octets rs) c c2 → ∃ c2', stops w c2 out c2' k ∧ sess c2' = sess c' ∧
    match k with Exit => closing (sess c') ≠ None | Fill => closing (sess c') = None ∧ unread c2' = unread c' | Again => False end.
Proof.
  intros Hc Hrs. revert c Hc. induction Hrs as [|r rs Hr _ IH]; intros c Hc; rewrite run_unfold;
    destruct (readLoop_stops w c _ Hc (rounds_enough c Hc)) as (c1 & out & k & -> & Hst & Hc1 & Hk); rewrite bind_Ok.
  - exists c1, out, k. split; [by destruct k|]. split; [done|]. intros c2 Ha. destruct k; [done| |].
    + destruct (stops_fill w c out c1 Hc Hst) as (_ & Ho & Ef).
      destruct (fill_ahead w c out c1 [] c2 Hst Hc Ha) as (c3 & R3 & Ha3). pose proof Ha3 as (H3 & Hu3 & Hs3). exists c3.
      split; [|by rewrite app_nil_r in Hu3]. rewrite <- (app_nil_r out). eapply rounds_stops; [exact R3|].
      exists c3, [], []. split; [constructor|]. by rewrite (fill_same w c1 c3).
    + destruct (exit_ahead w c out c1 _ c2 Hst Hc Ha) as (c3 & H3 & Hs3). by exists c3.
  - destruct k; [done| |].
    + destruct Hk as [Ho Hu]. destruct (fillMore_on r c1 Hc1 Hr Hu) as (c2 & -> & Hc2 & Hu2 & Hs2). rewrite bind_Ok.
      destruct (IH c2 Hc2) as (c' & out' & k & E & Hc' & Hall). rewrite E, bind_Ok. exists c', (out ++ out'), k.
      split; [done|]. split; [done|]. intros d Ha. unfold octets in Ha. cbn [fmap list_fmap concat] in Ha.
      destruct (fill_ahead w c out c1 _ d Hst Hc Ha) as (d1 & R1 & Hd1 & Hdu & Hds).
      destruct (Hall d1) as (d2 & H2 & H3 & H4); [split; [done|]; split; [|congruence]|].
      { rewrite Hdu, Hu2. by rewrite <- app_assoc. }
      exists d2. split; [|done]. by eapply rounds_stops.
    + exists c1, out, Exit. split; [done|]. split; [done|]. intros d Ha.
      destruct (exit_ahead w c out c1 _ d Hst Hc Ha) as (d1 & H1 & Hs1). by exists d1.
Qed.

(** ** Well-formed streams *)
Inductive wire_unit := UFrame (f : InterleavedFrame) | UResponse (resp : Response) | URequest (req : Request).

Definition encode (u : wire_unit) : res err (list Z) :=
  match u with
  | UFrame f => MarshalInterleaved (Channel f) (Payload f)
  | UResponse resp => MarshalResponse (Some resp)
  | URequest req => MarshalRequest (Some req)
  end.
Fixpoint encode_all (us : list wire_unit) : res err (list Z) :=
  match us with [] => mret [] | u :: us => b ← encode u; bs ← encode_all us; mret (b ++ bs) end.

(** A request's method is one a server may send. *)
Definition unit_ok (u : wire_unit) : Prop :=
  match u with
  | UFrame f => bytes_ok (Payload f)
  | UResponse resp => response_ok resp
  | URequest req => request_ok req ∧ take 2 (rq_Method req) ∈ method_prefixes
  end.

(** The handler a unit goes to; [Dispatch] says what that amounts to. *)
Definition react (w : world) (u : wire_unit) (s : session) : res err (session * list effect) :=
  match u with
  | UFrame f => '(s, out, _) ← handleInterleaved w f s; mret (s, out)
  | UResponse resp => mret (dispatchResponse (response_received resp) s)
  | URequest req => mret (handleServerRequest w (request_received req) s)
  end.

Fixpoint handle_all (w : world) (us : list wire_unit) (s : session) : res err (session * list effect) :=
  match us with
  | [] => mret (s, [])
  | u :: us =>
      match closing s with
      | Some _ => mret (s, [])
      | None => '(s, out) ← react w u s; '(s, out') ← handle_all w us s; mret (s, out ++ out')
      end
  end.

Lemma set_resync_same s : set_resync (resync s) s = s.
Proof. by destruct s. Qed.

Lemma Classify_request req b rest : MarshalRequest (Some req) = Ok b → take 2 (rq_Method req) ∈ method_prefixes → ClassifyStream (b ++ rest) = FrameRequest.
Proof.
  intros (_ & _ & _ & _ & _ & ->)%MarshalRequest_Ok. unfold request_line. rewrite <- !app_assoc. unfold method_prefixes.
  destruct (rq_Method req) as [|c [|d m]]; cbn [take]; intros H; [repeat (apply elem_of_cons in H as [[=]|H]); by apply elem_of_nil in H..|].
  cbn [app]. unfold ClassifyStream. repeat (apply elem_of_cons in H as [H|H]; [injection H as -> ->; reflexivity|]). by apply elem_of_nil in H.
Qed.

Lemma readRound_unit w u b rest c : client_ok c → closing (sess c) = None → resync (sess c) = 0 → unit_ok u → encode u = Ok b → unread c = b ++ rest →
  ∃ s' out, react w u (sess c) = Ok (s', out) ∧ readRound w c = Ok (advance c (blen b) s', out, Again) ∧ session_ok s' ∧ resync s' = 0.
Proof.
  intros Hc Ho Hr Hu E Hun. pose proof (cl_sess _ Hc) as Hs. unfold readRound. rewrite Ho, unread_slice, bind_Ok, Hun by done.
  assert (Hcons : ∀ step v s' out n u0, step (b ++ rest) (sess c) = Ok (s', out, n, u0) → handled (sess c) s' →
    consume step v c = Ok (advance c n s', out, Again) ∧ session_ok s' ∧ resync s' = 0).
  { intros step v s' out n u0 Es (Hs' & Hr' & _). rewrite consume_eq by done. unfold consume_at. rewrite Hun, Hr. cbn [Z.ltb Z.compare andb].
    rewrite Es. cbn [negb orb]. rewrite Hr in Hr'. rewrite <- Hr', set_resync_same. done. }
  destruct u as [f|resp|req]; cbn [encode unit_ok react] in *.
  - destruct (ParseInterleaved_text (Channel f) (Payload f) b rest E) as [Ep ->].
    assert (Hf : mkInterleaved (Channel f) (Payload f) = f) by by destruct f. rewrite Hf in Ep.
    assert (Hd : datagram_ok (Payload f)).
    { split; [done|]. unfold MarshalInterleaved in E. destruct (_ || (MaxInterleavedFrame <? _)) eqn:El; [done|]. breflect. unfold MaxInterleavedFrame in *. lia. }
    destruct (handleInterleaved_ok w f (sess c) Hs Hd) as (s' & out & u0 & Eh & Hh). rewrite Eh, bind_Ok. exists s', out. split; [done|].
    apply (Hcons _ _ _ _ _ u0); [|done]. unfold stepInterleaved. by rewrite Ep, bind_Ok, Eh, bind_Ok.
  - destruct (ParseResponse_text resp b rest Hu E) as [Ep ->]. pose proof (dispatchResponse_ok (response_received resp) _ Hs) as Hh.
    destruct (dispatchResponse _ _) as [s' out] eqn:Ed. exists s', out. split; [done|]. apply (Hcons _ _ _ _ _ true); [|done].
    unfold stepResponse. by rewrite Ep, bind_Ok, Ed.
  - destruct Hu as [Hq Hm]. pose proof (ParseRequest_text req b rest Hq E) as Ep. rewrite (Classify_request req b rest E Hm).
    pose proof (handleServerRequest_ok w (request_received req) _ Hs) as Hh.
    destruct (handleServerRequest _ _ _) as [s' out] eqn:Ed. exists s', out. split; [done|]. apply (Hcons _ _ _ _ _ true); [|done].
    unfold stepRequest. by rewrite Ep, bind_Ok, Ed.
Qed.

Lemma encode_pos u b : encode u = Ok b → 0 < blen b.
Proof.
  destruct u as [f|resp|req]; cbn [encode].
  - unfold MarshalInterleaved. destruct (_ || _); [done|]. intros <-%Ok_inv. rewrite blen_app. change (blen [36; u8 (Channel f)]) with 2.
    pose proof (blen_nonneg (be16 (u16 (blen (Payload f))) ++ Payload f)). lia.
  - intros (_ & _ & ->)%MarshalResponse_Ok. unfold status_line. rewrite <- app_assoc, blen_app. change (blen (str "RTSP/1.0 ")) with 9.
    match goal with |- context [9 + blen ?l] => pose proof (blen_nonneg l) end. lia.
  - intros (Hm & _ & _ & _ & _ & ->)%MarshalRequest_Ok. unfold request_line. rewrite <- app_assoc, blen_app. pose proof (blen_concat_pos _ Hm).
    match goal with |- context [blen (rq_Method req) + blen ?l] => pose proof (blen_nonneg l) end. lia.
Qed.

Lemma units_rounds w us c b rest : client_ok c → resync (sess c) = 0 → Forall unit_ok us → encode_all us = Ok b → unread c = b ++ rest →
  ∃ s' out c', handle_all w us (sess c) = Ok (s', out) ∧ rounds_to w c out c' ∧ sess c' = s' ∧ client_ok c' ∧ resync s' = 0 ∧
    (closing s' = None → unread c' = rest).
Proof.
  intros Hc Hr Hus. revert c b Hc Hr. induction Hus as [|u us Hu _ IH]; intros c b Hc Hr E Hun.
  { injection E as <-. exists (sess c), [], c. split; [done|]. split; [constructor|]. by split_and!. }
  cbn [encode_all handle_all] in *. destruct (closing (sess c)) eqn:Ho.
  { exists (sess c), [], c. split; [done|]. split; [constructor|]. split_and!; try done. congruence. }
  destruct (encode u) as [b1|e|] eqn:E1; [|done..]. rewrite bind_Ok in E. destruct (encode_all us) as [bs|e|] eqn:E2; [|done..].
  injection E as <-. rewrite <- app_assoc in Hun. pose proof (encode_pos u b1 E1). pose proof (blen_nonneg (bs ++ rest)).
  destruct (readRound_unit w u b1 (bs ++ rest) c Hc Ho Hr Hu E1 Hun) as (s1 & o1 & -> & Er & Hs1 & Hr1). rewrite bind_Ok.
  assert (Hn : 0 ≤ blen b1 ≤ blen (unread c)) by (rewrite Hun, blen_app; lia).
  destruct (IH (advance c (blen b1) s1) bs) as (s2 & o2 & c2 & Eh & R & H2); [by apply advanced_ok|done|done| |].
  { rewrite unread_advance, Hun by done. by apply drop_blen_app. }
  cbn [sess advance] in Eh. rewrite Eh, bind_Ok. exists s2, (o1 ++ o2), c2. split; [done|]. split; [by econstructor|done].
Qed.

Lemma octets_bytes rs : Forall read_on rs → bytes_ok (octets rs).
Proof. intros H. apply Forall_concat, Forall_fmap. eapply Forall_impl; [exact H|]. by intros r [[] _]. Qed.

(** A client at the start of the stream. *)
Definition fresh (s : session) : client := mkClient [] 0 s.
Lemma fresh_ok s : session_ok s → client_ok (fresh s).
Proof. intros Hs. split; [done|done|constructor]. Qed.
Lemma fresh_ahead s b : session_ok s → bytes_ok b → client_ok (mkClient b 0 s) ∧ ahead b (fresh s) (mkClient b 0 s).
Proof.
  intros Hs Hb. assert (H : client_ok (mkClient b 0 s)) by (split; cbn; [done|pose proof (blen_nonneg b); lia|done]). split; [done|]. by split.
Qed.

Definition end_of (s : session) : next := match closing s with Some _ => Exit | None => Fill end.

(** The rounds over the whole stream are what a run does with its reads. *)
Lemma run_of_rounds w rs s out c2 : session_ok s → Forall read_on rs → rounds_to w (mkClient (octets rs) 0 s) out c2 →
  (closing (sess c2) = None → unread c2 = []) → ∃ c', run w rs (fresh s) = Ok (c', out, end_of (sess c2)) ∧ sess c' = sess c2 ∧
    (closing (sess c2) = None → unread c' = []).
Proof.
  intros Hs Hrs R Hend. destruct (fresh_ahead s (octets rs) Hs (octets_bytes rs Hrs)) as [Hc Ha].
  destruct (run_whole w rs (fresh s) (fresh_ok s Hs) Hrs) as (c' & out' & k & E & Hc' & Hall). destruct (Hall _ Ha) as (c3 & Hst & Hss & Hk).
  destruct (rounds_ahead w _ _ _ [] _ R Hc (ahead_refl _ Hc)) as (Hc2 & _).
  assert (Hst2 : stops w (mkClient (octets rs) 0 s) out c2 (end_of (sess c2))).
  { exists c2, out, []. split; [done|]. rewrite app_nil_r. unfold end_of. destruct (closing (sess c2)) as [why|] eqn:Ho.
    - split; [|done]. apply closed_exit. congruence.
    - split; [|done]. unfold readRound. by rewrite Ho, unread_slice, Hend by done. }
  pose proof (stops_unique _ _ _ _ _ _ _ _ Hst Hst2) as Eq. injection Eq as -> -> ->. exists c'. rewrite E. split; [done|]. split; [done|].
  intros Ho. unfold end_of in Hk. rewrite Ho in Hk. destruct Hk as [_ <-]. by apply Hend.
Qed.

(** C21: the network's segmentation is invisible.  Two connections that carry the same octets, cut
    into reads in any two ways (any number of reads of up to 4096 octets, empty ones included),
    call the same callbacks, resolve the same requests and write the same answers in the same
    order, and leave the session in the same state: the tracks, the pending requests, the cause
    of a shutdown, and, while the session lives, the octets not yet parsed. *)
Theorem chunking_irrelevant w rs1 rs2 s : session_ok s → Forall read_on rs1 → Forall read_on rs2 → octets rs1 = octets rs2 →
  ∃ c1 c2 out k, run w rs1 (fresh s) = Ok (c1, out, k) ∧ run w rs2 (fresh s) = Ok (c2, out, k) ∧ sess c1 = sess c2 ∧
    k = end_of (sess c1) ∧ (k = Fill → unread c1 = unread c2).
Proof.
  intros Hs H1 H2 Eo. destruct (fresh_ahead s (octets rs1) Hs (octets_bytes rs1 H1)) as [Hc Ha].
  destruct (run_whole w rs1 (fresh s) (fresh_ok s Hs) H1) as (c1 & o1 & k1 & E1 & _ & A1).
  destruct (run_whole w rs2 (fresh s) (fresh_ok s Hs) H2) as (c2 & o2 & k2 & E2 & _ & A2). rewrite <- Eo in A2.
  destruct (A1 _ Ha) as (d1 & S1 & Q1 & K1). destruct (A2 _ Ha) as (d2 & S2 & Q2 & K2).
  pose proof (stops_unique _ _ _ _ _ _ _ _ S1 S2) as Eq. injection Eq as -> -> ->.
  exists c1, c2, o2, k2. rewrite E1, E2. split_and!; try done; [congruence|unfold end_of|].
  - destruct k2; [done| |].
    + by destruct K1 as [-> _].
    + by destruct (closing (sess c1)).
  - intros ->. destruct K1 as [_ K1], K2 as [_ K2]. congruence.
Qed.

(** ** Resynchronizing *)

(** Handling a unit neither reads nor writes the budget. *)
Lemma handleInterleaved_resync w f z s :
  handleInterleaved w f (set_resync z s) = ('(s', out, u) ← handleInterleaved w f s; mret (set_resync z s', out, u)).
Proof.
  unfold handleInterleaved. cbv zeta. cbn [ticks set_resync channels tracks set_frame_at].
  destruct (lookup_channel _ _) as [b|]; [|done]. destruct (tracks s !! _) as [tr|]; [|done]. destruct (b_isRTCP b).
  - by destruct (lift _) as [[tr' u]|e|].
  - by destruct (lift _) as [[[tr' evs] u]|e|].
Qed.
Lemma dispatchResponse_resync resp z s :
  dispatchResponse resp (set_resync z s) = let '(s', out) := dispatchResponse resp s in (set_resync z s', out).
Proof. unfold dispatchResponse. cbn [pending set_resync]. by destruct (decide _). Qed.
Lemma handleServerRequest_resync w req z s :
  handleServerRequest w req (set_resync z s) = let '(s', out) := handleServerRequest w req s in (set_resync z s', out).
Proof.
  unfold handleServerRequest. cbn [sent set_resync]. destruct (EqualFold _ _).
  - unfold initiateShutdown. cbn. by destruct (closing s).
  - destruct (ok_answer _); [|done..]. destruct (written_ok _ _); [done|]. unfold initiateShutdown. cbn. by destruct (closing s).
Qed.

(** A unit that shows the stream is in step again: any message, or a frame that reached a track
    and that the track could use. *)
Definition genuine (w : world) (u : wire_unit) (s : session) : Prop :=
  match u with UFrame f => ∃ s' out, handleInterleaved w f s = Ok (s', out, true) | _ => True end.

Lemma genuine_bound w f s : genuine w (UFrame f) s → ∃ b, lookup_channel (channels s) (Channel f) = Some b.
Proof. intros (s' & out & H). unfold handleInterleaved in H. cbv zeta in H. cbn in H. destruct (lookup_channel _ _) as [b|]; [by exists b|done]. Qed.

(** Octets no suffix of which starts a unit, with the octets behind them. *)
Definition garbage (g rest : list Z) : Prop := ∀ i, (i < length g)%nat → ClassifyStream (drop i (g ++ rest)) = FrameUnknown.

Lemma advance_advance c n m s1 s2 : advance (advance c n s1) m s2 = advance c (n + m) s2.
Proof. unfold advance. cbn. by rewrite Z.add_assoc. Qed.

Lemma unknown_round w c : client_ok c → closing (sess c) = None → ClassifyStream (unread c) = FrameUnknown →
  readRound w c = (let '(c, k) := resyncOne c in mret (c, [], k)).
Proof. intros Hc Ho E. unfold readRound. by rewrite Ho, unread_slice, bind_Ok, E by done. Qed.

Lemma garbage_rounds w g rest c : client_ok c → closing (sess c) = None → unread c = g ++ rest → garbage g rest →
  resync (sess c) + blen g ≤ maxResyncBytes →
  rounds_to w c [] (advance c (blen g) (set_resync (resync (sess c) + blen g) (sess c))).
Proof.
  revert c. induction g as [|x g IH]; intros c Hc Ho Hu Hg Hm.
  { change (blen []) with 0. unfold advance. rewrite !Z.add_0_r, set_resync_same. destruct c. constructor. }
  pose proof (so_resync _ (cl_sess _ Hc)) as [Hr0 _]. rewrite blen_cons in *. pose proof (blen_nonneg g). pose proof (blen_nonneg rest).
  assert (E : readRound w c = Ok (advance c 1 (set_resync (resync (sess c) + 1) (sess c)), [], Again)).
  { rewrite unknown_round; [|done|done|rewrite Hu; exact (Hg 0%nat ltac:(cbn; lia))]. unfold resyncOne. cbv zeta. cbn [resync set_resync].
    by rewrite (proj2 (Z.ltb_ge _ _)) by lia. }
  change (@nil effect) with (@nil effect ++ []). econstructor; [exact E|]. set (s1 := set_resync _ (sess c)).
  assert (Hs1 : session_ok s1) by (apply resync_ok; [apply Hc|lia]).
  assert (Hlen : 0 ≤ 1 ≤ blen (unread c)) by (rewrite Hu; cbn [app]; rewrite blen_cons, blen_app; lia).
  assert (R : rounds_to w (advance c 1 s1) [] (advance (advance c 1 s1) (blen g) (set_resync (resync s1 + blen g) s1))).
  { apply IH; [by apply advanced_ok|done| | |cbn; lia].
    - rewrite unread_advance, Hu by done. done.
    - intros i Hi. exact (Hg (S i) ltac:(cbn; lia)). }
  rewrite advance_advance in R. cbn [resync s1 set_resync] in R. replace (resync (sess c) + 1 + blen g) with (resync (sess c) + (1 + blen g)) in R by lia.
  exact R.
Qed.

(** A genuine unit ends an episode of garbage, whatever the budget used up. *)
Lemma readRound_genuine w u b rest c z s : client_ok c → sess c = set_resync z s → session_ok s → closing s = None → resync s = 0 → unit_ok u →
  genuine w u s → encode u = Ok b → unread c = b ++ rest →
  ∃ s' out, react w u s = Ok (s', out) ∧ readRound w c = Ok (advance c (blen b) s', out, Again).
Proof.
  intros Hc Esc Hs Ho Hr Hu Hg E Hun. unfold readRound. rewrite Esc. cbn [closing set_resync]. rewrite Ho, unread_slice, bind_Ok, Hun by done.
  assert (Hcons : ∀ step v s' out n, step (b ++ rest) (set_resync z s) = Ok (set_resync z s', out, n, true) → handled s s' →
    (v = false → gateResyncFrame (b ++ rest) (set_resync z s) = resyncAccept) → consume step v c = Ok (advance c n s', out, Again)).
  { intros step v s' out n Es (Hs' & Hr' & _) Hgate. rewrite consume_eq by done. unfold consume_at. rewrite Hun, Esc. cbv zeta. rewrite Es.
    assert (Hz : set_resync 0 (set_resync z s') = s') by (rewrite Hr in Hr'; rewrite <- Hr'; by destruct s'). rewrite orb_true_r, Hz.
    destruct (_ && _) eqn:Ev; [|done]. rewrite Hgate; [done|]. by destruct v; [rewrite andb_false_r in Ev|]. }
  destruct u as [f|resp|req]; cbn [encode unit_ok react] in *.
  - destruct (ParseInterleaved_text (Channel f) (Payload f) b rest E) as [Ep ->].
    assert (Hf : mkInterleaved (Channel f) (Payload f) = f) by by destruct f. rewrite Hf in Ep.
    destruct (genuine_bound w f s Hg) as (bd & Hbd).
    assert (Hd : datagram_ok (Payload f) ∧ ∃ l, b ++ rest = 36 :: Channel f :: l).
    { unfold MarshalInterleaved in E. destruct (_ || (MaxInterleavedFrame <? _)) eqn:El; [done|]. apply Ok_inv in E as <-. breflect.
      rewrite u8_small by (unfold is_u8; lia). split; [split; [done|unfold MaxInterleavedFrame in *; lia]|]. by eexists. }
    destruct Hd as [Hd [l El]]. destruct (handleInterleaved_ok w f s Hs Hd) as (s' & out & u0 & Eh & Hh).
    destruct Hg as (s'' & out' & Eg). rewrite Eh in Eg. injection Eg as <- <- ->. rewrite Eh, bind_Ok. exists s', out. split; [done|].
    apply (Hcons (stepInterleaved w)); [|done|].
    + unfold stepInterleaved. by rewrite Ep, bind_Ok, handleInterleaved_resync, Eh, !bind_Ok.
    + intros _. rewrite El. cbn [gateResyncFrame channels set_resync]. by rewrite Hbd.
  - destruct (ParseResponse_text resp b rest Hu E) as [Ep ->]. pose proof (dispatchResponse_ok (response_received resp) _ Hs) as Hh.
    destruct (dispatchResponse _ s) as [s' out] eqn:Ed. exists s', out. split; [done|]. apply Hcons; [|done|done].
    unfold stepResponse. by rewrite Ep, bind_Ok, dispatchResponse_resync, Ed.
  - destruct Hu as [Hq Hm]. pose proof (ParseRequest_text req b rest Hq E) as Ep. rewrite (Classify_request req b rest E Hm).
    pose proof (handleServerRequest_ok w (request_received req) _ Hs) as Hh.
    destruct (handleServerRequest _ _ s) as [s' out] eqn:Ed. exists s', out. split; [done|]. apply Hcons; [|done|done].
    unfold stepRequest. by rewrite Ep, bind_Ok, handleServerRequest_resync, Ed.
Qed.

Lemma garbage_recovers w g rs s u us b bs : session_ok s → resync s = 0 → closing s = None → Forall read_on rs →
  blen g ≤ maxResyncBytes → unit_ok u → genuine w u s → Forall unit_ok us → encode u = Ok b → encode_all us = Ok bs →
  garbage g (b ++ bs) → octets rs = g ++ b ++ bs →
  ∃ s' out c', handle_all w (u :: us) s = Ok (s', out) ∧ run w rs (fresh s) = Ok (c', out, end_of s') ∧ sess c' = s' ∧
    (closing s' = None → unread c' = []).
Proof.
  intros Hs Hr Ho Hrs Hl Hu Hg Hus E Es Hgar Eo. pose proof (blen_nonneg g). pose proof (blen_nonneg (b ++ bs)).
  destruct (fresh_ahead s (octets rs) Hs (octets_bytes rs Hrs)) as [Hc _]. set (c := mkClient (octets rs) 0 s) in *.
  assert (R1 : rounds_to w c [] (advance c (blen g) (set_resync (blen g) s))).
  { pose proof (garbage_rounds w g (b ++ bs) c Hc Ho Eo Hgar) as R. cbn [sess c] in R. rewrite Hr, Z.add_0_l in R. by apply R. }
  assert (Hn : 0 ≤ blen g ≤ blen (unread c)) by (change (unread c) with (octets rs); rewrite Eo, blen_app; lia).
  assert (Hc1 : client_ok (advance c (blen g) (set_resync (blen g) s))) by (apply advanced_ok; [done|done|by apply resync_ok]).
  assert (U1 : unread (advance c (blen g) (set_resync (blen g) s)) = b ++ bs).
  { rewrite unread_advance by done. change (unread c) with (octets rs). rewrite Eo. by apply drop_blen_app. }
  destruct (readRound_genuine w u b bs _ (blen g) s Hc1 eq_refl Hs Ho Hr Hu Hg E U1) as (s1 & o1 & Er & Eq).
  rewrite advance_advance in Eq.
  destruct (readRound_unit w u b bs (mkClient (b ++ bs) 0 s)) as (s1' & o1' & Er' & _ & Hs1 & Hr1); try done.
  { split; cbn; [done|pose proof (blen_nonneg (b ++ bs)); lia|]. pose proof (octets_bytes rs Hrs) as Hb. rewrite Eo in Hb. by apply Forall_app in Hb as [_ Hb]. }
  cbn [sess] in Er'. rewrite Er in Er'. injection Er' as <- <-.
  assert (Hn2 : 0 ≤ blen g + blen b ≤ blen (unread c)).
  { change (unread c) with (octets rs). rewrite Eo, !blen_app. pose proof (blen_nonneg b). pose proof (blen_nonneg bs). lia. }
  destruct (units_rounds w us (advance c (blen g + blen b) s1) bs []) as (s2 & o2 & c2 & Eh & R2 & Es2 & _ & _ & Hend); try done.
  { by apply advanced_ok. }
  { rewrite unread_advance, app_nil_r by done. change (unread c) with (octets rs). rewrite Eo, app_assoc. apply drop_blen_app. by rewrite blen_app. }
  cbn [handle_all]. rewrite Ho, Er, bind_Ok. cbn [sess advance] in Eh. rewrite Eh, bind_Ok. subst s2.
  assert (R : rounds_to w c (o1 ++ o2) c2).
  { rewrite <- (app_nil_l (o1 ++ o2)). eapply rounds_trans; [exact R1|]. econstructor; [exact Eq|exact R2]. }
  destruct (run_of_rounds w rs s _ c2 Hs Hrs R Hend) as (c' & E1 & E2 & E3). by exists (sess c2), (o1 ++ o2), c'.
Qed.

Lemma garbage_ends w g rs s rest : session_ok s → resync s = 0 → closing s = None → Forall read_on rs →
  maxResyncBytes < blen g → garbage g rest → octets rs = g ++ rest →
  ∃ c', run w rs (fresh s) = Ok (c', [], Exit) ∧ closing (sess c') = Some ResyncExceeded ∧ tracks (sess c') = tracks s.
Proof.
  intros Hs Hr Ho Hrs Hl Hgar Eo. set (g1 := take (Z.to_nat maxResyncBytes) g). set (g2 := drop (Z.to_nat maxResyncBytes) g).
  destruct (fresh_ahead s (octets rs) Hs (octets_bytes rs Hrs)) as [Hc _]. set (c := mkClient (octets rs) 0 s) in *.
  assert (Eg : g = g1 ++ g2) by (symmetry; apply take_drop). assert (L1 : blen g1 = maxResyncBytes) by (apply blen_take; unfold maxResyncBytes in *; lia).
  assert (Lg : 0 < blen g2) by (unfold g2; rewrite blen_drop by (unfold maxResyncBytes in *; lia); lia).
  assert (R1 : rounds_to w c [] (advance c (blen g1) (set_resync (blen g1) s))).
  { pose proof (garbage_rounds w g1 (g2 ++ rest) c Hc Ho) as R. cbn [sess c] in R. rewrite Hr, Z.add_0_l in R. apply R.
    - change (unread c) with (octets rs). by rewrite Eo, Eg, <- app_assoc.
    - intros i Hi. rewrite app_assoc, <- Eg. apply Hgar. rewrite Eg, length_app. lia.
    - by rewrite L1. }
  pose proof (blen_nonneg rest). assert (Hn : 0 ≤ blen g1 ≤ blen (unread c)).
  { change (unread c) with (octets rs). rewrite Eo, Eg, !blen_app. pose proof (blen_nonneg g1). lia. }
  set (c1 := advance c (blen g1) (set_resync (blen g1) s)) in *.
  assert (Hc1 : client_ok c1) by (apply advanced_ok; [done|done|apply resync_ok; [done|rewrite L1; unfold maxResyncBytes; lia]]).
  assert (Hu1 : ClassifyStream (unread c1) = FrameUnknown).
  { unfold c1. rewrite unread_advance by done. change (unread c) with (octets rs). rewrite Eo. apply Hgar. unfold blen in *. rewrite Eg, length_app. lia. }
  assert (Ex : readRound w c1 = Ok (mkClient (octets rs) (start c1) (initiateShutdown ResyncExceeded (set_resync (blen g1 + 1) s)), [], Exit)).
  { rewrite unknown_round by done. unfold resyncOne, c1. cbv zeta. cbn [resync set_resync sess advance]. by rewrite (proj2 (Z.ltb_lt _ _)) by lia. }
  assert (Hsd : initiateShutdown ResyncExceeded (set_resync (blen g1 + 1) s) = set_closing ResyncExceeded (set_resync (blen g1 + 1) s))
    by (unfold initiateShutdown; cbn; by rewrite Ho).
  rewrite Hsd in Ex. destruct (run_whole w rs (fresh s) (fresh_ok s Hs) Hrs) as (c' & out & k & E & _ & Hall).
  destruct (Hall c) as (d & Hst & Es & _); [by apply fresh_ahead; [|apply octets_bytes]|].
  assert (Hst2 : stops w c [] (mkClient (octets rs) (start c1) (set_closing ResyncExceeded (set_resync (blen g1 + 1) s))) Exit)
    by by exists c1, [], [].
  pose proof (stops_unique _ _ _ _ _ _ _ _ Hst Hst2) as Eq. injection Eq as -> -> ->. exists c'. rewrite E, <- Es. done.
Qed.

(** The resynchronization budget.  Octets that start no unit, up to 4096 of them (a frame or a
    message torn off, a server's stray output), cost nothing but themselves: once a unit that
    proves itself follows, any message, or a frame on a bound channel that its track can use,
    this unit and all the units behind it are handled exactly as if the garbage had not been
    there, with the whole budget restored.  More than 4096 such octets in a row end the session
    with a framing error, and nothing is handled. *)
Theorem resync_budget w g rs s : session_ok s → resync s = 0 → closing s = None → Forall read_on rs →
  (∀ u us b bs, blen g ≤ maxResyncBytes → unit_ok u → genuine w u s → Forall unit_ok us → encode u = Ok b → encode_all us = Ok bs →
    garbage g (b ++ bs) → octets rs = g ++ b ++ bs →
    ∃ s' out c', handle_all w (u :: us) s = Ok (s', out) ∧ run w rs (fresh s) = Ok (c', out, end_of s') ∧ sess c' = s' ∧
      (closing s' = None → unread c' = [])) ∧
  (∀ rest, maxResyncBytes < blen g → garbage g rest → octets rs = g ++ rest →
    ∃ c', run w rs (fresh s) = Ok (c', [], Exit) ∧ closing (sess c') = Some ResyncExceeded ∧ tracks (sess c') = tracks s).
Proof. intros; split; intros; [by apply (garbage_recovers w g rs s u us b bs)|by apply (garbage_ends w g rs s rest)]. Qed.

(** ** Safety *)
Definition never_full (s : session) : Prop := closing s ≠ Some ErrBufferFull.

Lemma shutdown_never_full why s : why ≠ ErrBufferFull → never_full s → never_full (initiateShutdown why s).
Proof. unfold never_full, initiateShutdown. intros Hw Hs. destruct (closing s) eqn:E; cbn; congruence. Qed.

Definition keeps_cause (step : stepFunc) : Prop := ∀ buf s s' out n u, step buf s = Ok (s', out, n, u) → never_full s → never_full s'.

Lemma stepInterleaved_cause w : keeps_cause (stepInterleaved w).
Proof.
  intros buf s s' out n u. unfold stepInterleaved. destruct (ParseInterleaved buf) as [[f k]|e|]; [|done..]. rewrite bind_Ok.
  unfold handleInterleaved. cbv zeta. cbn [channels tracks set_frame_at].
  destruct (lookup_channel _ _) as [b|]; [|by intros [= <- _ _ _]]. destruct (tracks s !! _) as [tr|]; [|done]. destruct (b_isRTCP b).
  - destruct (lift _) as [[tr' u']|e|]; [|done..]. by intros [= <- _ _ _].
  - destruct (lift _) as [[[tr' evs] u']|e|]; [|done..]. by intros [= <- _ _ _].
Qed.
Lemma stepResponse_cause : keeps_cause stepResponse.
Proof.
  intros buf s s' out n u. unfold stepResponse. destruct (ParseResponse buf) as [[r k]|e|]; [|done..]. rewrite bind_Ok.
  unfold dispatchResponse. destruct (decide _); by intros [= <- _ _ _].
Qed.
Lemma stepRequest_cause w : keeps_cause (stepRequest w).
Proof.
  intros buf s s' out n u. unfold stepRequest. destruct (ParseRequest buf) as [[r k]|e|]; [|done..]. rewrite bind_Ok.
  unfold handleServerRequest. destruct (EqualFold _ _); [intros [= <- _ _ _]; by apply shutdown_never_full|].
  destruct (ok_answer _); [|by intros [= <- _ _ _]..]. destruct (written_ok _ _); intros [= <- _ _ _]; [done|].
  intros Hn. by apply (shutdown_never_full ErrConnectionClosed (set_sent s)).
Qed.

Lemma resyncOne_cause c : never_full (sess c) → never_full (sess (resyncOne c).1).
Proof. intros H. unfold resyncOne. cbv zeta. destruct (_ <? _); [|done]. cbn. by apply shutdown_never_full. Qed.

Lemma consume_cause step v c c' out k : keeps_cause step → consume step v c = Ok (c', out, k) → never_full (sess c) → never_full (sess c').
Proof.
  intros Hk. unfold consume. destruct (slice_from _ _) as [buf|e|]; [|done..]. rewrite bind_Ok. cbv zeta. pose proof (resyncOne_cause c) as Hr.
  set (gate := if (_ && _) then _ else _). destruct (resyncOne c) as [c1 k1]. intros E Hn.
  assert (Hstep : match step buf (sess c) with
    | Panic => Panic | Err ErrIncomplete => mret (c, [], Fill)
    | Err e => if 0 <? resync (sess c) then mret (c1, [], k1) else mret (with_sess (initiateShutdown (FramingError e) (sess c)) c, [], Exit)
    | Ok (s, out, n, usable) => mret (mkClient (rbuf c) (start c + n)
        (if negb (match gate with Some _ => true | None => false end) || usable then set_resync 0 s else s), out, Again)
    end = Ok (E:=no_err) (c', out, k) → never_full (sess c')).
  { destruct (step buf (sess c)) as [[[[s o] n] u]|e|] eqn:Es; [| |done].
    - intros [= <- _ _]. pose proof (Hk _ _ _ _ _ _ Es Hn). cbn. by destruct (_ || u).
    - destruct (decide (e = ErrIncomplete)) as [->|He]; [by intros [= <- _ _]|]. intros Ee.
      assert (Ee2 : (if 0 <? resync (sess c) then mret (c1, [], k1) else mret (with_sess (initiateShutdown (FramingError e) (sess c)) c, [], Exit))
        = Ok (E:=no_err) (c', out, k)) by by destruct e.
      destruct (0 <? _); injection Ee2 as <- _ _; [by apply Hr|]. by apply shutdown_never_full. }
  destruct gate as [[| |]|]; [exact (Hstep E)|by injection E as <- _ _|injection E as <- _ _; by apply Hr|exact (Hstep E)].
Qed.

Lemma readRound_cause w c c' out k : readRound w c = Ok (c', out, k) → never_full (sess c) → never_full (sess c').
Proof.
  unfold readRound. destruct (closing (sess c)); [by intros [= <- _ _]|]. destruct (slice_from _ _) as [buf|e|]; [|done..]. rewrite bind_Ok.
  destruct (ClassifyStream buf).
  - by intros [= <- _ _].
  - apply consume_cause, stepInterleaved_cause.
  - apply consume_cause, stepResponse_cause.
  - apply consume_cause, stepRequest_cause.
  - pose proof (resyncOne_cause c) as Hr. destruct (resyncOne c) as [c1 k1]. intros [= <- _ _]. exact Hr.
Qed.

Lemma stops_cause w c out c' k : stops w c out c' k → never_full (sess c) → never_full (sess c').
Proof.
  intros (c1 & o1 & o2 & R & E & _ & _) Hn. apply (readRound_cause _ _ _ _ _ E). clear E. induction R as [|c c1 c2 o o' E R IH]; [done|].
  apply IH. by apply (readRound_cause _ _ _ _ _ E).
Qed.

Lemma round_rbuf w c c' out k : client_ok c → readRound w c = Ok (c', out, k) → rbuf c' = rbuf c.
Proof.
  intros Hc E. destruct (closing (sess c)) eqn:Ho; [rewrite closed_exit in E by congruence; by injection E as <- _ _|].
  destruct (readRound_settled w c Hc Ho) as (c1 & o & k1 & E1 & Hk). rewrite E in E1. injection E1 as <- <- <-.
  destruct k; [by destruct Hk as ((n & -> & _) & _)|by destruct Hk as (-> & _)|by destruct Hk as (-> & _)].
Qed.
Lemma stops_rbuf w c out c' k : client_ok c → stops w c out c' k → rbuf c' = rbuf c.
Proof.
  intros Hc (c1 & o1 & o2 & R & E & _ & _). destruct (rounds_ahead w c o1 c1 [] c R Hc (ahead_refl c Hc)) as (Hc1 & _).
  rewrite (round_rbuf w c1 _ _ _ Hc1 E). clear E Hc1. induction R as [|c c1 c2 o o' E R IH]; [done|].
  rewrite <- (round_rbuf w c _ _ _ Hc E). apply IH. by destruct (rounds_ahead w c _ c1 [] c (rounds_more w c c1 c1 o [] E (rounds_done w c1)) Hc (ahead_refl c Hc)).
Qed.

(** ** What a run leaves alone *)
Lemma resync_framed z s : framed s (set_resync z s).
Proof. by split. Qed.
Lemma resyncOne_framed c : framed (sess c) (sess (resyncOne c).1).
Proof. unfold resyncOne. cbv zeta. destruct (_ <? _); [|by split]. etrans; [apply (resync_framed (resync (sess c) + 1))|apply shutdown_framed]. Qed.

Lemma consume_framed step v c c' out k `{!StreamStep step} : client_ok c → unread c ≠ [] → consume step v c = Ok (c', out, k) → framed (sess c) (sess c').
Proof.
  intros Hc Hne. rewrite consume_eq by done. unfold consume_at. cbv zeta. pose proof (resyncOne_framed c) as Hr.
  set (gate := if (_ && _) then _ else _). destruct (resyncOne c) as [c1 k1]. intros E.
  pose proof (step_settled (unread c) [] (sess c) Hne (unread_bytes c Hc) (cl_sess _ Hc)) as Hst. unfold step_answer in Hst.
  assert (Hstep : match step (unread c) (sess c) with
    | Panic => Panic | Err ErrIncomplete => mret (c, [], Fill)
    | Err e => if 0 <? resync (sess c) then mret (c1, [], k1) else mret (with_sess (initiateShutdown (FramingError e) (sess c)) c, [], Exit)
    | Ok (s, out, n, usable) => mret (advance c n
        (if negb (match gate with Some _ => true | None => false end) || usable then set_resync 0 s else s), out, Again)
    end = Ok (E:=no_err) (c', out, k) → framed (sess c) (sess c')).
  { clear E. destruct (step (unread c) (sess c)) as [[[[s o] n] u]|e|] eqn:Es; [| |done].
    - intros [= <- _ _]. destruct Hst as (_ & _ & _ & _ & Hf). cbn. destruct (_ || u); [|done]. etrans; [exact Hf|apply resync_framed].
    - destruct (decide (e = ErrIncomplete)) as [->|He]; [by intros [= <- _ _]|]. intros Ee.
      assert (Ee2 : (if 0 <? resync (sess c) then mret (c1, [], k1) else mret (with_sess (initiateShutdown (FramingError e) (sess c)) c, [], Exit))
        = Ok (E:=no_err) (c', out, k)) by by destruct e.
      destruct (0 <? _); injection Ee2 as <- _ _; [exact Hr|]. apply shutdown_framed. }
  destruct gate as [[| |]|]; [exact (Hstep E)|by injection E as <- _ _|injection E as <- _ _; exact Hr|exact (Hstep E)].
Qed.

Lemma readRound_framed w c c' out k : client_ok c → readRound w c = Ok (c', out, k) → framed (sess c) (sess c').
Proof.
  intros Hc. unfold readRound. destruct (closing (sess c)); [by intros [= <- _ _]|]. rewrite unread_slice, bind_Ok by done.
  destruct (decide (unread c = [])) as [->|Hne]; [by intros [= <- _ _]|]. destruct (ClassifyStream (unread c)).
  - by intros [= <- _ _].
  - by apply consume_framed; [apply _|..].
  - by apply consume_framed; [apply _|..].
  - by apply consume_framed; [apply _|..].
  - pose proof (resyncOne_framed c) as Hr. destruct (resyncOne c) as [c1 k1]. intros [= <- _ _]. exact Hr.
Qed.

Lemma stops_framed w c out c' k : client_ok c → stops w c out c' k → framed (sess c) (sess c').
Proof.
  intros Hc (c1 & o1 & o2 & R & E & _ & _). etrans; [|eapply readRound_framed; [|exact E]; by destruct (rounds_ahead w c _ c1 [] c R Hc (ahead_refl c Hc))].
  clear E. induction R as [c|c c1 c2 o o' E R IH]; [reflexivity|]. etrans; [by eapply readRound_framed|]. apply IH.
  by destruct (rounds_ahead w c _ c1 [] c (rounds_more w c c1 c1 o [] E (rounds_done w c1)) Hc (ahead_refl c Hc)).
Qed.

(** A run over any reads comes to an end, in a well-formed client. *)
Lemma run_ok w rs c : client_ok c → Forall read_ok rs →
  ∃ c' out k, run w rs c = Ok (c', out, k) ∧ client_ok c' ∧ k = end_of (sess c') ∧ framed (sess c) (sess c').
Proof.
  intros Hc Hrs. revert c Hc. induction Hrs as [|r rs Hr _ IH]; intros c Hc; rewrite run_unfold;
    destruct (readLoop_stops w c _ Hc (rounds_enough c Hc)) as (c1 & out & k & -> & Hst & Hc1 & Hk); rewrite bind_Ok;
    pose proof (stops_framed _ _ _ _ _ Hc Hst) as Hf1;
    assert (He : k = end_of (sess c1)) by (unfold end_of; destruct k; [done|by destruct Hk as [-> _]|by destruct (closing (sess c1))]).
  { exists c1, out, k. split; [by destruct k|]. by split_and!. }
  destruct k; [done| |exists c1, out, Exit; by split_and!]. destruct Hk as [Ho Hu].
  destruct (fill_ok r c1 Hc1 Hr Hu) as (c2 & E & Hc2 & _ & Es2 & _ & _). unfold fillMore. rewrite E, bind_Ok.
  destruct (match rd_data r with [] => ReadErr <$> rd_err r | _ => None end) as [[|tmo]|] eqn:Er.
  - by destruct (rd_data r), (rd_err r).
  - eexists _, _, Exit. split; [done|]. split; [destruct Hc2; split; [by apply shutdown_ok|done|done]|].
    split; [unfold end_of; cbn [sess with_sess]; by destruct (closing (initiateShutdown _ _)) eqn:Ec; [|by apply shutdown_closed in Ec]|].
    cbn [sess with_sess]. etrans; [exact Hf1|]. rewrite <- Es2. apply shutdown_framed.
  - rewrite bind_ret. destruct (IH c2 Hc2) as (c3 & o3 & k3 & -> & H3 & H4 & H5). rewrite bind_Ok. exists c3, (out ++ o3), k3.
    split_and!; try done. etrans; [exact Hf1|]. by rewrite <- Es2.
Qed.

(** C22: nothing the server sends breaks the reader.  Whatever the reads of the connection return,
    octets of any value in any segmentation, time-outs and errors included, the loop never panics
    and comes to its next read or to its end after finitely many rounds; the tracks stay well
    formed and the routing table bound to them; the buffer stays below 196608 + 4096 octets; the
    loop ends exactly when a terminal cause is recorded; and that cause is never the buffer's
    limit, which no stream of octets can reach: a unit that is still incomplete is shorter. *)
Theorem reader_safe w rs s : session_ok s → closing s ≠ Some ErrBufferFull → Forall read_ok rs →
  ∃ c' out k, run w rs (fresh s) = Ok (c', out, k) ∧ session_ok (sess c') ∧ 0 ≤ start c' ≤ blen (rbuf c') ∧ blen (rbuf c') < maxReadBuffer + readChunk ∧
    k = end_of (sess c') ∧ closing (sess c') ≠ Some ErrBufferFull.
Proof.
  intros Hs Hn Hrs. assert (H : ∀ c, client_ok c → blen (rbuf c) < maxReadBuffer + readChunk → never_full (sess c) →
    ∃ c' out k, run w rs c = Ok (c', out, k) ∧ client_ok c' ∧ blen (rbuf c') < maxReadBuffer + readChunk ∧ k = end_of (sess c') ∧ never_full (sess c')).
  { clear s Hs Hn. induction Hrs as [|r rs Hr _ IH]; intros c Hc Hl Hn; rewrite run_unfold;
      destruct (readLoop_stops w c _ Hc (rounds_enough c Hc)) as (c1 & out & k & -> & Hst & Hc1 & Hk); rewrite bind_Ok;
      pose proof (stops_cause _ _ _ _ _ Hst Hn) as Hn1; pose proof (stops_rbuf _ _ _ _ _ Hc Hst) as Hl1;
      assert (He : k = end_of (sess c1)) by (unfold end_of; destruct k; [done|by destruct Hk as [-> _]|by destruct (closing (sess c1))]).
    - exists c1, out, k. rewrite Hl1. split; [by destruct k|]. by split_and!.
    - destruct k; [done| |exists c1, out, Exit; rewrite Hl1; by split_and!].
      destruct Hk as [Ho Hu]. destruct (fill_ok r c1 Hc1 Hr Hu) as (c2 & E & Hc2 & _ & Es2 & _ & Hl2). unfold fillMore. rewrite E, bind_Ok.
      destruct (match rd_data r with [] => ReadErr <$> rd_err r | _ => None end) as [[|tmo]|] eqn:Er.
      + by destruct (rd_data r), (rd_err r).
      + assert (Hs2 : closing (initiateShutdown (classifyReadErr tmo (sess c2)) (sess c2)) ≠ None) by apply shutdown_closed.
        eexists _, _, Exit. split; [done|]. split.
        { destruct Hc2 as [H1 H2 H3]. split; [by apply shutdown_ok|done|done]. }
        split; [done|]. cbn [sess with_sess]. split; [unfold end_of; by destruct (closing (initiateShutdown _ _))|].
        apply shutdown_never_full; [|by rewrite Es2]. unfold classifyReadErr. rewrite Es2, Ho. by destruct (_ && _).
      + rewrite bind_ret. destruct (IH c2 Hc2 Hl2) as (c3 & o3 & k3 & -> & H3); [by rewrite Es2|]. rewrite bind_Ok. by exists c3, (out ++ o3), k3. }
  destruct (H (fresh s) (fresh_ok s Hs)) as (c' & out & k & E & [H1 H2 _] & H3 & H4 & H5); [done|done|].
  exists c', out, k. split_and!; try done; lia.
Qed.

(** ** A session

    An Opus track on channels 0 and 1, a caller waiting on request 7.  The server answers it, sends
    two packets (one on a channel nobody has), asks for the client's options and tears down; what
    it sends behind is ignored. *)
Definition sample_session : session :=
  mkSession (Some (newChannelTable None 0 0 1)) [sample_track] 0 {[7]} None false 0 0 0.
Definition sample_world : world := mkWorld (λ _, sample_now) (λ _, true) (mkCallbacks true false).
Definition sample_options : Request := mkRequest (str "OPTIONS") (str "*") 9 ∅ [].
Definition sample_teardown : Request := mkRequest (str "TEARDOWN") (str "*") 10 ∅ [].
Definition sample_units : list wire_unit :=
  [UResponse sample_response; UFrame (mkInterleaved 0 (sample_datagram 7 5)); UFrame (mkInterleaved 4 [1]);
   URequest sample_options; URequest sample_teardown; UFrame (mkInterleaved 0 (sample_datagram 8 6))].
Definition sample_octets : list Z := Eval vm_compute in match encode_all sample_units with Ok b => b | _ => [] end.

Lemma sample_session_ok : session_ok sample_session.
Proof.
  split.
  - apply Forall_singleton. destruct (newTrack_ok 3 sample_desc (mkOptions false 0) 1 sample_desc_ok) as (t & E & Ht & _).
    rewrite sample_track_new in E. injection E as <-. exact Ht.
  - intros t ch b [= <-] Hb. unfold newChannelTable in Hb. cbn [tracks sample_session length].
    destruct (decide (1 = ch)) as [<-|H1]; [rewrite lookup_insert_eq in Hb; injection Hb as <-; cbn; lia|].
    rewrite lookup_insert_ne in Hb by done. destruct (decide (0 = ch)) as [<-|H0]; [rewrite lookup_insert_eq in Hb; injection Hb as <-; cbn; lia|].
    rewrite lookup_insert_ne in Hb by done. by rewrite lookup_empty in Hb.
  - split; [cbn; lia|]. intros _. cbn. unfold maxResyncBytes. lia.
Qed.

Lemma sample_plain_ok first cseq : first ≠ [] ∧ clean first → int64 cseq → blen first ≤ 100 → message_ok first ∅ cseq [].
Proof.
  intros Hf Hc Hl. pose proof (Itoa_length cseq).
  assert (Ea : all_fields ∅ cseq (blen (@nil Z)) = [(nCSeq, Itoa cseq)]).
  { unfold all_fields. assert (Ef : fields_of ∅ = []) by (vm_compute; reflexivity). by rewrite Ef. }
  split; [done| |done|by vm_compute| |].
  - apply map_Forall_empty.
  - by rewrite Ea.
  - unfold head_lines. rewrite Ea. unfold text. cbn [fmap list_fmap concat]. unfold field_text, nCSeq. cbn [fst snd].
    rewrite !blen_app. change (blen (str "CSeq")) with 4. change (blen (str ": ")) with 2. change (blen (@nil Z)) with 0. change (blen CRLF) with 2. unfold MaxHeaderBytes. lia.
Qed.

Lemma sample_units_ok : Forall unit_ok sample_units.
Proof.
  assert (Hq : ∀ req, rq_Header req = ∅ → rq_Body req = [] → int64 (rq_CSeq req) → blen (request_line req) ≤ 100 →
    bool_decide (request_line req ≠ [] ∧ (13 ∉ request_line req) ∧ (10 ∉ request_line req) ∧ (32 ∉ rq_Method req) ∧ take 2 (rq_Method req) ∈ method_prefixes) = true →
    unit_ok (URequest req)).
  { intros req Eh Eb Hc Hl (Hne & H13 & H10 & H32 & Hm)%bool_decide_eq_true. split; [|done]. split; [|done]. rewrite Eh, Eb. by apply sample_plain_ok. }
  assert (Hf : ∀ ch p, bool_decide (Forall is_u8 p) = true → unit_ok (UFrame (mkInterleaved ch p))) by (intros ch p; apply bool_decide_eq_true).
  assert (Hi : int64 9 ∧ int64 10) by (by repeat split).
  constructor; [exact sample_response_ok|]. constructor; [by apply Hf; vm_compute|]. constructor; [by apply Hf; vm_compute|].
  constructor; [by apply Hq; try apply Hi; vm_compute|]. constructor; [by apply Hq; try apply Hi; vm_compute|].
  constructor; [by apply Hf; vm_compute|constructor].
Qed.

Definition whole (b : list Z) : list read := [mkRead b None].
Definition one_by_one (b : list Z) : list read := (λ x, mkRead [x] None) <$> b.

Lemma sample_octets_bytes : bytes_ok sample_octets.
Proof. apply (bool_decide_unpack (Forall is_u8 sample_octets)). vm_compute. exact I. Qed.

Lemma whole_on b : bytes_ok b → blen b ≤ readChunk → Forall read_on (whole b).
Proof. intros Hb Hl. by repeat constructor. Qed.
Lemma one_by_one_on b : bytes_ok b → Forall read_on (one_by_one b).
Proof. intros Hb. apply Forall_fmap. eapply Forall_impl; [exact Hb|]. intros x Hx. by repeat constructor; try apply Hx. Qed.
Lemma octets_one_by_one b : octets (one_by_one b) = b.
Proof. unfold octets, one_by_one. induction b as [|x b IH]; [done|]. cbn. f_equal. exact IH. Qed.
Lemma octets_whole b : octets (whole b) = b.
Proof. unfold octets. cbn. apply app_nil_r. Qed.

Definition brief (out : list effect) : list (Z * Z) :=
  (λ e, match e with Callback i _ => (0, Z.of_nat i) | Resolve r => (1, rs_CSeq r) | Write raw => (2, blen raw) end) <$> out.

Example sample_session_run :
  ('(c, out, k) ← run sample_world (one_by_one sample_octets) (fresh sample_session);
   mret (brief out, k, closing (sess c), bool_decide (pending (sess c) = ∅)))
  = Ok ([(1, 7); (0, 0); (2, 28)], Exit, Some ErrServerTeardown, true).
Proof. vm_compute. reflexivity. Qed.

Lemma chunking_irrelevant_witness : session_ok sample_session ∧ Forall read_on (whole sample_octets) ∧ Forall read_on (one_by_one sample_octets) ∧
  ∃ c1 c2 out k, run sample_world (whole sample_octets) (fresh sample_session) = Ok (c1, out, k) ∧
    run sample_world (one_by_one sample_octets) (fresh sample_session) = Ok (c2, out, k) ∧ sess c1 = sess c2.
Proof.
  assert (H1 : Forall read_on (whole sample_octets)) by (apply whole_on; [exact sample_octets_bytes|by vm_compute]).
  assert (H2 : Forall read_on (one_by_one sample_octets)) by (apply one_by_one_on, sample_octets_bytes).
  split; [exact sample_session_ok|]. split; [exact H1|]. split; [exact H2|].
  destruct (chunking_irrelevant sample_world _ _ _ sample_session_ok H1 H2) as (c1 & c2 & out & k & E1 & E2 & Es & _).
  { by rewrite octets_whole, octets_one_by_one. }
  exists c1, c2, out, k. split; [exact E1|]. split; [exact E2|exact Es].
Defined.

Lemma sample_encoded : encode_all sample_units = Ok sample_octets.
Proof. vm_compute. reflexivity. Qed.

(** Three octets that start nothing, then the session. *)
Definition sample_garbage : list Z := [0; 255; 82].
Lemma sample_garbage_ok : garbage sample_garbage sample_octets.
Proof. intros [|[|[|i]]] Hi; [reflexivity..|]. cbn in Hi. lia. Qed.

Lemma resync_budget_witness : garbage sample_garbage sample_octets ∧
  ∃ s' out c', handle_all sample_world sample_units sample_session = Ok (s', out) ∧
    run sample_world (one_by_one (sample_garbage ++ sample_octets)) (fresh sample_session) = Ok (c', out, end_of s') ∧ sess c' = s'.
Proof.
  split; [exact sample_garbage_ok|].
  assert (Hb : bytes_ok (sample_garbage ++ sample_octets)).
  { apply Forall_app_2; [apply (bool_decide_unpack (Forall is_u8 sample_garbage)); vm_compute; exact I|exact sample_octets_bytes]. }
  destruct (resync_budget sample_world sample_garbage (one_by_one (sample_garbage ++ sample_octets)) sample_session sample_session_ok
    eq_refl eq_refl (one_by_one_on _ Hb)) as [Hrec _].
  destruct (encode_all (tail sample_units)) as [bs|e|] eqn:Es; [|vm_compute in Es; discriminate Es..].
  assert (Eb : sample_response_text ++ bs = sample_octets).
  { pose proof sample_encoded as E. change (encode_all sample_units) with
      (b ← encode (UResponse sample_response); bs ← encode_all (tail sample_units); mret (b ++ bs)) in E. rewrite Es in E.
    assert (E1 : encode (UResponse sample_response) = Ok sample_response_text) by (vm_compute; reflexivity). rewrite E1, !bind_Ok in E. by apply Ok_inv in E. }
  destruct (Hrec (UResponse sample_response) (tail sample_units) sample_response_text bs) as (s' & out & c' & Eh & Er & Ess & _).
  - by vm_compute.
  - exact sample_response_ok.
  - exact I.
  - exact (Forall_inv_tail sample_units_ok).
  - vm_compute. reflexivity.
  - exact Es.
  - rewrite Eb. exact sample_garbage_ok.
  - by rewrite octets_one_by_one, Eb.
  - exists s', out, c'. split; [exact Eh|]. split; [exact Er|exact Ess].
Defined.

(** A stray response in the middle of nowhere, then a time-out. *)
Definition sample_noise_reads : list read := [mkRead [36; 0; 0] None; mkRead [] None; mkRead [12; 80; 76] None; mkRead [] (Some true)].
Lemma reader_safe_witness : session_ok sample_session ∧ Forall read_ok sample_noise_reads ∧
  ∃ c' out k, run sample_world sample_noise_reads (fresh sample_session) = Ok (c', out, k) ∧ session_ok (sess c') ∧ k = end_of (sess c').
Proof.
  assert (Hr : Forall read_ok sample_noise_reads).
  { assert (Hb : ∀ d e, bool_decide (Forall is_u8 d) && (blen d <=? readChunk) = true → read_ok (mkRead d e)).
    { intros d e [Hd%bool_decide_eq_true Hl%Z.leb_le]%andb_prop. by split. }
    repeat (constructor; [by apply Hb; vm_compute|]). constructor. }
  split; [exact sample_session_ok|]. split; [exact Hr|].
  destruct (reader_safe sample_world sample_noise_reads sample_session sample_session_ok ltac:(discriminate) Hr) as (c' & out & k & E & Hs & _ & _ & Hk & _).
  exists c', out, k. split; [exact E|]. split; [exact Hs|exact Hk].
Defined.
End reader.
