(* ===== verification/Dispatch.v ===== *)
(** * Who gets what: the routing of [rtsp/reader.go], stated from outside

    What a connection delivers, unit by unit of what the server wrote, without the reader's handlers:
    to each track the packets of the channels bound to it, with the time each arrived at; to each
    caller the first response with its sequence number; to the server an answer to every request
    until one of them ends the session. *)
From Stdlib Require Import Ascii String.
From S2P Require Import Prelude Bytes Text RtpPacket Rtcp Media Pipeline Transport Message Reader.
From stdpp Require Import gmap.
Local Open Scope Z_scope.

Module dispatch.
Import audiostream pipeline transport message reader.

(** ** What the server wrote *)
Definition ends_session (req : Request) : bool := EqualFold (rq_Method req) (str "TEARDOWN").

(** The units that are heard: all of them, up to the TEARDOWN or the request whose answer cannot be
    written; [k] answers were written before. *)
Fixpoint heard (w : world) (k : nat) (us : list wire_unit) : list wire_unit :=
  match us with
  | [] => []
  | URequest req :: us => URequest req :: (if negb (ends_session req) && written_ok w k then heard w (S k) us else [])
  | u :: us => u :: heard w k us
  end.
Fixpoint verdict (w : world) (k : nat) (us : list wire_unit) : option cause :=
  match us with
  | [] => None
  | URequest req :: us => if ends_session req then Some ErrServerTeardown
      else if written_ok w k then verdict w (S k) us else Some ErrConnectionClosed
  | _ :: us => verdict w k us
  end.

Definition frames (us : list wire_unit) : list InterleavedFrame := omap (λ u, match u with UFrame f => Some f | _ => None end) us.
Definition responses (us : list wire_unit) : list Response := omap (λ u, match u with UResponse r => Some r | _ => None end) us.
Definition to_answer (us : list wire_unit) : list Z :=
  omap (λ u, match u with URequest req => if ends_session req then None else Some (rq_CSeq req) | _ => None end) us.

(** *** Frames: the clock is read once for each, whoever it is for *)
Fixpoint arrivals (w : world) (n : nat) (fs : list InterleavedFrame) : list (rtcp.Time * InterleavedFrame) :=
  match fs with [] => [] | f :: fs => (clock w n, f) :: arrivals w (S n) fs end.

(** What a routing table makes a track's: its packets, and the reports about it. *)
Inductive packet := RTP (now : rtcp.Time) (payload : list Z) | RTCP (now : rtcp.Time) (payload : list Z).
Definition addressed (t : option channelTable) (i : nat) (a : rtcp.Time * InterleavedFrame) : option packet :=
  bindings ← t; b ← bindings !! Channel a.2;
  if decide (b_track b = i) then Some ((if b_isRTCP b then RTCP else RTP) a.1 (Payload a.2)) else None.

(** A track hears its packets one after the other. *)
Fixpoint hears (cb : callbacks) (ps : list packet) (tr : track) : res no_err (track * list event) :=
  match ps with
  | [] => mret (tr, [])
  | RTP now p :: ps => '(tr, evs, _) ← rtp_frame cb p now tr; '(tr, evs') ← hears cb ps tr; mret (tr, evs ++ evs')
  | RTCP now p :: ps => '(tr, _) ← rtcp_frame p now tr; hears cb ps tr
  end.

(** *** Responses: the first with a pending number resolves it *)
Fixpoint resolved (p : gset Z) (rs : list Response) : list Response :=
  match rs with
  | [] => []
  | r :: rs => if decide (rs_CSeq r ∈ p) then response_received r :: resolved (p ∖ {[rs_CSeq r]}) rs else resolved p rs
  end.

(** *** Answers *)
Definition answer (cseq : Z) : list Z := str "RTSP/1.0 200 OK" ++ CRLF ++ str "CSeq: " ++ Itoa cseq ++ CRLF ++ CRLF.

(** ** What the reader did *)
Definition called (i : nat) (out : list effect) : list event :=
  omap (λ e, match e with Callback j ev => if decide (j = i) then Some ev else None | _ => None end) out.
Definition handed (out : list effect) : list Response := omap (λ e, match e with Resolve r => Some r | _ => None end) out.
Definition written (out : list effect) : list (list Z) := omap (λ e, match e with Write raw => Some raw | _ => None end) out.

(** What may happen while a unit is handled. *)
Definition due (u : wire_unit) (e : effect) : Prop :=
  match u, e with UFrame _, Callback _ _ | UResponse _, Resolve _ | URequest _, Write _ => True | _, _ => False end.

Record delivered (w : world) (us : list wire_unit) (s s' : session) (out : list effect) : Prop := {
  (** Every track heard its packets and no others, and its callbacks are what came of that. *)
  dv_tracks : length (tracks s') = length (tracks s);
  dv_heard i tr : tracks s !! i = Some tr → ∃ tr', tracks s' !! i = Some tr' ∧
    hears (callbacks_of w) (omap (addressed (channels s) i) (arrivals w (ticks s) (frames (heard w (sent s) us)))) tr = Ok (tr', called i out);
  (** Every caller got the first response with its number, and no longer waits. *)
  dv_handed : handed out = resolved (pending s) (responses (heard w (sent s) us));
  dv_pending : pending s' = pending s ∖ list_to_set (rs_CSeq <$> responses (heard w (sent s) us));
  (** Every request that does not end the session was answered. *)
  dv_written : written out = answer <$> to_answer (heard w (sent s) us);
  dv_closing : closing s' = verdict w (sent s) us;
  (** The effects of a unit come before those of the next. *)
  dv_order : ∃ outs, out = concat outs ∧ Forall2 (λ u o, Forall (due u) o) (heard w (sent s) us) outs;
  (** Nothing else moved: what the liveness check reads is when the last frame came. *)
  dv_kept : channels s' = channels s ∧ playing s' = playing s;
  dv_clock : lastFrameAt s' = default (lastFrameAt s) ((λ a, UnixNano a.1) <$> last (arrivals w (ticks s) (frames (heard w (sent s) us))));
  dv_counts : ticks s' = (ticks s + length (frames (heard w (sent s) us)))%nat ∧ sent s' = (sent s + length (to_answer (heard w (sent s) us)))%nat
}.

(** ** Effects, track by track *)
Lemma called_calls i j evs : called i (calls j evs) = if decide (j = i) then evs else [].
Proof.
  unfold called, calls. induction evs as [|ev evs IH]; [by case_decide|]. cbn. case_decide; cbn; [by rewrite IH|exact IH].
Qed.
Lemma called_app i a b : called i (a ++ b) = called i a ++ called i b.
Proof. apply omap_app. Qed.
Lemma handed_app a b : handed (a ++ b) = handed a ++ handed b.
Proof. apply omap_app. Qed.
Lemma written_app a b : written (a ++ b) = written a ++ written b.
Proof. apply omap_app. Qed.
Lemma quiet_calls u j evs : match u with UFrame _ => True | _ => False end →
  handed (calls j evs) = [] ∧ written (calls j evs) = [] ∧ Forall (due u) (calls j evs).
Proof. intros Hu. destruct u; try done. split_and!; [by induction evs..|]. by induction evs; constructor. Qed.

Lemma omap_option {A B} (f : A → option B) x l : omap f (x :: l) = option_list (f x) ++ omap f l.
Proof. cbn. by destruct (f x). Qed.

Lemma hears_app cb ps qs tr : hears cb (ps ++ qs) tr = ('(tr, evs) ← hears cb ps tr; '(tr, evs') ← hears cb qs tr; mret (tr, evs ++ evs')).
Proof.
  revert tr. induction ps as [|[now p|now p] ps IH]; intros tr; cbn [app hears].
  - rewrite bind_ret. cbv beta iota. by destruct (hears cb qs tr) as [[? ?]|e|].
  - destruct (rtp_frame cb p now tr) as [[[tr1 e1] u]|e|]; [|done..]. rewrite !bind_Ok, IH. destruct (hears cb ps tr1) as [[tr2 e2]|e|]; [|done..].
    rewrite !bind_Ok, bind_ret. cbv beta iota. destruct (hears cb qs tr2) as [[tr3 e3]|e|]; [|done..]. rewrite !bind_Ok, bind_ret. by rewrite app_assoc.
  - destruct (rtcp_frame p now tr) as [[tr1 u]|e|]; [|done..]. by rewrite !bind_Ok, IH.
Qed.

(** ** One unit *)
Record reacted (u : wire_unit) (s s1 : session) (o : list effect) : Prop := {
  ra_channels : channels s1 = channels s;
  ra_playing : playing s1 = playing s;
  ra_tracks : length (tracks s1) = length (tracks s);
  ra_due : Forall (due u) o
}.

Lemma frame_reacts w f s s1 o u : handleInterleaved w f s = Ok (s1, o, u) →
  reacted (UFrame f) s s1 o ∧ handed o = [] ∧ written o = [] ∧ ticks s1 = S (ticks s) ∧ sent s1 = sent s ∧ pending s1 = pending s ∧
  closing s1 = closing s ∧ lastFrameAt s1 = UnixNano (clock w (ticks s)) ∧
  ∀ i tr, tracks s !! i = Some tr → ∃ tr1, tracks s1 !! i = Some tr1 ∧
    hears (callbacks_of w) (option_list (addressed (channels s) i (clock w (ticks s), f))) tr = Ok (tr1, called i o).
Proof.
  unfold handleInterleaved, addressed, lookup_channel. cbv zeta. cbn [channels set_frame_at tracks fst snd].
  destruct (channels s) as [t|] eqn:Ec; cbn [mbind option_bind].
  2: { intros [= <- <- <-]. split; [by split|]. split_and!; try done. intros i tr Hi. exists tr. by split. }
  destruct (t !! Channel f) as [b|]; cbn [mbind option_bind].
  2: { intros [= <- <- <-]. split; [by split|]. split_and!; try done. intros i tr Hi. exists tr. by split. }
  destruct (tracks s !! b_track b) as [tr0|] eqn:Et; [|done].
  assert (Hset : ∀ tr1 evs, (if b_isRTCP b then rtcp_frame (Payload f) (clock w (ticks s)) tr0 = Ok (tr1, u) ∧ evs = []
      else rtp_frame (callbacks_of w) (Payload f) (clock w (ticks s)) tr0 = Ok (tr1, evs, u)) →
    ∀ i tr, tracks s !! i = Some tr → ∃ tr2, <[b_track b := tr1]> (tracks s) !! i = Some tr2 ∧
      hears (callbacks_of w) (option_list (if decide (b_track b = i) then Some ((if b_isRTCP b then RTCP else RTP) (clock w (ticks s)) (Payload f)) else None)) tr
        = Ok (tr2, called i (calls (b_track b) evs))).
  { intros tr1 evs E i tr Hi. rewrite called_calls. case_decide as Hd.
    - subst i. rewrite Et in Hi. injection Hi as <-. exists tr1. split; [apply list_lookup_insert_eq; by eapply lookup_lt_Some|].
      destruct (b_isRTCP b); cbn [option_list option_rect hears].
      + destruct E as [-> ->]. done.
      + rewrite E, bind_Ok. cbn [hears]. rewrite bind_ret. cbv beta iota. by rewrite app_nil_r.
    - exists tr. split; [by rewrite list_lookup_insert_ne|done]. }
  destruct (b_isRTCP b) eqn:Eb; cbn [option_list option_rect] in *.
  - destruct (rtcp_frame _ _ _) as [[tr1 u1]|e|] eqn:Er; [|destruct e|done]. cbn [lift]. rewrite bind_Ok. intros [= <- <- <-].
    split; [split; try done; cbn [tracks set_tracks]; by rewrite length_insert|]. split_and!; try done. cbn [tracks set_tracks]. exact (Hset tr1 [] (conj eq_refl eq_refl)).
  - destruct (rtp_frame _ _ _ _) as [[[tr1 evs] u1]|e|] eqn:Er; [|destruct e|done]. cbn [lift]. rewrite bind_Ok. intros [= <- <- <-].
    destruct (quiet_calls (UFrame f) (b_track b) evs I) as (Q1 & Q2 & Q3).
    split; [split; try done; cbn [tracks set_tracks]; by rewrite length_insert|]. split_and!; try done. cbn [tracks set_tracks]. exact (Hset tr1 evs eq_refl).
Qed.

Lemma ok_answer_text cseq : ok_answer cseq = Ok (answer cseq).
Proof.
  unfold ok_answer, MarshalResponse. cbn [rs_StatusCode rs_Reason rs_Body rs_Header rs_CSeq].
  assert (E1 : headerHasCRLF ∅ = false) by (vm_compute; reflexivity). assert (E2 : writeSortedHeaders ∅ = []) by (vm_compute; reflexivity).
  assert (E3 : str "RTSP/1.0 " ++ Itoa StatusOK ++ [32] ++ str "OK" = str "RTSP/1.0 200 OK") by (vm_compute; reflexivity).
  rewrite E1, E2. unfold answer. rewrite <- E3. unfold writeControlHeaders, field_line. change (nCSeq) with (str "CSeq").
  change (blen []) with 0. cbn [Z.ltb Z.compare]. rewrite !app_nil_r, <- !app_assoc. reflexivity.
Qed.

Lemma response_reacts resp s :
  let '(s1, o) := dispatchResponse (response_received resp) s in
  reacted (UResponse resp) s s1 o ∧ tracks s1 = tracks s ∧ ticks s1 = ticks s ∧ sent s1 = sent s ∧ closing s1 = closing s ∧
  lastFrameAt s1 = lastFrameAt s ∧ (∀ i, called i o = []) ∧ written o = [] ∧
  handed o ++ resolved (pending s1) [] = resolved (pending s) [resp] ∧ pending s1 = pending s ∖ {[rs_CSeq resp]}.
Proof.
  unfold dispatchResponse. change (rs_CSeq (response_received resp)) with (rs_CSeq resp). cbn [resolved]. destruct (decide _) as [Hp|Hp].
  - split; [by repeat constructor|]. by split_and!.
  - split; [by repeat constructor|]. split_and!; try done. apply leibniz_equiv. rewrite difference_disjoint; [done|by apply disjoint_singleton_r].
Qed.

Lemma request_reacts w req s : closing s = None →
  let '(s1, o) := handleServerRequest w (request_received req) s in
  reacted (URequest req) s s1 o ∧ tracks s1 = tracks s ∧ ticks s1 = ticks s ∧ pending s1 = pending s ∧ lastFrameAt s1 = lastFrameAt s ∧
  (∀ i, called i o = []) ∧ handed o = [] ∧ written o = answer <$> to_answer [URequest req] ∧
  sent s1 = (sent s + length (to_answer [URequest req]))%nat ∧
  closing s1 = (if ends_session req then Some ErrServerTeardown else if written_ok w (sent s) then None else Some ErrConnectionClosed).
Proof.
  intros Ho. unfold handleServerRequest. change (rq_Method (request_received req)) with (rq_Method req). change (rq_CSeq (request_received req)) with (rq_CSeq req).
  unfold to_answer. cbn [omap list_omap]. change (EqualFold (rq_Method req) methodTeardown) with (ends_session req). destruct (ends_session req).
  - unfold initiateShutdown. rewrite Ho. split; [by repeat constructor|]. split_and!; try done; cbn; lia.
  - rewrite ok_answer_text. destruct (written_ok _ _).
    + split; [by repeat constructor|]. split_and!; try done; cbn; lia.
    + unfold initiateShutdown. cbn [closing set_sent]. rewrite Ho. split; [by repeat constructor|]. split_and!; try done; cbn; lia.
Qed.

(** ** A sequence of units *)
Lemma delivered_empty w s : closing s = None → delivered w [] s s [].
Proof.
  intros Ho. split; try done; cbn.
  - intros i tr Hi. by exists tr.
  - by rewrite difference_empty_L.
  - by exists [].
Qed.

Lemma order_cons u o us out : Forall (due u) o → (∃ outs, out = concat outs ∧ Forall2 (λ u o, Forall (due u) o) us outs) →
  ∃ outs, o ++ out = concat outs ∧ Forall2 (λ u o, Forall (due u) o) (u :: us) outs.
Proof. intros Ho (outs & -> & H). exists (o :: outs). split; [done|by constructor]. Qed.

Lemma delivered_frame w f us s s1 s2 o1 u o2 : handleInterleaved w f s = Ok (s1, o1, u) → delivered w us s1 s2 o2 →
  delivered w (UFrame f :: us) s s2 (o1 ++ o2).
Proof.
  intros ([A1 A2 A3 A4] & H1 & H2 & Ht & Hs & Hp & Hc & Hl & Hh)%frame_reacts [D1 D2 D3 D4 D5 D6 D7 [D8 D9] D10 [D11 D12]].
  rewrite Ht, Hs, Hp, A1 in *. split; cbn [heard verdict]; change (frames (UFrame f :: heard w (sent s) us)) with (f :: frames (heard w (sent s) us)).
  - congruence.
  - intros i tr Hi. destruct (Hh i tr Hi) as (tr1 & Hi1 & E1). destruct (D2 i tr1 Hi1) as (tr2 & Hi2 & E2). exists tr2. split; [done|].
    cbn [arrivals]. rewrite omap_option. by rewrite hears_app, E1, bind_Ok, E2, bind_Ok, called_app.
  - by rewrite handed_app, H1, D3.
  - by rewrite D4.
  - by rewrite written_app, H2, D5.
  - done.
  - by apply order_cons.
  - split; congruence.
  - rewrite D10, Hl. cbn [arrivals]. rewrite last_cons. by destruct (last _).
  - cbn [length]. split; [lia|]. done.
Qed.

Lemma resolved_app rs qs : ∀ p, resolved p (rs ++ qs) = resolved p rs ++ resolved (p ∖ list_to_set (rs_CSeq <$> rs)) qs.
Proof.
  induction rs as [|r rs IH]; intros p; cbn [app resolved fmap list_fmap list_to_set]; [by rewrite difference_empty_L|].
  destruct (decide _) as [Hr|Hr].
  - cbn [app]. by rewrite IH, difference_difference_l_L.
  - rewrite IH. do 2 f_equal. rewrite <- difference_difference_l_L. f_equal. symmetry. apply difference_disjoint_L, disjoint_singleton_r, Hr.
Qed.

Lemma delivered_response w r us s s2 o2 : delivered w us (dispatchResponse (response_received r) s).1 s2 o2 →
  delivered w (UResponse r :: us) s s2 ((dispatchResponse (response_received r) s).2 ++ o2).
Proof.
  pose proof (response_reacts r s) as H. destruct (dispatchResponse _ s) as [s1 o1]. cbn [fst snd].
  destruct H as ([A1 A2 A3 A4] & Ht & Hti & Hs & Hc & Hl & Hca & Hw & Hh & Hp). intros [D1 D2 D3 D4 D5 D6 D7 [D8 D9] D10 [D11 D12]].
  rewrite Hti, Hs, Hp, A1, Ht, Hl in *. cbn [resolved] in Hh. rewrite app_nil_r in Hh.
  split; cbn [heard verdict]; change (frames (UResponse r :: heard w (sent s) us)) with (frames (heard w (sent s) us));
    change (responses (UResponse r :: heard w (sent s) us)) with (r :: responses (heard w (sent s) us)); try done.
  - intros i tr Hi. rewrite called_app, Hca. exact (D2 i tr Hi).
  - rewrite handed_app, Hh, D3. change (r :: responses (heard w (sent s) us)) with ([r] ++ responses (heard w (sent s) us)).
    rewrite resolved_app. cbn. by rewrite union_empty_r_L.
  - rewrite D4. cbn [fmap list_fmap list_to_set]. by rewrite difference_difference_l_L.
  - rewrite written_app, Hw. exact D5.
  - by apply order_cons.
  - split; congruence.
Qed.

Lemma delivered_request w req us s s2 o2 : closing s = None →
  let '(s1, o1) := handleServerRequest w (request_received req) s in
  (if closing s1 is Some _ then s2 = s1 ∧ o2 = [] else delivered w us s1 s2 o2) → delivered w (URequest req :: us) s s2 (o1 ++ o2).
Proof.
  intros Ho. pose proof (request_reacts w req s Ho) as H. destruct (handleServerRequest _ _ s) as [s1 o1].
  destruct H as ([A1 A2 A3 A4] & Ht & Hti & Hp & Hl & Hca & Hh & Hw & Hs & Hc). intros Hd.
  assert (Hend : closing s1 = verdict w (sent s) [URequest req]) by exact Hc. revert Hd. cbn [heard].
  destruct (negb (ends_session req) && written_ok w (sent s)) eqn:Eg.
  - assert (Ec : closing s1 = None) by (rewrite Hc; by destruct (ends_session req), (written_ok _ _)). rewrite Ec. 
    intros [D1 D2 D3 D4 D5 D6 D7 [D8 D9] D10 [D11 D12]].
    assert (Es : sent s1 = S (sent s)) by (rewrite Hs; cbn; destruct (ends_session req); [done|cbn; lia]).
    rewrite Hti, Es, Hp, A1, Ht, Hl in *. apply andb_prop in Eg as [Ee%negb_true_iff Ew].
    assert (Ea : to_answer (URequest req :: heard w (S (sent s)) us) = rq_CSeq req :: to_answer (heard w (S (sent s)) us)) by (cbn; by rewrite Ee).
    split; cbn [heard verdict]; rewrite ?Ee, ?Ew; cbn [negb andb]; rewrite ?Ea;
      change (frames (URequest req :: heard w (S (sent s)) us)) with (frames (heard w (S (sent s)) us));
      change (responses (URequest req :: heard w (S (sent s)) us)) with (responses (heard w (S (sent s)) us)); try done.
    + intros i tr Hi. rewrite called_app, Hca. exact (D2 i tr Hi).
    + by rewrite handed_app, Hh, D3.
    + rewrite written_app, Hw, D5. unfold to_answer. cbn. by rewrite Ee.
    + by apply order_cons.
    + split; congruence.
    + split; [done|]. rewrite D12. cbn [length]. lia.
  - assert (Hc' : closing s1 ≠ None) by (rewrite Hc; by destruct (ends_session req), (written_ok _ _)).
    destruct (closing s1) as [why|] eqn:Ec; [|done]. intros [-> ->]. rewrite app_nil_r.
    split; cbn [heard verdict]; rewrite ?Eg; try done.
    + intros i tr Hi. rewrite Ht, Hca. by exists tr.
    + rewrite Hp. cbn. by rewrite difference_empty_L.
    + rewrite Ec, Hc. by destruct (ends_session req), (written_ok _ _).
    + exists [o1]. cbn. rewrite app_nil_r. split; [done|by repeat constructor].
    + split; [|done]. cbn. lia.
Qed.

Lemma handled_delivered w us : ∀ s s' out, closing s = None → handle_all w us s = Ok (s', out) → delivered w us s s' out.
Proof.
  induction us as [|u us IH]; intros s s' out Ho; cbn [handle_all]; [intros [= <- <-]; by apply delivered_empty|]. rewrite Ho.
  intros ([s1 o1] & E1 & E)%bind_ok_inv. apply bind_ok_inv in E as ([s2 o2] & E2 & E). injection E as <- <-.
  destruct u as [f|r|req]; cbn [react] in E1.
  - apply bind_ok_inv in E1 as ([[s1' o1'] u] & Eh & E1). injection E1 as -> ->. eapply delivered_frame; [exact Eh|].
    apply IH; [|done]. destruct (frame_reacts w f s s1 o1 u Eh) as (_ & _ & _ & _ & _ & _ & Hc & _). congruence.
  - pose proof (response_reacts r s) as Hr. destruct (dispatchResponse _ s) as [s3 o3] eqn:Ed. injection E1 as -> ->.
    pose proof (delivered_response w r us s s2 o2) as Hd. rewrite Ed in Hd. apply Hd, IH; [|done]. cbn [fst]. destruct Hr as (_ & _ & _ & _ & Hc & _). congruence.
  - pose proof (delivered_request w req us s s2 o2 Ho) as Hd. destruct (handleServerRequest _ _ s) as [s3 o3]. injection E1 as -> ->. apply Hd.
    destruct (closing s1) eqn:Ec; [|by apply IH]. destruct us; cbn [handle_all] in E2; [|rewrite Ec in E2]; by injection E2 as <- <-.
Qed.

(** ** Properties *)

(** C20: every unit reaches its owner.  When the server's octets are a sequence of interleaved frames,
    responses and requests as the serializers write them, the reader, however the octets are cut
    into reads, does exactly this.  Each track hears the RTP packets of the channel bound to it
    and the reports of the channel bound to it for RTCP, in order, each once and with the time it came,
    and no other frame; the callbacks for the track are what came of that.  Each pending
    sequence number is resolved by the first response that carries it, and no other response goes
    anywhere.  Each request is answered 200 OK with its own sequence number, except a
    TEARDOWN, which ends the session, as does an answer that cannot be written; nothing behind that is
    handled.  The effects of a unit come before those of the next, the liveness clock is the time of the last
    frame, and while the session lives no octet is left over. *)
Theorem stream_delivered w us rs s : session_ok s → closing s = None → resync s = 0 → Forall unit_ok us → Forall read_on rs →
  encode_all us = Ok (octets rs) →
  ∃ c' out, run w rs (fresh s) = Ok (c', out, end_of (sess c')) ∧ delivered w us s (sess c') out ∧
    (closing (sess c') = None → unread c' = []).
Proof.
  intros Hs Ho Hr Hus Hrs E. destruct (fresh_ahead s (octets rs) Hs (octets_bytes rs Hrs)) as [Hc _].
  destruct (units_rounds w us _ (octets rs) [] Hc Hr Hus E) as (s' & out & c2 & Eh & R & <- & Hc2 & _ & Hend); [by rewrite app_nil_r|].
  destruct (run_of_rounds w rs s out c2 Hs Hrs R Hend) as (c' & Er & Es & Eu). exists c', out. rewrite Es.
  split; [done|]. split; [by apply handled_delivered|done].
Qed.

Lemma stream_delivered_witness : Forall unit_ok sample_units ∧
  ∃ c' out, run sample_world (one_by_one sample_octets) (fresh sample_session) = Ok (c', out, end_of (sess c')) ∧
    handed out = [response_received sample_response] ∧ written out = [answer 9] ∧ closing (sess c') = Some ErrServerTeardown ∧
    length (called 0 out) = 1%nat.
Proof.
  assert (He : encode_all sample_units = Ok (octets (one_by_one sample_octets))) by (rewrite octets_one_by_one; exact sample_encoded).
  split; [exact sample_units_ok|].
  destruct (stream_delivered sample_world _ (one_by_one sample_octets) _ sample_session_ok eq_refl eq_refl sample_units_ok
    (one_by_one_on _ sample_octets_bytes) He) as (c' & out & Er & [_ Dh D1 _ D2 D3 _ _ _ _] & _).
  exists c', out. split; [exact Er|]. split; [rewrite D1; vm_compute; reflexivity|]. split; [rewrite D2; vm_compute; reflexivity|].
  split; [rewrite D3; vm_compute; reflexivity|]. destruct (Dh 0%nat sample_track eq_refl) as (tr' & _ & Eh).
  assert (Hl : (match hears (callbacks_of sample_world) (omap (addressed (channels sample_session) 0)
      (arrivals sample_world (ticks sample_session) (frames (heard sample_world (sent sample_session) sample_units)))) sample_track with
    | Ok (_, evs) => length evs | _ => 0%nat end) = 1%nat) by (vm_compute; reflexivity).
  rewrite Eh in Hl. exact Hl.
Defined.

End dispatch.
