(* ===== verification/Negotiate.v ===== *)
(** * Negotiation: [rtsp/transport.go], [rtsp/status.go] and [rtsp/state.go]

    The header values a session is set up with, the meaning of a response's status, and the
    order of the lifecycle calls.  Everything parsed here comes from the server. *)
From Stdlib Require Import Ascii String.
From S2P Require Import Prelude Bytes Text RtpPacket Rtcp Media Message.
From stdpp Require Import gmap.
Local Open Scope Z_scope.

Module negotiate.
Import message.

(** ** The Transport header *)
Inductive transport_err := ErrMalformedTransport | ErrNoInterleaved | ErrBadChannelPair | ErrChannelConflict.

Record TransportHeader := mkTransport {
  Protocol : list Z; Interleaved : bool; RTPChannel : Z; RTCPChannel : Z; Unicast : bool;
  tMode : list Z; tSSRC : list Z; Source : list Z; Destination : list Z;
  ClientRTPPort : Z; ClientRTCPPort : Z; ServerRTPPort : Z; ServerRTCPPort : Z;
  HasClientPort : bool; HasServerPort : bool
}.

Definition set_interleaved (p : Z * Z * bool) (t : TransportHeader) : TransportHeader :=
  mkTransport (Protocol t) p.2 p.1.1 p.1.2 (Unicast t) (tMode t) (tSSRC t) (Source t) (Destination t)
    (ClientRTPPort t) (ClientRTCPPort t) (ServerRTPPort t) (ServerRTCPPort t) (HasClientPort t) (HasServerPort t).
Definition set_client_port (p : Z * Z * bool) (t : TransportHeader) : TransportHeader :=
  mkTransport (Protocol t) (Interleaved t) (RTPChannel t) (RTCPChannel t) (Unicast t) (tMode t) (tSSRC t) (Source t) (Destination t)
    p.1.1 p.1.2 (ServerRTPPort t) (ServerRTCPPort t) p.2 (HasServerPort t).
Definition set_server_port (p : Z * Z * bool) (t : TransportHeader) : TransportHeader :=
  mkTransport (Protocol t) (Interleaved t) (RTPChannel t) (RTCPChannel t) (Unicast t) (tMode t) (tSSRC t) (Source t) (Destination t)
    (ClientRTPPort t) (ClientRTCPPort t) p.1.1 p.1.2 (HasClientPort t) p.2.
Definition set_unicast (t : TransportHeader) : TransportHeader :=
  mkTransport (Protocol t) (Interleaved t) (RTPChannel t) (RTCPChannel t) true (tMode t) (tSSRC t) (Source t) (Destination t)
    (ClientRTPPort t) (ClientRTCPPort t) (ServerRTPPort t) (ServerRTCPPort t) (HasClientPort t) (HasServerPort t).
Definition set_texts (mode ssrc source destination : list Z) (t : TransportHeader) : TransportHeader :=
  mkTransport (Protocol t) (Interleaved t) (RTPChannel t) (RTCPChannel t) (Unicast t) mode ssrc source destination
    (ClientRTPPort t) (ClientRTCPPort t) (ServerRTPPort t) (ServerRTCPPort t) (HasClientPort t) (HasServerPort t).

(** [parsePortPair], from the three variables it is given to what it leaves in them. *)
Definition parsePortPair (val : list Z) (p : Z * Z * bool) : Z * Z * bool :=
  match Cut 45 val with
  | Some (rtpStr, rtcpStr) =>
      match Atoi (TrimSpace rtpStr), Atoi (TrimSpace rtcpStr) with
      | Some r, Some c => (r, c, true)
      | _, _ => p
      end
  | None =>
      match Atoi (TrimSpace val) with
      | Some r => (r, p.1.2, p.2)
      | None => p
      end
  end.

(** [strings.Trim] of one octet. *)
Fixpoint drop_byte (c : Z) (s : list Z) : list Z :=
  match s with x :: r => if x =? c then drop_byte c r else s | [] => [] end.
Definition TrimByte (c : Z) (s : list Z) : list Z := reverse (drop_byte c (reverse (drop_byte c s))).

Definition applyTransportParam (t : TransportHeader) (param : list Z) : TransportHeader :=
  match param with
  | [] => t
  | _ =>
      let '(name, val, hasEq) := match Cut 61 param with Some (n, v) => (n, v, true) | None => (param, [], false) end in
      let name := lower <$> TrimSpace name in
      let val := TrimSpace val in
      if negb hasEq && bool_decide (name = str "unicast") then set_unicast t
      else if negb hasEq && bool_decide (name = str "multicast") then t
      else if hasEq && bool_decide (name = str "interleaved") then
        set_interleaved (parsePortPair val (RTPChannel t, RTCPChannel t, Interleaved t)) t
      else if hasEq && bool_decide (name = str "client_port") then
        set_client_port (parsePortPair val (ClientRTPPort t, ClientRTCPPort t, HasClientPort t)) t
      else if hasEq && bool_decide (name = str "server_port") then
        set_server_port (parsePortPair val (ServerRTPPort t, ServerRTCPPort t, HasServerPort t)) t
      else if hasEq && bool_decide (name = str "mode") then set_texts (upper <$> TrimByte 34 val) (tSSRC t) (Source t) (Destination t) t
      else if hasEq && bool_decide (name = str "ssrc") then set_texts (tMode t) val (Source t) (Destination t) t
      else if hasEq && bool_decide (name = str "source") then set_texts (tMode t) (tSSRC t) val (Destination t) t
      else if hasEq && bool_decide (name = str "destination") then set_texts (tMode t) (tSSRC t) (Source t) val t
      else t
  end.

Definition plain_transport (protocol : list Z) : TransportHeader :=
  mkTransport protocol false 0 0 false [] [] [] [] 0 0 0 0 false false.

Definition ParseTransport (value : list Z) : res transport_err TransportHeader :=
  match Split 59 value with
  | [] => Panic
  | first :: params =>
      let protocol := TrimSpace first in
      if bool_decide (protocol = []) then Err ErrMalformedTransport
      else mret (foldl (λ t raw, applyTransportParam t (TrimSpace raw)) (plain_transport protocol) params)
  end.

Definition maxInterleavedChannel : Z := 255.

Definition InterleavedChannels (t : TransportHeader) (claimed : gset Z) : res transport_err (Z * Z) :=
  if negb (Interleaved t) then Err ErrNoInterleaved
  else if negb (RTCPChannel t =? i64 (RTPChannel t + 1)) || (RTPChannel t <? 0) || (maxInterleavedChannel <? RTPChannel t) ||
    (RTCPChannel t <? 0) || (maxInterleavedChannel <? RTCPChannel t)
  then Err ErrBadChannelPair
  else if bool_decide (RTPChannel t ∈ claimed) || bool_decide (RTCPChannel t ∈ claimed) then Err ErrChannelConflict
  else mret (RTPChannel t, RTCPChannel t).

Definition minUDPPort : Z := 1.
Definition maxUDPPort : Z := 65535.

Definition ServerPorts (t : TransportHeader) : option (Z * Z) :=
  if negb (HasServerPort t) then None
  else if negb (ServerRTCPPort t =? i64 (ServerRTPPort t + 1)) || (ServerRTPPort t <? minUDPPort) || (maxUDPPort <? ServerRTPPort t) ||
    (ServerRTCPPort t <? minUDPPort) || (maxUDPPort <? ServerRTCPPort t)
  then None
  else Some (ServerRTPPort t, ServerRTCPPort t).

Definition BuildTransport (rtpChannel rtcpChannel : Z) : list Z :=
  str "RTP/AVP/TCP;unicast;interleaved=" ++ Itoa rtpChannel ++ [45] ++ Itoa rtcpChannel.
Definition BuildTransportUDP (clientRTPPort clientRTCPPort : Z) : list Z :=
  str "RTP/AVP;unicast;client_port=" ++ Itoa clientRTPPort ++ [45] ++ Itoa clientRTCPPort.

(** ** The Session header *)
Definition DefaultSessionTimeout : Z := 60 * rtcp.Second.
Definition maxTimeoutSeconds : Z := (2 ^ 63 - 1) / rtcp.Second.

Record SessionHeader := mkSessionHeader { sh_ID : list Z; sh_Timeout : Z }.

Definition session_timeout (acc : Z) (raw : list Z) : Z :=
  match Cut 61 (TrimSpace raw) with
  | None => acc
  | Some (name, val) =>
      if negb (EqualFold (TrimSpace name) (str "timeout")) then acc
      else match Atoi (TrimSpace val) with
           | None => acc
           | Some secs => if (secs <=? 0) || (maxTimeoutSeconds <? secs) then acc else i64 (secs * rtcp.Second)
           end
  end.

Definition ParseSession (value : list Z) : SessionHeader :=
  match Split 59 value with
  | [] => mkSessionHeader [] DefaultSessionTimeout
  | first :: params => mkSessionHeader (TrimSpace first) (foldl session_timeout DefaultSessionTimeout params)
  end.

(** ** The Public header and the keepalive *)
Definition ParsePublic (value : list Z) : list (list Z) :=
  filter (λ tok, tok ≠ []) ((λ tok, upper <$> TrimSpace tok) <$> Split 44 value).

Definition methodGetParameter : list Z := str "GET_PARAMETER".
Definition KeepaliveMethod (publicMethods : list (list Z)) : list Z :=
  if existsb (λ m, EqualFold m methodGetParameter) publicMethods then methodGetParameter else str "OPTIONS".

(** ** Statuses *)
Inductive status_err :=
  | RedirectError (location : list Z) | UnauthorizedError (challenges : list (list Z)) | ResponseError (code : Z) (reason : list Z)
  | ErrNilResponse.

Definition ClassifyStatus (resp : option Response) : option status_err :=
  match resp with
  | None => Some ErrNilResponse
  | Some resp =>
      let code := rs_StatusCode resp in
      if (100 <=? code) && (code <? 300) then None
      else if (300 <=? code) && (code <? 400) then Some (RedirectError (Get (rs_Header resp) (str "Location")))
      else if code =? 401 then Some (UnauthorizedError (Values (rs_Header resp) (str "WWW-Authenticate")))
      else Some (ResponseError code (rs_Reason resp))
  end.

(** ** The lifecycle *)
Inductive state := stateIdle | stateDescribed | stateSetup | statePlaying | stateClosed.
#[export] Instance state_dec : EqDecision state.
Proof. solve_decision. Defined.

Definition methodDescribe : list Z := str "DESCRIBE".
Definition methodSetup : list Z := str "SETUP".
Definition methodPlay : list Z := str "PLAY".

Definition legalIn (method : list Z) (s : state) : bool :=
  if bool_decide (s = stateClosed) then false
  else if bool_decide (method = methodDescribe) then bool_decide (s = stateIdle)
  else if bool_decide (method = methodSetup) then bool_decide (s = stateDescribed) || bool_decide (s = stateSetup)
  else if bool_decide (method = methodPlay) then bool_decide (s = stateSetup)
  else false.

Definition destState (method : list Z) : state * bool :=
  if bool_decide (method = methodDescribe) then (stateDescribed, true)
  else if bool_decide (method = methodSetup) then (stateSetup, true)
  else if bool_decide (method = methodPlay) then (statePlaying, true)
  else (stateIdle, false).

Example parse_transport_sample :
  (t ← ParseTransport (str " RTP/AVP/TCP ; unicast;Interleaved = 4-5;ssrc=1A2B;mode=play");
   c ← InterleavedChannels t {[0; 1]}; mret (Protocol t, Unicast t, tSSRC t, tMode t, c))
  = Ok (str "RTP/AVP/TCP", true, str "1A2B", str "PLAY", (4, 5)).
Proof. vm_compute. reflexivity. Qed.
Example parse_session_sample : ParseSession (str "12ab; timeout=30;x=1") = mkSessionHeader (str "12ab") 30000000000.
Proof. vm_compute. reflexivity. Qed.
Example parse_public_sample : KeepaliveMethod (ParsePublic (str "OPTIONS, Get_parameter ,,PLAY")) = str "GET_PARAMETER".
Proof. vm_compute. reflexivity. Qed.

(** ** Lemmas *)

(** The text of a pair of numbers that are not negative is read back. *)
Lemma parsePortPair_text a b p : 0 ≤ a < 2 ^ 63 → 0 ≤ b < 2 ^ 63 → parsePortPair (Itoa a ++ [45] ++ Itoa b) p = (a, b, true).
Proof.
  intros Ha Hb. unfold parsePortPair. cbn [app]. rewrite Cut_app.
  - by rewrite !TrimSpace_Itoa, !Atoi_Itoa by lia.
  - intros H. apply Itoa_nat_chars in H; [|done]. unfold is_digit in H. lia.
Qed.

Lemma TrimSpace_ends a x b z : ascii_mark x = true → ascii_mark z = true → TrimSpace (x :: a ++ b ++ [z]) = x :: a ++ b ++ [z].
Proof. intros Hx Hz. apply (TrimSpace_id _ x z); try done. rewrite !app_comm_cons, !app_assoc. apply last_snoc. Qed.

Lemma Itoa_last n : - 2 ^ 63 ≤ n < 2 ^ 63 → ∃ l z, Itoa n = l ++ [z] ∧ ascii_mark z = true.
Proof.
  intros Hn. destruct (Itoa_shape n Hn) as (ds & -> & Hne & Hds & _). destruct (exists_last Hne) as (l & z & ->).
  exists ((if n <? 0 then [45] else []) ++ l), z. rewrite <- app_assoc. split; [done|]. apply Forall_app in Hds as [_ Hz%Forall_inv].
  unfold is_digit, ascii_mark in *. zcase.
Qed.

(** A parameter [name=a-b] is trimmed and cut at its equals sign. *)
Lemma param_text name a b : head name = Some 105 ∨ head name = Some 99 → 61 ∉ name → 0 ≤ a < 2 ^ 63 → 0 ≤ b < 2 ^ 63 →
  TrimSpace (name ++ 61 :: Itoa a ++ [45] ++ Itoa b) = name ++ 61 :: Itoa a ++ [45] ++ Itoa b ∧
  Cut 61 (name ++ 61 :: Itoa a ++ [45] ++ Itoa b) = Some (name, Itoa a ++ [45] ++ Itoa b) ∧
  TrimSpace (Itoa a ++ [45] ++ Itoa b) = Itoa a ++ [45] ++ Itoa b.
Proof.
  intros Hname H61 Ha Hb. destruct (Itoa_last b ltac:(lia)) as (l & z & -> & Hz). split_and!; [|by apply Cut_app|].
  - destruct name as [|c name]; [by destruct Hname|]. apply (TrimSpace_id _ c z); [done| |by destruct Hname as [[= ->]|[= ->]]|done].
    rewrite !app_comm_cons, !app_assoc. apply last_snoc.
  - destruct (Itoa_shape a ltac:(lia)) as (ds & Ea & Hne & Hds & _). rewrite (proj2 (Z.ltb_ge a 0)) in Ea by lia. cbn [app] in Ea. rewrite Ea.
    destruct ds as [|d ds]; [done|]. apply (TrimSpace_id _ d z); [done| | |done].
    + rewrite !app_assoc. apply last_snoc.
    + apply Forall_inv in Hds. unfold is_digit, ascii_mark in *. zcase.
Qed.



(** A proposal is the three parts it is made of. *)
Lemma proposal_split first second name a b : 59 ∉ first → 59 ∉ second → 59 ∉ name → 0 ≤ a < 2 ^ 63 → 0 ≤ b < 2 ^ 63 →
  Split 59 (first ++ 59 :: second ++ 59 :: name ++ 61 :: Itoa a ++ [45] ++ Itoa b) = [first; second; name ++ 61 :: Itoa a ++ [45] ++ Itoa b].
Proof.
  intros H1 H2 H3 Ha Hb. rewrite !Split_app by done. do 2 f_equal. apply Split_nil. rewrite not_elem_of_app. split; [done|].
  apply not_elem_of_cons. split; [done|]. rewrite !not_elem_of_app. split; [by apply Itoa_no; [|unfold is_digit; lia]|].
  split; [by apply not_in|by apply Itoa_no; [|unfold is_digit; lia]].
Qed.

Lemma TrimSpace_prefix_str s : head s ≠ None → forallb ascii_mark s = true → TrimSpace s = s.
Proof.
  intros Hne Hs. rewrite forallb_forall in Hs. destruct s as [|x s]; [done|]. destruct (exists_last (l:=x :: s)) as (l & z & E); [done|].
  apply (TrimSpace_id _ x z); [done| | |].
  - rewrite E. apply last_snoc.
  - apply Hs. by left.
  - apply Hs. rewrite E. apply in_or_app. right. by left.
Qed.

Definition proposal_tcp (a b : Z) : TransportHeader := set_interleaved (a, b, true) (set_unicast (plain_transport (str "RTP/AVP/TCP"))).
Definition proposal_udp (a b : Z) : TransportHeader := set_client_port (a, b, true) (set_unicast (plain_transport (str "RTP/AVP"))).

Lemma ParseTransport_tcp a b : 0 ≤ a < 2 ^ 63 → 0 ≤ b < 2 ^ 63 → ParseTransport (BuildTransport a b) = Ok (proposal_tcp a b).
Proof.
  intros Ha Hb. unfold ParseTransport, BuildTransport.
  change (str "RTP/AVP/TCP;unicast;interleaved=" ++ Itoa a ++ [45] ++ Itoa b)
    with (str "RTP/AVP/TCP" ++ 59 :: str "unicast" ++ 59 :: str "interleaved" ++ 61 :: Itoa a ++ [45] ++ Itoa b).
  rewrite proposal_split by (done || by apply not_in). rewrite !TrimSpace_prefix_str by done.
  rewrite bool_decide_false by done. cbn [foldl]. destruct (param_text (str "interleaved") a b) as (-> & Ec & Et); [by left|by apply not_in|done|done|].
  change (applyTransportParam (plain_transport (str "RTP/AVP/TCP")) (TrimSpace (str "unicast"))) with (set_unicast (plain_transport (str "RTP/AVP/TCP"))).
  unfold applyTransportParam. rewrite Ec. cbn [str]. set (s := str "interleaved" ++ _). assert (Hs : ∃ c r, s = c :: r) by (by eexists _, _).
  destruct Hs as (c & r & ->). rewrite Et. change (lower <$> TrimSpace (str "interleaved")) with (str "interleaved"). cbn [negb andb].
  rewrite bool_decide_true by done. by rewrite parsePortPair_text.
Qed.

Lemma ParseTransport_udp a b : 0 ≤ a < 2 ^ 63 → 0 ≤ b < 2 ^ 63 → ParseTransport (BuildTransportUDP a b) = Ok (proposal_udp a b).
Proof.
  intros Ha Hb. unfold ParseTransport, BuildTransportUDP.
  change (str "RTP/AVP;unicast;client_port=" ++ Itoa a ++ [45] ++ Itoa b)
    with (str "RTP/AVP" ++ 59 :: str "unicast" ++ 59 :: str "client_port" ++ 61 :: Itoa a ++ [45] ++ Itoa b).
  rewrite proposal_split by (done || by apply not_in). rewrite !TrimSpace_prefix_str by done.
  rewrite bool_decide_false by done. cbn [foldl]. destruct (param_text (str "client_port") a b) as (-> & Ec & Et); [by right|by apply not_in|done|done|].
  change (applyTransportParam (plain_transport (str "RTP/AVP")) (TrimSpace (str "unicast"))) with (set_unicast (plain_transport (str "RTP/AVP"))).
  unfold applyTransportParam. rewrite Ec. set (s := str "client_port" ++ _). assert (Hs : ∃ c r, s = c :: r) by (by eexists _, _).
  destruct Hs as (c & r & ->). rewrite Et. change (lower <$> TrimSpace (str "client_port")) with (str "client_port"). cbn [negb andb].
  rewrite bool_decide_false, bool_decide_true by done. by rewrite parsePortPair_text.
Qed.

Lemma ParseTransport_total value : ParseTransport value ≠ Panic.
Proof. unfold ParseTransport. destruct (Split 59 value) eqn:E; [by apply Split_nonempty in E|]. by destruct (bool_decide _). Qed.
Lemma InterleavedChannels_total t claimed : InterleavedChannels t claimed ≠ Panic.
Proof. unfold InterleavedChannels. by repeat match goal with |- context [if ?b then _ else _] => destruct b end. Qed.

(** An accepted pair can be bound: consecutive, in one octet, and free. *)
Lemma InterleavedChannels_ok t claimed r c : InterleavedChannels t claimed = Ok (r, c) → c = r + 1 ∧ 0 ≤ r ≤ 254 ∧ (r ∉ claimed) ∧ (c ∉ claimed).
Proof.
  unfold InterleavedChannels. destruct (negb (Interleaved t)); [done|]. destruct (_ || (maxInterleavedChannel <? RTCPChannel t)) eqn:E; [done|].
  destruct (_ || bool_decide (RTCPChannel t ∈ claimed)) eqn:E2; [done|]. intros [= <- <-].
  apply orb_false_elim in E2 as [F1%bool_decide_eq_false F2%bool_decide_eq_false]. breflect. unfold maxInterleavedChannel in *. rewrite i64_small in * by lia. split_and!; try done; lia.
Qed.
Lemma InterleavedChannels_free t claimed : Interleaved t = true → 0 ≤ RTPChannel t ≤ 254 → RTCPChannel t = RTPChannel t + 1 →
  (RTPChannel t ∉ claimed) → (RTCPChannel t ∉ claimed) → InterleavedChannels t claimed = Ok (RTPChannel t, RTCPChannel t).
Proof.
  intros Hi Hr Hc F1 F2. unfold InterleavedChannels, maxInterleavedChannel. rewrite Hi. cbn [negb]. rewrite Hc, i64_small, Z.eqb_refl by lia.
  rewrite (proj2 (Z.ltb_ge (RTPChannel t) 0)), (proj2 (Z.ltb_ge 255 (RTPChannel t))), (proj2 (Z.ltb_ge (RTPChannel t + 1) 0)),
    (proj2 (Z.ltb_ge 255 (RTPChannel t + 1))) by lia. cbn [negb orb]. rewrite !bool_decide_false by congruence. done.
Qed.

Lemma ServerPorts_ok t r c : ServerPorts t = Some (r, c) → c = r + 1 ∧ 1 ≤ r ≤ 65534.
Proof.
  unfold ServerPorts. destruct (negb (HasServerPort t)); [done|]. destruct (_ || (maxUDPPort <? ServerRTCPPort t)) eqn:E; [done|]. intros [= <- <-].
  breflect. unfold minUDPPort, maxUDPPort in *. rewrite i64_small in * by lia. lia.
Qed.

Lemma session_timeout_range acc raw : rtcp.Second ≤ acc < 2 ^ 63 → rtcp.Second ≤ session_timeout acc raw < 2 ^ 63.
Proof.
  intros Ha. unfold session_timeout. destruct (Cut 61 _) as [[name val]|]; [|done]. destruct (negb _); [done|].
  destruct (Atoi _) as [secs|]; [|done]. destruct (_ || _) eqn:E; [done|]. breflect. unfold maxTimeoutSeconds, rtcp.Second in *.
  change ((2 ^ 63 - 1) / 1000000000) with 9223372036 in *. rewrite i64_small by lia. lia.
Qed.

Lemma ParseSession_range value : rtcp.Second ≤ sh_Timeout (ParseSession value) < 2 ^ 63.
Proof.
  unfold ParseSession. assert (H0 : rtcp.Second ≤ DefaultSessionTimeout < 2 ^ 63) by (unfold DefaultSessionTimeout, rtcp.Second; lia).
  destruct (Split 59 value) as [|first params]; [done|]. cbn [sh_Timeout]. generalize DefaultSessionTimeout, H0.
  induction params as [|raw params IH]; intros acc Hacc; [done|]. cbn [foldl]. by apply IH, session_timeout_range.
Qed.

(** The negotiated values are safe whatever the server sends.  Both proposals of the client are
    read back from their text with exactly the numbers proposed, and a server that echoes an
    interleaved proposal of free channels is accepted.  A channel pair that is accepted at all is
    consecutive, fits the one-octet channel field, and claims no channel of an earlier track; an
    accepted port pair is consecutive and in range.  Every Session header, of any octets, gives a
    timeout of at least one second that fits a duration, so the keepalive timer it sets never
    fires continuously. *)
Theorem negotiated_values value t claimed a b : 
  (0 ≤ a < 2 ^ 63 → 0 ≤ b < 2 ^ 63 →
    ParseTransport (BuildTransport a b) = Ok (proposal_tcp a b) ∧ ParseTransport (BuildTransportUDP a b) = Ok (proposal_udp a b)) ∧
  (0 ≤ a ≤ 254 → b = a + 1 → (a ∉ claimed) → (b ∉ claimed) → InterleavedChannels (proposal_tcp a b) claimed = Ok (a, b)) ∧
  (InterleavedChannels t claimed = Ok (a, b) → b = a + 1 ∧ 0 ≤ a ≤ 254 ∧ (a ∉ claimed) ∧ (b ∉ claimed)) ∧
  (ServerPorts t = Some (a, b) → b = a + 1 ∧ 1 ≤ a ≤ 65534) ∧
  ParseTransport value ≠ Panic ∧ rtcp.Second ≤ sh_Timeout (ParseSession value) < 2 ^ 63.
Proof.
  split; [|split; [|split; [|split; [|split]]]].
  - split; [by apply ParseTransport_tcp|by apply ParseTransport_udp].
  - intros Ha -> F1 F2. by apply (InterleavedChannels_free (proposal_tcp a (a + 1))).
  - apply InterleavedChannels_ok.
  - apply ServerPorts_ok.
  - unfold ParseTransport. pose proof (Split_nonempty 59 value). destruct (Split 59 value); [done|]. by destruct (bool_decide _).
  - apply ParseSession_range.
Qed.

Lemma negotiated_values_witness : ParseTransport (BuildTransport 4 5) = Ok (proposal_tcp 4 5) ∧
  InterleavedChannels (proposal_tcp 4 5) {[0; 1]} = Ok (4, 5) ∧ rtcp.Second ≤ sh_Timeout (ParseSession (str "a;timeout=99999999999")) < 2 ^ 63.
Proof.
  destruct (negotiated_values (str "a;timeout=99999999999") (proposal_tcp 4 5) {[0; 1]} 4 5) as (H1 & H2 & _ & _ & _ & H6).
  split; [apply H1; lia|]. split; [apply H2; [lia|lia| |]; refine (bool_decide_unpack _ _); by vm_compute|exact H6].
Defined.
End negotiate.
