(* ===== verification/Hash.v ===== *)
(** * Hashes and text encodings: what the code uses of [crypto/md5], [crypto/sha256],
    [encoding/hex] and [encoding/base64]

    RFC 1321 and FIPS 180-4 on lists of octets, 32-bit words as integers below [2^32].  Nothing
    here is code of the repository. *)
From Stdlib Require Import Ascii String.
From S2P Require Import Prelude Bytes Text.

(** ** 32-bit words *)
Definition rol (x n : Z) : Z := Z.lor (u32 (Z.shiftl x n)) (Z.shiftr x (32 - n)).
Definition ror (x n : Z) : Z := rol x (32 - n).
Definition not32 (x : Z) : Z := 0xffffffff - x.

Definition be_word (b : list Z) : Z := be_combine b.
Definition le_word (b : list Z) : Z := le_combine b.
Definition be32 (v : Z) : list Z := be_split 4 v.
Definition le32 (v : Z) : list Z := reverse (be_split 4 v).

Fixpoint chunks (fuel : nat) (n : nat) (l : list Z) : list (list Z) :=
  match fuel with
  | O => []
  | S fuel => match l with [] => [] | _ => take n l :: chunks fuel n (drop n l) end
  end.

(** The message with its one bit, zeros, and its length in bits as [len] octets. *)
Definition padded (msg : list Z) (len : list Z) : list Z :=
  msg ++ [0x80] ++ repeat 0 (Z.to_nat ((55 - blen msg) mod 64)) ++ len.
Definition blocks (l : list Z) : list (list Z) := chunks (length l) 64 l.

(** ** MD5 *)
Definition md5_sines : list Z :=
  [0xd76aa478; 0xe8c7b756; 0x242070db; 0xc1bdceee; 0xf57c0faf; 0x4787c62a; 0xa8304613; 0xfd469501; 0x698098d8; 0x8b44f7af;
   0xffff5bb1; 0x895cd7be; 0x6b901122; 0xfd987193; 0xa679438e; 0x49b40821; 0xf61e2562; 0xc040b340; 0x265e5a51; 0xe9b6c7aa;
   0xd62f105d; 0x2441453; 0xd8a1e681; 0xe7d3fbc8; 0x21e1cde6; 0xc33707d6; 0xf4d50d87; 0x455a14ed; 0xa9e3e905; 0xfcefa3f8;
   0x676f02d9; 0x8d2a4c8a; 0xfffa3942; 0x8771f681; 0x6d9d6122; 0xfde5380c; 0xa4beea44; 0x4bdecfa9; 0xf6bb4b60; 0xbebfbc70;
   0x289b7ec6; 0xeaa127fa; 0xd4ef3085; 0x4881d05; 0xd9d4d039; 0xe6db99e5; 0x1fa27cf8; 0xc4ac5665; 0xf4292244; 0x432aff97;
   0xab9423a7; 0xfc93a039; 0x655b59c3; 0x8f0ccc92; 0xffeff47d; 0x85845dd1; 0x6fa87e4f; 0xfe2ce6e0; 0xa3014314; 0x4e0811a1;
   0xf7537e82; 0xbd3af235; 0x2ad7d2bb; 0xeb86d391].
Definition md5_shifts : list Z :=
  concat [concat (repeat [7; 12; 17; 22] 4); concat (repeat [5; 9; 14; 20] 4); concat (repeat [4; 11; 16; 23] 4); concat (repeat [6; 10; 15; 21] 4)].

Definition md5_round (w : list Z) (st : Z * Z * Z * Z) (isk : Z * (Z * Z)) : Z * Z * Z * Z :=
  let '(a, b, c, d) := st in
  let '(i, (s, k)) := isk in
  let '(f, g) :=
    if i <? 16 then (Z.lor (Z.land b c) (Z.land (not32 b) d), i)
    else if i <? 32 then (Z.lor (Z.land d b) (Z.land (not32 d) c), (5 * i + 1) mod 16)
    else if i <? 48 then (Z.lxor (Z.lxor b c) d, (3 * i + 5) mod 16)
    else (Z.lxor c (Z.lor b (not32 d)), (7 * i) mod 16) in
  (d, u32 (b + rol (u32 (a + f + k + nth (Z.to_nat g) w 0)) s), b, c).

Definition md5_block (st : Z * Z * Z * Z) (block : list Z) : Z * Z * Z * Z :=
  let w := le_word <$> chunks 16 4 block in
  let '(a, b, c, d) := st in
  let '(a', b', c', d') := foldl (md5_round w) st (zip (seqZ 0 64) (zip md5_shifts md5_sines)) in
  (u32 (a + a'), u32 (b + b'), u32 (c + c'), u32 (d + d')).

Definition md5 (msg : list Z) : list Z :=
  let bits := u64 (8 * blen msg) in
  let '(a, b, c, d) := foldl md5_block (0x67452301, 0xefcdab89, 0x98badcfe, 0x10325476)
    (blocks (padded msg (reverse (be_split 8 bits)))) in
  le32 a ++ le32 b ++ le32 c ++ le32 d.

(** ** SHA-256 *)
(** The constants are the leading 32 bits of the fractional parts of the square roots of the
    first eight primes, and of the cube roots of the first sixty-four. *)
Definition primes : list Z :=
  filter (λ n, forallb (λ d, negb (n mod d =? 0)) (seqZ 2 (n - 2)) = true) (seqZ 2 310).
(** The largest [r] with [r ^ 3 <= n], its bits from [bit] down. *)
Fixpoint cube_root (fuel : nat) (bit r n : Z) : Z :=
  match fuel with
  | O => r
  | S fuel => let r' := r + bit in cube_root fuel (bit / 2) (if r' * r' * r' <=? n then r' else r) n
  end.
Definition sha256_init : list Z := Eval vm_compute in (λ p, u32 (Z.sqrt (p * 2 ^ 64))) <$> take 8 primes.
Definition sha256_keys : list Z := Eval vm_compute in (λ p, u32 (cube_root 40 (2 ^ 39) 0 (p * 2 ^ 96))) <$> primes.

(** The message schedule, newest word first. *)
Fixpoint sha256_extend (n : nat) (w : list Z) : list Z :=
  match n with
  | O => w
  | S n =>
      let at_ k := nth k w 0 in
      let s0 := Z.lxor (Z.lxor (ror (at_ 14%nat) 7) (ror (at_ 14%nat) 18)) (Z.shiftr (at_ 14%nat) 3) in
      let s1 := Z.lxor (Z.lxor (ror (at_ 1%nat) 17) (ror (at_ 1%nat) 19)) (Z.shiftr (at_ 1%nat) 10) in
      sha256_extend n (u32 (at_ 15%nat + s0 + at_ 6%nat + s1) :: w)
  end.

Definition sha256_round (h : list Z) (kw : Z * Z) : list Z :=
  match h with
  | [a; b; c; d; e; f; g; hh] =>
      let s1 := Z.lxor (Z.lxor (ror e 6) (ror e 11)) (ror e 25) in
      let ch := Z.lxor (Z.land e f) (Z.land (not32 e) g) in
      let t1 := u32 (hh + s1 + ch + kw.1 + kw.2) in
      let s0 := Z.lxor (Z.lxor (ror a 2) (ror a 13)) (ror a 22) in
      let maj := Z.lxor (Z.lxor (Z.land a b) (Z.land a c)) (Z.land b c) in
      [u32 (t1 + u32 (s0 + maj)); a; b; c; u32 (d + t1); e; f; g]
  | _ => h
  end.

Definition sha256_block (h block : list Z) : list Z :=
  let w := reverse (sha256_extend 48 (reverse (be_word <$> chunks 16 4 block))) in
  zip_with (λ x y, u32 (x + y)) h (foldl sha256_round h (zip sha256_keys w)).

Definition sha256 (msg : list Z) : list Z :=
  concat (be32 <$> foldl sha256_block sha256_init (blocks (padded msg (be_split 8 (u64 (8 * blen msg)))))).

Lemma md5_bytes msg : bytes_ok (md5 msg).
Proof.
  unfold md5. destruct (foldl _ _ _) as [[[a b] c] d]. unfold bytes_ok, le32.
  rewrite !Forall_app. repeat split; apply Forall_reverse, be_split_bytes_ok.
Qed.
Lemma sha256_bytes msg : bytes_ok (sha256 msg).
Proof. unfold sha256, bytes_ok. apply Forall_concat, Forall_fmap, Forall_true. intros x. apply be_split_bytes_ok. Qed.

(** ** Text encodings *)
Definition hex_digit (n : Z) : Z := if n <? 10 then 48 + n else 87 + n.
Definition hex (b : list Z) : list Z := concat ((λ x, [hex_digit (x / 16); hex_digit (x mod 16)]) <$> b).

Definition base64_alphabet : list Z := str "ABCDEFGHIJKLMNOPQRSTUVWXYZabcdefghijklmnopqrstuvwxyz0123456789+/".
Definition base64_digit (n : Z) : Z := nth (Z.to_nat n) base64_alphabet 47.
Fixpoint base64 (b : list Z) : list Z :=
  match b with
  | x :: y :: z :: b =>
      base64_digit (x / 4) :: base64_digit (x mod 4 * 16 + y / 16) :: base64_digit (y mod 16 * 4 + z / 64) :: base64_digit (z mod 64) :: base64 b
  | [x; y] => [base64_digit (x / 4); base64_digit (x mod 4 * 16 + y / 16); base64_digit (y mod 16 * 4); 61]
  | [x] => [base64_digit (x / 4); base64_digit (x mod 4 * 16); 61; 61]
  | [] => []
  end.

(** The test vectors of RFC 1321, FIPS 180-4 and RFC 4648. *)
Example md5_empty : hex (md5 []) = str "d41d8cd98f00b204e9800998ecf8427e".
Proof. vm_compute. reflexivity. Qed.
Example md5_alphabet : hex (md5 (str "abcdefghijklmnopqrstuvwxyz")) = str "c3fcd3d76192e4007dfb496cca67e13b".
Proof. vm_compute. reflexivity. Qed.
Example md5_two_blocks :
  hex (md5 (str "12345678901234567890123456789012345678901234567890123456789012345678901234567890")) = str "57edf4a22be3c955ac49da2e2107b67a".
Proof. vm_compute. reflexivity. Qed.
Example sha256_abc : hex (sha256 (str "abc")) = str "ba7816bf8f01cfea414140de5dae2223b00361a396177a9cb410ff61f20015ad".
Proof. vm_compute. reflexivity. Qed.
Example sha256_two_blocks :
  hex (sha256 (str "abcdbcdecdefdefgefghfghighijhijkijkljklmklmnlmnomnopnopq"))
  = str "248d6a61d20638b8e5c026930c3e6039a33ce45964ff2167f6ecedd419db06c1".
Proof. vm_compute. reflexivity. Qed.
Example base64_foobar : base64 <$> [str "f"; str "fo"; str "foo"; str "foobar"] = [str "Zg=="; str "Zm8="; str "Zm9v"; str "Zm9vYmFy"].
Proof. vm_compute. reflexivity. Qed.

(** Every octet becomes two digits or lower-case letters. *)
Lemma hex_digits b : bytes_ok b → Forall (λ c, 48 ≤ c ≤ 57 ∨ 97 ≤ c ≤ 102) (hex b).
Proof.
  intros Hb. unfold hex. apply Forall_concat, Forall_fmap. eapply Forall_impl; [|exact Hb]. intros x Hx.
  assert (Hd : ∀ n, 0 ≤ n < 16 → 48 ≤ hex_digit n ≤ 57 ∨ 97 ≤ hex_digit n ≤ 102).
  { intros n Hn. unfold hex_digit. destruct (Z.ltb_spec n 10); lia. }
  unfold is_u8 in Hx. constructor; [|constructor; [|constructor]]; apply Hd; [|apply Z.mod_pos_bound; lia].
  split; [apply Z.div_pos; lia|apply Z.div_lt_upper_bound; lia].
Qed.
