(* ===== verification/HttpAuth.v ===== *)
(** * Answering an authentication challenge: [internal/httpauth/auth.go]

    Parsing of WWW-Authenticate, the choice of a challenge, and the Authorization value.  Octets
    in the values are taken as they are, but where a value holds a CR or LF: there [strings.Map]
    also replaces what is not UTF-8. *)
From Stdlib Require Import Ascii String.
From S2P Require Import Prelude Bytes Text Hash.
From stdpp Require Import gmap.
Local Open Scope Z_scope.

Module httpauth.

Inductive AuthScheme := AuthNone | AuthUnknown | AuthBasic | AuthDigest.
#[export] Instance AuthScheme_dec : EqDecision AuthScheme.
Proof. solve_decision. Defined.

Definition paramRealm : list Z := str "realm".
Definition paramNonce : list Z := str "nonce".
Definition paramQOP : list Z := str "qop".
Definition paramAlgorithm : list Z := str "algorithm".
Definition paramOpaque : list Z := str "opaque".
Definition paramStale : list Z := str "stale".
Definition algMD5 : list Z := str "MD5".
Definition algSHA256 : list Z := str "SHA-256".
Definition qopAuth : list Z := str "auth".

Record Challenge := mkChallenge { Scheme : AuthScheme; Realm : list Z; Params : gmap (list Z) (list Z) }.

(** A missing key reads as the empty string. *)
Definition param (c : Challenge) (name : list Z) : list Z := default [] (Params c !! name).

Definition Stale (c : Challenge) : bool := EqualFold (param c paramStale) (str "true").

(** ** Parsing *)
Fixpoint split_segments (value b : list Z) (inQuotes escaped : bool) : list (list Z) :=
  match value with
  | [] => [b]
  | ch :: value =>
      if escaped then split_segments value (b ++ [ch]) inQuotes false
      else if (ch =? 92) && inQuotes then split_segments value (b ++ [ch]) inQuotes true
      else if ch =? 34 then split_segments value (b ++ [ch]) (negb inQuotes) false
      else if (ch =? 44) && negb inQuotes then b :: split_segments value [] inQuotes false
      else split_segments value (b ++ [ch]) inQuotes false
  end.
Definition splitChallengeSegments (value : list Z) : list (list Z) := split_segments value [] false false.

Definition blank (c : Z) : bool := (c =? 32) || (c =? 9).
Fixpoint split_at_blank (s : list Z) : list Z * list Z :=
  match s with
  | [] => ([], [])
  | c :: r => if blank c then ([], s) else let '(h, t) := split_at_blank r in (c :: h, t)
  end.
Fixpoint trim_blanks (s : list Z) : list Z := match s with c :: r => if blank c then trim_blanks r else s | [] => [] end.
Definition splitToken (s : list Z) : list Z * list Z := let '(h, t) := split_at_blank s in (h, trim_blanks t).

Fixpoint unquote (raw b : list Z) (escaped : bool) : list Z :=
  match raw with
  | [] => b
  | ch :: raw =>
      if escaped then unquote raw (b ++ [ch]) false
      else if ch =? 92 then unquote raw b true
      else if ch =? 34 then b
      else unquote raw (b ++ [ch]) false
  end.
Definition parseAuthParamValue (raw : list Z) : list Z :=
  let raw := TrimSpace raw in
  match raw with
  | c :: rest => if c =? 34 then unquote rest [] false else raw
  | [] => raw
  end.

Definition parseAuthParam (c : Challenge) (segment : list Z) : Challenge :=
  match Cut 61 segment with
  | None => c
  | Some (before, after) =>
      let name := lower <$> TrimSpace before in
      if bool_decide (name = []) then c
      else
        let value := parseAuthParamValue after in
        mkChallenge (Scheme c) (if bool_decide (name = paramRealm) then value else Realm c) (<[name := value]> (Params c))
  end.

(** The challenges so far, the last of them first; whether it is the current one. *)
Definition parsing : Type := list Challenge * bool.
Definition on_current (segment : list Z) (st : parsing) : parsing :=
  match st with
  | (c :: cs, true) => (parseAuthParam c segment :: cs, true)
  | _ => st
  end.
Definition opens (scheme : AuthScheme) (rest : list Z) (st : parsing) : parsing :=
  let st := (mkChallenge scheme [] ∅ :: st.1, true) in
  if bool_decide (rest = []) then st else on_current rest st.

Definition parse_segment (st : parsing) (segment : list Z) : parsing :=
  let segment := TrimSpace segment in
  if bool_decide (segment = []) then st
  else
    let '(head, rest) := splitToken segment in
    if EqualFold head (str "Basic") then opens AuthBasic rest st
    else if EqualFold head (str "Digest") then opens AuthDigest rest st
    else if negb (existsb (Z.eqb 61) head) then
      if HasPrefix rest [61] then on_current segment st else (st.1, false)
    else on_current segment st.

Definition parseChallengeValue (cs : list Challenge) (value : list Z) : list Challenge :=
  (foldl parse_segment (cs, false) (splitChallengeSegments value)).1.

Definition ParseChallenges (values : list (list Z)) : list Challenge := reverse (foldl parseChallengeValue [] values).

(** ** Choosing *)
Inductive auth_err := ErrUnsupportedAuth | ErrMissingNonce | ErrMissingCNonce.

Definition digestHash (algorithm : list Z) : res auth_err (list Z → list Z) :=
  if bool_decide (algorithm = []) || EqualFold algorithm algMD5 then mret md5
  else if EqualFold algorithm algSHA256 then mret sha256
  else Err ErrUnsupportedAuth.

Definition qopOffersAuth (qop : list Z) : bool := existsb (λ v, EqualFold (TrimSpace v) qopAuth) (Split 44 qop).

Definition digestAnswerable (c : Challenge) : bool :=
  if bool_decide (param c paramNonce = []) then false
  else match digestHash (param c paramAlgorithm) with
       | Ok _ =>
           let qop := TrimSpace (param c paramQOP) in
           bool_decide (qop = []) || qopOffersAuth qop
       | _ => false
       end.

Fixpoint select (cs : list Challenge) (digest basic : option Challenge) : option Challenge :=
  match cs with
  | [] => match digest with Some _ => digest | None => basic end
  | c :: cs =>
      match Scheme c with
      | AuthDigest =>
          if negb (digestAnswerable c) then select cs digest basic
          else if EqualFold (param c paramAlgorithm) algSHA256 then Some c
          else select cs (match digest with None => Some c | _ => digest end) basic
      | AuthBasic => select cs digest (match basic with None => Some c | _ => basic end)
      | _ => select cs digest basic
      end
  end.
Definition SelectChallenge (cs : list Challenge) : option Challenge := select cs None None.

(** ** Answering *)
Record Credentials := mkCredentials { Username : list Z; Password : list Z }.
Record DigestInput := mkInput { Method : list Z; URI : list Z; CNonce : list Z; NonceCount : Z }.

Definition replace_all (c : Z) (by_ : list Z) (s : list Z) : list Z := concat ((λ x, if x =? c then by_ else [x]) <$> s).
Definition is_crlf (c : Z) : bool := (c =? 13) || (c =? 10).
Definition stripCRLF (s : list Z) : list Z := if existsb is_crlf s then drop_runes is_crlf (length s) s else s.
Definition kvQuoted (name value : list Z) : list Z :=
  let value := replace_all 34 [92; 34] (replace_all 92 [92; 92] (stripCRLF value)) in
  name ++ [61; 34] ++ value ++ [34].
Definition kvUnquoted (name value : list Z) : list Z := name ++ [61] ++ value.

(** [strings.Join]. *)
Fixpoint join (sep : list Z) (ps : list (list Z)) : list Z :=
  match ps with [] => [] | [p] => p | p :: ps => p ++ sep ++ join sep ps end.

Definition basicAuthorization (creds : Credentials) : list Z :=
  str "Basic " ++ base64 (Username creds ++ [58] ++ Password creds).

Definition digestAuthorization (challenge : Challenge) (creds : Credentials) (inp : DigestInput) : res auth_err (list Z) :=
  let nonce := param challenge paramNonce in
  if bool_decide (nonce = []) then Err ErrMissingNonce
  else
    let algorithm := param challenge paramAlgorithm in
    newHash ← digestHash algorithm;
    let hashHex s := hex (newHash s) in
    let ha1 := hashHex (Username creds ++ [58] ++ Realm challenge ++ [58] ++ Password creds) in
    let ha2 := hashHex (Method inp ++ [58] ++ URI inp) in
    let parts := [kvQuoted (str "username") (Username creds); kvQuoted paramRealm (Realm challenge);
      kvQuoted paramNonce nonce; kvQuoted (str "uri") (URI inp)] in
    let qop := TrimSpace (param challenge paramQOP) in
    parts ← (if negb (bool_decide (qop = [])) then
      if negb (qopOffersAuth qop) then Err ErrUnsupportedAuth
      else if bool_decide (CNonce inp = []) then Err ErrMissingCNonce
      else
        let nc := hex (be32 (u32 (NonceCount inp))) in
        let response := hashHex (join [58] [ha1; nonce; nc; CNonce inp; qopAuth; ha2]) in
        let echoAlg := if bool_decide (algorithm = []) then algMD5 else algorithm in
        mret (parts ++ [kvUnquoted paramAlgorithm echoAlg; kvUnquoted paramQOP qopAuth; kvUnquoted (str "nc") nc;
          kvQuoted (str "cnonce") (CNonce inp); kvQuoted (str "response") response])
    else
      let response := hashHex (join [58] [ha1; nonce; ha2]) in
      let parts := if negb (bool_decide (algorithm = [])) then parts ++ [kvUnquoted paramAlgorithm algorithm] else parts in
      mret (parts ++ [kvQuoted (str "response") response]));
    let parts := match Params challenge !! paramOpaque with Some opaque => parts ++ [kvQuoted paramOpaque opaque] | None => parts end in
    mret (str "Digest " ++ join (str ", ") parts).

Definition Authorize (challenge : Challenge) (creds : Credentials) (inp : DigestInput) : res auth_err (list Z) :=
  match Scheme challenge with
  | AuthBasic => mret (basicAuthorization creds)
  | AuthDigest => digestAuthorization challenge creds inp
  | _ => Err ErrUnsupportedAuth
  end.

(** A line end removed takes what is not UTF-8 with it; without one the text is left alone. *)
Example stripCRLF_utf8 : stripCRLF (str "caf" ++ [0xE9; 13]) = str "caf" ++ [0xEF; 0xBF; 0xBD] ∧ stripCRLF (str "caf" ++ [0xE9]) = str "caf" ++ [0xE9] ∧
  stripCRLF (str "caf" ++ [0xC3; 0xA9; 13; 10]) = str "caf" ++ [0xC3; 0xA9].
Proof. vm_compute. done. Qed.
(** SHA-256 may be spelt with a long s. *)
Example EqualFold_long_s : EqualFold ([0xC5; 0xBF] ++ str "ha-256") algSHA256 = true.
Proof. vm_compute. reflexivity. Qed.

(** The example of RFC 7616, section 3.9.1, from the challenge to the answer. *)
Definition rfc7616_challenge (alg : string) : list Z :=
  str "Digest realm=" ++ [34] ++ str "http-auth@example.org" ++ [34] ++ str ", qop=" ++ [34] ++ str "auth, auth-int" ++ [34] ++
  str ", algorithm=" ++ str alg ++ str ", nonce=" ++ [34] ++ str "7ypf/xlj9XXwfDPEoM4URrv/xwf94BcCAzFZH4GiTo0v" ++ [34] ++
  str ", opaque=" ++ [34] ++ str "FQhe/qaU925kfnzjCev0ciny7QMkPqMAFRtzCUYo5tdS" ++ [34].
Definition rfc7616_input : DigestInput :=
  mkInput (str "GET") (str "/dir/index.html") (str "f2/wE4q74E6zIJEtWaHKaf5wv/H5QzzpXusqGemxURZJ") 1.
Definition rfc7616_response (alg : string) : option (list Z) :=
  match SelectChallenge (ParseChallenges [rfc7616_challenge alg]) with
  | Some c =>
      match Authorize c (mkCredentials (str "Mufasa") (str "Circle of Life")) rfc7616_input with
      | Ok v => match ParseChallenges [v] with [p] => Params p !! str "response" | _ => None end
      | _ => None
      end
  | None => None
  end.
Example rfc7616_sha256 : rfc7616_response "SHA-256" = Some (str "753927fa0e85d155564e2e272a28d1802ca10daf4496794697cf8db5856cb6c1").
Proof. vm_compute. reflexivity. Qed.
Example rfc7616_md5 : rfc7616_response "MD5" = Some (str "8ca523f5e9506fed4657c9700eebdbec").
Proof. vm_compute. reflexivity. Qed.

(** ** Rendered fields *)
Record field := mkField { f_quoted : bool; f_name : list Z; f_value : list Z }.
Definition render (f : field) : list Z := if f_quoted f then kvQuoted (f_name f) (f_value f) else kvUnquoted (f_name f) (f_value f).

(** A name in lower-case letters; a bare value is a token, but for characters outside ASCII. *)
Definition plain (c : Z) : bool := ascii_mark c && negb (c =? 34) && negb (c =? 44) && negb (c =? 92) && negb (c =? 61).
Definition tame (c : Z) : bool := plain c || (0x80 <=? c).
Record bare_ok (v : list Z) : Prop := {
  br_tame : Forall (λ c, tame c = true) v;
  br_trim : TrimSpace v = v;
  br_last : ∃ z, list.last v = Some z ∧ plain z = true
}.
Definition field_ok (f : field) : Prop :=
  f_name f ≠ [] ∧ Forall (λ c, plain c = true ∧ lower c = c) (f_name f) ∧ (f_quoted f = false → bare_ok (f_value f)).
Lemma plain_mark c : plain c = true → ascii_mark c = true.
Proof. unfold plain. intros H. breflect. done. Qed.
Lemma plain_tame c : plain c = true → tame c = true.
Proof. unfold tame. by intros ->. Qed.

(** What the other side should read. *)
Definition meant (f : field) : list Z := if f_quoted f then stripCRLF (f_value f) else f_value f.
Definition put_field (c : Challenge) (f : field) : Challenge :=
  mkChallenge (Scheme c) (if bool_decide (f_name f = paramRealm) then meant f else Realm c) (<[f_name f := meant f]> (Params c)).

Definition escaped (v : list Z) : list Z := replace_all 34 [92; 34] (replace_all 92 [92; 92] v).

Lemma replace_all_app c b l k : replace_all c b (l ++ k) = replace_all c b l ++ replace_all c b k.
Proof. unfold replace_all. by rewrite fmap_app, concat_app. Qed.
Lemma escaped_cons x v : escaped (x :: v) = (if x =? 92 then [92; 92] else if x =? 34 then [92; 34] else [x]) ++ escaped v.
Proof.
  unfold escaped at 1. change (x :: v) with ([x] ++ v). rewrite !replace_all_app. f_equal. unfold replace_all. cbn.
  destruct (Z.eqb_spec x 92) as [->|]; [done|]. cbn. by destruct (x =? 34).
Qed.

Lemma split_quoted v rest b : split_segments (escaped v ++ 34 :: rest) b true false = split_segments rest (b ++ escaped v ++ [34]) false false.
Proof.
  revert b. induction v as [|x v IH]; intros b; [done|]. rewrite escaped_cons, <- app_assoc.
  destruct (Z.eqb_spec x 92) as [->|H92]; [|destruct (Z.eqb_spec x 34) as [->|H34]]; cbn [app split_segments Z.eqb Pos.eqb andb negb].
  - rewrite IH. by rewrite <- !app_assoc.
  - rewrite IH. by rewrite <- !app_assoc.
  - rewrite (proj2 (Z.eqb_neq x 92)), (proj2 (Z.eqb_neq x 34)), andb_false_r by done. cbn [andb]. rewrite IH. by rewrite <- !app_assoc.
Qed.
Lemma split_plain t rest b : Forall (λ c, tame c = true ∨ c = 61 ∨ c = 32) t → split_segments (t ++ rest) b false false = split_segments rest (b ++ t) false false.
Proof.
  intros H. revert b. induction H as [|c t Hc _ IH]; intros b; [by rewrite app_nil_r|]. cbn [app split_segments]. rewrite andb_false_r.
  assert (Hne : c ≠ 34 ∧ c ≠ 44) by (unfold tame, plain in Hc; destruct Hc as [Hc|[->| ->]]; [|done..]; apply orb_prop in Hc as [Hc|Hc]; breflect; lia).
  rewrite (proj2 (Z.eqb_neq c 34)), (proj2 (Z.eqb_neq c 44)) by apply Hne. cbn [andb]. rewrite IH. by rewrite <- app_assoc.
Qed.

Lemma render_quoted f : f_quoted f = true → render f = f_name f ++ 61 :: 34 :: escaped (stripCRLF (f_value f)) ++ [34].
Proof. unfold render. by intros ->. Qed.
Lemma render_bare f : f_quoted f = false → render f = f_name f ++ 61 :: f_value f.
Proof. unfold render. by intros ->. Qed.

Lemma plain_names l : Forall (λ c, plain c = true ∧ lower c = c) l → Forall (λ c, tame c = true ∨ c = 61 ∨ c = 32) l.
Proof. intros H. eapply Forall_impl; [exact H|]. intros c [? _]. left. by apply plain_tame. Qed.

Lemma split_render f rest b : field_ok f → split_segments (render f ++ rest) b false false = split_segments rest (b ++ render f) false false.
Proof.
  intros (_ & Hn & Hv). destruct (f_quoted f) eqn:E.
  - rewrite render_quoted by done. rewrite <- app_assoc, split_plain by by apply plain_names. cbn [app split_segments Z.eqb Pos.eqb andb negb].
    rewrite <- app_assoc. cbn [app]. rewrite split_quoted. f_equal. by rewrite <- !app_assoc.
  - rewrite render_bare by done. destruct (Hv eq_refl) as [Hp _ _].
    apply split_plain, Forall_app_2; [by apply plain_names|]. constructor; [by right; left|]. eapply Forall_impl; [exact Hp|]. by left.
Qed.

Lemma split_join f fs b : Forall field_ok (f :: fs) →
  split_segments (join (str ", ") (render <$> f :: fs)) b false false = (b ++ render f) :: ((λ f, 32 :: render f) <$> fs).
Proof.
  revert f b. induction fs as [|g fs IH]; intros f b [Hf Hfs]%Forall_cons_iff.
  - cbn [fmap list_fmap join]. rewrite <- (app_nil_r (render f)) at 1. by rewrite split_render.
  - change (join (str ", ") (render <$> f :: g :: fs)) with (render f ++ 44 :: 32 :: join (str ", ") (render <$> g :: fs)).
    rewrite split_render by done. cbn [split_segments Z.eqb Pos.eqb andb negb]. change ([] ++ [32]) with [32]. rewrite IH by done. done.
Qed.

(** ** Segments *)
Lemma TrimSpace_blank s c z : head s = Some c → list.last s = Some z → ascii_mark c = true → ascii_mark z = true → TrimSpace (32 :: s) = s.
Proof.
  intros Hh Hl Hc Hz. unfold TrimSpace. cbn [length]. change (trim_front spaces (S (length s)) (32 :: s)) with (trim_front spaces (length s) s).
  rewrite (trim_mark spaces s c) by done. rewrite <- (length_reverse s), (trim_mark (reverse <$> spaces) (reverse s) z); [apply reverse_involutive|done| |done].
  by rewrite head_reverse.
Qed.

(** A rendered field starts and ends with a visible character. *)
Lemma render_marks f : field_ok f → ∃ c z, head (render f) = Some c ∧ list.last (render f) = Some z ∧ ascii_mark c = true ∧ ascii_mark z = true.
Proof.
  intros (Hne & Hn & Hv). destruct (f_name f) as [|c n] eqn:En; [done|]. exists c.
  assert (Hm : ∀ c, plain c = true → ascii_mark c = true) by (unfold plain; intros ?; by intros ?%andb_prop%proj1%andb_prop%proj1%andb_prop%proj1%andb_prop%proj1).
  pose proof (Forall_inv Hn) as [Hc _]. destruct (f_quoted f) eqn:E.
  - exists 34. rewrite render_quoted, En by done. split_and!; [done| |by apply Hm|done]. rewrite !app_comm_cons, !app_assoc. apply last_snoc.
  - destruct (Hv eq_refl) as [_ _ (z & Ez & Hz)]. exists z. rewrite render_bare, En by done.
    split_and!; [done| |by apply Hm|by apply Hm]. change (61 :: f_value f) with ([61] ++ f_value f).
    by rewrite !last_app, Ez.
Qed.

Lemma blank_plain c : plain c = true → blank c = false.
Proof. unfold plain, ascii_mark, blank. intros H. breflect. by rewrite (proj2 (Z.eqb_neq c 32)), (proj2 (Z.eqb_neq c 9)) by lia. Qed.

(** Its first word has the equals sign in it, so it is a parameter. *)
Lemma render_head f : field_ok f → ∃ h t, splitToken (render f) = (h, t) ∧ 61 ∈ h.
Proof.
  intros (_ & Hn & _). assert (H : ∃ w, render f = f_name f ++ 61 :: w) by (unfold render, kvQuoted, kvUnquoted; destruct (f_quoted f); by eexists).
  destruct H as [w ->]. unfold splitToken. destruct (split_at_blank (f_name f ++ 61 :: w)) as [h t] eqn:E. eexists _, _. split; [done|].
  revert h E. induction Hn as [|c n [Hc _] _ IH]; intros h E; cbn in E.
  - destruct (split_at_blank w). injection E as <- _. by left.
  - rewrite blank_plain in E by done. destruct (split_at_blank (n ++ 61 :: w)) as [h' t']. injection E as <- ->. right. by eapply IH.
Qed.

Lemma not_scheme h name : 61 ∈ h → (61 ∉ (lower <$> name)) → EqualFold h name = false.
Proof. intros Hh Hn. apply bool_decide_eq_false. intros E. apply Hn. rewrite <- E. by apply simple_fold_in. Qed.

Lemma unquote_escaped v b : unquote (escaped v ++ [34]) b false = b ++ v.
Proof.
  revert b. induction v as [|x v IH]; intros b; [by rewrite app_nil_r|]. rewrite escaped_cons, <- app_assoc.
  destruct (Z.eqb_spec x 92) as [->|H92]; [|destruct (Z.eqb_spec x 34) as [->|H34]]; cbn [app unquote Z.eqb Pos.eqb].
  - rewrite IH. by rewrite <- app_assoc.
  - rewrite IH. by rewrite <- app_assoc.
  - rewrite (proj2 (Z.eqb_neq x 92)), (proj2 (Z.eqb_neq x 34)) by done. rewrite IH. by rewrite <- app_assoc.
Qed.

Lemma TrimSpace_plain s : s ≠ [] → Forall (λ c, plain c = true) s → TrimSpace s = s.
Proof.
  intros Hne Hs. assert (Hm : Forall (λ c, ascii_mark c = true) s).
  { eapply Forall_impl; [exact Hs|]. unfold plain. by intros c ?%andb_prop%proj1%andb_prop%proj1%andb_prop%proj1%andb_prop%proj1. }
  destruct (exists_last Hne) as (l & z & E). destruct s as [|c s]; [done|]. apply (TrimSpace_id _ c z); [done| |by apply Forall_inv in Hm|].
  - rewrite E. apply last_snoc.
  - rewrite E in Hm. by apply Forall_app in Hm as [_ Hz%Forall_inv].
Qed.

Lemma parseAuthParam_render c f : field_ok f → parseAuthParam c (render f) = put_field c f.
Proof.
  intros (Hne & Hn & Hv). unfold parseAuthParam.
  assert (Hcut : ∃ w, render f = f_name f ++ 61 :: w ∧ parseAuthParamValue w = meant f).
  { unfold meant. destruct (f_quoted f) eqn:E.
    - eexists. split; [by apply render_quoted|]. unfold parseAuthParamValue. rewrite (TrimSpace_id _ 34 34); [|done| |done|done].
      + cbn [Z.eqb Pos.eqb]. by rewrite unquote_escaped.
      + rewrite app_comm_cons. apply last_snoc.
    - eexists. split; [by apply render_bare|]. destruct (Hv eq_refl) as [Hvp Ht _]. unfold parseAuthParamValue. rewrite Ht.
      destruct (f_value f) as [|x l]; [done|]. apply Forall_inv in Hvp. cbv zeta. destruct (Z.eqb_spec x 34) as [->|]; [by vm_compute in Hvp|done]. }
  destruct Hcut as (w & -> & Hw). rewrite Cut_app.
  - rewrite TrimSpace_plain; [|done|eapply Forall_impl; [exact Hn|]; by intros ? []].
    assert (El : lower <$> f_name f = f_name f).
    { clear - Hn. induction Hn as [|x l [_ Hx] _ IH]; [done|]. cbn. f_equal; [exact Hx|exact IH]. }
    rewrite El, bool_decide_false by done. cbv zeta. by rewrite Hw.
  - intros Hin. eapply Forall_forall in Hn; [|exact Hin]. destruct Hn as [Hp _]. by vm_compute in Hp.
Qed.

Lemma parse_segment_param c cs f : field_ok f → parse_segment (c :: cs, true) (32 :: render f) = (put_field c f :: cs, true).
Proof.
  intros Hf. destruct (render_marks f Hf) as (x & z & Hx & Hz & Mx & Mz). unfold parse_segment. rewrite (TrimSpace_blank _ x z) by done.
  rewrite bool_decide_false by (by intros E; rewrite E in Hx). destruct (render_head f Hf) as (h & t & -> & Hin).
  rewrite !not_scheme by (done || by refine (bool_decide_unpack _ _); vm_compute).
  assert (He : existsb (Z.eqb 61) h = true) by (apply existsb_exists; exists 61; split; [by apply list_elem_of_In|done]). rewrite He. cbn [negb on_current].
  by rewrite parseAuthParam_render.
Qed.

Lemma parse_segment_first cs b f : field_ok f →
  parse_segment (cs, b) (str "Digest " ++ render f) = (put_field (mkChallenge AuthDigest [] ∅) f :: cs, true).
Proof.
  intros Hf. destruct (render_marks f Hf) as (x & z & Hx & Hz & Mx & Mz). unfold parse_segment.
  rewrite (TrimSpace_id _ 68 z); [|done| |done|done].
  2: { destruct (render f) as [|y r] eqn:E; [done|]. rewrite last_app. by rewrite Hz. }
  rewrite bool_decide_false by done.
  assert (Es : splitToken (str "Digest " ++ render f) = (str "Digest", render f)).
  { unfold splitToken. change (split_at_blank (str "Digest " ++ render f)) with (str "Digest", 32 :: render f). cbn [trim_blanks]. change (blank 32) with true. cbn iota.
    destruct (render f) as [|y r]; [done|]. injection Hx as ->. cbn [trim_blanks]. unfold blank, ascii_mark in *. breflect.
    by rewrite (proj2 (Z.eqb_neq x 32)), (proj2 (Z.eqb_neq x 9)) by lia. }
  rewrite Es. change (EqualFold (str "Digest") (str "Basic")) with false. change (EqualFold (str "Digest") (str "Digest")) with true. cbn iota.
  unfold opens. rewrite bool_decide_false by (by intros E; rewrite E in Hx). cbn [on_current fst]. by rewrite parseAuthParam_render.
Qed.

(** The fields are all the other side reads, and it reads each as it was meant. *)
Lemma parse_fields f fs : Forall field_ok (f :: fs) →
  ParseChallenges [str "Digest " ++ join (str ", ") (render <$> f :: fs)] = [foldl put_field (mkChallenge AuthDigest [] ∅) (f :: fs)].
Proof.
  intros Hfs. pose proof Hfs as [Hf Hr]%Forall_cons_iff. unfold ParseChallenges. cbn [foldl]. unfold parseChallengeValue, splitChallengeSegments.
  rewrite split_plain by (by repeat (constructor; [vm_compute; tauto|]); constructor). cbn [app]. rewrite split_join by done. cbn [foldl].
  rewrite parse_segment_first by done. generalize (put_field (mkChallenge AuthDigest [] ∅) f). clear Hfs Hf.
  induction Hr as [|g fs Hg _ IH]; intros c; [done|]. cbn [fmap list_fmap foldl]. rewrite parse_segment_param by done. apply IH.
Qed.

(** ** What an answer says *)

(** The parameters meant, in the order they are sent, for the hash function [H]. *)
Definition answer (H : list Z → list Z) (c : Challenge) (creds : Credentials) (inp : DigestInput) : list (list Z * list Z) :=
  let ha1 := hex (H (Username creds ++ [58] ++ Realm c ++ [58] ++ Password creds)) in
  let ha2 := hex (H (Method inp ++ [58] ++ URI inp)) in
  let alg := param c paramAlgorithm in
  let nc := hex (be32 (u32 (NonceCount inp))) in
  let with_qop := negb (bool_decide (TrimSpace (param c paramQOP) = [])) in
  [(str "username", stripCRLF (Username creds)); (paramRealm, stripCRLF (Realm c));
   (paramNonce, stripCRLF (param c paramNonce)); (str "uri", stripCRLF (URI inp))] ++
  (if with_qop then
     [(paramAlgorithm, if bool_decide (alg = []) then algMD5 else alg); (paramQOP, qopAuth); (str "nc", nc);
      (str "cnonce", stripCRLF (CNonce inp));
      (str "response", hex (H (join [58] [ha1; param c paramNonce; nc; CNonce inp; qopAuth; ha2])))]
   else (if bool_decide (alg = []) then [] else [(paramAlgorithm, alg)]) ++
     [(str "response", hex (H (join [58] [ha1; param c paramNonce; ha2])))]) ++
  match Params c !! paramOpaque with Some o => [(paramOpaque, stripCRLF o)] | None => [] end.

Definition quoted (name : list Z) : bool :=
  negb (bool_decide (name = paramAlgorithm) || bool_decide (name = paramQOP) || bool_decide (name = str "nc")).
Definition to_field (p : list Z * list Z) : field := mkField (quoted p.1) p.1 p.2.

Lemma second_high a b : second a b = true → 0x80 ≤ b.
Proof. unfold second. destruct (a =? 0xE0), (a =? 0xF0); intros [? _]%andb_prop; lia. Qed.
Lemma RuneWidth_take s w : RuneWidth s = Some w → ∃ c t, s = c :: t ∧ (1 ≤ w ≤ length s)%nat ∧ Forall (λ x, 0x80 ≤ x) (take (w - 1) t).
Proof.
  destruct s as [|a [|b [|c [|d s]]]]; [done|..]; cbn [RuneWidth]; (destruct (Z.ltb_spec a 0x80); [intros [= <-]; eexists _, _; split; [done|]; split; [cbn; lia|constructor]|]);
    [done|..]; unfold continuation;
    repeat (match goal with |- context [if ?x then _ else _] => destruct x eqn:? end); intros E; try discriminate E; injection E as <-; breflect;
    repeat match goal with H : second _ _ = true |- _ => apply second_high in H end;
    eexists _, _; (split; [reflexivity|]); (split; [cbn; lia|]); cbn [Nat.sub take]; repeat (apply Forall_cons_2; [lia|]); constructor.
Qed.
Lemma drop_runes_clean fuel s : Forall (λ c, is_crlf c = false) (drop_runes is_crlf fuel s).
Proof.
  revert s. induction fuel as [|fuel IH]; intros [|c s]; [constructor..|]. cbn [drop_runes]. destruct (is_crlf c) eqn:Ec; [apply IH|].
  destruct (RuneWidth (c :: s)) as [w|] eqn:Ew; [|apply Forall_app_2; [by repeat constructor|apply IH]].
  apply Forall_app_2; [|apply IH]. destruct (RuneWidth_take _ _ Ew) as (c' & t & [= <- <-] & Hw & Hall). destruct w as [|w]; [lia|]. cbn [take].
  cbn [Nat.sub] in Hall. rewrite Nat.sub_0_r in Hall. apply Forall_cons_2; [done|]. eapply Forall_impl; [exact Hall|]. cbn. intros x Hx. unfold is_crlf.
  by rewrite (proj2 (Z.eqb_neq x 13)), (proj2 (Z.eqb_neq x 10)) by lia.
Qed.
Lemma strip_none s : Forall (λ c, is_crlf c = false) s → stripCRLF s = s.
Proof.
  intros H. unfold stripCRLF. assert (existsb is_crlf s = false) as ->; [|done]. induction H as [|c s Hc _ IH]; [done|]. cbn. by rewrite Hc.
Qed.
Lemma strip_clean s : Forall (λ c, is_crlf c = false) (stripCRLF s).
Proof.
  unfold stripCRLF. destruct (existsb is_crlf s) eqn:E; [apply drop_runes_clean|]. induction s as [|c s IH]; [constructor|].
  cbn in E. apply orb_false_elim in E as [? ?]. constructor; auto.
Qed.
Lemma strip_strip s : stripCRLF (stripCRLF s) = stripCRLF s.
Proof. apply strip_none, strip_clean. Qed.
Lemma kvQuoted_strip name v : kvQuoted name (stripCRLF v) = kvQuoted name v.
Proof. unfold kvQuoted. by rewrite strip_strip. Qed.
Lemma hex_strip b : bytes_ok b → stripCRLF (hex b) = hex b.
Proof. intros Hb. apply strip_none. eapply Forall_impl; [by apply hex_digits|]. cbn. unfold is_crlf. intros c Hc. lia. Qed.
Lemma hex_plain b : bytes_ok b → Forall (λ c, plain c = true) (hex b).
Proof. intros Hb. eapply Forall_impl; [by apply hex_digits|]. unfold plain, ascii_mark. intros c Hc. lia. Qed.

Lemma plain_bare v : v ≠ [] → Forall (λ c, plain c = true) v → bare_ok v.
Proof.
  intros Hn Hv. split; [|by apply TrimSpace_plain|].
  - eapply Forall_impl; [exact Hv|]. intros c. apply plain_tame.
  - destruct (exists_last Hn) as (l & z & ->). exists z. split; [apply last_snoc|]. by apply Forall_app in Hv as [_ Hz%Forall_inv].
Qed.
Lemma plain_lower c : plain (lower c) = true → plain c = true.
Proof. unfold lower, plain, ascii_mark. destruct ((65 <=? c) && (c <=? 90)) eqn:?; lia. Qed.
(** What folds to a token is nearly one. *)
Lemma fold_bare s l z : simple_fold s = l ++ [z] → Forall (λ c, plain c = true) (l ++ [z]) → z ≠ 115 → z ≠ 107 → bare_ok s.
Proof.
  intros E Hp H1 H2.
  assert (Hall : ∀ l s, simple_fold s = l → Forall (λ c, plain c = true) l → Forall (λ c, tame c = true) s).
  { clear. induction l as [|x l IH]; intros s E Hl; [apply simple_fold_nil in E as ->; constructor|]. apply Forall_cons_iff in Hl as [Hx Hl].
    apply simple_fold_inv in E as [(c & s' & -> & <- & E)|[(-> & s' & -> & E)|(-> & s' & -> & E)]].
    - constructor; [by apply plain_tame, plain_lower|by apply IH].
    - do 2 (constructor; [done|]). by apply IH.
    - do 3 (constructor; [done|]). by apply IH. }
  assert (Hlast : ∀ l s, simple_fold s = l ++ [z] → ∃ c, list.last s = Some c ∧ lower c = z).
  { clear - H1 H2. induction l as [|x l IH]; intros s E; cbn [app] in E;
      apply simple_fold_inv in E as [(c & s' & -> & Hc & E)|[(Hx & s' & -> & E)|(Hx & s' & -> & E)]]; try congruence.
    - apply simple_fold_nil in E as ->. by exists c.
    - destruct (IH _ E) as (c' & Hl & Hz). exists c'. split; [|done]. destruct s'; [done|exact Hl].
    - destruct (IH _ E) as (c' & Hl & Hz). exists c'. split; [|done]. destruct s'; [done|exact Hl].
    - destruct (IH _ E) as (c' & Hl & Hz). exists c'. split; [|done]. destruct s'; [done|exact Hl]. }
  destruct (Hlast _ _ E) as (c & Hc & Hz). assert (Hpc : plain c = true) by (apply plain_lower; rewrite Hz; by apply Forall_app in Hp as [_ ?%Forall_inv]).
  split; [by eapply Hall| |by exists c]. apply (TrimSpace_front _ c); [|done|by apply plain_mark].
  destruct s as [|a s]; [done|]. destruct (l ++ [z]) as [|x k] eqn:El; [by destruct l|].
  apply simple_fold_inv in E as [(b & s' & [= <- <-] & Hx & _)|[(_ & s' & [= -> ->] & _)|(_ & s' & [= -> ->] & _)]]; [|done|done].
  apply strip_any_mark; [done|]. apply Forall_inv in Hp. rewrite <- Hx in Hp. by apply plain_mark, plain_lower.
Qed.
Lemma digestHash_ok alg H : digestHash alg = Ok H → (∀ s, bytes_ok (H s)) ∧ (alg ≠ [] → bare_ok alg).
Proof.
  unfold digestHash. destruct (bool_decide (alg = [])) eqn:E; [|destruct (EqualFold alg algMD5) eqn:E1; [|destruct (EqualFold alg algSHA256) eqn:E2; [|done]]];
    intros <-%Ok_inv; (split; [auto using md5_bytes, sha256_bytes|]).
  - by apply bool_decide_eq_true in E.
  - intros _. apply bool_decide_eq_true in E1. eapply (fold_bare _ [109; 100] 53); [exact E1|refine (bool_decide_unpack _ _); by vm_compute|done|done].
  - intros _. apply bool_decide_eq_true in E2. eapply (fold_bare _ [115; 104; 97; 45; 50; 53] 54); [exact E2|refine (bool_decide_unpack _ _); by vm_compute|done|done].
Qed.

(** The value sent is these parameters, rendered. *)
Lemma digestAuthorization_answer c creds inp H v : digestAuthorization c creds inp = Ok v → digestHash (param c paramAlgorithm) = Ok H →
  v = str "Digest " ++ join (str ", ") (render <$> (to_field <$> answer H c creds inp)).
Proof.
  unfold digestAuthorization. intros Hv HH. destruct (bool_decide (param c paramNonce = [])); [done|]. rewrite HH, bind_Ok in Hv.
  unfold answer. destruct (bool_decide (TrimSpace (param c paramQOP) = [])); cbn [negb] in *.
  - rewrite bind_ret in Hv. apply Ok_inv in Hv as <-. destruct (Params c !! paramOpaque) as [o|], (bool_decide (param c paramAlgorithm = []));
      rewrite <- ?(kvQuoted_strip _ (Username creds)), <- ?(kvQuoted_strip _ (Realm c)), <- ?(kvQuoted_strip _ (URI inp)),
        <- ?(kvQuoted_strip _ (param c paramNonce)), <- ?(kvQuoted_strip _ o); reflexivity.
  - destruct (qopOffersAuth _); [|done]. destruct (bool_decide (CNonce inp = [])); [done|]. cbn [negb] in Hv. rewrite bind_ret in Hv. apply Ok_inv in Hv as <-.
    destruct (Params c !! paramOpaque) as [o|];
      rewrite <- ?(kvQuoted_strip _ (Username creds)), <- ?(kvQuoted_strip _ (Realm c)), <- ?(kvQuoted_strip _ (URI inp)),
        <- ?(kvQuoted_strip _ (param c paramNonce)), <- ?(kvQuoted_strip _ (CNonce inp)), <- ?(kvQuoted_strip _ o); reflexivity.
Qed.

Lemma answer_fields H c creds inp : (∀ s, bytes_ok (H s)) → (param c paramAlgorithm ≠ [] → bare_ok (param c paramAlgorithm)) →
  Forall field_ok (to_field <$> answer H c creds inp).
Proof.
  intros HH Ha. assert (Hq : ∀ n v, quoted n = true → n ≠ [] ∧ Forall (λ c, plain c = true ∧ lower c = c) n → field_ok (to_field (n, v))).
  { intros n v Hn [? ?]. unfold field_ok, to_field. cbn. by rewrite Hn. }
  assert (Hb : ∀ n v, n ≠ [] ∧ Forall (λ c, plain c = true ∧ lower c = c) n → bare_ok v → field_ok (to_field (n, v)))
    by (intros n v [? ?] ?; by split; [|split]).
  assert (Hne : bool_decide (param c paramAlgorithm = []) = false → param c paramAlgorithm ≠ []) by by intros ?%bool_decide_eq_false.
  unfold answer. rewrite !fmap_app. repeat apply Forall_app_2; [|
    destruct (bool_decide (TrimSpace _ = [])), (bool_decide (param c paramAlgorithm = [])) eqn:E|destruct (Params c !! paramOpaque)]; cbn [negb app fmap list_fmap];
    repeat (apply Forall_cons_2 || apply Forall_nil_2);
    (apply Hq; [done|refine (bool_decide_unpack _ _); by vm_compute]) ||
    (apply Hb; [refine (bool_decide_unpack _ _); by vm_compute|]).
  all: cbn iota; lazymatch goal with
    | |- bare_ok (hex _) => apply plain_bare; [done|apply hex_plain, be_split_bytes_ok]
    | |- bare_ok (param _ _) => by auto
    | |- _ => apply plain_bare; [done|refine (bool_decide_unpack _ _); by vm_compute]
    end.
Qed.

Lemma put_fields fs c : NoDup (f_name <$> fs) →
  Params (foldl put_field c fs) = list_to_map ((λ f, (f_name f, meant f)) <$> fs) ∪ Params c ∧
  Scheme (foldl put_field c fs) = Scheme c ∧
  (Realm c = default [] (Params c !! paramRealm) →
    Realm (foldl put_field c fs) = default [] (Params (foldl put_field c fs) !! paramRealm)).
Proof.
  revert c. induction fs as [|f fs IH]; intros c Hd; [cbn; by rewrite (left_id_L ∅ (∪))|]. cbn [fmap list_fmap] in *.
  apply NoDup_cons in Hd as [Hf Hd]. cbn [foldl]. destruct (IH (put_field c f) Hd) as (Hp & Hs & Hr). split; [|split; [done|]].
  - rewrite Hp. cbn [list_to_map foldr put_field Params fst snd]. rewrite <- insert_union_l. symmetry. rewrite <- insert_union_r; [done|].
    apply not_elem_of_list_to_map. rewrite <- list_fmap_compose. exact Hf.
  - intros Hrealm. apply Hr. unfold put_field. cbn [Realm Params]. case_bool_decide as E.
    + by rewrite E, lookup_insert_eq.
    + by rewrite lookup_insert_ne.
Qed.

Lemma answer_names H c creds inp : NoDup (f_name <$> (to_field <$> answer H c creds inp)).
Proof.
  unfold answer. rewrite <- list_fmap_compose. refine (bool_decide_unpack _ _).
  destruct (Params c !! paramOpaque), (bool_decide (TrimSpace _ = [])), (bool_decide (param c paramAlgorithm = [])); by vm_compute.
Qed.

Lemma answer_meant H c creds inp : (∀ s, bytes_ok (H s)) →
  (λ f, (f_name f, meant f)) <$> (to_field <$> answer H c creds inp) = answer H c creds inp.
Proof.
  intros HH. rewrite <- list_fmap_compose. rewrite <- (list_fmap_id (answer H c creds inp)) at 2. apply Forall_fmap_ext_1.
  assert (Hq : ∀ n v, stripCRLF v = v → (λ f, (f_name f, meant f)) (to_field (n, v)) = (n, v)).
  { intros n v Hv. unfold to_field. cbn [fst snd f_name]. f_equal. unfold meant. cbn [f_quoted f_value]. rewrite Hv. by destruct (quoted n). }
  unfold compose. unfold answer. repeat apply Forall_app_2; [|
    destruct (bool_decide (TrimSpace _ = [])), (bool_decide (param c paramAlgorithm = []))|destruct (Params c !! paramOpaque)]; cbn [negb app];
    repeat (apply Forall_cons_2 || apply Forall_nil_2); first [done|apply Hq, strip_strip|apply Hq, hex_strip, HH].
Qed.

Lemma Authorize_digest c creds inp v : Scheme c = AuthDigest → Authorize c creds inp = Ok v →
  digestAuthorization c creds inp = Ok v ∧ ∃ H, digestHash (param c paramAlgorithm) = Ok H.
Proof.
  unfold Authorize. intros ->. intros Hv. split; [done|]. unfold digestAuthorization in Hv. destruct (bool_decide _); [done|].
  destruct (digestHash (param c paramAlgorithm)) as [H| |]; [by exists H|done|done].
Qed.

(** *** No line end in a value *)
Abbreviation clean_text := (Forall (λ c, is_crlf c = false)).
Lemma base64_clean b : clean_text (base64 b).
Proof.
  assert (Hd : ∀ n, is_crlf (base64_digit n) = false).
  { intros n. unfold base64_digit. assert (Ha : Forall (λ c, is_crlf c = false) base64_alphabet) by (refine (bool_decide_unpack _ _); by vm_compute).
    destruct (nth_in_or_default (Z.to_nat n) base64_alphabet 47) as [Hin| ->]; [|done]. rewrite Forall_forall in Ha. by apply Ha, list_elem_of_In. }
  induction b as [b IH] using (induction_ltof1 _ (@length Z)). unfold ltof in IH.
  destruct b as [|x [|y [|z b]]]; cbn [base64]; repeat (apply Forall_cons_2; [first [done|apply Hd]|]); try constructor.
  apply IH. cbn. lia.
Qed.
Lemma escaped_clean v : clean_text v → clean_text (escaped v).
Proof.
  induction 1 as [|x v Hx _ IH]; [constructor|]. rewrite escaped_cons. apply Forall_app_2; [|done].
  destruct (x =? 92); [by repeat constructor|]. destruct (x =? 34); by repeat constructor.
Qed.
Lemma tame_clean v : Forall (λ c, tame c = true) v → clean_text v.
Proof. intros H. eapply Forall_impl; [exact H|]. unfold tame, plain, ascii_mark, is_crlf. intros c Hc. lia. Qed.
Lemma render_clean f : field_ok f → clean_text (render f).
Proof.
  intros (_ & Hn & Hv). assert (clean_text (f_name f)).
  { apply tame_clean. eapply Forall_impl; [exact Hn|]. intros c [? _]. by apply plain_tame. }
  destruct (f_quoted f) eqn:E.
  - rewrite render_quoted by done. apply Forall_app_2; [done|]. do 2 (constructor; [done|]). apply Forall_app_2; [|by repeat constructor].
    apply escaped_clean, strip_clean.
  - rewrite render_bare by done. apply Forall_app_2; [done|]. constructor; [done|]. apply tame_clean, (Hv eq_refl).
Qed.
Lemma join_clean sep ps : clean_text sep → Forall clean_text ps → clean_text (join sep ps).
Proof.
  intros Hs. induction 1 as [|p ps Hp Hps IH]; [constructor|]. destruct ps as [|q ps]; [done|].
  change (clean_text (p ++ sep ++ join sep (q :: ps))). by repeat apply Forall_app_2.
Qed.
Lemma digest_clean c creds inp v : Scheme c = AuthDigest → Authorize c creds inp = Ok v → clean_text v.
Proof.
  intros Es Hv. destruct (Authorize_digest _ _ _ _ Es Hv) as (Hd & H & HH). destruct (digestHash_ok _ _ HH) as [Hb Ha].
  rewrite (digestAuthorization_answer _ _ _ _ _ Hd HH). apply Forall_app_2; [by repeat constructor|].
  apply join_clean; [by repeat constructor|]. apply Forall_fmap. eapply Forall_impl; [by apply (answer_fields H c creds inp)|]. apply render_clean.
Qed.
Lemma Authorize_clean c creds inp v : Authorize c creds inp = Ok v → clean_text v.
Proof.
  intros Hv. destruct (Scheme c) eqn:Es; try (unfold Authorize in Hv; by rewrite Es in Hv); [|by eapply digest_clean].
  unfold Authorize in Hv. rewrite Es in Hv. apply Ok_inv in Hv as <-. apply Forall_app_2; [by repeat constructor|]. apply base64_clean.
Qed.

(** C26: The Digest answer is read by a parser of authentication values as one Digest value with
    exactly the parameters of RFC 7616 (or RFC 2069 when the challenge has no qop), and nothing
    in the credentials, the request or the challenge can add, remove or alter one: each text
    comes back as it was, whatever quotes, commas, backslashes and equals signs it holds, unless it
    holds a carriage return or a line feed; then it comes back without these and with every octet
    that is not UTF-8 replaced by U+FFFD ([stripCRLF]).  The value itself holds no line end. *)
Theorem authorization_unforgeable c creds inp v : Scheme c = AuthDigest → Authorize c creds inp = Ok v →
  ∃ H p, digestHash (param c paramAlgorithm) = Ok H ∧ ParseChallenges [v] = [p] ∧ Scheme p = AuthDigest ∧
    Realm p = stripCRLF (Realm c) ∧ Params p = list_to_map (answer H c creds inp) ∧ Forall (λ x, is_crlf x = false) v.
Proof.
  intros Hs Hv. pose proof (digest_clean _ _ _ _ Hs Hv) as Hcl. destruct (Authorize_digest _ _ _ _ Hs Hv) as (Hd & H & HH).
  destruct (digestHash_ok _ _ HH) as [Hb Ha]. exists H.
  pose proof (answer_fields H c creds inp Hb Ha) as Hok. pose proof (answer_names H c creds inp) as Hn.
  rewrite (digestAuthorization_answer _ _ _ _ _ Hd HH) in Hcl |- *. destruct (put_fields _ (mkChallenge AuthDigest [] ∅) Hn) as (Hp & Hsc & Hr).
  rewrite (answer_meant _ _ _ _ Hb) in Hp. cbn [Params] in Hp. rewrite (right_id_L ∅ (∪)) in Hp.
  eexists. split; [done|]. split; [exact (parse_fields _ _ Hok)|]. split; [exact Hsc|]. split; [|by split].
  etrans; [apply Hr; done|]. etrans; [exact (f_equal (λ m : gmap _ _, default [] (m !! paramRealm)) Hp)|].
  unfold answer. cbn [app list_to_map foldr fst snd]. rewrite lookup_insert_ne by done. by rewrite lookup_insert_eq.
Qed.

Definition sly : Credentials := mkCredentials (str "a" ++ [34; 44; 32] ++ str "uri=" ++ [34; 92; 13; 10]) (str "x").
Definition rfc7616_parsed : Challenge := default (mkChallenge AuthNone [] ∅) (SelectChallenge (ParseChallenges [rfc7616_challenge "SHA-256"])).
Definition sly_value : list Z := match Authorize rfc7616_parsed sly rfc7616_input with Ok v => v | _ => [] end.
Lemma authorization_unforgeable_witness : ∃ p, ParseChallenges [sly_value] = [p] ∧
  Params p !! str "username" = Some (str "a" ++ [34; 44; 32] ++ str "uri=" ++ [34; 92]) ∧ Params p !! str "uri" = Some (str "/dir/index.html").
Proof.
  destruct (authorization_unforgeable rfc7616_parsed sly rfc7616_input sly_value) as (H & p & HH & Hp & _ & _ & HP & _); [reflexivity|vm_compute; reflexivity|].
  exists p. split; [exact Hp|]. rewrite HP. split; reflexivity.
Defined.

(** ** The choice *)
Definition is_scheme (a : AuthScheme) (c : Challenge) : bool := bool_decide (Scheme c = a).
Definition sha256_digest (c : Challenge) : bool := EqualFold (param c paramAlgorithm) algSHA256.

(** How strong an answer to a challenge is. *)
Definition strength (c : Challenge) : Z := if is_scheme AuthDigest c then (if sha256_digest c then 2 else 1) else 0.

Definition usable (n : Z) (c : Challenge) : bool :=
  (is_scheme AuthDigest c && digestAnswerable c || is_scheme AuthBasic c) && (n <=? strength c).

Definition or_else {A} (x y : option A) : option A := match x with Some _ => x | None => y end.
Lemma select_find cs digest basic : select cs digest basic =
  or_else (find (usable 2) cs) (or_else (or_else digest (find (usable 1) cs)) (or_else basic (find (is_scheme AuthBasic) cs))).
Proof.
  revert digest basic. induction cs as [|c cs IH]; intros digest basic; [by destruct digest, basic|]. cbn [select find].
  unfold usable, strength, sha256_digest, is_scheme. destruct (Scheme c) eqn:Es; cbn [bool_decide decide_rel]; rewrite ?IH; cbn.
  all: try (destruct digest, basic; reflexivity).
  destruct (digestAnswerable c); cbn; [|done]. destruct (EqualFold _ _); cbn; [done|]. by destruct digest.
Qed.

Lemma find_split {A} (p : A → bool) l :
  match find p l with
  | Some x => ∃ before after, l = before ++ x :: after ∧ p x = true ∧ Forall (λ y, p y = false) before
  | None => Forall (λ y, p y = false) l
  end.
Proof.
  induction l as [|x l IH]; [by constructor|]. cbn. destruct (p x) eqn:E; [exists [], l; by repeat constructor|]. destruct (find p l) as [y|]; [|by constructor].
  destruct IH as (b & a & -> & Hy & Hb). exists (x :: b), a. split; [done|]. split; [done|by constructor].
Qed.

(** The screen is exact: a challenge passes it iff it can be answered. *)
Lemma usable_answered c creds inp : CNonce inp ≠ [] → usable 0 c = true ↔ ∃ v, Authorize c creds inp = Ok v.
Proof.
  intros Hc. assert (H0 : (0 <=? strength c) = true) by (unfold strength; destruct (is_scheme _ _); [destruct (sha256_digest c)|]; done).
  unfold usable. rewrite H0, andb_true_r. unfold Authorize, is_scheme. destruct (Scheme c) eqn:E; cbn; try (split; [done|by intros []]).
  - split; [|done]. intros _. by eexists.
  - rewrite orb_false_r. unfold digestAnswerable, digestAuthorization. destruct (bool_decide (param c paramNonce = [])); [by split; [|intros []]|].
    destruct (digestHash _) as [H| |]; [|by split; [|intros []]..]. rewrite bind_Ok.
    destruct (bool_decide (TrimSpace _ = [])); cbn; [split; [|done]; intros _; by eexists|].
    rewrite (bool_decide_eq_false_2 (CNonce inp = [])) by done. destruct (qopOffersAuth _); cbn; [|by split; [|intros []]].
    split; [|done]. intros _. by eexists.
Qed.

Lemma usable_spec n c : usable n c = usable 0 c && (n <=? strength c).
Proof.
  unfold usable. assert (H0 : (0 <=? strength c) = true) by (unfold strength; destruct (is_scheme _ _); [destruct (sha256_digest c)|]; done).
  by rewrite H0, andb_true_r.
Qed.
Lemma strength_max c : strength c ≤ 2.
Proof. unfold strength. destruct (is_scheme _ _); [destruct (sha256_digest c)|]; lia. Qed.

Lemma find_basic cs : Forall (λ d, usable 1 d = false) cs → find (is_scheme AuthBasic) cs = find (usable 0) cs.
Proof.
  induction 1 as [|d cs Hd _ IH]; [done|]. cbn [find]. rewrite IH. replace (usable 0 d) with (is_scheme AuthBasic d); [done|].
  unfold usable, strength, is_scheme in *. destruct (Scheme d); cbn in *; try done. destruct (sha256_digest d); cbn in *; by rewrite orb_false_r, andb_true_r in *.
Qed.

(** The first of the strongest, when nothing is stronger than [n] and something has it. *)
Lemma pick_strongest n cs c creds inp : CNonce inp ≠ [] → Forall (λ d, usable (n + 1) d = false) cs → find (usable n) cs = Some c →
  (∃ v, Authorize c creds inp = Ok v) ∧ ∃ before after, cs = before ++ c :: after ∧
    (∀ d v, d ∈ before → Authorize d creds inp = Ok v → strength d < strength c) ∧
    (∀ d v, d ∈ after → Authorize d creds inp = Ok v → strength d ≤ strength c).
Proof.
  intros Hc Hn Hf. pose proof (find_split (usable n) cs) as H. rewrite Hf in H. destruct H as (b & a & -> & Hu & Hb).
  rewrite usable_spec in Hu. apply andb_prop in Hu as [Hu Hs%Z.leb_le]. split; [by apply usable_answered|]. exists b, a. split; [done|].
  assert (Ha : ∀ d v, Authorize d creds inp = Ok v → usable 0 d = true) by (intros d v Hv; apply (usable_answered d creds inp Hc); by exists v).
  apply Forall_app in Hn as [_ [_ Hn]%Forall_cons_iff]. split; intros d v Hd Hv%Ha.
  - eapply Forall_forall in Hb; [|exact Hd]. rewrite usable_spec, Hv in Hb. breflect. cbn in Hb. lia.
  - eapply Forall_forall in Hn; [|exact Hd]. rewrite usable_spec, Hv in Hn. cbn in Hn. breflect. lia.
Qed.

(** [SelectChallenge] returns a challenge only when [Authorize] can answer it, and then the
    first of the strongest of those it can answer (a SHA-256 Digest, else any other Digest, else
    Basic); it returns none only when [Authorize] refuses every one. *)
Theorem selected_answerable cs creds inp : CNonce inp ≠ [] →
  match SelectChallenge cs with
  | Some c => (∃ v, Authorize c creds inp = Ok v) ∧ ∃ before after, cs = before ++ c :: after ∧
      (∀ d v, d ∈ before → Authorize d creds inp = Ok v → strength d < strength c) ∧
      (∀ d v, d ∈ after → Authorize d creds inp = Ok v → strength d ≤ strength c)
  | None => ∀ d v, d ∈ cs → Authorize d creds inp ≠ Ok v
  end.
Proof.
  intros Hc. unfold SelectChallenge. rewrite select_find. cbn [or_else].
  pose proof (find_split (usable 2) cs) as H2. destruct (find (usable 2) cs) as [c|] eqn:E2; cbn [or_else].
  { apply (pick_strongest 2); [done| |done]. apply Forall_forall. intros d _. rewrite usable_spec. pose proof (strength_max d).
    apply andb_false_intro2. lia. }
  pose proof (find_split (usable 1) cs) as H1. destruct (find (usable 1) cs) as [c|] eqn:E1; cbn [or_else]; [by apply (pick_strongest 1)|].
  rewrite find_basic by done. pose proof (find_split (usable 0) cs) as H0. destruct (find (usable 0) cs) as [c|] eqn:E0; [by apply (pick_strongest 0)|].
  intros d v Hd Hv. eapply Forall_forall in H0; [|exact Hd]. assert (Hu : usable 0 d = true) by (apply (usable_answered d creds inp Hc); by exists v).
  congruence.
Qed.

Definition offered : list Challenge := ParseChallenges [str "Basic realm=x, Digest nonce=a, algorithm=SHA-512-256"; rfc7616_challenge "MD5"; rfc7616_challenge "SHA-256"; str "Digest"].
Definition strongest : Challenge := default (mkChallenge AuthNone [] ∅) (offered !! 3%nat).
Lemma selected_answerable_witness : SelectChallenge offered = Some strongest ∧ ∃ v, Authorize strongest sly rfc7616_input = Ok v.
Proof.
  assert (Hn : CNonce rfc7616_input ≠ []) by (vm_compute; discriminate). pose proof (selected_answerable offered sly rfc7616_input Hn) as H.
  assert (E : SelectChallenge offered = Some strongest) by (vm_compute; reflexivity). rewrite E in H. split; [exact E|exact (proj1 H)].
Defined.
End httpauth.
