(* ===== verification/Sdp.v ===== *)
(** * Session descriptions: [rtsp/sdp]

    The parser of a DESCRIBE body, which is remote input, the resolution of each media section
    to a codec, and the writer.  A Go [nil] slice is the empty list here: nothing in the
    package tells the two apart.  [current], a pointer to the section being filled, is its
    index. *)
From Stdlib Require Import Ascii String.
From S2P Require Import Prelude Bytes Text Media Hash.
From stdpp Require Import gmap.
Local Open Scope Z_scope.

Module sdp.
Import audiostream.

(** ** What the code uses of [strings] and [encoding] beyond [Text] *)

(** [strings.Fields] *)
Definition emit_field (cur : list Z) (rest : list (list Z)) : list (list Z) :=
  match cur with [] => rest | _ => reverse cur :: rest end.
Fixpoint fields_from (fuel : nat) (cur s : list Z) : list (list Z) :=
  match fuel, s with
  | S fuel, c :: r =>
      match strip_any spaces s with
      | Some r => emit_field cur (fields_from fuel [] r)
      | None => fields_from fuel (c :: cur) r
      end
  | _, _ => emit_field cur []
  end.
Definition Fields (s : list Z) : list (list Z) := fields_from (length s) [] s.

(** [strings.ToLower] and [strings.ToUpper], as far as comparing the result with an ASCII
    string can tell: of the letters outside ASCII only these change into ASCII ones. *)
Fixpoint ToLower (s : list Z) : list Z :=
  match s with
  | 0xc4 :: 0xb0 :: r => 105 :: ToLower r
  | 0xe2 :: 0x84 :: 0xaa :: r => 107 :: ToLower r
  | c :: r => lower c :: ToLower r
  | [] => []
  end.
Fixpoint ToUpper (s : list Z) : list Z :=
  match s with
  | 0xc4 :: 0xb1 :: r => 73 :: ToUpper r
  | 0xc5 :: 0xbf :: r => 83 :: ToUpper r
  | c :: r => upper c :: ToUpper r
  | [] => []
  end.

(** [hex.DecodeString] *)
Definition unhex (c : Z) : option Z :=
  if (48 <=? c) && (c <=? 57) then Some (c - 48)
  else if (97 <=? c) && (c <=? 102) then Some (c - 87)
  else if (65 <=? c) && (c <=? 70) then Some (c - 55)
  else None.
Fixpoint hex_DecodeString (s : list Z) : option (list Z) :=
  match s with
  | [] => Some []
  | a :: b :: s => x ← unhex a; y ← unhex b; r ← hex_DecodeString s; Some (16 * x + y :: r)
  | _ => None
  end.

(** [base64.StdEncoding] (padded) and [base64.RawStdEncoding]: line ends are skipped, the
    unused bits of a last group are not looked at. *)
Definition base64_value (c : Z) : option Z :=
  if (65 <=? c) && (c <=? 90) then Some (c - 65)
  else if (97 <=? c) && (c <=? 122) then Some (c - 71)
  else if (48 <=? c) && (c <=? 57) then Some (c + 4)
  else if c =? 43 then Some 62 else if c =? 47 then Some 63 else None.
Definition base64_two (a b : Z) : option (list Z) :=
  x ← base64_value a; y ← base64_value b; Some [4 * x + y / 16].
Definition base64_three (a b c : Z) : option (list Z) :=
  x ← base64_value a; y ← base64_value b; z ← base64_value c; Some [4 * x + y / 16; y mod 16 * 16 + z / 4].
Definition base64_four (a b c d : Z) : option (list Z) :=
  x ← base64_value a; y ← base64_value b; z ← base64_value c; w ← base64_value d;
  Some [4 * x + y / 16; y mod 16 * 16 + z / 4; z mod 4 * 64 + w].
Fixpoint base64_groups (padding : bool) (s : list Z) : option (list Z) :=
  match s with
  | [] => Some []
  | a :: b :: c :: d :: r =>
      if padding && (d =? 61) then
        match r with
        | [] => if c =? 61 then base64_two a b else base64_three a b c
        | _ => None
        end
      else p ← base64_four a b c d; q ← base64_groups padding r; Some (p ++ q)
  | [a; b; c] => if padding then None else base64_three a b c
  | [a; b] => if padding then None else base64_two a b
  | [_] => None
  end.
Definition base64_DecodeString (padding : bool) (s : list Z) : option (list Z) :=
  base64_groups padding (filter (λ c, c ≠ 10 ∧ c ≠ 13) s).

(** ** The parsed description *)
Definition MaxInputSize : Z := 64 * 1024.
Definition MaxMediaSections : Z := 16.
Definition MaxAttributesPerSection : Z := 128.

Inductive err := ErrInputTooLarge | ErrTooManyMedia | ErrTooManyAttributes | ErrInjection | ErrBadPayloadType | ErrBadRtpmap.

Record RTPMap := mkRTPMap { PayloadType : Z; EncodingName : list Z; ClockRate : Z; Channels : Z }.

Record Media := mkMedia {
  Kind : Z; Proto : list Z; Formats : list Z; Control : list Z; RTPMaps : gmap Z RTPMap; FMTPs : gmap Z (list Z)
}.
Definition set_control (v : list Z) (m : Media) : Media := mkMedia (Kind m) (Proto m) (Formats m) v (RTPMaps m) (FMTPs m).
Definition add_rtpmap (pt : Z) (r : RTPMap) (m : Media) : Media :=
  mkMedia (Kind m) (Proto m) (Formats m) (Control m) (<[pt := r]> (RTPMaps m)) (FMTPs m).
Definition add_fmtp (pt : Z) (v : list Z) (m : Media) : Media :=
  mkMedia (Kind m) (Proto m) (Formats m) (Control m) (RTPMaps m) (<[pt := v]> (FMTPs m)).

Record Session := mkSession { s_Control : list Z; s_Name : list Z; s_Tool : list Z; s_Media : list Media }.
Definition set_sControl (v : list Z) (s : Session) : Session := mkSession v (s_Name s) (s_Tool s) (s_Media s).
Definition set_Name (v : list Z) (s : Session) : Session := mkSession (s_Control s) v (s_Tool s) (s_Media s).
Definition set_Tool (v : list Z) (s : Session) : Session := mkSession (s_Control s) (s_Name s) v (s_Media s).
Definition set_Media (v : list Media) (s : Session) : Session := mkSession (s_Control s) (s_Name s) (s_Tool s) v.

(** ** Parsing *)
Definition maxPayloadType : Z := 127.
Definition validPayloadType (pt : Z) : bool := (0 <=? pt) && (pt <=? maxPayloadType).

(** A payload type read from text. *)
Definition payload_type (tok : list Z) : option Z :=
  match Atoi tok with Some pt => if validPayloadType pt then Some pt else None | None => None end.

Definition parseMediaLine (val : list Z) : Media :=
  let fields := Fields val in
  match fields with
  | [] => mkMedia MediaOther [] [] [] ∅ ∅
  | f :: _ =>
      let kind := if bool_decide (f = str "audio") then MediaAudio else if bool_decide (f = str "video") then MediaVideo else MediaOther in
      mkMedia kind (default [] (fields !! 2%nat)) (omap payload_type (drop 3 fields)) [] ∅ ∅
  end.

Definition parseRTPMap (value : list Z) (m : Media) : Media :=
  match SplitN 2 32 value with
  | [p0; p1] =>
      match payload_type p0 with
      | None => m
      | Some pt =>
          match Split 47 p1 with
          | enc :: clk :: segs =>
              match Atoi clk with
              | None => m
              | Some clock =>
                  let channels := match segs with ch :: _ => default 0 (Atoi ch) | [] => 0 end in
                  add_rtpmap pt (mkRTPMap pt enc clock channels) m
              end
          | _ => m
          end
      end
  | _ => m
  end.

Definition parseFMTP (value : list Z) (m : Media) : Media :=
  match SplitN 2 32 value with
  | [p0; p1] => match payload_type p0 with None => m | Some pt => add_fmtp pt p1 m end
  | _ => m
  end.

(** What an attribute does to the section [current] points to. *)
Definition on_current (current : option nat) (f : Media → Media) (s : Session) : Session :=
  match current with None => s | Some i => set_Media (alter f i (s_Media s)) s end.

Definition parseAttribute (val : list Z) (s : Session) (current : option nat) : Session :=
  match SplitN 2 58 val with
  | [name; value] =>
      if bool_decide (name = str "control") then
        match current with None => set_sControl value s | Some _ => on_current current (set_control value) s end
      else if bool_decide (name = str "rtpmap") then on_current current (parseRTPMap value) s
      else if bool_decide (name = str "fmtp") then on_current current (parseFMTP value) s
      else if bool_decide (name = str "tool") then
        match current with None => if bool_decide (s_Tool s = []) then set_Tool value s else s | Some _ => s end
      else s
  | _ => s
  end.

(** The variables of the loop of [Parse]. *)
Record parser := mkParser { ps_s : Session; current : option nat; sessionAttrs : Z; mediaAttrs : Z }.

(** The switch on the type of a line. *)
Definition parse_item (typ : Z) (val : list Z) (p : parser) : res err parser :=
  if typ =? 115 (* s *) then
    mret (if bool_decide (s_Name (ps_s p) = []) then mkParser (set_Name val (ps_s p)) (current p) (sessionAttrs p) (mediaAttrs p) else p)
  else if typ =? 109 (* m *) then
    if MaxMediaSections <=? blen (s_Media (ps_s p)) then Err ErrTooManyMedia
    else
      let ms := s_Media (ps_s p) ++ [parseMediaLine val] in
      mret (mkParser (set_Media ms (ps_s p)) (Some (length ms - 1)%nat) (sessionAttrs p) 0)
  else if typ =? 97 (* a *) then
    match current p with
    | None =>
        let n := sessionAttrs p + 1 in
        if MaxAttributesPerSection <? n then Err ErrTooManyAttributes
        else mret (mkParser (parseAttribute val (ps_s p) (current p)) (current p) n (mediaAttrs p))
    | Some _ =>
        let n := mediaAttrs p + 1 in
        if MaxAttributesPerSection <? n then Err ErrTooManyAttributes
        else mret (mkParser (parseAttribute val (ps_s p) (current p)) (current p) (sessionAttrs p) n)
    end
  else mret p.

Definition parse_line (raw : list Z) (p : parser) : res err parser :=
  let line := TrimSuffix raw [13] in
  match line with
  | typ :: eq :: val => if negb (eq =? 61) then mret p else parse_item typ val p
  | _ => mret p
  end.

Fixpoint parse_lines (ls : list (list Z)) (p : parser) : res err parser :=
  match ls with [] => mret p | l :: ls => p ← parse_line l p; parse_lines ls p end.

Definition no_session : Session := mkSession [] [] [] [].
Definition Parse (body : list Z) : res err Session :=
  if MaxInputSize <? blen body then Err ErrInputTooLarge
  else p ← parse_lines (Split 10 body) (mkParser no_session None 0 0); mret (ps_s p).

(** ** Codecs *)
Record AACParams := mkAACParams { SizeLength : Z; IndexLength : Z; IndexDeltaLength : Z; Mode : list Z; a_Config : list Z }.
Record LATMParams := mkLATMParams { l_Config : list Z; Cpresent : bool; Object : Z }.

Record DescribedTrack := mkDescribed {
  t_Media : Z; t_PayloadType : Z; t_Codec : Codec; t_ClockRate : Z; t_Channels : Z; t_Control : list Z; t_FMTP : list Z;
  t_AAC : option AACParams; t_LATM : option LATMParams
}.

Definition g726ClockRate : Z := 8000.
Definition streamInfoLen : Z := 34.

(** [parseFmtpPairs], the calls of [fn] folded over a state. *)
Definition parseFmtpPairs {S} (params : list Z) (fn : list Z → list Z → S → S) (s : S) : S :=
  foldl (λ s elem,
    match SplitN 2 61 elem with
    | [k; v] => fn (ToLower (TrimSpace k)) (TrimSpace v) s
    | _ => s
    end) s (Split 59 params).

Definition parseAACFmtp (params : list Z) : AACParams :=
  parseFmtpPairs params (λ key value p,
    if bool_decide (key = str "sizelength") then
      match Atoi value with Some n => mkAACParams n (IndexLength p) (IndexDeltaLength p) (Mode p) (a_Config p) | None => p end
    else if bool_decide (key = str "indexlength") then
      match Atoi value with Some n => mkAACParams (SizeLength p) n (IndexDeltaLength p) (Mode p) (a_Config p) | None => p end
    else if bool_decide (key = str "indexdeltalength") then
      match Atoi value with Some n => mkAACParams (SizeLength p) (IndexLength p) n (Mode p) (a_Config p) | None => p end
    else if bool_decide (key = str "mode") then mkAACParams (SizeLength p) (IndexLength p) (IndexDeltaLength p) value (a_Config p)
    else if bool_decide (key = str "config") then
      match hex_DecodeString value with Some b => mkAACParams (SizeLength p) (IndexLength p) (IndexDeltaLength p) (Mode p) b | None => p end
    else p) (mkAACParams 0 0 0 [] []).

Definition parseLATMFmtp (params : list Z) : LATMParams :=
  parseFmtpPairs params (λ key value p,
    if bool_decide (key = str "cpresent") then
      match Atoi value with Some n => mkLATMParams (l_Config p) (negb (n =? 0)) (Object p) | None => p end
    else if bool_decide (key = str "object") then
      match Atoi value with Some n => mkLATMParams (l_Config p) (Cpresent p) n | None => p end
    else if bool_decide (key = str "config") then
      match hex_DecodeString value with Some b => mkLATMParams b (Cpresent p) (Object p) | None => p end
    else p) (mkLATMParams [] true 0).

Definition parseFLACFmtp (params : list Z) : list Z :=
  parseFmtpPairs params (λ key value streamInfo,
    if negb (bool_decide (key = str "streaminfo")) || bool_decide (value = []) then streamInfo
    else
      let b := match base64_DecodeString true value with Some b => Some b | None => base64_DecodeString false value end in
      match b with
      | Some b => if blen b =? streamInfoLen then b else streamInfo
      | None => streamInfo
      end) [].

Definition resolveG726 (up : list Z) : option (Z * Z) :=
  if bool_decide (up = str "G726-16") then Some (0, G726PackingRFC3551)
  else if bool_decide (up = str "G726-24") then Some (1, G726PackingRFC3551)
  else if bool_decide (up = str "G726-32") then Some (2, G726PackingRFC3551)
  else if bool_decide (up = str "G726-40") then Some (3, G726PackingRFC3551)
  else if bool_decide (up = str "AAL2-G726-16") then Some (0, G726PackingAAL2)
  else if bool_decide (up = str "AAL2-G726-24") then Some (1, G726PackingAAL2)
  else if bool_decide (up = str "AAL2-G726-32") then Some (2, G726PackingAAL2)
  else if bool_decide (up = str "AAL2-G726-40") then Some (3, G726PackingAAL2)
  else None.

Definition rtpmapString (encoding : list Z) (clock channels : Z) (hasRTPMap : bool) : list Z :=
  if negb hasRTPMap then []
  else encoding ++ 47 :: Itoa clock ++ (if channels =? 0 then [] else 47 :: Itoa channels).

(** The encoding name, clock and channel count of a payload type that has no rtpmap. *)
Definition static_format (pt : Z) : list Z * Z * Z :=
  if pt =? 0 then (str "PCMU", 8000, 1)
  else if pt =? 8 then (str "PCMA", 8000, 1)
  else if pt =? 10 then (str "L16", 44100, 2)
  else if pt =? 11 then (str "L16", 44100, 1)
  else if pt =? 2 then (str "G726-32", g726ClockRate, 1)
  else if pt =? 14 then (str "MPA", 90000, 1)
  else ([], 0, 0).

(** The switch of [describeTrack] on the upper-cased name. *)
Definition resolve_codec (fmtp encoding : list Z) (clock channels rawChannels : Z) (hasRTPMap : bool) : Codec * option AACParams * option LATMParams :=
  let up := ToUpper encoding in
  let unknown := CodecUnknown (rtpmapString encoding clock rawChannels hasRTPMap) in
  if bool_decide (up = str "MPEG4-GENERIC") then
    let params := parseAACFmtp fmtp in (CodecAAC (a_Config params), Some params, None)
  else if bool_decide (up = str "MP4A-LATM") then
    let params := parseLATMFmtp fmtp in (CodecMP4ALATM (l_Config params) (Cpresent params) [], None, Some params)
  else if bool_decide (up = str "OPUS") then (CodecOpus, None, None)
  else if bool_decide (up = str "MPA") || bool_decide (up = str "MP3") then (CodecMP3, None, None)
  else if bool_decide (up = str "FLAC") then (CodecFLAC (parseFLACFmtp fmtp), None, None)
  else if bool_decide (up = str "PCMU") then (CodecG711 0, None, None)
  else if bool_decide (up = str "PCMA") then (CodecG711 1, None, None)
  else if bool_decide (up = str "L16") then (CodecL16 clock channels, None, None)
  else match resolveG726 up with
  | Some (br, pk) =>
      if (channels =? 1) && (clock =? g726ClockRate) then (CodecG726 br pk clock channels, None, None) else (unknown, None, None)
  | None => (unknown, None, None)
  end.

Definition describeTrack (m : Media) : DescribedTrack :=
  match Formats m with
  | [] => mkDescribed (Kind m) (-1) (CodecUnknown []) 0 0 (Control m) [] None None
  | pt :: _ =>
      let fmtp := default [] (FMTPs m !! pt) in
      let '(encoding, clock, rawChannels, hasRTPMap) := match RTPMaps m !! pt with
        | Some rm => (EncodingName rm, ClockRate rm, Channels rm, true)
        | None => (static_format pt, false)
        end in
      let channels := if (rawChannels <=? 0) && negb (bool_decide (encoding = [])) then 1 else rawChannels in
      let '(codec, aac, latm) := resolve_codec fmtp encoding clock channels rawChannels hasRTPMap in
      mkDescribed (Kind m) pt codec clock channels (Control m) fmtp aac latm
  end.

Definition Codecs (s : Session) : list DescribedTrack := describeTrack <$> s_Media s.

(** ** Writing *)
Record WriteSpec := mkWriteSpec {
  w_Name : list Z; w_SessionID : Z; w_PayloadType : Z; w_EncodingName : list Z; w_ClockRate : Z; w_Channels : Z;
  w_Control : list Z; w_FMTP : list Z; w_Ptime : Z
}.

(** [strings.ContainsAny] *)
Definition ContainsAny (s chars : list Z) : bool := existsb (λ c, bool_decide (c ∈ chars)) s.

Definition token_char (c : Z) : bool :=
  ((97 <=? c) && (c <=? 122)) || ((65 <=? c) && (c <=? 90)) || ((48 <=? c) && (c <=? 57)) ||
  bool_decide (c ∈ str "!#$%&'*+-.^_`{|}~").
Definition isToken (s : list Z) : bool := negb (bool_decide (s = [])) && forallb token_char s.

Definition writeLine (line : list Z) : list Z := line ++ [13; 10].

Definition WriteSession (spec : WriteSpec) : res err (list Z) :=
  if (w_PayloadType spec <? 0) || (127 <? w_PayloadType spec) then Err ErrBadPayloadType
  else if existsb (λ f, ContainsAny f [13; 10; 0]) [w_Name spec; w_EncodingName spec; w_Control spec; w_FMTP spec] then Err ErrInjection
  else if negb (isToken (w_EncodingName spec)) || (w_ClockRate spec <=? 0) then Err ErrBadRtpmap
  else
    let pt := Itoa (w_PayloadType spec) in
    let id := Itoa (w_SessionID spec) in
    let name := if bool_decide (w_Name spec = []) then [32] else w_Name spec in
    mret (concat (writeLine <$>
      [str "v=0"; str "o=- " ++ id ++ [32] ++ id ++ str " IN IP4 0.0.0.0"; str "s=" ++ name; str "c=IN IP4 0.0.0.0"; str "t=0 0";
       str "m=audio 0 RTP/AVP " ++ pt;
       str "a=rtpmap:" ++ pt ++ [32] ++ w_EncodingName spec ++ [47] ++ Itoa (w_ClockRate spec) ++
         (if 0 <? w_Channels spec then 47 :: Itoa (w_Channels spec) else [])] ++
      (if bool_decide (w_FMTP spec = []) then [] else [str "a=fmtp:" ++ pt ++ [32] ++ w_FMTP spec]) ++
      (if 0 <? w_Ptime spec then [str "a=ptime:" ++ Itoa (w_Ptime spec)] else []) ++
      (if bool_decide (w_Control spec = []) then [] else [str "a=control:" ++ w_Control spec]))).

Definition sample_spec : WriteSpec := mkWriteSpec (str "cam") 7 97 (str "MPEG4-GENERIC") 48000 2 (str "trackID=0") (str "mode=AAC-hbr;config=1190") 20.
Example sample_described : match WriteSession sample_spec with
  | Ok b => match Parse b with Ok s => Codecs s | _ => [] end
  | _ => [] end
  = [mkDescribed MediaAudio 97 (CodecAAC [0x11; 0x90]) 48000 2 (str "trackID=0") (str "mode=AAC-hbr;config=1190")
      (Some (mkAACParams 0 0 0 (str "AAC-hbr") [0x11; 0x90])) None].
Proof. vm_compute. reflexivity. Qed.

(** ** A description as its sections

    The reference meaning of a body: its significant lines, the attributes ahead of the first
    [m=] line, and for every [m=] line the attributes up to the next one. *)
Definition significant (raw : list Z) : option (Z * list Z) :=
  match TrimSuffix raw [13] with
  | typ :: eq :: val => if eq =? 61 then Some (typ, val) else None
  | _ => None
  end.
Definition items (body : list Z) : list (Z * list Z) := omap significant (Split 10 body).

Fixpoint sections (its : list (Z * list Z)) : list (list Z) * list (list Z * list (list Z)) :=
  match its with
  | [] => ([], [])
  | (typ, val) :: its =>
      let '(a, ss) := sections its in
      if typ =? 109 then ([], (val, a) :: ss) else if typ =? 97 then (val :: a, ss) else (a, ss)
  end.
Definition names (its : list (Z * list Z)) : list (list Z) := omap (λ it, if it.1 =? 115 then Some it.2 else None) its.

(** The first value that is not empty. *)
Definition first_set (old : list Z) (vs : list (list Z)) : list Z := foldl (λ n v, if bool_decide (n = []) then v else n) old vs.

(** An attribute as its name and value. *)
Definition attribute (a : list Z) : option (list Z * list Z) :=
  match SplitN 2 58 a with [name; value] => Some (name, value) | _ => None end.
Definition valued (name : list Z) (attrs : list (list Z)) : list (list Z) :=
  omap (λ a, match attribute a with Some (n, v) => if bool_decide (n = name) then Some v else None | None => None end) attrs.

Definition media_attribute (m : Media) (a : list Z) : Media :=
  match attribute a with
  | Some (name, value) =>
      if bool_decide (name = str "control") then set_control value m
      else if bool_decide (name = str "rtpmap") then parseRTPMap value m
      else if bool_decide (name = str "fmtp") then parseFMTP value m
      else m
  | None => m
  end.
Definition describe_section (sec : list Z * list (list Z)) : Media := foldl media_attribute (parseMediaLine sec.1) sec.2.

Definition session_of (its : list (Z * list Z)) : Session :=
  let '(a, ss) := sections its in
  mkSession (default [] (list.last (valued (str "control") a))) (first_set [] (names its)) (first_set [] (valued (str "tool") a))
    (describe_section <$> ss).

Definition within_limits (its : list (Z * list Z)) : Prop :=
  let '(a, ss) := sections its in
  blen ss ≤ MaxMediaSections ∧ blen a ≤ MaxAttributesPerSection ∧ Forall (λ sec, blen sec.2 ≤ MaxAttributesPerSection) ss.

(** ** Lemmas *)

(** The session-level attributes of a list. *)
Definition head_attrs (s : Session) (attrs : list (list Z)) : Session :=
  foldl (λ s a, parseAttribute a s None) s attrs.

Lemma name_eq (a b : list Z) : a ≠ b → ∀ n, n = a → bool_decide (n = b) = false.
Proof. intros H n ->. by apply bool_decide_false. Qed.

Lemma head_attr_eq a s : parseAttribute a s None =
  mkSession (default (s_Control s) (list.last (valued (str "control") [a]))) (s_Name s) (first_set (s_Tool s) (valued (str "tool") [a])) (s_Media s).
Proof.
  destruct s as [c n t ms]. unfold parseAttribute, valued. cbn [omap list_omap]. unfold attribute.
  destruct (SplitN 2 58 a) as [|nm [|v [|x l]]]; try done.
  destruct (decide (nm = str "control")) as [->|H1]; [by vm_compute|].
  rewrite !(bool_decide_false (nm = str "control")) by done.
  destruct (decide (nm = str "rtpmap")) as [->|H2]; [by vm_compute|].
  destruct (decide (nm = str "fmtp")) as [->|H3]; [by vm_compute|].
  rewrite (bool_decide_false (nm = str "rtpmap")), (bool_decide_false (nm = str "fmtp")) by done.
  destruct (decide (nm = str "tool")) as [->|H4]; [|by rewrite !bool_decide_false by done].
  rewrite !(bool_decide_true (str "tool" = str "tool")) by done. cbn. by destruct (bool_decide (t = [])).
Qed.

Lemma valued_cons name a l : valued name (a :: l) = valued name [a] ++ valued name l.
Proof. unfold valued. cbn [omap list_omap]. by destruct (match attribute a with Some _ => _ | None => _ end). Qed.
Lemma first_set_app old l k : first_set old (l ++ k) = first_set (first_set old l) k.
Proof. apply foldl_app. Qed.
Lemma last_over (c : list Z) l k : default c (list.last (l ++ k)) = default (default c (list.last l)) (list.last k).
Proof. rewrite last_app. by destruct (list.last k). Qed.

Lemma head_attrs_eq s attrs : head_attrs s attrs =
  mkSession (default (s_Control s) (list.last (valued (str "control") attrs))) (s_Name s) (first_set (s_Tool s) (valued (str "tool") attrs)) (s_Media s).
Proof.
  revert s. induction attrs as [|a l IH]; intros s; [by destruct s|].
  rewrite !(valued_cons _ a l), first_set_app, last_over.
  change (head_attrs s (a :: l)) with (head_attrs (parseAttribute a s None) l). by rewrite IH, head_attr_eq.
Qed.

Lemma media_attr_eq a s i : parseAttribute a s (Some i) = set_Media (alter (λ m, media_attribute m a) i (s_Media s)) s.
Proof.
  assert (Hid : ∀ (f : Media → Media), (∀ m, f m = m) → set_Media (alter f i (s_Media s)) s = s).
  { intros f Hf. destruct s as [c n t ms]. unfold set_Media. cbn. f_equal. apply list_eq. intros j.
    destruct (decide (i = j)) as [->|]; [|by rewrite list_lookup_alter_ne].
    rewrite list_lookup_alter_eq. destruct (ms !! j); cbn; by rewrite ?Hf. }
  unfold parseAttribute, media_attribute, attribute. destruct (SplitN 2 58 a) as [|nm [|v [|x l]]]; try by rewrite Hid.
  destruct (bool_decide (nm = str "control")); [done|]. destruct (bool_decide (nm = str "rtpmap")); [done|].
  destruct (bool_decide (nm = str "fmtp")); [done|]. rewrite Hid by done. by destruct (bool_decide _).
Qed.

(** [parseAttribute] for every attribute of the section that is open, the last one. *)
Lemma open_attrs_eq s ms m attrs :
  foldl (λ s a, parseAttribute a s (Some (length ms))) (set_Media (ms ++ [m]) s) attrs = set_Media (ms ++ [foldl media_attribute m attrs]) s.
Proof.
  revert m. induction attrs as [|a l IH]; intros m; [done|]. cbn [foldl]. rewrite media_attr_eq. cbn [s_Media set_Media].
  rewrite <- (IH (media_attribute m a)). f_equal. unfold set_Media. cbn. f_equal.
  rewrite alter_app_r_alt, Nat.sub_diag by done. done.
Qed.

Definition attrs_of (p : parser) (a : list (list Z)) : Session := foldl (λ s x, parseAttribute x s (current p)) (ps_s p) a.
Definition counter (p : parser) : Z := match current p with None => sessionAttrs p | Some _ => mediaAttrs p end.
Definition append_media (ms : list Media) (s : Session) : Session := set_Media (s_Media s ++ ms) s.

Record parser_ok (p : parser) : Prop := {
  po_current : match current p with None => s_Media (ps_s p) = [] | Some i => ∃ ms m, s_Media (ps_s p) = ms ++ [m] ∧ i = length ms end;
  po_media : blen (s_Media (ps_s p)) ≤ MaxMediaSections;
  po_attrs : counter p ≤ MaxAttributesPerSection
}.

Lemma parseAttribute_name v n s cur : parseAttribute v (set_Name n s) cur = set_Name n (parseAttribute v s cur) ∧ s_Name (parseAttribute v s cur) = s_Name s.
Proof. destruct cur as [i|]; [by rewrite !media_attr_eq|by rewrite !head_attr_eq]. Qed.

Lemma attrs_name n p a : foldl (λ s x, parseAttribute x s (current p)) (set_Name n (ps_s p)) a = set_Name n (attrs_of p a) ∧
  s_Name (attrs_of p a) = s_Name (ps_s p).
Proof.
  unfold attrs_of. generalize (ps_s p) as s. induction a as [|x a IH]; intros s; [done|]. cbn [foldl].
  destruct (parseAttribute_name x n s (current p)) as [-> E]. destruct (IH (parseAttribute x s (current p))) as [-> ->]. by rewrite E.
Qed.

Lemma parse_line_item raw p : parse_line raw p = match significant raw with Some (typ, val) => parse_item typ val p | None => mret p end.
Proof. unfold parse_line, significant. destruct (TrimSuffix raw [13]) as [|t [|e v]]; [done|done|]. by destruct (e =? 61). Qed.

Lemma parseAttribute_media x s cur :
  match cur with None => s_Media s = [] | Some i => ∃ ms m, s_Media s = ms ++ [m] ∧ i = length ms end →
  match cur with None => s_Media (parseAttribute x s cur) = [] | Some i => ∃ ms m, s_Media (parseAttribute x s cur) = ms ++ [m] ∧ i = length ms end ∧
  length (s_Media (parseAttribute x s cur)) = length (s_Media s).
Proof.
  destruct cur as [i|].
  - intros (ms & m & E & ->). rewrite media_attr_eq. cbn [s_Media set_Media]. split; [|by rewrite length_alter].
    rewrite E. rewrite alter_app_r_alt, Nat.sub_diag by done. by exists ms, (media_attribute m x).
  - intros E. by rewrite head_attr_eq.
Qed.

(** An attribute line, under the limit. *)
Lemma parse_item_attr x p : parser_ok p → counter p + 1 ≤ MaxAttributesPerSection →
  ∃ p', parse_item 97 x p = Ok p' ∧ parser_ok p' ∧ current p' = current p ∧ ps_s p' = parseAttribute x (ps_s p) (current p) ∧ counter p' = counter p + 1.
Proof.
  intros [H1 H2 H3] Hc. destruct (parseAttribute_media x _ _ H1) as [H4 H5]. unfold parse_item, counter in *. cbn [Z.eqb Pos.eqb].
  destruct (current p) as [i|] eqn:Ec; (rewrite (proj2 (Z.ltb_ge _ _)) by lia); (eexists; split; [done|]); (split; [|done]);
    (split; cbn; [done|unfold blen in *; by rewrite H5|done]).
Qed.

(** The main loop reads a description section by section. *)
Definition fits (p : parser) (a : list (list Z)) (ss : list (list Z * list (list Z))) : Prop :=
  blen (s_Media (ps_s p)) + blen ss ≤ MaxMediaSections ∧ counter p + blen a ≤ MaxAttributesPerSection ∧
  Forall (λ sec, blen sec.2 ≤ MaxAttributesPerSection) ss.

(** The session the loop leaves, from the parser state and the items ahead. *)
Definition result (p : parser) (its : list (Z * list Z)) : Session :=
  let '(a, ss) := sections its in
  set_Name (first_set (s_Name (ps_s p)) (names its)) (append_media (describe_section <$> ss) (attrs_of p a)).
Definition fitting (p : parser) (its : list (Z * list Z)) : Prop := let '(a, ss) := sections its in fits p a ss.
Definition reads (p : parser) (its : list (Z * list Z)) (m : res err parser) : Prop :=
  (fitting p its → ∃ p', m = Ok p' ∧ ps_s p' = result p its) ∧
  (¬ fitting p its → m = Err ErrTooManyMedia ∨ m = Err ErrTooManyAttributes).

Lemma reads_step p its p' its' m : reads p' its' m → (fitting p its ↔ fitting p' its') → result p its = result p' its' → reads p its m.
Proof. intros [H1 H2] Hf Hr. split; [rewrite Hr, Hf; exact H1|rewrite Hf; exact H2]. Qed.

Lemma reads_name val its p k : parser_ok p → (∀ p', parser_ok p' → reads p' its (k p')) → reads p ((115, val) :: its) (parse_item 115 val p ≫= k).
Proof.
  intros Hp IH. unfold parse_item. cbn [Z.eqb Pos.eqb mbind res_bind mret res_ret].
  set (p' := if bool_decide (s_Name (ps_s p) = []) then _ else p).
  assert (Hs : ps_s p' = set_Name (first_set (s_Name (ps_s p)) [val]) (ps_s p) ∧ current p' = current p ∧ counter p' = counter p).
  { unfold p', first_set. cbn [foldl]. destruct (bool_decide _); [done|]. by destruct p as [[] ? ? ?]. }
  destruct Hs as (Hs & Hc & Hn). clearbody p'. destruct Hp as [H1 H2 H3].
  apply (reads_step _ _ p' its).
  - apply IH. split; [by rewrite Hc, Hs|by rewrite Hs|by rewrite Hn].
  - unfold fitting. cbn [sections]. destruct (sections its) as [a ss]. cbn [Z.eqb Pos.eqb]. unfold fits. by rewrite Hs, Hn.
  - unfold result. cbn [sections]. destruct (sections its) as [a ss]. cbn [Z.eqb Pos.eqb]. unfold attrs_of. rewrite Hs, Hc.
    destruct (attrs_name (first_set (s_Name (ps_s p)) [val]) p a) as [-> _]. cbn [names omap list_omap fst snd Z.eqb Pos.eqb].
    done.
Qed.

Lemma reads_media val its p k : parser_ok p → (∀ p', parser_ok p' → reads p' its (k p')) → reads p ((109, val) :: its) (parse_item 109 val p ≫= k).
Proof.
  intros [H1 H2 H3] IH. unfold parse_item. cbn [Z.eqb Pos.eqb].
  assert (Hf : fitting p ((109, val) :: its) ↔ blen (s_Media (ps_s p)) < MaxMediaSections ∧
    fitting (mkParser (set_Media (s_Media (ps_s p) ++ [parseMediaLine val]) (ps_s p)) (Some (length (s_Media (ps_s p)))) (sessionAttrs p) 0) its).
  { unfold fitting. cbn [sections]. destruct (sections its) as [a ss]. cbn [Z.eqb Pos.eqb]. unfold fits, counter at 2. cbn [current mediaAttrs ps_s s_Media set_Media].
    rewrite blen_app, (blen_cons (val, a)), Forall_cons, !blen_nil. change (blen [parseMediaLine val]) with 1. cbn [snd]. pose proof (blen_nonneg ss). split.
    - intros (A & B & C & D). split_and!; try done; lia.
    - intros (A & B & C & D). split_and!; try done; lia. }
  destruct (Z.leb_spec MaxMediaSections (blen (s_Media (ps_s p)))) as [Hl|Hl].
  { split; [|by left]. intros [? _]%Hf. lia. }
  cbn [mbind res_bind mret res_ret]. rewrite length_app. cbn [length]. rewrite Nat.add_sub.
  eapply (reads_step _ _ _ its).
  - apply IH. split; cbn; [by eexists _, _|rewrite blen_app; change (blen [parseMediaLine val]) with 1; lia|done].
  - rewrite Hf. tauto.
  - unfold result. cbn [sections]. destruct (sections its) as [a ss]. cbn [Z.eqb Pos.eqb]. unfold attrs_of. cbn [ps_s current foldl].
    rewrite open_attrs_eq. unfold append_media, set_Media, set_Name, names. cbn. by rewrite <- app_assoc.
Qed.

Lemma reads_attr val its p k : parser_ok p → (∀ p', parser_ok p' → reads p' its (k p')) → reads p ((97, val) :: its) (parse_item 97 val p ≫= k).
Proof.
  intros Hp IH. destruct (Z.le_gt_cases (counter p + 1) MaxAttributesPerSection) as [Hl|Hl].
  - destruct (parse_item_attr val p Hp Hl) as (p' & -> & Hp' & Hc & Hs & Hn). rewrite bind_Ok. apply (reads_step _ _ p' its); [by apply IH| |].
    + unfold fitting. cbn [sections]. destruct (sections its) as [a ss]. cbn [Z.eqb Pos.eqb]. unfold fits. rewrite Hn, Hs, blen_cons.
      assert (E : blen (s_Media (parseAttribute val (ps_s p) (current p))) = blen (s_Media (ps_s p))).
      { unfold blen. by rewrite (proj2 (parseAttribute_media val _ _ (po_current p Hp))). }
      rewrite E. split; intros (A & B & C); split_and!; try done; lia.
    + unfold result. cbn [sections]. destruct (sections its) as [a ss]. cbn [Z.eqb Pos.eqb]. unfold attrs_of. rewrite Hs, Hc. cbn [foldl names omap list_omap fst Z.eqb Pos.eqb].
      by rewrite (proj2 (parseAttribute_name val [] _ _)).
  - assert (E : parse_item 97 val p = Err ErrTooManyAttributes).
    { unfold parse_item, counter in *. cbn [Z.eqb Pos.eqb]. destruct (current p); by rewrite (proj2 (Z.ltb_lt _ _)) by lia. }
    rewrite E. split; [|by right]. unfold fitting. cbn [sections]. destruct (sections its) as [a ss]. cbn [Z.eqb Pos.eqb].
    intros (_ & B & _). rewrite blen_cons in B. pose proof (blen_nonneg a). lia.
Qed.

(** The loop reads a description section by section. *)
Lemma parse_lines_sections ls p : parser_ok p → reads p (omap significant ls) (parse_lines ls p).
Proof.
  revert p. induction ls as [|l ls IH]; intros p Hp.
  { split; [|intros []; split_and!; [pose proof (po_media p Hp)|pose proof (po_attrs p Hp)|done]; rewrite blen_nil; lia].
    intros _. exists p. split; [done|]. destruct p as [[c n t ms] cur sa ma]. unfold result, append_media. cbn. by rewrite app_nil_r. }
  cbn [parse_lines omap list_omap]. rewrite parse_line_item. destruct (significant l) as [[typ val]|]; [|by apply IH].
  destruct (Z.eqb_spec typ 115) as [->|Hs]; [by apply reads_name|]. destruct (Z.eqb_spec typ 109) as [->|Hm]; [by apply reads_media|].
  destruct (Z.eqb_spec typ 97) as [->|Ha]; [by apply reads_attr|].
  unfold parse_item. rewrite !(proj2 (Z.eqb_neq _ _)) by done. cbn [mbind res_bind mret res_ret].
  apply (reads_step _ _ p (omap significant ls)); [by apply IH| |].
  - unfold fitting. cbn [sections]. destruct (sections _). by rewrite !(proj2 (Z.eqb_neq _ _)) by done.
  - unfold result. cbn [sections names omap list_omap fst]. destruct (sections _). by rewrite !(proj2 (Z.eqb_neq _ _)) by done.
Qed.

Lemma Parse_result body : blen body ≤ MaxInputSize →
  (within_limits (items body) → Parse body = Ok (session_of (items body))) ∧
  (¬ within_limits (items body) → Parse body = Err ErrTooManyMedia ∨ Parse body = Err ErrTooManyAttributes).
Proof.
  intros Hl. unfold Parse. rewrite (proj2 (Z.ltb_ge _ _)) by done.
  set (p := mkParser no_session None 0 0). assert (Hp : parser_ok p) by done.
  destruct (parse_lines_sections (Split 10 body) p Hp) as [H1 H2]. change (omap significant (Split 10 body)) with (items body) in *.
  assert (Hf : fitting p (items body) ↔ within_limits (items body)).
  { unfold fitting, within_limits. by destruct (sections (items body)). }
  rewrite <- Hf. split; intros H; [|by destruct (H2 H) as [-> | ->]; [left|right]].
  destruct (H1 H) as (p' & -> & E). cbn. f_equal. rewrite E. unfold result, session_of. destruct (sections (items body)) as [a ss].
  change (attrs_of p a) with (head_attrs no_session a). by rewrite head_attrs_eq.
Qed.

(** *** Types of what is read *)
Definition numbered (pt : Z) : Prop := 0 ≤ pt ≤ maxPayloadType.
Record media_ok (m : Media) : Prop := {
  mo_formats : Forall numbered (Formats m);
  mo_rtpmaps : map_Forall (λ pt r, numbered pt ∧ PayloadType r = pt) (RTPMaps m);
  mo_fmtps : map_Forall (λ pt _, numbered pt) (FMTPs m)
}.

Lemma payload_type_ok tok pt : payload_type tok = Some pt → numbered pt.
Proof.
  unfold payload_type, validPayloadType, numbered. destruct (Atoi tok) as [v|]; [|done]. destruct (_ && _) eqn:E; [|done]. intros [= <-].
  breflect. lia.
Qed.

Lemma parseMediaLine_ok val : media_ok (parseMediaLine val).
Proof.
  unfold parseMediaLine. destruct (Fields val) as [|f fs] eqn:E; split; cbn [Formats RTPMaps FMTPs]; try apply map_Forall_empty; [by constructor|].
  apply List.Forall_forall. intros pt Hin%list_elem_of_In. apply list_elem_of_omap in Hin as (tok & _ & H). by apply payload_type_ok in H.
Qed.

Lemma parseRTPMap_ok v m : media_ok m → media_ok (parseRTPMap v m).
Proof.
  intros [H1 H2 H3]. unfold parseRTPMap. destruct (SplitN 2 32 v) as [|p0 [|p1 [|x l]]]; try done. destruct (payload_type p0) as [pt|] eqn:E; [|done].
  destruct (Split 47 p1) as [|enc [|clk segs]]; try done. destruct (Atoi clk); [|done]. apply payload_type_ok in E.
  split; cbn; [done| |done]. by apply map_Forall_insert_2.
Qed.
Lemma parseFMTP_ok v m : media_ok m → media_ok (parseFMTP v m).
Proof.
  intros [H1 H2 H3]. unfold parseFMTP. destruct (SplitN 2 32 v) as [|p0 [|p1 [|x l]]]; try done. destruct (payload_type p0) as [pt|] eqn:E; [|done].
  apply payload_type_ok in E. split; cbn; [done|done|]. by apply map_Forall_insert_2.
Qed.

Lemma describe_section_ok sec : media_ok (describe_section sec).
Proof.
  unfold describe_section. generalize (parseMediaLine_ok sec.1). generalize (parseMediaLine sec.1) as m.
  induction sec.2 as [|a l IH]; intros m Hm; [done|]. cbn [foldl]. apply IH. unfold media_attribute.
  destruct (attribute a) as [[n v]|]; [|done]. destruct (bool_decide _); [by destruct Hm|]. destruct (bool_decide _); [by apply parseRTPMap_ok|].
  destruct (bool_decide _); [by apply parseFMTP_ok|done].
Qed.

Lemma session_of_media its : s_Media (session_of its) = describe_section <$> (sections its).2.
Proof. unfold session_of. by destruct (sections its). Qed.

Lemma unhex_range c v : unhex c = Some v → 0 ≤ v < 16.
Proof. unfold unhex. intros H. repeat (let E := fresh in destruct (_ && _) eqn:E in H; [breflect; injection H as <-; lia|]). done. Qed.
Lemma hex_DecodeString_bytes s : ∀ b, hex_DecodeString s = Some b → bytes_ok b.
Proof.
  revert s. fix IH 1. intros [|a [|c s]] b; cbn [hex_DecodeString]; [intros [= <-]; by constructor|done|].
  destruct (unhex a) as [x|] eqn:Ea; [|done]. destruct (unhex c) as [y|] eqn:Ec; [|done]. destruct (hex_DecodeString s) as [r|] eqn:Er; [|done].
  intros [= <-]. apply unhex_range in Ea, Ec. constructor; [unfold is_u8; lia|by apply (IH s)].
Qed.

Lemma base64_value_range c v : base64_value c = Some v → 0 ≤ v < 64.
Proof.
  unfold base64_value. intros H. repeat (let E := fresh in destruct (_ && _) eqn:E in H; [breflect; injection H as <-; lia|]).
  repeat (destruct (_ =? _) in H; [injection H as <-; lia|]). done.
Qed.
Lemma base64_groups_bytes padding s : ∀ b, base64_groups padding s = Some b → bytes_ok b.
Proof.
  assert (H2 : ∀ a b r, base64_two a b = Some r → bytes_ok r).
  { unfold base64_two. intros a b r. destruct (base64_value a) as [x|] eqn:E1; [|done]. destruct (base64_value b) as [y|] eqn:E2; [|done].
    intros [= <-]. apply base64_value_range in E1, E2. constructor; [|done]. unfold is_u8. Z.div_mod_to_equations; lia. }
  assert (H3 : ∀ a b c r, base64_three a b c = Some r → bytes_ok r).
  { unfold base64_three. intros a b c r. destruct (base64_value a) as [x|] eqn:E1; [|done]. destruct (base64_value b) as [y|] eqn:E2; [|done].
    destruct (base64_value c) as [z|] eqn:E3; [|done]. intros [= <-]. apply base64_value_range in E1, E2, E3.
    unfold is_u8. repeat constructor; unfold is_u8; Z.div_mod_to_equations; lia. }
  assert (H4 : ∀ a b c d r, base64_four a b c d = Some r → bytes_ok r).
  { unfold base64_four. intros a b c d r. destruct (base64_value a) as [x|] eqn:E1; [|done]. destruct (base64_value b) as [y|] eqn:E2; [|done].
    destruct (base64_value c) as [z|] eqn:E3; [|done]. destruct (base64_value d) as [w|] eqn:E4; [|done]. intros [= <-].
    apply base64_value_range in E1, E2, E3, E4. repeat constructor; unfold is_u8; Z.div_mod_to_equations; lia. }
  induction s as [s IH] using (induction_ltof1 _ (@length Z)). unfold ltof in IH.
  destruct s as [|a [|b [|c [|d s]]]]; intros r; cbn [base64_groups];
    [intros [= <-]; by constructor|done|destruct padding; [done|apply H2]|destruct padding; [done|apply H3]|].
  destruct (padding && (d =? 61)).
  - destruct s; [|done]. destruct (c =? 61); [apply H2|apply H3].
  - destruct (base64_four a b c d) as [p|] eqn:E; [|done]. destruct (base64_groups padding s) as [q|] eqn:Eq; [|done]. intros [= <-].
    apply Forall_app_2; [by apply (H4 a b c d)|by apply (IH s); [cbn; lia|]].
Qed.

(** A fold over format parameters keeps what every assignment keeps. *)
Lemma parseFmtpPairs_inv {S} (I : S → Prop) params fn s : I s → (∀ k v s, I s → I (fn k v s)) → I (parseFmtpPairs params fn s).
Proof.
  intros Hs Hf. unfold parseFmtpPairs. revert s Hs. induction (Split 59 params) as [|e l IH]; intros s Hs; [done|]. cbn [foldl]. apply IH.
  destruct (SplitN 2 61 e) as [|k [|v [|x r]]]; auto.
Qed.

Lemma parseAACFmtp_ok params : bytes_ok (a_Config (parseAACFmtp params)).
Proof.
  apply (parseFmtpPairs_inv (λ p, bytes_ok (a_Config p))); [by constructor|]. intros k v p Hp.
  repeat (destruct (bool_decide _); [first [by destruct (Atoi v)|done|destruct (hex_DecodeString v) eqn:E; [by eapply hex_DecodeString_bytes|done]]|]). done.
Qed.
Lemma parseLATMFmtp_ok params : bytes_ok (l_Config (parseLATMFmtp params)).
Proof.
  apply (parseFmtpPairs_inv (λ p, bytes_ok (l_Config p))); [by constructor|]. intros k v p Hp.
  repeat (destruct (bool_decide _); [first [by destruct (Atoi v)|done|destruct (hex_DecodeString v) eqn:E; [by eapply hex_DecodeString_bytes|done]]|]). done.
Qed.
Definition stream_info (b : list Z) : Prop := b = [] ∨ (blen b = streamInfoLen ∧ bytes_ok b).
Lemma parseFLACFmtp_ok params : stream_info (parseFLACFmtp params).
Proof.
  apply (parseFmtpPairs_inv stream_info); [by left|]. intros k v s Hs. destruct (_ || _); [done|]. cbv zeta.
  destruct (match base64_DecodeString true v with Some _ => _ | None => _ end) as [b|] eqn:E; [|done].
  destruct (Z.eqb_spec (blen b) streamInfoLen) as [Hl|]; [|done]. right. split; [done|].
  destruct (base64_DecodeString true v) eqn:E2; [injection E as <-; by eapply base64_groups_bytes|by eapply base64_groups_bytes].
Qed.

(** A track carries the parameters of its codec and of no other. *)
Record track_typed (t : DescribedTrack) : Prop := {
  tt_pt : t_PayloadType t = -1 ∨ numbered (t_PayloadType t);
  tt_aac : match t_Codec t with CodecAAC asc => (∃ p, t_AAC t = Some p ∧ a_Config p = asc) ∧ bytes_ok asc | _ => t_AAC t = None end;
  tt_latm : match t_Codec t with
    | CodecMP4ALATM smc present asc => (∃ p, t_LATM t = Some p ∧ l_Config p = smc ∧ Cpresent p = present) ∧ asc = [] ∧ bytes_ok smc
    | _ => t_LATM t = None end;
  tt_codec : match t_Codec t with
    | CodecG726 br pk clk ch => 0 ≤ br ≤ 3 ∧ (pk = G726PackingRFC3551 ∨ pk = G726PackingAAL2) ∧ clk = 8000 ∧ ch = 1 ∧ t_ClockRate t = clk ∧ t_Channels t = ch
    | CodecL16 clk ch => 1 ≤ ch ∧ t_ClockRate t = clk ∧ t_Channels t = ch
    | CodecG711 law => (law = 0 ∨ law = 1) ∧ 1 ≤ t_Channels t
    | CodecFLAC si => stream_info si ∧ 1 ≤ t_Channels t
    | CodecUnknown _ => True
    | _ => 1 ≤ t_Channels t
    end
}.

(** The codec of a resolved name; an empty name is that of no codec, so the channel count has
    been made positive. *)
Definition codec_typed (clock channels : Z) (r : Codec * option AACParams * option LATMParams) : Prop :=
  ∀ kind pt control fmtp, pt = -1 ∨ numbered pt → track_typed (mkDescribed kind pt r.1.1 clock channels control fmtp r.1.2 r.2).

Lemma resolveG726_ok up br pk : resolveG726 up = Some (br, pk) → 0 ≤ br ≤ 3 ∧ (pk = G726PackingRFC3551 ∨ pk = G726PackingAAL2).
Proof.
  unfold resolveG726. intros H. repeat (destruct (bool_decide _) in H; [injection H as <- <-; unfold G726PackingRFC3551, G726PackingAAL2; lia|]). done.
Qed.

Lemma resolve_codec_typed fmtp encoding clock channels raw has : (encoding ≠ [] → 1 ≤ channels) →
  codec_typed clock channels (resolve_codec fmtp encoding clock channels raw has).
Proof.
  intros Hc. unfold resolve_codec. cbv zeta. set (up := ToUpper encoding).
  assert (Hn : ∀ name, up = name → name ≠ [] → 1 ≤ channels).
  { intros name Hup Hne. apply Hc. intros ->. by rewrite <- Hup in Hne. }
  assert (Hu : codec_typed clock channels (CodecUnknown (rtpmapString encoding clock raw has), None, None)) by by split.
  case_bool_decide as E1. { intros k pt c f Hp. split; cbn; [done|split; [by eexists|apply parseAACFmtp_ok]|done|by apply (Hn _ E1)]. }
  case_bool_decide as E2. { intros k pt c f Hp. split; cbn; [done|done|split; [by eexists|split; [done|apply parseLATMFmtp_ok]]|by apply (Hn _ E2)]. }
  case_bool_decide as E3. { intros k pt c f Hp. split; cbn; [done|done|done|by apply (Hn _ E3)]. }
  case_bool_decide as E4; [|case_bool_decide as E5]; cbn [orb]. { intros k pt c f Hp. split; cbn; [done|done|done|by apply (Hn _ E4)]. }
  { intros k pt c f Hp. split; cbn; [done|done|done|by apply (Hn _ E5)]. }
  case_bool_decide as E6. { intros k pt c f Hp. split; cbn; [done|done|done|split; [apply parseFLACFmtp_ok|by apply (Hn _ E6)]]. }
  case_bool_decide as E7. { intros k pt c f Hp. split; cbn; [done|done|done|split; [by left|by apply (Hn _ E7)]]. }
  case_bool_decide as E8. { intros k pt c f Hp. split; cbn; [done|done|done|split; [by right|by apply (Hn _ E8)]]. }
  case_bool_decide as E9. { intros k pt c f Hp. split; cbn; [done|done|done|split; [by apply (Hn _ E9)|done]]. }
  destruct (resolveG726 up) as [[br pk]|] eqn:Eg; [|done]. destruct (_ && _) eqn:Ec; [|done]. apply andb_prop in Ec as [->%Z.eqb_eq ->%Z.eqb_eq].
  apply resolveG726_ok in Eg as [H1 H2]. intros k pt c f Hp. by split.
Qed.

Lemma describeTrack_typed m : media_ok m → track_typed (describeTrack m).
Proof.
  intros [H1 H2 H3]. unfold describeTrack. destruct (Formats m) as [|pt fs]; [by split; [left| | |]|]. apply Forall_inv in H1.
  destruct (match RTPMaps m !! pt with Some _ => _ | None => _ end) as [[[enc clk] raw] has].
  set (ch := if (raw <=? 0) && negb (bool_decide (enc = [])) then 1 else raw).
  assert (Hch : enc ≠ [] → 1 ≤ ch). { intros He. unfold ch. rewrite (bool_decide_false (enc = [])) by done. destruct (Z.leb_spec raw 0); cbn; lia. }
  pose proof (resolve_codec_typed (default [] (FMTPs m !! pt)) enc clk ch raw has Hch) as Ht.
  destruct (resolve_codec _ _ _ _ _ _) as [[codec aac] latm]. apply Ht. by right.
Qed.

#[export] Instance within_limits_dec its : Decision (within_limits its).
Proof. unfold within_limits. destruct (sections its). apply _. Defined.

Lemma Parse_Ok body s : Parse body = Ok s → s = session_of (items body) ∧ within_limits (items body).
Proof.
  intros H. assert (Hl : blen body ≤ MaxInputSize). { unfold Parse in H. destruct (Z.ltb_spec MaxInputSize (blen body)); [done|lia]. }
  destruct (Parse_result body Hl) as [H1 H2]. destruct (decide (within_limits (items body))) as [Hw|Hw]; [split; [|done]|].
  - rewrite H1 in H by done. by apply Ok_inv in H.
  - rewrite H in H2. by destruct (H2 Hw).
Qed.

Lemma Parse_media body s : Parse body = Ok s → blen (s_Media s) ≤ MaxMediaSections ∧ Forall media_ok (s_Media s).
Proof.
  intros [-> Hw]%Parse_Ok. rewrite session_of_media. unfold within_limits in Hw. destruct (sections (items body)) as [a ss]. cbn [snd].
  split; [unfold blen in *; rewrite length_fmap; apply Hw|]. apply Forall_fmap, Forall_true. apply describe_section_ok.
Qed.

Lemma Codecs_typed body s : Parse body = Ok s → blen (Codecs s) ≤ MaxMediaSections ∧ Forall track_typed (Codecs s).
Proof.
  intros [Hl Hm]%Parse_media. unfold Codecs. split; [unfold blen in *; by rewrite length_fmap|].
  apply Forall_fmap. eapply Forall_impl; [exact Hm|apply describeTrack_typed].
Qed.
Lemma sdp_Parse_no_panic body : Parse body ≠ Panic.
Proof.
  destruct (Z.le_gt_cases (blen body) MaxInputSize) as [Hl|Hl].
  - destruct (Parse_result body Hl) as [H1 H2]. destruct (decide (within_limits (items body))) as [Hw|Hw]; [by rewrite H1|]. by destruct (H2 Hw) as [-> | ->].
  - unfold Parse. by rewrite (proj2 (Z.ltb_lt _ _)) by lia.
Qed.

(** *** What was written is read back *)
Definition spec_ok (w : WriteSpec) : Prop :=
  0 ≤ w_SessionID w < 2 ^ 64 ∧ w_ClockRate w < 2 ^ 63 ∧ w_Channels w < 2 ^ 63 ∧ w_Ptime w < 2 ^ 63.

(** The session a reader finds in what [WriteSession] wrote. *)
Definition spec_media (w : WriteSpec) : Media :=
  mkMedia MediaAudio (str "RTP/AVP") [w_PayloadType w] (w_Control w)
    {[w_PayloadType w := mkRTPMap (w_PayloadType w) (w_EncodingName w) (w_ClockRate w) (Z.max 0 (w_Channels w))]}
    (if bool_decide (w_FMTP w = []) then ∅ else {[w_PayloadType w := w_FMTP w]}).
Definition spec_session (w : WriteSpec) : Session :=
  mkSession [] (if bool_decide (w_Name w = []) then [32] else w_Name w) [] [spec_media w].

Lemma Split_lines ls : Forall (λ l, 10 ∉ l) ls → Split 10 (concat (writeLine <$> ls)) = ((λ l, l ++ [13]) <$> ls) ++ [[]].
Proof.
  induction 1 as [|l ls Hl _ IH]; [done|]. cbn [fmap list_fmap concat app]. unfold writeLine at 1. rewrite <- app_assoc.
  change ([13; 10] ++ ?x) with ([13] ++ 10 :: x). rewrite app_assoc, Split_app, IH; [done|].
  rewrite elem_of_app, list_elem_of_singleton. intros [H|H]; done.
Qed.

Definition typed_line (l : list Z) : option (Z * list Z) :=
  match l with typ :: eq :: val => if eq =? 61 then Some (typ, val) else None | _ => None end.

Lemma items_lines ls : Forall (λ l, 10 ∉ l) ls → items (concat (writeLine <$> ls)) = omap typed_line ls.
Proof.
  intros H. unfold items. rewrite Split_lines by done. rewrite omap_app. cbn. rewrite app_nil_r.
  clear H. induction ls as [|l ls IH]; [done|]. cbn [fmap list_fmap omap list_omap]. rewrite IH. unfold significant. by rewrite TrimSuffix_cr.
Qed.

Lemma payload_type_Itoa pt : 0 ≤ pt ≤ 127 → payload_type (Itoa pt) = Some pt.
Proof. intros H. unfold payload_type. rewrite Atoi_Itoa by lia. unfold validPayloadType, maxPayloadType. zcase. Qed.

Definition audio_line_fields (pt : Z) : bool :=
  bool_decide (Fields (str "audio 0 RTP/AVP " ++ Itoa pt) = [str "audio"; str "0"; str "RTP/AVP"; Itoa pt]).
Lemma parseMediaLine_text pt : 0 ≤ pt ≤ 127 →
  parseMediaLine (str "audio 0 RTP/AVP " ++ Itoa pt) = mkMedia MediaAudio (str "RTP/AVP") [pt] [] ∅ ∅.
Proof.
  intros H. pose proof (range_forall 128 audio_line_fields ltac:(vm_compute; reflexivity) pt ltac:(lia)) as E. apply bool_decide_eq_true in E.
  unfold parseMediaLine. rewrite E. cbn [drop omap list_omap]. by rewrite payload_type_Itoa.
Qed.

Lemma Itoa_no_mark n c : 0 ≤ n < 2 ^ 63 → (c < 48 ∨ 57 < c) → c ∉ Itoa n.
Proof. intros Hn Hc. apply Itoa_no; [done|]. unfold is_digit. lia. Qed.

Lemma SplitN_2 c a b : c ∉ a → SplitN 2 c (a ++ c :: b) = [a; b].
Proof. intros H. cbn [SplitN]. by rewrite Cut_app. Qed.

Lemma attribute_text name v : 58 ∉ name → attribute (name ++ 58 :: v) = Some (name, v).
Proof. intros H. unfold attribute. by rewrite SplitN_2. Qed.

Lemma token_no c s : isToken s = true → token_char c = false → c ∉ s.
Proof.
  intros [_ H]%andb_prop Hc Hin. eapply forallb_forall in H; [|by apply list_elem_of_In]. congruence.
Qed.

Lemma rtpmap_text pt enc clk ch m : 0 ≤ pt ≤ 127 → isToken enc = true → 0 < clk < 2 ^ 63 → ch < 2 ^ 63 →
  media_attribute m (str "rtpmap:" ++ Itoa pt ++ [32] ++ enc ++ [47] ++ Itoa clk ++ (if 0 <? ch then 47 :: Itoa ch else [])) =
  add_rtpmap pt (mkRTPMap pt enc clk (Z.max 0 ch)) m.
Proof.
  intros Hpt He Hclk Hch. unfold media_attribute. change (str "rtpmap:" ++ ?x) with (str "rtpmap" ++ 58 :: x).
  rewrite attribute_text by (by apply not_in). cbn [bool_decide]. rewrite (bool_decide_false (str "rtpmap" = str "control")), bool_decide_true by done.
  unfold parseRTPMap. cbn [app]. rewrite SplitN_2, payload_type_Itoa by (done || apply Itoa_no_mark; lia).
  rewrite Split_app by (by apply (token_no 47)).
  destruct (Z.ltb_spec 0 ch) as [Hc|Hc].
  - rewrite Split_app, Split_nil by (apply Itoa_no_mark; lia). rewrite !Atoi_Itoa by lia. cbn [default]. by rewrite Z.max_r by lia.
  - rewrite app_nil_r, Split_nil by (apply Itoa_no_mark; lia). rewrite Atoi_Itoa by lia. by rewrite Z.max_l by lia.
Qed.

Lemma fmtp_text pt v m : 0 ≤ pt ≤ 127 → media_attribute m (str "fmtp:" ++ Itoa pt ++ [32] ++ v) = add_fmtp pt v m.
Proof.
  intros Hpt. unfold media_attribute. change (str "fmtp:" ++ ?x) with (str "fmtp" ++ 58 :: x).
  rewrite attribute_text by (by apply not_in). rewrite (bool_decide_false (str "fmtp" = str "control")), (bool_decide_false (str "fmtp" = str "rtpmap")), bool_decide_true by done.
  unfold parseFMTP. cbn [app]. by rewrite SplitN_2, payload_type_Itoa by (done || apply Itoa_no_mark; lia).
Qed.

Lemma control_attr_text v m : media_attribute m (str "control:" ++ v) = set_control v m.
Proof.
  unfold media_attribute. change (str "control:" ++ ?x) with (str "control" ++ 58 :: x).
  rewrite attribute_text by (by apply not_in). by rewrite bool_decide_true.
Qed.
Lemma ptime_text v m : media_attribute m (str "ptime:" ++ v) = m.
Proof.
  unfold media_attribute. change (str "ptime:" ++ ?x) with (str "ptime" ++ 58 :: x).
  rewrite attribute_text by (by apply not_in). by rewrite !bool_decide_false.
Qed.

Lemma FormatUint_no_mark n c : 0 ≤ n < 2 ^ 64 → (c < 48 ∨ 57 < c) → c ∉ Itoa n.
Proof.
  intros Hn Hc Hin. unfold Itoa in Hin. rewrite (proj2 (Z.ltb_ge n 0)) in Hin by lia.
  destruct (decimal_digits 20 n []) as (ds & E & _ & Hds & _); [change (10 ^ Z.of_nat 20) with 100000000000000000000; lia|lia|].
  rewrite E, app_nil_r in Hin. apply list_elem_of_In in Hin. eapply List.Forall_forall in Hds; [|exact Hin]. unfold is_digit in Hds. lia.
Qed.

(** The attribute lines of a written body, and the section they describe. *)
Definition spec_attrs (w : WriteSpec) : list (list Z) :=
  let pt := Itoa (w_PayloadType w) in
  [str "rtpmap:" ++ pt ++ [32] ++ w_EncodingName w ++ [47] ++ Itoa (w_ClockRate w) ++ (if 0 <? w_Channels w then 47 :: Itoa (w_Channels w) else [])] ++
  (if bool_decide (w_FMTP w = []) then [] else [str "fmtp:" ++ pt ++ [32] ++ w_FMTP w]) ++
  (if 0 <? w_Ptime w then [str "ptime:" ++ Itoa (w_Ptime w)] else []) ++
  (if bool_decide (w_Control w = []) then [] else [str "control:" ++ w_Control w]).

Lemma spec_section w : spec_ok w → 0 ≤ w_PayloadType w ≤ 127 → isToken (w_EncodingName w) = true → 0 < w_ClockRate w →
  describe_section (str "audio 0 RTP/AVP " ++ Itoa (w_PayloadType w), spec_attrs w) = spec_media w.
Proof.
  intros (_ & Hclk & Hch & _) Hpt He Hpos. unfold describe_section, spec_attrs. cbn [fst snd]. rewrite parseMediaLine_text by done.
  rewrite !foldl_app. cbn [foldl]. rewrite rtpmap_text by (done || lia). unfold spec_media.
  set (m := add_rtpmap _ _ _).
  assert (Hm : m = mkMedia MediaAudio (str "RTP/AVP") [w_PayloadType w] [] {[w_PayloadType w := mkRTPMap (w_PayloadType w) (w_EncodingName w) (w_ClockRate w) (Z.max 0 (w_Channels w))]} ∅) by done.
  rewrite Hm. clear m Hm.
  destruct (bool_decide_reflect (w_FMTP w = [])) as [_|_]; cbn [foldl]; rewrite ?fmtp_text by done;
    destruct (0 <? w_Ptime w); cbn [foldl]; rewrite ?ptime_text;
    destruct (bool_decide_reflect (w_Control w = [])) as [Ec|_]; cbn [foldl]; rewrite ?control_attr_text; rewrite ?Ec; done.
Qed.

(** No line of a written body holds a line feed. *)
Lemma no_app (a b : list Z) : 10 ∉ a → 10 ∉ b → 10 ∉ a ++ b.
Proof. rewrite not_elem_of_app. done. Qed.
Ltac no_lf Hf := repeat apply no_app; first [done | by apply not_in | apply Hf, list_elem_of_In; cbn; tauto | apply FormatUint_no_mark; lia].

Lemma spec_attrs_lines w : spec_ok w → 0 ≤ w_PayloadType w ≤ 127 → 0 < w_ClockRate w →
  (∀ f, f ∈ [w_Name w; w_EncodingName w; w_Control w; w_FMTP w] → 10 ∉ f) → Forall (λ a, 10 ∉ str "a=" ++ a) (spec_attrs w).
Proof.
  intros (_ & Hclk & Hch & Hpt) Hp Hc Hf. unfold spec_attrs. cbv zeta. repeat apply Forall_app_2.
  - apply Forall_singleton. repeat apply no_app; try (by apply not_in); try (apply FormatUint_no_mark; lia); [apply Hf, list_elem_of_In; cbn; tauto|].
    destruct (Z.ltb_spec 0 (w_Channels w)); [|by apply not_in]. change (47 :: ?x) with ([47] ++ x). no_lf Hf.
  - destruct (bool_decide _); [done|]. apply Forall_singleton. no_lf Hf.
  - destruct (Z.ltb_spec 0 (w_Ptime w)); [|done]. apply Forall_singleton. no_lf Hf.
  - destruct (bool_decide _); [done|]. apply Forall_singleton. no_lf Hf.
Qed.

(** What the writer's checks leave. *)
Lemma WriteSession_Ok w b : spec_ok w → WriteSession w = Ok b →
  0 ≤ w_PayloadType w ≤ 127 ∧ isToken (w_EncodingName w) = true ∧ 0 < w_ClockRate w ∧
  items b = [(118, str "0"); (111, str "- " ++ Itoa (w_SessionID w) ++ [32] ++ Itoa (w_SessionID w) ++ str " IN IP4 0.0.0.0");
    (115, if bool_decide (w_Name w = []) then [32] else w_Name w); (99, str "IN IP4 0.0.0.0"); (116, str "0 0");
    (109, str "audio 0 RTP/AVP " ++ Itoa (w_PayloadType w))] ++ ((λ a, (97, a)) <$> spec_attrs w).
Proof.
  intros (Hid & Hclk & Hch & Hpt) H. unfold WriteSession in H.
  destruct (_ || _) eqn:E1 in H; [done|]. destruct (existsb _ _) eqn:E2 in H; [done|]. destruct (negb _ || _) eqn:E3 in H; [done|].
  apply Ok_inv in H as <-. apply orb_false_iff in E1 as [P1%Z.ltb_ge P2%Z.ltb_ge]. apply orb_false_iff in E3 as [T%negb_false_iff P3%Z.leb_gt].
  split; [lia|]. split; [done|]. split; [lia|].
  assert (Hf : ∀ f, f ∈ [w_Name w; w_EncodingName w; w_Control w; w_FMTP w] → 10 ∉ f).
  { intros f Hin Hc. assert (Ht : existsb (λ f, ContainsAny f [13; 10; 0]) [w_Name w; w_EncodingName w; w_Control w; w_FMTP w] = true); [|congruence].
    apply existsb_exists. exists f. split; [by apply list_elem_of_In|]. apply existsb_exists. exists 10. split; [by apply list_elem_of_In|done]. }
  pose proof (spec_attrs_lines w ltac:(done) ltac:(lia) ltac:(lia) Hf) as Ha.
  match goal with |- items (concat (writeLine <$> ?l)) = _ => assert (El : l = [str "v=0"; str "o=- " ++ Itoa (w_SessionID w) ++ [32] ++ Itoa (w_SessionID w) ++ str " IN IP4 0.0.0.0";
      str "s=" ++ (if bool_decide (w_Name w = []) then [32] else w_Name w); str "c=IN IP4 0.0.0.0"; str "t=0 0"; str "m=audio 0 RTP/AVP " ++ Itoa (w_PayloadType w)] ++
      ((λ a, str "a=" ++ a) <$> spec_attrs w)) end.
  { unfold spec_attrs. rewrite !fmap_app. by destruct (bool_decide (w_FMTP w = [])), (0 <? w_Ptime w), (bool_decide (w_Control w = [])). }
  rewrite El. clear El. rewrite items_lines.
  - rewrite omap_app. f_equal. clear Ha. induction (spec_attrs w) as [|a l IH]; [done|]. cbn [fmap list_fmap omap list_omap].
    rewrite <- IH. done.
  - apply Forall_app_2; [|by apply Forall_fmap]. repeat apply Forall_cons_2; try done; try (by apply not_in); [no_lf Hf| |no_lf Hf].
    destruct (bool_decide _); no_lf Hf.
Qed.

Lemma sections_attrs attrs : sections ((λ a, (97, a)) <$> attrs) = (attrs, []).
Proof. induction attrs as [|a l IH]; [done|]. cbn [fmap list_fmap sections]. rewrite IH. done. Qed.
Lemma names_attrs attrs : names ((λ a, (97, a)) <$> attrs) = [].
Proof. by induction attrs. Qed.

Lemma names_app l k : names (l ++ k) = names l ++ names k.
Proof. apply omap_app. Qed.

(** ** Properties *)

(** C14: the parser reads a body section by section.  Under the size limit, its result depends
    on the significant lines alone: it is the session in which every [m=] line makes one media
    section, described by its own line and the attributes up to the next [m=] line and by
    nothing else, the session-level control is the last one ahead of the first [m=] line, and
    the name and the tool are the first that are set; and it is returned exactly when there are
    at most 16 sections and at most 128 attributes in each and in the session block.  Otherwise
    the outcome is one of the three errors; the parser never panics. *)
Theorem Parse_sections body :
  (Parse body = Ok (session_of (items body)) ∧ blen body ≤ MaxInputSize ∧ within_limits (items body)) ∨
  (Parse body = Err ErrInputTooLarge ∧ MaxInputSize < blen body) ∨
  ((Parse body = Err ErrTooManyMedia ∨ Parse body = Err ErrTooManyAttributes) ∧ blen body ≤ MaxInputSize ∧ ¬ within_limits (items body)).
Proof.
  destruct (Z.le_gt_cases (blen body) MaxInputSize) as [Hl|Hl].
  - destruct (Parse_result body Hl) as [H1 H2]. destruct (decide (within_limits (items body))) as [Hw|Hw]; [left; by auto|right; right; by auto].
  - right. left. split; [|lia]. unfold Parse. by rewrite (proj2 (Z.ltb_lt _ _)) by lia.
Qed.

(** What a description is resolved to is well typed, whatever the server sent: there are at
    most 16 tracks; every payload type in a section is one of the 128 an RTP header can carry,
    and the tables of mappings and parameters are keyed by such numbers; a track carries AAC
    parameters exactly when its codec is AAC and LATM parameters exactly when it is LATM, with
    the configuration octets of the codec; a G.726 track is mono at 8 kHz with one of the four
    rates; a FLAC track's stream information is absent or 34 octets; and a track of a known
    codec has a positive channel count. *)
Theorem parsed_tracks_typed body s : Parse body = Ok s →
  blen (Codecs s) ≤ MaxMediaSections ∧ Forall media_ok (s_Media s) ∧ Forall track_typed (Codecs s).
Proof.
  intros H. destruct (Codecs_typed body s H) as [Hl Ht]. destruct (Parse_media body s H) as [_ Hm]. by split.
Qed.

(** C38: a written description is read back: when [WriteSession] accepts a specification and the
    body is within the reader's size limit, [Parse] finds one audio section with the payload
    type, the encoding, the clock rate, the channel count, the format parameters and the
    control of the specification, and its name, or the single space that stands for none.
    No text of the specification can add a line. *)
Theorem WriteSession_Parse w b : spec_ok w → WriteSession w = Ok b → blen b ≤ MaxInputSize → Parse b = Ok (spec_session w).
Proof.
  intros Hw Hb Hl. destruct (WriteSession_Ok w b Hw Hb) as (Hpt & He & Hclk & Hi).
  destruct (Parse_result b Hl) as [-> _]; rewrite Hi; clear Hi; pose proof (spec_section w Hw Hpt He Hclk) as Hs.
  - unfold session_of. rewrite names_app, names_attrs, app_nil_r. cbn [app sections]. rewrite sections_attrs. cbn [Z.eqb Pos.eqb]. unfold spec_session. f_equal.
    cbn [fmap list_fmap]. by rewrite Hs.
  - unfold within_limits. cbn [app sections]. rewrite sections_attrs. cbn [Z.eqb Pos.eqb]. split; [done|]. split; [done|].
    apply Forall_singleton. unfold spec_attrs. cbv zeta. cbn [snd]. rewrite !blen_app.
    destruct (bool_decide (w_FMTP w = [])), (0 <? w_Ptime w), (bool_decide (w_Control w = [])); done.
Qed.

Definition sample_body : list Z := Eval vm_compute in match WriteSession sample_spec with Ok b => b | _ => [] end.
Lemma parsed_tracks_typed_witness :
  blen (Codecs (spec_session sample_spec)) ≤ MaxMediaSections ∧ Forall media_ok (s_Media (spec_session sample_spec)) ∧ Forall track_typed (Codecs (spec_session sample_spec)).
Proof. apply (parsed_tracks_typed sample_body). vm_compute. reflexivity. Defined.

Lemma WriteSession_Parse_witness : Parse sample_body = Ok (spec_session sample_spec).
Proof. apply (WriteSession_Parse sample_spec); [|vm_compute; reflexivity|vm_compute; discriminate]. unfold spec_ok. cbn. lia. Defined.

End sdp.
