(* ===== verification/UrlTarget.v ===== *)
(** * Targets: [internal/urltarget] and the target of [rtsp/config.go]

    From the URL a caller configured to the address that is dialled, the request URL and the
    credentials. *)
From Stdlib Require Import Ascii String.
From S2P Require Import Prelude Bytes Text Sdp ControlUrl.

(** [URL.Hostname] and [URL.Port] of [net/url], and [net.JoinHostPort]. *)
Definition validOptionalPort (port : list Z) : bool :=
  match port with [] => true | c :: ds => (c =? 58) && forallb (λ d, (48 <=? d) && (d <=? 57)) ds end.
Definition splitHostPort (hostPort : list Z) : list Z * list Z :=
  let '(host, port) := match controlurl.CutLast 58 hostPort with
    | Some (h, p) => if validOptionalPort (58 :: p) then (h, p) else (hostPort, [])
    | None => (hostPort, [])
    end in
  match host with
  | 91 :: r => (match controlurl.CutLast 93 r with Some (h, []) => h | _ => host end, port)
  | _ => (host, port)
  end.
Definition JoinHostPort (host port : list Z) : list Z :=
  if bool_decide (58 ∈ host) then [91] ++ host ++ [93; 58] ++ port else host ++ 58 :: port.

Module urltarget.

Inductive err := EmptyURL | MalformedURL | BadCredentials | UnsupportedScheme (scheme : list Z) | MissingHost | PortOutOfRange (port : list Z).

Record Target := mkTarget { TLS : bool; RequestURL : list Z; Hostname : list Z; t_Host : list Z; t_Username : list Z; t_Password : list Z }.

Section targets.
Context {U : NetURL}.

Definition ParseURL (raw : list Z) : res err url :=
  let raw := TrimSpace raw in
  if bool_decide (raw = []) then Err EmptyURL
  else match url_Parse raw with None => Err MalformedURL | Some u => mret u end.

Definition ResolveCredentials (u : url) (cfgUser cfgPass : list Z) : res err (list Z * list Z) :=
  let '(user, pass) := match User u with
    | None => (cfgUser, cfgPass)
    | Some i =>
        if negb (bool_decide (Username i = [])) || negb (bool_decide (Password i = [])) then (Username i, Password i) else (cfgUser, cfgPass)
    end in
  if sdp.ContainsAny user [13; 10; 0] || sdp.ContainsAny pass [13; 10; 0] then Err BadCredentials else mret (user, pass).

Definition StripUserinfoFragment (u : url) : list Z := url_String (without_Fragment (with_User None u)).

(** A port, when there is one, is a number a socket can have. *)
Definition port_ok (port : list Z) : bool :=
  bool_decide (port = []) || match Atoi port with Some n => (1 <=? n) && (n <=? 65535) | None => false end.

Definition ParseHTTP (rawURL cfgUser cfgPass : list Z) : res err Target :=
  u ← ParseURL rawURL;
  let scheme := sdp.ToLower (Scheme u) in
  if negb (bool_decide (scheme = str "http") || bool_decide (scheme = str "https")) then Err (UnsupportedScheme (Scheme u))
  else
    let '(host, port) := splitHostPort (Host u) in
    if bool_decide (host = []) then Err MissingHost
    else if negb (port_ok port) then Err (PortOutOfRange port)
    else
      '(username, password) ← ResolveCredentials u cfgUser cfgPass;
      mret (mkTarget (bool_decide (scheme = str "https")) (StripUserinfoFragment u) host (Host u) username password).

(** [parseTarget] of [rtsp/config.go] *)
Definition defaultRTSPPort : Z := 554.
Definition defaultRTSPSPort : Z := 322.
Record target := mkRTSPTarget { tls : bool; address : list Z; requestURL : list Z; serverName : list Z; username : list Z; password : list Z }.
Definition parseTarget (rawURL cfgUser cfgPass : list Z) : res err target :=
  u ← ParseURL rawURL;
  let scheme := sdp.ToLower (Scheme u) in
  if negb (bool_decide (scheme = str "rtsp") || bool_decide (scheme = str "rtsps")) then Err (UnsupportedScheme (Scheme u))
  else
    let tlsOn := bool_decide (scheme = str "rtsps") in
    let defPort := if tlsOn then defaultRTSPSPort else defaultRTSPPort in
    let '(host, port) := splitHostPort (Host u) in
    if bool_decide (host = []) then Err MissingHost
    else if negb (port_ok port) then Err (PortOutOfRange port)
    else
      '(username, password) ← ResolveCredentials u cfgUser cfgPass;
      mret (mkRTSPTarget tlsOn (JoinHostPort host (if bool_decide (port = []) then Itoa defPort else port)) (StripUserinfoFragment u) host username password).

End targets.

(** ** What a target is *)
Record target_ok (sch h : list Z) (t : target) : Prop := {
  ta_tls : tls t = bool_decide (sdp.ToLower sch = str "rtsps");
  ta_scheme : sdp.ToLower sch = str "rtsp" ∨ sdp.ToLower sch = str "rtsps";
  ta_url : controlurl.at_host false sch h (requestURL t);
  ta_server : serverName t ≠ [] ∧ serverName t = (splitHostPort h).1;
  ta_address : ∃ port, address t = JoinHostPort (serverName t) port ∧ (∃ n, Atoi port = Some n ∧ 1 ≤ n ≤ 65535) ∧
    ((splitHostPort h).2 ≠ [] → port = (splitHostPort h).2);
  ta_credentials : sdp.ContainsAny (username t) [13; 10; 0] = false ∧ sdp.ContainsAny (password t) [13; 10; 0] = false
}.

Lemma ResolveCredentials_clean {U : NetURL} u cu cp n w : ResolveCredentials u cu cp = Ok (n, w) →
  sdp.ContainsAny n [13; 10; 0] = false ∧ sdp.ContainsAny w [13; 10; 0] = false.
Proof.
  unfold ResolveCredentials. destruct (match User u with Some _ => _ | None => _ end) as [n' w'].
  destruct (sdp.ContainsAny n' _) eqn:E1; [done|]. destruct (sdp.ContainsAny w' _) eqn:E2; [done|]. by intros [= <- <-].
Qed.

Lemma StripUserinfoFragment_home {U : NetURL} {UL : controlurl.NetURLLaws} sch h u : controlurl.site sch h → Scheme u = sch → Host u = h → Opaque u = [] →
  controlurl.at_host false sch h (StripUserinfoFragment u).
Proof.
  intros Hs H1 H2 H3. unfold StripUserinfoFragment. destruct (controlurl.user_set None u) as (A1 & A2 & A3 & A4).
  destruct (controlurl.fragment_cut (with_User None u)) as (B1 & B2 & B3 & B4).
  apply controlurl.string_at_host; [done|congruence|congruence|congruence|]. intros _. congruence.
Qed.

Lemma default_port (b : bool) : ∃ n, Atoi (Itoa (if b then defaultRTSPSPort else defaultRTSPPort)) = Some n ∧ 1 ≤ n ≤ 65535.
Proof. destruct b; [exists 322|exists 554]; (split; [vm_compute; reflexivity|lia]). Qed.

Lemma parseTarget_ok {U : NetURL} {UL : controlurl.NetURLLaws} raw cu cp sch h t : controlurl.site sch h → controlurl.at_host true sch h (TrimSpace raw) →
  parseTarget raw cu cp = Ok t → target_ok sch h t.
Proof.
  intros Hs Hr. unfold parseTarget. intros (u & Hu & H)%bind_ok_inv. unfold ParseURL in Hu. cbv zeta in Hu, H.
  destruct (bool_decide _); [done|]. destruct (url_Parse (TrimSpace raw)) as [u'|] eqn:Eu; [|done]. apply Ok_inv in Hu as ->.
  destruct (controlurl.parse_at_host true sch h _ _ Hs Hr Eu) as (H1 & H2 & H3 & _). rewrite H1, H2 in H.
  destruct (_ || _) eqn:Esch; [|done]. cbn [negb] in H. destruct (splitHostPort h) as [host port] eqn:Eh.
  destruct (bool_decide_reflect (host = [])) as [|Hh]; [done|]. destruct (port_ok port) eqn:Ep; [|done]. cbn [negb] in H.
  apply bind_ok_inv in H as ([n w] & Hc & H). apply Ok_inv in H as <-. split; cbn; rewrite ?Eh; cbn [fst snd].
  - done.
  - apply orb_prop in Esch as [E%bool_decide_eq_true|E%bool_decide_eq_true]; auto.
  - by apply StripUserinfoFragment_home.
  - done.
  - unfold port_ok in Ep. destruct (bool_decide_reflect (port = [])) as [->|Hp].
    + eexists. split; [done|]. split; [|done]. exact (default_port _).
    + exists port. split; [done|]. split; [|done]. destruct (Atoi port) as [m|]; [|done]. breflect. exists m. split; [done|lia].
  - by apply ResolveCredentials_clean in Hc.
Qed.

(** The target is the URL that was configured.  Under the documented rules of [net/url], when
    [parseTarget] accepts a URL with a plain host, the scheme is rtsp or rtsps and says whether TLS is
    used; the address dialled and the name checked in the handshake are the URL's host, with its
    port, a number of 1 to 65535, or the scheme's; the request URL keeps scheme and host and holds
    no userinfo; and the credentials hold no CR, LF or NUL. *)
Theorem target_configured {U : NetURL} {UL : controlurl.NetURLLaws} raw cu cp sch h t : controlurl.site sch h → controlurl.at_host true sch h (TrimSpace raw) →
  parseTarget raw cu cp = Ok t → target_ok sch h t.
Proof. apply parseTarget_ok. Qed.

Definition sample_raw : list Z := str " rtsps://admin:secret@[fe80::1]:8554/live?x=1 ".
Lemma target_configured_witness : ∃ t, @parseTarget controlurl.textual sample_raw [] [] = Ok t ∧ target_ok (str "rtsps") (str "[fe80::1]:8554") t ∧
  (tls t, address t, requestURL t, serverName t, username t, password t) =
  (true, str "[fe80::1]:8554", str "rtsps://[fe80::1]:8554/live?x=1", str "fe80::1", str "admin", str "secret").
Proof.
  assert (Hs : controlurl.site (str "rtsps") (str "[fe80::1]:8554")) by (split; [reflexivity|split; [reflexivity|split; [discriminate|reflexivity]]]).
  assert (Hr : controlurl.at_host true (str "rtsps") (str "[fe80::1]:8554") (TrimSpace sample_raw))
    by (exists (str "admin:secret@"); split; [vm_compute; reflexivity|right; split; reflexivity]).
  eexists. split; [vm_compute; reflexivity|]. split; [|vm_compute; reflexivity].
  apply (@target_configured controlurl.textual controlurl.textual_laws sample_raw [] [] _ _ _ Hs Hr). vm_compute. reflexivity.
Defined.
End urltarget.
