(* ===== verification/Request.v ===== *)
(** * Requests of an RTSP session: [rtsp/request.go], [rtsp/client.go], [rtsp/keepalive.go]

    The client's state, one request and its response, the answer to a challenge, the messages
    sent without waiting, and the end of the session.

    The reader runs beside the caller.  Wherever the caller waits or holds no lock, a [turn] of
    the environment takes place: the reader handles what some reads return, and another
    goroutine may end the session.  Everything outside is in [env]. *)
From Stdlib Require Import Ascii String.
From S2P Require Import Prelude Bytes Text RtpPacket Rtcp Media Pipeline Transport Message Reader Negotiate HttpAuth Sdp.
From stdpp Require Import gmap.
Local Open Scope Z_scope.

Module rtspclient.
Import audiostream pipeline message reader negotiate.
#[local] Existing Instance httpauth.AuthScheme_dec.

(** ** Errors *)
Inductive err :=
  | StateError (method : list Z) (s : state)
  | Redirect (location : list Z) | Response_ (code : Z) (reason : list Z) | NilResponse
  | AuthFailed (challenges : list (list Z))
  | Ended (why : cause)                       (** a cause the session ended with, or was about to *)
  | ErrUnknownTrack | ErrTrackAlreadySetUp | ErrNoChannelsLeft | ErrUDPSocket
  | ErrUDPSetupRejected (declined : option Z)  (** its text: the status, or the Transport that was no use *)
  | ErrNotSDP | InvalidURL | BadSDP (e : sdp.err)
  | BadTransport (e : transport_err).

(** ** The state of a client *)
Record authState := mkAuth {
  active : bool; challenge : httpauth.Challenge; creds : httpauth.Credentials; cnonce : list Z; nc : Z
}.
Definition no_challenge : httpauth.Challenge := httpauth.mkChallenge httpauth.AuthNone [] ∅.
Definition no_auth : authState := mkAuth false no_challenge (httpauth.mkCredentials [] []) [] 0.

Record ChannelPair := mkPair { cp_TrackID : Z; cp_RTP : Z; cp_RTCP : Z }.
Record UDPEndpoint := mkEndpoint {
  ue_TrackID : Z; ue_ClientRTP : Z; ue_ClientRTCP : Z; ue_ServerRTP : Z; ue_ServerRTCP : Z
}.
(** A socket pair, and the peers once they are resolved: the address and the two ports. *)
Record mediaSockets := mkSockets { clientRTPPort : Z; clientRTCPPort : Z; peers : option (list Z * Z * Z) }.

Definition transportPinTCP : list Z := str "TCP".
Definition transportPinUDP : list Z := str "UDP".

(** What Setup negotiates.  The pin is the empty string until a track is set up. *)
Record negotiated := mkNegotiated {
  sessionID : list Z; sessionTimeout : Z; channelPairs : list ChannelPair; udpEndpoints : list UDPEndpoint;
  sessionTransport : list Z; udpPinned : bool; media : gmap Z mediaSockets
}.

(** The target without credentials, and what the description says of the session. *)
Record identity := mkIdentity { dialURL : list Z; sdpSessionName : list Z; sdpTool : list Z }.

(** [lc] is the state but for its end: [closing] of the reader's session is [termErr], set
    together with [stateClosed]. *)
Record Client := mkClient_ {
  conn : client; lc : state; neg : negotiated; auth : authState; cseq : Z;
  baseURL : list Z; described : list describedTrack; keepaliveMethod : list Z; serverHeader : list Z;
  ident : identity; done_ : bool; turns : nat
}.

Definition termErr (c : Client) : option cause := closing (sess (conn c)).
Definition state_ (c : Client) : state := match termErr c with Some _ => stateClosed | None => lc c end.

Definition set_conn (k : client) (c : Client) : Client :=
  mkClient_ k (lc c) (neg c) (auth c) (cseq c) (baseURL c) (described c) (keepaliveMethod c) (serverHeader c) (ident c) (done_ c) (turns c).
Definition set_lc (s : state) (c : Client) : Client :=
  mkClient_ (conn c) s (neg c) (auth c) (cseq c) (baseURL c) (described c) (keepaliveMethod c) (serverHeader c) (ident c) (done_ c) (turns c).
Definition set_neg (n : negotiated) (c : Client) : Client :=
  mkClient_ (conn c) (lc c) n (auth c) (cseq c) (baseURL c) (described c) (keepaliveMethod c) (serverHeader c) (ident c) (done_ c) (turns c).
Definition set_auth (a : authState) (c : Client) : Client :=
  mkClient_ (conn c) (lc c) (neg c) a (cseq c) (baseURL c) (described c) (keepaliveMethod c) (serverHeader c) (ident c) (done_ c) (turns c).
Definition next_cseq (c : Client) : Client :=
  mkClient_ (conn c) (lc c) (neg c) (auth c) (u32 (cseq c + 1)) (baseURL c) (described c) (keepaliveMethod c) (serverHeader c) (ident c) (done_ c) (turns c).
Definition set_probe (km server : list Z) (c : Client) : Client :=
  mkClient_ (conn c) (lc c) (neg c) (auth c) (cseq c) (baseURL c) (described c) km server (ident c) (done_ c) (turns c).
Definition set_done (c : Client) : Client :=
  mkClient_ (conn c) (lc c) (neg c) (auth c) (cseq c) (baseURL c) (described c) (keepaliveMethod c) (serverHeader c) (ident c) true (turns c).
Definition next_turn (c : Client) : Client :=
  mkClient_ (conn c) (lc c) (neg c) (auth c) (cseq c) (baseURL c) (described c) (keepaliveMethod c) (serverHeader c) (ident c) (done_ c) (S (turns c)).
Definition on_sess (f : session → session) (c : Client) : Client := set_conn (with_sess (f (sess (conn c))) (conn c)) c.

(** ** The outside *)

(** A turn: what the reads return, whether another goroutine then ends the session, and whether
    a reader whose session has ended gets through its terminal sequence. *)
Record turn := mkTurn { t_reads : list read; t_close : option cause; t_finish : bool }.
(** What wakes a caller to whom no response was handed. *)
Inductive waking := WakeCancelled | WakeTimer | WakeDone.

Record env := mkEnv {
  wld : world; userAgent : list Z; username : list Z; password : list Z; reporterSSRC : Z;
  script : nat → turn; wakes : nat → waking;
  nonces : nat → option (list Z);              (** [newCNonce] *)
  binds : nat → nat → option (Z * bool);       (** [net.ListenUDP]: the port, and whether the next one is free *)
  peerIP : option (list Z)                     (** [remoteIP] of the connection *)
}.

(** What the client does: the reader's effects, a challenge adopted, a nonce count allocated,
    requests (with the state their Authorization was computed from), datagrams, and sockets
    closed. *)
Inductive act :=
  | Reader (e : effect)
  | Adopted (st : authState)
  | Counted (st : authState)
  | Sent (req : Request) (used : option authState) (raw : list Z)
  | Datagram (m : mediaSockets) (rtcp : bool) (payload : list Z)
  | Report (raw : list Z)                     (** a Receiver Report on the control connection *)
  | SocketsClosed (m : mediaSockets).

(** ** A computation on the client: its acts, and an error or a value; an error keeps the state *)
Definition op (A : Type) : Type := Client → Client * list act * res err A.
#[export] Instance op_ret : MRet op := λ A a c, (c, [], Ok a).
#[export] Instance op_bind : MBind op := λ A B f m c,
  match m c with
  | (c, out, Ok a) => let '(c, out', r) := f a c in (c, out ++ out', r)
  | (c, out, Err e) => (c, out, Err e)
  | (c, out, Panic) => (c, out, Panic)
  end.
Definition throw {A} (e : err) : op A := λ c, (c, [], Err e).
Definition get : op Client := λ c, (c, [], Ok c).
Definition upd (f : Client → Client) : op unit := λ c, (f c, [], Ok tt).
Definition emit (a : list act) : op unit := λ c, (c, a, Ok tt).
(** The outcome as a value, for a caller that looks at the error. *)
Definition try_ {A} (m : op A) : op (res err A) := λ c,
  match m c with (c, out, Panic) => (c, out, Panic) | (c, out, r) => (c, out, Ok r) end.
Definition lift_total {A} (m : res no_err A) : op A := λ c,
  match m with Ok a => (c, [], Ok a) | Err e => match e with end | Panic => (c, [], Panic) end.

(** ** Writing *)

(** [armWriteDeadline] and [conn.Write]: whether both succeed. *)
Definition socket_write (e : env) : op bool :=
  c ← get; _ ← upd (on_sess set_sent); mret (written_ok (wld e) (sent (sess (conn c)))).

(** [attachAuthorization]: the request it leaves, and the state the header was computed from. *)
Definition digest_input (st : authState) (req : Request) : httpauth.DigestInput :=
  httpauth.mkInput (rq_Method req) (rq_URL req) (cnonce st) (nc st).
Definition with_header (h : Header) (req : Request) : Request :=
  mkRequest (rq_Method req) (rq_URL req) (rq_CSeq req) h (rq_Body req).
Definition nAuthorization : list Z := str "Authorization".

Definition counted (a : authState) : authState := mkAuth (active a) (challenge a) (creds a) (cnonce a) (u32 (nc a + 1)).
Definition adopt (st : authState) : op unit := _ ← upd (set_auth st); emit [Adopted st].

Definition attachAuthorization (req : Request) : op (Request * option authState) :=
  c ← get;
  if negb (active (auth c)) then mret (req, None)
  else
    let st := counted (auth c) in
    _ ← upd (set_auth st);
    _ ← emit [Counted st];
    match httpauth.Authorize (challenge st) (creds st) (digest_input st req) with
    | Ok value => mret (with_header (Set_ (rq_Header req) nAuthorization value) req, Some st)
    | _ => mret (with_header (Del (rq_Header req) nAuthorization) req, None)
    end.

(** [writeAuthorizedRequest]: the request written, or the cause to end with. *)
Definition writeAuthorizedRequest (e : env) (req : Request) : op (Request * option cause) :=
  '(req, used) ← attachAuthorization req;
  match MarshalRequest (Some req) with
  | Ok raw =>
      ok ← socket_write e;
      _ ← emit [Sent req used raw];
      mret (req, if (ok : bool) then None else Some ErrConnectionClosed)
  | Err x => mret (req, Some (RequestInvalid x))
  | Panic => lift_total Panic
  end.

Definition standard_header (e : env) (sid : list Z) (h : Header) : Header :=
  let h := Set_ h (str "User-Agent") (userAgent e) in
  if bool_decide (sid = []) then h else Set_ h (str "Session") sid.

(** [marshalBareRequest]; a request that cannot be written is not sent. *)
Definition marshalBareRequest (e : env) (method url : list Z) : op (option (Request * option authState * list Z)) :=
  c ← get;
  _ ← upd next_cseq;
  c' ← get;
  '(req, used) ← attachAuthorization (mkRequest method url (cseq c') (standard_header e (sessionID (neg c)) ∅) []);
  match MarshalRequest (Some req) with
  | Ok raw => mret (Some (req, used, raw))
  | _ => mret None
  end.
Definition send_bare (e : env) (method url : list Z) : op unit :=
  m ← marshalBareRequest e method url;
  match m with
  | None => mret tt
  | Some (req, used, raw) => _ ← socket_write e; emit [Sent req used raw]
  end.

(** [sendKeepalive] *)
Definition methodOptions : list Z := str "OPTIONS".
Definition sendKeepalive (e : env) : op unit :=
  c ← get;
  send_bare e (if bool_decide (keepaliveMethod c = []) then methodOptions else keepaliveMethod c) (baseURL c).

(** [keepaliveInterval] *)
Definition keepaliveInterval (sessionTimeout : Z) : Z :=
  let timeout := if sessionTimeout <=? 0 then DefaultSessionTimeout else sessionTimeout in
  Z.max (timeout / 2) rtcp.Second.

(** ** The end of the session *)

(** [teardownAndJoin], once: a TEARDOWN when there is a session to end, and the sockets. *)
Definition teardownAndJoin (e : env) : op unit :=
  c ← get;
  _ ← (if bool_decide (sessionID (neg c) = []) then mret tt else send_bare e methodTeardown (baseURL c));
  _ ← emit (SocketsClosed <$> (map_to_list (media (neg c))).*2);
  upd set_done.

Definition shutdown (why : cause) : op unit := upd (on_sess (initiateShutdown why)).

(** [Close], and [Wait] when its context ends first. *)
Definition Close : op unit := shutdown ErrClosed.

Definition reader_acts (out : list effect) : list act := Reader <$> out.

(** ** Turns *)
Definition turn_ (e : env) : op (list effect) :=
  c ← get;
  let t := script e (turns c) in
  _ ← upd next_turn;
  '(k, out, n) ← lift_total (run (wld e) (t_reads t) (conn c));
  _ ← upd (set_conn k);
  _ ← emit (reader_acts out);
  _ ← (match t_close t with None => mret tt | Some why => shutdown why end);
  c ← get;
  _ ← (match termErr c with
       | Some _ => if t_finish t && negb (done_ c) then teardownAndJoin e else mret tt
       | None => mret tt
       end);
  mret out.

(** ** A request and its response *)
Fixpoint answer_to (n : Z) (out : list effect) : option Response :=
  match out with
  | [] => None
  | Resolve resp :: out => if rs_CSeq resp =? n then Some resp else answer_to n out
  | _ :: out => answer_to n out
  end.

Definition wait_on (n : Z) (s : session) : session := set_pending ({[n]} ∪ pending s) s.
Definition wait_off (n : Z) (s : session) : session := set_pending (pending s ∖ {[n]}) s.

(** A cause the caller ends the session with, and returns. *)
Definition fail_with {A} (why : cause) : op A := _ ← shutdown why; throw (Ended why).

Definition roundTrip (e : env) (req : Request) : op (Request * Response) :=
  _ ← turn_ e;
  _ ← upd next_cseq;
  c ← get;
  let n := cseq c in
  let req := mkRequest (rq_Method req) (rq_URL req) n (standard_header e (sessionID (neg c)) (rq_Header req)) (rq_Body req) in
  _ ← upd (on_sess (wait_on n));
  '(req, werr) ← writeAuthorizedRequest e req;
  match werr with
  | Some why => _ ← upd (on_sess (wait_off n)); fail_with why
  | None =>
      out ← turn_ e;
      _ ← upd (on_sess (wait_off n));
      c ← get;
      match answer_to n out with
      | Some resp => mret (req, resp)
      | None =>
          match wakes e (turns c) with
          | WakeCancelled => fail_with ContextDone
          | WakeTimer => fail_with ErrRequestTimeout
          | WakeDone =>
              if done_ c then throw (Ended (default ErrConnectionClosed (termErr c)))
              else fail_with ErrRequestTimeout
          end
      end
  end.

(** ** Authentication *)
Definition refused (s : option status_err) : option err :=
  match s with
  | None => None
  | Some (RedirectError l) => Some (Redirect l)
  | Some (ResponseError code reason) => Some (Response_ code reason)
  | Some (UnauthorizedError cs) => Some (AuthFailed cs)
  | Some ErrNilResponse => Some NilResponse
  end.

(** What the caller makes of a response that is not a challenge. *)
Definition settle (resp : Response) (s : option status_err) : op Response :=
  match refused s with None => mret resp | Some x => throw x end.

(** [activateAuth] *)
Definition activateAuth (e : env) (ch : httpauth.Challenge) : op bool :=
  if negb (bool_decide (httpauth.Scheme ch = httpauth.AuthBasic) || bool_decide (httpauth.Scheme ch = httpauth.AuthDigest)) then mret false
  else
    c ← get;
    match nonces e (turns c) with
    | None => mret false
    | Some nonce => _ ← adopt (mkAuth true ch (httpauth.mkCredentials (username e) (password e)) nonce 0); mret true
    end.

(** [refreshNonce] *)
Definition refreshNonce (ch : httpauth.Challenge) : op bool :=
  c ← get;
  if negb (bool_decide (httpauth.Scheme ch = httpauth.Scheme (challenge (auth c)))) then mret false
  else _ ← adopt (mkAuth (active (auth c)) ch (creds (auth c)) (cnonce (auth c)) 0); mret true.

Definition pick (challenges : list (list Z)) : option httpauth.Challenge := httpauth.SelectChallenge (httpauth.ParseChallenges challenges).

Definition authenticate (e : env) (req : Request) (challenges : list (list Z)) : op Response :=
  match pick challenges with
  | None => throw (AuthFailed challenges)
  | Some ch =>
      ok ← activateAuth e ch;
      if negb (ok : bool) then throw (AuthFailed challenges)
      else
        '(req, resp) ← roundTrip e req;
        match ClassifyStatus (Some resp) with
        | Some (UnauthorizedError second) =>
            match pick second with
            | None => throw (AuthFailed second)
            | Some next =>
                if negb (httpauth.Stale next) then throw (AuthFailed second)
                else
                  ok ← refreshNonce next;
                  if negb (ok : bool) then throw (AuthFailed second)
                  else
                    '(req, resp) ← roundTrip e req;
                    settle resp (ClassifyStatus (Some resp))
            end
        | s => settle resp s
        end
  end.

Definition do_ (e : env) (req : Request) : op Response :=
  '(req, resp) ← roundTrip e req;
  match ClassifyStatus (Some resp) with
  | Some (UnauthorizedError challenges) => authenticate e req challenges
  | s => settle resp s
  end.

(** [options], the probe of Dial: the status of the response does not matter. *)
Definition options (e : env) (reqURL : list Z) : op unit :=
  '(_, resp) ← roundTrip e (mkRequest methodOptions reqURL 0 ∅ []);
  c ← get;
  let km := KeepaliveMethod (ParsePublic (Get (rs_Header resp) (str "Public"))) in
  let server := Get (rs_Header resp) (str "Server") in
  upd (set_probe km (if bool_decide (server = []) then serverHeader c else server)).

(** ** The lifecycle gate *)
Definition requireState (method : list Z) (c : Client) : option err :=
  if legalIn method (state_ c) then None else Some (StateError method (state_ c)).
Definition commitState (method : list Z) (c : Client) : Client :=
  let '(dest, ok) := destState method in if (ok : bool) then set_lc dest c else c.

(** ** Reasoning about computations *)

(** [m] from [c] does not panic, and ends in [QA] with a value or in [QE] with an error. *)
Definition runs {A} (m : op A) (c : Client) (QA : A → Client → list act → Prop) (QE : err → Client → list act → Prop) : Prop :=
  match m c with
  | (c', out, Ok a) => QA a c' out
  | (c', out, Err x) => QE x c' out
  | (_, _, Panic) => False
  end.

Lemma runs_weaken {A} (m : op A) c QA QE QA' QE' : runs m c QA QE →
  (∀ a c' out, QA a c' out → QA' a c' out) → (∀ x c' out, QE x c' out → QE' x c' out) → runs m c QA' QE'.
Proof. unfold runs. destruct (m c) as [[c' out] [a|x|]]; auto. Qed.

Lemma op_bind_eq {A B} (m : op A) (f : A → op B) c : (m ≫= f) c =
  match m c with
  | (c, out, Ok a) => let '(c, out', r) := f a c in (c, out ++ out', r)
  | (c, out, Err e) => (c, out, Err e)
  | (c, out, Panic) => (c, out, Panic)
  end.
Proof. done. Qed.
Lemma runs_bind {A B} (m : op A) (f : A → op B) c QA QE :
  runs m c (λ a c1 o1, runs (f a) c1 (λ b c2 o2, QA b c2 (o1 ++ o2)) (λ x c2 o2, QE x c2 (o1 ++ o2))) QE → runs (m ≫= f) c QA QE.
Proof.
  unfold runs. rewrite op_bind_eq. destruct (m c) as [[c1 o1] [a|x|]]; [|done|done]. by destruct (f a c1) as [[c2 o2] [b|x|]].
Qed.
Lemma runs_try {A} (m : op A) c QA QE : runs m c (λ a, QA (Ok a)) (λ x, QA (Err x)) → runs (try_ m) c QA QE.
Proof. unfold runs, try_. by destruct (m c) as [[c' out] [a|x|]]. Qed.

Lemma runs_get c QA QE : QA c c [] → runs get c QA QE.
Proof. done. Qed.
Lemma runs_upd f c (QA : unit → Client → list act → Prop) QE : QA tt (f c) [] → runs (upd f) c QA QE.
Proof. done. Qed.
Lemma runs_emit a c (QA : unit → Client → list act → Prop) QE : QA tt c a → runs (emit a) c QA QE.
Proof. done. Qed.
Lemma runs_ret {A} (a : A) c (QA : A → Client → list act → Prop) QE : QA a c [] → runs (mret a) c QA QE.
Proof. done. Qed.
Lemma runs_throw {A} x c (QA : A → Client → list act → Prop) (QE : err → Client → list act → Prop) : QE x c [] → runs (throw x) c QA QE.
Proof. done. Qed.

(** A relation between the states and the acts of a computation, with a bound on requests. *)
Class Tracked (R : nat → Client → list act → Client → Prop) := {
  tracked_refl c : R O c [] c;
  tracked_trans n m c o c1 o1 c2 : R n c o c1 → R m c1 o1 c2 → R (n + m)%nat c (o ++ o1) c2;
  tracked_more n m c o c1 : (n ≤ m)%nat → R n c o c1 → R m c o c1
}.

Section sound.
Context (I : Client → Prop) (R : nat → Client → list act → Client → Prop) `{!Tracked R}.

(** [m] keeps the invariant and the relation; its value satisfies [Q]. *)
Definition sound {A} (n : nat) (m : op A) (c : Client) (Q : A → Client → list act → Prop) (E : err → Client → list act → Prop) : Prop :=
  runs m c (λ a c' out, I c' ∧ R n c out c' ∧ Q a c' out) (λ x c' out, I c' ∧ R n c out c' ∧ E x c' out).

Lemma sound_bind {A B} n k (m : op A) (f : A → op B) c (Q : A → Client → list act → Prop) (Q' : B → Client → list act → Prop) E :
  sound n m c Q E → (∀ a c1 o1, I c1 → R n c o1 c1 → Q a c1 o1 → sound k (f a) c1 (λ b c2 o2, Q' b c2 (o1 ++ o2)) (λ x c2 o2, E x c2 (o1 ++ o2))) →
  sound (n + k)%nat (m ≫= f) c Q' E.
Proof.
  intros Hm Hf. apply runs_bind. eapply runs_weaken; [exact Hm| |].
  - intros a c1 o1 (HI & HR & HQ). eapply runs_weaken; [exact (Hf a c1 o1 HI HR HQ)| |].
    + intros b c2 o2 (H1 & H2 & H3). split; [done|]. split; [by eapply tracked_trans|done].
    + intros x c2 o2 (H1 & H2 & H3). split; [done|]. split; [by eapply tracked_trans|done].
  - intros x c1 o1 (HI & HR & HE). split; [done|]. split; [eapply tracked_more; [|done]; lia|done].
Qed.

Lemma sound_weaken {A} n k (m : op A) c (Q Q' : A → Client → list act → Prop) (E E' : err → Client → list act → Prop) :
  sound n m c Q E → (n ≤ k)%nat → (∀ a c' o, I c' → R n c o c' → Q a c' o → Q' a c' o) → (∀ x c' o, E x c' o → E' x c' o) → sound k m c Q' E'.
Proof.
  intros Hm Hn HQ HE. eapply runs_weaken; [exact Hm| |].
  - intros a c' o (H1 & H2 & H3). split; [done|]. split; [by eapply tracked_more|auto].
  - intros a c' o (H1 & H2 & H3). split; [done|]. split; [by eapply tracked_more|auto].
Qed.

Lemma sound_ret {A} (a : A) c (Q : A → Client → list act → Prop) E : I c → Q a c [] → sound 0 (mret a) c Q E.
Proof. intros. split; [done|]. split; [apply tracked_refl|done]. Qed.
Lemma sound_throw {A} x c (Q : A → Client → list act → Prop) (E : err → Client → list act → Prop) : I c → E x c [] → sound 0 (throw x) c Q E.
Proof. intros. split; [done|]. split; [apply tracked_refl|done]. Qed.
Lemma sound_get c (Q : Client → Client → list act → Prop) E : I c → Q c c [] → sound 0 get c Q E.
Proof. intros. split; [done|]. split; [apply tracked_refl|done]. Qed.
Lemma sound_upd f c n (Q : unit → Client → list act → Prop) E : I (f c) → R n c [] (f c) → Q tt (f c) [] → sound n (upd f) c Q E.
Proof. intros. by split_and!. Qed.
Lemma sound_emit a c n (Q : unit → Client → list act → Prop) E : I c → R n c a c → Q tt c a → sound n (emit a) c Q E.
Proof. intros. by split_and!. Qed.
End sound.

(** ** The audit of the credentials

    No request carries an Authorization before a challenge is adopted.  Adopting one resets the
    count; every count allocated is one more than the last, under the same challenge, client nonce
    and credentials; a request carries the value computed for it from the count just allocated,
    and no count is used for two requests. *)
Definition header_free (h : Header) : Prop := h !! canonicalHeaderName nAuthorization = None.

Fixpoint audited (cur : option authState) (fresh : bool) (l : list act) : Prop :=
  match l with
  | [] => True
  | Adopted a :: l => active a = true ∧ nc a = 0 ∧ audited (Some a) false l
  | Counted b :: l => (∃ a, cur = Some a ∧ b = counted a) ∧ audited (Some b) true l
  | Sent req (Some b) raw :: l => cur = Some b ∧ fresh = true ∧
      (∃ v, httpauth.Authorize (challenge b) (creds b) (digest_input b req) = Ok v ∧ Get (rq_Header req) nAuthorization = v) ∧
      audited cur false l
  | Sent req None raw :: l => header_free (rq_Header req) ∧ audited cur fresh l
  | _ :: l => audited cur fresh l
  end.

Definition current (c : Client) : option authState := if active (auth c) then Some (auth c) else None.
Definition audits (c : Client) (out : list act) (c' : Client) : Prop :=
  ∀ l, (∀ f, audited (current c') f l) → ∀ f, audited (current c) f (out ++ l).

(** Requests, not counting the TEARDOWNs nobody waits on. *)
Definition is_request (a : act) : bool := if a is Sent req _ _ then negb (bool_decide (rq_Method req = methodTeardown)) else false.
Definition requests (out : list act) : nat := length (filter (λ a, is_request a = true) out).

(** What requests leave alone. *)
Record requested (n : nat) (c : Client) (out : list act) (c' : Client) : Prop := {
  rq_neg : neg c' = neg c;
  rq_lc : lc c' = lc c;
  rq_described : described c' = described c;
  rq_base : baseURL c' = baseURL c;
  rq_su : su <$> tracks (sess (conn c')) = su <$> tracks (sess (conn c));
  rq_channels : channels (sess (conn c')) = channels (sess (conn c));
  rq_cause : termErr c ≠ None → termErr c' = termErr c;
  rq_active : active (auth c) = true → active (auth c') = true;
  rq_count : (requests out ≤ n)%nat;
  rq_audit : audits c out c';
  rq_ident : ident c' = ident c
}.

Lemma requests_app o o1 : requests (o ++ o1) = (requests o + requests o1)%nat.
Proof. unfold requests. by rewrite filter_app, length_app. Qed.

#[export] Instance requested_tracked : Tracked requested.
Proof.
  split.
  - intros c. split; try done. by intros l Hl f.
  - intros n m c o c1 o1 c2 [A1 A2 A3 A4 A5 A6 A7 A8 A9 A10 A11] [B1 B2 B3 B4 B5 B6 B7 B8 B9 B10 B11].
    split; try congruence; auto.
    + intros H. rewrite B7; [by apply A7|by rewrite A7].
    + rewrite requests_app. lia.
    + intros l Hl f. rewrite <- app_assoc. apply A10. intros f'. by apply B10.
  - intros n m c o c1 Hn []. split; try done. lia.
Qed.

Record client_wf (c : Client) : Prop := {
  wf_conn : client_ok (conn c);
  wf_cseq : is_u32 (cseq c);
  wf_done : done_ c = true → termErr c ≠ None
}.

Abbreviation good := (sound client_wf requested).
Definition good_bind {A B} := @sound_bind client_wf requested _ A B.
Definition good_weaken {A} := @sound_weaken client_wf requested _ A.
Lemma good_mono {A} n k (m : op A) c (Q Q' : A → Client → list act → Prop) E : good n m c Q E → (n ≤ k)%nat →
  (∀ a c' o, client_wf c' → requested n c o c' → Q a c' o → Q' a c' o) → good k m c Q' E.
Proof. intros Hm Hn HQ. eapply good_weaken; [exact Hm|done|done|done]. Qed.
Definition good_ret {A} := @sound_ret client_wf requested _ A.
Definition good_throw {A} := @sound_throw client_wf requested _ A.
Definition good_get := @sound_get client_wf requested _.

(** Changes of the session that requests make. *)
Lemma on_sess_requested f c : su <$> tracks (f (sess (conn c))) = su <$> tracks (sess (conn c)) →
  channels (f (sess (conn c))) = channels (sess (conn c)) → (termErr c ≠ None → closing (f (sess (conn c))) = termErr c) →
  requested 0 c [] (on_sess f c).
Proof. intros H1 H2 H3. split; try done. intros l Hl fr. apply Hl. Qed.

(** An update that a step of the session allows. *)
Definition quiet (f : session → session) : Prop := ∀ s, session_ok s →
  session_ok (f s) ∧ su <$> tracks (f s) = su <$> tracks s ∧ channels (f s) = channels s ∧ (closing s ≠ None → closing (f s) = closing s).

Lemma quiet_good f c (Q : unit → Client → list act → Prop) E : quiet f → client_wf c → Q tt (on_sess f c) [] → good 0%nat (upd (on_sess f)) c Q E.
Proof.
  intros Hf [[H1 H2 H3] H4 H5] HQ. destruct (Hf _ H1) as (A1 & A2 & A3 & A4). apply sound_upd; [|by apply on_sess_requested|done].
  split; [by split|done|]. intros Hd. specialize (H5 Hd). unfold termErr in *. cbn. by rewrite A4.
Qed.

Lemma quiet_wait_on n : quiet (wait_on n).
Proof. intros s [A B C]. split; [by split|]. split; [done|by split]. Qed.
Lemma quiet_wait_off n : quiet (wait_off n).
Proof. intros s [A B C]. split; [by split|]. split; [done|by split]. Qed.
Lemma quiet_sent : quiet set_sent.
Proof. intros s [A B C]. split; [by split|]. split; [done|by split]. Qed.
Lemma quiet_shutdown why : quiet (initiateShutdown why).
Proof. intros s H. split; [by apply shutdown_ok|]. by destruct (shutdown_framed why s). Qed.

Lemma quiet_requested f c : quiet f → client_wf c → client_wf (on_sess f c) ∧ requested 0 c [] (on_sess f c).
Proof. intros Hf Hc. destruct (quiet_good f c (λ _ _ _, True) (λ _ _ _, True) Hf Hc I) as (H1 & H2 & _). done. Qed.

Lemma socket_write_eq e c : socket_write e c = (on_sess set_sent c, [], Ok (written_ok (wld e) (sent (sess (conn c))))).
Proof. done. Qed.

Lemma attach_eq req c : attachAuthorization req c =
  if negb (active (auth c)) then (c, [], Ok (req, None))
  else
    let st := counted (auth c) in
    (set_auth st c, [Counted st],
      Ok match httpauth.Authorize (challenge st) (creds st) (digest_input st req) with
         | Ok value => (with_header (Set_ (rq_Header req) nAuthorization value) req, Some st)
         | _ => (with_header (Del (rq_Header req) nAuthorization) req, None)
         end).
Proof.
  unfold attachAuthorization. rewrite op_bind_eq. cbn [get app]. destruct (negb _); [done|]. cbv zeta. rewrite op_bind_eq. cbn [upd app].
  rewrite op_bind_eq. cbn [emit app]. by destruct (httpauth.Authorize _ _ _).
Qed.

(** A request that was attached, written as [raw]: the acts pass the audit. *)
Definition attached_acts (c : Client) : list act := if active (auth c) then [Counted (counted (auth c))] else [].
Definition attached_client (c : Client) : Client := if active (auth c) then set_auth (counted (auth c)) c else c.
Definition header_clean (req : Request) (c : Client) : Prop := header_free (rq_Header req) ∨ active (auth c) = true.

Lemma Get_Set h v : Get (Set_ h nAuthorization v) nAuthorization = v.
Proof. unfold Get, Values, Set_. by rewrite lookup_insert_eq. Qed.

Lemma attach_audited req c : header_clean req c → ∃ req' used, attachAuthorization req c = (attached_client c, attached_acts c, Ok (req', used)) ∧
  rq_Method req' = rq_Method req ∧ rq_URL req' = rq_URL req ∧ rq_CSeq req' = rq_CSeq req ∧ rq_Body req' = rq_Body req ∧ header_clean req' (attached_client c) ∧
  audits c (attached_acts c) (attached_client c) ∧ ∀ raw, audits c (attached_acts c ++ [Sent req' used raw]) (attached_client c).
Proof.
  intros Hh. rewrite attach_eq. unfold attached_client, attached_acts. destruct (active (auth c)) eqn:Ea; cbn [negb].
  - cbv zeta. set (st := counted (auth c)). assert (Hst : current (set_auth st c) = Some st) by (unfold current; cbn; by rewrite Ea).
    assert (Hc : current c = Some (auth c)) by (unfold current; by rewrite Ea).
    assert (Ha : active (auth (set_auth st c)) = true) by (cbn; exact Ea).
    destruct (httpauth.Authorize _ _ _) as [v|x|] eqn:Ev; eexists _, _; (split; [done|]); do 4 (split; [done|]); (split; [by right|]); split;
      try (intros l Hl f; cbn [app audited]; (split; [by exists (auth c)|]); rewrite Hst in Hl; apply Hl);
      intros raw l Hl f; cbn [app audited]; (split; [by exists (auth c)|]); rewrite Hst in Hl.
    + split; [done|]. split; [done|]. split; [|apply Hl]. exists v. split; [exact Ev|apply Get_Set].
    + split; [|apply Hl]. apply lookup_delete_eq.
    + split; [|apply Hl]. apply lookup_delete_eq.
  - destruct Hh as [Hh|?]; [|congruence]. exists req, None. do 5 (split; [done|]). split; [by left|]. split; [intros l Hl f; apply Hl|].
    intros raw l Hl f. cbn [app audited]. split; [done|apply Hl].
Qed.

(** Attaching puts no line end in a header. *)
Lemma attach_lines req c c2 out req' used : attachAuthorization req c = (c2, out, Ok (req', used)) → headerHasCRLF (rq_Header req) = false →
  rq_Method req' = rq_Method req ∧ rq_URL req' = rq_URL req ∧ rq_Body req' = rq_Body req ∧ headerHasCRLF (rq_Header req') = false.
Proof.
  rewrite attach_eq. destruct (negb _); [by intros [= <- <- <- <-]|]. cbv zeta.
  destruct (httpauth.Authorize _ _ _) as [v|x|] eqn:Ev; intros [= <- <- <- <-] Hh; do 3 (split; [done|]); cbn [with_header rq_Header];
    [|by apply headerHasCRLF_Del..]. apply headerHasCRLF_Set; [done|by vm_compute|]. apply httpauth.Authorize_clean in Ev.
  unfold hasCRLF. clear -Ev. induction Ev as [|x v Hx _ IH]; [done|]. cbn. rewrite IH. unfold httpauth.is_crlf in Hx. by rewrite Hx.
Qed.
Lemma standard_lines e sid : hasCRLF (userAgent e) = false → hasCRLF sid = false → headerHasCRLF (standard_header e sid ∅) = false.
Proof.
  intros Hu Hs. unfold standard_header. cbv zeta. assert (H : headerHasCRLF (Set_ ∅ (str "User-Agent") (userAgent e)) = false).
  { apply headerHasCRLF_Set; [by apply headerHasCRLF_false|by vm_compute|done]. }
  destruct (bool_decide (sid = [])); [done|]. apply headerHasCRLF_Set; [done|by vm_compute|done].
Qed.

Lemma attached_requested c out : client_wf c → audits c out (attached_client c) → client_wf (attached_client c) ∧ requested (requests out) c out (attached_client c).
Proof.
  intros [H1 H2 H3] Ha. unfold attached_client in *. destruct (active (auth c)) eqn:Ea; (split; [by split|]); split; try done.
Qed.

Lemma MarshalRequest_total req : MarshalRequest (Some req) ≠ Panic.
Proof. unfold MarshalRequest. by repeat match goal with |- context [if ?b then _ else _] => destruct b end. Qed.

(** [writeAuthorizedRequest] sends one request or none. *)
Lemma write_good e req c E : client_wf c → header_clean req c →
  good 1%nat (writeAuthorizedRequest e req) c (λ a c' out, rq_Method a.1 = rq_Method req ∧ rq_URL a.1 = rq_URL req ∧ rq_CSeq a.1 = rq_CSeq req ∧
    rq_Body a.1 = rq_Body req ∧ header_clean a.1 c' ∧
    (a.2 = None → ∃ o used raw, out = o ++ [Sent a.1 used raw] ∧ MarshalRequest (Some a.1) = Ok raw)) E.
Proof.
  intros Hc Hh. destruct (attach_audited req c Hh) as (req' & used & Ea & Hm & Hu & Hs & Hb & Hh' & A0 & A1).
  unfold sound, runs, writeAuthorizedRequest. rewrite op_bind_eq, Ea. cbn iota beta.
  assert (Hreq : (requests (attached_acts c) ≤ 0)%nat) by (unfold attached_acts; destruct (active _); vm_compute; lia).
  destruct (MarshalRequest (Some req')) as [raw|x|] eqn:Em.
  - rewrite op_bind_eq, socket_write_eq, op_bind_eq. cbn [emit app mret op_ret].
    destruct (attached_requested c _ Hc (A1 raw)) as [W1 R1]. destruct (quiet_requested set_sent _ quiet_sent W1) as [W2 R2].
    split; [exact W2|]. split.
    + pose proof (tracked_trans _ _ _ _ _ _ _ R1 R2) as R. rewrite app_nil_r in R. eapply tracked_more; [|exact R]. rewrite requests_app.
      assert (requests [Sent req' used raw] ≤ 1)%nat by (unfold requests; rewrite filter_cons; case_decide; cbn; lia). lia.
    + cbn [fst snd]. do 5 (split; [done|]). intros _. exists (attached_acts c), used, raw. done.
  - destruct (attached_requested c _ Hc A0) as [W1 R1]. cbn [mret op_ret]. rewrite app_nil_r. split; [exact W1|]. split; [eapply tracked_more; [|exact R1]; lia|]. cbn [fst snd]. by do 5 (split; [done|]).
  - by apply MarshalRequest_total in Em.
Qed.

Lemma next_cseq_wf c : client_wf c → client_wf (next_cseq c) ∧ requested 0 c [] (next_cseq c).
Proof. intros [H1 H2 H3]. split; [split; [exact H1|apply u32_range|exact H3]|]. split; try done. by intros l Hl f. Qed.
Lemma next_turn_wf c : client_wf c → client_wf (next_turn c) ∧ requested 0 c [] (next_turn c).
Proof. intros [H1 H2 H3]. split; [by split|]. split; try done. by intros l Hl f. Qed.

Lemma standard_header_free e sid h : header_free h → header_free (standard_header e sid h).
Proof.
  unfold header_free, standard_header. intros Hh. assert (H : ∀ k v h, canonicalHeaderName k ≠ canonicalHeaderName nAuthorization →
    h !! canonicalHeaderName nAuthorization = None → Set_ h k v !! canonicalHeaderName nAuthorization = None).
  { intros k v h' Hk H'. unfold Set_. by rewrite lookup_insert_ne. }
  assert (H1 : Set_ h (str "User-Agent") (userAgent e) !! canonicalHeaderName nAuthorization = None) by (apply H; [by vm_compute|done]).
  destruct (bool_decide _); [done|]. apply H; [by vm_compute|done].
Qed.

Lemma send_bare_eq e method url c c2 out req used :
  attachAuthorization (mkRequest method url (cseq (next_cseq c)) (standard_header e (sessionID (neg c)) ∅) []) (next_cseq c) = (c2, out, Ok (req, used)) →
  send_bare e method url c = match MarshalRequest (Some req) with
    | Ok raw => (on_sess set_sent c2, out ++ [Sent req used raw], Ok tt)
    | _ => (c2, out, Ok tt)
    end.
Proof.
  intros Ea. unfold send_bare, marshalBareRequest, mbind, op_bind, get, upd. cbn iota beta. rewrite Ea. cbn iota beta.
  destruct (MarshalRequest (Some req)); cbn [mret op_ret app]; rewrite ?app_nil_r; [|done..]. by rewrite socket_write_eq.
Qed.

(** A message sent without waiting; a TEARDOWN is not counted. *)
Lemma send_bare_good e method url c (E : err → Client → list act → Prop) : client_wf c →
  good (if bool_decide (method = methodTeardown) then 0%nat else 1%nat) (send_bare e method url) c (λ _ c' out,
    verb_ok method → uri_ok url → hasCRLF (userAgent e) = false → hasCRLF (sessionID (neg c')) = false →
    ∃ req used raw, rq_Method req = method ∧ rq_URL req = url ∧ MarshalRequest (Some req) = Ok raw ∧ Sent req used raw ∈ out) E.
Proof.
  intros Hc. set (n := if bool_decide _ then _ else _). destruct (next_cseq_wf c Hc) as [Hc1 R1]. set (c1 := next_cseq c) in *.
  set (req := mkRequest method url (cseq c1) (standard_header e (sessionID (neg c)) ∅) []).
  assert (Hh : header_clean req c1) by (left; apply standard_header_free, lookup_empty).
  destruct (attach_audited req c1 Hh) as (req' & used & Ea & Hm & Hu & _ & _ & _ & A0 & A1).
  assert (Hreq : (requests (attached_acts c1) ≤ 0)%nat) by (unfold attached_acts; destruct (active _); vm_compute; lia).
  unfold sound, runs. rewrite (send_bare_eq e method url c _ _ _ _ Ea). destruct (MarshalRequest (Some req')) as [raw|x|] eqn:Em.
  - destruct (attached_requested c1 _ Hc1 (A1 raw)) as [W1 R2]. destruct (quiet_requested set_sent _ quiet_sent W1) as [W2 R3].
    split; [exact W2|]. split.
    + pose proof (tracked_trans _ _ _ _ _ _ _ (tracked_trans _ _ _ _ _ _ _ R1 R2) R3) as R. rewrite !app_nil_r in *. cbn [app] in R.
      eapply tracked_more; [|exact R]. rewrite requests_app.
      assert (requests [Sent req' used raw] ≤ n)%nat; [|lia]. unfold requests, n. rewrite filter_cons. cbn [is_request]. rewrite Hm. cbn [rq_Method req].
      by case_bool_decide; case_decide; cbn; auto with arith.
    + intros _ _ _ _. exists req', used, raw. split; [exact Hm|]. split; [exact Hu|]. split; [exact Em|]. apply elem_of_app. right. by left.
  - destruct (attached_requested c1 _ Hc1 A0) as [W1 R2]. split; [exact W1|]. split.
    + pose proof (tracked_trans _ _ _ _ _ _ _ R1 R2) as R. cbn [app] in R. eapply tracked_more; [|exact R]. lia.
    + intros Hv Hurl Hua Hsid. exfalso. rewrite (rq_neg _ _ _ _ R2) in Hsid.
      destruct (attach_lines _ _ _ _ _ _ Ea (standard_lines e _ Hua Hsid)) as (B1 & B2 & B3 & B4).
      destruct (MarshalRequest_writable req') as [raw Hr]; [by rewrite B1|by rewrite B2|by rewrite B3|done|congruence].
  - by apply MarshalRequest_total in Em.
Qed.

(** ** Turns *)
Definition turn_ok (t : turn) : Prop := Forall read_ok (t_reads t).
Definition env_ok (e : env) : Prop := ∀ n, turn_ok (script e n).

Lemma emit_quiet_good l c (Q : unit → Client → list act → Prop) E : (∀ cur f k, audited cur f (l ++ k) ↔ audited cur f k) → requests l = 0%nat →
  client_wf c → Q tt c l → good 0%nat (emit l) c Q E.
Proof.
  intros Hl Hr Hc HQ. apply sound_emit; [done| |done]. split; try done; [by rewrite Hr|]. intros k Hk f. by apply Hl.
Qed.

Lemma reader_acts_quiet out : (∀ cur f k, audited cur f (reader_acts out ++ k) ↔ audited cur f k) ∧ requests (reader_acts out) = 0%nat.
Proof. induction out as [|x out [IH1 IH2]]; [done|]. done. Qed.
Lemma sockets_quiet ms : (∀ cur f k, audited cur f ((SocketsClosed <$> ms) ++ k) ↔ audited cur f k) ∧ requests (SocketsClosed <$> ms) = 0%nat.
Proof. induction ms as [|x out [IH1 IH2]]; [done|]. done. Qed.

Lemma teardownAndJoin_good e c (E : err → Client → list act → Prop) : client_wf c → termErr c ≠ None →
  good 0%nat (teardownAndJoin e) c (λ _ c' out, done_ c' = true) E.
Proof.
  intros Hc Ht. unfold teardownAndJoin. apply (good_bind 0 0 _ _ _ (λ a c1 _, a = c1 ∧ c1 = c)); [by apply good_get|].
  intros a c1 o1 H1 R1 [-> ->]. apply (good_bind 0 0 _ _ _ (λ _ _ _, True)).
  { case_bool_decide; [by apply good_ret|]. eapply (good_mono 0); [exact (send_bare_good e methodTeardown (baseURL c) c _ H1)|done|done]. }
  intros [] c2 o2 H2 R2 _. apply (good_bind 0 0 _ _ _ (λ _ c3 _, c3 = c2)).
  { destruct (sockets_quiet (map_to_list (media (neg c))).*2). by apply emit_quiet_good. }
  intros [] c3 o3 H3 _ ->. assert (Ht2 : termErr c2 ≠ None) by (rewrite (rq_cause _ _ _ _ R2); done).
  apply sound_upd; [|by split; try done; intros l Hl f|done]. destruct H2 as [A1 A2 A3]. by split.
Qed.

(** In a turn the client's own state is left alone, whatever the connection brings. *)
Lemma turn_good e c (E : err → Client → list act → Prop) : env_ok e → client_wf c →
  good 0%nat (turn_ e) c (λ out c' acts, ∃ rest, acts = reader_acts out ++ rest) E.
Proof.
  intros He Hc. unfold turn_. destruct (next_turn_wf c Hc) as [W1 R1].
  apply (good_bind 0 0 _ _ _ (λ a c1 o, a = c ∧ c1 = c ∧ o = [])); [by apply good_get|]. intros a ? ? _ _ (-> & -> & ->). cbv zeta.
  apply (good_bind 0 0 _ _ _ (λ _ c1 o, c1 = next_turn c ∧ o = [])); [by apply sound_upd|]. intros [] ? ? _ _ (-> & ->).
  destruct (run_ok (wld e) (t_reads (script e (turns c))) (conn c) (wf_conn _ Hc) (He _)) as (k & out & n & Er & Hk & _ & Hf).
  unfold lift_total. rewrite Er. apply (good_bind 0 0 _ _ _ (λ a c1 o, a = (k, out, n) ∧ c1 = next_turn c ∧ o = [])); [by apply good_ret|].
  intros ? ? ? _ _ (-> & -> & ->). cbn iota beta.
  apply (good_bind 0 0 _ _ _ (λ _ c1 o, o = [])).
  { destruct Hf as [F1 F2 F3 F4 F5]. apply sound_upd; [|split; try done; by intros l Hl f|done]. destruct W1 as [A1 A2 A3]. split; [exact Hk|exact A2|].
    intros Hd. specialize (A3 Hd). unfold termErr in *. cbn in *. by rewrite F5. }
  intros [] c2 o2 H2 R2 ->.
  apply (good_bind 0 0 _ _ _ (λ _ c1 o, o = reader_acts out)); [by destruct (reader_acts_quiet out); apply emit_quiet_good|].
  intros [] c3 o3 H3 _ ->.
  apply (good_bind 0 0 _ _ _ (λ _ c1 o, True)); [destruct (t_close _); [apply quiet_good; [apply quiet_shutdown|done|done]|by apply good_ret]|].
  intros [] c4 o4 H4 _ _.
  apply (good_bind 0 0 _ _ _ (λ a c1 o, a = c1 ∧ c1 = c4)); [by apply good_get|]. intros ? ? o5 _ _ (-> & ->).
  apply (good_bind 0 0 _ _ _ (λ a c1 o, True)).
  { destruct (termErr c4) eqn:Et; [|by apply good_ret]. destruct (_ && _); [|by apply good_ret].
    eapply (good_mono 0); [apply (teardownAndJoin_good e c4 _ H4); congruence|done|done]. }
  intros [] c5 o6 H5 _ _. apply good_ret; [done|]. cbn [app]. by eexists.
Qed.

(** ** A request and its response *)

(** The response is the one the reader handed over, after the request was written, for the
    sequence number it was written with. *)
Definition matched (out : list act) (req : Request) (resp : Response) : Prop :=
  rs_CSeq resp = rq_CSeq req ∧ ∃ o1 used raw o2, out = o1 ++ Sent req used raw :: o2 ∧
    MarshalRequest (Some req) = Ok raw ∧ Reader (Resolve resp) ∈ o2.

Lemma answer_to_spec n out resp : answer_to n out = Some resp → rs_CSeq resp = n ∧ Resolve resp ∈ out.
Proof.
  induction out as [|x out IH]; [done|]. cbn. destruct x as [tr ev|r|raw]; [intros H%IH; split; [apply H|right; apply H]| |intros H%IH; split; [apply H|right; apply H]].
  destruct (Z.eqb_spec (rs_CSeq r) n) as [E|]; [intros [= <-]; split; [exact E|by left]|]. intros H%IH. split; [apply H|right; apply H].
Qed.

Definition ended (x : err) (c : Client) (_ : list act) : Prop := ∃ why, x = Ended why ∧ termErr c ≠ None.

Lemma termErr_shutdown why c : termErr (on_sess (initiateShutdown why) c) ≠ None.
Proof. unfold termErr. cbn. apply shutdown_closed. Qed.

Lemma fail_good {A} why c (Q : A → Client → list act → Prop) : client_wf c → good 0%nat (fail_with why) c Q ended.
Proof.
  intros Hc. unfold fail_with, shutdown. apply (good_bind 0 0 _ _ _ (λ _ c1 _, termErr c1 ≠ None)).
  - apply quiet_good; [apply quiet_shutdown|done|apply termErr_shutdown].
  - intros [] c1 o1 H1 _ Ht. apply good_throw; [done|]. by exists why.
Qed.

Lemma header_clean_keeps n req c out c' : requested n c out c' → header_clean req c → header_clean req c'.
Proof. intros R [H|H]; [by left|right]. by apply (rq_active _ _ _ _ R). Qed.

Lemma roundTrip_good e req c : env_ok e → client_wf c → header_clean req c →
  good 1%nat (roundTrip e req) c (λ a c' out, rq_Method a.1 = rq_Method req ∧ rq_URL a.1 = rq_URL req ∧ rq_Body a.1 = rq_Body req ∧
    header_clean a.1 c' ∧ matched out a.1 a.2) ended.
Proof.
  intros He Hc Hh. unfold roundTrip. apply (good_bind 0 1 _ _ _ (λ _ _ _, True)).
  { by eapply (good_mono 0); [exact (turn_good e c _ He Hc)|..]. }
  intros _ c1 o1 H1 R1 _. destruct (next_cseq_wf c1 H1) as [W2 R2].
  apply (good_bind 0 1 _ _ _ (λ _ c2 o, c2 = next_cseq c1)); [by apply sound_upd|]. intros [] ? o2 _ _ ->.
  apply (good_bind 0 1 _ _ _ (λ a c2 o, a = next_cseq c1 ∧ c2 = next_cseq c1)); [by apply good_get|]. intros ? ? o3 _ _ (-> & ->). cbv zeta.
  set (req1 := mkRequest _ _ _ _ _). set (n := cseq (next_cseq c1)).
  apply (good_bind 0 1 _ _ _ (λ _ _ _, True)); [apply quiet_good; [apply quiet_wait_on|done|done]|]. intros [] c4 o4 H4 R4 _.
  assert (Hh1 : header_clean req1 c4).
  { eapply header_clean_keeps in Hh; [|exact (tracked_trans _ _ _ _ _ _ _ R1 (tracked_trans _ _ _ _ _ _ _ R2 R4))].
    destruct Hh as [Hh|Hh]; [left; by apply standard_header_free|by right]. }
  apply (good_bind 1 0 _ _ _ _ _ _ (write_good e req1 c4 _ H4 Hh1)). intros [req2 werr] c5 o5 H5 _ (Em & Eu & Es & Eb & Hh2 & Hw). cbn [fst snd] in *.
  destruct werr as [why|].
  { apply (good_bind 0 0 _ _ _ (λ _ _ _, True)); [apply quiet_good; [apply quiet_wait_off|done|done]|]. intros [] c6 o6 H6 _ _. by apply fail_good. }
  destruct (Hw eq_refl) as (o & used & raw & -> & Em2).
  apply (good_bind 0 0 _ _ _ _ _ _ (turn_good e c5 _ He H5)). intros out c6 o6 H6 R6 (rest & ->).
  apply (good_bind 0 0 _ _ _ (λ _ _ _, True)); [apply quiet_good; [apply quiet_wait_off|done|done]|]. intros [] c7 o7 H7 R7 _.
  apply (good_bind 0 0 _ _ _ (λ a c2 _, a = c7 ∧ c2 = c7)); [by apply good_get|]. intros ? ? o8 _ _ (-> & ->).
  destruct (answer_to n out) as [resp|] eqn:Er.
  - apply good_ret; [done|]. cbn [fst snd]. split; [exact Em|]. split; [exact Eu|]. split; [exact Eb|].
    split; [eapply header_clean_keeps; [exact R7|]; eapply header_clean_keeps; [exact R6|exact Hh2]|].
    apply answer_to_spec in Er as [Ec Hin]. split; [by rewrite Ec, Es|].
    exists (o1 ++ o2 ++ o3 ++ o4 ++ o), used, raw, ((reader_acts out ++ rest) ++ o7 ++ o8). split; [by rewrite <- !app_assoc, app_nil_r|]. split; [exact Em2|].
    apply elem_of_app. left. apply elem_of_app. left. apply list_elem_of_fmap. by exists (Resolve resp).
  - destruct (wakes e (turns c7)); [by apply fail_good..|]. destruct (done_ c7) eqn:Ed; [|by apply fail_good].
    apply good_throw; [done|]. eexists. split; [done|]. by apply (wf_done _ H7).
Qed.

(** ** The answer to a challenge *)
Lemma throw_good {A} n x c (Q : A → Client → list act → Prop) (E : err → Client → list act → Prop) : client_wf c → E x c [] → good n (throw x) c Q E.
Proof. intros Hc HE. eapply (good_weaken 0); [exact (good_throw x c (λ _ _ _, False) E Hc HE)|lia|done|done]. Qed.
Lemma adopt_good st c (Q : unit → Client → list act → Prop) E : client_wf c → active st = true → nc st = 0 → Q tt (set_auth st c) [Adopted st] →
  good 0%nat (adopt st) c Q E.
Proof.
  intros [H1 H2 H3] Ha Hn HQ. unfold adopt. unfold sound, runs. rewrite op_bind_eq. cbn [upd emit app]. split; [by split|]. split; [|exact HQ].
  split; try done. intros l Hl f. cbn [app audited]. split; [done|]. split; [done|]. unfold current in Hl. cbn in Hl. rewrite Ha in Hl. apply Hl.
Qed.

Lemma activate_good e ch c (E : err → Client → list act → Prop) : client_wf c →
  good 0%nat (activateAuth e ch) c (λ ok c' _, ok = true → active (auth c') = true) E.
Proof.
  intros Hc. unfold activateAuth. destruct (negb _); [by apply good_ret|]. apply (good_bind 0 0 _ _ _ (λ a c2 _, a = c ∧ c2 = c)); [by apply good_get|].
  intros ? ? o1 _ _ (-> & ->). destruct (nonces e (turns c)) as [nonce|]; [|by apply good_ret].
  apply (good_bind 0 0 _ _ _ (λ _ c2 _, active (auth c2) = true)); [by apply adopt_good|]. intros [] c2 o2 H2 _ Ha. by apply good_ret.
Qed.

(** A rotated nonce keeps the scheme. *)
Lemma refresh_good ch c (E : err → Client → list act → Prop) : client_wf c → active (auth c) = true →
  good 0%nat (refreshNonce ch) c (λ ok c' _, ok = true → active (auth c') = true) E.
Proof.
  intros Hc Ha. unfold refreshNonce. apply (good_bind 0 0 _ _ _ (λ a c2 _, a = c ∧ c2 = c)); [by apply good_get|].
  intros ? ? o1 _ _ (-> & ->). destruct (negb _); [by apply good_ret|].
  apply (good_bind 0 0 _ _ _ (λ _ c2 _, active (auth c2) = true)); [by apply adopt_good|]. intros [] c2 o2 H2 _ Ha2. by apply good_ret.
Qed.

Definition do_err (x : err) (c : Client) (_ : list act) : Prop :=
  match x with
  | Redirect _ | AuthFailed _ => True
  | Response_ code _ => ¬ (100 ≤ code < 400) ∧ code ≠ 401
  | Ended _ => termErr c ≠ None
  | _ => False
  end.
Lemma ended_do x c o : ended x c o → do_err x c o.
Proof. by intros (why & -> & H). Qed.

Lemma settle_good resp c (Q : Response → Client → list act → Prop) : client_wf c → (100 ≤ rs_StatusCode resp < 300 → Q resp c []) →
  good 0%nat (settle resp (ClassifyStatus (Some resp))) c Q do_err.
Proof.
  intros Hc HQ. unfold settle, ClassifyStatus. destruct ((100 <=? _) && _) eqn:E1; cbn [refused]; [apply good_ret; [done|]; apply HQ; lia|].
  destruct ((300 <=? _) && _) eqn:E2; cbn [refused]; [by apply good_throw|]. destruct (_ =? 401) eqn:E3; cbn [refused]; [by apply good_throw|].
  apply good_throw; [done|]. cbn [do_err]. lia.
Qed.

(** A value that [do] may return. *)
Definition answered (req : Request) (resp : Response) (out : list act) : Prop :=
  100 ≤ rs_StatusCode resp < 300 ∧ ∃ req', rq_Method req' = rq_Method req ∧ rq_URL req' = rq_URL req ∧ matched out req' resp.

Lemma matched_app o1 out o2 req resp : matched out req resp → matched (o1 ++ out ++ o2) req resp.
Proof.
  intros (H & a & used & raw & b & -> & Hm & Hr). split; [done|]. exists (o1 ++ a), used, raw, (b ++ o2). rewrite <- !app_assoc. split; [done|].
  split; [done|]. apply elem_of_app. by left.
Qed.
Lemma answered_app o1 out o2 req resp : answered req resp out → answered req resp (o1 ++ out ++ o2).
Proof. intros (H & r & H1 & H2 & H3). split; [done|]. exists r. split_and!; try done. by apply matched_app. Qed.
Lemma answered_same req0 req resp out : rq_Method req = rq_Method req0 → rq_URL req = rq_URL req0 → answered req resp out → answered req0 resp out.
Proof. intros E1 E2 (H & r & H1 & H2 & H3). split; [done|]. exists r. split_and!; congruence. Qed.

Lemma roundTrip_do e req c : env_ok e → client_wf c → header_clean req c →
  good 1%nat (roundTrip e req) c (λ a c' out, rq_Method a.1 = rq_Method req ∧ rq_URL a.1 = rq_URL req ∧ rq_Body a.1 = rq_Body req ∧
    header_clean a.1 c' ∧ matched out a.1 a.2) do_err.
Proof. intros He Hc Hh. eapply good_weaken; [exact (roundTrip_good e req c He Hc Hh)|done|done|apply ended_do]. Qed.

Lemma settled_good req req' resp o1 c : client_wf c → rq_Method req' = rq_Method req → rq_URL req' = rq_URL req → matched o1 req' resp →
  good 0%nat (settle resp (ClassifyStatus (Some resp))) c (λ a c' out, answered req a (o1 ++ out)) do_err.
Proof.
  intros Hc Em Eu Hm. apply settle_good; [done|]. intros Hs. split; [done|]. exists req'. split_and!; try done. exact (matched_app [] _ [] _ _ Hm).
Qed.

Lemma authenticate_good e req cs c : env_ok e → client_wf c → header_clean req c →
  good 2%nat (authenticate e req cs) c (λ resp c' out, answered req resp out) do_err.
Proof.
  intros He Hc Hh. unfold authenticate. destruct (pick cs) as [ch|]; [|by apply throw_good].
  apply (good_bind 0 2 _ _ _ _ _ _ (activate_good e ch c _ Hc)). intros ok c1 o1 H1 R1 Ha.
  destruct ok; cbn [negb]; [|by apply throw_good]. specialize (Ha eq_refl).
  apply (good_bind 1 1 _ _ _ _ _ _ (roundTrip_do e req c1 He H1 (or_intror Ha))). intros [req1 resp] c2 o2 H2 R2 (Em & Eu & _ & Hh2 & Hm). cbn [fst snd] in *.
  assert (Ha2 : active (auth c2) = true) by by apply (rq_active _ _ _ _ R2).
  assert (Hset : good 1%nat (settle resp (ClassifyStatus (Some resp))) c2 (λ b c3 o3, answered req b (o1 ++ o2 ++ o3)) do_err).
  { eapply good_weaken; [by eapply (settled_good req)|lia| |done]. intros a c' o _ _ H. exact (answered_app o1 _ [] _ _ H) || (rewrite <- (app_nil_r (o2 ++ o)); by apply answered_app). }
  destruct (ClassifyStatus (Some resp)) as [[l|second|code reason|]|] eqn:Ec; try exact Hset.
  destruct (pick second) as [next|]; [|by apply throw_good].
  destruct (httpauth.Stale next); cbn [negb]; [|by apply throw_good].
  apply (good_bind 0 1 _ _ _ _ _ _ (refresh_good next c2 _ H2 Ha2)). intros ok c3 o3 H3 R3 Ha3.
  destruct ok; cbn [negb]; [|by apply throw_good]. specialize (Ha3 eq_refl).
  apply (good_bind 1 0 _ _ _ _ _ _ (roundTrip_do e req1 c3 He H3 (or_intror Ha3))). intros [req2 resp2] c4 o4 H4 R4 (Em2 & Eu2 & _ & _ & Hm2). cbn [fst snd] in *.
  eapply good_weaken; [by eapply (settled_good req1)|lia| |done]. intros a c' o _ _ H.
  apply (answered_same req) in H; [|done|done]. apply (answered_app (o1 ++ o2 ++ o3) _ []) in H. rewrite app_nil_r, <- !app_assoc in H. exact H.
Qed.

Lemma do_good e req c : env_ok e → client_wf c → header_clean req c →
  good 3%nat (do_ e req) c (λ resp c' out, answered req resp out) do_err.
Proof.
  intros He Hc Hh. unfold do_. apply (good_bind 1 2 _ _ _ _ _ _ (roundTrip_do e req c He Hc Hh)).
  intros [req1 resp] c1 o1 H1 R1 (Em & Eu & _ & Hh1 & Hm). cbn [fst snd] in *.
  assert (Hset : good 2%nat (settle resp (ClassifyStatus (Some resp))) c1 (λ b c3 o3, answered req b (o1 ++ o3)) do_err).
  { eapply good_weaken; [by eapply (settled_good req)|lia|done|done]. }
  destruct (ClassifyStatus (Some resp)) as [[l|cs|code reason|]|] eqn:Ec; try exact Hset.
  eapply good_weaken; [by apply (authenticate_good e req1 cs)|lia| |done]. intros a c' o _ _ H.
  apply (answered_same req) in H; [|done|done]. apply (answered_app o1 _ []) in H. by rewrite app_nil_r in H.
Qed.
End rtspclient.
