(* ===== verification/Setup.v ===== *)
(** * Setting up tracks: [rtsp/setup.go] and [rtsp/udp.go]

    The choice of the transport, the interleaved channels or the UDP ports of a track, and the
    publication of the track to the reader. *)
From Stdlib Require Import Ascii String.
From S2P Require Import Prelude Bytes Text RtpPacket Rtcp Media Pipeline Transport Message Reader Negotiate HttpAuth Request.
From stdpp Require Import gmap.
Local Open Scope Z_scope.

Module rtspsetup.
Import audiostream pipeline message reader negotiate rtspclient.

(** The fields of a public [Track] that Setup reads. *)
Record Track := mkTrack_ { trk_ID : Z; trk_Control : list Z }.

Inductive TransportPreference := PreferTCP | PreferUDP | PreferUDPThenTCP.

(** ** Choices *)
Definition resolveTransport (pref : TransportPreference) (pin : list Z) : bool * bool :=
  if bool_decide (pin = transportPinTCP) then (false, false)
  else if bool_decide (pin = transportPinUDP) then (true, false)
  else match pref with
       | PreferUDP => (true, false)
       | PreferUDPThenTCP => (true, true)
       | PreferTCP => (false, false)
       end.

Definition describedTrackFor (trk : Track) (c : Client) : res err describedTrack :=
  match requireState methodSetup c with
  | Some x => Err x
  | None =>
      if (trk_ID trk <? 0) || (blen (described c) <=? trk_ID trk) then Err ErrUnknownTrack
      else match described c !! Z.to_nat (trk_ID trk) with
           | None => Panic
           | Some desc =>
               if negb (bool_decide (trk_Control trk = d_control desc)) then Err ErrUnknownTrack
               else if existsb (λ t, pipeline.id (su t) =? trk_ID trk) (tracks (sess (conn c))) then Err ErrTrackAlreadySetUp
               else mret desc
           end
  end.

(** The lowest even channel above every one that is claimed. *)
Definition past (base : Z) (p : ChannelPair) : Z :=
  let base := if base <=? cp_RTP p then cp_RTP p + 1 else base in
  if base <=? cp_RTCP p then cp_RTCP p + 1 else base.
Definition nextChannelPair (c : Client) : res err (Z * Z) :=
  let base := foldl past 0 (channelPairs (neg c)) in
  let base := if negb (base mod 2 =? 0) then base + 1 else base in
  if maxInterleavedChannel <? base + 1 then Err ErrNoChannelsLeft else mret (base, base + 1).

Definition claimedChannels (c : Client) : gset Z := list_to_set (concat ((λ p, [cp_RTP p; cp_RTCP p]) <$> channelPairs (neg c))).

(** ** Sockets *)
Definition maxSocketBindRetries : nat := 5.
Definition natPunchCount : nat := 2.

Fixpoint bind_loop (n i : nat) (bind : nat → option (Z * bool)) : option mediaSockets :=
  match n with
  | O => None
  | S n =>
      match bind i with
      | None => bind_loop n (S i) bind
      | Some (port, free) =>
          if maxUDPPort <=? port then bind_loop n (S i) bind
          else if (free : bool) then Some (mkSockets port (port + 1) None)
          else bind_loop n (S i) bind
      end
  end.
Definition openMediaSockets (bind : nat → option (Z * bool)) : res err mediaSockets :=
  match bind_loop maxSocketBindRetries 0 bind with Some m => mret m | None => Err ErrUDPSocket end.

Definition resolveServerPeers (m : mediaSockets) (th : TransportHeader) (controlPeerIP : option (list Z)) : res err mediaSockets :=
  match controlPeerIP, ServerPorts th with
  | Some ip, Some (rtpPort, rtcpPort) => mret (mkSockets (clientRTPPort m) (clientRTCPPort m) (Some (ip, rtpPort, rtcpPort)))
  | _, _ => Err (ErrUDPSetupRejected None)
  end.

Definition endpoint (m : mediaSockets) (trackID : Z) : UDPEndpoint :=
  match peers m with
  | Some (_, rtpPort, rtcpPort) => mkEndpoint trackID (clientRTPPort m) (clientRTCPPort m) rtpPort rtcpPort
  | None => mkEndpoint trackID (clientRTPPort m) (clientRTCPPort m) 0 0
  end.

Definition holePunch (m : mediaSockets) (rr : list Z) : list act :=
  concat (replicate natPunchCount [Datagram m false []; Datagram m true rr]).

(** ** The session *)
Definition with_session (id : list Z) (timeout : Z) (n : negotiated) : negotiated :=
  mkNegotiated id timeout (channelPairs n) (udpEndpoints n) (sessionTransport n) (udpPinned n) (media n).
Definition recordSession (sh : SessionHeader) (c : Client) : Client :=
  let n := neg c in
  if negb (bool_decide (sessionID n = [])) then c
  else if bool_decide (sh_ID sh = []) then c
  else set_neg (with_session (sh_ID sh) (sh_Timeout sh) n) c.

Definition teardownRejectedStream (e : env) (control : list Z) : op unit := send_bare e methodTeardown control.

(** ** Publication *)
Definition publish_channels (table : option channelTable) (s : session) : session :=
  mkSession table (tracks s) (lastFrameAt s) (pending s) (closing s) (playing s) (resync s) (ticks s) (sent s).
Definition add_track (t : track) (s : session) : session := set_tracks (tracks s ++ [t]) s.

Definition with_pair (p : ChannelPair) (n : negotiated) : negotiated :=
  mkNegotiated (sessionID n) (sessionTimeout n) (channelPairs n ++ [p]) (udpEndpoints n) transportPinTCP (udpPinned n) (media n).
Definition with_endpoint (u : UDPEndpoint) (n : negotiated) : negotiated :=
  mkNegotiated (sessionID n) (sessionTimeout n) (channelPairs n) (udpEndpoints n ++ [u]) transportPinUDP true (media n).
Definition with_media (trackID : Z) (m : mediaSockets) (n : negotiated) : negotiated :=
  mkNegotiated (sessionID n) (sessionTimeout n) (channelPairs n) (udpEndpoints n) (sessionTransport n) (udpPinned n) (<[trackID := m]> (media n)).

Definition publishTrack (tr : track) (rtpCh rtcpCh : Z) : op unit :=
  c ← get;
  match termErr c with
  | Some why => throw (Ended why)
  | None =>
      let s := sess (conn c) in
      let c := on_sess (publish_channels (Some (newChannelTable (channels s) (length (tracks s)) rtpCh rtcpCh))) c in
      let c := on_sess (add_track tr) c in
      let c := set_neg (with_pair (mkPair (pipeline.id (su tr)) rtpCh rtcpCh) (neg c)) c in
      upd (λ _, commitState methodSetup c)
  end.

(** [registerMediaSockets], once [mu] is released. *)
Definition registerMediaSockets (trackID : Z) (m : mediaSockets) : op unit :=
  c ← get;
  match termErr c with
  | Some _ => emit [SocketsClosed m]
  | None => upd (set_neg (with_media trackID m (neg c)))
  end.

Definition publishUDPTrack (e : env) (tr : track) (trackID : Z) (m : mediaSockets) : op unit :=
  c ← get;
  match termErr c with
  | Some why => _ ← emit [SocketsClosed m]; throw (Ended why)
  | None =>
      let c := on_sess (add_track tr) c in
      let c := set_neg (with_endpoint (endpoint m trackID) (neg c)) c in
      _ ← upd (λ _, commitState methodSetup c);
      _ ← turn_ e;
      registerMediaSockets trackID m
  end.

(** ** Setup *)
Definition setup_request (trk : Track) (transport : list Z) : Request :=
  mkRequest methodSetup (trk_Control trk) 0 (Set_ ∅ (str "Transport") transport) [].
Definition of_res {A} (m : res err A) : op A := λ c, (c, [], m).

Definition setupTCP (e : env) (trk : Track) (desc : describedTrack) (opts : SetupOptions) : op unit :=
  c ← get;
  '(rtpCh, rtcpCh) ← of_res (nextChannelPair c);
  resp ← do_ e (setup_request trk (BuildTransport rtpCh rtcpCh));
  _ ← upd (recordSession (ParseSession (Get (rs_Header resp) (str "Session"))));
  match ParseTransport (Get (rs_Header resp) (str "Transport")) with
  | Panic => of_res Panic
  | Err x => _ ← teardownRejectedStream e (trk_Control trk); throw (BadTransport x)
  | Ok th =>
      c ← get;
      match InterleavedChannels th (claimedChannels c) with
      | Panic => of_res Panic
      | Err x => _ ← teardownRejectedStream e (trk_Control trk); throw (BadTransport x)
      | Ok (gotRTP, gotRTCP) =>
          tr ← lift_total (newTrack (trk_ID trk) desc opts gotRTCP);
          _ ← turn_ e;
          publishTrack tr gotRTP gotRTCP
      end
  end.

Definition tick (e : env) : op rtcp.Time :=
  c ← get;
  _ ← upd (on_sess (λ s, mkSession (channels s) (tracks s) (lastFrameAt s) (pending s) (closing s) (playing s) (resync s) (S (ticks s)) (sent s)));
  mret (clock (wld e) (ticks (sess (conn c)))).

(** The sockets are released, and the stream too when the server holds one. *)
Definition reject_udp (e : env) (trk : Track) (m : mediaSockets) (x : err) : op unit :=
  _ ← emit [SocketsClosed m];
  _ ← teardownRejectedStream e (trk_Control trk);
  throw x.

Definition setupUDP (e : env) (trk : Track) (desc : describedTrack) (opts : SetupOptions) (allowFallback : bool) : op unit :=
  c ← get;
  m ← of_res (openMediaSockets (binds e (turns c)));
  r ← try_ (do_ e (setup_request trk (BuildTransportUDP (clientRTPPort m) (clientRTCPPort m))));
  match r with
  | Panic => of_res Panic
  | Err x =>
      _ ← emit [SocketsClosed m];
      match x with
      | Response_ code _ => if allowFallback then setupTCP e trk desc opts else throw (ErrUDPSetupRejected (Some code))
      | _ => throw x
      end
  | Ok resp =>
      _ ← upd (recordSession (ParseSession (Get (rs_Header resp) (str "Session"))));
      match ParseTransport (Get (rs_Header resp) (str "Transport")) with
      | Panic => of_res Panic
      | Err x => reject_udp e trk m (BadTransport x)
      | Ok th =>
          match resolveServerPeers m th (peerIP e) with
          | Panic => of_res Panic
          | Err x => reject_udp e trk m x
          | Ok m =>
              tr ← lift_total (newTrack (trk_ID trk) desc opts 0);
              _ ← turn_ e;
              _ ← publishUDPTrack e tr (trk_ID trk) m;
              now ← tick e;
              emit (holePunch m (rtcp.Marshal_RR (buildReceiverReport (reporterSSRC e) now tr)))
          end
      end
  end.

Definition Setup (e : env) (pref : TransportPreference) (trk : Track) (opts : SetupOptions) : op unit :=
  c ← get;
  desc ← of_res (describedTrackFor trk c);
  let '(attemptUDP, allowFallback) := resolveTransport pref (sessionTransport (neg c)) in
  if (attemptUDP : bool) then setupUDP e trk desc opts allowFallback else setupTCP e trk desc opts.

(** Any calls of Setup one after the other, whatever each returns. *)
Fixpoint setups (e : env) (pref : TransportPreference) (calls : list (Track * SetupOptions)) : op (list (res err unit)) :=
  match calls with
  | [] => mret []
  | (trk, opts) :: calls =>
      r ← try_ (Setup e pref trk opts);
      rs ← setups e pref calls;
      mret (r :: rs)
  end.

(** ** Well-formed clients *)
Definition made (c : Client) : list pipeline.setup := su <$> tracks (sess (conn c)).
Definition ids (c : Client) : list Z := pipeline.id <$> made c.

Definition both (p : ChannelPair) : list Z := [cp_RTP p; cp_RTCP p].
Definition bound (ps : list ChannelPair) : list Z := concat (both <$> ps).

(** Consecutive channels in one octet, and no channel twice. *)
Record pairs_ok (ps : list ChannelPair) : Prop := {
  pa_each : Forall (λ p, cp_RTCP p = cp_RTP p + 1 ∧ 0 ≤ cp_RTP p ≤ 254) ps;
  pa_apart : NoDup (bound ps)
}.

(** The table binds the channels of the pairs, the i-th to the i-th track, and no other. *)
Definition table_ok (t : option channelTable) (ps : list ChannelPair) : Prop :=
  ∀ ch b, lookup_channel t ch = Some b ↔ ∃ p, ps !! b_track b = Some p ∧ ch = (if b_isRTCP b then cp_RTCP p else cp_RTP p).

(** One transport for the session: none yet, every track interleaved, or every one on UDP. *)
Inductive pinned (c : Client) : Prop :=
  | pinned_none : sessionTransport (neg c) = [] → udpPinned (neg c) = false → lc c = stateDescribed → made c = [] → channelPairs (neg c) = [] →
      udpEndpoints (neg c) = [] → media (neg c) = ∅ → pinned c
  | pinned_tcp : sessionTransport (neg c) = transportPinTCP → udpPinned (neg c) = false → lc c = stateSetup →
      (λ p, (cp_TrackID p, cp_RTCP p)) <$> channelPairs (neg c) = (λ s, (pipeline.id s, rtcpChannel s)) <$> made c →
      udpEndpoints (neg c) = [] → media (neg c) = ∅ → pinned c
  | pinned_udp : sessionTransport (neg c) = transportPinUDP → udpPinned (neg c) = true → lc c = stateSetup → channelPairs (neg c) = [] →
      ue_TrackID <$> udpEndpoints (neg c) = ids c →
      (∀ i m, media (neg c) !! i = Some m → endpoint m i ∈ udpEndpoints (neg c) ∧ is_Some (peers m)) →
      (termErr c = None → ∀ i, i ∈ ids c → is_Some (media (neg c) !! i)) → pinned c.

Record setup_ok (c : Client) : Prop := {
  so_wf : client_wf c;
  so_desc : Forall described_ok (described c);
  so_ids : NoDup (ids c);
  so_made : Forall (λ s, 0 ≤ pipeline.id s ∧ ∃ d, described c !! Z.to_nat (pipeline.id s) = Some d ∧ control s = d_control d) (made c);
  so_pairs : pairs_ok (channelPairs (neg c));
  so_table : table_ok (channels (sess (conn c))) (channelPairs (neg c));
  so_pin : pinned c
}.

(** What no step of the session undoes. *)
Record setting (n : nat) (c : Client) (out : list act) (c' : Client) : Prop := {
  sg_described : described c' = described c;
  sg_made : ∃ l, made c' = made c ++ l;
  sg_pairs : ∃ l, channelPairs (neg c') = channelPairs (neg c) ++ l;
  sg_pin : sessionTransport (neg c) ≠ [] → sessionTransport (neg c') = sessionTransport (neg c);
  sg_session : sessionID (neg c) ≠ [] → sessionID (neg c') = sessionID (neg c) ∧ sessionTimeout (neg c') = sessionTimeout (neg c);
  sg_cause : termErr c ≠ None → termErr c' = termErr c;
  sg_active : active (auth c) = true → active (auth c') = true;
  sg_count : (requests out ≤ n)%nat;
  sg_audit : audits c out c'
}.

#[export] Instance setting_tracked : Tracked setting.
Proof.
  split.
  - intros c. split; try done; [by exists []; rewrite app_nil_r..|]. by intros l Hl f.
  - intros n m c o c1 o1 c2 [A1 [l A2] [k A3] A4 A5 A6 A7 A8 A9] [B1 [l' B2] [k' B3] B4 B5 B6 B7 B8 B9].
    split; try congruence; auto.
    + exists (l ++ l'). by rewrite B2, A2, app_assoc.
    + exists (k ++ k'). by rewrite B3, A3, app_assoc.
    + intros H. rewrite B4; [by apply A4|by rewrite A4].
    + intros H. destruct (A5 H) as [E1 E2]. destruct B5; [by rewrite E1|]. by split; congruence.
    + intros H. rewrite B6; [by apply A6|by rewrite A6].
    + rewrite requests_app. lia.
    + intros q Hq f. rewrite <- app_assoc. apply A9. intros f'. by apply B9.
  - intros n m c o c1 Hn []. split; try done. lia.
Qed.

Lemma requested_setting n c o c' : requested n c o c' → setting n c o c'.
Proof.
  intros [A1 A2 A3 A4 A5 A6 A7 A8 A9 A10 A11]. split; try done; rewrite ?A1; auto; exists []; rewrite app_nil_r; [exact A5|done].
Qed.

Lemma pinned_requested n c o c' : requested n c o c' → pinned c → pinned c'.
Proof.
  intros [A1 A2 A3 A4 A5 A6 A7 A8 A9 A10 A11] [H1 H2 H3 H4 H5 H6 H7|H1 H2 H3 H4 H5 H6|H1 H2 H3 H4 H5 H6 H7].
  - apply pinned_none; rewrite ?A1, ?A2; try done. unfold made in *. by rewrite A5.
  - apply pinned_tcp; rewrite ?A1, ?A2; try done. unfold made in *. by rewrite A5.
  - apply pinned_udp; rewrite ?A1, ?A2; try done; unfold ids, made in *; rewrite ?A5; try done. intros Ht. apply H7.
    destruct (termErr c) eqn:E; [|done]. by rewrite A7 in Ht.
Qed.

Lemma setup_ok_requested n c o c' : requested n c o c' → client_wf c' → setup_ok c → setup_ok c'.
Proof.
  intros R Hw [H1 H2 H3 H4 H5 H6 H7]. pose proof R as [A1 A2 A3 A4 A5 A6 A7 A8 A9 A10 A11].
  split; rewrite ?A1, ?A3, ?A6; try done; unfold ids, made in *; rewrite ?A5; try done. by eapply pinned_requested.
Qed.

Abbreviation fine := (sound setup_ok setting).
Definition fine_bind {A B} := @sound_bind setup_ok setting _ A B.
Definition fine_ret {A} := @sound_ret setup_ok setting _ A.
Definition fine_throw {A} := @sound_throw setup_ok setting _ A.
Definition fine_get := @sound_get setup_ok setting _.
Definition fine_weaken {A} := @sound_weaken setup_ok setting _ A.

(** A computation of requests is one of the setup. *)
Lemma fine_good {A} n (m : op A) c (Q : A → Client → list act → Prop) (E : err → Client → list act → Prop) : setup_ok c → good n m c Q E →
  fine n m c (λ a c' o, requested n c o c' ∧ Q a c' o) (λ x c' o, requested n c o c' ∧ E x c' o).
Proof.
  intros Hc Hm. eapply runs_weaken; [exact Hm|..].
  - intros a c' o (H1 & H2 & H3). split; [by eapply setup_ok_requested|]. split; [by apply requested_setting|done].
  - intros a c' o (H1 & H2 & H3). split; [by eapply setup_ok_requested|]. split; [by apply requested_setting|done].
Qed.

(** ** Channels *)
Lemma elem_of_bound ch ps : ch ∈ bound ps ↔ ∃ p, p ∈ ps ∧ (ch = cp_RTP p ∨ ch = cp_RTCP p).
Proof.
  induction ps as [|p ps IH]; [split; [by intros ?%elem_of_nil|by intros (p & ?%elem_of_nil & _)]|].
  unfold bound in *. cbn [fmap list_fmap concat both app]. rewrite !elem_of_cons, IH. split.
  - intros [->|[->|(q & Hq & H)]]; [exists p; split; [by left|by left]|exists p; split; [by left|by right]|exists q; split; [by right|done]].
  - intros (q & [->|Hq]%elem_of_cons & H); [by destruct H; auto|]. right. right. by exists q.
Qed.
Lemma elem_of_claimed ch c : ch ∈ claimedChannels c ↔ ch ∈ bound (channelPairs (neg c)).
Proof. unfold claimedChannels. by rewrite elem_of_list_to_set. Qed.

Lemma past_spec base p : base ≤ past base p ∧ cp_RTP p < past base p ∧ cp_RTCP p < past base p ∧
  (past base p = base ∨ past base p = cp_RTP p + 1 ∨ past base p = cp_RTCP p + 1).
Proof. unfold past. repeat case_match; lia. Qed.

Lemma past_all base ps : base ≤ foldl past base ps ∧ Forall (λ ch, ch < foldl past base ps) (bound ps) ∧
  (foldl past base ps = base ∨ foldl past base ps - 1 ∈ bound ps).
Proof.
  revert base. induction ps as [|p ps IH]; intros base; cbn [foldl]; [split; [lia|]; split; [constructor|by left]|].
  destruct (IH (past base p)) as (H1 & H2 & H3). destruct (past_spec base p) as (P1 & P2 & P3 & P4). split; [lia|]. split.
  - unfold bound. cbn [fmap list_fmap concat both app]. apply Forall_cons_2; [lia|]. by apply Forall_cons_2; [lia|].
  - destruct H3 as [->|H3]; [|right; apply elem_of_bound in H3 as (q & Hq & E); apply elem_of_bound; exists q; split; [by right|done]].
    destruct P4 as [P4|[P4|P4]]; [by left|right..]; apply elem_of_bound; exists p; (split; [by left|lia]).
Qed.

(** The pair proposed is free: it starts at an even channel above all that are claimed. *)
Lemma nextChannelPair_ok c : pairs_ok (channelPairs (neg c)) →
  match nextChannelPair c with
  | Ok (r, r') => r' = r + 1 ∧ 0 ≤ r ≤ 254 ∧ r mod 2 = 0 ∧ Forall (λ ch, ch < r) (bound (channelPairs (neg c)))
  | Err x => x = ErrNoChannelsLeft ∧ ∃ ch, ch ∈ bound (channelPairs (neg c)) ∧ 254 ≤ ch
  | Panic => False
  end.
Proof.
  intros _. unfold nextChannelPair. cbv zeta. destruct (past_all 0 (channelPairs (neg c))) as (H1 & H2 & H3).
  set (b := foldl past 0 _) in *. set (base := if negb (b mod 2 =? 0) then b + 1 else b).
  assert (Hb : b ≤ base ≤ b + 1 ∧ base mod 2 = 0).
  { unfold base. destruct (Z.eqb_spec (b mod 2) 0); cbn; [lia|]. split; [lia|]. Z.div_mod_to_equations. lia. }
  clearbody base b. unfold maxInterleavedChannel. destruct (Z.ltb_spec 255 (base + 1)).
  - split; [done|]. destruct H3 as [H3|H3]; [lia|]. exists (b - 1). split; [done|]. Z.div_mod_to_equations. lia.
  - split; [done|]. split; [lia|]. split; [apply Hb|]. eapply Forall_impl; [exact H2|]. cbn. lia.
Qed.

Lemma bound_app ps p : bound (ps ++ [p]) = bound ps ++ both p.
Proof. unfold bound. by rewrite fmap_app, concat_app. Qed.

Lemma pairs_ok_snoc ps p : pairs_ok ps → cp_RTCP p = cp_RTP p + 1 → 0 ≤ cp_RTP p ≤ 254 → (cp_RTP p ∉ bound ps) → (cp_RTCP p ∉ bound ps) → pairs_ok (ps ++ [p]).
Proof.
  intros [H1 H2] E Hr N1 N2. split; [by apply Forall_app_2; [|apply Forall_singleton]|]. rewrite bound_app. apply NoDup_app. split; [done|]. split.
  - intros x Hx Hb. unfold both in Hb. rewrite !elem_of_cons, elem_of_nil in Hb. destruct Hb as [->|[->|[]]]; done.
  - unfold both. apply NoDup_cons_2; [rewrite list_elem_of_singleton; lia|apply NoDup_singleton].
Qed.

Lemma newChannelTable_ok t ps p : table_ok t ps → cp_RTCP p = cp_RTP p + 1 → (cp_RTP p ∉ bound ps) → (cp_RTCP p ∉ bound ps) →
  table_ok (Some (newChannelTable t (length ps) (cp_RTP p) (cp_RTCP p))) (ps ++ [p]).
Proof.
  intros Ht E N1 N2 ch b. unfold newChannelTable. cbn [lookup_channel]. set (old := match t with None => ∅ | Some b => b end).
  assert (Hold : ∀ ch, old !! ch = lookup_channel t ch) by (intros ch'; unfold old; by destruct t).
  assert (Hout : ∀ i q, ps !! i = Some q → ∀ r : bool, (if r then cp_RTCP q else cp_RTP q) ∈ bound ps).
  { intros i q Hq r. apply elem_of_bound. exists q. split; [by eapply list_elem_of_lookup_2|]. destruct r; auto. }
  assert (Hlt : ∀ i q, ps !! i = Some q → (ps ++ [p]) !! i = Some q) by (intros i q Hq; by apply lookup_app_l_Some).
  assert (Hnew : (ps ++ [p]) !! length ps = Some p) by (rewrite lookup_app_r, Nat.sub_diag by done; done).
  assert (Hinv : ∀ i q, (ps ++ [p]) !! i = Some q → ps !! i = Some q ∨ (i = length ps ∧ q = p)).
  { intros i q [Hq|[Hi Hq]]%lookup_app_Some; [by left|]. right. apply list_lookup_singleton_Some in Hq as [Hi2 ->]. split; [lia|done]. }
  destruct (decide (ch = cp_RTCP p)) as [->|H1]; [|destruct (decide (ch = cp_RTP p)) as [->|H2]].
  - rewrite lookup_insert_eq. split.
    + intros [= <-]. by exists p.
    + intros (q & [Hq|[Hi ->]]%Hinv & Hch); [exfalso; apply N2; rewrite Hch; by eapply Hout|]. destruct b as [i []]; cbn in *; [by subst|lia].
  - rewrite lookup_insert_ne, lookup_insert_eq by lia. split.
    + intros [= <-]. by exists p.
    + intros (q & [Hq|[Hi ->]]%Hinv & Hch); [exfalso; apply N1; rewrite Hch; by eapply Hout|]. destruct b as [i []]; cbn in *; [lia|by subst].
  - rewrite !lookup_insert_ne, Hold, (Ht ch b) by done. split; intros (q & Hq & Hch); exists q; [split; [by apply Hlt|done]|].
    apply Hinv in Hq as [Hq|[_ ->]]; [done|]. destruct (b_isRTCP b); done.
Qed.

(** ** Publication *)
Lemma commit_setup c : commitState methodSetup c = set_lc stateSetup c.
Proof. done. Qed.

(** A track that Setup built for a descriptor, and that is not set up yet. *)
Record fresh_track (c : Client) (tr : track) (i : Z) (desc : describedTrack) : Prop := {
  ft_ok : track_ok tr;
  ft_id : pipeline.id (su tr) = i;
  ft_pos : 0 ≤ i;
  ft_desc : described c !! Z.to_nat i = Some desc;
  ft_control : control (su tr) = d_control desc;
  ft_new : i ∉ ids c
}.

Lemma newTrack_made i desc opts ch : described_ok desc → ∃ t, newTrack i desc opts ch = Ok t ∧ track_ok t ∧ pipeline.id (su t) = i ∧
  rtcpChannel (su t) = ch ∧ control (su t) = d_control desc.
Proof.
  intros Hd. destruct (newTrack_ok i desc opts ch Hd) as (t & E & Ht & Hi & _). exists t. split; [done|]. split; [done|]. split; [done|].
  unfold newTrack in E. destruct (choose desc opts) as [x|x|]; [|done..]. apply Ok_inv in E as <-. done.
Qed.

Lemma made_snoc c tr i desc : setup_ok c → fresh_track c tr i desc →
  NoDup (pipeline.id <$> made c ++ [su tr]) ∧
  Forall (λ s, 0 ≤ pipeline.id s ∧ ∃ d, described c !! Z.to_nat (pipeline.id s) = Some d ∧ control s = d_control d) (made c ++ [su tr]).
Proof.
  intros [H1 H2 H3 H4 H5 H6 H7] [F1 F2 F3 F4 F5 F6]. split.
  - rewrite fmap_app. cbn. rewrite F2. apply NoDup_app. split; [exact H3|]. split; [|apply NoDup_singleton]. intros x Hx ->%list_elem_of_singleton. by apply F6.
  - apply Forall_app_2; [exact H4|]. apply Forall_singleton. rewrite F2. split; [done|]. by exists desc.
Qed.

Lemma session_ok_snoc t s tr : session_ok s → track_ok tr → (∀ ch b, t !! ch = Some b → (b_track b < S (length (tracks s)))%nat) →
  session_ok (add_track tr (publish_channels (Some t) s)).
Proof.
  intros [A B C] Ht Hb. split; [by apply Forall_app_2; [|apply Forall_singleton]| |exact C].
  intros t' ch b [= <-] Hin. cbn. rewrite length_app. cbn. rewrite Nat.add_1_r. by eapply Hb.
Qed.

Lemma publish_wf f c n : client_wf c → session_ok (f (sess (conn c))) → closing (f (sess (conn c))) = closing (sess (conn c)) →
  client_wf (set_lc stateSetup (set_neg n (on_sess f c))).
Proof. intros [[A1 A2 A3] B C] Hs Hc. split; [by split|exact B|]. intros Hd. unfold termErr. cbn. rewrite Hc. by apply C. Qed.

Lemma length_made c : length (made c) = length (tracks (sess (conn c))).
Proof. unfold made. by rewrite length_fmap. Qed.

(** A track is published once the session has no terminal cause, with channels that are free. *)
Lemma publishTrack_fine tr i desc r r' c : setup_ok c → fresh_track c tr i desc → sessionTransport (neg c) ≠ transportPinUDP → rtcpChannel (su tr) = r' →
  r' = r + 1 → 0 ≤ r ≤ 254 → (r ∉ bound (channelPairs (neg c))) → (r' ∉ bound (channelPairs (neg c))) →
  fine 0 (publishTrack tr r r') c (λ _ c' _, made c' = made c ++ [su tr] ∧ channelPairs (neg c') = channelPairs (neg c) ++ [mkPair i r r'])
    (λ x c' _, c' = c ∧ ∃ why, x = Ended why).
Proof.
  intros Hc Hf Hpin Hr' Er Hr N1 N2. unfold publishTrack. apply (fine_bind 0 0 _ _ _ (λ a c1 _, a = c ∧ c1 = c)); [by apply fine_get|].
  intros ? ? o _ _ (-> & ->). destruct (termErr c) as [why|] eqn:Et; [apply fine_throw; [done|]; split; [done|by exists why]|]. cbv zeta.
  destruct (made_snoc c tr i desc Hc Hf) as [Hids Hmade]. pose proof Hc as [H1 H2 H3 H4 H5 H6 H7]. pose proof Hf as [F1 F2 F3 F4 F5 F6].
  set (p := mkPair i r r'). set (ps := channelPairs (neg c)) in *.
  assert (Hlen : length (tracks (sess (conn c))) = length ps).
  { rewrite <- length_made. destruct H7 as [P1 P2 P3 P4 P5 P6 P7|P1 P2 P3 P4 P5 P6|P1 P2 P3 P4 P5 P6 P7]; [|apply (f_equal length) in P4; by rewrite !length_fmap in P4|done].
    unfold ps. by rewrite P4, P5. }
  pose proof (newChannelTable_ok _ ps p H6 Er N1 N2) as Ht. rewrite <- Hlen in Ht. cbn [cp_RTP cp_RTCP p] in Ht.
  set (t := newChannelTable _ _ _ _) in *. rewrite commit_setup.
  assert (Hs : session_ok (add_track tr (publish_channels (Some t) (sess (conn c))))).
  { apply session_ok_snoc; [apply H1|done|]. intros ch b Hb. apply (Ht ch b) in Hb as (q & Hq & _). rewrite Hlen. apply lookup_lt_Some in Hq. rewrite length_app in Hq. cbn in Hq. lia. }
  set (c' := set_lc _ _). assert (Em : made c' = made c ++ [su tr]) by (unfold made, c'; cbn; by rewrite fmap_app).
  assert (Hpair : channelPairs (neg c') = ps ++ [p]) by (unfold c', ps; cbn; by rewrite F2).
  assert (Hw : client_wf c') by exact (publish_wf (λ s, add_track tr (publish_channels (Some t) s)) c _ H1 Hs eq_refl).
  apply sound_upd; [|split; try done|done].
  - split; try done; unfold ids; rewrite ?Em, ?Hpair; try done; [by apply pairs_ok_snoc|].
    destruct H7 as [P1 P2 P3 P4 P5 P6 P7|P1 P2 P3 P4 P5 P6|P1 P2 P3 P4 P5 P6 P7]; [..|by destruct Hpin].
    + apply pinned_tcp; try done; rewrite Em, Hpair. unfold ps. rewrite P4, P5. cbn. by rewrite F2, Hr'.
    + apply pinned_tcp; try done; rewrite Em, Hpair, !fmap_app. unfold ps. rewrite P4. cbn. by rewrite F2, Hr'.
  - by exists [su tr].
  - by exists [p].
  - intros Hne. cbn. destruct H7 as [P1 P2 P3 P4 P5 P6 P7|P1 P2 P3 P4 P5 P6|P1 P2 P3 P4 P5 P6 P7]; by rewrite ?P1 in *.
  - intros l Hl fr. apply Hl.
Qed.

Lemma endpoint_id m i : ue_TrackID (endpoint m i) = i.
Proof. unfold endpoint. by destruct (peers m) as [[[ip a] b]|]. Qed.

Lemma socket_quiet m : (∀ cur f k, audited cur f ([SocketsClosed m] ++ k) ↔ audited cur f k) ∧ requests [SocketsClosed m] = 0%nat.
Proof. done. Qed.

(** The client between the publication of a UDP track and the registration of its sockets. *)
Lemma udp_published c tr i desc m : setup_ok c → fresh_track c tr i desc → sessionTransport (neg c) ≠ transportPinTCP → termErr c = None →
  let c1 := set_lc stateSetup (set_neg (with_endpoint (endpoint m i) (neg (on_sess (add_track tr) c))) (on_sess (add_track tr) c)) in
  client_wf c1 ∧ setting 0 c [] c1 ∧ made c1 = made c ++ [su tr] ∧
  ∀ c2 n o, client_wf c2 → requested n c1 o c2 → is_Some (peers m) →
    (termErr c2 ≠ None → setup_ok c2) ∧ setup_ok (set_neg (with_media i m (neg c2)) c2).
Proof.
  intros Hc Hf Hpin Ht c1. destruct (made_snoc c tr i desc Hc Hf) as [Hids Hmade]. pose proof Hc as [H1 H2 H3 H4 H5 H6 H7]. pose proof Hf as [F1 F2 F3 F4 F5 F6].
  assert (Em : made c1 = made c ++ [su tr]) by (unfold made, c1; cbn; by rewrite fmap_app).
  assert (Hs : session_ok (add_track tr (sess (conn c)))).
  { destruct (wf_conn _ H1) as [[A B C] _ _]. split; [by apply Forall_app_2; [|apply Forall_singleton]| |exact C].
    intros t ch b E Hb. cbn. rewrite length_app. specialize (B t ch b E Hb). lia. }
  assert (Hw : client_wf c1) by exact (publish_wf (add_track tr) c _ H1 Hs eq_refl).
  assert (Hpairs : channelPairs (neg c) = [] ∧ ue_TrackID <$> udpEndpoints (neg c) = ids c ∧
    (∀ j n, media (neg c) !! j = Some n → endpoint n j ∈ udpEndpoints (neg c) ∧ is_Some (peers n)) ∧
    (∀ j, j ∈ ids c → is_Some (media (neg c) !! j)) ∧ (sessionTransport (neg c) ≠ [] → sessionTransport (neg c) = transportPinUDP)).
  { destruct H7 as [P1 P2 P3 P4 P5 P6 P7|P1 P2 P3 P4 P5 P6|P1 P2 P3 P4 P5 P6 P7]; [|done|].
    - unfold ids. rewrite P4, P6, P7. split; [done|]. split; [done|]. split; [intros j n; by rewrite lookup_empty|]. split; [by intros j ?%elem_of_nil|congruence].
    - split; [done|]. split; [done|]. split; [done|]. split; [by apply P7|done]. }
  destruct Hpairs as (Q1 & Q2 & Q3 & Q4 & Q5). split; [exact Hw|]. split.
  { split; try done; [by exists [su tr]|by exists []; rewrite app_nil_r|intros Hne; by rewrite Q5|intros l Hl fr; apply Hl]. }
  split; [exact Em|]. intros c2 n o Hw2 R Hpeer. pose proof R as [A1 A2 A3 A4 A5 A6 A7 A8 A9 A10 A11].
  assert (Em2 : made c2 = made c ++ [su tr]) by (unfold made in *; by rewrite A5).
  assert (Eids : ids c2 = ids c ++ [i]) by (unfold ids; by rewrite Em2, fmap_app, <- F2).
  assert (Eu : ue_TrackID <$> udpEndpoints (neg c2) = ids c2) by (rewrite A1, Eids; change (udpEndpoints (neg c1)) with (udpEndpoints (neg c) ++ [endpoint m i]);
    rewrite fmap_app, Q2; cbn [fmap list_fmap]; by rewrite endpoint_id).
  assert (Hin : ∀ j n, media (neg c2) !! j = Some n → endpoint n j ∈ udpEndpoints (neg c2) ∧ is_Some (peers n)).
  { rewrite A1. cbn. intros j n' Hj. destruct (Q3 j n' Hj) as [B1 B2]. split; [|done]. apply elem_of_app. by left. }
  assert (Hrest : ∀ c3, client_wf c3 → described c3 = described c2 → sess (conn c3) = sess (conn c2) → channelPairs (neg c3) = channelPairs (neg c2) → pinned c3 → setup_ok c3).
  { intros c3 W3 E1 E2 E3 Hp. assert (Em3 : made c3 = made c ++ [su tr]) by (unfold made; by rewrite E2).
    split; try done; unfold ids; rewrite ?E1, ?E2, ?E3, ?Em3, ?A3, ?A6, ?A1; done. }
  split.
  - intros Hn. apply Hrest; try done. apply pinned_udp; [by rewrite A1|by rewrite A1|by rewrite A2|by rewrite A1|exact Eu|exact Hin|done].
  - apply Hrest; try done; [by destruct Hw2|].
    apply pinned_udp; [cbn; by rewrite A1|cbn; by rewrite A1|exact A2|cbn; by rewrite A1|exact Eu|..]; cbn; rewrite A1.
    + intros j n' [[<- <-]|[Hne Hj]]%lookup_insert_Some; [|specialize (Hin j n'); rewrite A1 in Hin; by apply Hin].
      split; [|done]. cbn. apply elem_of_app. right. by left.
    + intros _ j Hj. change (j ∈ ids c2) in Hj. rewrite Eids, elem_of_app, list_elem_of_singleton in Hj. destruct (decide (j = i)) as [->|Hne]; [by rewrite lookup_insert_eq|].
      rewrite lookup_insert_ne by done. destruct Hj as [Hj|]; [by apply Q4|done].
Qed.

Lemma emit_fine l c (Q : unit → Client → list act → Prop) E : (∀ cur f k, audited cur f (l ++ k) ↔ audited cur f k) → requests l = 0%nat →
  setup_ok c → Q tt c l → fine 0 (emit l) c Q E.
Proof.
  intros Hl Hr Hc HQ. apply sound_emit; [done| |done]. split; try done; [by exists []; rewrite app_nil_r..|by rewrite Hr|]. intros k Hk f. by apply Hl.
Qed.

Lemma publishUDPTrack_fine e tr i desc m c : env_ok e → setup_ok c → fresh_track c tr i desc → sessionTransport (neg c) ≠ transportPinTCP → is_Some (peers m) →
  fine 0 (publishUDPTrack e tr i m) c (λ _ c' _, made c' = made c ++ [su tr]) (λ x c' _, c' = c ∧ ∃ why, x = Ended why).
Proof.
  intros He Hc Hf Hpin Hm. unfold publishUDPTrack. apply (fine_bind 0 0 _ _ _ (λ a c1 _, a = c ∧ c1 = c)); [by apply fine_get|].
  intros ? ? o _ _ (-> & ->). destruct (termErr c) as [why|] eqn:Et.
  { apply (fine_bind 0 0 _ _ _ (λ _ c1 _, c1 = c)); [by apply emit_fine|]. intros [] ? o' _ _ ->. apply fine_throw; [done|]. split; [done|by exists why]. }
  cbv zeta. destruct (udp_published c tr i desc m Hc Hf Hpin Et) as (W1 & S1 & M1 & Hend). rewrite commit_setup. set (c1 := set_lc _ _) in *.
  apply runs_bind, runs_upd, runs_bind. eapply runs_weaken; [exact (turn_good e c1 (λ _ _ _, False) He W1)| |by intros ? ? ? (_ & _ & [])].
  intros out c2 o2 (W2 & R2 & _). destruct (Hend c2 _ _ W2 R2 Hm) as [Hclosed Hopen].
  assert (M2 : made c2 = made c ++ [su tr]) by (rewrite <- M1; apply (rq_su _ _ _ _ R2)). apply requested_setting in R2.
  pose proof (tracked_trans _ _ _ _ _ _ _ S1 R2) as S2. unfold registerMediaSockets. apply runs_bind, runs_get. destruct (termErr c2) eqn:Et2.
  - apply runs_emit. split; [by apply Hclosed|]. split; [|done].
    assert (S3 : setting 0 c2 [SocketsClosed m] c2) by (split; try done; [by exists []; rewrite app_nil_r..|intros l Hl f; exact (Hl f)]).
    exact (tracked_trans _ _ _ _ _ _ _ S2 S3).
  - apply runs_upd. split; [done|]. split; [|exact M2].
    assert (S3 : setting 0 c2 [] (set_neg (with_media i m (neg c2)) c2)) by (split; try done; [by exists []; rewrite app_nil_r..|by intros l Hl f]).
    exact (tracked_trans _ _ _ _ _ _ _ S2 S3).
Qed.

(** ** The steps of Setup *)
Lemma recordSession_fine sh c (Q : unit → Client → list act → Prop) E : setup_ok c →
  (∀ c', made c' = made c → described c' = described c → neg c' = with_session (sessionID (neg c')) (sessionTimeout (neg c')) (neg c) → Q tt c' []) →
  fine 0 (upd (recordSession sh)) c Q E.
Proof.
  intros Hc HQ. assert (H0 : neg c = with_session (sessionID (neg c)) (sessionTimeout (neg c)) (neg c)) by by destruct (neg c).
  unfold recordSession. apply sound_upd.
  - cbv zeta. destruct (negb _); [done|]. destruct (bool_decide _); [done|]. destruct Hc as [H1 H2 H3 H4 H5 H6 H7]. split; try done; [by destruct H1|].
    destruct H7; [by apply pinned_none|by apply pinned_tcp|by apply pinned_udp].
  - cbv zeta. destruct (negb _) eqn:En; [apply tracked_refl|]. destruct (bool_decide (sh_ID sh = [])); [apply tracked_refl|].
    apply negb_false_iff, bool_decide_eq_true in En. split; try done; [by exists []; rewrite app_nil_r..|by intros l Hl f].
  - cbv zeta. destruct (negb _); [by apply HQ|]. destruct (bool_decide _); by apply HQ.
Qed.

Lemma describedTrackFor_ok trk c : setup_ok c →
  match describedTrackFor trk c with
  | Ok desc => described c !! Z.to_nat (trk_ID trk) = Some desc ∧ 0 ≤ trk_ID trk ∧ trk_Control trk = d_control desc ∧ (trk_ID trk ∉ ids c) ∧ described_ok desc
  | Err x => x = StateError methodSetup (state_ c) ∨ x = ErrUnknownTrack ∨ (x = ErrTrackAlreadySetUp ∧ trk_ID trk ∈ ids c)
  | Panic => False
  end.
Proof.
  intros Hc. unfold describedTrackFor, requireState. destruct (legalIn _ _); [|by left]. destruct (_ || _) eqn:Er; [by auto|]. breflect.
  destruct (lookup_lt_is_Some_2 (described c) (Z.to_nat (trk_ID trk))) as [desc Ed]; [unfold blen in *; lia|]. rewrite Ed.
  destruct (bool_decide (trk_Control trk = d_control desc)) eqn:Ec; cbn [negb]; [|by auto]. apply bool_decide_eq_true in Ec.
  assert (Hex : existsb (λ t, pipeline.id (su t) =? trk_ID trk) (tracks (sess (conn c))) = true ↔ trk_ID trk ∈ ids c).
  { unfold ids, made. rewrite existsb_exists. split.
    - intros (t & Ht & E%Z.eqb_eq). rewrite <- E. do 2 apply list_elem_of_fmap_2. by apply list_elem_of_In.
    - intros (s & -> & (t & -> & Ht)%list_elem_of_fmap)%list_elem_of_fmap. exists t. split; [by apply list_elem_of_In|by apply Z.eqb_refl]. }
  destruct (existsb _ _); [right; right; split; [done|by apply Hex]|]. split; [done|]. split; [done|]. split; [done|].
  split; [by intros ?%Hex|]. eapply Forall_lookup_1; [exact (so_desc _ Hc)|exact Ed].
Qed.

(** ** What Setup leaves *)

(** A TEARDOWN of the stream was written to the connection. *)
Definition torn (trk : Track) (out : list act) : Prop := ∃ req used raw, rq_Method req = methodTeardown ∧ rq_URL req = trk_Control trk ∧
  MarshalRequest (Some req) = Ok raw ∧ Sent req used raw ∈ out.
(** The server accepted the stream on terms the client cannot use: a Transport that does not parse or bind, or one without
    usable server ports. *)
Definition unusable (x : err) : Prop := (∃ t, x = BadTransport t) ∨ x = ErrUDPSetupRejected None.
(** No header every request carries has a line end in it: else no request can be written. *)
Definition addressable (e : env) (c : Client) : Prop := hasCRLF (userAgent e) = false ∧ hasCRLF (sessionID (neg c)) = false.

(** An error binds nothing; a stream the server accepted on terms the client cannot use is torn down. *)
Definition unbound (e : env) (c : Client) (trk : Track) (x : err) (c' : Client) (out : list act) : Prop :=
  made c' = made c ∧ (∃ id t, neg c' = with_session id t (neg c)) ∧ (unusable x → addressable e c' → torn trk out).
(** Success binds one track more. *)
Definition set_up (c : Client) (trk : Track) (c' : Client) : Prop := ∃ s, made c' = made c ++ [s] ∧ pipeline.id s = trk_ID trk.

Lemma torn_app o1 o2 trk : torn trk o2 → torn trk (o1 ++ o2).
Proof. intros (req & used & raw & H1 & H2 & H3 & H4). exists req, used, raw. do 3 (split; [done|]). apply elem_of_app. by right. Qed.

Lemma same_neg c : neg c = with_session (sessionID (neg c)) (sessionTimeout (neg c)) (neg c).
Proof. by destruct (neg c). Qed.

Lemma of_res_fine {A} (m : res err A) c (Q : A → Client → list act → Prop) (E : err → Client → list act → Prop) : setup_ok c →
  match m with Ok a => Q a c [] | Err x => E x c [] | Panic => False end → fine 0 (of_res m) c Q E.
Proof. intros Hc Hm. unfold sound, runs, of_res. destruct m; [|..|done]; (split; [done|]; split; [apply tracked_refl|done]). Qed.

Lemma setup_request_clean trk transport c : header_clean (setup_request trk transport) c.
Proof. left. unfold header_free, setup_request, Set_. cbn [rq_Header]. rewrite lookup_insert_ne by (by vm_compute). apply lookup_empty. Qed.

Lemma teardown_fine e trk x c c0 : setup_ok c → made c = made c0 → (∃ id t, neg c = with_session id t (neg c0)) → uri_ok (trk_Control trk) →
  ∀ (Q : unit → Client → list act → Prop), fine 0 (_ ← teardownRejectedStream e (trk_Control trk); throw x) c Q (unbound e c0 trk).
Proof.
  intros Hc Hm Hn Hu Q. pose proof (send_bare_good e methodTeardown (trk_Control trk) c (λ _ _ _, False) (so_wf _ Hc)) as Hg.
  rewrite bool_decide_true in Hg by done. apply (fine_good 0) in Hg; [|done]. unfold teardownRejectedStream.
  apply runs_bind. eapply runs_weaken; [exact Hg| |by intros ? ? ? (_ & _ & _ & [])]. intros [] c1 o1 (H1 & H2 & R & Ht). apply runs_throw.
  rewrite app_nil_r. split; [done|]. split; [done|]. split; [rewrite <- Hm; apply (rq_su _ _ _ _ R)|]. split; [by rewrite (rq_neg _ _ _ _ R)|]. intros _ [H3 H4]. by apply Ht.
Qed.

Lemma unbound_app e c trk o1 x c' o2 : unbound e c trk x c' o2 → unbound e c trk x c' (o1 ++ o2).
Proof. intros (H1 & H2 & H3). split; [done|]. split; [done|]. intros Hx Ha. by eapply torn_app, H3. Qed.

(** A step that binds nothing may come first. *)
Lemma fine_after {A B} n k (m : op A) (f : A → op B) c (P : A → Client → Prop) (Q : B → Client → Prop) (E : err → Client → list act → Prop) :
  fine n m c (λ a c1 _, P a c1) E → (∀ a c1 o1, setup_ok c1 → P a c1 → fine k (f a) c1 (λ b c2 _, Q b c2) (λ x c2 o2, E x c2 (o1 ++ o2))) →
  fine (n + k) (m ≫= f) c (λ b c2 _, Q b c2) E.
Proof. intros Hm Hf. eapply fine_bind; [exact Hm|]. intros a c1 o1 H1 _ HP. by apply Hf. Qed.

Lemma fine_mono {A} n (m : op A) c (Q : A → Client → list act → Prop) (E E' : err → Client → list act → Prop) :
  fine n m c Q E → (∀ x c' o, E x c' o → E' x c' o) → fine n m c Q E'.
Proof. intros Hm HE. eapply fine_weaken; [exact Hm|done|done|exact HE]. Qed.

(** What the gate has checked of the track. *)
Record chosen (c : Client) (trk : Track) (desc : describedTrack) : Prop := {
  ch_desc : described c !! Z.to_nat (trk_ID trk) = Some desc;
  ch_pos : 0 ≤ trk_ID trk;
  ch_new : trk_ID trk ∉ ids c;
  ch_ok : described_ok desc
}.
Lemma chosen_same c c' trk desc : described c' = described c → made c' = made c → chosen c trk desc → chosen c' trk desc.
Proof. intros E1 E2 [H1 H2 H3 H4]. split; try done; [by rewrite E1|]. unfold ids. by rewrite E2. Qed.

Lemma chosen_fresh c trk desc t : chosen c trk desc → track_ok t → pipeline.id (su t) = trk_ID trk → control (su t) = d_control desc → fresh_track c t (trk_ID trk) desc.
Proof. intros [H1 H2 H3 H4] Ht Hi Hc. by split. Qed.

Lemma requested_same n c o c' : requested n c o c' → described c' = described c ∧ made c' = made c ∧ neg c' = neg c.
Proof. intros R. split; [apply (rq_described _ _ _ _ R)|]. split; [apply (rq_su _ _ _ _ R)|apply (rq_neg _ _ _ _ R)]. Qed.

Lemma unbound_here e c trk x c' o : made c' = made c → (∃ id t, neg c' = with_session id t (neg c)) → ¬ unusable x → unbound e c trk x c' o.
Proof. intros H1 H2 H3. split; [done|]. split; [done|]. by intros ?. Qed.
Lemma usable x : match x with BadTransport _ | ErrUDPSetupRejected None => False | _ => True end → ¬ unusable x.
Proof. by intros H [[t ->]| ->]. Qed.
Lemma do_err_usable x c o : do_err x c o → ¬ unusable x.
Proof. intros H. apply usable. by destruct x. Qed.
Lemma answered_uri req resp out : answered req resp out → uri_ok (rq_URL req).
Proof. intros (_ & req' & _ & <- & _ & o1 & used & raw & o2 & _ & Hm & _). by eapply MarshalRequest_uri. Qed.

Lemma setupTCP_fine e trk desc opts c : env_ok e → setup_ok c → chosen c trk desc → sessionTransport (neg c) ≠ transportPinUDP →
  fine 3 (setupTCP e trk desc opts) c (λ _ c' _, set_up c trk c') (unbound e c trk).
Proof.
  intros He Hc Hch Hpin. unfold setupTCP. apply (fine_after 0 3 _ _ _ (λ a c1, a = c ∧ c1 = c)); [by apply fine_get|].
  intros ? ? o0 _ (-> & ->). eapply fine_mono; [|intros x c' o; apply (unbound_app e c trk o0)]. clear o0.
  pose proof (nextChannelPair_ok c (so_pairs _ Hc)) as Hnext.
  apply (fine_after 0 3 _ _ _ (λ a c1, c1 = c)).
  { apply of_res_fine; [done|]. destruct (nextChannelPair c) as [[r r']|x|]; [done| |done]. destruct Hnext as [-> _]. apply unbound_here; [done| |by apply usable]. eexists _, _. apply same_neg. }
  intros [r r'] ? o1 _ ->. eapply fine_mono; [|intros x c' o; apply (unbound_app e c trk o1)]. clear o1 Hnext.
  apply (fine_after 3 0 _ _ _ (λ resp c1, made c1 = made c ∧ neg c1 = neg c ∧ described c1 = described c ∧ uri_ok (trk_Control trk))).
  { eapply fine_weaken; [apply (fine_good 3), (do_good e (setup_request trk (BuildTransport r r')) c He (so_wf _ Hc)); [done|apply setup_request_clean]|done| |].
    - intros a c' o _ _ [R Ha]. apply requested_same in R as (-> & -> & ->). apply answered_uri in Ha. done.
    - intros x c' o [R Hx]. apply requested_same in R as (Hd & Hm & Hn). apply unbound_here; [done|rewrite Hn; eexists _, _; apply same_neg|].
      by eapply do_err_usable. }
  intros resp c1 o1 H1 (Hm1 & Hn1 & Hd1 & Huri). eapply fine_mono; [|intros x c' o; apply (unbound_app e c trk o1)]. clear o1.
  apply (fine_after 0 0 _ _ _ (λ _ c2, made c2 = made c ∧ (∃ id t, neg c2 = with_session id t (neg c)) ∧ described c2 = described c)).
  { apply recordSession_fine; [done|]. intros c' E1 E2 E3. rewrite E1, E2, Hm1, Hd1. split; [done|]. split; [|done]. rewrite <- Hn1. by eexists _, _. }
  intros [] c2 o2 H2 (Hm2 & Hn2 & Hd2). eapply fine_mono; [|intros x c' o; apply (unbound_app e c trk o2)]. clear o2.
  assert (Htear : ∀ x, fine 0 (_ ← teardownRejectedStream e (trk_Control trk); throw (A:=unit) (BadTransport x)) c2 (λ _ c' _, set_up c trk c') (unbound e c trk)).
  { intros x. by apply teardown_fine. }
  destruct (ParseTransport _) as [th|x|] eqn:Ep; [|by apply Htear|by apply ParseTransport_total in Ep].
  apply (fine_after 0 0 _ _ _ (λ a c3, a = c2 ∧ c3 = c2)); [by apply fine_get|]. intros ? ? o3 _ (-> & ->).
  eapply fine_mono; [|intros x c' o; apply (unbound_app e c trk o3)]. clear o3.
  destruct (InterleavedChannels th (claimedChannels c2)) as [[g g']|x|] eqn:Eg; [|by apply Htear|by apply InterleavedChannels_total in Eg].
  apply InterleavedChannels_ok in Eg as (Eg & Hg & N1 & N2). rewrite elem_of_claimed in N1, N2.
  pose proof (chosen_same _ c2 _ _ Hd2 Hm2 Hch) as Hch2. destruct (newTrack_made (trk_ID trk) desc opts g' (ch_ok _ _ _ Hch)) as (t & Et & T1 & T2 & T3 & T4).
  unfold lift_total. rewrite Et. apply (fine_after 0 0 _ _ _ (λ a c3, a = t ∧ c3 = c2)); [by apply fine_ret|]. intros ? ? o3 _ (-> & ->).
  eapply fine_mono; [|intros x c' o; apply (unbound_app e c trk o3)]. clear o3.
  apply (fine_after 0 0 _ _ _ (λ _ c3, described c3 = described c2 ∧ made c3 = made c2 ∧ neg c3 = neg c2)).
  { eapply fine_weaken; [apply (fine_good 0), (turn_good e c2 (λ _ _ _, False) He (so_wf _ H2)); done|done| |by intros ? ? ? []].
    intros a c' o _ _ [R _]. by apply requested_same in R. }
  intros _ c3 o3 H3 (Hd3 & Hm3 & Hn3). eapply fine_mono; [|intros x c' o; apply (unbound_app e c trk o3)]. clear o3.
  assert (Hpin3 : sessionTransport (neg c3) ≠ transportPinUDP) by (rewrite Hn3; destruct Hn2 as (id & tm & ->); done).
  eapply fine_weaken; [apply (publishTrack_fine t (trk_ID trk) desc g g' c3 H3); try done|done| |].
  - apply chosen_fresh; try done. by eapply chosen_same.
  - by rewrite Hn3.
  - by rewrite Hn3.
  - intros _ c' o _ _ [E _]. exists (su t). by rewrite E, Hm3, Hm2.
  - intros x c' o (-> & why & ->). apply unbound_here; [by rewrite Hm3|by rewrite Hn3|by apply usable].
Qed.

(** ** Over UDP *)
Lemma bind_loop_ok n i bind m : bind_loop n i bind = Some m → peers m = None ∧ clientRTCPPort m = clientRTPPort m + 1 ∧ clientRTCPPort m ≤ maxUDPPort.
Proof.
  revert i. induction n as [|n IH]; intros i; [done|]. cbn [bind_loop]. destruct (bind i) as [[port free]|]; [|apply IH].
  destruct (Z.leb_spec maxUDPPort port); [apply IH|]. destruct free; [|apply IH]. intros [= <-]. cbn. split_and!; try done; lia.
Qed.

Lemma resolveServerPeers_ok m th ip m' : resolveServerPeers m th ip = Ok m' →
  ∃ a r r', ip = Some a ∧ m' = mkSockets (clientRTPPort m) (clientRTCPPort m) (Some (a, r, r')) ∧ r' = r + 1 ∧ 1 ≤ r ≤ 65534.
Proof.
  unfold resolveServerPeers. destruct ip as [a|]; [|done]. destruct (ServerPorts th) as [[r r']|] eqn:E; [|done]. intros [= <-].
  apply ServerPorts_ok in E as [E1 E2]. by exists a, r, r'.
Qed.

Lemma punch_quiet m rr : (∀ cur f k, audited cur f (holePunch m rr ++ k) ↔ audited cur f k) ∧ requests (holePunch m rr) = 0%nat.
Proof. done. Qed.

Lemma tick_fine e c (Q : rtcp.Time → Client → list act → Prop) E : setup_ok c → (∀ now c', made c' = made c → Q now c' []) → fine 0 (tick e) c Q E.
Proof.
  intros Hc HQ. unfold tick. apply runs_bind, runs_get, runs_bind, runs_upd, runs_ret. cbn [app].
  destruct (quiet_requested (λ s, mkSession (channels s) (tracks s) (lastFrameAt s) (pending s) (closing s) (playing s) (resync s) (S (ticks s)) (sent s)) c) as [W R]; [|apply Hc|].
  - intros s [A B C]. split; [by split|]. split; [done|by split].
  - split; [by eapply setup_ok_requested|]. split; [by apply requested_setting|]. apply HQ. by apply (rq_su _ _ _ _ R).
Qed.

(** A step before which nothing was bound. *)
Lemma fine_then {A B} e n k (m : op A) (f : A → op B) c0 c trk (P : A → Client → Prop) (Q : B → Client → Prop) :
  fine n m c (λ a c1 _, P a c1) (unbound e c0 trk) → (∀ a c1, setup_ok c1 → P a c1 → fine k (f a) c1 (λ b c2 _, Q b c2) (unbound e c0 trk)) →
  fine (n + k) (m ≫= f) c (λ b c2 _, Q b c2) (unbound e c0 trk).
Proof.
  intros Hm Hf. eapply fine_after; [exact Hm|]. intros a c1 o1 H1 HP. eapply fine_mono; [by apply Hf|]. intros x c' o. apply unbound_app.
Qed.

Lemma reject_fine e trk m x c c0 : setup_ok c → made c = made c0 → (∃ id t, neg c = with_session id t (neg c0)) → uri_ok (trk_Control trk) →
  fine 0 (reject_udp e trk m x) c (λ _ c' _, set_up c0 trk c') (unbound e c0 trk).
Proof.
  intros Hc Hm Hn Hu. unfold reject_udp. apply (fine_then e 0 0 _ _ _ _ _ (λ _ c1, c1 = c)); [by apply emit_fine|]. intros [] ? _ ->. by apply teardown_fine.
Qed.

Lemma unbound_same e c0 c trk x c' o : made c = made c0 → neg c = neg c0 → unbound e c trk x c' o → unbound e c0 trk x c' o.
Proof. intros E1 E2 (H1 & H2 & H3). by rewrite E1, E2 in *. Qed.

Lemma setupUDP_fine e trk desc opts fallback c : env_ok e → setup_ok c → chosen c trk desc → sessionTransport (neg c) ≠ transportPinTCP →
  (fallback = true → sessionTransport (neg c) ≠ transportPinUDP) →
  fine 6 (setupUDP e trk desc opts fallback) c (λ _ c' _, set_up c trk c') (unbound e c trk).
Proof.
  intros He Hc Hch Hpin Hfall. assert (Hself : ∃ id t, neg c = with_session id t (neg c)) by (eexists _, _; apply same_neg).
  unfold setupUDP. apply (fine_then e 0 6 _ _ _ _ _ (λ a c1, a = c ∧ c1 = c)); [by apply fine_get|]. intros ? ? _ (-> & ->).
  apply (fine_then e 0 6 _ _ _ _ _ (λ m c1, c1 = c)).
  { apply of_res_fine; [done|]. unfold openMediaSockets. destruct (bind_loop _ _ _); [done|]. apply unbound_here; [done|done|by apply usable]. }
  intros m ? _ ->. set (req := setup_request _ _).
  apply (fine_then e 3 3 _ _ _ _ _ (λ r c1, made c1 = made c ∧ neg c1 = neg c ∧ described c1 = described c ∧
    match r with Ok _ => uri_ok (trk_Control trk) | Err x => ¬ unusable x | Panic => False end)).
  { apply runs_try. pose proof (fine_good 3 _ _ _ _ Hc (do_good e req c He (so_wf _ Hc) (setup_request_clean _ _ _))) as Hg.
    eapply runs_weaken; [exact Hg|..].
    - intros resp c' o (A1 & A2 & R & Ha). apply requested_same in R as (-> & -> & ->). apply answered_uri in Ha. by split_and!.
    - intros x c' o (A1 & A2 & R & Hx). apply requested_same in R as (-> & -> & ->). apply do_err_usable in Hx. by split_and!. }
  intros r c1 H1 (Hm1 & Hn1 & Hd1 & Hr). destruct r as [resp|x|]; [| |done].
  2: { apply (fine_then e 0 3 _ _ _ _ _ (λ _ c2, c2 = c1)); [by apply emit_fine|]. intros [] ? _ ->.
    assert (Hthrow : ∀ y, ¬ unusable y → fine 3 (throw y) c1 (λ (_ : unit) c' _, set_up c trk c') (unbound e c trk)).
    { intros y Hy. eapply fine_weaken; [apply (fine_throw y c1 (λ _ _ _, False) (unbound e c trk) H1); apply unbound_here; [done|by rewrite Hn1|done]|lia|done|done]. }
    destruct x; try by apply Hthrow. destruct fallback; [|by apply Hthrow, usable].
    eapply fine_weaken; [apply (setupTCP_fine e trk desc opts c1); try done|done| |].
    - by eapply chosen_same.
    - rewrite Hn1. by apply Hfall.
    - intros [] c' o _ _ (s0 & E & Ei). exists s0. by rewrite E, Hm1.
    - intros y c' o. by apply unbound_same. }
  apply (fine_weaken 0 3 _ _ (λ _ c' _, set_up c trk c') _ (unbound e c trk)); [|lia|done|done].
  apply (fine_then e 0 0 _ _ _ _ _ (λ _ c2, made c2 = made c ∧ (∃ id t, neg c2 = with_session id t (neg c)) ∧ described c2 = described c)).
  { apply recordSession_fine; [done|]. intros c' E1 E2 E3. rewrite E1, E2, Hm1, Hd1. split; [done|]. split; [|done]. rewrite <- Hn1. by eexists _, _. }
  intros [] c2 H2 (Hm2 & Hn2 & Hd2). destruct (ParseTransport _) as [th|x|] eqn:Ep; [|by apply reject_fine|by apply ParseTransport_total in Ep].
  destruct (resolveServerPeers m th (peerIP e)) as [m'|x|] eqn:Er; [|by apply reject_fine|].
  2: { exfalso. revert Er. unfold resolveServerPeers. destruct (peerIP e); [|done]. by destruct (ServerPorts th) as [[]|]. }
  apply resolveServerPeers_ok in Er as (a & rp & rp' & _ & Em' & _). assert (Hpeer : is_Some (peers m')) by (subst m'; by eexists). clear Em'.
  destruct (newTrack_made (trk_ID trk) desc opts 0 (ch_ok _ _ _ Hch)) as (t & Et & T1 & T2 & T3 & T4). unfold lift_total. rewrite Et.
  apply (fine_then e 0 0 _ _ _ _ _ (λ a c3, a = t ∧ c3 = c2)); [by apply fine_ret|]. intros ? ? _ (-> & ->).
  apply (fine_then e 0 0 _ _ _ _ _ (λ _ c3, described c3 = described c2 ∧ made c3 = made c2 ∧ neg c3 = neg c2)).
  { eapply fine_weaken; [apply (fine_good 0), (turn_good e c2 (λ _ _ _, False) He (so_wf _ H2)); done|done| |by intros ? ? ? []].
    intros a0 c' o _ _ [R _]. by apply requested_same in R. }
  intros _ c3 H3 (Hd3 & Hm3 & Hn3).
  assert (Hpin3 : sessionTransport (neg c3) ≠ transportPinTCP) by (rewrite Hn3; destruct Hn2 as (id & tm & ->); done).
  apply (fine_then e 0 0 _ _ _ _ _ (λ _ c4, set_up c trk c4)).
  { eapply fine_weaken; [apply (publishUDPTrack_fine e t (trk_ID trk) desc m' c3 He H3); try done|done| |].
    - apply chosen_fresh; try done. eapply chosen_same; [exact Hd3|exact Hm3|]. by eapply chosen_same.
    - intros [] c' o _ _ E. exists (su t). by rewrite E, Hm3, Hm2.
    - intros x c' o (-> & why & ->). apply unbound_here; [by rewrite Hm3|by rewrite Hn3|by apply usable]. }
  intros [] c4 H4 Hup. apply (fine_then e 0 0 _ _ _ _ _ (λ _ c5, set_up c trk c5)).
  - apply tick_fine; [done|]. intros now c' E. destruct Hup as (s0 & E2 & Ei). exists s0. by rewrite E.
  - intros now c5 H5 Hup5. destruct (punch_quiet m' (rtcp.Marshal_RR (buildReceiverReport (reporterSSRC e) now t))). by apply emit_fine.
Qed.

(** One call: a track more, or none and an error. *)
Lemma Setup_fine e pref trk opts c : env_ok e → setup_ok c → fine 6 (Setup e pref trk opts) c (λ _ c' _, set_up c trk c') (unbound e c trk).
Proof.
  intros He Hc. unfold Setup. apply (fine_then e 0 6 _ _ _ _ _ (λ a c1, a = c ∧ c1 = c)); [by apply fine_get|]. intros ? ? _ (-> & ->).
  pose proof (describedTrackFor_ok trk c Hc) as Hd. apply (fine_then e 0 6 _ _ _ _ _ (λ desc c1, c1 = c ∧ chosen c trk desc)).
  { apply of_res_fine; [done|]. destruct (describedTrackFor trk c) as [desc|x|]; [| |done].
    - destruct Hd as (D1 & D2 & _ & D3 & D4). done.
    - apply unbound_here; [done|eexists _, _; apply same_neg|]. apply usable. by destruct Hd as [->|[->|[-> _]]]. }
  intros desc ? _ [-> Hch]. unfold resolveTransport. destruct (bool_decide (sessionTransport (neg c) = transportPinTCP)) eqn:E1.
  { apply bool_decide_eq_true in E1. eapply fine_weaken; [by apply setupTCP_fine; [..|rewrite E1]|lia|done|done]. }
  apply bool_decide_eq_false in E1. destruct (bool_decide (sessionTransport (neg c) = transportPinUDP)) eqn:E2; [by apply setupUDP_fine|].
  apply bool_decide_eq_false in E2. destruct pref; [|by apply setupUDP_fine..]. eapply fine_weaken; [by apply setupTCP_fine|lia|done|done].
Qed.

(** ** Calls one after the other *)
Definition succeeded (calls : list (Track * SetupOptions)) (rs : list (res err unit)) : list Z :=
  omap (λ p, match p.2 with Ok _ => Some (trk_ID p.1.1) | _ => None end) (zip calls rs).

Lemma setups_fine e pref calls c : env_ok e → setup_ok c →
  fine (6 * length calls) (setups e pref calls) c (λ rs c' _, length rs = length calls ∧ ids c' = ids c ++ succeeded calls rs) (λ _ _ _, False).
Proof.
  intros He. revert c. induction calls as [|[trk opts] calls IH]; intros c Hc; cbn [setups].
  { apply fine_ret; [done|]. by rewrite app_nil_r. }
  replace (6 * length ((trk, opts) :: calls))%nat with (6 + (6 * length calls + 0))%nat by (cbn [length]; lia).
  apply (fine_bind _ _ _ _ _ (λ r c1 _, ids c1 = ids c ++ match r with Ok _ => [trk_ID trk] | _ => [] end ∧ r ≠ Panic)).
  { apply runs_try. eapply runs_weaken; [exact (Setup_fine e pref trk opts c He Hc)|..].
    - intros [] c1 o (A1 & A2 & s0 & E & Ei). split_and!; try done. unfold ids. by rewrite E, fmap_app, <- Ei.
    - intros x c1 o (A1 & A2 & E & _). split_and!; try done. unfold ids. by rewrite E, app_nil_r. }
  intros r c1 o1 H1 _ [E1 Hr]. eapply fine_bind; [exact (IH c1 H1)|]. intros rs c2 o2 H2 _ [El E2]. apply fine_ret; [done|].
  split; [cbn; by rewrite El|]. rewrite E2, E1, <- app_assoc. f_equal. by destruct r.
Qed.

Lemma runs_inv {A} (m : op A) c QA : runs m c QA (λ _ _ _, False) → ∃ a c' out, m c = (c', out, Ok a) ∧ QA a c' out.
Proof. unfold runs. destruct (m c) as [[c' out] [a|x|]]; [|done..]. intros H. by exists a, c', out. Qed.

(** The client that Describe leaves: nothing is set up yet. *)
Definition described_client (url : list Z) (ds : list describedTrack) (n : Z) : Client :=
  mkClient_ (mkClient [] 0 (mkSession None [] 0 ∅ None false 0 0 0)) stateDescribed (mkNegotiated [] 0 [] [] [] false ∅) no_auth n url ds [] [] (mkIdentity url [] []) false 0.

Lemma described_client_ok url ds n : Forall described_ok ds → is_u32 n → setup_ok (described_client url ds n).
Proof.
  intros Hd Hn. split; try done.
  - split; [|done|done]. split; [|done|constructor]. split; [constructor|done|split; [done|]]. intros _. unfold maxResyncBytes. cbn. lia.
  - constructor.
  - split; cbn; constructor.
  - intros ch b. split; [done|]. by intros (p & Hp & _).
  - by apply pinned_none.
Qed.

(** C24: whatever the server answers, and whenever the session ends, any sequence of Setup calls
    after Describe runs without a panic and leaves a well-formed client: the tracks set up are
    those of the calls that succeeded, in their order, each once and each as described; no
    interleaved channel belongs to two tracks; the reader's table binds exactly the channels of
    the tracks; all tracks use one transport; and what was set up before stays as it was. *)
Theorem setups_sound e pref calls c : env_ok e → setup_ok c → ∃ c' out rs, setups e pref calls c = (c', out, Ok rs) ∧
  length rs = length calls ∧ ids c' = ids c ++ succeeded calls rs ∧ setup_ok c' ∧
  (∃ l, channelPairs (neg c') = channelPairs (neg c) ++ l) ∧
  (sessionTransport (neg c) ≠ [] → sessionTransport (neg c') = sessionTransport (neg c)) ∧
  (sessionID (neg c) ≠ [] → sessionID (neg c') = sessionID (neg c)).
Proof.
  intros He Hc. destruct (runs_inv _ _ _ (runs_weaken _ _ _ _ _ (λ _ _ _, False) (setups_fine e pref calls c He Hc) (λ _ _ _ H, H) (λ x c' o H, proj2 (proj2 H))))
    as (rs & c' & out & E & H1 & [R1 R2 R3 R4 R5 R6 R7 R8 R9] & Hl & Hi).
  exists c', out, rs. split; [exact E|]. split; [done|]. split; [done|]. split; [done|]. split; [done|]. split; [done|]. intros Hn. by apply R5.
Qed.

(** Through any sequence of Setup calls, no request carries credentials before a challenge is
    adopted; under an adopted challenge the nonce counts go up by one from one, every authorized
    request carries the value computed for its own method and URL from a count nothing else was
    sent with, and at most six requests are made for a track. *)
Theorem credentials_audited e pref calls c : env_ok e → setup_ok c → active (auth c) = false →
  ∃ c' out rs, setups e pref calls c = (c', out, Ok rs) ∧ audited None false out ∧ (requests out ≤ 6 * length calls)%nat.
Proof.
  intros He Hc Ha. destruct (runs_inv _ _ _ (runs_weaken _ _ _ _ _ (λ _ _ _, False) (setups_fine e pref calls c He Hc) (λ _ _ _ H, H) (λ x c' o H, proj2 (proj2 H))))
    as (rs & c' & out & E & H1 & [R1 R2 R3 R4 R5 R6 R7 R8 R9] & _).
  exists c', out, rs. split; [exact E|]. split; [|exact R8]. specialize (R9 [] (λ _, I) false). rewrite app_nil_r in R9.
  unfold current in R9. by rewrite Ha in R9.
Qed.

(** C25: a Setup that returns an error has bound nothing: the tracks, their channels or sockets
    and the transport of the session are as before, and only the session id may have been
    learnt.  When the server had accepted the stream with a Transport that cannot be used
    (over TCP or UDP one that does not parse, over TCP channels that conflict or are no pair, over UDP no usable
    server ports), a TEARDOWN addressed to the URL of that stream was marshalled and written to the
    connection; unless the user agent or the session id the server chose holds a line end,
    with which no request can be written at all. *)
Theorem failed_setup_binds_nothing e pref trk opts c : env_ok e → setup_ok c →
  match Setup e pref trk opts c with
  | (c', out, Ok _) => setup_ok c' ∧ set_up c trk c'
  | (c', out, Err x) => setup_ok c' ∧ made c' = made c ∧ (∃ id t, neg c' = with_session id t (neg c)) ∧
      (unusable x → addressable e c' → torn trk out)
  | (_, _, Panic) => False
  end.
Proof.
  intros He Hc. pose proof (Setup_fine e pref trk opts c He Hc) as H. unfold sound, runs in H. destruct (Setup e pref trk opts c) as [[c' out] [a|x|]]; [| |done].
  - by destruct H as (H1 & _ & H2).
  - by destruct H as (H1 & _ & H2).
Qed.

(** A server that honours the pair proposed is always accepted: the pair starts at an even
    channel above every channel in use, its echo parses, and it is free.  A proposal is refused
    only when channel 254 or 255 is taken. *)
Theorem proposal_accepted c : setup_ok c →
  match nextChannelPair c with
  | Ok (r, r') => r mod 2 = 0 ∧ Forall (λ ch, ch < r) (bound (channelPairs (neg c))) ∧
      ∃ th, ParseTransport (BuildTransport r r') = Ok th ∧ InterleavedChannels th (claimedChannels c) = Ok (r, r')
  | Err x => x = ErrNoChannelsLeft ∧ ∃ ch, ch ∈ bound (channelPairs (neg c)) ∧ 254 ≤ ch
  | Panic => False
  end.
Proof.
  intros Hc. pose proof (nextChannelPair_ok c (so_pairs _ Hc)) as H. destruct (nextChannelPair c) as [[r r']|x|]; [|done|done].
  destruct H as (-> & Hr & He & Hall). split; [done|]. split; [done|]. exists (proposal_tcp r (r + 1)). split; [apply ParseTransport_tcp; lia|].
  rewrite Forall_forall in Hall. apply (InterleavedChannels_free (proposal_tcp r (r + 1))); try done; cbn.
  - intros Hin%elem_of_claimed. specialize (Hall _ Hin). cbn in Hall. lia.
  - intros Hin%elem_of_claimed. specialize (Hall _ Hin). cbn in Hall. lia.
Qed.

(** [do] terminates without a panic, with at most three requests.  The response it returns
    is the one the reader handed over for the sequence number of the last request with its
    method and URL, and its status is below 300; an error is a redirect, another status, a
    challenge that could not be answered, or the end of the session, and changes nothing that
    was negotiated. *)
Theorem response_matched e req c : env_ok e → client_wf c → header_free (rq_Header req) →
  match do_ e req c with
  | (c', out, Ok resp) => neg c' = neg c ∧ made c' = made c ∧ (requests out ≤ 3)%nat ∧ answered req resp out
  | (c', out, Err x) => neg c' = neg c ∧ made c' = made c ∧ (requests out ≤ 3)%nat ∧ do_err x c' out
  | (_, _, Panic) => False
  end.
Proof.
  intros He Hc Hh. pose proof (do_good e req c He Hc (or_introl Hh)) as H. unfold sound, runs in H.
  destruct (do_ e req c) as [[c' out] [a|x|]]; [| |done]; destruct H as (_ & R & H); pose proof (requested_same _ _ _ _ R) as (_ & E1 & E2);
    (split; [exact E2|]; split; [exact E1|]; split; [apply (rq_count _ _ _ _ R)|exact H]).
Qed.

(** ** A session

    Three tracks.  The server challenges the first SETUP and accepts the second try; it gives the
    second track other channels than proposed; for the third it repeats channels in use, so that
    stream is torn down; the first track is then asked for again. *)
Definition sample_response (code : Z) (cseq : Z) (h : list (string * string)) : list Z :=
  written (MarshalResponse (Some (mkResponse code (str "x") cseq (foldr (λ kv h, Set_ h (str kv.1) (str kv.2)) ∅ h) []))).
Definition transport_of (channels : string) : string * string := ("Transport"%string, ("RTP/AVP/TCP;unicast;interleaved=" ++ channels)%string).
Definition challenged : list Z :=
  written (MarshalResponse (Some (mkResponse 401 (str "x") 1
    {[str "WWW-Authenticate" := [str "Digest realm=" ++ [34] ++ str "cam" ++ [34] ++ str ", qop=auth, nonce=" ++ [34] ++ str "n1" ++ [34]]]} []))).
Definition first_answer : list Z := Eval vm_compute in challenged.
Definition second_answer : list Z := Eval vm_compute in sample_response 200 2 [transport_of "0-1"; ("Session", "12ab;timeout=30")]%string.
Definition third_answer : list Z := Eval vm_compute in sample_response 200 3 [transport_of "8-9"; ("Session", "12ab")]%string.
Definition fourth_answer : list Z := Eval vm_compute in sample_response 200 4 [transport_of "0-1"; ("Session", "12ab")]%string.
Definition sample_reads (n : nat) : list Z :=
  match n with 1%nat => first_answer | 3%nat => second_answer | 6%nat => third_answer | 9%nat => fourth_answer | _ => [] end.
Definition one_read (l : list Z) : turn := mkTurn (if l is [] then [] else [mkRead l None]) None false.
Definition sample_script (n : nat) : turn := one_read (sample_reads n).
Definition sample_env : env :=
  mkEnv sample_world (str "test") (str "admin") (str "secret") 7 sample_script (λ _, WakeTimer) (λ _, Some (str "0a4f113b")) (λ _ _, None) None.

Definition track_desc (control : string) : describedTrack := mkDescribed (str control) CodecOpus 111 48000 MediaAudio None None true.
Definition sample_client : Client := described_client (str "rtsp://cam/") [track_desc "rtsp://cam/1"; track_desc "rtsp://cam/2"; track_desc "rtsp://cam/3"] 0.
Definition sample_track_ (i : Z) (control : string) : Track * SetupOptions := (mkTrack_ i (str control), mkOptions false 0).
Definition sample_calls : list (Track * SetupOptions) :=
  [sample_track_ 0 "rtsp://cam/1"; sample_track_ 1 "rtsp://cam/2"; sample_track_ 2 "rtsp://cam/3"; sample_track_ 0 "rtsp://cam/1"].

Lemma sample_env_ok : env_ok sample_env.
Proof.
  assert (Hr : ∀ l, bool_decide (Forall is_u8 l) && (blen l <=? readChunk) = true → turn_ok (one_read l)).
  { intros l [Hb%bool_decide_eq_true Hl%Z.leb_le]%andb_prop. unfold turn_ok. destruct l; [constructor|]. apply Forall_singleton. by split. }
  intros n. apply Hr. unfold sample_reads. do 10 (destruct n as [|n]; [by vm_compute|]). by vm_compute.
Qed.
Lemma sample_client_ok : setup_ok sample_client.
Proof. apply described_client_ok; [|done]. repeat constructor; try done; by intros ? ? ? [=]. Qed.

(** What one sees of it: the tracks, the channels, the requests with their nonce counts. *)
Definition seen (r : Client * list act * res err (list (res err unit))) :
    list Z * list (Z * Z) * nat * list (list Z * list Z * Z) * option (list (res err unit)) :=
  let '(c, out, rs) := r in
  (ids c, (λ p, (cp_RTP p, cp_RTCP p)) <$> channelPairs (neg c), requests out,
   omap (λ a, match a with Sent rq u _ => Some (rq_Method rq, rq_URL rq, match u with Some st => nc st | None => 0 end) | _ => None end) out,
   match rs with Ok rs => Some rs | _ => None end).
Lemma sample_seen : seen (setups sample_env PreferTCP sample_calls sample_client) =
  ([0; 1], [(0, 1); (8, 9)], 4%nat,
   [(str "SETUP", str "rtsp://cam/1", 0); (str "SETUP", str "rtsp://cam/1", 1); (str "SETUP", str "rtsp://cam/2", 2);
    (str "SETUP", str "rtsp://cam/3", 3); (str "TEARDOWN", str "rtsp://cam/3", 4)],
   Some [Ok tt; Ok tt; Err (BadTransport ErrChannelConflict); Err ErrTrackAlreadySetUp]).
Proof. vm_compute. reflexivity. Qed.

Lemma setups_sound_witness : setup_ok sample_client ∧ ∃ c' out rs, setups sample_env PreferTCP sample_calls sample_client = (c', out, Ok rs) ∧
  ids c' = [0; 1] ∧ setup_ok c'.
Proof.
  split; [exact sample_client_ok|]. destruct (setups_sound sample_env PreferTCP sample_calls sample_client sample_env_ok sample_client_ok) as (c' & out & rs & E & _ & _ & H & _).
  exists c', out, rs. split; [exact E|]. split; [|exact H]. pose proof sample_seen as Hs. rewrite E in Hs. exact (f_equal (λ x, x.1.1.1.1) Hs).
Defined.

Lemma credentials_audited_witness : ∃ c' out rs, setups sample_env PreferTCP sample_calls sample_client = (c', out, Ok rs) ∧ audited None false out ∧ requests out = 4%nat.
Proof.
  destruct (credentials_audited sample_env PreferTCP sample_calls sample_client sample_env_ok sample_client_ok eq_refl) as (c' & out & rs & E & H & _).
  exists c', out, rs. split; [exact E|]. split; [exact H|]. pose proof sample_seen as Hs. rewrite E in Hs. exact (f_equal (λ x, x.1.1.2) Hs).
Defined.

(** A server that accepts the stream on a pair that is none. *)
Definition bad_answer : list Z := Eval vm_compute in sample_response 200 1 [transport_of "0-2"; ("Session", "12ab")]%string.
Definition bad_env : env :=
  mkEnv sample_world (str "test") [] [] 7 (λ n, one_read (if (n =? 1)%nat then bad_answer else [])) (λ _, WakeTimer) (λ _, None) (λ _ _, None) None.
Lemma bad_env_ok : env_ok bad_env.
Proof.
  assert (Hb : read_ok (mkRead bad_answer None)) by (split; [refine (bool_decide_unpack _ _); by vm_compute|by vm_compute]).
  intros n. unfold bad_env, turn_ok. cbn [script]. destruct (n =? 1)%nat; [|constructor]. apply Forall_singleton. exact Hb.
Qed.
Definition third_track : Track := mkTrack_ 2 (str "rtsp://cam/3").
Definition kept (r : Client * list act * res err unit) : list pipeline.setup * list Z * option err := let '(c, _, x) := r in (made c, sessionID (neg c), match x with Err e => Some e | _ => None end).
(** Over UDP, one that names no server port. *)
Definition portless_answer : list Z := Eval vm_compute in
  sample_response 200 1 [("Transport", "RTP/AVP;unicast;client_port=5000-5001"); ("Session", "12ab")]%string.
Definition portless_env : env :=
  mkEnv sample_world (str "test") [] [] 7 (λ n, one_read (if (n =? 1)%nat then portless_answer else [])) (λ _, WakeTimer) (λ _, None)
    (λ _ _, Some (5000, true)) (Some [10; 0; 0; 9]).
Lemma portless_env_ok : env_ok portless_env.
Proof.
  assert (Hb : read_ok (mkRead portless_answer None)) by (split; [refine (bool_decide_unpack _ _); by vm_compute|by vm_compute]).
  intros n. unfold portless_env, turn_ok. cbn [script]. destruct (n =? 1)%nat; [|constructor]. apply Forall_singleton. exact Hb.
Qed.
Lemma failed_setup_binds_nothing_witness :
  (∃ c' out, Setup bad_env PreferTCP third_track (mkOptions false 0) sample_client = (c', out, Err (BadTransport ErrBadChannelPair)) ∧
    made c' = [] ∧ torn third_track out) ∧
  (∃ c' out, Setup portless_env PreferUDPThenTCP third_track (mkOptions false 0) sample_client = (c', out, Err (ErrUDPSetupRejected None)) ∧
    made c' = [] ∧ torn third_track out).
Proof.
  split.
  - pose proof (failed_setup_binds_nothing bad_env PreferTCP third_track (mkOptions false 0) sample_client bad_env_ok sample_client_ok) as H.
    assert (E : kept (Setup bad_env PreferTCP third_track (mkOptions false 0) sample_client) = ([], str "12ab", Some (BadTransport ErrBadChannelPair))) by (vm_compute; reflexivity).
    destruct (Setup bad_env PreferTCP third_track (mkOptions false 0) sample_client) as [[c' out] [a|x|]]; [discriminate E| |destruct H].
    injection E as Em Es ->. exists c', out. split; [reflexivity|]. split; [exact Em|]. destruct H as (_ & _ & _ & H).
    apply H; [left; by eexists|split; [reflexivity|rewrite Es; reflexivity]].
  - pose proof (failed_setup_binds_nothing portless_env PreferUDPThenTCP third_track (mkOptions false 0) sample_client portless_env_ok sample_client_ok) as H.
    assert (E : kept (Setup portless_env PreferUDPThenTCP third_track (mkOptions false 0) sample_client) = ([], str "12ab", Some (ErrUDPSetupRejected None))) by (vm_compute; reflexivity).
    destruct (Setup portless_env PreferUDPThenTCP third_track (mkOptions false 0) sample_client) as [[c' out] [a|x|]]; [discriminate E| |destruct H].
    injection E as Em Es ->. exists c', out. split; [reflexivity|]. split; [exact Em|]. destruct H as (_ & _ & _ & H).
    apply H; [right; reflexivity|split; [reflexivity|rewrite Es; reflexivity]].
Defined.

(** The client with two tracks set up. *)
Definition two_tracks : Client := (setups sample_env PreferTCP sample_calls sample_client).1.1.
Lemma proposal_accepted_witness : setup_ok two_tracks ∧ nextChannelPair two_tracks = Ok (10, 11) ∧
  ∃ th, ParseTransport (BuildTransport 10 11) = Ok th ∧ InterleavedChannels th (claimedChannels two_tracks) = Ok (10, 11).
Proof.
  assert (Hok : setup_ok two_tracks).
  { unfold two_tracks. pose proof (setups_fine sample_env PreferTCP sample_calls sample_client sample_env_ok sample_client_ok) as H. unfold sound, runs in H.
    destruct (setups sample_env PreferTCP sample_calls sample_client) as [[c' out] [rs|x|]]; [exact (proj1 H)|exact (proj1 H)|destruct H]. }
  split; [exact Hok|]. pose proof (proposal_accepted two_tracks Hok) as H.
  assert (E : nextChannelPair two_tracks = Ok (10, 11)) by (vm_compute; reflexivity). rewrite E in H. split; [exact E|exact (proj2 (proj2 H))].
Defined.

Definition options_request : Request := mkRequest methodOptions (str "rtsp://cam/") 0 ∅ [].
Definition accepted (r : Client * list act * res err Response) : option Z := let '(_, _, x) := r in match x with Ok resp => Some (rs_StatusCode resp) | _ => None end.
Lemma response_matched_witness : ∃ c' out resp, do_ sample_env options_request sample_client = (c', out, Ok resp) ∧ rs_StatusCode resp = 200 ∧ answered options_request resp out.
Proof.
  assert (Hh : header_free (rq_Header options_request)) by reflexivity.
  pose proof (response_matched sample_env options_request sample_client sample_env_ok (so_wf _ sample_client_ok) Hh) as H.
  assert (E : accepted (do_ sample_env options_request sample_client) = Some 200) by (vm_compute; reflexivity).
  destruct (do_ sample_env options_request sample_client) as [[c' out] [resp|x|]]; [|discriminate E|destruct H]. injection E as E.
  exists c', out, resp. split; [reflexivity|]. split; [exact E|]. exact (proj2 (proj2 (proj2 H))).
Defined.
End rtspsetup.
