(* ===== verification/Playlist.v ===== *)
(** * HLS playlists: [hlssource/playlist.go]

    The m3u8 parser, for media and master playlists, and the choice of a rendition.  Playlists are
    remote input.  [net/url] is the parameter of [ControlUrl]; what the parser uses of [strconv],
    [ParseFloat] included, is executable, on the binary64 of [Backoff]. *)
From Stdlib Require Import Ascii String.
From S2P Require Import Prelude Bytes Text Backoff ControlUrl.

Module playlist.

(** ** What the parser uses of the standard library *)

(** Ranging over a string decodes UTF-8; writing the runes back replaces each octet that begins no
    valid encoding by U+FFFD. *)
Definition between (lo hi c : Z) : bool := (lo <=? c) && (c <=? hi).
Definition following (c : Z) : option (nat * Z * Z) :=
  if between 0xC2 0xDF c then Some (1%nat, 0x80, 0xBF)
  else if c =? 0xE0 then Some (2%nat, 0xA0, 0xBF)
  else if c =? 0xED then Some (2%nat, 0x80, 0x9F)
  else if between 0xE1 0xEF c then Some (2%nat, 0x80, 0xBF)
  else if c =? 0xF0 then Some (3%nat, 0x90, 0xBF)
  else if between 0xF1 0xF3 c then Some (3%nat, 0x80, 0xBF)
  else if c =? 0xF4 then Some (3%nat, 0x80, 0x8F)
  else None.
Definition rune (c : Z) (r : list Z) : list Z * list Z :=
  if c <? 0x80 then ([c], r)
  else match following c with
  | Some (n, lo, hi) =>
      match take n r with
      | b :: bs =>
          if between lo hi b && forallb (between 0x80 0xBF) bs && (length bs =? n - 1)%nat then (c :: b :: bs, drop n r) else ([0xEF; 0xBF; 0xBD], r)
      | [] => ([0xEF; 0xBF; 0xBD], r)
      end
  | None => ([0xEF; 0xBF; 0xBD], r)
  end.
Fixpoint runes_from (fuel : nat) (s : list Z) : list (list Z) :=
  match fuel, s with
  | S fuel, c :: r => let '(x, r) := rune c r in x :: runes_from fuel r
  | _, _ => []
  end.
Definition runes (s : list Z) : list (list Z) := runes_from (length s) s.

(** [strings.Trim] of one octet. *)
Fixpoint trim_left (c : Z) (s : list Z) : list Z :=
  match s with x :: r => if x =? c then trim_left c r else s | [] => [] end.
Definition Trim (c : Z) (s : list Z) : list Z := reverse (trim_left c (reverse (trim_left c s))).

(** [strings.ReplaceAll] of CR LF by LF. *)
Fixpoint replace_crlf (s : list Z) : list Z :=
  match s with
  | [] => []
  | c :: r => if (c =? 13) && bool_decide (head r = Some 10) then replace_crlf r else c :: replace_crlf r
  end.

(** [strconv.ParseUint] in base 10 with 64 bits. *)
Definition ParseUint64 (s : list Z) : option Z :=
  match s with
  | [] => None
  | _ => match digits 0 s with Some n => if n <? 2 ^ 64 then Some n else None | None => None end
  end.
(** The number [strconv.Atoi] returns beside its error: the nearest one when it is out of range. *)
Definition atoi_value (s : list Z) : Z :=
  let '(neg, ds) := match s with
    | c :: ds => if c =? 45 then (true, ds) else if c =? 43 then (false, ds) else (false, s)
    | [] => (false, s)
    end in
  match ds with
  | [] => 0
  | _ => match digits 0 ds with
         | Some n => Z.max (- 2 ^ 63) (Z.min (2 ^ 63 - 1) (if neg then - n else n))
         | None => 0
         end
  end.

(** [strconv.ParseFloat] with 64 bits; the sign of a zero is not kept. *)
Definition digit_value (hex : bool) (c : Z) : option Z :=
  if between 48 57 c then Some (c - 48)
  else if hex && between 97 102 (lower c) then Some (lower c - 87) else None.
Record scanned := mkScan { mantissa : Z; fraction : Z; sawdigits : bool; underscores : bool }.
Fixpoint scan_digits (hex sawdot : bool) (a : scanned) (s : list Z) : scanned * list Z :=
  match s with
  | [] => (a, [])
  | c :: r =>
      if c =? 95 then scan_digits hex sawdot (mkScan (mantissa a) (fraction a) (sawdigits a) true) r
      else if c =? 46 then if sawdot then (a, s) else scan_digits hex true a r
      else match digit_value hex c with
      | Some v =>
          scan_digits hex sawdot
            (mkScan (mantissa a * (if hex then 16 else 10) + v) (if sawdot then fraction a + 1 else fraction a) true (underscores a)) r
      | None => (a, s)
      end
  end.
Fixpoint scan_exponent (e : Z) (under : bool) (s : list Z) : Z * bool * list Z :=
  match s with
  | [] => (e, under, [])
  | c :: r =>
      if between 48 57 c then scan_exponent (if e <? 10000 then e * 10 + (c - 48) else e) under r
      else if c =? 95 then scan_exponent e true r
      else (e, under, s)
  end.

(** Underscores separate digits; [prev] is the kind of the octet before. *)
Inductive prev_octet := PStart | PDigit | PUnderscore | POther.
Fixpoint underscores_from (hex : bool) (prev : prev_octet) (s : list Z) : bool :=
  match s with
  | [] => match prev with PUnderscore => false | _ => true end
  | c :: r =>
      if between 48 57 c || (hex && between 97 102 (lower c)) then underscores_from hex PDigit r
      else if c =? 95 then match prev with PDigit => underscores_from hex PUnderscore r | _ => false end
      else match prev with PUnderscore => false | _ => underscores_from hex POther r end
  end.
Definition split_sign (s : list Z) : bool * list Z :=
  match s with c :: r => if c =? 45 then (true, r) else if c =? 43 then (false, r) else (false, s) | [] => (false, []) end.
Definition underscoreOK (s : list Z) : bool :=
  match (split_sign s).2 with
  | z :: x :: r as b =>
      if (z =? 48) && (bool_decide (lower x = 98) || bool_decide (lower x = 111) || bool_decide (lower x = 120)) then underscores_from (lower x =? 120) PDigit r
      else underscores_from false PStart b
  | b => underscores_from false PStart b
  end.

(** The binary64 nearest to [n / d]: a quotient of more than 64 bits and whether something is left. *)
Definition rnd_ratio (n d : Z) : float64.float :=
  let s := Z.max 0 (66 + Z.log2 d - Z.log2 n) in
  let a := n * 2 ^ s in
  float64.rnd (2 * (a / d) + (if a mod d =? 0 then 0 else 1)) (- (s + 1)).
Definition nonneg_value (hex : bool) (m frac e : Z) : float64.float :=
  if hex then float64.rnd m (e - 4 * frac)
  else if 0 <=? e - frac then rnd_ratio (m * 10 ^ (e - frac)) 1 else rnd_ratio m (10 ^ (frac - e)).
Definition finite (neg : bool) (x : float64.float) : option float64.float :=
  match x with float64.Fin m e => Some (float64.Fin (if neg then - m else m) e) | _ => None end.

Definition parse_exponent (hex under : bool) (s : list Z) : option (Z * bool) :=
  match s with
  | [] => if hex then None else Some (0, under)
  | c :: r =>
      if lower c =? (if hex then 112 else 101) then
        let '(neg, r) := split_sign r in
        match r with
        | d :: _ =>
            if between 48 57 d then
              let '(e, under, rest) := scan_exponent 0 under r in
              if bool_decide (rest = []) then Some (if neg then - e else e, under) else None
            else None
        | [] => None
        end
      else None
  end.
Definition ParseFloat (s : list Z) : option float64.float :=
  let '(neg, body) := split_sign s in
  if EqualFold body (str "inf") || EqualFold body (str "infinity") then Some (float64.Inf neg)
  else if EqualFold s (str "nan") then Some float64.NaN
  else
    let '(hex, body) := match body with
      | z :: x :: (_ :: _) as r => if (z =? 48) && (lower x =? 120) then (true, r) else (false, body)
      | _ => (false, body)
      end in
    let '(a, rest) := scan_digits hex false (mkScan 0 0 false false) body in
    if negb (sawdigits a) then None
    else match parse_exponent hex (underscores a) rest with
    | None => None
    | Some (e, under) =>
        if under && negb (underscoreOK s) then None else finite neg (nonneg_value hex (mantissa a) (fraction a) e)
    end.

(** ** The playlist *)
Inductive err := ErrMalformedPlaylist | ErrUnsupportedPlaylist.

Definition MaxSegmentsPerPlaylist : Z := 131072.
Definition maxPlaylistSeconds : Z := 24 * 60 * 60.
Definition Second : Z := 1000000000.

Record mediaSegment := mkSegment { uri : list Z; initURI : list Z; seq : Z; duration : Z; discontinuity : bool; gap : bool }.
Record mediaPlaylist := mkPlaylist {
  version : Z; targetDuration : Z; mediaSequence : Z; discontinuitySequence : Z; endList : bool; segments : list mediaSegment
}.
Record variant := mkVariant { v_uri : list Z; bandwidth : Z; audioGroup : list Z }.
Record rendition := mkRendition { r_uri : list Z; groupID : list Z; isDefault : bool }.
Record masterPlaylist := mkMaster { variants : list variant; audio : list rendition }.

Record playlistParser := mkParser {
  media : mediaPlaylist; master : masterPlaylist; isMedia : bool; isMaster : bool; haveTgt : bool;
  pendExtinf : bool; pendDur : Z; pendDisc : bool; pendGap : bool; pendVariant : option variant; curInitURI : list Z
}.
Definition set_media (m : mediaPlaylist) (p : playlistParser) : playlistParser :=
  mkParser m (master p) (isMedia p) (isMaster p) (haveTgt p) (pendExtinf p) (pendDur p) (pendDisc p) (pendGap p) (pendVariant p) (curInitURI p).
Definition set_master (m : masterPlaylist) (p : playlistParser) : playlistParser :=
  mkParser (media p) m (isMedia p) (isMaster p) (haveTgt p) (pendExtinf p) (pendDur p) (pendDisc p) (pendGap p) (pendVariant p) (curInitURI p).
Definition set_kind (md ms : bool) (p : playlistParser) : playlistParser :=
  mkParser (media p) (master p) (isMedia p || md) (isMaster p || ms) (haveTgt p) (pendExtinf p) (pendDur p) (pendDisc p) (pendGap p) (pendVariant p) (curInitURI p).
Definition set_tgt (p : playlistParser) : playlistParser :=
  mkParser (media p) (master p) (isMedia p) (isMaster p) true (pendExtinf p) (pendDur p) (pendDisc p) (pendGap p) (pendVariant p) (curInitURI p).
Definition set_pending (inf : bool) (dur : Z) (disc g : bool) (p : playlistParser) : playlistParser :=
  mkParser (media p) (master p) (isMedia p) (isMaster p) (haveTgt p) inf dur disc g (pendVariant p) (curInitURI p).
Definition set_variant (v : option variant) (p : playlistParser) : playlistParser :=
  mkParser (media p) (master p) (isMedia p) (isMaster p) (haveTgt p) (pendExtinf p) (pendDur p) (pendDisc p) (pendGap p) v (curInitURI p).
Definition set_init (u : list Z) (p : playlistParser) : playlistParser :=
  mkParser (media p) (master p) (isMedia p) (isMaster p) (haveTgt p) (pendExtinf p) (pendDur p) (pendDisc p) (pendGap p) (pendVariant p) u.
Definition set_version (v : Z) (m : mediaPlaylist) : mediaPlaylist :=
  mkPlaylist v (targetDuration m) (mediaSequence m) (discontinuitySequence m) (endList m) (segments m).
Definition set_target (d : Z) (m : mediaPlaylist) : mediaPlaylist :=
  mkPlaylist (version m) d (mediaSequence m) (discontinuitySequence m) (endList m) (segments m).
Definition set_sequence (s : Z) (m : mediaPlaylist) : mediaPlaylist :=
  mkPlaylist (version m) (targetDuration m) s (discontinuitySequence m) (endList m) (segments m).
Definition set_dsequence (s : Z) (m : mediaPlaylist) : mediaPlaylist :=
  mkPlaylist (version m) (targetDuration m) (mediaSequence m) s (endList m) (segments m).
Definition set_end (m : mediaPlaylist) : mediaPlaylist :=
  mkPlaylist (version m) (targetDuration m) (mediaSequence m) (discontinuitySequence m) true (segments m).
Definition add_segment (s : mediaSegment) (m : mediaPlaylist) : mediaPlaylist :=
  mkPlaylist (version m) (targetDuration m) (mediaSequence m) (discontinuitySequence m) (endList m) (segments m ++ [s]).

(** *** Attribute lists *)
Fixpoint split_runes (inQuote : bool) (b : list Z) (rs : list (list Z)) : list (list Z) :=
  match rs with
  | [] => if 0 <? blen b then [b] else []
  | r :: rs =>
      if bool_decide (r = [34]) then split_runes (negb inQuote) (b ++ r) rs
      else if bool_decide (r = [44]) && negb inQuote then b :: split_runes inQuote [] rs
      else split_runes inQuote (b ++ r) rs
  end.
Definition splitAttrs (attrs : list Z) : list (list Z) := split_runes false [] (runes attrs).
Fixpoint lookupAttr (pairs : list (list Z)) (key : list Z) : list Z :=
  match pairs with
  | [] => []
  | kv :: pairs =>
      match Cut 61 kv with
      | Some (k, v) => if EqualFold (TrimSpace k) key then Trim 34 (TrimSpace v) else lookupAttr pairs key
      | None => lookupAttr pairs key
      end
  end.
Definition attrValue (attrs key : list Z) : list Z := lookupAttr (splitAttrs attrs) key.

Definition parseExtinf (attr : list Z) : res err Z :=
  let field := match Cut 44 attr with Some (f, _) => f | None => attr end in
  match ParseFloat (TrimSpace field) with
  | None | Some float64.NaN => Err ErrMalformedPlaylist
  | Some secs =>
      if float64.ltb secs (float64.Fin 0 0) || float64.ltb (float64.of_int maxPlaylistSeconds) secs then Err ErrMalformedPlaylist
      else match float64.to_int64 (float64.mul secs (float64.of_int Second)) with Some d => mret d | None => Panic end
  end.

Definition splitLines (s : list Z) : list (list Z) := Split 10 (replace_crlf (TrimPrefix s [0xEF; 0xBB; 0xBF])).

Section parser.
Context {U : NetURL} (base : option url).

Definition resolveURI (ref : list Z) : list Z :=
  match url_Parse (TrimSpace ref) with
  | None => ref
  | Some u => match base with None => url_String u | Some b => url_String (ResolveReference b u) end
  end.

Definition handleURI (line : list Z) (p : playlistParser) : res err playlistParser :=
  match pendVariant p with
  | Some v =>
      let v := mkVariant (resolveURI line) (bandwidth v) (audioGroup v) in
      mret (set_kind false true (set_variant None (set_master (mkMaster (variants (master p) ++ [v]) (audio (master p))) p)))
  | None =>
      if pendExtinf p then
        let n := blen (segments (media p)) in
        if MaxSegmentsPerPlaylist <=? n then Err ErrUnsupportedPlaylist
        else
          let s := mkSegment (resolveURI line) (curInitURI p) (u64 (mediaSequence (media p) + n)) (pendDur p) (pendDisc p) (pendGap p) in
          mret (set_pending false (pendDur p) false false (set_media (add_segment s (media p)) p))
      else Err ErrMalformedPlaylist
  end.

Definition handleTag (tag attr : list Z) (p : playlistParser) : res err playlistParser :=
  if bool_decide (tag = str "#EXT-X-VERSION") then mret (set_media (set_version (atoi_value (TrimSpace attr)) (media p)) p)
  else if bool_decide (tag = str "#EXT-X-TARGETDURATION") then
    match Atoi (TrimSpace attr) with
    | None => Err ErrMalformedPlaylist
    | Some secs =>
        if (secs <=? 0) || (maxPlaylistSeconds <? secs) then Err ErrMalformedPlaylist
        else mret (set_tgt (set_media (set_target (secs * Second) (media p)) (set_kind true false p)))
    end
  else if bool_decide (tag = str "#EXT-X-MEDIA-SEQUENCE") then
    match ParseUint64 (TrimSpace attr) with
    | None => Err ErrMalformedPlaylist
    | Some s =>
        if 2 ^ 64 - 1 - (MaxSegmentsPerPlaylist - 1) <? s then Err ErrMalformedPlaylist
        else mret (set_media (set_sequence s (media p)) p)
    end
  else if bool_decide (tag = str "#EXT-X-DISCONTINUITY-SEQUENCE") then
    match ParseUint64 (TrimSpace attr) with
    | None => Err ErrMalformedPlaylist
    | Some s => mret (set_media (set_dsequence s (media p)) p)
    end
  else if bool_decide (tag = str "#EXT-X-ENDLIST") then mret (set_media (set_end (media p)) (set_kind true false p))
  else if bool_decide (tag = str "#EXTINF") then
    dur ← parseExtinf attr;
    mret (set_pending true dur (pendDisc p) (pendGap p) (set_kind true false p))
  else if bool_decide (tag = str "#EXT-X-DISCONTINUITY") then mret (set_pending (pendExtinf p) (pendDur p) true (pendGap p) p)
  else if bool_decide (tag = str "#EXT-X-GAP") then mret (set_pending (pendExtinf p) (pendDur p) (pendDisc p) true p)
  else if bool_decide (tag = str "#EXT-X-KEY") then
    if negb (EqualFold (attrValue attr (str "METHOD")) (str "NONE")) then Err ErrUnsupportedPlaylist else mret p
  else if bool_decide (tag = str "#EXT-X-MAP") then
    let pairs := splitAttrs attr in
    if negb (bool_decide (lookupAttr pairs (str "BYTERANGE") = [])) then Err ErrUnsupportedPlaylist
    else
      let u := lookupAttr pairs (str "URI") in
      if bool_decide (u = []) then Err ErrMalformedPlaylist else mret (set_init (resolveURI u) (set_kind true false p))
  else if bool_decide (tag = str "#EXT-X-BYTERANGE") then Err ErrUnsupportedPlaylist
  else if bool_decide (tag = str "#EXT-X-STREAM-INF") then
    let pairs := splitAttrs attr in
    mret (set_variant (Some (mkVariant [] (atoi_value (lookupAttr pairs (str "BANDWIDTH"))) (lookupAttr pairs (str "AUDIO")))) (set_kind false true p))
  else if bool_decide (tag = str "#EXT-X-MEDIA") then
    let pairs := splitAttrs attr in
    let p := set_kind false true p in
    if EqualFold (lookupAttr pairs (str "TYPE")) (str "AUDIO") then
      let u := lookupAttr pairs (str "URI") in
      let u := if bool_decide (u = []) then u else resolveURI u in
      let r := mkRendition u (lookupAttr pairs (str "GROUP-ID")) (EqualFold (lookupAttr pairs (str "DEFAULT")) (str "YES")) in
      mret (set_master (mkMaster (variants (master p)) (audio (master p) ++ [r])) p)
    else mret p
  else mret p.

Inductive parsed := Media (m : mediaPlaylist) | Master (m : masterPlaylist).
Definition result (p : playlistParser) : res err parsed :=
  if isMaster p && isMedia p then Err ErrMalformedPlaylist
  else if isMaster p then mret (Master (master p))
  else if isMedia p then if haveTgt p then mret (Media (media p)) else Err ErrMalformedPlaylist
  else Err ErrMalformedPlaylist.

Definition parse_line (raw : list Z) (p : playlistParser) : res err playlistParser :=
  let line := TrimSpace raw in
  match line with
  | [] => mret p
  | c :: _ =>
      if negb (c =? 35) then handleURI line p
      else let '(tag, attr) := match Cut 58 line with Some ta => ta | None => (line, []) end in handleTag tag attr p
  end.
Fixpoint parse_lines (ls : list (list Z)) (p : playlistParser) : res err playlistParser :=
  match ls with [] => mret p | l :: ls => p ← parse_line l p; parse_lines ls p end.

Definition no_media : mediaPlaylist := mkPlaylist 0 0 0 0 false [].
Definition new_parser : playlistParser := mkParser no_media (mkMaster [] []) false false false false 0 false false None [].
Definition parsePlaylist (body : list Z) : res err parsed :=
  match splitLines body with
  | first :: ls => if bool_decide (TrimSpace first = str "#EXTM3U") then p ← parse_lines ls new_parser; result p else Err ErrMalformedPlaylist
  | [] => Err ErrMalformedPlaylist
  end.

End parser.

(** ** The rendition to play *)
Fixpoint pick_from (rs : list rendition) (group : list Z) (first : option rendition) : option rendition :=
  match rs with
  | [] => first
  | r :: rs =>
      if negb (bool_decide (group = [])) && negb (bool_decide (groupID r = group)) then pick_from rs group first
      else if isDefault r then Some r
      else pick_from rs group (match first with None => Some r | Some _ => first end)
  end.
Definition pickAudio (rs : list rendition) (group : list Z) : option rendition := pick_from rs group None.

Definition lower_bandwidth (low v : variant) : variant := if bandwidth v <? bandwidth low then v else low.
Definition rendition_uri (r : option rendition) : list Z := match r with Some r => r_uri r | None => [] end.
Definition selectMediaURL (m : masterPlaylist) : res err (list Z) :=
  match variants m with
  | [] =>
      let u := rendition_uri (pickAudio (audio m) []) in
      if negb (bool_decide (u = [])) then mret u else Err ErrUnsupportedPlaylist
  | v :: vs =>
      let lowest := foldl lower_bandwidth v vs in
      let u := if negb (bool_decide (audioGroup lowest = [])) then rendition_uri (pickAudio (audio m) (audioGroup lowest)) else [] in
      if negb (bool_decide (u = [])) then mret u
      else if bool_decide (v_uri lowest = []) then Err ErrUnsupportedPlaylist else mret (v_uri lowest)
  end.
Example float_1 : ParseFloat (str "9.009") = Some (float64.Fin 5071616130372600 (-49)).
Proof. vm_compute. reflexivity. Qed.
Example extinf_1 : parseExtinf (str "9.009,title") = Ok 9009000000.
Proof. vm_compute. reflexivity. Qed.
Example extinf_2 : (λ s, parseExtinf (str s)) <$> ["1e1"; "0x1.8p3"; "1_0.5"; "-0"; "nan"; "86400.1"; "1e400"; "1__0"; "-1"; "+6."; ".5,a"; "1e-400"; "5e"]%string =
  [Ok 10000000000; Ok 12000000000; Ok 10500000000; Ok 0; Err ErrMalformedPlaylist; Err ErrMalformedPlaylist; Err ErrMalformedPlaylist; Err ErrMalformedPlaylist;
   Err ErrMalformedPlaylist; Ok 6000000000; Ok 500000000; Ok 0; Err ErrMalformedPlaylist].
Proof. vm_compute. reflexivity. Qed.


(** ** Bounds *)
Lemma trunc_below B m e : float64.below B m e → 0 ≤ m → 0 ≤ B → 0 ≤ float64.trunc m e < 2 ^ B.
Proof.
  intros H Hm HB. destruct (decide (m = 0)) as [->|Hn].
  - assert (0 < 2 ^ B) by (apply Z.pow_pos_nonneg; lia). unfold float64.trunc. destruct (Z.leb_spec 0 e); [lia|]. rewrite Z.quot_0_l by (apply Z.pow_nonzero; lia). lia.
  - destruct H as [|H]; [done|]. rewrite Z.abs_eq in H by done. unfold float64.trunc. destruct (Z.leb_spec 0 e).
    + split; [apply Z.mul_nonneg_nonneg; [done|apply Z.pow_nonneg; lia]|]. apply Z.log2_lt_pow2; [|rewrite Z.log2_mul_pow2 by lia; lia].
      apply Z.mul_pos_pos; [lia|apply Z.pow_pos_nonneg; lia].
    + assert (Hp : 0 < 2 ^ (- e)) by (apply Z.pow_pos_nonneg; lia). rewrite Z.quot_div_nonneg by lia. split; [by apply Z.div_pos|].
      apply Z.div_lt_upper_bound; [done|]. rewrite <- Z.pow_add_r by lia. replace (- e + B) with (B - e) by lia.
      apply Z.log2_lt_pow2; lia.
Qed.

(** Every duration the parser makes: below [2^48] ns, three days. *)
Definition duration_ok (d : Z) : Prop := 0 ≤ d < 2 ^ 48.
Lemma scaled_duration secs : float64.ltb secs (float64.Fin 0 0) || float64.ltb (float64.of_int maxPlaylistSeconds) secs = false → secs ≠ float64.NaN →
  ∃ d, float64.to_int64 (float64.mul secs (float64.of_int Second)) = Some d ∧ duration_ok d.
Proof.
  intros [H0 H1]%orb_false_iff Hn. destruct secs as [|[]|m e]; [done|discriminate H0|discriminate H1|].
  rewrite (float64.of_int_exact maxPlaylistSeconds) in H1 by done. rewrite (float64.of_int_exact Second) by done.
  apply float64.ltb_zero_false in H0. apply float64.ltb_int_false in H1; [|done].
  assert (Hb : float64.below 17 m e).
  { destruct (decide (m = 0)) as [->|]; [by left|]. right. rewrite Z.abs_eq by lia. unfold maxPlaylistSeconds in H1. destruct (Z.leb_spec 0 e).
    - rewrite Z.add_comm, <- (Z.log2_mul_pow2 m e) by lia. apply Z.log2_lt_pow2; [apply Z.mul_pos_pos; [lia|apply Z.pow_pos_nonneg; lia]|lia].
    - assert (0 < 2 ^ (- e)) by (apply Z.pow_pos_nonneg; lia).
      assert (Hl : Z.log2 m < 17 - e); [|lia]. apply Z.log2_lt_pow2; [lia|]. replace (17 - e) with (17 + - e) by lia. rewrite Z.pow_add_r by lia. lia. }
  assert (H30 : float64.below 30 Second 0) by (right; by vm_compute).
  destruct (float64.rnd_below 47 (m * Second) (e + 0)) as (m' & e' & E & Hb' & Hs); [exact (float64.below_mul 17 30 _ _ _ _ Hb H30)|lia|].
  cbn [float64.mul]. rewrite E. pose proof (trunc_below _ _ _ Hb' (Hs ltac:(unfold Second; lia)) ltac:(lia)) as Ht.
  exists (float64.trunc m' e'). unfold float64.to_int64, duration_ok. rewrite (proj2 (Z.leb_le _ _)), (proj2 (Z.ltb_lt _ _)) by lia. by split.
Qed.
Lemma parseExtinf_ok attr : returns (parseExtinf attr) duration_ok.
Proof.
  unfold parseExtinf. cbv zeta. destruct (ParseFloat _) as [secs|]; [|done]. destruct secs as [|n|m e] eqn:Es; [done|..].
  all: destruct (_ || _) eqn:E; [done|]; destruct (scaled_duration _ E ltac:(done)) as (d & -> & H); exact H.
Qed.

Record segment_ok (s : mediaSegment) : Prop := { sg_duration : duration_ok (duration s); sg_seq : is_u64 (seq s) }.
Record playlist_ok (m : mediaPlaylist) : Prop := {
  py_sequence : 0 ≤ mediaSequence m ≤ 2 ^ 64 - MaxSegmentsPerPlaylist;
  py_count : blen (segments m) ≤ MaxSegmentsPerPlaylist;
  py_segments : Forall segment_ok (segments m)
}.
Definition target_ok (m : mediaPlaylist) : Prop := Second ≤ targetDuration m ≤ maxPlaylistSeconds * Second.
Record parser_ok (p : playlistParser) : Prop := {
  pp_media : playlist_ok (media p);
  pp_target : haveTgt p = true → target_ok (media p);
  pp_pending : duration_ok (pendDur p)
}.

Lemma ParseUint64_range s v : ParseUint64 s = Some v → 0 ≤ v < 2 ^ 64.
Proof.
  unfold ParseUint64. destruct s as [|c s]; [done|]. destruct (digits 0 (c :: s)) as [n|] eqn:E; [|done].
  destruct (Z.ltb_spec n (2 ^ 64)); [|done]. intros [= <-]. split; [|done]. clear H. revert E. generalize (c :: s) as l. assert (H0 : 0 ≤ 0) by lia. revert H0. generalize 0 at 2 3 as a.
  intros a Ha l. revert a Ha. induction l as [|x l IH]; intros a Ha; cbn [digits]; [by intros [= <-]|]. destruct (_ && _) eqn:E; [|done]. breflect. apply IH. lia.
Qed.

Section parser_rules.
Context {U : NetURL} (base : option url).

Lemma handleURI_ok line p : parser_ok p → returns (handleURI base line p) parser_ok.
Proof.
  intros [[H1 H2 H3] Ht Hp]. unfold handleURI. destruct (pendVariant p); [by split|]. destruct (pendExtinf p); [|done]. cbv zeta.
  unfold MaxSegmentsPerPlaylist in *. destruct (Z.leb_spec 131072 (blen (segments (media p)))); [done|]. pose proof (blen_nonneg (segments (media p))).
  split; [|done|done]. split; cbn; [done|unfold MaxSegmentsPerPlaylist; rewrite blen_app; change (blen [_]) with 1; lia|]. apply Forall_app_2; [done|]. apply Forall_singleton.
  split; cbn; [done|]. rewrite u64_small by (unfold is_u64; lia). unfold is_u64. lia.
Qed.

Lemma handleTag_ok tag attr p : parser_ok p → returns (handleTag base tag attr p) parser_ok.
Proof.
  intros H. pose proof H as [[H1 H2 H3] Ht Hp]. unfold handleTag. cbv zeta.
  destruct (bool_decide _); [by split|].
  destruct (bool_decide _). { destruct (Atoi _) as [n|]; [|done]. destruct (_ || _) eqn:E; [done|]. breflect. split; [by split|intros _; unfold target_ok, Second; cbn; lia|done]. }
  destruct (bool_decide _). { destruct (ParseUint64 _) as [n|] eqn:En; [|done]. apply ParseUint64_range in En. unfold MaxSegmentsPerPlaylist in *.
    destruct (Z.ltb_spec (2 ^ 64 - 1 - (131072 - 1)) n); [done|]. split; [split; cbn; unfold MaxSegmentsPerPlaylist; [lia|done|done]|done|done]. }
  destruct (bool_decide _). { by destruct (ParseUint64 _). }
  destruct (bool_decide _); [by split|].
  destruct (bool_decide _). { eapply returns_bind; [apply parseExtinf_ok|]. intros d Hd. by split. }
  destruct (bool_decide _); [by split|]. destruct (bool_decide _); [by split|].
  destruct (bool_decide _); [by destruct (negb _)|].
  destruct (bool_decide _). { destruct (negb _); [done|]. destruct (bool_decide _); [done|]. by split. }
  destruct (bool_decide _); [done|]. destruct (bool_decide _); [by split|]. destruct (bool_decide _); [|done]. destruct (EqualFold _ _); by split.
Qed.

Lemma parse_lines_ok ls : ∀ p, parser_ok p → returns (parse_lines base ls p) parser_ok.
Proof.
  induction ls as [|l ls IH]; intros p Hp; cbn [parse_lines]; [done|]. eapply returns_bind; [|exact IH]. unfold parse_line. cbv zeta.
  destruct (TrimSpace l) as [|c r]; [done|]. destruct (negb _); [by apply handleURI_ok|]. destruct (match Cut 58 (c :: r) with Some ta => ta | None => _ end).
  by apply handleTag_ok.
Qed.
Lemma new_parser_ok : parser_ok new_parser.
Proof. split; [split; [|done|constructor]|done|]; cbn; unfold MaxSegmentsPerPlaylist, duration_ok; lia. Qed.

Lemma parsePlaylist_ok body : returns (parsePlaylist base body) (λ r, match r with Media m => playlist_ok m ∧ target_ok m | Master _ => True end).
Proof.
  unfold parsePlaylist. destruct (splitLines body) as [|l ls]; [done|]. destruct (bool_decide _); [|done].
  eapply returns_bind; [apply parse_lines_ok, new_parser_ok|]. intros p [H1 H2 H3]. unfold result. destruct (_ && _); [done|].
  destruct (isMaster p); [done|]. destruct (isMedia p); [|done]. destruct (haveTgt p); [|done]. split; [done|by apply H2].
Qed.
End parser_rules.


(** ** Written playlists *)
Lemma digit_text c : is_digit c → between 48 57 c = true ∧ lower c = c ∧ (c =? 95) = false ∧ (c =? 46) = false.
Proof.
  unfold is_digit. intros H. unfold between, lower. rewrite !(proj2 (Z.leb_le _ _)) by lia. split; [done|].
  rewrite (proj2 (Z.leb_gt 65 c)) by lia. split; [done|]. split; apply Z.eqb_neq; lia.
Qed.

Lemma scan_all ds : Forall is_digit ds → ∀ a v, digits (mantissa a) ds = Some v → ds ≠ [] ∨ sawdigits a = true →
  scan_digits false false a ds = (mkScan v (fraction a) true (underscores a), []).
Proof.
  induction 1 as [|c ds Hc _ IH]; intros a v; cbn [digits scan_digits].
  - intros [= <-] [?|Hs]; [done|]. destruct a. cbn in *. by rewrite Hs.
  - destruct (digit_text c Hc) as (E1 & E2 & E3 & E4). rewrite E3, E4. unfold digit_value. rewrite E1. unfold between in E1. rewrite E1.
    intros Hv _. by rewrite (IH (mkScan (mantissa a * 10 + (c - 48)) (fraction a) true (underscores a)) v Hv (or_intror eq_refl)).
Qed.

Lemma not_folded c r s x t : is_digit c → ¬ is_digit x → lower <$> s = x :: t → EqualFold (c :: r) s = false.
Proof.
  intros Hc Hx Hs. apply bool_decide_eq_false. rewrite Hs, simple_fold_ascii by (unfold is_digit in Hc; lia). intros [= E _].
  destruct (digit_text c Hc) as (_ & El & _). congruence.
Qed.

Lemma ParseFloat_digits ds v : Forall is_digit ds → ds ≠ [] → digits 0 ds = Some v → ParseFloat ds = finite false (rnd_ratio v 1).
Proof.
  intros Hd Hn Hv. destruct ds as [|c ds]; [done|]. pose proof Hd as [Hc Hds]%Forall_cons_1. destruct (digit_text c Hc) as (E1 & E2 & E3 & E4).
  unfold ParseFloat, split_sign. unfold is_digit in Hc. rewrite (proj2 (Z.eqb_neq c 45)), (proj2 (Z.eqb_neq c 43)) by lia.
  rewrite (not_folded c ds (str "inf") 105 [110; 102]), (not_folded c ds (str "infinity") 105 [110; 102; 105; 110; 105; 116; 121]),
    (not_folded c ds (str "nan") 110 [97; 110]) by (done || unfold is_digit; lia). cbn [orb].
  assert (Ehex : match c :: ds with
    | z :: x :: (_ :: _) as r => if (z =? 48) && (lower x =? 120) then (true, r) else (false, c :: ds)
    | _ => (false, c :: ds) end = (false, c :: ds)).
  { destruct ds as [|x [|y r]]; [done|done|]. apply Forall_cons_1 in Hds as [Hx _]. destruct (digit_text x Hx) as (_ & -> & _).
    unfold is_digit in Hx. by rewrite (proj2 (Z.eqb_neq x 120)), andb_false_r by lia. }
  rewrite Ehex, (scan_all _ Hd (mkScan 0 0 false false) v Hv (or_introl Hn)). cbn. by rewrite Z.mul_1_r.
Qed.

(** A number of 53 bits times a power of two is not rounded. *)
Lemma rnd_exact v j : 0 < v < 2 ^ 53 → 0 ≤ j ≤ 1000 → ∃ i, 0 ≤ i ≤ j ∧ float64.rnd (v * 2 ^ j) (- j) = float64.Fin (v * 2 ^ i) (- i).
Proof.
  intros Hv Hj. assert (Hp : 0 < 2 ^ j) by (apply Z.pow_pos_nonneg; lia).
  assert (Hl : Z.log2 v < 53) by (apply Z.log2_lt_pow2; lia). pose proof (Z.log2_nonneg v).
  unfold float64.rnd. rewrite Z.abs_eq by nia. set (k := float64.round_shift (v * 2 ^ j) (- j)).
  assert (Hk : 0 ≤ k ≤ j) by (unfold k, float64.round_shift; rewrite Z.log2_mul_pow2 by lia; lia).
  clearbody k. exists (j - k). split; [lia|]. assert (Hk0 : 0 < 2 ^ k) by (apply Z.pow_pos_nonneg; lia).
  assert (E : v * 2 ^ j = v * 2 ^ (j - k) * 2 ^ k) by (rewrite <- Z.mul_assoc, <- Z.pow_add_r by lia; do 2 f_equal; lia).
  assert (Eq : float64.round_mantissa (v * 2 ^ j) k = v * 2 ^ (j - k)).
  { unfold float64.round_mantissa. rewrite E, Z.div_mul, Z.mod_mul by lia. cbv zeta. rewrite Z.mul_0_r, (proj2 (Z.ltb_ge _ 0)), (proj2 (Z.eqb_neq 0 _)) by lia. done. }
  cbv zeta. rewrite Eq. assert (0 < 2 ^ (j - k)) by (apply Z.pow_pos_nonneg; lia).
  rewrite Z.log2_mul_pow2 by lia. rewrite (proj2 (Z.leb_gt 1024 _)), andb_false_r by lia.
  rewrite Z.sgn_pos by nia. rewrite Z.mul_1_l. f_equal. lia.
Qed.

Lemma seconds_exact n : 0 ≤ n ≤ maxPlaylistSeconds → ∃ secs, finite false (rnd_ratio n 1) = Some secs ∧ secs ≠ float64.NaN ∧
  float64.ltb secs (float64.Fin 0 0) || float64.ltb (float64.of_int maxPlaylistSeconds) secs = false ∧
  float64.to_int64 (float64.mul secs (float64.of_int Second)) = Some (n * Second).
Proof.
  intros Hn. unfold maxPlaylistSeconds in Hn. destruct (decide (n = 0)) as [->|Hn0]; [by eexists|].
  assert (Hl : Z.log2 n < 17) by (apply Z.log2_lt_pow2; lia). pose proof (Z.log2_nonneg n).
  unfold rnd_ratio. change (Z.log2 1) with 0. set (s := Z.max 0 (66 + 0 - Z.log2 n)). assert (Hs : 49 < s ≤ 66) by (unfold s; lia). clearbody s.
  cbv zeta. rewrite Z.div_1_r, Z.mod_1_r, Z.eqb_refl, Z.add_0_r. replace (2 * (n * 2 ^ s)) with (n * 2 ^ (s + 1)) by (rewrite Z.pow_add_r by lia; lia).
  destruct (rnd_exact n (s + 1)) as (i & Hi & E); [lia|lia|]. rewrite E. cbn [finite]. eexists. split; [done|]. split; [done|].
  assert (Hp : 0 < 2 ^ i) by (apply Z.pow_pos_nonneg; lia).
  assert (Hal : ∀ M, float64.align M 0 (n * 2 ^ i) (- i) = (M * 2 ^ i, n * 2 ^ i, - i)).
  { intros M. unfold float64.align. rewrite Z.min_r by lia. rewrite Z.sub_diag, Z.mul_1_r. do 3 f_equal. f_equal. lia. }
  assert (Hal' : float64.align (n * 2 ^ i) (- i) 0 0 = (n * 2 ^ i, 0, - i)).
  { unfold float64.align. rewrite Z.min_l by lia. by rewrite Z.sub_diag, Z.mul_1_r. }
  rewrite !float64.of_int_exact by done. split.
  - unfold float64.ltb. rewrite Hal, Hal'. unfold maxPlaylistSeconds. rewrite !(proj2 (Z.ltb_ge _ _)) by nia. done.
  - cbn [float64.mul]. replace (n * 2 ^ i * Second) with (n * Second * 2 ^ i) by lia. rewrite Z.add_0_r.
    destruct (rnd_exact (n * Second) i) as (i' & Hi' & E'); [unfold Second; lia|lia|]. rewrite E'.
    assert (Hp' : 0 < 2 ^ i') by (apply Z.pow_pos_nonneg; lia).
    assert (Et : float64.trunc (n * Second * 2 ^ i') (- i') = n * Second).
    { unfold float64.trunc. destruct (Z.leb_spec 0 (- i')).
      - assert (i' = 0) as -> by lia. rewrite Z.opp_0, Z.pow_0_r. lia.
      - rewrite Z.opp_involutive. apply Z.quot_mul. lia. }
    unfold float64.to_int64. rewrite Et. unfold Second. rewrite (proj2 (Z.leb_le _ _)), (proj2 (Z.ltb_lt _ _)) by lia. done.
Qed.

(** Whole seconds are exact. *)
Lemma parseExtinf_whole n title : 0 ≤ n ≤ maxPlaylistSeconds → parseExtinf (Itoa n ++ 44 :: title) = Ok (n * Second).
Proof.
  intros Hn. unfold maxPlaylistSeconds in Hn. unfold parseExtinf. rewrite Cut_app by (apply Itoa_no; [lia|unfold is_digit; lia]).
  rewrite TrimSpace_Itoa by lia. destruct (Itoa_shape n ltac:(lia)) as (ds & E & Hnil & Hds & Hv). rewrite E, (proj2 (Z.ltb_ge n 0)) in * by lia.
  cbn [app]. rewrite (ParseFloat_digits ds n Hds Hnil) by (rewrite Hv; f_equal; lia).
  destruct (seconds_exact n Hn) as (secs & -> & Hs & H1 & H2). rewrite H1, H2. by destruct secs.
Qed.


(** A playlist as a packager writes it: every segment with the tags before it. *)
Record entry := mkEntry { e_map : option (list Z); e_disc : bool; e_gap : bool; e_secs : Z; e_uri : list Z }.
Record written := mkWritten { w_version : Z; w_target : Z; w_sequence : Z; w_dsequence : Z; w_entries : list entry; w_end : bool }.

Definition map_line (u : list Z) : list Z := str "#EXT-X-MAP:URI=" ++ [34] ++ u ++ [34].
Definition entry_lines (e : entry) : list (list Z) :=
  match e_map e with Some u => [map_line u] | None => [] end ++
  (if e_disc e then [str "#EXT-X-DISCONTINUITY"] else []) ++
  (if e_gap e then [str "#EXT-X-GAP"] else []) ++
  [str "#EXTINF:" ++ Itoa (e_secs e) ++ [44]; e_uri e].
Definition playlist_lines (w : written) : list (list Z) :=
  [str "#EXTM3U"; str "#EXT-X-VERSION:" ++ Itoa (w_version w); str "#EXT-X-TARGETDURATION:" ++ Itoa (w_target w);
   str "#EXT-X-MEDIA-SEQUENCE:" ++ Itoa (w_sequence w); str "#EXT-X-DISCONTINUITY-SEQUENCE:" ++ Itoa (w_dsequence w)] ++
  concat (entry_lines <$> w_entries w) ++ (if w_end w then [str "#EXT-X-ENDLIST"] else []).
(** Each line ends in LF or in CR LF. *)
Fixpoint text (crlf : nat → bool) (i : nat) (ls : list (list Z)) : list Z :=
  match ls with [] => [] | l :: ls => l ++ (if crlf i then [13; 10] else [10]) ++ text crlf (S i) ls end.

Definition plain_text (u : list Z) : Prop := u ≠ [] ∧ Forall (λ c, ascii_mark c = true) u.
Record entry_ok (e : entry) : Prop := {
  eo_map : ∀ u, e_map e = Some u → plain_text u ∧ 34 ∉ u;
  eo_secs : 0 ≤ e_secs e ≤ maxPlaylistSeconds;
  eo_uri : plain_text (e_uri e) ∧ head (e_uri e) ≠ Some 35
}.
Record written_ok (w : written) : Prop := {
  wo_version : - 2 ^ 63 ≤ w_version w < 2 ^ 63;
  wo_target : 1 ≤ w_target w ≤ maxPlaylistSeconds;
  wo_sequence : 0 ≤ w_sequence w < 2 ^ 63;
  wo_dsequence : 0 ≤ w_dsequence w < 2 ^ 63;
  wo_entries : Forall entry_ok (w_entries w);
  wo_count : blen (w_entries w) ≤ MaxSegmentsPerPlaylist
}.

Section writing.
Context {U : NetURL} (base : option url).

(** What a parser should make of it: numbered from the sequence, the map sticky. *)
Definition init_of (cur : list Z) (e : entry) : list Z := match e_map e with Some u => resolveURI base u | None => cur end.
Fixpoint listed (seq : Z) (cur : list Z) (es : list entry) : list mediaSegment :=
  match es with
  | [] => []
  | e :: es =>
      mkSegment (resolveURI base (e_uri e)) (init_of cur e) seq (e_secs e * Second) (e_disc e) (e_gap e) :: listed (seq + 1) (init_of cur e) es
  end.
Definition listing (w : written) : mediaPlaylist :=
  mkPlaylist (w_version w) (w_target w * Second) (w_sequence w) (w_dsequence w) (w_end w) (listed (w_sequence w) [] (w_entries w)).

(** *** Lines *)
Definition line_ok (l : list Z) : Prop := (10 ∉ l) ∧ (13 ∉ l).

Lemma replace_crlf_line l r : 13 ∉ l → replace_crlf (l ++ r) = l ++ replace_crlf r.
Proof.
  induction l as [|c l IH]; [done|]. intros [H1 H2]%not_elem_of_cons. cbn [app replace_crlf].
  rewrite (proj2 (Z.eqb_neq c 13)) by congruence. cbn [andb]. by rewrite IH.
Qed.
Lemma split_text crlf ls : ∀ i, Forall line_ok ls → Split 10 (replace_crlf (text crlf i ls)) = ls ++ [[]].
Proof.
  induction ls as [|l ls IH]; intros i H; [done|]. apply Forall_cons_1 in H as [[H1 H2] H]. cbn [text]. rewrite replace_crlf_line by done.
  assert (E : replace_crlf ((if crlf i then [13; 10] else [10]) ++ text crlf (S i) ls) = 10 :: replace_crlf (text crlf (S i) ls)) by (by destruct (crlf i)).
  rewrite E, Split_app, IH by done. done.
Qed.

Lemma marks_line l : Forall (λ c, ascii_mark c = true) l → line_ok l.
Proof. intros H. rewrite Forall_forall in H. split; intros Hin%list_elem_of_In; by apply H in Hin. Qed.
Lemma marks_trim l : plain_text l → TrimSpace l = l.
Proof.
  intros [Hn H]. destruct l as [|c l]; [done|]. destruct (exists_last Hn) as (k & z & E). apply (TrimSpace_id _ c z).
  - done.
  - rewrite E. apply last_snoc.
  - by apply Forall_inv in H.
  - rewrite E in H. apply Forall_app in H as [_ H]. by apply Forall_inv in H.
Qed.
Lemma marks_app a b : plain_text a → Forall (λ c, ascii_mark c = true) b → plain_text (a ++ b).
Proof. intros [Hn Ha] Hb. split; [by destruct a|by apply Forall_app_2]. Qed.
Lemma marks_Itoa n : - 2 ^ 63 ≤ n < 2 ^ 63 → plain_text (Itoa n).
Proof.
  intros Hn. split.
  - destruct (Itoa_shape n Hn) as (ds & -> & Hne & _). by destruct (n <? 0), ds.
  - apply Forall_forall. intros c Hc%list_elem_of_In. apply Itoa_chars in Hc; [|done]. unfold is_digit in Hc. unfold ascii_mark. destruct Hc; zcase.
Qed.
Lemma marks_str s : forallb ascii_mark s = true → s ≠ [] → plain_text s.
Proof. intros H Hn. split; [done|]. by apply Forall_forall, forallb_forall. Qed.

Lemma parse_tag tag attr p : plain_text (tag ++ 58 :: attr) → head tag = Some 35 → 58 ∉ tag →
  parse_line base (tag ++ 58 :: attr) p = handleTag base tag attr p.
Proof.
  intros Hp Hh Hc. unfold parse_line. rewrite marks_trim by done. cbv zeta. destruct tag as [|c tag]; [done|]. injection Hh as ->.
  cbn [app]. rewrite Z.eqb_refl. cbn [negb]. change (35 :: tag ++ 58 :: attr) with ((35 :: tag) ++ 58 :: attr). by rewrite Cut_app.
Qed.
Lemma parse_flag tag p : plain_text tag → head tag = Some 35 → 58 ∉ tag → parse_line base tag p = handleTag base tag [] p.
Proof.
  intros Hp Hh Hc. unfold parse_line. rewrite marks_trim by done. cbv zeta. destruct tag as [|c tag]; [done|]. injection Hh as ->.
  rewrite Z.eqb_refl. cbn [negb]. by rewrite Cut_none.
Qed.
Lemma parse_uri u p : plain_text u → head u ≠ Some 35 → parse_line base u p = handleURI base u p.
Proof.
  intros Hp Hh. unfold parse_line. rewrite marks_trim by done. cbv zeta. destruct u as [|c u]; [by destruct Hp|].
  by rewrite (proj2 (Z.eqb_neq c 35)) by (cbn in Hh; congruence).
Qed.
Lemma parse_lines_app a b p : parse_lines base (a ++ b) p = (p ← parse_lines base a p; parse_lines base b p).
Proof. revert p. induction a as [|l a IH]; intros p; [done|]. cbn [app parse_lines]. destruct (parse_line base l p) as [q| |]; [|done..]. rewrite !bind_Ok. apply IH. Qed.

(** *** The map attribute *)
Lemma runes_ascii l : Forall (λ c, ascii_mark c = true) l → runes l = (λ c, [c]) <$> l.
Proof.
  unfold runes. induction 1 as [|c l Hc _ IH]; [done|]. cbn [length runes_from]. unfold rune.
  unfold ascii_mark in Hc. rewrite (proj2 (Z.ltb_lt c 0x80)) by (breflect; lia). cbn [fmap list_fmap]. by rewrite IH.
Qed.
Lemma split_runes_quoted u b rest : 34 ∉ u → split_runes true b (((λ c, [c]) <$> u) ++ rest) = split_runes true (b ++ u) rest.
Proof.
  revert b. induction u as [|c u IH]; intros b Hu; [by rewrite app_nil_r|]. apply not_elem_of_cons in Hu as [H1 H2]. cbn [fmap list_fmap app split_runes].
  rewrite bool_decide_eq_false_2 by congruence. rewrite andb_false_r. rewrite IH by done. by rewrite <- app_assoc.
Qed.
Lemma trim_left_id c l : head l ≠ Some c → trim_left c l = l.
Proof. destruct l as [|x l]; [done|]. cbn. intros H. by rewrite (proj2 (Z.eqb_neq x c)) by congruence. Qed.
Lemma Trim_quoted u : u ≠ [] → 34 ∉ u → Trim 34 ([34] ++ u ++ [34]) = u.
Proof.
  intros Hn Hu. unfold Trim. assert (E : trim_left 34 ([34] ++ u ++ [34]) = u ++ [34]).
  { cbn. destruct u as [|x u]; [done|]. apply not_elem_of_cons in Hu as [H1 _]. apply trim_left_id. cbn. congruence. }
  rewrite E, reverse_snoc. cbn. rewrite trim_left_id; [apply reverse_involutive|]. rewrite head_reverse. intros Hl. apply Hu.
  by apply last_Some_elem_of in Hl.
Qed.
Lemma map_attribute u : plain_text u → 34 ∉ u → splitAttrs (str "URI=" ++ [34] ++ u ++ [34]) = [str "URI=" ++ [34] ++ u ++ [34]].
Proof.
  intros [Hn Hm] Hu. unfold splitAttrs. rewrite runes_ascii.
  - rewrite !fmap_app. change (split_runes false [] (((λ c, [c]) <$> str "URI=") ++ ((λ c, [c]) <$> [34]) ++ ?r)) with (split_runes true (str "URI=" ++ [34]) r).
    rewrite split_runes_quoted by done. cbn [fmap list_fmap split_runes]. rewrite bool_decide_eq_true_2 by done. cbn [negb].
    rewrite (proj2 (Z.ltb_lt _ _)); [by rewrite <- !app_assoc|]. rewrite !blen_app. change (blen (str "URI=")) with 4. pose proof (blen_nonneg u). change (blen [34]) with 1. lia.
  - apply Forall_app_2; [by apply Forall_forall, forallb_forall|]. apply Forall_app_2; [by apply Forall_singleton|]. apply Forall_app_2; [done|by apply Forall_singleton].
Qed.
Lemma map_uri u : plain_text u → 34 ∉ u → lookupAttr [str "URI=" ++ [34] ++ u ++ [34]] (str "URI") = u.
Proof.
  intros Hp Hu. cbn [lookupAttr]. change (Cut 61 (str "URI=" ++ ?r)) with (Some (str "URI", r)). cbv beta iota.
  change (EqualFold (TrimSpace (str "URI")) (str "URI")) with true. cbv iota. rewrite marks_trim; [apply Trim_quoted; [apply Hp|done]|].
  split; [done|]. apply Forall_app_2; [by apply Forall_singleton|]. apply Forall_app_2; [apply Hp|by apply Forall_singleton].
Qed.
Lemma map_range u : plain_text u → 34 ∉ u → lookupAttr [str "URI=" ++ [34] ++ u ++ [34]] (str "BYTERANGE") = [].
Proof. intros Hp Hu. cbn [lookupAttr]. by change (Cut 61 (str "URI=" ++ ?r)) with (Some (str "URI", r)). Qed.

(** *** Tags *)
Lemma tag_map u p : plain_text u → 34 ∉ u → parse_line base (map_line u) p = Ok (set_init (resolveURI base u) (set_kind true false p)).
Proof.
  intros Hp Hu. unfold map_line. change (str "#EXT-X-MAP:URI=" ++ ?r) with (str "#EXT-X-MAP" ++ 58 :: str "URI=" ++ r). rewrite parse_tag.
  - unfold handleTag. cbv zeta. rewrite map_attribute, map_range, map_uri by done. destruct Hp as [Hn _].
    change (handleTag base (str "#EXT-X-MAP")) with (handleTag base (str "#EXT-X-MAP")).
    repeat (rewrite bool_decide_eq_false_2 by (vm_compute; discriminate)). rewrite bool_decide_eq_true_2 by done. cbn [negb].
    rewrite bool_decide_eq_true_2 by done. cbn [negb]. by rewrite bool_decide_eq_false_2.
  - apply marks_app; [by apply marks_str|]. constructor; [done|]. apply Forall_app_2; [by apply Forall_forall, forallb_forall|].
    apply Forall_app_2; [by apply Forall_singleton|]. apply Forall_app_2; [apply Hp|by apply Forall_singleton].
  - done.
  - by apply not_in.
Qed.
Lemma tag_extinf n p : 0 ≤ n ≤ maxPlaylistSeconds →
  parse_line base (str "#EXTINF:" ++ Itoa n ++ [44]) p = Ok (set_pending true (n * Second) (pendDisc p) (pendGap p) (set_kind true false p)).
Proof.
  intros Hn. unfold maxPlaylistSeconds in Hn. change (str "#EXTINF:" ++ ?r) with (str "#EXTINF" ++ 58 :: r). rewrite parse_tag.
  - assert (E : ∀ a, handleTag base (str "#EXTINF") a p = (dur ← parseExtinf a; mret (set_pending true dur (pendDisc p) (pendGap p) (set_kind true false p)))) by (intros a; reflexivity).
    by rewrite E, parseExtinf_whole by (unfold maxPlaylistSeconds; lia).
  - apply marks_app; [by apply marks_str|]. constructor; [done|]. apply Forall_app_2; [apply marks_Itoa; lia|by apply Forall_singleton].
  - done.
  - by apply not_in.
Qed.
Lemma tag_discontinuity p : parse_line base (str "#EXT-X-DISCONTINUITY") p = Ok (set_pending (pendExtinf p) (pendDur p) true (pendGap p) p).
Proof. rewrite parse_flag; [reflexivity|by apply marks_str|done|by apply not_in]. Qed.
Lemma tag_gap p : parse_line base (str "#EXT-X-GAP") p = Ok (set_pending (pendExtinf p) (pendDur p) (pendDisc p) true p).
Proof. rewrite parse_flag; [reflexivity|by apply marks_str|done|by apply not_in]. Qed.
Lemma tag_end p : parse_line base (str "#EXT-X-ENDLIST") p = Ok (set_media (set_end (media p)) (set_kind true false p)).
Proof. rewrite parse_flag; [reflexivity|by apply marks_str|done|by apply not_in]. Qed.

(** Between two entries of a media playlist. *)
Definition between_entries (m : mediaPlaylist) (cur : list Z) (dur : Z) (md : bool) : playlistParser :=
  mkParser m (mkMaster [] []) md false true false dur false false None cur.
Definition with_segments (l : list mediaSegment) (m : mediaPlaylist) : mediaPlaylist :=
  mkPlaylist (version m) (targetDuration m) (mediaSequence m) (discontinuitySequence m) (endList m) (segments m ++ l).

Lemma parse_entry e m cur dur md : entry_ok e → 0 ≤ mediaSequence m < 2 ^ 63 → blen (segments m) < MaxSegmentsPerPlaylist →
  parse_lines base (entry_lines e) (between_entries m cur dur md) =
  Ok (between_entries (add_segment (mkSegment (resolveURI base (e_uri e)) (init_of cur e) (mediaSequence m + blen (segments m)) (e_secs e * Second) (e_disc e) (e_gap e)) m)
    (init_of cur e) (e_secs e * Second) true).
Proof.
  intros [Hm Hs [Hu Hu35]] Hseq Hn. unfold entry_lines.
  set (cur' := init_of cur e).
  assert (E1 : ∃ md', parse_lines base (match e_map e with Some u => [map_line u] | None => [] end) (between_entries m cur dur md) = Ok (between_entries m cur' dur md')).
  { unfold cur', init_of. destruct (e_map e) as [u|]; [|by exists md]. destruct (Hm u eq_refl) as [Hp Hq]. exists true. cbn [parse_lines].
    rewrite tag_map by done. rewrite bind_Ok. unfold between_entries, set_init, set_kind. cbn. by rewrite orb_true_r. }
  destruct E1 as (md' & E1). rewrite parse_lines_app, E1, bind_Ok, parse_lines_app.
  assert (E2 : parse_lines base (if e_disc e then [str "#EXT-X-DISCONTINUITY"] else []) (between_entries m cur' dur md') =
    Ok (set_pending false dur (e_disc e) false (between_entries m cur' dur md'))).
  { destruct (e_disc e); [|done]. cbn [parse_lines]. by rewrite tag_discontinuity. }
  rewrite E2, bind_Ok, parse_lines_app.
  assert (E3 : parse_lines base (if e_gap e then [str "#EXT-X-GAP"] else []) (set_pending false dur (e_disc e) false (between_entries m cur' dur md')) =
    Ok (set_pending false dur (e_disc e) (e_gap e) (between_entries m cur' dur md'))).
  { destruct (e_gap e); [|done]. cbn [parse_lines]. by rewrite tag_gap. }
  rewrite E3, bind_Ok. cbn [parse_lines]. rewrite tag_extinf, bind_Ok by done. rewrite parse_uri by done. unfold handleURI. cbn [pendVariant pendExtinf set_pending set_kind between_entries media].
  cbv zeta. rewrite (proj2 (Z.leb_gt _ _)) by done. rewrite bind_ret. pose proof (blen_nonneg (segments m)).
  assert (Eq : u64 (mediaSequence m + blen (segments m)) = mediaSequence m + blen (segments m)) by (apply u64_small; unfold is_u64, MaxSegmentsPerPlaylist in *; lia).
  unfold set_pending, set_kind, set_media, between_entries. cbn. rewrite Eq, orb_true_r. done.
Qed.

Lemma parse_entries es : ∀ m cur dur md, Forall entry_ok es → 0 ≤ mediaSequence m < 2 ^ 63 → blen (segments m) + blen es ≤ MaxSegmentsPerPlaylist →
  ∃ cur' dur' md', parse_lines base (concat (entry_lines <$> es)) (between_entries m cur dur md) =
    Ok (between_entries (with_segments (listed (mediaSequence m + blen (segments m)) cur es) m) cur' dur' (md || md')).
Proof.
  induction es as [|e es IH]; intros m cur dur md He Hs Hn.
  - exists cur, dur, false. cbn. rewrite orb_false_r. unfold with_segments. rewrite app_nil_r. by destruct m.
  - apply Forall_cons_1 in He as [He Hes]. rewrite blen_cons in Hn. pose proof (blen_nonneg es). cbn [fmap list_fmap concat]. rewrite parse_lines_app.
    rewrite parse_entry by (done || lia). rewrite bind_Ok. set (s := mkSegment _ _ _ _ _ _).
    destruct (IH (add_segment s m) (init_of cur e) (e_secs e * Second) true Hes) as (cur' & dur' & md' & E); [done| |].
    { cbn. rewrite blen_app. change (blen [s]) with 1. lia. }
    exists cur', dur', true. rewrite E. unfold with_segments, add_segment. cbn. rewrite orb_true_r. do 3 f_equal. rewrite <- app_assoc. cbn.
    rewrite blen_app. change (blen [s]) with 1. by rewrite Z.add_assoc.
Qed.

Lemma atoi_value_Atoi s n : Atoi s = Some n → atoi_value s = n.
Proof.
  unfold Atoi, atoi_value. destruct (match s with [] => _ | _ => _ end) as [neg ds]. destruct ds as [|c ds]; [done|].
  destruct (digits 0 (c :: ds)) as [v|]; [|done]. destruct (_ && _) eqn:E; [|done]. intros [= <-]. breflect. destruct neg; lia.
Qed.
Lemma ParseUint64_Itoa n : 0 ≤ n < 2 ^ 63 → ParseUint64 (Itoa n) = Some n.
Proof.
  intros Hn. destruct (Itoa_shape n ltac:(lia)) as (ds & -> & Hne & _ & Hv). rewrite (proj2 (Z.ltb_ge n 0)) by lia. cbn [app].
  unfold ParseUint64. destruct ds; [done|]. rewrite Hv, Z.abs_eq by lia. by rewrite (proj2 (Z.ltb_lt _ _)) by lia.
Qed.
Lemma numbered tag n p : plain_text tag → head tag = Some 35 → 58 ∉ tag → - 2 ^ 63 ≤ n < 2 ^ 63 →
  parse_line base (tag ++ 58 :: Itoa n) p = handleTag base tag (Itoa n) p.
Proof. intros Ht Hh Hc Hn. apply parse_tag; [|done|done]. apply marks_app; [done|]. constructor; [done|by apply marks_Itoa]. Qed.

Lemma parse_head w : written_ok w →
  parse_lines base [str "#EXT-X-VERSION:" ++ Itoa (w_version w); str "#EXT-X-TARGETDURATION:" ++ Itoa (w_target w);
    str "#EXT-X-MEDIA-SEQUENCE:" ++ Itoa (w_sequence w); str "#EXT-X-DISCONTINUITY-SEQUENCE:" ++ Itoa (w_dsequence w)] new_parser =
  Ok (between_entries (mkPlaylist (w_version w) (w_target w * Second) (w_sequence w) (w_dsequence w) false []) [] 0 true).
Proof.
  intros [Hv Ht Hs Hd _ _]. unfold maxPlaylistSeconds in Ht. cbn [parse_lines].
  change (str "#EXT-X-VERSION:" ++ ?r) with (str "#EXT-X-VERSION" ++ 58 :: r). change (str "#EXT-X-TARGETDURATION:" ++ ?r) with (str "#EXT-X-TARGETDURATION" ++ 58 :: r).
  change (str "#EXT-X-MEDIA-SEQUENCE:" ++ ?r) with (str "#EXT-X-MEDIA-SEQUENCE" ++ 58 :: r).
  change (str "#EXT-X-DISCONTINUITY-SEQUENCE:" ++ ?r) with (str "#EXT-X-DISCONTINUITY-SEQUENCE" ++ 58 :: r).
  rewrite numbered by (done || by apply marks_str || by apply not_in).
  assert (E1 : ∀ a p, handleTag base (str "#EXT-X-VERSION") a p = mret (set_media (set_version (atoi_value (TrimSpace a)) (media p)) p)) by (intros; reflexivity).
  rewrite E1, bind_ret, TrimSpace_Itoa, (atoi_value_Atoi _ (w_version w)) by (done || by apply Atoi_Itoa).
  rewrite numbered by (lia || done || by apply marks_str || by apply not_in).
  assert (E2 : ∀ a p, handleTag base (str "#EXT-X-TARGETDURATION") a p =
    match Atoi (TrimSpace a) with None => Err ErrMalformedPlaylist | Some secs => if (secs <=? 0) || (maxPlaylistSeconds <? secs) then Err ErrMalformedPlaylist
      else mret (set_tgt (set_media (set_target (secs * Second) (media p)) (set_kind true false p))) end) by (intros; reflexivity).
  rewrite E2, TrimSpace_Itoa, Atoi_Itoa by lia. unfold maxPlaylistSeconds. rewrite (proj2 (Z.leb_gt _ _)), (proj2 (Z.ltb_ge _ _)) by lia. cbn [orb]. rewrite bind_ret.
  rewrite numbered by (lia || done || by apply marks_str || by apply not_in).
  assert (E3 : ∀ a p, handleTag base (str "#EXT-X-MEDIA-SEQUENCE") a p =
    match ParseUint64 (TrimSpace a) with None => Err ErrMalformedPlaylist | Some s => if 2 ^ 64 - 1 - (MaxSegmentsPerPlaylist - 1) <? s then Err ErrMalformedPlaylist
      else mret (set_media (set_sequence s (media p)) p) end) by (intros; reflexivity).
  rewrite E3, TrimSpace_Itoa, ParseUint64_Itoa by lia. unfold MaxSegmentsPerPlaylist. rewrite (proj2 (Z.ltb_ge _ (w_sequence w))) by lia. rewrite bind_ret.
  rewrite numbered by (lia || done || by apply marks_str || by apply not_in).
  assert (E4 : ∀ a p, handleTag base (str "#EXT-X-DISCONTINUITY-SEQUENCE") a p =
    match ParseUint64 (TrimSpace a) with None => Err ErrMalformedPlaylist | Some s => mret (set_media (set_dsequence s (media p)) p) end) by (intros; reflexivity).
  rewrite E4, TrimSpace_Itoa, ParseUint64_Itoa by lia. by rewrite bind_ret.
Qed.

Lemma entry_lines_ok e : entry_ok e → Forall line_ok (entry_lines e).
Proof.
  intros [Hm Hs [Hu _]]. unfold maxPlaylistSeconds in Hs. unfold entry_lines. apply Forall_app_2; [|apply Forall_app_2; [|apply Forall_app_2]].
  - destruct (e_map e) as [u|]; [|constructor]. destruct (Hm u eq_refl) as [[_ Hp] _]. apply Forall_singleton, marks_line. unfold map_line.
    apply Forall_app_2; [by apply Forall_forall, forallb_forall|]. apply Forall_app_2; [by apply Forall_singleton|]. apply Forall_app_2; [done|by apply Forall_singleton].
  - destruct (e_disc e); [|constructor]. apply Forall_singleton, marks_line. by apply Forall_forall, forallb_forall.
  - destruct (e_gap e); [|constructor]. apply Forall_singleton, marks_line. by apply Forall_forall, forallb_forall.
  - apply Forall_cons_2; [|apply Forall_singleton, marks_line, Hu]. apply marks_line. apply Forall_app_2; [by apply Forall_forall, forallb_forall|].
    apply Forall_app_2; [apply marks_Itoa; lia|by apply Forall_singleton].
Qed.
Lemma numbered_line tag n : forallb ascii_mark tag = true → - 2 ^ 63 ≤ n < 2 ^ 63 → line_ok (tag ++ Itoa n).
Proof. intros Ht Hn. apply marks_line, Forall_app_2; [by apply Forall_forall, forallb_forall|by apply marks_Itoa]. Qed.
Lemma playlist_lines_ok w : written_ok w → Forall line_ok (playlist_lines w).
Proof.
  intros [Hv Ht Hs Hd He _]. unfold maxPlaylistSeconds in Ht. unfold playlist_lines. apply Forall_app_2.
  - apply Forall_cons_2; [by apply marks_line, Forall_forall, forallb_forall|].
    repeat (apply Forall_cons_2; [apply numbered_line; [done|lia]|]). constructor.
  - apply Forall_app_2.
    + apply Forall_concat, Forall_fmap. eapply Forall_impl; [|exact He]. intros e. apply entry_lines_ok.
    + destruct (w_end w); [|constructor]. apply Forall_singleton. by apply marks_line, Forall_forall, forallb_forall.
Qed.

Lemma parse_text crlf w tail : written_ok w → tail = [] ∨ tail = [0xEF; 0xBB; 0xBF] →
  parsePlaylist base (tail ++ text crlf 0 (playlist_lines w)) = Ok (Media (listing w)).
Proof.
  intros Hw Hb. unfold parsePlaylist, splitLines.
  assert (Eb : TrimPrefix (tail ++ text crlf 0 (playlist_lines w)) [0xEF; 0xBB; 0xBF] = text crlf 0 (playlist_lines w)).
  { destruct Hb as [-> | ->]; [|by unfold TrimPrefix; rewrite cut_prefix_app]. done. }
  rewrite Eb, split_text by (by apply playlist_lines_ok). unfold playlist_lines at 1. cbn [app].
  change (bool_decide (TrimSpace (str "#EXTM3U") = str "#EXTM3U")) with true. cbv iota.
  match goal with |- context [parse_lines base ?l new_parser] =>
    change l with (([str "#EXT-X-VERSION:" ++ Itoa (w_version w); str "#EXT-X-TARGETDURATION:" ++ Itoa (w_target w);
      str "#EXT-X-MEDIA-SEQUENCE:" ++ Itoa (w_sequence w); str "#EXT-X-DISCONTINUITY-SEQUENCE:" ++ Itoa (w_dsequence w)] ++
      (concat (entry_lines <$> w_entries w) ++ (if w_end w then [str "#EXT-X-ENDLIST"] else []))) ++ [[]]) end.
  rewrite !parse_lines_app, parse_head, bind_Ok by done.
  pose proof Hw as [Hv Ht Hs Hd He Hn]. set (m0 := mkPlaylist _ _ _ _ _ _).
  destruct (parse_entries (w_entries w) m0 [] 0 true He) as (cur & dur & md & E); [done|cbn; change (blen []) with 0; lia|].
  rewrite parse_lines_app, E, bind_Ok. cbn [orb]. change (mediaSequence m0 + blen (segments m0)) with (w_sequence w + 0). rewrite Z.add_0_r.
  destruct (w_end w) eqn:Ee.
  - cbn [parse_lines]. rewrite tag_end. unfold listing. by rewrite Ee.
  - unfold listing. by rewrite Ee.
Qed.
End writing.

(** *** The rendition that is played *)
Lemma lowest_is v vs : let l := foldl lower_bandwidth v vs in l ∈ v :: vs ∧ Forall (λ v', bandwidth l ≤ bandwidth v') (v :: vs).
Proof.
  cbv zeta. revert v. induction vs as [|x vs IH]; intros v; [split; [by left|by apply Forall_singleton]|]. cbn [foldl].
  destruct (IH (lower_bandwidth v x)) as [H1 H2]. set (l := foldl _ _ _) in *. clearbody l. apply Forall_cons_1 in H2 as [H2 H3].
  unfold lower_bandwidth in H1, H2. destruct (Z.ltb_spec (bandwidth x) (bandwidth v)).
  - split; [by right|]. apply Forall_cons_2; [lia|by apply Forall_cons_2].
  - split; [apply list_elem_of_In in H1; apply list_elem_of_In; destruct H1 as [->|H1]; [by left|right; by right]|].
    apply Forall_cons_2; [done|]. apply Forall_cons_2; [lia|done].
Qed.
Definition in_group (group : list Z) (r : rendition) : Prop := group = [] ∨ groupID r = group.
Lemma pick_from_spec rs group first r : pick_from rs group first = Some r →
  (r ∈ rs ∧ in_group group r ∧ (isDefault r = true ∨ Forall (λ x, in_group group x → isDefault x = false) rs)) ∨
  (first = Some r ∧ Forall (λ x, in_group group x → isDefault x = false) rs).
Proof.
  revert first. induction rs as [|x rs IH]; intros first; cbn [pick_from]; [intros ->; by right|].
  destruct (bool_decide_reflect (group = [])) as [Eg|Eg], (bool_decide_reflect (groupID x = group)) as [Ei|Ei]; cbn [negb andb].
  all: try (assert (Hin : in_group group x) by (unfold in_group; tauto); destruct (isDefault x) eqn:Ed;
    [intros [= ->]; left; split; [by left|]; split; [done|by left]|];
    intros [(H1 & H2 & H3)|[H1 H2]]%IH;
    [left; split; [by right|]; split; [done|]; destruct H3 as [H3|H3]; [by left|right; by constructor]|];
    destruct first as [f|]; [right; split; [done|by constructor]|];
    injection H1 as ->; left; split; [by left|]; split; [done|]; right; by constructor).
  intros [(H1 & H2 & H3)|[H1 H2]]%IH.
  - left. split; [by right|]. split; [done|]. destruct H3 as [H3|H3]; [by left|right; constructor; [|done]]. unfold in_group. tauto.
  - right. split; [done|]. constructor; [|done]. unfold in_group. tauto.
Qed.

(** Whom the choice falls on: an audio rendition of the lowest variant's group, a default one if the group
    has one, or that variant itself. *)
Definition chosen (m : masterPlaylist) (u : list Z) : Prop :=
  u ≠ [] ∧
  ((∃ r, r ∈ audio m ∧ u = r_uri r ∧
      (variants m = [] ∨ ∃ v, v ∈ variants m ∧ Forall (λ v', bandwidth v ≤ bandwidth v') (variants m) ∧ groupID r = audioGroup v ∧
        (isDefault r = true ∨ Forall (λ x, groupID x = audioGroup v → isDefault x = false) (audio m)))) ∨
   (∃ v, v ∈ variants m ∧ u = v_uri v ∧ Forall (λ v', bandwidth v ≤ bandwidth v') (variants m))).
Lemma selectMediaURL_chosen m : returns (selectMediaURL m) (chosen m).
Proof.
  unfold selectMediaURL. destruct (variants m) as [|v vs] eqn:Ev; cbv zeta.
  - destruct (pickAudio (audio m) []) as [r|] eqn:Ep; [|done]. cbn [rendition_uri]. destruct (bool_decide_reflect (r_uri r = [])); [done|]. cbn.
    split; [done|]. left. exists r. apply pick_from_spec in Ep as [(H & _)|[H _]]; [|done]. rewrite Ev. auto.
  - destruct (lowest_is v vs) as [H1 H2]. set (l := foldl _ _ _) in *. clearbody l. rewrite <- Ev in H1, H2.
    destruct (bool_decide_reflect (audioGroup l = [])) as [Ea|Ea]; cbn [negb].
    + rewrite bool_decide_eq_true_2 by done. cbn [negb]. destruct (bool_decide_reflect (v_uri l = [])); [done|]. split; [done|]. right. by exists l.
    + destruct (pickAudio (audio m) (audioGroup l)) as [r|] eqn:Ep; cbn [rendition_uri].
      * destruct (bool_decide_reflect (r_uri r = [])) as [|Hu]; cbn [negb].
        { destruct (bool_decide_reflect (v_uri l = [])); [done|]. split; [done|]. right. by exists l. }
        split; [done|]. left. exists r. apply pick_from_spec in Ep as [(Hr & Hg & Hd)|[Hr _]]; [|done]. split; [done|]. split; [done|]. right. exists l.
        split; [done|]. split; [done|]. destruct Hg as [Hg|Hg]; [done|]. split; [done|]. destruct Hd as [Hd|Hd]; [by left|]. right.
        eapply Forall_impl; [|exact Hd]. intros x Hx E. apply Hx. by right.
      * rewrite bool_decide_eq_true_2 by done. cbn [negb]. destruct (bool_decide_reflect (v_uri l = [])); [done|]. split; [done|]. right. by exists l.
Qed.

(** ** Properties *)

(** C9: a written playlist is read back.  A media playlist of at most 131072 segments, each with its
    discontinuity, gap and map tags, whole-second durations of up to a day and URIs of printable
    ASCII, written with any mix of LF and CR LF and with or without a byte order mark, parses to exactly its
    segments in order: numbered consecutively from the media sequence, their durations in
    nanoseconds, every URI resolved, and each map in effect until the next. *)
Theorem playlist_roundtrip {U : NetURL} base crlf w bom : written_ok w → bom = [] ∨ bom = [0xEF; 0xBB; 0xBF] →
  parsePlaylist base (bom ++ text crlf 0 (playlist_lines w)) = Ok (Media (listing base w)).
Proof. apply parse_text. Qed.

Definition sample_written : written :=
  mkWritten 6 10 (2 ^ 40) 3
    [mkEntry (Some (str "init.mp4")) false false 9 (str "http://cdn/a.m4s?x=1,2"); mkEntry None true true 6 (str "http://cdn/b.m4s");
     mkEntry (Some (str "http://cdn/i2.mp4")) false false 86400 (str "http://cdn/c.m4s")] true.
Lemma entry_by (m : option string) disc g n (u : string) :
  match m with Some m => forallb ascii_mark (str m) && negb (bool_decide (str m = [])) && negb (existsb (Z.eqb 34) (str m)) | None => true end = true →
  (0 <=? n) && (n <=? maxPlaylistSeconds) = true → forallb ascii_mark (str u) && negb (bool_decide (str u = [])) && negb (bool_decide (head (str u) = Some 35)) = true →
  entry_ok (mkEntry (str <$> m) disc g n (str u)).
Proof.
  intros Hm [H1%Z.leb_le H2%Z.leb_le]%andb_prop [[H3 H4%negb_true_iff%bool_decide_eq_false]%andb_prop H5%negb_true_iff%bool_decide_eq_false]%andb_prop.
  split; cbn; [|done|by split; [apply marks_str|]]. intros x Hx. destruct m as [m|]; [|done]. injection Hx as <-.
  apply andb_prop in Hm as [[H6 H7%negb_true_iff%bool_decide_eq_false]%andb_prop H8%negb_true_iff]. split; [by apply marks_str|by apply not_in].
Qed.
Lemma sample_written_ok : written_ok sample_written.
Proof.
  split; cbn [sample_written w_version w_target w_sequence w_dsequence w_entries]; [lia|unfold maxPlaylistSeconds; lia|lia|lia| |vm_compute; discriminate].
  apply Forall_cons_2; [by apply (entry_by (Some "init.mp4"%string)); vm_compute|].
  apply Forall_cons_2; [by apply (entry_by None); vm_compute|].
  apply Forall_cons_2; [by apply (entry_by (Some "http://cdn/i2.mp4"%string)); vm_compute|constructor].
Qed.
Lemma playlist_roundtrip_witness : written_ok sample_written ∧
  @parsePlaylist controlurl.textual None ([0xEF; 0xBB; 0xBF] ++ text Nat.even 0 (playlist_lines sample_written)) = Ok (Media (@listing controlurl.textual None sample_written)) ∧
  (λ s, (seq s, duration s, gap s)) <$> segments (@listing controlurl.textual None sample_written) =
    [(2 ^ 40, 9000000000, false); (2 ^ 40 + 1, 6000000000, true); (2 ^ 40 + 2, 86400000000000, false)].
Proof.
  split; [exact sample_written_ok|]. split; [|vm_compute; reflexivity].
  apply (@playlist_roundtrip controlurl.textual None Nat.even sample_written [0xEF; 0xBB; 0xBF] sample_written_ok). right. reflexivity.
Defined.

(** What the network calls a playlist cannot overflow.  Whatever octets the body holds, parsing returns; a
    media playlist it returns has at most 131072 segments, a target duration between a second and a
    day, segment durations below three days, also when the header's decimal fraction, exponent or
    hexadecimal form is rounded, and sequence numbers that never wrap.  From a master playlist, the URL chosen is a
    non-empty one that it lists: the variant of lowest bandwidth or an audio rendition of its group, a
    default one if there is any. *)
Theorem parsed_playlist_bounded {U : NetURL} base body :
  match parsePlaylist base body with
  | Ok (Media m) => playlist_ok m ∧ target_ok m
  | Ok (Master m) => match selectMediaURL m with Ok u => chosen m u | Err _ => True | Panic => False end
  | Err _ => True
  | Panic => False
  end.
Proof.
  pose proof (parsePlaylist_ok base body) as H. destruct (parsePlaylist base body) as [[m|m]|e|]; [done| |done|done].
  pose proof (selectMediaURL_chosen m) as Hm. destruct (selectMediaURL m) as [u|e|]; [done|done|done].
Qed.

End playlist.
