(* ===== verification/Effect.v ===== *)
(** * Computations with a state, effects and errors

    The shape of a method that changes its receiver, calls out, and may fail: from a state to a
    state, the effects in order, and a value or an error; an error keeps the state and the
    effects made so far.  [run] is its Hoare judgement. *)
From S2P Require Import Prelude.

Section effect.
Context {S W E : Type}.

Definition eff (A : Type) : Type := S → S * list W * res E A.
#[export] Instance eff_ret : MRet eff := λ A a s, (s, [], Ok a).
#[export] Instance eff_bind : MBind eff := λ A B f m s,
  match m s with
  | (s, out, Ok a) => let '(s, out', r) := f a s in (s, out ++ out', r)
  | (s, out, Err x) => (s, out, Err x)
  | (s, out, Panic) => (s, out, Panic)
  end.
Definition get_ : eff S := λ s, (s, [], Ok s).
Definition upd_ (f : S → S) : eff unit := λ s, (f s, [], Ok tt).
Definition emit_ (l : list W) : eff unit := λ s, (s, l, Ok tt).
Definition throw_ {A} (x : E) : eff A := λ s, (s, [], Err x).
Definition panic_ {A} : eff A := λ s, (s, [], Panic).
(** The outcome of a computation as a value. *)
Definition try_ {A} (m : eff A) : eff (res E A) := λ s,
  match m s with (s, out, Panic) => (s, out, Panic) | (s, out, r) => (s, out, Ok r) end.
Definition of_res_ {A} (m : res E A) : eff A := λ s, (s, [], m).

(** [m] does not panic; its end is described by [Q], an error by [R]. *)
Definition run {A} (m : eff A) (s : S) (Q : A → S → list W → Prop) (R : E → S → list W → Prop) : Prop :=
  match m s with
  | (s', out, Ok a) => Q a s' out
  | (s', out, Err x) => R x s' out
  | (_, _, Panic) => False
  end.

Lemma run_weaken {A} (m : eff A) s (Q Q' : A → S → list W → Prop) (R R' : E → S → list W → Prop) : run m s Q R →
  (∀ a s' out, Q a s' out → Q' a s' out) → (∀ x s' out, R x s' out → R' x s' out) → run m s Q' R'.
Proof. unfold run. destruct (m s) as [[s' out] [a|x|]]; auto. Qed.
Lemma run_ret {A} (a : A) s (Q : A → S → list W → Prop) R : Q a s [] → run (mret a) s Q R.
Proof. done. Qed.
Lemma run_bind {A B} (m : eff A) (f : A → eff B) s (Q : B → S → list W → Prop) (R : E → S → list W → Prop) :
  run m s (λ a s1 o1, run (f a) s1 (λ b s2 o2, Q b s2 (o1 ++ o2)) (λ x s2 o2, R x s2 (o1 ++ o2))) R → run (m ≫= f) s Q R.
Proof.
  unfold run, mbind, eff_bind. destruct (m s) as [[s1 o1] [a|x|]]; [|done|done]. by destruct (f a s1) as [[s2 o2] [b|x|]].
Qed.
Lemma run_get s (Q : S → S → list W → Prop) R : Q s s [] → run get_ s Q R.
Proof. done. Qed.
Lemma run_upd f s (Q : unit → S → list W → Prop) R : Q tt (f s) [] → run (upd_ f) s Q R.
Proof. done. Qed.
Lemma run_emit l s (Q : unit → S → list W → Prop) R : Q tt s l → run (emit_ l) s Q R.
Proof. done. Qed.
Lemma run_throw {A} x s (Q : A → S → list W → Prop) (R : E → S → list W → Prop) : R x s [] → run (throw_ x) s Q R.
Proof. done. Qed.
Lemma run_res {A} (m : res E A) s (Q : A → S → list W → Prop) (R : E → S → list W → Prop) :
  match m with Ok a => Q a s [] | Err x => R x s [] | Panic => False end → run (of_res_ m) s Q R.
Proof. by destruct m. Qed.
Lemma run_try {A} (m : eff A) s (Q : res E A → S → list W → Prop) R :
  run m s (λ a s' out, Q (Ok a) s' out) (λ x s' out, Q (Err x) s' out) → run (try_ m) s Q R.
Proof. unfold run, try_. by destruct (m s) as [[s' out] [a|x|]]. Qed.

(** An invariant of the state and of the effects, whatever the outcome. *)
Section keeps.
Context (I : S → Prop) (P : W → Prop).
Definition keeps {A} (m : eff A) (Q : A → S → Prop) : Prop :=
  ∀ s, I s → run m s (λ a s' out, I s' ∧ Forall P out ∧ Q a s') (λ x s' out, I s' ∧ Forall P out).
Lemma keeps_weaken {A} (m : eff A) (Q Q' : A → S → Prop) : keeps m Q → (∀ a s, I s → Q a s → Q' a s) → keeps m Q'.
Proof. intros H HQ s Hs. eapply run_weaken; [exact (H s Hs)| |done]. intros a s' out (H1 & H2 & H3). auto. Qed.
Lemma keeps_ret {A} (a : A) (Q : A → S → Prop) : (∀ s, I s → Q a s) → keeps (mret a) Q.
Proof. intros H s Hs. split; [done|]. split; [constructor|auto]. Qed.
Lemma keeps_throw {A} x (Q : A → S → Prop) : keeps (throw_ x) Q.
Proof. intros s Hs. split; [done|constructor]. Qed.
Lemma keeps_bind {A B} (m : eff A) (f : A → eff B) (Q : A → S → Prop) (Q' : B → S → Prop) :
  keeps m Q → (∀ a s1, I s1 → Q a s1 → run (f a) s1 (λ b s' out, I s' ∧ Forall P out ∧ Q' b s') (λ x s' out, I s' ∧ Forall P out)) → keeps (m ≫= f) Q'.
Proof.
  intros Hm Hf s Hs. apply run_bind. eapply run_weaken; [exact (Hm s Hs)| |done]. intros a s1 o1 (H1 & H2 & H3).
  eapply run_weaken; [exact (Hf a s1 H1 H3)|..].
  - intros b s2 o2 (H4 & H5 & H6). split; [done|]. split; [by apply Forall_app_2|done].
  - intros x s2 o2 (H4 & H5). split; [done|by apply Forall_app_2].
Qed.
(** The same when the value is all that matters of the first part. *)
Lemma keeps_seq {A B} (m : eff A) (f : A → eff B) (Q : A → Prop) (Q' : B → S → Prop) :
  keeps m (λ a _, Q a) → (∀ a, Q a → keeps (f a) Q') → keeps (m ≫= f) Q'.
Proof. intros Hm Hf. eapply keeps_bind; [exact Hm|]. intros a s1 Hs Ha. by apply Hf. Qed.
Lemma keeps_get : keeps get_ (λ a s, a = s ∧ I a).
Proof. intros s Hs. split; [done|]. split; [constructor|done]. Qed.
Lemma keeps_upd f (Q : unit → S → Prop) : (∀ s, I s → I (f s) ∧ Q tt (f s)) → keeps (upd_ f) Q.
Proof. intros H s Hs. destruct (H s Hs). split; [done|]. split; [constructor|done]. Qed.
Lemma keeps_emit l (Q : unit → S → Prop) : Forall P l → (∀ s, I s → Q tt s) → keeps (emit_ l) Q.
Proof. intros Hl HQ s Hs. split; [done|]. split; [done|auto]. Qed.
Lemma keeps_res {A} (m : res E A) (Q : A → S → Prop) : m ≠ Panic → (∀ a s, m = Ok a → I s → Q a s) → keeps (of_res_ m) Q.
Proof. intros Hp HQ s Hs. apply run_res. destruct m; [|by split|done]. split; [done|]. split; [constructor|auto]. Qed.
Lemma keeps_try {A} (m : eff A) (Q : A → S → Prop) : keeps m Q → keeps (try_ m) (λ r s, match r with Ok a => Q a s | _ => True end).
Proof.
  intros Hm s Hs. apply run_try. eapply run_weaken; [exact (Hm s Hs)|done|]. intros x s' out (H1 & H2). done.
Qed.
End keeps.

(** Two computations that cannot be told apart by what [p] shows of the state and [q] of the effects. *)
Section agrees.
Context (p : S → S) (q : W → W).
Definition agrees {A} (m1 m2 : eff A) : Prop :=
  ∀ s1 s2, p s1 = p s2 → let '(s1', o1, r1) := m1 s1 in let '(s2', o2, r2) := m2 s2 in p s1' = p s2' ∧ q <$> o1 = q <$> o2 ∧ r1 = r2.
Lemma agrees_ret {A} (a : A) : agrees (mret a) (mret a).
Proof. by intros s1 s2 H. Qed.
Lemma agrees_panic {A} : agrees (@panic_ A) panic_.
Proof. by intros s1 s2 H. Qed.
Lemma agrees_res {A} (m : res E A) : agrees (of_res_ m) (of_res_ m).
Proof. by intros s1 s2 H. Qed.
Lemma agrees_emit l1 l2 : q <$> l1 = q <$> l2 → agrees (emit_ l1) (emit_ l2).
Proof. by intros Hl s1 s2 H. Qed.
Lemma agrees_bind {A B} (m1 m2 : eff A) (f1 f2 : A → eff B) : agrees m1 m2 → (∀ a, agrees (f1 a) (f2 a)) → agrees (m1 ≫= f1) (m2 ≫= f2).
Proof.
  intros Hm Hf s1 s2 H. unfold mbind, eff_bind. specialize (Hm s1 s2 H). destruct (m1 s1) as [[t1 o1] r1], (m2 s2) as [[t2 o2] r2].
  destruct Hm as (Ht & Ho & <-). destruct r1 as [a|x|]; [|done|done]. specialize (Hf a t1 t2 Ht). destruct (f1 a t1) as [[u1 o1'] r1], (f2 a t2) as [[u2 o2'] r2].
  destruct Hf as (Hu & Ho' & ->). split; [done|]. split; [by rewrite !fmap_app, Ho, Ho'|done].
Qed.
(** A step reads and writes what [p] shows only. *)
Lemma agrees_upd f1 f2 : (∀ s, p (f1 s) = p (f1 (p s))) → (∀ s, p (f2 s) = p (f2 (p s))) → (∀ s, p (f1 (p s)) = p (f2 (p s))) → agrees (upd_ f1) (upd_ f2).
Proof. intros H1 H2 H12 s1 s2 H. split; [|done]. by rewrite H1, H2, H, H12. Qed.
Lemma agrees_get {A} (k1 k2 : S → eff A) : (∀ s, k1 s = k1 (p s)) → (∀ s, k2 s = k2 (p s)) → (∀ s, agrees (k1 (p s)) (k2 (p s))) →
  agrees (s ← get_; k1 s) (s ← get_; k2 s).
Proof.
  intros H1 H2 Hk s1 s2 H. unfold mbind, eff_bind, get_. rewrite H1, H2, <- H. specialize (Hk s1 s1 s2 H).
  destruct (k1 (p s1) s1) as [[t1 o1] r1], (k2 (p s1) s2) as [[t2 o2] r2]. exact Hk.
Qed.
(** Steps that [p] and [q] do not show. *)
Lemma agrees_hidden {A} (f : S → S) (m1 m2 : eff A) : (∀ s, p (f s) = p s) → agrees m1 m2 → agrees (_ ← upd_ f; m1) m2.
Proof.
  intros Hf Hm s1 s2 H. unfold mbind, eff_bind, upd_. specialize (Hm (f s1) s2). rewrite Hf in Hm. specialize (Hm H).
  by destruct (m1 (f s1)) as [[t1 o1] r1], (m2 s2) as [[t2 o2] r2].
Qed.
End agrees.

End effect.
Arguments eff : clear implicits.
