(* ===== verification/Hls.v ===== *)
(** * The HLS source: [hlssource/client.go], [hlssource/config.go]

    Open, the reader with its reloads, the replacement of initialization segments, and the
    requests with their credentials.  The two demuxers are used through an interface
    ([SegmentDemuxer]).  What the network answers, and when somebody else ends the stream (Close,
    Wait, the watchdog), is the environment; times of arrival are left out. *)
From Stdlib Require Import Ascii String.
From S2P Require Import Prelude Bytes Text Adts Framer AdtsFrame TsDemux Mp4 Fmp4 ControlUrl UrlTarget Playlist Effect MediaTime.

(** ** The demuxer interface *)
Class SegmentDemuxer (D : Type) := {
  demux : list Z → bool → D → res no_err (D * list tsdemux.AU * option tsdemux.err);
  end_ : D → res no_err (D * list tsdemux.AU);
  audioSpecificConfig : D → option (list Z);
  gapCount : D → Z
}.

Definition unit_ok (au : tsdemux.AU) : Prop := 0 ≤ au.2 ∧ 0 < blen au.1.
Class SegmentDemuxerLaws (D : Type) `{SegmentDemuxer D} := {
  demuxer_ok : D → Prop;
  demux_returns seg disc d : demuxer_ok d → bytes_ok seg → ∃ d' aus e, demux seg disc d = Ok (d', aus, e) ∧ demuxer_ok d' ∧ Forall unit_ok aus ∧
    (audioSpecificConfig d ≠ None → audioSpecificConfig d' ≠ None);
  end_returns d : demuxer_ok d → ∃ d' aus, end_ d = Ok (d', aus) ∧ demuxer_ok d' ∧ Forall unit_ok aus ∧
    (audioSpecificConfig d ≠ None → audioSpecificConfig d' ≠ None)
}.

#[export] Instance ts_demuxer : SegmentDemuxer tsdemux.tsDemux := {|
  demux := tsdemux.demux; end_ := tsdemux.end_; audioSpecificConfig := tsdemux.audioSpecificConfig; gapCount := tsdemux.gapCount |}.
#[export] Instance fmp4_demuxer : SegmentDemuxer fmp4.fmp4Demux := {|
  demux := λ seg _ d, fmp4.demux seg d; end_ := λ d, Ok (fmp4.end_ d); audioSpecificConfig := λ d, Some (fmp4.audioSpecificConfig d);
  gapCount := fmp4.gapCount |}.

(** The value of the interface: one of the two. *)
Inductive demuxer := TS (d : tsdemux.tsDemux) | FMP4 (d : fmp4.fmp4Demux).
#[export] Instance any_demuxer : SegmentDemuxer demuxer := {|
  demux := λ seg disc d, match d with
    | TS d => '(d, aus, e) ← demux seg disc d; mret (TS d, aus, e)
    | FMP4 d => '(d, aus, e) ← demux seg disc d; mret (FMP4 d, aus, e) end;
  end_ := λ d, match d with
    | TS d => '(d, aus) ← end_ d; mret (TS d, aus)
    | FMP4 d => '(d, aus) ← end_ d; mret (FMP4 d, aus) end;
  audioSpecificConfig := λ d, match d with TS d => audioSpecificConfig d | FMP4 d => audioSpecificConfig d end;
  gapCount := λ d, match d with TS d => gapCount d | FMP4 d => gapCount d end |}.

Module hlssource.
Import playlist.

(** ** Configuration *)
Definition DefaultTimeout : Z := 10 * Second.
Definition DefaultUserAgent : list Z := str "go-audio-stream/0.1".
Definition DefaultMaxPlaylistBytes : Z := Z.shiftl 4 20.
Definition DefaultMaxSegmentBytes : Z := Z.shiftl 16 20.

(** The fields that are read; [onFrame] and [onCodecUpdate] say which callback is set. *)
Record Config := mkConfig {
  URL : list Z; Username : list Z; Password : list Z; Timeout : Z; ReadIdle : Z; AllowInsecureAuth : bool; UserAgent : list Z;
  MaxPlaylistBytes : Z; MaxSegmentBytes : Z; onFrame : bool; onCodecUpdate : bool
}.
Definition applyDefaults (c : Config) : Config :=
  mkConfig (URL c) (Username c) (Password c) (if Timeout c <=? 0 then DefaultTimeout else Timeout c) (if ReadIdle c <? 0 then 0 else ReadIdle c)
    (AllowInsecureAuth c) (if bool_decide (UserAgent c = []) then DefaultUserAgent else UserAgent c)
    (if MaxPlaylistBytes c <=? 0 then DefaultMaxPlaylistBytes else MaxPlaylistBytes c)
    (if MaxSegmentBytes c <=? 0 then DefaultMaxSegmentBytes else MaxSegmentBytes c) (onFrame c) (onCodecUpdate c).

Record target := mkTarget { requestURL : list Z; host : list Z; username : list Z; password : list Z }.

(** ** Terminal causes *)
Inductive cause :=
  | ErrInvalidURL | ErrConnectionClosed | ErrRequestTimeout | ErrCanceled | ErrStreamEnded | ErrBadStatus (code : Z)
  | ErrMalformed | ErrUnsupported | ErrNoPlayableSegment | ErrMalformedSegment | ErrUnsupportedCodec
  | ErrPlaylistTooLarge | ErrSegmentTooLarge | ErrReadTimeout | ErrClosed.
Definition playlist_cause (e : playlist.err) : cause := match e with ErrMalformedPlaylist => ErrMalformed | ErrUnsupportedPlaylist => ErrUnsupported end.
Definition segment_cause (e : tsdemux.err) : cause :=
  match e with tsdemux.ErrMalformedSegment => ErrMalformedSegment | tsdemux.ErrUnsupportedCodec => ErrUnsupportedCodec | tsdemux.ErrUnsupportedPlaylist => ErrUnsupported end.
Definition with_cause {E A} (f : E → cause) (m : res E A) : res cause A := match m with Ok a => Ok a | Err x => Err (f x) | Panic => Panic end.

(** ** The environment *)

(** What [classifyRequestErr] tells apart. *)
Inductive failure := DeadlineExceeded | BaseDone | NetTimeout | OtherFailure.
(** A redirect that [net/http] is about to follow.  It copies the headers of the first request, not of the one
    before, onto each; [h_copied] says whether its own rules let the Authorization header through. *)
Record hop := mkHop { h_host : list Z; h_scheme : list Z; h_copied : bool }.
(** The end of a request: no response, or a status and a body, read to its end or not. *)
Inductive reply := NoReply (f : failure) | Reply (status : Z) (body : list Z) (broken : option failure).
Record env := mkEnv {
  hops : nat → list hop; replies : nat → reply;
  shuts : nat → option cause;    (** a shutdown by somebody else, before this look at [closing] *)
  fires : nat → bool             (** whether the reload timer wins a select that could also see the shutdown *)
}.

(** ** The client *)
Record frame := mkFrame { Data : list Z; PTS : Z; SeqGap : Z }.
Inductive act :=
  | Requested (rawURL : list Z) (host scheme : list Z) (authorized : bool)
  | Redirected (host scheme : list Z) (authorized : bool)
  | OnFrame (f : frame)
  | OnCodecUpdate (asc : list Z).

Section client.
Context {U : NetURL}.

Record Client := mkClient {
  c_demux : demuxer; c_media : mediaPlaylist; c_mediaURL : option url; c_initURI : list Z; c_asc : list Z; malformedBase : Z;
  pending : list tsdemux.AU; lastSeq : Z; mediaPTS : Z; pendingSeqGap : Z; pendingDisc : bool;
  packets : Z; payload : Z; malformed : Z; termErr : option cause; asked : nat; looks : nat
}.
Definition set_playlist (m : mediaPlaylist) (u : option url) (c : Client) : Client :=
  mkClient (c_demux c) m u (c_initURI c) (c_asc c) (malformedBase c) (pending c) (lastSeq c) (mediaPTS c) (pendingSeqGap c) (pendingDisc c)
    (packets c) (payload c) (malformed c) (termErr c) (asked c) (looks c).
Definition set_demux (d : demuxer) (c : Client) : Client :=
  mkClient d (c_media c) (c_mediaURL c) (c_initURI c) (c_asc c) (malformedBase c) (pending c) (lastSeq c) (mediaPTS c) (pendingSeqGap c) (pendingDisc c)
    (packets c) (payload c) (malformed c) (termErr c) (asked c) (looks c).
Definition set_init (d : demuxer) (u : list Z) (base : Z) (c : Client) : Client :=
  mkClient d (c_media c) (c_mediaURL c) u (c_asc c) base (pending c) (lastSeq c) (mediaPTS c) (pendingSeqGap c) (pendingDisc c)
    (packets c) (payload c) (malformed c) (termErr c) (asked c) (looks c).
Definition set_asc (a : list Z) (c : Client) : Client :=
  mkClient (c_demux c) (c_media c) (c_mediaURL c) (c_initURI c) a (malformedBase c) (pending c) (lastSeq c) (mediaPTS c) (pendingSeqGap c) (pendingDisc c)
    (packets c) (payload c) (malformed c) (termErr c) (asked c) (looks c).
Definition set_pending (l : list tsdemux.AU) (c : Client) : Client :=
  mkClient (c_demux c) (c_media c) (c_mediaURL c) (c_initURI c) (c_asc c) (malformedBase c) l (lastSeq c) (mediaPTS c) (pendingSeqGap c) (pendingDisc c)
    (packets c) (payload c) (malformed c) (termErr c) (asked c) (looks c).
(** Where playback is: the last number, the clock, the losses not reported yet, a continuity break. *)
Definition set_position (s pts g : Z) (disc : bool) (c : Client) : Client :=
  mkClient (c_demux c) (c_media c) (c_mediaURL c) (c_initURI c) (c_asc c) (malformedBase c) (pending c) s pts g disc
    (packets c) (payload c) (malformed c) (termErr c) (asked c) (looks c).
Definition set_counters (pk pl mf : Z) (c : Client) : Client :=
  mkClient (c_demux c) (c_media c) (c_mediaURL c) (c_initURI c) (c_asc c) (malformedBase c) (pending c) (lastSeq c) (mediaPTS c) (pendingSeqGap c) (pendingDisc c)
    pk pl mf (termErr c) (asked c) (looks c).
Definition set_term (why : option cause) (c : Client) : Client :=
  mkClient (c_demux c) (c_media c) (c_mediaURL c) (c_initURI c) (c_asc c) (malformedBase c) (pending c) (lastSeq c) (mediaPTS c) (pendingSeqGap c) (pendingDisc c)
    (packets c) (payload c) (malformed c) why (asked c) (looks c).
Definition set_ticks (a l : nat) (c : Client) : Client :=
  mkClient (c_demux c) (c_media c) (c_mediaURL c) (c_initURI c) (c_asc c) (malformedBase c) (pending c) (lastSeq c) (mediaPTS c) (pendingSeqGap c) (pendingDisc c)
    (packets c) (payload c) (malformed c) (termErr c) a l.

Abbreviation op := (eff Client act cause).

Definition parseTarget (cfg : Config) : res cause target :=
  match urltarget.ParseHTTP (URL cfg) (Username cfg) (Password cfg) with
  | Ok t => mret (mkTarget (urltarget.RequestURL t) (urltarget.t_Host t) (urltarget.t_Username t) (urltarget.t_Password t))
  | Err _ => Err ErrInvalidURL
  | Panic => Panic
  end.

Context (e : env) (cfg : Config) (tgt : target).

(** *** Shutdown *)

(** Somebody else's shutdown, if it came before this point. *)
Definition look : op unit :=
  upd_ (λ c, set_ticks (asked c) (S (looks c)) (match termErr c with Some _ => c | None => set_term (shuts e (looks c)) c end)).
Definition initiateShutdown (why : cause) : op unit :=
  _ ← look; upd_ (λ c, match termErr c with Some _ => c | None => set_term (Some why) c end).
Definition closed : op bool := _ ← look; c ← get_; mret (match termErr c with Some _ => true | None => false end).
Definition reloadWait : op bool := stop ← closed; c ← get_; mret (negb stop || fires e (looks c)).

(** *** Requests *)

(** [removeEmptyPort] of [net/http], which a request's URL goes through. *)
Definition removeEmptyPort (h : list Z) : list Z :=
  match controlurl.CutLast 58 h with
  | Some (a, p) => if bool_decide (p = []) then a else h
  | None => h
  end.
Definition schemeHTTPS : list Z := str "https".
Definition safe (h scheme : list Z) : bool := bool_decide (h = host tgt) && (bool_decide (scheme = schemeHTTPS) || AllowInsecureAuth cfg).
Definition maybeSetBasicAuth (h scheme : list Z) : bool :=
  if bool_decide (username tgt = []) && bool_decide (password tgt = []) then false else safe h scheme.
(** [CheckRedirect], hop by hop; [via] counts the requests so far, [auth] says whether the first one was
    authorized. *)
Fixpoint redirects (via : nat) (auth : bool) (hs : list hop) : list act * bool :=
  match hs with
  | [] => ([], true)
  | h :: hs =>
      if (10 <=? via)%nat then ([], false)
      else
        let copied := auth && h_copied h in
        let kept := if negb (bool_decide (h_host h = host tgt)) || (negb (bool_decide (h_scheme h = schemeHTTPS)) && negb (AllowInsecureAuth cfg)) then false else copied in
        let '(out, ok) := redirects (S via) auth hs in
        (Redirected (h_host h) (h_scheme h) kept :: out, ok)
  end.
Definition classifyRequestErr (f : failure) : cause :=
  match f with DeadlineExceeded | NetTimeout => ErrRequestTimeout | BaseDone => ErrCanceled | OtherFailure => ErrConnectionClosed end.

Definition get (rawURL : list Z) (limit : Z) (tooLarge : cause) : op (list Z) :=
  match url_Parse rawURL with
  | None => throw_ ErrInvalidURL
  | Some u =>
      c ← get_;
      _ ← upd_ (λ c, set_ticks (S (asked c)) (looks c) c);
      let h := removeEmptyPort (Host u) in
      let auth := maybeSetBasicAuth h (Scheme u) in
      let '(out, ok) := redirects 1 auth (hops e (asked c)) in
      _ ← emit_ (Requested rawURL h (Scheme u) auth :: out);
      if negb ok then throw_ ErrConnectionClosed
      else match replies e (asked c) with
      | NoReply f => throw_ (classifyRequestErr f)
      | Reply status body broken =>
          if negb (status =? 200) then throw_ (ErrBadStatus status)
          else
            let n := i64 (limit + 1) in
            let read := take (Z.to_nat n) body in
            if limit <? blen read then throw_ tooLarge
            else match (if n <=? 0 then None else broken) with Some f => throw_ (classifyRequestErr f) | None => mret read end
      end
  end.
Definition fetchInitSegment (u : list Z) : op (list Z) := get u (MaxSegmentBytes cfg) ErrSegmentTooLarge.

Definition parse_body (base : option url) (body : list Z) : op parsed := of_res_ (with_cause playlist_cause (parsePlaylist base body)).
Definition fetchMediaPlaylist (rawURL : list Z) : op (mediaPlaylist * option url) :=
  body ← get rawURL (MaxPlaylistBytes cfg) ErrPlaylistTooLarge;
  match url_Parse rawURL with
  | None => throw_ ErrInvalidURL
  | Some base =>
      p ← parse_body (Some base) body;
      match p with
      | Media m => mret (m, Some base)
      | Master ms =>
          u ← of_res_ (with_cause playlist_cause (selectMediaURL ms));
          mBody ← get u (MaxPlaylistBytes cfg) ErrPlaylistTooLarge;
          let mBase := url_Parse u in
          p ← parse_body mBase mBody;
          match p with Media m => mret (m, mBase) | Master _ => throw_ ErrMalformed end
      end
  end.

(** *** Open *)
Definition firstPlayable (m : mediaPlaylist) : option mediaSegment := List.find (λ s, negb (gap s)) (segments m).
Definition buildDemuxer (s : mediaSegment) : op demuxer :=
  if bool_decide (initURI s = []) then mret (TS tsdemux.newTSDemux)
  else
    body ← fetchInitSegment (initURI s);
    d ← of_res_ (with_cause segment_cause (fmp4.newFMP4Demux body));
    mret (FMP4 d).
Definition no_fail (x : no_err) : cause := match x with end.

(** The fields that [openHandshake] sets, on a client that has none yet. *)
Definition opened (d : demuxer) (m : mediaPlaylist) (u : option url) (s : mediaSegment) (asc : list Z) (aus : list tsdemux.AU) (c : Client) : Client :=
  mkClient d m u (initURI s) asc (malformedBase c) aus (seq s) (mediaPTS c) (pendingSeqGap c) (pendingDisc c)
    (packets c) (payload c) (malformed c) (termErr c) (asked c) (looks c).
Definition openHandshake : op unit :=
  '(m, u) ← fetchMediaPlaylist (requestURL tgt);
  match firstPlayable m with
  | None => throw_ (if endList m then ErrMalformed else ErrNoPlayableSegment)
  | Some s =>
      d ← buildDemuxer s;
      body ← get (uri s) (MaxSegmentBytes cfg) ErrSegmentTooLarge;
      '(d, aus, derr) ← of_res_ (with_cause no_fail (demux body false d));
      match derr with
      | Some x => throw_ (segment_cause x)
      | None =>
          match audioSpecificConfig d with
          | None => throw_ ErrMalformedSegment
          | Some asc => upd_ (opened d m u s asc aus)
          end
      end
  end.

(** *** Delivery *)
Definition deliverAU (au : tsdemux.AU) : op unit :=
  c ← get_;
  let pts := mediaPTS c in
  let next := if 0 <? au.2 then i64 (pts + au.2) else pts in
  _ ← upd_ (λ c, set_position (lastSeq c) next 0 (pendingDisc c) (set_counters (u64 (packets c + 1)) (u64 (payload c + blen au.1)) (malformed c) c));
  if onFrame cfg then emit_ [OnFrame (mkFrame au.1 pts (pendingSeqGap c))] else mret tt.
Fixpoint deliver_all (aus : list tsdemux.AU) : op unit :=
  match aus with [] => mret tt | au :: aus => _ ← deliverAU au; deliver_all aus end.
Definition syncMalformed : op unit :=
  upd_ (λ c, set_counters (packets c) (payload c) (u64 (malformedBase c + gapCount (c_demux c))) c).
Definition deliverPending : op unit :=
  c ← get_;
  _ ← deliver_all (pending c);
  _ ← upd_ (set_pending []);
  syncMalformed.

(** *** A replaced initialization segment *)
Definition reinitFMP4 (u : list Z) : op unit :=
  body ← fetchInitSegment u;
  f ← of_res_ (with_cause segment_cause (fmp4.newFMP4Demux body));
  let d := FMP4 f in
  match audioSpecificConfig d with
  | None => throw_ ErrMalformedSegment
  | Some asc =>
      c ← get_;
      let changed := negb (bool_decide (asc = c_asc c)) in
      if changed && negb (onCodecUpdate cfg) then throw_ ErrUnsupported
      else
        '(old, aus) ← of_res_ (with_cause no_fail (end_ (c_demux c)));
        _ ← deliver_all aus;
        _ ← upd_ (λ c, set_init d u (u64 (malformedBase c + gapCount old)) c);
        _ ← syncMalformed;
        if negb changed then mret tt
        else _ ← upd_ (set_asc asc); emit_ [OnCodecUpdate asc]
  end.

(** *** Segments *)
Definition processSegment (s : mediaSegment) (disc : bool) : op unit :=
  if gap s then upd_ (λ c, set_position (lastSeq c) (i64 (mediaPTS c + duration s)) (i64 (pendingSeqGap c + 1)) (pendingDisc c) c)
  else
    c ← get_;
    _ ← (if bool_decide (initURI s = c_initURI c) then mret tt
         else if bool_decide (initURI s = []) then throw_ ErrUnsupported
         else if bool_decide (c_initURI c = []) then throw_ ErrUnsupported
         else reinitFMP4 (initURI s));
    body ← get (uri s) (MaxSegmentBytes cfg) ErrSegmentTooLarge;
    c ← get_;
    '(d, aus, derr) ← of_res_ (with_cause no_fail (demux body disc (c_demux c)));
    _ ← upd_ (set_demux d);
    _ ← deliver_all aus;
    _ ← syncMalformed;
    match derr with Some x => throw_ (segment_cause x) | None => mret tt end.

Definition MaxInt : Z := 2 ^ 63 - 1.
(** The number of segments a live window left behind, as [processNewSegments] counts it. *)
Definition missed (last s : Z) : Z := Z.min (u64 (s - last - 1)) MaxInt.

Fixpoint process_list (delivered : bool) (segs : list mediaSegment) : op bool :=
  match segs with
  | [] => mret delivered
  | s :: segs =>
      c ← get_;
      if seq s <=? lastSeq c then process_list delivered segs
      else
        _ ← (if negb delivered && (u64 (lastSeq c + 1) <? seq s)
             then upd_ (λ c, set_position (lastSeq c) (mediaPTS c) (i64 (pendingSeqGap c + missed (lastSeq c) (seq s))) true c) else mret tt);
        c ← get_;
        r ← try_ (processSegment s (pendingDisc c || discontinuity s));
        match r with
        | Err x => _ ← initiateShutdown x; mret delivered
        | Panic => panic_
        | Ok _ =>
            _ ← upd_ (λ c, set_position (seq s) (mediaPTS c) (pendingSeqGap c) (gap s) c);
            stop ← closed;
            if stop : bool then mret true else process_list true segs
        end
  end.
Definition processNewSegments : op bool := c ← get_; process_list false (segments (c_media c)).

(** [runSegments], for at most [fuel] playlists; whether it has returned. *)
Fixpoint runSegments (fuel : nat) : op bool :=
  match fuel with
  | O => mret false
  | S fuel =>
      _ ← processNewSegments;
      stop ← closed;
      if stop : bool then mret true
      else
        c ← get_;
        if endList (c_media c) then
          '(d, aus) ← of_res_ (with_cause no_fail (end_ (c_demux c)));
          _ ← upd_ (set_demux d);
          _ ← deliver_all aus;
          _ ← syncMalformed;
          _ ← initiateShutdown ErrStreamEnded;
          mret true
        else
          go ← reloadWait;
          if negb go then mret true
          else match c_mediaURL c with
          | None => panic_ (* a nil URL *)
          | Some u =>
              r ← try_ (fetchMediaPlaylist (url_String u));
              match r with
              | Err x => _ ← initiateShutdown x; mret true
              | Panic => panic_
              | Ok (m, u) => _ ← upd_ (set_playlist m u); runSegments fuel
              end
          end
  end.
Definition reader (fuel : nat) : op bool := _ ← deliverPending; runSegments fuel.

Definition new_client : Client := mkClient (TS tsdemux.newTSDemux) no_media None [] [] 0 [] 0 0 0 false 0 0 0 None 0 0.
Definition session (fuel : nat) : op bool := _ ← openHandshake; reader fuel.

(** The reload cadence of RFC 8216. *)
Definition reloadDelayFor (t : Z) (delivered : bool) : Z :=
  let t := if t <=? 0 then DefaultTimeout else t in if negb delivered then Z.quot t 2 else t.

End client.

End hlssource.

(** ** The demuxers keep the interface's laws *)
#[export] Instance ts_demuxer_laws : SegmentDemuxerLaws tsdemux.tsDemux.
Proof.
  refine {| demuxer_ok := tsdemux.demux_ok |}.
  - intros seg disc d Hd Hs. destruct (tsdemux.ts_demux_returns seg disc d Hd Hs) as (d' & aus & e & E & H1 & H2 & _ & H3). exists d', aus, e.
    split; [done|]. split; [done|]. split; [|done]. eapply Forall_impl; [|exact H2]. intros au [? ?]. split; lia.
  - intros d Hd. destruct (tsdemux.end_good d Hd) as (d' & aus & E & H1 & H2 & _ & H3). exists d', aus.
    split; [done|]. split; [done|]. split; [|done]. eapply Forall_impl; [|exact H2]. intros au [? ?]. split; lia.
Defined.
#[export] Instance fmp4_demuxer_laws : SegmentDemuxerLaws fmp4.fmp4Demux.
Proof.
  refine {| demuxer_ok := fmp4.demux_ok |}.
  - intros seg disc d Hd Hs. destruct (fmp4.fragment_returns seg d Hd Hs) as (d' & aus & e & E & H1 & _ & H2 & _). exists d', aus, e.
    split; [done|]. split; [destruct Hd; by split; rewrite H1|]. split; [|done]. eapply Forall_impl; [|exact H2].
    intros au (_ & Hn & ticks & Ht & Hv). pose proof (fmp4.do_ts _ Hd). split.
    + rewrite Hv. apply Z.div_pos; [|lia]. unfold is_u32 in Ht. unfold mediatime.Second. lia.
    + destruct au.1; [done|]. rewrite blen_cons. pose proof (blen_nonneg l). lia.
  - intros d Hd. exists d, []. split; [done|]. split; [done|]. by split; [constructor|].
Defined.
#[export] Instance any_demuxer_laws : SegmentDemuxerLaws demuxer.
Proof.
  refine {| demuxer_ok := λ d, match d with TS d => demuxer_ok d | FMP4 d => demuxer_ok d end |}.
  - intros seg disc [d|d] Hd Hs; cbn [demux any_demuxer audioSpecificConfig]; destruct (demux_returns seg disc d Hd Hs) as (d' & aus & e & -> & H1 & H2 & H3).
    + by exists (TS d'), aus, e.
    + by exists (FMP4 d'), aus, e.
  - intros [d|d] Hd; cbn [end_ any_demuxer audioSpecificConfig]; destruct (end_returns d Hd) as (d' & aus & -> & H1 & H2 & H3).
    + by exists (TS d'), aus.
    + by exists (FMP4 d'), aus.
Defined.
