(* ===== verification/HlsPlay.v ===== *)
(** * What playing an HLS stream keeps

    The reader of [Hls] for every network and every moment of shutdown: it never panics, the
    credentials go where they may, the frames carry the running clock ([session_run]) and every segment that was
    lost is reported once, a playlist that ends is played to its end in a bounded number of requests,
    and a replaced initialization segment takes effect in full or not at all.  Which audio the answers of the
    servers make is in [HlsStory]. *)
From Stdlib Require Import Ascii String.
From S2P Require Import Prelude Bytes Text TsDemux Fmp4 ControlUrl UrlTarget Playlist Effect Hls.

Module hlsplay.
Import playlist hlssource.

(** ** The specification: what a stream is made of *)

(** Segments that left the window unseen, a segment marked as missing, a unit of audio. *)
Inductive item := Lost (n : Z) | Gap (dur : Z) | Unit (au : tsdemux.AU).
(** The frames of a stream, given the clock and the losses not reported yet; where it leaves them. *)
Fixpoint stamp (pts g : Z) (l : list item) : list frame * (Z * Z) :=
  match l with
  | [] => ([], (pts, g))
  | Lost n :: l => stamp pts (i64 (g + n)) l
  | Gap d :: l => stamp (i64 (pts + d)) (i64 (g + 1)) l
  | Unit au :: l => let '(fs, p) := stamp (if 0 <? au.2 then i64 (pts + au.2) else pts) 0 l in (mkFrame au.1 pts g :: fs, p)
  end.
(** What a reader whose last number is [last] makes of a playlist, and its last number then. *)
Inductive round : bool → Z → list mediaSegment → list item → Z → Prop :=
  | round_end b last : round b last [] [] last
  | round_old b last s segs l last' : seq s ≤ last → round b last segs l last' → round b last (s :: segs) l last'
  | round_new b last s segs jump own l last' : last < seq s →
      jump = (if negb b && (u64 (last + 1) <? seq s) then [Lost (missed last (seq s))] else []) →
      (if gap s then own = [Gap (duration s)] else ∃ aus, Forall unit_ok aus ∧ own = Unit <$> aus) →
      round true (seq s) segs l last' → round b last (s :: segs) (jump ++ own ++ l) last'.

Definition frames (out : list act) : list frame := omap (λ a, match a with OnFrame f => Some f | _ => None end) out.
Definition reports (fs : list frame) : Z := foldr (λ f z, SeqGap f + z) 0 fs.
Definition losses (l : list item) : Z := foldr (λ i z, (match i with Lost n => n | Gap _ => 1 | Unit _ => 0 end) + z) 0 l.

Lemma acts_frames_app a b : frames (a ++ b) = frames a ++ frames b.
Proof. apply omap_app. Qed.
Lemma stamp_app l1 l2 : ∀ pts g, stamp pts g (l1 ++ l2) =
  let '(f1, (p1, g1)) := stamp pts g l1 in let '(f2, q) := stamp p1 g1 l2 in (f1 ++ f2, q).
Proof.
  induction l1 as [|[n|d|au] l1 IH]; intros pts g; cbn.
  - by destruct (stamp pts g l2) as [f2 q].
  - apply IH.
  - apply IH.
  - rewrite IH. destruct (stamp _ 0 l1) as [f1 [p1 g1]]. by destruct (stamp p1 g1 l2).
Qed.
Lemma reports_app a b : reports (a ++ b) = reports a + reports b.
Proof. induction a as [|f a IH]; [done|]. cbn [app reports foldr]. fold (reports (a ++ b)) (reports a). rewrite IH. lia. Qed.
Lemma losses_app a b : losses (a ++ b) = losses a + losses b.
Proof. induction a as [|f a IH]; [done|]. cbn [app losses foldr]. fold (losses (a ++ b)) (losses a). rewrite IH. lia. Qed.
Lemma losses_units aus : losses (Unit <$> aus) = 0.
Proof. induction aus as [|au aus IH]; [done|]. cbn. fold (losses (Unit <$> aus)). rewrite IH. lia. Qed.

(** No loss is dropped and none is reported twice, as long as the count stays in an [int]. *)
Definition counted (l : list item) : Prop := Forall (λ i, match i with Lost n => 0 ≤ n | _ => True end) l.
Lemma missed_nonneg last s : 0 ≤ missed last s.
Proof. unfold missed, MaxInt. pose proof (u64_range (s - last - 1)) as H. unfold is_u64 in H. lia. Qed.
Lemma counted_units aus : counted (Unit <$> aus).
Proof. induction aus; by constructor. Qed.
Lemma losses_nonneg l : counted l → 0 ≤ losses l.
Proof. unfold counted. induction 1 as [|i l H Hl IH]; [done|]. cbn. fold (losses l). destruct i; lia. Qed.
Lemma stamp_losses l : counted l → ∀ pts g, 0 ≤ g → g + losses l < 2 ^ 63 →
  let '(fs, (_, g')) := stamp pts g l in reports fs + g' = g + losses l ∧ Forall (λ f, 0 ≤ SeqGap f) fs ∧ 0 ≤ g'.
Proof.
  unfold counted. induction 1 as [|i l H Hl IH]; intros pts g Hg Hb; [cbn in *|pose proof (losses_nonneg l Hl) as Hn; destruct i as [n|d|au]; cbn in *; fold (losses l) in *].
  - split; [lia|]. by split.
  - rewrite i64_small by lia. specialize (IH pts (g + n) ltac:(lia) ltac:(lia)).
    destruct (stamp pts (g + n) l) as [fs [p' g']]. split; [lia|]. apply IH.
  - rewrite (i64_small (g + 1)) by lia. specialize (IH (i64 (pts + d)) (g + 1) ltac:(lia) ltac:(lia)).
    destruct (stamp _ (g + 1) l) as [fs [p' g']]. split; [lia|]. apply IH.
  - specialize (IH (if 0 <? au.2 then i64 (pts + au.2) else pts) 0 ltac:(lia) ltac:(lia)).
    destruct (stamp _ 0 l) as [fs [p' g']]. cbn. fold (reports fs). destruct IH as (H1 & H2 & H3). split; [lia|]. split; [|done]. by constructor.
Qed.

Section play.
Context {U : NetURL} (e : env) (cfg : Config) (tgt : target).

(** A request may carry the credentials. *)
Definition permitted (h scheme : list Z) : Prop :=
  h = host tgt ∧ (scheme = schemeHTTPS ∨ AllowInsecureAuth cfg = true) ∧ (username tgt ≠ [] ∨ password tgt ≠ []).
Definition act_ok (a : act) : Prop :=
  match a with
  | Requested _ h s auth | Redirected h s auth => auth = true → permitted h s
  | OnFrame f => onFrame cfg = true ∧ Data f ≠ []
  | OnCodecUpdate _ => onCodecUpdate cfg = true
  end.
Definition env_ok : Prop := ∀ i, match replies e i with Reply _ body _ => bytes_ok body | NoReply _ => True end.

(** What is not touched while a segment is played. *)
Definition position_kept (c c' : Client) : Prop :=
  lastSeq c' = lastSeq c ∧ pendingDisc c' = pendingDisc c ∧ termErr c' = termErr c ∧ looks c' = looks c.
Definition stream_kept (c c' : Client) : Prop := c_media c' = c_media c ∧ c_mediaURL c' = c_mediaURL c ∧ pending c' = pending c.
(** [out] announces [l], in [n] requests. *)
Record plays (c : Client) (l : list item) (n : nat) (out : list act) (c' : Client) : Prop := {
  pl_frames : frames out = if onFrame cfg then (stamp (mediaPTS c) (pendingSeqGap c) l).1 else [];
  pl_clock : (mediaPTS c', pendingSeqGap c') = (stamp (mediaPTS c) (pendingSeqGap c) l).2;
  pl_asked : asked c' = (asked c + n)%nat;
  pl_acts : Forall act_ok out;
  pl_counted : counted l;
  pl_ok : demuxer_ok (c_demux c');
  pl_kept : stream_kept c c'
}.
Definition heard (c : Client) (l : list item) (out : list act) (c' : Client) : Prop :=
  frames out = (if onFrame cfg then (stamp (mediaPTS c) (pendingSeqGap c) l).1 else []) ∧ (mediaPTS c', pendingSeqGap c') = (stamp (mediaPTS c) (pendingSeqGap c) l).2.
Lemma heard_app c l1 o1 c1 l2 o2 c2 : heard c l1 o1 c1 → heard c1 l2 o2 c2 → heard c (l1 ++ l2) (o1 ++ o2) c2.
Proof.
  intros [F1 P1] [F2 P2]. unfold heard. rewrite acts_frames_app, F1, F2, P2, stamp_app.
  destruct (stamp (mediaPTS c) _ l1) as [f1 [p1 g1]]. cbn in P1. injection P1 as -> ->.
  destruct (stamp p1 g1 l2) as [f2 q]. by destruct (onFrame cfg).
Qed.
Lemma plays_app c l1 n1 o1 c1 l2 n2 o2 c2 : plays c l1 n1 o1 c1 → plays c1 l2 n2 o2 c2 → plays c (l1 ++ l2) (n1 + n2) (o1 ++ o2) c2.
Proof.
  intros [F1 P1 A1 K1 C1 _ S1] [F2 P2 A2 K2 C2 D2 S2]. destruct (heard_app _ _ _ _ _ _ _ (conj F1 P1) (conj F2 P2)) as [F P].
  destruct S1 as (S1 & S1' & S1''), S2 as (S2 & S2' & S2''). split; [done|done|lia|by apply Forall_app_2|by apply Forall_app_2|done|unfold stream_kept; split_and!; congruence].
Qed.
Lemma plays_same c c' out : demuxer_ok (c_demux c') → stream_kept c c' → mediaPTS c' = mediaPTS c → pendingSeqGap c' = pendingSeqGap c →
  asked c' = asked c → frames out = [] → Forall act_ok out → plays c [] 0 out c'.
Proof. intros ? ? Hp Hg Ha Hf ?. split; [|cbn; congruence|lia|done|constructor|done..]. rewrite Hf. by destruct (onFrame cfg). Qed.
Lemma plays_moved c l n out c1 c2 : plays c l n out c1 → c_demux c2 = c_demux c1 → stream_kept c1 c2 → mediaPTS c2 = mediaPTS c1 →
  pendingSeqGap c2 = pendingSeqGap c1 → asked c2 = asked c1 → plays c l n out c2.
Proof.
  intros [F P A K C D (S1 & S2 & S3)] Hd (T1 & T2 & T3) Hp Hg Ha. split; [done|congruence|lia|done|done|by rewrite Hd|].
  unfold stream_kept. split_and!; congruence.
Qed.

(** *** Requests *)
Definition is_request (a : act) : Prop := match a with Requested _ _ _ _ | Redirected _ _ _ => True | _ => False end.
(** At most one request, and nothing else changed. *)
Definition fetched (c : Client) (n : nat) (out : list act) (c' : Client) : Prop :=
  (n ≤ 1)%nat ∧ c' = set_ticks (asked c + n) (looks c) c ∧ Forall act_ok out ∧ Forall is_request out.
Lemma no_frames out : Forall is_request out → frames out = [].
Proof. induction 1 as [|a out Ha Hout IH]; [done|]. by destruct a. Qed.
Lemma plays_fetched c n out c' : demuxer_ok (c_demux c) → fetched c n out c' → plays c [] n out c' ∧ position_kept c c'.
Proof.
  intros Hd (Hn & -> & Ha & Hr). split; [|done]. split; cbn; [rewrite no_frames by done; by destruct (onFrame cfg)|done|done|done|constructor|done|done].
Qed.

Lemma redirects_ok hs : ∀ via auth, (auth = true → username tgt ≠ [] ∨ password tgt ≠ []) →
  Forall act_ok (redirects cfg tgt via auth hs).1 ∧ Forall is_request (redirects cfg tgt via auth hs).1.
Proof.
  induction hs as [|h hs IH]; intros via auth Ha; [by split; constructor|]. cbn [redirects]. destruct (10 <=? via)%nat; [by split; constructor|].
  cbv zeta. match goal with |- context [Redirected _ _ ?a] => set (auth' := a) end.
  assert (Hp : auth' = true → permitted (h_host h) (h_scheme h)).
  { unfold auth'. destruct (bool_decide_reflect (h_host h = host tgt)) as [E|E]; [|done]. cbn [negb orb].
    destruct (bool_decide_reflect (h_scheme h = schemeHTTPS)) as [E'|E']; destruct (AllowInsecureAuth cfg) eqn:Ei; cbn [negb andb]; try done;
      (intros [Ht _]%andb_prop; split_and!; auto). }
  clearbody auth'. destruct (IH (S via) auth Ha) as [H1 H2].
  destruct (redirects cfg tgt (S via) auth hs) as [out ok]. split; by constructor.
Qed.
Lemma auth_ok h s : maybeSetBasicAuth cfg tgt h s = true → permitted h s.
Proof.
  unfold maybeSetBasicAuth, safe. destruct (bool_decide_reflect (username tgt = [])); destruct (bool_decide_reflect (password tgt = [])); cbn [andb]; try done;
    (intros [H1%bool_decide_eq_true H2]%andb_prop; apply orb_prop in H2 as [H2%bool_decide_eq_true|H2]; split_and!; auto).
Qed.

Context (He : env_ok).
Lemma get_fetches rawURL limit tooLarge c : run (get e cfg tgt rawURL limit tooLarge) c
  (λ body c' out, bytes_ok body ∧ fetched c 1 out c') (λ _ c' out, ∃ n, fetched c n out c').
Proof.
  unfold get. destruct (url_Parse rawURL) as [u|].
  2: { apply run_throw. exists 0%nat. split_and!; [lia| |constructor|constructor]. rewrite Nat.add_0_r. by destruct c. }
  apply run_bind, run_get, run_bind, run_upd. set (h := removeEmptyPort (Host u)). set (auth := maybeSetBasicAuth cfg tgt h (Scheme u)).
  pose proof (auth_ok h (Scheme u) : auth = true → _) as Hauth. clearbody auth.
  destruct (redirects_ok (hops e (asked c)) 1 auth (λ H, proj2 (proj2 (Hauth H)))) as [H1 H2].
  destruct (redirects cfg tgt 1 auth (hops e (asked c))) as [out ok]. cbn [fst] in H1, H2. apply run_bind, run_emit.
  assert (Hf : fetched c 1 (Requested rawURL h (Scheme u) auth :: out) (set_ticks (S (asked c)) (looks c) c)).
  { split_and!; [lia| |by constructor|by constructor]. by rewrite Nat.add_1_r. }
  assert (Hf' : ∃ n, fetched c n (Requested rawURL h (Scheme u) auth :: out) (set_ticks (S (asked c)) (looks c) c)) by eauto.
  cbn [app]. rewrite <- (app_nil_r (_ :: out)) in Hf, Hf'. destruct ok; cbn [negb]; [|by apply run_throw]. pose proof (He (asked c)) as Hr.
  destruct (replies e (asked c)) as [f|status body broken]; [by apply run_throw|].
  destruct (status =? 200); cbn [negb]; [|by apply run_throw]. cbv zeta. set (n := i64 (limit + 1)).
  destruct (limit <? _); [by apply run_throw|]. destruct (if n <=? 0 then None else broken) as [f|]; [by apply run_throw|].
  apply run_ret. split; [by apply Forall_take|done].
Qed.

(** *** Playing one segment *)

(** [m] plays what [Q] says, within [n] requests, or fails having played something. *)
Definition performs {A} (c : Client) (n : nat) (m : eff Client act cause A) (Q : A → list item → Client → Prop) : Prop :=
  run m c (λ a c' out, ∃ l k, (k ≤ n)%nat ∧ plays c l k out c' ∧ position_kept c c' ∧ Q a l c')
    (λ _ c' out, ∃ l k, (k ≤ n)%nat ∧ plays c l k out c' ∧ position_kept c c').
Lemma performs_bind {A B} c n n' (m : eff Client act cause A) (f : A → eff Client act cause B) Q Q' : performs c n m Q →
  (∀ a l c1, Q a l c1 → demuxer_ok (c_demux c1) → stream_kept c c1 → position_kept c c1 → performs c1 n' (f a) (λ b l2 c2, Q' b (l ++ l2) c2)) →
  performs c (n + n') (m ≫= f) Q'.
Proof.
  intros Hm Hf. apply run_bind. eapply run_weaken; [exact Hm|..]; cbv beta.
  - intros a c1 o1 (l & k & Hk & Hp & Hc & Ha). eapply run_weaken; [apply (Hf a l c1 Ha (pl_ok _ _ _ _ _ Hp) (pl_kept _ _ _ _ _ Hp) Hc)|..]; cbv beta.
    + intros b c2 o2 (l2 & k2 & Hk2 & Hp2 & Hc2 & Hb). exists (l ++ l2), (k + k2)%nat. split; [lia|]. split; [by eapply plays_app|].
      split; [|done]. unfold position_kept in *. intuition congruence.
    + intros x c2 o2 (l2 & k2 & Hk2 & Hp2 & Hc2). exists (l ++ l2), (k + k2)%nat. split; [lia|]. split; [by eapply plays_app|].
      unfold position_kept in *. intuition congruence.
  - intros x c1 o1 (l & k & Hk & Hp & Hc). exists l, k. split; [lia|]. done.
Qed.

Lemma performs_ret {A} (a : A) c n (Q : A → list item → Client → Prop) : demuxer_ok (c_demux c) → Q a [] c → performs c n (mret a) Q.
Proof. intros Hd HQ. apply run_ret. exists [], 0%nat. split; [lia|]. split; [by apply plays_same; first [done|constructor]|]. done. Qed.
Lemma performs_throw {A} x c n (Q : A → list item → Client → Prop) : demuxer_ok (c_demux c) → performs c n (throw_ x) Q.
Proof. intros Hd. apply run_throw. exists [], 0%nat. split; [lia|]. split; [by apply plays_same; first [done|constructor]|]. done. Qed.
Lemma performs_get {A} c n (f : Client → eff Client act cause A) (Q : A → list item → Client → Prop) : performs c n (f c) Q → performs c n (c ← get_; f c) Q.
Proof. intros H. apply run_bind, run_get, H. Qed.
Lemma performs_res {A} (m : res cause A) c n (Q : A → list item → Client → Prop) : demuxer_ok (c_demux c) → m ≠ Panic →
  (∀ a, m = Ok a → Q a [] c) → performs c n (of_res_ m) Q.
Proof. intros Hd Hp HQ. destruct m as [a|x|]; [by apply performs_ret, HQ|by apply performs_throw|done]. Qed.
(** A change of the client that [plays] does not see. *)
Lemma performs_upd f c n (Q : unit → list item → Client → Prop) : plays c [] 0 [] (f c) → position_kept c (f c) → Q tt [] (f c) → performs c n (upd_ f) Q.
Proof. intros Hp Hk HQ. apply run_upd. exists [], 0%nat. split; [lia|]. done. Qed.
Lemma performs_fetch rawURL limit tooLarge c : demuxer_ok (c_demux c) →
  performs c 1 (get e cfg tgt rawURL limit tooLarge) (λ body l c', l = [] ∧ bytes_ok body ∧ c' = set_ticks (S (asked c)) (looks c) c).
Proof.
  intros Hd. eapply run_weaken; [apply get_fetches|..]; cbv beta.
  - intros body c' out [Hb Hf]. exists [], 1%nat. pose proof (plays_fetched _ _ _ _ Hd Hf) as [H1 H2]. split; [lia|]. split; [done|]. split; [done|].
    split; [done|]. split; [done|]. destruct Hf as (_ & -> & _). by rewrite Nat.add_1_r.
  - intros x c' out [n Hf]. exists [], n. pose proof (plays_fetched _ _ _ _ Hd Hf) as [H1 H2]. by split; [apply Hf|].
Qed.

Definition is_frame (a : act) : Prop := match a with OnFrame _ => True | _ => False end.
(** What delivery leaves alone besides. *)
Definition decoder_kept (c c' : Client) : Prop :=
  c_demux c' = c_demux c ∧ c_initURI c' = c_initURI c ∧ c_asc c' = c_asc c ∧ malformedBase c' = malformedBase c.
Definition delivered_as (c : Client) (aus : list tsdemux.AU) (out : list act) (c' : Client) : Prop :=
  plays c (Unit <$> aus) 0 out c' ∧ position_kept c c' ∧ decoder_kept c c' ∧ Forall is_frame out.
Lemma deliverAU_run au c : demuxer_ok (c_demux c) → unit_ok au →
  run (deliverAU cfg au) c (λ _ c' out, delivered_as c [au] out c') (λ _ _ _, False).
Proof.
  intros Hd [Hu1 Hu2]. unfold deliverAU. apply run_bind, run_get, run_bind, run_upd.
  set (c' := set_position _ _ _ _ _). assert (Hp : delivered_as c [au] (if onFrame cfg then [OnFrame (mkFrame au.1 (mediaPTS c) (pendingSeqGap c))] else []) c').
  { split; [split|]; cbn; try done; [by destruct (onFrame cfg)|..].
    - destruct (onFrame cfg) eqn:Eo; constructor; [|constructor]. cbn. split; [done|]. destruct au as [[|x u] dur]; [done|done].
    - by repeat constructor.
    - split; [done|]. split; [done|]. destruct (onFrame cfg); by repeat constructor. }
  by destruct (onFrame cfg).
Qed.
Lemma deliver_run aus : ∀ c, demuxer_ok (c_demux c) → Forall unit_ok aus →
  run (deliver_all cfg aus) c (λ _ c' out, delivered_as c aus out c') (λ _ _ _, False).
Proof.
  induction aus as [|au aus IH]; intros c Hd Ha.
  { apply run_ret. split; [by apply plays_same; first [done|constructor]|]. split; [done|]. split; [done|constructor]. }
  inv Ha. cbn [deliver_all]. apply run_bind. eapply run_weaken; [by apply deliverAU_run|cbv beta|done].
  intros [] c1 o1 (Hp1 & Hk1 & Hd1 & Hf1). eapply run_weaken; [apply IH; [apply Hp1|done]|cbv beta|done].
  intros [] c2 o2 (Hp2 & Hk2 & Hd2 & Hf2). split; [exact (plays_app _ _ _ _ _ _ _ _ _ Hp1 Hp2)|].
  split; [unfold position_kept in *; intuition congruence|]. split; [unfold decoder_kept in *; intuition congruence|by apply Forall_app_2].
Qed.
Lemma deliver_performs aus c n (Q : unit → list item → Client → Prop) : demuxer_ok (c_demux c) → Forall unit_ok aus →
  (∀ c', decoder_kept c c' → Q tt (Unit <$> aus) c') → performs c n (deliver_all cfg aus) Q.
Proof.
  intros Hd Ha HQ. eapply run_weaken; [by apply deliver_run|cbv beta|done]. intros [] c' out (Hp & Hk & Hc & _). exists (Unit <$> aus), 0%nat.
  split; [lia|]. auto.
Qed.
Lemma sync_performs c n (Q : unit → list item → Client → Prop) : demuxer_ok (c_demux c) →
  Q tt [] (set_counters (packets c) (payload c) (u64 (malformedBase c + gapCount (c_demux c))) c) → performs c n syncMalformed Q.
Proof. intros Hd HQ. apply performs_upd; [by apply plays_same; first [done|constructor]|done|done]. Qed.

(** *** A replaced initialization segment *)

(** The swap, in full: the retired demuxer's last units, its count, the new configuration. *)
Definition replaced (u : list Z) (c : Client) (out : list act) (c' : Client) : Prop :=
  ∃ old aus f reqs fs, end_ (c_demux c) = Ok (old, aus) ∧ Forall unit_ok aus ∧ plays c (Unit <$> aus) 1 out c' ∧ position_kept c c' ∧
    out = reqs ++ fs ++ (if bool_decide (c_asc c' = c_asc c) then [] else [OnCodecUpdate (c_asc c')]) ∧ Forall is_request reqs ∧ Forall is_frame fs ∧
    c_demux c' = FMP4 f ∧ c_asc c' = fmp4.audioSpecificConfig f ∧ c_initURI c' = u ∧
    malformedBase c' = u64 (malformedBase c + gapCount old) ∧ malformed c' = malformedBase c'.
Lemma reinit_run u c : demuxer_ok (c_demux c) →
  run (reinitFMP4 e cfg tgt u) c (λ _ c' out, replaced u c out c') (λ _ c' out, ∃ n, fetched c n out c').
Proof.
  intros Hd. unfold reinitFMP4, fetchInitSegment. apply run_bind. eapply run_weaken; [apply get_fetches| |done]. cbv beta.
  intros body c1 o1 [Hb Hf]. assert (Herr : ∃ n, fetched c n (o1 ++ []) c1) by (rewrite app_nil_r; eauto).
  apply run_bind. pose proof (fmp4.newFMP4Demux_returns body Hb) as Hn. apply run_res. destruct (fmp4.newFMP4Demux body) as [f|x|]; [|done|done].
  destruct Hn as [Hfd Hg0]. cbn [with_cause audioSpecificConfig any_demuxer fmp4_demuxer]. set (asc := fmp4.audioSpecificConfig f).
  apply run_bind, run_get. cbv zeta.
  destruct Hf as (_ & -> & Ha1 & Hr1). set (c1 := set_ticks _ _ c).
  destruct (negb _ && negb (onCodecUpdate cfg)) eqn:Eu; [by apply run_throw|].
  apply run_bind. apply run_res. destruct (end_returns (c_demux c1) Hd) as (old & aus & Ee & Hod & Hau & _). rewrite Ee. cbn [with_cause].
  apply run_bind. eapply run_weaken; [by apply deliver_run|cbv beta|done]. intros [] c2 o2 (Hp & Hk & (Hk1 & Hk2 & Hk3 & Hk4) & Hfr).
  apply run_bind, run_upd, run_bind. apply run_upd. cbv beta. set (c3 := set_counters _ _ _ _).
  assert (H1 : plays c [] 1 o1 c1) by (by apply plays_fetched).
  assert (H2 : ∀ c4 o4, c_demux c4 = FMP4 f → stream_kept c2 c4 → mediaPTS c4 = mediaPTS c2 → pendingSeqGap c4 = pendingSeqGap c2 →
    asked c4 = asked c2 → frames o4 = [] → Forall act_ok o4 → plays c (Unit <$> aus) 1 (o1 ++ o2 ++ o4) c4).
  { intros c4 o4 Ed ? ? ? ? ? ?. assert (Hs : plays c2 [] 0 o4 c4) by (by apply plays_same; [rewrite Ed|..]).
    pose proof (plays_app _ _ _ _ _ _ _ _ _ H1 (plays_app _ _ _ _ _ _ _ _ _ Hp Hs)) as Ht. by rewrite app_nil_r in Ht. }
  assert (H3 : malformed c3 = malformedBase c3).
  { unfold c3. cbn. rewrite Hg0, Z.add_0_r. apply u64_small, u64_range. }
  assert (H4 : Forall act_ok [OnCodecUpdate asc] ∨ asc = c_asc c).
  { destruct (bool_decide_reflect (asc = c_asc c1)) as [E|E]; [by right|left]. repeat constructor. cbn. by destruct (onCodecUpdate cfg). }
  destruct (bool_decide_reflect (asc = c_asc c1)) as [E|E]; cbn [negb].
  - apply run_ret. exists old, aus, f, o1, o2. split_and!; try done.
    + apply (H2 c3 []); done.
    + rewrite bool_decide_eq_true_2 by (unfold c3; cbn; by rewrite Hk3). cbn [app]. by rewrite !app_nil_r.
    + unfold c3. cbn. by rewrite Hk3.
    + unfold c3. cbn. by rewrite Hk4.
  - apply run_bind, run_upd. apply run_emit. destruct H4 as [H4|H4]; [|done]. exists old, aus, f, o1, o2. split_and!; try done.
    + apply (H2 (set_asc asc c3) [OnCodecUpdate asc]); done.
    + cbn [c_asc set_asc]. rewrite bool_decide_eq_false_2 by done. cbn [app]. by rewrite ?app_nil_r.
    + unfold c3. cbn. by rewrite Hk4.
Qed.

(** *** A segment, and a playlist *)
Definition own (s : mediaSegment) (l : list item) : Prop := if gap s then l = [Gap (duration s)] else ∃ aus, Forall unit_ok aus ∧ l = Unit <$> aus.
Lemma reinit_performs u c : demuxer_ok (c_demux c) → performs c 1 (reinitFMP4 e cfg tgt u) (λ _ l _, ∃ aus, Forall unit_ok aus ∧ l = Unit <$> aus).
Proof.
  intros Hd. eapply run_weaken; [by apply reinit_run|..]; cbv beta.
  - intros _ c' out (old & aus & f & r & fs & _ & Ha & Hp & Hk & _). exists (Unit <$> aus), 1%nat. eauto 10.
  - intros _ c' out [n Hf]. pose proof (plays_fetched _ _ _ _ Hd Hf) as [H1 H2]. exists [], n. split; [apply Hf|done].
Qed.
Lemma segment_performs s disc c : demuxer_ok (c_demux c) → performs c 2 (processSegment e cfg tgt s disc) (λ _ l _, own s l).
Proof.
  intros Hd. unfold processSegment, own. destruct (gap s).
  { apply run_upd. exists [Gap (duration s)], 0%nat. split; [lia|]. split; [|done]. split; cbn; try done; [by destruct (onFrame cfg)|by repeat constructor]. }
  apply performs_get. apply (performs_bind c 1 1 _ _ (λ _ l _, ∃ aus, Forall unit_ok aus ∧ l = Unit <$> aus)).
  { destruct (bool_decide _); [apply performs_ret; [done|by exists []]|]. destruct (bool_decide _); [by apply performs_throw|].
    destruct (bool_decide _); [by apply performs_throw|by apply reinit_performs]. }
  intros [] l1 c1 (aus1 & Ha1 & ->) Hd1 _ _. apply (performs_bind c1 1 0 _ _ _ _ (performs_fetch _ _ _ c1 Hd1)).
  intros body l2 c2 (-> & Hb & ->) Hd2 _ _. apply performs_get. set (c2 := set_ticks _ _ c1) in *.
  destruct (demux_returns body disc (c_demux c2) Hd2 Hb) as (d & aus & derr & Ed & Hd3 & Hau & _). rewrite Ed.
  apply (performs_bind c2 0 0 _ _ (λ x l c', x = (d, aus, derr) ∧ l = [] ∧ c' = c2)); [by apply performs_res; [..|intros ? [= <-]]|].
  intros _ _ _ (-> & -> & ->) _ _ _.
  apply (performs_bind c2 0 0 _ _ (λ _ l c', l = [] ∧ c' = set_demux d c2)).
  { by apply performs_upd; [apply plays_same; first [done|constructor]|..]. }
  intros [] _ _ (-> & ->) Hd4 _ _. eapply (performs_bind _ 0 0); [by eapply (deliver_performs aus _ 0 (λ _ l _, l = Unit <$> aus))|].
  intros [] _ c4 -> Hd5 _ _. eapply (performs_bind _ 0 0); [by eapply (sync_performs _ 0 (λ _ l _, l = []))|].
  intros [] _ c5 -> Hd6 _ _. destruct derr as [x|]; [by apply performs_throw|]. apply performs_ret; [done|]. exists (aus1 ++ aus).
  split; [by apply Forall_app_2|]. by rewrite fmap_app, app_nil_r.
Qed.

(** The same for a whole playlist: the position moves, a terminal cause may come, and stays. *)
Definition ends_kept (c c' : Client) : Prop := ∀ why, termErr c = Some why → termErr c' = Some why.
Definition advances (c : Client) (n : nat) (out : list act) (c' : Client) (l : list item) : Prop :=
  (∃ k, (k ≤ n)%nat ∧ plays c l k out c') ∧ ends_kept c c'.
Lemma advances_app c n1 o1 c1 l1 n2 o2 c2 l2 : advances c n1 o1 c1 l1 → advances c1 n2 o2 c2 l2 → advances c (n1 + n2) (o1 ++ o2) c2 (l1 ++ l2).
Proof.
  intros [(k1 & Hk1 & Hp1) He1] [(k2 & Hk2 & Hp2) He2]. split; [|intros why H; by apply He2, He1].
  exists (k1 + k2)%nat. split; [lia|by eapply plays_app].
Qed.
Lemma advances_same c c' : demuxer_ok (c_demux c') → stream_kept c c' → mediaPTS c' = mediaPTS c → pendingSeqGap c' = pendingSeqGap c →
  asked c' = asked c → ends_kept c c' → advances c 0 [] c' [].
Proof. intros. split; [|done]. exists 0%nat. split; [lia|]. by apply plays_same. Qed.
(** A look at the shutdown, or one's own. *)
Definition looked (c c' : Client) (out : list act) : Prop := out = [] ∧ advances c 0 [] c' [] ∧ lastSeq c' = lastSeq c ∧ c_demux c' = c_demux c.
Lemma looked_term c c' : demuxer_ok (c_demux c) → c' = set_term (termErr c') (set_ticks (asked c) (looks c') c) → ends_kept c c' → looked c c' [].
Proof. intros Hd -> Hk. split; [done|]. split; [|done]. by apply advances_same. Qed.
Lemma look_run c : demuxer_ok (c_demux c) → run (look e) c (λ _ c' out, looked c c' out) (λ _ _ _, False).
Proof.
  intros Hd. apply run_upd. apply looked_term; [done|by destruct c as [????????????? ? [w|]]|]. intros why H. cbn. by rewrite H.
Qed.
Lemma looked_trans c c1 c2 o1 o2 : looked c c1 o1 → looked c1 c2 o2 → looked c c2 (o1 ++ o2).
Proof.
  intros (-> & H1 & H2 & H3) (-> & H4 & H5 & H6). split; [done|]. split; [apply (advances_app _ _ _ _ _ _ _ _ _ H1 H4)|]. split; congruence.
Qed.
Lemma closed_run c : demuxer_ok (c_demux c) →
  run (closed e) c (λ b c' out, looked c c' out ∧ (if b : bool then termErr c' ≠ None else termErr c' = None)) (λ _ _ _, False).
Proof.
  intros Hd. unfold closed. apply run_bind. eapply run_weaken; [by apply look_run|cbv beta|done]. intros [] c1 o1 H. apply run_bind, run_get, run_ret.
  cbn [app]. rewrite app_nil_r. split; [done|]. by destruct (termErr c1).
Qed.
Lemma shutdown_run why c : demuxer_ok (c_demux c) →
  run (initiateShutdown e why) c (λ _ c' out, looked c c' out ∧ termErr c' ≠ None) (λ _ _ _, False).
Proof.
  intros Hd. unfold initiateShutdown. apply run_bind. eapply run_weaken; [by apply look_run|cbv beta|done]. intros [] c1 o1 H. apply run_upd.
  assert (Hd1 : demuxer_ok (c_demux c1)) by (destruct H as (_ & _ & _ & ->); done).
  split; [|by destruct (termErr c1) eqn:E; [rewrite E|]]. eapply looked_trans; [exact H|]. apply looked_term; [done|by destruct c1 as [????????????? ? [w|]]|].
  intros w H'. by rewrite H'.
Qed.

Lemma process_run segs : ∀ b c, demuxer_ok (c_demux c) → run (process_list e cfg tgt b segs) c
  (λ _ c' out, ∃ l, advances c (2 * length segs) out c' l ∧ (termErr c' = None → round b (lastSeq c) segs l (lastSeq c'))) (λ _ _ _, False).
Proof.
  induction segs as [|s segs IH]; intros b c Hd.
  { apply run_ret. exists []. split; [by apply advances_same; [..|intros why]|]. intros _. constructor. }
  cbn [process_list length]. apply run_bind, run_get. destruct (Z.leb_spec (seq s) (lastSeq c)) as [Hs|Hs].
  { eapply run_weaken; [by apply IH|cbv beta|done]. intros _ c' out (l & Hl & Hr). exists l. cbn [app]. split; [|intros H; by apply round_old, Hr].
    destruct Hl as [(k & Hk & Hp) He']. split; [|done]. exists k. split; [lia|done]. }
  set (jump := if negb b && (u64 (lastSeq c + 1) <? seq s) then [Lost (missed (lastSeq c) (seq s))] else []).
  apply run_bind. eapply (run_weaken _ _ (λ _ c' out, plays c jump 0 out c' ∧ ends_kept c c' ∧ lastSeq c' = lastSeq c) _ (λ _ _ _, False)); [|cbv beta|done].
  { unfold jump. destruct (negb b && _); [apply run_upd|apply run_ret]; (split; [|by split; [intros why|]]).
    - split; cbn; try done; [by destruct (onFrame cfg)|by repeat constructor; apply missed_nonneg].
    - by apply plays_same; first [done|constructor]. }
  intros [] c1 o1 (Hp1 & He1 & Hl1). apply run_bind, run_get, run_bind, run_try.
  eapply run_weaken; [apply segment_performs, Hp1|..]; cbv beta.
  - intros [] c2 o2 (own' & k2 & Hk2 & Hp2 & (Hq2 & _ & Ht2 & _) & Hown). apply run_bind, run_upd, run_bind.
    set (c3 := set_position _ _ _ _ c2). eapply run_weaken; [apply closed_run, Hp2|cbv beta|done].
    intros stop c4 o4 [(-> & Ha4 & Hl4 & Hd4) Hstop].
    assert (H4 : advances c 2 (o1 ++ o2 ++ []) c4 (jump ++ own' ++ [])).
    { apply (advances_app c 0 o1 c1 jump 2 (o2 ++ []) c4 (own' ++ [])); [by split; [exists 0%nat; split; [lia|]|]|].
      apply (advances_app c1 2 o2 c3 own' 0 [] c4 []); [|exact Ha4]. split; [exists k2; split; [lia|]|intros why H; cbn; by rewrite Ht2].
      by apply (plays_moved _ _ _ _ _ c3 Hp2). }
    destruct stop.
    + apply run_ret. exists (jump ++ own' ++ []). split; [|done]. destruct H4 as [(k & Hk & Hp) He4]. split; [|done]. exists k. split; [lia|].
      by rewrite ?app_nil_r in *; cbn [app].
    + eapply run_weaken; [apply IH; rewrite Hd4; apply Hp2|cbv beta|done]. intros b' c5 o5 (l & Hl5 & Hr5). exists (jump ++ own' ++ l). split.
      * pose proof (advances_app _ _ _ _ _ _ _ _ _ H4 Hl5) as H. rewrite <- !app_assoc in H. cbn [app] in *.
        destruct H as [(k & Hk & Hp) Hke]. split; [|done]. exists k. split; [lia|done].
      * intros Ht. rewrite Hl4 in Hr5. by eapply round_new; [lia|done|exact Hown|apply Hr5].
  - intros x c2 o2 (own' & k2 & Hk2 & Hp2 & (Hq2 & _ & Ht2 & _)). apply run_bind.
    eapply run_weaken; [apply shutdown_run, Hp2|cbv beta|done]. intros [] c3 o3 [(-> & Ha3 & _) Ht3]. apply run_ret.
    exists (jump ++ own' ++ []). split; [|done]. cbn [app]. rewrite !app_nil_r.
    assert (H : advances c 2 (o1 ++ o2 ++ []) c3 (jump ++ own' ++ [])).
    { apply (advances_app c 0 o1 c1 jump 2 (o2 ++ []) c3 (own' ++ [])); [by split; [exists 0%nat; split; [lia|]|]|].
      apply (advances_app c1 2 o2 c2 own' 0 [] c3 []); [|exact Ha3]. split; [exists k2; split; [lia|done]|intros why H; by rewrite Ht2]. }
    rewrite !app_nil_r in H. destruct H as [(k & Hk & Hp) Hke]. split; [|done]. exists k. split; [lia|done].
Qed.

(** *** The playlists, and the whole stream *)

(** Requests only. *)
Definition quiet (c : Client) (out : list act) (c' : Client) : Prop := Forall act_ok out ∧ Forall is_request out ∧ ∃ a, c' = set_ticks a (looks c) c.
Lemma quiet_same c : quiet c [] c.
Proof. split_and!; [constructor|constructor|exists (asked c); by destruct c]. Qed.
Lemma quiet_trans c o1 c1 o2 c2 : quiet c o1 c1 → quiet c1 o2 c2 → quiet c (o1 ++ o2) c2.
Proof. intros (H1 & H2 & a & ->) (H3 & H4 & a' & ->). split_and!; [by apply Forall_app_2..|by exists a']. Qed.
Lemma get_quiet rawURL limit tooLarge c : run (get e cfg tgt rawURL limit tooLarge) c
  (λ body c' out, bytes_ok body ∧ quiet c out c') (λ _ c' out, quiet c out c').
Proof.
  eapply run_weaken; [apply get_fetches|..]; cbv beta.
  - intros body c' out (Hb & _ & -> & H1 & H2). split; [done|]. split_and!; eauto.
  - intros x c' out (n & _ & -> & H1 & H2). split_and!; eauto.
Qed.
(** [m] makes requests only, and its value is described by [Q]. *)
Definition asks {A} (m : eff Client act cause A) (Q : A → Prop) : Prop :=
  ∀ c, run m c (λ a c' out, quiet c out c' ∧ Q a) (λ _ c' out, quiet c out c').
Lemma asks_bind {A B} (m : eff Client act cause A) (f : A → eff Client act cause B) Q Q' : asks m Q → (∀ a, Q a → asks (f a) Q') → asks (m ≫= f) Q'.
Proof.
  intros Hm Hf c. apply run_bind. eapply run_weaken; [apply Hm|cbv beta|done]. intros a c1 o1 [H1 Ha].
  eapply run_weaken; [by apply Hf|..]; cbv beta; [intros b c2 o2 [H2 Hb]; split; [|done]|intros x c2 o2 H2]; by eapply quiet_trans.
Qed.
Lemma asks_ret {A} (a : A) (Q : A → Prop) : Q a → asks (mret a) Q.
Proof. intros H c. apply run_ret. split; [apply quiet_same|done]. Qed.
Lemma asks_throw {A} x (Q : A → Prop) : asks (throw_ x) Q.
Proof. intros c. apply run_throw, quiet_same. Qed.
Lemma asks_res {A} (m : res cause A) (Q : A → Prop) : returns m Q → asks (of_res_ m) Q.
Proof. intros H c. apply run_res. destruct m; [split; [apply quiet_same|done]|apply quiet_same|done]. Qed.
Lemma asks_get rawURL limit tooLarge : asks (get e cfg tgt rawURL limit tooLarge) bytes_ok.
Proof. intros c. eapply run_weaken; [apply get_quiet|cbv beta|done]. by intros body c' out [? ?]. Qed.
Lemma returns_cause {E A} (f : E → cause) (m : res E A) (Q : A → Prop) : returns m Q → returns (with_cause f m) Q.
Proof. by destruct m. Qed.
Lemma fetchMediaPlaylist_asks rawURL : asks (fetchMediaPlaylist e cfg tgt rawURL) (λ r, playlist_ok r.1 ∧ is_Some r.2).
Proof.
  eapply asks_bind; [apply asks_get|]. intros body _. destruct (url_Parse rawURL) as [b|]; [|apply asks_throw].
  eapply asks_bind; [apply asks_res, returns_cause, parsePlaylist_ok|]. intros [m|ms] Hm; [apply asks_ret; split; [apply Hm|by eexists]|].
  eapply asks_bind; [apply asks_res, returns_cause, selectMediaURL_chosen|]. intros u _.
  destruct (url_Parse u) as [mb|] eqn:Eu.
  - apply (asks_bind _ _ bytes_ok); [apply asks_get|]. intros mBody _.
    eapply asks_bind; [apply asks_res, returns_cause, parsePlaylist_ok|]. intros [m|ms'] Hm2; [apply asks_ret; split; [apply Hm2|by eexists]|apply asks_throw].
  - intros c. apply run_bind. unfold get. rewrite Eu. apply run_throw, quiet_same.
Qed.

(** From a state to a state with what was heard in between. *)
Definition streams (c : Client) (out : list act) (c' : Client) : Prop :=
  (∃ l, counted l ∧ heard c l out c') ∧ Forall act_ok out ∧ ends_kept c c' ∧ demuxer_ok (c_demux c').
Lemma streams_trans c o1 c1 o2 c2 : streams c o1 c1 → streams c1 o2 c2 → streams c (o1 ++ o2) c2.
Proof.
  intros [(l1 & Hc1 & Hh1) (Ha1 & He1 & _)] [(l2 & Hc2 & Hh2) (Ha2 & He2 & Hd)]. split; [|split; [by apply Forall_app_2|split; [|done]]].
  - exists (l1 ++ l2). split; [by apply Forall_app_2|by eapply heard_app].
  - intros why H. by apply He2, He1.
Qed.
Lemma streams_same c c' : demuxer_ok (c_demux c') → mediaPTS c' = mediaPTS c → pendingSeqGap c' = pendingSeqGap c → ends_kept c c' → streams c [] c'.
Proof.
  intros Hd Hp Hg Ht. split; [|by split; [constructor|]]. exists []. split; [constructor|]. split; cbn; [by destruct (onFrame cfg)|congruence].
Qed.
Lemma streams_quiet c out c' : demuxer_ok (c_demux c) → quiet c out c' → streams c out c'.
Proof.
  intros Hd (Ha & Hr & a & ->). split; [|by split; [|split; [intros why|]]]. exists []. split; [constructor|].
  split; cbn; [rewrite no_frames by done; by destruct (onFrame cfg)|done].
Qed.
Lemma advances_streams c n out c' l : advances c n out c' l → streams c out c'.
Proof. intros [(k & _ & [F P A K C D S]) He']. split; [by exists l|]. by split. Qed.
Lemma looked_streams c c' out : looked c c' out → streams c out c'.
Proof. intros (-> & H & _). by eapply advances_streams. Qed.
Lemma delivered_streams c aus out c' : delivered_as c aus out c' → streams c out c'.
Proof.
  intros ([F P A K C D S] & (_ & _ & Ht & _) & _). split; [|split; [done|split; [|done]]].
  - by exists (Unit <$> aus).
  - intros why H. congruence.
Qed.

Definition one_pass (c c' : Client) : Prop := (asked c' ≤ asked c + 2 * length (segments (c_media c)))%nat.
Lemma flush_run c : demuxer_ok (c_demux c) →
  run ('(d, aus) ← of_res_ (with_cause no_fail (end_ (c_demux c))); _ ← upd_ (set_demux d); _ ← deliver_all cfg aus; _ ← syncMalformed;
       _ ← initiateShutdown e ErrStreamEnded; mret true) c
    (λ b c' out, b = true ∧ streams c out c' ∧ termErr c' ≠ None ∧ asked c' = asked c) (λ _ _ _, False).
Proof.
  intros Hd. apply run_bind, run_res. destruct (end_returns (c_demux c) Hd) as (d & aus & -> & Hd1 & Ha & _). cbn [with_cause].
  apply run_bind, run_upd, run_bind. set (c1 := set_demux d c).
  eapply run_weaken; [by apply deliver_run|cbv beta|done]. intros [] c2 o2 Hdel. apply run_bind, run_upd, run_bind.
  set (c3 := set_counters _ _ _ _). pose proof (delivered_streams _ _ _ _ Hdel) as H2. destruct Hdel as ([_ _ A2 _ _ D2 _] & _).
  eapply run_weaken; [by apply shutdown_run|cbv beta|done]. intros [] c4 o4 [Hl4 Ht4]. apply run_ret. split; [done|].
  assert (H1 : streams c [] c1) by (apply streams_same; [done|done|done|by intros why]).
  assert (H3 : streams c2 [] c3) by (apply streams_same; [done|done|done|by intros why]).
  pose proof (streams_trans _ _ _ _ _ H1 (streams_trans _ _ _ _ _ H2 (streams_trans _ _ _ _ _ H3 (looked_streams _ _ _ Hl4)))) as H.
  cbn [app] in *. rewrite app_nil_r. split; [done|]. split; [done|].
  destruct Hl4 as (_ & [(k & Hk & [_ _ A4 _ _ _ _]) _] & _). cbn in A2, A4. lia.
Qed.
Lemma reloadWait_run c : demuxer_ok (c_demux c) →
  run (reloadWait e) c (λ b c' out, looked c c' out ∧ (b = false → termErr c' ≠ None)) (λ _ _ _, False).
Proof.
  intros Hd. unfold reloadWait. apply run_bind. eapply run_weaken; [by apply closed_run|cbv beta|done]. intros stop c1 o1 [H1 Ht].
  apply run_bind, run_get, run_ret. cbn [app]. rewrite app_nil_r. split; [done|]. by destruct stop.
Qed.
Lemma runSegments_run fuel : ∀ c, demuxer_ok (c_demux c) → is_Some (c_mediaURL c) → run (runSegments e cfg tgt fuel) c
  (λ b c' out, streams c out c' ∧ (b = true → termErr c' ≠ None) ∧
    ((0 < fuel)%nat → endList (c_media c) = true → b = true ∧ one_pass c c')) (λ _ _ _, False).
Proof.
  induction fuel as [|fuel IH]; intros c Hd Hu.
  { apply run_ret. split; [|split; [done|lia]]. by apply streams_same; [..|intros why]. }
  cbn [runSegments]. unfold processNewSegments. apply run_bind, run_bind, run_get.
  eapply run_weaken; [by apply process_run|cbv beta|done]. intros b1 c1 o1 (l & Hadv & _). pose proof (advances_streams _ _ _ _ _ Hadv) as H1.
  destruct Hadv as [(k & Hk & [_ _ A1 _ _ D1 (M1 & U1 & _)]) _]. apply run_bind.
  eapply run_weaken; [by apply closed_run|cbv beta|done]. intros stop c2 o2 [Hl2 Ht2]. pose proof (looked_streams _ _ _ Hl2) as H2.
  pose proof (streams_trans _ _ _ _ _ H1 H2) as H12. destruct Hl2 as (-> & [(k2 & Hk2 & [_ _ A2 _ _ D2 (M2 & U2 & _)]) _] & _). cbn [app] in *.
  assert (Hone : one_pass c c2) by (unfold one_pass; lia).
  destruct stop; [apply run_ret; rewrite !app_nil_r in *; done|]. apply run_bind, run_get.
  rewrite M2, M1. destruct (endList (c_media c)) eqn:Eend.
  { eapply run_weaken; [by apply flush_run|cbv beta|done]. intros b c3 o3 (-> & H3 & Ht3 & A3). cbn [app].
    pose proof (streams_trans _ _ _ _ _ H12 H3) as H. rewrite <- app_assoc in H. cbn [app] in H. split; [done|]. split; [done|].
    intros _ _. split; [done|]. unfold one_pass in *. lia. }
  apply run_bind. eapply run_weaken; [by apply reloadWait_run|cbv beta|done]. intros go c3 o3 [Hl3 Hgo]. pose proof (looked_streams _ _ _ Hl3) as H3.
  pose proof (streams_trans _ _ _ _ _ H12 H3) as H13. destruct Hl3 as (-> & [(k3 & Hk3 & [_ _ _ _ _ D3 (_ & _ & _)]) _] & _). rewrite !app_nil_r in H13.
  destruct go; cbn [negb]; [|apply run_ret; rewrite ?app_nil_r; cbn [app]; rewrite ?app_nil_r; split; [done|]; split; [auto|done]].
  rewrite U2, U1. destruct Hu as [u ->]. apply run_bind, run_try. eapply run_weaken; [apply fetchMediaPlaylist_asks|..]; cbv beta.
  - intros [m mu] c4 o4 [H4 [_ Hmu]]. pose proof (streams_trans _ _ _ _ _ H13 (streams_quiet _ _ _ D3 H4)) as H14. apply run_bind, run_upd.
    set (c5 := set_playlist m mu c4). assert (D5 : demuxer_ok (c_demux c5)) by apply H14.
    eapply run_weaken; [by apply IH|cbv beta|done]. intros b c6 o6 (H6 & Ht6 & _). split; [|done]. cbn [app].
    assert (H45 : streams c4 [] c5) by (apply streams_same; [done|done|done|by intros why]).
    pose proof (streams_trans _ _ _ _ _ H14 (streams_trans _ _ _ _ _ H45 H6)) as H. rewrite <- app_assoc in H. exact H.
  - intros x c4 o4 H4. pose proof (streams_trans _ _ _ _ _ H13 (streams_quiet _ _ _ D3 H4)) as H14. apply run_bind.
    eapply run_weaken; [apply shutdown_run, H14|cbv beta|done]. intros [] c5 o5 [Hl5 Ht5]. apply run_ret. split; [|done].
    pose proof (streams_trans _ _ _ _ _ H14 (looked_streams _ _ _ Hl5)) as H. rewrite <- app_assoc in H. cbn [app]. by rewrite app_nil_r.
Qed.

(** Open: requests only, and then a client that can play. *)
Definition playable (c : Client) : Prop := demuxer_ok (c_demux c) ∧ is_Some (c_mediaURL c) ∧ Forall unit_ok (pending c).
Lemma openHandshake_run : run (openHandshake e cfg tgt) new_client
  (λ _ c' out, playable c' ∧ Forall act_ok out ∧ Forall is_request out ∧ mediaPTS c' = 0 ∧ pendingSeqGap c' = 0 ∧ termErr c' = None)
  (λ _ c' out, Forall act_ok out ∧ Forall is_request out).
Proof.
  unfold openHandshake. apply run_bind. eapply run_weaken; [apply fetchMediaPlaylist_asks|cbv beta|by intros x c' out (? & ? & _)].
  intros [m u] c1 o1 [(H1 & H2 & a & ->) [_ Hu]]. set (c1 := set_ticks a _ new_client).
  destruct (firstPlayable m) as [s|]; [|apply run_throw; rewrite app_nil_r; done].
  assert (Hask : asks (buildDemuxer e cfg tgt s) demuxer_ok).
  { unfold buildDemuxer. destruct (bool_decide _); [apply asks_ret, tsdemux.newTSDemux_ok|].
    eapply asks_bind; [apply asks_get|]. intros b Hb. pose proof (fmp4.newFMP4Demux_returns b Hb) as Hn.
    eapply asks_bind; [apply asks_res, returns_cause|intros f Hf; exact (asks_ret (FMP4 f) _ Hf)].
    destruct (fmp4.newFMP4Demux b); [apply Hn|done|done]. }
  apply run_bind. eapply run_weaken; [apply Hask|cbv beta|intros x c' out (? & ? & _); split; by apply Forall_app_2].
  intros d c2 o2 [(H3 & H4 & a2 & ->) Hd]. set (c2 := set_ticks a2 _ c1).
  apply run_bind. eapply run_weaken; [apply asks_get|cbv beta|intros x c' out (? & ? & _); split; by repeat apply Forall_app_2].
  intros body c3 o3 [(H5 & H6 & a3 & ->) Hb]. set (c3 := set_ticks a3 _ c2). apply run_bind, run_res.
  destruct (demux_returns body false d Hd Hb) as (d' & aus & derr & -> & Hd' & Hau & _). cbn [with_cause].
  assert (Hout : Forall act_ok (o1 ++ o2 ++ o3 ++ [] ++ []) ∧ Forall is_request (o1 ++ o2 ++ o3 ++ [] ++ [])) by
    (cbn [app]; rewrite app_nil_r; split; by repeat apply Forall_app_2).
  destruct derr as [x|]; [by apply run_throw|]. destruct (audioSpecificConfig d') as [asc|]; [|by apply run_throw].
  apply run_upd. split; [by split; [|split]|]. by destruct Hout.
Qed.

Lemma session_run fuel : run (session e cfg tgt fuel) new_client
  (λ b c' out, (∃ l, counted l ∧ frames out = if onFrame cfg then (stamp 0 0 l).1 else []) ∧ Forall act_ok out ∧ (b = true → termErr c' ≠ None))
  (λ _ c' out, Forall act_ok out ∧ frames out = []).
Proof.
  unfold session. apply run_bind. eapply run_weaken; [apply openHandshake_run|cbv beta|intros x c' out [Ha Hr]; split; [done|by apply no_frames]].
  intros [] c1 o1 ((Hd1 & Hu1 & Hp1) & Ha1 & Hr1 & Hm1 & Hg1 & _). unfold reader, deliverPending. apply run_bind, run_bind, run_get, run_bind.
  eapply run_weaken; [by apply deliver_run|cbv beta|done]. intros [] c2 o2 Hdel. pose proof (delivered_streams _ _ _ _ Hdel) as H2.
  destruct Hdel as ([_ _ _ _ _ D2 (_ & U2 & _)] & _). apply run_bind, run_upd. apply run_upd. set (c4 := set_counters _ _ _ _).
  assert (H4 : streams c2 [] c4) by (apply streams_same; [done|done|done|by intros why]).
  eapply run_weaken; [apply runSegments_run; [exact D2|by rewrite <- U2 in Hu1]|cbv beta|done]. intros b c5 o5 (H5 & Ht5 & _).
  pose proof (streams_trans _ _ _ _ _ H2 (streams_trans _ _ _ _ _ H4 H5)) as [(l & Hl & Hf & _) (Ha & _)]. cbn [app] in *. rewrite app_nil_r.
  split; [|split; [by apply Forall_app_2|done]]. exists l. split; [done|]. rewrite Hm1, Hg1 in Hf. by rewrite acts_frames_app, no_frames.
Qed.
End play.

(** *** Losses, counted *)
Fixpoint consecutive (n : Z) (segs : list mediaSegment) : Prop :=
  match segs with [] => True | s :: segs => seq s = n ∧ consecutive (n + 1) segs end.
(** The segments past [last] that are not marked as missing. *)
Definition played (last : Z) (segs : list mediaSegment) : Z := blen (List.filter (λ s, (last <? seq s) && negb (gap s)) segs).
Lemma played_from n last last' segs : consecutive n segs → last < n → last' < n → played last segs = played last' segs.
Proof.
  revert n. unfold played. induction segs as [|s segs IH]; intros n Hc Hl Hl'; [done|]. destruct Hc as [Hs Hc]. cbn [List.filter].
  rewrite (proj2 (Z.ltb_lt last (seq s))), (proj2 (Z.ltb_lt last' (seq s))) by lia. cbn [andb].
  specialize (IH (n + 1) Hc ltac:(lia) ltac:(lia)). destruct (gap s); cbn [negb]; [done|]. by rewrite !blen_cons, IH.
Qed.
Lemma round_losses b last segs l last' : round b last segs l last' → ∀ n, consecutive n segs → 0 ≤ last < 2 ^ 63 → (b = true → n ≤ last + 1) → 0 ≤ n →
  n + blen segs ≤ 2 ^ 63 → losses l = last' - last - played last segs ∧ last ≤ last' < 2 ^ 63.
Proof.
  induction 1 as [b last|b last s segs l last' Hs _ IH|b last s segs jump own' l last' Hs -> Hown Hr IH]; intros n Hc Hlast Hb Hn Hlen.
  - unfold played, losses. cbn [List.filter foldr]. unfold blen. cbn [length]. lia.
  - destruct Hc as [Hc1 Hc2]. rewrite blen_cons in Hlen. destruct (IH (n + 1) Hc2) as [H1 H2]; [done|intros ->; specialize (Hb eq_refl); lia|lia|lia|].
    split; [|done]. rewrite H1. unfold played. cbn [List.filter]. by rewrite (proj2 (Z.ltb_ge last (seq s))) by lia.
  - destruct Hc as [Hc1 Hc2]. rewrite blen_cons in Hlen. pose proof (blen_nonneg segs). destruct (IH (n + 1) Hc2) as [H1 H2]; [lia|lia|lia|lia|].
    split; [|lia]. rewrite !losses_app, H1. rewrite (played_from (n + 1) (seq s) last segs) by (done || lia).
    assert (Hown' : losses own' = if gap s then 1 else 0) by (destruct (gap s); [by rewrite Hown|destruct Hown as (aus & _ & ->); apply losses_units]).
    rewrite Hown'. unfold played. cbn [List.filter]. rewrite (proj2 (Z.ltb_lt last (seq s))) by lia. cbn [andb].
    rewrite (u64_small (last + 1)) by (unfold is_u64; lia).
    assert (Hj : losses (if negb b && (last + 1 <? seq s) then [Lost (missed last (seq s))] else []) = seq s - last - 1).
    { destruct b; cbn [negb andb]; [specialize (Hb eq_refl); cbn; lia|]. destruct (Z.ltb_spec (last + 1) (seq s)); [|cbn; lia].
      cbn. unfold missed, MaxInt. rewrite u64_small by (unfold is_u64; lia). lia. }
    rewrite Hj. destruct (gap s); cbn [negb]; rewrite ?blen_cons; lia.
Qed.

Lemma round_last b last segs l last' : round b last segs l last' → ∀ n, consecutive n segs → last' ≤ Z.max last (n + blen segs - 1).
Proof.
  induction 1 as [b last|b last s segs l last' Hs _ IH|b last s segs jump own' l last' Hs _ _ _ IH]; intros n Hc; [lia|..];
    destruct Hc as [Hc1 Hc2]; specialize (IH (n + 1) Hc2); rewrite blen_cons; pose proof (blen_nonneg segs); lia.
Qed.

(** ** What an HLS source promises *)

(** C7: one pass over a playlist that numbers its segments consecutively from a
    media sequence n implements [round], and no loss is dropped or reported twice.  The client
    delivers frames and can play; the last number played and the numbers of the playlist
    are below 2^63, and the losses pending with those the pass can add stay below 2^63 (beyond that the count of losses
    wraps: [negative_SeqGap] below).  As long as the stream
    goes on, the segments past the last one played, and no others, are played in order, those marked as missing
    advance the clock, a window that moved on is noticed, and
    the losses reported by the frames and those still to be reported are those pending before
    and exactly the numbers passed over that were not played; within these bounds no frame reports a
    negative number.  However the pass ends, it makes at most two requests for each segment. *)
Theorem hls_losses_reported {U : NetURL} e cfg tgt c n : env_ok e → demuxer_ok (c_demux c) → onFrame cfg = true →
  consecutive n (segments (c_media c)) → 0 ≤ n → n + blen (segments (c_media c)) ≤ 2 ^ 63 →
  0 ≤ lastSeq c < 2 ^ 63 → 0 ≤ pendingSeqGap c → pendingSeqGap c + Z.max 0 (n + blen (segments (c_media c)) - lastSeq c) < 2 ^ 63 →
  let '(c', out, _) := processNewSegments e cfg tgt c in
  (asked c' ≤ asked c + 2 * length (segments (c_media c)))%nat ∧
  (termErr c' = None →
    (∃ l, round false (lastSeq c) (segments (c_media c)) l (lastSeq c') ∧
      (frames out, (mediaPTS c', pendingSeqGap c')) = stamp (mediaPTS c) (pendingSeqGap c) l) ∧
    reports (frames out) + pendingSeqGap c' = pendingSeqGap c + (lastSeq c' - lastSeq c - played (lastSeq c) (segments (c_media c))) ∧
    Forall (λ f, 0 ≤ SeqGap f) (frames out)).
Proof.
  intros He Hd Ho Hc Hn Hlen Hl Hg Hsum. pose proof (process_run e cfg tgt He (segments (c_media c)) false c Hd) as H. unfold run in H.
  unfold processNewSegments, get_, mbind, eff_bind. destruct (process_list _ _ _ _ _ c) as [[c' out] [b|x|]]; [|done|done]. cbn [app].
  destruct H as (l & [(k & Hk & [F P A _ C _ _]) _] & Hr). rewrite Ho in F. split; [lia|]. intros Ht. specialize (Hr Ht).
  destruct (round_losses _ _ _ _ _ Hr n Hc Hl ltac:(done) Hn Hlen) as [Hloss Hlast].
  split; [exists l; split; [done|]; rewrite F, P; by destruct (stamp _ _ l)|].
  assert (Hb : losses l ≤ Z.max 0 (n + blen (segments (c_media c)) - lastSeq c)).
  { rewrite Hloss. pose proof (round_last _ _ _ _ _ Hr n Hc). unfold played. pose proof (blen_nonneg (List.filter (λ s, (lastSeq c <? seq s) && negb (gap s)) (segments (c_media c)))). lia. }
  pose proof (stamp_losses l C (mediaPTS c) (pendingSeqGap c) Hg ltac:(lia)) as Hs. rewrite F.
  destruct (stamp _ _ l) as [fs [p' g']]. cbn [fst snd] in P |- *. injection P as _ ->. destruct Hs as (H1 & H2 & _). split; [lia|done].
Qed.

(** C39: a playlist that is complete is played to its end.  From any client that can play, one pass of the reader over a playlist with
    EXT-X-ENDLIST returns with a terminal cause, after at most two requests (an initialization segment and a
    segment) for each of its segments, whatever the servers answer. *)
Theorem hls_vod_ends {U : NetURL} e cfg tgt c fuel : env_ok e → demuxer_ok (c_demux c) → is_Some (c_mediaURL c) → endList (c_media c) = true →
  ∃ c' out, runSegments e cfg tgt (S fuel) c = (c', out, Ok true) ∧ termErr c' ≠ None ∧ (asked c' ≤ asked c + 2 * length (segments (c_media c)))%nat.
Proof.
  intros He Hd Hu Hend. pose proof (runSegments_run e cfg tgt He (S fuel) c Hd Hu) as H. unfold run in H.
  destruct (runSegments _ _ _ _ c) as [[c' out] [b|x|]]; [|done|done]. destruct H as (_ & H1 & H2). destruct (H2 ltac:(lia) Hend) as [-> H3].
  exists c', out. split; [done|]. by split; [apply H1|].
Qed.

(** C10: a replaced initialization segment takes effect in full or not at all.  If it cannot be fetched or
    parsed, or changes the audio configuration with no callback to tell it to, the client is as before but
    for the request made, and nothing is delivered.  Otherwise the last units of the retired demuxer are delivered
    first; then the new configuration is announced, exactly if it differs from the one in
    effect; the client has the new demuxer, and the count of malformed data carries on where the
    retired one left it. *)
Theorem hls_reinit_atomic {U : NetURL} e cfg tgt u c : env_ok e → demuxer_ok (c_demux c) →
  match reinitFMP4 e cfg tgt u c with
  | (c', out, Ok _) => replaced cfg tgt u c out c'
  | (c', out, Err _) => ∃ n, (n ≤ 1)%nat ∧ c' = set_ticks (asked c + n) (looks c) c ∧ Forall is_request out
  | (_, _, Panic) => False
  end.
Proof.
  intros He Hd. pose proof (reinit_run e cfg tgt He u c Hd) as H. unfold run in H. destruct (reinitFMP4 _ _ _ _ c) as [[c' out] [b|x|]]; [done| |done].
  destruct H as (n & Hn & -> & _ & Hr). by exists n.
Qed.

(** ** Examples *)
Definition example_cfg : Config := applyDefaults (mkConfig (str "http://h/live.m3u8") [] [] 0 0 false [] 0 0 true true).
Definition example_tgt : target := mkTarget (str "http://h/live.m3u8") (str "h") (str "me") (str "secret").
Definition lines_text (l : list string) : list Z := concat ((λ s, str s ++ [10]) <$> l).
Definition quoted (s : string) : list Z := str "#EXT-X-MAP:URI=" ++ [34] ++ str s ++ [34; 10].
(** Three segments, the second missing. *)
Definition example_playlist : list Z :=
  lines_text ["#EXTM3U"; "#EXT-X-TARGETDURATION:10"; "#EXT-X-MEDIA-SEQUENCE:20"]%string ++ quoted "http://h/i.mp4" ++
  lines_text ["#EXTINF:9,"; "http://cdn/a.m4s"; "#EXT-X-GAP"; "#EXTINF:6,"; "http://h/b.m4s"; "#EXTINF:9,"; "https://h/c.m4s"; "#EXT-X-ENDLIST"]%string.
Definition answers (l : list (list Z)) (n : nat) : reply := match l !! n with Some b => Reply 200 b None | None => NoReply NetTimeout end.
Definition example_env : env :=
  mkEnv (λ n, if Nat.eqb n 0 then [mkHop (str "h") (str "http") true] else if Nat.eqb n 1 then [mkHop (str "h") (str "https") true] else [mkHop (str "cdn") (str "https") true])
    (answers [example_playlist; fmp4.example_init; fmp4.example_frag; fmp4.example_frag]) (λ _, None) (λ _, false).
Lemma octets (l : list Z) : forallb (λ x, (0 <=? x) && (x <? 256)) l = true → bytes_ok l.
Proof. intros H. apply Forall_forall. intros x Hx. rewrite forallb_forall in H. specialize (H x Hx). apply andb_true_iff in H as [? ?]. unfold is_u8. lia. Qed.
Lemma answers_ok e l : replies e = answers l → forallb (forallb (λ x, (0 <=? x) && (x <? 256))) l = true → env_ok e.
Proof.
  intros He H i. rewrite He. unfold answers. destruct (l !! i) as [b|] eqn:E; [|done]. apply octets. rewrite forallb_forall in H. apply H, list_elem_of_In. by eapply list_elem_of_lookup_2.
Qed.
Example example_session : let '(c, out, r) := @session controlurl.textual example_env example_cfg example_tgt 1 new_client in
  r = Ok true ∧ termErr c = Some ErrStreamEnded ∧ asked c = 4%nat ∧
  ((λ f, (length (Data f), PTS f, SeqGap f)) <$> frames out) =
    [(2%nat, 0, 0); (4%nat, 23219954, 0); (3%nat, 34829931, 0); (2%nat, 6058049885, 1); (4%nat, 6081269839, 0); (3%nat, 6092879816, 0)].
Proof. vm_compute. done. Qed.

Lemma example_env_ok : env_ok example_env.
Proof. by apply (answers_ok _ [example_playlist; fmp4.example_init; fmp4.example_frag; fmp4.example_frag]); [|vm_compute]. Qed.
(** A client that last played segment 10, and the playlist above; the network gives its next two segments. *)
Definition example_demuxer : demuxer := match fmp4.newFMP4Demux fmp4.example_init with Ok d => FMP4 d | _ => TS tsdemux.newTSDemux end.
Definition example_media : mediaPlaylist := match @parsePlaylist controlurl.textual None example_playlist with Ok (Media m) => m | _ => no_media end.
Definition example_client (asc : list Z) : @Client controlurl.textual :=
  @set_playlist controlurl.textual example_media (@url_Parse controlurl.textual (str "http://h/live.m3u8"))
    (@set_position controlurl.textual 10 7 2 false (@set_init controlurl.textual example_demuxer (str "http://h/i.mp4") 5 (@set_asc controlurl.textual asc new_client))).
Definition example_env2 : env := mkEnv (λ _, []) (answers [fmp4.example_frag; fmp4.example_frag]) (λ _, None) (λ _, false).
Definition example_env3 : env := mkEnv (λ _, []) (answers [fmp4.example_init]) (λ _, None) (λ _, false).
Lemma example_demuxer_ok : demuxer_ok example_demuxer.
Proof.
  unfold example_demuxer. assert (Hb : bytes_ok fmp4.example_init) by (apply octets; by vm_compute).
  pose proof (fmp4.newFMP4Demux_returns _ Hb) as H. destruct (fmp4.newFMP4Demux _); [apply H|apply tsdemux.newTSDemux_ok|done].
Qed.
Lemma example_env2_ok : env_ok example_env2.
Proof. by apply (answers_ok _ [fmp4.example_frag; fmp4.example_frag]); [|vm_compute]. Qed.
Lemma example_env3_ok : env_ok example_env3.
Proof. by apply (answers_ok _ [fmp4.example_init]); [|vm_compute]. Qed.
Lemma example_segments : segments example_media = [
  mkSegment (str "http://cdn/a.m4s") (str "http://h/i.mp4") 20 9000000000 false false; mkSegment (str "http://h/b.m4s") (str "http://h/i.mp4") 21 6000000000 false true;
  mkSegment (str "https://h/c.m4s") (str "http://h/i.mp4") 22 9000000000 false false].
Proof. vm_compute. reflexivity. Qed.
Definition example_listener : @Client controlurl.textual := example_client [18; 16].
Lemma hls_losses_reported_witness :
  (let '(c', out, _) := @processNewSegments controlurl.textual example_env2 example_cfg example_tgt example_listener in
   (asked c' ≤ asked example_listener + 2 * length (segments (c_media example_listener)))%nat ∧
   (termErr c' = None →
     (∃ l, round false (lastSeq example_listener) (segments (c_media example_listener)) l (lastSeq c') ∧
       (frames out, (mediaPTS c', pendingSeqGap c')) = stamp (mediaPTS example_listener) (pendingSeqGap example_listener) l) ∧
     reports (frames out) + pendingSeqGap c' = pendingSeqGap example_listener +
       (lastSeq c' - lastSeq example_listener - played (lastSeq example_listener) (segments (c_media example_listener))) ∧
     Forall (λ f, 0 ≤ SeqGap f) (frames out))) ∧
  (let '(c', out, _) := @processNewSegments controlurl.textual example_env2 example_cfg example_tgt example_listener in
   termErr c' = None ∧ lastSeq c' = 22 ∧ SeqGap <$> frames out = [11; 0; 0; 1; 0; 0]).
Proof.
  split; [|vm_compute; split; [reflexivity|split; reflexivity]].
  assert (Hc : consecutive 20 (segments (c_media example_listener)) ∧ blen (segments (c_media example_listener)) = 3).
  { change (c_media example_listener) with example_media. rewrite example_segments. cbn. split; [|reflexivity]. split; [reflexivity|]. split; [reflexivity|]. split; [reflexivity|exact I]. }
  destruct Hc as [Hc Hl]. assert (Hs : lastSeq example_listener = 10 ∧ pendingSeqGap example_listener = 2) by (split; reflexivity). destruct Hs as [Hs Hg].
  apply (@hls_losses_reported controlurl.textual example_env2 example_cfg example_tgt example_listener 20 example_env2_ok example_demuxer_ok);
    [reflexivity|exact Hc|lia..].
Defined.
Lemma hls_vod_ends_witness :
  ∃ c' out, @runSegments controlurl.textual example_env2 example_cfg example_tgt 1 (example_client [18; 16]) = (c', out, Ok true) ∧ termErr c' ≠ None ∧
    (asked c' ≤ 0 + 2 * 3)%nat.
Proof.
  apply (@hls_vod_ends controlurl.textual example_env2 example_cfg example_tgt (example_client [18; 16]) 0 example_env2_ok example_demuxer_ok).
  - vm_compute. eexists. reflexivity.
  - vm_compute. reflexivity.
Defined.
(** A configuration that differs is announced, with a callback; the same one is not. *)
Lemma hls_reinit_atomic_witness :
  match @reinitFMP4 controlurl.textual example_env3 example_cfg example_tgt (str "http://h/j.mp4") (example_client [17; 144]) with
  | (c', out, Ok _) => @replaced controlurl.textual example_cfg example_tgt (str "http://h/j.mp4") (example_client [17; 144]) out c'
  | (c', out, Err _) => ∃ n, (n ≤ 1)%nat ∧
      c' = @set_ticks controlurl.textual (@asked controlurl.textual (example_client [17; 144]) + n) (@looks controlurl.textual (example_client [17; 144])) (example_client [17; 144]) ∧
      Forall is_request out
  | (_, _, Panic) => False
  end ∧
  (@reinitFMP4 controlurl.textual example_env3 example_cfg example_tgt (str "http://h/j.mp4") (example_client [17; 144])).1.2 =
    [Requested (str "http://h/j.mp4") (str "h") (str "http") false; OnCodecUpdate [18; 16]].
Proof.
  split; [|vm_compute; reflexivity].
  exact (@hls_reinit_atomic controlurl.textual example_env3 example_cfg example_tgt (str "http://h/j.mp4") (example_client [17; 144]) example_env3_ok example_demuxer_ok).
Defined.

(** The clamp on a hostile jump of the numbers is no protection: one missing segment more, and the
    count wraps.  Segments from 2^63 + 5 on after number 0, the first marked as missing: the next frame
    reports -2^63 losses. *)
Definition hostile_media : mediaPlaylist := mkPlaylist 6 Second 0 0 false [
  mkSegment (str "http://h/b.m4s") (str "http://h/i.mp4") (2 ^ 63 + 5) 6000000000 false true;
  mkSegment (str "https://h/c.m4s") (str "http://h/i.mp4") (2 ^ 63 + 6) 9000000000 false false].
Definition hostile_client : @Client controlurl.textual :=
  @set_playlist controlurl.textual hostile_media None (@set_position controlurl.textual 0 0 0 false (example_client [18; 16])).
Example negative_SeqGap : let '(c', out, _) := @processNewSegments controlurl.textual example_env2 example_cfg example_tgt hostile_client in
  termErr c' = None ∧ SeqGap <$> frames out = [- 2 ^ 63; 0; 0].
Proof. vm_compute. split; reflexivity. Qed.
(** A cap of the largest [int], to mean none, makes every body empty. *)
Example no_cap_reads_nothing :
  (@get controlurl.textual example_env example_cfg example_tgt (str "http://h/live.m3u8") MaxInt ErrPlaylistTooLarge new_client).2 = Ok [].
Proof. vm_compute. reflexivity. Qed.
End hlsplay.
