(* ===== verification/HlsStory.v ===== *)
(** * What an HLS session tells: [hlssource/client.go] against its network

    A description of a session from outside, over the answers of the servers in the order of the
    requests: which playlist is read, which URL is asked next, which demuxer gets which body,
    and what is heard of each.  It has no client and no clock; the theorem says that a session of [Hls]
    makes exactly these requests and delivers exactly these units of audio, stamped as [HlsPlay.stamp] says. *)
From Stdlib Require Import Ascii String.
From S2P Require Import Prelude Bytes Text TsDemux Fmp4 ControlUrl UrlTarget Playlist Effect Hls HlsPlay.

Module hlsstory.
Import playlist hlssource hlsplay.

Section story.
Context {U : NetURL} (e : env) (cfg : Config) (tgt : target).

(** ** Requests *)

(** Request number [k], for [u]: followed over at most nine redirects to a whole body within the limit. *)
Definition answered (k : nat) (u : list Z) (limit : Z) (body : list Z) : Prop :=
  is_Some (url_Parse u) ∧ (length (hops e k) ≤ 9)%nat ∧ replies e k = Reply 200 body None ∧ blen body ≤ limit.
Definition unanswered (k : nat) (u : list Z) (limit : Z) : Prop := ¬ ∃ body, answered k u limit body.
(** A URL that does not parse is not asked for. *)
Definition tried (u : list Z) : list (list Z) := match url_Parse u with Some _ => [u] | None => [] end.

(** The media playlist behind [u], over a master playlist at most, from request [k] on. *)
Inductive serves (k : nat) (u : list Z) : mediaPlaylist → option url → list (list Z) → Prop :=
  | serves_media body base m : answered k u (MaxPlaylistBytes cfg) body → url_Parse u = Some base →
      parsePlaylist (Some base) body = Ok (Media m) → serves k u m (Some base) [u]
  | serves_master body base ms v mbody m : answered k u (MaxPlaylistBytes cfg) body → url_Parse u = Some base →
      parsePlaylist (Some base) body = Ok (Master ms) → selectMediaURL ms = Ok v → answered (S k) v (MaxPlaylistBytes cfg) mbody →
      parsePlaylist (url_Parse v) mbody = Ok (Media m) → serves k u m (url_Parse v) [u; v].

(** ** Playback *)

(** Where playback is: the last number, the requests made, the decoder and what it was set up from, and
    whether continuity is broken. *)
Record place := mkPlace { p_last : Z; p_asked : nat; p_demux : demuxer; p_init : list Z; p_asc : list Z; p_disc : bool }.
Definition after (us : list (list Z)) (p : place) : place :=
  mkPlace (p_last p) (p_asked p + length us) (p_demux p) (p_init p) (p_asc p) (p_disc p).
Definition decoding (d : demuxer) (p : place) : place := mkPlace (p_last p) (p_asked p) d (p_init p) (p_asc p) (p_disc p).
Definition moved (s : mediaSegment) (p : place) : place := mkPlace (seq s) (p_asked p) (p_demux p) (p_init p) (p_asc p) (gap s).

(** The decoder for a segment: the one in use, or a new one from another initialization segment,
    once the old one has given its last units. *)
Inductive joins (p : place) (s : mediaSegment) : list tsdemux.AU → list (list Z) → place → Prop :=
  | joins_same : initURI s = p_init p → joins p s [] [] p
  | joins_new body f old aus : initURI s ≠ p_init p → initURI s ≠ [] → p_init p ≠ [] →
      answered (p_asked p) (initURI s) (MaxSegmentBytes cfg) body → fmp4.newFMP4Demux body = Ok f →
      fmp4.audioSpecificConfig f = p_asc p ∨ onCodecUpdate cfg = true → end_ (p_demux p) = Ok (old, aus) →
      joins p s aus [initURI s] (mkPlace (p_last p) (S (p_asked p)) (FMP4 f) (initURI s) (fmp4.audioSpecificConfig f) (p_disc p)).

(** A segment is heard: a missing one as the time it takes, any other as the units its decoder
    makes of its body. *)
Inductive hears (p : place) (s : mediaSegment) (disc : bool) : list item → list (list Z) → place → Prop :=
  | hears_gap : gap s = true → hears p s disc [Gap (duration s)] [] p
  | hears_units aus1 us p1 body d aus2 : gap s = false → joins p s aus1 us p1 →
      answered (p_asked p1) (uri s) (MaxSegmentBytes cfg) body → demux body disc (p_demux p1) = Ok (d, aus2, None) →
      hears p s disc (Unit <$> aus1 ++ aus2) (us ++ [uri s]) (decoding d (after [uri s] p1)).
(** Or it ends the session, after the units that came before the failure. *)
Inductive halts (p : place) (s : mediaSegment) (disc : bool) : list item → list (list Z) → Prop :=
  | halts_join us : gap s = false → (¬ ∃ aus us p1, joins p s aus us p1) → us = [] ∨ us = [initURI s] → halts p s disc [] us
  | halts_body aus1 us p1 : gap s = false → joins p s aus1 us p1 → unanswered (p_asked p1) (uri s) (MaxSegmentBytes cfg) →
      halts p s disc (Unit <$> aus1) (us ++ tried (uri s))
  | halts_demux aus1 us p1 body d aus2 x : gap s = false → joins p s aus1 us p1 →
      answered (p_asked p1) (uri s) (MaxSegmentBytes cfg) body → demux body disc (p_demux p1) = Ok (d, aus2, Some x) →
      halts p s disc (Unit <$> aus1 ++ aus2) (us ++ [uri s]).

(** Somebody else ended the session. *)
Definition disturbed : Prop := ∃ k, is_Some (shuts e k).

(** One pass over a playlist; whether it was the last. *)
Definition jump (b : bool) (p : place) (s : mediaSegment) : bool := negb b && (u64 (p_last p + 1) <? seq s).
Definition lost (b : bool) (p : place) (s : mediaSegment) : list item := if jump b p s then [Lost (missed (p_last p) (seq s))] else [].
Definition noticed (b : bool) (p : place) (s : mediaSegment) : place :=
  mkPlace (p_last p) (p_asked p) (p_demux p) (p_init p) (p_asc p) (jump b p s || p_disc p).
Inductive passes : bool → place → list mediaSegment → list item → list (list Z) → place → bool → Prop :=
  | passes_end b p : passes b p [] [] [] p false
  | passes_old b p s segs l us p' z : seq s ≤ p_last p → passes b p segs l us p' z → passes b p (s :: segs) l us p' z
  | passes_new b p s segs l1 us1 p1 l2 us2 p2 z : p_last p < seq s → hears (noticed b p s) s (p_disc (noticed b p s) || discontinuity s) l1 us1 p1 →
      passes true (moved s p1) segs l2 us2 p2 z → passes b p (s :: segs) (lost b p s ++ l1 ++ l2) (us1 ++ us2) p2 z
  | passes_cut b p s segs l us p1 : p_last p < seq s → hears (noticed b p s) s (p_disc (noticed b p s) || discontinuity s) l us p1 → disturbed →
      passes b p (s :: segs) (lost b p s ++ l) us (moved s p1) true
  | passes_halt b p s segs l us p' : p_last p < seq s → halts (noticed b p s) s (p_disc (noticed b p s) || discontinuity s) l us → passes b p (s :: segs) (lost b p s ++ l) us p' true.

(** The passes over at most [n] playlists, to the end of the session or ([false]) until they are used up. *)
Inductive follows : nat → place → mediaPlaylist → option url → list item → list (list Z) → bool → Prop :=
  | follows_on p m u : follows 0 p m u [] [] false
  | follows_halt n p m u l us p' : passes false p (segments m) l us p' true → follows (S n) p m u l us true
  | follows_cut n p m u l us p' : passes false p (segments m) l us p' false → disturbed → follows (S n) p m u l us true
  | follows_end n p m u l us p' d aus : passes false p (segments m) l us p' false → endList m = true →
      end_ (p_demux p') = Ok (d, aus) → follows (S n) p m u (l ++ (Unit <$> aus)) us true
  | follows_lost n p m u l us p' us1 : passes false p (segments m) l us p' false → endList m = false →
      (¬ ∃ m' u' us', serves (p_asked p') (url_String u) m' u' us') → (length us1 ≤ 2)%nat → follows (S n) p m (Some u) l (us ++ us1) true
  | follows_next n p m u l us p' m' u' us1 l2 us2 z : passes false p (segments m) l us p' false → endList m = false →
      serves (p_asked p') (url_String u) m' u' us1 → follows n (after us1 p') m' u' l2 us2 z →
      follows (S n) p m (Some u) (l ++ l2) (us ++ us1 ++ us2) z.

(** The decoder for the first segment, asked for from request [k] on. *)
Definition builds (k : nat) (s : mediaSegment) (d : demuxer) (us : list (list Z)) : Prop :=
  initURI s = [] ∧ d = TS tsdemux.newTSDemux ∧ us = [] ∨
  ∃ ib f, initURI s ≠ [] ∧ answered k (initURI s) (MaxSegmentBytes cfg) ib ∧ fmp4.newFMP4Demux ib = Ok f ∧ d = FMP4 f ∧ us = [initURI s].
(** Open: the playlist, the decoder for its first segment that is not missing, and that segment. *)
Inductive opens : place → mediaPlaylist → option url → list tsdemux.AU → list (list Z) → Prop :=
  | opens_with m u us1 pre s post d0 us2 body d aus asc : serves 0 (requestURL tgt) m u us1 →
      segments m = pre ++ s :: post → Forall (λ s, gap s = true) pre → gap s = false →
      builds (length us1) s d0 us2 → answered (length (us1 ++ us2)) (uri s) (MaxSegmentBytes cfg) body → demux body false d0 = Ok (d, aus, None) → audioSpecificConfig d = Some asc →
      opens (mkPlace (seq s) (length (us1 ++ us2 ++ [uri s])) d (initURI s) asc false) m u aus (us1 ++ us2 ++ [uri s]).

(** ** The session *)
Definition place_of (c : Client) : place := mkPlace (lastSeq c) (asked c) (c_demux c) (c_initURI c) (c_asc c) (pendingDisc c).
Definition urls (out : list act) : list (list Z) := omap (λ a, match a with Requested u _ _ _ => Some u | _ => None end) out.

(** [l] was delivered and [us] asked for. *)
Definition told (c : Client) (l : list item) (us : list (list Z)) (out : list act) (c' : Client) : Prop :=
  heard cfg c l out c' ∧ urls out = us ∧ asked c' = (asked c + length us)%nat.
Lemma told_app c l1 us1 o1 c1 l2 us2 o2 c2 : told c l1 us1 o1 c1 → told c1 l2 us2 o2 c2 → told c (l1 ++ l2) (us1 ++ us2) (o1 ++ o2) c2.
Proof.
  intros (H1 & <- & A1) (H2 & <- & A2). split; [by eapply heard_app|]. split; [apply omap_app|]. rewrite length_app. lia.
Qed.
Lemma told_same c c' : mediaPTS c' = mediaPTS c → pendingSeqGap c' = pendingSeqGap c → asked c' = asked c → told c [] [] [] c'.
Proof. intros Hp Hg Ha. split; [|split; [done|cbn; lia]]. split; cbn; [by destruct (onFrame cfg)|congruence]. Qed.
Lemma told_moved c l us out c1 c2 : told c l us out c1 → mediaPTS c2 = mediaPTS c1 → pendingSeqGap c2 = pendingSeqGap c1 → asked c2 = asked c1 → told c l us out c2.
Proof. intros ([F P] & H2 & H3) Hp Hg Ha. split; [|split; [done|lia]]. split; [done|congruence]. Qed.

(** What playing a segment leaves alone. *)
Definition kept (c c' : Client) : Prop := position_kept c c' ∧ stream_kept c c' ∧ demuxer_ok (c_demux c').
Lemma kept_trans c c1 c2 : kept c c1 → kept c1 c2 → kept c c2.
Proof. intros (H1 & H2 & _) (H3 & H4 & H5). unfold kept, position_kept, stream_kept in *. intuition congruence. Qed.

Context (He : env_ok e) (Hseg : 0 ≤ MaxSegmentBytes cfg < MaxInt) (Hlist : 0 ≤ MaxPlaylistBytes cfg < MaxInt).

Lemma redirects_followed hs : ∀ via auth, (via ≤ 10)%nat → urls (redirects cfg tgt via auth hs).1 = [] ∧ frames (redirects cfg tgt via auth hs).1 = [] ∧
  (redirects cfg tgt via auth hs).2 = (via + length hs <=? 10)%nat.
Proof.
  induction hs as [|h hs IH]; intros via auth Hv; cbn [redirects length fst snd].
  { rewrite Nat.add_0_r. by rewrite (proj2 (Nat.leb_le _ _) Hv). }
  destruct (Nat.leb_spec 10 via) as [Hb|Hb]; cbn [fst snd]; [by rewrite (proj2 (Nat.leb_gt _ _)) by lia|].
  destruct (IH (S via) auth Hb) as (H1 & H2 & H3). destruct (redirects cfg tgt (S via) auth hs) as [out ok]. cbn [fst snd] in *.
  split; [done|]. split; [done|]. rewrite H3. f_equal. lia.
Qed.

Lemma get_tells u limit tooLarge c : 0 ≤ limit < MaxInt → run (get e cfg tgt u limit tooLarge) c
  (λ body c' out, told c [] [u] out c' ∧ answered (asked c) u limit body ∧ bytes_ok body ∧ c' = set_ticks (S (asked c)) (looks c) c)
  (λ _ c' out, told c [] (tried u) out c' ∧ unanswered (asked c) u limit ∧ c' = set_ticks (asked c + length (tried u)) (looks c) c).
Proof.
  intros Hl. unfold get, unanswered, answered, tried. destruct (url_Parse u) as [v|] eqn:Eu.
  2: { apply run_throw. split; [by apply told_same|]. split; [by intros (body & [? ?] & _)|]. cbn. rewrite Nat.add_0_r. by destruct c. }
  apply run_bind, run_get, run_bind, run_upd. set (h := removeEmptyPort (Host v)). set (auth := maybeSetBasicAuth cfg tgt h (Scheme v)).
  destruct (redirects_followed (hops e (asked c)) 1 auth ltac:(lia)) as (H1 & H2 & H3).
  destruct (redirects cfg tgt 1 auth (hops e (asked c))) as [out ok]. cbn [fst snd] in *. apply run_bind, run_emit.
  assert (Htold : told c [] [u] (Requested u h (Scheme v) auth :: out ++ []) (set_ticks (S (asked c)) (looks c) c)).
  { rewrite app_nil_r. assert (Hu : urls (Requested u h (Scheme v) auth :: out) = u :: urls out) by done. rewrite H1 in Hu.
    split; [split; [|done]|split; [done|cbn; lia]]. change (frames (Requested u h (Scheme v) auth :: out)) with (frames out). rewrite H2. by destruct (onFrame cfg). }
  cbn [length]. rewrite Nat.add_1_r. cbn [app].
  assert (Hfail : ∀ A (x : cause), (¬ ∃ body, is_Some (Some v) ∧ (length (hops e (asked c)) ≤ 9)%nat ∧ replies e (asked c) = Reply 200 body None ∧ blen body ≤ limit) →
    run (throw_ (A:=A) x) (set_ticks (S (asked c)) (looks c) c) (λ _ _ _, False) (λ _ c' o, told c [] [u] (Requested u h (Scheme v) auth :: out ++ o) c' ∧
      (¬ ∃ body, is_Some (Some v) ∧ (length (hops e (asked c)) ≤ 9)%nat ∧ replies e (asked c) = Reply 200 body None ∧ blen body ≤ limit) ∧
      c' = set_ticks (S (asked c)) (looks c) c))
    by (intros A x Hn; apply run_throw; split; [exact Htold|split; [exact Hn|done]]).
  rewrite H3. destruct (Nat.leb_spec (1 + length (hops e (asked c))) 10) as [Hh|Hh]; cbn [negb].
  2: { eapply run_weaken; [refine (Hfail _ _ _)|cbv beta; by intros ? ? ? []|intros ? ? ? HR; exact HR]. intros (body & _ & ? & _). lia. }
  pose proof (He (asked c)) as Hb. destruct (replies e (asked c)) as [f|status body broken] eqn:Er.
  { eapply run_weaken; [refine (Hfail _ _ _)|cbv beta; by intros ? ? ? []|intros ? ? ? HR; exact HR]. by intros (body & _ & _ & ? & _). }
  destruct (Z.eqb_spec status 200) as [->|Hs]; cbn [negb].
  2: { eapply run_weaken; [refine (Hfail _ _ _)|cbv beta; by intros ? ? ? []|intros ? ? ? HR; exact HR]. intros (b & _ & _ & [= ? ? ?] & _). done. }
  cbv zeta. unfold MaxInt in Hl. rewrite (i64_small (limit + 1)) by lia.
  destruct (Z.ltb_spec limit (blen (take (Z.to_nat (limit + 1)) body))) as [Hlen|Hlen].
  { eapply run_weaken; [refine (Hfail _ _ _)|cbv beta; by intros ? ? ? []|intros ? ? ? HR; exact HR]. intros (b & _ & _ & [= <- _] & ?). rewrite take_ge in Hlen; unfold blen in *; lia. }
  assert (Ht : take (Z.to_nat (limit + 1)) body = body).
  { apply take_ge. unfold blen in Hlen. rewrite length_take in Hlen. lia. }
  rewrite Ht in *. destruct (Z.leb_spec (limit + 1) 0); [lia|]. destruct broken as [f|].
  { eapply run_weaken; [refine (Hfail _ _ _)|cbv beta; by intros ? ? ? []|intros ? ? ? HR; exact HR]. intros (b & _ & _ & [=] & _). }
  apply run_ret. split; [done|]. split; [|by split]. split; [by eexists|]. split; [lia|]. by split.
Qed.

(** *** A segment *)
Lemma units_tell aus c : demuxer_ok (c_demux c) → Forall unit_ok aus →
  run (deliver_all cfg aus) c (λ _ c' out, told c (Unit <$> aus) [] out c' ∧ place_of c' = place_of c ∧ kept c c') (λ _ _ _, False).
Proof.
  intros Hd Ha. eapply run_weaken; [by apply (deliver_run cfg tgt)|cbv beta|done]. intros [] c' out ([F P A _ _ D S] & Hp & Hk & Hf).
  assert (Hu : urls out = []) by (clear - Hf; induction Hf as [|a out Ha _ IH]; [done|]; by destruct a).
  split; [split; [done|split; [done|cbn; lia]]|]. split; [|by split].
  destruct Hp as (P1 & P2 & _), Hk as (K1 & K2 & K3 & _). unfold place_of. rewrite P1, P2, K1, K2, K3, A. by rewrite Nat.add_0_r.
Qed.

Lemma set_ticks_kept c n : demuxer_ok (c_demux c) → kept c (set_ticks n (looks c) c).
Proof. intros Hd. unfold kept, position_kept, stream_kept. by split_and!. Qed.
Lemma set_ticks_place c us : place_of (set_ticks (asked c + length us) (looks c) c) = after us (place_of c).
Proof. done. Qed.

(** A new initialization segment that can be used, for the decoder of [c]. *)
Definition fits (u : list Z) (c : Client) (f : fmp4.fmp4Demux) : Prop :=
  ∃ body, answered (asked c) u (MaxSegmentBytes cfg) body ∧ fmp4.newFMP4Demux body = Ok f ∧ (fmp4.audioSpecificConfig f = c_asc c ∨ onCodecUpdate cfg = true).
Lemma reinit_tells u c : demuxer_ok (c_demux c) → run (reinitFMP4 e cfg tgt u) c
  (λ _ c' out, ∃ f old aus, fits u c f ∧ end_ (c_demux c) = Ok (old, aus) ∧ told c (Unit <$> aus) [u] out c' ∧
    place_of c' = mkPlace (lastSeq c) (S (asked c)) (FMP4 f) u (fmp4.audioSpecificConfig f) (pendingDisc c) ∧ kept c c')
  (λ _ c' out, told c [] (tried u) out c' ∧ (¬ ∃ f, fits u c f) ∧ kept c c').
Proof.
  intros Hd. unfold reinitFMP4, fetchInitSegment, fits. apply run_bind. eapply run_weaken; [by apply get_tells| |]; cbv beta.
  2: { intros x c' out (Ht & Hn & ->). split; [done|]. split; [|by apply set_ticks_kept]. intros (f & body & Hb & _). apply Hn. by exists body. }
  intros body c1 o1 (Ht & Hans & Hb & ->). set (c1 := set_ticks _ _ c) in *. assert (Hk1 : kept c c1) by by apply set_ticks_kept.
  assert (Htr : tried u = [u]). { unfold tried. destruct Hans as ([v ->] & _). done. }
  assert (Hsame : ∀ body', answered (asked c) u (MaxSegmentBytes cfg) body' → body' = body).
  { intros body' (_ & _ & E & _). destruct Hans as (_ & _ & E' & _). congruence. }
  apply run_bind. pose proof (fmp4.newFMP4Demux_returns body Hb) as Hn. apply run_res. destruct (fmp4.newFMP4Demux body) as [f|x|] eqn:Ef; [| |done]; cbn [with_cause].
  2: { rewrite app_nil_r, Htr. split; [done|]. split; [|done]. intros (f & body' & Hb' & E & _). rewrite (Hsame _ Hb') in E. congruence. }
  cbn [audioSpecificConfig any_demuxer fmp4_demuxer]. set (asc := fmp4.audioSpecificConfig f). apply run_bind, run_get. cbv zeta.
  change (c_asc c1) with (c_asc c). destruct (negb (bool_decide (asc = c_asc c)) && negb (onCodecUpdate cfg)) eqn:Eu.
  { apply run_throw. rewrite app_nil_r, Htr. split; [done|]. split; [|done]. apply andb_prop in Eu as [Ha%negb_true_iff%bool_decide_eq_false Ho%negb_true_iff].
    intros (f' & body' & Hb' & E & Hor). rewrite (Hsame _ Hb') in E. assert (f' = f) as -> by congruence. destruct Hor as [Hor|Hor]; [by apply Ha|congruence]. }
  assert (Hor : asc = c_asc c ∨ onCodecUpdate cfg = true).
  { destruct (bool_decide_reflect (asc = c_asc c)); [by left|]. cbn in Eu. right. by destruct (onCodecUpdate cfg). }
  apply run_bind, run_res. destruct (end_returns (c_demux c) Hd) as (old & aus & Ee & Hod & Hau & _). change (c_demux c1) with (c_demux c). rewrite Ee. cbn [with_cause].
  apply run_bind. eapply run_weaken; [by apply units_tell|cbv beta|done]. intros [] c2 o2 (Ht2 & Hp2 & Hk2). apply run_bind, run_upd, run_bind. apply run_upd. cbv beta.
  set (c3 := set_counters _ _ _ _). pose proof (told_app _ _ _ _ _ _ _ _ _ Ht Ht2) as Ht12. cbn [app] in Ht12.
  unfold place_of in Hp2. injection Hp2 as P1 P2 P3 P4 P5 P6. destruct Hn as [Hfd _].
  assert (Hfin : ∀ c4 o4, told c2 [] [] o4 c4 → place_of c4 = mkPlace (lastSeq c) (S (asked c)) (FMP4 f) u asc (pendingDisc c) → kept c2 c4 →
    ∃ f old0 aus0, (∃ body, answered (asked c) u (MaxSegmentBytes cfg) body ∧ fmp4.newFMP4Demux body = Ok f ∧ (fmp4.audioSpecificConfig f = c_asc c ∨ onCodecUpdate cfg = true)) ∧
      Ok (E:=no_err) (old, aus) = Ok (old0, aus0) ∧ told c (Unit <$> aus0) [u] (o1 ++ o2 ++ o4) c4 ∧
      place_of c4 = mkPlace (lastSeq c) (S (asked c)) (FMP4 f) u (fmp4.audioSpecificConfig f) (pendingDisc c) ∧ kept c c4).
  { intros c4 o4 Ht4 Hp4 Hk4. exists f, old, aus. split; [by exists body|]. split; [done|]. split; [|split; [done|]].
    - pose proof (told_app _ _ _ _ _ _ _ _ _ Ht12 Ht4) as H. by rewrite !app_nil_r, <- app_assoc in H.
    - eapply kept_trans; [exact Hk1|]. by eapply kept_trans. }
  destruct (bool_decide_reflect (asc = c_asc c)) as [Ea|Ea]; cbn [negb].
  - apply run_ret. cbn [app]. apply (Hfin c3 []); [by apply told_same| |].
    + unfold place_of, c3. cbn. congruence.
    + unfold kept, position_kept, stream_kept. by split_and!.
  - apply run_bind, run_upd. apply run_emit. cbn [app]. apply (Hfin (set_asc asc c3) [OnCodecUpdate asc]).
    + apply (told_moved _ _ _ _ c2); [|done..]. split; [|split; [done|cbn; lia]]. split; cbn; [by destruct (onFrame cfg)|done].
    + unfold place_of, c3. cbn. congruence.
    + unfold kept, position_kept, stream_kept. by split_and!.
Qed.

Lemma tried_cases u : tried u = [] ∨ tried u = [u].
Proof. unfold tried. destruct (url_Parse u); [by right|by left]. Qed.
Lemma join_tells s c : demuxer_ok (c_demux c) →
  run (if bool_decide (initURI s = c_initURI c) then mret tt
       else if bool_decide (initURI s = []) then throw_ ErrUnsupported
       else if bool_decide (c_initURI c = []) then throw_ ErrUnsupported else reinitFMP4 e cfg tgt (initURI s)) c
    (λ _ c' out, ∃ aus us, told c (Unit <$> aus) us out c' ∧ joins (place_of c) s aus us (place_of c') ∧ kept c c')
    (λ _ c' out, ∃ us, told c [] us out c' ∧ (us = [] ∨ us = [initURI s]) ∧ (¬ ∃ aus us p1, joins (place_of c) s aus us p1) ∧ kept c c').
Proof.
  intros Hd. assert (Hk : kept c c) by (by unfold kept, position_kept, stream_kept; split_and!).
  assert (Hn : told c [] [] [] c) by by apply told_same.
  destruct (bool_decide_reflect (initURI s = c_initURI c)) as [E1|E1].
  { apply run_ret. exists [], []. split; [done|]. split; [by apply joins_same|done]. }
  destruct (bool_decide_reflect (initURI s = [])) as [E2|E2].
  { apply run_throw. exists []. split; [done|]. split; [by left|]. split; [|done]. intros (aus & us & p1 & H). inversion H; subst; cbn in *; congruence. }
  destruct (bool_decide_reflect (c_initURI c = [])) as [E3|E3].
  { apply run_throw. exists []. split; [done|]. split; [by left|]. split; [|done]. intros (aus & us & p1 & H). inversion H; subst; cbn in *; congruence. }
  eapply run_weaken; [by apply reinit_tells|..]; cbv beta.
  - intros _ c' out (f & old & aus & (body & Ha & Hf & Ho) & Ee & Ht & Hp & Hk'). exists aus, [initURI s]. split; [done|]. split; [|done].
    rewrite Hp. by eapply (joins_new (place_of c) s).
  - intros _ c' out (Ht & Hno & Hk'). exists (tried (initURI s)). split; [done|]. split; [apply tried_cases|]. split; [|done].
    intros (aus & us & p1 & H). apply Hno. inversion H as [|body f old aus' H1 H2 H3 Ha Hf Ho Ee]; subst; [done|]. by exists f, body.
Qed.

Lemma segment_tells s disc c : demuxer_ok (c_demux c) → run (processSegment e cfg tgt s disc) c
  (λ _ c' out, ∃ l us, told c l us out c' ∧ hears (place_of c) s disc l us (place_of c') ∧ kept c c')
  (λ _ c' out, ∃ l us, told c l us out c' ∧ halts (place_of c) s disc l us ∧ kept c c').
Proof.
  intros Hd. unfold processSegment. destruct (gap s) eqn:Eg.
  { apply run_upd. exists [Gap (duration s)], []. split; [split; [split; cbn; [by destruct (onFrame cfg)|done]|split; [done|cbn; lia]]|].
    split; [by apply hears_gap|]. by unfold kept, position_kept, stream_kept; split_and!. }
  apply run_bind, run_get, run_bind. eapply run_weaken; [by apply join_tells|..]; cbv beta.
  2: { intros x c1 o1 (us & Ht & Hus & Hno & Hk). exists [], us. cbn [app]. split; [done|]. split; [by apply halts_join|done]. }
  intros [] c1 o1 (aus1 & us1 & Ht1 & Hj & Hk1). assert (Hd1 : demuxer_ok (c_demux c1)) by apply Hk1.
  apply run_bind. eapply run_weaken; [by apply get_tells|..]; cbv beta.
  2: { intros x c2 o2 (Ht2 & Hno & ->). exists (Unit <$> aus1), (us1 ++ tried (uri s)). split; [|split; [by eapply halts_body|]].
    - pose proof (told_app _ _ _ _ _ _ _ _ _ Ht1 Ht2) as H. by rewrite app_nil_r in H.
    - eapply kept_trans; [exact Hk1|by apply set_ticks_kept]. }
  intros body c2 o2 (Ht2 & Ha & Hb & ->). set (c2 := set_ticks _ _ c1) in *. assert (Hk2 : kept c1 c2) by by apply set_ticks_kept.
  apply run_bind, run_get, run_bind, run_res. destruct (demux_returns body disc (c_demux c1) Hd1 Hb) as (d & aus2 & derr & Ed & Hd3 & Hau & _).
  change (c_demux c2) with (c_demux c1). rewrite Ed. cbn [with_cause]. apply run_bind, run_upd, run_bind. set (c3 := set_demux d c2).
  assert (Ht3 : told c2 [] [] [] c3) by by apply told_same. assert (Hk3 : kept c2 c3) by (by unfold kept, position_kept, stream_kept; split_and!).
  eapply run_weaken; [by apply units_tell|cbv beta|done]. intros [] c4 o4 (Ht4 & Hp4 & Hk4). apply run_bind, run_upd. cbv beta.
  set (c5 := set_counters _ _ _ _). assert (Ht5 : told c4 [] [] [] c5) by by apply told_same.
  assert (Hk5 : kept c4 c5) by (unfold kept, position_kept, stream_kept; split_and!; try done; apply Hk4).
  pose proof (told_app _ _ _ _ _ _ _ _ _ (told_app _ _ _ _ _ _ _ _ _ (told_app _ _ _ _ _ _ _ _ _ (told_app _ _ _ _ _ _ _ _ _ Ht1 Ht2) Ht3) Ht4) Ht5) as Ht.
  pose proof (kept_trans _ _ _ (kept_trans _ _ _ (kept_trans _ _ _ (kept_trans _ _ _ Hk1 Hk2) Hk3) Hk4) Hk5) as Hk.
  rewrite !app_nil_r, <- fmap_app in Ht. cbn [app]. rewrite ?app_nil_r.
  assert (Hp5 : place_of c5 = decoding d (after [uri s] (place_of c1))).
  { change (place_of c5) with (place_of c4). rewrite Hp4. unfold place_of, after, decoding. cbn. by rewrite Nat.add_1_r. }
  destruct derr as [x|]; [apply run_throw|apply run_ret]; rewrite ?app_nil_r; rewrite <- ?app_assoc in Ht; exists (Unit <$> aus1 ++ aus2), (us1 ++ [uri s]); (split; [exact Ht|]; split; [|exact Hk]).
  - by eapply halts_demux.
  - rewrite Hp5. by eapply hears_units.
Qed.

(** *** A pass over a playlist *)
Definition calm (c : Client) : Prop := termErr c ≠ None → disturbed.
(** A look at the shutdown, or one's own. *)
Definition noted (c : Client) (out : list act) (c' : Client) : Prop :=
  told c [] [] out c' ∧ place_of c' = place_of c ∧ stream_kept c c' ∧ demuxer_ok (c_demux c').
Lemma noted_same c c' : mediaPTS c' = mediaPTS c → pendingSeqGap c' = pendingSeqGap c → place_of c' = place_of c → stream_kept c c' →
  demuxer_ok (c_demux c) → noted c [] c'.
Proof.
  intros Hp Hg Hpl Hs Hd. unfold place_of in Hpl. injection Hpl as P1 P2 P3 P4 P5 P6. split; [by apply told_same|]. split; [unfold place_of; congruence|].
  split; [done|by rewrite P3].
Qed.
Lemma noted_trans c o1 c1 o2 c2 : noted c o1 c1 → noted c1 o2 c2 → noted c (o1 ++ o2) c2.
Proof.
  intros (H1 & H2 & H3 & _) (H4 & H5 & H6 & H7). split; [by apply (told_app _ _ _ _ _ _ _ _ _ H1 H4)|]. split; [congruence|]. split; [|done].
  unfold stream_kept in *. intuition congruence.
Qed.
Lemma look_tells c : demuxer_ok (c_demux c) → run (look e) c
  (λ _ c' out, noted c out c' ∧ (calm c → calm c') ∧ (termErr c ≠ None → termErr c' ≠ None)) (λ _ _ _, False).
Proof.
  intros Hd. apply run_upd. split; [apply noted_same; try done; by destruct (termErr c)|]. unfold calm. cbn.
  destruct (termErr c) as [w|] eqn:Et; cbn; rewrite ?Et; [done|]. split; [|done]. intros _ Hs. exists (looks c). by destruct (shuts e (looks c)).
Qed.
Lemma closed_tells c : demuxer_ok (c_demux c) → run (closed e) c
  (λ b c' out, noted c out c' ∧ (calm c → calm c' ∧ (b = true → disturbed)) ∧ (b = true → termErr c' ≠ None) ∧ (termErr c ≠ None → b = true))
  (λ _ _ _, False).
Proof.
  intros Hd. unfold closed. apply run_bind. eapply run_weaken; [by apply look_tells|cbv beta|done]. intros [] c1 o1 (H1 & H2 & H3). apply run_bind, run_get, run_ret.
  cbn [app]. rewrite app_nil_r. split; [done|]. unfold calm in *. destruct (termErr c1) eqn:E; [|split; [intros Hc; by split|split; [done|intros Hn; by destruct (H3 Hn)]]].
  split; [|done]. intros Hc. specialize (H2 Hc). split; [done|]. intros _. by apply H2.
Qed.
Lemma shutdown_tells why c : demuxer_ok (c_demux c) → run (initiateShutdown e why) c (λ _ c' out, noted c out c' ∧ termErr c' ≠ None) (λ _ _ _, False).
Proof.
  intros Hd. unfold initiateShutdown. apply run_bind. apply run_upd. apply run_upd. cbn [app]. split.
  - apply noted_same; unfold stream_kept; cbn; destruct (termErr c) as [w|] eqn:E; cbn; rewrite ?E; try done; by destruct (shuts e (looks c)).
  - destruct (termErr c) as [w|] eqn:E; cbn; [rewrite E; cbn; by rewrite E|]. by destruct (shuts e (looks c)).
Qed.

Definition turned (b : bool) (p : place) (segs : list mediaSegment) (c : Client) (out : list act) (c' : Client) : Prop :=
  ∃ l us p' z, told c l us out c' ∧ passes b p segs l us p' z ∧ stream_kept c c' ∧ demuxer_ok (c_demux c') ∧
    (if z : bool then termErr c' ≠ None else p' = place_of c' ∧ calm c').
Lemma stream_kept_trans c c1 c2 : stream_kept c c1 → stream_kept c1 c2 → stream_kept c c2.
Proof. unfold stream_kept. intuition congruence. Qed.

Lemma process_tells segs : ∀ b c, demuxer_ok (c_demux c) → calm c →
  run (process_list e cfg tgt b segs) c (λ _ c' out, turned b (place_of c) segs c out c') (λ _ _ _, False).
Proof.
  induction segs as [|s segs IH]; intros b c Hd Hc.
  { apply run_ret. exists [], [], (place_of c), false. split; [by apply told_same|]. split; [constructor|]. by split_and!. }
  cbn [process_list]. apply run_bind, run_get. destruct (Z.leb_spec (seq s) (lastSeq c)) as [Hs|Hs].
  { eapply run_weaken; [by apply IH|cbv beta|done]. intros _ c' out (l & us & p' & z & H1 & H2 & H3). exists l, us, p', z. cbn [app].
    split; [done|]. split; [by apply passes_old|done]. }
  apply run_bind. eapply (run_weaken _ _ (λ _ c' out, told c (lost b (place_of c) s) [] out c' ∧ place_of c' = noticed b (place_of c) s ∧ termErr c' = termErr c ∧ stream_kept c c' ∧ demuxer_ok (c_demux c')) _ (λ _ _ _, False)); [|cbv beta|done].
  { unfold lost, noticed, jump. cbn [p_last place_of]. destruct (negb b && _); [apply run_upd|apply run_ret];
      (split; [|split; [done|by unfold stream_kept; split_and!]]).
    - split; [split; cbn; [by destruct (onFrame cfg)|done]|split; [done|cbn; lia]].
    - by apply told_same. }
  intros [] c1 o1 (Ht1 & Hp1 & K1 & K2 & K3). assert (Hc1 : calm c1) by (unfold calm; by rewrite K1).
  apply run_bind, run_get, run_bind, run_try. assert (Hdisc : pendingDisc c1 = p_disc (noticed b (place_of c) s)) by (by rewrite <- Hp1).
  rewrite Hdisc. eapply run_weaken; [by apply segment_tells|..]; cbv beta; rewrite Hp1.
  - intros [] c2 o2 (l1 & us1 & Ht2 & Hh & (Q1 & Q2 & Q3)). apply run_bind, run_upd, run_bind. set (c3 := set_position _ _ _ _ c2).
    assert (Hc3 : calm c3) by (destruct Q1 as (_ & _ & Et & _); unfold calm; cbn; by rewrite Et).
    eapply run_weaken; [by apply closed_tells|cbv beta|done]. intros stop c4 o4 ((Ht4 & Hp4 & Hk4 & Hd4) & Hc4' & Hterm4 & _). destruct (Hc4' Hc3) as [Hc4 Hstop].
    assert (Hp3 : place_of c4 = moved s (place_of c2)) by by rewrite Hp4.
    assert (Ht : told c (lost b (place_of c) s ++ l1) us1 (o1 ++ o2 ++ o4) c4).
    { assert (Ht23 : told c1 l1 us1 o2 c3) by by apply (told_moved _ _ _ _ c2).
      pose proof (told_app _ _ _ _ _ _ _ _ _ Ht1 (told_app _ _ _ _ _ _ _ _ _ Ht23 Ht4)) as H. by rewrite !app_nil_r in H. }
    assert (Hk : stream_kept c c4) by exact (stream_kept_trans _ _ _ K2 (stream_kept_trans _ _ _ Q2 Hk4)).
    destruct stop.
    + apply run_ret. specialize (Hstop eq_refl). specialize (Hterm4 eq_refl). exists (lost b (place_of c) s ++ l1), us1, (moved s (place_of c2)), true.
      cbn [app]. rewrite ?app_nil_r. split; [exact Ht|]. split; [by eapply passes_cut|]. by split_and!.
    + eapply run_weaken; [by apply IH|cbv beta|done]. intros b' c5 o5 (l2 & us2 & p' & z & Ht5 & Hpass & Hk5 & Hd5 & Hz).
      exists (lost b (place_of c) s ++ l1 ++ l2), (us1 ++ us2), p', z. split.
      { pose proof (told_app _ _ _ _ _ _ _ _ _ Ht Ht5) as H. by rewrite <- !app_assoc in H. }
      split; [rewrite Hp3 in Hpass; by eapply passes_new|]. split; [by eapply stream_kept_trans|]. by split.
  - intros x c2 o2 (l1 & us1 & Ht2 & Hh & (Q1 & Q2 & Q3)). apply run_bind.
    eapply run_weaken; [by apply shutdown_tells|cbv beta|done]. intros [] c3 o3 ((Ht3 & Hp3 & Hk3 & Hd3) & Hterm). apply run_ret.
    exists (lost b (place_of c) s ++ l1), us1, (place_of c3), true. cbn [app]. rewrite ?app_nil_r. split.
    { pose proof (told_app _ _ _ _ _ _ _ _ _ Ht1 (told_app _ _ _ _ _ _ _ _ _ Ht2 Ht3)) as H. by rewrite !app_nil_r in H. }
    split; [by eapply passes_halt|]. split; [exact (stream_kept_trans _ _ _ K2 (stream_kept_trans _ _ _ Q2 Hk3))|]. by split.
Qed.

(** *** A playlist *)
(** Only requests were made, for [us]. *)
Definition requests (c : Client) (us : list (list Z)) (out : list act) (c' : Client) : Prop :=
  told c [] us out c' ∧ c' = set_ticks (asked c + length us) (looks c) c.
Lemma requests_none c : requests c [] [] c.
Proof. split; [by apply told_same|]. cbn. rewrite Nat.add_0_r. by destruct c. Qed.
Lemma requests_both c us1 o1 c1 us2 o2 c2 : requests c us1 o1 c1 → requests c1 us2 o2 c2 → requests c (us1 ++ us2) (o1 ++ o2) c2.
Proof. intros [H1 ->] [H2 ->]. split; [by apply (told_app _ _ _ _ _ _ _ _ _ H1 H2)|]. cbn. rewrite length_app, Nat.add_assoc. done. Qed.
Lemma get_requests u limit tooLarge c : 0 ≤ limit < MaxInt → run (get e cfg tgt u limit tooLarge) c
  (λ body c' out, requests c [u] out c' ∧ answered (asked c) u limit body ∧ bytes_ok body)
  (λ _ c' out, requests c (tried u) out c' ∧ unanswered (asked c) u limit).
Proof.
  intros Hl. eapply run_weaken; [by apply get_tells|..]; cbv beta.
  - intros body c' out (H1 & H2 & H3 & ->). split; [|done]. split; [done|]. cbn. by rewrite Nat.add_1_r.
  - intros x c' out (H1 & H2 & ->). done.
Qed.
Lemma answered_once k u l b1 b2 : answered k u l b1 → answered k u l b2 → b1 = b2.
Proof. intros (_ & _ & E1 & _) (_ & _ & E2 & _). congruence. Qed.

Lemma fetch_tells u c : run (fetchMediaPlaylist e cfg tgt u) c
  (λ r c' out, ∃ us, serves (asked c) u r.1 r.2 us ∧ requests c us out c' ∧ is_Some r.2 ∧ playlist_ok r.1)
  (λ _ c' out, (¬ ∃ m mu us, serves (asked c) u m mu us) ∧ ∃ us, (length us ≤ 2)%nat ∧ requests c us out c').
Proof.
  assert (Htl : ∀ v, (length (tried v) ≤ 1)%nat) by (intros v; destruct (tried_cases v) as [-> | ->]; cbn; lia).
  unfold fetchMediaPlaylist. apply run_bind. eapply run_weaken; [by apply get_requests|..]; cbv beta.
  2: { intros x c1 o1 [Hr Hn]. split; [|exists (tried u); specialize (Htl u); split; [lia|done]].
       intros (m & mu & us & H). apply Hn. inversion H; subst; by eexists. }
  intros body c1 o1 (Hr1 & Ha1 & _). assert (Hone : ∀ b, answered (asked c) u (MaxPlaylistBytes cfg) b → b = body) by (intros b Hb; by eapply answered_once).
  destruct (url_Parse u) as [base|] eqn:Eu; [|by destruct Ha1 as ([? ?] & _); congruence].
  assert (Hno : (∀ m, parsePlaylist (Some base) body ≠ Ok (Media m)) →
    (∀ ms v mbody m, parsePlaylist (Some base) body = Ok (Master ms) → selectMediaURL ms = Ok v → answered (S (asked c)) v (MaxPlaylistBytes cfg) mbody →
       parsePlaylist (url_Parse v) mbody ≠ Ok (Media m)) → ¬ ∃ m mu us, serves (asked c) u m mu us).
  { intros H1 H2 (m & mu & us & H). inversion H as [b base' m' Hb Hp Hm|b base' ms v mb m' Hb Hp Hm Hs Hmb Hm']; subst; rewrite (Hone _ Hb) in *; assert (base' = base) as -> by congruence; [by eapply H1|by eapply H2]. }
  pose proof (parsePlaylist_ok (Some base) body) as Hp. unfold parse_body. apply run_bind, run_res.
  destruct (parsePlaylist (Some base) body) as [[m|ms]|x|] eqn:Ep; cbn [with_cause]; [..|done].
  { apply run_ret. cbn [app]. rewrite !app_nil_r. exists [u]. cbn [fst snd]. split; [by eapply serves_media|]. split; [done|]. split; [by eexists|]. apply Hp. }
  2: { cbn [app]. rewrite app_nil_r. split; [apply Hno; [by intros ?|by intros ?]|]. exists [u]. split; [cbn; lia|done]. }
  pose proof (selectMediaURL_chosen ms) as Hs. apply run_bind, run_res. destruct (selectMediaURL ms) as [v|x|] eqn:Ev; cbn [with_cause]; [..|done].
  2: { cbn [app]. rewrite app_nil_r. split; [apply Hno; [by intros ?|intros ? ? ? ? [= <-]; congruence]|]. exists [u]. split; [cbn; lia|done]. }
  assert (Hk : asked c1 = S (asked c)) by (destruct Hr1 as [_ ->]; cbn; lia).
  apply run_bind. eapply run_weaken; [by apply get_requests|..]; cbv beta; rewrite Hk.
  2: { intros x c2 o2 [Hr2 Hn]. cbn [app]. split; [apply Hno; [by intros ?|]|exists ([u] ++ tried v); specialize (Htl v); split; [cbn [app length]; lia|by eapply requests_both]].
       intros ? v' mb ? [= <-] Hv Hmb. assert (v' = v) as -> by congruence. destruct Hn. by eexists. }
  intros mbody c2 o2 (Hr2 & Ha2 & _). pose proof (requests_both _ _ _ _ _ _ _ Hr1 Hr2) as Hr. destruct (url_Parse v) as [mbase|] eqn:Emb.
  2: { by destruct Ha2 as ([? ?] & _); congruence. }
  pose proof (parsePlaylist_ok (Some mbase) mbody) as Hp2. apply run_bind, run_res.
  assert (Hno2 : (∀ m, parsePlaylist (Some mbase) mbody ≠ Ok (Media m)) → ¬ ∃ m mu us, serves (asked c) u m mu us).
  { intros Hm. apply Hno; [by intros ?|]. intros ? v' mb m [= <-] Hv Hmb. assert (v' = v) as -> by congruence. rewrite Emb, (answered_once _ _ _ _ _ Hmb Ha2). apply Hm. }
  destruct (parsePlaylist (Some mbase) mbody) as [[m|ms']|x|] eqn:Ep2; cbn [with_cause]; [..|done].
  - apply run_ret. cbn [app]. rewrite !app_nil_r. exists ([u] ++ [v]). cbn [fst snd]. split; [rewrite <- Emb; eapply serves_master; by rewrite ?Emb|]. split; [done|]. split; [by eexists|]. apply Hp2.
  - apply run_throw. cbn [app]. rewrite !app_nil_r. split; [apply Hno2; by intros ?|]. exists ([u] ++ [v]). split; [cbn; lia|done].
  - cbn [app]. rewrite !app_nil_r. split; [apply Hno2; by intros ?|]. exists ([u] ++ [v]). split; [cbn; lia|done].
Qed.

(** *** The whole stream *)
Definition streamed (n : nat) (c : Client) (b : bool) (c' : Client) (out : list act) : Prop :=
  ∃ l us, told c l us out c' ∧ follows n (place_of c) (c_media c) (c_mediaURL c) l us b.
Lemma flush_tells c : demuxer_ok (c_demux c) →
  run ('(d, aus) ← of_res_ (with_cause no_fail (end_ (c_demux c))); _ ← upd_ (set_demux d); _ ← deliver_all cfg aus; _ ← syncMalformed;
       _ ← initiateShutdown e ErrStreamEnded; mret true) c
    (λ b c' out, b = true ∧ ∃ d aus, end_ (c_demux c) = Ok (d, aus) ∧ told c (Unit <$> aus) [] out c') (λ _ _ _, False).
Proof.
  intros Hd. apply run_bind, run_res. destruct (end_returns (c_demux c) Hd) as (d & aus & -> & Hd1 & Ha & _). cbn [with_cause].
  apply run_bind, run_upd, run_bind. set (c1 := set_demux d c). assert (Ht1 : told c [] [] [] c1) by by apply told_same.
  eapply run_weaken; [by apply (units_tell aus c1)|cbv beta|done]. intros [] c2 o2 (Ht2 & _ & Hk2). apply run_bind, run_upd, run_bind. set (c3 := set_counters _ _ _ _).
  assert (Ht3 : told c2 [] [] [] c3) by by apply told_same.
  eapply run_weaken; [apply shutdown_tells, Hk2|cbv beta|done]. intros [] c4 o4 ((Ht4 & _) & _). apply run_ret. split; [done|]. exists d, aus. split; [done|].
  pose proof (told_app _ _ _ _ _ _ _ _ _ Ht1 (told_app _ _ _ _ _ _ _ _ _ Ht2 (told_app _ _ _ _ _ _ _ _ _ Ht3 Ht4))) as H. rewrite !app_nil_r in H. cbn [app] in *.
  by rewrite app_nil_r.
Qed.
Lemma reloadWait_tells c : demuxer_ok (c_demux c) → calm c → run (reloadWait e) c
  (λ b c' out, noted c out c' ∧ calm c' ∧ (b = false → disturbed)) (λ _ _ _, False).
Proof.
  intros Hd Hc. unfold reloadWait. apply run_bind. eapply run_weaken; [by apply closed_tells|cbv beta|done]. intros stop c1 o1 (H1 & H2 & _).
  destruct (H2 Hc) as [H3 H4]. apply run_bind, run_get, run_ret. cbn [app]. rewrite app_nil_r. split; [done|]. split; [done|]. destruct stop; [auto|done].
Qed.

Lemma runSegments_tells fuel : ∀ c, demuxer_ok (c_demux c) → is_Some (c_mediaURL c) → calm c →
  run (runSegments e cfg tgt fuel) c (streamed fuel c) (λ _ _ _, False).
Proof.
  induction fuel as [|fuel IH]; intros c Hd Hu Hc.
  { apply run_ret. exists [], []. split; [by apply told_same|constructor]. }
  cbn [runSegments]. unfold processNewSegments. apply run_bind, run_bind, run_get.
  eapply run_weaken; [by apply process_tells|cbv beta|done]. intros b1 c1 o1 (l1 & us1 & p1 & z & Ht1 & Hpass & (M1 & U1 & _) & Hd1 & Hz). apply run_bind.
  eapply run_weaken; [by apply closed_tells|cbv beta|done]. intros stop c2 o2 ((Ht2 & Hp2 & (M2 & U2 & _) & Hd2) & Hc2 & _ & Hstop).
  pose proof (told_app _ _ _ _ _ _ _ _ _ Ht1 Ht2) as H12. rewrite !app_nil_r in H12. cbn [app].
  destruct z.
  { rewrite (Hstop Hz). apply run_ret. exists l1, us1. rewrite app_nil_r. split; [done|by eapply follows_halt]. }
  destruct Hz as [-> Hc1]. destruct (Hc2 Hc1) as [Hc2' Hdist]. rewrite <- Hp2 in Hpass. clear Hc2 Hstop.
  destruct stop; [apply run_ret; exists l1, us1; rewrite app_nil_r; split; [done|by eapply follows_cut; [|apply Hdist]]|]. apply run_bind, run_get.
  rewrite M2, M1. destruct (endList (c_media c)) eqn:Eend.
  { eapply run_weaken; [by apply flush_tells|cbv beta|done]. intros b c3 o3 (-> & d & aus & Ee & Ht3). exists (l1 ++ (Unit <$> aus)), us1.
    pose proof (told_app _ _ _ _ _ _ _ _ _ H12 Ht3) as H. rewrite app_nil_r, <- app_assoc in H. split; [done|]. by eapply follows_end. }
  apply run_bind. eapply run_weaken; [by apply reloadWait_tells|cbv beta|done]. intros go c3 o3 ((Ht3 & Hp3 & (M3 & U3 & _) & Hd3) & Hc3 & Hgo).
  pose proof (told_app _ _ _ _ _ _ _ _ _ H12 Ht3) as H13. rewrite !app_nil_r in H13.
  destruct go; cbn [negb]; [|apply run_ret; exists l1, us1; rewrite <- app_assoc in H13; cbn [app]; rewrite app_nil_r; split; [done|by eapply follows_cut; [|apply Hgo]]].
  rewrite U2, U1. destruct Hu as [u Eu]. rewrite Eu. apply run_bind, run_try. rewrite <- Hp3 in Hpass. eapply run_weaken; [apply fetch_tells|..]; cbv beta.
  - intros [m mu] c4 o4 (us & Hs & [Ht4 E4] & Hmu & _). cbn [fst snd] in *. apply run_bind, run_upd. set (c5 := set_playlist m mu c4).
    assert (Hp5 : place_of c5 = after us (place_of c3)) by (unfold c5; by rewrite E4).
    assert (Hd5 : demuxer_ok (c_demux c5)) by (unfold c5; by rewrite E4). assert (Hc5 : calm c5) by (unfold c5; by rewrite E4).
    eapply run_weaken; [by apply IH|cbv beta|done]. intros b c6 o6 (l2 & us2 & Ht6 & Hf). exists (l1 ++ l2), (us1 ++ us ++ us2). split.
    + assert (Ht45 : told c3 [] us o4 c5) by by apply (told_moved _ _ _ _ c4).
      pose proof (told_app _ _ _ _ _ _ _ _ _ H13 (told_app _ _ _ _ _ _ _ _ _ Ht45 Ht6)) as H. rewrite <- !app_assoc in H. exact H.
    + rewrite Hp5 in Hf. rewrite Eu. by eapply follows_next.
  - intros x c4 o4 (Hno & us & Hlen & [Ht4 E4]). apply run_bind.
    eapply run_weaken; [apply shutdown_tells; by rewrite E4|cbv beta|done]. intros [] c5 o5 ((Ht5 & _) & _). apply run_ret. exists l1, (us1 ++ us). split.
    + pose proof (told_app _ _ _ _ _ _ _ _ _ H13 (told_app _ _ _ _ _ _ _ _ _ Ht4 Ht5)) as H. rewrite !app_nil_r, <- !app_assoc in H. cbn [app] in *. by rewrite app_nil_r.
    + rewrite Eu. by eapply follows_lost.
Qed.

(** *** Open *)
Lemma first_playable m s : firstPlayable m = Some s ↔ ∃ pre post, segments m = pre ++ s :: post ∧ Forall (λ s, gap s = true) pre ∧ gap s = false.
Proof.
  unfold firstPlayable. induction (segments m) as [|t l IH]; cbn [List.find].
  { split; [done|]. by intros ([|] & post & ? & _). }
  destruct (gap t) eqn:Et; cbn [negb].
  - rewrite IH. split; intros (pre & post & H1 & H2 & H3).
    + exists (t :: pre), post. rewrite H1. split; [done|]. split; [by constructor|done].
    + destruct pre as [|t' pre]; [injection H1 as -> _; congruence|]. injection H1 as -> ->. exists pre, post. split; [done|]. by apply Forall_cons_iff in H2 as [_ ?].
  - split; [intros [= <-]; exists [], l; split; [done|split; [constructor|done]]|]. intros (pre & post & H1 & H2 & H3).
    destruct pre as [|t' pre]; injection H1 as -> _; [done|]. apply Forall_cons_iff in H2 as [? _]. congruence.
Qed.
Lemma serves_once k u m1 u1 us1 m2 u2 us2 : serves k u m1 u1 us1 → serves k u m2 u2 us2 → m1 = m2 ∧ u1 = u2 ∧ us1 = us2.
Proof.
  intros H1 H2. destruct H1 as [b1 base1 m1 Ha1 Hb1 Hp1|b1 base1 ms1 v1 mb1 m1 Ha1 Hb1 Hp1 Hv1 Hmb1 Hm1], H2 as [b2 base2 m2 Ha2 Hb2 Hp2|b2 base2 ms2 v2 mb2 m2 Ha2 Hb2 Hp2 Hv2 Hmb2 Hm2];
    pose proof (answered_once _ _ _ _ _ Ha1 Ha2); subst; assert (base1 = base2) as -> by congruence; rewrite Hp1 in Hp2; try discriminate.
  - split_and!; congruence.
  - assert (v1 = v2) as -> by congruence. pose proof (answered_once _ _ _ _ _ Hmb1 Hmb2). subst. split_and!; congruence.
Qed.

Lemma builds_once k s d1 us1 d2 us2 : builds k s d1 us1 → builds k s d2 us2 → d1 = d2 ∧ us1 = us2.
Proof.
  intros [(? & -> & ->)|(b1 & f1 & ? & Ha1 & Hf1 & -> & ->)] [(? & -> & ->)|(b2 & f2 & ? & Ha2 & Hf2 & -> & ->)]; try done.
  pose proof (answered_once _ _ _ _ _ Ha1 Ha2). subst. split; congruence.
Qed.
Lemma build_tells s c : run (buildDemuxer e cfg tgt s) c
  (λ d c' out, ∃ us, builds (asked c) s d us ∧ requests c us out c' ∧ demuxer_ok d) (λ _ c' out, (¬ ∃ d us, builds (asked c) s d us) ∧ ∃ us, requests c us out c').
Proof.
  unfold buildDemuxer, builds. destruct (bool_decide_reflect (initURI s = [])) as [E|E].
  { apply run_ret. exists []. split; [by left|]. split; [apply requests_none|apply tsdemux.newTSDemux_ok]. }
  apply run_bind. eapply run_weaken; [by apply get_requests|..]; cbv beta.
  2: { intros x c1 o1 [Hr Hn]. split; [|by eexists]. intros (d & us & [(? & _)|(ib & f & _ & Ha & _)]); [done|]. apply Hn. by eexists. }
  intros body c1 o1 (Hr & Ha & Hb). pose proof (fmp4.newFMP4Demux_returns body Hb) as Hn. apply run_bind, run_res.
  destruct (fmp4.newFMP4Demux body) as [f|x|] eqn:Ef; cbn [with_cause]; [..|done].
  - apply run_ret. cbn [app]. rewrite app_nil_r. exists [initURI s]. split; [right; by exists body, f|]. split; [done|apply Hn].
  - rewrite app_nil_r. split; [|by eexists]. intros (d & us & [(? & _)|(ib & f & _ & Ha' & Hf & _)]); [done|].
    pose proof (answered_once _ _ _ _ _ Ha Ha'). congruence.
Qed.

Lemma open_tells : run (openHandshake e cfg tgt) new_client
  (λ _ c' out, ∃ us, opens (place_of c') (c_media c') (c_mediaURL c') (pending c') us ∧ told new_client [] us out c' ∧
    demuxer_ok (c_demux c') ∧ is_Some (c_mediaURL c') ∧ Forall unit_ok (pending c') ∧ termErr c' = None)
  (λ _ c' out, (¬ ∃ p m u aus us, opens p m u aus us) ∧ frames out = []).
Proof.
  assert (Hquiet : ∀ us out c', requests new_client us out c' → frames out = []).
  { intros us out c' (([Hf _] & _) & _). rewrite Hf. by destruct (onFrame cfg). }
  unfold openHandshake. apply run_bind. eapply run_weaken; [apply fetch_tells|..]; cbv beta; change (asked new_client) with 0%nat.
  2: { intros x c1 o1 (Hno & us & _ & Hr). split; [|by eapply Hquiet]. intros (p & m & u & aus & us' & H). apply Hno. inversion H; subst. by do 3 eexists. }
  intros [m u] c1 o1 (us1 & Hs1 & Hr1 & Hu & _). cbn [fst snd] in *. assert (Hk1 : asked c1 = length us1) by by destruct Hr1 as [_ ->].
  destruct (firstPlayable m) as [s|] eqn:Es.
  2: { apply run_throw. rewrite app_nil_r. split; [|by eapply Hquiet]. intros (p & m' & u' & aus & us' & H).
       inversion H as [m2 u2 us2 pre s post d0 us3 body d aus' asc Hs2 Hseg2 Hpre Hgap]; subst. destruct (serves_once _ _ _ _ _ _ _ _ Hs1 Hs2) as (<- & _).
       assert (E : firstPlayable m = Some s) by (apply first_playable; by exists pre, post). congruence. }
  pose proof (proj1 (first_playable m s) Es) as (pre & post & Hsegs & Hpre & Hgap).
  (* What every opening shares with this one. *)
  assert (Hsame : ∀ p m' u' aus us', opens p m' u' aus us' → ∃ d0 us2 body d asc, builds (length us1) s d0 us2 ∧
    answered (length (us1 ++ us2)) (uri s) (MaxSegmentBytes cfg) body ∧ demux body false d0 = Ok (d, aus, None) ∧ audioSpecificConfig d = Some asc).
  { intros p m' u' aus us' H. inversion H as [m2 u2 us2 pre' s' post' d0 us3 body d aus' asc Hs2 Hseg2 Hpre2 Hgap2 Hb Ha Hd Hasc]; subst.
    destruct (serves_once _ _ _ _ _ _ _ _ Hs1 Hs2) as (<- & <- & <-).
    assert (E : firstPlayable m = Some s') by (apply first_playable; by exists pre', post'). assert (s' = s) as -> by congruence. by exists d0, us3, body, d, asc. }
  apply run_bind. eapply run_weaken; [apply build_tells|..]; cbv beta; rewrite Hk1.
  2: { intros x c2 o2 [Hno (us & Hr2)]. split; [|by eapply Hquiet, requests_both]. intros (p & m' & u' & aus & us' & H). apply Hno.
       destruct (Hsame _ _ _ _ _ H) as (d0 & us2 & _ & _ & _ & Hb & _). by do 2 eexists. }
  intros d0 c2 o2 (us2 & Hb2 & Hr2 & Hd0). pose proof (requests_both _ _ _ _ _ _ _ Hr1 Hr2) as Hr12. assert (Hk2 : asked c2 = length (us1 ++ us2)) by by destruct Hr12 as [_ ->].
  apply run_bind. eapply run_weaken; [by apply get_requests|..]; cbv beta; rewrite Hk2.
  2: { intros x c3 o3 [Hr3 Hno]. split; [|rewrite app_assoc; by eapply Hquiet, requests_both]. intros (p & m' & u' & aus & us' & H). apply Hno.
       destruct (Hsame _ _ _ _ _ H) as (d0' & us2' & body & _ & _ & Hb & Ha & _). destruct (builds_once _ _ _ _ _ _ Hb Hb2) as [-> ->]. by eexists. }
  intros body c3 o3 (Hr3 & Ha3 & Hbody). pose proof (requests_both _ _ _ _ _ _ _ Hr12 Hr3) as Hr. apply run_bind, run_res.
  destruct (demux_returns body false d0 Hd0 Hbody) as (d & aus & derr & Ed & Hd & Hau & _). rewrite Ed. cbn [with_cause].
  assert (Hout : frames (o1 ++ o2 ++ o3 ++ [] ++ []) = []) by (cbn [app]; rewrite app_nil_r, app_assoc; by eapply Hquiet).
  (* What an opening needs of the segment. *)
  assert (Hone : ∀ p m' u' aus' us', opens p m' u' aus' us' → derr = None ∧ ∃ asc, audioSpecificConfig d = Some asc).
  { intros p m' u' aus' us' H. destruct (Hsame _ _ _ _ _ H) as (d0' & us2' & body' & d' & asc & Hb & Ha & Hd' & Hasc).
    destruct (builds_once _ _ _ _ _ _ Hb Hb2) as [-> ->]. pose proof (answered_once _ _ _ _ _ Ha Ha3). subst body'. rewrite Ed in Hd'. simplify_eq. by split; [|exists asc]. }
  destruct derr as [x|].
  { apply run_throw. split; [|exact Hout]. intros (p & m' & u' & aus' & us' & H). by destruct (Hone _ _ _ _ _ H). }
  destruct (audioSpecificConfig d) as [asc|] eqn:Easc.
  2: { apply run_throw. split; [|exact Hout]. intros (p & m' & u' & aus' & us' & H). by destruct (Hone _ _ _ _ _ H) as (_ & ? & ?). }
  apply run_upd. exists ((us1 ++ us2) ++ [uri s]). destruct Hr as [Ht Ec3]. split; [|split; [|split; [done|split; [done|split; [done|by rewrite Ec3]]]]].
  - assert (Ep : place_of (opened d m u s asc aus c3) = mkPlace (seq s) (length (us1 ++ us2 ++ [uri s])) d (initURI s) asc false)
      by (rewrite Ec3, app_assoc; done). rewrite Ep, <- app_assoc. by eapply opens_with.
  - cbn [app]. rewrite app_nil_r, app_assoc. by apply (told_moved _ _ _ _ c3).
Qed.

(** What a session of at most [n] playlists tells. *)
Definition heard_of (n : nat) (b : bool) (out : list act) : Prop :=
  ∃ p m u aus us1 l us2, opens p m u aus us1 ∧ follows n p m u l us2 b ∧ urls out = us1 ++ us2 ∧
    frames out = if onFrame cfg then (stamp 0 0 ((Unit <$> aus) ++ l)).1 else [].
Lemma session_tells fuel : run (session e cfg tgt fuel) new_client (λ b _ out, heard_of fuel b out) (λ _ _ _, ¬ ∃ p m u aus us, opens p m u aus us).
Proof.
  unfold session. apply run_bind. eapply run_weaken; [apply open_tells|cbv beta|by intros x c' out [? _]].
  intros [] c1 o1 (us1 & Ho & Ht1 & Hd1 & Hu1 & Hp1 & Hn1). unfold reader, deliverPending. apply run_bind, run_bind, run_get, run_bind.
  eapply run_weaken; [by apply units_tell|cbv beta|done]. intros [] c2 o2 (Ht2 & Hp2 & (_ & _ & Hn2 & _) & (M2 & U2 & _) & Hd2). apply run_bind, run_upd. apply run_upd.
  set (c4 := set_counters _ _ _ _). assert (Ht4 : told c2 [] [] [] c4) by by apply told_same.
  assert (Hu4 : is_Some (c_mediaURL c4)) by (rewrite <- U2 in Hu1; exact Hu1). assert (Hc4 : calm c4) by (unfold calm; change (termErr c4) with (termErr c2); by rewrite Hn2, Hn1).
  eapply run_weaken; [by apply runSegments_tells|cbv beta|done]. intros b c5 o5 (l & us2 & Ht5 & Hf).
  exists (place_of c1), (c_media c1), (c_mediaURL c1), (pending c1), us1, l, us2.
  pose proof (told_app _ _ _ _ _ _ _ _ _ Ht1 (told_app _ _ _ _ _ _ _ _ _ Ht2 (told_app _ _ _ _ _ _ _ _ _ Ht4 Ht5))) as ([Hfr _] & Hus & _).
  cbn [app] in Hus, Hfr |- *. rewrite ?app_nil_r. split; [done|]. split; [|split; [exact Hus|exact Hfr]]. change (place_of c4) with (place_of c2) in Hf. change (c_media c4) with (c_media c2) in Hf.
  change (c_mediaURL c4) with (c_mediaURL c2) in Hf. by rewrite Hp2, M2, U2 in Hf.
Qed.

End story.

(** The limits on bodies leave room for the one byte more that is asked for. *)
Definition capped (cfg : Config) : Prop := 0 ≤ MaxSegmentBytes cfg < MaxInt ∧ 0 ≤ MaxPlaylistBytes cfg < MaxInt.

(** C8: an HLS session from Open to its end, or over so many playlists, against any network.  Whatever the servers answer,
    wherever they redirect and whenever somebody else ends the stream, nothing panics; the Basic credentials go to the
    configured host only, over https or where plaintext was allowed, on redirects too; the frames are never empty; the codec callback is used
    only if it is set; and the reader does not stop without a terminal cause.  With size limits below the largest int
    (none at that value reads anything: [no_cap_reads_nothing]), the answers decide the rest.  Open succeeds exactly if a media playlist,
    over one master playlist at most, the decoder for its first segment that is not missing, and that segment
    were all answered and make audio ([opens]); a failed Open has delivered nothing.  Then each playlist is gone through in order ([follows]): a segment past the
    last one is asked for and decoded, after a new initialization segment if it names another, a missing one is
    passed over, and a window that moved on is noticed; a playlist that ends is flushed, any other is asked for again; a request or a segment that fails
    ends the session after what came before.  The URLs asked for are
    those and in that order, and the frames are exactly the units that the demuxers make of the bodies answered, the first with
    presentation time 0, each next one later by the durations of the audio and of the missing segments in
    between, and reporting the segments lost since the one before. *)
Theorem hls_session_told {U : NetURL} e cfg tgt fuel : env_ok e →
  match session e cfg tgt fuel new_client with
  | (c, out, Ok b) => Forall (act_ok cfg tgt) out ∧ (b = true → termErr c ≠ None) ∧ (capped cfg → heard_of e cfg tgt fuel b out)
  | (_, out, Err _) => Forall (act_ok cfg tgt) out ∧ frames out = [] ∧ (capped cfg → ¬ ∃ p m u aus us, opens e cfg tgt p m u aus us)
  | (_, _, Panic) => False
  end.
Proof.
  intros He. pose proof (session_run e cfg tgt He fuel) as H1. pose proof (λ H : capped cfg, session_tells e cfg tgt He (proj1 H) (proj2 H) fuel) as H2.
  unfold run in H1, H2. destruct (session e cfg tgt fuel new_client) as [[c out] [b|x|]]; [|by destruct H1|done].
  destruct H1 as (_ & H3 & H4). done.
Qed.
Lemma hls_session_told_witness : env_ok example_env ∧ capped example_cfg ∧
  match @session controlurl.textual example_env example_cfg example_tgt 1 new_client with
  | (c, out, Ok b) => Forall (act_ok example_cfg example_tgt) out ∧ (b = true → termErr c ≠ None) ∧ (capped example_cfg → @heard_of controlurl.textual example_env example_cfg example_tgt 1 b out)
  | (_, out, Err _) => Forall (act_ok example_cfg example_tgt) out ∧ frames out = [] ∧
      (capped example_cfg → ¬ ∃ p m u aus us, @opens controlurl.textual example_env example_cfg example_tgt p m u aus us)
  | (_, _, Panic) => False
  end.
Proof.
  split; [exact example_env_ok|]. split; [by vm_compute|]. apply (@hls_session_told controlurl.textual example_env example_cfg example_tgt 1 example_env_ok).
Defined.
End hlsstory.
