(* ===== verification/Udp.v ===== *)
(** * The UDP source: [udpsource/client.go], [udpsource/rtcp.go], [udpsource/config.go]

    Open, the receive loop with its two modes, resequencing, delivery per codec, and the
    goroutine of the RTCP socket.  What the sockets give, and when somebody else ends the
    stream, are the rounds a run is given; a datagram of the RTCP socket is handled between two
    rounds, since it shares one lock and no other state with a datagram of the media socket.
    The backing array of the PCM scratch buffer is explicit.  The receive counters are the ones of
    [Pipeline]. *)
From Stdlib Require Import Ascii String.
From S2P Require Import Prelude Bytes Text RtpPacket Rtcp Stream Reorder MediaTime FlacRtp Aac G726 Pcm Media Pipeline Transport Effect.
Local Open Scope Z_scope.

Module udpsource.
Import audiostream.
Abbreviation counters := pipeline.counters.

(** ** Configuration *)
Definition defaultReadBufSize : Z := 65535.
Definition defaultAACSamplesPerFrame : Z := 1024.
Definition ModeRTP : Z := 0.
Definition ModePCM : Z := 1.

Record PCMFormat := mkFormat { SampleRate : Z; f_Channels : Z; BigEndian : bool }.
Record AACParams := mkParams { SizeLength : Z; IndexLength : Z; IndexDeltaLength : Z; SamplesPerFrame : Z; p_ASC : list Z }.
(** The fields that are read; [onFrame] says whether the callback is set. *)
Record Config := mkConfig {
  ListenAddr : list Z; Mode : Z; PayloadType : Z; cfg_Codec : option Codec; ClockRate : Z; Channels : Z; AAC : AACParams; Reorder : bool;
  RTCPListenAddr : list Z; RTCPMux : bool; Format : PCMFormat; SourceIP : list Z; onFrame : bool; readBufSize : Z
}.
Definition with_Codec (k : Codec) (c : Config) : Config :=
  mkConfig (ListenAddr c) (Mode c) (PayloadType c) (Some k) (ClockRate c) (Channels c) (AAC c) (Reorder c)
    (RTCPListenAddr c) (RTCPMux c) (Format c) (SourceIP c) (onFrame c) (readBufSize c).
Definition applyDefaults (c : Config) : Config :=
  let a := AAC c in
  let a := match cfg_Codec c with
           | Some (CodecAAC _) => if SamplesPerFrame a =? 0 then mkParams (SizeLength a) (IndexLength a) (IndexDeltaLength a) defaultAACSamplesPerFrame (p_ASC a) else a
           | _ => a
           end in
  mkConfig (ListenAddr c) (Mode c) (PayloadType c) (cfg_Codec c) (ClockRate c) (Channels c) a (Reorder c) (RTCPListenAddr c) (RTCPMux c)
    (Format c) (SourceIP c) (onFrame c) (if readBufSize c <=? 0 then defaultReadBufSize else readBufSize c).

Inductive err := ErrInvalidConfig | ErrUnsupportedCodec | ErrBind | ErrContext.
(** Terminal causes. *)
Inductive cause := ErrConnectionClosed | ErrReadTimeout | ErrClosed | ErrCanceled.

(** ** The delivery geometry *)
Inductive codecKind := kindOpaque | kindG711 | kindL16 | kindOpus | kindAAC | kindG726 | kindFLAC.
Record geometry := mkGeometry {
  g_cfg : Config; kind : codecKind; law : Z; frameBytes : Z; swap : bool; srcIP : option (list Z)
}.
(** The depacketizers, and the scratch buffer up to its capacity. *)
Record decoders := mkDecoders {
  d_aac : option depacketaac.Depacketizer; d_flac : option depacketflac.Depacketizer; d_g726 : option g726.Decoder; pcmBuf : list Z
}.
Definition no_decoders : decoders := mkDecoders None None None [].

(** [resolveRTPCodec]: the configuration, the kind, the law, the depacketizer. *)
Definition resolveRTPCodec (c : Config) : res err (Config * codecKind * Z * decoders) :=
  match cfg_Codec c with
  | Some (CodecG711 l) => mret (c, kindG711, l, no_decoders)
  | Some (CodecL16 _ _) => mret (c, kindL16, 0, no_decoders)
  | Some CodecOpus => mret (c, kindOpus, 0, no_decoders)
  | Some (CodecAAC asc) =>
      let a := AAC c in
      match depacketaac.New (depacketaac.mkConfig (SizeLength a) (IndexLength a) (IndexDeltaLength a) (SamplesPerFrame a)) with
      | inr _ => Err ErrInvalidConfig
      | inl dp =>
          let c := if bool_decide (asc = []) && negb (bool_decide (p_ASC a = [])) then with_Codec (CodecAAC (p_ASC a)) c else c in
          mret (c, kindAAC, 0, mkDecoders (Some dp) None None [])
      end
  | Some (CodecG726 rate packing _ _) =>
      match g726.New rate packing with
      | Ok dec => mret (c, kindG726, 0, mkDecoders None None (Some dec) [])
      | Err _ => Err ErrInvalidConfig
      | Panic => Panic
      end
  | Some (CodecFLAC _) => mret (c, kindFLAC, 0, mkDecoders None (Some depacketflac.New) None [])
  | Some (CodecUnknown _) => mret (c, kindOpaque, 0, no_decoders)
  | None => Err ErrInvalidConfig
  | Some _ => Err ErrUnsupportedCodec
  end.

Definition pcm_kind (k : codecKind) : bool := match k with kindG711 | kindL16 | kindG726 => true | _ => false end.
Definition is_g726 (k : codecKind) : bool := match k with kindG726 => true | _ => false end.
Definition reject {A} (b : bool) (m : res err A) : res err A := if b then Err ErrInvalidConfig else m.

Definition resolveFormat (c : Config) : res err (geometry * decoders) :=
  if Mode c =? ModeRTP then
    reject (ClockRate c <=? 0) (reject (127 <? PayloadType c) (
    '(c, k, l, d) ← resolveRTPCodec c;
    reject (pcm_kind k && (Channels c <=? 0)) (reject (is_g726 k && negb (Channels c =? 1)) (reject (is_g726 k && negb (ClockRate c =? 8000)) (
    reject (negb (bool_decide (RTCPListenAddr c = [])) && RTCPMux c)
    (reject (RTCPMux c && (64 <=? PayloadType c) && (PayloadType c <=? 95))
    (mret (mkGeometry c k l (match k with kindL16 => i64 (2 * Channels c) | _ => 0 end) false None, d))))))))
  else if Mode c =? ModePCM then
    reject ((SampleRate (Format c) <=? 0) || (f_Channels (Format c) <=? 0))
    (reject (negb (bool_decide (RTCPListenAddr c = [])) || RTCPMux c)
    (mret (mkGeometry c kindOpaque 0 (i64 (2 * f_Channels (Format c))) (BigEndian (Format c)) None, no_decoders)))
  else Err ErrInvalidConfig.

(** ** The client *)
Record Client := mkClient {
  dec : decoders;
  strm : stream.Stream; samples : Z; pendingGap : Z; tsBase : Z; tsBaseSet : bool;
  ring : option reorder.Reorderer; lastSSRC : Z; haveSSRC : bool;
  mediaSSRC : Z; baseSet : bool; srClock : option rtcp.SenderClock;
  cnt : counters; termErr : option cause; rtcpDone : bool
}.
Definition with_dec (d : decoders) (c : Client) : Client :=
  mkClient d (strm c) (samples c) (pendingGap c) (tsBase c) (tsBaseSet c) (ring c) (lastSSRC c) (haveSSRC c) (mediaSSRC c) (baseSet c) (srClock c) (cnt c) (termErr c) (rtcpDone c).
Definition with_strm (s : stream.Stream) (c : Client) : Client :=
  mkClient (dec c) s (samples c) (pendingGap c) (tsBase c) (tsBaseSet c) (ring c) (lastSSRC c) (haveSSRC c) (mediaSSRC c) (baseSet c) (srClock c) (cnt c) (termErr c) (rtcpDone c).
Definition with_samples (n : Z) (c : Client) : Client :=
  mkClient (dec c) (strm c) n (pendingGap c) (tsBase c) (tsBaseSet c) (ring c) (lastSSRC c) (haveSSRC c) (mediaSSRC c) (baseSet c) (srClock c) (cnt c) (termErr c) (rtcpDone c).
Definition with_gap (g : Z) (c : Client) : Client :=
  mkClient (dec c) (strm c) (samples c) g (tsBase c) (tsBaseSet c) (ring c) (lastSSRC c) (haveSSRC c) (mediaSSRC c) (baseSet c) (srClock c) (cnt c) (termErr c) (rtcpDone c).
(** The origin of the timestamps, and the source that RTCP is matched against. *)
Definition with_base (ts ssrc : Z) (clk : option rtcp.SenderClock) (c : Client) : Client :=
  mkClient (dec c) (strm c) (samples c) (pendingGap c) ts true (ring c) (lastSSRC c) (haveSSRC c) ssrc true clk (cnt c) (termErr c) (rtcpDone c).
Definition with_ring (r : option reorder.Reorderer) (ssrc : Z) (have : bool) (c : Client) : Client :=
  mkClient (dec c) (strm c) (samples c) (pendingGap c) (tsBase c) (tsBaseSet c) r ssrc have (mediaSSRC c) (baseSet c) (srClock c) (cnt c) (termErr c) (rtcpDone c).
Definition with_clock (k : option rtcp.SenderClock) (c : Client) : Client :=
  mkClient (dec c) (strm c) (samples c) (pendingGap c) (tsBase c) (tsBaseSet c) (ring c) (lastSSRC c) (haveSSRC c) (mediaSSRC c) (baseSet c) k (cnt c) (termErr c) (rtcpDone c).
Definition with_cnt (k : counters) (c : Client) : Client :=
  mkClient (dec c) (strm c) (samples c) (pendingGap c) (tsBase c) (tsBaseSet c) (ring c) (lastSSRC c) (haveSSRC c) (mediaSSRC c) (baseSet c) (srClock c) k (termErr c) (rtcpDone c).
Definition with_end (t : option cause) (r : bool) (c : Client) : Client :=
  mkClient (dec c) (strm c) (samples c) (pendingGap c) (tsBase c) (tsBaseSet c) (ring c) (lastSSRC c) (haveSSRC c) (mediaSSRC c) (baseSet c) (srClock c) (cnt c) t r.

Definition with_aac (a : depacketaac.Depacketizer) (d : decoders) : decoders := mkDecoders (Some a) (d_flac d) (d_g726 d) (pcmBuf d).
Definition with_flac (f : depacketflac.Depacketizer) (d : decoders) : decoders := mkDecoders (d_aac d) (Some f) (d_g726 d) (pcmBuf d).
Definition with_g726 (g : g726.Decoder) (d : decoders) : decoders := mkDecoders (d_aac d) (d_flac d) (Some g) (pcmBuf d).
Definition with_pcm (b : list Z) (d : decoders) : decoders := mkDecoders (d_aac d) (d_flac d) (d_g726 d) b.

Definition add_packets (k : counters) : counters := pipeline.add_packet 0 k.
Definition add_payload (n : Z) (k : counters) : counters :=
  pipeline.mkCounters (pipeline.packets k) (u64 (pipeline.payloadBytes k + n)) (pipeline.wireBytes k) (pipeline.seqGaps k) (pipeline.duplicates k)
    (pipeline.reorderDrops k) (pipeline.malformed k) (pipeline.ssrcResets k) (pipeline.sourceFiltered k) (pipeline.lastFrameUnixNano k).
Definition add_duplicate (k : counters) : counters := pipeline.set_duplicates (u64 (pipeline.duplicates k + 1)) k.

Abbreviation op := (eff Client Frame no_err).
Definition count (f : counters → counters) : op unit := upd_ (λ c, with_cnt (f (cnt c)) c).
Definition malformed : op unit := count pipeline.add_malformed.

Definition new_client (d : decoders) (resequence : bool) (at_ : Z) : Client :=
  mkClient d stream.zero 0 0 0 false (if resequence then Some reorder.zero else None) 0 false 0 false None
    (pipeline.mkCounters 0 0 0 0 0 0 0 0 0 at_) None false.

(** *** Open *)
Inductive socket := MediaSocket | RTCPSocket.
(** Resolving an address and binding it. *)
Inductive binding := NoAddress | NoBind | Bound.
Record world := mkWorld { ParseIP : list Z → option (list Z); canceled : bool; media_bind : binding; rtcp_bind : binding; opened_at : Z }.

(** [Open]: the client, and the sockets that are open when it returns. *)
Definition Open (w : world) (cfg : Config) : res err (geometry * Client) * list socket :=
  let c := applyDefaults cfg in
  if bool_decide (ListenAddr c = []) then (Err ErrInvalidConfig, [])
  else match resolveFormat c with
  | Panic => (Panic, [])
  | Err x => (Err x, [])
  | Ok (g, d) =>
      let c := g_cfg g in
      let ip := if bool_decide (SourceIP c = []) then Ok None
                else match ParseIP w (SourceIP c) with None => Err ErrInvalidConfig | Some ip => Ok (Some ip) end in
      match ip with
      | Panic => (Panic, [])
      | Err x => (Err x, [])
      | Ok ip =>
          if canceled w then (Err ErrContext, [])
          else match media_bind w with
          | NoAddress => (Err ErrInvalidConfig, [])
          | NoBind => (Err ErrBind, [])
          | Bound =>
              let g := mkGeometry c (kind g) (law g) (frameBytes g) (swap g) ip in
              let cl := new_client d (Reorder c && (Mode c =? ModeRTP)) (opened_at w) in
              if bool_decide (RTCPListenAddr c = []) then (Ok (g, cl), [MediaSocket])
              else match rtcp_bind w with
              | NoAddress => (Err ErrInvalidConfig, [])
              | NoBind => (Err ErrBind, [])
              | Bound => (Ok (g, cl), [MediaSocket; RTCPSocket])
              end
          end
      end
  end.

Section client.
Context (g : geometry).
Let cfg : Config := g_cfg g.

(** *** Delivery *)
Definition emit (f : Frame) : op unit := if onFrame cfg then emit_ [f] else mret tt.
Definition relTicks (ts : Z) (c : Client) : Z := if tsBase c <? ts then u64 (ts - tsBase c) else 0.

(** [ensurePCMBuf]: the backing array with room for [n] octets; the slice is its head. *)
Definition ensurePCMBuf (n : Z) : op (list Z) :=
  c ← get_;
  let buf := if blen (pcmBuf (dec c)) <? n then repeat 0 (Z.to_nat (n + n / 4)) else pcmBuf (dec c) in
  _ ← upd_ (λ c, with_dec (with_pcm buf (dec c)) c);
  mret (take (Z.to_nat n) buf).
(** What a decoder wrote into the slice of [n] octets is in the backing array. *)
Definition written (n : Z) (dst : list Z) : op unit :=
  upd_ (λ c, with_dec (with_pcm (dst ++ drop (Z.to_nat n) (pcmBuf (dec c))) (dec c)) c).
Definition lift {A} (m : res no_err A) : op A := of_res_ m.

(** [byteSwapInto]: the returned prefix, and [dst] afterwards. *)
Definition byteSwapInto (dst src : list Z) : list Z * list Z := let s := swap16 src in (s, s ++ drop (length s) dst).

Definition swapped (src : list Z) : op (list Z) :=
  dst ← ensurePCMBuf (blen src);
  let '(out, dst) := byteSwapInto dst src in
  _ ← written (blen src) dst;
  mret out.

Section packet.
Context (pkt : rtp.Packet) (up : stream.Update) (now : rtcp.Time).
Let payload := rtp.Payload pkt.
Let h := rtp.Hdr pkt.

Definition fold_gap : op unit := upd_ (λ c, with_gap (i64 (pendingGap c + stream.Gap up)) c).
(** One frame, with the losses that are pending. *)
Definition deliver_frame (data : list Z) (ts : Z) : op unit :=
  _ ← count (add_payload (blen data));
  c ← get_;
  let gap := pendingGap c in
  _ ← upd_ (with_gap 0);
  emit (mkFrame 0 data (rtp.Timestamp h) (mediatime.PTSFromSamples (relTicks ts c) (ClockRate cfg)) now gap).

(** The loop of [deliverAAC]. *)
Fixpoint deliver_units (i : Z) (aus : list depacketaac.AU) : op unit :=
  match aus with
  | [] => mret tt
  | au :: aus =>
      _ ← count (add_payload (blen (depacketaac.Data au)));
      c ← get_;
      let gap := if i =? 0 then pendingGap c else 0 in
      _ ← (if i =? 0 then upd_ (with_gap 0) else mret tt);
      _ ← emit (mkFrame 0 (depacketaac.Data au) (rtp.Timestamp h)
        (mediatime.PTSFromSamples (relTicks (u64 (stream.Timestamp up + depacketaac.RTPOffset au)) c) (ClockRate cfg)) now gap);
      deliver_units (i + 1) aus
  end.
Definition deliverAAC : op unit :=
  _ ← fold_gap;
  c ← get_;
  match d_aac (dec c) with
  | None => panic_
  | Some d =>
      '(d, r) ← lift (unfail (depacketaac.Depacketize d payload (rtp.Marker h)));
      _ ← upd_ (λ c, with_dec (with_aac d (dec c)) c);
      match r with inr _ => malformed | inl aus => deliver_units 0 aus end
  end.
Definition deliverFLAC : op unit :=
  _ ← fold_gap;
  c ← get_;
  match d_flac (dec c) with
  | None => panic_
  | Some d =>
      let '(d, r) := depacketflac.Depacketize d payload (rtp.Marker h) (rtp.Timestamp h) in
      _ ← upd_ (λ c, with_dec (with_flac d (dec c)) c);
      match r with
      | Panic => panic_
      | Err _ => malformed
      | Ok None => mret tt
      | Ok (Some f) => deliver_frame f (stream.Timestamp up)
      end
  end.

(** The switch of [deliverRTP]: the octets to deliver, none when the payload was counted as malformed. *)
Definition transform : op (option (list Z)) :=
  match kind g with
  | kindG711 =>
      dst ← ensurePCMBuf (2 * blen payload);
      '(n, dst, e) ← lift (g711.Depacketize dst payload (law g));
      _ ← written (2 * blen payload) dst;
      match e with
      | Some _ => _ ← malformed; mret None
      | None => out ← lift (slice dst 0 n); mret (Some out)
      end
  | kindL16 =>
      if frameBytes g =? 0 then panic_
      else
        let usable := blen payload - Z.rem (blen payload) (frameBytes g) in
        if usable =? 0 then _ ← malformed; mret None
        else
          _ ← (if usable <? blen payload then malformed else mret tt);
          src ← lift (slice payload 0 usable);
          out ← swapped src;
          mret (Some out)
  | kindG726 =>
      c ← get_;
      match d_g726 (dec c) with
      | None => panic_
      | Some d =>
          let n := g726.OutputLen payload d in
          dst ← ensurePCMBuf n;
          '(m, dst, d, e) ← lift (g726.Decode dst payload d);
          _ ← written n dst;
          _ ← upd_ (λ c, with_dec (with_g726 d (dec c)) c);
          match e with
          | Some _ => _ ← malformed; mret None
          | None => out ← lift (slice dst 0 m); mret (Some out)
          end
      end
  | kindOpus =>
      match depacketopus.Depacketize payload with
      | inr _ => _ ← malformed; mret None
      | inl b => mret (Some b)
      end
  | _ => mret (Some payload)
  end.
Definition deliverRTP : op unit :=
  match kind g with
  | kindAAC => deliverAAC
  | kindFLAC => deliverFLAC
  | _ =>
      _ ← fold_gap;
      out ← transform;
      match out with None => mret tt | Some out => deliver_frame out (stream.Timestamp up) end
  end.
End packet.

(** *** One packet *)
Definition reset_decoders (d : decoders) : decoders :=
  mkDecoders (depacketaac.Reset <$> d_aac d) (depacketflac.Reset <$> d_flac d) (d_g726 d) (pcmBuf d).
Definition resetReassembly : op unit := upd_ (λ c, with_dec (reset_decoders (dec c)) c).
Definition reset_g726 (d : decoders) : decoders := mkDecoders (d_aac d) (d_flac d) (g726.Reset <$> d_g726 d) (pcmBuf d).

Definition processRTP (pkt : rtp.Packet) (now : rtcp.Time) : op unit :=
  let h := rtp.Hdr pkt in
  if negb (rtp.PayloadType h =? PayloadType cfg) then malformed
  else
    c ← get_;
    let '(s, up) := stream.Observe (strm c) h in
    _ ← upd_ (with_strm s);
    _ ← (if stream.SSRCReset up then
           _ ← count pipeline.add_ssrcResets;
           _ ← resetReassembly;
           upd_ (λ c, with_gap 0 (with_dec (reset_g726 (dec c)) c))
         else mret tt);
    _ ← upd_ (λ c, if stream.SSRCReset up || negb (tsBaseSet c)
                   then with_base (stream.Timestamp up) (rtp.SSRC h) (if stream.SSRCReset up then None else srClock c) c else c);
    if stream.Duplicate up then count add_duplicate
    else
      _ ← (if 0 <? stream.Gap up then _ ← count (pipeline.add_seqGaps (u64 (stream.Gap up))); resetReassembly else mret tt);
      _ ← count add_packets;
      deliverRTP pkt up now.

(** *** One datagram *)
Definition handleRTP (datagram : list Z) (now : rtcp.Time) : op unit :=
  match rtp.ParsePacket datagram with
  | Panic => panic_
  | Err _ => malformed
  | Ok pkt => processRTP pkt now
  end.
Fixpoint drainReleased (released : list reorder.Released) (now : rtcp.Time) : op unit :=
  match released with
  | [] => mret tt
  | rel :: released =>
      _ ← match rtp.ParsePacket (reorder.Payload rel) with
          | Panic => panic_
          | Err _ => malformed
          | Ok pkt => processRTP pkt now
          end;
      drainReleased released now
  end.
Definition handleRTPReordered (datagram : list Z) (now : rtcp.Time) : op unit :=
  match rtp.ParsePacket datagram with
  | Panic => panic_
  | Err _ => malformed
  | Ok pkt =>
      let h := rtp.Hdr pkt in
      c ← get_;
      if negb (rtp.PayloadType h =? PayloadType cfg) && (negb (haveSSRC c) || negb (rtp.SSRC h =? lastSSRC c)) then malformed
      else match ring c with
      | None => panic_ (* no resequencer *)
      | Some r =>
          r ← (if haveSSRC c && negb (rtp.SSRC h =? lastSSRC c) then
                 let '(r, released) := reorder.Flush r in
                 _ ← drainReleased released now;
                 mret (reorder.Reset r)
               else mret r);
          let lateBefore := reorder.Late (reorder.Stats r) in
          let '(r, released) := reorder.Push r (rtp.SequenceNumber h) datagram in
          _ ← upd_ (with_ring (Some r) (rtp.SSRC h) true);
          let lateAfter := reorder.Late (reorder.Stats r) in
          _ ← (if lateBefore <? lateAfter then count (pipeline.add_drops (u64 (lateAfter - lateBefore))) else mret tt);
          drainReleased released now
      end
  end.

Definition deliverPCM (datagram : list Z) (now : rtcp.Time) : op unit :=
  if frameBytes g =? 0 then panic_
  else
    let usable := blen datagram - Z.rem (blen datagram) (frameBytes g) in
    if usable =? 0 then malformed
    else
      _ ← (if usable <? blen datagram then malformed else mret tt);
      src ← lift (slice datagram 0 usable);
      out ← (if swap g then swapped src else mret src);
      _ ← count add_packets;
      _ ← count (add_payload usable);
      c ← get_;
      _ ← emit (mkFrame 0 out 0 (mediatime.PTSFromSamples (samples c) (SampleRate (Format cfg))) now 0);
      upd_ (λ c, with_samples (u64 (samples c + u64 (Z.quot usable (frameBytes g)))) c).

(** *** RTCP: [udpsource/rtcp.go] *)
Definition isRTCP (datagram : list Z) : bool :=
  match datagram with _ :: b :: _ => (b =? rtcp.PTSenderReport) || (b =? rtcp.PTReceiverReport) | _ => false end.
Definition handleRTCP (datagram : list Z) (now : rtcp.Time) : op unit :=
  match rtcp.ParseCompound datagram with
  | Panic => panic_
  | Err _ | Ok [] => mret tt
  | Ok reports =>
      c ← get_;
      if negb (baseSet c) then mret tt
      else match find (λ r, rtcp.SSRC r =? mediaSSRC c) reports with
      | None => mret tt
      | Some sr => upd_ (with_clock (rtcp.SenderClockFrom sr now (ClockRate cfg)))
      end
  end.

(** *** The two goroutines *)
Definition initiateShutdown (why : cause) : op unit :=
  upd_ (λ c, with_end (match termErr c with Some w => Some w | None => Some why end) (rtcpDone c) c).
Definition closed : op bool := c ← get_; mret (match termErr c with Some _ => true | None => false end).
(** A datagram that [Config.SourceIP] keeps out. *)
Definition filtered (from : list Z) : bool := match srcIP g with Some ip => negb (transport.IP_Equal from ip) | None => false end.
Definition classifyReadErr (timeout : bool) : op cause :=
  c ← get_; mret (match termErr c with Some w => w | None => if timeout then ErrReadTimeout else ErrConnectionClosed end).

(** What happens beside the media reader. *)
Inductive happening :=
  | RTCPArrived (from : list Z) (datagram : list Z) (now : rtcp.Time)
  | RTCPFailed
  | Shutdown (why : cause).
(** One round of [rtcpReader], or a shutdown by somebody else. *)
Definition happens (x : happening) : op unit :=
  match x with
  | Shutdown why => initiateShutdown why
  | RTCPFailed => upd_ (λ c, with_end (termErr c) true c)
  | RTCPArrived from datagram now =>
      c ← get_;
      if rtcpDone c then mret tt
      else
        _ ← (if filtered from then count pipeline.add_filtered else handleRTCP datagram now);
        stop ← closed;
        upd_ (λ c, with_end (termErr c) (rtcpDone c || stop) c)
  end.
Fixpoint all_happen (l : list happening) : op unit :=
  match l with [] => mret tt | x :: l => _ ← happens x; all_happen l end.

Inductive outcome := Datagram (from data : list Z) (now : rtcp.Time) | ReadError (timeout : bool).
(** What happens while a read is waiting, and what it returns. *)
Record turn := mkTurn { meanwhile : list happening; read : outcome }.

(** A datagram that was read. *)
Definition receive (from data : list Z) (now : rtcp.Time) : op unit :=
  if filtered from then count pipeline.add_filtered
  else if RTCPMux cfg && isRTCP data then handleRTCP data now
  else
    _ ← count (pipeline.add_wire (UnixNano now) (blen data));
    if Mode cfg =? ModePCM then deliverPCM data now
    else
      c ← get_;
      match ring c with Some _ => handleRTPReordered data now | None => handleRTP data now end.
(** [recvLoop] over the reads; whether it has returned. *)
Fixpoint recvLoop (turns : list turn) : op bool :=
  stop ← closed;
  if stop : bool then mret true
  else match turns with
  | [] => mret false
  | t :: turns =>
      _ ← all_happen (meanwhile t);
      match read t with
      | ReadError timeout => why ← classifyReadErr timeout; _ ← initiateShutdown why; mret true
      | Datagram from data now => _ ← receive from data now; recvLoop turns
      end
  end.
End client.

End udpsource.
