(* ===== verification/UdpMedia.v ===== *)
(** * What the UDP source keeps

    The source of [Udp] for every configuration Open accepts and every sequence of datagrams: it
    never panics, its state stays well formed, its frames carry times in range; the clock
    of a sender is published for the source being played only; and resequencing hands over what
    the immediate path would have delivered in order. *)
From Stdlib Require Import Ascii String.
From S2P Require Import Prelude Bytes Text RtpPacket Rtcp Stream Reorder MediaTime FlacRtp Aac G726 Pcm Media Pipeline Transport Effect Udp.
Local Open Scope Z_scope.

Module udpmedia.
Import audiostream udpsource.

(** ** The invariant *)
Record decoders_ok (k : codecKind) (d : decoders) : Prop := {
  do_aac : ∀ x, d_aac d = Some x → depacketaac.depack_ok x;
  do_flac : ∀ x, d_flac d = Some x → depacketflac.ok x;
  do_g726 : ∀ x, d_g726 d = Some x → g726.dec_ok x;
  do_present : match k with kindAAC => is_Some (d_aac d) | kindFLAC => is_Some (d_flac d) | kindG726 => is_Some (d_g726 d) | _ => True end
}.
Record geometry_ok (g : geometry) : Prop := {
  ge_frame : kind g = kindL16 ∨ Mode (g_cfg g) = ModePCM → frameBytes g ≠ 0;
  ge_rate : Mode (g_cfg g) = ModeRTP → 0 < ClockRate (g_cfg g);
  ge_type : Mode (g_cfg g) = ModeRTP → PayloadType (g_cfg g) ≤ 127
}.
(** What RTCP is matched against, and the clock it gave. *)
Record sync := mkSync { y_ticks : bool; y_base : bool; y_source : Z; y_clock : option rtcp.SenderClock }.
Definition sync_of (c : Client) : sync := mkSync (tsBaseSet c) (baseSet c) (mediaSSRC c) (srClock c).
(** [R] speaks of what the delivery of a packet does not change. *)
Abbreviation around := (option cause → bool → option reorder.Reorderer → Z → bool → sync → Prop).
Definition just_opened : around := λ t d _ _ h s, t = None ∧ d = false ∧ h = false ∧ s = mkSync false false 0 None.
Record client_ok (k : codecKind) (R : around) (c : Client) : Prop := {
  cl_dec : decoders_ok k (dec c);
  cl_strm : stream.ok (strm c);
  cl_base : is_u64 (tsBase c);
  cl_samples : is_u64 (samples c);
  cl_end : R (termErr c) (rtcpDone c) (ring c) (lastSSRC c) (haveSSRC c) (sync_of c);
  cl_ring : match ring c with Some r => reorder.ring_ok transport.datagram_ok r ∧ is_u16 (reorder.nextSeq r) | None => True end
}.
(** A new origin of the timestamps forgets the clock, unless there was no origin. *)
Definition closed_base (R : around) : Prop := ∀ t d r l h s ssrc (reset : bool), reset || negb (y_ticks s) = true → R t d r l h s →
  R t d r l h (mkSync true true ssrc (if reset then None else y_clock s)).
Lemma client_weaken k (R R' : around) c : (∀ t d r l h s, R t d r l h s → R' t d r l h s) → client_ok k R c → client_ok k R' c.
Proof. intros H []. split; auto. Qed.
Definition frame_ok (f : Frame) : Prop := TrackID f = 0 ∧ 0 ≤ PTS f < 2 ^ 63.

Lemma PTS_range samples rate : is_u64 samples → 0 ≤ mediatime.PTSFromSamples samples rate < 2 ^ 63.
Proof.
  unfold is_u64. intros Hs. unfold mediatime.PTSFromSamples. destruct (Z.leb_spec rate 0); [lia|]. cbv zeta.
  assert (Hm : mediatime.maxPTSSeconds = 9223372036) by done. rewrite Hm. unfold mediatime.Second.
  pose proof (u64_range rate) as Hr. unfold is_u64 in Hr. set (r := u64 rate) in *. clearbody r.
  destruct (Z.leb_spec 9223372036 (samples / r)); [by rewrite i64_small by lia|].
  destruct (Z.eq_dec r 0) as [->|Hr0].
  { rewrite !Z.div_0_r. rewrite (i64_small 0), Z.mul_0_l, (i64_small 0) by lia. rewrite i64_small; lia. }
  assert (Hsec : 0 ≤ samples / r) by (apply Z.div_pos; lia). pose proof (Z.mod_pos_bound samples r ltac:(lia)).
  assert (Hf : 0 ≤ u64 (samples mod r * 1000000000) / r < 10 ^ 9 + 1).
  { pose proof (u64_range (samples mod r * 1000000000)) as Hu. unfold is_u64 in Hu. split; [apply Z.div_pos; lia|].
    destruct (Z.le_gt_cases r 18446744073) as [Hle|Hgt].
    - rewrite u64_small by (unfold is_u64; lia). apply Z.div_lt_upper_bound; lia.
    - apply Z.div_lt_upper_bound; lia. }
  rewrite (i64_small (samples / r)), (i64_small (samples / r * 1000000000)), (i64_small (_ / r)) by lia. rewrite i64_small; lia.
Qed.

Lemma with_aac_fits k d x : decoders_ok k d → depacketaac.depack_ok x → decoders_ok k (with_aac x d).
Proof. intros [] Hx. split; cbn; try done; [by intros ? [= <-]|by destruct k]. Qed.
Lemma with_flac_fits k d x : decoders_ok k d → depacketflac.ok x → decoders_ok k (with_flac x d).
Proof. intros [] Hx. split; cbn; try done; [by intros ? [= <-]|by destruct k]. Qed.
Lemma with_g726_fits k d x : decoders_ok k d → g726.dec_ok x → decoders_ok k (with_g726 x d).
Proof. intros [] Hx. split; cbn; try done; [by intros ? [= <-]|by destruct k]. Qed.
Lemma with_pcm_fits k d b : decoders_ok k d → decoders_ok k (with_pcm b d).
Proof. intros []. by split. Qed.
Lemma reset_fits k d : decoders_ok k d → decoders_ok k (reset_decoders d).
Proof.
  intros [H1 H2 H3 H4]. split; cbn.
  - intros x Hx. apply fmap_Some in Hx as (y & Hy & ->). by apply depacketaac.Reset_ok, H1.
  - intros x Hx. apply fmap_Some in Hx as (y & Hy & ->). by split.
  - done.
  - destruct k; try done; destruct H4 as [y ->]; by eexists.
Qed.
Lemma reset_g726_fits k d : decoders_ok k d → decoders_ok k (reset_g726 d).
Proof.
  intros [H1 H2 H3 H4]. split; cbn; try done.
  - intros x Hx. apply fmap_Some in Hx as (y & Hy & ->). apply g726.Reset_wf, (g726.ok_rt _ (H3 y Hy)).
  - destruct k; try done; destruct H4 as [y ->]; by eexists.
Qed.

Lemma g711_fits dst payload law : bytes_ok payload →
  ∃ n dst' e, g711.Depacketize dst payload law = Ok (n, dst', e) ∧ 0 ≤ n ≤ blen dst'.
Proof.
  intros Hb. rewrite g711.Depacketize_cases by done. pose proof (blen_nonneg dst). pose proof (blen_nonneg payload).
  destruct (_ =? 0); [by eexists _, _, _|]. destruct (_ <? _); [by eexists _, _, _|]. destruct (g711.expander law) as [f|]; [|by eexists _, _, _].
  eexists _, _, _. split; [done|]. rewrite blen_app. unfold blen. rewrite length_pcm, length_fmap. lia.
Qed.
Lemma OutputLen_nonneg d payload : g726.dec_ok d → 0 ≤ g726.OutputLen payload d.
Proof.
  intros Hd. pose proof (g726.rate_bits d Hd). pose proof (blen_nonneg payload). unfold g726.OutputLen.
  assert (0 ≤ blen payload * 8 / g726.bits (g726.rt d)) by (apply Z.div_pos; lia). lia.
Qed.
(** The whole sample frames of a payload. *)
Lemma whole_prefix {E} (l : list Z) fb : fb ≠ 0 → let n := blen l - Z.rem (blen l) fb in
  0 ≤ n ≤ blen l ∧ @slice E l 0 n = Ok (take (Z.to_nat n) l).
Proof.
  intros Hf. cbv zeta. pose proof (blen_nonneg l). assert (Hn : 0 ≤ Z.rem (blen l) fb ≤ blen l).
  { split; [by apply Z.rem_nonneg|]. destruct (Z.lt_ge_cases 0 fb); [by apply Z.rem_le|]. rewrite <- Z.rem_opp_r'. apply Z.rem_le; lia. }
  split; [lia|]. rewrite slice_ok by lia. by rewrite drop_0, Z.sub_0_r.
Qed.

Section source.
Context (g : geometry) (R : around) (Hg : geometry_ok g).
Definition Inv : Client → Prop := client_ok (kind g) R.

(** A computation that keeps the invariant, does not panic and emits well-formed frames only. *)
Definition safe {A} (m : eff Client Frame no_err A) : Prop := keeps Inv frame_ok m (λ _ _, True).
Lemma safe_ret {A} (a : A) : safe (mret a).
Proof. by apply keeps_ret. Qed.
Lemma safe_seq {A B} (m : eff Client Frame no_err A) (f : A → eff Client Frame no_err B) : safe m → (∀ a, safe (f a)) → safe (m ≫= f).
Proof. intros Hm Hf. eapply keeps_seq; [exact Hm|]. intros a _. apply Hf. Qed.
Lemma safe_upd f : (∀ c, Inv c → Inv (f c)) → safe (upd_ f).
Proof. intros H. apply keeps_upd. auto. Qed.
Lemma safe_get {A} (f : Client → eff Client Frame no_err A) : (∀ c, Inv c → safe (f c)) → safe (c ← get_; f c).
Proof. intros H c Hc. apply run_bind, run_get. exact (H c Hc c Hc). Qed.
Lemma safe_res {A} (m : res no_err A) : m ≠ Panic → safe (lift m).
Proof. intros H. by apply keeps_res. Qed.
(** ... when the value is known. *)
Lemma safe_lift {A B} (m : res no_err A) a (f : A → eff Client Frame no_err B) : m = Ok a → safe (f a) → safe (x ← lift m; f x).
Proof. intros -> H c Hc. apply run_bind, run_res. exact (H c Hc). Qed.
Lemma safe_if {A} (b : bool) (m1 m2 : eff Client Frame no_err A) : (b = true → safe m1) → (b = false → safe m2) → safe (if b then m1 else m2).
Proof. destruct b; auto. Qed.

Lemma count_safe f : safe (count f).
Proof. apply safe_upd. by intros c []. Qed.
Lemma with_gap_safe f : safe (upd_ (λ c, with_gap (f c) c)).
Proof. apply safe_upd. by intros c []. Qed.
Lemma with_dec_safe f : (∀ d, decoders_ok (kind g) d → decoders_ok (kind g) (f d)) → safe (upd_ (λ c, with_dec (f (dec c)) c)).
Proof. intros Hf. apply safe_upd. intros c []. split; cbn; auto. Qed.
Lemma emit_safe f : frame_ok f → safe (emit g f).
Proof. intros Hf. unfold emit. destruct (onFrame _); [|apply safe_ret]. apply keeps_emit; [|done]. by constructor. Qed.
Lemma relTicks_range ts c : is_u64 (relTicks ts c).
Proof. unfold relTicks. destruct (_ <? _); [apply u64_range|unfold is_u64; lia]. Qed.
Lemma times_ok data rtp ts rate now gap c : frame_ok (mkFrame 0 data rtp (mediatime.PTSFromSamples (relTicks ts c) rate) now gap).
Proof. split; [done|]. apply PTS_range, relTicks_range. Qed.

Lemma deliver_frame_safe pkt now data ts : safe (deliver_frame g pkt now data ts).
Proof.
  apply safe_seq; [apply count_safe|intros _]. apply safe_get. intros c Hc. apply safe_seq; [apply (with_gap_safe (λ _, 0))|intros _].
  apply emit_safe, times_ok.
Qed.
Lemma deliver_units_safe pkt up now aus : ∀ i, safe (deliver_units g pkt up now i aus).
Proof.
  induction aus as [|au aus IH]; intros i; [apply safe_ret|]. cbn [deliver_units].
  apply safe_seq; [apply count_safe|intros _]. apply safe_get. intros c Hc.
  apply safe_seq; [destruct (i =? 0); [apply (with_gap_safe (λ _, 0))|apply safe_ret]|intros _].
  apply safe_seq; [apply emit_safe, times_ok|intros _; apply IH].
Qed.

(** The slice of the scratch buffer has the length asked for. *)
Lemma ensurePCMBuf_safe n {A} (f : list Z → eff Client Frame no_err A) : 0 ≤ n → (∀ b, blen b = n → safe (f b)) → safe (b ← ensurePCMBuf n; f b).
Proof.
  intros Hn Hf c Hc. unfold ensurePCMBuf. apply run_bind, run_bind, run_get, run_bind. set (buf := if _ <? n then _ else _).
  assert (Hb : n ≤ blen buf).
  { unfold buf. destruct (Z.ltb_spec (blen (pcmBuf (dec c))) n); [|done]. unfold blen. rewrite repeat_length. assert (0 ≤ n / 4) by (apply Z.div_pos; lia). lia. }
  apply run_upd. apply run_ret. refine (Hf _ _ _ _); [by apply blen_take; lia|]. destruct Hc. split; cbn; try done. by apply with_pcm_fits.
Qed.
Lemma written_safe n dst : safe (written n dst).
Proof. apply (with_dec_safe (λ d, with_pcm (dst ++ drop (Z.to_nat n) (pcmBuf d)) d)). intros d. apply with_pcm_fits. Qed.
Lemma malformed_none {A} : safe (_ ← malformed; mret (@None A)).
Proof. apply safe_seq; [apply count_safe|intros _; apply safe_ret]. Qed.

Lemma swapped_safe src : safe (swapped src).
Proof.
  unfold swapped. apply ensurePCMBuf_safe; [apply blen_nonneg|]. intros b _. unfold byteSwapInto. apply safe_seq; [apply written_safe|intros _; apply safe_ret].
Qed.

Section packet.
Context (pkt : rtp.Packet) (up : stream.Update) (now : rtcp.Time) (Hpk : pipeline.packet_ok pkt).
Lemma transform_safe : safe (transform g pkt).
Proof.
  pose proof (blen_nonneg (rtp.Payload pkt)) as Hl. pose proof (pipeline.pk_bytes _ Hpk) as Hb. unfold transform. destruct (kind g) eqn:Ek.
  - apply safe_ret.
  - apply ensurePCMBuf_safe; [lia|]. intros b Hbl. destruct (g711_fits b _ (law g) Hb) as (n & dst & e & E & Hn).
    eapply safe_lift; [exact E|]. apply safe_seq; [apply written_safe|intros _]. destruct e as [e|]; [apply malformed_none|].
    eapply safe_lift; [by apply slice_ok; lia|apply safe_ret].
  - destruct (Z.eqb_spec (frameBytes g) 0) as [E|Hfb]; [by destruct (ge_frame g Hg (or_introl Ek))|]. cbv zeta.
    apply safe_if; intros E0; [apply malformed_none|]. apply safe_seq; [destruct (_ <? _); [apply count_safe|apply safe_ret]|intros _].
    destruct (whole_prefix (E:=no_err) (rtp.Payload pkt) (frameBytes g) Hfb) as [Hw Hsl].
    eapply safe_lift; [exact Hsl|]. apply safe_seq; [apply swapped_safe|intros out; apply safe_ret].
  - destruct (depacketopus.Depacketize _); [apply safe_ret|apply malformed_none].
  - apply safe_ret.
  - apply safe_get. intros c Hc. pose proof (do_present _ _ (cl_dec _ _ _ Hc)) as Hp. rewrite Ek in Hp. destruct Hp as [d Hd]. rewrite Hd.
    pose proof (do_g726 _ _ (cl_dec _ _ _ Hc) d Hd) as Hdo. cbv zeta.
    apply ensurePCMBuf_safe; [by apply OutputLen_nonneg|]. intros b Hbl.
    destruct (g726.Decode_cases d (rtp.Payload pkt) b Hdo Hb) as (n & dst & d' & e & E & Hld & Hd' & _ & Hn & _).
    eapply safe_lift; [exact E|]. apply safe_seq; [apply written_safe|intros _].
    apply safe_seq; [apply (with_dec_safe (with_g726 d')); intros dd Hdd; by apply with_g726_fits|intros _].
    destruct e as [e|]; [apply malformed_none|]. pose proof (OutputLen_nonneg d (rtp.Payload pkt) Hdo).
    eapply safe_lift; [by apply slice_ok; rewrite ?Hn, ?Hld, ?Hbl; lia|apply safe_ret].
  - apply safe_ret.
Qed.

Lemma fold_gap_safe : safe (fold_gap up).
Proof. apply (with_gap_safe (λ c, i64 (pendingGap c + stream.Gap up))). Qed.
Lemma deliverAAC_safe : kind g = kindAAC → safe (deliverAAC g pkt up now).
Proof.
  intros Hk. unfold deliverAAC. apply safe_seq; [apply fold_gap_safe|intros _]. apply safe_get. intros c Hc.
  pose proof (do_present _ _ (cl_dec _ _ _ Hc)) as Hp. rewrite Hk in Hp. destruct Hp as [d Hd]. rewrite Hd.
  destruct (depacketaac.aac_step d (rtp.Payload pkt) (rtp.Marker (rtp.Hdr pkt)) (do_aac _ _ (cl_dec _ _ _ Hc) d Hd) (pipeline.pk_bytes _ Hpk)) as (d' & r & E & Hd' & _).
  eapply safe_lift; [by apply unfail_Ok|]. apply safe_seq; [apply (with_dec_safe (with_aac d')); intros dd Hdd; by apply with_aac_fits|intros _].
  destruct r as [aus|x]; [apply deliver_units_safe|apply count_safe].
Qed.
Lemma deliverFLAC_safe : kind g = kindFLAC → safe (deliverFLAC g pkt up now).
Proof.
  intros Hk. unfold deliverFLAC. apply safe_seq; [apply fold_gap_safe|intros _]. apply safe_get. intros c Hc.
  pose proof (do_present _ _ (cl_dec _ _ _ Hc)) as Hp. rewrite Hk in Hp. destruct Hp as [d Hd]. rewrite Hd.
  pose proof (depacketflac.Depacketize_ok d (rtp.Payload pkt) (rtp.Marker (rtp.Hdr pkt)) (rtp.Timestamp (rtp.Hdr pkt)) (do_flac _ _ (cl_dec _ _ _ Hc) d Hd)) as Hok.
  destruct (depacketflac.Depacketize d _ _ _) as [d' r]. destruct Hok as [Hd' Hr].
  apply safe_seq; [apply (with_dec_safe (with_flac d')); intros dd Hdd; by apply with_flac_fits|intros _].
  destruct r as [[f|]|e|]; [apply deliver_frame_safe|apply safe_ret|apply count_safe|done].
Qed.
Lemma deliverRTP_safe : safe (deliverRTP g pkt up now).
Proof.
  unfold deliverRTP. assert (Hone : safe (_ ← fold_gap up; out ← transform g pkt; match out with None => mret tt | Some out => deliver_frame g pkt now out (stream.Timestamp up) end)).
  { apply safe_seq; [apply fold_gap_safe|intros _]. apply safe_seq; [apply transform_safe|]. intros [out|]; [apply deliver_frame_safe|apply safe_ret]. }
  destruct (kind g) eqn:Ek; try exact Hone; [by apply deliverAAC_safe|by apply deliverFLAC_safe].
Qed.
End packet.

Context (HB : closed_base R).
Lemma resetReassembly_safe : safe resetReassembly.
Proof. apply (with_dec_safe reset_decoders). intros d. apply reset_fits. Qed.
Lemma processRTP_safe pkt now : pipeline.packet_ok pkt → safe (processRTP g pkt now).
Proof.
  intros Hpk. pose proof (pipeline.pk_wire _ Hpk) as Hw. unfold processRTP. cbv zeta. apply safe_if; intros _; [apply count_safe|]. apply safe_get. intros c Hc.
  pose proof (stream.Observe_ok (strm c) (rtp.Hdr pkt) Hw (cl_strm _ _ _ Hc)) as Ho.
  pose proof (pipeline.Observe_update (strm c) (rtp.Hdr pkt) (cl_strm _ _ _ Hc) Hw) as (Hts & _).
  destruct (stream.Observe (strm c) (rtp.Hdr pkt)) as [st up]. cbn [fst snd] in *.
  apply safe_seq; [apply safe_upd; intros c' []; by split|intros _].
  apply safe_seq; [apply safe_if; intros _; [|apply safe_ret]|intros _].
  { apply safe_seq; [apply count_safe|intros _]. apply safe_seq; [apply resetReassembly_safe|intros _]. apply safe_upd. intros c' []. split; cbn; try done. by apply reset_g726_fits. }
  apply safe_seq; [apply safe_upd; intros c' Hc'; destruct (_ || _) eqn:Eb; [|done]; destruct Hc'; split; try done; by apply (HB _ _ _ _ _ (sync_of c'))|intros _].
  apply safe_if; intros _; [apply count_safe|].
  apply safe_seq; [apply safe_if; intros _; [|apply safe_ret]; apply safe_seq; [apply count_safe|intros _; apply resetReassembly_safe]|intros _].
  apply safe_seq; [apply count_safe|intros _]. by apply deliverRTP_safe.
Qed.
(** A datagram, parsed or refused. *)
Lemma parsed_safe data now : transport.datagram_ok data →
  safe (match rtp.ParsePacket data with Panic => panic_ | Err _ => malformed | Ok pkt => processRTP g pkt now end).
Proof.
  intros [Hb Hl]. destruct (rtp.ParsePacket data) as [pkt|x|] eqn:E; [|apply count_safe|by destruct (rtp.ParsePacket_no_panic data Hb E)].
  apply processRTP_safe. exact (transport.ParsePacket_packet_ok data pkt Hb Hl E).
Qed.
Lemma drain_safe released now : Forall (λ q, transport.datagram_ok (reorder.Payload q)) released → safe (drainReleased g released now).
Proof.
  induction 1 as [|q released Hq _ IH]; [apply safe_ret|]. cbn [drainReleased]. apply safe_seq; [by apply parsed_safe|intros _; apply IH].
Qed.
Context (HR : ∀ t d r l h t' d' r' l' h' s, R t d r l h s → R t' d' r' l' h' s).
Lemma handleRTPReordered_run data now c : Inv c → transport.datagram_ok data → is_Some (ring c) →
  run (handleRTPReordered g data now) c (λ _ c' out, Inv c' ∧ Forall frame_ok out ∧ True) (λ _ c' out, Inv c' ∧ Forall frame_ok out).
Proof.
  intros Hc Hd [r Er]. unfold handleRTPReordered. destruct Hd as [Hb Hl].
  destruct (rtp.ParsePacket data) as [pkt|x|] eqn:E; [|exact (count_safe _ c Hc)|by destruct (rtp.ParsePacket_no_panic data Hb E)].
  pose proof (rtp.ParsePacket_payload data pkt Hb E) as (_ & Hh & _).
  cbv zeta. apply run_bind, run_get. destruct (_ && _); [exact (count_safe _ c Hc)|]. pose proof (cl_ring _ _ _ Hc) as Hr. rewrite Er in Hr. rewrite Er.
  destruct Hr as [Hr Hn].
  eapply (keeps_bind Inv frame_ok _ _ (λ r' _, reorder.ring_ok transport.datagram_ok r' ∧ is_u16 (reorder.nextSeq r'))); [| |exact Hc].
  - destruct (haveSSRC c && _); [|by apply keeps_ret].
    pose proof (reorder.Flush_balanced transport.datagram_ok r Hr Hn) as Hf. destruct (reorder.Flush r) as [r1 out].
    destruct Hf as ((F1 & F2 & F3 & F4) & _). eapply keeps_seq; [by apply drain_safe|]. intros _ _. apply keeps_ret. intros c' _. split; [apply reorder.zero_ring|done].
  - intros r1 c1 Hc1 [Hr1 Hn1]. pose proof (reorder.Push_balanced transport.datagram_ok r1 (rtp.SequenceNumber (rtp.Hdr pkt)) data Hr1 (conj Hb Hl)) as Hp.
    pose proof (reorder.Push_next r1 (rtp.SequenceNumber (rtp.Hdr pkt)) data Hn1 (rtp.hok_seq _ Hh)) as Hn2.
    destruct (reorder.Push r1 _ data) as [r2 out]. destruct Hp as (Hr2 & Ho & _). cbn [fst] in Hn2.
    refine (safe_seq (upd_ (with_ring (Some r2) (rtp.SSRC (rtp.Hdr pkt)) true)) _ _ _ c1 Hc1); [apply safe_upd; intros c' []; split; try done; by eapply HR|intros _].
    apply safe_seq; [apply safe_if; intros _; [apply count_safe|apply safe_ret]|intros _]. by apply drain_safe.
Qed.

Lemma deliverPCM_safe data now : Mode (g_cfg g) = ModePCM → safe (deliverPCM g data now).
Proof.
  intros Hm. unfold deliverPCM. destruct (Z.eqb_spec (frameBytes g) 0) as [E|Hfb]; [by destruct (ge_frame g Hg (or_intror Hm))|]. cbv zeta.
  apply safe_if; intros _; [apply count_safe|]. apply safe_seq; [apply safe_if; intros _; [apply count_safe|apply safe_ret]|intros _].
  destruct (whole_prefix (E:=no_err) data (frameBytes g) Hfb) as [Hw Hsl]. eapply safe_lift; [exact Hsl|].
  apply safe_seq; [destruct (swap g); [apply swapped_safe|apply safe_ret]|intros out].
  apply safe_seq; [apply count_safe|intros _]. apply safe_seq; [apply count_safe|intros _]. apply safe_get. intros c Hc.
  apply safe_seq; [apply emit_safe; split; [done|]; apply PTS_range, (cl_samples _ _ _ Hc)|intros _].
  apply safe_upd. intros c' []. split; cbn; try done. apply u64_range.
Qed.
(** A report [Src] allows gives a clock to its source. *)
Context (Src : rtcp.SenderReport → rtcp.Time → Prop).
Context (HC : ∀ t d r l h s sr now, Src sr now → rtcp.SSRC sr = y_source s → y_base s = true → R t d r l h s →
  R t d r l h (mkSync (y_ticks s) (y_base s) (y_source s) (rtcp.SenderClockFrom sr now (ClockRate (g_cfg g))))).
Definition reports (data : list Z) (sr : rtcp.SenderReport) : Prop := ∃ rs, rtcp.ParseCompound data = Ok rs ∧ In sr rs.
Lemma handleRTCP_safe data now : bytes_ok data → (∀ sr, reports data sr → Src sr now) → safe (handleRTCP g data now).
Proof.
  intros Hb Hsrc. unfold handleRTCP. pose proof (rtcp.ParseCompound_total data Hb) as Hp. destruct (rtcp.ParseCompound data) as [[|r0 rs]|x|] eqn:Ep; [apply safe_ret| |apply safe_ret|done].
  intros c Hc. apply run_bind, run_get. destruct (baseSet c) eqn:Eb; [|exact (safe_ret tt c Hc)]. cbn [negb].
  destruct (find _ _) as [sr|] eqn:Ef; [|exact (safe_ret tt c Hc)].
  apply find_some in Ef as [Hin Hs%Z.eqb_eq]. apply run_upd. split; [|by split]. destruct Hc. split; cbn; try done.
  apply (HC _ _ _ _ _ (sync_of c)); try done. apply Hsrc. by exists (r0 :: rs).
Qed.

Definition happening_ok (x : happening) : Prop := match x with RTCPArrived _ data _ => bytes_ok data | _ => True end.
(** The reports that count, of a happening and of a round. *)
Definition heard_in (x : happening) (sr : rtcp.SenderReport) (now : rtcp.Time) : Prop :=
  match x with RTCPArrived from data now' => filtered g from = false ∧ now = now' ∧ reports data sr | _ => False end.
Definition heard (t : turn) (sr : rtcp.SenderReport) (now : rtcp.Time) : Prop :=
  Exists (λ x, heard_in x sr now) (meanwhile t) ∨
  match read t with Datagram from data now' => filtered g from = false ∧ RTCPMux (g_cfg g) = true ∧ now = now' ∧ reports data sr | _ => False end.
Definition turn_ok (t : turn) : Prop := Forall happening_ok (meanwhile t) ∧ match read t with Datagram _ data _ => transport.datagram_ok data | ReadError _ => True end.
Lemma with_end_safe f1 f2 : safe (upd_ (λ c, with_end (f1 c) (f2 c) c)).
Proof. apply safe_upd. intros c []. split; try done. by eapply HR. Qed.
Lemma happens_safe x : happening_ok x → (∀ sr now, heard_in x sr now → Src sr now) → safe (happens g x).
Proof.
  destruct x as [from data now| |why]; intros Hx Hsrc; cbn [happens].
  - apply safe_get. intros c Hc. apply safe_if; intros _; [apply safe_ret|].
    apply safe_seq; [apply safe_if; intros Hfl; [apply count_safe|apply handleRTCP_safe; [done|]; intros sr Hsr; by apply Hsrc]|intros _].
    apply safe_seq; [apply safe_get; intros c' _; apply safe_ret|intros stop]. apply (with_end_safe termErr (λ c, rtcpDone c || stop)).
  - apply (with_end_safe termErr (λ _, true)).
  - apply (with_end_safe (λ c, match termErr c with Some w => Some w | None => Some why end) rtcpDone).
Qed.
Lemma all_happen_safe l : Forall happening_ok l → (∀ sr now, Exists (λ x, heard_in x sr now) l → Src sr now) → safe (all_happen g l).
Proof.
  induction 1 as [|x l Hx _ IH]; intros Hsrc; [apply safe_ret|]. cbn [all_happen].
  apply safe_seq; [apply happens_safe; auto|intros _; apply IH; auto].
Qed.
Lemma receive_safe from data now : transport.datagram_ok data →
  (filtered g from = false → RTCPMux (g_cfg g) = true → ∀ sr, reports data sr → Src sr now) → safe (receive g from data now).
Proof.
  intros Hd Hsrc. unfold receive. apply safe_if; intros Hf; [apply count_safe|].
  apply safe_if; intros Hx; [apply andb_true_iff in Hx as [Hx _]; apply handleRTCP_safe; [apply Hd|by apply Hsrc]|].
  apply safe_seq; [apply count_safe|intros _]. apply safe_if; intros Hm; [apply deliverPCM_safe; by apply Z.eqb_eq|].
  intros c Hc. apply run_bind, run_get. destruct (ring c) as [r|] eqn:Er.
  - apply handleRTPReordered_run; [done|done|by exists r].
  - exact (parsed_safe data now Hd c Hc).
Qed.
(** The loop returns with a terminal cause, and it returns when a read fails or a cause is set. *)
Definition reads (t : turn) : Prop := match read t with Datagram _ _ _ => True | ReadError _ => False end.
Definition ended (ts : list turn) (b : bool) (c : Client) : Prop := (b = true → termErr c ≠ None) ∧ (b = false → termErr c = None ∧ Forall reads ts).
Lemma recvLoop_keeps ts : Forall turn_ok ts → (∀ sr now, Exists (λ t, heard t sr now) ts → Src sr now) →
  keeps Inv frame_ok (recvLoop g ts) (ended ts).
Proof.
  induction 1 as [|t ts [Hm Hr] _ IH]; intros Hsrc; cbn [recvLoop]; intros c Hc; apply run_bind, run_bind, run_get, run_ret.
  - destruct (termErr c) eqn:Et; apply run_ret; (split; [done|]; split; [exact (List.Forall_nil _)|]); unfold ended; rewrite Et; by split.
  - destruct (termErr c) eqn:Et; [apply run_ret; (split; [done|]; split; [exact (List.Forall_nil _)|]); unfold ended; rewrite Et; by split|].
    cbn [app]. revert c Hc Et. assert (H : keeps Inv frame_ok (_ ← all_happen g (meanwhile t); match read t with
      | ReadError timeout => why ← classifyReadErr timeout; _ ← initiateShutdown why; mret true
      | Datagram from data now => _ ← receive g from data now; recvLoop g ts end) (ended (t :: ts))); [|intros c Hc _; exact (H c Hc)].
    eapply keeps_seq; [apply all_happen_safe; [done|]; intros sr now Hx; apply Hsrc; left; by left|intros _ _]. unfold heard, reads in Hsrc.
    assert (Hrd : ∀ sr now, (match read t with Datagram from data now' => filtered g from = false ∧ RTCPMux (g_cfg g) = true ∧ now = now' ∧ reports data sr | _ => False end) → Src sr now).
    { intros sr now Hx. apply Hsrc. left. by right. }
    destruct (read t) as [from data now|timeout] eqn:Er.
    + eapply keeps_seq; [apply receive_safe; [done|]; auto|intros _ _]. intros c Hc.
      eapply run_weaken; [apply (IH (λ sr now Hx, Hsrc sr now (Exists_cons_tl _ Hx)) c Hc)| |done].
      intros b c' out (? & ? & H1 & H2). split; [done|]. split; [done|]. split; [done|]. intros Hb. destruct (H2 Hb) as [H3 H4].
      split; [done|]. constructor; [|done]. unfold reads. by rewrite Er.
    + intros c Hc. apply run_bind, run_bind, run_get, run_ret, run_bind, run_upd, run_ret. split; [destruct Hc; split; try done; by eapply HR|]. split; [exact (List.Forall_nil _)|].
      split; [|done]. intros _. cbn. by destruct (termErr c).
Qed.
End source.

(** ** Open *)
Lemma frame_bytes n : 0 < n < 2 ^ 63 → i64 (2 * n) ≠ 0.
Proof. intros Hn. unfold i64. intros H. pose proof (Z.div_mod (2 * n + 2 ^ 63) (2 ^ 64) ltac:(lia)) as E. assert (Hm : (2 * n + 2 ^ 63) mod 2 ^ 64 = 2 ^ 63) by lia. rewrite Hm in E. lia. Qed.
Definition int (z : Z) : Prop := - 2 ^ 63 ≤ z < 2 ^ 63.
Definition config_ok (c : Config) : Prop := int (ClockRate c) ∧ int (Channels c) ∧ int (f_Channels (Format c)).

Lemma resolveRTPCodec_ok c : returns (resolveRTPCodec c) (λ '(c', k, l, d), decoders_ok k d ∧ Mode c' = Mode c ∧ ClockRate c' = ClockRate c ∧
  PayloadType c' = PayloadType c ∧ Channels c' = Channels c ∧ RTCPListenAddr c' = RTCPListenAddr c ∧ RTCPMux c' = RTCPMux c ∧ Reorder c' = Reorder c).
Proof.
  unfold resolveRTPCodec. destruct (cfg_Codec c) as [[asc| | |l|r p cr ch|cr ch|m|s b a|s]|]; cbn; try done; try (split_and!; [by split|done..]).
  - destruct (depacketaac.New _) as [dp|x] eqn:E; [|done]. apply depacketaac.New_ok in E as (Hdp & _). cbn.
    destruct (_ && _); split_and!; try done; split; cbn; try done; by intros ? [= <-].
  - pose proof (g726.New_wf r p) as Hw. destruct (g726.New r p) as [dec|x|] eqn:E; [|done|by unfold g726.New in E; repeat case_match]. cbn.
    split_and!; try done. split; cbn; try done; intros ? [= <-]; by apply Hw.
  - split_and!; try done. split; cbn; try done; intros ? [= <-]; by split.
Qed.
Lemma reject_ok {A} b (m : res err A) (P : A → Prop) : (b = false → returns m P) → returns (reject b m) P.
Proof. destruct b; [done|]. intros H. by apply H. Qed.
Lemma resolveFormat_ok c : config_ok c → returns (resolveFormat c) (λ '(g, d), geometry_ok g ∧ decoders_ok (kind g) d ∧ Mode (g_cfg g) = Mode c).
Proof.
  intros (Hr & Hch & Hf). unfold resolveFormat, int in *. destruct (Z.eqb_spec (Mode c) ModeRTP) as [Hm|_].
  - apply reject_ok. intros H1%Z.leb_gt. apply reject_ok. intros H2%Z.ltb_ge.
    eapply returns_bind; [apply resolveRTPCodec_ok|]. intros [[[c' k] l] d] (Hd & E1 & E2 & E3 & E4 & E5 & E6 & E7). cbv beta.
    repeat (apply reject_ok; intros ?). split; [|by split]. split; cbn; [|lia|lia]. intros [Hk|Hk]; [|rewrite E1, Hm in Hk; done].
    rewrite Hk in *. cbn in *. breflect. apply frame_bytes. lia.
  - destruct (Z.eqb_spec (Mode c) ModePCM) as [Hm|_]; [|done]. apply reject_ok. intros H1. apply reject_ok. intros _. cbn. breflect.
    split; [|by split; [split|]]. split; cbn; [intros _; apply frame_bytes; lia|by rewrite Hm..].
Qed.
Lemma applyDefaults_config c : config_ok c → config_ok (applyDefaults c).
Proof. done. Qed.
Lemma Open_ok w cfg : config_ok cfg →
  match Open w cfg with
  | (Ok (g, c), socks) => geometry_ok g ∧ client_ok (kind g) just_opened c ∧ MediaSocket ∈ socks
  | (Err _, socks) => socks = []
  | (Panic, _) => False
  end.
Proof.
  intros Hc. unfold Open. destruct (bool_decide _); [done|].
  pose proof (resolveFormat_ok _ (applyDefaults_config _ Hc)) as H. destruct (resolveFormat _) as [[g d]|x|]; [|done|done].
  destruct H as (Hge & Hd & Hmode). cbv zeta. set (ip := if bool_decide _ then Ok None else _).
  assert (Hip : ip ≠ Panic) by (unfold ip; destruct (bool_decide _); [done|]; by destruct (ParseIP w _)).
  destruct ip as [ip'|x|]; [|done|done]. destruct (canceled w); [done|]. destruct (media_bind w); [done|done|].
  assert (Hok : ∀ ip', geometry_ok (mkGeometry (g_cfg g) (kind g) (law g) (frameBytes g) (swap g) ip')) by (intros; destruct Hge; by split).
  assert (Hcl : client_ok (kind g) just_opened (new_client d (Reorder (g_cfg g) && (Mode (g_cfg g) =? ModeRTP)) (opened_at w))).
  { split; cbn; try done. destruct (_ && _); [|done]. split; [apply reorder.zero_ring|done]. }
  destruct (bool_decide _); [split_and!; [apply Hok|exact Hcl|by left]|]. destruct (rtcp_bind w); [done|done|]. split_and!; [apply Hok|exact Hcl|by left].
Qed.

(** ** The arrival, and the bookkeeping of the transport, do not show *)
Definition no_stamps : transport.stamps := transport.mkStamps 0 0 0 0.
(** A client without its resequencer and without the counters of the transport. *)
Definition media (c : Client) : Client := with_ring None 0 false (with_cnt (transport.stamp_cnt no_stamps (cnt c)) c).
Definition undate (f : Frame) : Frame := mkFrame (TrackID f) (Data f) (RTPTime f) (PTS f) rtcp.zero_time (SeqGap f).
Abbreviation ag := (agrees media undate).
Lemma media_media c : media (media c) = media c.
Proof. done. Qed.

Section shown.
Context (g : geometry).
Lemma ag_upd f : (∀ c, media (f c) = media (f (media c))) → ag (upd_ f) (upd_ f : eff Client Frame no_err unit).
Proof. intros H. by apply agrees_upd. Qed.
Lemma ag_dec f : ag (upd_ (λ c, with_dec (f (dec c)) c)) (upd_ (λ c, with_dec (f (dec c)) c) : eff Client Frame no_err unit).
Proof. by apply ag_upd. Qed.
Lemma ag_if {A} (b : bool) (m1 m2 n1 n2 : eff Client Frame no_err A) : ag m1 n1 → ag m2 n2 → ag (if b then m1 else m2) (if b then n1 else n2).
Proof. by destruct b. Qed.
Lemma ag_seq {A B} (m1 m2 : eff Client Frame no_err A) (f1 f2 : A → eff Client Frame no_err B) : ag m1 m2 → (∀ a, ag (f1 a) (f2 a)) → ag (m1 ≫= f1) (m2 ≫= f2).
Proof. apply agrees_bind. Qed.
Lemma ag_emit f1 f2 : undate f1 = undate f2 → ag (emit g f1) (emit g f2).
Proof. intros H. unfold emit. apply ag_if; [apply agrees_emit; cbn; by rewrite H|apply agrees_ret]. Qed.

Lemma ag_deliver_frame pkt now1 now2 data ts : ag (deliver_frame g pkt now1 data ts) (deliver_frame g pkt now2 data ts).
Proof.
  apply ag_seq; [by apply ag_upd|intros _]. apply agrees_get; [done|done|intros c]. apply ag_seq; [by apply ag_upd|intros _]. by apply ag_emit.
Qed.
Lemma ag_deliver_units pkt up now1 now2 aus : ∀ i, ag (deliver_units g pkt up now1 i aus) (deliver_units g pkt up now2 i aus).
Proof.
  induction aus as [|au aus IH]; intros i; [apply agrees_ret|]. cbn [deliver_units]. apply ag_seq; [by apply ag_upd|intros _].
  apply agrees_get; [done|done|intros c]. apply ag_seq; [apply ag_if; [by apply ag_upd|apply agrees_ret]|intros _].
  apply ag_seq; [by apply ag_emit|intros _; apply IH].
Qed.
Lemma ag_ensure n : ag (ensurePCMBuf n) (ensurePCMBuf n).
Proof. apply agrees_get; [done|done|intros c]. apply ag_seq; [by apply ag_upd|intros _; apply agrees_ret]. Qed.
Lemma ag_malformed_none {A} : ag (_ ← malformed; mret (@None A)) (_ ← malformed; mret None).
Proof. apply ag_seq; [by apply ag_upd|intros _; apply agrees_ret]. Qed.
Lemma ag_written n dst : ag (written n dst) (written n dst).
Proof. by apply ag_upd. Qed.
Lemma ag_some {A} (m : res no_err A) : ag (out ← lift m; mret (Some out)) (out ← lift m; mret (Some out)).
Proof. apply ag_seq; [apply agrees_res|intros out; apply agrees_ret]. Qed.
Lemma ag_transform pkt : ag (transform g pkt) (transform g pkt).
Proof.
  unfold transform. destruct (kind g); try apply agrees_ret.
  - apply ag_seq; [apply ag_ensure|intros dst]. apply ag_seq; [apply agrees_res|intros [[n dst'] e]]. apply ag_seq; [apply ag_written|intros _].
    destruct e; [apply ag_malformed_none|apply ag_some].
  - apply ag_if; [apply agrees_panic|]. apply ag_if; [apply ag_malformed_none|]. apply ag_seq; [apply ag_if; [by apply ag_upd|apply agrees_ret]|intros _].
    apply ag_seq; [apply agrees_res|intros src]. apply ag_seq; [|intros out; apply agrees_ret]. apply ag_seq; [apply ag_ensure|intros dst].
    unfold byteSwapInto. apply ag_seq; [apply ag_written|intros _; apply agrees_ret].
  - destruct (depacketopus.Depacketize _); [apply agrees_ret|apply ag_malformed_none].
  - apply agrees_get; [done|done|intros c]. change (dec (media c)) with (dec c). destruct (d_g726 _) as [d|]; [|apply agrees_panic].
    apply ag_seq; [apply ag_ensure|intros dst]. apply ag_seq; [apply agrees_res|intros [[[m dst'] d'] e]]. apply ag_seq; [apply ag_written|intros _].
    apply ag_seq; [by apply ag_upd|intros _]. destruct e; [apply ag_malformed_none|apply ag_some].
Qed.
Lemma ag_deliverRTP pkt up now1 now2 : ag (deliverRTP g pkt up now1) (deliverRTP g pkt up now2).
Proof.
  assert (Hfold : ag (fold_gap up) (fold_gap up)) by (by apply ag_upd).
  assert (Hone : ag (_ ← fold_gap up; out ← transform g pkt; match out with None => mret tt | Some out => deliver_frame g pkt now1 out (stream.Timestamp up) end)
    (_ ← fold_gap up; out ← transform g pkt; match out with None => mret tt | Some out => deliver_frame g pkt now2 out (stream.Timestamp up) end)).
  { apply ag_seq; [exact Hfold|intros _]. apply ag_seq; [apply ag_transform|intros [out|]]; [apply ag_deliver_frame|apply agrees_ret]. }
  unfold deliverRTP. destruct (kind g); try exact Hone; clear Hone.
  - apply ag_seq; [exact Hfold|intros _]. apply agrees_get; [done|done|intros c]. change (dec (media c)) with (dec c). destruct (d_aac _) as [d|]; [|apply agrees_panic].
    apply ag_seq; [apply agrees_res|intros [d' r]]. apply ag_seq; [by apply ag_upd|intros _]. destruct r; [apply ag_deliver_units|by apply ag_upd].
  - apply ag_seq; [exact Hfold|intros _]. apply agrees_get; [done|done|intros c]. change (dec (media c)) with (dec c). destruct (d_flac _) as [d|]; [|apply agrees_panic].
    destruct (depacketflac.Depacketize _ _ _ _) as [d' r]. apply ag_seq; [by apply ag_upd|intros _].
    destruct r as [[f|]|x|]; [apply ag_deliver_frame|apply agrees_ret|by apply ag_upd|apply agrees_panic].
Qed.
Lemma ag_processRTP pkt now1 now2 : ag (processRTP g pkt now1) (processRTP g pkt now2).
Proof.
  unfold processRTP. cbv zeta. apply ag_if; [by apply ag_upd|]. apply agrees_get; [done|done|intros c]. change (strm (media c)) with (strm c).
  destruct (stream.Observe _ _) as [st up]. apply ag_seq; [by apply ag_upd|intros _].
  apply ag_seq; [apply ag_if; [|apply agrees_ret]|intros _].
  { apply ag_seq; [by apply ag_upd|intros _]. apply ag_seq; [by apply ag_upd|intros _; by apply ag_upd]. }
  apply ag_seq; [apply ag_upd; intros c'; change (tsBaseSet (media c')) with (tsBaseSet c'); by destruct (_ || _)|intros _].
  apply ag_if; [by apply ag_upd|]. apply ag_seq; [apply ag_if; [|apply agrees_ret]|intros _].
  { apply ag_seq; [by apply ag_upd|intros _; by apply ag_upd]. }
  apply ag_seq; [by apply ag_upd|intros _]. apply ag_deliverRTP.
Qed.
Lemma ag_drain released now1 now2 : ag (drainReleased g released now1) (drainReleased g released now2).
Proof.
  induction released as [|q released IH]; [apply agrees_ret|]. cbn [drainReleased]. apply ag_seq; [|intros _; exact IH].
  destruct (rtp.ParsePacket _); [apply ag_processRTP|by apply ag_upd|apply agrees_panic].
Qed.

(** *** Draining is what both paths do *)
Definition as_released (ps : list (list Z)) : list reorder.Released := reorder.mkReleased 0 <$> ps.
Lemma drain_payloads released now : ∀ c, drainReleased g released now c = drainReleased g (as_released (reorder.Payload <$> released)) now c.
Proof.
  induction released as [|q released IH]; intros c; [done|]. cbn [drainReleased fmap list_fmap as_released reorder.Payload]. unfold mbind, eff_bind.
  destruct (_ c) as [[c1 o1] [[]|x|]]; [|done|done]. by rewrite IH.
Qed.
Lemma drain_both a b now c : drainReleased g (a ++ b) now c = (_ ← drainReleased g a now; drainReleased g b now) c.
Proof.
  revert c. induction a as [|q a IH]; intros c; [unfold mbind, eff_bind; cbn; by destruct (drainReleased g b now c) as [[? ?] ?]|].
  cbn [app drainReleased]. unfold mbind, eff_bind in *. destruct (_ c) as [[c1 o1] [[]|x|]]; [|done|done]. rewrite IH.
  destruct (drainReleased g a now c1) as [[c2 o2] [[]|x|]]; [|done|done]. destruct (drainReleased g b now c2) as [[c3 o3] r]. by rewrite app_assoc.
Qed.
(** The media went from [c] to [c'] through the datagrams [ps], and [fs] were delivered. *)
Definition shows (c : Client) (fs : list Frame) (c' : Client) (ps : list (list Z)) : Prop :=
  ∃ m fs', drainReleased g (as_released ps) rtcp.zero_time (media c) = (m, fs', Ok tt) ∧ media m = media c' ∧ undate <$> fs' = undate <$> fs.
Lemma shows_refl c c' : media c = media c' → shows c [] c' [].
Proof. intros H. by exists (media c), []. Qed.
Lemma shows_trans c f1 c1 a f2 c2 b : shows c f1 c1 a → shows c1 f2 c2 b → shows c (f1 ++ f2) c2 (a ++ b).
Proof.
  intros (m1 & g1 & E1 & H1 & F1) (m2 & g2 & E2 & H2 & F2). unfold shows, as_released in *. rewrite fmap_app.
  pose proof (ag_drain (reorder.mkReleased 0 <$> b) rtcp.zero_time rtcp.zero_time m1 (media c1) H1) as H. rewrite E2 in H.
  rewrite drain_both. unfold mbind, eff_bind. rewrite E1. destruct (drainReleased g (_ <$> b) _ m1) as [[m3 g3] r]. destruct H as (H3 & F3 & ->).
  exists m3, (g1 ++ g3). split; [done|]. split; [congruence|]. by rewrite !fmap_app, F1, F3, F2.
Qed.
Lemma shows_from c c0 fs c' ps : media c0 = media c → shows c fs c' ps → shows c0 fs c' ps.
Proof. unfold shows. by intros ->. Qed.
Lemma shows_to c fs c' c0 ps : media c0 = media c' → shows c fs c' ps → shows c fs c0 ps.
Proof. unfold shows. by intros ->. Qed.
Lemma shows_same c fs1 c1 fs2 c2 ps : shows c fs1 c1 ps → shows c fs2 c2 ps → media c1 = media c2 ∧ undate <$> fs1 = undate <$> fs2.
Proof. intros (m & f & E & H1 & F1) (m' & f' & E' & H2 & F2). rewrite E in E'. injection E' as <- <-. split; congruence. Qed.

Definition at_ring (r : option reorder.Reorderer) (l : Z) (h : bool) : around := λ t _ r' l' h' _, t = None ∧ r' = r ∧ l' = l ∧ h' = h.
Lemma at_ring_closed r l h : closed_base (at_ring r l h).
Proof. by intros t d r' l' h' s ssrc reset _. Qed.
Lemma drain_shows released now c (R : around) : geometry_ok g → closed_base R → client_ok (kind g) R c → Forall transport.datagram_ok (reorder.Payload <$> released) →
  ∃ c' fs, drainReleased g released now c = (c', fs, Ok tt) ∧ shows c fs c' (reorder.Payload <$> released) ∧ client_ok (kind g) R c'.
Proof.
  intros Hg HB Hc Hp. assert (Hp' : Forall (λ q, transport.datagram_ok (reorder.Payload q)) released) by (exact (proj1 (Forall_fmap _ _ _) Hp)).
  pose proof (drain_safe g R Hg HB released now Hp' c Hc) as H. unfold run in H.
  pose proof (ag_drain released now rtcp.zero_time c (media c) eq_refl) as Ha. rewrite (drain_payloads released rtcp.zero_time) in Ha.
  destruct (drainReleased g released now c) as [[c' fs] [[]|x|]] eqn:E; [|done|done]. exists c', fs. split; [done|]. split; [|apply H].
  unfold shows. destruct (drainReleased g (as_released _) _ (media c)) as [[m fs'] r]. destruct Ha as (H1 & H2 & <-). by exists m, fs'.
Qed.

(** A read that gives a datagram, with nothing happening meanwhile. *)
Definition arrival (d : list Z * list Z * rtcp.Time) : turn := mkTurn [] (Datagram d.1.1 d.1.2 d.2).
Lemma recvLoop_arrival d ts c : termErr c = None → recvLoop g (arrival d :: ts) c = (_ ← receive g d.1.1 d.1.2 d.2; recvLoop g ts) c.
Proof.
  intros Ht. cbn [recvLoop]. unfold closed, mbind, eff_bind, get_, mret, eff_ret. rewrite Ht. cbn.
  destruct (receive g d.1.1 d.1.2 d.2 c) as [[c1 o1] [[]|x|]]; [|done|done]. by destruct (recvLoop g ts c1) as [[c2 o2] r].
Qed.
Lemma recvLoop_idle c : termErr c = None → recvLoop g [] c = (c, [], Ok false).
Proof. intros Ht. cbn [recvLoop]. unfold closed, mbind, eff_bind, get_, mret, eff_ret. by rewrite Ht. Qed.

(** Packets of one source and of the configured payload type, not to be taken for RTCP. *)
Definition media_packet (ssrc : Z) (k : Z) (p : list Z) : Prop :=
  transport.datagram_ok p ∧ (RTCPMux (g_cfg g) && isRTCP p) = false ∧
  ∃ pkt, rtp.ParsePacket p = Ok pkt ∧ rtp.SSRC (rtp.Hdr pkt) = ssrc ∧ rtp.SequenceNumber (rtp.Hdr pkt) = k ∧ rtp.PayloadType (rtp.Hdr pkt) = PayloadType (g_cfg g).
Context (Hg : geometry_ok g) (Hmode : Mode (g_cfg g) = ModeRTP).
Lemma wire_media now n c : media (with_cnt (pipeline.add_wire now n (cnt c)) c) = media c.
Proof. done. Qed.
Lemma wire_ok now n R c : client_ok (kind g) R c → client_ok (kind g) R (with_cnt (pipeline.add_wire now n (cnt c)) c).
Proof. by intros []. Qed.
Lemma receive_media from data now c : filtered g from = false → (RTCPMux (g_cfg g) && isRTCP data) = false →
  receive g from data now c =
    (match ring c with Some _ => handleRTPReordered g data now | None => handleRTP g data now end) (with_cnt (pipeline.add_wire (UnixNano now) (blen data) (cnt c)) c).
Proof.
  intros Hf Hm. unfold receive. rewrite Hf, Hm, Hmode. unfold mbind, eff_bind, get_, count, upd_. cbn [ring with_cnt ModeRTP ModePCM Z.eqb].
  destruct (ring c) as [r|];
    [destruct (handleRTPReordered g data now _) as [[c' o] x]|destruct (handleRTP g data now _) as [[c' o] x]]; done.
Qed.
Lemma receive_immediate ssrc k from data now c : media_packet ssrc k data → filtered g from = false → client_ok (kind g) (at_ring None 0 false) c →
  ∃ c' fs, receive g from data now c = (c', fs, Ok tt) ∧ shows c fs c' [data] ∧ client_ok (kind g) (at_ring None 0 false) c'.
Proof.
  intros (Hd & Hm & pkt & Ep & _) Hf Hc. rewrite receive_media by done. pose proof (cl_end _ _ _ Hc) as (_ & -> & _).
  set (c1 := with_cnt _ c). destruct (drain_shows [reorder.mkReleased 0 data] now c1 _ Hg (at_ring_closed _ _ _) (wire_ok _ _ _ _ Hc)) as (c' & fs & E & Hs & Hc'); [by constructor|].
  exists c', fs. split; [|by split]. unfold handleRTP. cbn [drainReleased reorder.Payload] in E. rewrite Ep in E |- *. unfold mbind, eff_bind in E.
  destruct (processRTP g pkt now c1) as [[c2 o2] [[]|x|]]; [|done|done]. cbn in E. by rewrite app_nil_r in E.
Qed.
Lemma receive_reordered ssrc k from data now c r l h : media_packet ssrc k data → filtered g from = false →
  client_ok (kind g) (at_ring (Some r) l h) c → (h = true → l = ssrc) →
  let '(r', out) := reorder.Push r k data in
  ∃ c' fs, receive g from data now c = (c', fs, Ok tt) ∧ shows c fs c' (reorder.Payload <$> out) ∧ client_ok (kind g) (at_ring (Some r') ssrc true) c'.
Proof.
  intros (Hd & Hm & pkt & Ep & Es & Ek & Et) Hf Hc Hl. rewrite receive_media by done. pose proof (cl_end _ _ _ Hc) as (Ht & Er & El & Eh). rewrite Er.
  pose proof (cl_ring _ _ _ Hc) as Hr. rewrite Er in Hr. destruct Hr as [Hr Hn].
  pose proof (rtp.ParsePacket_payload data pkt (proj1 Hd) Ep) as (_ & Hh & _).
  pose proof (reorder.Push_balanced transport.datagram_ok r k data Hr Hd) as Hp. pose proof (reorder.Push_next r k data Hn) as Hn2.
  rewrite <- Ek in Hn2 at 1. specialize (Hn2 (rtp.hok_seq _ Hh)).
  unfold handleRTPReordered. rewrite Ep. unfold mbind, eff_bind, get_. set (c1 := with_cnt _ c). rewrite Et, Z.eqb_refl. cbn [negb andb].
  change (ring c1) with (ring c). change (haveSSRC c1) with (haveSSRC c). change (lastSSRC c1) with (lastSSRC c). rewrite Er, El, Eh, Es.
  assert (Hh0 : h && negb (ssrc =? l) = false) by (destruct h; [rewrite Hl by done; by rewrite Z.eqb_refl|done]). rewrite Hh0. cbn [mret eff_ret].
  rewrite Ek. destruct (reorder.Push r k data) as [r' out]. destruct Hp as (Hr' & Ho & _). cbn [fst] in Hn2.
  set (c2 := with_ring (Some r') ssrc true c1). unfold upd_. cbn [app].
  match goal with |- context [if ?b then count ?f else mret ()] => set (m := if b then count f else mret ()) end.
  assert (Hm3 : ∃ c3, m c2 = (c3, [], Ok tt) ∧ client_ok (kind g) (at_ring (Some r') ssrc true) c3 ∧ media c3 = media c).
  { subst m. destruct (_ <? _); (eexists; split; [reflexivity|split; [|done]]); by destruct Hc; split. }
  destruct Hm3 as (c3 & E3 & Hc3 & Hm3). destruct (drain_shows out now c3 _ Hg (at_ring_closed _ _ _) Hc3) as (c' & fs & E & Hs & Hc'); [by apply Forall_fmap|].
  exists c', fs. split; [|split; [by apply (shows_from c3)|done]]. change (with_ring (Some r') ssrc true c1) with c2. by rewrite E3, E.
Qed.

(** Both paths, over a run of datagrams. *)
Definition gives (ssrc : Z) (d : list Z * list Z * rtcp.Time) (kp : Z * list Z) : Prop :=
  d.1.2 = kp.2 ∧ media_packet ssrc kp.1 kp.2 ∧ filtered g d.1.1 = false.
Lemma immediate_shows ds ssrc kps : Forall2 (gives ssrc) ds kps → ∀ c, client_ok (kind g) (at_ring None 0 false) c →
  ∃ c' fs, recvLoop g (arrival <$> ds) c = (c', fs, Ok false) ∧ shows c fs c' kps.*2.
Proof.
  induction 1 as [|[[from data] now] [k p] ds kps (Hd & Hm & Hf) _ IH]; intros c Hc; pose proof (cl_end _ _ _ Hc) as (Ht & _).
  { exists c, []. split; [by apply recvLoop_idle|by apply shows_refl]. }
  cbn [fst snd] in *. subst p. cbn [fmap list_fmap]. rewrite recvLoop_arrival by done. cbn [arrival fst snd].
  destruct (receive_immediate ssrc k from data now c Hm Hf Hc) as (c1 & f1 & E1 & H1 & Hc1). destruct (IH c1 Hc1) as (c2 & f2 & E2 & H2).
  unfold mbind, eff_bind. rewrite E1. change (list_fmap _ _ arrival ds) with (arrival <$> ds). rewrite E2. exists c2, (f1 ++ f2). split; [done|].
  exact (shows_trans _ _ _ [data] _ _ _ H1 H2).
Qed.
Lemma reordered_shows ds ssrc kps : Forall2 (gives ssrc) ds kps → ∀ c r l h, client_ok (kind g) (at_ring (Some r) l h) c → (h = true → l = ssrc) →
  let '(r', out) := reorder.push_all r kps in
  ∃ c' fs, recvLoop g (arrival <$> ds) c = (c', fs, Ok false) ∧ ring c' = Some r' ∧ shows c fs c' (reorder.Payload <$> out).
Proof.
  induction 1 as [|[[from data] now] [k p] ds kps (Hd & Hm & Hf) _ IH]; intros c r l h Hc Hl; pose proof (cl_end _ _ _ Hc) as (Ht & Er & _).
  { exists c, []. split; [by apply recvLoop_idle|]. split; [done|by apply shows_refl]. }
  cbn [fst snd] in *. subst p. cbn [fmap list_fmap reorder.push_all]. rewrite recvLoop_arrival by done. cbn [arrival fst snd].
  pose proof (receive_reordered ssrc k from data now c r l h Hm Hf Hc Hl) as H1. destruct (reorder.Push r k data) as [r1 o1].
  destruct H1 as (c1 & f1 & E1 & H1 & Hc1). specialize (IH c1 r1 ssrc true Hc1 ltac:(done)). destruct (reorder.push_all r1 kps) as [r2 o2].
  destruct IH as (c2 & f2 & E2 & Er2 & H2). unfold mbind, eff_bind. rewrite E1. change (list_fmap _ _ arrival ds) with (arrival <$> ds). rewrite E2.
  exists c2, (f1 ++ f2). split; [done|]. split; [done|]. rewrite fmap_app. exact (shows_trans _ _ _ _ _ _ _ H1 H2).
Qed.
End shown.

(** ** What holds *)
Definition anything : around := λ _ _ _ _ _ _, True.
(** The clock, if any, is that of a report of the source the timestamps are relative to. *)
Definition clock_of (rate : Z) (Src : rtcp.SenderReport → rtcp.Time → Prop) (s : sync) : Prop :=
  match y_clock s with
  | Some k => y_base s = true ∧ ∃ sr now, Src sr now ∧ rtcp.SSRC sr = y_source s ∧ rtcp.SenderClockFrom sr now rate = Some k
  | None => True
  end.
Definition clocked (rate : Z) (Src : rtcp.SenderReport → rtcp.Time → Prop) : around := λ _ _ _ _ _ s, y_base s = y_ticks s ∧ clock_of rate Src s.
Lemma clocked_base rate Src : closed_base (clocked rate Src).
Proof.
  intros t d r l h [tk b m k] ssrc reset Hr [Hb Hk]. split; [done|]. unfold clock_of in *. cbn in *. destruct reset; [done|].
  destruct k as [k|]; [|done]. destruct Hk as [-> _]. by subst tk.
Qed.
Lemma runs (R : around) (Src : rtcp.SenderReport → rtcp.Time → Prop) g c ts : geometry_ok g → client_ok (kind g) just_opened c → (∀ t d r l h s, just_opened t d r l h s → R t d r l h s) →
  closed_base R → (∀ t d r l h t' d' r' l' h' s, R t d r l h s → R t' d' r' l' h' s) →
  (∀ t d r l h s sr now, Src sr now → rtcp.SSRC sr = y_source s → y_base s = true → R t d r l h s →
    R t d r l h (mkSync (y_ticks s) (y_base s) (y_source s) (rtcp.SenderClockFrom sr now (ClockRate (g_cfg g))))) →
  Forall turn_ok ts → (∀ sr now, Exists (λ t, heard g t sr now) ts → Src sr now) →
  ∃ c' fs b, recvLoop g ts c = (c', fs, Ok b) ∧ client_ok (kind g) R c' ∧ Forall frame_ok fs ∧ ended ts b c'.
Proof.
  intros Hg Hc H0 HB HR HC Hts Hsrc. pose proof (recvLoop_keeps g R Hg HB HR Src HC ts Hts Hsrc c (client_weaken _ _ R _ H0 Hc)) as H. unfold run in H.
  destruct (recvLoop g ts c) as [[c' fs] [b|x|]]; [|done|done]. by exists c', fs, b.
Qed.

(** C16: the UDP source is safe from Open on. Whatever the configuration (with integers of the
    width of the machine's), the resolver and the sockets, Open does not panic, and when it fails
    it leaves no socket open. The source it gives then takes any sequence of datagrams, failed
    reads, datagrams of the RTCP socket and shutdowns without a panic; its depacketizers, its
    stream state and its resequencer stay well formed; every frame is of track 0 and has a presentation time that is a
    nonnegative 64-bit duration; and the loop returns exactly when a terminal cause is set, which
    a failed read always does. *)
Theorem udp_source_safe w cfg ts : config_ok cfg → Forall turn_ok ts →
  match Open w cfg with
  | (Ok (g, c), socks) => MediaSocket ∈ socks ∧
      ∃ c' fs b, recvLoop g ts c = (c', fs, Ok b) ∧ client_ok (kind g) anything c' ∧ Forall frame_ok fs ∧ ended ts b c'
  | (Err _, socks) => socks = []
  | (Panic, _) => False
  end.
Proof.
  intros Hcfg Hts. pose proof (Open_ok w cfg Hcfg) as H. destruct (Open w cfg) as [[[g c]|x|] socks]; [|done|done].
  destruct H as (Hg & Hc & Hs). split; [done|]. by apply (runs anything (λ _ _, True)).
Qed.

(** C17: the clock of a sender is published for the source being played only. After any run from
    Open, the source has no sender clock, or it is the one computed from a sender report that
    reached it (on the RTCP socket, or on the media socket when RTCP is multiplexed, and not
    from an address that is filtered out) whose source is the one the timestamps of the frames are relative
    to now: a change of source forgets the clock, and a report of another source gives none. *)
Theorem udp_clock_of_source w cfg ts g c socks : config_ok cfg → Forall turn_ok ts → Open w cfg = (Ok (g, c), socks) →
  ∃ c' fs b, recvLoop g ts c = (c', fs, Ok b) ∧
    clock_of (ClockRate (g_cfg g)) (λ sr now, Exists (λ t, heard g t sr now) ts) (sync_of c').
Proof.
  intros Hcfg Hts E. pose proof (Open_ok w cfg Hcfg) as H. rewrite E in H. destruct H as (Hg & Hc & _).
  set (Src := λ sr now, Exists (λ t, heard g t sr now) ts).
  destruct (runs (clocked (ClockRate (g_cfg g)) Src) Src g c ts Hg Hc) as (c' & fs & b & Er & Hc' & _); try done.
  - by intros t d r l h s (_ & _ & _ & ->).
  - apply clocked_base.
  - intros t d r l h s sr now Hsrc Hs Hb [H1 _]. split; [done|]. unfold clock_of. cbn.
    destruct (rtcp.SenderClockFrom sr now _) as [k|] eqn:Ek; [|done]. split; [done|]. by exists sr, now.
  - exists c', fs, b. split; [done|]. apply (cl_end _ _ _ Hc').
Qed.

(** C15: resequencing restores what the network reordered. The RTP packets of a source, consecutive
    in sequence number (across any wrap), arrive in any order in which none overtakes another by
    128 or more, after the first. Whatever the codec and the arrival times, a source that
    resequences delivers exactly the frames, with the same times and losses, that one without a
    resequencer delivers when they arrive in order; both end with the same depacketizers, stream state and counters
    (those of the datagrams and of the dropped packets apart), and no packet is dropped. *)
Theorem udp_reorder_in_order g ssrc e0 p0 ps l ds1 ds2 c : geometry_ok g → Mode (g_cfg g) = ModeRTP →
  client_ok (kind g) (at_ring None 0 false) c → 0 ≤ e0 < 2 ^ 16 →
  (e0, p0) :: l ≡ₚ reorder.numbered e0 ps → reorder.no_overtake ((e0, p0) :: l) →
  Forall2 (gives g ssrc) ds1 (reorder.wire_trace ((e0, p0) :: l)) → Forall2 (gives g ssrc) ds2 (reorder.wire_trace (reorder.numbered e0 ps)) →
  ∃ c1 f1 c2 f2 r, recvLoop g (arrival <$> ds1) (with_ring (Some reorder.zero) 0 false c) = (c1, f1, Ok false) ∧
    recvLoop g (arrival <$> ds2) c = (c2, f2, Ok false) ∧ undate <$> f1 = undate <$> f2 ∧ media c1 = media c2 ∧
    ring c1 = Some r ∧ reorder.Stats r = reorder.mkStats 0 0 0.
Proof.
  intros Hg Hmode Hc He Hperm Hno H1 H2. pose proof (reorder.lossless_run e0 p0 ps l He Hperm Hno) as Hrun.
  assert (Hc0 : client_ok (kind g) (at_ring (Some reorder.zero) 0 false) (with_ring (Some reorder.zero) 0 false c)).
  { destruct Hc as [? ? ? ? (Ht & _) ?]. split; cbn; try done. }
  pose proof (reordered_shows g Hg Hmode ds1 ssrc _ H1 _ reorder.zero 0 false Hc0 ltac:(done)) as Hr.
  destruct (reorder.push_all reorder.zero _) as [r out]. destruct Hrun as [-> Hst]. destruct Hr as (c1 & f1 & E1 & Er & S1).
  destruct (immediate_shows g Hg Hmode ds2 ssrc _ H2 c Hc) as (c2 & f2 & E2 & S2).
  assert (Hpl : reorder.Payload <$> (reorder.wire <$> reorder.numbered e0 ps) = (reorder.wire_trace (reorder.numbered e0 ps)).*2).
  { unfold reorder.wire_trace. rewrite <- !list_fmap_compose. apply list_fmap_ext. by intros ? []. }
  rewrite Hpl in S1. destruct (shows_same g _ _ _ _ _ _ S1 S2) as [Hm Hf]. by exists c1, f1, c2, f2, r.
Qed.

(** *** At work: Opus with RTCP multiplexed on one port *)
Definition sample_config (resequence : bool) : Config :=
  mkConfig [58; 53] ModeRTP 111 (Some CodecOpus) 48000 2 (mkParams 0 0 0 0 []) resequence [] true (mkFormat 0 0 false) [] true 0.
Definition sample_world : world := mkWorld (λ _, None) false Bound Bound 0.
Definition sample_from : list Z := [192; 0; 2; 1].
Definition sample_report : list Z := [0x80; 200; 0; 6; 0; 0; 0; 9; 131; 170; 126; 128; 0; 0; 0; 1; 0; 0; 0; 3; 0; 0; 0; 2; 0; 0; 0; 2].
Definition sample_turns : list turn :=
  [arrival (sample_from, transport.sample_datagram 65535 1, pipeline.sample_now); arrival (sample_from, sample_report, pipeline.sample_now);
   mkTurn [Shutdown ErrClosed] (ReadError false)].
Definition sample_geometry (resequence : bool) : geometry := mkGeometry (applyDefaults (sample_config resequence)) kindOpus 0 0 false None.
Definition sample_client (resequence : bool) : Client := new_client no_decoders resequence 0.

Lemma sample_open b : Open sample_world (sample_config b) = (Ok (sample_geometry b, sample_client b), [MediaSocket]).
Proof. by destruct b. Qed.
Lemma sample_config_ok b : config_ok (sample_config b).
Proof. by repeat split. Qed.
Lemma sample_turns_ok : Forall turn_ok sample_turns.
Proof.
  assert (Hd : ∀ d, Forall (λ b, bool_decide (is_u8 b) = true) d.1.2 → blen d.1.2 ≤ 2 ^ 16 → turn_ok (arrival d)).
  { intros d Hb Hl. split; [constructor|]. split; [|done]. eapply Forall_impl; [|exact Hb]. intros b Hb'. by apply bool_decide_eq_true in Hb'. }
  repeat constructor; by vm_compute.
Qed.
(** The report gives a clock, and the loop returns the cause of the shutdown, not the failed read. *)
Example sample_source_run : match recvLoop (sample_geometry false) sample_turns (sample_client false) with
  | (c, [f], Ok true) => is_Some (srClock c) ∧ mediaSSRC c = 9 ∧ termErr c = Some ErrClosed ∧ Data f = [1]
  | _ => False end.
Proof. by vm_compute; eauto. Qed.

Lemma udp_source_safe_witness : config_ok (sample_config true) ∧ Forall turn_ok sample_turns ∧
  match Open sample_world (sample_config true) with
  | (Ok (g, c), socks) => MediaSocket ∈ socks ∧
      ∃ c' fs b, recvLoop g sample_turns c = (c', fs, Ok b) ∧ client_ok (kind g) anything c' ∧ Forall frame_ok fs ∧ ended sample_turns b c'
  | (Err _, socks) => socks = []
  | (Panic, _) => False
  end.
Proof.
  split; [exact (sample_config_ok true)|]. split; [exact sample_turns_ok|].
  exact (udp_source_safe sample_world (sample_config true) sample_turns (sample_config_ok true) sample_turns_ok).
Defined.
Lemma udp_clock_of_source_witness : Forall turn_ok sample_turns ∧
  ∃ c' fs b, recvLoop (sample_geometry false) sample_turns (sample_client false) = (c', fs, Ok b) ∧
    clock_of (ClockRate (g_cfg (sample_geometry false))) (λ sr now, Exists (λ t, heard (sample_geometry false) t sr now) sample_turns) (sync_of c').
Proof.
  split; [exact sample_turns_ok|].
  exact (udp_clock_of_source sample_world (sample_config false) sample_turns (sample_geometry false) (sample_client false) [MediaSocket]
    (sample_config_ok false) sample_turns_ok (sample_open false)).
Defined.

Definition sample_arrivals (l : list (list Z)) : list (list Z * list Z * rtcp.Time) := (λ p, (sample_from, p, pipeline.sample_now)) <$> l.
Lemma sample_gives : Forall2 (gives (sample_geometry false) 9) (sample_arrivals transport.sample_stream)
    (reorder.wire_trace (reorder.numbered 65535 transport.sample_stream)) ∧
  Forall2 (gives (sample_geometry false) 9) (sample_arrivals [transport.sample_datagram 65535 1; transport.sample_datagram 1 3; transport.sample_datagram 0 2])
    (reorder.wire_trace [(65535, transport.sample_datagram 65535 1); (65537, transport.sample_datagram 1 3); (65536, transport.sample_datagram 0 2)]).
Proof.
  pose proof transport.sample_stream_ok as Hs. unfold transport.sample_stream in *. apply Forall_cons_iff in Hs as [H1 [H2 [H3 _]%Forall_cons_iff]%Forall_cons_iff].
  split; repeat (constructor; [split; [reflexivity|split; [|reflexivity]; split; [assumption|split; [reflexivity|eexists; split_and!; reflexivity]]]|]); constructor.
Qed.
Lemma sample_source_ok : client_ok kindOpus (at_ring None 0 false) (sample_client false).
Proof. by repeat split. Qed.
Lemma udp_reorder_in_order_witness : client_ok kindOpus (at_ring None 0 false) (sample_client false) ∧
  ∃ c1 f1 c2 f2 r, recvLoop (sample_geometry false) (arrival <$> sample_arrivals [transport.sample_datagram 65535 1; transport.sample_datagram 1 3; transport.sample_datagram 0 2])
      (with_ring (Some reorder.zero) 0 false (sample_client false)) = (c1, f1, Ok false) ∧
    recvLoop (sample_geometry false) (arrival <$> sample_arrivals transport.sample_stream) (sample_client false) = (c2, f2, Ok false) ∧
    undate <$> f1 = undate <$> f2 ∧ media c1 = media c2 ∧ ring c1 = Some r ∧ reorder.Stats r = reorder.mkStats 0 0 0.
Proof.
  split; [exact sample_source_ok|].
  apply (udp_reorder_in_order (sample_geometry false) 9 65535 (transport.sample_datagram 65535 1) transport.sample_stream
    [(65537, transport.sample_datagram 1 3); (65536, transport.sample_datagram 0 2)]).
  - split; [by intros [|]|done|done].
  - reflexivity.
  - exact sample_source_ok.
  - lia.
  - cbn. constructor. apply perm_swap.
  - cbn. unfold reorder.MaxReorderWindow. repeat constructor; cbn; lia.
  - exact (proj2 sample_gives).
  - exact (proj1 sample_gives).
Defined.
End udpmedia.
